(* ===== verification/_CoqProject ===== *)
-Q . S2P
Prelude.v
GoLib.v
Errors.v
Varint.v
Buffers.v
Fields.v
PropView.v
Utf8.v
Topics.v
Validate.v
PropLists.v
Publish.v
Frames.v
Acks.v
Connect.v
Subscribe.v
Decoder.v
Stream.v
Refusals.v
Codec.v
Trie.v
Session.v
IdTable.v
Batch.v
Inflight.v
Machine.v
EngineInv.v
Footprint.v
EngineConn.v
Restart.v
Durable.v
EngineSafety.v
Sending.v
Inbound.v
Queue.v
ClientErrors.v
Message.v
Checksum.v
FileDb.v
FileStore.v
FileQueue.v
QueuePublisher.v
Subscriptions.v
SubsLists.v
SubsQueue.v
SubsState.v
SubsOps.v
SubsMachine.v
SubsTheorems.v
SubsRecovery.v
SubsSettle.v
Dispatch.v
SubQueue.v
InboundWindow.v
Delivering.v
ConnWriter.v
ConnOrder.v
ConnStream.v
ConnExit.v
OutAlias.v
