(* ===== verification/Prelude.v ===== *)
(** * mqttv5: a verification development

    The program is a Go client library for MQTT 5.0.  Its wire package turns
    option structs into packets and packets into decoded values.  A client
    built on it runs the QoS 1 and QoS 2 exchanges of a session in an
    in-flight engine, which keeps what must survive in a session store; it
    shares broker subscriptions between local ones, queues their SUBSCRIBEs and
    UNSUBSCRIBEs across connections, and routes inbound messages through a
    topic trie to channels, queues and callbacks; and it drives goroutines
    that read from and write to a connection.  A queue publisher drains a
    publisher queue into the session.  Stores and queues exist in memory and
    in files, on top of a key-value database.  This development models the wire
    package, the trie, both session stores, the engine, both queues and the
    queue publisher, the subscriptions and the dispatch of inbound messages as
    executable functions and proves what the rest of the client and its users
    rely on.

    ** How Go is modelled

    A Go [int] or fixed-width integer is a [Z], with the wrap-around written
    where the code converts or shifts; a byte is a [Z] in [0, 256); strings
    and byte slices are [list Z].  A call's outcome is [res E A]: a value, a
    returned error or a run-time [Panic] (an index or slice bound out of
    range, and also a loop whose fuel ran out: "does not panic" therefore
    says "terminates" too).  Writers fill a buffer taken from a pool; its old
    contents are arbitrary, so every theorem on an encoder holds for any
    leftovers.  A [bufio.Reader] is the list of bytes the connection will
    deliver and the error it ends with.  The engine is a state machine: a
    record of its state, one function per method, and a [step] function of
    the events that reach it (calls, packets, store writes that end, crashes);
    a flow the Go code points to is a name in a heap of flows, so that the
    lists, maps and queued writes that share it see the same flow.  The
    structs of the subscriptions are names in heaps in the same way; the
    goroutine that holds [ctrlSem] is at a program point of a machine, beside
    the read loop, the supervisor and [Disconnect]; a [range] over a map visits
    it in an order that is an input.  Where two goroutines meet at an atomic
    (the reference count of a delivery, the token of a queue), what each does
    between two atomics is a step of its own.  bbolt, the database of the file
    stores, is the class [Bolt] of its documented laws, with an instance; what
    the queue publisher's session, clock and scheduler do are inputs of its
    machine.

    ** The files

    - [Prelude]: lengths and slices with [Z] indices, hints and tactics.
    - [GoLib]: outcomes, integers, slices, encoding/binary, strings, UTF-8.
    - [Errors]: packet types, reason codes, sentinels, [PacketError],
      wrapping (wire/codec.go, wire/validate.go); [frame_owned] says how
      often an error path has given its frame back.
    - [Varint]: Variable Byte Integers (wire/fields.go).
    - [Buffers]: the size-classed frame pools (wire/codec.go) and the
      [BufferPool] interface the encoders are proved against.
    - [Fields]: strings, binary data and property writers (wire/fields.go);
      [writes] relates a writer to the bytes it puts into any buffer.
    - [PropView]: the lazy property views and their walk (wire/fields.go).
    - [Utf8], [Topics]: word-at-a-time screens, topic names and filters
      (wire/validate.go).
    - [Validate]: property sections, reason codes and option checks
      (wire/validate.go).
    - [PropLists]: lemmas on the property lists the encoders build.
    - [Publish] (wire/publish.go), [Acks] (the acknowledgements of
      wire/publish.go; AUTH, DISCONNECT and the pings of wire/connect.go),
      [Connect] (wire/connect.go), [Subscribe] (wire/subscribe.go): one
      record per options struct and per decoded packet, validation, writers
      and decoders; [Frames] holds what they share.
    - [Decoder]: [checkHeader], [readBody], [decodeBody], [validatePacket],
      [ReadPacket], [Ready] (wire/codec.go, wire/validate.go).
    - [Stream]: [ReadPacket] as a function of one frame.
    - [Refusals]: what the writers do with options they cannot send.
    - [Codec]: the [PacketFormat] interface, one instance per packet type,
      and the theorems on the wire package as a whole.
    - [Trie]: internal/trie/trie.go.
    - [Session]: session/store.go, the [Store] contract and [MemoryStore].
    - [IdTable], [Batch]: packet identifiers and the frames of one write
      (internal/inflight/engine.go).
    - [Inflight]: the engine (internal/inflight/engine.go, outbound.go,
      inbound.go, writes.go), one function per method.
    - [Machine]: the engine with its store, its background writer and a
      connection as one machine of events; [reachable] states.
    - [EngineInv]: the invariant of the engine; [Footprint]: what each
      operation leaves alone; [EngineConn], [Restart], [Durable]: it holds
      across connections, restarts and store writes.
    - [EngineSafety], [Sending], [Inbound]: the theorems on the machine.
    - [Queue]: queue_publisher.go, the [PublisherQueue] contract and
      [MemoryPublisherQueue].
    - [ClientErrors], [Message]: errors and publish options of types.go.
    - [Checksum], [FileDb]: sealed values, transactions and group commit
      (internal/filedb/filedb.go) over the class [Bolt].
    - [FileStore]: store/file/store.go, a second instance of [Store];
      [FileQueue]: queue/file/queue.go, a second one of [PublisherQueue].
    - [QueuePublisher]: queue_publisher.go, the drain over any
      [PublisherQueue].
    - [Subscriptions]: subscription.go and the filters and results of
      subscribe.go: data, one function per method, the machine of events;
      [SubsLists], [SubsQueue], [SubsState], [SubsOps], [SubsMachine]: the
      invariants (the queue of operations and its packet identifiers; broker
      subscriptions, holders, Subscription Identifiers, views) and that each
      operation keeps them; [SubsTheorems]: what follows for any run;
      [SubsRecovery] and [SubsSettle]: what a lost session and the end of
      subscriptions put in the queue.
    - [Dispatch]: routing, topic aliases (conn.go) and the deliveries several
      subscriptions share (subscribe.go).
    - [SubQueue]: [Queue[T]] of subscribe.go.
    - [InboundWindow]: the engine's inbound flow control as the class [Window]
      and the engine as its instance.
    - [Delivering]: subscribe options and the delivery functions of
      subscribe.go, over any [Window].
    - [ConnWriter]: the write side of a connection (conn.go, and publish.go's
      [admitQoS0]): direct writes, the write queue, the writer goroutine and
      its exit, as a machine; [ConnOrder], [ConnStream]: its invariants and
      theorems; [ConnExit]: its termination.
    - [OutAlias]: outbound topic aliases of publish.go, against the resolver of
      [Dispatch].

    ** What the theorems show

    - Wire format, both directions: every valid packet is written, whatever
      the recycled buffers hold, and read back as the same packet, alone and
      in sequences ([codec_roundtrip], [stream_roundtrip]); the writers
      refuse exactly the rest, without panicking, as long as bodies stay below
      4 GiB ([write_exact]; from there on lengths wrap, [length_wraps]).
    - Hostile input: no byte sequence makes [ReadPacket] or a property
      accessor panic ([ReadPacket_safe], [accessors_total]); packets it
      returns are exactly one frame and validated ([ReadPacket_framing]);
      memory grows with what arrived ([readBody_bounded]); a lenient decoder
      differs from a strict one only where it reports
      ([lenient_conservative]).
    - Optimised routines equal their plain definitions: the UTF-8 and
      wildcard screens, the property validator, [AppendPubResp], the four
      PUBLISH encoders, the in-place Message Expiry update.
    - Grammars: topic names and filters of section 4.7.
    - Refinement: the trie answers like a list of registrations
      ([trie_refines_registrations]) and stays free of empty nodes; a
      [MemoryStore] holds what the calls made of it leave
      ([session_recovered]).
    - The in-flight engine, for every interleaving of callers, broker, store
      writes and crashes: its state is well formed ([session_well_formed]); a
      PUBLISH goes out only when the store has it ([publish_after_store]), in
      the order of registration ([publish_order]), and the PUBLISHes a
      connection has sent and the server not answered stay within its Receive
      Maximum, exchanges of earlier connections aside ([receive_maximum]); a packet identifier belongs to one
      flow until the exchange is over and its record settled
      ([packet_ids_exclusive]); the next process resumes exactly what the
      store holds ([restart_recovers]); a message acknowledged with PUBREC is
      not delivered a second time ([exactly_once]), and acknowledgements go
      out in the order of arrival ([acks_in_order]).
    - Files: the next process recovers from the file exactly what was stored
      ([file_session_recovered]), damage costs the damaged record only
      ([file_damage_contained], [seal_protects]), and writes that share a
      transaction fare as if they came one after the other ([group_commit]).
    - Queues: the in-memory and the file queue answer like the contract
      ([memory_queue_refines]; [file_queue_refines], for sequence numbers below
      2^64-1, where [peek_wraps]), the first in memory
      proportional to what it holds ([memory_queue_bounded]).
    - The queue publisher loses nothing ([queue_nothing_lost]), has at most
      one exchange per message ([queue_one_exchange]), sleeps over nothing it
      could send ([queue_no_lost_wakeup]), and its passes end
      ([queue_fill_terminates]); expiry is kept ([queue_expiry]).
    - Subscriptions, for every interleaving of subscribers, sender,
      acknowledgements, lost connections and sessions and the end: no step
      panics or loops ([subscriptions_never_stuck]); every operation is
      answered once ([operations_answered_once]); packet identifiers are
      neither leaked nor shared ([control_ids_exact]), Subscription
      Identifiers not reused while in use ([subscription_identifiers_exact]);
      what is live is consistent ([subscriptions_consistent]); after a lost
      session exactly the live subscriptions are subscribed again
      ([session_loss_resubscribes]); an UNSUBSCRIBE names exactly the filters
      nobody wants any more ([settle_exact]).
    - Inbound messages: each reaches exactly the live subscriptions it was
      sent for, once ([routing_exact]); aliases resolve to what was last named
      ([alias_resolution_exact]); a shared message is acknowledged once, and a
      frame its readers share released, when everyone is done
      ([delivery_acked_once]); messages of QoS 1 and 2 are
      never dropped for want of room ([qos_messages_never_dropped], proved
      against the engine's flow control as an interface).
    - The subscriber's queue is a bounded first-in first-out list
      ([subscriber_queue_refines]) whose consumer never sleeps over an item
      ([dequeue_no_lost_wakeup]).
    - A connection writes whole packets one after the other, wherever writes
      are cut short ([stream_whole]), in the order they were admitted
      ([write_order]), and answers every queued request once, with nil
      only when its packet went out in one piece ([requests_answered]); once it is down, it is wound up however the
      parties are scheduled ([writer_exits]). In the moment between the close
      of [dying] and that of the socket a dropped tail can be followed by
      another packet ([packet_after_dropped_tail]).
    - Outbound topic aliases resolve to the topics published
      ([outbound_aliases_exact]), unless a caller sets aliases of its own
      ([own_alias_misroutes]).
    - Frame ownership: which refusals give the frame back
      ([decoders_release_frame]) and the CONNECT paths that do not
      ([connect_frame_not_released]).

    ** Fuel and bounds

    Loops that are not structural carry fuel.  A Variable Byte Integer takes
    at most four groups, the readers have fuel for one more test; a property
    walk advances by at least one byte, so the length of the section plus
    one is enough; [readBody] grows its buffer fourfold from 64 KiB, so ten
    rounds exceed the largest Remaining Length; [matchLevels] consumes a
    separator or ends, so the topic's length plus two is enough; the loops of
    [sort.Search] and [take] run over an index range they shorten in each
    round, so its length is enough; the search for a Subscription Identifier
    tries one more candidate than there are in use.  Running out
    is [Panic] or [None], which the theorems exclude, or, for [Match], an
    answer the refinement theorem excludes.  The theorems on subscriptions hold
    while fewer than 268435455 subscriptions and filters were asked for, so that
    an identifier is always free.

    ** Not modelled

    Text of formatted messages (the format string is kept); the object pools
    behind [Release] and slice aliasing ([Clone], views of a frame), since
    slices are values; the locks around trie, store, engine and queue, whose
    operations are atomic; [Discard] waits for the background writer, which is
    one step here; the uint64 counters of the engine do not wrap; creating
    directories and files; connection handshakes, keep-alive, reconnects with
    their backoff (floating-point delays), authentication exchanges and
    client groups; statistics and logging; timers and network I/O, payload
    codecs, test programs.

    ** Plan

    Next the supervisor and the handshake (lifecycle.go) around the engine, the
    subscriptions and the connection's writer, the checks of the option
    structs, and client groups as clients of [Delivering]. *)

From stdpp Require Export base list gmap numbers strings sorting.
From Stdlib Require Export ZArith Lia.

#[global] Open Scope Z_scope.

(** ** Lengths and slices with Go integer indices *)

(** Go's [len]: lengths and offsets are [Z], as Go's [int]. *)
Definition len {A} (l : list A) : Z := Z.of_nat (length l).

Definition ztake {A} (n : Z) (l : list A) : list A := take (Z.to_nat n) l.
Definition zdrop {A} (n : Z) (l : list A) : list A := drop (Z.to_nat n) l.

#[global] Arguments len {A} l : simpl never.
#[global] Arguments ztake {A} n l : simpl never.
#[global] Arguments zdrop {A} n l : simpl never.

Section len_lemmas.
Context {A : Type}.
Implicit Types l k : list A.

Lemma len_nonneg l : 0 <= len l.
Proof. unfold len; lia. Qed.

Lemma len_nil : len (@nil A) = 0.
Proof. reflexivity. Qed.

Lemma len_cons x l : len (x :: l) = 1 + len l.
Proof. unfold len; simpl length; lia. Qed.

Lemma len_app l k : len (l ++ k) = len l + len k.
Proof. unfold len; rewrite length_app; lia. Qed.

Lemma len_map {B} (f : A -> B) l : len (map f l) = len l.
Proof. unfold len; by rewrite length_map. Qed.

Lemma len_repeat (x : A) n : len (repeat x n) = Z.of_nat n.
Proof. unfold len; by rewrite repeat_length. Qed.

Lemma len_ztake n l : 0 <= n <= len l -> len (ztake n l) = n.
Proof. unfold len, ztake; rewrite length_take; lia. Qed.

Lemma len_zdrop n l : 0 <= n <= len l -> len (zdrop n l) = len l - n.
Proof. unfold len, zdrop; rewrite length_drop; lia. Qed.

Lemma len_0_nil l : len l = 0 -> l = [].
Proof. destruct l; rewrite ?len_cons; [done|]. pose proof (len_nonneg l); lia. Qed.

Lemma len_nil_iff l : len l = 0 <-> l = [].
Proof. split; [apply len_0_nil | by intros ->]. Qed.

Lemma ztake_0 l : ztake 0 l = [].
Proof. reflexivity. Qed.

Lemma zdrop_0 l : zdrop 0 l = l.
Proof. reflexivity. Qed.

Lemma ztake_app_len l k n : n = len l -> ztake n (l ++ k) = l.
Proof.
  intros ->. unfold ztake, len. rewrite Nat2Z.id.
  by rewrite take_app_length.
Qed.

Lemma zdrop_app_len l k n : n = len l -> zdrop n (l ++ k) = k.
Proof.
  intros ->. unfold zdrop, len. rewrite Nat2Z.id.
  by rewrite drop_app_length.
Qed.

Lemma ztake_zdrop n l : ztake n l ++ zdrop n l = l.
Proof. apply take_drop. Qed.

Lemma ztake_len l : ztake (len l) l = l.
Proof. unfold ztake, len. rewrite Nat2Z.id. by rewrite firstn_all. Qed.

Lemma zdrop_zdrop n m l : 0 <= n -> 0 <= m -> zdrop n (zdrop m l) = zdrop (m + n) l.
Proof. intros. unfold zdrop. rewrite drop_drop. f_equal. lia. Qed.

Lemma zdrop_app_ge l k n : len l <= n -> zdrop n (l ++ k) = zdrop (n - len l) k.
Proof.
  unfold zdrop, len. intros. rewrite drop_app_ge by lia. f_equal. lia.
Qed.

Lemma split_at n l : 0 <= n <= len l -> exists l1 l2, l = l1 ++ l2 /\ len l1 = n.
Proof.
  intros. exists (ztake n l), (zdrop n l).
  by rewrite ztake_zdrop, len_ztake.
Qed.

Lemma zdrop_past n l : len l <= n -> zdrop n l = [].
Proof. unfold zdrop, len. intros. apply drop_ge. lia. Qed.

Lemma len_cons_inv l : 0 < len l -> exists x k, l = x :: k.
Proof. destruct l; rewrite ?len_nil; [lia|eauto]. Qed.
End len_lemmas.

Create Rewrite HintDb len.
#[export] Hint Rewrite @len_nil @len_cons @len_app @len_map @len_repeat : len.

(** [slia]: linear arithmetic over lengths. *)
Ltac len_facts :=
  repeat match goal with
  | |- context [len ?l] =>
      lazymatch goal with H : 0 <= len l |- _ => fail | _ => pose proof (len_nonneg l) end
  | _ : context [len ?l] |- _ =>
      lazymatch goal with H : 0 <= len l |- _ => fail | _ => pose proof (len_nonneg l) end
  end.
Ltac slia := autorewrite with len in *; len_facts; lia.

(** [dlia]: linear arithmetic with division and remainder by constants. *)
Ltac dlia := Z.div_mod_to_equations; lia.

(** Evaluate the powers of two of the machine widths. *)
Ltac pow2 :=
  change (2 ^ 7) with 128 in *; change (2 ^ 8) with 256 in *;
  change (2 ^ 14) with 16384 in *; change (2 ^ 16) with 65536 in *;
  change (2 ^ 21) with 2097152 in *; change (2 ^ 24) with 16777216 in *;
  change (2 ^ 28) with 268435456 in *; change (2 ^ 32) with 4294967296 in *;
  change (2 ^ 64) with 18446744073709551616 in *.

(** ** Lists *)

Lemma list_filter_all {A} (P : A -> Prop) `{!forall x, Decision (P x)} (l : list A) : (forall x, x ∈ l -> P x) -> filter P l = l.
Proof.
  induction l as [|x l IH]; [done|]. intros Hl. rewrite filter_cons_True by (apply Hl; by left). f_equal. apply IH. intros y Hy. apply Hl. by right.
Qed.

Lemma list_filter_none {A} (P : A -> Prop) `{!forall x, Decision (P x)} (l : list A) : (forall x, x ∈ l -> ~ P x) -> filter P l = [].
Proof.
  induction l as [|x l IH]; [done|]. intros Hl. rewrite filter_cons_False by (apply Hl; by left). apply IH. intros y Hy. apply Hl. by right.
Qed.

(** A list whose first [n] elements fail [P] and whose others satisfy it. *)
Lemma filter_drop {A} (P : A -> Prop) `{!forall x, Decision (P x)} (l : list A) n :
  (forall x, x ∈ take n l -> ~ P x) -> (forall x, x ∈ drop n l -> P x) -> filter P l = drop n l.
Proof. intros H1 H2. rewrite <- (take_drop n l) at 1. by rewrite filter_app, list_filter_none, list_filter_all. Qed.

Lemma StronglySorted_sublist {A} (R : A -> A -> Prop) l1 l2 : sublist l1 l2 -> StronglySorted R l2 -> StronglySorted R l1.
Proof.
  induction 1 as [|x l1 l2 Hs IH|x l1 l2 Hs IH]; intros H; [constructor|..]; apply StronglySorted_inv in H as [H Hx]; [|auto].
  constructor; [auto|]. apply Forall_forall. intros y Hy. apply (proj1 (Forall_forall _ _) Hx), (sublist_subseteq _ _ Hs y Hy).
Qed.

Lemma StronglySorted_filter {A} (R : A -> A -> Prop) (P : A -> Prop) `{!forall x, Decision (P x)} (l : list A) :
  StronglySorted R l -> StronglySorted R (filter P l).
Proof. apply StronglySorted_sublist, sublist_filter. Qed.

Lemma StronglySorted_drop {A} (R : A -> A -> Prop) n (l : list A) : StronglySorted R l -> StronglySorted R (drop n l).
Proof. apply StronglySorted_sublist, sublist_drop. Qed.

(** *** Loops *)

(** What every round leaves alone. *)
Lemma foldl_frame {S X P} (π : S -> P) (f : S -> X -> S) :
  (forall s x, π (f s x) = π s) -> forall l s, π (foldl f s l) = π s.
Proof. intros H l. induction l as [|x l IH]; intros s; [done|]. cbn. by rewrite IH. Qed.

Lemma foldl_inv {S X} (I : S -> Prop) (f : S -> X -> S) :
  (forall s x, I s -> I (f s x)) -> forall l s, I s -> I (foldl f s l).
Proof. intros H l. induction l as [|x l IH]; intros s Hs; [done|]. cbn. auto. Qed.

(** An invariant that speaks of the rest of the list. *)
Lemma foldl_rest {S X} (I : list X -> S -> Prop) (f : S -> X -> S) :
  (forall x l s, I (x :: l) s -> I l (f s x)) -> forall l s, I l s -> I [] (foldl f s l).
Proof. intros H l. induction l as [|x l IH]; intros s Hs; [done|]. cbn. auto. Qed.

(** *** Slices *)

(** Slicing with an index that may be negative. *)
Lemma zdrop_nonpos {A} n (l : list A) : n <= 0 -> zdrop n l = l.
Proof. intros H. unfold zdrop. by replace (Z.to_nat n) with 0%nat by lia. Qed.

Lemma ztake_nonpos {A} n (l : list A) : n <= 0 -> ztake n l = [].
Proof. intros H. unfold ztake. by replace (Z.to_nat n) with 0%nat by lia. Qed.

Lemma zdrop_cons {A} n (x : A) (l : list A) : 0 < n -> zdrop n (x :: l) = zdrop (n - 1) l.
Proof. intros H. unfold zdrop. by replace (Z.to_nat n) with (S (Z.to_nat (n - 1))) by lia. Qed.

Lemma ztake_cons {A} n (x : A) (l : list A) : 0 < n -> ztake n (x :: l) = x :: ztake (n - 1) l.
Proof. intros H. unfold ztake. by replace (Z.to_nat n) with (S (Z.to_nat (n - 1))) by lia. Qed.

(** ** Record update *)

(** [Rebuild R] is the record of type [R] put together from its own fields;
    [r <| field := v |>] and [r <| field ::= f |>] replace one of them. *)
Class Rebuild (R : Type) : Type := rebuild : R -> R.
Class Update {R T : Type} (field : R -> T) : Type := update : (T -> T) -> R -> R.

Ltac derive_update :=
  match goal with
  | |- @Update ?R ?T ?p =>
      let f := fresh "f" in
      let r := fresh "r" in
      refine (fun (f : T -> T) (r : R) => _);
      let whole := eval hnf in (@rebuild R _ r) in
      let parts := eval pattern (p r) in whole in
      match parts with
      | ?hole _ => let new := eval cbv beta in (hole (f (p r))) in exact new
      end
  end.
#[export] Hint Extern 0 (Update _) => derive_update : typeclass_instances.

Notation "r <| field := v |>" := (update (field := field) (fun _ => v) r)
  (at level 1, left associativity, format "r  <| field  :=  v |>").
Notation "r <| field ::= f |>" := (update (field := field) f r)
  (at level 1, left associativity, format "r  <| field  ::=  f |>").
