(* ===== verification/GoLib.v ===== *)
(** * GoLib: the Go language and standard library the sources use

    Outcomes of Go calls ([res]: a value, a returned error, or a run-time
    panic), fixed-width integers, slices and buffers, [encoding/binary],
    [strings]/[bytes] helpers and [unicode/utf8.Valid].  Bytes are [Z] in
    [0, 256); Go strings and byte slices are [list Z]. *)

From S2P Require Import Prelude.

(** ** Outcomes *)

(** [Panic] is a run-time panic (an index or slice bound out of range). A
    loop whose fuel runs out also ends in [Panic], so a proof that a
    computation is not [Panic] is a proof that it terminates too. *)
Inductive res (E A : Type) : Type :=
| Ok (a : A)
| Err (e : E)
| Panic.
Arguments Ok {E A} a.
Arguments Err {E A} e.
Arguments Panic {E A}.

Definition rbind {E A B} (m : res E A) (f : A -> res E B) : res E B :=
  match m with
  | Ok a => f a
  | Err e => Err e
  | Panic => Panic
  end.

Declare Scope go_scope.
Delimit Scope go_scope with go.
Notation "'let!' p := m 'in' k" := (rbind m (fun x => match x with p => k end))
  (at level 10, p pattern, m at level 100, k at level 200) : go_scope.
#[global] Open Scope go_scope.

(** [if err != nil { return f(err) }] *)
Definition map_err {E A} (f : E -> E) (m : res E A) : res E A :=
  match m with
  | Err e => Err (f e)
  | r => r
  end.

(** The same where the caller's error carries more. *)
Definition on_err {E E' A} (f : E -> E') (m : res E A) : res E' A :=
  match m with
  | Ok a => Ok a
  | Err e => Err (f e)
  | Panic => Panic
  end.

Definition no_panic {E A} (m : res E A) : Prop := m <> Panic.

Definition is_ok {E A} (m : res E A) : bool :=
  match m with Ok _ => true | _ => false end.

Section res_lemmas.
Context {E A B : Type}.

Lemma rbind_ok (a : A) (f : A -> res E B) : rbind (Ok a) f = f a.
Proof. reflexivity. Qed.

Lemma no_panic_bind (m : res E A) (f : A -> res E B) :
  no_panic m -> (forall a, m = Ok a -> no_panic (f a)) -> no_panic (rbind m f).
Proof. unfold no_panic. destruct m; simpl; eauto; congruence. Qed.

Lemma no_panic_map_err (g : E -> E) (m : res E A) : no_panic m -> no_panic (map_err g m).
Proof. unfold no_panic. destruct m; simpl; congruence. Qed.

Lemma no_panic_on_err {E'} (g : E -> E') (m : res E A) : no_panic m -> no_panic (on_err g m).
Proof. unfold no_panic. destruct m; simpl; congruence. Qed.

Lemma no_panic_ok (a : A) : no_panic (@Ok E A a).
Proof. discriminate. Qed.

Lemma no_panic_err (e : E) : no_panic (@Err E A e).
Proof. discriminate. Qed.

Lemma rbind_ok_inv (m : res E A) (f : A -> res E B) b :
  rbind m f = Ok b -> exists a, m = Ok a /\ f a = Ok b.
Proof. destruct m; simpl; [eauto| |]; discriminate. Qed.
End res_lemmas.

Create HintDb nopanic discriminated.
#[export] Hint Resolve no_panic_ok no_panic_err no_panic_map_err no_panic_on_err : nopanic.

(** ** Fixed-width integers *)

Definition u8 (z : Z) : Z := z mod 2 ^ 8.
Definition u16 (z : Z) : Z := z mod 2 ^ 16.
Definition u32 (z : Z) : Z := z mod 2 ^ 32.
Definition u64 (z : Z) : Z := z mod 2 ^ 64.

Definition is_u8 (z : Z) : Prop := 0 <= z < 2 ^ 8.
Definition is_u16 (z : Z) : Prop := 0 <= z < 2 ^ 16.
Definition is_u32 (z : Z) : Prop := 0 <= z < 2 ^ 32.

(** A byte slice or string: every element is a byte. *)
Definition bytes (l : list Z) : Prop := Forall is_u8 l.

#[global] Arguments u8 z : simpl never.
#[global] Arguments u16 z : simpl never.
#[global] Arguments u32 z : simpl never.
#[global] Arguments u64 z : simpl never.

Lemma u8_small z : is_u8 z -> u8 z = z.
Proof. intros. by apply Z.mod_small. Qed.
Lemma u16_small z : is_u16 z -> u16 z = z.
Proof. intros. by apply Z.mod_small. Qed.
Lemma u32_small z : is_u32 z -> u32 z = z.
Proof. intros. by apply Z.mod_small. Qed.
Lemma u8_range z : is_u8 (u8 z).
Proof. by apply Z.mod_pos_bound. Qed.
Lemma u16_range z : is_u16 (u16 z).
Proof. by apply Z.mod_pos_bound. Qed.
Lemma u32_range z : is_u32 (u32 z).
Proof. by apply Z.mod_pos_bound. Qed.

Create HintDb go discriminated.
#[export] Hint Resolve u8_range u16_range u32_range : go.

Lemma bytes_nil : bytes [].
Proof. constructor. Qed.
Lemma bytes_cons b l : bytes (b :: l) <-> is_u8 b /\ bytes l.
Proof. apply Forall_cons. Qed.
Lemma bytes_app l k : bytes (l ++ k) <-> bytes l /\ bytes k.
Proof. apply Forall_app. Qed.
Lemma bytes_ztake n l : bytes l -> bytes (ztake n l).
Proof. apply Forall_take. Qed.
Lemma bytes_zdrop n l : bytes l -> bytes (zdrop n l).
Proof. apply Forall_drop. Qed.
#[export] Hint Resolve bytes_nil bytes_ztake bytes_zdrop : go.

(** ** String constants *)

Definition str (s : string) : list Z :=
  map (fun a => Z.of_N (Ascii.N_of_ascii a)) (String.list_ascii_of_string s).

(** ** Reading slices *)

Section slices.
Context {E : Type}.

(** [buf[i]] *)
Definition idx (buf : list Z) (i : Z) : res E Z :=
  if (0 <=? i) && (i <? len buf) then Ok (nth (Z.to_nat i) buf 0) else Panic.

(** [buf[i:]] *)
Definition from (buf : list Z) (i : Z) : res E (list Z) :=
  if (0 <=? i) && (i <=? len buf) then Ok (zdrop i buf) else Panic.

(** [buf[i:j]] of a slice whose capacity is its length *)
Definition slice (buf : list Z) (i j : Z) : res E (list Z) :=
  if (0 <=? i) && (i <=? j) && (j <=? len buf)
  then Ok (ztake (j - i) (zdrop i buf)) else Panic.

(** ** Writing into a buffer in place *)

(** Replace the bytes of [buf] at [off] by [bs]; panics unless they fit. *)
Definition put (buf : list Z) (off : Z) (bs : list Z) : res E (list Z) :=
  if (0 <=? off) && (off + len bs <=? len buf)
  then Ok (ztake off buf ++ bs ++ zdrop (off + len bs) buf) else Panic.

(** [buf[off] = b] *)
Definition set (buf : list Z) (off b : Z) : res E (list Z) := put buf off [b].

(** [n := copy(buf[off:], s)] *)
Definition copy (buf : list Z) (off : Z) (s : list Z) : res E (list Z * Z) :=
  if (0 <=? off) && (off <=? len buf)
  then let n := Z.min (len s) (len buf - off) in
       let! buf' := put buf off (ztake n s) in Ok (buf', n)
  else Panic.
End slices.

(** Run [w] on the sub-slice [buf[i:j]], which shares [buf]'s memory. *)
Definition with_sub {E} (buf : list Z) (i j : Z) (w : list Z -> res E (list Z)) : res E (list Z) :=
  let! sub := slice buf i j in
  let! sub := w sub in
  put buf i sub.

(** ** encoding/binary *)

Definition be16 (v : Z) : list Z := [u8 (Z.shiftr v 8); u8 v].
Definition be32 (v : Z) : list Z :=
  [u8 (Z.shiftr v 24); u8 (Z.shiftr v 16); u8 (Z.shiftr v 8); u8 v].
Definition be64 (v : Z) : list Z :=
  be32 (Z.shiftr v 32) ++ be32 v.

Section binary.
Context {E : Type}.

(** [binary.BigEndian.Uint16(b)] *)
Definition Uint16 (b : list Z) : res E Z :=
  let! b1 := idx b 1 in let! b0 := idx b 0 in Ok (Z.lor b1 (Z.shiftl b0 8)).

(** [binary.BigEndian.Uint32(b)] *)
Definition Uint32 (b : list Z) : res E Z :=
  let! b3 := idx b 3 in let! b2 := idx b 2 in let! b1 := idx b 1 in let! b0 := idx b 0 in
  Ok (Z.lor (Z.lor (Z.lor b3 (Z.shiftl b2 8)) (Z.shiftl b1 16)) (Z.shiftl b0 24)).

(** [binary.BigEndian.PutUint16(buf[off:], v)] *)
Definition PutUint16 (buf : list Z) (off v : Z) : res E (list Z) := put buf off (be16 v).

(** [binary.BigEndian.PutUint32(buf[off:], v)] *)
Definition PutUint32 (buf : list Z) (off v : Z) : res E (list Z) := put buf off (be32 v).
End binary.

#[global] Arguments be16 v : simpl never.
#[global] Arguments be32 v : simpl never.
#[global] Arguments idx {E} buf i : simpl never.
#[global] Arguments from {E} buf i : simpl never.
#[global] Arguments slice {E} buf i j : simpl never.
#[global] Arguments put {E} buf off bs : simpl never.
#[global] Arguments set {E} buf off b : simpl never.
#[global] Arguments copy {E} buf off s : simpl never.
#[global] Arguments Uint16 {E} b : simpl never.
#[global] Arguments Uint32 {E} b : simpl never.
#[global] Arguments PutUint16 {E} buf off v : simpl never.
#[global] Arguments PutUint32 {E} buf off v : simpl never.

(** [binary.LittleEndian.Uint64] of the first bytes of [b]. *)
Fixpoint le_combine (b : list Z) : Z :=
  match b with
  | [] => 0
  | c :: t => Z.lor c (Z.shiftl (le_combine t) 8)
  end.

(** ** strings and bytes *)

Definition list_eqb (a b : list Z) : bool := bool_decide (a = b).

(** [strings.HasPrefix] *)
Fixpoint has_prefix (s p : list Z) : bool :=
  match p, s with
  | [], _ => true
  | c :: p', d :: s' => (c =? d) && has_prefix s' p'
  | _ :: _, [] => false
  end.

(** [strings.CutPrefix]: [Some rest] when found. *)
Definition cut_prefix (s p : list Z) : option (list Z) :=
  if has_prefix s p then Some (zdrop (len p) s) else None.

(** [strings.Cut(s, sep)] for a one-byte separator: [Some (before, after)]. *)
Fixpoint cut (s : list Z) (sep : Z) : option (list Z * list Z) :=
  match s with
  | [] => None
  | c :: t => if c =? sep then Some ([], t)
              else match cut t sep with
                   | Some (a, b) => Some (c :: a, b)
                   | None => None
                   end
  end.

(** [strings.Split(s, sep)] for a one-byte separator. *)
Fixpoint split (s : list Z) (sep : Z) : list (list Z) :=
  match s with
  | [] => [[]]
  | c :: t => if c =? sep then [] :: split t sep
              else match split t sep with
                   | l :: ls => (c :: l) :: ls
                   | [] => [[c]]
                   end
  end.

(** [strings.IndexByte(s, c)]; [None] is -1. *)
Fixpoint index_byte (s : list Z) (c : Z) : option Z :=
  match s with
  | [] => None
  | d :: t => if d =? c then Some 0
              else match index_byte t c with Some i => Some (1 + i) | None => None end
  end.

(** [strings.ContainsAny(s, chars)] for ASCII [chars]; [strings.Contains]
    of a one-byte string is the case of one character. *)
Definition contains_any (s chars : list Z) : bool :=
  existsb (fun c => existsb (Z.eqb c) chars) s.

Definition contains_byte (s : list Z) (c : Z) : bool := existsb (Z.eqb c) s.

(** ** unicode/utf8 *)

Definition in_range (lo hi c : Z) : bool := (lo <=? c) && (c <=? hi).
Definition cont (c : Z) : bool := in_range 0x80 0xBF c.

(** [utf8.Valid]: shortest-form UTF-8 without surrogates, up to U+10FFFF. *)
Fixpoint utf8_valid (b : list Z) : bool :=
  match b with
  | [] => true
  | c :: t =>
      if c <? 0x80 then utf8_valid t
      else match t with
      | [] => false
      | c1 :: t1 =>
          if in_range 0xC2 0xDF c then cont c1 && utf8_valid t1
          else match t1 with
          | [] => false
          | c2 :: t2 =>
              if in_range 0xE0 0xEF c then
                in_range (if c =? 0xE0 then 0xA0 else 0x80) (if c =? 0xED then 0x9F else 0xBF) c1
                && cont c2 && utf8_valid t2
              else match t2 with
              | [] => false
              | c3 :: t3 =>
                  in_range 0xF0 0xF4 c
                  && in_range (if c =? 0xF0 then 0x90 else 0x80) (if c =? 0xF4 then 0x8F else 0xBF) c1
                  && cont c2 && cont c3 && utf8_valid t3
              end
          end
      end
  end.

(** ** Lemmas *)

(** The rewriting rules that run a computation on a buffer of known shape. *)
Create Rewrite HintDb gorun.

(** Simplify the computations on concrete shapes: [run] evaluates the
    guards of slices by arithmetic. *)
Lemma idx_app {E} pre b post i : i = len pre -> @idx E (pre ++ b :: post) i = Ok b.
Proof.
  intros ->. unfold idx. rewrite (proj2 (Z.leb_le _ _)) by apply len_nonneg.
  rewrite (proj2 (Z.ltb_lt _ _)) by slia. simpl. f_equal.
  unfold len. rewrite Nat2Z.id, app_nth2 by lia. by rewrite Nat.sub_diag.
Qed.

Lemma idx_0 {E} a l : @idx E (a :: l) 0 = Ok a.
Proof. by apply (idx_app []). Qed.
Lemma idx_1 {E} a b l : @idx E (a :: b :: l) 1 = Ok b.
Proof. by apply (idx_app [a]). Qed.
Lemma idx_2 {E} a b c l : @idx E (a :: b :: c :: l) 2 = Ok c.
Proof. by apply (idx_app [a; b]). Qed.
Lemma idx_3 {E} a b c d l : @idx E (a :: b :: c :: d :: l) 3 = Ok d.
Proof. by apply (idx_app [a; b; c]). Qed.
#[export] Hint Rewrite @idx_0 @idx_1 @idx_2 @idx_3 : gorun.

Lemma from_app {E} pre post i : i = len pre -> @from E (pre ++ post) i = Ok post.
Proof.
  intros ->. unfold from. rewrite (proj2 (Z.leb_le _ _)) by apply len_nonneg.
  rewrite (proj2 (Z.leb_le _ _)) by slia. simpl. by rewrite zdrop_app_len.
Qed.

Lemma slice_app {E} pre mid post i j :
  i = len pre -> j = len pre + len mid -> @slice E (pre ++ mid ++ post) i j = Ok mid.
Proof.
  intros -> ->. unfold slice.
  rewrite (proj2 (Z.leb_le _ _)) by apply len_nonneg.
  rewrite !(proj2 (Z.leb_le _ _)) by slia. simpl.
  rewrite zdrop_app_len, ztake_app_len by lia. done.
Qed.

Lemma slice0_app {E} mid post j : j = len mid -> @slice E (mid ++ post) 0 j = Ok mid.
Proof. intros ->. apply (slice_app [] mid post); [done|]. slia. Qed.

Lemma put_app {E} pre old bs post off :
  off = len pre -> len old = len bs -> @put E (pre ++ old ++ post) off bs = Ok (pre ++ bs ++ post).
Proof.
  intros -> H. unfold put.
  rewrite (proj2 (Z.leb_le _ _)) by apply len_nonneg.
  rewrite !(proj2 (Z.leb_le _ _)) by slia. simpl.
  rewrite ztake_app_len by done. rewrite (app_assoc pre old post), zdrop_app_len by slia. done.
Qed.

Lemma put0_app {E} old bs post : len old = len bs -> @put E (old ++ post) 0 bs = Ok (bs ++ post).
Proof. by apply (put_app []). Qed.

Lemma copy_app {E} pre old s post off :
  off = len pre -> len old = len s -> @copy E (pre ++ old ++ post) off s = Ok (pre ++ s ++ post, len s).
Proof.
  intros -> H. unfold copy.
  rewrite (proj2 (Z.leb_le _ _)) by apply len_nonneg.
  rewrite !(proj2 (Z.leb_le _ _)) by slia. simpl.
  rewrite Z.min_l by slia. rewrite ztake_len, put_app by done. done.
Qed.

Lemma with_sub_app {E} pre old bs post i j (w : list Z -> res E (list Z)) :
  i = len pre -> j = len pre + len old -> w old = Ok bs -> len bs = len old ->
  with_sub (pre ++ old ++ post) i j w = Ok (pre ++ bs ++ post).
Proof.
  intros -> -> Hw Hlen. unfold with_sub. rewrite slice_app by done. cbn [rbind]. rewrite Hw. cbn [rbind].
  by apply put_app.
Qed.

Lemma len_be16 v : len (be16 v) = 2.
Proof. reflexivity. Qed.
Lemma len_be32 v : len (be32 v) = 4.
Proof. reflexivity. Qed.
#[export] Hint Rewrite len_be16 len_be32 : len.

Lemma bytes_be16 v : bytes (be16 v).
Proof. repeat constructor; apply u8_range. Qed.
Lemma bytes_be32 v : bytes (be32 v).
Proof. repeat constructor; apply u8_range. Qed.
#[export] Hint Resolve bytes_be16 bytes_be32 : go.

(** Bytes side by side: [lor] with a shifted value is a sum. *)
Lemma lor_shiftl_add a b n : 0 <= n -> 0 <= a < 2 ^ n -> Z.lor a (Z.shiftl b n) = a + b * 2 ^ n.
Proof.
  intros Hn Ha. rewrite Z.shiftl_mul_pow2 by done.
  rewrite <- Z.add_lor_land.
  enough (Z.land a (b * 2 ^ n) = 0) by lia.
  apply Z.bits_inj'. intros i Hi. rewrite Z.land_spec, Z.bits_0.
  destruct (Z.lt_ge_cases i n).
  - rewrite (Z.mul_pow2_bits_low b n i) by lia. by rewrite andb_false_r.
  - rewrite <- (Z.mod_small a (2 ^ n)) by done.
    by rewrite Z.mod_pow2_bits_high by lia.
Qed.

Lemma shiftr_div v n : 0 <= n -> Z.shiftr v n = v / 2 ^ n.
Proof. intros. by apply Z.shiftr_div_pow2. Qed.

Lemma Uint16_be16 {E} v post : is_u16 v -> @Uint16 E (be16 v ++ post) = Ok v.
Proof.
  intros Hv. unfold Uint16.
  unfold be16. cbn [app]. rewrite idx_1. cbn [rbind]. rewrite idx_0. cbn [rbind]. f_equal.
  rewrite lor_shiftl_add, shiftr_div; [|lia..|apply u8_range].
  unfold u8, is_u16 in *. pow2. dlia.
Qed.

Lemma Uint32_be32 {E} v post : is_u32 v -> @Uint32 E (be32 v ++ post) = Ok v.
Proof.
  intros Hv. unfold Uint32, be32.
  set (b0 := u8 (Z.shiftr v 24)). set (b1 := u8 (Z.shiftr v 16)).
  set (b2 := u8 (Z.shiftr v 8)). set (b3 := u8 v).
  cbn [app]. rewrite idx_3. cbn [rbind]. rewrite idx_2. cbn [rbind].
  rewrite idx_1. cbn [rbind]. rewrite idx_0. cbn [rbind].
  f_equal.
  assert (R0 : is_u8 b0) by apply u8_range. assert (R1 : is_u8 b1) by apply u8_range.
  assert (R2 : is_u8 b2) by apply u8_range. assert (R3 : is_u8 b3) by apply u8_range.
  unfold is_u8 in *. rewrite (lor_shiftl_add b3 b2) by lia.
  rewrite (lor_shiftl_add _ b1) by lia. rewrite (lor_shiftl_add _ b0) by lia.
  subst b0 b1 b2 b3. rewrite !shiftr_div by lia. unfold u8, is_u32 in *.
  pow2. dlia.
Qed.

(** Facts about single bytes, checked on all 256 of them. *)
Lemma forall_u8 (P : Z -> bool) :
  forallb P (map Z.of_nat (seq 0 256)) = true -> forall b, is_u8 b -> P b = true.
Proof.
  rewrite forallb_forall. intros H b Hb. apply H, in_map_iff.
  exists (Z.to_nat b). unfold is_u8 in Hb. pow2.
  split; [lia|]. apply in_seq. lia.
Qed.

(** [byte_cases b]: prove a boolean fact of a byte [b] by evaluation. *)
Ltac byte_cases b :=
  let P := fresh "P" in
  match goal with
  | H : is_u8 b |- ?G = true =>
      let f := eval pattern b in G in
      match f with ?Q _ => apply (forall_u8 Q); [vm_compute; reflexivity | exact H] end
  end.

Lemma land_127 b : 0 <= b -> Z.land b 0x7F = b mod 128.
Proof. intros. change 0x7F with (Z.ones 7). by rewrite Z.land_ones. Qed.

Lemma land_128 b : is_u8 b -> (Z.land b 0x80 =? 0) = (b <? 128).
Proof. intros. apply eqb_prop. byte_cases b. Qed.

Lemma first_byte_add t f : 0 <= t < 16 -> 0 <= f < 16 -> Z.lor (u8 (Z.shiftl t 4)) f = 16 * t + f.
Proof.
  intros Ht Hf. rewrite u8_small by (unfold is_u8; rewrite Z.shiftl_mul_pow2 by lia; change (2 ^ 4) with 16; pow2; lia).
  rewrite Z.lor_comm, lor_shiftl_add by (change (2 ^ 4) with 16; lia). change (2 ^ 4) with 16. lia.
Qed.

Lemma map_err_ok {E A} (f : E -> E) (m : res E A) a : map_err f m = Ok a <-> m = Ok a.
Proof. destruct m; simpl; by split. Qed.
