(* ===== verification/Errors.v ===== *)
(** * Errors: packet types, reason codes and the wire package's errors

    Models the constants of wire/codec.go, the sentinel errors of the wire
    package and Go's error wrapping ([fmt.Errorf] with [%w], [errors.Is],
    [errors.As]).  Error texts are carried as their format strings,
    unrendered. *)

From S2P Require Import Prelude GoLib.

(** ** PacketType (a byte) *)

Definition CONNECT : Z := 1.
Definition CONNACK : Z := 2.
Definition PUBLISH : Z := 3.
Definition PUBACK : Z := 4.
Definition PUBREC : Z := 5.
Definition PUBREL : Z := 6.
Definition PUBCOMP : Z := 7.
Definition SUBSCRIBE : Z := 8.
Definition SUBACK : Z := 9.
Definition UNSUBSCRIBE : Z := 10.
Definition UNSUBACK : Z := 11.
Definition PINGREQ : Z := 12.
Definition PINGRESP : Z := 13.
Definition DISCONNECT : Z := 14.
Definition AUTH : Z := 15.

(** ** ReasonCode (a byte) *)

Definition ReasonSuccess : Z := 0x00.
Definition ReasonNormalDisconnection : Z := 0x00.
Definition ReasonMalformedPacket : Z := 0x81.
Definition ReasonProtocolError : Z := 0x82.
Definition ReasonPacketIdentifierNotFound : Z := 0x92.
Definition ReasonTopicAliasInvalid : Z := 0x94.

(** [ReasonCode.IsError] *)
Definition IsError (r : Z) : bool := 0x80 <=? r.

(** ** Errors *)

Inductive sentinel : Type :=
| ErrInvalidPacket
| ErrUnsupportedPacket
| ErrPacketTooLarge
| ErrTruncated
| ErrVarintTooLarge
| ErrVarintMalformed
| ErrInvalidProperties
| errTrailing
| ErrInvalidTopic
| ErrStringTooLong
| ErrInvalidField
| ErrInvalidQoS
| ErrPacketIDRequired
| ErrInvalidProtocol
| ErrEmptyFilterList
| EOF
| ErrUnexpectedEOF.

#[export] Instance sentinel_eq_dec : EqDecision sentinel.
Proof. solve_decision. Defined.

(** [PacketError]: a packet that breaks MQTT v5 and the DISCONNECT reason
    code its receiver closes with. *)
Record PacketError : Type := mkPacketError {
  pe_Packet : Z;
  pe_Reason : Z;
  pe_Detail : string;
}.

#[local] Set Warnings "-register-all".
(** An error value: a sentinel, a [*PacketError], an error wrapping others,
    or an error of the underlying reader (a timeout, a closed connection). *)
Inductive error : Type :=
| Sentinel (s : sentinel)
| PacketErr (e : PacketError)
| Errorf (format : string) (wrapped : list error)
| IOError (tag : Z).

Definition malformed (t : Z) (detail : string) : PacketError :=
  mkPacketError t ReasonMalformedPacket detail.
Definition protocolError (t : Z) (detail : string) : PacketError :=
  mkPacketError t ReasonProtocolError detail.

(** [errors.Is(e, s)]; [PacketError.Unwrap] is [ErrInvalidPacket]. *)
Fixpoint errors_is (e : error) (s : sentinel) : bool :=
  match e with
  | Sentinel s' => bool_decide (s' = s)
  | PacketErr _ => bool_decide (s = ErrInvalidPacket)
  | Errorf _ ws => existsb (fun w => errors_is w s) ws
  | IOError _ => false
  end.

(** [errors.As(e, *PacketError)] succeeds. *)
Fixpoint errors_as_packet (e : error) : bool :=
  match e with
  | PacketErr _ => true
  | Errorf _ ws => existsb errors_as_packet ws
  | _ => false
  end.

(** [err.Error()], unrendered. *)
Definition error_text (e : error) : string :=
  match e with
  | Errorf f _ => f
  | PacketErr p => pe_Detail p
  | Sentinel _ | IOError _ => ""
  end.

(** [asPacketError]: decode failures become [*PacketError]s, I/O errors are
    returned unchanged. *)
Definition asPacketError (t : Z) (err : error) : error :=
  if errors_as_packet err then err
  else if errors_is err ErrInvalidPacket || errors_is err ErrInvalidProperties
          || errors_is err ErrTruncated || errors_is err ErrVarintMalformed
          || errors_is err ErrUnsupportedPacket
  then PacketErr (mkPacketError t ReasonMalformedPacket (error_text err))
  else err.

(** Results of the wire package. *)
Abbreviation wres := (res error).

Definition fail {A} (s : sentinel) : wres A := Err (Sentinel s).
Definition failf {A} (f : string) (ws : list error) : wres A := Err (Errorf f ws).

(** A Go function that returns only an [error]: [None] is nil. *)
Definition check (e : option error) : wres unit :=
  match e with None => Ok tt | Some x => Err x end.

(** Results of the packet decoders, which take over a pooled frame: an error
    carries how many times the decoder gave the frame back to its pool. *)
Abbreviation dres := (res (Z * error)).

(** [releaseBuf(frame); return nil, e] *)
Definition reject {A} (e : error) : dres A := Err (1, e).

(** [fmt.Errorf("%w: ...", ErrInvalidPacket)] and
    [fmt.Errorf("%w: ...: %w", ErrInvalidPacket, err)] *)
Definition invalid (format : string) : error := Errorf format [Sentinel ErrInvalidPacket].
Definition invalid_because (format : string) (err : error) : error := Errorf format [Sentinel ErrInvalidPacket; err].

(** The frame is given back exactly once on every error. *)
Definition frame_owned {A} (m : dres A) : Prop :=
  match m with Err (released, _) => released = 1 | _ => True end.

Lemma frame_owned_bind {A B} (m : dres A) (f : A -> dres B) :
  frame_owned m -> (forall a, m = Ok a -> frame_owned (f a)) -> frame_owned (rbind m f).
Proof. destruct m as [a|[r e]|]; simpl; eauto. Qed.

Lemma frame_owned_on_err {A} (f : error -> error) (m : wres A) : frame_owned (on_err (fun e => (1, f e)) m).
Proof. by destruct m. Qed.

(** Slice operations fail by panicking only. *)
Lemma frame_owned_idx b i : frame_owned (idx b i).
Proof. unfold idx. by case_match. Qed.
Lemma frame_owned_from b i : frame_owned (from b i).
Proof. unfold from. by case_match. Qed.
Lemma frame_owned_slice b i j : frame_owned (slice b i j).
Proof. unfold slice. by case_match. Qed.
Lemma frame_owned_Uint16 b : frame_owned (Uint16 b).
Proof. unfold Uint16, idx. by repeat (case_match; simpl). Qed.

Create HintDb frame discriminated.
#[export] Hint Resolve frame_owned_idx frame_owned_from frame_owned_slice frame_owned_Uint16 frame_owned_on_err : frame.

(** Walk through a decoder: every branch rejects, panics or succeeds. *)
Ltac frame_walk :=
  repeat match goal with
  | |- frame_owned (rbind _ _) => apply frame_owned_bind; [|intros]
  | |- frame_owned (reject _) => reflexivity
  | |- frame_owned (Ok _) => exact I
  | |- frame_owned Panic => exact I
  | |- frame_owned (Err (1, _)) => reflexivity
  | |- frame_owned (match ?x with _ => _ end) => destruct x
  | |- frame_owned (let _ := _ in _) => cbv zeta
  | _ => solve [eauto with frame]
  end.

Lemma check_ok e : check e = Ok tt <-> e = None.
Proof. destruct e; simpl; by split. Qed.

Lemma if_fail_ok {A} (b : bool) (s : wres A) (k : wres A) a :
  (forall x, s <> Ok x) -> (if b then s else k) = Ok a <-> b = false /\ k = Ok a.
Proof. intros H. destruct b; [|by intuition]. split; [by intros ?%H|by intros [? _]]. Qed.

Lemma fail_not_ok {A} s (x : A) : fail s <> Ok x.
Proof. discriminate. Qed.

Lemma failf_not_ok {A} f ws (x : A) : failf f ws <> Ok x.
Proof. discriminate. Qed.

Lemma no_panic_check e : no_panic (check e).
Proof. by destruct e. Qed.
