(* ===== verification/Varint.v ===== *)
(** * Varint: MQTT Variable Byte Integers (wire/fields.go)

    [EncodeVarint], [VarintSize], [DecodeVarint] and [ReadVarint], with the
    encoding as a function ([enc_varint]) they are proved against. *)

From S2P Require Import Prelude GoLib Errors.

(** ** Definitions *)

Definition MaxVarintValue : Z := 268435455.
Definition maxVarintBytes : Z := 4.

(** The loop of [EncodeVarint]: writes at [i] until the value is zero. *)
Fixpoint EncodeVarint_loop (fuel : nat) (buf : list Z) (off i v : Z) : wres (list Z * Z) :=
  match fuel with
  | O => Panic
  | S fuel =>
      let b := u8 (Z.land v 0x7F) in
      let v := Z.shiftr v 7 in
      let b := if 0 <? v then Z.lor b 0x80 else b in
      let! buf := set buf (off + i) b in
      let i := i + 1 in
      if v =? 0 then Ok (buf, i) else EncodeVarint_loop fuel buf off i v
  end.

(** [EncodeVarint(buf[off:], v)]: the buffer and the byte count. A uint32
    has at most five 7-bit groups. *)
Definition EncodeVarint (buf : list Z) (off v : Z) : wres (list Z * Z) :=
  if MaxVarintValue <? v then fail ErrVarintTooLarge
  else EncodeVarint_loop 5 buf off 0 v.

Definition VarintSize (v : Z) : Z :=
  if v <? 128 then 1
  else if v <? 16384 then 2
  else if v <? 2097152 then 3
  else if v <=? MaxVarintValue then 4
  else 0.

(** The loop of [DecodeVarint], [fuel] iterations before the limit. *)
Fixpoint DecodeVarint_loop (fuel : nat) (buf : list Z) (n value multiplier : Z) : wres (Z * Z) :=
  match fuel with
  | O => fail ErrVarintMalformed
  | S fuel =>
      if len buf <=? n then fail ErrVarintMalformed
      else
        let! b := idx buf n in
        let value := u32 (value + u32 (Z.land b 0x7F * multiplier)) in
        if Z.land b 0x80 =? 0 then Ok (value, n + 1)
        else DecodeVarint_loop fuel buf (n + 1) value (u32 (multiplier * 128))
  end.

(** [DecodeVarint(buf)]: the value and the bytes consumed. *)
Definition DecodeVarint (buf : list Z) : wres (Z * Z) :=
  DecodeVarint_loop (Z.to_nat maxVarintBytes) buf 0 0 1.

(** A reader: the bytes it will deliver and the error it ends with
    ([io.EOF], or the connection's error). *)
Record Reader : Type := mkReader { r_bytes : list Z; r_end : error }.

(** [r.ReadByte()] *)
Definition ReadByte (r : Reader) : wres (Z * Reader) :=
  match r_bytes r with
  | [] => Err (r_end r)
  | b :: t => Ok (b, mkReader t (r_end r))
  end.

(** The loop of [ReadVarint]: the value, the bytes consumed, the reader. *)
Fixpoint ReadVarint_loop (fuel : nat) (r : Reader) (n value multiplier : Z) : wres (Z * Z * Reader) :=
  match fuel with
  | O => fail ErrVarintMalformed
  | S fuel =>
      let! (b, r) := map_err (fun rerr =>
          if (0 <? n) && errors_is rerr EOF then Sentinel ErrUnexpectedEOF else rerr)
        (ReadByte r) in
      let value := u32 (value + u32 (Z.land b 0x7F * multiplier)) in
      if Z.land b 0x80 =? 0 then Ok (value, n + 1, r)
      else ReadVarint_loop fuel r (n + 1) value (u32 (multiplier * 128))
  end.

Definition ReadVarint (r : Reader) : wres (Z * Z * Reader) :=
  ReadVarint_loop (Z.to_nat maxVarintBytes) r 0 0 1.

(** ** The encoding as a function *)

Fixpoint enc_varint_groups (fuel : nat) (v : Z) : list Z :=
  match fuel with
  | O => []
  | S fuel => if v <? 128 then [v] else (v mod 128 + 128) :: enc_varint_groups fuel (v / 128)
  end.

(** The Variable Byte Integer encoding of [v <= MaxVarintValue]. *)
Definition enc_varint (v : Z) : list Z := enc_varint_groups 4 v.
#[global] Arguments enc_varint v : simpl never.

(** The decoding as a function of the bytes alone, over [fuel] groups. *)
Fixpoint dec_varint_groups (fuel : nat) (l : list Z) : option (Z * Z) :=
  match fuel, l with
  | S fuel, b :: t =>
      if b <? 128 then Some (b, 1)
      else match dec_varint_groups fuel t with
           | Some (v, n) => Some (b - 128 + 128 * v, n + 1)
           | None => None
           end
  | _, _ => None
  end.

(** ** Lemmas *)

Lemma VarintSize_range v : 0 <= v <= MaxVarintValue -> 1 <= VarintSize v <= 4.
Proof. unfold VarintSize, MaxVarintValue. intros. repeat case_match; lia. Qed.

Lemma dec_groups_bound fuel l v n :
  bytes l -> dec_varint_groups fuel l = Some (v, n) ->
  0 <= v < 128 ^ Z.of_nat fuel /\ 1 <= n <= Z.of_nat fuel /\ n <= len l.
Proof.
  revert l v n. induction fuel as [|fuel IH]; intros [|b t] v n Hb; simpl; try discriminate.
  apply bytes_cons in Hb as [Hb Ht]. unfold is_u8 in Hb. pow2.
  rewrite len_cons, Nat2Z.inj_succ, Z.pow_succ_r by lia.
  destruct (Z.ltb_spec b 128) as [Hlt|Hge].
  - intros [= <- <-]. pose proof (Z.pow_pos_nonneg 128 (Z.of_nat fuel)). pose proof (len_nonneg t). nia.
  - destruct (dec_varint_groups fuel t) as [[v' n']|] eqn:E; [|discriminate].
    intros [= <- <-]. destruct (IH _ _ _ Ht E) as (? & ? & ?). nia.
Qed.

(** Running the loops is decoding the groups: [n] groups are consumed, the
    value so far is [value] and the multiplier is [128 ^ n]; the uint32
    arithmetic never wraps. *)
Lemma DecodeVarint_loop_spec fuel pre l value n :
  bytes l -> n = len pre -> Z.of_nat fuel + n <= 4 -> 0 <= value < 128 ^ n ->
  DecodeVarint_loop fuel (pre ++ l) n value (128 ^ n) =
  match dec_varint_groups fuel l with
  | Some (v, k) => Ok (value + 128 ^ n * v, n + k)
  | None => fail ErrVarintMalformed
  end.
Proof.
  revert pre l value n. induction fuel as [|fuel IH]; intros pre l value n Hl Hn Hf Hv; simpl; [done|].
  destruct l as [|b t].
  { rewrite app_nil_r, (proj2 (Z.leb_le _ _)) by lia. done. }
  apply bytes_cons in Hl as [Hb Ht].
  rewrite (proj2 (Z.leb_gt _ _)) by slia.
  rewrite idx_app by done. cbn [rbind].
  pose proof (len_nonneg pre).
  assert (Hp : 128 ^ (n + 1) = 128 ^ n * 128) by (rewrite Z.pow_add_r; lia).
  assert (Hn4 : 128 ^ n * 128 <= 128 ^ 4) by (rewrite <- Hp; apply Z.pow_le_mono_r; lia).
  assert (Hpos : 0 < 128 ^ n) by (apply Z.pow_pos_nonneg; lia).
  change (128 ^ 4) with 268435456 in Hn4.
  pose proof (Z.mod_pos_bound b 128 eq_refl).
  rewrite land_128 by done. unfold is_u8 in Hb. rewrite land_127 by lia.
  rewrite (u32_small (b mod 128 * 128 ^ n)) by (unfold is_u32; pow2; nia).
  rewrite (u32_small (value + _)) by (unfold is_u32; pow2; nia).
  rewrite (u32_small (128 ^ n * 128)) by (unfold is_u32; pow2; nia).
  destruct (Z.ltb_spec b 128) as [Hlt|Hge].
  - rewrite Z.mod_small by lia. do 2 f_equal; lia.
  - rewrite <- Hp. replace (b mod 128) with (b - 128) in *
      by (pow2; replace b with (b - 128 + 1 * 128) at 2 by lia; rewrite Z.mod_add, Z.mod_small; lia).
    replace (pre ++ b :: t) with ((pre ++ [b]) ++ t) by (by rewrite <- app_assoc).
    rewrite IH; [|done|slia|lia|nia].
    destruct (dec_varint_groups fuel t) as [[v k]|]; [|done]. do 2 f_equal; nia.
Qed.

Lemma DecodeVarint_spec l :
  bytes l ->
  DecodeVarint l = match dec_varint_groups 4 l with
                   | Some p => Ok p
                   | None => fail ErrVarintMalformed
                   end.
Proof.
  intros Hl. unfold DecodeVarint. change (Z.to_nat maxVarintBytes) with 4%nat.
  pose proof (DecodeVarint_loop_spec 4 [] l 0 0 Hl) as H. simpl app in H.
  change (128 ^ 0) with 1 in H. rewrite H by (done || lia).
  destruct (dec_varint_groups 4 l) as [[v k]|]; [|done]. do 2 f_equal; lia.
Qed.

Lemma DecodeVarint_ok l v n :
  bytes l -> DecodeVarint l = Ok (v, n) -> 0 <= v <= MaxVarintValue /\ 1 <= n <= 4 /\ n <= len l.
Proof.
  intros Hl. rewrite DecodeVarint_spec by done.
  destruct (dec_varint_groups 4 l) as [[v' n']|] eqn:E; [|discriminate].
  intros [= <- <-]. apply dec_groups_bound in E as (? & ? & ?); [|done].
  change (128 ^ Z.of_nat 4) with 268435456 in *. unfold MaxVarintValue. lia.
Qed.

Lemma DecodeVarint_no_panic l : bytes l -> no_panic (DecodeVarint l).
Proof. intros. rewrite DecodeVarint_spec by done. case_match; discriminate. Qed.
#[export] Hint Resolve DecodeVarint_no_panic : nopanic.

Lemma dec_groups_app fuel l k p :
  dec_varint_groups fuel l = Some p -> dec_varint_groups fuel (l ++ k) = Some p.
Proof.
  revert l p. induction fuel as [|fuel IH]; intros [|b t] p; simpl; try discriminate.
  destruct (b <? 128); [done|].
  destruct (dec_varint_groups fuel t) as [[v n]|] eqn:E; [|discriminate].
  by rewrite (IH _ _ E).
Qed.

Lemma dec_groups_take fuel l v n :
  dec_varint_groups fuel l = Some (v, n) -> dec_varint_groups fuel (ztake n l) = Some (v, n).
Proof.
  revert l v n. induction fuel as [|fuel IH]; intros [|b t] v n; simpl; try discriminate.
  destruct (b <? 128) eqn:Hb.
  - intros [= <- <-]. simpl. by rewrite Hb.
  - destruct (dec_varint_groups fuel t) as [[v' n']|] eqn:E; [|discriminate].
    intros [= <- <-]. assert (0 <= n').
    { clear -E. revert t v' n' E. induction fuel as [|f IH]; intros [|c t] v n; simpl; try discriminate.
      destruct (c <? 128); [intros [= _ <-]; lia|].
      destruct (dec_varint_groups f t) as [[? m]|] eqn:E; [|discriminate].
      intros [= _ <-]. specialize (IH _ _ _ E). lia. }
    unfold ztake. replace (Z.to_nat (n' + 1)) with (S (Z.to_nat n')) by lia. simpl. rewrite Hb.
    fold (ztake n' t). by rewrite (IH _ _ _ E).
Qed.

(** ** The encoding *)

Lemma enc_groups_dec fuel v rest :
  0 <= v < 128 ^ Z.of_nat fuel -> fuel <> O ->
  dec_varint_groups fuel (enc_varint_groups fuel v ++ rest) = Some (v, len (enc_varint_groups fuel v)).
Proof.
  revert v. induction fuel as [|fuel IH]; intros v Hv Hf; [done|]. simpl.
  rewrite Nat2Z.inj_succ, Z.pow_succ_r in Hv by lia.
  destruct (Z.ltb_spec v 128) as [Hlt|Hge].
  - simpl. by rewrite (proj2 (Z.ltb_lt _ _)).
  - pose proof (Z.mod_pos_bound v 128 eq_refl).
    simpl. rewrite (proj2 (Z.ltb_ge _ _)) by lia.
    assert (fuel <> O) by (intros ->; simpl in Hv; lia).
    rewrite IH; [|split; [apply Z.div_pos; lia|apply Z.div_lt_upper_bound; lia]|done].
    rewrite len_cons. do 2 f_equal; [|lia].
    rewrite (Z.div_mod v 128) at 3 by lia. lia.
Qed.

Lemma len_enc_varint v : 0 <= v <= MaxVarintValue -> len (enc_varint v) = VarintSize v.
Proof.
  unfold enc_varint, VarintSize, MaxVarintValue. intros Hv. simpl enc_varint_groups.
  repeat (match goal with
          | |- context [?a <? ?b] => destruct (Z.ltb_spec a b)
          | |- context [?a <=? ?b] => destruct (Z.leb_spec a b)
          end; try (exfalso; dlia)); reflexivity.
Qed.

Lemma bytes_enc_groups fuel v : 0 <= v -> bytes (enc_varint_groups fuel v).
Proof.
  revert v. induction fuel as [|fuel IH]; intros v Hv; simpl; [constructor|].
  destruct (Z.ltb_spec v 128) as [Hlt|Hge].
  - repeat constructor; pow2; lia.
  - pose proof (Z.mod_pos_bound v 128 eq_refl). constructor; [split; pow2; lia|].
    apply IH. apply Z.div_pos; lia.
Qed.

Lemma bytes_enc_varint v : 0 <= v -> bytes (enc_varint v).
Proof. apply bytes_enc_groups. Qed.
#[export] Hint Resolve bytes_enc_varint : go.

Lemma dec_enc_varint v rest :
  0 <= v <= MaxVarintValue ->
  dec_varint_groups 4 (enc_varint v ++ rest) = Some (v, VarintSize v).
Proof.
  intros Hv. rewrite <- len_enc_varint by done. apply enc_groups_dec; [|done].
  unfold MaxVarintValue in Hv. change (128 ^ Z.of_nat 4) with 268435456. lia.
Qed.

Lemma lor_128 a : 0 <= a < 128 -> Z.lor a 0x80 = a + 128.
Proof. intros. change 0x80 with (Z.shiftl 1 7). rewrite lor_shiftl_add by (pow2; lia). done. Qed.

Lemma EncodeVarint_loop_spec fuel fuel' pre dn old post v :
  0 <= v < 128 ^ Z.of_nat fuel -> fuel <> O -> (fuel <= fuel')%nat ->
  len old = len (enc_varint_groups fuel v) ->
  EncodeVarint_loop fuel' (pre ++ dn ++ old ++ post) (len pre) (len dn) v =
  Ok (pre ++ dn ++ enc_varint_groups fuel v ++ post, len dn + len (enc_varint_groups fuel v)).
Proof.
  revert fuel' dn old v. induction fuel as [|fuel IH]; intros fuel' dn old v Hv Hf Hle Hold; [done|].
  destruct fuel' as [|fuel']; [lia|]. simpl in Hold |- *.
  rewrite Nat2Z.inj_succ, Z.pow_succ_r in Hv by lia.
  pose proof (Z.mod_pos_bound v 128 eq_refl).
  rewrite land_127, u8_small by (unfold is_u8; pow2; lia).
  rewrite shiftr_div by lia. pow2. unfold set.
  destruct (Z.ltb_spec v 128) as [Hlt|Hge].
  - rewrite Z.div_small, Z.mod_small by lia. simpl.
    replace (pre ++ dn ++ old ++ post) with ((pre ++ dn) ++ old ++ post) by (by rewrite <- app_assoc).
    rewrite put_app by slia. simpl. by rewrite <- app_assoc.
  - assert (1 <= v / 128) by (apply Z.div_le_lower_bound; lia).
    rewrite (proj2 (Z.ltb_lt _ _)) by lia. rewrite (proj2 (Z.eqb_neq _ _)) by lia.
    rewrite lor_128 by lia.
    destruct (len_cons_inv old) as (o & old' & ->); [slia|].
    replace (pre ++ dn ++ (o :: old') ++ post) with ((pre ++ dn) ++ [o] ++ old' ++ post) by (by rewrite <- app_assoc).
    rewrite put_app by slia. cbn [rbind].
    replace ((pre ++ dn) ++ [v mod 128 + 128] ++ old' ++ post)
      with (pre ++ (dn ++ [v mod 128 + 128]) ++ old' ++ post) by (by rewrite <- !app_assoc).
    replace (len dn + 1) with (len (dn ++ [v mod 128 + 128])) by slia.
    assert (fuel <> O) by (intros ->; simpl in Hv; lia).
    rewrite IH; [|split; [lia|apply Z.div_lt_upper_bound; lia]|done|lia|slia].
    rewrite <- !app_assoc. simpl. do 2 f_equal. slia.
Qed.

(** [EncodeVarint] writes exactly the encoding. *)
Lemma EncodeVarint_spec pre old post v :
  0 <= v <= MaxVarintValue -> len old = VarintSize v ->
  EncodeVarint (pre ++ old ++ post) (len pre) v = Ok (pre ++ enc_varint v ++ post, VarintSize v).
Proof.
  intros Hv Hold. unfold EncodeVarint. rewrite (proj2 (Z.ltb_ge _ _)) by lia.
  assert (0 <= v < 128 ^ Z.of_nat 4)
    by (unfold MaxVarintValue in Hv; change (128 ^ Z.of_nat 4) with 268435456; lia).
  pose proof (EncodeVarint_loop_spec 4 5 pre [] old post v) as L. simpl app in L.
  change (len []) with 0 in L. rewrite L; [|done|done|lia|].
  - fold (enc_varint v). by rewrite len_enc_varint.
  - fold (enc_varint v). by rewrite len_enc_varint.
Qed.

(** No shorter encoding of a decoded value exists. *)
Lemma dec_groups_size l v n :
  bytes l -> dec_varint_groups 4 l = Some (v, n) -> VarintSize v <= n.
Proof.
  intros Hb. simpl. destruct l as [|b0 l]; [discriminate|]. apply bytes_cons in Hb as [B0 Hb].
  unfold is_u8 in B0. pow2. unfold VarintSize, MaxVarintValue.
  destruct (Z.ltb_spec b0 128); [intros [= <- <-]; repeat case_match; lia|].
  destruct l as [|b1 l]; [discriminate|]. apply bytes_cons in Hb as [B1 Hb].
  unfold is_u8 in B1. pow2.
  destruct (Z.ltb_spec b1 128); [intros [= <- <-]; repeat case_match; lia|].
  destruct l as [|b2 l]; [discriminate|]. apply bytes_cons in Hb as [B2 Hb].
  unfold is_u8 in B2. pow2.
  destruct (Z.ltb_spec b2 128); [intros [= <- <-]; repeat case_match; lia|].
  destruct l as [|b3 l]; [discriminate|]. apply bytes_cons in Hb as [B3 Hb].
  unfold is_u8 in B3. pow2.
  destruct (Z.ltb_spec b3 128); [intros [= <- <-]; repeat case_match; lia|discriminate].
Qed.

(** ** Reading from a stream *)

Lemma ReadVarint_loop_ok fuel l e value n v k :
  bytes l -> 0 <= n -> Z.of_nat fuel + n <= 4 -> 0 <= value < 128 ^ n ->
  dec_varint_groups fuel l = Some (v, k) ->
  ReadVarint_loop fuel (mkReader l e) n value (128 ^ n) = Ok (value + 128 ^ n * v, n + k, mkReader (zdrop k l) e).
Proof.
  revert l value n v k. induction fuel as [|fuel IH]; intros l value n v k Hl Hn Hf Hv; simpl; [done|].
  destruct l as [|b t]; [done|].
  apply bytes_cons in Hl as [Hb Ht]. simpl.
  assert (Hp : 128 ^ (n + 1) = 128 ^ n * 128) by (rewrite Z.pow_add_r; lia).
  assert (Hn4 : 128 ^ n * 128 <= 128 ^ 4) by (rewrite <- Hp; apply Z.pow_le_mono_r; lia).
  assert (Hpos : 0 < 128 ^ n) by (apply Z.pow_pos_nonneg; lia).
  change (128 ^ 4) with 268435456 in Hn4.
  pose proof (Z.mod_pos_bound b 128 eq_refl).
  rewrite land_128 by done. unfold is_u8 in Hb. rewrite land_127 by lia.
  rewrite (u32_small (b mod 128 * 128 ^ n)) by (unfold is_u32; pow2; nia).
  rewrite (u32_small (value + _)) by (unfold is_u32; pow2; nia).
  rewrite (u32_small (128 ^ n * 128)) by (unfold is_u32; pow2; nia).
  destruct (Z.ltb_spec b 128) as [Hlt|Hge].
  - intros [= <- <-]. rewrite Z.mod_small by lia. do 2 f_equal. f_equal. lia.
  - rewrite <- Hp. replace (b mod 128) with (b - 128) in *
      by (pow2; replace b with (b - 128 + 1 * 128) at 2 by lia; rewrite Z.mod_add, Z.mod_small; lia).
    destruct (dec_varint_groups fuel t) as [[v' k']|] eqn:E; [|discriminate].
    intros [= <- <-]. destruct (dec_groups_bound _ _ _ _ Ht E) as (? & ? & ?).
    rewrite (IH _ _ _ v' k'); [|done|lia|lia|nia|done].
    f_equal. f_equal; [f_equal; nia|]. f_equal.
    rewrite Z.add_comm. unfold zdrop. replace (Z.to_nat (1 + k')) with (S (Z.to_nat k')) by lia. done.
Qed.

(** [ReadVarint] decodes what [DecodeVarint] decodes, and leaves the reader
    after it. *)
Lemma ReadVarint_ok l e v k :
  bytes l -> DecodeVarint l = Ok (v, k) ->
  ReadVarint (mkReader l e) = Ok (v, k, mkReader (zdrop k l) e).
Proof.
  intros Hl. rewrite DecodeVarint_spec by done.
  destruct (dec_varint_groups 4 l) as [[v' k']|] eqn:E; [|discriminate]. intros [= <- <-].
  unfold ReadVarint. change (Z.to_nat maxVarintBytes) with 4%nat.
  pose proof (ReadVarint_loop_ok 4 l e 0 0 v' k' Hl) as L. change (128 ^ 0) with 1 in L.
  rewrite L by (done || lia). do 3 f_equal; lia.
Qed.

Lemma ReadVarint_loop_no_panic fuel r n value m : no_panic (ReadVarint_loop fuel r n value m).
Proof.
  revert r n value m. induction fuel as [|fuel IH]; intros [l e] n value m; simpl; [discriminate|].
  destruct l as [|b t]; simpl; [discriminate|]. case_match; [discriminate|apply IH].
Qed.
Lemma ReadVarint_no_panic r : no_panic (ReadVarint r).
Proof. apply ReadVarint_loop_no_panic. Qed.
#[export] Hint Resolve ReadVarint_no_panic : nopanic.

(** [ReadVarint] succeeds only on bytes [DecodeVarint] accepts. *)
Lemma ReadVarint_loop_none fuel l e value n m :
  bytes l -> dec_varint_groups fuel l = None -> exists err, ReadVarint_loop fuel (mkReader l e) n value m = Err err.
Proof.
  revert l value n m. induction fuel as [|fuel IH]; intros [|b t] value n m Hl; cbn [dec_varint_groups ReadVarint_loop ReadByte r_bytes r_end map_err rbind];
    unfold fail; [by eauto..|].
  apply bytes_cons in Hl as [Hb Ht]. rewrite land_128 by done. destruct (b <? 128); [done|].
  destruct (dec_varint_groups fuel t) as [[? ?]|] eqn:E; [done|]. intros _. by apply IH.
Qed.

Lemma ReadVarint_inv l e v k r :
  bytes l -> ReadVarint (mkReader l e) = Ok (v, k, r) -> DecodeVarint l = Ok (v, k) /\ r = mkReader (zdrop k l) e.
Proof.
  intros Hl E. rewrite DecodeVarint_spec by done. destruct (dec_varint_groups 4 l) as [[v' k']|] eqn:G.
  - assert (Hd : DecodeVarint l = Ok (v', k')) by (rewrite DecodeVarint_spec by done; by rewrite G).
    rewrite (ReadVarint_ok l e v' k' Hl Hd) in E. by injection E as <- <- <-.
  - destruct (ReadVarint_loop_none 4 l e 0 0 1 Hl G) as [err He]. unfold ReadVarint in E.
    change (Z.to_nat maxVarintBytes) with 4%nat in E. congruence.
Qed.

(** A decoding that took no more bytes than needed is the encoding. *)
Lemma dec_groups_canonical fuel l v n :
  bytes l -> dec_varint_groups fuel l = Some (v, n) -> n = len (enc_varint_groups fuel v) ->
  ztake n l = enc_varint_groups fuel v.
Proof.
  revert l v n. induction fuel as [|fuel IH]; intros [|b t] v n Hb; simpl; try discriminate.
  apply bytes_cons in Hb as [Hb Ht]. unfold is_u8 in Hb. pow2. destruct (Z.ltb_spec b 128) as [Hlt|Hge].
  - intros [= <- <-] _. by rewrite (proj2 (Z.ltb_lt _ _)).
  - destruct (dec_varint_groups fuel t) as [[v' n']|] eqn:E; [|discriminate]. intros [= <- <-] Hn.
    destruct (dec_groups_bound _ _ _ _ Ht E) as (Hv' & Hn' & _).
    destruct (Z.ltb_spec (b - 128 + 128 * v') 128) as [Hs|Hs]; [change (len [_]) with 1 in Hn; lia|].
    replace ((b - 128 + 128 * v') / 128) with v' in * by dlia.
    replace ((b - 128 + 128 * v') mod 128 + 128) with b by dlia.
    rewrite len_cons in Hn. rewrite <- (IH t v' n' Ht E) by lia.
    unfold ztake. by replace (Z.to_nat (n' + 1)) with (S (Z.to_nat n')) by lia.
Qed.

Lemma ReadVarint_err l e :
  bytes l -> (exists err, ReadVarint (mkReader l e) = Err err) <-> (exists err, DecodeVarint l = Err err).
Proof.
  intros Hl. pose proof (ReadVarint_no_panic (mkReader l e)) as Hp. pose proof (DecodeVarint_no_panic l Hl) as Hp'.
  destruct (DecodeVarint l) as [[v k]|err|] eqn:E; [|split; [by eauto|]|done].
  - rewrite (ReadVarint_ok l e v k Hl E). split; intros [? ?]; discriminate.
  - intros _. destruct (ReadVarint (mkReader l e)) as [[[v k] r]|err'|] eqn:G; [|by eauto|done].
    apply ReadVarint_inv in G as [G _]; [|done]. congruence.
Qed.

(** ** Theorems *)

(** Variable Byte Integers round-trip. Every value MQTT can represent
    is encoded in exactly [VarintSize] bytes, touching nothing else of the
    buffer, and [DecodeVarint] and [ReadVarint] recover the value and stop
    right after it; a larger uint32 is refused. *)
Theorem varint_roundtrip pre old post v e :
  is_u32 v -> bytes post ->
  if v <=? MaxVarintValue
  then len old = VarintSize v ->
       exists enc, EncodeVarint (pre ++ old ++ post) (len pre) v = Ok (pre ++ enc ++ post, VarintSize v)
         /\ len enc = VarintSize v /\ bytes enc
         /\ DecodeVarint (enc ++ post) = Ok (v, VarintSize v)
         /\ ReadVarint (mkReader (enc ++ post) e) = Ok (v, VarintSize v, mkReader post e)
  else EncodeVarint (pre ++ old ++ post) (len pre) v = fail ErrVarintTooLarge.
Proof.
  intros Hu Hb. unfold is_u32 in Hu. destruct (Z.leb_spec v MaxVarintValue) as [Hle|Hgt].
  - intros Hold. exists (enc_varint v). assert (He : bytes (enc_varint v)) by (apply bytes_enc_varint; lia).
    assert (Hd : DecodeVarint (enc_varint v ++ post) = Ok (v, VarintSize v))
      by (rewrite DecodeVarint_spec, dec_enc_varint by (lia || by rewrite bytes_app); done).
    split; [apply EncodeVarint_spec; [lia|done]|]. split; [apply len_enc_varint; lia|]. do 2 (split; [done|]).
    rewrite (ReadVarint_ok (enc_varint v ++ post) e _ _ ltac:(by rewrite bytes_app) Hd). rewrite zdrop_app_len; [done|]. rewrite len_enc_varint; lia.
  - unfold EncodeVarint. by rewrite (proj2 (Z.ltb_lt _ _)).
Qed.

(** Decoding Variable Byte Integers from any bytes. [ReadVarint] on a
    reader and [DecodeVarint] on a slice accept the same encodings with the
    same value and length; the length is at least [VarintSize] of the value,
    with equality exactly for the canonical encoding, so the
    [n == VarintSize(remaining)] test of [ReadPacket] detects every
    non-minimal Remaining Length. *)
Theorem varint_decoders_agree l e :
  bytes l ->
  (forall v n, DecodeVarint l = Ok (v, n) ->
     ReadVarint (mkReader l e) = Ok (v, n, mkReader (zdrop n l) e)
     /\ 0 <= v <= MaxVarintValue /\ VarintSize v <= n <= 4 /\ n <= len l
     /\ ((n =? VarintSize v) = true <-> ztake n l = enc_varint v))
  /\ ((exists err, ReadVarint (mkReader l e) = Err err) <-> (exists err, DecodeVarint l = Err err)).
Proof.
  intros Hb. split; [|by apply ReadVarint_err]. intros v n Hd. destruct (DecodeVarint_ok l v n Hb Hd) as (Hv & Hn & Hl).
  split; [by apply ReadVarint_ok|]. rewrite DecodeVarint_spec in Hd by done.
  destruct (dec_varint_groups 4 l) as [[v' n']|] eqn:E; [|discriminate]. injection Hd as -> ->.
  pose proof (dec_groups_size l v n Hb E). do 3 (split; [lia|]). rewrite Z.eqb_eq. split.
  - intros ->. apply dec_groups_canonical; [done|done|]. symmetry. by apply len_enc_varint.
  - intros Hc. rewrite <- (len_enc_varint v Hv), <- Hc. symmetry. apply len_ztake; lia.
Qed.

Lemma varint_roundtrip_witness :
  exists enc, EncodeVarint ([9] ++ [0; 0] ++ [7]) 1 321 = Ok ([9] ++ enc ++ [7], 2)
    /\ DecodeVarint (enc ++ [7]) = Ok (321, 2).
Proof.
  destruct (varint_roundtrip [9] [0; 0] [7] 321 (Sentinel EOF) ltac:(by split) ltac:(by repeat constructor) eq_refl)
    as (enc & ? & _ & _ & ? & _). by exists enc.
Defined.

(** A non-minimal encoding of 1. *)
Lemma varint_decoders_agree_witness :
  ReadVarint (mkReader [0x81; 0; 5] (Sentinel EOF)) = Ok (1, 2, mkReader [5] (Sentinel EOF))
  /\ ~ ztake 2 [0x81; 0; 5] = enc_varint 1.
Proof.
  destruct (varint_decoders_agree [0x81; 0; 5] (Sentinel EOF) ltac:(by repeat constructor)) as [H _].
  destruct (H 1 2 eq_refl) as (H1 & _ & _ & _ & H2). split; [exact H1|]. by intros ?%H2.
Defined.
