(* ===== verification/Buffers.v ===== *)
(** * Buffers: the frame buffer pools of wire/codec.go

    [acquireBuf] hands out a slice whose bytes may be left over from an
    earlier use; [releaseBuf] recycles a buffer only into the class of its
    exact capacity.  [BufferPool] is the interface the encoders are proved
    against: a buffer of the requested length with arbitrary contents. *)

From S2P Require Import Prelude GoLib.

(** ** Definitions *)

Definition bufClasses : list Z := [256; 1024; 4096; 16384; 65536].

(** The index of the smallest class holding [n] bytes; [None] is -1. *)
Fixpoint bufClass_from (i : nat) (classes : list Z) (n : Z) : option nat :=
  match classes with
  | [] => None
  | size :: rest => if n <=? size then Some i else bufClass_from (S i) rest n
  end.
Definition bufClass (n : Z) : option nat := bufClass_from 0 bufClasses n.

(** A buffer: its backing array (whose length is the slice's capacity) and
    the slice's length. *)
Record Buf : Type := mkBuf { b_array : list Z; b_len : Z }.
Definition b_cap (b : Buf) : Z := len (b_array b).
(** The slice's bytes. *)
Definition b_bytes (b : Buf) : list Z := ztake (b_len b) (b_array b).

(** [bufPools]: the buffers each class's [sync.Pool] holds. *)
Abbreviation Pools := (list (list Buf)).
Definition empty_pools : Pools := replicate (length bufClasses) [].

(** [bufPools[i].New] *)
Definition pool_New (i : nat) : Buf := mkBuf (repeat 0 (Z.to_nat (nth i bufClasses 0))) 0.

(** [bufPools[i].Get()]: a [sync.Pool] returns any buffer put there and not
    taken since, or calls New; [choice] is which. *)
Definition pool_Get (ps : Pools) (i : nat) (choice : option nat) : Buf * Pools :=
  let q := nth i ps [] in
  match choice with
  | Some k => match q !! k with
              | Some b => (b, <[i := take k q ++ drop (S k) q]> ps)
              | None => (pool_New i, ps)
              end
  | None => (pool_New i, ps)
  end.

Definition acquireBuf (ps : Pools) (choice : option nat) (n : Z) : Buf * Pools :=
  match bufClass n with
  | None => (mkBuf (repeat 0 (Z.to_nat n)) n, ps)
  | Some i => let (bp, ps) := pool_Get ps i choice in (mkBuf (b_array bp) n, ps)
  end.

(** [pooled(b)] reports whether [releaseBuf] recycles [b]. *)
Definition pooled (b : Buf) : bool :=
  match bufClass (b_cap b) with
  | Some i => nth i bufClasses 0 =? b_cap b
  | None => false
  end.

Definition releaseBuf (ps : Pools) (b : Buf) : Pools :=
  if negb (pooled b) then ps
  else match bufClass (b_cap b) with
       | Some i => <[i := mkBuf (b_array b) 0 :: nth i ps []]> ps
       | None => ps
       end.

(** One step of the pools' life: a buffer taken, or one given back with
    whatever its holder wrote into it. *)
Inductive pool_step : Pools -> Pools -> Prop :=
| step_acquire ps choice n : 0 <= n -> pool_step ps (snd (acquireBuf ps choice n))
| step_release ps b : pool_step ps (releaseBuf ps b)
| step_gc ps i k : pool_step ps (snd (pool_Get ps i (Some k))).

(** Every pooled buffer has exactly its class's capacity. *)
Definition pools_ok (ps : Pools) : Prop :=
  forall i q, ps !! i = Some q -> Forall (fun b => b_cap b = nth i bufClasses 0) q.

(** ** The interface of the encoders *)

Class BufferPool : Type := {
  acquired : Z -> list Z;
  acquired_len n : 0 <= n -> len (acquired n) = n;
}.

(** ** Lemmas *)

Lemma bufClass_from_spec i classes n j :
  bufClass_from i classes n = Some j ->
  (i <= j)%nat /\ (j - i < length classes)%nat /\ n <= nth (j - i) classes 0.
Proof.
  revert i. induction classes as [|c cs IH]; intros i; simpl; [discriminate|].
  destruct (Z.leb_spec n c).
  - intros [= <-]. rewrite Nat.sub_diag. repeat split; lia.
  - intros E. apply IH in E as (? & ? & ?).
    replace (j - i)%nat with (S (j - S i)) by lia. repeat split; lia.
Qed.

Lemma bufClass_spec n i : bufClass n = Some i -> (i < length bufClasses)%nat /\ n <= nth i bufClasses 0.
Proof.
  intros E. apply bufClass_from_spec in E as (_ & ? & ?). rewrite Nat.sub_0_r in *. done.
Qed.

(** The smallest class: a pooled buffer is at most 4 times the request,
    above the 256-byte floor. *)
Lemma bufClass_tight n i : bufClass n = Some i -> 256 < n -> nth i bufClasses 0 <= 4 * n.
Proof.
  unfold bufClass, bufClasses. simpl. intros E Hn.
  repeat match type of E with context [n <=? ?c] => destruct (Z.leb_spec n c) end;
    try discriminate; injection E as <-; simpl; lia.
Qed.

Lemma pool_New_cap i : b_cap (pool_New i) = nth i bufClasses 0.
Proof.
  unfold pool_New, b_cap. simpl b_array. rewrite len_repeat, Z2Nat.id; [done|].
  do 6 (destruct i as [|i]; [simpl; lia|]). simpl. destruct i; lia.
Qed.

Lemma pool_Get_ok ps i choice :
  pools_ok ps -> b_cap (fst (pool_Get ps i choice)) = nth i bufClasses 0 /\ pools_ok (snd (pool_Get ps i choice)).
Proof.
  intros Hok. unfold pool_Get. destruct choice as [k|]; simpl; [|split; [apply pool_New_cap|done]].
  destruct (nth i ps [] !! k) as [b|] eqn:E; simpl; [|split; [apply pool_New_cap|done]].
  assert (Hi : ps !! i = Some (nth i ps [])).
  { destruct (ps !! i) as [q|] eqn:Ei; [by rewrite (nth_lookup_Some _ _ _ _ Ei)|].
    apply lookup_ge_None in Ei. rewrite nth_overflow in E by done. by rewrite lookup_nil in E. }
  pose proof (Hok _ _ Hi) as Hq. split.
  { exact (Forall_lookup_1 _ _ _ _ Hq E). }
  intros j q Hj. destruct (decide (i = j)) as [<-|Hne].
  - rewrite list_lookup_insert_eq in Hj by (by eapply lookup_lt_Some). injection Hj as <-.
    apply Forall_app. split; [by apply Forall_take|by apply Forall_drop].
  - rewrite list_lookup_insert_ne in Hj by done. by apply Hok in Hj.
Qed.

Lemma releaseBuf_ok ps b : pools_ok ps -> pools_ok (releaseBuf ps b).
Proof.
  intros Hok. unfold releaseBuf, pooled.
  destruct (bufClass (b_cap b)) as [i|] eqn:E; [|done].
  destruct (Z.eqb_spec (nth i bufClasses 0) (b_cap b)) as [Hcap|]; cbn [negb]; [|done].
  intros j q Hj. destruct (decide (i = j)) as [<-|Hne].
  - destruct (decide (i < length ps)%nat).
    + rewrite list_lookup_insert_eq in Hj by done. injection Hj as <-. constructor; [done|].
      destruct (ps !! i) as [q|] eqn:Ei; [rewrite (nth_lookup_Some _ _ _ _ Ei); by eapply Hok|].
      apply lookup_ge_None in Ei. lia.
    + rewrite list_insert_ge in Hj by lia. by eapply Hok.
  - rewrite list_lookup_insert_ne in Hj by done. by eapply Hok.
Qed.

Lemma acquireBuf_ok ps choice n :
  pools_ok ps -> 0 <= n ->
  len (b_bytes (fst (acquireBuf ps choice n))) = n /\ pools_ok (snd (acquireBuf ps choice n)).
Proof.
  intros Hok Hn. unfold acquireBuf. destruct (bufClass n) as [i|] eqn:E.
  - destruct (pool_Get_ok ps i choice Hok) as [Hcap Hok'].
    destruct (pool_Get ps i choice) as [bp ps']. cbn [fst snd b_array b_len] in *. split; [|done].
    apply bufClass_spec in E as [_ ?]. unfold b_bytes, b_cap in *. cbn [b_array b_len].
    apply len_ztake. lia.
  - simpl. split; [|done]. unfold b_bytes. simpl. apply len_ztake. rewrite len_repeat. lia.
Qed.

(** The pools a program can reach. *)
Inductive pools_reachable : Pools -> Prop :=
| reach_init : pools_reachable empty_pools
| reach_step ps ps' : pools_reachable ps -> pool_step ps ps' -> pools_reachable ps'.

Lemma empty_pools_ok : pools_ok empty_pools.
Proof.
  intros i q H. apply lookup_replicate in H as [-> _]. constructor.
Qed.

Lemma pools_reachable_ok ps : pools_reachable ps -> pools_ok ps.
Proof.
  induction 1 as [|ps ps' _ IH Hstep]; [apply empty_pools_ok|].
  destruct Hstep.
  - by apply acquireBuf_ok.
  - by apply releaseBuf_ok.
  - by apply pool_Get_ok.
Qed.

(** The pools implement the interface. *)
Program Definition pools_BufferPool (ps : Pools) (choice : option nat) (H : pools_reachable ps) : BufferPool := {|
  acquired n := b_bytes (fst (acquireBuf ps choice n));
|}.
Next Obligation. intros ps choice H n Hn. by apply acquireBuf_ok; [apply pools_reachable_ok|]. Qed.

(** Fresh pools, and pools that hold one recycled buffer of stale bytes. *)
Definition fresh_pool : BufferPool := pools_BufferPool empty_pools None reach_init.
Definition stale_pools : Pools := releaseBuf empty_pools (mkBuf (repeat 255 256) 256).
Lemma stale_reachable : pools_reachable stale_pools.
Proof. eapply reach_step; [constructor|]. apply step_release. Qed.
Definition stale_pool : BufferPool := pools_BufferPool stale_pools (Some 0%nat) stale_reachable.

(** ** Properties *)

(** Frame buffers: in every state the pools can reach by acquiring,
    releasing (any buffer, with any contents) and garbage collection, a
    request for [n] bytes is served with a slice of exactly [n] bytes
    whose capacity is the request rounded up to a pool class (at most four
    times the request above the 256-byte floor) or, above 64 KiB, exactly
    the request; and an oversized buffer is never recycled. *)
Theorem acquireBuf_bounded ps choice n :
  pools_reachable ps -> 0 <= n ->
  let b := fst (acquireBuf ps choice n) in
  len (b_bytes b) = n
  /\ b_cap b <= Z.max 256 (4 * n)
  /\ (65536 < n -> b_cap b = n /\ releaseBuf ps b = ps).
Proof.
  intros Hr Hn b. pose proof (pools_reachable_ok _ Hr) as Hok.
  destruct (acquireBuf_ok ps choice n Hok Hn) as [Hlen _]. fold b in Hlen. split; [done|].
  subst b. unfold acquireBuf in *. destruct (bufClass n) as [i|] eqn:E.
  - destruct (pool_Get_ok ps i choice Hok) as [Hcap _].
    destruct (pool_Get ps i choice) as [bp ps']. cbn [fst snd b_array b_len] in *. unfold b_cap in *. cbn [fst snd b_array b_len] in *.
    pose proof (bufClass_spec _ _ E) as [Hi Hle]. split.
    + destruct (Z.le_gt_cases n 256).
      * unfold bufClass in E. simpl in E. destruct (Z.leb_spec n 256); [|lia].
        injection E as <-. simpl in Hcap. lia.
      * pose proof (bufClass_tight _ _ E). lia.
    + intros Hbig. exfalso. simpl in Hi.
      do 5 (destruct i as [|i]; [simpl in Hle; lia|]). lia.
  - cbn [fst snd b_array b_len] in *. assert (Hc : len (repeat 0 (Z.to_nat n)) = n) by (rewrite len_repeat; lia).
    unfold b_cap. simpl. rewrite Hc. split; [lia|]. intros Hbig. split; [done|].
    unfold releaseBuf, pooled, b_cap. simpl. by rewrite Hc, E.
Qed.

(** The claim at an empty pool and a 300-byte request: a 1 KiB buffer. *)
Lemma acquireBuf_bounded_witness :
  let b := fst (acquireBuf empty_pools None 300) in
  len (b_bytes b) = 300 /\ b_cap b <= Z.max 256 (4 * 300)
  /\ (65536 < 300 -> b_cap b = 300 /\ releaseBuf empty_pools b = empty_pools).
Proof. apply (acquireBuf_bounded empty_pools None 300); [constructor|lia]. Defined.
