(* ===== verification/Fields.v ===== *)
(** * Fields: primitive fields and property writers (wire/fields.go)

    Readers of length-prefixed strings and binary data, the writers that
    fill a pre-sized buffer at an offset, and [writes], the relation that
    says which bytes a writer puts there whatever the buffer held before. *)

From S2P Require Import Prelude GoLib Errors Varint.

(** ** Definitions *)

(** [UserProperty] *)
Record UserProperty : Type := mkUserProperty { up_Key : list Z; up_Value : list Z }.

#[export] Instance UserProperty_eq_dec : EqDecision UserProperty.
Proof. solve_decision. Defined.

(** [Properties]: the raw property bytes. *)
Record Properties : Type := mkProperties { raw : list Z }.

Definition readUTF8String (buf : list Z) : wres (list Z * Z) :=
  if len buf <? 2 then fail ErrTruncated
  else
    let! n := Uint16 buf in
    if len buf <? 2 + n then fail ErrTruncated
    else let! s := slice buf 2 (2 + n) in Ok (s, 2 + n).

Definition readBinaryData (buf : list Z) : wres (list Z * Z) :=
  if len buf <? 2 then fail ErrTruncated
  else
    let! n := Uint16 buf in
    if len buf <? 2 + n then fail ErrTruncated
    else let! s := slice buf 2 (2 + n) in Ok (s, 2 + n).

(** Writers return the buffer and the new offset. *)
Definition writeUTF8String (buf : list Z) (off : Z) (s : list Z) : wres (list Z * Z) :=
  let! buf := PutUint16 buf off (u16 (len s)) in
  let off := off + 2 in
  let! (buf, n) := copy buf off s in
  Ok (buf, off + n).

Definition writeBinaryData (buf : list Z) (off : Z) (b : list Z) : wres (list Z * Z) :=
  let! buf := PutUint16 buf off (u16 (len b)) in
  let off := off + 2 in
  let! (buf, n) := copy buf off b in
  Ok (buf, off + n).

Definition PropertiesFromBytes (b : list Z) : Properties := mkProperties b.

Definition readProperties (buf : list Z) : wres (Properties * Z) :=
  let! (n, vbiN) := DecodeVarint buf in
  if u32 (len buf - vbiN) <? n then fail ErrTruncated
  else let! s := slice buf vbiN (vbiN + n) in Ok (PropertiesFromBytes s, vbiN + n).

(** [n, _ := EncodeVarint(...)]: an error leaves [n = 0] and the buffer as
    it was. *)
Definition writePropertiesPrefix (buf : list Z) (off propsLen : Z) : wres (list Z * Z) :=
  match EncodeVarint buf off (u32 propsLen) with
  | Ok (buf, n) => Ok (buf, off + n)
  | Err _ => Ok (buf, off + 0)
  | Panic => Panic
  end.

Definition writeProperty1 (buf : list Z) (off id : Z) (v : option Z) : wres (list Z * Z) :=
  match v with
  | None => Ok (buf, off)
  | Some v =>
      let! buf := set buf off id in
      let! buf := set buf (off + 1) v in
      Ok (buf, off + 2)
  end.

Definition writeProperty2 (buf : list Z) (off id v : Z) : wres (list Z * Z) :=
  if v =? 0 then Ok (buf, off)
  else
    let! buf := set buf off id in
    let! buf := PutUint16 buf (off + 1) v in
    Ok (buf, off + 3).

Definition writeProperty2P (buf : list Z) (off id : Z) (v : option Z) : wres (list Z * Z) :=
  match v with
  | None => Ok (buf, off)
  | Some v =>
      let! buf := set buf off id in
      let! buf := PutUint16 buf (off + 1) v in
      Ok (buf, off + 3)
  end.

Definition writeProperty4 (buf : list Z) (off id : Z) (v : option Z) : wres (list Z * Z) :=
  match v with
  | None => Ok (buf, off)
  | Some v =>
      let! buf := set buf off id in
      let! buf := PutUint32 buf (off + 1) v in
      Ok (buf, off + 5)
  end.

Definition writePropertyString (buf : list Z) (off id : Z) (v : list Z) : wres (list Z * Z) :=
  if list_eqb v [] then Ok (buf, off)
  else
    let! buf := set buf off id in
    let off := off + 1 in
    writeUTF8String buf off v.

Definition writePropertyBinary (buf : list Z) (off id : Z) (v : option (list Z)) : wres (list Z * Z) :=
  match v with
  | None => Ok (buf, off)
  | Some v =>
      let! buf := set buf off id in
      let off := off + 1 in
      writeBinaryData buf off v
  end.

Definition PropUserProperty : Z := 0x26.

Fixpoint writePropertyUserProps (buf : list Z) (off : Z) (props : list UserProperty) : wres (list Z * Z) :=
  match props with
  | [] => Ok (buf, off)
  | up :: props =>
      let! buf := set buf off PropUserProperty in
      let off := off + 1 in
      let! (buf, off) := writeUTF8String buf off (up_Key up) in
      let! (buf, off) := writeUTF8String buf off (up_Value up) in
      writePropertyUserProps buf off props
  end.

Fixpoint userPropertiesLen (props : list UserProperty) : Z :=
  match props with
  | [] => 0
  | up :: props => 1 + 2 + len (up_Key up) + 2 + len (up_Value up) + userPropertiesLen props
  end.

(** ** What a writer writes *)

Definition writer : Type := list Z -> Z -> wres (list Z * Z).

(** [writes w bs]: at any offset of any buffer with room, [w] replaces the
    next [len bs] bytes by [bs], touches nothing else, and advances the
    offset by [len bs]. *)
Definition writes (w : writer) (bs : list Z) : Prop :=
  forall pre old post, len old = len bs ->
  w (pre ++ old ++ post) (len pre) = Ok (pre ++ bs ++ post, len pre + len bs).

(** The encoding of a length-prefixed field. *)
Definition enc_str (s : list Z) : list Z := be16 (len s) ++ s.

#[global] Arguments enc_str s : simpl never.

(** Strings short enough for their 2-byte length prefix. *)
Definition short (s : list Z) : Prop := len s <= 65535.

Lemma len_enc_str s : len (enc_str s) = 2 + len s.
Proof. unfold enc_str. slia. Qed.
#[export] Hint Rewrite len_enc_str : len.

Lemma short_u16 s : short s -> is_u16 (len s).
Proof. unfold short, is_u16. pow2. slia. Qed.

Lemma bytes_enc_str s : bytes s -> bytes (enc_str s).
Proof. intros. apply bytes_app. eauto with go. Qed.
#[export] Hint Resolve bytes_enc_str short_u16 : go.

Lemma writes_nil : writes (fun buf off => Ok (buf, off)) [].
Proof. intros pre old post H. apply len_0_nil in H as ->. simpl. do 2 f_equal. slia. Qed.

Lemma writes_seq (w1 w2 : writer) b1 b2 :
  writes w1 b1 -> writes w2 b2 ->
  writes (fun buf off => let! (buf, off) := w1 buf off in w2 buf off) (b1 ++ b2).
Proof.
  intros H1 H2 pre old post Hlen. rewrite len_app in Hlen.
  destruct (split_at (len b1) old) as (o1 & o2 & -> & Ho1); [slia|]. rewrite len_app in Hlen.
  rewrite <- !app_assoc, H1 by done. cbn [rbind].
  replace (pre ++ b1 ++ o2 ++ post) with ((pre ++ b1) ++ o2 ++ post) by (by rewrite <- app_assoc).
  replace (len pre + len b1) with (len (pre ++ b1)) by slia.
  rewrite H2 by lia. rewrite <- !app_assoc. do 2 f_equal. slia.
Qed.

Lemma writes_ext (w w' : writer) b : (forall buf off, w buf off = w' buf off) -> writes w b -> writes w' b.
Proof. intros E H pre old post Hlen. rewrite <- E. by apply H. Qed.

Lemma writes_put_last b k :
  k = len b -> writes (fun buf off => let! buf := put buf off b in Ok (buf, off + k)) b.
Proof. intros -> pre old post Hlen. rewrite put_app by done. done. Qed.

(** A fixed run of bytes followed by a writer at the offset after it. *)
Lemma writes_put (w : writer) b1 b2 k :
  k = len b1 -> writes w b2 ->
  writes (fun buf off => let! buf := put buf off b1 in w buf (off + k)) (b1 ++ b2).
Proof.
  intros -> H. eapply writes_ext; [|apply writes_seq; [by apply (writes_put_last b1)|exact H]].
  intros buf off. simpl. by destruct (put buf off b1).
Qed.

Lemma writes_copy s :
  writes (fun buf off => let! (buf, n) := copy buf off s in Ok (buf, off + n)) s.
Proof. intros pre old post Hlen. rewrite copy_app by done. done. Qed.

Lemma writes_writeUTF8String s : short s -> writes (fun buf off => writeUTF8String buf off s) (enc_str s).
Proof.
  intros Hs. unfold writeUTF8String, enc_str, PutUint16.
  rewrite u16_small by eauto with go. 
  apply (writes_put (fun buf off => let! (buf, n) := copy buf off s in Ok (buf, off + n)) (be16 (len s)) s 2);
    [done|apply writes_copy].
Qed.

Lemma writes_writeBinaryData s : short s -> writes (fun buf off => writeBinaryData buf off s) (enc_str s).
Proof. apply writes_writeUTF8String. Qed.

Lemma writes_prefix n :
  0 <= n <= MaxVarintValue -> writes (fun buf off => writePropertiesPrefix buf off n) (enc_varint n).
Proof.
  intros Hn pre old post Hlen. unfold writePropertiesPrefix.
  rewrite u32_small by (unfold is_u32, MaxVarintValue in *; pow2; lia).
  rewrite len_enc_varint in Hlen |- * by done. by rewrite EncodeVarint_spec.
Qed.

(** ** Properties as values *)

(** A property value of each wire shape. A Variable Byte Integer is kept as
    the bytes that encode it, which need not be minimal on input. *)
Inductive pval : Type :=
| VByte (b : Z)
| VTwo (v : Z)
| VFour (v : Z)
| VVar (bs : list Z)
| VData (s : list Z)
| VPair (k v : list Z).

Definition prop : Type := Z * pval.

Definition enc_pval (v : pval) : list Z :=
  match v with
  | VByte b => [b]
  | VTwo v => be16 v
  | VFour v => be32 v
  | VVar bs => bs
  | VData s => enc_str s
  | VPair k v => enc_str k ++ enc_str v
  end.

Definition enc_prop (p : prop) : list Z := p.1 :: enc_pval p.2.

(** A property section. *)
Fixpoint enc_props (ps : list prop) : list Z :=
  match ps with
  | [] => []
  | p :: ps => enc_prop p ++ enc_props ps
  end.

(** The properties each writer contributes. *)
Definition p_byte (id : Z) (v : option Z) : list prop :=
  match v with Some b => [(id, VByte b)] | None => [] end.
Definition p_two (id v : Z) : list prop := if v =? 0 then [] else [(id, VTwo v)].
Definition p_twoP (id : Z) (v : option Z) : list prop :=
  match v with Some x => [(id, VTwo x)] | None => [] end.
Definition p_four (id : Z) (v : option Z) : list prop :=
  match v with Some x => [(id, VFour x)] | None => [] end.
Definition p_string (id : Z) (v : list Z) : list prop :=
  if list_eqb v [] then [] else [(id, VData v)].
Definition p_binary (id : Z) (v : option (list Z)) : list prop :=
  match v with Some x => [(id, VData x)] | None => [] end.
Definition p_user (props : list UserProperty) : list prop :=
  map (fun up => (PropUserProperty, VPair (up_Key up) (up_Value up))) props.

Definition short_opt (v : option (list Z)) : Prop :=
  match v with Some s => short s | None => True end.
Definition short_user (props : list UserProperty) : Prop :=
  Forall (fun up => short (up_Key up) /\ short (up_Value up)) props.

Lemma enc_props_app ps qs : enc_props (ps ++ qs) = enc_props ps ++ enc_props qs.
Proof. induction ps as [|p ps IH]; simpl; [done|]. by rewrite IH, app_assoc. Qed.

(** Split a chain of writers at its first [let!]. *)
Ltac wseq :=
  lazymatch goal with
  | |- writes (fun buf off => rbind (@?w1 buf off) (fun x => match x with (b, o) => @?w2 buf off b o end)) (?b1 ++ ?b2) =>
      let w2' := eval cbv beta in (fun b o => w2 (@nil Z) 0 b o) in
      apply (writes_seq w1 w2' b1 b2)
  end.

Lemma writes_property1 id v : writes (fun buf off => writeProperty1 buf off id v) (enc_props (p_byte id v)).
Proof.
  destruct v as [b|]; simpl; [|apply writes_nil].
  intros pre old post Hlen. unfold set. cbv [enc_prop enc_pval] in *.
  destruct old as [|o1 [|o2 old]]; [slia..|]. assert (old = []) as -> by (apply len_0_nil; slia).
  change ([o1; o2] ++ post) with ([o1] ++ [o2] ++ post).
  rewrite put_app by done. cbn [rbind].
  replace (pre ++ [id] ++ [o2] ++ post) with ((pre ++ [id]) ++ [o2] ++ post) by (by rewrite <- app_assoc).
  rewrite put_app by slia. cbn [rbind]. by rewrite <- app_assoc.
Qed.

(** One identifier byte, then a fixed-size value. *)
Lemma writes_id_put id b k :
  k = 1 + len b ->
  writes (fun buf off => let! buf := set buf off id in let! buf := put buf (off + 1) b in Ok (buf, off + k))
         (id :: b).
Proof.
  intros ->.
  eapply writes_ext; [|apply (writes_put (fun buf off => let! buf := put buf off b in Ok (buf, off + len b)) [id] b 1);
                       [done|by apply writes_put_last]].
  intros buf off. unfold set. simpl. destruct (put buf off [id]); [|done..]. simpl.
  destruct (put _ _ b); [|done..]. simpl. do 2 f_equal. lia.
Qed.

Lemma writes_property2 id v : writes (fun buf off => writeProperty2 buf off id v) (enc_props (p_two id v)).
Proof.
  unfold writeProperty2, p_two. destruct (v =? 0); simpl; [apply writes_nil|]. by apply writes_id_put.
Qed.

Lemma writes_property2P id v : writes (fun buf off => writeProperty2P buf off id v) (enc_props (p_twoP id v)).
Proof. destruct v as [x|]; simpl; [by apply writes_id_put|apply writes_nil]. Qed.

Lemma writes_property4 id v : writes (fun buf off => writeProperty4 buf off id v) (enc_props (p_four id v)).
Proof. destruct v as [x|]; simpl; [by apply writes_id_put|apply writes_nil]. Qed.

Lemma writes_id_str id s :
  short s ->
  writes (fun buf off => let! buf := set buf off id in let off := off + 1 in writeUTF8String buf off s)
         (id :: enc_str s).
Proof.
  intros Hs. apply (writes_put (fun buf off => writeUTF8String buf off s) [id] (enc_str s) 1); [done|].
  by apply writes_writeUTF8String.
Qed.

Lemma writes_propertyString id v :
  short v -> writes (fun buf off => writePropertyString buf off id v) (enc_props (p_string id v)).
Proof.
  intros. unfold writePropertyString, p_string.
  destruct (list_eqb v []); simpl; [apply writes_nil|]. rewrite app_nil_r. by apply writes_id_str.
Qed.

Lemma writes_propertyBinary id v :
  short_opt v -> writes (fun buf off => writePropertyBinary buf off id v) (enc_props (p_binary id v)).
Proof.
  intros. destruct v as [s|]; simpl; [|apply writes_nil]. rewrite app_nil_r. by apply writes_id_str.
Qed.

Lemma writes_userProps props :
  short_user props -> writes (fun buf off => writePropertyUserProps buf off props) (enc_props (p_user props)).
Proof.
  induction 1 as [|up props [Hk Hv] _ IH]; simpl; [apply writes_nil|].
  unfold enc_prop. simpl. rewrite <- app_assoc.
  apply (writes_put (fun buf off =>
      let! (buf, off) := writeUTF8String buf off (up_Key up) in
      let! (buf, off) := writeUTF8String buf off (up_Value up) in
      writePropertyUserProps buf off props) [PropUserProperty]
      (enc_str (up_Key up) ++ enc_str (up_Value up) ++ enc_props (p_user props)) 1); [done|].
  wseq; [by apply writes_writeUTF8String|]. wseq; [by apply writes_writeUTF8String|done].
Qed.

Create HintDb writes discriminated.
#[export] Hint Resolve writes_nil writes_writeUTF8String writes_writeBinaryData writes_prefix
  writes_property1 writes_property2 writes_property2P writes_property4 writes_propertyString
  writes_propertyBinary writes_userProps : writes.

(** ** Sizes *)

Lemma userPropertiesLen_spec props : userPropertiesLen props = len (enc_props (p_user props)).
Proof.
  induction props as [|up props IH]; simpl; [done|].
  rewrite IH. unfold enc_prop. simpl. slia.
Qed.

(** ** Readers on encoded fields *)

Lemma readUTF8String_enc s post : short s -> readUTF8String (enc_str s ++ post) = Ok (s, 2 + len s).
Proof.
  intros Hs. unfold readUTF8String, enc_str.
  rewrite (proj2 (Z.ltb_ge _ _)) by slia.
  rewrite <- app_assoc, Uint16_be16 by eauto with go. cbn [rbind].
  rewrite (proj2 (Z.ltb_ge _ _)) by slia.
  rewrite slice_app by slia. done.
Qed.

Lemma readBinaryData_enc s post : short s -> readBinaryData (enc_str s ++ post) = Ok (s, 2 + len s).
Proof. apply readUTF8String_enc. Qed.

Lemma readProperties_enc ps post :
  bytes ps -> bytes post -> len ps <= MaxVarintValue -> len post < 2 ^ 31 ->
  readProperties (enc_varint (len ps) ++ ps ++ post) = Ok (mkProperties ps, len (enc_varint (len ps)) + len ps).
Proof.
  intros Hps Hpost Hle Hmax. unfold readProperties.
  pose proof (len_nonneg ps). rewrite DecodeVarint_spec.
  2:{ rewrite !bytes_app. eauto with go. }
  rewrite dec_enc_varint by lia. cbn [rbind]. rewrite <- len_enc_varint by lia.
  pose proof (VarintSize_range (len ps)). rewrite <- len_enc_varint in * by lia.
  rewrite u32_small by (unfold is_u32, MaxVarintValue in *; pow2; change (2 ^ 31) with 2147483648 in *; slia).
  rewrite (proj2 (Z.ltb_ge _ _)) by slia.
  rewrite slice_app by slia. done.
Qed.

Lemma short_nil : short [].
Proof. unfold short. rewrite len_nil. lia. Qed.

(** Run a writer over a whole buffer. *)
Lemma writes_whole w bs buf : writes w bs -> len buf = len bs -> w buf 0 = Ok (bs, len bs).
Proof.
  intros H Hlen. specialize (H [] buf [] Hlen). change ([] ++ buf ++ []) with (buf ++ []) in H.
  rewrite app_nil_r in H. change 0 with (len (@nil Z)). rewrite H. simpl app. by rewrite app_nil_r.
Qed.

Lemma u32_varint n : 0 <= n <= MaxVarintValue -> u32 n = n.
Proof. intros. apply u32_small. unfold is_u32, MaxVarintValue in *. pow2. lia. Qed.

Lemma writes_packetID (b : bool) v :
  writes (fun buf off => if b then let! buf := PutUint16 buf off v in Ok (buf, off + 2) else Ok (buf, off))
         (if b then be16 v else []).
Proof. destruct b; [by apply writes_put_last|apply writes_nil]. Qed.
