(* ===== verification/PropView.v ===== *)
(** * PropView: the lazy view over a property section (wire/fields.go)

    [propValueSize], [Properties.find], the typed accessors and the two
    iterators walk the raw bytes at offsets.  They are proved to read
    exactly the list of properties the bytes encode ([enc_props]). *)

From S2P Require Import Prelude GoLib Errors Varint Fields.

(** ** Property identifiers *)

Definition PropPayloadFormat : Z := 0x01.
Definition PropMessageExpiryInterval : Z := 0x02.
Definition PropContentType : Z := 0x03.
Definition PropResponseTopic : Z := 0x08.
Definition PropCorrelationData : Z := 0x09.
Definition PropSubscriptionIdentifier : Z := 0x0B.
Definition PropSessionExpiryInterval : Z := 0x11.
Definition PropAssignedClientID : Z := 0x12.
Definition PropServerKeepAlive : Z := 0x13.
Definition PropAuthMethod : Z := 0x15.
Definition PropAuthData : Z := 0x16.
Definition PropRequestProblemInfo : Z := 0x17.
Definition PropWillDelayInterval : Z := 0x18.
Definition PropRequestResponseInfo : Z := 0x19.
Definition PropResponseInformation : Z := 0x1A.
Definition PropServerReference : Z := 0x1C.
Definition PropReasonString : Z := 0x1F.
Definition PropReceiveMaximum : Z := 0x21.
Definition PropTopicAliasMaximum : Z := 0x22.
Definition PropTopicAlias : Z := 0x23.
Definition PropMaximumQoS : Z := 0x24.
Definition PropRetainAvailable : Z := 0x25.
Definition PropMaximumPacketSize : Z := 0x27.
Definition PropWildcardSubAvailable : Z := 0x28.
Definition PropSubscriptionIDAvailable : Z := 0x29.
Definition PropSharedSubAvailable : Z := 0x2A.

(** [id] is one of the cases of a [switch]. *)
Definition one_of (id : Z) (ids : list Z) : bool := existsb (Z.eqb id) ids.

#[global] Arguments one_of id ids : simpl never.

Definition byteIDs : list Z :=
  [PropPayloadFormat; PropRequestProblemInfo; PropRequestResponseInfo; PropMaximumQoS;
   PropRetainAvailable; PropWildcardSubAvailable; PropSubscriptionIDAvailable; PropSharedSubAvailable].
Definition twoIDs : list Z :=
  [PropServerKeepAlive; PropReceiveMaximum; PropTopicAliasMaximum; PropTopicAlias].
Definition fourIDs : list Z :=
  [PropMessageExpiryInterval; PropSessionExpiryInterval; PropWillDelayInterval; PropMaximumPacketSize].
Definition dataIDs : list Z :=
  [PropContentType; PropResponseTopic; PropAssignedClientID; PropAuthMethod; PropResponseInformation;
   PropServerReference; PropReasonString; PropCorrelationData; PropAuthData].

(** ** Operations *)

Definition propValueSize (id : Z) (buf : list Z) : wres Z :=
  if one_of id byteIDs then Ok 1
  else if one_of id twoIDs then Ok 2
  else if one_of id fourIDs then Ok 4
  else if id =? PropSubscriptionIdentifier then
    let! (_, n) := DecodeVarint buf in Ok n
  else if one_of id dataIDs then
    if len buf <? 2 then fail ErrInvalidProperties
    else let! n := Uint16 buf in Ok (2 + n)
  else if id =? PropUserProperty then
    if len buf <? 2 then fail ErrInvalidProperties
    else
      let! kn := Uint16 buf in
      if len buf <? 2 + kn + 2 then fail ErrInvalidProperties
      else
        let! rest := from buf (2 + kn) in
        let! vn := Uint16 rest in
        Ok (2 + kn + 2 + vn)
  else fail ErrInvalidProperties.

(** The loop of [find], at offset [off]. *)
Fixpoint find_loop (fuel : nat) (raw : list Z) (off id : Z) : wres (option (list Z)) :=
  match fuel with
  | O => Panic
  | S fuel =>
      if off <? len raw then
        let! curID := idx raw off in
        let off := off + 1 in
        let! rest := from raw off in
        if curID =? id then Ok (Some rest)
        else match propValueSize curID rest with
             | Ok skip => find_loop fuel raw (off + skip) id
             | Err _ => Ok None
             | Panic => Panic
             end
      else Ok None
  end.

(** [Properties.find]: the bytes from the first value of [id] on. *)
Definition find (p : Properties) (id : Z) : wres (option (list Z)) :=
  find_loop (S (length (raw p))) (raw p) 0 id.

(** The typed accessors; [None] is [ok == false]. *)
Definition Byte (p : Properties) (id : Z) : wres (option Z) :=
  let! v := find p id in
  match v with
  | None => Ok None
  | Some v => if len v <? 1 then Ok None else let! b := idx v 0 in Ok (Some b)
  end.

Definition PUint16 (p : Properties) (id : Z) : wres (option Z) :=
  let! v := find p id in
  match v with
  | None => Ok None
  | Some v => if len v <? 2 then Ok None else let! b := Uint16 v in Ok (Some b)
  end.

Definition PUint32 (p : Properties) (id : Z) : wres (option Z) :=
  let! v := find p id in
  match v with
  | None => Ok None
  | Some v => if len v <? 4 then Ok None else let! b := Uint32 v in Ok (Some b)
  end.

Definition PVarint (p : Properties) (id : Z) : wres (option Z) :=
  let! v := find p id in
  match v with
  | None => Ok None
  | Some v => match DecodeVarint v with
              | Ok (val, _) => Ok (Some val)
              | Err _ => Ok None
              | Panic => Panic
              end
  end.

Definition PString (p : Properties) (id : Z) : wres (option (list Z)) :=
  let! v := find p id in
  match v with
  | None => Ok None
  | Some v =>
      if len v <? 2 then Ok None
      else
        let! n := Uint16 v in
        if len v <? 2 + n then Ok None
        else let! s := slice v 2 (2 + n) in Ok (Some s)
  end.

(** [Properties.Binary]: the same wire format. *)
Definition PBinary (p : Properties) (id : Z) : wres (option (list Z)) :=
  let! v := find p id in
  match v with
  | None => Ok None
  | Some v =>
      if len v <? 2 then Ok None
      else
        let! n := Uint16 v in
        if len v <? 2 + n then Ok None
        else let! s := slice v 2 (2 + n) in Ok (Some s)
  end.

(** The pairs [UserProperties] yields, in order. *)
Fixpoint UserProperties_loop (fuel : nat) (raw : list Z) (off : Z) : wres (list (list Z * list Z)) :=
  match fuel with
  | O => Panic
  | S fuel =>
      if off <? len raw then
        let! id := idx raw off in
        let off := off + 1 in
        let! rest := from raw off in
        if negb (id =? PropUserProperty) then
          match propValueSize id rest with
          | Ok skip => UserProperties_loop fuel raw (off + skip)
          | Err _ => Ok []
          | Panic => Panic
          end
        else if len raw <? off + 2 then Ok []
        else
          let! kn := Uint16 rest in
          let off := off + 2 in
          if len raw <? off + kn then Ok []
          else
            let! k := slice raw off (off + kn) in
            let off := off + kn in
            if len raw <? off + 2 then Ok []
            else
              let! rest := from raw off in
              let! vn := Uint16 rest in
              let off := off + 2 in
              if len raw <? off + vn then Ok []
              else
                let! v := slice raw off (off + vn) in
                let off := off + vn in
                let! more := UserProperties_loop fuel raw off in
                Ok ((k, v) :: more)
      else Ok []
  end.

Definition UserProperties (p : Properties) : wres (list (list Z * list Z)) :=
  UserProperties_loop (S (length (raw p))) (raw p) 0.

(** The identifiers [SubscriptionIdentifiers] yields, in order. *)
Fixpoint SubscriptionIdentifiers_loop (fuel : nat) (raw : list Z) (off : Z) : wres (list Z) :=
  match fuel with
  | O => Panic
  | S fuel =>
      if off <? len raw then
        let! id := idx raw off in
        let off := off + 1 in
        let! rest := from raw off in
        match propValueSize id rest with
        | Panic => Panic
        | Err _ => Ok []
        | Ok size =>
            if len raw <? off + size then Ok []
            else
              let! here :=
                (if id =? PropSubscriptionIdentifier then
                   let! bs := slice raw off (off + size) in
                   match DecodeVarint bs with
                   | Ok (v, _) => Ok [v]
                   | Err _ => Ok []
                   | Panic => Panic
                   end
                 else Ok []) in
              let! more := SubscriptionIdentifiers_loop fuel raw (off + size) in
              Ok (here ++ more)
        end
      else Ok []
  end.

Definition SubscriptionIdentifiers (p : Properties) : wres (list Z) :=
  SubscriptionIdentifiers_loop (S (length (raw p))) (raw p) 0.

(** ** The properties a section encodes *)

(** A value of the shape its identifier requires, within its width. *)
Definition wf_prop (p : prop) : Prop :=
  is_u8 p.1 /\
  match p.2 with
  | VByte b => one_of p.1 byteIDs = true /\ is_u8 b
  | VTwo v => one_of p.1 twoIDs = true /\ is_u16 v
  | VFour v => one_of p.1 fourIDs = true /\ is_u32 v
  | VVar bs => p.1 = PropSubscriptionIdentifier /\ bytes bs /\ exists v, DecodeVarint bs = Ok (v, len bs)
  | VData s => one_of p.1 dataIDs = true /\ bytes s /\ short s
  | VPair k v => p.1 = PropUserProperty /\ bytes k /\ short k /\ bytes v /\ short v
  end.

(** The first value of [id]. *)
Fixpoint first_prop (id : Z) (ps : list prop) : option pval :=
  match ps with
  | [] => None
  | (i, v) :: ps => if i =? id then Some v else first_prop id ps
  end.

Definition user_pairs (ps : list prop) : list (list Z * list Z) :=
  omap (fun p => match p.2 with VPair k v => Some (k, v) | _ => None end) ps.

(** The Subscription Identifiers among the properties. *)
Definition subscription_ids (ps : list prop) : list Z :=
  omap (fun p => match p.2 with
                 | VVar bs => match DecodeVarint bs with Ok (v, _) => Some v | _ => None end
                 | _ => None
                 end) ps.

(** ** Lemmas *)

Lemma one_of_In id ids : one_of id ids = true <-> In id ids.
Proof.
  unfold one_of. rewrite existsb_exists. split.
  - intros (x & Hx & E). apply Z.eqb_eq in E. by subst.
  - intros. exists id. by rewrite Z.eqb_refl.
Qed.

(** Case analysis over the identifiers of a class. *)
Ltac id_cases H :=
  apply one_of_In in H; simpl in H;
  repeat (destruct H as [H|H]; [rewrite <- ?H in *|]); try contradiction.

Lemma Uint16_ok {E} b : bytes b -> 2 <= len b -> exists v, @Uint16 E b = Ok v /\ is_u16 v.
Proof.
  intros Hb Hl. destruct b as [|b0 [|b1 t]]; [slia..|].
  apply bytes_cons in Hb as [H0 Hb]. apply bytes_cons in Hb as [H1 Hb].
  unfold Uint16. rewrite idx_1. cbn [rbind]. rewrite idx_0. cbn [rbind]. eexists; split; [done|].
  unfold is_u8, is_u16 in *. rewrite lor_shiftl_add by lia. pow2. lia.
Qed.

(** The two bytes a uint16 is read from are its encoding. *)
Lemma Uint16_inv {E} b v : bytes b -> @Uint16 E b = Ok v -> exists t, b = be16 v ++ t /\ is_u16 v.
Proof.
  intros Hb. unfold Uint16, idx. destruct b as [|b0 [|b1 t]]; [done..|].
  apply bytes_cons in Hb as [H0 Hb]. apply bytes_cons in Hb as [H1 Hb].
  rewrite (proj2 (Z.ltb_lt 1 _)) by slia. rewrite (proj2 (Z.ltb_lt 0 _)) by slia. simpl.
  intros [= <-]. exists t. unfold is_u8, is_u16 in *. rewrite lor_shiftl_add by lia. pow2.
  split; [|lia]. unfold be16, u8. rewrite shiftr_div by lia. simpl. pow2.
  repeat f_equal; dlia.
Qed.

Lemma Uint32_ok {E} b : bytes b -> 4 <= len b -> exists v, @Uint32 E b = Ok v.
Proof.
  intros Hb Hl. destruct b as [|b0 [|b1 [|b2 [|b3 t]]]]; [slia..|].
  unfold Uint32. rewrite idx_3. cbn [rbind]. rewrite idx_2. cbn [rbind].
  rewrite idx_1. cbn [rbind]. rewrite idx_0. cbn [rbind]. eauto.
Qed.

Lemma Uint32_inv b : bytes b -> 4 <= len b -> exists v t, b = be32 v ++ t /\ is_u32 v.
Proof.
  intros Hb Hl. destruct b as [|b0 [|b1 [|b2 [|b3 t]]]]; [slia..|].
  repeat (apply bytes_cons in Hb as [?B Hb]). unfold is_u8 in *. pow2.
  exists (b3 + 256 * (b2 + 256 * (b1 + 256 * b0))), t. split; [|unfold is_u32; pow2; lia].
  unfold be32, u8. rewrite !shiftr_div by lia. simpl. pow2. repeat f_equal; dlia.
Qed.

Lemma bytes_enc_pval p : wf_prop p -> bytes (enc_pval p.2).
Proof.
  intros [_ H]. destruct p as [id [b|v|v|bs|s|k v]]; cbn [fst snd enc_pval] in *; eauto with go.
  - apply bytes_cons. split; [tauto|apply bytes_nil].
  - tauto.
  - apply bytes_enc_str. tauto.
  - rewrite bytes_app. split; apply bytes_enc_str; tauto.
Qed.

Lemma bytes_enc_props ps : Forall wf_prop ps -> bytes (enc_props ps).
Proof.
  induction 1 as [|p ps Hp _ IH]; simpl; [constructor|].
  apply bytes_cons. split; [apply Hp|]. apply bytes_app. split; [by apply bytes_enc_pval|done].
Qed.

Lemma len_enc_pval_pos p : wf_prop p -> 1 <= len (enc_pval p.2).
Proof.
  intros [_ H]. destruct p as [id [b|v|v|bs|s|k v]]; cbn [fst snd enc_pval] in *; autorewrite with len; len_facts; try lia.
  destruct H as (_ & Hb & v & Hv). apply DecodeVarint_ok in Hv; [lia|done].
Qed.

Lemma DecodeVarint_app l k p : bytes l -> bytes k -> DecodeVarint l = Ok p -> DecodeVarint (l ++ k) = Ok p.
Proof.
  intros Hl Hk. rewrite !DecodeVarint_spec by (rewrite ?bytes_app; auto).
  destruct (dec_varint_groups 4 l) as [q|] eqn:E; [|discriminate].
  intros [= <-]. by rewrite (dec_groups_app _ _ _ _ E).
Qed.

Lemma propValueSize_data id buf :
  one_of id dataIDs = true ->
  propValueSize id buf =
    if len buf <? 2 then fail ErrInvalidProperties else let! n := Uint16 buf in Ok (2 + n).
Proof. intros H. id_cases H; subst id; done. Qed.

Lemma propValueSize_user buf :
  propValueSize PropUserProperty buf =
    if len buf <? 2 then fail ErrInvalidProperties
    else
      let! kn := Uint16 buf in
      if len buf <? 2 + kn + 2 then fail ErrInvalidProperties
      else let! rest := from buf (2 + kn) in let! vn := Uint16 rest in Ok (2 + kn + 2 + vn).
Proof. reflexivity. Qed.

Lemma propValueSize_var buf :
  propValueSize PropSubscriptionIdentifier buf = let! (_, n) := DecodeVarint buf in Ok n.
Proof. reflexivity. Qed.

(** The size of an encoded value, whatever follows it. *)
Lemma propValueSize_enc p rest :
  wf_prop p -> bytes rest -> propValueSize p.1 (enc_pval p.2 ++ rest) = Ok (len (enc_pval p.2)).
Proof.
  intros [Hid H] Hrest. destruct p as [id [b|v|v|bs|s|k v]]; cbn [fst snd enc_pval] in *.
  - destruct H as [H _]. unfold propValueSize. by rewrite H.
  - destruct H as [H _]. id_cases H; subst id; done.
  - destruct H as [H _]. id_cases H; subst id; done.
  - destruct H as (-> & Hb & v & Hv).
    by rewrite propValueSize_var, (DecodeVarint_app _ _ _ Hb Hrest Hv).
  - destruct H as (H & Hb & Hs). pose proof (len_nonneg s).
    rewrite propValueSize_data, (proj2 (Z.ltb_ge _ _)) by (done || slia).
    unfold enc_str. rewrite <- app_assoc, Uint16_be16 by eauto with go. cbn [rbind]. f_equal. slia.
  - destruct H as (-> & Hk & Sk & Hv & Sv).
    rewrite propValueSize_user, (proj2 (Z.ltb_ge _ _)) by slia.
    unfold enc_str at 1. rewrite <- !app_assoc, Uint16_be16 by eauto with go. cbn [rbind].
    rewrite (proj2 (Z.ltb_ge _ _)) by slia.
    replace (enc_str k ++ enc_str v ++ rest) with ((be16 (len k) ++ k) ++ enc_str v ++ rest) by done.
    rewrite from_app by slia. cbn [rbind].
    unfold enc_str at 1. rewrite <- !app_assoc, Uint16_be16 by eauto with go. cbn [rbind]. f_equal. slia.
Qed.

Lemma propValueSize_no_panic id buf : bytes buf -> no_panic (propValueSize id buf).
Proof.
  intros Hb. unfold propValueSize. repeat case_match; try discriminate.
  - apply no_panic_bind; [by apply DecodeVarint_no_panic|]. intros [? ?] _. discriminate.
  - apply Z.ltb_ge in H4. destruct (@Uint16_ok error buf Hb) as (v & -> & _); [lia|]. discriminate.
  - apply Z.ltb_ge in H5. destruct (@Uint16_ok error buf Hb) as (kn & -> & Hkn); [lia|]. cbn [rbind].
    destruct (len buf <? 2 + kn + 2) eqn:E; [discriminate|]. apply Z.ltb_ge in E.
    unfold is_u16 in Hkn. unfold from. rewrite !(proj2 (Z.leb_le _ _)) by lia. simpl.
    destruct (@Uint16_ok error (zdrop (2 + kn) buf)) as (v & -> & _);
      [by apply bytes_zdrop|rewrite len_zdrop; lia|]. discriminate.
Qed.

Lemma propValueSize_pos id buf n : bytes buf -> propValueSize id buf = Ok n -> 1 <= n.
Proof.
  intros Hb. unfold propValueSize. repeat case_match; try (intros [= <-]; lia); try discriminate.
  - destruct (DecodeVarint buf) as [[v k]| |] eqn:E; simpl; try discriminate.
    intros [= <-]. apply DecodeVarint_ok in E; [lia|done].
  - destruct (Uint16 buf) as [v| |] eqn:E; simpl; try discriminate. intros [= <-].
    apply Uint16_inv in E as (? & _ & Hu); [|done]. unfold is_u16 in Hu. lia.
  - destruct (Uint16 buf) as [kn| |] eqn:E; simpl; try discriminate.
    apply Uint16_inv in E as (? & _ & Hu); [|done]. unfold is_u16 in Hu.
    case_match; [discriminate|]. unfold from. case_match; simpl; [|discriminate].
    destruct (Uint16 (zdrop _ buf)) as [vn| |] eqn:E2; simpl; try discriminate. intros [= <-].
    apply Uint16_inv in E2 as (? & _ & Hu2); [|by apply bytes_zdrop]. unfold is_u16 in Hu2. lia.
Qed.
#[export] Hint Resolve propValueSize_no_panic : nopanic.

(** One step of a walk over [pre ++ enc_prop p ++ rest] at [len pre]. *)
Lemma walk_step {E} pre (p : prop) rest :
  let raw := pre ++ enc_prop p ++ rest in
  (len pre <? len raw) = true
  /\ @idx E raw (len pre) = Ok p.1
  /\ @from E raw (len pre + 1) = Ok (enc_pval p.2 ++ rest).
Proof.
  unfold enc_prop. cbn zeta. rewrite <- app_comm_cons. repeat split.
  - apply Z.ltb_lt. slia.
  - by rewrite idx_app.
  - replace (pre ++ p.1 :: enc_pval p.2 ++ rest) with ((pre ++ [p.1]) ++ enc_pval p.2 ++ rest)
      by (by rewrite <- app_assoc).
    by rewrite from_app by slia.
Qed.

(** The rest of a walk starts after the property. *)
Lemma walk_next pre (p : prop) rest :
  pre ++ enc_prop p ++ rest = (pre ++ enc_prop p) ++ rest
  /\ len pre + 1 + len (enc_pval p.2) = len (pre ++ enc_prop p).
Proof. unfold enc_prop. split; [by rewrite app_assoc|slia]. Qed.

Lemma find_loop_enc fuel pre ps id :
  Forall wf_prop ps -> (length ps < fuel)%nat ->
  match first_prop id ps with
  | Some v => exists rest, bytes rest /\ find_loop fuel (pre ++ enc_props ps) (len pre) id = Ok (Some (enc_pval v ++ rest))
  | None => find_loop fuel (pre ++ enc_props ps) (len pre) id = Ok None
  end.
Proof.
  intros Hps. revert fuel pre. induction Hps as [|p ps Hp Hps IH]; intros fuel pre Hf; cbn [first_prop enc_props].
  - destruct fuel; [lia|]. simpl. rewrite app_nil_r, Z.ltb_irrefl. done.
  - destruct fuel as [|fuel]; [simpl in Hf; lia|]. cbn [find_loop].
    pose proof (bytes_enc_props _ Hps) as Hb.
    destruct (@walk_step error pre p (enc_props ps)) as (-> & -> & Hfrom). cbn [rbind].
    destruct p as [i v]. cbn [fst snd] in *. rewrite Hfrom. cbn [rbind].
    destruct (i =? id); [by eauto|].
    pose proof (propValueSize_enc (i, v) _ Hp Hb) as Hsz. cbn [fst snd] in Hsz. rewrite Hsz.
    destruct (walk_next pre (i, v) (enc_props ps)) as [-> Hoff]. cbn [fst snd] in Hoff. rewrite Hoff.
    apply IH. simpl in Hf. lia.
Qed.

Lemma length_enc_props ps : (length ps <= length (enc_props ps))%nat.
Proof. induction ps as [|p ps IH]; simpl; [lia|]. rewrite length_app. lia. Qed.

Lemma find_enc ps id :
  Forall wf_prop ps ->
  match first_prop id ps with
  | Some v => exists rest, bytes rest /\ find (mkProperties (enc_props ps)) id = Ok (Some (enc_pval v ++ rest))
  | None => find (mkProperties (enc_props ps)) id = Ok None
  end.
Proof.
  intros Hps. apply (find_loop_enc (S (length (enc_props ps))) [] ps id Hps).
  pose proof (length_enc_props ps). lia.
Qed.

Lemma first_prop_wf id ps v : Forall wf_prop ps -> first_prop id ps = Some v -> wf_prop (id, v).
Proof.
  induction 1 as [|[i w] ps Hp _ IH]; simpl; [discriminate|].
  destruct (Z.eqb_spec i id) as [->|]; [intros [= <-]|]; auto.
Qed.

Section accessors.
Variable ps : list prop.
Hypothesis Hps : Forall wf_prop ps.
Let P := mkProperties (enc_props ps).

Lemma Byte_enc id :
  one_of id byteIDs = true ->
  Byte P id = Ok (match first_prop id ps with Some (VByte b) => Some b | _ => None end).
Proof.
  intros Hid. unfold Byte, P. pose proof (find_enc ps id Hps) as Hf.
  destruct (first_prop id ps) as [v|] eqn:E; [|by rewrite Hf].
  destruct Hf as (rest & Hr & ->). cbn [rbind].
  pose proof (first_prop_wf _ _ _ Hps E) as [_ Hw].
  destruct v; cbn [fst snd] in Hw; try (by id_cases Hid; subst id; destruct Hw).
  cbn [enc_pval app]. rewrite (proj2 (Z.ltb_ge _ _)) by slia. by rewrite idx_0.
Qed.

Lemma PUint16_enc id :
  one_of id twoIDs = true ->
  PUint16 P id = Ok (match first_prop id ps with Some (VTwo b) => Some b | _ => None end).
Proof.
  intros Hid. unfold PUint16, P. pose proof (find_enc ps id Hps) as Hf.
  destruct (first_prop id ps) as [v|] eqn:E; [|by rewrite Hf].
  destruct Hf as (rest & Hr & ->). cbn [rbind].
  pose proof (first_prop_wf _ _ _ Hps E) as [_ Hw].
  destruct v; cbn [fst snd] in Hw; try (by id_cases Hid; subst id; destruct Hw).
  cbn [enc_pval]. rewrite (proj2 (Z.ltb_ge _ _)) by slia. by rewrite Uint16_be16 by tauto.
Qed.

Lemma PUint32_enc id :
  one_of id fourIDs = true ->
  PUint32 P id = Ok (match first_prop id ps with Some (VFour b) => Some b | _ => None end).
Proof.
  intros Hid. unfold PUint32, P. pose proof (find_enc ps id Hps) as Hf.
  destruct (first_prop id ps) as [v|] eqn:E; [|by rewrite Hf].
  destruct Hf as (rest & Hr & ->). cbn [rbind].
  pose proof (first_prop_wf _ _ _ Hps E) as [_ Hw].
  destruct v; cbn [fst snd] in Hw; try (by id_cases Hid; subst id; destruct Hw).
  cbn [enc_pval]. rewrite (proj2 (Z.ltb_ge _ _)) by slia. by rewrite Uint32_be32 by tauto.
Qed.

Lemma PString_enc id :
  one_of id dataIDs = true ->
  PString P id = Ok (match first_prop id ps with Some (VData s) => Some s | _ => None end).
Proof.
  intros Hid. unfold PString, P. pose proof (find_enc ps id Hps) as Hf.
  destruct (first_prop id ps) as [v|] eqn:E; [|by rewrite Hf].
  destruct Hf as (rest & Hr & ->). cbn [rbind].
  pose proof (first_prop_wf _ _ _ Hps E) as [_ Hw].
  destruct v as [| | | |s|]; cbn [fst snd] in Hw; try (by id_cases Hid; subst id; destruct Hw).
  cbn [enc_pval]. destruct Hw as (_ & Hb & Hs).
  rewrite (proj2 (Z.ltb_ge _ _)) by slia.
  unfold enc_str. rewrite <- app_assoc, Uint16_be16 by eauto with go. cbn [rbind].
  rewrite (proj2 (Z.ltb_ge _ _)) by slia. by rewrite slice_app by slia.
Qed.

Lemma PBinary_enc id :
  one_of id dataIDs = true ->
  PBinary P id = Ok (match first_prop id ps with Some (VData s) => Some s | _ => None end).
Proof. apply PString_enc. Qed.

Lemma PVarint_enc :
  PVarint P PropSubscriptionIdentifier =
  Ok (match first_prop PropSubscriptionIdentifier ps with
      | Some (VVar bs) => match DecodeVarint bs with Ok (v, _) => Some v | _ => None end
      | _ => None
      end).
Proof.
  unfold PVarint, P. pose proof (find_enc ps PropSubscriptionIdentifier Hps) as Hf.
  destruct (first_prop PropSubscriptionIdentifier ps) as [v|] eqn:E; [|by rewrite Hf].
  destruct Hf as (rest & Hr & ->). cbn [rbind].
  pose proof (first_prop_wf _ _ _ Hps E) as [_ Hw].
  destruct v; cbn [fst snd] in Hw; try (by destruct Hw).
  destruct Hw as (_ & Hb & v & Hv). cbn [enc_pval].
  by rewrite (DecodeVarint_app _ _ _ Hb Hr Hv), Hv.
Qed.
End accessors.

Lemma wf_prop_user id v : wf_prop (id, v) -> (id =? PropUserProperty) = match v with VPair _ _ => true | _ => false end.
Proof.
  intros [_ H]. cbn [fst snd] in H.
  destruct v; try (destruct H as [H _]); try (subst id; done); by id_cases H; subst id.
Qed.

Lemma UserProperties_loop_enc fuel pre ps :
  Forall wf_prop ps -> (length ps < fuel)%nat ->
  UserProperties_loop fuel (pre ++ enc_props ps) (len pre) = Ok (user_pairs ps).
Proof.
  intros Hps. revert fuel pre. induction Hps as [|p ps Hp Hps IH]; intros fuel pre Hf; cbn [enc_props].
  - destruct fuel; [lia|]. simpl. rewrite app_nil_r, Z.ltb_irrefl. done.
  - destruct fuel as [|fuel]; [simpl in Hf; lia|]. cbn [UserProperties_loop].
    assert (length ps < fuel)%nat by (simpl in Hf; lia).
    pose proof (bytes_enc_props _ Hps) as Hb.
    destruct (@walk_step error pre p (enc_props ps)) as (-> & -> & Hfrom). cbn [rbind].
    pose proof (propValueSize_enc p _ Hp Hb) as Hsz.
    destruct (walk_next pre p (enc_props ps)) as [Hn Hoff].
    destruct p as [i v]. cbn [fst snd] in *. rewrite Hfrom. cbn [rbind].
    rewrite (wf_prop_user _ _ Hp).
    destruct v as [b|v|v|bs|s|k v]; cbn [negb]; try (rewrite Hsz, Hn, Hoff; by apply IH).
    destruct Hp as [_ Hp]. cbn [fst snd] in Hp. destruct Hp as (-> & Hk & Sk & Hv & Sv).
    assert (Hraw : pre ++ enc_prop (PropUserProperty, VPair k v) ++ enc_props ps
                   = (pre ++ PropUserProperty :: be16 (len k)) ++ k ++ (enc_str v ++ enc_props ps)).
    { unfold enc_prop, enc_str. cbn [fst snd enc_pval]. unfold enc_str. rewrite <- !app_assoc. simpl.
      by rewrite <- !app_assoc. }
    assert (Hraw2 : pre ++ enc_prop (PropUserProperty, VPair k v) ++ enc_props ps
                   = (pre ++ PropUserProperty :: be16 (len k) ++ k ++ be16 (len v)) ++ v ++ enc_props ps).
    { rewrite Hraw. unfold enc_str. rewrite <- !app_assoc. simpl. by rewrite <- !app_assoc. }
    assert (Hlen : len (pre ++ enc_prop (PropUserProperty, VPair k v) ++ enc_props ps)
                   = len pre + 1 + 2 + len k + 2 + len v + len (enc_props ps)).
    { rewrite Hraw. slia. }
    rewrite (proj2 (Z.ltb_ge _ _)) by slia.
    cbn [enc_pval]. unfold enc_str at 1. rewrite <- !app_assoc, Uint16_be16 by eauto with go. cbn [rbind].
    rewrite (proj2 (Z.ltb_ge _ _)) by slia.
    rewrite Hraw at 1. rewrite slice_app by slia. cbn [rbind].
    rewrite (proj2 (Z.ltb_ge _ _)) by slia.
    replace (from _ (len pre + 1 + 2 + len k)) with (@Ok error _ (enc_str v ++ enc_props ps))
      by (rewrite Hraw, app_assoc; symmetry; apply from_app; slia).
    cbn [rbind]. unfold enc_str at 1. rewrite <- !app_assoc, Uint16_be16 by eauto with go. cbn [rbind].
    rewrite (proj2 (Z.ltb_ge _ _)) by slia.
    rewrite Hraw2 at 1. rewrite slice_app by slia. cbn [rbind].
    replace (len pre + 1 + 2 + len k + 2 + len v) with (len (pre ++ enc_prop (PropUserProperty, VPair k v)))
      by (rewrite <- Hoff; cbn [enc_pval]; slia).
    rewrite Hn, IH by done. done.
Qed.

Lemma UserProperties_enc ps :
  Forall wf_prop ps -> UserProperties (mkProperties (enc_props ps)) = Ok (user_pairs ps).
Proof.
  intros Hps. apply (UserProperties_loop_enc (S (length (enc_props ps))) [] ps Hps).
  pose proof (length_enc_props ps). lia.
Qed.

Lemma wf_prop_var id v : wf_prop (id, v) -> (id =? PropSubscriptionIdentifier) = match v with VVar _ => true | _ => false end.
Proof.
  intros [_ H]. cbn [fst snd] in H.
  destruct v; try (destruct H as [H _]); try (subst id; done); by id_cases H; subst id.
Qed.

Lemma SubscriptionIdentifiers_loop_enc fuel pre ps :
  Forall wf_prop ps -> (length ps < fuel)%nat ->
  SubscriptionIdentifiers_loop fuel (pre ++ enc_props ps) (len pre) = Ok (subscription_ids ps).
Proof.
  intros Hps. revert fuel pre. induction Hps as [|p ps Hp Hps IH]; intros fuel pre Hf; cbn [enc_props].
  - destruct fuel; [lia|]. simpl. rewrite app_nil_r, Z.ltb_irrefl. done.
  - destruct fuel as [|fuel]; [simpl in Hf; lia|]. cbn [SubscriptionIdentifiers_loop].
    assert (length ps < fuel)%nat by (simpl in Hf; lia).
    pose proof (bytes_enc_props _ Hps) as Hb.
    destruct (@walk_step error pre p (enc_props ps)) as (-> & -> & Hfrom). cbn [rbind].
    pose proof (propValueSize_enc p _ Hp Hb) as Hsz.
    destruct (walk_next pre p (enc_props ps)) as [Hn Hoff].
    destruct p as [i v]. cbn [fst snd] in *. rewrite Hfrom. cbn [rbind]. rewrite Hsz.
    rewrite (proj2 (Z.ltb_ge _ _)) by (unfold enc_prop; cbn [fst snd]; slia).
    rewrite (wf_prop_var _ _ Hp), Hoff.
    destruct v as [b|v|v|bs|s|k v]; cbn [rbind]; try (rewrite Hn, IH by done; done).
    replace (slice _ (len pre + 1) _) with (@Ok error _ bs).
    2:{ symmetry. replace (pre ++ enc_prop (i, VVar bs) ++ enc_props ps)
          with ((pre ++ [i]) ++ bs ++ enc_props ps) by (by rewrite <- app_assoc).
        unfold enc_prop. cbn [fst snd enc_pval]. apply slice_app; slia. }
    destruct Hp as [_ Hp]. cbn [fst snd] in Hp. destruct Hp as (-> & Hbs & v & Hv).
    cbn [rbind]. rewrite Hv. cbn [rbind]. rewrite Hn, IH by done. cbn [rbind].
    unfold subscription_ids. cbn [omap list_omap snd]. by rewrite Hv.
Qed.

Lemma SubscriptionIdentifiers_enc ps :
  Forall wf_prop ps -> SubscriptionIdentifiers (mkProperties (enc_props ps)) = Ok (subscription_ids ps).
Proof.
  intros Hps. apply (SubscriptionIdentifiers_loop_enc (S (length (enc_props ps))) [] ps Hps).
  pose proof (length_enc_props ps). lia.
Qed.

(** ** No panic on any bytes *)

Lemma idx_ok {E} b i : 0 <= i < len b -> exists x, @idx E b i = Ok x.
Proof.
  intros. unfold idx. rewrite (proj2 (Z.leb_le _ _)), (proj2 (Z.ltb_lt _ _)) by lia. simpl. eauto.
Qed.
Lemma from_ok {E} b i : 0 <= i <= len b -> @from E b i = Ok (zdrop i b).
Proof. intros. unfold from. by rewrite !(proj2 (Z.leb_le _ _)) by lia. Qed.
Lemma slice_ok {E} b i j : 0 <= i <= j -> j <= len b -> @slice E b i j = Ok (ztake (j - i) (zdrop i b)).
Proof. intros. unfold slice. by rewrite !(proj2 (Z.leb_le _ _)) by lia. Qed.

(** Discharge [let!] over a computation that succeeds. *)
Ltac ok_idx := match goal with
  | |- context [@idx ?E ?b ?i] => let x := fresh "x" in let H := fresh "Hx" in
      destruct (@idx_ok E b i) as [x H]; [lia|rewrite H; cbn [rbind]] end.

Lemma find_loop_no_panic fuel raw off id :
  bytes raw -> 0 <= off -> len raw - off < Z.of_nat fuel -> 0 < Z.of_nat fuel ->
  no_panic (find_loop fuel raw off id).
Proof.
  intros Hb. revert off. induction fuel as [|fuel IH]; intros off Ho Hf Hp; [lia|]. cbn [find_loop].
  destruct (Z.ltb_spec off (len raw)); [|discriminate].
  ok_idx. rewrite from_ok by lia. cbn [rbind]. case_match; [discriminate|].
  destruct (propValueSize x _) as [n| |] eqn:E; [|discriminate|].
  - apply propValueSize_pos in E; [|by apply bytes_zdrop]. apply IH; lia.
  - apply propValueSize_no_panic in E; [done|by apply bytes_zdrop].
Qed.

Lemma find_no_panic p id : bytes (raw p) -> no_panic (find p id).
Proof. intros. unfold find. apply find_loop_no_panic; [done|lia| |lia]. unfold len. lia. Qed.

Lemma find_loop_bytes fuel raw off id v :
  bytes raw -> find_loop fuel raw off id = Ok (Some v) -> bytes v.
Proof.
  intros Hb. revert off. induction fuel as [|fuel IH]; intros off; cbn [find_loop]; [discriminate|].
  case_match; [|discriminate]. destruct (idx raw off); cbn [rbind]; try discriminate.
  unfold from at 1. case_match; cbn [rbind]; try discriminate.
  case_match; [intros [= <-]; by apply bytes_zdrop|]. case_match; try discriminate. apply IH.
Qed.

Lemma PUint16_no_panic p id : bytes (raw p) -> no_panic (PUint16 p id).
Proof.
  intros Hb. unfold PUint16. apply no_panic_bind; [by apply find_no_panic|].
  intros [v|] E; [|discriminate]. apply find_loop_bytes in E; [|done].
  destruct (Z.ltb_spec (len v) 2); [discriminate|].
  destruct (@Uint16_ok error v) as (n & -> & _); [done|lia|discriminate].
Qed.

Lemma PString_no_panic p id : bytes (raw p) -> no_panic (PString p id).
Proof.
  intros Hb. unfold PString. apply no_panic_bind; [by apply find_no_panic|].
  intros [v|] E; [|discriminate]. apply find_loop_bytes in E; [|done].
  destruct (Z.ltb_spec (len v) 2); [discriminate|].
  destruct (@Uint16_ok error v) as (n & -> & Hn); [done|lia|]. cbn [rbind]. unfold is_u16 in Hn.
  destruct (Z.ltb_spec (len v) (2 + n)); [discriminate|]. rewrite slice_ok by lia. discriminate.
Qed.

Lemma UserProperties_loop_no_panic fuel raw off :
  bytes raw -> 0 <= off -> len raw - off < Z.of_nat fuel -> 0 < Z.of_nat fuel ->
  no_panic (UserProperties_loop fuel raw off).
Proof.
  intros Hb. revert off. induction fuel as [|fuel IH]; intros off Ho Hf Hp; [lia|].
  cbn [UserProperties_loop]. destruct (Z.ltb_spec off (len raw)); [|discriminate].
  ok_idx. rewrite from_ok by lia. cbn [rbind]. destruct (x =? PropUserProperty); cbn [negb].
  2:{ destruct (propValueSize x _) as [n| |] eqn:E; [|discriminate|].
      - apply propValueSize_pos in E; [|by apply bytes_zdrop]. apply IH; lia.
      - apply propValueSize_no_panic in E; [done|by apply bytes_zdrop]. }
  destruct (Z.ltb_spec (len raw) (off + 1 + 2)); [discriminate|].
  destruct (@Uint16_ok error (zdrop (off + 1) raw)) as (kn & -> & Hk);
    [by apply bytes_zdrop|rewrite len_zdrop; lia|]. cbn [rbind]. unfold is_u16 in Hk.
  destruct (Z.ltb_spec (len raw) (off + 1 + 2 + kn)); [discriminate|].
  rewrite slice_ok by lia. cbn [rbind].
  destruct (Z.ltb_spec (len raw) (off + 1 + 2 + kn + 2)); [discriminate|].
  rewrite from_ok by lia. cbn [rbind].
  destruct (@Uint16_ok error (zdrop (off + 1 + 2 + kn) raw)) as (vn & -> & Hv);
    [by apply bytes_zdrop|rewrite len_zdrop; lia|]. cbn [rbind]. unfold is_u16 in Hv.
  destruct (Z.ltb_spec (len raw) (off + 1 + 2 + kn + 2 + vn)); [discriminate|].
  rewrite slice_ok by lia. cbn [rbind].
  apply no_panic_bind; [apply IH; lia|]. discriminate.
Qed.

(** ** Walking through decoders *)

Lemma from_inv {E} b i c :
  bytes b -> @from E b i = Ok c -> c = zdrop i b /\ len c = len b - i /\ 0 <= i <= len b /\ bytes c.
Proof.
  intros Hb. unfold from. destruct ((0 <=? i) && (i <=? len b)) eqn:G; [|discriminate]. intros [= <-].
  apply andb_true_iff in G as [G1%Z.leb_le G2%Z.leb_le]. rewrite len_zdrop by lia. auto with go.
Qed.

Lemma slice_inv {E} b i j c :
  bytes b -> @slice E b i j = Ok c -> c = ztake (j - i) (zdrop i b) /\ len c = j - i /\ bytes c.
Proof.
  intros Hb. unfold slice. destruct ((0 <=? i) && (i <=? j) && (j <=? len b)) eqn:G; [|discriminate]. intros [= <-].
  rewrite !andb_true_iff, !Z.leb_le in G. rewrite len_ztake by (rewrite len_zdrop; lia). auto with go.
Qed.

Lemma Uint16_range {E} b v : bytes b -> @Uint16 E b = Ok v -> is_u16 v.
Proof. intros Hb H. by apply Uint16_inv in H as (_ & _ & ?). Qed.

Lemma idx_u8 {E} b i v : bytes b -> @idx E b i = Ok v -> is_u8 v.
Proof.
  intros Hb. unfold idx. destruct ((0 <=? i) && (i <? len b)) eqn:G; [|discriminate]. intros [= <-].
  apply andb_true_iff in G as [G1%Z.leb_le G2%Z.ltb_lt]. unfold len in G2.
  destruct (nth_lookup_or_length b (Z.to_nat i) 0) as [E1|]; [|lia]. by eapply Forall_lookup_1.
Qed.

Lemma Uint16_no_panic {E} b : bytes b -> 2 <= len b -> no_panic (@Uint16 E b).
Proof. intros Hb Hl. destruct (@Uint16_ok E b Hb Hl) as (v & -> & _). discriminate. Qed.
Lemma idx_no_panic {E} b i : 0 <= i < len b -> no_panic (@idx E b i).
Proof. intros H. destruct (@idx_ok E b i H) as (v & ->). discriminate. Qed.
Lemma from_no_panic {E} b i : 0 <= i <= len b -> no_panic (@from E b i).
Proof. intros H. rewrite from_ok by done. discriminate. Qed.
Lemma slice_no_panic {E} b i j : 0 <= i <= j -> j <= len b -> no_panic (@slice E b i j).
Proof. intros H1 H2. rewrite slice_ok by done. discriminate. Qed.

Lemma on_err_ok {E E' A} (f : E -> E') (m : res E A) a : on_err f m = Ok a <-> m = Ok a.
Proof. destruct m; simpl; split; congruence. Qed.

Lemma readUTF8String_ok buf s n :
  bytes buf -> readUTF8String buf = Ok (s, n) -> n = 2 + len s /\ n <= len buf /\ bytes s /\ short s.
Proof.
  intros Hb. unfold readUTF8String. case_match; [discriminate|]. intros G.
  apply rbind_ok_inv in G as (v & Hv & H1). apply Uint16_range in Hv; [|done]. unfold is_u16 in Hv.
  destruct (Z.ltb_spec (len buf) (2 + v)); [discriminate|]. apply rbind_ok_inv in H1 as (c & Hc & [= -> <-]).
  apply slice_inv in Hc as (_ & ? & ?); [|done]. unfold short. pow2. repeat split; try done; lia.
Qed.

Lemma readUTF8String_no_panic buf : bytes buf -> no_panic (readUTF8String buf).
Proof.
  intros Hb. unfold readUTF8String. destruct (Z.ltb_spec (len buf) 2); [discriminate|].
  apply no_panic_bind; [by apply Uint16_no_panic|]. intros v Hv. apply Uint16_range in Hv; [|done]. unfold is_u16 in Hv.
  destruct (Z.ltb_spec (len buf) (2 + v)); [discriminate|].
  apply no_panic_bind; [apply slice_no_panic; lia|]. discriminate.
Qed.

Lemma readBinaryData_ok buf s n :
  bytes buf -> readBinaryData buf = Ok (s, n) -> n = 2 + len s /\ n <= len buf /\ bytes s /\ short s.
Proof. apply readUTF8String_ok. Qed.
Lemma readBinaryData_no_panic buf : bytes buf -> no_panic (readBinaryData buf).
Proof. apply readUTF8String_no_panic. Qed.

(** Frames are shorter than 2^31: the Remaining Length bounds them. *)
Lemma readProperties_ok buf p n :
  bytes buf -> readProperties buf = Ok (p, n) -> 1 <= n <= len buf /\ bytes (raw p).
Proof.
  intros Hb. unfold readProperties. intros H. apply rbind_ok_inv in H as ([v k] & Hv & H).
  apply DecodeVarint_ok in Hv as (? & ? & ?); [|done]. case_match; [discriminate|].
  apply rbind_ok_inv in H as (c & Hc & [= <- <-]). unfold slice in Hc.
  destruct ((0 <=? k) && (k <=? k + v) && (k + v <=? len buf)) eqn:G; [|discriminate]. injection Hc as <-.
  rewrite !andb_true_iff, !Z.leb_le in G. simpl. split; [lia|]. auto with go.
Qed.

Lemma readProperties_no_panic buf : bytes buf -> len buf < 2 ^ 32 -> no_panic (readProperties buf).
Proof.
  intros Hb Hl. unfold readProperties. apply no_panic_bind; [by apply DecodeVarint_no_panic|]. intros [v k] Hv.
  apply DecodeVarint_ok in Hv as (? & ? & ?); [|done]. rewrite u32_small by (unfold is_u32; lia).
  destruct (Z.ltb_spec (len buf - k) v); [discriminate|].
  apply no_panic_bind; [apply slice_no_panic; lia|]. discriminate.
Qed.
#[export] Hint Resolve readUTF8String_no_panic readBinaryData_no_panic : nopanic.

(** Use what a successful read says, then go on. *)
Ltac read_facts :=
  repeat match goal with
  | H : on_err _ _ = Ok _ |- _ => apply on_err_ok in H
  | H : from _ _ = Ok _ |- _ => apply from_inv in H as (? & ? & ? & ?); [|done]
  | H : slice _ _ _ = Ok _ |- _ => apply slice_inv in H as (? & ? & ?); [|done]
  | H : Uint16 _ = Ok _ |- _ => apply Uint16_range in H; [|done]; unfold is_u16 in H
  | H : idx _ _ = Ok _ |- _ => apply idx_u8 in H; [|done]
  | H : DecodeVarint _ = Ok _ |- _ => apply DecodeVarint_ok in H as (? & ? & ?); [|done]
  | H : readUTF8String _ = Ok _ |- _ => apply readUTF8String_ok in H as (? & ? & ? & ?); [|done]
  | H : readBinaryData _ = Ok _ |- _ => apply readBinaryData_ok in H as (? & ? & ? & ?); [|done]
  | H : readProperties _ = Ok _ |- _ => apply readProperties_ok in H as (? & ?); [|done]
  end.

Ltac read_no_panic :=
  first
  [ solve [auto with nopanic]
  | apply from_no_panic; len_facts; lia
  | apply slice_no_panic; len_facts; lia
  | apply idx_no_panic; len_facts; lia
  | apply Uint16_no_panic; [done|lia]
  | apply readProperties_no_panic; [done|len_facts; lia]
  | apply no_panic_on_err; first [solve [auto with nopanic] | apply readProperties_no_panic; [done|len_facts; lia]]
  | discriminate ].

(** [np_walk]: a decoder over the bytes in the context does not panic. *)
Ltac np_walk :=
  repeat match goal with
  | |- no_panic (rbind _ (fun x => match x with (_, _) => _ end)) =>
      apply no_panic_bind; [read_no_panic|let a := fresh "a" in let b := fresh "b" in intros [a b] ?; read_facts]
  | |- no_panic (rbind _ _) => apply no_panic_bind; [read_no_panic|intros ? ?; read_facts]
  | |- no_panic (let _ := _ in _) => cbv zeta
  | |- no_panic (if ?a <? ?b then _ else _) => destruct (Z.ltb_spec a b)
  | |- no_panic (if ?a =? ?b then _ else _) => destruct (Z.eqb_spec a b)
  | |- no_panic (if ?c then _ else _) => destruct c eqn:?
  | |- no_panic (Ok _) => apply no_panic_ok
  | |- no_panic (Err _) => apply no_panic_err
  | |- no_panic (reject _) => apply no_panic_err
  end.

(** [dec_inv G]: [G] says a decoder succeeded; what each step read. *)
Ltac dec_inv G :=
  repeat match type of G with
  | (if ?c then _ else _) = Ok _ => destruct c eqn:?; try discriminate G
  | (let (_, _) := ?x in _) = Ok _ => destruct x
  | rbind _ _ = Ok _ => let x := fresh "x" in let Hx := fresh "Hx" in apply rbind_ok_inv in G as (x & Hx & G); read_facts
  | (let _ := _ in _) = Ok _ => cbv zeta in G
  end;
  injection G; clear G; intros; subst.

(** The accessors never return an error: [ok] reports absence. *)
Lemma find_loop_not_err fuel raw off id e : find_loop fuel raw off id <> Err e.
Proof.
  revert off. induction fuel as [|fuel IH]; intros off; cbn [find_loop]; [discriminate|].
  case_match; [|discriminate]. unfold idx, from. repeat (case_match; cbn [rbind]; try discriminate). apply IH.
Qed.

Lemma PUint16_not_err p id e : PUint16 p id <> Err e.
Proof.
  unfold PUint16, find. pose proof (find_loop_not_err (S (length (raw p))) (raw p) 0 id) as H.
  destruct (find_loop _ _ _ _) as [[v|]|e'|]; cbn [rbind]; try discriminate; [|by destruct (H e')].
  unfold Uint16, idx. repeat (case_match; cbn [rbind]; try discriminate).
Qed.

(** The remaining accessors on arbitrary bytes. *)
Lemma accessor_no_panic {A} p id (k : list Z -> wres (option A)) :
  bytes (raw p) -> (forall v, bytes v -> no_panic (k v)) ->
  no_panic (let! v := find p id in match v with None => Ok None | Some v => k v end).
Proof.
  intros Hb Hk. apply no_panic_bind; [by apply find_no_panic|]. intros [v|] E; [|discriminate].
  apply Hk. by apply find_loop_bytes in E.
Qed.

Lemma Byte_no_panic p id : bytes (raw p) -> no_panic (Byte p id).
Proof. intros Hb. apply accessor_no_panic; [done|]. intros v Hv. np_walk. Qed.
Lemma PUint32_no_panic p id : bytes (raw p) -> no_panic (PUint32 p id).
Proof.
  intros Hb. apply accessor_no_panic; [done|]. intros v Hv. destruct (Z.ltb_spec (len v) 4); [discriminate|].
  destruct (@Uint32_ok error v) as (n & ->); [done|lia|discriminate].
Qed.
Lemma PVarint_no_panic p id : bytes (raw p) -> no_panic (PVarint p id).
Proof.
  intros Hb. apply accessor_no_panic; [done|]. intros v Hv. pose proof (DecodeVarint_no_panic v Hv).
  destruct (DecodeVarint v) as [[? ?]| |]; [discriminate..|done].
Qed.

Lemma SubscriptionIdentifiers_loop_no_panic fuel raw off :
  bytes raw -> 0 <= off -> len raw - off < Z.of_nat fuel -> 0 < Z.of_nat fuel ->
  no_panic (SubscriptionIdentifiers_loop fuel raw off).
Proof.
  intros Hb. revert off. induction fuel as [|fuel IH]; intros off Ho Hf Hp; [lia|].
  cbn [SubscriptionIdentifiers_loop]. destruct (Z.ltb_spec off (len raw)); [|discriminate].
  ok_idx. rewrite from_ok by lia. cbn [rbind]. assert (Hd : bytes (zdrop (off + 1) raw)) by auto with go.
  destruct (propValueSize x _) as [n| |] eqn:E; [|discriminate|by apply propValueSize_no_panic in E].
  apply propValueSize_pos in E; [|done]. destruct (Z.ltb_spec (len raw) (off + 1 + n)); [discriminate|].
  apply no_panic_bind.
  - case_match; [|discriminate]. rewrite slice_ok by lia. cbn [rbind].
    assert (Hz : bytes (ztake (off + 1 + n - (off + 1)) (zdrop (off + 1) raw))) by auto with go.
    pose proof (DecodeVarint_no_panic _ Hz). destruct (DecodeVarint _) as [[? ?]| |]; [discriminate..|done].
  - intros here _. apply no_panic_bind; [apply IH; lia|discriminate].
Qed.

(** ** Theorems *)

(** The accessors and iterators are total. Handlers may query a packet's
    properties for any identifier: whatever bytes the section holds, no
    accessor or iterator reads out of range. *)
Theorem accessors_total p id :
  bytes (raw p) ->
  no_panic (Byte p id) /\ no_panic (PUint16 p id) /\ no_panic (PUint32 p id) /\ no_panic (PVarint p id)
  /\ no_panic (PString p id) /\ no_panic (PBinary p id)
  /\ no_panic (UserProperties p) /\ no_panic (SubscriptionIdentifiers p).
Proof.
  intros Hb. do 6 (split; [auto using Byte_no_panic, PUint16_no_panic, PUint32_no_panic, PVarint_no_panic, PString_no_panic|]).
  split; [apply UserProperties_loop_no_panic|apply SubscriptionIdentifiers_loop_no_panic]; unfold len; lia || done.
Qed.

Lemma accessors_total_witness : no_panic (PString (mkProperties [3; 0; 9; 97]) 3).
Proof. apply (accessors_total (mkProperties [3; 0; 9; 97]) 3). by repeat constructor. Defined.

(** Property accessors. On any well-formed property section the
    accessors return the first value of the identifier asked for, of the
    type asked for, or report it absent; they find every property, skip
    the others whatever their types, and never fail. *)
Theorem accessors_find_first ps id :
  Forall wf_prop ps ->
  let P := mkProperties (enc_props ps) in
  (one_of id byteIDs = true -> Byte P id = Ok (match first_prop id ps with Some (VByte b) => Some b | _ => None end))
  /\ (one_of id twoIDs = true -> PUint16 P id = Ok (match first_prop id ps with Some (VTwo v) => Some v | _ => None end))
  /\ (one_of id fourIDs = true -> PUint32 P id = Ok (match first_prop id ps with Some (VFour v) => Some v | _ => None end))
  /\ (one_of id dataIDs = true ->
      PString P id = Ok (match first_prop id ps with Some (VData s) => Some s | _ => None end)
      /\ PBinary P id = Ok (match first_prop id ps with Some (VData s) => Some s | _ => None end))
  /\ PVarint P PropSubscriptionIdentifier
     = Ok (match first_prop PropSubscriptionIdentifier ps with
           | Some (VVar bs) => match DecodeVarint bs with Ok (v, _) => Some v | _ => None end
           | _ => None
           end).
Proof.
  intros Hw P. repeat split; intros; [by apply Byte_enc|by apply PUint16_enc|by apply PUint32_enc|by apply PString_enc
    |by apply PBinary_enc|by apply PVarint_enc].
Qed.

(** Property iterators. [UserProperties] yields every user property and
    [SubscriptionIdentifiers] every subscription identifier of the section,
    in order and with duplicates, and nothing else. *)
Theorem iterators_complete ps :
  Forall wf_prop ps ->
  UserProperties (mkProperties (enc_props ps)) = Ok (user_pairs ps)
  /\ SubscriptionIdentifiers (mkProperties (enc_props ps)) = Ok (subscription_ids ps).
Proof. intros Hw. by split; [apply UserProperties_enc|apply SubscriptionIdentifiers_enc]. Qed.

(** A section with two user properties around an expiry and an identifier. *)
Definition sample_props : list prop :=
  [(PropUserProperty, VPair [97] [98]); (PropMessageExpiryInterval, VFour 30);
   (PropSubscriptionIdentifier, VVar [0x81; 1]); (PropUserProperty, VPair [97] [])].

Lemma sample_props_wf : Forall wf_prop sample_props.
Proof.
  repeat (apply Forall_cons; split); [..|constructor]; (split; [by split|]); simpl; unfold short;
    repeat split; try done; try (by repeat constructor). by exists 129.
Qed.

Lemma accessors_find_first_witness :
  PUint32 (mkProperties (enc_props sample_props)) PropMessageExpiryInterval = Ok (Some 30).
Proof. by apply (accessors_find_first sample_props PropMessageExpiryInterval sample_props_wf). Defined.

Lemma iterators_complete_witness :
  UserProperties (mkProperties (enc_props sample_props)) = Ok [([97], [98]); ([97], [])]
  /\ SubscriptionIdentifiers (mkProperties (enc_props sample_props)) = Ok [129].
Proof. exact (iterators_complete sample_props sample_props_wf). Defined.
