(* ===== verification/Utf8.v ===== *)
(** * Utf8: MQTT string validation, eight bytes at a time (wire/validate.go)

    [validUTF8Bytes] and [scanTopicName] screen eight bytes per iteration
    with 64-bit arithmetic and fall back to a byte loop.  Both are proved
    equal to the plain definition: valid UTF-8 without U+0000. *)

From S2P Require Import Prelude GoLib.

(** ** Definitions *)

Definition ones : Z := 0x0101010101010101.
Definition highs : Z := 0x8080808080808080.
Definition plus : Z := 0x2B2B2B2B2B2B2B2B.
Definition hash : Z := 0x2323232323232323.

(** [binary.LittleEndian.Uint64(b[i:])] *)
Definition load8 (b : list Z) (i : Z) : Z := le_combine (ztake 8 (zdrop i b)).

(** The first loop of [validUTF8Bytes]: where it stops. *)
Fixpoint utf8_screen (fuel : nat) (b : list Z) (i : Z) : Z :=
  match fuel with
  | O => i
  | S fuel =>
      if i + 8 <=? len b then
        let x := load8 b i in
        if negb (Z.land (Z.lor (u64 (x - ones)) x) highs =? 0) then i
        else utf8_screen fuel b (i + 8)
      else i
  end.

(** Its second loop, over [b[i:]]. *)
Fixpoint utf8_scan (rest : list Z) : bool :=
  match rest with
  | [] => true
  | c :: t =>
      if c =? 0 then false
      else if 0x80 <=? c then utf8_valid rest && negb (contains_byte rest 0)
      else utf8_scan t
  end.

Definition validUTF8Bytes (b : list Z) : bool :=
  let i := utf8_screen (length b) b 0 in
  utf8_scan (zdrop i b).

Definition validUTF8 (s : list Z) : bool := validUTF8Bytes s.

(** The first loop of [scanTopicName]. *)
Fixpoint topic_screen (fuel : nat) (b : list Z) (i : Z) : Z :=
  match fuel with
  | O => i
  | S fuel =>
      if i + 8 <=? len b then
        let x := load8 b i in
        let p := Z.lxor x plus in
        let h := Z.lxor x hash in
        if negb (Z.land (Z.lor (Z.lor (Z.lor (u64 (x - ones)) x) (u64 (p - ones))) (u64 (h - ones))) highs =? 0)
        then i
        else topic_screen fuel b (i + 8)
      else i
  end.

(** Its second loop: (valid, wildcard). *)
Fixpoint topic_scan (rest : list Z) (wildcard : bool) : bool * bool :=
  match rest with
  | [] => (true, wildcard)
  | c :: t =>
      if (c =? 0x2B) || (c =? 0x23) then topic_scan t true
      else if c =? 0 then (false, wildcard)
      else if 0x80 <=? c
      then (utf8_valid rest && negb (contains_byte rest 0), wildcard || contains_any rest (str "+#"))
      else topic_scan t wildcard
  end.

Definition scanTopicName (s : list Z) : bool * bool :=
  let i := topic_screen (length s) s 0 in
  topic_scan (zdrop i s) false.

(** ** The plain definitions *)

(** A well-formed MQTT UTF-8 string (section 1.5.4). *)
Definition mqtt_utf8 (s : list Z) : bool := utf8_valid s && negb (contains_byte s 0).

Definition has_wildcard (s : list Z) : bool := contains_any s (str "+#").

(** What [scanTopicName] looks at of a string that is not valid: it stops at
    U+0000 unless a byte beyond ASCII comes first. *)
Fixpoint scanned (s : list Z) : list Z :=
  match s with
  | [] => []
  | c :: t => if c =? 0 then [] else if 0x80 <=? c then c :: t else c :: scanned t
  end.

(** ** Little-endian words *)

Lemma le_combine_cons c t : is_u8 c -> le_combine (c :: t) = c + 256 * le_combine t.
Proof. intros. simpl. rewrite lor_shiftl_add; [pow2; lia|lia|done]. Qed.

Lemma testbit_lor8 c a i :
  is_u8 c -> 0 <= i -> Z.testbit (Z.lor c (Z.shiftl a 8)) i = if i <? 8 then Z.testbit c i else Z.testbit a (i - 8).
Proof.
  intros Hc Hi. rewrite Z.lor_spec, Z.shiftl_spec by lia.
  destruct (Z.ltb_spec i 8).
  - rewrite (Z.testbit_neg_r a) by lia. apply orb_false_r.
  - replace (Z.testbit c i) with false; [done|].
    symmetry. rewrite <- (Z.mod_small c (2 ^ 8)) by done. by apply Z.mod_pow2_bits_high.
Qed.

Lemma lxor_u8 c d : is_u8 c -> is_u8 d -> is_u8 (Z.lxor c d).
Proof.
  intros Hc Hd. rewrite <- (u8_small c), <- (u8_small d) by done. unfold u8.
  rewrite <- !Z.land_ones by lia.
  replace (Z.lxor (Z.land c (Z.ones 8)) (Z.land d (Z.ones 8))) with (u8 (Z.lxor c d)); [apply u8_range|].
  unfold u8. rewrite <- Z.land_ones by lia. apply Z.bits_inj'. intros i Hi.
  rewrite !Z.lxor_spec, !Z.land_spec, Z.lxor_spec. by destruct (Z.testbit c i), (Z.testbit d i), (Z.testbit (Z.ones 8) i).
Qed.

Lemma le_combine_lxor l d :
  bytes l -> is_u8 d ->
  Z.lxor (le_combine l) (le_combine (repeat d (length l))) = le_combine (map (fun c => Z.lxor c d) l).
Proof.
  intros Hl Hd. induction Hl as [|c t Hc Ht IH]; [done|]. cbn [length repeat le_combine map].
  rewrite <- IH. apply Z.bits_inj'. intros i Hi.
  pose proof (lxor_u8 c d Hc Hd).
  rewrite Z.lxor_spec, !testbit_lor8 by done.
  destruct (i <? 8); by rewrite Z.lxor_spec.
Qed.

(** Bit 7 of each byte. *)
Definition high_clear (x : Z) (n : Z) : Prop := forall k, 0 <= k < n -> Z.testbit x (8 * k + 7) = false.

Lemma high_clear_shift x c t n :
  0 <= c < 256 -> x = c + 256 * t -> 0 <= n -> high_clear x (1 + n) -> high_clear t n /\ c < 128.
Proof.
  intros Hc -> Hn H. split.
  - intros k Hk. specialize (H (k + 1)). rewrite <- H by lia.
    replace (8 * (k + 1) + 7) with ((8 * k + 7) + 8) by lia.
    rewrite <- (Z.div_pow2_bits (c + 256 * t) 8) by lia. f_equal. pow2.
    rewrite (Z.mul_comm 256), Z.div_add, Z.div_small by lia. done.
  - specialize (H 0). change (8 * 0 + 7) with 7 in H.
    destruct (Z.lt_ge_cases c 128) as [|Hge]; [done|]. exfalso.
    enough (Ht : Z.testbit (c + 256 * t) 7 = true) by (rewrite Ht in H; specialize (H ltac:(lia)); done).
    rewrite <- (Z.mod_pow2_bits_low _ 8) by lia. pow2.
    rewrite (Z.mul_comm 256), Z.mod_add, Z.mod_small by lia.
    apply Z.testbit_true; [lia|]. pow2. replace (c / 128) with 1; [done|]. dlia.
Qed.

(** Subtracting one from every byte sets no high bit: no byte is zero (the
    lowest zero byte receives no borrow and becomes 0xFF). *)
Lemma nonzero_bytes l :
  bytes l -> high_clear (le_combine l - le_combine (repeat 1 (length l))) (len l) -> Forall (fun c => c <> 0) l.
Proof.
  induction 1 as [|c t Hc Ht IH]; [constructor|]. rewrite len_cons. intros H. cbn [length repeat] in H.
  rewrite !le_combine_cons in H by (done || (unfold is_u8; pow2; lia)).
  set (a := le_combine t) in *. set (b := le_combine (repeat 1 (length t))) in *.
  pose proof (len_nonneg t). unfold is_u8 in Hc. pow2.
  assert (c <> 0).
  { intros ->. apply (high_clear_shift _ 255 (a - b - 1)) in H; [lia|lia|lia|lia]. }
  constructor; [done|]. apply IH. apply (high_clear_shift _ (c - 1) (a - b)) in H; [tauto|lia|lia|lia].
Qed.

Lemma ascii_bytes l : bytes l -> high_clear (le_combine l) (len l) -> Forall (fun c => c < 128) l.
Proof.
  induction 1 as [|c t Hc Ht IH]; [constructor|]. rewrite len_cons. intros H.
  rewrite le_combine_cons in H by done. pose proof (len_nonneg t). unfold is_u8 in Hc. pow2.
  apply (high_clear_shift _ c (le_combine t)) in H as [? ?]; [|lia..]. auto.
Qed.

(** What a zero under the [highs] mask says of each operand. *)
Lemma highs_zero x : Z.land x highs = 0 -> high_clear x 8.
Proof.
  intros H k Hk. assert (Hb : Z.testbit (Z.land x highs) (8 * k + 7) = false) by (by rewrite H, Z.bits_0).
  rewrite Z.land_spec in Hb.
  assert (Z.testbit highs (8 * k + 7) = true) as Hh.
  { assert (k = 0 \/ k = 1 \/ k = 2 \/ k = 3 \/ k = 4 \/ k = 5 \/ k = 6 \/ k = 7) as Hc by lia.
    repeat (destruct Hc as [->|Hc]; [reflexivity|]). by subst k. }
  by rewrite Hh, andb_true_r in Hb.
Qed.

Lemma high_clear_lor x y n : high_clear (Z.lor x y) n -> high_clear x n /\ high_clear y n.
Proof.
  intros H. split; intros k Hk; specialize (H k Hk); rewrite Z.lor_spec in H;
    apply orb_false_iff in H; tauto.
Qed.

Lemma high_clear_u64 x : high_clear (u64 x) 8 -> high_clear x 8.
Proof.
  intros H k Hk. rewrite <- (H k Hk). unfold u64. by rewrite Z.mod_pow2_bits_low by lia.
Qed.

(** ** The screens *)

(** Bytes a screened word consists of. *)
Definition plain (c : Z) : Prop := 0 < c < 128.

Lemma screen_word l :
  bytes l -> length l = 8%nat -> Z.land (Z.lor (u64 (le_combine l - ones)) (le_combine l)) highs = 0 -> Forall plain l.
Proof.
  intros Hl Hn H. apply highs_zero, high_clear_lor in H as [H1 H2]. apply high_clear_u64 in H1.
  assert (Hlen : len l = 8) by (unfold len; lia).
  pose proof (nonzero_bytes l Hl) as Hnz. rewrite Hlen, Hn in Hnz. specialize (Hnz H1).
  pose proof (ascii_bytes l Hl) as Ha. rewrite Hlen in Ha. specialize (Ha H2).
  unfold bytes in Hl. rewrite Forall_forall in *. intros c Hc. specialize (Hnz c Hc). specialize (Ha c Hc).
  specialize (Hl c Hc). unfold plain, is_u8 in *. lia.
Qed.

Lemma screen_wild l d :
  bytes l -> length l = 8%nat -> is_u8 d ->
  high_clear (Z.lxor (le_combine l) (le_combine (repeat d 8)) - ones) 8 -> Forall (fun c => c <> d) l.
Proof.
  intros Hl Hn Hd. rewrite <- Hn at 1. rewrite le_combine_lxor by done. intros H.
  assert (Hb : bytes (map (fun c => Z.lxor c d) l) -> Forall (fun c => c <> 0) (map (fun c => Z.lxor c d) l)).
  { intros Hb. apply nonzero_bytes; [done|]. rewrite length_map, Hn, len_map. unfold len. by rewrite Hn. }
  assert (Hx : bytes (map (fun c => Z.lxor c d) l)).
  { apply Forall_map. eapply Forall_impl; [exact Hl|]. intros c Hc. simpl.
    by apply lxor_u8. }
  specialize (Hb Hx). rewrite Forall_map in Hb. eapply Forall_impl; [exact Hb|].
  intros c Hc ->. apply Hc. simpl. apply Z.lxor_nilpotent.
Qed.

Lemma screen_chunk b i :
  0 <= i -> i + 8 <= len b ->
  exists w, zdrop i b = w ++ zdrop (i + 8) b /\ length w = 8%nat /\ load8 b i = le_combine w.
Proof.
  intros Hi Hb. exists (ztake 8 (zdrop i b)). unfold load8. split; [|split; [|done]].
  - rewrite <- zdrop_zdrop by lia. by rewrite ztake_zdrop.
  - assert (len (ztake 8 (zdrop i b)) = 8) as H by (rewrite len_ztake; [done|rewrite len_zdrop; lia]).
    unfold len in H. lia.
Qed.

(** Plain bytes in front change nothing. *)
Lemma mqtt_utf8_plain w b : Forall plain w -> mqtt_utf8 (w ++ b) = mqtt_utf8 b.
Proof.
  induction 1 as [|c w Hc _ IH]; [done|]. unfold plain in Hc. rewrite <- IH. unfold mqtt_utf8.
  simpl. rewrite (proj2 (Z.ltb_lt _ _)) by lia. f_equal. f_equal.
  unfold contains_byte. simpl. destruct c; [lia|done|lia].
Qed.

Lemma utf8_scan_spec b : bytes b -> utf8_scan b = mqtt_utf8 b.
Proof.
  induction 1 as [|c t Hc _ IH]; [done|]. cbn [utf8_scan].
  destruct (Z.eqb_spec c 0) as [->|Hnz].
  { unfold mqtt_utf8. simpl. by rewrite andb_false_r. }
  destruct (Z.leb_spec 0x80 c); [done|].
  rewrite IH. symmetry. apply (mqtt_utf8_plain [c]). apply Forall_singleton. unfold plain, is_u8 in *. lia.
Qed.

Lemma utf8_screen_spec fuel b i :
  bytes b -> 0 <= i -> mqtt_utf8 (zdrop (utf8_screen fuel b i) b) = mqtt_utf8 (zdrop i b).
Proof.
  intros Hb. revert i. induction fuel as [|fuel IH]; intros i Hi; cbn [utf8_screen]; [done|].
  destruct (Z.leb_spec (i + 8) (len b)) as [Hle|]; [|done].
  destruct (screen_chunk b i Hi Hle) as (w & Hw & Hn & ->).
  destruct (Z.eqb_spec (Z.land (Z.lor (u64 (le_combine w - ones)) (le_combine w)) highs) 0) as [Hz|]; [|done].
  cbn [negb]. rewrite IH by lia. rewrite Hw. symmetry. apply mqtt_utf8_plain.
  apply screen_word; [|done|done].
  assert (Hd : bytes (zdrop i b)) by (by apply bytes_zdrop). rewrite Hw in Hd. by apply bytes_app in Hd as [? _].
Qed.

Lemma validUTF8Bytes_spec b : bytes b -> validUTF8Bytes b = mqtt_utf8 b.
Proof.
  intros Hb. unfold validUTF8Bytes. rewrite utf8_scan_spec by (by apply bytes_zdrop).
  by rewrite utf8_screen_spec.
Qed.

(** ** scanTopicName *)

Lemma has_wildcard_app a b : has_wildcard (a ++ b) = has_wildcard a || has_wildcard b.
Proof. unfold has_wildcard, contains_any. by rewrite existsb_app. Qed.

Lemma has_wildcard_cons c t : has_wildcard (c :: t) = (c =? 0x2B) || (c =? 0x23) || has_wildcard t.
Proof. unfold has_wildcard, contains_any. simpl. by rewrite orb_false_r. Qed.

Lemma scanned_plain w b : Forall plain w -> scanned (w ++ b) = w ++ scanned b.
Proof.
  induction 1 as [|c w Hc _ IH]; [done|]. unfold plain in Hc. cbn. rewrite IH, (proj2 (Z.eqb_neq c 0)), (proj2 (Z.leb_gt 128 c)) by lia. done.
Qed.

Lemma scanned_valid s : bytes s -> mqtt_utf8 s = true -> scanned s = s.
Proof.
  induction 1 as [|c t Hc _ IH]; [done|]. intros Hv. cbn [scanned]. destruct (Z.eqb_spec c 0) as [->|Hnz].
  { unfold mqtt_utf8 in Hv. simpl in Hv. by rewrite andb_false_r in Hv. }
  destruct (Z.leb_spec 0x80 c); [done|]. rewrite IH; [done|]. rewrite <- Hv. symmetry. apply (mqtt_utf8_plain [c]).
  apply Forall_singleton. unfold plain, is_u8 in *. lia.
Qed.

Lemma topic_scan_spec b wild :
  bytes b -> fst (topic_scan b wild) = mqtt_utf8 b /\ snd (topic_scan b wild) = wild || has_wildcard (scanned b).
Proof.
  intros Hb. revert wild. induction Hb as [|c t Hc Ht IH]; intros wild.
  { simpl. by rewrite orb_false_r. }
  cbn [topic_scan]. destruct ((c =? 0x2B) || (c =? 0x23)) eqn:Hw.
  - assert (plain c) by (apply orb_prop in Hw as [Hw|Hw]; apply Z.eqb_eq in Hw; unfold plain; lia).
    change (c :: t) with ([c] ++ t). rewrite mqtt_utf8_plain, scanned_plain by (by apply Forall_singleton).
    destruct (IH true) as [-> ->]. cbn [app]. rewrite has_wildcard_cons, Hw. by rewrite orb_true_r.
  - cbn [scanned]. destruct (Z.eqb_spec c 0) as [->|Hnz].
    { unfold mqtt_utf8. simpl. by rewrite andb_false_r, orb_false_r. }
    destruct (Z.leb_spec 0x80 c); [done|].
    rewrite has_wildcard_cons, Hw. change (c :: t) with ([c] ++ t).
    rewrite mqtt_utf8_plain by (apply Forall_singleton; unfold plain, is_u8 in *; lia). apply IH.
Qed.

Lemma plain_no_wildcard w :
  Forall (fun c => c <> 0x2B) w -> Forall (fun c => c <> 0x23) w -> has_wildcard w = false.
Proof.
  induction 1 as [|c w Hc _ IH]; intros H; [done|]. inversion H; subst.
  rewrite has_wildcard_cons, IH by done.
  by rewrite (proj2 (Z.eqb_neq _ _) Hc), (proj2 (Z.eqb_neq c 0x23)).
Qed.

Lemma topic_screen_spec fuel b i :
  bytes b -> 0 <= i ->
  mqtt_utf8 (zdrop (topic_screen fuel b i) b) = mqtt_utf8 (zdrop i b)
  /\ has_wildcard (scanned (zdrop (topic_screen fuel b i) b)) = has_wildcard (scanned (zdrop i b)).
Proof.
  intros Hb. revert i. induction fuel as [|fuel IH]; intros i Hi; cbn [topic_screen]; [done|].
  destruct (Z.leb_spec (i + 8) (len b)) as [Hle|]; [|done].
  destruct (screen_chunk b i Hi Hle) as (w & Hw & Hn & ->). cbn zeta.
  match goal with |- context [negb (?z =? 0)] => destruct (Z.eqb_spec z 0) as [Hz|] end; [|done].
  cbn [negb]. destruct (IH (i + 8)) as [-> ->]; [lia|]. rewrite Hw.
  assert (Hd : bytes (zdrop i b)) by (by apply bytes_zdrop). rewrite Hw in Hd. apply bytes_app in Hd as [Hd _].
  apply highs_zero in Hz. apply high_clear_lor in Hz as [Hz Hh]. apply high_clear_lor in Hz as [Hz Hp].
  assert (Forall plain w).
  { apply screen_word; [done|done|]. apply Z.bits_inj'. intros k Hk. rewrite Z.land_spec, Z.bits_0.
    destruct (Z.testbit highs k) eqn:Hk'; [|apply andb_false_r].
    assert (exists j, 0 <= j < 8 /\ k = 8 * j + 7) as (j & Hj & ->).
    { destruct (Z.le_gt_cases 64 k) as [Hbig|].
      - exfalso. rewrite Z.bits_above_log2 in Hk'; [done|done|]. change (Z.log2 highs) with 63. lia.
      - exists (k / 8). assert (Z.testbit highs k = (k mod 8 =? 7)) as E; [|rewrite E in Hk'; apply Z.eqb_eq in Hk'; dlia].
        assert (forallb (fun k => Bool.eqb (Z.testbit highs k) (k mod 8 =? 7)) (map Z.of_nat (seq 0 64)) = true) as F by reflexivity.
        rewrite forallb_forall in F. specialize (F k). apply eqb_prop, F, in_map_iff.
        exists (Z.to_nat k). split; [lia|apply in_seq; lia]. }
    by rewrite (Hz j Hj). }
  split; [symmetry; by apply mqtt_utf8_plain|].
  rewrite scanned_plain, has_wildcard_app, (plain_no_wildcard w); [done| | |done].
  - apply high_clear_u64 in Hp. apply screen_wild; [done|done|unfold is_u8; pow2; lia|exact Hp].
  - apply high_clear_u64 in Hh. apply screen_wild; [done|done|unfold is_u8; pow2; lia|exact Hh].
Qed.

Lemma scanTopicName_exact s : bytes s -> fst (scanTopicName s) = mqtt_utf8 s /\ snd (scanTopicName s) = has_wildcard (scanned s).
Proof.
  intros Hs. unfold scanTopicName.
  destruct (topic_scan_spec (zdrop (topic_screen (length s) s 0) s) false) as [H1 H2]; [by apply bytes_zdrop|].
  destruct (topic_screen_spec (length s) s 0 Hs) as [E1 E2]; [lia|]. rewrite zdrop_0 in E1, E2. by rewrite H1, H2, E1, E2.
Qed.

Lemma scanTopicName_spec s :
  bytes s ->
  fst (scanTopicName s) = mqtt_utf8 s
  /\ (mqtt_utf8 s = true -> snd (scanTopicName s) = has_wildcard s).
Proof.
  intros Hs. destruct (scanTopicName_exact s Hs) as [H1 H2]. split; [done|]. intros Hv. by rewrite H2, scanned_valid.
Qed.

(** ** Theorems *)

(** C40: UTF-8 validation. The word-at-a-time [validUTF8Bytes], which screens
    eight bytes with one subtraction, and the [scanTopicName] that looks for
    wildcards in the same pass answer every byte string as plain definitions
    do: both call it valid when it is well-formed UTF-8 without U+0000, and on
    a valid string [scanTopicName] reports a wildcard when there is a ['+'] or
    ['#'] in it. On a string that is not valid, which its callers refuse, it
    reports those it has scanned: up to the U+0000 if only ASCII precedes it,
    otherwise all of them. *)
Theorem utf8_screens_exact s :
  bytes s ->
  validUTF8Bytes s = utf8_valid s && negb (contains_byte s 0)
  /\ fst (scanTopicName s) = validUTF8Bytes s
  /\ (validUTF8Bytes s = true -> snd (scanTopicName s) = contains_any s (str "+#"))
  /\ snd (scanTopicName s) = contains_any (scanned s) (str "+#").
Proof.
  intros Hs. rewrite validUTF8Bytes_spec by done. destruct (scanTopicName_spec s Hs) as [H1 H2].
  split; [done|]. split; [done|]. split; [done|]. by apply scanTopicName_exact.
Qed.

Lemma utf8_screens_exact_witness :
  validUTF8Bytes (str "sensors/kitchen/+/temp") = true /\ snd (scanTopicName (str "sensors/kitchen/+/temp")) = true.
Proof.
  destruct (utf8_screens_exact (str "sensors/kitchen/+/temp") ltac:(by repeat constructor)) as (H1 & _ & H2 & _).
  split; [exact H1|]. by apply H2.
Defined.
