(* ===== verification/Topics.v ===== *)
(** * Topics: topic names and topic filters (wire/validate.go)

    [ValidTopicName], [ValidTopicFilter] and [IsSharedFilter], and the
    grammar of section 4.7 that they are proved to accept: ['#'] only as the
    whole last level, ['+'] only as a whole level, and
    [$share/{ShareName}/{filter}] for shared subscriptions. *)

From S2P Require Import Prelude GoLib Errors Utf8.

(** ** Definitions *)

Definition slash : Z := 0x2F.
Definition share_prefix : list Z := str "$share/".

Definition wrapf (f : string) (s : sentinel) : option error := Some (Errorf f [Sentinel s]).

Definition ValidTopicName (name : list Z) : option error :=
  if 0xffff <? len name then wrapf "topic name of %d bytes" ErrStringTooLong
  else if negb (validUTF8 name) then wrapf "topic name is not well-formed UTF-8 or contains U+0000" ErrInvalidTopic
  else if contains_any name (str "+#") then wrapf "topic name %q contains a wildcard" ErrInvalidTopic
  else None.

(** The loop over the levels of a filter; [last] is [len(levels)-1]. *)
Fixpoint check_levels (i last : Z) (levels : list (list Z)) : option error :=
  match levels with
  | [] => None
  | l :: levels =>
      if list_eqb l (str "#") && negb (i =? last) then wrapf "'#' must be the last level in %q" ErrInvalidTopic
      else if negb (list_eqb l (str "#")) && contains_byte l 0x23
      then wrapf "'#' must occupy a whole level in %q" ErrInvalidTopic
      else if negb (list_eqb l (str "+")) && contains_byte l 0x2B
      then wrapf "'+' must occupy a whole level in %q" ErrInvalidTopic
      else check_levels (i + 1) last levels
  end.

Definition check_filter (filter : list Z) : option error :=
  let levels := split filter slash in check_levels 0 (len levels - 1) levels.

Definition ValidTopicFilter (filter : list Z) : option error :=
  if list_eqb filter [] then wrapf "empty topic filter" ErrInvalidTopic
  else if 0xffff <? len filter then wrapf "topic filter of %d bytes" ErrStringTooLong
  else if negb (validUTF8 filter)
  then wrapf "topic filter is not well-formed UTF-8 or contains U+0000" ErrInvalidTopic
  else
    match cut_prefix filter share_prefix with
    | Some rest =>
        match cut rest slash with
        | None => wrapf "shared subscription %q needs $share/{ShareName}/{filter}" ErrInvalidTopic
        | Some (name, sub) =>
            if list_eqb name [] || contains_any name (str "+#")
            then wrapf "shared subscription %q needs $share/{ShareName}/{filter}" ErrInvalidTopic
            else if list_eqb sub [] then wrapf "shared subscription %q has an empty filter" ErrInvalidTopic
            else check_filter sub
        end
    | None => check_filter filter
    end.

Definition IsSharedFilter (filter : list Z) : bool := has_prefix filter share_prefix.

(** ** The grammar of section 4.7 *)

(** No ['/'], ['+'] or ['#']. *)
Definition plain_level (l : list Z) : Prop := Forall (fun c => c <> slash /\ c <> 0x2B /\ c <> 0x23) l.

Inductive level : list Z -> Prop :=
| level_plain l : plain_level l -> level l
| level_plus : level [0x2B].

Inductive filter_grammar : list Z -> Prop :=
| filter_hash : filter_grammar [0x23]
| filter_last l : level l -> filter_grammar l
| filter_sep l f : level l -> filter_grammar f -> filter_grammar (l ++ slash :: f).

Inductive topic_filter : list Z -> Prop :=
| topic_filter_plain f : has_prefix f share_prefix = false -> filter_grammar f -> topic_filter f
| topic_filter_shared name f :
    name <> [] -> plain_level name -> f <> [] -> filter_grammar f ->
    topic_filter (share_prefix ++ name ++ slash :: f).

(** No wildcard anywhere. *)
Definition plain_name (s : list Z) : Prop := Forall (fun c => c <> 0x2B /\ c <> 0x23) s.

(** ** Lemmas *)

Lemma list_eqb_spec a b : reflect (a = b) (list_eqb a b).
Proof. unfold list_eqb. apply bool_decide_reflect. Qed.

Lemma contains_byte_false l c : contains_byte l c = false <-> Forall (fun x => x <> c) l.
Proof.
  unfold contains_byte. induction l as [|a l IH]; simpl; [split; [constructor|done]|].
  rewrite orb_false_iff, IH, Forall_cons, Z.eqb_neq. split; intros [? ?]; split; auto.
Qed.

Lemma has_wildcard_false l :
  contains_any l (str "+#") = false <-> Forall (fun x => x <> 0x2B /\ x <> 0x23) l.
Proof.
  fold (has_wildcard l). induction l as [|a l IH]; [split; [constructor|done]|].
  rewrite has_wildcard_cons, !orb_false_iff, IH, Forall_cons, !Z.eqb_neq. tauto.
Qed.

Lemma has_prefix_app s p : has_prefix s p = true <-> exists t, s = p ++ t.
Proof.
  revert s. induction p as [|c p IH]; intros s; [split; [by exists s|by destruct s]|]. simpl.
  destruct s as [|d s]; [split; [done|intros [? ?]; done]|].
  simpl. rewrite andb_true_iff, IH, Z.eqb_eq. split.
  - intros [-> [t ->]]. by exists t.
  - intros [t [= -> ->]]. eauto.
Qed.

Lemma cut_prefix_app s p t : cut_prefix s p = Some t <-> s = p ++ t.
Proof.
  unfold cut_prefix. destruct (has_prefix s p) eqn:E.
  - apply has_prefix_app in E as [u ->]. rewrite zdrop_app_len by done. split.
    + by intros [= ->].
    + intros H. by apply app_inv_head in H as ->.
  - split; [done|]. intros ->. assert (has_prefix (p ++ t) p = true) by (apply has_prefix_app; eauto). congruence.
Qed.

Lemma cut_prefix_none s p : cut_prefix s p = None <-> has_prefix s p = false.
Proof. unfold cut_prefix. by destruct (has_prefix s p). Qed.

(** [cut] splits at the first separator. *)
Lemma cut_some s sep a b :
  cut s sep = Some (a, b) <-> s = a ++ sep :: b /\ Forall (fun x => x <> sep) a.
Proof.
  revert a b. induction s as [|c s IH]; intros a b; simpl.
  - split; [done|]. by intros [H%(f_equal length) _]; rewrite length_app in H; simpl in H; lia.
  - destruct (Z.eqb_spec c sep) as [->|Hne].
    + split; [by intros [= <- <-]|]. intros [H Ha]. destruct a as [|x a]; [by injection H as ->|].
      injection H as -> _. by inversion Ha.
    + destruct (cut s sep) as [[a' b']|] eqn:E.
      * specialize (IH a' b') as [IH _]. destruct (IH eq_refl) as [-> Ha']. split.
        -- intros [= <- <-]. split; [done|by constructor].
        -- intros [H Ha]. destruct a as [|x a]; [by injection H as ? ?|]. injection H as <- H.
           apply Forall_cons in Ha as [_ Ha]. enough (Some (a', b') = Some (a, b)) as [= -> ->] by done.
           clear -H Ha Ha'. revert a' Ha' H. induction Ha as [|y a Hy Ha IHa]; intros [|z a'] Hz H; simpl in H.
           ++ by injection H as ->.
           ++ injection H as -> _. by inversion Hz.
           ++ injection H as <- _. done.
           ++ injection H as -> H. inversion Hz; subst. specialize (IHa _ ltac:(done) H) as [= -> ->]. done.
      * split; [done|]. intros [H Ha]. destruct a as [|x a]; [by injection H as ? ?|]. injection H as -> H.
        apply Forall_cons in Ha as [_ Ha]. specialize (proj2 (IH a b) (conj H Ha)). done.
Qed.

Lemma split_nonempty s sep : split s sep <> [].
Proof. destruct s as [|c s]; simpl; [done|]. destruct (c =? sep); [done|]. by destruct (split s sep). Qed.

Lemma split_plain s sep : Forall (fun x => x <> sep) s -> split s sep = [s].
Proof.
  induction 1 as [|c s Hc _ IH]; simpl; [done|]. rewrite (proj2 (Z.eqb_neq c sep)), IH by done. done.
Qed.

Lemma split_app a b sep : Forall (fun x => x <> sep) a -> split (a ++ sep :: b) sep = a :: split b sep.
Proof.
  induction 1 as [|c a Hc _ IH]; simpl; [by rewrite Z.eqb_refl|].
  rewrite (proj2 (Z.eqb_neq c sep)), IH by done. done.
Qed.

(** A string is its first level alone or followed by a separator. *)
Lemma split_cases (s : list Z) (sep : Z) :
  (Forall (fun x => x <> sep) s) \/ exists a b, s = a ++ sep :: b /\ Forall (fun x => x <> sep) a.
Proof.
  destruct (cut s sep) as [[a b]|] eqn:E.
  - right. exists a, b. by apply cut_some.
  - left. revert E. induction s as [|c s IH]; simpl; [constructor|].
    destruct (Z.eqb_spec c sep); [done|]. destruct (cut s sep) as [[? ?]|]; [done|]. auto.
Qed.

(** One level passes the checks at an inner or at the last position. *)
Lemma level_checks l :
  Forall (fun x => x <> slash) l ->
  (negb (list_eqb l (str "#")) && contains_byte l 0x23 = false
   /\ negb (list_eqb l (str "+")) && contains_byte l 0x2B = false) <-> (l = str "#" \/ level l).
Proof.
  intros Hs. rewrite !andb_false_iff, !negb_false_iff, !contains_byte_false. split.
  - destruct (list_eqb_spec l (str "#")) as [|]; [by left|].
    destruct (list_eqb_spec l (str "+")) as [->|]; [right; apply level_plus|].
    intros [H1 H2]. right. constructor. unfold plain_level.
    destruct H1 as [|H1]; [done|]. destruct H2 as [|H2]; [done|]. rewrite Forall_forall in *.
    intros x Hx. auto.
  - intros [->|Hl]; [split; [by left|right; by repeat constructor]|].
    destruct Hl as [l Hp|]; [|split; [right; by repeat constructor|by left]].
    unfold plain_level in Hp. rewrite Forall_forall in Hp.
    split; right; apply Forall_forall; intros x Hx; apply Hp in Hx; tauto.
Qed.

Abbreviation no_slash := (Forall (fun x => x <> slash)).

Lemma level_no_slash l : level l -> no_slash l.
Proof.
  destruct 1 as [l H|]; [|by repeat constructor]. eapply Forall_impl; [exact H|]. by intros x (? & _ & _).
Qed.

(** The decomposition at the first separator is unique. *)
Lemma first_level_unique a b l f :
  a ++ slash :: b = l ++ slash :: f -> no_slash a -> no_slash l -> a = l /\ b = f.
Proof.
  intros E Ha Hl. assert (H1 : cut (a ++ slash :: b) slash = Some (a, b)) by (by apply cut_some).
  assert (H2 : cut (a ++ slash :: b) slash = Some (l, f)) by (rewrite E; by apply cut_some).
  split; congruence.
Qed.

Lemma no_slash_app a b : ~ no_slash (a ++ slash :: b).
Proof. rewrite Forall_app, Forall_cons. tauto. Qed.

Lemma filter_grammar_plain f : no_slash f -> filter_grammar f <-> f = str "#" \/ level f.
Proof.
  intros Hf. split; [|intros [->|H]; by constructor].
  inversion 1; subst; [by left|by right|]. by apply no_slash_app in Hf.
Qed.

Lemma filter_grammar_sep a b :
  no_slash a -> filter_grammar (a ++ slash :: b) <-> level a /\ filter_grammar b.
Proof.
  intros Ha. split; [|intros [? ?]; by constructor].
  inversion 1 as [E|l Hl E|l f Hl Hf E]; subst.
  - exfalso. apply (no_slash_app a b). rewrite <- E. by repeat constructor.
  - by apply level_no_slash, no_slash_app in Hl.
  - symmetry in E. apply first_level_unique in E as [-> ->]; [done|done|by apply level_no_slash].
Qed.

Lemma check_levels_grammar n f i last :
  (length f <= n)%nat -> last = i + len (split f slash) - 1 ->
  check_levels i last (split f slash) = None <-> filter_grammar f.
Proof.
  revert f i. induction n as [n IH] using lt_wf_ind. intros f i Hle Hl.
  destruct (split_cases f slash) as [Hp|(a & b & -> & Ha)].
  - rewrite filter_grammar_plain, <- level_checks by done.
    rewrite split_plain in * by done. rewrite len_cons, len_nil in Hl. cbn [check_levels].
    rewrite (proj2 (Z.eqb_eq i last)) by lia. rewrite andb_false_r. cbn [andb].
    destruct (negb _ && _); [by intuition|]. destruct (negb _ && _); by intuition.
  - rewrite filter_grammar_sep, split_app in * by done. rewrite len_cons in Hl. cbn [check_levels].
    assert (1 <= len (split b slash)).
    { pose proof (split_nonempty b slash). destruct (split b slash); [done|slia]. }
    rewrite (proj2 (Z.eqb_neq i last)) by lia. rewrite andb_true_r.
    rewrite length_app in Hle. simpl in Hle.
    rewrite <- (IH (length b) ltac:(lia) b (i + 1) ltac:(lia) ltac:(lia)).
    pose proof (level_checks a Ha) as HL.
    destruct (list_eqb_spec a (str "#")) as [->|Hna].
    + split; [done|]. intros [La _]. inversion La as [? Hpl|]. apply Forall_cons in Hpl. tauto.
    + simpl in HL |- *. unfold wrapf. destruct (contains_byte a 0x23); [intuition congruence|].
      destruct (negb _ && _); intuition congruence.
Qed.

Lemma check_filter_grammar f : check_filter f = None <-> filter_grammar f.
Proof. apply (check_levels_grammar (length f)); lia. Qed.

Lemma plain_level_split l : no_slash l -> contains_any l (str "+#") = false <-> plain_level l.
Proof.
  intros H. rewrite has_wildcard_false. unfold plain_level. rewrite !Forall_forall in *.
  split; intros G x Hx; specialize (H x Hx); specialize (G x Hx); tauto.
Qed.

Lemma plain_level_no_slash l : plain_level l -> no_slash l.
Proof. intros H. by apply level_no_slash, level_plain. Qed.

(** The part of [ValidTopicFilter] after the encoding checks. *)
Lemma shared_filter_grammar rest :
  match cut rest slash with
  | None => wrapf "shared subscription %q needs $share/{ShareName}/{filter}" ErrInvalidTopic
  | Some (name, sub) =>
      if list_eqb name [] || contains_any name (str "+#")
      then wrapf "shared subscription %q needs $share/{ShareName}/{filter}" ErrInvalidTopic
      else if list_eqb sub [] then wrapf "shared subscription %q has an empty filter" ErrInvalidTopic
      else check_filter sub
  end = None <->
  exists name f, rest = name ++ slash :: f /\ name <> [] /\ plain_level name /\ f <> [] /\ filter_grammar f.
Proof.
  destruct (cut rest slash) as [[a b]|] eqn:E.
  - apply cut_some in E as [-> Ha]. 
    destruct (list_eqb_spec a []) as [->|Hn]; simpl.
    { split; [done|]. intros (n & f & E & Hne & Hp & _).
      apply (first_level_unique [] b) in E as [? ?]; [done|done|by apply plain_level_no_slash]. }
    pose proof (plain_level_split a Ha) as HP. destruct (contains_any a (str "+#")).
    { split; [done|]. intros (n & f & E & Hne & Hp & _).
      apply first_level_unique in E as [-> ->]; [|done|by apply plain_level_no_slash]. apply HP in Hp. done. }
    destruct (list_eqb_spec b []) as [->|Hb].
    { split; [done|]. intros (n & f & E & _ & Hp & Hf & _).
      apply first_level_unique in E as [-> <-]; [done|done|by apply plain_level_no_slash]. }
    rewrite check_filter_grammar. split; [intros; exists a, b; tauto|].
    intros (n & f & E & _ & Hp & _ & Hf).
    apply first_level_unique in E as [-> ->]; [done|done|by apply plain_level_no_slash].
  - split; [done|]. intros (n & f & -> & _ & Hp & _).
    assert (cut (n ++ slash :: f) slash = Some (n, f)) by (apply cut_some; split; [done|by apply plain_level_no_slash]).
    congruence.
Qed.

Lemma share_prefix_topic_filter rest :
  topic_filter (share_prefix ++ rest) <->
  exists name f, rest = name ++ slash :: f /\ name <> [] /\ plain_level name /\ f <> [] /\ filter_grammar f.
Proof.
  split.
  - intros H. remember (share_prefix ++ rest) as s eqn:E. destruct H as [f Hf|name f]; subst.
    + assert (has_prefix (share_prefix ++ rest) share_prefix = true) by (apply has_prefix_app; eauto). congruence.
    + apply app_inv_head in E as <-. eauto 10.
  - intros (name & f & -> & ? & ? & ? & ?). by constructor.
Qed.

Lemma plain_topic_filter f : has_prefix f share_prefix = false -> topic_filter f <-> filter_grammar f.
Proof.
  intros Hf. split; [|intros; by constructor]. inversion 1; subst; [done|].
  rewrite (proj2 (has_prefix_app _ _)) in Hf by eauto. done.
Qed.

Lemma ValidTopicFilter_iff s :
  bytes s ->
  ValidTopicFilter s = None <-> s <> [] /\ len s <= 65535 /\ mqtt_utf8 s = true /\ topic_filter s.
Proof.
  intros Hs. unfold ValidTopicFilter, validUTF8. rewrite validUTF8Bytes_spec by done.
  destruct (list_eqb_spec s []) as [->|Hne]; [by intuition|].
  destruct (Z.ltb_spec 0xffff (len s)); [split; [done|lia]|].
  destruct (mqtt_utf8 s); [|by intuition]. cbn [negb].
  assert (HT : forall P : Prop, (s <> [] /\ len s <= 65535 /\ true = true /\ P) <-> P) by (intuition lia). rewrite HT.
  destruct (cut_prefix s share_prefix) as [rest|] eqn:E.
  - apply cut_prefix_app in E as ->. rewrite share_prefix_topic_filter. apply shared_filter_grammar.
  - apply cut_prefix_none in E. rewrite plain_topic_filter by done. apply check_filter_grammar.
Qed.

Lemma ValidTopicName_iff s :
  bytes s ->
  ValidTopicName s = None <-> len s <= 65535 /\ mqtt_utf8 s = true /\ has_wildcard s = false.
Proof.
  intros Hs. unfold ValidTopicName, validUTF8. rewrite validUTF8Bytes_spec by done. fold (has_wildcard s).
  destruct (Z.ltb_spec 0xffff (len s)); [split; [done|lia]|].
  destruct (mqtt_utf8 s); [|by intuition]. cbn [negb]. destruct (has_wildcard s); by intuition.
Qed.

(** ** Theorems *)

(** Topic filters. [ValidTopicFilter] accepts exactly the filters of
    MQTT v5 section 4.7: 1 to 65535 bytes of well-formed UTF-8 without
    U+0000, levels separated by ['/'] in which ['+'] fills a whole level and
    ['#'] is the whole last level, with [$share/] followed by a wildcard-free
    share name and a non-empty filter of that form. *)
Theorem ValidTopicFilter_exact s :
  bytes s ->
  ValidTopicFilter s = None <-> s <> [] /\ len s <= 65535 /\ mqtt_utf8 s = true /\ topic_filter s.
Proof. apply ValidTopicFilter_iff. Qed.

(** Topic names. [ValidTopicName] accepts exactly the strings of at most
    65535 bytes of well-formed UTF-8 without U+0000 and without wildcards. *)
Theorem ValidTopicName_exact s :
  bytes s -> ValidTopicName s = None <-> len s <= 65535 /\ mqtt_utf8 s = true /\ plain_name s.
Proof.
  intros Hs. rewrite ValidTopicName_iff by done. unfold plain_name, has_wildcard. by rewrite has_wildcard_false.
Qed.

Lemma ValidTopicFilter_exact_witness :
  ValidTopicFilter (str "$share/g/a/+/#") = None /\ ValidTopicFilter (str "a/#/b") <> None.
Proof.
  split; [|discriminate]. apply (ValidTopicFilter_exact (str "$share/g/a/+/#")); [by repeat constructor|].
  split; [done|]. split; [done|]. split; [done|].
  apply (topic_filter_shared (str "g") (str "a/+/#")); [done|by repeat constructor|done|].
  apply (filter_sep (str "a") (str "+/#")); [by repeat constructor|].
  exact (filter_sep (str "+") (str "#") level_plus filter_hash).
Defined.

Lemma ValidTopicName_exact_witness : ValidTopicName (str "a/b") = None.
Proof.
  apply (ValidTopicName_exact (str "a/b")); [by repeat constructor|]. split; [done|]. split; [done|]. by repeat constructor.
Defined.
