(* ===== verification/Validate.v ===== *)
(** * Validate: property sections, reason codes and field checks (wire/validate.go)

    The validation shared by the decoders ([validateProps], [checkReason])
    and the encoders ([checkString] and its companions).  [validateProps] is
    proved to accept exactly the encodings of the property lists MQTT v5
    allows for the packet. *)

From S2P Require Import Prelude GoLib Errors Varint Fields PropView Utf8 Topics.

(** ** Definitions *)

(** A function returning [*PacketError]: [Ok tt] is nil. *)
Abbreviation pres := (res PacketError unit).

Definition propMask (ids : list Z) : Z := fold_left (fun m id => Z.lor m (Z.shiftl 1 id)) ids 0.

Definition userProp : Z := propMask [PropUserProperty].
Definition reasonProps : Z := propMask [PropReasonString; PropUserProperty].
Definition publishProps : Z :=
  propMask [PropPayloadFormat; PropMessageExpiryInterval; PropContentType; PropResponseTopic;
            PropCorrelationData; PropSubscriptionIdentifier; PropTopicAlias; PropUserProperty].
Definition willProps : Z :=
  propMask [PropWillDelayInterval; PropPayloadFormat; PropMessageExpiryInterval; PropContentType;
            PropResponseTopic; PropCorrelationData; PropUserProperty].

(** [allowedProps[t]]; a missing key reads as 0. *)
Definition allowedProps (t : Z) : Z :=
  if t =? CONNECT then
    propMask [PropSessionExpiryInterval; PropAuthMethod; PropAuthData; PropRequestProblemInfo;
              PropRequestResponseInfo; PropReceiveMaximum; PropTopicAliasMaximum; PropUserProperty;
              PropMaximumPacketSize]
  else if t =? CONNACK then
    propMask [PropSessionExpiryInterval; PropAssignedClientID; PropServerKeepAlive; PropAuthMethod;
              PropAuthData; PropResponseInformation; PropServerReference; PropReasonString; PropReceiveMaximum;
              PropTopicAliasMaximum; PropMaximumQoS; PropRetainAvailable; PropUserProperty; PropMaximumPacketSize;
              PropWildcardSubAvailable; PropSubscriptionIDAvailable; PropSharedSubAvailable]
  else if t =? PUBLISH then publishProps
  else if (t =? PUBACK) || (t =? PUBREC) || (t =? PUBREL) || (t =? PUBCOMP) then reasonProps
  else if t =? SUBSCRIBE then propMask [PropSubscriptionIdentifier; PropUserProperty]
  else if t =? SUBACK then reasonProps
  else if t =? UNSUBSCRIBE then userProp
  else if t =? UNSUBACK then reasonProps
  else if t =? DISCONNECT then
    propMask [PropSessionExpiryInterval; PropServerReference; PropReasonString; PropUserProperty]
  else if t =? AUTH then propMask [PropAuthMethod; PropAuthData; PropReasonString; PropUserProperty]
  else 0.

Definition booleanProps : Z :=
  propMask [PropPayloadFormat; PropRequestProblemInfo; PropRequestResponseInfo; PropMaximumQoS;
            PropRetainAvailable; PropWildcardSubAvailable; PropSubscriptionIDAvailable; PropSharedSubAvailable].
Definition stringIDs : list Z :=
  [PropContentType; PropResponseTopic; PropAssignedClientID; PropAuthMethod;
   PropResponseInformation; PropServerReference; PropReasonString].
Definition stringProps : Z := propMask stringIDs.

(** [mask&(1<<id) != 0] *)
Definition masked (mask id : Z) : bool := negb (Z.land mask (Z.shiftl 1 id) =? 0).

Definition multi (t id : Z) : bool :=
  (id =? PropUserProperty) || ((id =? PropSubscriptionIdentifier) && (t =? PUBLISH)).

(** The [switch] over one property's value bytes. *)
Definition validate_value (t id : Z) (v : list Z) : pres :=
  if masked booleanProps id then
    let! v0 := idx v 0 in
    if 1 <? v0 then Err (protocolError t "property %#x has value %d, want 0 or 1") else Ok tt
  else if masked stringProps id then
    let! s := from v 2 in
    if negb (validUTF8Bytes s) then Err (malformed t "property %#x is not well-formed UTF-8")
    else if (id =? PropResponseTopic) && contains_any s (str "+#")
    then Err (protocolError t "Response Topic %q contains a wildcard")
    else Ok tt
  else if id =? PropUserProperty then
    let! v0 := idx v 0 in
    let! v1 := idx v 1 in
    let kn := Z.lor (Z.shiftl v0 8) v1 in
    let! k := slice v 2 (2 + kn) in
    if negb (validUTF8Bytes k) then Err (malformed t "user property is not well-formed UTF-8")
    else
      let! w := from v (4 + kn) in
      if negb (validUTF8Bytes w) then Err (malformed t "user property is not well-formed UTF-8") else Ok tt
  else if id =? PropTopicAlias then
    let! v0 := idx v 0 in
    let! v1 := idx v 1 in
    if (v0 =? 0) && (v1 =? 0) then Err (mkPacketError t ReasonTopicAliasInvalid "Topic Alias 0") else Ok tt
  else if id =? PropReceiveMaximum then
    let! v0 := idx v 0 in
    let! v1 := idx v 1 in
    if (v0 =? 0) && (v1 =? 0) then Err (protocolError t "Receive Maximum is 0") else Ok tt
  else if id =? PropMaximumPacketSize then
    let! v0 := idx v 0 in
    let! v1 := idx v 1 in
    let! v2 := idx v 2 in
    let! v3 := idx v 3 in
    if Z.lor (Z.lor (Z.lor v0 v1) v2) v3 =? 0 then Err (protocolError t "Maximum Packet Size is 0") else Ok tt
  else if id =? PropSubscriptionIdentifier then
    match DecodeVarint v with
    | Panic => Panic
    | Err _ => Err (protocolError t "Subscription Identifier is 0")
    | Ok (n, _) => if n =? 0 then Err (protocolError t "Subscription Identifier is 0") else Ok tt
    end
  else Ok tt.

(** The loop of [validateProps], at offset [off]. *)
Fixpoint validateProps_loop (fuel : nat) (t : Z) (raw : list Z) (allowed seen off : Z) : pres :=
  match fuel with
  | O => Panic
  | S fuel =>
      if off <? len raw then
        let! id := idx raw off in
        let off := off + 1 in
        if (64 <=? id) || negb (masked allowed id) then Err (malformed t "property %#x not allowed")
        else
          let! rest := from raw off in
          match propValueSize id rest with
          | Panic => Panic
          | Err _ => Err (malformed t "property %#x truncated")
          | Ok size =>
              if len raw <? off + size then Err (malformed t "property %#x truncated")
              else
                let! v := slice raw off (off + size) in
                let off := off + size in
                if masked seen id && negb (multi t id)
                then Err (protocolError t "property %#x appears more than once")
                else
                  let seen := Z.lor seen (Z.shiftl 1 id) in
                  let! _ := validate_value t id v in
                  validateProps_loop fuel t raw allowed seen off
          end
      else Ok tt
  end.

Definition validateProps (t : Z) (raw : list Z) (allowed : Z) : pres :=
  validateProps_loop (S (length raw)) t raw allowed 0 0.

(** [reasonCodes[t]] *)
Definition reasonCodes (t : Z) : list Z :=
  if t =? CONNACK then
    [0x00; 0x80; 0x81; 0x82; 0x83; 0x84; 0x85; 0x86; 0x87; 0x88; 0x89; 0x8A; 0x8C; 0x90; 0x95; 0x97; 0x99;
     0x9A; 0x9B; 0x9C; 0x9D; 0x9F]
  else if t =? PUBACK then [0x00; 0x10; 0x80; 0x83; 0x87; 0x90; 0x91; 0x97; 0x99]
  else if t =? PUBREC then [0x00; 0x10; 0x80; 0x83; 0x87; 0x90; 0x91; 0x97; 0x99]
  else if t =? PUBREL then [0x00; 0x92]
  else if t =? PUBCOMP then [0x00; 0x92]
  else if t =? SUBACK then [0x00; 0x01; 0x02; 0x80; 0x83; 0x87; 0x8F; 0x91; 0x97; 0x9E; 0xA1; 0xA2]
  else if t =? UNSUBACK then [0x00; 0x11; 0x80; 0x83; 0x87; 0x8F; 0x91]
  else if t =? DISCONNECT then
    [0x00; 0x04; 0x80; 0x81; 0x82; 0x83; 0x87; 0x89; 0x8B; 0x8D; 0x8E; 0x8F; 0x90; 0x93; 0x94; 0x95; 0x96;
     0x97; 0x98; 0x99; 0x9A; 0x9B; 0x9C; 0x9D; 0x9E; 0x9F; 0xA0; 0xA1; 0xA2]
  else if t =? AUTH then [0x00; 0x18; 0x19]
  else [].

Definition checkReason (t rc : Z) : pres :=
  if one_of rc (reasonCodes t) then Ok tt else Err (malformed t "reason code %#x not defined for %s").

(** ** Checks on the encoders' options ([wres unit]: [Ok tt] is nil) *)

Definition checkString (field : string) (s : list Z) : wres unit :=
  if 0xffff <? len s then failf "%s is %d bytes" [Sentinel ErrStringTooLong]
  else if negb (validUTF8 s) then failf "%s is not well-formed UTF-8 or contains U+0000" [Sentinel ErrInvalidField]
  else Ok tt.

(** [None] is a nil slice, of length 0. *)
Definition checkBinary (field : string) (b : option (list Z)) : wres unit :=
  if 0xffff <? len (default [] b) then failf "%s is %d bytes" [Sentinel ErrStringTooLong] else Ok tt.

Fixpoint checkUserProps (props : list UserProperty) : wres unit :=
  match props with
  | [] => Ok tt
  | p :: props =>
      let! _ := checkString "user property name" (up_Key p) in
      let! _ := checkString "user property value" (up_Value p) in
      checkUserProps props
  end.

Definition checkBool (field : string) (b : option Z) : wres unit :=
  match b with
  | Some v => if 1 <? v then failf "%s must be 0 or 1, got %d" [Sentinel ErrInvalidField] else Ok tt
  | None => Ok tt
  end.

Definition checkReasonCode (t rc : Z) : wres unit :=
  match checkReason t rc with
  | Ok _ => Ok tt
  | Err _ => failf "reason code %#x is not defined for %s" [Sentinel ErrInvalidField]
  | Panic => Panic
  end.

(** ** What a valid property section is *)

(** The value rules of the properties. *)
Definition value_ok (p : prop) : Prop :=
  match p.2 with
  | VByte b => b <= 1
  | VTwo v => one_of p.1 [PropTopicAlias; PropReceiveMaximum] = true -> v <> 0
  | VFour v => p.1 = PropMaximumPacketSize -> v <> 0
  | VVar bs => forall n, DecodeVarint bs <> Ok (0, n)
  | VData s => (one_of p.1 stringIDs = true -> mqtt_utf8 s = true)
               /\ (p.1 = PropResponseTopic -> has_wildcard s = false)
  | VPair k v => mqtt_utf8 k = true /\ mqtt_utf8 v = true
  end.

(** The identifiers that may appear once only. *)
Definition single_ids (t : Z) (ps : list prop) : list Z := filter (fun id => multi t id = false) (map fst ps).

(** A property list a packet of type [t] may carry. *)
Definition props_ok (t allowed : Z) (ps : list prop) : Prop :=
  Forall wf_prop ps /\ Forall (fun p => Z.testbit allowed p.1 = true) ps /\ Forall value_ok ps
  /\ NoDup (single_ids t ps).

(** ** Masks *)

Lemma masked_testbit mask id : 0 <= id -> masked mask id = Z.testbit mask id.
Proof.
  intros Hid. unfold masked. rewrite Z.shiftl_1_l. destruct (Z.testbit mask id) eqn:E.
  - destruct (Z.eqb_spec (Z.land mask (2 ^ id)) 0) as [H|]; [|done].
    apply (f_equal (fun z => Z.testbit z id)) in H.
    rewrite Z.land_spec, E, Z.pow2_bits_true, Z.bits_0 in H by done. done.
  - replace (Z.land mask (2 ^ id)) with 0; [done|]. apply Z.bits_inj'. intros i Hi.
    rewrite Z.bits_0, Z.land_spec, Z.pow2_bits_eqb by done.
    destruct (Z.eqb_spec id i) as [->|]; by rewrite ?E, ?andb_false_r.
Qed.

Lemma testbit_lor_shiftl m i id : 0 <= i -> 0 <= id -> Z.testbit (Z.lor m (Z.shiftl 1 i)) id = Z.testbit m id || (id =? i).
Proof. intros. by rewrite Z.lor_spec, Z.shiftl_1_l, Z.pow2_bits_eqb, (Z.eqb_sym i id) by done. Qed.

Lemma testbit_propMask ids id :
  Forall (fun i => 0 <= i) ids -> 0 <= id -> Z.testbit (propMask ids) id = one_of id ids.
Proof.
  intros H Hid. unfold propMask.
  enough (G : forall m, Z.testbit (fold_left (fun m id => Z.lor m (Z.shiftl 1 id)) ids m) id
                        = Z.testbit m id || one_of id ids) by (by rewrite G, Z.bits_0).
  induction H as [|i ids Hi _ IH]; intros m; unfold one_of; simpl; [by rewrite orb_false_r|].
  rewrite IH, testbit_lor_shiftl by done. unfold one_of. by rewrite orb_assoc.
Qed.

Lemma masked_ids ids id :
  forallb (Z.leb 0) ids = true -> 0 <= id -> masked (propMask ids) id = one_of id ids.
Proof.
  intros H Hid. rewrite masked_testbit, testbit_propMask; try done.
  apply Forall_forall. rewrite forallb_forall in H. intros i Hi. apply Z.leb_le, H. by apply list_elem_of_In.
Qed.

(** ** Parsing one property *)

(** Bytes whose size [propValueSize] accepts start with an encoded value of
    the shape the identifier requires. *)
Lemma propValueSize_inv id rest size :
  is_u8 id -> bytes rest -> propValueSize id rest = Ok size -> size <= len rest ->
  exists v rest', rest = enc_pval v ++ rest' /\ len (enc_pval v) = size /\ wf_prop (id, v).
Proof.
  intros Hid Hb. unfold propValueSize.
  destruct (one_of id byteIDs) eqn:E1.
  { intros [= <-] Hl. destruct (len_cons_inv rest) as (b & k & ->); [lia|]. apply bytes_cons in Hb as [? _].
    exists (VByte b), k. done. }
  destruct (one_of id twoIDs) eqn:E2.
  { intros [= <-] Hl. destruct (@Uint16_ok error rest Hb Hl) as (v & Hv & Hr).
    apply Uint16_inv in Hv as (k & -> & _); [|done]. by exists (VTwo v), k. }
  destruct (one_of id fourIDs) eqn:E3.
  { intros [= <-] Hl. destruct (Uint32_inv rest Hb Hl) as (v & k & -> & Hv). by exists (VFour v), k. }
  destruct (Z.eqb_spec id PropSubscriptionIdentifier) as [->|_].
  { destruct (DecodeVarint rest) as [[v n]| |] eqn:E; simpl; try discriminate. intros [= <-] Hl.
    pose proof E as Hd. rewrite DecodeVarint_spec in E by done.
    destruct (dec_varint_groups 4 rest) as [p|] eqn:G; [|discriminate]. injection E as ->.
    apply DecodeVarint_ok in Hd as (_ & Hn & _); [|done]. apply dec_groups_take in G.
    exists (VVar (ztake n rest)), (zdrop n rest). simpl. rewrite ztake_zdrop, len_ztake by lia.
    split; [done|]. split; [done|]. split; [done|]. simpl. split; [done|]. split; [by apply bytes_ztake|].
    exists v. rewrite DecodeVarint_spec by (by apply bytes_ztake). rewrite G. by rewrite len_ztake by lia. }
  destruct (one_of id dataIDs) eqn:E4.
  { destruct (len rest <? 2) eqn:L; [discriminate|].
    destruct (Uint16 rest) as [n| |] eqn:E; simpl; try discriminate. intros [= <-] Hl.
    apply Uint16_inv in E as (k & -> & Hn); [|done]. rewrite bytes_app in Hb. destruct Hb as [_ Hb].
    unfold is_u16 in Hn. destruct (split_at n k) as (s & k' & -> & Hs); [slia|].
    rewrite bytes_app in Hb. exists (VData s), k'. cbn [enc_pval]. unfold enc_str. rewrite Hs, <- app_assoc.
    split; [done|]. split; [slia|]. split; [done|]. simpl. split; [done|]. unfold short. pow2. split; [tauto|lia]. }
  destruct (Z.eqb_spec id PropUserProperty) as [->|_]; [|discriminate].
  destruct (len rest <? 2) eqn:L; [discriminate|].
  destruct (Uint16 rest) as [n| |] eqn:E; simpl; try discriminate.
  apply Uint16_inv in E as (k & -> & Hn); [|done]. rewrite bytes_app in Hb. destruct Hb as [_ Hb].
  unfold is_u16 in Hn. destruct (Z.ltb_spec (len (be16 n ++ k)) (2 + n + 2)) as [|L2]; [discriminate|].
  destruct (split_at n k) as (s & k' & -> & Hs); [slia|]. rewrite bytes_app in Hb. destruct Hb as [Hbs Hb].
  rewrite app_assoc, from_app by slia. simpl.
  destruct (Uint16 k') as [m| |] eqn:E; simpl; try discriminate. intros [= <-] Hl.
  apply Uint16_inv in E as (k & -> & Hm); [|done]. rewrite bytes_app in Hb. destruct Hb as [_ Hb].
  unfold is_u16 in Hm. destruct (split_at m k) as (w & k' & -> & Hw); [slia|]. rewrite bytes_app in Hb.
  exists (VPair s w), k'. cbn [enc_pval]. unfold enc_str. rewrite Hs, Hw, <- !app_assoc.
  split; [done|]. split; [slia|]. split; [done|]. simpl. unfold short. pow2. intuition lia.
Qed.

(** ** One value *)

(** Evaluate the mask and identifier tests of a known identifier. *)
Ltac eval_ids :=
  repeat match goal with
  | |- context [masked ?m ?i] => let b := eval vm_compute in (masked m i) in change (masked m i) with b
  | |- context [one_of ?i ?l] => let b := eval vm_compute in (one_of i l) in change (one_of i l) with b
  | |- context [?i =? ?j] => let b := eval vm_compute in (i =? j) in
      lazymatch b with true => idtac | false => idtac end; change (i =? j) with b
  end; cbn [andb].

(** [decides m P]: the check [m] returns, and it accepts iff [P]. *)
Definition decides {E} (m : res E unit) (P : Prop) : Prop :=
  match m with Ok _ => P | Err _ => ~ P | Panic => False end.

Lemma decides_iff {E} (m : res E unit) P : decides m P -> (m = Ok tt <-> P) /\ no_panic m.
Proof. destruct m as [[]| |]; simpl; intros H; (split; [|discriminate]) || done; split; done. Qed.

Lemma be16_zero v : is_u16 v -> (u8 (Z.shiftr v 8) =? 0) && (u8 v =? 0) = (v =? 0).
Proof.
  intros Hv. unfold u8, is_u16 in *. rewrite shiftr_div by lia. pow2. apply eq_iff_eq_true.
  rewrite andb_true_iff, !Z.eqb_eq. dlia.
Qed.

Lemma lor_eq_0 a b : Z.lor a b = 0 <-> a = 0 /\ b = 0.
Proof. apply Z.lor_eq_0_iff. Qed.

Lemma be32_zero v :
  is_u32 v -> (Z.lor (Z.lor (Z.lor (u8 (Z.shiftr v 24)) (u8 (Z.shiftr v 16))) (u8 (Z.shiftr v 8))) (u8 v) =? 0) = (v =? 0).
Proof.
  intros Hv. apply eq_iff_eq_true. rewrite !Z.eqb_eq, !lor_eq_0. unfold u8, is_u32 in *.
  rewrite !shiftr_div by lia. pow2. dlia.
Qed.

Lemma kn_be16 n : is_u16 n -> Z.lor (Z.shiftl (u8 (Z.shiftr n 8)) 8) (u8 n) = n.
Proof.
  intros Hn. rewrite Z.lor_comm, lor_shiftl_add, shiftr_div by (lia || apply u8_range).
  unfold u8, is_u16 in *. pow2. dlia.
Qed.

Lemma idx_be16_0 {E} n l : @idx E (be16 n ++ l) 0 = Ok (u8 (Z.shiftr n 8)).
Proof. apply idx_0. Qed.
Lemma idx_be16_1 {E} n l : @idx E (be16 n ++ l) 1 = Ok (u8 n).
Proof. apply idx_1. Qed.

Lemma validate_value_byte t id b : wf_prop (id, VByte b) -> decides (validate_value t id [b]) (b <= 1).
Proof.
  intros [_ [H _]]. cbn [fst] in H. id_cases H; subst id; unfold validate_value; eval_ids;
    rewrite idx_0; cbn [rbind]; destruct (Z.ltb_spec 1 b); simpl; lia.
Qed.

Lemma validate_value_two t id v : wf_prop (id, VTwo v) -> decides (validate_value t id (be16 v)) (value_ok (id, VTwo v)).
Proof.
  intros [_ [H Hv]]. cbn [fst] in H. id_cases H; subst id; unfold validate_value, value_ok; cbn [fst snd]; eval_ids;
    unfold be16; rewrite ?idx_0; cbn [rbind]; rewrite ?idx_1; cbn [rbind]; rewrite ?be16_zero by done;
    try destruct (Z.eqb_spec v 0); simpl; intuition congruence.
Qed.

Lemma validate_value_four t id v : wf_prop (id, VFour v) -> decides (validate_value t id (be32 v)) (value_ok (id, VFour v)).
Proof.
  intros [_ [H Hv]]. cbn [fst] in H. id_cases H; subst id; unfold validate_value, value_ok; cbn [fst snd]; eval_ids;
    unfold be32; rewrite ?idx_0; cbn [rbind]; rewrite ?idx_1; cbn [rbind]; rewrite ?idx_2; cbn [rbind];
    rewrite ?idx_3; cbn [rbind]; rewrite ?be32_zero by done; try destruct (Z.eqb_spec v 0); simpl;
    intuition (done || congruence).
Qed.

Lemma validate_value_data t id s : wf_prop (id, VData s) -> decides (validate_value t id (enc_str s)) (value_ok (id, VData s)).
Proof.
  intros (_ & H & Hb & _). cbn [fst] in H. id_cases H; subst id; unfold validate_value, value_ok; cbn [fst snd]; eval_ids;
    [unfold enc_str; rewrite ?from_app by done; cbn [rbind]; rewrite ?validUTF8Bytes_spec by done;
     fold (has_wildcard s); destruct (mqtt_utf8 s), (has_wildcard s); simpl; intuition (done || congruence)..| |];
    simpl; by intuition.
Qed.

Lemma validate_value_pair t k v :
  wf_prop (PropUserProperty, VPair k v) ->
  decides (validate_value t PropUserProperty (enc_str k ++ enc_str v)) (mqtt_utf8 k = true /\ mqtt_utf8 v = true).
Proof.
  intros (_ & _ & Hk & Sk & Hv & Sv). unfold validate_value. eval_ids.
  assert (E : enc_str k ++ enc_str v = be16 (len k) ++ k ++ be16 (len v) ++ v)
    by (unfold enc_str; by rewrite <- !app_assoc).
  rewrite E, idx_be16_0. cbn [rbind]. rewrite idx_be16_1. cbn [rbind].
  rewrite kn_be16 by eauto with go. cbn zeta.
  rewrite (slice_app (be16 (len k)) k) by done. cbn [rbind]. rewrite validUTF8Bytes_spec by done.
  replace (be16 (len k) ++ k ++ be16 (len v) ++ v) with ((be16 (len k) ++ k ++ be16 (len v)) ++ v)
    by (by rewrite <- !app_assoc).
  rewrite from_app by slia. cbn [rbind]. rewrite validUTF8Bytes_spec by done.
  destruct (mqtt_utf8 k), (mqtt_utf8 v); simpl; intuition congruence.
Qed.

Lemma validate_value_var t bs :
  wf_prop (PropSubscriptionIdentifier, VVar bs) ->
  decides (validate_value t PropSubscriptionIdentifier bs) (forall n, DecodeVarint bs <> Ok (0, n)).
Proof.
  intros (_ & _ & Hb & v & Hv). cbn [snd] in *. unfold validate_value. eval_ids. rewrite Hv.
  destruct (Z.eqb_spec v 0) as [->|]; simpl; [|congruence]. intros H. by apply (H (len bs)).
Qed.

Lemma validate_value_spec t p : wf_prop p -> decides (validate_value t p.1 (enc_pval p.2)) (value_ok p).
Proof.
  destruct p as [id [b|v|v|bs|s|k v]]; cbn [fst snd enc_pval]; intros H.
  - by apply validate_value_byte.
  - by apply validate_value_two.
  - by apply validate_value_four.
  - assert (id = PropSubscriptionIdentifier) as -> by apply H. by apply validate_value_var.
  - by apply validate_value_data.
  - assert (id = PropUserProperty) as -> by apply H. by apply validate_value_pair.
Qed.

(** ** The whole section *)

(** What is left to check after the identifiers of [seen]. *)
Definition rest_ok (t allowed seen : Z) (ps : list prop) : Prop :=
  props_ok t allowed ps /\ Forall (fun id => Z.testbit seen id = false) (single_ids t ps).

Lemma wf_prop_id p : wf_prop p -> 0 <= p.1 < 64.
Proof.
  destruct p as [id v]. intros [_ H]. cbn [fst snd] in *.
  destruct v; try (destruct H as [H _]); try (subst id; cbv; by split);
    id_cases H; subst id; cbv; by split.
Qed.

Lemma single_ids_cons t p ps :
  single_ids t (p :: ps) = if multi t p.1 then single_ids t ps else p.1 :: single_ids t ps.
Proof.
  unfold single_ids. simpl. destruct (multi t p.1) eqn:E; [by rewrite filter_cons_False by congruence|].
  by rewrite filter_cons_True.
Qed.

Lemma single_ids_wf t ps : Forall wf_prop ps -> Forall (fun id => 0 <= id) (single_ids t ps).
Proof.
  induction 1 as [|p ps Hp _ IH]; [constructor|]. rewrite single_ids_cons. apply wf_prop_id in Hp.
  destruct (multi t p.1); [done|]. constructor; [lia|done].
Qed.

(** Peeling one property off. *)
Lemma rest_ok_cons t allowed seen p ps :
  wf_prop p -> Z.testbit allowed p.1 = true ->
  rest_ok t allowed seen (p :: ps) <->
  (Z.testbit seen p.1 && negb (multi t p.1) = false) /\ value_ok p
  /\ rest_ok t allowed (Z.lor seen (Z.shiftl 1 p.1)) ps.
Proof.
  intros Hp Ha. unfold rest_ok, props_ok. rewrite !Forall_cons, single_ids_cons.
  pose proof (wf_prop_id p Hp) as Hid.
  assert (HS : forall l, Forall (fun id => 0 <= id) l ->
            Forall (fun id => Z.testbit (Z.lor seen (Z.shiftl 1 p.1)) id = false) l
            <-> Forall (fun id => Z.testbit seen id = false) l /\ p.1 ∉ l).
  { induction 1 as [|i l Hi _ IH]; [split; [split; [constructor|apply not_elem_of_nil]|constructor]|].
    rewrite !Forall_cons, IH, testbit_lor_shiftl, orb_false_iff, Z.eqb_neq, not_elem_of_cons by lia.
    intuition congruence. }
  split.
  - intros ((Hwf & [_ Hal] & [Hv ?] & Hnd) & Hs). pose proof (single_ids_wf t ps (proj2 Hwf)) as Hpos.
    destruct (multi t p.1) eqn:Hm.
    + rewrite andb_false_r. split; [done|]. split; [done|]. split; [tauto|]. apply HS; [done|]. split; [done|].
      unfold single_ids. rewrite list_elem_of_filter. intros [? _]. congruence.
    + apply Forall_cons in Hs as [Hs1 Hs]. apply NoDup_cons in Hnd as [Hni Hnd]. rewrite Hs1. split; [done|].
      split; [done|]. split; [tauto|]. by apply HS.
  - intros (Hs & Hv & (Hwf & Hal & Hvs & Hnd) & Hs2). pose proof (single_ids_wf t ps Hwf) as Hpos.
    apply HS in Hs2 as [Hs2 Hni]; [|done]. destruct (multi t p.1) eqn:Hm; [tauto|].
    rewrite andb_true_r in Hs. rewrite NoDup_cons, Forall_cons. tauto.
Qed.

Lemma enc_props_cons_inv id rest ps :
  id :: rest = enc_props ps -> exists v ps', ps = (id, v) :: ps' /\ rest = enc_pval v ++ enc_props ps'.
Proof. destruct ps as [|[i v] ps]; [done|]. simpl. intros [= -> ->]. eauto. Qed.

(** Two parses of the same bytes agree on the value's bytes and the rest. *)
Lemma enc_pval_unique id v v' a b :
  wf_prop (id, v) -> wf_prop (id, v') -> bytes a -> bytes b ->
  enc_pval v ++ a = enc_pval v' ++ b -> enc_pval v = enc_pval v' /\ a = b.
Proof.
  intros H H' Ha Hb E. pose proof (propValueSize_enc _ a H Ha) as S1. pose proof (propValueSize_enc _ b H' Hb) as S2.
  cbn [fst snd] in *. rewrite E, S2 in S1. injection S1 as S1.
  apply app_inj_1 in E; [done|]. unfold len in S1. lia.
Qed.

Definition parses (t allowed seen : Z) (rest : list Z) : Prop :=
  exists ps, rest = enc_props ps /\ rest_ok t allowed seen ps.

Lemma parses_cons_inv t allowed seen id rest :
  parses t allowed seen (id :: rest) ->
  exists v ps, rest = enc_pval v ++ enc_props ps /\ Forall wf_prop ps /\ wf_prop (id, v) /\ Z.testbit allowed id = true
               /\ rest_ok t allowed seen ((id, v) :: ps).
Proof.
  intros (ps & E & H). apply enc_props_cons_inv in E as (v & ps' & -> & ->). exists v, ps'.
  split; [done|]. pose proof H as [(Hw & Ha & _) _]. apply Forall_cons in Hw. apply Forall_cons in Ha. tauto.
Qed.

Lemma parses_cons t allowed seen id v rest :
  bytes rest -> wf_prop (id, v) -> Z.testbit allowed id = true ->
  parses t allowed seen (id :: enc_pval v ++ rest) <->
  Z.testbit seen id && negb (multi t id) = false /\ value_ok (id, v)
  /\ parses t allowed (Z.lor seen (Z.shiftl 1 id)) rest.
Proof.
  intros Hb Hv Ha. split.
  - intros H. apply parses_cons_inv in H as (v' & ps & E & Hps & Hv' & _ & H).
    apply (enc_pval_unique id) in E as [E ->]; [|done..|by apply bytes_enc_props].
    rewrite rest_ok_cons in H by done. destruct H as (Hs & Hval & H). cbn [fst] in Hs, H.
    split; [done|]. split; [|by exists ps].
    pose proof (validate_value_spec t _ Hv) as D. pose proof (validate_value_spec t _ Hv') as D'.
    cbn [fst snd] in D, D'. rewrite E in D. apply decides_iff in D as [D _]. apply decides_iff in D' as [D' _].
    by apply D, D'.
  - intros (Hs & Hval & ps & -> & H). exists ((id, v) :: ps). split; [done|]. by rewrite rest_ok_cons.
Qed.

Lemma decides_ext {E} (m : res E unit) (P Q : Prop) : (P <-> Q) -> decides m P -> decides m Q.
Proof. destruct m; simpl; tauto. Qed.

Lemma validateProps_loop_spec fuel t pre rest allowed seen :
  bytes rest -> (length rest < fuel)%nat ->
  decides (validateProps_loop fuel t (pre ++ rest) allowed seen (len pre)) (parses t allowed seen rest).
Proof.
  revert pre rest seen. induction fuel as [|fuel IH]; intros pre rest seen Hb Hf; [lia|].
  cbn [validateProps_loop]. destruct rest as [|id rest].
  { rewrite app_nil_r, Z.ltb_irrefl. simpl. exists []. repeat (split; [done||constructor|]); constructor. }
  apply bytes_cons in Hb as [Hid Hb]. rewrite (proj2 (Z.ltb_lt _ _)) by slia.
  rewrite idx_app by done. cbn [rbind]. cbn zeta. unfold is_u8 in Hid. rewrite !masked_testbit by lia.
  destruct ((64 <=? id) || negb (Z.testbit allowed id)) eqn:Hal.
  { intros H. apply parses_cons_inv in H as (v & ps & _ & _ & Hv & Ha & _). rewrite Ha, orb_false_r in Hal.
    apply wf_prop_id in Hv. cbn [fst] in Hv. apply Z.leb_le in Hal. lia. }
  apply orb_false_iff in Hal as [_ Hal]. apply negb_false_iff in Hal.
  assert (Hraw : pre ++ id :: rest = (pre ++ [id]) ++ rest) by (by rewrite <- app_assoc).
  rewrite Hraw, from_app by slia. cbn [rbind].
  destruct (propValueSize id rest) as [size| |] eqn:Hsz.
  3:{ by apply propValueSize_no_panic in Hsz. }
  2:{ intros H. apply parses_cons_inv in H as (v & ps & -> & Hps & Hv & _).
      rewrite (propValueSize_enc (id, v)) in Hsz; [done|done|by apply bytes_enc_props]. }
  destruct (Z.ltb_spec (len ((pre ++ [id]) ++ rest)) (len pre + 1 + size)) as [Hlt|Hge].
  { intros H. apply parses_cons_inv in H as (v & ps & -> & Hps & Hv & _).
    rewrite (propValueSize_enc (id, v)) in Hsz; [|done|by apply bytes_enc_props]. injection Hsz as <-.
    cbn [snd] in Hlt. slia. }
  apply propValueSize_inv in Hsz as (v & rest' & -> & <- & Hv); [|done|done|slia].
  rewrite bytes_app in Hb. destruct Hb as [_ Hb].
  rewrite slice_app by slia. cbn [rbind].
  eapply decides_ext; [symmetry; by apply parses_cons|].
  destruct (Z.testbit seen id && negb (multi t id)); [by intros [? _]|].
  pose proof (validate_value_spec t _ Hv) as D. cbn [fst snd] in D.
  destruct (validate_value t id (enc_pval v)); cbn [rbind decides] in D |- *; [|tauto..].
  replace (len pre + 1 + len (enc_pval v)) with (len ((pre ++ [id]) ++ enc_pval v)) by slia.
  rewrite app_assoc. eapply decides_ext; [|apply IH; [done|]]; [tauto|].
  simpl in Hf. rewrite length_app in Hf. lia.
Qed.

Lemma validateProps_decides t raw allowed :
  bytes raw -> decides (validateProps t raw allowed) (exists ps, raw = enc_props ps /\ props_ok t allowed ps).
Proof.
  intros Hb. eapply decides_ext; [|apply (validateProps_loop_spec (S (length raw)) t [] raw allowed 0 Hb); lia].
  unfold parses, rest_ok. split.
  - intros (ps & -> & H & _). eauto.
  - intros (ps & -> & H). exists ps. split; [done|]. split; [done|].
    apply Forall_forall. intros. apply Z.bits_0.
Qed.

Lemma validateProps_no_panic t raw allowed : bytes raw -> no_panic (validateProps t raw allowed).
Proof. intros Hb. by apply (decides_iff _ _ (validateProps_decides t raw allowed Hb)). Qed.
#[export] Hint Resolve validateProps_no_panic : nopanic.

(** [validateProps] accepts the encoding of a property list the packet may carry. *)
Lemma validateProps_enc t ps allowed : props_ok t allowed ps -> validateProps t (enc_props ps) allowed = Ok tt.
Proof.
  intros H. apply (decides_iff _ _ (validateProps_decides t (enc_props ps) allowed ltac:(apply bytes_enc_props, H))).
  eauto.
Qed.

(** ** Field checks *)

Lemma checkString_iff f s : bytes s -> checkString f s = Ok tt <-> short s /\ mqtt_utf8 s = true.
Proof.
  intros Hs. unfold checkString, validUTF8, short. rewrite validUTF8Bytes_spec by done.
  destruct (Z.ltb_spec 0xffff (len s)); [split; [done|lia]|]. destruct (mqtt_utf8 s); simpl; by intuition.
Qed.

Lemma checkBinary_iff f b : checkBinary f b = Ok tt <-> short_opt b.
Proof.
  unfold checkBinary, short_opt, short. destruct b as [s|]; simpl; [|done].
  destruct (Z.ltb_spec 0xffff (len s)); split; try done; lia.
Qed.

Definition bytes_user (props : list UserProperty) : Prop :=
  Forall (fun up => bytes (up_Key up) /\ bytes (up_Value up)) props.

Lemma rbind_unit_ok {E A} (m : res E unit) (k : res E A) a :
  (let! _ := m in k) = Ok a <-> m = Ok tt /\ k = Ok a.
Proof. destruct m as [[]| |]; simpl; intuition congruence. Qed.

Lemma checkUserProps_iff props :
  bytes_user props ->
  checkUserProps props = Ok tt <->
  Forall (fun up => short (up_Key up) /\ mqtt_utf8 (up_Key up) = true
                    /\ short (up_Value up) /\ mqtt_utf8 (up_Value up) = true) props.
Proof.
  induction 1 as [|up props [Hk Hv] _ IH]; [split; [constructor|done]|]. cbn [checkUserProps].
  rewrite !rbind_unit_ok, IH, !checkString_iff, Forall_cons by done. tauto.
Qed.

Lemma checkBool_iff f b : checkBool f b = Ok tt <-> match b with Some v => v <= 1 | None => True end.
Proof. destruct b as [v|]; simpl; [|done]. destruct (Z.ltb_spec 1 v); split; try done; lia. Qed.

Lemma checkReason_iff t rc : checkReason t rc = Ok tt <-> In rc (reasonCodes t).
Proof. unfold checkReason. rewrite <- one_of_In. destruct (one_of rc (reasonCodes t)); by split. Qed.

Lemma checkReasonCode_iff t rc : checkReasonCode t rc = Ok tt <-> In rc (reasonCodes t).
Proof. rewrite <- checkReason_iff. unfold checkReasonCode. destruct (checkReason t rc) as [[]| |]; by split. Qed.

Lemma checkReason_no_panic t rc : no_panic (checkReason t rc).
Proof. unfold checkReason. case_match; discriminate. Qed.
#[export] Hint Resolve checkReason_no_panic : nopanic.

Lemma no_panic_checkString f s : no_panic (checkString f s).
Proof. unfold checkString. repeat case_match; discriminate. Qed.

Lemma no_panic_checkBinary f s : no_panic (checkBinary f s).
Proof. unfold checkBinary. repeat case_match; discriminate. Qed.

Lemma no_panic_checkBool f b : no_panic (checkBool f b).
Proof. unfold checkBool. repeat case_match; discriminate. Qed.

Lemma no_panic_checkUserProps ups : no_panic (checkUserProps ups).
Proof.
  induction ups as [|up ups IH]; simpl; [discriminate|].
  repeat (apply no_panic_bind; [apply no_panic_checkString|intros _ _]). done.
Qed.

(** The response topic is checked only when it is set; an empty one passes. *)
Lemma optional_topic_ok s (f : error -> error) :
  bytes s ->
  (if negb (list_eqb s []) then map_err f (check (ValidTopicName s)) else Ok tt) = Ok tt
  <-> short s /\ mqtt_utf8 s = true /\ has_wildcard s = false.
Proof.
  intros Hb. destruct (list_eqb_spec s []) as [->|]; cbn [negb]; [split; [intros; split; [apply short_nil|done]|done]|].
  by rewrite map_err_ok, check_ok, ValidTopicName_iff.
Qed.

#[export] Hint Resolve no_panic_check no_panic_checkString no_panic_checkBinary no_panic_checkBool
  no_panic_checkUserProps : nopanic.

(** ** Theorems *)

(** C35: property validation. [validateProps] accepts exactly the bytes that
    encode some list of properties the packet may carry: known identifiers
    with values of their shape, each allowed in the packet, each value
    within its rules, and none but the repeatable ones twice. It never
    panics on any bytes. *)
Theorem validateProps_exact t raw allowed :
  bytes raw ->
  (validateProps t raw allowed = Ok tt <-> exists ps, raw = enc_props ps /\ props_ok t allowed ps)
  /\ validateProps t raw allowed <> Panic.
Proof. intros Hb. exact (decides_iff _ _ (validateProps_decides t raw allowed Hb)). Qed.

(** A Topic Alias and a user property in a PUBLISH; the alias twice is refused. *)
Lemma validateProps_exact_witness :
  (exists ps, [35; 0; 1; 38; 0; 1; 97; 0; 1; 98] = enc_props ps /\ props_ok PUBLISH publishProps ps)
  /\ ~ exists ps, [35; 0; 1; 35; 0; 1] = enc_props ps /\ props_ok PUBLISH publishProps ps.
Proof.
  split.
  - apply (proj1 (validateProps_exact PUBLISH [35; 0; 1; 38; 0; 1; 97; 0; 1; 98] publishProps ltac:(by repeat constructor))).
    reflexivity.
  - intros H. apply (proj1 (validateProps_exact PUBLISH [35; 0; 1; 35; 0; 1] publishProps ltac:(by repeat constructor))) in H.
    discriminate.
Defined.
