(* ===== verification/PropLists.v ===== *)
(** * PropLists: the property lists the encoders build

    Each encoder writes a fixed sequence of optional properties followed by
    the user properties.  The lemmas here compute, for such a sequence, the
    values the accessors find in it, its size, and that [validateProps]
    accepts it; the packet files only instantiate them. *)

From S2P Require Import Prelude GoLib Errors Varint Fields PropView Utf8 Topics Validate.

(** ** Lookups *)

Create Rewrite HintDb props.

Lemma first_prop_app id ps qs :
  first_prop id (ps ++ qs) = match first_prop id ps with Some v => Some v | None => first_prop id qs end.
Proof. induction ps as [|[i v] ps IH]; simpl; [done|]. by destruct (i =? id). Qed.

Section lookups.
Context (id i : Z).

Lemma first_prop_byte v : first_prop id (p_byte i v) = if i =? id then VByte <$> v else None.
Proof. destruct v; simpl; by destruct (i =? id). Qed.
Lemma first_prop_two v : first_prop id (p_two i v) = if (i =? id) && negb (v =? 0) then Some (VTwo v) else None.
Proof. unfold p_two. destruct (v =? 0); simpl; by destruct (i =? id). Qed.
Lemma first_prop_twoP v : first_prop id (p_twoP i v) = if i =? id then VTwo <$> v else None.
Proof. destruct v; simpl; by destruct (i =? id). Qed.
Lemma first_prop_four v : first_prop id (p_four i v) = if i =? id then VFour <$> v else None.
Proof. destruct v; simpl; by destruct (i =? id). Qed.
Lemma first_prop_string v :
  first_prop id (p_string i v) = if (i =? id) && negb (list_eqb v []) then Some (VData v) else None.
Proof. unfold p_string. destruct (list_eqb v []); simpl; by destruct (i =? id). Qed.
Lemma first_prop_binary v : first_prop id (p_binary i v) = if i =? id then VData <$> v else None.
Proof. destruct v; simpl; by destruct (i =? id). Qed.
Lemma first_prop_user ups : (PropUserProperty =? id) = false -> first_prop id (p_user ups) = None.
Proof. intros H. induction ups; [done|]. unfold p_user in *. cbn [map first_prop]. by rewrite H. Qed.
End lookups.
#[export] Hint Rewrite first_prop_app first_prop_byte first_prop_two first_prop_twoP first_prop_four
  first_prop_string first_prop_binary : props.

Lemma user_pairs_app ps qs : user_pairs (ps ++ qs) = user_pairs ps ++ user_pairs qs.
Proof. unfold user_pairs. apply omap_app. Qed.
Lemma user_pairs_byte i v : user_pairs (p_byte i v) = [].
Proof. by destruct v. Qed.
Lemma user_pairs_two i v : user_pairs (p_two i v) = [].
Proof. unfold p_two. by destruct (v =? 0). Qed.
Lemma user_pairs_twoP i v : user_pairs (p_twoP i v) = [].
Proof. by destruct v. Qed.
Lemma user_pairs_four i v : user_pairs (p_four i v) = [].
Proof. by destruct v. Qed.
Lemma user_pairs_string i v : user_pairs (p_string i v) = [].
Proof. unfold p_string. by destruct (list_eqb v []). Qed.
Lemma user_pairs_binary i v : user_pairs (p_binary i v) = [].
Proof. by destruct v. Qed.
Lemma user_pairs_user ups : user_pairs (p_user ups) = map (fun up => (up_Key up, up_Value up)) ups.
Proof. induction ups as [|up ups IH]; simpl; [done|]. unfold user_pairs in *. simpl. by rewrite IH. Qed.
#[export] Hint Rewrite user_pairs_app user_pairs_byte user_pairs_two user_pairs_twoP user_pairs_four
  user_pairs_string user_pairs_binary user_pairs_user : props.

(** ** Sizes *)

Lemma len_p_byte i v : len (enc_props (p_byte i v)) = match v with Some _ => 2 | None => 0 end.
Proof. by destruct v. Qed.
Lemma len_p_two i v : len (enc_props (p_two i v)) = if v =? 0 then 0 else 3.
Proof. unfold p_two. by destruct (v =? 0). Qed.
Lemma len_p_twoP i v : len (enc_props (p_twoP i v)) = match v with Some _ => 3 | None => 0 end.
Proof. by destruct v. Qed.
Lemma len_p_four i v : len (enc_props (p_four i v)) = match v with Some _ => 5 | None => 0 end.
Proof. by destruct v. Qed.
Lemma len_p_string i v : len (enc_props (p_string i v)) = if list_eqb v [] then 0 else 1 + 2 + len v.
Proof. unfold p_string. destruct (list_eqb v []); [done|]. cbn [enc_props]. unfold enc_prop. cbn [fst snd enc_pval]. slia. Qed.
Lemma len_p_binary i v : len (enc_props (p_binary i v)) = match v with Some s => 1 + 2 + len s | None => 0 end.
Proof. destruct v; [|done]. cbn [p_binary enc_props]. unfold enc_prop. cbn [fst snd enc_pval]. slia. Qed.
#[export] Hint Rewrite len_p_byte len_p_two len_p_twoP len_p_four len_p_string len_p_binary : len.

(** ** Validity *)

(** An optional value within its range. *)
Definition opt_ok (P : Z -> Prop) (v : option Z) : Prop := match v with Some x => P x | None => True end.
Definition opt_bytes (v : option (list Z)) : Prop := match v with Some s => bytes s | None => True end.

(** The user properties an encoder accepts. *)
Definition user_ok (ups : list UserProperty) : Prop :=
  Forall (fun up => (bytes (up_Key up) /\ short (up_Key up) /\ mqtt_utf8 (up_Key up) = true)
                    /\ (bytes (up_Value up) /\ short (up_Value up) /\ mqtt_utf8 (up_Value up) = true)) ups.

(** Everything [validateProps] asks of one property; [allowed] is the
    packet's mask. *)
Definition prop_ok (allowed : Z) (p : prop) : Prop := wf_prop p /\ Z.testbit allowed p.1 = true /\ value_ok p.

Lemma Forall_prop_ok allowed ps :
  Forall (prop_ok allowed) ps <->
  Forall wf_prop ps /\ Forall (fun p => Z.testbit allowed p.1 = true) ps /\ Forall value_ok ps.
Proof. unfold prop_ok. rewrite !Forall_and. done. Qed.

(** A list is acceptable when each property is and its single-occurrence
    identifiers are a sublist of distinct ones. *)
Lemma props_ok_intro t allowed ps ids :
  Forall (prop_ok allowed) ps -> single_ids t ps `sublist_of` ids -> NoDup ids -> props_ok t allowed ps.
Proof.
  rewrite Forall_prop_ok. intros (? & ? & ?) Hs Hn. unfold props_ok. repeat (split; [done|]).
  by eapply sublist_NoDup.
Qed.

Lemma single_ids_app t ps qs : single_ids t (ps ++ qs) = single_ids t ps ++ single_ids t qs.
Proof. unfold single_ids. by rewrite map_app, filter_app. Qed.

Lemma single_ids_user t ups : single_ids t (p_user ups) = [].
Proof. induction ups as [|up ups IH]; [done|]. unfold p_user. simpl map. rewrite single_ids_cons. done. Qed.

(** Each optional property contributes at most its identifier. *)
Section sublists.
Context (t i : Z).

Lemma single_ids_one v : single_ids t [(i, v)] `sublist_of` [i].
Proof. rewrite single_ids_cons. simpl. destruct (multi t i); [apply sublist_nil_l|done]. Qed.

Lemma ids_byte v : single_ids t (p_byte i v) `sublist_of` [i].
Proof. destruct v; [apply single_ids_one|apply sublist_nil_l]. Qed.
Lemma ids_two v : single_ids t (p_two i v) `sublist_of` [i].
Proof. unfold p_two. destruct (v =? 0); [apply sublist_nil_l|apply single_ids_one]. Qed.
Lemma ids_twoP v : single_ids t (p_twoP i v) `sublist_of` [i].
Proof. destruct v; [apply single_ids_one|apply sublist_nil_l]. Qed.
Lemma ids_four v : single_ids t (p_four i v) `sublist_of` [i].
Proof. destruct v; [apply single_ids_one|apply sublist_nil_l]. Qed.
Lemma ids_string v : single_ids t (p_string i v) `sublist_of` [i].
Proof. unfold p_string. destruct (list_eqb v []); [apply sublist_nil_l|apply single_ids_one]. Qed.
Lemma ids_binary v : single_ids t (p_binary i v) `sublist_of` [i].
Proof. destruct v; [apply single_ids_one|apply sublist_nil_l]. Qed.
End sublists.

Lemma ids_app t ps qs i ids :
  single_ids t ps `sublist_of` [i] -> single_ids t qs `sublist_of` ids -> single_ids t (ps ++ qs) `sublist_of` i :: ids.
Proof. intros. rewrite single_ids_app. by apply (sublist_app _ [i]). Qed.

(** User properties may stand anywhere. *)
Lemma ids_user_app t ups qs ids :
  single_ids t qs `sublist_of` ids -> single_ids t (p_user ups ++ qs) `sublist_of` ids.
Proof. by rewrite single_ids_app, single_ids_user. Qed.

Lemma ids_user t ups : single_ids t (p_user ups) `sublist_of` [].
Proof. by rewrite single_ids_user. Qed.

Create HintDb props discriminated.
#[export] Hint Resolve ids_byte ids_two ids_twoP ids_four ids_string ids_binary ids_user single_ids_one : props.

(** [accepted ids]: the list is acceptable; [ids] are its identifiers in
    order. Leaves the validity of each property. *)
Ltac accepted ids :=
  apply (props_ok_intro _ _ _ ids);
  [| repeat first [apply ids_user_app | apply ids_app; [solve [eauto with props]|]]; eauto with props
   | apply (bool_decide_unpack _); vm_compute; exact I].

Section blocks.
Context (allowed i : Z).
Hypothesis Ha : Z.testbit allowed i = true.

Lemma ok_byte v :
  one_of i byteIDs = true -> opt_ok (fun b => 0 <= b <= 1) v -> Forall (prop_ok allowed) (p_byte i v).
Proof.
  intros Hi Hv. destruct v as [b|]; [|constructor]. apply Forall_singleton. unfold prop_ok, wf_prop, value_ok.
  simpl in *. unfold is_u8. pow2. id_cases Hi; subst i; intuition (done || lia).
Qed.

Lemma ok_two v : one_of i twoIDs = true -> is_u16 v -> Forall (prop_ok allowed) (p_two i v).
Proof.
  intros Hi Hv. unfold p_two. destruct (Z.eqb_spec v 0); [constructor|]. apply Forall_singleton.
  unfold prop_ok, wf_prop, value_ok. simpl. pose proof Hi. id_cases Hi; subst i; by intuition.
Qed.

Lemma ok_twoP v :
  one_of i twoIDs = true -> opt_ok (fun x => is_u16 x /\ (one_of i [PropTopicAlias; PropReceiveMaximum] = true -> x <> 0)) v ->
  Forall (prop_ok allowed) (p_twoP i v).
Proof.
  intros Hi Hv. destruct v as [x|]; [|constructor]. apply Forall_singleton.
  unfold prop_ok, wf_prop, value_ok. simpl in *. pose proof Hi. id_cases Hi; subst i; by intuition.
Qed.

Lemma ok_four v :
  one_of i fourIDs = true -> opt_ok (fun x => is_u32 x /\ (i = PropMaximumPacketSize -> x <> 0)) v ->
  Forall (prop_ok allowed) (p_four i v).
Proof.
  intros Hi Hv. destruct v as [x|]; [|constructor]. apply Forall_singleton.
  unfold prop_ok, wf_prop, value_ok. simpl in *. pose proof Hi. id_cases Hi; subst i; by intuition.
Qed.

Lemma ok_string v :
  one_of i stringIDs = true -> bytes v -> short v -> mqtt_utf8 v = true ->
  (i = PropResponseTopic -> has_wildcard v = false) -> Forall (prop_ok allowed) (p_string i v).
Proof.
  intros Hi Hb Hs Hu Hw. unfold p_string. destruct (list_eqb v []); [constructor|]. apply Forall_singleton.
  unfold prop_ok, wf_prop, value_ok. simpl. id_cases Hi; subst i; by intuition.
Qed.

Lemma ok_binary v :
  one_of i [PropCorrelationData; PropAuthData] = true -> opt_bytes v -> short_opt v ->
  Forall (prop_ok allowed) (p_binary i v).
Proof.
  intros Hi Hb Hs. destruct v as [s|]; [|constructor]. apply Forall_singleton.
  unfold prop_ok, wf_prop, value_ok. simpl in *. id_cases Hi; subst i; by intuition.
Qed.
End blocks.

Lemma ok_user allowed ups :
  Z.testbit allowed PropUserProperty = true -> user_ok ups -> Forall (prop_ok allowed) (p_user ups).
Proof.
  intros Ha Hu. unfold p_user. rewrite Forall_map. eapply Forall_impl; [exact Hu|]. intros up H.
  unfold prop_ok, wf_prop, value_ok. cbn [fst snd]. split; [split; [by split|cbv beta in H; intuition]|]. split; [exact Ha|cbv beta in H; intuition].
Qed.

Lemma user_ok_check ups : bytes_user ups -> checkUserProps ups = Ok tt <-> user_ok ups.
Proof.
  intros Hb. rewrite checkUserProps_iff by done. unfold bytes_user, user_ok in *. rewrite !Forall_forall in *.
  split; intros H up Hup; specialize (Hb up Hup); specialize (H up Hup); tauto.
Qed.

Lemma user_ok_short ups : user_ok ups -> short_user ups.
Proof. intros H. eapply Forall_impl; [exact H|]. simpl. tauto. Qed.

(** [UserProperties] of an encoded list, as the pairs it was built from. *)
Definition from_pairs (l : list (list Z * list Z)) : list UserProperty := map (fun kv => mkUserProperty kv.1 kv.2) l.

Lemma from_pairs_user ups : from_pairs (map (fun up => (up_Key up, up_Value up)) ups) = ups.
Proof. unfold from_pairs. rewrite map_map. rewrite <- (map_id ups) at 2. apply map_ext. by intros [k v]. Qed.
