(* ===== verification/Publish.v ===== *)
(** * Publish: PUBLISH packets (wire/publish.go)

    The options and the decoded packet, the decoder, the layout and the
    encoders ([AppendPublishHeader], [EncodePublish], [MarshalPublish],
    [WritePublish]), [Publish.Opts], and the in-place update of a stored
    packet's Message Expiry Interval. *)

From S2P Require Import Prelude GoLib Errors Buffers Varint Fields PropView Utf8 Topics Validate PropLists.

(** ** Data *)

(** [Publish], without the frame its fields are views of. *)
Record Publish : Type := mkPublish {
  p_Topic : list Z;
  p_Payload : list Z;
  p_Properties : Properties;
  p_QoS : Z;
  p_Retain : bool;
  p_Dup : bool;
  p_PacketID : Z;
}.

(** [PublishOpts]. Pointers and the nilable [CorrelationData] are options;
    [Payload] and [UserProperties], whose nil and empty values no code
    tells apart, are lists. *)
Record PublishOpts : Type := mkPublishOpts {
  Topic : list Z;
  Payload : list Z;
  QoS : Z;
  Retain : bool;
  Dup : bool;
  PacketID : Z;
  PayloadFormatIndicator : option Z;
  MessageExpiryInterval : option Z;
  ContentType : list Z;
  ResponseTopic : list Z;
  CorrelationData : option (list Z);
  TopicAlias : Z;
  UserProps : list UserProperty;
}.

(** ** Decoding *)

Definition decodePublish (frame : list Z) (flags : Z) : dres Publish :=
  let buf := frame in
  let qos := Z.land (Z.shiftr flags 1) 0x03 in
  if qos =? 3 then reject (invalid "PUBLISH QoS=3")
  else
  let dup := negb (Z.land flags 0x08 =? 0) in
  if dup && (qos =? 0) then reject (invalid "PUBLISH DUP set with QoS=0")
  else
  let retain := negb (Z.land flags 0x01 =? 0) in
  if len buf <? 2 then reject (invalid "truncated topic length")
  else
  let! topicLen := Uint16 buf in
  let! buf := from buf 2 in
  if len buf <? topicLen then reject (invalid "truncated topic")
  else
  let! topic := slice buf 0 topicLen in
  let! buf := from buf topicLen in
  let! (packetID, buf) :=
    (if 0 <? qos then
       if len buf <? 2 then reject (invalid "truncated packet id")
       else let! id := Uint16 buf in let! buf := from buf 2 in Ok (id, buf)
     else Ok (0, buf)) in
  let! (propsLen, n) := on_err (fun err => (1, invalid_because "properties length" err)) (DecodeVarint buf) in
  let! buf := from buf n in
  if u32 (len buf) <? propsLen then reject (invalid "truncated properties")
  else
  let! raw := slice buf 0 propsLen in
  let props := PropertiesFromBytes raw in
  let! buf := from buf propsLen in
  let payload := buf in
  Ok (mkPublish topic payload props qos retain dup packetID).

(** [Publish.Opts] *)
Definition Opts (p : Publish) : wres PublishOpts :=
  let props := p_Properties p in
  let! pfi := Byte props PropPayloadFormat in
  let! mei := PUint32 props PropMessageExpiryInterval in
  let! ct := PString props PropContentType in
  let! rt := PString props PropResponseTopic in
  let! cd := PBinary props PropCorrelationData in
  let! ta := PUint16 props PropTopicAlias in
  let! ups := UserProperties props in
  Ok {| Topic := p_Topic p; Payload := p_Payload p; QoS := p_QoS p; Retain := p_Retain p; Dup := p_Dup p;
        PacketID := p_PacketID p; PayloadFormatIndicator := pfi; MessageExpiryInterval := mei;
        ContentType := default [] ct; ResponseTopic := default [] rt; CorrelationData := cd;
        TopicAlias := default 0 ta; UserProps := from_pairs ups |}.

(** ** Encoding *)

Definition validatePublishOpts (o : PublishOpts) : wres unit :=
  if 2 <? QoS o then fail ErrInvalidQoS
  else if (0 <? QoS o) && (PacketID o =? 0) then fail ErrPacketIDRequired
  else if Dup o && (QoS o =? 0) then failf "DUP set on a QoS 0 PUBLISH" [Sentinel ErrInvalidField]
  else if list_eqb (Topic o) [] && (TopicAlias o =? 0)
  then failf "empty topic name without a Topic Alias" [Sentinel ErrInvalidTopic]
  else
    let! _ := check (ValidTopicName (Topic o)) in
    let! _ := (if negb (list_eqb (ResponseTopic o) [])
               then map_err (fun err => Errorf "response topic: %w" [err]) (check (ValidTopicName (ResponseTopic o)))
               else Ok tt) in
    let! _ := checkBool "Payload Format Indicator" (PayloadFormatIndicator o) in
    let! _ := checkString "content type" (ContentType o) in
    let! _ := checkBinary "correlation data" (CorrelationData o) in
    checkUserProps (UserProps o).

Definition publishPropsLen (o : PublishOpts) : Z :=
  (match PayloadFormatIndicator o with Some _ => 2 | None => 0 end)
  + (match MessageExpiryInterval o with Some _ => 5 | None => 0 end)
  + (if list_eqb (ContentType o) [] then 0 else 1 + 2 + len (ContentType o))
  + (if list_eqb (ResponseTopic o) [] then 0 else 1 + 2 + len (ResponseTopic o))
  + (match CorrelationData o with Some d => 1 + 2 + len d | None => 0 end)
  + (if TopicAlias o =? 0 then 0 else 3)
  + userPropertiesLen (UserProps o).

(** [publishLayout]: the size of each part of an encoded PUBLISH. *)
Record publishLayout : Type := mkLayout {
  propsLen : Z; propsLenVBI : Z;
  varHdrSize : Z;
  remaining : Z; vbiSize : Z;
  total : Z;
}.

Definition publishLayoutOf (o : PublishOpts) : publishLayout :=
  let propsLen := publishPropsLen o in
  let propsLenVBI := VarintSize (u32 propsLen) in
  let varHdrSize := 2 + len (Topic o) + propsLenVBI + propsLen in
  let varHdrSize := if 0 <? QoS o then varHdrSize + 2 else varHdrSize in
  let remaining := varHdrSize + len (Payload o) in
  let vbiSize := VarintSize (u32 remaining) in
  let total := 1 + vbiSize + remaining in
  mkLayout propsLen propsLenVBI varHdrSize remaining vbiSize total.

Definition headerSize (l : publishLayout) : Z := 1 + vbiSize l + varHdrSize l.

(** DUP, QoS and RETAIN in the low nibble of the first byte. *)
Definition publishFlags (o : PublishOpts) : Z :=
  let f := 0 in
  let f := if Dup o then Z.lor f 0x08 else f in
  let f := Z.lor f (Z.shiftl (Z.land (QoS o) 0x03) 1) in
  if Retain o then Z.lor f 0x01 else f.

(** The variable header, written at the start of a buffer of its size. *)
Definition encodePublishVarHdr (buf : list Z) (o : PublishOpts) (propsLen : Z) : wres (list Z) :=
  let! (buf, off) := writeUTF8String buf 0 (Topic o) in
  let! (buf, off) := (if 0 <? QoS o
                      then let! buf := PutUint16 buf off (PacketID o) in Ok (buf, off + 2)
                      else Ok (buf, off)) in
  let! (buf, off) := writePropertiesPrefix buf off propsLen in
  let! (buf, off) := writeProperty1 buf off PropPayloadFormat (PayloadFormatIndicator o) in
  let! (buf, off) := writeProperty4 buf off PropMessageExpiryInterval (MessageExpiryInterval o) in
  let! (buf, off) := writePropertyString buf off PropContentType (ContentType o) in
  let! (buf, off) := writePropertyString buf off PropResponseTopic (ResponseTopic o) in
  let! (buf, off) := writePropertyBinary buf off PropCorrelationData (CorrelationData o) in
  let! (buf, off) := writeProperty2 buf off PropTopicAlias (TopicAlias o) in
  let! (buf, _) := writePropertyUserProps buf off (UserProps o) in
  Ok buf.

Definition encodeHeader (l : publishLayout) (buf : list Z) (o : PublishOpts) : wres (list Z) :=
  let! buf := set buf 0 (Z.lor (u8 (Z.shiftl PUBLISH 4)) (publishFlags o)) in
  let! buf := with_sub buf 1 (1 + vbiSize l) (fun sub =>
                let! (sub, _) := EncodeVarint sub 0 (u32 (remaining l)) in Ok sub) in
  let off := 1 + vbiSize l in
  with_sub buf off (off + varHdrSize l) (fun sub => encodePublishVarHdr sub o (propsLen l)).

Definition encode (l : publishLayout) (buf : list Z) (o : PublishOpts) : wres (list Z) :=
  let! buf := encodeHeader l buf o in
  let! (buf, _) := copy buf (headerSize l) (Payload o) in
  Ok buf.

Section encoders.
(** The pool of frame buffers, with arbitrary left-over contents. *)
Context `{BufferPool}.

(** [slices.Grow(dst, n)[:start+n]] exposes whatever the array holds. *)
Definition AppendPublishHeader (dst : list Z) (opts : PublishOpts) : wres (list Z) :=
  let! _ := validatePublishOpts opts in
  let l := publishLayoutOf opts in
  let start := len dst in
  let dst := dst ++ acquired (headerSize l) in
  let! sub := from dst start in
  let! sub := encodeHeader l sub opts in
  put dst start sub.

Definition EncodePublish (opts : PublishOpts) : wres (list Z) :=
  let! _ := validatePublishOpts opts in
  let l := publishLayoutOf opts in
  let bp := acquired (total l) in
  encode l bp opts.

Definition MarshalPublish (opts : PublishOpts) : wres (list Z) :=
  let! _ := validatePublishOpts opts in
  let l := publishLayoutOf opts in
  let out := repeat 0 (Z.to_nat (total l)) in
  encode l out opts.

(** The bytes handed to the writer: the header and, through
    [net.Buffers], the payload. *)
Definition WritePublish (opts : PublishOpts) : wres (list Z) :=
  let! hdr := AppendPublishHeader [] opts in
  if len (Payload opts) =? 0 then Ok hdr else Ok (hdr ++ Payload opts).
End encoders.

(** ** Rewriting the Message Expiry Interval of an encoded packet *)

(** The loop over the properties, from [off] to [end_]. *)
Fixpoint expiry_loop (fuel : nat) (frame : list Z) (off end_ : Z) : wres (option Z) :=
  match fuel with
  | O => Panic
  | S fuel =>
      if off <? end_ then
        let! id := idx frame off in
        let off := off + 1 in
        if id =? PropMessageExpiryInterval then
          if end_ - off <? 4 then Ok None else Ok (Some off)
        else
          let! rest := slice frame off end_ in
          match propValueSize id rest with
          | Panic => Panic
          | Err _ => Ok None
          | Ok size => expiry_loop fuel frame (off + size) end_
          end
      else Ok None
  end.

(** [None] is [ok == false]. *)
Definition messageExpiryOffset (frame : list Z) : wres (option Z) :=
  if len frame <? 2 then Ok None
  else
  let! b0 := idx frame 0 in
  if negb (Z.shiftr b0 4 =? PUBLISH) then Ok None
  else
  let qos := Z.land (Z.shiftr b0 1) 0x03 in
  let! rest := from frame 1 in
  match DecodeVarint rest with
  | Panic => Panic
  | Err _ => Ok None
  | Ok (_, n) =>
      let off := 1 + n in
      if len frame <? off + 2 then Ok None
      else
      let! rest := from frame off in
      let! tl := Uint16 rest in
      let off := off + (2 + tl) in
      let off := if 0 <? qos then off + 2 else off in
      if len frame <? off then Ok None
      else
      let! rest := from frame off in
      match DecodeVarint rest with
      | Panic => Panic
      | Err _ => Ok None
      | Ok (propsLen, n) =>
          let off := off + n in
          let end_ := off + propsLen in
          if len frame <? end_ then Ok None
          else expiry_loop (S (length frame)) frame off end_
      end
  end.

Definition WithMessageExpiry (frame : list Z) (seconds : Z) : wres (list Z) :=
  let! off := messageExpiryOffset frame in
  match off with
  | None => Ok frame
  | Some off => PutUint32 frame off seconds
  end.

(** [PublishOpts.Clone] copies every field; as values the copy is the
    original. *)

(** ** The encoding as a function *)

(** Fields within their Go types. *)
Definition publish_typed (o : PublishOpts) : Prop :=
  bytes (Topic o) /\ bytes (Payload o) /\ is_u8 (QoS o) /\ is_u16 (PacketID o)
  /\ opt_ok is_u8 (PayloadFormatIndicator o) /\ opt_ok is_u32 (MessageExpiryInterval o)
  /\ bytes (ContentType o) /\ bytes (ResponseTopic o) /\ opt_bytes (CorrelationData o)
  /\ is_u16 (TopicAlias o) /\ bytes_user (UserProps o).

(** Options MQTT v5 allows. *)
Definition publish_valid (o : PublishOpts) : Prop :=
  QoS o <= 2 /\ (0 < QoS o -> PacketID o <> 0) /\ (Dup o = true -> QoS o <> 0)
  /\ (Topic o = [] -> TopicAlias o <> 0)
  /\ short (Topic o) /\ mqtt_utf8 (Topic o) = true /\ has_wildcard (Topic o) = false
  /\ short (ResponseTopic o) /\ mqtt_utf8 (ResponseTopic o) = true /\ has_wildcard (ResponseTopic o) = false
  /\ opt_ok (fun b => b <= 1) (PayloadFormatIndicator o)
  /\ short (ContentType o) /\ mqtt_utf8 (ContentType o) = true
  /\ short_opt (CorrelationData o) /\ user_ok (UserProps o).

Definition publish_props (o : PublishOpts) : list prop :=
  p_byte PropPayloadFormat (PayloadFormatIndicator o)
  ++ p_four PropMessageExpiryInterval (MessageExpiryInterval o)
  ++ p_string PropContentType (ContentType o)
  ++ p_string PropResponseTopic (ResponseTopic o)
  ++ p_binary PropCorrelationData (CorrelationData o)
  ++ p_two PropTopicAlias (TopicAlias o)
  ++ p_user (UserProps o).

Definition publish_varhdr (o : PublishOpts) : list Z :=
  enc_str (Topic o) ++ (if 0 <? QoS o then be16 (PacketID o) else [])
  ++ enc_varint (len (enc_props (publish_props o))) ++ enc_props (publish_props o).

(** Everything after the fixed header. *)
Definition publish_body (o : PublishOpts) : list Z := publish_varhdr o ++ Payload o.

Definition publish_header (o : PublishOpts) : list Z :=
  (48 + publishFlags o) :: enc_varint (len (publish_body o)) ++ publish_varhdr o.

(** The PUBLISH packet the options describe. *)
Definition enc_publish (o : PublishOpts) : list Z := publish_header o ++ Payload o.

(** ** Validation *)

Lemma no_panic_validatePublishOpts o : no_panic (validatePublishOpts o).
Proof.
  unfold validatePublishOpts. repeat (case_match; [discriminate|]).
  repeat (apply no_panic_bind; [auto with nopanic; case_match; auto with nopanic|intros _ _]). auto with nopanic.
Qed.

Lemma validatePublishOpts_iff o :
  publish_typed o -> validatePublishOpts o = Ok tt <-> publish_valid o.
Proof.
  intros (Ht & _ & Hq & _ & _ & _ & Hc & Hr & _ & _ & Hu). unfold validatePublishOpts, publish_valid.
  rewrite !if_fail_ok by (apply fail_not_ok || apply failf_not_ok).
  rewrite !rbind_unit_ok, check_ok, ValidTopicName_iff, optional_topic_ok, checkBool_iff, checkString_iff,
    checkBinary_iff by done.
  rewrite Z.ltb_ge, !andb_false_iff, Z.ltb_ge, !Z.eqb_neq. fold (short (Topic o)).
  rewrite user_ok_check by done. unfold is_u8 in Hq.
  destruct (list_eqb_spec (Topic o) []) as [E|E]; destruct (Dup o); intuition (try congruence; try lia).
Qed.

(** ** The layout *)

Lemma publishPropsLen_spec o : publishPropsLen o = len (enc_props (publish_props o)).
Proof.
  unfold publishPropsLen, publish_props. rewrite !enc_props_app, userPropertiesLen_spec.
  autorewrite with len. lia.
Qed.

(** The packet fits the Remaining Length field. *)
Definition publish_fits (o : PublishOpts) : Prop := len (publish_body o) <= MaxVarintValue.

Lemma publish_fits_props o : publish_fits o -> len (enc_props (publish_props o)) <= MaxVarintValue.
Proof. unfold publish_fits, publish_body, publish_varhdr. slia. Qed.

Lemma publishLayoutOf_spec o :
  publish_fits o ->
  publishLayoutOf o = mkLayout (len (enc_props (publish_props o))) (VarintSize (len (enc_props (publish_props o))))
    (len (publish_varhdr o)) (len (publish_body o)) (VarintSize (len (publish_body o)))
    (1 + VarintSize (len (publish_body o)) + len (publish_body o)).
Proof.
  intros Hf. pose proof (publish_fits_props o Hf) as Hp. unfold publishLayoutOf. rewrite publishPropsLen_spec.
  pose proof (len_nonneg (enc_props (publish_props o))). rewrite u32_varint by lia.
  assert (Hv : (if 0 <? QoS o then
                  2 + len (Topic o) + VarintSize (len (enc_props (publish_props o))) + len (enc_props (publish_props o)) + 2
                else 2 + len (Topic o) + VarintSize (len (enc_props (publish_props o))) + len (enc_props (publish_props o)))
               = len (publish_varhdr o)).
  { unfold publish_varhdr. rewrite !len_app, len_enc_str, len_enc_varint by lia.
    destruct (0 <? QoS o); autorewrite with len; lia. }
  rewrite Hv. assert (Hb : len (publish_varhdr o) + len (Payload o) = len (publish_body o))
    by (unfold publish_body; slia).
  rewrite Hb, u32_varint by (unfold publish_fits in Hf; len_facts; lia). done.
Qed.

(** ** Encoding *)

(** The chain of writers of the variable header. *)
Definition publish_writer (o : PublishOpts) (n : Z) : writer := fun buf off =>
  let! (buf, off) := writeUTF8String buf off (Topic o) in
  let! (buf, off) := (if 0 <? QoS o
                      then let! buf := PutUint16 buf off (PacketID o) in Ok (buf, off + 2)
                      else Ok (buf, off)) in
  let! (buf, off) := writePropertiesPrefix buf off n in
  let! (buf, off) := writeProperty1 buf off PropPayloadFormat (PayloadFormatIndicator o) in
  let! (buf, off) := writeProperty4 buf off PropMessageExpiryInterval (MessageExpiryInterval o) in
  let! (buf, off) := writePropertyString buf off PropContentType (ContentType o) in
  let! (buf, off) := writePropertyString buf off PropResponseTopic (ResponseTopic o) in
  let! (buf, off) := writePropertyBinary buf off PropCorrelationData (CorrelationData o) in
  let! (buf, off) := writeProperty2 buf off PropTopicAlias (TopicAlias o) in
  writePropertyUserProps buf off (UserProps o).

Lemma writes_publish o :
  publish_valid o -> publish_fits o ->
  writes (publish_writer o (len (enc_props (publish_props o)))) (publish_varhdr o).
Proof.
  intros Hv Hf. pose proof (publish_fits_props o Hf).
  destruct Hv as (_ & _ & _ & _ & ? & _ & _ & ? & _ & _ & _ & ? & _ & ? & Hu). apply user_ok_short in Hu.
  unfold publish_varhdr. pose proof (len_nonneg (enc_props (publish_props o))).
  set (n := len (enc_props (publish_props o))) in *. unfold publish_writer, publish_props. rewrite !enc_props_app.
  wseq; [auto with writes|]. wseq; [apply writes_packetID|].
  wseq; [apply writes_prefix; lia|].
  repeat (wseq; [auto with writes|]). auto with writes.
Qed.

Lemma encodePublishVarHdr_spec o buf :
  publish_valid o -> publish_fits o -> len buf = len (publish_varhdr o) ->
  encodePublishVarHdr buf o (len (enc_props (publish_props o))) = Ok (publish_varhdr o).
Proof.
  intros Hv Hf Hlen. pose proof (writes_whole _ _ buf (writes_publish o Hv Hf) Hlen) as H.
  unfold publish_writer in H. unfold encodePublishVarHdr.
  repeat match type of H with
  | rbind ?m _ = _ => destruct m as [[? ?]| |]; cbn [rbind] in *; try discriminate
  end.
  rewrite H. done.
Qed.

Lemma publishFlags_range o : 0 <= QoS o <= 2 -> 0 <= publishFlags o < 16.
Proof.
  intros H. unfold publishFlags. assert (QoS o = 0 \/ QoS o = 1 \/ QoS o = 2) as [-> | [-> | ->]] by lia;
    destruct (Dup o), (Retain o); cbv; by split.
Qed.

Lemma publish_valid_qos o : publish_typed o -> publish_valid o -> 0 <= QoS o <= 2.
Proof. intros (_ & _ & Hq & _) (Hv & _). unfold is_u8 in Hq. lia. Qed.

(** [encodeHeader] fills its part of any buffer and leaves the rest. *)
Lemma encodeHeader_spec o old post :
  publish_typed o -> publish_valid o -> publish_fits o -> len old = headerSize (publishLayoutOf o) ->
  encodeHeader (publishLayoutOf o) (old ++ post) o = Ok (publish_header o ++ post).
Proof.
  intros Ht Hv Hf Hlen. rewrite publishLayoutOf_spec in * by done. unfold headerSize in Hlen. cbn [vbiSize varHdrSize] in Hlen.
  unfold encodeHeader. cbn [vbiSize varHdrSize remaining propsLen].
  pose proof (len_nonneg (publish_body o)). unfold publish_fits in Hf.
  pose proof (VarintSize_range (len (publish_body o)) ltac:(lia)).
  destruct (split_at 1 old) as (o1 & o2 & -> & H1); [len_facts; lia|].
  destruct (split_at (VarintSize (len (publish_body o))) o2) as (o2' & o3 & -> & H2); [rewrite len_app in Hlen; len_facts; lia|].
  rewrite !len_app in Hlen. rewrite <- !app_assoc. unfold set.
  rewrite put0_app by (autorewrite with len; lia). cbn [rbind].
  rewrite first_byte_add by (unfold PUBLISH; lia || by apply publishFlags_range, publish_valid_qos).
  erewrite with_sub_app; [|done|by rewrite H2| |].
  2:{ rewrite u32_varint by lia. pose proof (EncodeVarint_spec [] o2' [] (len (publish_body o)) ltac:(lia) H2) as E.
      simpl app in E. rewrite !app_nil_r in E. change (len []) with 0 in E. rewrite E. done. }
  2:{ by rewrite len_enc_varint by lia. }
  cbn [rbind]. rewrite (app_assoc [_] (enc_varint _)).
  erewrite with_sub_app; [| | |apply encodePublishVarHdr_spec; [done|exact Hf|lia]|lia].
  - unfold publish_header. change (16 * PUBLISH) with 48. cbn [app]. by rewrite <- !app_assoc.
  - rewrite len_app, len_enc_varint by lia. done.
  - rewrite len_app, len_enc_varint by lia. rewrite len_cons, len_nil. lia.
Qed.

Lemma len_publish_header o :
  publish_fits o -> len (publish_header o) = headerSize (publishLayoutOf o).
Proof.
  intros Hf. rewrite publishLayoutOf_spec by done. unfold headerSize, publish_header, publish_fits in *. cbn [vbiSize varHdrSize].
  rewrite len_cons, len_app, len_enc_varint by (len_facts; lia). lia.
Qed.

Lemma total_spec o : publish_fits o -> total (publishLayoutOf o) = headerSize (publishLayoutOf o) + len (Payload o).
Proof.
  intros Hf. rewrite publishLayoutOf_spec by done. unfold headerSize, publish_body. cbn [vbiSize varHdrSize total]. slia.
Qed.

Lemma encode_spec o buf :
  publish_typed o -> publish_valid o -> publish_fits o -> len buf = total (publishLayoutOf o) ->
  encode (publishLayoutOf o) buf o = Ok (enc_publish o).
Proof.
  intros Ht Hv Hf Hlen. rewrite total_spec in Hlen by done.
  pose proof (len_publish_header o Hf) as Hh. pose proof (len_nonneg (publish_header o)).
  destruct (split_at (headerSize (publishLayoutOf o)) buf) as (b1 & b2 & -> & H1); [len_facts; lia|].
  unfold encode. rewrite encodeHeader_spec by done. cbn [rbind].
  rewrite <- (app_nil_r b2), copy_app by (rewrite ?len_app in Hlen; lia). cbn [rbind]. by rewrite app_nil_r.
Qed.

Section encoders_spec.
Context `{BufferPool} (o : PublishOpts).
Hypothesis Ht : publish_typed o.
Hypothesis Hv : publish_valid o.
Hypothesis Hf : publish_fits o.

Let Hval : validatePublishOpts o = Ok tt.
Proof. by apply validatePublishOpts_iff. Qed.

Let Hhdr : 0 <= headerSize (publishLayoutOf o).
Proof. rewrite <- len_publish_header by done. apply len_nonneg. Qed.

Lemma AppendPublishHeader_spec dst : AppendPublishHeader dst o = Ok (dst ++ publish_header o).
Proof.
  unfold AppendPublishHeader. rewrite Hval. cbn [rbind]. rewrite from_app by done. cbn [rbind].
  rewrite <- (app_nil_r (acquired _)), encodeHeader_spec by (done || by apply acquired_len).
  cbn [rbind]. rewrite !app_nil_r, <- (app_nil_r (acquired _)), put_app; [by rewrite app_nil_r|done|].
  rewrite acquired_len, len_publish_header by done. done.
Qed.

Let Htot : 0 <= total (publishLayoutOf o).
Proof. rewrite total_spec by done. len_facts. lia. Qed.

Lemma EncodePublish_spec : EncodePublish o = Ok (enc_publish o).
Proof. unfold EncodePublish. rewrite Hval. cbn [rbind]. apply encode_spec; auto. by apply acquired_len. Qed.

Lemma MarshalPublish_spec : MarshalPublish o = Ok (enc_publish o).
Proof. unfold MarshalPublish. rewrite Hval. cbn [rbind]. apply encode_spec; auto. rewrite len_repeat. lia. Qed.

Lemma WritePublish_spec : WritePublish o = Ok (enc_publish o).
Proof.
  unfold WritePublish. rewrite AppendPublishHeader_spec. cbn [rbind app]. unfold enc_publish.
  destruct (Z.eqb_spec (len (Payload o)) 0) as [E|]; [|done]. apply len_0_nil in E as ->. by rewrite app_nil_r.
Qed.
End encoders_spec.

(** Options outside the rules are refused before anything is encoded. *)
Lemma validatePublishOpts_err o :
  publish_typed o -> ~ publish_valid o -> exists e, validatePublishOpts o = Err e.
Proof.
  intros Ht Hnv. destruct (validatePublishOpts o) as [[]|e|] eqn:E; [by apply validatePublishOpts_iff in E|by eauto|].
  exfalso. revert E. apply no_panic_validatePublishOpts.
Qed.

(** ** Decoding what was encoded *)

(** The packet a receiver sees. *)
Definition publish_of (o : PublishOpts) : Publish :=
  mkPublish (Topic o) (Payload o) (mkProperties (enc_props (publish_props o))) (QoS o) (Retain o) (Dup o)
    (if 0 <? QoS o then PacketID o else 0).

Lemma publishFlags_fields o :
  0 <= QoS o <= 2 -> (Dup o = true -> QoS o <> 0) ->
  Z.land (Z.shiftr (publishFlags o) 1) 0x03 = QoS o
  /\ negb (Z.land (publishFlags o) 0x08 =? 0) = Dup o
  /\ negb (Z.land (publishFlags o) 0x01 =? 0) = Retain o.
Proof.
  intros H _. unfold publishFlags. assert (QoS o = 0 \/ QoS o = 1 \/ QoS o = 2) as [-> | [-> | ->]] by lia;
    destruct (Dup o), (Retain o); by cbv.
Qed.

Lemma publish_props_ok o : publish_typed o -> publish_valid o -> Forall (prop_ok publishProps) (publish_props o).
Proof.
  intros (? & ? & ? & ? & Hpfi & Hmei & ? & ? & ? & ? & ?) (_ & _ & _ & _ & _ & _ & _ & ? & ? & ? & Hb & ? & ? & ? & ?).
  unfold publish_props. repeat (apply Forall_app; split).
  - apply ok_byte; [done..|]. destruct (PayloadFormatIndicator o); simpl in *; [unfold is_u8 in *; lia|done].
  - apply ok_four; [done..|]. destruct (MessageExpiryInterval o); simpl in *; [by split|done].
  - by apply ok_string.
  - by apply ok_string.
  - by apply ok_binary.
  - by apply ok_two.
  - by apply ok_user.
Qed.

Lemma publish_props_accepted o :
  publish_typed o -> publish_valid o -> props_ok PUBLISH publishProps (publish_props o).
Proof.
  intros Ht Hv. unfold publish_props.
  accepted [PropPayloadFormat; PropMessageExpiryInterval; PropContentType; PropResponseTopic;
            PropCorrelationData; PropTopicAlias].
  by apply publish_props_ok.
Qed.

Lemma publish_props_wf o : publish_typed o -> publish_valid o -> Forall wf_prop (publish_props o).
Proof. intros Ht Hv. apply (publish_props_accepted o Ht Hv). Qed.

Lemma decodePublish_enc o :
  publish_typed o -> publish_valid o -> publish_fits o ->
  decodePublish (publish_body o) (publishFlags o) = Ok (publish_of o).
Proof.
  intros Ht Hv Hf. pose proof (publish_props_wf o Ht Hv) as Hwf. apply bytes_enc_props in Hwf.
  pose proof (publish_valid_qos o Ht Hv) as Hq. pose proof (publish_fits_props o Hf) as Hp.
  destruct (publishFlags_fields o) as (E1 & E2 & E3); [done|apply Hv|].
  unfold decodePublish. rewrite E1, E2, E3. destruct Ht as (_ & Hpay & _ & Hid & _). destruct Hv as (_ & _ & Hdup & _ & Hs & _).
  rewrite (proj2 (Z.eqb_neq _ _)) by lia.
  assert ((Dup o && (QoS o =? 0)) = false) as ->.
  { destruct (Dup o); [|done]. apply Z.eqb_neq. auto. }
  assert (Hbody : publish_body o = enc_str (Topic o) ++ (if 0 <? QoS o then be16 (PacketID o) else [])
     ++ (enc_varint (len (enc_props (publish_props o))) ++ enc_props (publish_props o) ++ Payload o))
    by (unfold publish_body, publish_varhdr; by rewrite <- !app_assoc).
  rewrite Hbody. set (tail := enc_varint _ ++ _) in *.
  rewrite (proj2 (Z.ltb_ge _ _)) by slia. unfold enc_str at 1. rewrite <- !app_assoc, Uint16_be16 by eauto with go.
  cbn [rbind]. unfold enc_str. rewrite <- !app_assoc, from_app by done. cbn [rbind].
  rewrite (proj2 (Z.ltb_ge _ _)) by slia. rewrite slice0_app by done. cbn [rbind]. rewrite from_app by done. cbn [rbind].
  assert (Hpid : (if 0 <? QoS o then
       if len ((if 0 <? QoS o then be16 (PacketID o) else []) ++ tail) <? 2 then reject (invalid "truncated packet id")
       else let! id := Uint16 ((if 0 <? QoS o then be16 (PacketID o) else []) ++ tail) in
            let! buf := from ((if 0 <? QoS o then be16 (PacketID o) else []) ++ tail) 2 in Ok (id, buf)
     else Ok (0, (if 0 <? QoS o then be16 (PacketID o) else []) ++ tail)) = Ok (if 0 <? QoS o then PacketID o else 0, tail)).
  { destruct (0 <? QoS o); [|done]. rewrite (proj2 (Z.ltb_ge _ _)) by slia.
    rewrite Uint16_be16 by done. cbn [rbind]. by rewrite from_app. }
  rewrite Hpid. cbn [rbind]. clear Hpid. subst tail.
  rewrite DecodeVarint_spec by (rewrite !bytes_app; auto using len_nonneg with go).
  rewrite dec_enc_varint by (len_facts; lia). cbn [on_err rbind].
  rewrite from_app by (rewrite len_enc_varint by (len_facts; lia); done). cbn [rbind].
  rewrite u32_varint by (unfold publish_fits in Hf; rewrite Hbody in Hf; slia).
  rewrite (proj2 (Z.ltb_ge _ _)) by slia. rewrite slice0_app by done. cbn [rbind]. rewrite from_app by done. done.
Qed.

(** The options a decoded packet gives back: a QoS 0 packet has no
    identifier. *)
Definition publish_normal (o : PublishOpts) : PublishOpts :=
  {| Topic := Topic o; Payload := Payload o; QoS := QoS o; Retain := Retain o; Dup := Dup o;
     PacketID := if 0 <? QoS o then PacketID o else 0;
     PayloadFormatIndicator := PayloadFormatIndicator o; MessageExpiryInterval := MessageExpiryInterval o;
     ContentType := ContentType o; ResponseTopic := ResponseTopic o; CorrelationData := CorrelationData o;
     TopicAlias := TopicAlias o; UserProps := UserProps o |}.

Lemma Opts_publish_of o : publish_typed o -> publish_valid o -> Opts (publish_of o) = Ok (publish_normal o).
Proof.
  intros Ht Hv. pose proof (publish_props_wf o Ht Hv) as Hwf. unfold Opts, publish_of. cbn [p_Properties].
  rewrite Byte_enc, PUint32_enc, !PString_enc, ?PBinary_enc, PUint16_enc, UserProperties_enc by done.
  cbn [rbind p_Topic p_Payload p_QoS p_Retain p_Dup p_PacketID]. unfold publish_props, publish_normal.
  autorewrite with props. rewrite !first_prop_user by done. eval_ids. cbn [app]. rewrite from_pairs_user.
  f_equal. f_equal.
  - by destruct (PayloadFormatIndicator o).
  - by destruct (MessageExpiryInterval o).
  - by destruct (list_eqb_spec (ContentType o) []) as [->|].
  - by destruct (list_eqb_spec (ResponseTopic o) []) as [->|].
  - by destruct (CorrelationData o).
  - by destruct (Z.eqb_spec (TopicAlias o) 0) as [->|].
Qed.

(** ** Decoding any bytes *)

Lemma packet_id_ok (b : bool) e buf id rest :
  bytes buf ->
  (if b then if len buf <? 2 then reject e else let! id := Uint16 buf in let! buf := from buf 2 in Ok (id, buf)
   else Ok (0, buf)) = Ok (id, rest) ->
  bytes rest /\ len rest <= len buf /\ is_u16 id.
Proof.
  intros Hb. destruct b; [|intros [= <- <-]; repeat split; (done || lia)].
  destruct (Z.ltb_spec (len buf) 2); [discriminate|]. intros G.
  apply rbind_ok_inv in G as (v & Hv & G). apply rbind_ok_inv in G as (c & Hc & [= <- <-]).
  read_facts. repeat split; (done || lia).
Qed.

Lemma decodePublish_no_panic frame flags : bytes frame -> len frame < 2 ^ 32 -> no_panic (decodePublish frame flags).
Proof.
  intros Hb Hl. unfold decodePublish. np_walk.
  apply no_panic_bind; [np_walk|]. intros [id buf] Hid. apply packet_id_ok in Hid as (? & ? & _); [|done].
  np_walk; rewrite u32_small in * by (unfold is_u32; len_facts; lia); np_walk.
Qed.

(** The views a decoded packet holds. *)
Lemma decodePublish_ok frame flags p :
  bytes frame -> decodePublish frame flags = Ok p -> bytes (p_Topic p) /\ bytes (raw (p_Properties p)).
Proof.
  intros Hb. unfold decodePublish. cbv zeta. intros G. dec_inv G.
  all: match goal with H : (if _ then _ else _) = Ok _ |- _ => apply packet_id_ok in H as (? & ? & _); [|done] end.
  all: by read_facts.
Qed.

Lemma decodePublish_frame frame flags : frame_owned (decodePublish frame flags).
Proof. unfold decodePublish. frame_walk. Qed.

(** ** The Message Expiry Interval *)

Definition with_expiry (o : PublishOpts) (v : option Z) : PublishOpts :=
  {| Topic := Topic o; Payload := Payload o; QoS := QoS o; Retain := Retain o; Dup := Dup o; PacketID := PacketID o;
     PayloadFormatIndicator := PayloadFormatIndicator o; MessageExpiryInterval := v;
     ContentType := ContentType o; ResponseTopic := ResponseTopic o; CorrelationData := CorrelationData o;
     TopicAlias := TopicAlias o; UserProps := UserProps o |}.

(** The walk skips the properties in front of the interval. *)
Lemma expiry_loop_skip fuel pre ps rest post off end_ :
  Forall wf_prop ps -> Forall (fun p => p.1 <> PropMessageExpiryInterval) ps -> bytes rest ->
  (length ps < fuel)%nat -> off = len pre -> end_ = len pre + len (enc_props ps) + len rest ->
  exists fuel', (fuel <= fuel' + length ps)%nat /\
  expiry_loop fuel (pre ++ enc_props ps ++ rest ++ post) off end_ =
  expiry_loop fuel' ((pre ++ enc_props ps) ++ rest ++ post) (len (pre ++ enc_props ps)) end_.
Proof.
  intros Hwf Hne Hr Hf -> ->. revert fuel pre Hf Hne. induction Hwf as [|p ps Hp Hwf IH]; intros fuel pre Hf Hne.
  { exists fuel. simpl. rewrite app_nil_r. split; [lia|done]. }
  apply Forall_cons in Hne as [Hn Hne]. destruct fuel as [|fuel]; [simpl in Hf; lia|]. simpl length in Hf.
  destruct (IH fuel (pre ++ enc_prop p)) as (fuel' & Hle & E); [lia|done|].
  exists fuel'. split; [simpl; lia|].
  pose proof (bytes_enc_props _ Hwf) as Hb. pose proof (walk_next pre p (enc_props ps)) as [Hn1 Hn2].
  cbn [enc_props]. rewrite <- (app_assoc (enc_prop p)).
  destruct (@walk_step error pre p (enc_props ps ++ rest ++ post)) as (_ & Hidx & _). cbn [expiry_loop].
  rewrite (proj2 (Z.ltb_lt _ _)) by (unfold enc_prop; slia). rewrite Hidx. cbn [rbind]. cbn zeta.
  rewrite (proj2 (Z.eqb_neq _ _) Hn).
  replace (slice _ (len pre + 1) _) with (@Ok error _ (enc_pval p.2 ++ enc_props ps ++ rest)).
  2:{ symmetry. unfold enc_prop. replace (pre ++ (p.1 :: enc_pval p.2) ++ enc_props ps ++ rest ++ post)
        with ((pre ++ [p.1]) ++ (enc_pval p.2 ++ enc_props ps ++ rest) ++ post) by (simpl; by rewrite <- !app_assoc).
      apply slice_app; slia. }
  cbn [rbind]. rewrite propValueSize_enc by (done || rewrite bytes_app; auto). rewrite Hn2.
  replace (len pre + len (enc_prop p ++ enc_props ps) + len rest)
    with (len (pre ++ enc_prop p) + len (enc_props ps) + len rest) by slia.
  repeat rewrite <- app_assoc in E. repeat rewrite <- app_assoc. exact E.
Qed.

(** The walk over a whole section without the interval finds nothing. *)
Lemma expiry_loop_absent fuel pre ps post off end_ :
  Forall wf_prop ps -> Forall (fun p => p.1 <> PropMessageExpiryInterval) ps -> (length ps < fuel)%nat ->
  off = len pre -> end_ = len pre + len (enc_props ps) ->
  expiry_loop fuel (pre ++ enc_props ps ++ post) off end_ = Ok None.
Proof.
  intros Hwf Hne Hf Hoff Hend.
  destruct (expiry_loop_skip fuel pre ps [] post off end_) as (fuel' & Hle & E); [done|done|apply bytes_nil|done|done|slia|].
  simpl app in E. rewrite E. destruct fuel' as [|fuel']; [lia|]. simpl.
  rewrite (proj2 (Z.ltb_ge _ _)); [done|slia].
Qed.

Lemma expiry_loop_found fuel pre ps v qs post off end_ :
  Forall wf_prop ps -> Forall (fun p => p.1 <> PropMessageExpiryInterval) ps -> Forall wf_prop qs -> is_u32 v ->
  (length ps < fuel)%nat -> off = len pre ->
  end_ = len pre + len (enc_props (ps ++ (PropMessageExpiryInterval, VFour v) :: qs)) ->
  expiry_loop fuel (pre ++ enc_props (ps ++ (PropMessageExpiryInterval, VFour v) :: qs) ++ post) off end_
  = Ok (Some (len pre + len (enc_props ps) + 1)).
Proof.
  intros Hwf Hne Hq Hv Hf Hoff Hend. rewrite enc_props_app, <- app_assoc in *.
  destruct (expiry_loop_skip fuel pre ps (enc_props ((PropMessageExpiryInterval, VFour v) :: qs)) post off end_)
    as (fuel' & Hle & E); [done..| |done|done|slia|].
  { apply bytes_enc_props. constructor; [|done]. done. }
  rewrite E. destruct fuel' as [|fuel']; [lia|]. cbn [expiry_loop enc_props].
  rewrite <- (app_assoc (enc_prop _)).
  destruct (@walk_step error (pre ++ enc_props ps) (PropMessageExpiryInterval, VFour v) (enc_props qs ++ post)) as (_ & Hidx & _).
  rewrite Hend, (proj2 (Z.ltb_lt _ _)) by (cbn [enc_props]; unfold enc_prop; cbn [fst snd enc_pval]; slia).
  rewrite Hidx. cbn [rbind fst]. rewrite Z.eqb_refl.
  rewrite (proj2 (Z.ltb_ge _ _)) by (cbn [enc_props]; unfold enc_prop; cbn [fst snd enc_pval]; slia).
  do 2 f_equal. slia.
Qed.

(** The property list around the interval. *)
Definition props_before (o : PublishOpts) : list prop := p_byte PropPayloadFormat (PayloadFormatIndicator o).
Definition props_after (o : PublishOpts) : list prop :=
  p_string PropContentType (ContentType o) ++ p_string PropResponseTopic (ResponseTopic o)
  ++ p_binary PropCorrelationData (CorrelationData o) ++ p_two PropTopicAlias (TopicAlias o) ++ p_user (UserProps o).

Lemma publish_props_split o :
  publish_props o = props_before o ++ p_four PropMessageExpiryInterval (MessageExpiryInterval o) ++ props_after o.
Proof. reflexivity. Qed.

Lemma no_expiry_id ps :
  Forall wf_prop ps -> first_prop PropMessageExpiryInterval ps = None ->
  Forall (fun p => p.1 <> PropMessageExpiryInterval) ps.
Proof.
  intros _. induction ps as [|[i v] ps IH]; [constructor|]. cbn [first_prop].
  destruct (Z.eqb_spec i PropMessageExpiryInterval); [discriminate|]. auto.
Qed.

Lemma props_around_no_expiry o :
  first_prop PropMessageExpiryInterval (props_before o) = None
  /\ first_prop PropMessageExpiryInterval (props_after o) = None.
Proof.
  unfold props_before, props_after. autorewrite with props. rewrite first_prop_user by done. by eval_ids.
Qed.

(** Where the property section of an encoded packet starts. *)
Definition publish_prefix (o : PublishOpts) : list Z :=
  ((48 + publishFlags o) :: enc_varint (len (publish_body o)))
  ++ enc_str (Topic o) ++ (if 0 <? QoS o then be16 (PacketID o) else [])
  ++ enc_varint (len (enc_props (publish_props o))).

Lemma enc_publish_prefix o : enc_publish o = publish_prefix o ++ enc_props (publish_props o) ++ Payload o.
Proof.
  unfold enc_publish, publish_header, publish_varhdr, publish_prefix. cbn [app]. by rewrite <- !app_assoc.
Qed.

Lemma bytes_enc_publish o : publish_typed o -> publish_valid o -> bytes (enc_publish o).
Proof.
  intros Ht Hv. pose proof (publish_props_wf o Ht Hv) as Hwf. apply bytes_enc_props in Hwf.
  pose proof (publishFlags_range o (publish_valid_qos o Ht Hv)). destruct Ht as (? & ? & _).
  rewrite enc_publish_prefix. unfold publish_prefix. rewrite !bytes_app, bytes_cons.
  repeat split; auto using len_nonneg with go; pow2; try lia. destruct (0 <? QoS o); auto with go.
Qed.

(** The first byte: type in the high nibble, flags in the low one. *)
Lemma first_byte_nibbles t f : 0 <= f < 16 -> Z.shiftr (16 * t + f) 4 = t /\ Z.land (16 * t + f) 0x0F = f.
Proof.
  intros Hf. rewrite shiftr_div by lia. change 0x0F with (Z.ones 4). rewrite Z.land_ones by lia. change (2 ^ 4) with 16.
  dlia.
Qed.

Lemma first_byte_qos o :
  0 <= QoS o <= 2 -> Z.shiftr (48 + publishFlags o) 4 = PUBLISH /\ Z.land (Z.shiftr (48 + publishFlags o) 1) 0x03 = QoS o.
Proof.
  intros H. unfold publishFlags. assert (QoS o = 0 \/ QoS o = 1 \/ QoS o = 2) as [-> | [-> | ->]] by lia;
    destruct (Dup o), (Retain o); by cbv.
Qed.

(** [messageExpiryOffset] reaches the property section of a packet with
    these parts. *)
Lemma messageExpiryOffset_run b0 body topic pid props payload :
  let prefix := (b0 :: enc_varint body) ++ enc_str topic ++ pid ++ enc_varint (len props) in
  let frame := prefix ++ props ++ payload in
  bytes frame -> Z.shiftr b0 4 = PUBLISH -> 0 <= body <= MaxVarintValue -> short topic -> len props <= MaxVarintValue ->
  len pid = (if 0 <? Z.land (Z.shiftr b0 1) 0x03 then 2 else 0) ->
  messageExpiryOffset frame = expiry_loop (S (length frame)) frame (len prefix) (len prefix + len props).
Proof.
  intros prefix frame Hb Ht Hbody Hs Hp Hpid. pose proof (len_nonneg props) as Hp0.
  set (s3 := enc_varint (len props) ++ props ++ payload). set (s2 := be16 (len topic) ++ topic ++ pid ++ s3).
  set (s1 := enc_varint body ++ s2).
  assert (H1 : frame = [b0] ++ s1) by (subst frame prefix s1 s2 s3; unfold enc_str; cbn [app]; by rewrite <- !app_assoc).
  assert (H2 : frame = (b0 :: enc_varint body) ++ s2) by (rewrite H1; done).
  assert (H3 : frame = ((b0 :: enc_varint body) ++ enc_str topic ++ pid) ++ s3)
    by (rewrite H2; subst s2; unfold enc_str; cbn [app]; by rewrite <- !app_assoc).
  assert (HP : len prefix = len (b0 :: enc_varint body) + (2 + len topic) + len pid + VarintSize (len props))
    by (subst prefix; rewrite !len_app, len_enc_str, (len_enc_varint (len props)) by lia; lia).
  assert (HF : len frame = len prefix + len props + len payload) by (subst frame; slia).
  assert (HV : len (b0 :: enc_varint body) = 1 + VarintSize body) by (rewrite len_cons, len_enc_varint by lia; done).
  pose proof (VarintSize_range _ Hbody). pose proof (VarintSize_range _ (conj Hp0 Hp)). len_facts.
  assert (B1 : bytes s1) by (rewrite H1 in Hb; by apply bytes_app in Hb as [_ ?]).
  assert (B3 : bytes s3) by (rewrite H3 in Hb; by apply bytes_app in Hb as [_ ?]).
  clearbody frame. unfold messageExpiryOffset. rewrite (proj2 (Z.ltb_ge _ _)) by lia.
  rewrite H1 at 1. cbn [app]. rewrite idx_0. cbn [rbind]. rewrite Ht, Z.eqb_refl. cbn [negb].
  rewrite H1 at 1. rewrite from_app by done. cbn [rbind].
  rewrite DecodeVarint_spec by done. subst s1. rewrite dec_enc_varint by done. cbn zeta.
  rewrite (proj2 (Z.ltb_ge _ _)) by lia. rewrite H2 at 1. rewrite from_app by done. cbn [rbind].
  subst s2. rewrite Uint16_be16 by eauto with go. cbn [rbind].
  set (off := if 0 <? Z.land (Z.shiftr b0 1) 3 then 1 + VarintSize body + (2 + len topic) + 2 else 1 + VarintSize body + (2 + len topic)).
  assert (Hoff : off = len ((b0 :: enc_varint body) ++ enc_str topic ++ pid))
    by (subst off; rewrite !len_app, len_enc_str; case_match; lia).
  assert (Hoff2 : off + VarintSize (len props) = len prefix) by (rewrite Hoff, HP, !len_app, len_enc_str; lia).
  rewrite (proj2 (Z.ltb_ge _ off)) by lia. rewrite H3 at 1. rewrite from_app by done. cbn [rbind].
  rewrite DecodeVarint_spec by done. subst s3. rewrite dec_enc_varint by lia. cbn zeta.
  rewrite Hoff2, (proj2 (Z.ltb_ge _ _)) by lia. done.
Qed.

Lemma messageExpiryOffset_enc o :
  publish_typed o -> publish_valid o -> publish_fits o ->
  messageExpiryOffset (enc_publish o) =
  expiry_loop (S (length (enc_publish o))) (enc_publish o) (len (publish_prefix o))
    (len (publish_prefix o) + len (enc_props (publish_props o))).
Proof.
  intros Ht Hv Hf. pose proof (bytes_enc_publish o Ht Hv) as Hb. rewrite enc_publish_prefix in *.
  destruct (first_byte_qos o (publish_valid_qos o Ht Hv)) as [E1 E2].
  apply messageExpiryOffset_run; [done|done| |apply Hv|by apply publish_fits_props|].
  - unfold publish_fits in Hf. len_facts. lia.
  - rewrite E2. by destruct (0 <? QoS o).
Qed.

(** An encoded packet around the four bytes of its interval. *)
Definition expiry_before (o : PublishOpts) : list Z :=
  publish_prefix o ++ enc_props (props_before o) ++ [PropMessageExpiryInterval].
Definition expiry_after (o : PublishOpts) : list Z := enc_props (props_after o) ++ Payload o.

Lemma publish_props_some o v :
  MessageExpiryInterval o = Some v ->
  publish_props o = props_before o ++ (PropMessageExpiryInterval, VFour v) :: props_after o.
Proof. intros E. by rewrite publish_props_split, E. Qed.

Lemma enc_publish_some o v :
  MessageExpiryInterval o = Some v -> enc_publish o = expiry_before o ++ be32 v ++ expiry_after o.
Proof.
  intros E. rewrite enc_publish_prefix, (publish_props_some o v E), enc_props_app. unfold expiry_before, expiry_after.
  cbn [enc_props]. unfold enc_prop. cbn [fst snd enc_pval app]. by rewrite <- !app_assoc.
Qed.

Lemma len_props_with_expiry o v s :
  MessageExpiryInterval o = Some v ->
  len (enc_props (publish_props (with_expiry o (Some s)))) = len (enc_props (publish_props o)).
Proof.
  intros E. rewrite (publish_props_some o v E), (publish_props_some (with_expiry o (Some s)) s eq_refl), !enc_props_app.
  cbn [enc_props]. unfold enc_prop. cbn [fst snd enc_pval].
  change (props_before (with_expiry _ _)) with (props_before o). change (props_after (with_expiry _ _)) with (props_after o).
  slia.
Qed.

Lemma expiry_before_with o v s :
  MessageExpiryInterval o = Some v -> expiry_before (with_expiry o (Some s)) = expiry_before o.
Proof.
  intros E. unfold expiry_before, publish_prefix, publish_body, publish_varhdr. rewrite !len_app.
  by rewrite (len_props_with_expiry o v s E).
Qed.

(** Setting the expiry of an encoded packet gives the packet the options
    with that expiry encode to. *)
Lemma WithMessageExpiry_enc o s :
  publish_typed o -> publish_valid o -> publish_fits o ->
  WithMessageExpiry (enc_publish o) s =
  Ok (enc_publish (match MessageExpiryInterval o with Some _ => with_expiry o (Some s) | None => o end)).
Proof.
  intros Ht Hv Hf. unfold WithMessageExpiry. rewrite messageExpiryOffset_enc by done.
  pose proof (publish_props_wf o Ht Hv) as Hwf. destruct (props_around_no_expiry o) as [Nb Na].
  rewrite publish_props_split in Hwf. apply Forall_app in Hwf as [Wb Wf]. apply Forall_app in Wf as [We Wa].
  assert (Hlen : (length (publish_props o) < S (length (enc_publish o)))%nat).
  { rewrite enc_publish_prefix, !length_app. pose proof (length_enc_props (publish_props o)). lia. }
  rewrite enc_publish_prefix at 2. destruct (MessageExpiryInterval o) as [v|] eqn:Ev.
  - simpl in We. apply Forall_cons in We as [[_ [_ Hv32]] _].
    rewrite (publish_props_some o v Ev) in *. rewrite expiry_loop_found; [|done|by apply no_expiry_id|done|done| |done|done].
    2:{ rewrite length_app in Hlen. lia. }
    cbn [rbind]. rewrite (enc_publish_some o v Ev), (enc_publish_some (with_expiry o (Some s)) s eq_refl).
    rewrite (expiry_before_with o v s Ev). apply put_app; [|done]. unfold expiry_before. slia.
  - assert (Hps : publish_props o = props_before o ++ props_after o) by (by rewrite publish_props_split, Ev).
    rewrite Hps in *. rewrite expiry_loop_absent; [done| | |lia|done|done]; apply Forall_app; split; auto using no_expiry_id.
Qed.

(** On any bytes, the walk finds four bytes of the frame or nothing. *)
Definition in_frame (frame : list Z) (m : wres (option Z)) : Prop :=
  match m with
  | Ok None => True
  | Ok (Some k) => 0 <= k /\ k + 4 <= len frame
  | _ => False
  end.

Lemma expiry_loop_bounds fuel frame off end_ :
  bytes frame -> 0 <= off -> end_ <= len frame -> end_ - off < Z.of_nat fuel -> 0 < Z.of_nat fuel ->
  in_frame frame (expiry_loop fuel frame off end_).
Proof.
  intros Hb. revert off. induction fuel as [|fuel IH]; intros off Ho He Hf Hp; [lia|]. cbn [expiry_loop].
  destruct (Z.ltb_spec off end_); [|done]. ok_idx. case_match.
  { destruct (Z.ltb_spec (end_ - (off + 1)) 4); simpl; [done|lia]. }
  rewrite slice_ok by lia. cbn [rbind].
  assert (Hr : bytes (ztake (end_ - (off + 1)) (zdrop (off + 1) frame))) by auto with go.
  destruct (propValueSize x _) as [n| |] eqn:E; [|done|].
  - apply propValueSize_pos in E; [|done]. apply IH; lia.
  - by apply propValueSize_no_panic in E.
Qed.

Lemma messageExpiryOffset_bounds frame : bytes frame -> in_frame frame (messageExpiryOffset frame).
Proof.
  intros Hb. unfold messageExpiryOffset. destruct (Z.ltb_spec (len frame) 2); [done|]. ok_idx. case_match; [done|].
  rewrite from_ok by lia. cbn [rbind]. assert (B1 : bytes (zdrop 1 frame)) by auto with go.
  pose proof (DecodeVarint_no_panic _ B1). destruct (DecodeVarint (zdrop 1 frame)) as [[v n]| |] eqn:E1; [|done|done].
  destruct (DecodeVarint_ok _ _ _ B1 E1) as (_ & Hn & _). destruct (Z.ltb_spec (len frame) (1 + n + 2)); [done|].
  rewrite from_ok by lia. cbn [rbind]. assert (B2 : bytes (zdrop (1 + n) frame)) by auto with go.
  destruct (@Uint16_ok error _ B2) as (tl & Htl & Hr); [rewrite len_zdrop; lia|]. rewrite Htl. cbn [rbind]. unfold is_u16 in Hr.
  set (off := if 0 <? Z.land (Z.shiftr x 1) 3 then 1 + n + (2 + tl) + 2 else 1 + n + (2 + tl)).
  assert (Hoff : 0 <= off) by (subst off; case_match; lia). clearbody off.
  destruct (Z.ltb_spec (len frame) off); [done|]. rewrite from_ok by lia. cbn [rbind].
  assert (B3 : bytes (zdrop off frame)) by auto with go. pose proof (DecodeVarint_no_panic _ B3).
  destruct (DecodeVarint (zdrop off frame)) as [[pl m]| |] eqn:E3; [|done|done].
  destruct (DecodeVarint_ok _ _ _ B3 E3) as (Hpl & Hm & _). destruct (Z.ltb_spec (len frame) (off + m + pl)); [done|].
  apply expiry_loop_bounds; [done|lia..| |lia]. unfold len in *. lia.
Qed.

(** ** Theorems *)

(** The PUBLISH encoders agree. [EncodePublish] into a pooled frame,
    [MarshalPublish] into a fresh slice and [WritePublish] to a connection
    produce the same bytes, and [AppendPublishHeader] appends exactly the
    part in front of the payload, whatever the reused buffers held; options
    MQTT v5 does not allow are refused by all four with the same error. *)
Theorem publish_encoders_agree (P1 P2 P3 : BufferPool) dst o :
  publish_typed o -> publish_fits o ->
  (publish_valid o ->
     exists hdr, @AppendPublishHeader P1 dst o = Ok (dst ++ hdr)
       /\ @WritePublish P2 o = Ok (hdr ++ Payload o)
       /\ @EncodePublish P3 o = Ok (hdr ++ Payload o)
       /\ MarshalPublish o = Ok (hdr ++ Payload o)
       /\ len (hdr ++ Payload o) = total (publishLayoutOf o))
  /\ (~ publish_valid o ->
      exists err, @AppendPublishHeader P1 dst o = Err err /\ @WritePublish P2 o = Err err
        /\ @EncodePublish P3 o = Err err /\ MarshalPublish o = Err err).
Proof.
  intros Ht Hf. split.
  - intros Hv. exists (publish_header o). split; [by apply AppendPublishHeader_spec|].
    split; [by apply WritePublish_spec|]. split; [by apply EncodePublish_spec|]. split; [by apply MarshalPublish_spec|].
    rewrite publishLayoutOf_spec by done. cbn [total]. unfold publish_header, publish_fits, publish_body in *.
    pose proof (len_nonneg (publish_varhdr o)). pose proof (len_nonneg (Payload o)). rewrite len_app in Hf.
    cbn [app]. rewrite len_cons, !len_app, len_enc_varint by lia. lia.
  - intros Hv. destruct (validatePublishOpts_err o Ht Hv) as [err He]. exists err.
    unfold WritePublish, AppendPublishHeader, EncodePublish, MarshalPublish. rewrite He. done.
Qed.

(** Forwarding a PUBLISH. Decoding an encoded PUBLISH and reading its
    options back with [Publish.Opts] gives options that encode to the very
    same bytes: no field or property is lost or altered on the way. *)
Theorem publish_forward o :
  publish_typed o -> publish_valid o -> publish_fits o ->
  exists p o', decodePublish (publish_body o) (publishFlags o) = Ok p /\ Opts p = Ok o'
    /\ enc_publish o' = enc_publish o /\ publish_typed o' /\ publish_valid o'.
Proof.
  intros Ht Hv Hf. exists (publish_of o), (publish_normal o). split; [by apply decodePublish_enc|].
  split; [by apply Opts_publish_of|]. split; [|split].
  - unfold enc_publish, publish_header, publish_body, publish_varhdr. simpl. by destruct (0 <? QoS o).
  - destruct Ht as (? & ? & ? & ? & ?). unfold publish_typed. simpl. repeat (split; [by try case_match|]). done.
  - destruct Hv as (? & Hid & ?). unfold publish_valid. simpl. split; [done|]. split; [|done].
    intros Hq. rewrite (proj2 (Z.ltb_lt _ _)) by done. auto.
Qed.

(** Updating the Message Expiry Interval in place. On an encoded PUBLISH
    [WithMessageExpiry] gives the encoding of the same message with the new
    interval, and leaves a message without one alone; on any bytes at all it
    neither panics nor changes anything but four bytes of the frame. *)
Theorem WithMessageExpiry_exact s :
  (forall o, publish_typed o -> publish_valid o -> publish_fits o ->
     WithMessageExpiry (enc_publish o) s
     = Ok (enc_publish (match MessageExpiryInterval o with Some _ => with_expiry o (Some s) | None => o end)))
  /\ (forall frame, bytes frame ->
        WithMessageExpiry frame s = Ok frame
        \/ exists pre old post, frame = pre ++ old ++ post /\ len old = 4
             /\ WithMessageExpiry frame s = Ok (pre ++ be32 s ++ post)).
Proof.
  split; [intros; by apply WithMessageExpiry_enc|]. intros frame Hb. pose proof (messageExpiryOffset_bounds frame Hb) as Hin.
  unfold WithMessageExpiry. destruct (messageExpiryOffset frame) as [[k|]| |]; [|by left|done..].
  right. simpl in Hin. destruct (split_at k frame) as (pre & rest & -> & Hk); [lia|]. rewrite len_app in Hin.
  destruct (split_at 4 rest) as (old & post & -> & Ho); [lia|]. exists pre, old, post. split; [done|]. split; [done|].
  cbn [rbind]. apply put_app; [done|]. by rewrite Ho.
Qed.

(** A QoS 1 message with an expiry, into buffers of stale bytes. *)
Definition sample_message : PublishOpts :=
  {| Topic := [97; 47; 98]; Payload := [1; 2; 3]; QoS := 1; Retain := true; Dup := false; PacketID := 9;
     PayloadFormatIndicator := Some 1; MessageExpiryInterval := Some 30; ContentType := [116]; ResponseTopic := [];
     CorrelationData := Some []; TopicAlias := 0; UserProps := [] |}.

Lemma sample_message_ok : publish_typed sample_message /\ publish_valid sample_message /\ publish_fits sample_message.
Proof.
  assert (Ht : publish_typed sample_message) by (by repeat constructor).
  split; [done|]. split; [by apply (validatePublishOpts_iff _ Ht)|done].
Qed.

Lemma publish_encoders_agree_witness :
  exists hdr, @AppendPublishHeader stale_pool [7] sample_message = Ok ([7] ++ hdr)
    /\ MarshalPublish sample_message = Ok (hdr ++ [1; 2; 3]).
Proof.
  destruct sample_message_ok as (Ht & Hv & Hf).
  destruct (proj1 (publish_encoders_agree stale_pool stale_pool fresh_pool [7] sample_message Ht Hf) Hv)
    as (hdr & H1 & _ & _ & H2 & _).
  exists hdr. split; [exact H1|exact H2].
Defined.

Lemma publish_forward_witness :
  exists p o', decodePublish (publish_body sample_message) (publishFlags sample_message) = Ok p /\ Opts p = Ok o' /\ enc_publish o' = enc_publish sample_message.
Proof.
  destruct sample_message_ok as (Ht & Hv & Hf).
  destruct (publish_forward sample_message Ht Hv Hf) as (p & o' & H1 & H2 & H3 & _).
  exists p, o'. split; [exact H1|]. split; [exact H2|exact H3].
Defined.

Lemma WithMessageExpiry_exact_witness :
  WithMessageExpiry (enc_publish sample_message) 5 = Ok (enc_publish (with_expiry sample_message (Some 5))).
Proof.
  destruct sample_message_ok as (Ht & Hv & Hf). exact (proj1 (WithMessageExpiry_exact 5) sample_message Ht Hv Hf).
Defined.
