(* ===== verification/Frames.v ===== *)
(** * Frames: what the packet writers and decoders share

    The fixed header every [Write*] function builds in a 5-byte array, the
    optional reason code and properties that end PUBACK, PUBREC, PUBREL,
    PUBCOMP, AUTH and DISCONNECT, and the lemmas that relate both
    directions. *)

From S2P Require Import Prelude GoLib Errors Buffers Varint Fields PropView Utf8 Topics Validate PropLists.

(** ** Definitions *)

(** [var fixedHdr [5]byte; fixedHdr[0] = first; vbiN, err :=
    EncodeVarint(fixedHdr[1:], uint32(bodyLen))], and [fixedHdr[:1+vbiN]]. *)
Definition fixedHdr (first bodyLen : Z) : wres (list Z) :=
  let hdr := repeat 0 5 in
  let! hdr := set hdr 0 first in
  let! (hdr, vbiN) := EncodeVarint hdr 1 (u32 bodyLen) in
  slice hdr 0 (1 + vbiN).

(** [p, n, err := readProperties(buf); if err == nil && n != len(buf) { err = errTrailing }] *)
Definition readPropertiesEnd (buf : list Z) : wres Properties :=
  let! (p, n) := readProperties buf in
  if negb (n =? len buf) then fail errTrailing else Ok p.

(** The optional Reason Code and Properties that end a body. *)
Definition decodeReasonProps (format : string) (buf : list Z) : dres (Z * Properties) :=
  if 0 <? len buf then
    let! reason := idx buf 0 in
    let! buf := from buf 1 in
    if 0 <? len buf then
      let! p := on_err (fun err => (1, invalid_because format err)) (readPropertiesEnd buf) in
      Ok (reason, p)
    else Ok (reason, mkProperties [])
  else Ok (ReasonSuccess, mkProperties []).

(** Writing them: [if hasReason { buf[off] = rc; off++; ... }] around
    [if hasProps { off = writePropertiesPrefix(...); ... }]. *)
Definition optProps (hasProps : bool) (propsLen : Z) (w : writer) : writer := fun buf off =>
  if hasProps then let! (buf, off) := writePropertiesPrefix buf off propsLen in w buf off else Ok (buf, off).
Definition optReason (hasReason : bool) (rc : Z) (w : writer) : writer := fun buf off =>
  if hasReason then let! buf := set buf off rc in w buf (off + 1) else Ok (buf, off).

(** [buf[off] = b; off++] and [binary.BigEndian.PutUint16(buf[off:], v); off += 2] *)
Definition putByte (b : Z) : writer := fun buf off => let! buf := set buf off b in Ok (buf, off + 1).
Definition putUint16 (v : Z) : writer := fun buf off => let! buf := PutUint16 buf off v in Ok (buf, off + 2).

(** The sizes of these fields, as the writers compute them. *)
Definition reasonPropsLen (hasReason hasProps : bool) (propsLen : Z) : Z :=
  if hasReason then 1 + (if hasProps then VarintSize (u32 propsLen) + propsLen else 0) else 0.

(** ** The encodings as functions *)

(** A control packet: first byte, Remaining Length, body. *)
Definition packet (first : Z) (body : list Z) : list Z := first :: enc_varint (len body) ++ body.

Definition enc_section (ps : list prop) : list Z := enc_varint (len (enc_props ps)) ++ enc_props ps.

(** A Success reason code without properties is omitted. *)
Definition reason_tail (rc : Z) (ps : list prop) : list Z :=
  if len (enc_props ps) =? 0 then (if rc =? ReasonSuccess then [] else [rc]) else rc :: enc_section ps.

(** ** Lemmas *)

Lemma fixedHdr_spec first n : 0 <= n <= MaxVarintValue -> fixedHdr first n = Ok (first :: enc_varint n).
Proof.
  intros Hn. unfold fixedHdr, set. change (repeat 0 5) with ([0] ++ [0; 0; 0; 0]). rewrite (put0_app [0] [first] [0; 0; 0; 0]) by done. cbn [rbind].
  rewrite u32_varint by done. pose proof (VarintSize_range n Hn).
  destruct (split_at (VarintSize n) [0; 0; 0; 0]) as (z1 & z2 & E & Hl); [change (len [0; 0; 0; 0]) with 4; lia|]. rewrite E.
  pose proof (EncodeVarint_spec [first] z1 z2 n Hn Hl) as HE. change (len [first]) with 1 in HE. rewrite HE. cbn [rbind].
  change ([first] ++ enc_varint n ++ z2) with ((first :: enc_varint n) ++ z2).
  rewrite slice0_app by (rewrite len_cons, len_enc_varint by done; done). done.
Qed.

(** A body too large for the Remaining Length is refused. *)
Lemma fixedHdr_large first n : MaxVarintValue < n < 2 ^ 32 -> fixedHdr first n = fail ErrVarintTooLarge.
Proof.
  intros Hn. unfold fixedHdr, set. change (repeat 0 5) with ([0] ++ [0; 0; 0; 0]). rewrite (put0_app [0] [first] [0; 0; 0; 0]) by done. cbn [rbind].
  rewrite u32_small by (unfold is_u32, MaxVarintValue in *; lia). unfold EncodeVarint.
  rewrite (proj2 (Z.ltb_lt _ _)) by lia. done.
Qed.

Lemma len_packet first body : len body <= MaxVarintValue -> len (packet first body) = 1 + VarintSize (len body) + len body.
Proof. intros. unfold packet. rewrite len_cons, len_app, len_enc_varint by (len_facts; lia). lia. Qed.

Lemma len_enc_section ps :
  len (enc_props ps) <= MaxVarintValue -> len (enc_section ps) = VarintSize (len (enc_props ps)) + len (enc_props ps).
Proof. intros. unfold enc_section. rewrite len_app, len_enc_varint by (len_facts; lia). done. Qed.

Lemma VarintSize_nonneg v : 0 <= VarintSize v.
Proof. unfold VarintSize. repeat case_match; lia. Qed.

(** The properties prefix and section, with the writers of the properties. *)
Lemma writes_section w ps n :
  n = len (enc_props ps) -> len (enc_props ps) <= MaxVarintValue -> writes w (enc_props ps) ->
  writes (fun buf off => let! (buf, off) := writePropertiesPrefix buf off n in w buf off) (enc_section ps).
Proof.
  intros -> Hle Hw. unfold enc_section. wseq; [|exact Hw]. apply writes_prefix. len_facts. lia.
Qed.

(** One byte, then a writer. *)
Lemma writes_byte (w : writer) b bs :
  writes w bs -> writes (fun buf off => let! buf := set buf off b in w buf (off + 1)) (b :: bs).
Proof. intros H. apply (writes_put w [b] bs 1); [done|exact H]. Qed.

Lemma writes_two (w : writer) v bs :
  writes w bs -> writes (fun buf off => let! buf := PutUint16 buf off v in w buf (off + 2)) (be16 v ++ bs).
Proof. intros H. apply (writes_put w (be16 v) bs 2); [done|exact H]. Qed.

Lemma writes_putByte b : writes (putByte b) [b].
Proof. by apply writes_put_last. Qed.
Lemma writes_putUint16 v : writes (putUint16 v) (be16 v).
Proof. by apply writes_put_last. Qed.
Lemma writes_opt {A} (v : option A) (w : A -> writer) (f : A -> list Z) :
  (forall a, v = Some a -> writes (w a) (f a)) ->
  writes (fun buf off => match v with Some a => w a buf off | None => Ok (buf, off) end)
         (match v with Some a => f a | None => [] end).
Proof. intros Hw. destruct v; [by apply Hw|apply writes_nil]. Qed.
Lemma writes_if (b : bool) (w : writer) bs :
  (b = true -> writes w bs) -> writes (fun buf off => if b then w buf off else Ok (buf, off)) (if b then bs else []).
Proof. intros Hw. destruct b; [by apply Hw|apply writes_nil]. Qed.
#[export] Hint Resolve writes_putByte writes_putUint16 : writes.

Lemma readProperties_section ps post :
  Forall wf_prop ps -> bytes post -> len (enc_props ps) <= MaxVarintValue -> len post < 2 ^ 31 ->
  readProperties (enc_section ps ++ post) = Ok (mkProperties (enc_props ps), len (enc_section ps)).
Proof.
  intros Hw Hb Hl Hp. unfold enc_section. rewrite <- app_assoc, readProperties_enc by (done || by apply bytes_enc_props).
  by rewrite len_app.
Qed.

Lemma readPropertiesEnd_section ps :
  Forall wf_prop ps -> len (enc_props ps) <= MaxVarintValue ->
  readPropertiesEnd (enc_section ps) = Ok (mkProperties (enc_props ps)).
Proof.
  intros Hw Hl. unfold readPropertiesEnd. rewrite <- (app_nil_r (enc_section ps)) at 1.
  rewrite readProperties_section by (done || apply bytes_nil). cbn [rbind]. by rewrite Z.eqb_refl.
Qed.

Lemma enc_props_nil ps : len (enc_props ps) = 0 -> ps = [].
Proof. intros H. apply len_0_nil in H. by destruct ps. Qed.

Lemma decodeReasonProps_tail f rc ps :
  Forall wf_prop ps -> len (enc_props ps) <= MaxVarintValue ->
  decodeReasonProps f (reason_tail rc ps) = Ok (rc, mkProperties (enc_props ps)).
Proof.
  intros Hw Hl. unfold decodeReasonProps, reason_tail.
  destruct (Z.eqb_spec (len (enc_props ps)) 0) as [E|E].
  - apply enc_props_nil in E as ->. destruct (Z.eqb_spec rc ReasonSuccess) as [->|]; [done|].
    rewrite (proj2 (Z.ltb_lt _ _)) by slia. rewrite idx_0. cbn [rbind]. by rewrite (from_app [rc] []).
  - rewrite (proj2 (Z.ltb_lt _ _)) by slia. rewrite idx_0. cbn [rbind].
    change (rc :: enc_section ps) with ([rc] ++ enc_section ps). rewrite from_app by done. cbn [rbind].
    pose proof (len_enc_section ps Hl). pose proof (VarintSize_nonneg (len (enc_props ps))).
    rewrite (proj2 (Z.ltb_lt _ _)) by (len_facts; lia). by rewrite readPropertiesEnd_section.
Qed.

(** The trailing fields, whichever are present, are written whole and have
    the size the writers compute. *)
Lemma writes_reason_tail (w : writer) rc ps n hasReason hasProps :
  n = len (enc_props ps) -> n <= MaxVarintValue -> writes w (enc_props ps) ->
  hasProps = (0 <? n) -> hasReason = hasProps || negb (rc =? ReasonSuccess) ->
  writes (optReason hasReason rc (optProps hasProps n w)) (reason_tail rc ps)
  /\ reasonPropsLen hasReason hasProps n = len (reason_tail rc ps).
Proof.
  intros -> Hl Hw -> ->. unfold reason_tail, optReason, optProps, reasonPropsLen. pose proof (len_nonneg (enc_props ps)).
  destruct (Z.eqb_spec (len (enc_props ps)) 0) as [E|E].
  - rewrite E, Z.ltb_irrefl. cbn [orb]. destruct (rc =? ReasonSuccess); cbn [negb]; [split; [apply writes_nil|done]|].
    split; [|done]. apply (writes_byte (fun buf off => Ok (buf, off))), writes_nil.
  - rewrite (proj2 (Z.ltb_lt _ _)) by lia. cbn [orb]. split.
    + apply (writes_byte (fun buf off => let! (buf, off) := writePropertiesPrefix buf off _ in w buf off)).
      by apply writes_section.
    + rewrite len_cons, len_enc_section, u32_varint by lia. lia.
Qed.

Lemma len_reason_tail rc ps : len (enc_props ps) <= len (reason_tail rc ps).
Proof. unfold reason_tail, enc_section. destruct (Z.eqb_spec (len (enc_props ps)) 0); slia. Qed.

(** ** Any bytes *)

Lemma readPropertiesEnd_no_panic buf : bytes buf -> len buf < 2 ^ 32 -> no_panic (readPropertiesEnd buf).
Proof.
  intros. unfold readPropertiesEnd. apply no_panic_bind; [by apply readProperties_no_panic|].
  intros [p n] _. case_match; discriminate.
Qed.

Lemma readPropertiesEnd_ok buf p : bytes buf -> readPropertiesEnd buf = Ok p -> bytes (raw p).
Proof.
  intros Hb G. apply rbind_ok_inv in G as ([q n] & Hq & G). apply readProperties_ok in Hq as [_ ?]; [|done].
  case_match; [discriminate|]. by injection G as <-.
Qed.

Lemma decodeReasonProps_no_panic f buf : bytes buf -> len buf < 2 ^ 32 -> no_panic (decodeReasonProps f buf).
Proof.
  intros Hb Hl. unfold decodeReasonProps. np_walk.
  apply no_panic_bind; [apply no_panic_on_err, readPropertiesEnd_no_panic; [done|lia]|]. discriminate.
Qed.

Lemma decodeReasonProps_ok f buf rc p : bytes buf -> decodeReasonProps f buf = Ok (rc, p) -> bytes (raw p).
Proof.
  intros Hb. unfold decodeReasonProps. case_match; [|intros [= <- <-]; apply bytes_nil]. intros G.
  apply rbind_ok_inv in G as (r & Hr & G). apply rbind_ok_inv in G as (c & Hc & G).
  apply from_inv in Hc as (_ & _ & _ & Hc); [|done]. case_match; [|injection G as <- <-; apply bytes_nil].
  apply rbind_ok_inv in G as (q & Hq & G). injection G as <- <-. apply on_err_ok in Hq. by eapply readPropertiesEnd_ok.
Qed.

Lemma decodeReasonProps_frame f buf : frame_owned (decodeReasonProps f buf).
Proof. unfold decodeReasonProps. frame_walk. Qed.
#[export] Hint Resolve decodeReasonProps_frame : frame.

Ltac reason_facts :=
  repeat match goal with
  | H : decodeReasonProps _ _ = Ok _ |- _ => apply decodeReasonProps_ok in H; [|done]
  | H : readPropertiesEnd _ = Ok _ |- _ => apply readPropertiesEnd_ok in H; [|done]
  end.

(** ** Sizes of packets that may not fit *)

Lemma fixedHdr_bind_large {A} first n (k : list Z -> wres A) :
  MaxVarintValue < n < 2 ^ 32 -> (let! hdr := fixedHdr first n in k hdr) = fail ErrVarintTooLarge.
Proof. intros Hn. by rewrite fixedHdr_large. Qed.

(** The size a writer computes for a property section, exact unless the
    section alone exceeds the Remaining Length. *)
Lemma section_size ps :
  len (enc_props ps) < 2 ^ 32 ->
  let n := VarintSize (u32 (len (enc_props ps))) + len (enc_props ps) in
  0 <= n <= len (enc_section ps) /\ (n = len (enc_section ps) \/ MaxVarintValue < n).
Proof.
  intros Hl n. subst n. pose proof (len_nonneg (enc_props ps)). rewrite u32_small by (unfold is_u32; lia).
  destruct (Z.le_gt_cases (len (enc_props ps)) MaxVarintValue) as [Hle|Hgt].
  - rewrite len_enc_section by done. pose proof (VarintSize_nonneg (len (enc_props ps))). lia.
  - assert (E : VarintSize (len (enc_props ps)) = 0) by (unfold VarintSize, MaxVarintValue in *; repeat case_match; lia).
    rewrite E. unfold enc_section. slia.
Qed.

Lemma reason_size rc ps hasReason hasProps :
  len (enc_props ps) < 2 ^ 32 ->
  hasProps = (0 <? len (enc_props ps)) -> hasReason = hasProps || negb (rc =? ReasonSuccess) ->
  let n := reasonPropsLen hasReason hasProps (len (enc_props ps)) in
  0 <= n <= len (reason_tail rc ps) /\ (n = len (reason_tail rc ps) \/ MaxVarintValue < n).
Proof.
  intros Hl -> -> n. subst n. unfold reasonPropsLen, reason_tail. pose proof (len_nonneg (enc_props ps)).
  destruct (section_size ps Hl) as [Hb He]. destruct (Z.eqb_spec (len (enc_props ps)) 0) as [E|E].
  - rewrite E, Z.ltb_irrefl. cbn [orb]. destruct (rc =? ReasonSuccess); cbn [negb]; slia.
  - rewrite (proj2 (Z.ltb_lt _ _)) by lia. cbn [orb]. rewrite len_cons. lia.
Qed.
