(* ===== verification/Acks.v ===== *)
(** * Acks: packets ending in an optional reason code and properties

    PUBACK, PUBREC, PUBREL and PUBCOMP (wire/publish.go), AUTH, DISCONNECT
    and the ping packets (wire/connect.go): options, validation, writers and
    decoders, each proved to round-trip. *)

From S2P Require Import Prelude GoLib Errors Buffers Varint Fields PropView Utf8 Topics Validate PropLists Frames.

(** ** PUBACK, PUBREC, PUBREL, PUBCOMP *)

Module PubResp.

Record PubResp : Type := mkPubResp {
  PacketID : Z;
  ReasonCode : Z;
  Properties : Fields.Properties;
  pktType : Z;
}.

Record PubRespOpts : Type := mkOpts {
  o_PacketID : Z;
  o_ReasonCode : Z;
  ReasonString : list Z;
  UserProperties : list UserProperty;
}.

Definition validatePubRespOpts (t : Z) (o : PubRespOpts) : wres unit :=
  if o_PacketID o =? 0 then fail ErrPacketIDRequired
  else
    let! _ := checkReasonCode t (o_ReasonCode o) in
    let! _ := checkString "reason string" (ReasonString o) in
    checkUserProps (UserProperties o).

Definition decodePubResp (frame : list Z) (pktType flags : Z) : dres PubResp :=
  let expected := if pktType =? PUBREL then 0x02 else 0x00 in
  if negb (flags =? expected) then reject (invalid "%s reserved flags must be %#02x")
  else
  let buf := frame in
  if len buf <? 2 then reject (invalid "%s truncated packet id")
  else
  let! packetID := Uint16 buf in
  let! buf := from buf 2 in
  let! (reason, props) := decodeReasonProps "%s properties" buf in
  Ok (mkPubResp packetID reason props pktType).

Definition pubRespPropsLen (o : PubRespOpts) : Z :=
  (if list_eqb (ReasonString o) [] then 0 else 1 + 2 + len (ReasonString o)) + userPropertiesLen (UserProperties o).

Definition pubRespProps (o : PubRespOpts) : writer := fun buf off =>
  let! (buf, off) := writePropertyString buf off PropReasonString (ReasonString o) in
  writePropertyUserProps buf off (UserProperties o).

(** The body, into a buffer of its size. *)
Definition pubRespBody (o : PubRespOpts) (propsLen : Z) (hasReason hasProps : bool) : writer := fun buf off =>
  let! buf := PutUint16 buf off (o_PacketID o) in
  optReason hasReason (o_ReasonCode o) (optProps hasProps propsLen (pubRespProps o)) buf (off + 2).

Section writers.
Context `{BufferPool}.

(** The bytes handed to the connection. *)
Definition writePubResp (pktType flags : Z) (opts : PubRespOpts) : wres (list Z) :=
  let! _ := validatePubRespOpts pktType opts in
  let propsLen := pubRespPropsLen opts in
  let hasProps := 0 <? propsLen in
  let hasReason := hasProps || negb (o_ReasonCode opts =? ReasonSuccess) in
  let bodyLen := 2 + reasonPropsLen hasReason hasProps propsLen in
  let! hdr := fixedHdr (Z.lor (u8 (Z.shiftl pktType 4)) flags) bodyLen in
  let! (buf, _) := pubRespBody opts propsLen hasReason hasProps (acquired bodyLen) 0 in
  Ok (hdr ++ buf).

Definition WritePuback (opts : PubRespOpts) : wres (list Z) := writePubResp PUBACK 0x00 opts.
Definition WritePubrec (opts : PubRespOpts) : wres (list Z) := writePubResp PUBREC 0x00 opts.
Definition WritePubrel (opts : PubRespOpts) : wres (list Z) := writePubResp PUBREL 0x02 opts.
Definition WritePubcomp (opts : PubRespOpts) : wres (list Z) := writePubResp PUBCOMP 0x00 opts.
End writers.

(** The property-less acknowledgement the client appends to a batch. *)
Definition AppendPubResp (dst : list Z) (t id rc : Z) : list Z :=
  let flags := if t =? PUBREL then 0x02 else 0 in
  if rc =? ReasonSuccess
  then dst ++ [Z.lor (u8 (Z.shiftl t 4)) flags; 2; u8 (Z.shiftr id 8); u8 id]
  else dst ++ [Z.lor (u8 (Z.shiftl t 4)) flags; 3; u8 (Z.shiftr id 8); u8 id; rc].

(** ** The encoding as a function *)

Definition isPubResp (t : Z) : Prop := t = PUBACK \/ t = PUBREC \/ t = PUBREL \/ t = PUBCOMP.

Definition flagsOf (t : Z) : Z := if t =? PUBREL then 0x02 else 0x00.

Definition props (o : PubRespOpts) : list prop := p_string PropReasonString (ReasonString o) ++ p_user (UserProperties o).

Definition body (o : PubRespOpts) : list Z := be16 (o_PacketID o) ++ reason_tail (o_ReasonCode o) (props o).

Definition enc (t : Z) (o : PubRespOpts) : list Z := packet (16 * t + flagsOf t) (body o).

Definition typed (o : PubRespOpts) : Prop :=
  is_u16 (o_PacketID o) /\ is_u8 (o_ReasonCode o) /\ bytes (ReasonString o) /\ bytes_user (UserProperties o).

Definition valid (t : Z) (o : PubRespOpts) : Prop :=
  o_PacketID o <> 0 /\ In (o_ReasonCode o) (reasonCodes t)
  /\ (short (ReasonString o) /\ mqtt_utf8 (ReasonString o) = true) /\ user_ok (UserProperties o).

Definition fits (o : PubRespOpts) : Prop := len (body o) <= MaxVarintValue.

(** What the receiver sees. *)
Definition decoded (t : Z) (o : PubRespOpts) : PubResp :=
  mkPubResp (o_PacketID o) (o_ReasonCode o) (mkProperties (enc_props (props o))) t.

(** ** Lemmas *)

Lemma validatePubRespOpts_iff t o : typed o -> validatePubRespOpts t o = Ok tt <-> valid t o.
Proof.
  intros (_ & _ & Hr & Hu). unfold validatePubRespOpts, valid.
  rewrite if_fail_ok, !rbind_unit_ok, checkReasonCode_iff, checkString_iff, user_ok_check, Z.eqb_neq by
    (done || apply fail_not_ok). done.
Qed.

Lemma pubRespPropsLen_spec o : pubRespPropsLen o = len (enc_props (props o)).
Proof. unfold pubRespPropsLen, props. rewrite enc_props_app, userPropertiesLen_spec. autorewrite with len. lia. Qed.

Lemma pubresp_props_accepted t o : isPubResp t -> typed o -> valid t o -> props_ok t (allowedProps t) (props o).
Proof.
  intros Ht (_ & _ & Hr & Hu) (_ & _ & [? ?] & ?). unfold props. accepted [PropReasonString].
  apply Forall_app. split.
  - apply ok_string; try done. by destruct Ht as [-> | [-> | [-> | ->]]].
  - apply ok_user; [|done]. by destruct Ht as [-> | [-> | [-> | ->]]].
Qed.

Lemma pubresp_len_props_body o : len (enc_props (props o)) <= len (body o).
Proof. unfold body. pose proof (len_reason_tail (o_ReasonCode o) (props o)). slia. Qed.

Lemma pubresp_writes_body t o hasReason hasProps :
  valid t o -> fits o ->
  hasProps = (0 <? len (enc_props (props o))) -> hasReason = hasProps || negb (o_ReasonCode o =? ReasonSuccess) ->
  writes (pubRespBody o (len (enc_props (props o))) hasReason hasProps) (body o)
  /\ 2 + reasonPropsLen hasReason hasProps (len (enc_props (props o))) = len (body o).
Proof.
  intros (_ & _ & [Hs _] & Hu) Hf Hp Hr. unfold fits in Hf. pose proof (pubresp_len_props_body o). apply user_ok_short in Hu.
  destruct (writes_reason_tail (pubRespProps o) (o_ReasonCode o) (props o) _ hasReason hasProps eq_refl) as [Hw Hl];
    [lia| |done|done|].
  - unfold pubRespProps, props. rewrite enc_props_app. wseq; auto with writes.
  - unfold body. rewrite len_app, Hl. split; [by apply writes_two|done].
Qed.

Lemma isPubResp_range t : isPubResp t -> 0 <= t < 16 /\ 0 <= flagsOf t < 16.
Proof. unfold isPubResp. intros [-> | [-> | [-> | ->]]]; cbv; repeat split; congruence. Qed.

Lemma writePubResp_spec `{BufferPool} t o :
  isPubResp t -> typed o -> valid t o -> fits o -> writePubResp t (flagsOf t) o = Ok (enc t o).
Proof.
  intros Ht Hty Hv Hf. unfold writePubResp. rewrite (proj2 (validatePubRespOpts_iff t o Hty) Hv). cbn [rbind].
  rewrite pubRespPropsLen_spec. destruct (pubresp_writes_body t o _ _ Hv Hf eq_refl eq_refl) as [Hw ->].
  pose proof (len_nonneg (body o)). unfold fits in Hf. rewrite fixedHdr_spec by lia. cbn [rbind].
  rewrite (writes_whole _ _ _ Hw) by (by apply acquired_len). cbn [rbind].
  destruct (isPubResp_range t Ht). rewrite first_byte_add by done. done.
Qed.

Lemma decodePubResp_enc t o :
  isPubResp t -> typed o -> valid t o -> fits o -> decodePubResp (body o) t (flagsOf t) = Ok (decoded t o).
Proof.
  intros Ht Hty Hv Hf. unfold decodePubResp. fold (flagsOf t). rewrite Z.eqb_refl. cbn [negb].
  pose proof (pubresp_props_accepted t o Ht Hty Hv) as [Hw _]. pose proof (pubresp_len_props_body o). unfold fits in Hf.
  destruct Hty as (Hid & _). unfold body. rewrite (proj2 (Z.ltb_ge _ _)) by slia. rewrite Uint16_be16 by done. cbn [rbind].
  rewrite from_app by done. cbn [rbind]. rewrite decodeReasonProps_tail by (done || lia). done.
Qed.

Lemma decodePubResp_no_panic frame t flags : bytes frame -> len frame < 2 ^ 32 -> no_panic (decodePubResp frame t flags).
Proof.
  intros Hb Hl. unfold decodePubResp. np_walk. apply no_panic_bind; [apply decodeReasonProps_no_panic; [done|lia]|].
  intros [? ?] _. discriminate.
Qed.

Lemma decodePubResp_ok frame t flags p : bytes frame -> decodePubResp frame t flags = Ok p -> bytes (raw (Properties p)) /\ pktType p = t.
Proof.
  intros Hb. unfold decodePubResp. cbv zeta. intros G. dec_inv G. by reason_facts.
Qed.

Lemma decodePubResp_frame frame t flags : frame_owned (decodePubResp frame t flags).
Proof. unfold decodePubResp. frame_walk. Qed.

(** [AppendPubResp] is the general encoder without properties. *)
Lemma AppendPubResp_spec dst t id rc :
  isPubResp t -> AppendPubResp dst t id rc = dst ++ enc t (mkOpts id rc [] []).
Proof.
  intros Ht. destruct (isPubResp_range t Ht). unfold AppendPubResp. fold (flagsOf t). unfold enc, packet, body, reason_tail.
  change (if t =? PUBREL then 2 else 0) with (flagsOf t). rewrite first_byte_add by done. simpl len.
  change (len (enc_props (props (mkOpts id rc [] [])))) with 0. rewrite Z.eqb_refl. cbn [o_ReasonCode o_PacketID].
  destruct (rc =? ReasonSuccess); done.
Qed.
End PubResp.

(** ** AUTH *)

Module Auth.

Record Auth : Type := mkAuth { ReasonCode : Z; Properties : Fields.Properties }.

Record AuthOpts : Type := mkOpts {
  o_ReasonCode : Z;
  AuthenticationMethod : list Z;
  AuthenticationData : option (list Z);
  ReasonString : list Z;
  UserProperties : list UserProperty;
}.

Definition validateAuthOpts (o : AuthOpts) : wres unit :=
  let! _ := checkReasonCode AUTH (o_ReasonCode o) in
  let! _ := checkString "authentication method" (AuthenticationMethod o) in
  let! _ := checkBinary "authentication data" (AuthenticationData o) in
  let! _ := checkString "reason string" (ReasonString o) in
  checkUserProps (UserProperties o).

Definition authPropsLen (o : AuthOpts) : Z :=
  (if list_eqb (AuthenticationMethod o) [] then 0 else 1 + 2 + len (AuthenticationMethod o))
  + (match AuthenticationData o with Some d => 1 + 2 + len d | None => 0 end)
  + (if list_eqb (ReasonString o) [] then 0 else 1 + 2 + len (ReasonString o))
  + userPropertiesLen (UserProperties o).

Definition authProps (o : AuthOpts) : writer := fun buf off =>
  let! (buf, off) := writePropertyString buf off PropAuthMethod (AuthenticationMethod o) in
  let! (buf, off) := writePropertyBinary buf off PropAuthData (AuthenticationData o) in
  let! (buf, off) := writePropertyString buf off PropReasonString (ReasonString o) in
  writePropertyUserProps buf off (UserProperties o).

(** The bytes handed to the connection; an empty body is not buffered. *)
Definition WriteAuth `{BufferPool} (opts : AuthOpts) : wres (list Z) :=
  let! _ := validateAuthOpts opts in
  let propsLen := authPropsLen opts in
  let hasProps := 0 <? propsLen in
  let hasReason := hasProps || negb (o_ReasonCode opts =? ReasonSuccess) in
  let bodyLen := reasonPropsLen hasReason hasProps propsLen in
  let! hdr := fixedHdr (u8 (Z.shiftl AUTH 4)) bodyLen in
  if bodyLen =? 0 then Ok hdr
  else
    let! buf := set (acquired bodyLen) 0 (o_ReasonCode opts) in
    let! (buf, _) := optProps hasProps propsLen (authProps opts) buf 1 in
    Ok (hdr ++ buf).

Definition decodeAuth (frame : list Z) (flags : Z) : dres Auth :=
  if negb (flags =? 0x00) then reject (invalid "AUTH reserved flags must be 0")
  else
    let! (reason, props) := decodeReasonProps "AUTH properties" frame in
    Ok (mkAuth reason props).

(** The encoding as a function. *)

Definition props (o : AuthOpts) : list prop :=
  p_string PropAuthMethod (AuthenticationMethod o)
  ++ p_binary PropAuthData (AuthenticationData o)
  ++ p_string PropReasonString (ReasonString o)
  ++ p_user (UserProperties o).

Definition body (o : AuthOpts) : list Z := reason_tail (o_ReasonCode o) (props o).
Definition enc (o : AuthOpts) : list Z := packet (16 * AUTH) (body o).

Definition typed (o : AuthOpts) : Prop :=
  is_u8 (o_ReasonCode o)
  /\ bytes (AuthenticationMethod o)
  /\ opt_bytes (AuthenticationData o)
  /\ bytes (ReasonString o)
  /\ bytes_user (UserProperties o).

Definition valid (o : AuthOpts) : Prop :=
  In (o_ReasonCode o) (reasonCodes AUTH)
  /\ (short (AuthenticationMethod o) /\ mqtt_utf8 (AuthenticationMethod o) = true)
  /\ short_opt (AuthenticationData o)
  /\ (short (ReasonString o) /\ mqtt_utf8 (ReasonString o) = true)
  /\ user_ok (UserProperties o).

Definition fits (o : AuthOpts) : Prop := len (body o) <= MaxVarintValue.

Definition decoded (o : AuthOpts) : Auth := mkAuth (o_ReasonCode o) (mkProperties (enc_props (props o))).

Lemma validateAuthOpts_iff o : typed o -> validateAuthOpts o = Ok tt <-> valid o.
Proof.
  unfold typed, validateAuthOpts, valid. intros H. rewrite !rbind_unit_ok, checkReasonCode_iff, !checkString_iff,
    ?checkBinary_iff, user_ok_check by tauto. tauto.
Qed.

Lemma auth_propsLen_spec o : authPropsLen o = len (enc_props (props o)).
Proof. unfold authPropsLen, props. rewrite !enc_props_app, userPropertiesLen_spec. autorewrite with len. lia. Qed.

Lemma auth_props_accepted o : typed o -> valid o -> props_ok AUTH (allowedProps AUTH) (props o).
Proof.
  unfold typed, valid. intros Ht Hv. unfold props. accepted [PropAuthMethod; PropAuthData; PropReasonString].
  repeat (apply Forall_app; split).
  - by apply ok_string; intuition.
  - by apply ok_binary; intuition.
  - by apply ok_string; intuition.
  - apply ok_user; [done|tauto].
Qed.

Lemma auth_writes_props o : valid o -> writes (authProps o) (enc_props (props o)).
Proof.
  unfold valid. intros Hv. assert (short_user (UserProperties o)) by (apply user_ok_short; tauto).
  assert (short (AuthenticationMethod o)) by tauto.
  assert (short_opt (AuthenticationData o)) by tauto.
  assert (short (ReasonString o)) by tauto.
  unfold authProps, props. rewrite !enc_props_app.
  repeat (wseq; [auto with writes|]). auto with writes.
Qed.

Lemma WriteAuth_spec `{BufferPool} o : typed o -> valid o -> fits o -> WriteAuth o = Ok (enc o).
Proof.
  intros Ht Hv Hf. unfold WriteAuth. rewrite (proj2 (validateAuthOpts_iff o Ht) Hv). cbn [rbind]. rewrite auth_propsLen_spec.
  pose proof (len_reason_tail (o_ReasonCode o) (props o)). fold (body o) in *. unfold fits in Hf.
  destruct (writes_reason_tail (authProps o) (o_ReasonCode o) (props o) _ _ _ eq_refl ltac:(lia) (auth_writes_props o Hv)
              eq_refl eq_refl) as [Hw Hl].
  fold (body o) in *. change ReasonSuccess with ReasonSuccess. rewrite Hl. pose proof (len_nonneg (body o)).
  rewrite fixedHdr_spec by lia. cbn [rbind].
  unfold enc, packet. destruct (Z.eqb_spec (len (body o)) 0) as [E|E].
  { rewrite (len_0_nil _ E). done. }
  assert (Hr : ((0 <? len (enc_props (props o))) || negb (o_ReasonCode o =? ReasonSuccess)) = true).
  { unfold reasonPropsLen in Hl. destruct (_ || _); [done|lia]. }
  rewrite Hr in *. apply (writes_whole _ _ (acquired (len (body o)))) in Hw; [|by apply acquired_len].
  unfold optReason in Hw. apply rbind_ok_inv in Hw as (b & Hb & Hw). rewrite Hb. cbn [rbind].
  change (0 + 1) with 1 in Hw. rewrite Hw. done.
Qed.

Lemma decodeAuth_enc o : typed o -> valid o -> fits o -> decodeAuth (body o) 0 = Ok (decoded o).
Proof.
  intros Ht Hv Hf. unfold decodeAuth. cbn [Z.eqb negb]. pose proof (auth_props_accepted o Ht Hv) as [Hw _].
  pose proof (len_reason_tail (o_ReasonCode o) (props o)). unfold fits, body in *.
  rewrite decodeReasonProps_tail by (done || lia). done.
Qed.

Lemma decodeAuth_no_panic frame flags : bytes frame -> len frame < 2 ^ 32 -> no_panic (decodeAuth frame flags).
Proof.
  intros Hb Hl. unfold decodeAuth. np_walk. apply no_panic_bind; [by apply decodeReasonProps_no_panic|].
  intros [? ?] _. discriminate.
Qed.

Lemma decodeAuth_ok frame flags p : bytes frame -> decodeAuth frame flags = Ok p -> bytes (raw (Properties p)).
Proof. intros Hb. unfold decodeAuth. intros G. dec_inv G. by reason_facts. Qed.

Lemma decodeAuth_frame frame flags : frame_owned (decodeAuth frame flags).
Proof. unfold decodeAuth. frame_walk. Qed.
End Auth.

(** ** DISCONNECT *)

Module Disconnect.

Record Disconnect : Type := mkDisconnect { ReasonCode : Z; Properties : Fields.Properties }.

Record DisconnectOpts : Type := mkOpts {
  o_ReasonCode : Z;
  SessionExpiryInterval : option Z;
  ReasonString : list Z;
  ServerReference : list Z;
  UserProperties : list UserProperty;
}.

Definition validateDisconnectOpts (o : DisconnectOpts) : wres unit :=
  let! _ := checkReasonCode DISCONNECT (o_ReasonCode o) in
  let! _ := checkString "reason string" (ReasonString o) in
  let! _ := checkString "server reference" (ServerReference o) in
  checkUserProps (UserProperties o).

Definition disconnectPropsLen (o : DisconnectOpts) : Z :=
  (match SessionExpiryInterval o with Some _ => 5 | None => 0 end)
  + (if list_eqb (ReasonString o) [] then 0 else 1 + 2 + len (ReasonString o))
  + (if list_eqb (ServerReference o) [] then 0 else 1 + 2 + len (ServerReference o))
  + userPropertiesLen (UserProperties o).

Definition disconnectProps (o : DisconnectOpts) : writer := fun buf off =>
  let! (buf, off) := writeProperty4 buf off PropSessionExpiryInterval (SessionExpiryInterval o) in
  let! (buf, off) := writePropertyString buf off PropReasonString (ReasonString o) in
  let! (buf, off) := writePropertyString buf off PropServerReference (ServerReference o) in
  writePropertyUserProps buf off (UserProperties o).

(** The bytes handed to the connection; an empty body is not buffered. *)
Definition WriteDisconnect `{BufferPool} (opts : DisconnectOpts) : wres (list Z) :=
  let! _ := validateDisconnectOpts opts in
  let propsLen := disconnectPropsLen opts in
  let hasProps := 0 <? propsLen in
  let hasReason := hasProps || negb (o_ReasonCode opts =? ReasonNormalDisconnection) in
  let bodyLen := reasonPropsLen hasReason hasProps propsLen in
  let! hdr := fixedHdr (u8 (Z.shiftl DISCONNECT 4)) bodyLen in
  if bodyLen =? 0 then Ok hdr
  else
    let! buf := set (acquired bodyLen) 0 (o_ReasonCode opts) in
    let! (buf, _) := optProps hasProps propsLen (disconnectProps opts) buf 1 in
    Ok (hdr ++ buf).

Definition decodeDisconnect (frame : list Z) (flags : Z) : dres Disconnect :=
  if negb (flags =? 0x00) then reject (invalid "DISCONNECT reserved flags must be 0")
  else
    let! (reason, props) := decodeReasonProps "DISCONNECT properties" frame in
    Ok (mkDisconnect reason props).

(** The encoding as a function. *)

Definition props (o : DisconnectOpts) : list prop :=
  p_four PropSessionExpiryInterval (SessionExpiryInterval o)
  ++ p_string PropReasonString (ReasonString o)
  ++ p_string PropServerReference (ServerReference o)
  ++ p_user (UserProperties o).

Definition body (o : DisconnectOpts) : list Z := reason_tail (o_ReasonCode o) (props o).
Definition enc (o : DisconnectOpts) : list Z := packet (16 * DISCONNECT) (body o).

Definition typed (o : DisconnectOpts) : Prop :=
  is_u8 (o_ReasonCode o)
  /\ opt_ok is_u32 (SessionExpiryInterval o)
  /\ bytes (ReasonString o)
  /\ bytes (ServerReference o)
  /\ bytes_user (UserProperties o).

Definition valid (o : DisconnectOpts) : Prop :=
  In (o_ReasonCode o) (reasonCodes DISCONNECT)
  /\ (short (ReasonString o) /\ mqtt_utf8 (ReasonString o) = true)
  /\ (short (ServerReference o) /\ mqtt_utf8 (ServerReference o) = true)
  /\ user_ok (UserProperties o).

Definition fits (o : DisconnectOpts) : Prop := len (body o) <= MaxVarintValue.

Definition decoded (o : DisconnectOpts) : Disconnect := mkDisconnect (o_ReasonCode o) (mkProperties (enc_props (props o))).

Lemma validateDisconnectOpts_iff o : typed o -> validateDisconnectOpts o = Ok tt <-> valid o.
Proof.
  unfold typed, validateDisconnectOpts, valid. intros H. rewrite !rbind_unit_ok, checkReasonCode_iff, !checkString_iff,
    ?checkBinary_iff, user_ok_check by tauto. tauto.
Qed.

Lemma disconnect_propsLen_spec o : disconnectPropsLen o = len (enc_props (props o)).
Proof. unfold disconnectPropsLen, props. rewrite !enc_props_app, userPropertiesLen_spec. autorewrite with len. lia. Qed.

Lemma disconnect_props_accepted o : typed o -> valid o -> props_ok DISCONNECT (allowedProps DISCONNECT) (props o).
Proof.
  unfold typed, valid. intros Ht Hv. unfold props. accepted [PropSessionExpiryInterval; PropReasonString; PropServerReference].
  repeat (apply Forall_app; split).
  - apply ok_four; [done..|]. destruct (SessionExpiryInterval o); simpl in *; [split; [tauto|done]|done].
  - by apply ok_string; intuition.
  - by apply ok_string; intuition.
  - apply ok_user; [done|tauto].
Qed.

Lemma disconnect_writes_props o : valid o -> writes (disconnectProps o) (enc_props (props o)).
Proof.
  unfold valid. intros Hv. assert (short_user (UserProperties o)) by (apply user_ok_short; tauto).
  assert (short (ReasonString o)) by tauto.
  assert (short (ServerReference o)) by tauto.
  unfold disconnectProps, props. rewrite !enc_props_app.
  repeat (wseq; [auto with writes|]). auto with writes.
Qed.

Lemma WriteDisconnect_spec `{BufferPool} o : typed o -> valid o -> fits o -> WriteDisconnect o = Ok (enc o).
Proof.
  intros Ht Hv Hf. unfold WriteDisconnect. rewrite (proj2 (validateDisconnectOpts_iff o Ht) Hv). cbn [rbind]. rewrite disconnect_propsLen_spec.
  pose proof (len_reason_tail (o_ReasonCode o) (props o)). fold (body o) in *. unfold fits in Hf.
  destruct (writes_reason_tail (disconnectProps o) (o_ReasonCode o) (props o) _ _ _ eq_refl ltac:(lia) (disconnect_writes_props o Hv)
              eq_refl eq_refl) as [Hw Hl].
  fold (body o) in *. change ReasonNormalDisconnection with ReasonSuccess. rewrite Hl. pose proof (len_nonneg (body o)).
  rewrite fixedHdr_spec by lia. cbn [rbind].
  unfold enc, packet. destruct (Z.eqb_spec (len (body o)) 0) as [E|E].
  { rewrite (len_0_nil _ E). done. }
  assert (Hr : ((0 <? len (enc_props (props o))) || negb (o_ReasonCode o =? ReasonSuccess)) = true).
  { unfold reasonPropsLen in Hl. destruct (_ || _); [done|lia]. }
  rewrite Hr in *. apply (writes_whole _ _ (acquired (len (body o)))) in Hw; [|by apply acquired_len].
  unfold optReason in Hw. apply rbind_ok_inv in Hw as (b & Hb & Hw). rewrite Hb. cbn [rbind].
  change (0 + 1) with 1 in Hw. rewrite Hw. done.
Qed.

Lemma decodeDisconnect_enc o : typed o -> valid o -> fits o -> decodeDisconnect (body o) 0 = Ok (decoded o).
Proof.
  intros Ht Hv Hf. unfold decodeDisconnect. cbn [Z.eqb negb]. pose proof (disconnect_props_accepted o Ht Hv) as [Hw _].
  pose proof (len_reason_tail (o_ReasonCode o) (props o)). unfold fits, body in *.
  rewrite decodeReasonProps_tail by (done || lia). done.
Qed.

Lemma decodeDisconnect_no_panic frame flags : bytes frame -> len frame < 2 ^ 32 -> no_panic (decodeDisconnect frame flags).
Proof.
  intros Hb Hl. unfold decodeDisconnect. np_walk. apply no_panic_bind; [by apply decodeReasonProps_no_panic|].
  intros [? ?] _. discriminate.
Qed.

Lemma decodeDisconnect_ok frame flags p : bytes frame -> decodeDisconnect frame flags = Ok p -> bytes (raw (Properties p)).
Proof. intros Hb. unfold decodeDisconnect. intros G. dec_inv G. by reason_facts. Qed.

Lemma decodeDisconnect_frame frame flags : frame_owned (decodeDisconnect frame flags).
Proof. unfold decodeDisconnect. frame_walk. Qed.
End Disconnect.

(** ** PINGREQ and PINGRESP *)

Module Ping.
(** The decoders hand the empty frame back and return a shared value. *)
Definition decodePingreq (frame : list Z) (flags : Z) : dres unit := Ok tt.
Definition decodePingresp (frame : list Z) (flags : Z) : dres unit := Ok tt.

Definition WritePingreq : list Z := [u8 (Z.shiftl PINGREQ 4); 0x00].
Definition WritePingresp : list Z := [u8 (Z.shiftl PINGRESP 4); 0x00].

Lemma WritePing_spec : WritePingreq = packet (16 * PINGREQ) [] /\ WritePingresp = packet (16 * PINGRESP) [].
Proof. done. Qed.
End Ping.

(** ** Theorems *)

(** [AppendPubResp] is the short form of the general encoder. For every
    acknowledgement type, packet identifier and reason code the type allows,
    it appends exactly the bytes [writePubResp] sends for options without a
    reason string or user properties, whatever the pooled buffer held. *)
Theorem AppendPubResp_exact `{BufferPool} dst t id rc :
  PubResp.isPubResp t -> is_u16 id -> id <> 0 -> In rc (reasonCodes t) ->
  exists bs, PubResp.writePubResp t (PubResp.flagsOf t) (PubResp.mkOpts id rc [] []) = Ok bs
    /\ PubResp.AppendPubResp dst t id rc = dst ++ bs.
Proof.
  intros Ht Hid Hnz Hrc. exists (PubResp.enc t (PubResp.mkOpts id rc [] [])).
  split; [|by apply PubResp.AppendPubResp_spec]. apply PubResp.writePubResp_spec; [done| | |].
  - split; [done|]. split; [|split; [apply bytes_nil|constructor]].
    assert (Hall : Forall is_u8 (reasonCodes t)).
    { destruct Ht as [-> | [-> | [-> | ->]]]; by repeat constructor. }
    rewrite Forall_forall in Hall. apply Hall. by apply list_elem_of_In.
  - split; [done|]. split; [done|]. split; [by split|constructor].
  - unfold PubResp.fits, PubResp.body, reason_tail. simpl. case_match; unfold MaxVarintValue; slia.
Qed.

(** PUBREL for packet 258 with reason 0x92. *)
Lemma AppendPubResp_exact_witness :
  exists bs, @PubResp.writePubResp stale_pool PUBREL 2 (PubResp.mkOpts 258 0x92 [] []) = Ok bs
    /\ PubResp.AppendPubResp [7] PUBREL 258 0x92 = [7] ++ bs.
Proof.
  apply (@AppendPubResp_exact stale_pool [7] PUBREL 258 0x92); [by right; right; left|by split|done|].
  vm_compute. auto.
Defined.
