(* ===== verification/Connect.v ===== *)
(** * Connect: CONNECT and CONNACK packets (wire/connect.go)

    The will message, connect flags, property sections and payload of
    CONNECT, and CONNACK with its seventeen properties: options, validation,
    writers and decoders. *)

From S2P Require Import Prelude GoLib Errors Buffers Varint Fields PropView Utf8 Topics Validate PropLists Frames.

(** ** CONNECT *)

Module Connect.

Definition ProtocolName : list Z := str "MQTT".
Definition ProtocolVersion : Z := 5.

Record Will : Type := mkWill {
  w_Topic : list Z;
  w_Payload : list Z;
  w_QoS : Z;
  w_Retain : bool;
  w_Properties : Fields.Properties;
}.

(** [Connect], without the frame its fields are views of. *)
Record Connect : Type := mkConnect {
  c_ProtocolName : list Z;
  c_ProtocolVersion : Z;
  c_CleanStart : bool;
  c_KeepAlive : Z;
  c_Properties : Fields.Properties;
  c_ClientID : list Z;
  c_Username : list Z;
  c_Password : option (list Z);
  c_Will : option Will;
}.

Record WillOpts : Type := mkWillOpts {
  Topic : list Z;
  Payload : list Z;
  QoS : Z;
  Retain : bool;
  WillDelayInterval : option Z;
  PayloadFormatIndicator : option Z;
  MessageExpiryInterval : option Z;
  ContentType : list Z;
  ResponseTopic : list Z;
  CorrelationData : option (list Z);
  w_UserProperties : list UserProperty;
}.

Record ConnectOpts : Type := mkConnectOpts {
  ClientID : list Z;
  CleanStart : bool;
  KeepAlive : Z;
  Username : list Z;
  Password : option (list Z);
  WillOf : option WillOpts;
  SessionExpiryInterval : option Z;
  ReceiveMaximum : option Z;
  MaximumPacketSize : option Z;
  TopicAliasMaximum : Z;
  RequestResponseInformation : option Z;
  RequestProblemInformation : option Z;
  UserProperties : list UserProperty;
  AuthenticationMethod : list Z;
  AuthenticationData : option (list Z);
}.

Definition validateWillOpts (w : WillOpts) : wres unit :=
  if list_eqb (Topic w) [] then failf "empty will topic" [Sentinel ErrInvalidTopic]
  else
    let! _ := map_err (fun err => Errorf "will topic: %w" [err]) (check (ValidTopicName (Topic w))) in
    if 2 <? QoS w then fail ErrInvalidQoS
    else
      let! _ := (if negb (list_eqb (ResponseTopic w) [])
                 then map_err (fun err => Errorf "will response topic: %w" [err]) (check (ValidTopicName (ResponseTopic w)))
                 else Ok tt) in
      let! _ := checkBool "will Payload Format Indicator" (PayloadFormatIndicator w) in
      let! _ := checkString "will content type" (ContentType w) in
      let! _ := checkBinary "will payload" (Some (Payload w)) in
      let! _ := checkBinary "will correlation data" (CorrelationData w) in
      checkUserProps (w_UserProperties w).

(** [p != nil && *p == 0] *)
Definition is_zero (p : option Z) : bool := match p with Some v => v =? 0 | None => false end.
Definition not_nil {A} (p : option A) : bool := match p with Some _ => true | None => false end.

Definition validateConnectOpts (o : ConnectOpts) : wres unit :=
  let! _ := checkString "client identifier" (ClientID o) in
  let! _ := checkString "user name" (Username o) in
  let! _ := checkBinary "password" (Password o) in
  let! _ := (match WillOf o with Some w => validateWillOpts w | None => Ok tt end) in
  if is_zero (ReceiveMaximum o) then failf "Receive Maximum 0" [Sentinel ErrInvalidField]
  else if is_zero (MaximumPacketSize o) then failf "Maximum Packet Size 0" [Sentinel ErrInvalidField]
  else
    let! _ := checkBool "Request Response Information" (RequestResponseInformation o) in
    let! _ := checkBool "Request Problem Information" (RequestProblemInformation o) in
    let! _ := checkString "authentication method" (AuthenticationMethod o) in
    if not_nil (AuthenticationData o) && list_eqb (AuthenticationMethod o) []
    then failf "authentication data without an authentication method" [Sentinel ErrInvalidField]
    else
      let! _ := checkBinary "authentication data" (AuthenticationData o) in
      checkUserProps (UserProperties o).

Definition encodeConnectFlags (o : ConnectOpts) : Z :=
  let f := 0 in
  let f := if CleanStart o then Z.lor f 0x02 else f in
  let f := match WillOf o with
           | Some w =>
               let f := Z.lor f 0x04 in
               let f := Z.lor f (u8 (Z.shiftl (Z.land (QoS w) 0x03) 3)) in
               if Retain w then Z.lor f 0x20 else f
           | None => f
           end in
  let f := if not_nil (Password o) then Z.lor f 0x40 else f in
  if negb (list_eqb (Username o) []) then Z.lor f 0x80 else f.

Definition connectPropsLen (o : ConnectOpts) : Z :=
  (match SessionExpiryInterval o with Some _ => 5 | None => 0 end)
  + (match ReceiveMaximum o with Some _ => 3 | None => 0 end)
  + (match MaximumPacketSize o with Some _ => 5 | None => 0 end)
  + (if TopicAliasMaximum o =? 0 then 0 else 3)
  + (match RequestResponseInformation o with Some _ => 2 | None => 0 end)
  + (match RequestProblemInformation o with Some _ => 2 | None => 0 end)
  + (if list_eqb (AuthenticationMethod o) [] then 0 else 1 + 2 + len (AuthenticationMethod o))
  + (match AuthenticationData o with Some d => 1 + 2 + len d | None => 0 end)
  + userPropertiesLen (UserProperties o).

Definition writeConnectProps (buf : list Z) (off : Z) (o : ConnectOpts) : wres (list Z * Z) :=
  let! (buf, off) := writeProperty4 buf off PropSessionExpiryInterval (SessionExpiryInterval o) in
  let! (buf, off) := writeProperty2P buf off PropReceiveMaximum (ReceiveMaximum o) in
  let! (buf, off) := writeProperty4 buf off PropMaximumPacketSize (MaximumPacketSize o) in
  let! (buf, off) := writeProperty2 buf off PropTopicAliasMaximum (TopicAliasMaximum o) in
  let! (buf, off) := writeProperty1 buf off PropRequestResponseInfo (RequestResponseInformation o) in
  let! (buf, off) := writeProperty1 buf off PropRequestProblemInfo (RequestProblemInformation o) in
  let! (buf, off) := writePropertyString buf off PropAuthMethod (AuthenticationMethod o) in
  let! (buf, off) := writePropertyBinary buf off PropAuthData (AuthenticationData o) in
  writePropertyUserProps buf off (UserProperties o).

Definition willPropsLength (w : WillOpts) : Z :=
  (match WillDelayInterval w with Some _ => 5 | None => 0 end)
  + (match PayloadFormatIndicator w with Some _ => 2 | None => 0 end)
  + (match MessageExpiryInterval w with Some _ => 5 | None => 0 end)
  + (if list_eqb (ContentType w) [] then 0 else 1 + 2 + len (ContentType w))
  + (if list_eqb (ResponseTopic w) [] then 0 else 1 + 2 + len (ResponseTopic w))
  + (match CorrelationData w with Some d => 1 + 2 + len d | None => 0 end)
  + userPropertiesLen (w_UserProperties w).

Definition writeWillProps (buf : list Z) (off : Z) (w : WillOpts) : wres (list Z * Z) :=
  let! (buf, off) := writeProperty4 buf off PropWillDelayInterval (WillDelayInterval w) in
  let! (buf, off) := writeProperty1 buf off PropPayloadFormat (PayloadFormatIndicator w) in
  let! (buf, off) := writeProperty4 buf off PropMessageExpiryInterval (MessageExpiryInterval w) in
  let! (buf, off) := writePropertyString buf off PropContentType (ContentType w) in
  let! (buf, off) := writePropertyString buf off PropResponseTopic (ResponseTopic w) in
  let! (buf, off) := writePropertyBinary buf off PropCorrelationData (CorrelationData w) in
  writePropertyUserProps buf off (w_UserProperties w).

(** [// Payload: Will] *)
Definition writeWill (w : WillOpts) (willPropsLen : Z) : writer := fun buf off =>
  let! (buf, off) := writePropertiesPrefix buf off willPropsLen in
  let! (buf, off) := writeWillProps buf off w in
  let! (buf, off) := writeUTF8String buf off (Topic w) in
  writeBinaryData buf off (Payload w).

(** The body, into a buffer of its size. *)
Definition connectBody (o : ConnectOpts) (propsLen willPropsLen : Z) : writer := fun buf off =>
  let! (buf, off) := writeUTF8String buf off ProtocolName in
  let! (buf, off) := putByte ProtocolVersion buf off in
  let! (buf, off) := putByte (encodeConnectFlags o) buf off in
  let! (buf, off) := putUint16 (KeepAlive o) buf off in
  let! (buf, off) := writePropertiesPrefix buf off propsLen in
  let! (buf, off) := writeConnectProps buf off o in
  let! (buf, off) := writeUTF8String buf off (ClientID o) in
  let! (buf, off) := (match WillOf o with Some w => writeWill w willPropsLen buf off | None => Ok (buf, off) end) in
  let! (buf, off) := (if negb (list_eqb (Username o) []) then writeUTF8String buf off (Username o) else Ok (buf, off)) in
  match Password o with Some p => writeBinaryData buf off p | None => Ok (buf, off) end.

(** The bytes handed to the connection. *)
Definition WriteConnect `{BufferPool} (opts : ConnectOpts) : wres (list Z) :=
  let! _ := validateConnectOpts opts in
  let propsLen := connectPropsLen opts in
  let willPropsLen := match WillOf opts with Some w => willPropsLength w | None => 0 end in
  let varHdrLen := 2 + len ProtocolName + 1 + 1 + 2 + VarintSize (u32 propsLen) + propsLen in
  let payloadLen :=
    2 + len (ClientID opts)
    + (match WillOf opts with
       | Some w => VarintSize (u32 willPropsLen) + willPropsLen + (2 + len (Topic w)) + (2 + len (Payload w))
       | None => 0
       end)
    + (if negb (list_eqb (Username opts) []) then 2 + len (Username opts) else 0)
    + (match Password opts with Some p => 2 + len p | None => 0 end) in
  let bodyLen := varHdrLen + payloadLen in
  let! hdr := fixedHdr (u8 (Z.shiftl CONNECT 4)) bodyLen in
  let! (buf, _) := connectBody opts propsLen willPropsLen (acquired bodyLen) 0 in
  Ok (hdr ++ buf).

(** [c.Release(); return nil, e] before [c.frame] is set: the frame is not
    given back. *)
Definition reject_unset {A} (e : error) : dres A := Err (0, e).

(** The optional parts of the payload: will, user name, password. *)
Definition decodeWill (buf : list Z) (connFlags : Z) : dres (option Will * list Z) :=
  let willFlag := negb (Z.land connFlags 0x04 =? 0) in
  let willQoS := Z.land (Z.shiftr connFlags 3) 0x03 in
  let willRetain := negb (Z.land connFlags 0x20 =? 0) in
  if willFlag then
    let! (willProps, m) := on_err (fun err => (0, invalid_because "CONNECT will properties" err)) (readProperties buf) in
    let! buf := from buf m in
    let! (willTopic, m) := on_err (fun err => (0, invalid_because "CONNECT will topic" err)) (readUTF8String buf) in
    let! buf := from buf m in
    let! (willPayload, m) := on_err (fun err => (0, invalid_because "CONNECT will payload" err)) (readBinaryData buf) in
    let! buf := from buf m in
    Ok (Some (mkWill willTopic willPayload willQoS willRetain willProps), buf)
  else if negb (willQoS =? 0) || willRetain
  then reject_unset (invalid "CONNECT will qos/retain set without will flag")
  else Ok (None, buf).

Definition decodeUsername (buf : list Z) (connFlags : Z) : dres (list Z * list Z) :=
  if negb (Z.land connFlags 0x80 =? 0) then
    let! (username, m) := on_err (fun err => (0, invalid_because "CONNECT username" err)) (readUTF8String buf) in
    let! buf := from buf m in
    Ok (username, buf)
  else Ok ([], buf).

Definition decodePassword (buf : list Z) (connFlags : Z) : dres (option (list Z)) :=
  if negb (Z.land connFlags 0x40 =? 0) then
    let! (password, _) := on_err (fun err => (0, invalid_because "CONNECT password" err)) (readBinaryData buf) in
    Ok (Some password)
  else Ok None.

Definition decodeConnect (frame : list Z) (flags : Z) : dres Connect :=
  if negb (flags =? 0x00) then reject (invalid "CONNECT reserved flags must be 0")
  else
  let buf := frame in
  let! (protocolName, n) := on_err (fun err => (1, invalid_because "CONNECT protocol name" err)) (readUTF8String buf) in
  let! buf := from buf n in
  if negb (list_eqb protocolName ProtocolName) then reject (Errorf "%w: %q" [Sentinel ErrInvalidProtocol])
  else if len buf <? 1 then reject (invalid "CONNECT protocol version")
  else
  let! version := idx buf 0 in
  let! buf := from buf 1 in
  if negb (version =? ProtocolVersion) then reject (Errorf "%w: version %d" [Sentinel ErrInvalidProtocol])
  else if len buf <? 1 then reject (invalid "CONNECT flags")
  else
  let! connFlags := idx buf 0 in
  let! buf := from buf 1 in
  if negb (Z.land connFlags 0x01 =? 0) then reject (invalid "CONNECT reserved flag bit set")
  else if len buf <? 2 then reject (invalid "CONNECT keepalive")
  else
  let! keepAlive := Uint16 buf in
  let! buf := from buf 2 in
  let! (props, n) := on_err (fun err => (1, invalid_because "CONNECT properties" err)) (readProperties buf) in
  let! buf := from buf n in
  let! (clientID, n) := on_err (fun err => (1, invalid_because "CONNECT client id" err)) (readUTF8String buf) in
  let! buf := from buf n in
  let! (will, buf) := decodeWill buf connFlags in
  let! (username, buf) := decodeUsername buf connFlags in
  let! password := decodePassword buf connFlags in
  Ok (mkConnect protocolName version (negb (Z.land connFlags 0x02 =? 0)) keepAlive props clientID username password will).

(** ** The encoding as a function *)

Definition props (o : ConnectOpts) : list prop :=
  p_four PropSessionExpiryInterval (SessionExpiryInterval o)
  ++ p_twoP PropReceiveMaximum (ReceiveMaximum o)
  ++ p_four PropMaximumPacketSize (MaximumPacketSize o)
  ++ p_two PropTopicAliasMaximum (TopicAliasMaximum o)
  ++ p_byte PropRequestResponseInfo (RequestResponseInformation o)
  ++ p_byte PropRequestProblemInfo (RequestProblemInformation o)
  ++ p_string PropAuthMethod (AuthenticationMethod o)
  ++ p_binary PropAuthData (AuthenticationData o)
  ++ p_user (UserProperties o).

Definition will_props (w : WillOpts) : list prop :=
  p_four PropWillDelayInterval (WillDelayInterval w)
  ++ p_byte PropPayloadFormat (PayloadFormatIndicator w)
  ++ p_four PropMessageExpiryInterval (MessageExpiryInterval w)
  ++ p_string PropContentType (ContentType w)
  ++ p_string PropResponseTopic (ResponseTopic w)
  ++ p_binary PropCorrelationData (CorrelationData w)
  ++ p_user (w_UserProperties w).

Definition enc_will (w : WillOpts) : list Z := enc_section (will_props w) ++ enc_str (Topic w) ++ enc_str (Payload w).

Definition body (o : ConnectOpts) : list Z :=
  enc_str ProtocolName ++ [ProtocolVersion] ++ [encodeConnectFlags o] ++ be16 (KeepAlive o) ++ enc_section (props o)
  ++ enc_str (ClientID o)
  ++ (match WillOf o with Some w => enc_will w | None => [] end)
  ++ (if negb (list_eqb (Username o) []) then enc_str (Username o) else [])
  ++ (match Password o with Some p => enc_str p | None => [] end).

Definition enc (o : ConnectOpts) : list Z := packet (16 * CONNECT) (body o).

Definition will_typed (w : WillOpts) : Prop :=
  bytes (Topic w) /\ bytes (Payload w) /\ is_u8 (QoS w) /\ opt_ok is_u32 (WillDelayInterval w)
  /\ opt_ok is_u8 (PayloadFormatIndicator w) /\ opt_ok is_u32 (MessageExpiryInterval w)
  /\ bytes (ContentType w) /\ bytes (ResponseTopic w) /\ opt_bytes (CorrelationData w) /\ bytes_user (w_UserProperties w).

Definition typed (o : ConnectOpts) : Prop :=
  bytes (ClientID o) /\ is_u16 (KeepAlive o) /\ bytes (Username o) /\ opt_bytes (Password o)
  /\ (forall w, WillOf o = Some w -> will_typed w)
  /\ opt_ok is_u32 (SessionExpiryInterval o) /\ opt_ok is_u16 (ReceiveMaximum o) /\ opt_ok is_u32 (MaximumPacketSize o)
  /\ is_u16 (TopicAliasMaximum o) /\ opt_ok is_u8 (RequestResponseInformation o)
  /\ opt_ok is_u8 (RequestProblemInformation o) /\ bytes_user (UserProperties o)
  /\ bytes (AuthenticationMethod o) /\ opt_bytes (AuthenticationData o).

Definition will_valid (w : WillOpts) : Prop :=
  Topic w <> [] /\ (short (Topic w) /\ mqtt_utf8 (Topic w) = true /\ has_wildcard (Topic w) = false) /\ QoS w <= 2
  /\ (short (ResponseTopic w) /\ mqtt_utf8 (ResponseTopic w) = true /\ has_wildcard (ResponseTopic w) = false)
  /\ opt_ok (fun b => b <= 1) (PayloadFormatIndicator w)
  /\ (short (ContentType w) /\ mqtt_utf8 (ContentType w) = true)
  /\ short (Payload w) /\ short_opt (CorrelationData w) /\ user_ok (w_UserProperties w).

Definition valid (o : ConnectOpts) : Prop :=
  (short (ClientID o) /\ mqtt_utf8 (ClientID o) = true) /\ (short (Username o) /\ mqtt_utf8 (Username o) = true)
  /\ short_opt (Password o) /\ (forall w, WillOf o = Some w -> will_valid w)
  /\ opt_ok (fun v => v <> 0) (ReceiveMaximum o) /\ opt_ok (fun v => v <> 0) (MaximumPacketSize o)
  /\ opt_ok (fun b => b <= 1) (RequestResponseInformation o) /\ opt_ok (fun b => b <= 1) (RequestProblemInformation o)
  /\ (short (AuthenticationMethod o) /\ mqtt_utf8 (AuthenticationMethod o) = true)
  /\ (AuthenticationData o <> None -> AuthenticationMethod o <> [])
  /\ short_opt (AuthenticationData o) /\ user_ok (UserProperties o).

Definition fits (o : ConnectOpts) : Prop := len (body o) <= MaxVarintValue.

Definition decoded_will (w : WillOpts) : Will :=
  mkWill (Topic w) (Payload w) (QoS w) (Retain w) (mkProperties (enc_props (will_props w))).

(** What the receiver sees. *)
Definition decoded (o : ConnectOpts) : Connect :=
  mkConnect ProtocolName ProtocolVersion (CleanStart o) (KeepAlive o) (mkProperties (enc_props (props o)))
    (ClientID o) (Username o) (Password o) (option_map decoded_will (WillOf o)).

(** ** Lemmas *)

Lemma is_zero_false p : is_zero p = false <-> opt_ok (fun v => v <> 0) p.
Proof. destruct p; simpl; [apply Z.eqb_neq|by split]. Qed.

Lemma validateWillOpts_iff w : will_typed w -> validateWillOpts w = Ok tt <-> will_valid w.
Proof.
  intros (Ht & ? & ? & _ & _ & _ & Hc & Hr & Hd & Hu). unfold validateWillOpts, will_valid.
  rewrite if_fail_ok, !rbind_unit_ok, if_fail_ok by (apply failf_not_ok || apply fail_not_ok).
  rewrite !rbind_unit_ok, map_err_ok, check_ok, ValidTopicName_iff, optional_topic_ok, checkBool_iff, checkString_iff,
    !checkBinary_iff, user_ok_check, Z.ltb_ge by done.
  fold (short (Topic w)). destruct (list_eqb_spec (Topic w) []); intuition congruence.
Qed.

Lemma validateConnectOpts_iff o : typed o -> validateConnectOpts o = Ok tt <-> valid o.
Proof.
  intros (Hc & _ & Hun & _ & Hwt & _ & _ & _ & _ & _ & _ & Hu & Ha & _). unfold validateConnectOpts, valid.
  rewrite !rbind_unit_ok, !if_fail_ok, !rbind_unit_ok, if_fail_ok, !rbind_unit_ok by apply failf_not_ok.
  rewrite !checkString_iff, !checkBinary_iff, !checkBool_iff, user_ok_check, !is_zero_false by done.
  assert (HW : (match WillOf o with Some w => validateWillOpts w | None => Ok tt end) = Ok tt
               <-> forall w, WillOf o = Some w -> will_valid w).
  { destruct (WillOf o) as [w|]; [|done]. rewrite (validateWillOpts_iff w) by auto. split; [by intros ? ? [= <-]|auto]. }
  rewrite HW. assert (HA : not_nil (AuthenticationData o) && list_eqb (AuthenticationMethod o) [] = false
               <-> (AuthenticationData o <> None -> AuthenticationMethod o <> [])).
  { destruct (AuthenticationData o), (list_eqb_spec (AuthenticationMethod o) []); simpl; intuition congruence. }
  rewrite HA. tauto.
Qed.

Lemma connect_propsLen_spec o : connectPropsLen o = len (enc_props (props o)).
Proof. unfold connectPropsLen, props. rewrite !enc_props_app, userPropertiesLen_spec. autorewrite with len. lia. Qed.

Lemma willPropsLength_spec w : willPropsLength w = len (enc_props (will_props w)).
Proof. unfold willPropsLength, will_props. rewrite !enc_props_app, userPropertiesLen_spec. autorewrite with len. lia. Qed.

(** Combine the type and validity of an optional number. *)
Lemma opt_and (P Q R : Z -> Prop) v : (forall x, P x -> Q x -> R x) -> opt_ok P v -> opt_ok Q v -> opt_ok R v.
Proof. destruct v; simpl; auto. Qed.
Lemma opt_imp (P R : Z -> Prop) v : (forall x, P x -> R x) -> opt_ok P v -> opt_ok R v.
Proof. destruct v; simpl; auto. Qed.

Lemma bool_byte v : opt_ok is_u8 v -> opt_ok (fun b => b <= 1) v -> opt_ok (fun b => 0 <= b <= 1) v.
Proof. apply opt_and. unfold is_u8. lia. Qed.

Lemma connect_props_accepted o : typed o -> valid o -> props_ok CONNECT (allowedProps CONNECT) (props o).
Proof.
  intros (_ & _ & _ & _ & _ & Hs & Hr & Hm & Ht & Hri & Hrp & Hu & Ha & Had)
         (_ & _ & _ & _ & Vr & Vm & Vri & Vrp & [Va1 Va2] & _ & Vad & Vu). unfold props.
  accepted [PropSessionExpiryInterval; PropReceiveMaximum; PropMaximumPacketSize; PropTopicAliasMaximum;
            PropRequestResponseInfo; PropRequestProblemInfo; PropAuthMethod; PropAuthData].
  repeat (apply Forall_app; split).
  - apply ok_four; [done..|]. by eapply opt_imp, Hs.
  - apply ok_twoP; [done..|]. by eapply opt_and, Vr; [|exact Hr].
  - apply ok_four; [done..|]. by eapply opt_and, Vm; [|exact Hm].
  - by apply ok_two.
  - apply ok_byte; [done..|]. by apply bool_byte.
  - apply ok_byte; [done..|]. by apply bool_byte.
  - by apply ok_string.
  - by apply ok_binary.
  - by apply ok_user.
Qed.

Lemma will_props_accepted w : will_typed w -> will_valid w -> props_ok CONNECT willProps (will_props w).
Proof.
  intros (_ & _ & _ & Hd & Hp & Hm & Hc & Hr & Hcd & Hu) (_ & _ & _ & (? & ? & ?) & Vp & [? ?] & _ & ? & ?).
  unfold will_props.
  accepted [PropWillDelayInterval; PropPayloadFormat; PropMessageExpiryInterval; PropContentType; PropResponseTopic;
            PropCorrelationData].
  repeat (apply Forall_app; split).
  - apply ok_four; [done..|]. by eapply opt_imp, Hd.
  - apply ok_byte; [done..|]. by apply bool_byte.
  - apply ok_four; [done..|]. by eapply opt_imp, Hm.
  - by apply ok_string.
  - by apply ok_string.
  - by apply ok_binary.
  - by apply ok_user.
Qed.

Lemma writes_connectProps o : valid o -> writes (fun buf off => writeConnectProps buf off o) (enc_props (props o)).
Proof.
  intros (_ & _ & _ & _ & _ & _ & _ & _ & [? _] & _ & ? & Hu). apply user_ok_short in Hu.
  unfold writeConnectProps, props. rewrite !enc_props_app. repeat (wseq; [auto with writes|]). auto with writes.
Qed.

Lemma writes_willProps w : will_valid w -> writes (fun buf off => writeWillProps buf off w) (enc_props (will_props w)).
Proof.
  intros (_ & _ & _ & (? & _) & _ & [? _] & _ & ? & Hu). apply user_ok_short in Hu.
  unfold writeWillProps, will_props. rewrite !enc_props_app. repeat (wseq; [auto with writes|]). auto with writes.
Qed.

Lemma writes_will w :
  will_valid w -> len (enc_props (will_props w)) <= MaxVarintValue ->
  writes (writeWill w (len (enc_props (will_props w)))) (enc_will w).
Proof.
  intros Hv Hl. pose proof (writes_willProps w Hv). destruct Hv as (_ & (? & _) & _ & _ & _ & _ & ? & _ & _).
  unfold writeWill, enc_will, enc_section. rewrite <- app_assoc.
  wseq; [apply writes_prefix; len_facts; lia|]. wseq; [done|]. wseq; auto with writes.
Qed.

(** The sections fit when the packet does. *)
Lemma fits_sections o :
  fits o -> len (enc_props (props o)) <= MaxVarintValue
            /\ (forall w, WillOf o = Some w -> len (enc_props (will_props w)) <= MaxVarintValue).
Proof.
  unfold fits, body, enc_section. rewrite !len_app. intros Hf. split; [len_facts; lia|].
  intros w Hw. rewrite Hw in Hf. unfold enc_will, enc_section in Hf. rewrite !len_app in Hf. len_facts. lia.
Qed.

Lemma connect_writes_body o n :
  valid o -> fits o -> n = (match WillOf o with Some w => len (enc_props (will_props w)) | None => 0 end) ->
  writes (connectBody o (len (enc_props (props o))) n) (body o).
Proof.
  intros Hv Hf ->. destruct (fits_sections o Hf) as [Hp Hw]. pose proof (writes_connectProps o Hv).
  destruct Hv as ([? _] & [? _] & Hpw & Hvw & _). unfold connectBody, body, enc_section. rewrite <- !app_assoc.
  wseq; [apply writes_writeUTF8String; unfold short; by cbv|]. wseq; [auto with writes|]. wseq; [auto with writes|].
  wseq; [auto with writes|]. wseq; [apply writes_prefix; len_facts; lia|]. wseq; [done|]. wseq; [auto with writes|].
  wseq.
  { destruct (WillOf o) as [w|]; [|apply writes_nil]. apply writes_will; auto. }
  wseq; [apply writes_if; auto with writes|].
  destruct (Password o) as [p|]; [|apply writes_nil]. by apply writes_writeBinaryData.
Qed.

Lemma WriteConnect_spec `{BufferPool} o : typed o -> valid o -> fits o -> WriteConnect o = Ok (enc o).
Proof.
  intros Ht Hv Hf. unfold WriteConnect. rewrite (proj2 (validateConnectOpts_iff o Ht) Hv). cbn [rbind].
  destruct (fits_sections o Hf) as [Hp Hw]. rewrite connect_propsLen_spec.
  assert (HW : (match WillOf o with Some w => willPropsLength w | None => 0 end)
               = match WillOf o with Some w => len (enc_props (will_props w)) | None => 0 end).
  { destruct (WillOf o); [apply willPropsLength_spec|done]. }
  rewrite HW. set (bodyLen := _ + _ + _ + _ : Z).
  assert (Hb : bodyLen = len (body o)).
  { subst bodyLen. unfold body. rewrite !len_app, len_enc_section by done. rewrite u32_varint by (len_facts; lia).
    autorewrite with len. destruct (WillOf o) as [w|] eqn:Ew.
    - specialize (Hw w eq_refl). unfold enc_will. rewrite !len_app, len_enc_section, u32_varint by (len_facts; lia).
      destruct (negb _); destruct (Password o); autorewrite with len; lia.
    - destruct (negb _); destruct (Password o); autorewrite with len; lia. }
  rewrite Hb. pose proof (len_nonneg (body o)). unfold fits in Hf. rewrite fixedHdr_spec by lia. cbn [rbind].
  rewrite (writes_whole _ (body o)) by (by apply connect_writes_body || by apply acquired_len). done.
Qed.

(** ** Decoding what was encoded *)

(** The bits of the flags byte, and that it is a byte. *)
Lemma encodeConnectFlags_bits o :
  (forall w, WillOf o = Some w -> 0 <= QoS w <= 2) ->
  let f := encodeConnectFlags o in
  is_u8 f
  /\ negb (Z.land f 0x01 =? 0) = false
  /\ negb (Z.land f 0x02 =? 0) = CleanStart o
  /\ negb (Z.land f 0x04 =? 0) = not_nil (WillOf o)
  /\ Z.land (Z.shiftr f 3) 0x03 = match WillOf o with Some w => QoS w | None => 0 end
  /\ negb (Z.land f 0x20 =? 0) = match WillOf o with Some w => Retain w | None => false end
  /\ negb (Z.land f 0x40 =? 0) = not_nil (Password o)
  /\ negb (Z.land f 0x80 =? 0) = negb (list_eqb (Username o) []).
Proof.
  intros Hq. cbn zeta. unfold encodeConnectFlags.
  destruct (WillOf o) as [w|].
  - specialize (Hq w eq_refl). assert (QoS w = 0 \/ QoS w = 1 \/ QoS w = 2) as [-> | [-> | ->]] by lia;
      destruct (CleanStart o), (Retain w), (Password o), (list_eqb (Username o) []);
      cbv; (split; [split; [discriminate|reflexivity]|]); repeat split.
  - destruct (CleanStart o), (Password o), (list_eqb (Username o) []);
      cbv; (split; [split; [discriminate|reflexivity]|]); repeat split.
Qed.

(** A length-prefixed field, then the rest. *)
Lemma read_str_step {A} (f : error -> Z * error) s rest (k : list Z -> list Z -> dres A) :
  short s ->
  (let! (x, n) := on_err f (readUTF8String (enc_str s ++ rest)) in
   let! buf := from (enc_str s ++ rest) n in k x buf) = k s rest.
Proof.
  intros Hs. rewrite readUTF8String_enc by done. cbn [on_err rbind]. rewrite from_app by (by rewrite len_enc_str). done.
Qed.

Lemma read_section_step {A} (f : error -> Z * error) ps rest (k : Fields.Properties -> list Z -> dres A) :
  Forall wf_prop ps -> bytes rest -> len (enc_props ps) <= MaxVarintValue -> len rest < 2 ^ 31 ->
  (let! (x, n) := on_err f (readProperties (enc_section ps ++ rest)) in
   let! buf := from (enc_section ps ++ rest) n in k x buf) = k (mkProperties (enc_props ps)) rest.
Proof.
  intros Hw Hb Hl Hr. rewrite readProperties_section by done. cbn [on_err rbind]. by rewrite from_app.
Qed.

Lemma bytes_enc_section ps : Forall wf_prop ps -> bytes (enc_section ps).
Proof. intros Hw. unfold enc_section. rewrite bytes_app. split; [apply bytes_enc_varint, len_nonneg|by apply bytes_enc_props]. Qed.

(** The optional parts of the payload. *)
Definition tail3 (o : ConnectOpts) : list Z := match Password o with Some p => enc_str p | None => [] end.
Definition tail2 (o : ConnectOpts) : list Z :=
  (if negb (list_eqb (Username o) []) then enc_str (Username o) else []) ++ tail3 o.
Definition tail1 (o : ConnectOpts) : list Z :=
  (match WillOf o with Some w => enc_will w | None => [] end) ++ tail2 o.

Lemma body_split o :
  body o = enc_str ProtocolName ++ [ProtocolVersion] ++ [encodeConnectFlags o] ++ be16 (KeepAlive o)
           ++ enc_section (props o) ++ enc_str (ClientID o) ++ tail1 o.
Proof. reflexivity. Qed.

Lemma bytes_tail2 o : typed o -> bytes (tail2 o).
Proof.
  intros (_ & _ & ? & Hp & _). unfold tail2, tail3. apply bytes_app.
  split; [destruct (negb _); auto with go|]. destruct (Password o); auto with go.
Qed.

Lemma bytes_tail1 o : typed o -> valid o -> bytes (tail1 o).
Proof.
  intros Ht Hv. pose proof (bytes_tail2 o Ht). unfold tail1. apply bytes_app. split; [|done].
  destruct Ht as (_ & _ & _ & _ & Hw & _). destruct Hv as (_ & _ & _ & Vw & _).
  destruct (WillOf o) as [w|]; [|apply bytes_nil]. specialize (Hw w eq_refl). specialize (Vw w eq_refl).
  pose proof (will_props_accepted w Hw Vw) as [Hwf _]. destruct Hw as (? & ? & _).
  unfold enc_will. rewrite !bytes_app. auto using bytes_enc_section with go.
Qed.

Lemma will_qos o : typed o -> valid o -> forall w, WillOf o = Some w -> 0 <= QoS w <= 2.
Proof.
  intros Ht Hv w Hw. destruct Ht as (_ & _ & _ & _ & Hwt & _). destruct Hv as (_ & _ & _ & Vw & _).
  destruct (Hwt w Hw) as (_ & _ & ? & _). destruct (Vw w Hw) as (_ & _ & ? & _). unfold is_u8 in *. lia.
Qed.

(** The will of the payload. *)
Lemma decodeWill_enc o :
  typed o -> valid o -> fits o ->
  decodeWill (tail1 o) (encodeConnectFlags o) = Ok (option_map decoded_will (WillOf o), tail2 o).
Proof.
  intros Ht Hv Hf. destruct (encodeConnectFlags_bits o (will_qos o Ht Hv)) as (_ & _ & _ & B2 & B3 & B5 & _).
  pose proof (bytes_tail2 o Ht) as Hb2. pose proof Hf as Hfit. unfold fits in Hfit. rewrite body_split in Hfit.
  unfold decodeWill. rewrite B2, B3, B5. unfold tail1 in *. destruct (WillOf o) as [w|] eqn:Ew; cbn [not_nil]; [|done].
  destruct (fits_sections o Hf) as [_ Hpl]. destruct Ht as (_ & _ & _ & _ & Hwt & _). specialize (Hwt w Ew). destruct Hv as (_ & _ & _ & Vw & _). specialize (Vw w Ew).
  pose proof (will_props_accepted w Hwt Vw) as [Hwf _]. destruct Hwt as (? & ? & _). destruct Vw as (_ & [? _] & _ & _ & _ & _ & ? & _).
  unfold enc_will in *. rewrite <- !app_assoc. rewrite read_section_step; [|done| |by apply Hpl|].
  - rewrite read_str_step by done. rewrite readBinaryData_enc by done. cbn [on_err rbind].
    rewrite from_app by (by rewrite len_enc_str). done.
  - rewrite !bytes_app. auto with go.
  - unfold MaxVarintValue in Hfit. change (2 ^ 31) with 2147483648. slia.
Qed.

Lemma decodeConnect_enc o : typed o -> valid o -> fits o -> decodeConnect (body o) 0 = Ok (decoded o).
Proof.
  intros Ht Hv Hf. destruct (encodeConnectFlags_bits o (will_qos o Ht Hv)) as (_ & B0 & B1 & _ & _ & _ & B6 & B7).
  pose proof (decodeWill_enc o Ht Hv Hf) as HW. pose proof (bytes_tail1 o Ht Hv) as Hb1.
  destruct (fits_sections o Hf) as [Hpl _]. pose proof (connect_props_accepted o Ht Hv) as [Hwf _].
  unfold fits in Hf. rewrite body_split in *. destruct Ht as (? & Hka & _). destruct Hv as ([? _] & [? _] & Vp & _).
  unfold decodeConnect. cbn [Z.eqb negb]. rewrite read_str_step by (unfold short; by cbv).
  change (list_eqb ProtocolName ProtocolName) with true. cbn [negb].
  rewrite (proj2 (Z.ltb_ge _ _)) by slia. cbn [app]. rewrite idx_0. cbn [rbind].
  change (?a :: ?l) with ([a] ++ l) at 1. rewrite from_app by done. cbn [rbind]. rewrite Z.eqb_refl. cbn [negb].
  rewrite (proj2 (Z.ltb_ge _ _)) by slia. rewrite idx_0. cbn [rbind].
  change (encodeConnectFlags o :: ?l) with ([encodeConnectFlags o] ++ l). rewrite from_app by done. cbn [rbind].
  rewrite B0. rewrite (proj2 (Z.ltb_ge _ _)) by slia. rewrite Uint16_be16 by done. cbn [rbind]. rewrite from_app by done.
  cbn [rbind]. rewrite read_section_step; [|done| |done|].
  2:{ rewrite bytes_app. auto with go. }
  2:{ unfold MaxVarintValue in Hf. change (2 ^ 31) with 2147483648. slia. }
  rewrite read_str_step by done. rewrite HW. cbn [rbind]. unfold tail2, decodeUsername, decodePassword, decoded.
  rewrite B1, B6, B7. set (user := if negb _ then _ else _).
  assert (Euser : user = Ok (Username o, tail3 o)).
  { subst user. destruct (list_eqb_spec (Username o) []) as [->|]; cbn [negb]; [done|]. by rewrite read_str_step. }
  rewrite Euser. cbn [rbind]. unfold tail3. destruct (Password o) as [p|]; cbn [not_nil]; [|done].
  rewrite <- (app_nil_r (enc_str p)), readBinaryData_enc by done. done.
Qed.

(** ** Decoding any bytes *)

Lemma decodeWill_no_panic buf f : bytes buf -> len buf < 2 ^ 32 -> no_panic (decodeWill buf f).
Proof. intros. unfold decodeWill. np_walk. discriminate. Qed.

Lemma decodeWill_ok buf f will rest :
  bytes buf -> decodeWill buf f = Ok (will, rest) ->
  bytes rest /\ (forall w, will = Some w -> bytes (w_Topic w) /\ bytes (raw (w_Properties w))).
Proof. intros Hb. unfold decodeWill. cbv zeta. intros G. dec_inv G; (split; [done|]); by intros ? [= <-]. Qed.

Lemma decodeUsername_no_panic buf f : bytes buf -> no_panic (decodeUsername buf f).
Proof. intros. unfold decodeUsername. np_walk. Qed.

Lemma decodeUsername_ok buf f u rest : bytes buf -> decodeUsername buf f = Ok (u, rest) -> bytes u /\ bytes rest.
Proof. intros Hb. unfold decodeUsername. intros G. dec_inv G; auto with go. Qed.

Lemma decodePassword_no_panic buf f : bytes buf -> no_panic (decodePassword buf f).
Proof. intros. unfold decodePassword. np_walk. Qed.

Lemma decodeConnect_no_panic frame flags : bytes frame -> len frame < 2 ^ 32 -> no_panic (decodeConnect frame flags).
Proof.
  intros Hb Hl. unfold decodeConnect. np_walk.
  apply no_panic_bind; [apply decodeWill_no_panic; [done|lia]|]. intros [will buf1] [? _]%decodeWill_ok; [|done].
  apply no_panic_bind; [by apply decodeUsername_no_panic|]. intros [user buf2] [? ?]%decodeUsername_ok; [|done].
  apply no_panic_bind; [by apply decodePassword_no_panic|]. discriminate.
Qed.

(** Every view a decoded CONNECT holds is made of bytes. *)
Definition bytes_connect (c : Connect) : Prop :=
  bytes (c_ClientID c) /\ bytes (c_Username c) /\ bytes (raw (c_Properties c))
  /\ (forall w, c_Will c = Some w -> bytes (w_Topic w) /\ bytes (raw (w_Properties w))).

Lemma decodeConnect_ok frame flags c : bytes frame -> decodeConnect frame flags = Ok c -> bytes_connect c.
Proof.
  intros Hb. unfold decodeConnect. cbv zeta. intros G. dec_inv G.
  match goal with H : decodeWill _ _ = Ok _ |- _ => apply decodeWill_ok in H as [? ?]; [|done] end.
  match goal with H : decodeUsername _ _ = Ok _ |- _ => apply decodeUsername_ok in H as [? ?]; [|done] end.
  done.
Qed.

(** No decoder gives its frame back twice. *)
Definition frame_once {A} (m : dres A) : Prop := match m with Err (n, _) => n = 0 \/ n = 1 | _ => True end.

Lemma frame_once_owned {A} (m : dres A) : frame_owned m -> frame_once m.
Proof. destruct m as [|[n e]|]; simpl; auto. Qed.
Lemma frame_once_bind {A B} (m : dres A) (k : A -> dres B) : frame_once m -> (forall a, frame_once (k a)) -> frame_once (rbind m k).
Proof. destruct m; simpl; auto. Qed.
Lemma frame_once_on_err {A} n (f : error -> error) (m : wres A) : n = 0 \/ n = 1 -> frame_once (on_err (fun e => (n, f e)) m).
Proof. by destruct m. Qed.

Ltac once_walk :=
  repeat match goal with
  | |- frame_once (rbind _ _) => apply frame_once_bind; [|intros]
  | |- frame_once (reject _) => by right
  | |- frame_once (reject_unset _) => by left
  | |- frame_once (Ok _) => exact I
  | |- frame_once (on_err _ _) => apply frame_once_on_err; by auto
  | |- frame_once (match ?x with _ => _ end) => destruct x
  | |- frame_once (let _ := _ in _) => cbv zeta
  | _ => solve [apply frame_once_owned; eauto with frame]
  end.

Lemma decodeConnect_frame frame flags : frame_once (decodeConnect frame flags).
Proof. unfold decodeConnect, decodeWill, decodeUsername, decodePassword. once_walk. Qed.

(** A CONNECT whose user name is missing. *)
Definition connect_no_username : list Z := [0; 4; 77; 81; 84; 84; 5; 0x80; 0; 0; 0; 0; 0].
End Connect.

(** ** CONNACK *)

Module Connack.
Import Connect (is_zero, not_nil, opt_and, opt_imp, bool_byte, is_zero_false).

Record Connack : Type := mkConnack {
  SessionPresent : bool;
  ReasonCode : Z;
  Properties : Fields.Properties;
}.

Record ConnackOpts : Type := mkOpts {
  o_SessionPresent : bool;
  o_ReasonCode : Z;
  SessionExpiryInterval : option Z;
  ReceiveMaximum : option Z;
  MaximumQoS : option Z;
  RetainAvailable : option Z;
  MaximumPacketSize : option Z;
  AssignedClientIdentifier : list Z;
  TopicAliasMaximum : Z;
  ReasonString : list Z;
  UserProperties : list UserProperty;
  WildcardSubscriptionAvailable : option Z;
  SubscriptionIdentifierAvailable : option Z;
  SharedSubscriptionAvailable : option Z;
  ServerKeepAlive : option Z;
  ResponseInformation : list Z;
  ServerReference : list Z;
  AuthenticationMethod : list Z;
  AuthenticationData : option (list Z);
}.

Definition validateConnackOpts (o : ConnackOpts) : wres unit :=
  let! _ := checkReasonCode CONNACK (o_ReasonCode o) in
  let! _ := checkBool "Maximum QoS" (MaximumQoS o) in
  let! _ := checkBool "Retain Available" (RetainAvailable o) in
  let! _ := checkBool "Wildcard Subscription Available" (WildcardSubscriptionAvailable o) in
  let! _ := checkBool "Subscription Identifier Available" (SubscriptionIdentifierAvailable o) in
  let! _ := checkBool "Shared Subscription Available" (SharedSubscriptionAvailable o) in
  if is_zero (ReceiveMaximum o) then failf "Receive Maximum 0" [Sentinel ErrInvalidField]
  else if is_zero (MaximumPacketSize o) then failf "Maximum Packet Size 0" [Sentinel ErrInvalidField]
  else
    let! _ := checkString "assigned client identifier" (AssignedClientIdentifier o) in
    let! _ := checkString "reason string" (ReasonString o) in
    let! _ := checkString "response information" (ResponseInformation o) in
    let! _ := checkString "server reference" (ServerReference o) in
    let! _ := checkString "authentication method" (AuthenticationMethod o) in
    let! _ := checkBinary "authentication data" (AuthenticationData o) in
    checkUserProps (UserProperties o).

Definition connackPropsLen (o : ConnackOpts) : Z :=
  (match SessionExpiryInterval o with Some _ => 5 | None => 0 end)
  + (match ReceiveMaximum o with Some _ => 3 | None => 0 end)
  + (match MaximumQoS o with Some _ => 2 | None => 0 end)
  + (match RetainAvailable o with Some _ => 2 | None => 0 end)
  + (match MaximumPacketSize o with Some _ => 5 | None => 0 end)
  + (if list_eqb (AssignedClientIdentifier o) [] then 0 else 1 + 2 + len (AssignedClientIdentifier o))
  + (if TopicAliasMaximum o =? 0 then 0 else 3)
  + (if list_eqb (ReasonString o) [] then 0 else 1 + 2 + len (ReasonString o))
  + (match WildcardSubscriptionAvailable o with Some _ => 2 | None => 0 end)
  + (match SubscriptionIdentifierAvailable o with Some _ => 2 | None => 0 end)
  + (match SharedSubscriptionAvailable o with Some _ => 2 | None => 0 end)
  + (match ServerKeepAlive o with Some _ => 3 | None => 0 end)
  + (if list_eqb (ResponseInformation o) [] then 0 else 1 + 2 + len (ResponseInformation o))
  + (if list_eqb (ServerReference o) [] then 0 else 1 + 2 + len (ServerReference o))
  + (if list_eqb (AuthenticationMethod o) [] then 0 else 1 + 2 + len (AuthenticationMethod o))
  + (match AuthenticationData o with Some d => 1 + 2 + len d | None => 0 end)
  + userPropertiesLen (UserProperties o).

Definition connackProps (o : ConnackOpts) : writer := fun buf off =>
  let! (buf, off) := writeProperty4 buf off PropSessionExpiryInterval (SessionExpiryInterval o) in
  let! (buf, off) := writeProperty2P buf off PropReceiveMaximum (ReceiveMaximum o) in
  let! (buf, off) := writeProperty1 buf off PropMaximumQoS (MaximumQoS o) in
  let! (buf, off) := writeProperty1 buf off PropRetainAvailable (RetainAvailable o) in
  let! (buf, off) := writeProperty4 buf off PropMaximumPacketSize (MaximumPacketSize o) in
  let! (buf, off) := writePropertyString buf off PropAssignedClientID (AssignedClientIdentifier o) in
  let! (buf, off) := writeProperty2 buf off PropTopicAliasMaximum (TopicAliasMaximum o) in
  let! (buf, off) := writePropertyString buf off PropReasonString (ReasonString o) in
  let! (buf, off) := writePropertyUserProps buf off (UserProperties o) in
  let! (buf, off) := writeProperty1 buf off PropWildcardSubAvailable (WildcardSubscriptionAvailable o) in
  let! (buf, off) := writeProperty1 buf off PropSubscriptionIDAvailable (SubscriptionIdentifierAvailable o) in
  let! (buf, off) := writeProperty1 buf off PropSharedSubAvailable (SharedSubscriptionAvailable o) in
  let! (buf, off) := writeProperty2P buf off PropServerKeepAlive (ServerKeepAlive o) in
  let! (buf, off) := writePropertyString buf off PropResponseInformation (ResponseInformation o) in
  let! (buf, off) := writePropertyString buf off PropServerReference (ServerReference o) in
  let! (buf, off) := writePropertyString buf off PropAuthMethod (AuthenticationMethod o) in
  writePropertyBinary buf off PropAuthData (AuthenticationData o).

(** The body, into a buffer of its size. *)
Definition connackBody (o : ConnackOpts) (propsLen : Z) : writer := fun buf off =>
  let! (buf, off) := putByte (if o_SessionPresent o then 0x01 else 0x00) buf off in
  let! (buf, off) := putByte (o_ReasonCode o) buf off in
  let! (buf, off) := writePropertiesPrefix buf off propsLen in
  connackProps o buf off.

(** The bytes handed to the connection. *)
Definition WriteConnack `{BufferPool} (opts : ConnackOpts) : wres (list Z) :=
  let! _ := validateConnackOpts opts in
  let propsLen := connackPropsLen opts in
  let bodyLen := 1 + 1 + VarintSize (u32 propsLen) + propsLen in
  let! hdr := fixedHdr (u8 (Z.shiftl CONNACK 4)) bodyLen in
  let! (buf, _) := connackBody opts propsLen (acquired bodyLen) 0 in
  Ok (hdr ++ buf).

Definition decodeConnack (frame : list Z) (flags : Z) : dres Connack :=
  if negb (flags =? 0x00) then reject (invalid "CONNACK reserved flags must be 0")
  else
  let buf := frame in
  if len buf <? 2 then reject (invalid "CONNACK truncated")
  else
  let! ackFlags := idx buf 0 in
  if negb (Z.land ackFlags 0xFE =? 0) then reject (invalid "CONNACK reserved flag bits set")
  else
  let sessionPresent := negb (Z.land ackFlags 0x01 =? 0) in
  let! reason := idx buf 1 in
  let! buf := from buf 2 in
  let! props := on_err (fun err => (1, invalid_because "CONNACK properties" err)) (readPropertiesEnd buf) in
  Ok (mkConnack sessionPresent reason props).

(** [Connack.Clone]: the same value, sharing nothing. *)
Definition Clone (c : Connack) : Connack :=
  let raw := raw (Properties c) in
  let props := if 0 <? len raw then PropertiesFromBytes ([] ++ raw) else mkProperties [] in
  mkConnack (SessionPresent c) (ReasonCode c) props.

(** The encoding as a function. *)

Definition props (o : ConnackOpts) : list prop :=
  p_four PropSessionExpiryInterval (SessionExpiryInterval o)
  ++ p_twoP PropReceiveMaximum (ReceiveMaximum o)
  ++ p_byte PropMaximumQoS (MaximumQoS o)
  ++ p_byte PropRetainAvailable (RetainAvailable o)
  ++ p_four PropMaximumPacketSize (MaximumPacketSize o)
  ++ p_string PropAssignedClientID (AssignedClientIdentifier o)
  ++ p_two PropTopicAliasMaximum (TopicAliasMaximum o)
  ++ p_string PropReasonString (ReasonString o)
  ++ p_user (UserProperties o)
  ++ p_byte PropWildcardSubAvailable (WildcardSubscriptionAvailable o)
  ++ p_byte PropSubscriptionIDAvailable (SubscriptionIdentifierAvailable o)
  ++ p_byte PropSharedSubAvailable (SharedSubscriptionAvailable o)
  ++ p_twoP PropServerKeepAlive (ServerKeepAlive o)
  ++ p_string PropResponseInformation (ResponseInformation o)
  ++ p_string PropServerReference (ServerReference o)
  ++ p_string PropAuthMethod (AuthenticationMethod o)
  ++ p_binary PropAuthData (AuthenticationData o).

Definition body (o : ConnackOpts) : list Z :=
  [if o_SessionPresent o then 0x01 else 0x00] ++ [o_ReasonCode o] ++ enc_section (props o).

Definition enc (o : ConnackOpts) : list Z := packet (16 * CONNACK) (body o).

Definition typed (o : ConnackOpts) : Prop :=
  is_u8 (o_ReasonCode o)
  /\ opt_ok is_u32 (SessionExpiryInterval o)
  /\ opt_ok is_u16 (ReceiveMaximum o)
  /\ opt_ok is_u8 (MaximumQoS o)
  /\ opt_ok is_u8 (RetainAvailable o)
  /\ opt_ok is_u32 (MaximumPacketSize o)
  /\ bytes (AssignedClientIdentifier o)
  /\ is_u16 (TopicAliasMaximum o)
  /\ bytes (ReasonString o)
  /\ bytes_user (UserProperties o)
  /\ opt_ok is_u8 (WildcardSubscriptionAvailable o)
  /\ opt_ok is_u8 (SubscriptionIdentifierAvailable o)
  /\ opt_ok is_u8 (SharedSubscriptionAvailable o)
  /\ opt_ok is_u16 (ServerKeepAlive o)
  /\ bytes (ResponseInformation o)
  /\ bytes (ServerReference o)
  /\ bytes (AuthenticationMethod o)
  /\ opt_bytes (AuthenticationData o).

Definition valid (o : ConnackOpts) : Prop :=
  In (o_ReasonCode o) (reasonCodes CONNACK)
  /\ opt_ok (fun b => b <= 1) (MaximumQoS o)
  /\ opt_ok (fun b => b <= 1) (RetainAvailable o)
  /\ opt_ok (fun b => b <= 1) (WildcardSubscriptionAvailable o)
  /\ opt_ok (fun b => b <= 1) (SubscriptionIdentifierAvailable o)
  /\ opt_ok (fun b => b <= 1) (SharedSubscriptionAvailable o)
  /\ opt_ok (fun v => v <> 0) (ReceiveMaximum o)
  /\ opt_ok (fun v => v <> 0) (MaximumPacketSize o)
  /\ (short (AssignedClientIdentifier o) /\ mqtt_utf8 (AssignedClientIdentifier o) = true)
  /\ (short (ReasonString o) /\ mqtt_utf8 (ReasonString o) = true)
  /\ (short (ResponseInformation o) /\ mqtt_utf8 (ResponseInformation o) = true)
  /\ (short (ServerReference o) /\ mqtt_utf8 (ServerReference o) = true)
  /\ (short (AuthenticationMethod o) /\ mqtt_utf8 (AuthenticationMethod o) = true)
  /\ short_opt (AuthenticationData o)
  /\ user_ok (UserProperties o).

Definition fits (o : ConnackOpts) : Prop := len (body o) <= MaxVarintValue.

Definition decoded (o : ConnackOpts) : Connack :=
  mkConnack (o_SessionPresent o) (o_ReasonCode o) (mkProperties (enc_props (props o))).

Lemma validateConnackOpts_iff o : typed o -> validateConnackOpts o = Ok tt <-> valid o.
Proof.
  unfold typed, validateConnackOpts, valid. intros H.
  rewrite !rbind_unit_ok, !if_fail_ok, !rbind_unit_ok by apply failf_not_ok.
  rewrite checkReasonCode_iff, !checkBool_iff, !is_zero_false, !checkString_iff, checkBinary_iff, user_ok_check by tauto.
  tauto.
Qed.

Lemma connack_propsLen_spec o : connackPropsLen o = len (enc_props (props o)).
Proof. unfold connackPropsLen, props. rewrite !enc_props_app, userPropertiesLen_spec. autorewrite with len. lia. Qed.

Lemma connack_props_accepted o : typed o -> valid o -> props_ok CONNACK (allowedProps CONNACK) (props o).
Proof.
  unfold typed, valid. intros Ht Hv.
  assert (Ts : opt_ok is_u32 (SessionExpiryInterval o)) by tauto. assert (Tr : opt_ok is_u16 (ReceiveMaximum o)) by tauto.
  assert (Tm : opt_ok is_u32 (MaximumPacketSize o)) by tauto. assert (Tk : opt_ok is_u16 (ServerKeepAlive o)) by tauto.
  assert (Ta : is_u16 (TopicAliasMaximum o)) by tauto.
  assert (Vr : opt_ok (fun v => v <> 0) (ReceiveMaximum o)) by tauto.
  assert (Vm : opt_ok (fun v => v <> 0) (MaximumPacketSize o)) by tauto.
  unfold props.
  accepted [PropSessionExpiryInterval; PropReceiveMaximum; PropMaximumQoS; PropRetainAvailable; PropMaximumPacketSize; PropAssignedClientID; PropTopicAliasMaximum; PropReasonString; PropWildcardSubAvailable; PropSubscriptionIDAvailable; PropSharedSubAvailable; PropServerKeepAlive; PropResponseInformation; PropServerReference; PropAuthMethod; PropAuthData].
  repeat (apply Forall_app; split).
  - apply ok_four; [done..|]. by eapply opt_imp; [|exact Ts].
  - apply ok_twoP; [done..|]. by eapply opt_and; [|exact Tr|exact Vr].
  - apply ok_byte; [done..|]. apply bool_byte; tauto.
  - apply ok_byte; [done..|]. apply bool_byte; tauto.
  - apply ok_four; [done..|]. by eapply opt_and; [|exact Tm|exact Vm].
  - by apply ok_string; intuition.
  - by apply ok_two.
  - by apply ok_string; intuition.
  - apply ok_user; [done|tauto].
  - apply ok_byte; [done..|]. apply bool_byte; tauto.
  - apply ok_byte; [done..|]. apply bool_byte; tauto.
  - apply ok_byte; [done..|]. apply bool_byte; tauto.
  - apply ok_twoP; [done..|]. by eapply opt_imp; [|exact Tk].
  - by apply ok_string; intuition.
  - by apply ok_string; intuition.
  - by apply ok_string; intuition.
  - by apply ok_binary; intuition.
Qed.

Lemma connack_writes_props o : valid o -> writes (connackProps o) (enc_props (props o)).
Proof.
  unfold valid. intros Hv. assert (short_user (UserProperties o)) by (apply user_ok_short; tauto).
  assert (short (AssignedClientIdentifier o)) by tauto.
  assert (short (ReasonString o)) by tauto.
  assert (short (ResponseInformation o)) by tauto.
  assert (short (ServerReference o)) by tauto.
  assert (short (AuthenticationMethod o)) by tauto.
  assert (short_opt (AuthenticationData o)) by tauto.
  unfold connackProps, props. rewrite !enc_props_app. repeat (wseq; [auto with writes|]). auto with writes.
Qed.

Lemma connack_len_props_body o : len (enc_props (props o)) <= len (body o).
Proof. unfold body, enc_section. slia. Qed.

Lemma WriteConnack_spec `{BufferPool} o : typed o -> valid o -> fits o -> WriteConnack o = Ok (enc o).
Proof.
  intros Ht Hv Hf. unfold WriteConnack. rewrite (proj2 (validateConnackOpts_iff o Ht) Hv). cbn [rbind]. rewrite connack_propsLen_spec.
  pose proof (connack_len_props_body o). unfold fits in Hf. pose proof (len_nonneg (enc_props (props o))).
  assert (Hb : 1 + 1 + VarintSize (u32 (len (enc_props (props o)))) + len (enc_props (props o)) = len (body o)).
  { unfold body. rewrite !len_app, len_enc_section, u32_varint by lia. slia. }
  rewrite Hb. pose proof (len_nonneg (body o)). rewrite fixedHdr_spec by lia. cbn [rbind].
  rewrite (writes_whole _ (body o)); [done| |by apply acquired_len].
  unfold connackBody, body, enc_section. wseq; [auto with writes|]. wseq; [auto with writes|].
  wseq; [apply writes_prefix; lia|]. by apply connack_writes_props.
Qed.

Lemma decodeConnack_enc o : typed o -> valid o -> fits o -> decodeConnack (body o) 0 = Ok (decoded o).
Proof.
  intros Ht Hv Hf. pose proof (connack_props_accepted o Ht Hv) as [Hw _]. pose proof (connack_len_props_body o). unfold fits, body in *.
  unfold decodeConnack. cbn [Z.eqb negb]. rewrite (proj2 (Z.ltb_ge _ _)) by slia. cbn [app]. rewrite idx_0. cbn [rbind].
  assert (Hflag : negb (Z.land (if o_SessionPresent o then 1 else 0) 0xFE =? 0) = false
    /\ negb (Z.land (if o_SessionPresent o then 1 else 0) 0x01 =? 0) = o_SessionPresent o) by (by destruct (o_SessionPresent o)).
  destruct Hflag as [-> ->]. rewrite idx_1. cbn [rbind].
  change (?a :: ?b :: ?l) with ([a; b] ++ l). rewrite from_app by done. cbn [rbind].
  rewrite readPropertiesEnd_section by (done || lia). done.
Qed.

Lemma decodeConnack_no_panic frame flags : bytes frame -> len frame < 2 ^ 32 -> no_panic (decodeConnack frame flags).
Proof.
  intros Hb Hl. unfold decodeConnack. np_walk.
  apply no_panic_bind; [apply no_panic_on_err, readPropertiesEnd_no_panic; [done|lia]|]. discriminate.
Qed.

Lemma decodeConnack_ok frame flags p : bytes frame -> decodeConnack frame flags = Ok p -> bytes (raw (Properties p)).
Proof. intros Hb. unfold decodeConnack. cbv zeta. intros G. dec_inv G. by reason_facts. Qed.

Lemma decodeConnack_frame frame flags : frame_owned (decodeConnack frame flags).
Proof. unfold decodeConnack. frame_walk. Qed.

Lemma Clone_same c : Clone c = c.
Proof.
  unfold Clone. destruct c as [s r [raw]]. simpl. destruct (Z.ltb_spec 0 (len raw)) as [|H]; [done|].
  rewrite (len_0_nil raw); [done|]. len_facts. lia.
Qed.
End Connack.
