(* ===== verification/Subscribe.v ===== *)
(** * Subscribe: SUBSCRIBE, SUBACK, UNSUBSCRIBE and UNSUBACK (wire/subscribe.go)

    Options, validation, writers and decoders of the four subscription
    packets; the two acknowledgements share their encoding. *)

From S2P Require Import Prelude GoLib Errors Buffers Varint Fields PropView Utf8 Topics Validate PropLists Frames.

(** ** Data *)

Record SubscribeFilter : Type := mkFilter {
  f_Topic : list Z;
  f_QoS : Z;
  f_NoLocal : bool;
  f_RetainAsPublished : bool;
  f_RetainHandling : Z;
}.

Record Subscribe : Type := mkSubscribe { s_PacketID : Z; s_Properties : Properties; s_Filters : list SubscribeFilter }.

Record SubscribeOpts : Type := mkSubscribeOpts {
  so_PacketID : Z;
  so_Filters : list SubscribeFilter;
  so_SubscriptionIdentifier : option Z;
  so_UserProperties : list UserProperty;
}.

Record Unsubscribe : Type := mkUnsubscribe { u_PacketID : Z; u_Properties : Properties; u_Topics : list (list Z) }.

Record UnsubscribeOpts : Type := mkUnsubscribeOpts {
  uo_PacketID : Z;
  uo_Topics : list (list Z);
  uo_UserProperties : list UserProperty;
}.

(** [Suback] and [Unsuback], which have the same fields. *)
Record AckList : Type := mkAckList { a_PacketID : Z; a_Properties : Properties; a_ReasonCodes : list Z }.

(** [SubackOpts] and [UnsubackOpts]. *)
Record AckListOpts : Type := mkAckListOpts {
  ao_PacketID : Z;
  ao_ReasonCodes : list Z;
  ao_ReasonString : list Z;
  ao_UserProperties : list UserProperty;
}.

(** ** Validation of the options *)

Fixpoint validateFilters (fs : list SubscribeFilter) : wres unit :=
  match fs with
  | [] => Ok tt
  | f :: fs =>
      let! _ := check (ValidTopicFilter (f_Topic f)) in
      if 2 <? f_QoS f then fail ErrInvalidQoS
      else if 2 <? f_RetainHandling f then failf "Retain Handling %d" [Sentinel ErrInvalidField]
      else if f_NoLocal f && IsSharedFilter (f_Topic f)
      then failf "No Local on shared subscription %q [MQTT-3.8.3-4]" [Sentinel ErrInvalidField]
      else validateFilters fs
  end.

Definition validateSubscribeOpts (o : SubscribeOpts) : wres unit :=
  if so_PacketID o =? 0 then fail ErrPacketIDRequired
  else if len (so_Filters o) =? 0 then fail ErrEmptyFilterList
  else
    let! _ := validateFilters (so_Filters o) in
    if (match so_SubscriptionIdentifier o with Some id => (id =? 0) || (MaxVarintValue <? id) | None => false end)
    then failf "Subscription Identifier %d outside 1..%d" [Sentinel ErrInvalidField]
    else checkUserProps (so_UserProperties o).

Fixpoint validateTopics (ts : list (list Z)) : wres unit :=
  match ts with
  | [] => Ok tt
  | t :: ts => let! _ := check (ValidTopicFilter t) in validateTopics ts
  end.

Definition validateUnsubscribeOpts (o : UnsubscribeOpts) : wres unit :=
  if uo_PacketID o =? 0 then fail ErrPacketIDRequired
  else if len (uo_Topics o) =? 0 then fail ErrEmptyFilterList
  else
    let! _ := validateTopics (uo_Topics o) in
    checkUserProps (uo_UserProperties o).

Fixpoint checkReasonCodes (t : Z) (codes : list Z) : wres unit :=
  match codes with
  | [] => Ok tt
  | rc :: codes => let! _ := checkReasonCode t rc in checkReasonCodes t codes
  end.

Definition validateAckList (t id : Z) (codes reason : list Z) (props : list UserProperty) : wres unit :=
  if id =? 0 then fail ErrPacketIDRequired
  else if len codes =? 0 then failf "%s needs at least one reason code" [Sentinel ErrInvalidField]
  else
    let! _ := checkReasonCodes t codes in
    let! _ := checkString "reason string" reason in
    checkUserProps props.

(** ** Writers *)

Definition encodeSubscribeOptions (f : SubscribeFilter) : Z :=
  let b := Z.land (f_QoS f) 0x03 in
  let b := if f_NoLocal f then Z.lor b 0x04 else b in
  let b := if f_RetainAsPublished f then Z.lor b 0x08 else b in
  Z.lor b (u8 (Z.shiftl (Z.land (f_RetainHandling f) 0x03) 4)).

Fixpoint writeFilters (fs : list SubscribeFilter) (buf : list Z) (off : Z) : wres (list Z * Z) :=
  match fs with
  | [] => Ok (buf, off)
  | f :: fs =>
      let! (buf, off) := writeUTF8String buf off (f_Topic f) in
      let! (buf, off) := putByte (encodeSubscribeOptions f) buf off in
      writeFilters fs buf off
  end.

(** [buf[off] = PropSubscriptionIdentifier; off++; n, _ := EncodeVarint(buf[off:], id); off += n] *)
Definition writeSubscriptionIdentifier (id : Z) : writer := fun buf off =>
  let! (buf, off) := putByte PropSubscriptionIdentifier buf off in
  match EncodeVarint buf off id with
  | Ok (buf, n) => Ok (buf, off + n)
  | Err _ => Ok (buf, off + 0)
  | Panic => Panic
  end.

Definition subscribeBody (o : SubscribeOpts) (propsLen : Z) : writer := fun buf off =>
  let! (buf, off) := putUint16 (so_PacketID o) buf off in
  let! (buf, off) := writePropertiesPrefix buf off propsLen in
  let! (buf, off) := (match so_SubscriptionIdentifier o with
                      | Some id => writeSubscriptionIdentifier id buf off
                      | None => Ok (buf, off)
                      end) in
  let! (buf, off) := writePropertyUserProps buf off (so_UserProperties o) in
  writeFilters (so_Filters o) buf off.

Fixpoint filtersLen (fs : list SubscribeFilter) : Z :=
  match fs with [] => 0 | f :: fs => 2 + len (f_Topic f) + 1 + filtersLen fs end.

Fixpoint writeTopics (ts : list (list Z)) (buf : list Z) (off : Z) : wres (list Z * Z) :=
  match ts with
  | [] => Ok (buf, off)
  | t :: ts => let! (buf, off) := writeUTF8String buf off t in writeTopics ts buf off
  end.

Definition unsubscribeBody (o : UnsubscribeOpts) (propsLen : Z) : writer := fun buf off =>
  let! (buf, off) := putUint16 (uo_PacketID o) buf off in
  let! (buf, off) := writePropertiesPrefix buf off propsLen in
  let! (buf, off) := writePropertyUserProps buf off (uo_UserProperties o) in
  writeTopics (uo_Topics o) buf off.

Fixpoint topicsLen (ts : list (list Z)) : Z :=
  match ts with [] => 0 | t :: ts => 2 + len t + topicsLen ts end.

Fixpoint writeCodes (codes : list Z) (buf : list Z) (off : Z) : wres (list Z * Z) :=
  match codes with
  | [] => Ok (buf, off)
  | c :: codes => let! (buf, off) := putByte c buf off in writeCodes codes buf off
  end.

Definition ackListBody (packetID : Z) (codes reasonString : list Z) (userProps : list UserProperty) (propsLen : Z) : writer :=
  fun buf off =>
  let! (buf, off) := putUint16 packetID buf off in
  let! (buf, off) := writePropertiesPrefix buf off propsLen in
  let! (buf, off) := writePropertyString buf off PropReasonString reasonString in
  let! (buf, off) := writePropertyUserProps buf off userProps in
  writeCodes codes buf off.

Section writers.
Context `{BufferPool}.

(** Each returns the bytes handed to the connection. *)
Definition WriteSubscribe (opts : SubscribeOpts) : wres (list Z) :=
  let! _ := validateSubscribeOpts opts in
  if len (so_Filters opts) =? 0 then fail ErrEmptyFilterList
  else
  let propsLen := (match so_SubscriptionIdentifier opts with Some id => 1 + VarintSize id | None => 0 end)
                  + userPropertiesLen (so_UserProperties opts) in
  let payloadLen := filtersLen (so_Filters opts) in
  let varHdrLen := 2 + VarintSize (u32 propsLen) + propsLen in
  let bodyLen := varHdrLen + payloadLen in
  let! hdr := fixedHdr (Z.lor (u8 (Z.shiftl SUBSCRIBE 4)) 0x02) bodyLen in
  let! (buf, _) := subscribeBody opts propsLen (acquired bodyLen) 0 in
  Ok (hdr ++ buf).

Definition WriteUnsubscribe (opts : UnsubscribeOpts) : wres (list Z) :=
  let! _ := validateUnsubscribeOpts opts in
  if len (uo_Topics opts) =? 0 then fail ErrEmptyFilterList
  else
  let propsLen := userPropertiesLen (uo_UserProperties opts) in
  let payloadLen := topicsLen (uo_Topics opts) in
  let varHdrLen := 2 + VarintSize (u32 propsLen) + propsLen in
  let bodyLen := varHdrLen + payloadLen in
  let! hdr := fixedHdr (Z.lor (u8 (Z.shiftl UNSUBSCRIBE 4)) 0x02) bodyLen in
  let! (buf, _) := unsubscribeBody opts propsLen (acquired bodyLen) 0 in
  Ok (hdr ++ buf).

Definition writeSubAckLike (pktType packetID : Z) (codes reasonString : list Z) (userProps : list UserProperty)
    : wres (list Z) :=
  if len codes =? 0 then Err (invalid "%s requires at least one reason code")
  else
  let propsLen := (if list_eqb reasonString [] then 0 else 1 + 2 + len reasonString) + userPropertiesLen userProps in
  let varHdrLen := 2 + VarintSize (u32 propsLen) + propsLen in
  let payloadLen := len codes in
  let bodyLen := varHdrLen + payloadLen in
  let! hdr := fixedHdr (u8 (Z.shiftl pktType 4)) bodyLen in
  let! (buf, _) := ackListBody packetID codes reasonString userProps propsLen (acquired bodyLen) 0 in
  Ok (hdr ++ buf).

Definition WriteSuback (opts : AckListOpts) : wres (list Z) :=
  let! _ := validateAckList SUBACK (ao_PacketID opts) (ao_ReasonCodes opts) (ao_ReasonString opts) (ao_UserProperties opts) in
  writeSubAckLike SUBACK (ao_PacketID opts) (ao_ReasonCodes opts) (ao_ReasonString opts) (ao_UserProperties opts).

Definition WriteUnsuback (opts : AckListOpts) : wres (list Z) :=
  let! _ := validateAckList UNSUBACK (ao_PacketID opts) (ao_ReasonCodes opts) (ao_ReasonString opts) (ao_UserProperties opts) in
  writeSubAckLike UNSUBACK (ao_PacketID opts) (ao_ReasonCodes opts) (ao_ReasonString opts) (ao_UserProperties opts).
End writers.

(** ** Decoders *)

Definition decodeSubscribeFilter (topic : list Z) (optsByte : Z) : SubscribeFilter :=
  mkFilter topic (Z.land optsByte 0x03) (negb (Z.land optsByte 0x04 =? 0)) (negb (Z.land optsByte 0x08 =? 0))
    (Z.land (Z.shiftr optsByte 4) 0x03).

(** [for len(buf) > 0 { ... }]; each filter takes at least three bytes. *)
Fixpoint decodeFilters (fuel : nat) (buf : list Z) : dres (list SubscribeFilter) :=
  match fuel with
  | O => Panic
  | S fuel =>
      if 0 <? len buf then
        let! (topic, tn) := on_err (fun err => (1, invalid_because "SUBSCRIBE filter topic" err)) (readUTF8String buf) in
        let! buf := from buf tn in
        if len buf <? 1 then reject (invalid "SUBSCRIBE filter options byte missing")
        else
          let! b := idx buf 0 in
          let! buf := from buf 1 in
          let! fs := decodeFilters fuel buf in
          Ok (decodeSubscribeFilter topic b :: fs)
      else Ok []
  end.

Definition decodeSubscribe (frame : list Z) (flags : Z) : dres Subscribe :=
  if negb (flags =? 0x02) then reject (invalid "SUBSCRIBE reserved flags must be 0x02")
  else
  let buf := frame in
  if len buf <? 2 then reject (invalid "SUBSCRIBE truncated packet id")
  else
  let! packetID := Uint16 buf in
  let! buf := from buf 2 in
  let! (props, n) := on_err (fun err => (1, invalid_because "SUBSCRIBE properties" err)) (readProperties buf) in
  let! buf := from buf n in
  let! filters := decodeFilters (S (length buf)) buf in
  if len filters =? 0 then reject (invalid "SUBSCRIBE has no filters")
  else Ok (mkSubscribe packetID props filters).

Fixpoint decodeTopics (fuel : nat) (buf : list Z) : dres (list (list Z)) :=
  match fuel with
  | O => Panic
  | S fuel =>
      if 0 <? len buf then
        let! (topic, tn) := on_err (fun err => (1, invalid_because "UNSUBSCRIBE topic" err)) (readUTF8String buf) in
        let! buf := from buf tn in
        let! ts := decodeTopics fuel buf in
        Ok (topic :: ts)
      else Ok []
  end.

Definition decodeUnsubscribe (frame : list Z) (flags : Z) : dres Unsubscribe :=
  if negb (flags =? 0x02) then reject (invalid "UNSUBSCRIBE reserved flags must be 0x02")
  else
  let buf := frame in
  if len buf <? 2 then reject (invalid "UNSUBSCRIBE truncated packet id")
  else
  let! packetID := Uint16 buf in
  let! buf := from buf 2 in
  let! (props, n) := on_err (fun err => (1, invalid_because "UNSUBSCRIBE properties" err)) (readProperties buf) in
  let! buf := from buf n in
  let! topics := decodeTopics (S (length buf)) buf in
  if len topics =? 0 then reject (invalid "UNSUBSCRIBE has no topics")
  else Ok (mkUnsubscribe packetID props topics).

Definition readSubAckLike (buf : list Z) (pktType : Z) : wres (Z * Properties * list Z) :=
  if len buf <? 2 then Err (invalid "%s truncated packet id")
  else
  let! packetID := Uint16 buf in
  let! buf := from buf 2 in
  let! (props, n) := map_err (invalid_because "%s properties") (readProperties buf) in
  let! buf := from buf n in
  if len buf =? 0 then Err (invalid "%s has no reason codes")
  else Ok (packetID, props, buf).

Definition decodeSuback (frame : list Z) (flags : Z) : dres AckList :=
  if negb (flags =? 0x00) then reject (invalid "SUBACK reserved flags must be 0")
  else
    let! (packetID, props, codes) := on_err (fun err => (1, err)) (readSubAckLike frame SUBACK) in
    Ok (mkAckList packetID props codes).

Definition decodeUnsuback (frame : list Z) (flags : Z) : dres AckList :=
  if negb (flags =? 0x00) then reject (invalid "UNSUBACK reserved flags must be 0")
  else
    let! (packetID, props, codes) := on_err (fun err => (1, err)) (readSubAckLike frame UNSUBACK) in
    Ok (mkAckList packetID props codes).

(** ** The encodings as functions *)

Definition p_var (id : Z) (v : option Z) : list prop :=
  match v with Some x => [(id, VVar (enc_varint x))] | None => [] end.

Definition sub_props (o : SubscribeOpts) : list prop :=
  p_var PropSubscriptionIdentifier (so_SubscriptionIdentifier o) ++ p_user (so_UserProperties o).
Definition enc_filter (f : SubscribeFilter) : list Z := enc_str (f_Topic f) ++ [encodeSubscribeOptions f].
Definition sub_body (o : SubscribeOpts) : list Z :=
  be16 (so_PacketID o) ++ enc_section (sub_props o) ++ concat (map enc_filter (so_Filters o)).
Definition enc_subscribe (o : SubscribeOpts) : list Z := packet (16 * SUBSCRIBE + 2) (sub_body o).

Definition unsub_body (o : UnsubscribeOpts) : list Z :=
  be16 (uo_PacketID o) ++ enc_section (p_user (uo_UserProperties o)) ++ concat (map enc_str (uo_Topics o)).
Definition enc_unsubscribe (o : UnsubscribeOpts) : list Z := packet (16 * UNSUBSCRIBE + 2) (unsub_body o).

Definition ack_props (o : AckListOpts) : list prop :=
  p_string PropReasonString (ao_ReasonString o) ++ p_user (ao_UserProperties o).
Definition ack_body (o : AckListOpts) : list Z :=
  be16 (ao_PacketID o) ++ enc_section (ack_props o) ++ ao_ReasonCodes o.
Definition enc_acklist (t : Z) (o : AckListOpts) : list Z := packet (16 * t) (ack_body o).

(** Fields within their Go types, options MQTT v5 allows, packets that fit. *)
Definition filter_typed (f : SubscribeFilter) : Prop := bytes (f_Topic f) /\ is_u8 (f_QoS f) /\ is_u8 (f_RetainHandling f).
Definition filter_valid (f : SubscribeFilter) : Prop :=
  (f_Topic f <> [] /\ short (f_Topic f) /\ mqtt_utf8 (f_Topic f) = true /\ topic_filter (f_Topic f))
  /\ f_QoS f <= 2 /\ f_RetainHandling f <= 2
  /\ (f_NoLocal f = true -> IsSharedFilter (f_Topic f) = false).

Definition sub_typed (o : SubscribeOpts) : Prop :=
  is_u16 (so_PacketID o) /\ Forall filter_typed (so_Filters o) /\ opt_ok is_u32 (so_SubscriptionIdentifier o)
  /\ bytes_user (so_UserProperties o).
Definition sub_valid (o : SubscribeOpts) : Prop :=
  so_PacketID o <> 0 /\ so_Filters o <> [] /\ Forall filter_valid (so_Filters o)
  /\ opt_ok (fun v => 1 <= v <= MaxVarintValue) (so_SubscriptionIdentifier o) /\ user_ok (so_UserProperties o).
Definition sub_fits (o : SubscribeOpts) : Prop := len (sub_body o) <= MaxVarintValue.

Definition unsub_typed (o : UnsubscribeOpts) : Prop :=
  is_u16 (uo_PacketID o) /\ Forall bytes (uo_Topics o) /\ bytes_user (uo_UserProperties o).
Definition unsub_valid (o : UnsubscribeOpts) : Prop :=
  uo_PacketID o <> 0 /\ uo_Topics o <> []
  /\ Forall (fun t => t <> [] /\ short t /\ mqtt_utf8 t = true /\ topic_filter t) (uo_Topics o)
  /\ user_ok (uo_UserProperties o).
Definition unsub_fits (o : UnsubscribeOpts) : Prop := len (unsub_body o) <= MaxVarintValue.

Definition ack_typed (o : AckListOpts) : Prop :=
  is_u16 (ao_PacketID o) /\ bytes (ao_ReasonCodes o) /\ bytes (ao_ReasonString o) /\ bytes_user (ao_UserProperties o).
Definition ack_valid (t : Z) (o : AckListOpts) : Prop :=
  ao_PacketID o <> 0 /\ ao_ReasonCodes o <> [] /\ Forall (fun rc => In rc (reasonCodes t)) (ao_ReasonCodes o)
  /\ (short (ao_ReasonString o) /\ mqtt_utf8 (ao_ReasonString o) = true) /\ user_ok (ao_UserProperties o).
Definition ack_fits (o : AckListOpts) : Prop := len (ack_body o) <= MaxVarintValue.

(** What the receiver sees. *)
Definition sub_decoded (o : SubscribeOpts) : Subscribe :=
  mkSubscribe (so_PacketID o) (mkProperties (enc_props (sub_props o))) (so_Filters o).
Definition unsub_decoded (o : UnsubscribeOpts) : Unsubscribe :=
  mkUnsubscribe (uo_PacketID o) (mkProperties (enc_props (p_user (uo_UserProperties o)))) (uo_Topics o).
Definition ack_decoded (o : AckListOpts) : AckList :=
  mkAckList (ao_PacketID o) (mkProperties (enc_props (ack_props o))) (ao_ReasonCodes o).

(** ** Validation *)

Lemma len_eqb_nil {A} (l : list A) : (len l =? 0) = false <-> l <> [].
Proof. rewrite Z.eqb_neq, len_nil_iff. done. Qed.

Lemma validateFilters_iff fs :
  Forall filter_typed fs -> validateFilters fs = Ok tt <-> Forall filter_valid fs.
Proof.
  induction 1 as [|f fs (Hb & _ & _) _ IH]; [split; [constructor|done]|]. cbn [validateFilters].
  rewrite rbind_unit_ok, !if_fail_ok, check_ok, ValidTopicFilter_iff, Forall_cons, IH, !Z.ltb_ge, andb_false_iff
    by (done || apply fail_not_ok || apply failf_not_ok).
  unfold filter_valid. fold (short (f_Topic f)). destruct (f_NoLocal f); intuition congruence.
Qed.

Lemma validateSubscribeOpts_iff o : sub_typed o -> validateSubscribeOpts o = Ok tt <-> sub_valid o.
Proof.
  intros (_ & Hf & Hi & Hu). unfold validateSubscribeOpts, sub_valid.
  rewrite !if_fail_ok, rbind_unit_ok, if_fail_ok by (apply fail_not_ok || apply failf_not_ok).
  rewrite validateFilters_iff, user_ok_check, len_eqb_nil, Z.eqb_neq by done.
  assert (HI : (match so_SubscriptionIdentifier o with Some id => (id =? 0) || (MaxVarintValue <? id) | None => false end) = false
               <-> opt_ok (fun v => 1 <= v <= MaxVarintValue) (so_SubscriptionIdentifier o)).
  { destruct (so_SubscriptionIdentifier o) as [i|]; simpl in *; [|done]. unfold is_u32 in Hi.
    rewrite orb_false_iff, Z.eqb_neq, Z.ltb_ge. lia. }
  rewrite HI. tauto.
Qed.

Lemma validateUnsubscribeOpts_iff o : unsub_typed o -> validateUnsubscribeOpts o = Ok tt <-> unsub_valid o.
Proof.
  intros (_ & Ht & Hu). unfold validateUnsubscribeOpts, unsub_valid.
  rewrite !if_fail_ok, rbind_unit_ok, user_ok_check, len_eqb_nil, Z.eqb_neq by (done || apply fail_not_ok).
  assert (HT : validateTopics (uo_Topics o) = Ok tt <->
               Forall (fun t => t <> [] /\ short t /\ mqtt_utf8 t = true /\ topic_filter t) (uo_Topics o)).
  { clear -Ht. induction Ht as [|t ts Hb _ IH]; [split; [constructor|done]|]. cbn [validateTopics].
    rewrite rbind_unit_ok, check_ok, ValidTopicFilter_iff, Forall_cons, IH by done. done. }
  rewrite HT. tauto.
Qed.

Lemma validateAckList_iff t o :
  ack_typed o ->
  validateAckList t (ao_PacketID o) (ao_ReasonCodes o) (ao_ReasonString o) (ao_UserProperties o) = Ok tt <-> ack_valid t o.
Proof.
  intros (_ & _ & Hs & Hu). unfold validateAckList, ack_valid.
  rewrite !if_fail_ok, !rbind_unit_ok, checkString_iff, user_ok_check, len_eqb_nil, Z.eqb_neq
    by (done || apply fail_not_ok || apply failf_not_ok).
  assert (HC : checkReasonCodes t (ao_ReasonCodes o) = Ok tt <-> Forall (fun rc => In rc (reasonCodes t)) (ao_ReasonCodes o)).
  { induction (ao_ReasonCodes o) as [|c cs IH]; [split; [constructor|done]|]. cbn [checkReasonCodes].
    by rewrite rbind_unit_ok, checkReasonCode_iff, Forall_cons, IH. }
  rewrite HC. tauto.
Qed.

(** ** Property lists *)

Lemma sub_props_accepted o : sub_typed o -> sub_valid o -> props_ok SUBSCRIBE (allowedProps SUBSCRIBE) (sub_props o).
Proof.
  intros (_ & _ & _ & _) (_ & _ & _ & Hi & Hu). unfold sub_props.
  apply (props_ok_intro _ _ _ [PropSubscriptionIdentifier]).
  - apply Forall_app. split; [|by apply ok_user]. destruct (so_SubscriptionIdentifier o) as [v|]; [|constructor].
    simpl in Hi. assert (0 <= v <= MaxVarintValue) as Hv by lia.
    assert (Hd : DecodeVarint (enc_varint v) = Ok (v, len (enc_varint v))).
    { rewrite DecodeVarint_spec by (apply bytes_enc_varint; lia). rewrite <- (app_nil_r (enc_varint v)) at 1.
      rewrite dec_enc_varint, len_enc_varint by done. done. }
    apply Forall_singleton. split; [|split; [done|]].
    + split; [by split|]. simpl. split; [done|]. split; [apply bytes_enc_varint; lia|eauto].
    + unfold value_ok. simpl. rewrite Hd. intros n [= Hz _]. lia.
  - apply ids_app; [|apply ids_user]. destruct (so_SubscriptionIdentifier o); [apply single_ids_one|apply sublist_nil_l].
  - by apply NoDup_singleton.
Qed.

Lemma user_props_accepted t ups :
  Z.testbit (allowedProps t) PropUserProperty = true -> user_ok ups -> props_ok t (allowedProps t) (p_user ups).
Proof.
  intros Ha Hu. apply (props_ok_intro _ _ _ []); [by apply ok_user|apply ids_user|constructor].
Qed.

Lemma ack_props_accepted t o :
  t = SUBACK \/ t = UNSUBACK -> ack_typed o -> ack_valid t o -> props_ok t (allowedProps t) (ack_props o).
Proof.
  intros Ht (_ & _ & ? & ?) (_ & _ & _ & [? ?] & ?). unfold ack_props. accepted [PropReasonString].
  apply Forall_app. split; [apply ok_string; try done|apply ok_user; [|done]]; by destruct Ht as [-> | ->].
Qed.

(** ** Writing *)

Lemma writes_filters fs :
  Forall (fun f => short (f_Topic f)) fs -> writes (writeFilters fs) (concat (map enc_filter fs)).
Proof.
  induction 1 as [|f fs Hf _ IH]; [apply writes_nil|]. cbn [writeFilters map concat]. unfold enc_filter. rewrite <- app_assoc.
  wseq; [auto with writes|]. wseq; [auto with writes|]. exact IH.
Qed.

Lemma writes_topics ts : Forall short ts -> writes (writeTopics ts) (concat (map enc_str ts)).
Proof.
  induction 1 as [|t ts Ht _ IH]; [apply writes_nil|]. cbn [writeTopics map concat]. wseq; [auto with writes|]. exact IH.
Qed.

Lemma writes_codes codes : writes (writeCodes codes) codes.
Proof.
  induction codes as [|c cs IH]; [apply writes_nil|]. cbn [writeCodes]. change (c :: cs) with ([c] ++ cs).
  wseq; [auto with writes|]. exact IH.
Qed.

Lemma writes_subscriptionIdentifier id :
  0 <= id <= MaxVarintValue ->
  writes (writeSubscriptionIdentifier id) (PropSubscriptionIdentifier :: enc_varint id).
Proof.
  intros Hid. unfold writeSubscriptionIdentifier. change (PropSubscriptionIdentifier :: enc_varint id)
    with ([PropSubscriptionIdentifier] ++ enc_varint id). wseq; [auto with writes|].
  intros pre old post Hl. rewrite len_enc_varint in * by done. by rewrite EncodeVarint_spec.
Qed.

Lemma filtersLen_spec fs : filtersLen fs = len (concat (map enc_filter fs)).
Proof. induction fs as [|f fs IH]; [done|]. cbn [filtersLen map concat]. rewrite IH. unfold enc_filter. slia. Qed.

Lemma topicsLen_spec ts : topicsLen ts = len (concat (map enc_str ts)).
Proof. induction ts as [|t ts IH]; [done|]. cbn [topicsLen map concat]. rewrite IH. slia. Qed.

Lemma len_sub_props o :
  opt_ok (fun v => 1 <= v <= MaxVarintValue) (so_SubscriptionIdentifier o) ->
  (match so_SubscriptionIdentifier o with Some id => 1 + VarintSize id | None => 0 end) + userPropertiesLen (so_UserProperties o)
  = len (enc_props (sub_props o)).
Proof.
  intros Hi. unfold sub_props. rewrite enc_props_app, userPropertiesLen_spec, len_app. f_equal.
  destruct (so_SubscriptionIdentifier o) as [v|]; [|done]. simpl in Hi. cbn [p_var enc_props]. unfold enc_prop. cbn [fst snd enc_pval].
  rewrite app_nil_r, len_cons, len_enc_varint by lia. done.
Qed.

Lemma len_ack_props o :
  (if list_eqb (ao_ReasonString o) [] then 0 else 1 + 2 + len (ao_ReasonString o)) + userPropertiesLen (ao_UserProperties o)
  = len (enc_props (ack_props o)).
Proof. unfold ack_props. rewrite enc_props_app, userPropertiesLen_spec. autorewrite with len. lia. Qed.

(** The writers: sections and lists in order. *)
Section writers_spec.
Context `{BufferPool}.

Lemma WriteSubscribe_spec o : sub_typed o -> sub_valid o -> sub_fits o -> WriteSubscribe o = Ok (enc_subscribe o).
Proof.
  intros Ht Hv Hf. unfold WriteSubscribe. rewrite (proj2 (validateSubscribeOpts_iff o Ht) Hv). cbn [rbind].
  destruct Hv as (_ & Hne & Hfs & Hi & Hu). rewrite (proj2 (len_eqb_nil _) Hne), len_sub_props by done.
  assert (Hp : len (enc_props (sub_props o)) <= MaxVarintValue) by (unfold sub_fits, sub_body, enc_section in Hf; slia).
  pose proof (len_nonneg (enc_props (sub_props o))). rewrite filtersLen_spec, u32_varint by lia.
  assert (Hb : 2 + VarintSize (len (enc_props (sub_props o))) + len (enc_props (sub_props o))
               + len (concat (map enc_filter (so_Filters o))) = len (sub_body o)).
  { unfold sub_body. rewrite !len_app, len_enc_section by done. slia. }
  rewrite Hb. unfold sub_fits in Hf. pose proof (len_nonneg (sub_body o)). rewrite fixedHdr_spec by lia. cbn [rbind].
  rewrite (writes_whole _ (sub_body o)); [by rewrite first_byte_add by (unfold SUBSCRIBE; lia)| |by apply acquired_len].
  apply user_ok_short in Hu. unfold subscribeBody, sub_body, enc_section. rewrite <- app_assoc.
  wseq; [auto with writes|]. wseq; [apply writes_prefix; lia|]. unfold sub_props. rewrite enc_props_app, <- app_assoc.
  wseq.
  { destruct (so_SubscriptionIdentifier o) as [v|]; [|apply writes_nil]. cbn [p_var enc_props]. rewrite app_nil_r.
    simpl in Hi. apply writes_subscriptionIdentifier. lia. }
  wseq; [auto with writes|]. apply writes_filters. eapply Forall_impl; [exact Hfs|]. unfold filter_valid. tauto.
Qed.

Lemma WriteUnsubscribe_spec o : unsub_typed o -> unsub_valid o -> unsub_fits o -> WriteUnsubscribe o = Ok (enc_unsubscribe o).
Proof.
  intros Ht Hv Hf. unfold WriteUnsubscribe. rewrite (proj2 (validateUnsubscribeOpts_iff o Ht) Hv). cbn [rbind].
  destruct Hv as (_ & Hne & Hts & Hu). rewrite (proj2 (len_eqb_nil _) Hne), userPropertiesLen_spec.
  set (ps := p_user (uo_UserProperties o)).
  assert (Hp : len (enc_props ps) <= MaxVarintValue) by (unfold unsub_fits, unsub_body, enc_section in Hf; subst ps; slia).
  pose proof (len_nonneg (enc_props ps)). rewrite topicsLen_spec, u32_varint by lia.
  assert (Hb : 2 + VarintSize (len (enc_props ps)) + len (enc_props ps) + len (concat (map enc_str (uo_Topics o)))
               = len (unsub_body o)).
  { unfold unsub_body. rewrite !len_app, len_enc_section by done. subst ps. slia. }
  rewrite Hb. unfold unsub_fits in Hf. pose proof (len_nonneg (unsub_body o)). rewrite fixedHdr_spec by lia. cbn [rbind].
  rewrite (writes_whole _ (unsub_body o)); [by rewrite first_byte_add by (unfold UNSUBSCRIBE; lia)| |by apply acquired_len].
  apply user_ok_short in Hu. unfold unsubscribeBody, unsub_body, enc_section. fold ps. rewrite <- app_assoc.
  wseq; [auto with writes|]. wseq; [apply writes_prefix; lia|]. wseq; [subst ps; auto with writes|].
  apply writes_topics. eapply Forall_impl; [exact Hts|]. simpl. tauto.
Qed.

Lemma writeSubAckLike_spec t o :
  0 <= t < 16 -> ack_valid t o -> ack_fits o ->
  writeSubAckLike t (ao_PacketID o) (ao_ReasonCodes o) (ao_ReasonString o) (ao_UserProperties o) = Ok (enc_acklist t o).
Proof.
  intros Ht (_ & Hne & _ & [Hs _] & Hu) Hf. unfold writeSubAckLike. rewrite (proj2 (len_eqb_nil _) Hne).
  rewrite len_ack_props. assert (Hp : len (enc_props (ack_props o)) <= MaxVarintValue)
    by (unfold ack_fits, ack_body, enc_section in Hf; slia).
  pose proof (len_nonneg (enc_props (ack_props o))). rewrite u32_varint by lia.
  assert (Hb : 2 + VarintSize (len (enc_props (ack_props o))) + len (enc_props (ack_props o)) + len (ao_ReasonCodes o)
               = len (ack_body o)).
  { unfold ack_body. rewrite !len_app, len_enc_section by done. slia. }
  rewrite Hb. unfold ack_fits in Hf. pose proof (len_nonneg (ack_body o)). rewrite fixedHdr_spec by lia. cbn [rbind].
  rewrite (writes_whole _ (ack_body o)); [| |by apply acquired_len].
  - cbn [rbind]. rewrite u8_small; [rewrite Z.shiftl_mul_pow2 by lia; change (2 ^ 4) with 16; by rewrite Z.mul_comm|].
    unfold is_u8. rewrite Z.shiftl_mul_pow2 by lia. change (2 ^ 4) with 16. pow2. lia.
  - apply user_ok_short in Hu. unfold ackListBody, ack_body, enc_section. rewrite <- app_assoc.
    wseq; [auto with writes|]. wseq; [apply writes_prefix; lia|]. unfold ack_props. rewrite enc_props_app, <- app_assoc.
    wseq; [auto with writes|]. wseq; [auto with writes|]. apply writes_codes.
Qed.

Lemma WriteSuback_spec o : ack_typed o -> ack_valid SUBACK o -> ack_fits o -> WriteSuback o = Ok (enc_acklist SUBACK o).
Proof.
  intros Ht Hv Hf. unfold WriteSuback. rewrite (proj2 (validateAckList_iff SUBACK o Ht) Hv). cbn [rbind].
  apply writeSubAckLike_spec; [unfold SUBACK; lia|done..].
Qed.
Lemma WriteUnsuback_spec o :
  ack_typed o -> ack_valid UNSUBACK o -> ack_fits o -> WriteUnsuback o = Ok (enc_acklist UNSUBACK o).
Proof.
  intros Ht Hv Hf. unfold WriteUnsuback. rewrite (proj2 (validateAckList_iff UNSUBACK o Ht) Hv). cbn [rbind].
  apply writeSubAckLike_spec; [unfold UNSUBACK; lia|done..].
Qed.
End writers_spec.

(** ** Decoding what was encoded *)

Lemma decodeSubscribeFilter_enc f :
  filter_typed f -> filter_valid f -> decodeSubscribeFilter (f_Topic f) (encodeSubscribeOptions f) = f.
Proof.
  intros (_ & Hq & Hr) (_ & Vq & Vr & _). unfold is_u8 in *. destruct f as [t q nl rap rh]. simpl in *.
  unfold decodeSubscribeFilter, encodeSubscribeOptions. simpl.
  assert (q = 0 \/ q = 1 \/ q = 2) as [-> | [-> | ->]] by lia;
    assert (rh = 0 \/ rh = 1 \/ rh = 2) as [-> | [-> | ->]] by lia; by destruct nl, rap.
Qed.

Lemma encodeSubscribeOptions_u8 f :
  filter_typed f -> filter_valid f -> is_u8 (encodeSubscribeOptions f).
Proof.
  intros (_ & Hq & Hr) (_ & Vq & Vr & _). unfold is_u8 in *. destruct f as [t q nl rap rh]. simpl in *.
  unfold encodeSubscribeOptions. simpl.
  assert (q = 0 \/ q = 1 \/ q = 2) as [-> | [-> | ->]] by lia;
    assert (rh = 0 \/ rh = 1 \/ rh = 2) as [-> | [-> | ->]] by lia; destruct nl, rap; cbv; split; congruence.
Qed.

Lemma idx0_app {E} a l : @idx E ([a] ++ l) 0 = Ok a.
Proof. apply idx_0. Qed.

Lemma decodeFilters_enc fuel fs :
  Forall filter_typed fs -> Forall filter_valid fs -> (length fs < fuel)%nat ->
  decodeFilters fuel (concat (map enc_filter fs)) = Ok fs.
Proof.
  intros Ht. revert fuel. induction Ht as [|f fs Hf _ IH]; intros fuel Hv Hn; (destruct fuel; [lia|]); [done|].
  apply Forall_cons in Hv as [Hv1 Hv]. cbn [decodeFilters map concat].
  assert (E : enc_filter f ++ concat (map enc_filter fs) = enc_str (f_Topic f) ++ [encodeSubscribeOptions f] ++ concat (map enc_filter fs))
    by (unfold enc_filter at 1; by rewrite <- app_assoc).
  rewrite E. assert (Hs : short (f_Topic f)) by apply Hv1.
  rewrite (proj2 (Z.ltb_lt _ _)) by slia. rewrite readUTF8String_enc by done. cbn [on_err rbind].
  rewrite from_app by (by rewrite len_enc_str). cbn [rbind].
  rewrite (proj2 (Z.ltb_ge _ _)) by slia. rewrite idx0_app. cbn [rbind].
  rewrite from_app by done. cbn [rbind]. simpl in Hn. rewrite IH by (done || lia). cbn [rbind].
  by rewrite decodeSubscribeFilter_enc.
Qed.

Lemma decodeTopics_enc fuel ts :
  Forall short ts -> (length ts < fuel)%nat -> decodeTopics fuel (concat (map enc_str ts)) = Ok ts.
Proof.
  intros Ht. revert fuel. induction Ht as [|t ts Hs _ IH]; intros fuel Hn; (destruct fuel; [lia|]); [done|].
  cbn [decodeTopics map concat]. rewrite (proj2 (Z.ltb_lt _ _)) by slia. rewrite readUTF8String_enc by done. cbn [on_err rbind].
  rewrite from_app by (by rewrite len_enc_str). cbn [rbind]. simpl in Hn. by rewrite IH by lia.
Qed.

Lemma length_filters fs : (length fs <= length (concat (map enc_filter fs)))%nat.
Proof.
  induction fs as [|f fs IH]; [done|]. cbn [map concat]. unfold enc_filter at 1. rewrite !length_app. simpl. lia.
Qed.
Lemma length_topics ts : (length ts <= length (concat (map enc_str ts)))%nat.
Proof. induction ts as [|t ts IH]; [done|]. cbn [map concat]. unfold enc_str at 1. rewrite !length_app. simpl. lia. Qed.

Lemma bytes_filters fs : Forall filter_typed fs -> Forall filter_valid fs -> bytes (concat (map enc_filter fs)).
Proof.
  induction 1 as [|f fs Hf _ IH]; intros Hv; [apply bytes_nil|]. apply Forall_cons in Hv as [Hv1 Hv].
  cbn [map concat]. unfold enc_filter at 1. rewrite !bytes_app, bytes_cons.
  pose proof (encodeSubscribeOptions_u8 f Hf Hv1). destruct Hf as (? & _). auto 10 with go.
Qed.

Lemma bytes_topics ts : Forall bytes ts -> bytes (concat (map enc_str ts)).
Proof. induction 1 as [|t ts Ht _ IH]; [apply bytes_nil|]. cbn [map concat]. rewrite bytes_app. auto with go. Qed.

(** Reading a section from a body that fits. *)
Lemma section_rest_small ps (rest : list Z) n :
  len (enc_section ps) + len rest <= n -> n <= MaxVarintValue ->
  len (enc_props ps) <= MaxVarintValue /\ len rest < 2 ^ 31.
Proof. unfold enc_section, MaxVarintValue. change (2 ^ 31) with 2147483648. slia. Qed.

Lemma decodeSubscribe_enc o :
  sub_typed o -> sub_valid o -> sub_fits o -> decodeSubscribe (sub_body o) 2 = Ok (sub_decoded o).
Proof.
  intros Ht Hv Hf. pose proof (sub_props_accepted o Ht Hv) as [Hw _]. destruct Ht as (Hid & Hft & _). destruct Hv as (_ & Hne & Hfv & _).
  unfold sub_fits in Hf. unfold sub_body in *. rewrite !len_app, len_be16 in Hf.
  destruct (section_rest_small (sub_props o) (concat (map enc_filter (so_Filters o))) MaxVarintValue) as [Hp Hr]; [lia|lia|].
  pose proof (bytes_filters _ Hft Hfv). unfold decodeSubscribe. cbn [Z.eqb negb].
  rewrite (proj2 (Z.ltb_ge _ _)) by slia. rewrite Uint16_be16 by done. cbn [rbind]. rewrite from_app by done. cbn [rbind].
  rewrite readProperties_section by done. cbn [on_err rbind]. rewrite from_app by done. cbn [rbind].
  rewrite decodeFilters_enc; [|done|done|pose proof (length_filters (so_Filters o)); lia]. cbn [rbind].
  by rewrite (proj2 (len_eqb_nil _) Hne).
Qed.

Lemma decodeUnsubscribe_enc o :
  unsub_typed o -> unsub_valid o -> unsub_fits o -> decodeUnsubscribe (unsub_body o) 2 = Ok (unsub_decoded o).
Proof.
  intros (Hid & Hft & _) (_ & Hne & Hfv & Hu) Hf.
  destruct (user_props_accepted UNSUBSCRIBE (uo_UserProperties o)) as [Hw _]; [done|done|].
  unfold unsub_fits in Hf. unfold unsub_body in *. rewrite !len_app, len_be16 in Hf.
  destruct (section_rest_small (p_user (uo_UserProperties o)) (concat (map enc_str (uo_Topics o))) MaxVarintValue) as [Hp Hr]; [lia|lia|].
  pose proof (bytes_topics _ Hft). unfold decodeUnsubscribe. cbn [Z.eqb negb].
  rewrite (proj2 (Z.ltb_ge _ _)) by slia. rewrite Uint16_be16 by done. cbn [rbind]. rewrite from_app by done. cbn [rbind].
  rewrite readProperties_section by done. cbn [on_err rbind]. rewrite from_app by done. cbn [rbind].
  rewrite decodeTopics_enc; [|eapply Forall_impl; [exact Hfv|simpl; tauto]|pose proof (length_topics (uo_Topics o)); lia].
  cbn [rbind]. by rewrite (proj2 (len_eqb_nil _) Hne).
Qed.

Lemma readSubAckLike_enc t o :
  t = SUBACK \/ t = UNSUBACK -> ack_typed o -> ack_valid t o -> ack_fits o ->
  readSubAckLike (ack_body o) t = Ok (ao_PacketID o, mkProperties (enc_props (ack_props o)), ao_ReasonCodes o).
Proof.
  intros Ht Hty Hv Hf. pose proof (ack_props_accepted t o Ht Hty Hv) as [Hw _]. destruct Hty as (Hid & Hc & _).
  destruct Hv as (_ & Hne & _). unfold ack_fits in Hf. unfold ack_body in *. rewrite !len_app, len_be16 in Hf.
  destruct (section_rest_small (ack_props o) (ao_ReasonCodes o) MaxVarintValue) as [Hp Hr]; [lia|lia|].
  unfold readSubAckLike. rewrite (proj2 (Z.ltb_ge _ _)) by slia. rewrite Uint16_be16 by done. cbn [rbind].
  rewrite from_app by done. cbn [rbind]. rewrite readProperties_section by done. cbn [map_err rbind].
  rewrite from_app by done. cbn [rbind]. by rewrite (proj2 (len_eqb_nil _) Hne).
Qed.

Lemma decodeAckList_enc o :
  ack_typed o -> ack_fits o ->
  (ack_valid SUBACK o -> decodeSuback (ack_body o) 0 = Ok (ack_decoded o))
  /\ (ack_valid UNSUBACK o -> decodeUnsuback (ack_body o) 0 = Ok (ack_decoded o)).
Proof.
  intros Ht Hf. unfold decodeSuback, decodeUnsuback. cbn [Z.eqb negb].
  split; intros Hv; rewrite readSubAckLike_enc by (done || auto); done.
Qed.

(** ** Decoding any bytes *)

Lemma decodeFilters_no_panic fuel buf : bytes buf -> len buf < Z.of_nat fuel -> no_panic (decodeFilters fuel buf).
Proof.
  revert buf. induction fuel as [|fuel IH]; intros buf Hb Hl; [len_facts; lia|]. cbn [decodeFilters]. np_walk.
  apply no_panic_bind; [apply IH; [done|]; len_facts; lia|]. discriminate.
Qed.

Lemma decodeTopics_no_panic fuel buf : bytes buf -> len buf < Z.of_nat fuel -> no_panic (decodeTopics fuel buf).
Proof.
  revert buf. induction fuel as [|fuel IH]; intros buf Hb Hl; [len_facts; lia|]. cbn [decodeTopics]. np_walk.
  apply no_panic_bind; [apply IH; [done|]; len_facts; lia|]. discriminate.
Qed.

Lemma decodeSubscribe_no_panic frame flags : bytes frame -> len frame < 2 ^ 32 -> no_panic (decodeSubscribe frame flags).
Proof.
  intros Hb Hl. unfold decodeSubscribe. np_walk.
  apply no_panic_bind; [apply decodeFilters_no_panic; [done|unfold len; lia]|]. intros. np_walk.
Qed.

Lemma decodeUnsubscribe_no_panic frame flags : bytes frame -> len frame < 2 ^ 32 -> no_panic (decodeUnsubscribe frame flags).
Proof.
  intros Hb Hl. unfold decodeUnsubscribe. np_walk.
  apply no_panic_bind; [apply decodeTopics_no_panic; [done|unfold len; lia]|]. intros. np_walk.
Qed.

Lemma readSubAckLike_no_panic buf t : bytes buf -> len buf < 2 ^ 32 -> no_panic (readSubAckLike buf t).
Proof.
  intros Hb Hl. unfold readSubAckLike. np_walk.
  apply no_panic_bind; [apply no_panic_map_err, readProperties_no_panic; [done|lia]|]. intros [p n] G%map_err_ok.
  read_facts. np_walk.
Qed.

Lemma decodeAckList_no_panic frame flags :
  bytes frame -> len frame < 2 ^ 32 -> no_panic (decodeSuback frame flags) /\ no_panic (decodeUnsuback frame flags).
Proof.
  intros Hb Hl. unfold decodeSuback, decodeUnsuback. split; np_walk;
    (apply no_panic_bind; [by apply no_panic_on_err, readSubAckLike_no_panic|]); intros [[? ?] ?] _; discriminate.
Qed.

(** The views a decoded packet holds. *)
Lemma decodeFilters_ok fuel buf fs :
  bytes buf -> decodeFilters fuel buf = Ok fs -> Forall (fun f => bytes (f_Topic f)) fs.
Proof.
  revert buf fs. induction fuel as [|fuel IH]; intros buf fs Hb; cbn [decodeFilters]; [discriminate|]. intros G.
  dec_inv G; [|constructor]. constructor; [done|].
  match goal with H : decodeFilters _ _ = Ok _ |- _ => apply IH in H; [done|done] end.
Qed.

Lemma decodeTopics_ok fuel buf ts : bytes buf -> decodeTopics fuel buf = Ok ts -> Forall bytes ts.
Proof.
  revert buf ts. induction fuel as [|fuel IH]; intros buf ts Hb; cbn [decodeTopics]; [discriminate|]. intros G.
  dec_inv G; [|constructor]. constructor; [done|].
  match goal with H : decodeTopics _ _ = Ok _ |- _ => apply IH in H; [done|done] end.
Qed.

Lemma decodeSubscribe_ok frame flags p :
  bytes frame -> decodeSubscribe frame flags = Ok p ->
  bytes (raw (s_Properties p)) /\ Forall (fun f => bytes (f_Topic f)) (s_Filters p).
Proof.
  intros Hb. unfold decodeSubscribe. cbv zeta. intros G. dec_inv G.
  match goal with H : decodeFilters _ _ = Ok _ |- _ => apply decodeFilters_ok in H; [done|done] end.
Qed.

Lemma decodeUnsubscribe_ok frame flags p :
  bytes frame -> decodeUnsubscribe frame flags = Ok p -> bytes (raw (u_Properties p)) /\ Forall bytes (u_Topics p).
Proof.
  intros Hb. unfold decodeUnsubscribe. cbv zeta. intros G. dec_inv G.
  match goal with H : decodeTopics _ _ = Ok _ |- _ => apply decodeTopics_ok in H; [done|done] end.
Qed.

Lemma decodeAckList_ok frame flags p :
  bytes frame -> decodeSuback frame flags = Ok p \/ decodeUnsuback frame flags = Ok p -> bytes (raw (a_Properties p)).
Proof.
  intros Hb. unfold decodeSuback, decodeUnsuback, readSubAckLike. intros [G|G]; dec_inv G;
    match goal with H : (if _ then _ else _) = Ok _ |- _ => dec_inv H end;
    match goal with H : map_err _ _ = Ok _ |- _ => apply map_err_ok in H end; read_facts; done.
Qed.

Lemma decodeFilters_frame fuel buf : frame_owned (decodeFilters fuel buf).
Proof. revert buf. induction fuel as [|fuel IH]; intros buf; cbn [decodeFilters]; frame_walk; apply IH. Qed.
Lemma decodeTopics_frame fuel buf : frame_owned (decodeTopics fuel buf).
Proof. revert buf. induction fuel as [|fuel IH]; intros buf; cbn [decodeTopics]; frame_walk; apply IH. Qed.
#[export] Hint Resolve decodeFilters_frame decodeTopics_frame : frame.

Lemma subscribe_frames frame flags :
  frame_owned (decodeSubscribe frame flags) /\ frame_owned (decodeUnsubscribe frame flags)
  /\ frame_owned (decodeSuback frame flags) /\ frame_owned (decodeUnsuback frame flags).
Proof.
  unfold decodeSubscribe, decodeUnsubscribe, decodeSuback, decodeUnsuback. repeat split; frame_walk.
Qed.
