(* ===== verification/Decoder.v ===== *)
(** * Decoder: reading packets from a connection (wire/codec.go, wire/validate.go)

    [checkHeader], the body reader with its bounded growth, [decodeBody],
    [validatePacket], [ReadPacket] and [Ready].  The packet decoders and
    encoders meet here: whatever an encoder writes, [ReadPacket] reads back,
    and no bytes a peer sends make it panic. *)

From S2P Require Import Prelude GoLib Errors Buffers Varint Fields PropView Utf8 Topics Validate PropLists Frames.
From S2P Require Import Publish Acks Connect Subscribe.

(** ** Packets *)

(** [Packet] *)
Inductive Packet : Type :=
| PConnect (c : Connect.Connect)
| PConnack (c : Connack.Connack)
| PPublish (p : Publish)
| PPubResp (p : PubResp.PubResp)
| PSubscribe (s : Subscribe)
| PSuback (s : AckList)
| PUnsubscribe (u : Unsubscribe)
| PUnsuback (u : AckList)
| PPingreq
| PPingresp
| PDisconnect (d : Disconnect.Disconnect)
| PAuth (a : Auth.Auth).

(** [Packet.Type()] *)
Definition Type_ (p : Packet) : Z :=
  match p with
  | PConnect _ => CONNECT
  | PConnack _ => CONNACK
  | PPublish _ => PUBLISH
  | PPubResp p => PubResp.pktType p
  | PSubscribe _ => SUBSCRIBE
  | PSuback _ => SUBACK
  | PUnsubscribe _ => UNSUBSCRIBE
  | PUnsuback _ => UNSUBACK
  | PPingreq => PINGREQ
  | PPingresp => PINGRESP
  | PDisconnect _ => DISCONNECT
  | PAuth _ => AUTH
  end.

(** ** The fixed header *)

(** [fixedFlags[t]] *)
Definition fixedFlags (t : Z) : Z := if (t =? PUBREL) || (t =? SUBSCRIBE) || (t =? UNSUBSCRIBE) then 0x02 else 0.

(** The violation, if any, and whether lenient decoding tolerates it. *)
Definition checkHeader (t flags remaining : Z) (minimal : bool) : option (PacketError * bool) :=
  if ((t =? PINGREQ) || (t =? PINGRESP)) && negb (remaining =? 0)
  then Some (malformed t "non-empty body (%d bytes)", false)
  else if negb (t =? PUBLISH) && (CONNECT <=? t) && (t <=? AUTH) && negb (flags =? fixedFlags t)
  then Some (malformed t "reserved fixed-header flags %#x", t =? PINGRESP)
  else if negb minimal then Some (malformed t "Remaining Length not minimally encoded", true)
  else None.

(** ** Bodies *)

Definition pmap {A} (f : A -> Packet) (m : dres A) : dres Packet := let! a := m in Ok (f a).

Definition decodeBody (bp : list Z) (pktType flags : Z) : dres Packet :=
  if pktType =? CONNECT then pmap PConnect (Connect.decodeConnect bp flags)
  else if pktType =? CONNACK then pmap PConnack (Connack.decodeConnack bp flags)
  else if pktType =? PUBLISH then pmap PPublish (decodePublish bp flags)
  else if (pktType =? PUBACK) || (pktType =? PUBREC) || (pktType =? PUBREL) || (pktType =? PUBCOMP)
  then pmap PPubResp (PubResp.decodePubResp bp pktType flags)
  else if pktType =? SUBSCRIBE then pmap PSubscribe (decodeSubscribe bp flags)
  else if pktType =? SUBACK then pmap PSuback (decodeSuback bp flags)
  else if pktType =? UNSUBSCRIBE then pmap PUnsubscribe (decodeUnsubscribe bp flags)
  else if pktType =? UNSUBACK then pmap PUnsuback (decodeUnsuback bp flags)
  else if pktType =? PINGREQ then pmap (fun _ => PPingreq) (Ping.decodePingreq bp flags)
  else if pktType =? PINGRESP then pmap (fun _ => PPingresp) (Ping.decodePingresp bp flags)
  else if pktType =? DISCONNECT then pmap PDisconnect (Disconnect.decodeDisconnect bp flags)
  else if pktType =? AUTH then pmap PAuth (Auth.decodeAuth bp flags)
  else reject (Errorf "%w: %s" [Sentinel ErrUnsupportedPacket]).

(** ** Semantic validation *)

Fixpoint checkReasons (t : Z) (codes : list Z) : pres :=
  match codes with
  | [] => Ok tt
  | rc :: codes => let! _ := checkReason t rc in checkReasons t codes
  end.

Fixpoint checkSubscribeFilters (t : Z) (fs : list SubscribeFilter) : pres :=
  match fs with
  | [] => Ok tt
  | f :: fs =>
      match ValidTopicFilter (f_Topic f) with
      | Some _ => Err (protocolError t "%v")
      | None =>
          if f_NoLocal f && IsSharedFilter (f_Topic f) then Err (protocolError t "No Local on shared subscription %q")
          else checkSubscribeFilters t fs
      end
  end.

Fixpoint checkTopicFilters (t : Z) (ts : list (list Z)) : pres :=
  match ts with
  | [] => Ok tt
  | f :: ts => match ValidTopicFilter f with Some _ => Err (protocolError t "%v") | None => checkTopicFilters t ts end
  end.

Definition validatePublish (x : Publish) : pres :=
  let t := PUBLISH in
  let (valid, wildcard) := scanTopicName (p_Topic x) in
  if negb valid then Err (malformed t "topic name is not well-formed UTF-8 or contains U+0000")
  else if wildcard then Err (protocolError t "topic name %q contains a wildcard")
  else if (0 <? p_QoS x) && (p_PacketID x =? 0) then Err (protocolError t "packet identifier 0")
  else
    let! _ := validateProps t (raw (p_Properties x)) publishProps in
    if list_eqb (p_Topic x) [] then
      match PUint16 (p_Properties x) PropTopicAlias with
      | Ok (Some _) => Ok tt
      | Ok None => Err (protocolError t "empty topic name without a Topic Alias")
      | _ => Panic
      end
    else Ok tt.

Definition validateConnect (x : Connect.Connect) : pres :=
  let t := CONNECT in
  if negb (validUTF8 (Connect.c_ClientID x)) || negb (validUTF8 (Connect.c_Username x))
  then Err (malformed t "client identifier or user name is not well-formed UTF-8")
  else
    let! _ := validateProps t (raw (Connect.c_Properties x)) (allowedProps t) in
    match Connect.c_Will x with
    | Some w =>
        if (match ValidTopicName (Connect.w_Topic w) with Some _ => true | None => false end) || list_eqb (Connect.w_Topic w) []
        then Err (protocolError t "invalid will topic %q")
        else validateProps t (raw (Connect.w_Properties w)) willProps
    | None => Ok tt
    end.

Definition validatePacket (p : Packet) : pres :=
  let t := Type_ p in
  match p with
  | PPublish x => validatePublish x
  | PConnack x =>
      let! _ := checkReason t (Connack.ReasonCode x) in
      validateProps t (raw (Connack.Properties x)) (allowedProps t)
  | PPubResp x =>
      if PubResp.PacketID x =? 0 then Err (protocolError t "packet identifier 0")
      else
        let! _ := checkReason t (PubResp.ReasonCode x) in
        validateProps t (raw (PubResp.Properties x)) (allowedProps t)
  | PSuback x | PUnsuback x =>
      if a_PacketID x =? 0 then Err (protocolError t "packet identifier 0")
      else
        let! _ := checkReasons t (a_ReasonCodes x) in
        validateProps t (raw (a_Properties x)) (allowedProps t)
  | PDisconnect x =>
      let! _ := checkReason t (Disconnect.ReasonCode x) in
      validateProps t (raw (Disconnect.Properties x)) (allowedProps t)
  | PAuth x =>
      let! _ := checkReason t (Auth.ReasonCode x) in
      validateProps t (raw (Auth.Properties x)) (allowedProps t)
  | PConnect x => validateConnect x
  | PSubscribe x =>
      if s_PacketID x =? 0 then Err (protocolError t "packet identifier 0")
      else
        let! _ := checkSubscribeFilters t (s_Filters x) in
        validateProps t (raw (s_Properties x)) (allowedProps t)
  | PUnsubscribe x =>
      if u_PacketID x =? 0 then Err (protocolError t "packet identifier 0")
      else
        let! _ := checkTopicFilters t (u_Topics x) in
        validateProps t (raw (u_Properties x)) (allowedProps t)
  | PPingreq | PPingresp => Ok tt
  end.

(** ** Reading from the connection *)

(** [err == io.EOF] *)
Definition is_EOF (e : error) : bool := match e with Sentinel EOF => true | _ => false end.

(** [io.ReadFull(r, b)] with [len(b) == n]: the bytes read, the error, the
    reader after. *)
Definition ReadFull (r : Reader) (n : Z) : list Z * option error * Reader :=
  if n <=? len (r_bytes r) then (ztake n (r_bytes r), None, mkReader (zdrop n (r_bytes r)) (r_end r))
  else
    let err := if (0 <? len (r_bytes r)) && is_EOF (r_end r) then Sentinel ErrUnexpectedEOF else r_end r in
    (r_bytes r, Some err, mkReader [] (r_end r)).

Definition largeBodyChunk : Z := 65536.

(** The loop of [readBody]: [body] is the buffer, [got] how much of it is
    filled. Also returns the sizes of the buffers it allocated with [make],
    each with the number of body bytes that had arrived. *)
Fixpoint readBody_loop (fuel : nat) (r : Reader) (n : Z) (body : list Z) (got : Z)
    : wres (list Z * Reader) * list (Z * Z) :=
  match fuel with
  | O => (Panic, [])
  | S fuel =>
      let '(bs, err, r) := ReadFull r (len body - got) in
      let body := ztake got body ++ bs ++ zdrop (got + len bs) body in
      let got := got + len bs in
      match err with
      | Some err => (Err (if errors_is err EOF then Sentinel ErrUnexpectedEOF else err), [])
      | None =>
          if got =? n then (Ok (body, r), [])
          else
            let next := if n <=? 8 * got then n else 4 * len body in
            let size := Z.min n next in
            let grown := ztake got body ++ repeat 0 (Z.to_nat (size - got)) in
            let (res, allocs) := readBody_loop fuel r n grown got in
            (res, (size, got) :: allocs)
      end
  end.

Section reading.
Context `{BufferPool}.

(** [Decoder.readBody]: the body and the reader after it, and the buffers
    allocated on the way. Ten rounds of growth by at least four cover any
    Remaining Length. *)
Definition readBody (r : Reader) (n : Z) : wres (list Z * Reader) * list (Z * Z) :=
  if n <=? largeBodyChunk then
    let '(bs, err, r) := ReadFull r n in
    match err with
    | Some err => (Err err, [])
    | None => (Ok (bs, r), [])
    end
  else readBody_loop 10 r n (acquired largeBodyChunk) 0.

(** [Decoder], without its reader: the size limit (0: none) and whether
    violations are tolerated. *)
Record Decoder : Type := mkDecoder { maxPacket : Z; lenient : bool }.

(** [Decoder.ReadPacket]: the violations reported to [lenient], and the
    packet with the reader after it. *)
Definition ReadPacket (d : Decoder) (r : Reader) : list PacketError * wres (Packet * Reader) :=
  match ReadByte r with
  | Err err => ([], Err err)
  | Panic => ([], Panic)
  | Ok (b0, r) =>
      let pktType := Z.shiftr b0 4 in
      let flags := Z.land b0 0x0F in
      match ReadVarint r with
      | Panic => ([], Panic)
      | Err err =>
          let err := if errors_is err EOF then Sentinel ErrUnexpectedEOF else err in
          ([], Err (asPacketError pktType (Errorf "mqttv5: read remaining length: %w" [err])))
      | Ok (remaining, n, r) =>
          let total := 1 + n + remaining in
          if (0 <? maxPacket d) && (maxPacket d <? total)
          then ([], failf "%w: %s of %d bytes, limit %d" [Sentinel ErrPacketTooLarge])
          else
            let finish (reports : list PacketError) (flags : Z) :=
              (reports,
               let! (bp, r) := fst (readBody r remaining) in
               let! p := on_err (fun e => asPacketError pktType e.2) (decodeBody bp pktType flags) in
               match validatePacket p with
               | Ok _ => Ok (p, r)
               | Err perr => Err (PacketErr perr)
               | Panic => Panic
               end) in
            match checkHeader pktType flags remaining (n =? VarintSize remaining) with
            | Some (perr, tolerable) =>
                if negb tolerable || negb (lenient d) then ([], Err (PacketErr perr))
                else finish [perr] (if pktType =? PINGRESP then 0 else flags)
            | None => finish [] flags
            end
      end
  end.
End reading.

(** [Decoder.Ready]: [buffered] is what [br] holds. *)
Definition Ready (buffered : list Z) : wres bool :=
  let n := len buffered in
  if n <? 2 then Ok false
  else
    let hdr := ztake (Z.min n (1 + maxVarintBytes)) buffered in
    let! rest := from hdr 1 in
    match DecodeVarint rest with
    | Ok (size, k) => Ok (1 + k + size <=? n)
    | Err _ => Ok false
    | Panic => Panic
    end.

(** ** The body reader *)

Lemma ReadFull_enough r n :
  n <= len (r_bytes r) -> ReadFull r n = (ztake n (r_bytes r), None, mkReader (zdrop n (r_bytes r)) (r_end r)).
Proof. intros H. unfold ReadFull. by rewrite (proj2 (Z.leb_le _ _)). Qed.

Lemma ReadFull_short r n :
  len (r_bytes r) < n -> exists e, ReadFull r n = (r_bytes r, Some e, mkReader [] (r_end r)).
Proof. intros H. unfold ReadFull. rewrite (proj2 (Z.leb_gt _ _)) by done. eauto. Qed.

(** What a round of growth leaves behind: the buffers allocated when [got]
    bytes had arrived, out of [avail]. *)
Definition alloc_ok (avail n : Z) (a : Z * Z) : Prop := let (size, got) := a in 0 < got <= avail /\ got < size <= 8 * got /\ size <= n.
Definition alloc_sum (l : list (Z * Z)) : Z := fold_right (fun a s => fst a + s) 0 l.

Lemma take_more (src : list Z) got k :
  0 <= got -> 0 <= k -> got + k <= len src -> ztake got src ++ ztake k (zdrop got src) = ztake (got + k) src.
Proof.
  intros H1 H2 H3. rewrite <- (ztake_zdrop (got + k) src) at 1 2.
  assert (Hl : len (ztake (got + k) src) = got + k) by (apply len_ztake; lia).
  destruct (split_at got (ztake (got + k) src)) as (a & b & E & Ha); [lia|]. rewrite E in *. rewrite len_app in Hl.
  rewrite <- app_assoc, ztake_app_len, zdrop_app_len, ztake_app_len by lia. done.
Qed.

Lemma readBody_loop_spec fuel src e n body got :
  0 <= got < len body -> len body <= n -> n <= len body * 4 ^ (Z.of_nat fuel - 1) ->
  ztake got body = ztake got src -> got <= len src ->
  let out := readBody_loop fuel (mkReader (zdrop got src) e) n body got in
  (if n <=? len src then fst out = Ok (ztake n src, mkReader (zdrop n src) e) else exists err, fst out = Err err)
  /\ Forall (alloc_ok (len src) n) (snd out).
Proof.
  revert body got. induction fuel as [|fuel IH]; intros body got Hg Hb Hf Hpre HS.
  { simpl in Hf. change (4 ^ (-1)) with 0 in Hf. lia. }
  cbn zeta. cbn [readBody_loop]. set (r := mkReader (zdrop got src) e).
  assert (Hr : len (r_bytes r) = len src - got) by (simpl; apply len_zdrop; lia).
  destruct (Z.le_gt_cases (len body) (len src)) as [Hen|Hsh].
  2:{ destruct (ReadFull_short r (len body - got)) as [err ->]; [lia|]. cbn [fst snd].
      rewrite (proj2 (Z.leb_gt n (len src))) by lia. split; [eauto|constructor]. }
  rewrite ReadFull_enough by lia. cbn [r_bytes r_end r].
  assert (Hlen : len (ztake (len body - got) (zdrop got src)) = len body - got)
    by (apply len_ztake; rewrite len_zdrop; lia).
  rewrite Hlen. replace (got + (len body - got)) with (len body) by lia.
  rewrite (zdrop_past (len body) body), app_nil_r, Hpre, take_more by lia.
  replace (got + (len body - got)) with (len body) by lia.
  rewrite zdrop_zdrop by lia. replace (got + (len body - got)) with (len body) by lia.
  assert (HB : len (ztake (len body) src) = len body) by (apply len_ztake; lia). rewrite HB.
  destruct (Z.eqb_spec (len body) n) as [<-|Hne].
  { rewrite (proj2 (Z.leb_le _ _)) by lia. split; [done|constructor]. }
  set (next := if n <=? 8 * len body then n else 4 * len body). set (size := Z.min n next).
  assert (Hsize : len body < size <= n /\ size <= 8 * len body /\ n <= size * 4 ^ (Z.of_nat fuel - 1)).
  { assert (Hfu : 1 <= Z.of_nat fuel).
    { destruct fuel; [|lia]. change (Z.of_nat 1 - 1) with 0 in Hf. lia. }
    assert (Hpow : 4 ^ (Z.of_nat (S fuel) - 1) = 4 * 4 ^ (Z.of_nat fuel - 1))
      by (rewrite <- Z.pow_succ_r by lia; f_equal; lia).
    assert (0 < 4 ^ (Z.of_nat fuel - 1)) by (apply Z.pow_pos_nonneg; lia).
    subst size next. destruct (Z.leb_spec n (8 * len body)); rewrite ?Z.min_id, ?Z.min_r by lia; repeat split; nia. }
  set (grown := ztake (len body) (ztake (len body) src) ++ repeat 0 (Z.to_nat (size - len body))).
  assert (Hgt : ztake (len body) (ztake (len body) src) = ztake (len body) src) by (rewrite <- HB at 1; apply ztake_len).
  assert (Hgl : len grown = size) by (subst grown; rewrite Hgt, len_app, len_repeat, HB; lia).
  specialize (IH grown (len body)). cbn zeta in IH.
  assert (Hgpre : ztake (len body) grown = ztake (len body) src) by (subst grown; rewrite Hgt; by apply ztake_app_len).
  rewrite Hgl in IH. destruct IH as [IH1 IH2]; [lia|lia|lia|done|lia|].
  destruct (readBody_loop fuel _ n grown (len body)) as [res allocs]. cbn [fst snd] in *.
  split; [done|]. constructor; [|done]. unfold alloc_ok. lia.
Qed.

(** The total of the allocations from a buffer smaller than the body. *)
Lemma readBody_loop_sum fuel src e n body got :
  0 <= got < len body -> len body < n -> got <= len src ->
  3 * alloc_sum (snd (readBody_loop fuel (mkReader (zdrop got src) e) n body got)) <= Z.max (3 * n) (5 * n - 4 * len body).
Proof.
  revert body got. induction fuel as [|fuel IH]; intros body got Hg Hb HS; [simpl; lia|].
  cbn [readBody_loop]. set (r := mkReader (zdrop got src) e).
  assert (Hr : len (r_bytes r) = len src - got) by (simpl; apply len_zdrop; lia).
  destruct (Z.le_gt_cases (len body) (len src)) as [Hen|Hsh].
  2:{ destruct (ReadFull_short r (len body - got)) as [err ->]; [lia|]. simpl. lia. }
  rewrite ReadFull_enough by lia. cbn [r_bytes r_end r].
  assert (Hlen : len (ztake (len body - got) (zdrop got src)) = len body - got)
    by (apply len_ztake; rewrite len_zdrop; lia).
  rewrite Hlen. replace (got + (len body - got)) with (len body) by lia.
  rewrite zdrop_zdrop by lia. replace (got + (len body - got)) with (len body) by lia.
  set (body' := ztake got body ++ _).
  assert (HB : len body' = len body).
  { subst body'. rewrite !len_app, Hlen, len_ztake, len_zdrop by lia. lia. }
  rewrite HB. rewrite (proj2 (Z.eqb_neq _ _)) by lia.
  set (next := if n <=? 8 * len body then n else 4 * len body). set (size := Z.min n next).
  set (grown := ztake (len body) body' ++ repeat 0 (Z.to_nat (size - len body))).
  assert (Hsz : len body < size <= n) by (subst size next; destruct (Z.leb_spec n (8 * len body)); lia).
  assert (Hgl : len grown = size) by (subst grown; rewrite len_app, len_repeat, len_ztake by lia; lia).
  destruct (Z.leb_spec n (8 * len body)) as [Hlast|Hgrow].
  - assert (size = n) as Hsn by (subst size next; lia).
    assert (Hdone : snd (readBody_loop fuel (mkReader (zdrop (len body) src) e) n grown (len body)) = []).
    { destruct fuel as [|fuel]; [done|]. cbn [readBody_loop]. set (r2 := mkReader (zdrop (len body) src) e).
      assert (Hr2 : len (r_bytes r2) = len src - len body) by (simpl; apply len_zdrop; lia).
      destruct (Z.le_gt_cases n (len src)).
      - rewrite ReadFull_enough by lia. rewrite len_ztake by lia. rewrite (proj2 (Z.eqb_eq _ n)) by lia. done.
      - destruct (ReadFull_short r2 (len grown - len body)) as [err ->]; [lia|]. done. }
    destruct (readBody_loop fuel _ n grown (len body)) as [res allocs]. cbn [snd] in *. subst allocs. simpl. lia.
  - assert (size = 4 * len body) as Hsn by (subst size next; lia).
    specialize (IH grown (len body) ltac:(lia) ltac:(lia) ltac:(lia)).
    destruct (readBody_loop fuel _ n grown (len body)) as [res allocs]. cbn [snd] in *.
    change (alloc_sum ((size, len body) :: allocs)) with (size + alloc_sum allocs). lia.
Qed.

Section reading_spec.
Context `{BufferPool}.

(** [readBody] is [io.ReadFull], whatever path it takes. *)
Lemma readBody_spec r n :
  0 <= n <= MaxVarintValue ->
  (if n <=? len (r_bytes r) then fst (readBody r n) = Ok (ztake n (r_bytes r), mkReader (zdrop n (r_bytes r)) (r_end r))
   else exists err, fst (readBody r n) = Err err)
  /\ Forall (alloc_ok (len (r_bytes r)) n) (snd (readBody r n)).
Proof.
  intros Hn. destruct r as [src e]. unfold readBody. cbn [r_bytes r_end].
  destruct (Z.leb_spec n largeBodyChunk) as [Hs|Hl].
  - destruct (Z.leb_spec n (len src)).
    + rewrite ReadFull_enough by done. split; [done|constructor].
    + destruct (ReadFull_short (mkReader src e) n) as [err ->]; [done|]. split; [eauto|constructor].
  - unfold largeBodyChunk, MaxVarintValue in *. assert (Hc : len (acquired 65536) = 65536) by (by apply acquired_len).
    pose proof (len_nonneg src). change src with (zdrop 0 src) at 2 5.
    apply (readBody_loop_spec 10 src e n (acquired 65536) 0); [lia|lia| |done|lia].
    rewrite Hc. change (4 ^ (Z.of_nat 10 - 1)) with 262144. lia.
Qed.

Lemma readBody_no_panic r n : 0 <= n <= MaxVarintValue -> no_panic (fst (readBody r n)).
Proof.
  intros Hn. destruct (readBody_spec r n Hn) as [Hs _]. destruct (n <=? _); [by rewrite Hs|].
  destruct Hs as [err ->]. discriminate.
Qed.

Lemma readBody_ok r n bp r' :
  0 <= n <= MaxVarintValue -> fst (readBody r n) = Ok (bp, r') ->
  n <= len (r_bytes r) /\ bp = ztake n (r_bytes r) /\ r' = mkReader (zdrop n (r_bytes r)) (r_end r).
Proof.
  intros Hn E. destruct (readBody_spec r n Hn) as [Hs _]. destruct (Z.leb_spec n (len (r_bytes r))).
  - rewrite E in Hs. injection Hs as -> ->. done.
  - destruct Hs as [err Hs]. congruence.
Qed.

Lemma readBody_sum r n : 0 <= n <= MaxVarintValue -> 3 * alloc_sum (snd (readBody r n)) <= 5 * n.
Proof.
  intros Hn. destruct r as [src e]. unfold readBody. cbn [r_bytes r_end].
  destruct (Z.leb_spec n largeBodyChunk) as [Hs|Hl].
  - destruct (ReadFull _ _) as [[? [?|]] ?]; simpl; lia.
  - unfold largeBodyChunk, MaxVarintValue in *. assert (Hc : len (acquired 65536) = 65536) by (by apply acquired_len).
    pose proof (len_nonneg src). change src with (zdrop 0 src) at 1.
    pose proof (readBody_loop_sum 10 src e n (acquired 65536) 0). lia.
Qed.
End reading_spec.

(** ** No input makes the decoder panic *)

Lemma pmap_no_panic {A} (f : A -> Packet) (m : dres A) : no_panic m -> no_panic (pmap f m).
Proof. intros. apply no_panic_bind; [done|]. discriminate. Qed.

Lemma decodeBody_no_panic bp t flags : bytes bp -> len bp < 2 ^ 32 -> no_panic (decodeBody bp t flags).
Proof.
  intros Hb Hl. destruct (decodeAckList_no_panic bp flags Hb Hl). unfold decodeBody.
  repeat case_match; try discriminate; apply pmap_no_panic;
    auto using Connect.decodeConnect_no_panic, Connack.decodeConnack_no_panic, decodePublish_no_panic,
      PubResp.decodePubResp_no_panic, decodeSubscribe_no_panic, decodeUnsubscribe_no_panic,
      Disconnect.decodeDisconnect_no_panic, Auth.decodeAuth_no_panic; discriminate.
Qed.

(** The bytes behind a packet's fields. *)
Definition packet_bytes (p : Packet) : Prop :=
  match p with
  | PConnect c => Connect.bytes_connect c
  | PConnack c => bytes (raw (Connack.Properties c))
  | PPublish p => bytes (p_Topic p) /\ bytes (raw (p_Properties p))
  | PPubResp p => bytes (raw (PubResp.Properties p))
  | PSubscribe s => bytes (raw (s_Properties s)) /\ Forall (fun f => bytes (f_Topic f)) (s_Filters s)
  | PSuback s | PUnsuback s => bytes (raw (a_Properties s))
  | PUnsubscribe u => bytes (raw (u_Properties u)) /\ Forall bytes (u_Topics u)
  | PPingreq | PPingresp => True
  | PDisconnect d => bytes (raw (Disconnect.Properties d))
  | PAuth a => bytes (raw (Auth.Properties a))
  end.

Lemma pmap_ok {A} (f : A -> Packet) (m : dres A) p : pmap f m = Ok p -> exists a, m = Ok a /\ p = f a.
Proof. intros G. apply rbind_ok_inv in G as (a & Ha & [= <-]). eauto. Qed.

(** A decoded packet has the type it was decoded as. *)
Lemma decodeBody_ok bp t flags p : bytes bp -> decodeBody bp t flags = Ok p -> packet_bytes p /\ Type_ p = t.
Proof.
  intros Hb. unfold decodeBody.
  repeat match goal with |- (if ?c then _ else _) = Ok _ -> _ => destruct c eqn:? end; try discriminate;
    intros G; apply pmap_ok in G as (a & Ha & ->); simpl;
    repeat match goal with H : (t =? _) = true |- _ => apply Z.eqb_eq in H end; subst.
  - split; [by eapply Connect.decodeConnect_ok|done].
  - split; [by eapply Connack.decodeConnack_ok|done].
  - split; [by eapply decodePublish_ok|done].
  - by eapply PubResp.decodePubResp_ok.
  - split; [by eapply decodeSubscribe_ok|done].
  - split; [by eapply decodeAckList_ok; [|left]|done].
  - split; [by eapply decodeUnsubscribe_ok|done].
  - split; [by eapply decodeAckList_ok; [|right]|done].
  - done.
  - done.
  - split; [by eapply Disconnect.decodeDisconnect_ok|done].
  - split; [by eapply Auth.decodeAuth_ok|done].
Qed.

Lemma checkReasons_no_panic t codes : no_panic (checkReasons t codes).
Proof. induction codes; simpl; [discriminate|]. apply no_panic_bind; auto with nopanic. Qed.
Lemma checkSubscribeFilters_no_panic t fs : no_panic (checkSubscribeFilters t fs).
Proof. induction fs; simpl; [discriminate|]. repeat case_match; done || discriminate. Qed.
Lemma checkTopicFilters_no_panic t ts : no_panic (checkTopicFilters t ts).
Proof. induction ts; simpl; [discriminate|]. case_match; done || discriminate. Qed.
#[export] Hint Resolve checkReasons_no_panic checkSubscribeFilters_no_panic checkTopicFilters_no_panic : nopanic.

Lemma validatePacket_no_panic p : packet_bytes p -> no_panic (validatePacket p).
Proof.
  destruct p as [c|c|p|p|s|s|u|u| | |d|a]; simpl; intros Hb;
    try (case_match; [discriminate|]); try (apply no_panic_bind; [by auto with nopanic|intros _ _]);
    try (by auto with nopanic); try discriminate; try (apply validateProps_no_panic; tauto).
  - unfold validateConnect. destruct Hb as (_ & _ & Hp & Hw). case_match; [discriminate|].
    apply no_panic_bind; [by auto with nopanic|]. intros _ _. destruct (Connect.c_Will c) as [w|]; [|discriminate].
    destruct (Hw w eq_refl) as [_ ?]. case_match; [discriminate|]. by auto with nopanic.
  - unfold validatePublish. destruct Hb as [_ Hp]. destruct (scanTopicName (p_Topic p)) as [v w].
    repeat (case_match; [discriminate|]). apply no_panic_bind; [by auto with nopanic|]. intros _ _.
    case_match; [|discriminate]. pose proof (PUint16_no_panic (p_Properties p) PropTopicAlias Hp) as Hn.
    pose proof (PUint16_not_err (p_Properties p) PropTopicAlias) as He.
    destruct (PUint16 _ _) as [[?|]|e|]; try discriminate; [by destruct (He e)|done].
Qed.

Section no_panic.
Context `{BufferPool}.

Lemma ReadPacket_no_panic d r : bytes (r_bytes r) -> no_panic (snd (ReadPacket d r)).
Proof.
  intros Hb. unfold ReadPacket. destruct r as [[|b0 src] e]; simpl; [discriminate|]. simpl in Hb.
  apply bytes_cons in Hb as [Hb0 Hb]. pose proof (ReadVarint_no_panic (mkReader src e)) as Hv.
  destruct (ReadVarint (mkReader src e)) as [[[remaining n] r]|err|] eqn:E; [|discriminate|done].
  apply ReadVarint_inv in E as (Hd & ->); [|done]. pose proof (DecodeVarint_ok _ _ _ Hb Hd) as (Hrem & Hn & Hle).
  case_match; [discriminate|].
  assert (Hfin : forall flags, no_panic (
     let! (bp, r) := fst (readBody (mkReader (zdrop n src) e) remaining) in
     let! p := on_err (fun x => asPacketError (Z.shiftr b0 4) x.2) (decodeBody bp (Z.shiftr b0 4) flags) in
     match validatePacket p with Ok _ => Ok (p, r) | Err perr => Err (PacketErr perr) | Panic => Panic end)).
  { intros flags. apply no_panic_bind; [by apply readBody_no_panic|]. intros [bp r'] E.
    apply readBody_ok in E as (Hl & -> & ->); [|done]. cbn [r_bytes] in *.
    assert (Hbp : bytes (ztake remaining (zdrop n src))) by auto with go.
    apply no_panic_bind.
    - apply no_panic_on_err, decodeBody_no_panic; [done|]. rewrite len_ztake by lia. unfold MaxVarintValue in Hrem. pow2. lia.
    - intros p Hp. apply on_err_ok, decodeBody_ok in Hp as [Hp _]; [|done].
      pose proof (validatePacket_no_panic p Hp). destruct (validatePacket p); [discriminate..|done]. }
  destruct (checkHeader _ _ _ _) as [[perr tol]|]; [|apply Hfin].
  case_match; [discriminate|]. apply Hfin.
Qed.
End no_panic.

(** ** Reading back what was written *)

(** The packet's size is within the decoder's limit. *)
Definition within_limit (d : Decoder) (n : Z) : Prop := maxPacket d = 0 \/ n <= maxPacket d.

Lemma within_limit_test d n : within_limit d n -> (0 <? maxPacket d) && (maxPacket d <? n) = false.
Proof. unfold within_limit. intros. destruct (Z.ltb_spec 0 (maxPacket d)), (Z.ltb_spec (maxPacket d) n); simpl; lia. Qed.

Lemma packet_read_header d t flags body rest e :
  0 <= t < 16 -> 0 <= flags < 16 -> len body <= MaxVarintValue -> bytes body -> bytes rest ->
  exists r, ReadByte (mkReader (packet (16 * t + flags) body ++ rest) e) = Ok (16 * t + flags, r)
            /\ ReadVarint r = Ok (len body, VarintSize (len body), mkReader (body ++ rest) e)
            /\ Z.shiftr (16 * t + flags) 4 = t /\ Z.land (16 * t + flags) 0x0F = flags
            /\ (within_limit d (len (packet (16 * t + flags) body)) ->
                (0 <? maxPacket d) && (maxPacket d <? 1 + VarintSize (len body) + len body) = false).
Proof.
  intros Ht Hf Hl Hb Hr. unfold packet. cbn [app ReadByte r_bytes r_end]. eexists. split; [done|].
  pose proof (len_nonneg body) as H0. split.
  - assert (Hbs : bytes ((enc_varint (len body) ++ body) ++ rest)) by (rewrite !bytes_app; auto using bytes_enc_varint).
    rewrite <- app_assoc in *. rewrite (ReadVarint_ok _ e (len body) (VarintSize (len body)) Hbs).
    + do 2 f_equal. f_equal. apply zdrop_app_len. by rewrite len_enc_varint.
    + by rewrite DecodeVarint_spec, dec_enc_varint.
  - destruct (first_byte_nibbles t flags Hf). split; [done|]. split; [done|].
    rewrite len_cons, len_app, len_enc_varint by done. intros. apply within_limit_test.
    by replace (1 + VarintSize (len body) + len body) with (1 + (VarintSize (len body) + len body)) by lia.
Qed.

Section roundtrip.
Context `{BufferPool}.

(** A packet whose body decodes and validates is read whole, and the
    reader is left at the next packet. *)
Lemma ReadPacket_packet d t flags body rest e p :
  0 <= t < 16 -> 0 <= flags < 16 -> len body <= MaxVarintValue -> bytes body -> bytes rest ->
  within_limit d (len (packet (16 * t + flags) body)) ->
  checkHeader t flags (len body) true = None ->
  decodeBody body t flags = Ok p -> validatePacket p = Ok tt ->
  ReadPacket d (mkReader (packet (16 * t + flags) body ++ rest) e) = ([], Ok (p, mkReader rest e)).
Proof.
  intros Ht Hf Hl Hb Hr Hlim Hc Hd Hv.
  destruct (packet_read_header d t flags body rest e) as (r & E1 & E2 & E3 & E4 & E5); [done..|].
  unfold ReadPacket. rewrite E1, E2, E3, E4, (E5 Hlim), Z.eqb_refl, Hc.
  pose proof (len_nonneg body). destruct (readBody_spec (mkReader (body ++ rest) e) (len body)) as [Hs _]; [lia|].
  cbn [r_bytes r_end] in Hs. rewrite (proj2 (Z.leb_le _ _)) in Hs by slia. rewrite Hs.
  rewrite ztake_app_len, zdrop_app_len by done. cbn [rbind]. rewrite Hd. cbn [on_err rbind]. by rewrite Hv.
Qed.
End roundtrip.

(** ** Validation of decoded packets *)

Lemma validate_publish_of o :
  publish_typed o -> publish_valid o -> validatePacket (PPublish (publish_of o)) = Ok tt.
Proof.
  intros Ht Hv. pose proof (publish_props_accepted o Ht Hv) as Hp. pose proof (publish_props_wf o Ht Hv) as Hwf.
  destruct Ht as (Hb & _). destruct Hv as (Hq & Hid & _ & Hta & _ & Hu & Hw & _).
  simpl. unfold validatePublish, publish_of. cbn [p_Topic p_QoS p_PacketID p_Properties raw].
  destruct (scanTopicName_spec (Topic o) Hb) as [S1 S2]. destruct (scanTopicName (Topic o)) as [v w]. cbn [fst snd] in *.
  rewrite S1, Hu in *. cbn [negb]. rewrite S2, Hw by done.
  assert (E : (0 <? QoS o) && ((if 0 <? QoS o then PacketID o else 0) =? 0) = false).
  { destruct (Z.ltb_spec 0 (QoS o)); [|done]. apply Z.eqb_neq. auto. }
  rewrite E, validateProps_enc by done. cbn [rbind]. destruct (list_eqb_spec (Topic o) []) as [En|]; [|done].
  rewrite PUint16_enc by done. unfold publish_props. autorewrite with props. rewrite first_prop_user by done. eval_ids.
  rewrite (proj2 (Z.eqb_neq _ _)) by auto. cbn [negb].
  destruct (PayloadFormatIndicator o); done.
Qed.

Lemma validUTF8_iff s : bytes s -> validUTF8 s = mqtt_utf8 s.
Proof. apply validUTF8Bytes_spec. Qed.

Lemma validate_connect o :
  Connect.typed o -> Connect.valid o -> validatePacket (PConnect (Connect.decoded o)) = Ok tt.
Proof.
  intros Ht Hv. pose proof (Connect.connect_props_accepted o Ht Hv) as Hp. destruct Ht as (Hc & _ & Hu & _ & Hw & _).
  destruct Hv as ([_ Vc] & [_ Vu] & _ & Vw & _). simpl. unfold validateConnect, Connect.decoded.
  cbn [Connect.c_ClientID Connect.c_Username Connect.c_Properties Connect.c_Will raw].
  rewrite !validUTF8_iff, Vc, Vu by done. cbn [negb orb]. rewrite validateProps_enc by done. cbn [rbind].
  destruct (Connect.WillOf o) as [w|]; [|done]. specialize (Hw w eq_refl). specialize (Vw w eq_refl).
  pose proof (Connect.will_props_accepted w Hw Vw). destruct Hw as (Hb & _). destruct Vw as (Hne & Hn & _).
  cbn [option_map Connect.decoded_will Connect.w_Topic Connect.w_Properties raw].
  rewrite (proj2 (ValidTopicName_iff _ Hb)) by done. destruct (list_eqb_spec (Connect.Topic w) []); [done|].
  cbn [orb]. by apply validateProps_enc.
Qed.

Lemma validate_connack o :
  Connack.typed o -> Connack.valid o -> validatePacket (PConnack (Connack.decoded o)) = Ok tt.
Proof.
  intros Ht Hv. pose proof (Connack.connack_props_accepted o Ht Hv). simpl. rewrite (proj2 (checkReason_iff _ _)) by apply Hv.
  by apply validateProps_enc.
Qed.

Lemma validate_disconnect o :
  Disconnect.typed o -> Disconnect.valid o -> validatePacket (PDisconnect (Disconnect.decoded o)) = Ok tt.
Proof.
  intros Ht Hv. pose proof (Disconnect.disconnect_props_accepted o Ht Hv). simpl. rewrite (proj2 (checkReason_iff _ _)) by apply Hv.
  by apply validateProps_enc.
Qed.

Lemma validate_auth o : Auth.typed o -> Auth.valid o -> validatePacket (PAuth (Auth.decoded o)) = Ok tt.
Proof.
  intros Ht Hv. pose proof (Auth.auth_props_accepted o Ht Hv). simpl. rewrite (proj2 (checkReason_iff _ _)) by apply Hv.
  by apply validateProps_enc.
Qed.

Lemma validate_pubresp t o :
  PubResp.isPubResp t -> PubResp.typed o -> PubResp.valid t o -> validatePacket (PPubResp (PubResp.decoded t o)) = Ok tt.
Proof.
  intros Ht Hty Hv. pose proof (PubResp.pubresp_props_accepted t o Ht Hty Hv). destruct Hv as (Hid & Hrc & _). simpl.
  rewrite (proj2 (Z.eqb_neq _ _)) by done. rewrite (proj2 (checkReason_iff _ _)) by done. by apply validateProps_enc.
Qed.

Lemma checkReasons_ok t codes : Forall (fun rc => In rc (reasonCodes t)) codes -> checkReasons t codes = Ok tt.
Proof. induction 1 as [|c cs Hc _ IH]; simpl; [done|]. by rewrite (proj2 (checkReason_iff _ _)). Qed.

Lemma validate_acklist t o (k : AckList -> Packet) :
  t = SUBACK /\ k = PSuback \/ t = UNSUBACK /\ k = PUnsuback -> ack_typed o -> ack_valid t o ->
  validatePacket (k (ack_decoded o)) = Ok tt.
Proof.
  intros Hk Ht Hv. assert (Ht' : t = SUBACK \/ t = UNSUBACK) by tauto.
  pose proof (ack_props_accepted t o Ht' Ht Hv). destruct Hv as (Hid & _ & Hc & _).
  destruct Hk as [[-> ->]|[-> ->]]; simpl; rewrite (proj2 (Z.eqb_neq _ _)), checkReasons_ok by done; by apply validateProps_enc.
Qed.

Lemma validate_subscribe o : sub_typed o -> sub_valid o -> validatePacket (PSubscribe (sub_decoded o)) = Ok tt.
Proof.
  intros Ht Hv. pose proof (sub_props_accepted o Ht Hv). destruct Ht as (_ & Hf & _). destruct Hv as (Hid & _ & Hfv & _).
  simpl. rewrite (proj2 (Z.eqb_neq _ _)) by done.
  assert (E : checkSubscribeFilters SUBSCRIBE (so_Filters o) = Ok tt).
  { clear -Hf Hfv. induction Hf as [|f fs [Hb _] _ IH]; [done|]. apply Forall_cons in Hfv as [[Hv1 (_ & _ & Hnl)] Hv].
    cbn [checkSubscribeFilters]. rewrite (proj2 (ValidTopicFilter_iff _ Hb) Hv1).
    destruct (f_NoLocal f); [rewrite Hnl by done|]; simpl; auto. }
  rewrite E. by apply validateProps_enc.
Qed.

Lemma validate_unsubscribe o : unsub_typed o -> unsub_valid o -> validatePacket (PUnsubscribe (unsub_decoded o)) = Ok tt.
Proof.
  intros (_ & Hf & _) (Hid & _ & Hfv & Hu). simpl. rewrite (proj2 (Z.eqb_neq _ _)) by done.
  assert (E : checkTopicFilters UNSUBSCRIBE (uo_Topics o) = Ok tt).
  { clear -Hf Hfv. induction Hf as [|f fs Hb _ IH]; [done|]. apply Forall_cons in Hfv as [Hv1 Hv].
    cbn [checkTopicFilters]. rewrite (proj2 (ValidTopicFilter_iff _ Hb) Hv1). auto. }
  rewrite E. by apply validateProps_enc, user_props_accepted.
Qed.

(** ** What an accepted packet holds *)

(** The property sections of a packet, with what each may carry. *)
Definition packet_sections (p : Packet) : list (Properties * Z) :=
  match p with
  | PConnect c =>
      (Connect.c_Properties c, allowedProps CONNECT)
      :: (match Connect.c_Will c with Some w => [(Connect.w_Properties w, willProps)] | None => [] end)
  | PConnack c => [(Connack.Properties c, allowedProps CONNACK)]
  | PPublish x => [(p_Properties x, publishProps)]
  | PPubResp x => [(PubResp.Properties x, allowedProps (PubResp.pktType x))]
  | PSubscribe s => [(s_Properties s, allowedProps SUBSCRIBE)]
  | PSuback s => [(a_Properties s, allowedProps SUBACK)]
  | PUnsubscribe u => [(u_Properties u, allowedProps UNSUBSCRIBE)]
  | PUnsuback u => [(a_Properties u, allowedProps UNSUBACK)]
  | PPingreq | PPingresp => []
  | PDisconnect x => [(Disconnect.Properties x, allowedProps DISCONNECT)]
  | PAuth a => [(Auth.Properties a, allowedProps AUTH)]
  end.

Definition section_valid (t : Z) (s : Properties * Z) : Prop :=
  bytes (raw s.1) /\ validateProps t (raw s.1) s.2 = Ok tt.

Lemma validatePacket_sections p :
  packet_bytes p -> validatePacket p = Ok tt -> Forall (section_valid (Type_ p)) (packet_sections p).
Proof.
  unfold section_valid. intros Hb Hv. destruct p; cbn [packet_sections packet_bytes Type_ validatePacket] in *;
    repeat match type of Hv with
    | (if ?b then _ else _) = _ => destruct b; [discriminate|]
    | rbind _ _ = Ok _ => apply rbind_unit_ok in Hv as [? Hv]
    end; try (by constructor); try (by apply Forall_singleton; tauto).
  - unfold validateConnect in Hv. destruct (_ || _); [discriminate|]. apply rbind_unit_ok in Hv as [? Hv].
    destruct Hb as (_ & _ & Hp & Hw). apply Forall_cons. split; [done|].
    destruct (Connect.c_Will c) as [w|]; [|constructor]. destruct (_ || _) in Hv; [discriminate|].
    apply Forall_singleton. destruct (Hw w eq_refl). done.
  - unfold validatePublish in Hv. destruct (scanTopicName _) as [v w]. destruct v; [|discriminate]. cbn [negb] in Hv.
    destruct w; [discriminate|]. destruct (_ && _); [discriminate|]. apply rbind_unit_ok in Hv as [? _].
    apply Forall_singleton. cbn [fst snd]. tauto.
Qed.

(** A packet [ReadPacket] returns was decoded from bytes and validated. *)
Lemma ReadPacket_packet_ok `{BufferPool} d r p r' :
  bytes (r_bytes r) -> snd (ReadPacket d r) = Ok (p, r') -> packet_bytes p /\ validatePacket p = Ok tt.
Proof.
  intros Hb. unfold ReadPacket. destruct r as [[|b0 src] e]; [discriminate|]. cbn [ReadByte r_bytes r_end] in *.
  apply bytes_cons in Hb as [_ Hb].
  destruct (ReadVarint (mkReader src e)) as [[[remaining n] r]|err|] eqn:E; [|discriminate..].
  apply ReadVarint_inv in E as (Hd & ->); [|done]. pose proof (DecodeVarint_ok _ _ _ Hb Hd) as (Hrem & _).
  assert (Hfin : forall flags,
     (let! (bp, r) := fst (readBody (mkReader (zdrop n src) e) remaining) in
      let! p := on_err (fun x => asPacketError (Z.shiftr b0 4) x.2) (decodeBody bp (Z.shiftr b0 4) flags) in
      match validatePacket p with Ok _ => Ok (p, r) | Err perr => Err (PacketErr perr) | Panic => Panic end) = Ok (p, r') ->
     packet_bytes p /\ validatePacket p = Ok tt).
  { intros flags G. apply rbind_ok_inv in G as ([bp r2] & Hr & G). apply readBody_ok in Hr as (_ & -> & _); [|done].
    apply rbind_ok_inv in G as (q & Hq & G). apply on_err_ok, decodeBody_ok in Hq as [Hq _]; [|simpl; auto with go].
    destruct (validatePacket q) as [[]| |] eqn:V; [|discriminate..]. by injection G as <- <-. }
  repeat case_match; cbn [snd]; try discriminate; apply Hfin.
Qed.

(** The header violations a lenient decoder tolerates. *)
Lemma checkHeader_tolerable t flags remaining minimal v :
  checkHeader t flags remaining minimal = Some (v, true) ->
  v = malformed PINGRESP "reserved fixed-header flags %#x" \/ v = malformed t "Remaining Length not minimally encoded".
Proof.
  unfold checkHeader. case_match; [discriminate|]. case_match.
  - intros [= <- Ht]. apply Z.eqb_eq in Ht as ->. by left.
  - case_match; [intros [= <-]; by right|discriminate].
Qed.

(** Ownership of the frame through [decodeBody]. *)
Lemma pmap_err {A} (f : A -> Packet) (m : dres A) n err : pmap f m = Err (n, err) -> m = Err (n, err).
Proof. destruct m as [|[? ?]|]; simpl; congruence. Qed.

Lemma frame_owned_err {A} (m : dres A) n err : frame_owned m -> m = Err (n, err) -> n = 1.
Proof. by intros H ->. Qed.

(** ** Theorems *)

(** Ownership of frame buffers. A packet decoder that refuses a body
    gives its frame back to the pool exactly once, except that the CONNECT
    decoder may not give it back at all; no decoder gives it back twice. *)
Theorem decoders_release_frame bp t flags n err :
  decodeBody bp t flags = Err (n, err) -> if t =? CONNECT then n = 0 \/ n = 1 else n = 1.
Proof.
  unfold decodeBody. destruct (t =? CONNECT).
  { intros E%pmap_err. pose proof (Connect.decodeConnect_frame bp flags) as Hf. by rewrite E in Hf. }
  destruct (subscribe_frames bp flags) as (? & ? & ? & ?).
  repeat (case_match; [intros E%pmap_err; eapply frame_owned_err; [|exact E];
    first [done|apply Connack.decodeConnack_frame|apply decodePublish_frame|apply PubResp.decodePubResp_frame
          |apply Disconnect.decodeDisconnect_frame|apply Auth.decodeAuth_frame]|]).
  by intros [= <- _].
Qed.

(** The exception. A CONNECT that announces a user name it does not
    carry is refused without its frame being given back: [c.Release()] runs
    while [c.frame] is still unset. *)
Theorem connect_frame_not_released :
  exists err, decodeBody Connect.connect_no_username CONNECT 0 = Err (0, err).
Proof. eexists. vm_compute. reflexivity. Qed.

Lemma decoders_release_frame_witness :
  exists n err, decodeBody [0] PUBACK 0 = Err (n, err) /\ n = 1.
Proof.
  eexists _, _. split; [reflexivity|]. eapply (decoders_release_frame [0] PUBACK 0). reflexivity.
Defined.

Section decoder_theorems.
Context `{BufferPool}.

(** C32: no input crashes the decoder. Whatever bytes a peer sends, however
    the stream ends, with any size limit, strict or lenient, [ReadPacket]
    returns a packet or an error and never panics; and every property
    section of a returned packet is the encoding of a property list that
    MQTT v5 allows there. *)
Theorem ReadPacket_safe d r :
  bytes (r_bytes r) ->
  no_panic (snd (ReadPacket d r))
  /\ forall p r', snd (ReadPacket d r) = Ok (p, r') ->
       Forall (fun s => exists ps, raw s.1 = enc_props ps /\ props_ok (Type_ p) s.2 ps) (packet_sections p).
Proof.
  intros Hb. split; [by apply ReadPacket_no_panic|]. intros p r' Hok.
  assert (Hp : packet_bytes p /\ validatePacket p = Ok tt) by (by apply ReadPacket_packet_ok in Hok).
  destruct Hp as [Hp Hv]. eapply Forall_impl; [by apply validatePacket_sections|]. intros [P m] [Hraw Hval].
  by apply (decides_iff _ _ (validateProps_decides (Type_ p) (raw P) m Hraw)).
Qed.

(** The body reader. For every Remaining Length [readBody] delivers
    exactly the next [n] bytes, as one [io.ReadFull] would, and fails
    precisely when the stream is shorter; every buffer it allocates on the
    way is at most eight times what the peer had sent by then, and a body of
    [n] bytes costs at most 5/3 [n] in allocations. *)
Theorem readBody_bounded r n :
  0 <= n <= MaxVarintValue ->
  (if n <=? len (r_bytes r)
   then fst (readBody r n) = Ok (ztake n (r_bytes r), mkReader (zdrop n (r_bytes r)) (r_end r))
   else exists err, fst (readBody r n) = Err err)
  /\ Forall (fun '(size, got) => got <= len (r_bytes r) /\ size <= 8 * got /\ size <= n) (snd (readBody r n))
  /\ 3 * alloc_sum (snd (readBody r n)) <= 5 * n.
Proof.
  intros Hn. destruct (readBody_spec r n Hn) as [Hs Ha]. split; [done|]. split; [|by apply readBody_sum].
  eapply Forall_impl; [exact Ha|]. intros [size got]. unfold alloc_ok. lia.
Qed.

(** Lenient decoding is conservative. A lenient decoder reports at most
    one violation per packet; without a report it returns exactly what the
    strict decoder returns, and the one it reports (reserved PINGRESP flags
    or a non-minimal Remaining Length) is the error the strict decoder
    fails with. *)
Theorem lenient_conservative max r :
  match fst (ReadPacket (mkDecoder max true) r) with
  | [] => ReadPacket (mkDecoder max false) r = ReadPacket (mkDecoder max true) r
  | [v] => ReadPacket (mkDecoder max false) r = ([], Err (PacketErr v))
           /\ (v = malformed PINGRESP "reserved fixed-header flags %#x"
               \/ exists t, v = malformed t "Remaining Length not minimally encoded")
  | _ => False
  end.
Proof.
  unfold ReadPacket. cbn [maxPacket lenient]. destruct (ReadByte r) as [[b0 r1]| |]; [|done..].
  destruct (ReadVarint r1) as [[[remaining n] r2]| |]; [|done..]. destruct (_ && _); [done|].
  destruct (checkHeader _ _ _ _) as [[v tol]|] eqn:E; [|reflexivity]. destruct tol; [|reflexivity]. cbn [negb orb fst].
  split; [done|]. apply checkHeader_tolerable in E as [-> | ->]; eauto.
Qed.
End decoder_theorems.

(** ** Witnesses *)

(** A PUBLISH on ["a"] with a Topic Alias. *)
Definition sample_stream : Reader := mkReader [0x30; 7; 0; 1; 97; 3; 35; 0; 1] (Sentinel EOF).

Lemma ReadPacket_safe_witness :
  exists ps, [35; 0; 1] = enc_props ps /\ props_ok PUBLISH publishProps ps.
Proof.
  destruct (@ReadPacket_safe fresh_pool (mkDecoder 0 false) sample_stream ltac:(by repeat constructor)) as [_ H].
  specialize (H (PPublish (mkPublish [97] [] (mkProperties [35; 0; 1]) 0 false false 0)) (mkReader [] (Sentinel EOF)) eq_refl).
  apply Forall_cons in H as [H _]. exact H.
Defined.

Lemma readBody_bounded_witness :
  fst (@readBody fresh_pool (mkReader [1; 2; 3] (Sentinel EOF)) 2) = Ok ([1; 2], mkReader [3] (Sentinel EOF)).
Proof.
  apply (@readBody_bounded fresh_pool (mkReader [1; 2; 3] (Sentinel EOF)) 2). unfold MaxVarintValue. lia.
Defined.
