(* ===== verification/Stream.v ===== *)
(** * Stream: packet boundaries on a connection (wire/codec.go)

    [ReadPacket] as a function of one frame: how much of the stream it
    takes, when it needs more, and what [Ready] says about that. *)

From S2P Require Import Prelude GoLib Errors Buffers Varint Fields PropView Validate Frames Publish Decoder.

(** ** One frame *)

(** A frame at the head of the stream: the first byte, the Remaining Length
    and the bytes it takes, all arrived. *)
Definition frame_at (bs : list Z) (b0 n remaining : Z) : Prop :=
  exists src, bs = b0 :: src /\ DecodeVarint src = Ok (remaining, n) /\ n + remaining <= len src.

Definition frame_size (n remaining : Z) : Z := 1 + n + remaining.
Definition frame_body (bs : list Z) (n remaining : Z) : list Z := ztake remaining (zdrop (1 + n) bs).

(** What the decoder makes of a frame, with no reference to the stream. *)
Definition judge (d : Decoder) (b0 n remaining : Z) (body : list Z) : list PacketError * wres Packet :=
  let pktType := Z.shiftr b0 4 in
  let flags := Z.land b0 0x0F in
  let finish (reports : list PacketError) (flags : Z) :=
    (reports,
     let! p := on_err (fun e => asPacketError pktType e.2) (decodeBody body pktType flags) in
     match validatePacket p with
     | Ok _ => Ok p
     | Err perr => Err (PacketErr perr)
     | Panic => Panic
     end) in
  if (0 <? maxPacket d) && (maxPacket d <? frame_size n remaining)
  then ([], failf "%w: %s of %d bytes, limit %d" [Sentinel ErrPacketTooLarge])
  else
    match checkHeader pktType flags remaining (n =? VarintSize remaining) with
    | Some (perr, tolerable) =>
        if negb tolerable || negb (lenient d) then ([], Err (PacketErr perr))
        else finish [perr] (if pktType =? PINGRESP then 0 else flags)
    | None => finish [] flags
    end.

(** The same, followed by the rest of the stream. *)
Definition and_then (rest : Reader) (j : list PacketError * wres Packet) : list PacketError * wres (Packet * Reader) :=
  (fst j, let! p := snd j in Ok (p, rest)).

Section frames.
Context `{BufferPool}.

(** A frame that has arrived is judged alone, and the reader is left
    right behind it. *)
Lemma ReadPacket_frame d bs e b0 n remaining :
  bytes bs -> frame_at bs b0 n remaining ->
  ReadPacket d (mkReader bs e)
  = and_then (mkReader (zdrop (frame_size n remaining) bs) e) (judge d b0 n remaining (frame_body bs n remaining)).
Proof.
  intros Hb (src & -> & Hd & Hle). apply bytes_cons in Hb as [Hb0 Hb].
  destruct (DecodeVarint_ok _ _ _ Hb Hd) as (Hrem & Hn & Hnl).
  unfold ReadPacket, judge. cbn [ReadByte r_bytes r_end]. rewrite (ReadVarint_ok src e remaining n Hb Hd).
  fold (frame_size n remaining). case_match; [done|].
  assert (Hbody : fst (readBody (mkReader (zdrop n src) e) remaining)
                  = Ok (frame_body (b0 :: src) n remaining, mkReader (zdrop (frame_size n remaining) (b0 :: src)) e)).
  { destruct (readBody_spec (mkReader (zdrop n src) e) remaining Hrem) as [Hs _]. cbn [r_bytes r_end] in Hs.
    rewrite len_zdrop in Hs by lia. rewrite (proj2 (Z.leb_le _ _)) in Hs by lia. rewrite Hs.
    unfold frame_body, frame_size. rewrite zdrop_zdrop by lia. f_equal. f_equal; f_equal.
    - change (b0 :: src) with ([b0] ++ src). rewrite zdrop_app_ge by slia. f_equal. slia.
    - change (b0 :: src) with ([b0] ++ src). rewrite zdrop_app_ge by slia. f_equal. slia. }
  rewrite Hbody.
  assert (Hfin : forall reports flags,
    (reports, let! (bp, r) := Ok (frame_body (b0 :: src) n remaining, mkReader (zdrop (frame_size n remaining) (b0 :: src)) e) in
      let! p := on_err (fun x => asPacketError (Z.shiftr b0 4) x.2) (decodeBody bp (Z.shiftr b0 4) flags) in
      match validatePacket p with Ok _ => Ok (p, r) | Err perr => Err (PacketErr perr) | Panic => Panic end)
    = and_then (mkReader (zdrop (frame_size n remaining) (b0 :: src)) e)
      (reports, let! p := on_err (fun x => asPacketError (Z.shiftr b0 4) x.2)
                  (decodeBody (frame_body (b0 :: src) n remaining) (Z.shiftr b0 4) flags) in
        match validatePacket p with Ok _ => Ok p | Err perr => Err (PacketErr perr) | Panic => Panic end)).
  { intros. unfold and_then. cbn [fst snd rbind]. f_equal. destruct (on_err _ _); cbn [rbind]; [|done..].
    by destruct (validatePacket _). }
  destruct (checkHeader _ _ _ _) as [[perr tol]|]; [|apply Hfin]. case_match; [done|]. apply Hfin.
Qed.
End frames.

(** ** Where frames begin and end *)

Lemma frame_at_size bs b0 n remaining :
  bytes bs -> frame_at bs b0 n remaining -> 2 <= frame_size n remaining <= len bs /\ 0 <= remaining.
Proof.
  intros Hb (src & -> & Hd & Hle). apply bytes_cons in Hb as [_ Hb].
  destruct (DecodeVarint_ok _ _ _ Hb Hd) as (? & ? & ?). unfold frame_size. slia.
Qed.

(** A frame stays where it is when more of the stream arrives. *)
Lemma frame_at_app bs rest b0 n remaining :
  bytes bs -> bytes rest -> frame_at bs b0 n remaining -> frame_at (bs ++ rest) b0 n remaining.
Proof.
  intros Hb Hr (src & -> & Hd & Hle). apply bytes_cons in Hb as [_ Hb]. exists (src ++ rest).
  split; [done|]. split; [by apply DecodeVarint_app|slia].
Qed.

Lemma zdrop_app_le {A} (l k : list A) n : n <= len l -> zdrop n (l ++ k) = zdrop n l ++ k.
Proof. unfold zdrop, len. intros. apply drop_app_le. lia. Qed.

Lemma ztake_app_le {A} (l k : list A) n : n <= len l -> ztake n (l ++ k) = ztake n l.
Proof. unfold ztake, len. intros. apply take_app_le. lia. Qed.

Lemma frame_app bs rest b0 n remaining :
  bytes bs -> frame_at bs b0 n remaining ->
  frame_body (bs ++ rest) n remaining = frame_body bs n remaining
  /\ zdrop (frame_size n remaining) (bs ++ rest) = zdrop (frame_size n remaining) bs ++ rest.
Proof.
  intros Hb Hf. destruct (frame_at_size _ _ _ _ Hb Hf) as [Hs Hr]. destruct Hf as (src & -> & Hd & Hle).
  apply bytes_cons in Hb as [_ Hb]. destruct (DecodeVarint_ok _ _ _ Hb Hd) as (? & ? & ?).
  unfold frame_body, frame_size in *. rewrite !zdrop_app_le by lia. split; [|done].
  apply ztake_app_le. rewrite len_zdrop; lia.
Qed.

Lemma frame_at_unique bs b0 n remaining b0' n' remaining' :
  frame_at bs b0 n remaining -> frame_at bs b0' n' remaining' -> b0 = b0' /\ n = n' /\ remaining = remaining'.
Proof. intros (s & -> & Hd & _) (s' & [= <- <-] & Hd' & _). rewrite Hd in Hd'. by injection Hd'. Qed.

(** ** Ready *)

Lemma DecodeVarint_window src k : bytes src -> 4 <= k -> DecodeVarint (ztake k src) = DecodeVarint src.
Proof.
  intros Hb Hk. rewrite !DecodeVarint_spec by auto with go.
  destruct (dec_varint_groups 4 src) as [[v n]|] eqn:E.
  - destruct (dec_groups_bound _ _ _ _ Hb E) as (_ & Hn & Hl). apply dec_groups_take in E.
    rewrite <- (ztake_zdrop n (ztake k src)). rewrite (dec_groups_app _ _ _ (v, n)); [done|].
    unfold ztake in *. rewrite take_take, Nat.min_l; [done|lia].
  - destruct (dec_varint_groups 4 (ztake k src)) as [p|] eqn:G; [|done].
    apply (dec_groups_app _ _ (zdrop k src)) in G. rewrite ztake_zdrop in G. congruence.
Qed.

Lemma Ready_spec buffered :
  bytes buffered ->
  exists b, Ready buffered = Ok b /\ (b = true <-> exists b0 n remaining, frame_at buffered b0 n remaining).
Proof.
  intros Hb. unfold Ready. destruct (Z.ltb_spec (len buffered) 2) as [Hlt|Hge].
  { exists false. split; [done|]. split; [done|]. intros (b0 & n & rem & Hf).
    apply frame_at_size in Hf; [lia|done]. }
  destruct buffered as [|b0 src]; [done|]. pose proof Hb as Hb'. apply bytes_cons in Hb' as [_ Hs].
  assert (Hfrom : @from error (ztake (Z.min (len (b0 :: src)) (1 + maxVarintBytes)) (b0 :: src)) 1 = Ok (ztake (Z.min (len src) 4) src)).
  { rewrite len_cons. replace (Z.min (1 + len src) (1 + maxVarintBytes)) with (1 + Z.min (len src) 4) by (unfold maxVarintBytes; lia).
    pose proof (len_nonneg src). replace (ztake (1 + Z.min (len src) 4) (b0 :: src)) with ([b0] ++ ztake (Z.min (len src) 4) src).
    - by apply from_app.
    - unfold ztake. replace (Z.to_nat (1 + Z.min (len src) 4)) with (S (Z.to_nat (Z.min (len src) 4))) by lia. done. }
  rewrite Hfrom. cbn [rbind].
  assert (Hw : DecodeVarint (ztake (Z.min (len src) 4) src) = DecodeVarint src).
  { destruct (Z.le_gt_cases 4 (len src)); [rewrite Z.min_r by lia; by apply DecodeVarint_window|].
    rewrite Z.min_l by lia. by rewrite ztake_len. }
  rewrite Hw. pose proof (DecodeVarint_no_panic src Hs) as Hnp.
  destruct (DecodeVarint src) as [[size k]|err|] eqn:E; [|exists false|done].
  - eexists. split; [done|]. rewrite Z.leb_le, len_cons. split.
    + intros. exists b0, k, size, src. repeat split; [done|lia].
    + intros (b & n & rem & src' & [= <- <-] & Hd & Hle). rewrite E in Hd. injection Hd as -> ->. lia.
  - split; [done|]. split; [done|]. intros (b & n & rem & src' & [= <- <-] & Hd & _). congruence.
Qed.

(** ** What a successful read means *)

Lemma checkHeader_None t flags remaining minimal :
  checkHeader t flags remaining minimal = None ->
  minimal = true /\ (CONNECT <= t <= AUTH -> t <> PUBLISH -> flags = fixedFlags t).
Proof.
  unfold checkHeader. case_match; [discriminate|].
  destruct (negb (t =? PUBLISH) && (CONNECT <=? t) && (t <=? AUTH) && negb (flags =? fixedFlags t)) eqn:E; [discriminate|].
  destruct minimal; [|discriminate]. intros _. split; [done|]. intros [H1 H2] H3.
  rewrite (proj2 (Z.eqb_neq t PUBLISH)), (proj2 (Z.leb_le _ _)), (proj2 (Z.leb_le _ _)) in E by done. simpl in E.
  apply negb_false_iff in E. by apply Z.eqb_eq.
Qed.

Lemma judge_ok d b0 n remaining body reports p :
  bytes body -> judge d b0 n remaining body = (reports, Ok p) ->
  Type_ p = Z.shiftr b0 4 /\ validatePacket p = Ok tt /\ ((0 <? maxPacket d) && (maxPacket d <? frame_size n remaining) = false)
  /\ (if lenient d then (length reports <= 1)%nat else reports = [])
  /\ (reports = [] -> checkHeader (Z.shiftr b0 4) (Z.land b0 0x0F) remaining (n =? VarintSize remaining) = None).
Proof.
  intros Hb. unfold judge. destruct (_ && _); [discriminate|].
  assert (Hfin : forall reps flags,
    (reps, let! p := on_err (fun e : Z * error => asPacketError (Z.shiftr b0 4) e.2) (decodeBody body (Z.shiftr b0 4) flags) in
      match validatePacket p with Ok _ => Ok p | Err perr => Err (PacketErr perr) | Panic => Panic end) = (reports, Ok p) ->
    reports = reps /\ Type_ p = Z.shiftr b0 4 /\ validatePacket p = Ok tt).
  { intros reps flags [= -> G]. apply rbind_ok_inv in G as (q & Hq & G). apply on_err_ok, decodeBody_ok in Hq as [_ Hq]; [|done].
    destruct (validatePacket q) as [[]| |] eqn:E; [|discriminate..]. injection G as <-. done. }
  destruct (checkHeader _ _ _ _) as [[perr tol]|] eqn:E.
  - destruct tol, (lenient d); try discriminate. cbn [negb orb]. intros G. apply Hfin in G as (-> & ? & ?). by auto.
  - intros G. apply Hfin in G as (-> & ? & ?). destruct (lenient d); simpl; auto with lia.
Qed.

Section framing.
Context `{BufferPool}.

Lemma ReadPacket_frame_inv d bs e reports p r' :
  bytes bs -> ReadPacket d (mkReader bs e) = (reports, Ok (p, r')) ->
  exists b0 n remaining, frame_at bs b0 n remaining.
Proof.
  intros Hb. destruct bs as [|b0 src]; [discriminate|]. apply bytes_cons in Hb as [_ Hb].
  unfold ReadPacket. cbn [ReadByte r_bytes r_end].
  destruct (ReadVarint (mkReader src e)) as [[[remaining n] r]|err|] eqn:E; [|discriminate..].
  apply ReadVarint_inv in E as [Hd ->]; [|done]. destruct (DecodeVarint_ok _ _ _ Hb Hd) as (Hrem & ? & ?).
  intros G. exists b0, n, remaining, src. split; [done|]. split; [done|].
  assert (Hbody : exists bp r2, fst (readBody (mkReader (zdrop n src) e) remaining) = Ok (bp, r2)).
  { repeat case_match; try discriminate; injection G as _ G; apply rbind_ok_inv in G as ([bp r2] & Hr & _); eauto. }
  destruct Hbody as (bp & r2 & Hbp). apply readBody_ok in Hbp as (Hle & _); [|done]. cbn [r_bytes] in Hle.
  rewrite len_zdrop in Hle; lia.
Qed.

(** [ReadBody]'s errors at the end of the stream. *)
Lemma readBody_loop_eof fuel r n body got err :
  r_end r = Sentinel EOF -> fst (readBody_loop fuel r n body got) = Err err -> err = Sentinel ErrUnexpectedEOF.
Proof.
  revert r body got. induction fuel as [|fuel IH]; intros r body got He; [discriminate|]. cbn [readBody_loop].
  unfold ReadFull. rewrite He. destruct (_ <=? len (r_bytes r)).
  - cbn [fst]. case_match; [discriminate|]. destruct (readBody_loop _ _ _ _ _) eqn:E. cbn [fst]. intros ->.
    eapply IH; [|by rewrite E]. done.
  - destruct (_ && _); cbn; by intros [= <-].
Qed.

Lemma readBody_eof src n :
  0 <= n <= MaxVarintValue -> len src < n ->
  fst (readBody (mkReader src (Sentinel EOF)) n)
  = Err (Sentinel (if (n <=? largeBodyChunk) && (len src =? 0) then EOF else ErrUnexpectedEOF)).
Proof.
  intros Hn Hl. destruct (readBody_spec (mkReader src (Sentinel EOF)) n Hn) as [Hs _]. cbn [r_bytes] in Hs.
  rewrite (proj2 (Z.leb_gt _ _)) in Hs by done. destruct Hs as [err Hs]. rewrite Hs. unfold readBody in Hs.
  destruct (n <=? largeBodyChunk) eqn:E; cbn [andb].
  - unfold ReadFull in Hs. cbn [r_bytes r_end is_EOF] in Hs. rewrite (proj2 (Z.leb_gt _ _)) in Hs by done.
    injection Hs as <-. pose proof (len_nonneg src). rewrite andb_true_r.
    destruct (Z.ltb_spec 0 (len src)), (Z.eqb_spec (len src) 0); done || lia.
  - by apply readBody_loop_eof in Hs as ->.
Qed.
End framing.

(** ** Theorems *)

Section stream_theorems.
Context `{BufferPool}.

(** C34: framing. When [ReadPacket] returns a packet, a whole frame was at
    the head of the stream and exactly that frame was consumed; the packet
    has the type of the header, passes the MQTT v5 checks and is within the
    size limit. Without a report the header was strictly conforming, and a
    strict decoder never reports. *)
Theorem ReadPacket_framing d r reports p r' :
  bytes (r_bytes r) -> ReadPacket d r = (reports, Ok (p, r')) ->
  exists b0 n remaining,
    frame_at (r_bytes r) b0 n remaining
    /\ r' = mkReader (zdrop (frame_size n remaining) (r_bytes r)) (r_end r)
    /\ Type_ p = Z.shiftr b0 4 /\ validatePacket p = Ok tt
    /\ (0 < maxPacket d -> frame_size n remaining <= maxPacket d)
    /\ (if lenient d then (length reports <= 1)%nat else reports = [])
    /\ (reports = [] -> n = VarintSize remaining
        /\ (CONNECT <= Type_ p <= AUTH -> Type_ p <> PUBLISH -> Z.land b0 0x0F = fixedFlags (Type_ p))).
Proof.
  destruct r as [bs e]. cbn [r_bytes r_end]. intros Hb G.
  destruct (ReadPacket_frame_inv d bs e reports p r' Hb G) as (b0 & n & remaining & Hf).
  rewrite (ReadPacket_frame d bs e b0 n remaining Hb Hf) in G. unfold and_then in G.
  destruct (judge d b0 n remaining (frame_body bs n remaining)) as [reps j] eqn:Hj. cbn [fst snd] in G.
  injection G as <- G. apply rbind_ok_inv in G as (q & -> & [= <- <-]).
  apply judge_ok in Hj as (Ht & Hv & Hm & Hrep & Hc); [|unfold frame_body; auto with go].
  exists b0, n, remaining. do 4 (split; [done|]). split; [|split; [done|]].
  - intros Hpos. apply andb_false_iff in Hm as [Hm|Hm]; apply Z.ltb_ge in Hm; lia.
  - intros Hr. destruct (checkHeader_None _ _ _ _ (Hc Hr)) as [Hmin Hfl]. rewrite Ht. split; [by apply Z.eqb_eq|done].
Qed.

(** [Ready] is exact. It reports true precisely when a whole frame is
    buffered, and then [ReadPacket] gives the same verdict, consuming the
    same bytes, whatever the connection would deliver after the buffer: it
    needs no further read. *)
Theorem Ready_exact buffered :
  bytes buffered ->
  (Ready buffered = Ok true \/ Ready buffered = Ok false)
  /\ (Ready buffered = Ok true <-> exists b0 n remaining, frame_at buffered b0 n remaining)
  /\ (Ready buffered = Ok true ->
      exists k, 2 <= k <= len buffered /\ forall d, exists j, forall rest e, bytes rest ->
        ReadPacket d (mkReader (buffered ++ rest) e) = and_then (mkReader (zdrop k buffered ++ rest) e) j).
Proof.
  intros Hb. destruct (Ready_spec buffered Hb) as (b & HR & Hiff). rewrite HR. split; [destruct b; auto|].
  split; [rewrite <- Hiff; split; [by intros [= ->]|by intros ->]|]. intros [= ->].
  destruct (proj1 Hiff eq_refl) as (b0 & n & remaining & Hf). exists (frame_size n remaining).
  split; [by apply (frame_at_size buffered b0)|]. intros d. exists (judge d b0 n remaining (frame_body buffered n remaining)).
  intros rest e Hr. rewrite (ReadPacket_frame d _ e b0 n remaining); [|by rewrite bytes_app|by apply frame_at_app].
  by destruct (frame_app buffered rest b0 n remaining Hb Hf) as [-> ->].
Qed.

(** A stream that ends inside a packet. After a complete fixed header
    that passes the header and size checks, [ReadPacket] reports
    [io.ErrUnexpectedEOF], except that a body of at most 64 KiB of which no
    byte arrived gives the [io.EOF] of a stream that ended between packets. *)
Theorem ReadPacket_truncated d b0 src remaining n :
  bytes src -> DecodeVarint src = Ok (remaining, n) -> len src < n + remaining ->
  within_limit d (frame_size n remaining) ->
  checkHeader (Z.shiftr b0 4) (Z.land b0 0x0F) remaining (n =? VarintSize remaining) = None ->
  ReadPacket d (mkReader (b0 :: src) (Sentinel EOF))
  = ([], Err (Sentinel (if (remaining <=? largeBodyChunk) && (len src =? n) then EOF else ErrUnexpectedEOF))).
Proof.
  intros Hb Hd Hl Hlim Hc. destruct (DecodeVarint_ok _ _ _ Hb Hd) as (Hrem & Hn & Hnl).
  unfold ReadPacket. cbn [ReadByte r_bytes r_end]. rewrite (ReadVarint_ok src _ remaining n Hb Hd).
  fold (frame_size n remaining). rewrite within_limit_test, Hc by done.
  rewrite readBody_eof by (done || rewrite len_zdrop; lia). cbn [rbind]. rewrite len_zdrop by lia.
  by replace (len src - n =? 0) with (len src =? n) by (destruct (Z.eqb_spec (len src) n), (Z.eqb_spec (len src - n) 0); done || lia).
Qed.
End stream_theorems.

(** ** Witnesses *)

(** PINGRESP with a reserved flag set, followed by a PINGREQ. *)
Lemma ReadPacket_framing_witness :
  exists b0 n remaining, frame_at [0xD1; 0; 0xC0; 0] b0 n remaining
  /\ mkReader [0xC0; 0] (Sentinel EOF) = mkReader (zdrop (frame_size n remaining) [0xD1; 0; 0xC0; 0]) (Sentinel EOF).
Proof.
  destruct (@ReadPacket_framing fresh_pool (mkDecoder 16 true) (mkReader [0xD1; 0; 0xC0; 0] (Sentinel EOF))
              [malformed PINGRESP "reserved fixed-header flags %#x"] PPingresp (mkReader [0xC0; 0] (Sentinel EOF)))
    as (b0 & n & remaining & Hf & Hr & _).
  - by repeat constructor.
  - vm_compute. reflexivity.
  - exists b0, n, remaining. by split.
Defined.

Lemma Ready_exact_witness : Ready [0xC0; 0; 0x30] = Ok true /\ Ready [0x30; 5; 0; 1] = Ok false.
Proof.
  split; [|reflexivity].
  apply (@Ready_exact fresh_pool [0xC0; 0; 0x30]); [by repeat constructor|]. by exists 0xC0, 1, 0, [0; 0x30].
Defined.

(** A PUBLISH of five bytes of which only the fixed header arrived. *)
Lemma ReadPacket_truncated_witness :
  @ReadPacket fresh_pool (mkDecoder 0 false) (mkReader [0x30; 5] (Sentinel EOF)) = ([], Err (Sentinel EOF)).
Proof.
  apply (@ReadPacket_truncated fresh_pool (mkDecoder 0 false) 0x30 [5] 5 1); [by repeat constructor|done..|by left|done].
Defined.
