(* ===== verification/Refusals.v ===== *)
(** * Refusals: what the encoders do with options they cannot send

    Each [Write*] function either hands over the packet its options
    describe or returns an error; it never panics and never writes a
    packet the options do not describe. *)

From S2P Require Import Prelude GoLib Errors Buffers Varint Fields PropView Utf8 Topics Validate PropLists Frames.
From S2P Require Import Publish Acks Connect Subscribe.

(** The options are written as [enc] if they are valid and the packet fits,
    and otherwise refused with an error. *)
Definition writes_or_refuses (m : wres (list Z)) (valid fits : Prop) (enc : list Z) : Prop :=
  match m with
  | Ok bs => valid /\ fits /\ bs = enc
  | Err _ => ~ (valid /\ fits)
  | Panic => False
  end.

Lemma writer_decides (v : wres unit) (k : unit -> wres (list Z)) (valid : Prop) n enc :
  (v = Ok tt <-> valid) -> no_panic v ->
  (valid -> n <= MaxVarintValue -> rbind v k = Ok enc) ->
  (valid -> MaxVarintValue < n -> k tt = fail ErrVarintTooLarge) ->
  writes_or_refuses (rbind v k) valid (n <= MaxVarintValue) enc.
Proof.
  intros Hv Hp Hok Hbig. unfold writes_or_refuses. destruct v as [[]|e|]; [| |done].
  - assert (valid) as Hval by (by apply Hv). destruct (Z.le_gt_cases n MaxVarintValue) as [Hle|Hgt].
    + rewrite Hok by done. done.
    + cbn [rbind]. rewrite Hbig by (done || lia). cbn. lia.
  - cbn [rbind]. intros [Hval _]. by apply Hv in Hval.
Qed.

Lemma checkReasonCode_no_panic t rc : no_panic (checkReasonCode t rc).
Proof. unfold checkReasonCode. pose proof (checkReason_no_panic t rc). by destruct (checkReason t rc). Qed.
#[export] Hint Resolve checkReasonCode_no_panic : nopanic.

(** Validators: checks in sequence and early returns. *)
Ltac validator_no_panic :=
  first
    [ discriminate
    | by auto with nopanic
    | apply no_panic_map_err; validator_no_panic
    | apply no_panic_bind; [validator_no_panic|intros _ _; validator_no_panic]
    | case_match; validator_no_panic ].

Lemma validateFilters_no_panic fs : no_panic (validateFilters fs).
Proof. induction fs; simpl; validator_no_panic. Qed.
Lemma validateTopics_no_panic ts : no_panic (validateTopics ts).
Proof. induction ts; simpl; validator_no_panic. Qed.
Lemma checkReasonCodes_no_panic t codes : no_panic (checkReasonCodes t codes).
Proof. induction codes; simpl; validator_no_panic. Qed.
Lemma validateWillOpts_no_panic w : no_panic (Connect.validateWillOpts w).
Proof. unfold Connect.validateWillOpts. validator_no_panic. Qed.
#[export] Hint Resolve validateFilters_no_panic validateTopics_no_panic checkReasonCodes_no_panic
  validateWillOpts_no_panic : nopanic.

Section refusals.
Context `{BufferPool}.

Lemma writePubResp_decides t o :
  PubResp.isPubResp t -> PubResp.typed o -> len (PubResp.body o) < 2 ^ 32 ->
  writes_or_refuses (PubResp.writePubResp t (PubResp.flagsOf t) o) (PubResp.valid t o) (PubResp.fits o) (PubResp.enc t o).
Proof.
  intros Ht Hty Hl. apply writer_decides.
  - by apply PubResp.validatePubRespOpts_iff.
  - unfold PubResp.validatePubRespOpts. validator_no_panic.
  - intros Hv Hf. exact (PubResp.writePubResp_spec t o Ht Hty Hv Hf).
  - intros _ Hbig. pose proof (PubResp.pubresp_len_props_body o). pow2. rewrite PubResp.pubRespPropsLen_spec.
    apply fixedHdr_bind_large. unfold PubResp.body in *. rewrite len_app, len_be16 in *. pow2.
    destruct (reason_size (PubResp.o_ReasonCode o) (PubResp.props o) _ _ ltac:(pow2; lia) eq_refl eq_refl) as [? ?]. lia.
Qed.

Lemma WriteAuth_decides o :
  Auth.typed o -> len (Auth.body o) < 2 ^ 32 ->
  writes_or_refuses (Auth.WriteAuth o) (Auth.valid o) (Auth.fits o) (Auth.enc o).
Proof.
  intros Hty Hl. apply writer_decides.
  - by apply Auth.validateAuthOpts_iff.
  - unfold Auth.validateAuthOpts. validator_no_panic.
  - intros Hv Hf. exact (Auth.WriteAuth_spec o Hty Hv Hf).
  - intros _ Hbig. pose proof (len_reason_tail (Auth.o_ReasonCode o) (Auth.props o)). rewrite Auth.auth_propsLen_spec.
    apply fixedHdr_bind_large. unfold Auth.body in *. pow2.
    destruct (reason_size (Auth.o_ReasonCode o) (Auth.props o) _ _ ltac:(pow2; lia) eq_refl eq_refl) as [? ?]. lia.
Qed.

Lemma WriteDisconnect_decides o :
  Disconnect.typed o -> len (Disconnect.body o) < 2 ^ 32 ->
  writes_or_refuses (Disconnect.WriteDisconnect o) (Disconnect.valid o) (Disconnect.fits o) (Disconnect.enc o).
Proof.
  intros Hty Hl. apply writer_decides.
  - by apply Disconnect.validateDisconnectOpts_iff.
  - unfold Disconnect.validateDisconnectOpts. validator_no_panic.
  - intros Hv Hf. exact (Disconnect.WriteDisconnect_spec o Hty Hv Hf).
  - intros _ Hbig. pose proof (len_reason_tail (Disconnect.o_ReasonCode o) (Disconnect.props o)). rewrite Disconnect.disconnect_propsLen_spec.
    apply fixedHdr_bind_large. unfold Disconnect.body in *. pow2.
    destruct (reason_size (Disconnect.o_ReasonCode o) (Disconnect.props o) _ _ ltac:(pow2; lia) eq_refl eq_refl) as [? ?].
    change ReasonNormalDisconnection with ReasonSuccess. lia.
Qed.

Lemma WriteConnack_decides o :
  Connack.typed o -> len (Connack.body o) < 2 ^ 32 ->
  writes_or_refuses (Connack.WriteConnack o) (Connack.valid o) (Connack.fits o) (Connack.enc o).
Proof.
  intros Hty Hl. apply writer_decides.
  - by apply Connack.validateConnackOpts_iff.
  - unfold Connack.validateConnackOpts. validator_no_panic.
  - intros Hv Hf. exact (Connack.WriteConnack_spec o Hty Hv Hf).
  - intros _ Hbig. pose proof (Connack.connack_len_props_body o). rewrite Connack.connack_propsLen_spec.
    apply fixedHdr_bind_large. pow2. destruct (section_size (Connack.props o) ltac:(pow2; lia)) as [? ?].
    unfold Connack.body in *. rewrite !len_app in *. change (len [?x]) with 1 in *. lia.
Qed.

Lemma WriteConnect_decides o :
  Connect.typed o -> len (Connect.body o) < 2 ^ 32 ->
  writes_or_refuses (Connect.WriteConnect o) (Connect.valid o) (Connect.fits o) (Connect.enc o).
Proof.
  intros Hty Hl. apply writer_decides.
  - by apply Connect.validateConnectOpts_iff.
  - unfold Connect.validateConnectOpts. validator_no_panic.
  - intros Hv Hf. exact (Connect.WriteConnect_spec o Hty Hv Hf).
  - intros _ Hbig. rewrite Connect.connect_propsLen_spec. apply fixedHdr_bind_large. pow2.
    unfold Connect.body in *. repeat rewrite len_app in *. rewrite !len_enc_str, len_be16 in *.
    destruct (section_size (Connect.props o)) as [? ?]; [pow2; unfold enc_section in *; slia|].
    assert (Hw : forall w, Connect.WillOf o = Some w -> len (enc_props (Connect.will_props w)) < 2 ^ 32).
    { intros w Hw. rewrite Hw in *. unfold Connect.enc_will, enc_section in *. pow2. slia. }
    destruct (Connect.WillOf o) as [w|].
    + destruct (section_size (Connect.will_props w) (Hw w eq_refl)) as [? ?]. rewrite Connect.willPropsLength_spec.
      unfold Connect.enc_will in *. repeat rewrite len_app in *. rewrite !len_enc_str in *.
      destruct (negb (list_eqb (Connect.Username o) [])), (Connect.Password o); slia.
    + destruct (negb (list_eqb (Connect.Username o) [])), (Connect.Password o); slia.
Qed.

Lemma WriteSubscribe_decides o :
  sub_typed o -> len (sub_body o) < 2 ^ 32 ->
  writes_or_refuses (WriteSubscribe o) (sub_valid o) (sub_fits o) (enc_subscribe o).
Proof.
  intros Hty Hl. apply writer_decides.
  - by apply validateSubscribeOpts_iff.
  - unfold validateSubscribeOpts. validator_no_panic.
  - intros Hv Hf. exact (WriteSubscribe_spec o Hty Hv Hf).
  - intros (_ & Hne & _ & Hi & _) Hbig. rewrite (proj2 (len_eqb_nil _) Hne), len_sub_props, filtersLen_spec by done.
    apply fixedHdr_bind_large. pow2. unfold sub_body in *. repeat rewrite len_app in *. rewrite len_be16 in *.
    destruct (section_size (sub_props o)) as [? ?]; [pow2; unfold enc_section in *; slia|]. len_facts. lia.
Qed.

Lemma WriteUnsubscribe_decides o :
  unsub_typed o -> len (unsub_body o) < 2 ^ 32 ->
  writes_or_refuses (WriteUnsubscribe o) (unsub_valid o) (unsub_fits o) (enc_unsubscribe o).
Proof.
  intros Hty Hl. apply writer_decides.
  - by apply validateUnsubscribeOpts_iff.
  - unfold validateUnsubscribeOpts. validator_no_panic.
  - intros Hv Hf. exact (WriteUnsubscribe_spec o Hty Hv Hf).
  - intros (_ & Hne & _) Hbig. rewrite (proj2 (len_eqb_nil _) Hne), userPropertiesLen_spec, topicsLen_spec.
    apply fixedHdr_bind_large. pow2. unfold unsub_body in *. repeat rewrite len_app in *. rewrite len_be16 in *.
    destruct (section_size (p_user (uo_UserProperties o))) as [? ?]; [pow2; unfold enc_section in *; slia|]. len_facts. lia.
Qed.

Lemma writeSubAckLike_large t o :
  ao_ReasonCodes o <> [] -> MaxVarintValue < len (ack_body o) < 2 ^ 32 ->
  writeSubAckLike t (ao_PacketID o) (ao_ReasonCodes o) (ao_ReasonString o) (ao_UserProperties o) = fail ErrVarintTooLarge.
Proof.
  intros Hne Hl. unfold writeSubAckLike. rewrite (proj2 (len_eqb_nil _) Hne), len_ack_props.
  apply fixedHdr_bind_large. pow2. unfold ack_body in *. repeat rewrite len_app in *. rewrite len_be16 in *.
  destruct (section_size (ack_props o)) as [? ?]; [pow2; unfold enc_section in *; slia|]. len_facts. lia.
Qed.

Lemma WriteSuback_decides o :
  ack_typed o -> len (ack_body o) < 2 ^ 32 ->
  writes_or_refuses (WriteSuback o) (ack_valid SUBACK o) (ack_fits o) (enc_acklist SUBACK o).
Proof.
  intros Hty Hl. apply writer_decides.
  - by apply validateAckList_iff.
  - unfold validateAckList. validator_no_panic.
  - intros Hv Hf. exact (WriteSuback_spec o Hty Hv Hf).
  - intros (_ & Hne & _) Hbig. by apply writeSubAckLike_large.
Qed.

Lemma WriteUnsuback_decides o :
  ack_typed o -> len (ack_body o) < 2 ^ 32 ->
  writes_or_refuses (WriteUnsuback o) (ack_valid UNSUBACK o) (ack_fits o) (enc_acklist UNSUBACK o).
Proof.
  intros Hty Hl. apply writer_decides.
  - by apply validateAckList_iff.
  - unfold validateAckList. validator_no_panic.
  - intros Hv Hf. exact (WriteUnsuback_spec o Hty Hv Hf).
  - intros (_ & Hne & _) Hbig. by apply writeSubAckLike_large.
Qed.

(** A PUBLISH too large for the Remaining Length stops at its fixed header. *)
Lemma publish_remaining_large o :
  MaxVarintValue < len (publish_body o) < 2 ^ 32 ->
  MaxVarintValue < remaining (publishLayoutOf o) < 2 ^ 32 /\ 1 <= headerSize (publishLayoutOf o)
  /\ vbiSize (publishLayoutOf o) = 0.
Proof.
  intros Hl.
  assert (Hsec : len (publish_body o) = 2 + len (Topic o) + (if 0 <? QoS o then 2 else 0)
                 + len (enc_section (publish_props o)) + len (Payload o)).
  { unfold publish_body, publish_varhdr, enc_section. destruct (0 <? QoS o); slia. }
  destruct (section_size (publish_props o)) as [Hs1 Hs2]; [unfold enc_section in *; pow2; destruct (0 <? QoS o); slia|].
  unfold headerSize, publishLayoutOf. cbn [remaining vbiSize varHdrSize]. rewrite publishPropsLen_spec.
  set (r := _ + len (Payload o) : Z).
  assert (Hr : MaxVarintValue < r < 2 ^ 32) by (subst r; pow2; len_facts; destruct (0 <? QoS o); lia).
  assert (E : VarintSize (u32 r) = 0).
  { rewrite u32_small by (unfold is_u32, MaxVarintValue in *; lia). unfold VarintSize, MaxVarintValue in *. repeat case_match; lia. }
  rewrite E. len_facts. destruct (0 <? QoS o); lia.
Qed.

Lemma encodeHeader_large l buf o :
  MaxVarintValue < remaining l < 2 ^ 32 -> vbiSize l = 0 -> 1 <= len buf -> encodeHeader l buf o = fail ErrVarintTooLarge.
Proof.
  intros Hr Hv Hb. destruct buf as [|b buf]; [done|]. unfold encodeHeader, set. change (b :: buf) with ([b] ++ buf).
  rewrite put0_app by done. cbn [rbind]. rewrite Hv. unfold with_sub at 1.
  rewrite (slice_app [_] [] buf) by done. cbn [rbind]. rewrite u32_small by (unfold is_u32, MaxVarintValue in *; lia).
  unfold EncodeVarint. by rewrite (proj2 (Z.ltb_lt _ _)) by lia.
Qed.

Lemma WritePublish_decides o :
  publish_typed o -> len (publish_body o) < 2 ^ 32 ->
  writes_or_refuses (WritePublish o) (publish_valid o) (publish_fits o) (enc_publish o).
Proof.
  intros Hty Hl.
  assert (E : WritePublish o = let! _ := validatePublishOpts o in WritePublish o).
  { unfold WritePublish, AppendPublishHeader. by destruct (validatePublishOpts o) as [[]| |]. }
  rewrite E. apply writer_decides.
  - by apply validatePublishOpts_iff.
  - apply no_panic_validatePublishOpts.
  - intros Hv Hf. rewrite <- E. by apply WritePublish_spec.
  - intros Hv Hbig. destruct (publish_remaining_large o ltac:(lia)) as (Hr & Hh & Hz).
    unfold WritePublish, AppendPublishHeader. rewrite (proj2 (validatePublishOpts_iff o Hty) Hv). cbn [rbind app].
    assert (Hfrom : forall l, @from error l 0 = Ok l) by (intros l; by apply (from_app [])).
    change (len []) with 0. rewrite Hfrom. cbn [rbind]. rewrite encodeHeader_large; [done|done|done|].
    rewrite acquired_len; lia.
Qed.
End refusals.
