(* ===== verification/Codec.v ===== *)
(** * Codec: the wire package as a whole

    [PacketFormat] is what one packet type's encoder promises the decoder:
    the header and body it writes and the packet they decode to.  Each
    packet type is an instance; the round trip of the whole package is
    proved once against the interface. *)

From S2P Require Import Prelude GoLib Errors Buffers Varint Fields PropView Utf8 Topics Validate PropLists Frames.
From S2P Require Import Publish Acks Connect Subscribe Decoder Stream Refusals.

(** ** The interface between the encoders and [ReadPacket] *)

Class PacketFormat (O : Type) : Type := {
  sendable : O -> Prop;
  header_type : O -> Z;
  header_flags : O -> Z;
  body_of : O -> list Z;
  received : O -> Packet;
  header_type_ok o : sendable o -> 0 <= header_type o < 16;
  header_flags_ok o : sendable o -> 0 <= header_flags o < 16;
  header_checked o : sendable o -> checkHeader (header_type o) (header_flags o) (len (body_of o)) true = None;
  body_fits o : sendable o -> len (body_of o) <= MaxVarintValue;
  body_bytes o : sendable o -> bytes (body_of o);
  body_decodes o : sendable o -> decodeBody (body_of o) (header_type o) (header_flags o) = Ok (received o);
  packet_validates o : sendable o -> validatePacket (received o) = Ok tt;
}.

Definition encoding {O} `{PacketFormat O} (o : O) : list Z := packet (16 * header_type o + header_flags o) (body_of o).

Lemma ReadPacket_format `{BufferPool} {O} `{PacketFormat O} d (o : O) rest e :
  sendable o -> bytes rest -> within_limit d (len (encoding o)) ->
  ReadPacket d (mkReader (encoding o ++ rest) e) = ([], Ok (received o, mkReader rest e)).
Proof.
  intros Hs Hr Hl. apply ReadPacket_packet;
    eauto using header_type_ok, header_flags_ok, header_checked, body_fits, body_bytes, body_decodes, packet_validates.
Qed.

(** ** The bodies are bytes *)

Lemma bytes_section ps : Forall wf_prop ps -> bytes (enc_section ps).
Proof. apply Connect.bytes_enc_section. Qed.

Lemma bytes_reason_tail rc ps : is_u8 rc -> Forall wf_prop ps -> bytes (reason_tail rc ps).
Proof.
  intros Hr Hw. unfold reason_tail. repeat case_match; [apply bytes_nil|by apply Forall_singleton|].
  apply bytes_cons. split; [done|by apply bytes_section].
Qed.

Lemma enc_publish_packet o : enc_publish o = packet (16 * PUBLISH + publishFlags o) (publish_body o).
Proof. unfold enc_publish, publish_header, packet. cbn [app]. by rewrite <- app_assoc. Qed.

Lemma bytes_publish_body o : publish_typed o -> publish_valid o -> bytes (publish_body o).
Proof.
  intros Ht Hv. pose proof (bytes_enc_publish o Ht Hv) as Hb. rewrite enc_publish_packet in Hb. unfold packet in Hb.
  apply bytes_cons in Hb as [_ Hb]. rewrite bytes_app in Hb. apply Hb.
Qed.

Lemma bytes_connect_body o : Connect.typed o -> Connect.valid o -> bytes (Connect.body o).
Proof.
  intros Ht Hv. pose proof (Connect.bytes_tail1 o Ht Hv). pose proof (Connect.connect_props_accepted o Ht Hv) as [Hw _].
  destruct (Connect.encodeConnectFlags_bits o (Connect.will_qos o Ht Hv)) as [Hf _]. destruct Ht as (? & ? & _).
  rewrite Connect.body_split, !bytes_app, !bytes_cons.
  assert (bytes Connect.ProtocolName) by (by repeat constructor).
  assert (is_u8 Connect.ProtocolVersion) by (by split).
  auto 20 using bytes_section with go.
Qed.

(** ** Instances *)

#[export, program] Instance PublishFormat : PacketFormat PublishOpts := {|
  sendable o := publish_typed o /\ publish_valid o /\ publish_fits o;
  header_type _ := PUBLISH;
  header_flags o := publishFlags o;
  body_of := publish_body;
  received o := PPublish (publish_of o);
|}.
Next Obligation. done. Qed.
Next Obligation. intros o (Ht & Hv & _). by apply publishFlags_range, publish_valid_qos. Qed.
Next Obligation. done. Qed.
Next Obligation. by intros o (_ & _ & ?). Qed.
Next Obligation. intros o (? & ? & _). by apply bytes_publish_body. Qed.
Next Obligation. intros o (? & ? & ?). unfold decodeBody. simpl. by rewrite decodePublish_enc. Qed.
Next Obligation. intros o (? & ? & _). by apply validate_publish_of. Qed.

Lemma bytes_connack_body o : Connack.typed o -> Connack.valid o -> bytes (Connack.body o).
Proof.
  intros Ht Hv. pose proof (Connack.connack_props_accepted o Ht Hv) as [Hw _]. destruct Ht as (Hr & _).
  unfold Connack.body. rewrite !bytes_app. repeat split; [|by apply Forall_singleton|by apply bytes_section].
  apply Forall_singleton. by destruct (Connack.o_SessionPresent o).
Qed.

#[export, program] Instance ConnackFormat : PacketFormat Connack.ConnackOpts := {|
  sendable o := Connack.typed o /\ Connack.valid o /\ Connack.fits o;
  header_type _ := CONNACK;
  header_flags _ := 0;
  body_of := Connack.body;
  received o := PConnack (Connack.decoded o);
|}.
Next Obligation. done. Qed.
Next Obligation. done. Qed.
Next Obligation. done. Qed.
Next Obligation. by intros o (_ & _ & ?). Qed.
Next Obligation. intros o (? & ? & _). by apply bytes_connack_body. Qed.
Next Obligation. intros o (? & ? & ?). unfold decodeBody. simpl. by rewrite Connack.decodeConnack_enc. Qed.
Next Obligation. intros o (? & ? & _). by apply validate_connack. Qed.

#[export, program] Instance ConnectFormat : PacketFormat Connect.ConnectOpts := {|
  sendable o := Connect.typed o /\ Connect.valid o /\ Connect.fits o;
  header_type _ := CONNECT;
  header_flags _ := 0;
  body_of := Connect.body;
  received o := PConnect (Connect.decoded o);
|}.
Next Obligation. done. Qed.
Next Obligation. done. Qed.
Next Obligation. done. Qed.
Next Obligation. by intros o (_ & _ & ?). Qed.
Next Obligation. intros o (? & ? & _). by apply bytes_connect_body. Qed.
Next Obligation. intros o (? & ? & ?). unfold decodeBody. simpl. by rewrite Connect.decodeConnect_enc. Qed.
Next Obligation. intros o (? & ? & _). by apply validate_connect. Qed.

(** An acknowledgement of the publish flow is its type and its options. *)
Definition Ack : Type := Z * PubResp.PubRespOpts.

#[export, program] Instance PubRespFormat : PacketFormat Ack := {|
  sendable o := PubResp.isPubResp (fst o) /\ PubResp.typed (snd o) /\ PubResp.valid (fst o) (snd o) /\ PubResp.fits (snd o);
  header_type := fst;
  header_flags o := PubResp.flagsOf (fst o);
  body_of o := PubResp.body (snd o);
  received o := PPubResp (PubResp.decoded (fst o) (snd o));
|}.
Next Obligation. intros [t o] (Ht & _). by apply PubResp.isPubResp_range. Qed.
Next Obligation. intros [t o] (Ht & _). by apply PubResp.isPubResp_range. Qed.
Next Obligation. by intros [t o] ([-> | [-> | [-> | ->]]] & _). Qed.
Next Obligation. by intros [t o] (_ & _ & _ & ?). Qed.
Next Obligation.
  intros [t o] (Ht & Hty & Hv & _). cbn [snd fst] in *. pose proof (PubResp.pubresp_props_accepted t o Ht Hty Hv) as [Hw _].
  destruct Hty as (? & ? & _). unfold PubResp.body. rewrite bytes_app. split; [auto with go|by apply bytes_reason_tail].
Qed.
Next Obligation.
  intros [t o] (Ht & Hty & Hv & Hf). cbn [snd fst] in *. pose proof (PubResp.decodePubResp_enc t o Ht Hty Hv Hf) as E.
  unfold decodeBody, pmap. by destruct Ht as [-> | [-> | [-> | ->]]]; simpl; rewrite E.
Qed.
Next Obligation. intros [t o] (? & ? & ? & _). by apply validate_pubresp. Qed.

#[export, program] Instance DisconnectFormat : PacketFormat Disconnect.DisconnectOpts := {|
  sendable o := Disconnect.typed o /\ Disconnect.valid o /\ Disconnect.fits o;
  header_type _ := DISCONNECT;
  header_flags _ := 0;
  body_of := Disconnect.body;
  received o := PDisconnect (Disconnect.decoded o);
|}.
Next Obligation. done. Qed.
Next Obligation. done. Qed.
Next Obligation. done. Qed.
Next Obligation. by intros o (_ & _ & ?). Qed.
Next Obligation.
  intros o (Ht & Hv & _). pose proof (Disconnect.disconnect_props_accepted o Ht Hv) as [Hw _]. destruct Ht as (? & _).
  by apply bytes_reason_tail.
Qed.
Next Obligation. intros o (? & ? & ?). unfold decodeBody. simpl. by rewrite Disconnect.decodeDisconnect_enc. Qed.
Next Obligation. intros o (? & ? & _). by apply validate_disconnect. Qed.

#[export, program] Instance AuthFormat : PacketFormat Auth.AuthOpts := {|
  sendable o := Auth.typed o /\ Auth.valid o /\ Auth.fits o;
  header_type _ := AUTH;
  header_flags _ := 0;
  body_of := Auth.body;
  received o := PAuth (Auth.decoded o);
|}.
Next Obligation. done. Qed.
Next Obligation. done. Qed.
Next Obligation. done. Qed.
Next Obligation. by intros o (_ & _ & ?). Qed.
Next Obligation.
  intros o (Ht & Hv & _). pose proof (Auth.auth_props_accepted o Ht Hv) as [Hw _]. destruct Ht as (? & _).
  by apply bytes_reason_tail.
Qed.
Next Obligation. intros o (? & ? & ?). unfold decodeBody. simpl. by rewrite Auth.decodeAuth_enc. Qed.
Next Obligation. intros o (? & ? & _). by apply validate_auth. Qed.

#[export, program] Instance SubscribeFormat : PacketFormat SubscribeOpts := {|
  sendable o := sub_typed o /\ sub_valid o /\ sub_fits o;
  header_type _ := SUBSCRIBE;
  header_flags _ := 2;
  body_of := sub_body;
  received o := PSubscribe (sub_decoded o);
|}.
Next Obligation. done. Qed.
Next Obligation. done. Qed.
Next Obligation. done. Qed.
Next Obligation. by intros o (_ & _ & ?). Qed.
Next Obligation.
  intros o (Ht & Hv & _). pose proof (sub_props_accepted o Ht Hv) as [Hw _]. destruct Ht as (? & ? & _).
  destruct Hv as (_ & _ & ? & _). unfold sub_body. rewrite !bytes_app. auto using bytes_section, bytes_filters with go.
Qed.
Next Obligation. intros o (? & ? & ?). unfold decodeBody. simpl. by rewrite decodeSubscribe_enc. Qed.
Next Obligation. intros o (? & ? & _). by apply validate_subscribe. Qed.

#[export, program] Instance UnsubscribeFormat : PacketFormat UnsubscribeOpts := {|
  sendable o := unsub_typed o /\ unsub_valid o /\ unsub_fits o;
  header_type _ := UNSUBSCRIBE;
  header_flags _ := 2;
  body_of := unsub_body;
  received o := PUnsubscribe (unsub_decoded o);
|}.
Next Obligation. done. Qed.
Next Obligation. done. Qed.
Next Obligation. done. Qed.
Next Obligation. by intros o (_ & _ & ?). Qed.
Next Obligation.
  intros o ((? & ? & ?) & (_ & _ & _ & ?) & _). unfold unsub_body. rewrite !bytes_app.
  destruct (user_props_accepted UNSUBSCRIBE (uo_UserProperties o)) as [Hw _]; [done|done|].
  auto using bytes_section, bytes_topics with go.
Qed.
Next Obligation. intros o (? & ? & ?). unfold decodeBody. simpl. by rewrite decodeUnsubscribe_enc. Qed.
Next Obligation. intros o (? & ? & _). by apply validate_unsubscribe. Qed.

(** SUBACK ([true]) or UNSUBACK ([false]). *)
Definition ListAck : Type := bool * AckListOpts.
Definition list_ack_type (o : ListAck) : Z := if fst o then SUBACK else UNSUBACK.

#[export, program] Instance ListAckFormat : PacketFormat ListAck := {|
  sendable o := ack_typed (snd o) /\ ack_valid (list_ack_type o) (snd o) /\ ack_fits (snd o);
  header_type := list_ack_type;
  header_flags _ := 0;
  body_of o := ack_body (snd o);
  received o := (if fst o then PSuback else PUnsuback) (ack_decoded (snd o));
|}.
Next Obligation. by intros [[] o]. Qed.
Next Obligation. done. Qed.
Next Obligation. by intros [[] o]. Qed.
Next Obligation. by intros o (_ & _ & ?). Qed.
Next Obligation.
  intros [b o] (Ht & Hv & _). cbn [snd] in *.
  destruct (ack_props_accepted (list_ack_type (b, o)) o) as [Hw _]; [destruct b; auto|done|done|].
  destruct Ht as (? & ? & _). unfold ack_body. rewrite !bytes_app. auto using bytes_section with go.
Qed.
Next Obligation.
  intros [b o] (Ht & Hv & Hf). cbn [snd fst] in *. destruct (decodeAckList_enc o Ht Hf) as [E1 E2].
  unfold decodeBody, pmap. destruct b; simpl in *; by rewrite ?E1, ?E2 by done.
Qed.
Next Obligation.
  intros [b o] (Ht & Hv & _). apply (validate_acklist (list_ack_type (b, o))); [destruct b; auto|done|done].
Qed.

(** PINGREQ ([true]) or PINGRESP ([false]). *)
#[export, program] Instance PingFormat : PacketFormat bool := {|
  sendable _ := True;
  header_type b := if b then PINGREQ else PINGRESP;
  header_flags _ := 0;
  body_of _ := [];
  received b := if b then PPingreq else PPingresp;
|}.
Next Obligation. by intros []. Qed.
Next Obligation. done. Qed.
Next Obligation. by intros []. Qed.
Next Obligation. done. Qed.
Next Obligation. intros. apply bytes_nil. Qed.
Next Obligation. by intros []. Qed.
Next Obligation. by intros []. Qed.

(** ** Everything the package can send *)

Inductive Outgoing : Type :=
| SendConnect (o : Connect.ConnectOpts)
| SendConnack (o : Connack.ConnackOpts)
| SendPublish (o : PublishOpts)
| SendPuback (o : PubResp.PubRespOpts)
| SendPubrec (o : PubResp.PubRespOpts)
| SendPubrel (o : PubResp.PubRespOpts)
| SendPubcomp (o : PubResp.PubRespOpts)
| SendSubscribe (o : SubscribeOpts)
| SendSuback (o : AckListOpts)
| SendUnsubscribe (o : UnsubscribeOpts)
| SendUnsuback (o : AckListOpts)
| SendPingreq
| SendPingresp
| SendDisconnect (o : Disconnect.DisconnectOpts)
| SendAuth (o : Auth.AuthOpts).

(** The [Write*] function of each packet: the bytes it hands to the connection. *)
Definition write `{BufferPool} (x : Outgoing) : wres (list Z) :=
  match x with
  | SendConnect o => Connect.WriteConnect o
  | SendConnack o => Connack.WriteConnack o
  | SendPublish o => WritePublish o
  | SendPuback o => PubResp.WritePuback o
  | SendPubrec o => PubResp.WritePubrec o
  | SendPubrel o => PubResp.WritePubrel o
  | SendPubcomp o => PubResp.WritePubcomp o
  | SendSubscribe o => WriteSubscribe o
  | SendSuback o => WriteSuback o
  | SendUnsubscribe o => WriteUnsubscribe o
  | SendUnsuback o => WriteUnsuback o
  | SendPingreq => Ok Ping.WritePingreq
  | SendPingresp => Ok Ping.WritePingresp
  | SendDisconnect o => Disconnect.WriteDisconnect o
  | SendAuth o => Auth.WriteAuth o
  end.

(** What holds of the packet's format, whichever it is. *)
Definition on_format {A} (f : forall O, PacketFormat O -> O -> A) (x : Outgoing) : A :=
  match x with
  | SendConnect o => f _ _ o
  | SendConnack o => f _ _ o
  | SendPublish o => f _ _ o
  | SendPuback o => f _ PubRespFormat (PUBACK, o)
  | SendPubrec o => f _ PubRespFormat (PUBREC, o)
  | SendPubrel o => f _ PubRespFormat (PUBREL, o)
  | SendPubcomp o => f _ PubRespFormat (PUBCOMP, o)
  | SendSubscribe o => f _ _ o
  | SendSuback o => f _ ListAckFormat (true, o)
  | SendUnsubscribe o => f _ _ o
  | SendUnsuback o => f _ ListAckFormat (false, o)
  | SendPingreq => f _ _ true
  | SendPingresp => f _ _ false
  | SendDisconnect o => f _ _ o
  | SendAuth o => f _ _ o
  end.

(** The options are values of their Go types that MQTT v5 allows, and the
    packet fits the Remaining Length. *)
Definition out_ok : Outgoing -> Prop := on_format (@sendable).
Definition out_bytes : Outgoing -> list Z := on_format (@encoding).
Definition out_packet : Outgoing -> Packet := on_format (@received).
Definition out_body : Outgoing -> list Z := on_format (@body_of).

(** The options are values of their Go types. *)
Definition out_typed (x : Outgoing) : Prop :=
  match x with
  | SendConnect o => Connect.typed o
  | SendConnack o => Connack.typed o
  | SendPublish o => publish_typed o
  | SendPuback o | SendPubrec o | SendPubrel o | SendPubcomp o => PubResp.typed o
  | SendSubscribe o => sub_typed o
  | SendSuback o | SendUnsuback o => ack_typed o
  | SendUnsubscribe o => unsub_typed o
  | SendPingreq | SendPingresp => True
  | SendDisconnect o => Disconnect.typed o
  | SendAuth o => Auth.typed o
  end.

Section codec.
Context `{BufferPool}.

Lemma out_written x : out_ok x -> write x = Ok (out_bytes x).
Proof.
  destruct x; cbn [out_ok out_bytes on_format write]; intros Hs.
  - destruct Hs as (? & ? & ?). by apply Connect.WriteConnect_spec.
  - destruct Hs as (? & ? & ?). by apply Connack.WriteConnack_spec.
  - destruct Hs as (? & ? & ?). rewrite WritePublish_spec by done. by rewrite enc_publish_packet.
  - destruct Hs as (? & ? & ? & ?). by apply (PubResp.writePubResp_spec PUBACK o).
  - destruct Hs as (? & ? & ? & ?). by apply (PubResp.writePubResp_spec PUBREC o).
  - destruct Hs as (? & ? & ? & ?). by apply (PubResp.writePubResp_spec PUBREL o).
  - destruct Hs as (? & ? & ? & ?). by apply (PubResp.writePubResp_spec PUBCOMP o).
  - destruct Hs as (? & ? & ?). by apply WriteSubscribe_spec.
  - destruct Hs as (? & ? & ?). by apply WriteSuback_spec.
  - destruct Hs as (? & ? & ?). by apply WriteUnsubscribe_spec.
  - destruct Hs as (? & ? & ?). by apply WriteUnsuback_spec.
  - done.
  - done.
  - destruct Hs as (? & ? & ?). by apply Disconnect.WriteDisconnect_spec.
  - destruct Hs as (? & ? & ?). by apply Auth.WriteAuth_spec.
Qed.

Lemma out_read d x rest e :
  out_ok x -> bytes rest -> within_limit d (len (out_bytes x)) ->
  ReadPacket d (mkReader (out_bytes x ++ rest) e) = ([], Ok (out_packet x, mkReader rest e)).
Proof. destruct x; apply ReadPacket_format. Qed.

Lemma refuses_imp m (P valid fits : Prop) enc :
  (P <-> valid /\ fits) -> writes_or_refuses m valid fits enc ->
  match m with Ok bs => P /\ bs = enc | Err _ => ~ P | Panic => False end.
Proof. unfold writes_or_refuses. destruct m; tauto. Qed.

Lemma out_decides x :
  out_typed x -> len (out_body x) < 2 ^ 32 ->
  match write x with Ok bs => out_ok x /\ bs = out_bytes x | Err _ => ~ out_ok x | Panic => False end.
Proof.
  destruct x; cbn [out_typed out_body out_ok out_bytes on_format write]; intros Ht Hl.
  - eapply refuses_imp; [|by apply WriteConnect_decides]. simpl. tauto.
  - eapply refuses_imp; [|by apply WriteConnack_decides]. simpl. tauto.
  - unfold encoding. eapply refuses_imp; [|rewrite <- enc_publish_packet; by apply WritePublish_decides]. simpl. tauto.
  - eapply refuses_imp; [|apply (writePubResp_decides PUBACK); [by left|done..]]. simpl. unfold PubResp.isPubResp. tauto.
  - eapply refuses_imp; [|apply (writePubResp_decides PUBREC); [by right; left|done..]]. simpl. unfold PubResp.isPubResp. tauto.
  - eapply refuses_imp; [|apply (writePubResp_decides PUBREL); [by right; right; left|done..]]. simpl. unfold PubResp.isPubResp. tauto.
  - eapply refuses_imp; [|apply (writePubResp_decides PUBCOMP); [by right; right; right|done..]]. simpl. unfold PubResp.isPubResp. tauto.
  - eapply refuses_imp; [|by apply WriteSubscribe_decides]. simpl. tauto.
  - eapply refuses_imp; [|by apply WriteSuback_decides]. simpl. tauto.
  - eapply refuses_imp; [|by apply WriteUnsubscribe_decides]. simpl. tauto.
  - eapply refuses_imp; [|by apply WriteUnsuback_decides]. simpl. tauto.
  - done.
  - done.
  - eapply refuses_imp; [|by apply WriteDisconnect_decides]. simpl. tauto.
  - eapply refuses_imp; [|by apply WriteAuth_decides]. simpl. tauto.
Qed.
End codec.

(** ** A connection in one direction *)

(** The writes of a sender, one packet after another. *)
Fixpoint write_all `{BufferPool} (xs : list Outgoing) : wres (list Z) :=
  match xs with
  | [] => Ok []
  | x :: xs => let! bs := write x in let! rest := write_all xs in Ok (bs ++ rest)
  end.

(** A receiver calling [ReadPacket] until it fails, at most [fuel] times:
    the packets, and the error that ended the stream. *)
Fixpoint read_all `{BufferPool} (fuel : nat) (d : Decoder) (r : Reader) : list Packet * option error :=
  match fuel with
  | O => ([], None)
  | S fuel =>
      match snd (ReadPacket d r) with
      | Ok (p, r) => let (ps, err) := read_all fuel d r in (p :: ps, err)
      | Err err => ([], Some err)
      | Panic => ([], None)
      end
  end.

Lemma bytes_packet first body : is_u8 first -> bytes body -> bytes (packet first body).
Proof. intros Hf Hb. unfold packet. rewrite bytes_cons, bytes_app. pose proof (len_nonneg body). auto with go. Qed.

Lemma bytes_encoding {O} `{PacketFormat O} (o : O) : sendable o -> bytes (encoding o).
Proof.
  intros Hs. pose proof (header_type_ok o Hs). pose proof (header_flags_ok o Hs).
  apply bytes_packet; [unfold is_u8; pow2; lia|by apply body_bytes].
Qed.

Lemma bytes_out x : out_ok x -> bytes (out_bytes x).
Proof. destruct x; apply bytes_encoding. Qed.

Section codec_stream.
Context `{BufferPool}.

Lemma write_all_ok xs :
  Forall out_ok xs -> write_all xs = Ok (concat (map out_bytes xs)) /\ bytes (concat (map out_bytes xs)).
Proof.
  induction 1 as [|x xs Hx _ [IH1 IH2]]; [split; [done|apply bytes_nil]|]. cbn [write_all map concat].
  rewrite (out_written x Hx), IH1. cbn [rbind]. split; [done|]. rewrite bytes_app. auto using bytes_out.
Qed.

Lemma read_all_ok d xs e :
  Forall out_ok xs -> Forall (fun x => within_limit d (len (out_bytes x))) xs ->
  read_all (S (length xs)) d (mkReader (concat (map out_bytes xs)) e) = (map out_packet xs, Some e).
Proof.
  induction 1 as [|x xs Hx Hxs IH]; intros Hl; [done|]. apply Forall_cons in Hl as [Hl1 Hl].
  cbn [map concat length]. cbn [read_all]. destruct (write_all_ok xs Hxs) as [_ Hb].
  rewrite (out_read d x _ e Hx Hb Hl1). cbn [snd]. specialize (IH Hl). cbn [read_all length] in IH. by rewrite IH.
Qed.

(** ** Theorems *)

(** C1: round trip of the codec. Whatever packet the client or the broker
    sends with options MQTT v5 allows, its [Write*] function succeeds,
    independently of what the buffer pool's recycled buffers hold, and a
    decoder whose limit admits it reads back exactly that packet from the
    bytes, without reports, leaving the reader at what follows. *)
Theorem codec_roundtrip d x rest e :
  out_ok x -> bytes rest -> within_limit d (len (out_bytes x)) ->
  exists bs, write x = Ok bs /\ bytes bs
    /\ ReadPacket d (mkReader (bs ++ rest) e) = ([], Ok (out_packet x, mkReader rest e)).
Proof. intros Hx Hr Hl. exists (out_bytes x). auto using out_written, out_read, bytes_out. Qed.

(** C30: a connection delivers the packets sent. Any sequence of packets
    written back to back is read back as the same sequence, in order, and
    the read after the last one returns the reader's own end. *)
Theorem stream_roundtrip d xs e :
  Forall out_ok xs -> Forall (fun x => within_limit d (len (out_bytes x))) xs ->
  exists bs, write_all xs = Ok bs /\ read_all (S (length xs)) d (mkReader bs e) = (map out_packet xs, Some e).
Proof. intros Hx Hl. exists (concat (map out_bytes xs)). by split; [apply write_all_ok|apply read_all_ok]. Qed.

(** C31: the encoders decide, for packets whose body is below 4 GiB. On options
    of the right types a [Write*] function then never panics; it returns bytes
    exactly when the options are allowed and the packet fits the Remaining
    Length, and then the bytes are the packet; otherwise it returns an error
    and writes nothing. From 4 GiB on this is false, because the length is cut
    to 32 bits before it is checked ([length_wraps]). *)
Theorem write_exact x :
  out_typed x -> len (out_body x) < 2 ^ 32 ->
  (forall bs, write x = Ok bs <-> out_ok x /\ bs = out_bytes x)
  /\ ((exists err, write x = Err err) <-> ~ out_ok x) /\ write x <> Panic.
Proof.
  intros Ht Hl. pose proof (out_decides x Ht Hl) as Hd. pose proof (out_written x) as Hw.
  destruct (write x) as [bs|err|] eqn:E; [| |done].
  - destruct Hd as [Hok ->]. split; [intros bs; split; [by intros [= <-]|by intros [_ ->]]|]. split; [|done].
    split; [by intros [? ?]|done].
  - split; [intros bs; split; [done|by intros [? _]]|]. split; [|done]. split; [done|eauto].
Qed.
End codec_stream.

(** ** Witnesses *)

(** A subscription to [a/+] with QoS 1, and a QoS 1 publication on [a]. *)
Definition sample_subscribe : SubscribeOpts := mkSubscribeOpts 7 [mkFilter (str "a/+") 1 false false 0] (Some 5) [].
Definition sample_publish : PublishOpts :=
  {| Topic := str "a"; Payload := [1; 2; 3]; QoS := 1; Retain := false; Dup := false; PacketID := 9;
     PayloadFormatIndicator := None; MessageExpiryInterval := Some 30; ContentType := str "t"; ResponseTopic := [];
     CorrelationData := Some []; TopicAlias := 0; UserProps := [] |}.

Lemma sample_publish_ok : out_ok (SendPublish sample_publish).
Proof.
  assert (Ht : publish_typed sample_publish) by (by repeat constructor).
  split; [done|]. split; [by apply (validatePublishOpts_iff _ Ht)|done].
Qed.

Lemma sample_subscribe_ok : out_ok (SendSubscribe sample_subscribe).
Proof.
  assert (Ht : sub_typed sample_subscribe) by (by repeat constructor).
  split; [done|]. split; [by apply (validateSubscribeOpts_iff _ Ht)|done].
Qed.

(** A body of 4 GiB and four bytes: the length wraps, and a packet that
    announces four bytes is written with all of the payload behind it. *)
Definition huge_publish (payload : list Z) : PublishOpts :=
  {| Topic := str "a"; Payload := payload; QoS := 0; Retain := false; Dup := false; PacketID := 0;
     PayloadFormatIndicator := None; MessageExpiryInterval := None; ContentType := []; ResponseTopic := [];
     CorrelationData := None; TopicAlias := 0; UserProps := [] |}.

Lemma length_wraps payload :
  len payload = 2 ^ 32 -> @WritePublish stale_pool (huge_publish payload) = Ok ([48; 4; 0; 1; 97; 0] ++ payload).
Proof.
  intros Hl. assert (El : publishLayoutOf (huge_publish payload) = mkLayout 0 1 4 (4 + 2 ^ 32) 1 (6 + 2 ^ 32))
    by (unfold publishLayoutOf; cbn; rewrite Hl; reflexivity).
  unfold WritePublish, AppendPublishHeader. rewrite El. change (Payload (huge_publish payload)) with payload. rewrite Hl. vm_compute. reflexivity.
Qed.

Lemma codec_roundtrip_witness :
  exists bs, @write stale_pool (SendPublish sample_publish) = Ok bs /\ bytes bs
    /\ @ReadPacket stale_pool (mkDecoder 64 false) (mkReader (bs ++ [0xC0; 0]) (Sentinel EOF))
       = ([], Ok (PPublish (publish_of sample_publish), mkReader [0xC0; 0] (Sentinel EOF))).
Proof.
  apply (@codec_roundtrip stale_pool (mkDecoder 64 false) (SendPublish sample_publish) [0xC0; 0] (Sentinel EOF));
    [exact sample_publish_ok|by repeat constructor|right; vm_compute; discriminate].
Defined.

Lemma stream_roundtrip_witness :
  exists bs, @write_all stale_pool [SendSubscribe sample_subscribe; SendPingreq; SendPublish sample_publish] = Ok bs
    /\ @read_all stale_pool 4 (mkDecoder 0 false) (mkReader bs (Sentinel EOF))
       = ([PSubscribe (sub_decoded sample_subscribe); PPingreq; PPublish (publish_of sample_publish)], Some (Sentinel EOF)).
Proof.
  apply (@stream_roundtrip stale_pool (mkDecoder 0 false)
           [SendSubscribe sample_subscribe; SendPingreq; SendPublish sample_publish] (Sentinel EOF)).
  - repeat (apply Forall_cons; split); [exact sample_subscribe_ok|exact I|exact sample_publish_ok|constructor].
  - by repeat constructor.
Defined.

(** A QoS 1 PUBLISH with no packet identifier is refused. *)
Definition sample_refused : PublishOpts :=
  {| Topic := str "a"; Payload := []; QoS := 1; Retain := false; Dup := false; PacketID := 0;
     PayloadFormatIndicator := None; MessageExpiryInterval := None; ContentType := []; ResponseTopic := [];
     CorrelationData := None; TopicAlias := 0; UserProps := [] |}.

Lemma write_exact_witness :
  (exists err, @write stale_pool (SendPublish sample_refused) = Err err) /\ out_ok (SendPublish sample_publish).
Proof.
  split.
  - apply (@write_exact stale_pool (SendPublish sample_refused)); [by repeat constructor|done|].
    intros (_ & Hv & _). destruct Hv as (_ & Hid & _). by apply Hid.
  - apply (proj1 (@write_exact stale_pool (SendPublish sample_publish) ltac:(by repeat constructor) ltac:(done))
             (out_bytes (SendPublish sample_publish))).
    reflexivity.
Defined.
