(* ===== verification/Trie.v ===== *)
(** * Trie: the topic filter matcher (internal/trie/trie.go)

    The tree the client registers its handlers in, and [Match], which
    dispatches an inbound PUBLISH. The tree is proved to refine a plain list
    of live registrations: [Match] yields exactly the handlers whose filters
    match the topic by the rules of section 4.7, and [Unregister] leaves no
    empty nodes behind. *)

From stdpp Require Import list_tactics.
From S2P Require Import Prelude GoLib Errors Utf8 Topics.

Definition plus_level : list Z := str "+".
Definition hash_level : list Z := str "#".

Section trie.
Context {Handler : Type}.

(** ** Data *)

Record entry : Type := mkEntry { e_id : Z; e_handler : Handler }.

(** [Node]; the map of children as its key-value pairs, each key once. *)
#[warnings="-register-all"]
Inductive Node : Type :=
| mkNode (children : list (list Z * Node)) (plusChild hashChild : option Node) (handlers : list entry).

Definition children (n : Node) : list (list Z * Node) := let (c, _, _, _) := n in c.
Definition plusChild (n : Node) : option Node := let (_, p, _, _) := n in p.
Definition hashChild (n : Node) : option Node := let (_, _, h, _) := n in h.
Definition handlers (n : Node) : list entry := let (_, _, _, hs) := n in hs.

(** [&Node{}] *)
Definition newNode : Node := mkNode [] None None [].

(** [Node.empty] *)
Definition empty (n : Node) : bool :=
  match n with mkNode [] None None [] => true | _ => false end.

(** The map operations [m[k]], [m[k] = v] and [delete(m, k)]. *)
Fixpoint map_get (k : list Z) (m : list (list Z * Node)) : option Node :=
  match m with
  | [] => None
  | (k', v) :: m => if list_eqb k' k then Some v else map_get k m
  end.
Fixpoint map_set (k : list Z) (v : Node) (m : list (list Z * Node)) : list (list Z * Node) :=
  match m with
  | [] => [(k, v)]
  | (k', v') :: m => if list_eqb k' k then (k, v) :: m else (k', v') :: map_set k v m
  end.
Fixpoint map_delete (k : list Z) (m : list (list Z * Node)) : list (list Z * Node) :=
  match m with
  | [] => []
  | (k', v') :: m => if list_eqb k' k then m else (k', v') :: map_delete k m
  end.

Record Tree : Type := mkTree { root : Node; nextID : Z }.

Definition NewTree : Tree := mkTree newNode 0.

(** ** Register *)

Definition splitLevels (s : list Z) : list (list Z) := split s slash.

(** [ensure] over the levels of a filter, with what the caller then does to
    the leaf it returns. *)
Fixpoint ensure (levels : list (list Z)) (leaf : Node -> Node) (node : Node) : Node :=
  match levels with
  | [] => leaf node
  | level :: levels =>
      let '(mkNode cs p h hs) := node in
      if list_eqb level plus_level then
        let p := match p with None => newNode | Some p => p end in
        mkNode cs (Some (ensure levels leaf p)) h hs
      else if list_eqb level hash_level then
        let h := match h with None => newNode | Some h => h end in
        mkNode cs p (Some (leaf h)) hs
      else
        let child := match map_get level cs with None => newNode | Some child => child end in
        mkNode (map_set level (ensure levels leaf child) cs) p h hs
  end.

(** [node.handlers = append(node.handlers, e)] *)
Definition append_handler (e : entry) (n : Node) : Node :=
  let '(mkNode cs p h hs) := n in mkNode cs p h (hs ++ [e]).

Definition Register (t : Tree) (filter : list Z) (h : Handler) : Tree * Z :=
  let id := u64 (nextID t + 1) in
  (mkTree (ensure (splitLevels filter) (append_handler (mkEntry id h)) (root t)) id, id).

(** ** Unregister *)

(** The handlers without the first one that has [id]. *)
Fixpoint remove_entry (id : Z) (hs : list entry) : option (list entry) :=
  match hs with
  | [] => None
  | e :: hs =>
      if e_id e =? id then Some hs
      else match remove_entry id hs with Some hs => Some (e :: hs) | None => None end
  end.

(** [if node.empty() { delete it from its parent }] *)
Definition prune (n : Node) : option Node := if empty n then None else Some n.

(** The removal at the filter's node. *)
Definition remove_leaf (id : Z) (node : Node) : option Node :=
  let '(mkNode cs p h hs) := node in
  match remove_entry id hs with Some hs => Some (mkNode cs p h hs) | None => None end.

(** Down [path] to the filter's node, the removal there, and the pruning on
    the way back up. [None]: no such node or no such handler. *)
Fixpoint remove_at (levels : list (list Z)) (id : Z) (node : Node) : option Node :=
  match levels with
  | [] => remove_leaf id node
  | level :: levels =>
      let '(mkNode cs p h hs) := node in
      if list_eqb level plus_level then
        match p with
        | None => None
        | Some c => match remove_at levels id c with
                    | Some c => Some (mkNode cs (prune c) h hs)
                    | None => None
                    end
        end
      else if list_eqb level hash_level then
        match h with
        | None => None
        | Some c => match remove_leaf id c with
                    | Some c => Some (mkNode cs p (prune c) hs)
                    | None => None
                    end
        end
      else
        match map_get level cs with
        | None => None
        | Some c => match remove_at levels id c with
                    | Some c => Some (mkNode (match prune c with Some c => map_set level c cs | None => map_delete level cs end) p h hs)
                    | None => None
                    end
        end
  end.

Definition Unregister (t : Tree) (filter : list Z) (id : Z) : Tree * bool :=
  match remove_at (splitLevels filter) id (root t) with
  | Some root => (mkTree root (nextID t), true)
  | None => (t, false)
  end.

Definition Reset (t : Tree) : Tree := mkTree newNode (nextID t).

(** [countNodes] *)
Fixpoint countNodes (n : Node) : Z :=
  let '(mkNode cs p h _) := n in
  1 + (match p with Some p => countNodes p | None => 0 end)
  + (match h with Some h => countNodes h | None => 0 end)
  + (fix sum (cs : list (list Z * Node)) : Z :=
       match cs with [] => 0 | (_, c) :: cs => countNodes c + sum cs end) cs.

Definition Nodes (t : Tree) : Z := countNodes (root t).

(** ** Match *)

(** The level of [topic] at [start] and the start of the next one,
    [len(topic)+1] past the end. *)
Definition next_level (topic : list Z) (start : Z) : list Z * Z :=
  match index_byte (zdrop start topic) slash with
  | None => (zdrop start topic, len topic + 1)
  | Some rel => (ztake rel (zdrop start topic), start + rel + 1)
  end.

(** The handlers [matchLevels] yields, in order. Each call moves [start]
    forward, so there are at most [len(topic)+2] nested ones. *)
Fixpoint matchLevels (fuel : nat) (n : Node) (topic : list Z) (start : Z) : list Handler :=
  match fuel with
  | O => []
  | S fuel =>
      (match hashChild n with Some h => map e_handler (handlers h) | None => [] end)
      ++ (if len topic <? start then map e_handler (handlers n)
          else
            let (level, next) := next_level topic start in
            (match plusChild n with Some c => matchLevels fuel c topic next | None => [] end)
            ++ (match map_get level (children n) with Some c => matchLevels fuel c topic next | None => [] end))
  end.

(** [matchDollar] *)
Definition matchDollar (fuel : nat) (root : Node) (topic : list Z) : list Handler :=
  let (level, next) := (match index_byte topic slash with
                        | Some i => (ztake i topic, i + 1)
                        | None => (topic, len topic + 1)
                        end) in
  match map_get level (children root) with
  | Some child => matchLevels fuel child topic next
  | None => []
  end.

Definition Match (t : Tree) (topic : list Z) : list Handler :=
  let fuel := S (S (length topic)) in
  if has_prefix topic (str "$") then matchDollar fuel (root t) topic
  else matchLevels fuel (root t) topic 0.

(** ** The registrations a tree holds *)

(** Where a filter's handlers live: its levels up to the first ["#"]. *)
Fixpoint upto_hash (levels : list (list Z)) : list (list Z) :=
  match levels with
  | [] => []
  | l :: levels => if list_eqb l hash_level then [hash_level] else l :: upto_hash levels
  end.

Definition push (l : list Z) (r : list (list Z) * entry) : list (list Z) * entry := (l :: r.1, r.2).

(** Every entry of a tree with the levels that lead to it. *)
Fixpoint flat (n : Node) : list (list (list Z) * entry) :=
  let '(mkNode cs p h hs) := n in
  map (pair []) hs
  ++ (match p with Some c => map (push plus_level) (flat c) | None => [] end)
  ++ (match h with Some c => map (push hash_level) (flat c) | None => [] end)
  ++ concat (map (fun kc => map (push (fst kc)) (flat (snd kc))) cs).

Abbreviation flat_opt k o := (match o with Some c => map (push k) (flat c) | None => [] end).
Abbreviation flat_children cs := (concat (map (fun kc => map (push (fst kc)) (flat (snd kc))) cs)).

(** The shape of a tree: no empty nodes below the root, nothing below a
    ["#"], and wildcards only in their own fields. *)
#[warnings="-register-all"]
Inductive wf : Node -> Prop :=
| wf_node cs p h hs :
    NoDup (map fst cs) ->
    Forall (fun kc => (fst kc <> plus_level /\ fst kc <> hash_level) /\ wf (snd kc) /\ empty (snd kc) = false) cs ->
    (forall c, p = Some c -> wf c /\ empty c = false) ->
    (forall c, h = Some c -> exists hs', c = mkNode [] None None hs' /\ hs' <> []) ->
    wf (mkNode cs p h hs).

(** ** The rules of section 4.7 *)

(** ["+"] matches one level, a final ["#"] the parent and everything below. *)
Fixpoint matches (filter topic : list (list Z)) : bool :=
  match filter with
  | [] => match topic with [] => true | _ => false end
  | l :: filter =>
      if list_eqb l hash_level then true
      else match topic with
           | [] => false
           | x :: topic => (list_eqb l plus_level || list_eqb l x) && matches filter topic
           end
  end.

Definition wildcard_first (filter : list (list Z)) : bool :=
  match filter with l :: _ => list_eqb l plus_level || list_eqb l hash_level | [] => false end.

(** A filter that begins with a wildcard does not match a ['$'] topic. *)
Definition topic_matches (filter : list (list Z)) (topic : list Z) : bool :=
  negb (has_prefix topic (str "$") && wildcard_first filter) && matches filter (splitLevels topic).

(** ** Maps *)

Lemma list_eqb_refl l : list_eqb l l = true.
Proof. by destruct (list_eqb_spec l l). Qed.

Lemma map_get_flat k cs : flat_children cs ≡ₚ flat_opt k (map_get k cs) ++ flat_children (map_delete k cs).
Proof.
  induction cs as [|[k' v] cs IH]; [done|]. cbn [map concat fst snd map_get map_delete].
  destruct (list_eqb_spec k' k) as [->|Hne]; [done|]. cbn [map concat fst snd]. rewrite IH at 1.
  rewrite !(assoc_L (++)). by rewrite (Permutation_app_comm (map _ _) (flat_opt k _)).
Qed.

Lemma map_set_flat k v cs : flat_children (map_set k v cs) ≡ₚ map (push k) (flat v) ++ flat_children (map_delete k cs).
Proof.
  induction cs as [|[k' v'] cs IH]; [done|]. cbn [map_set map_delete].
  destruct (list_eqb_spec k' k) as [->|Hne]; [done|]. cbn [map concat fst snd]. rewrite IH.
  rewrite !(assoc_L (++)). by rewrite (Permutation_app_comm (map _ (flat v'))).
Qed.

Lemma map_delete_subset k cs : incl (map_delete k cs) cs.
Proof.
  induction cs as [|[k' v'] cs IH]; [by intros x Hx|]. cbn [map_delete]. destruct (list_eqb k' k); intros x Hx; [by right|].
  destruct Hx as [<-|Hx]; [by left|right; auto].
Qed.

Lemma map_delete_keys k cs : NoDup (map fst cs) -> NoDup (map fst (map_delete k cs)) /\ Forall (fun kc => fst kc <> k) (map_delete k cs).
Proof.
  induction cs as [|[k' v'] cs IH]; cbn [map fst map_delete]; [done|]. intros [Hn Hd]%NoDup_cons.
  destruct (IH Hd) as [IH1 IH2]. destruct (list_eqb_spec k' k) as [->|Hne].
  - split; [done|]. apply Forall_forall. intros [k'' v''] Hin Hk. cbn [fst] in Hk. subst k''. apply Hn. apply list_elem_of_fmap. by eexists (_, _).
  - split; [|by constructor]. cbn [map fst]. apply NoDup_cons. split; [|done]. intros Hin. apply Hn.
    apply list_elem_of_fmap in Hin as ([k'' v''] & -> & Hin). apply list_elem_of_fmap. exists (k'', v''). split; [done|].
    apply list_elem_of_In, (map_delete_subset k), list_elem_of_In, Hin.
Qed.

(** ** Registering *)

Lemma plus_not_hash : list_eqb plus_level hash_level = false.
Proof. done. Qed.

Lemma flat_append e n : flat (append_handler e n) ≡ₚ ([], e) :: flat n.
Proof. destruct n as [cs p h hs]. cbn [append_handler flat]. rewrite map_app, <- app_assoc. cbn [map app]. symmetry. apply Permutation_middle. Qed.

Lemma flat_new : flat newNode = [].
Proof. done. Qed.

Lemma flat_default o k : map (push k) (flat (match o with None => newNode | Some c => c end)) = flat_opt k o.
Proof. by destruct o. Qed.

(** [ensure] puts the entry where its filter leads and moves nothing else. *)
Lemma flat_ensure levels e n : flat (ensure levels (append_handler e) n) ≡ₚ (upto_hash levels, e) :: flat n.
Proof.
  revert n. induction levels as [|l levels IH]; intros n; [apply flat_append|]. destruct n as [cs p h hs].
  cbn [ensure upto_hash]. destruct (list_eqb_spec l plus_level) as [->|Hp].
  - rewrite plus_not_hash. cbn [flat]. rewrite IH. cbn [map]. change (push plus_level (?a, ?b)) with (plus_level :: a, b).
    rewrite flat_default. solve_Permutation.
  - destruct (list_eqb_spec l hash_level) as [->|Hh].
    + cbn [flat]. rewrite flat_append. cbn [map]. change (push hash_level (?a, ?b)) with (hash_level :: a, b).
      rewrite flat_default. solve_Permutation.
    + cbn [flat]. rewrite map_set_flat, IH. cbn [map]. change (push l (?a, ?b)) with (l :: a, b).
      rewrite flat_default, (map_get_flat l cs). solve_Permutation.
Qed.

Lemma map_set_keys k v cs x : In x (map fst (map_set k v cs)) -> x = k \/ In x (map fst cs).
Proof.
  induction cs as [|[k' v'] cs IH]; cbn [map_set map fst]; [intros [->|[]]; auto|].
  destruct (list_eqb_spec k' k) as [->|]; cbn [map fst].
  - intros [->|H]; auto. right. by right.
  - intros [->|H]; [right; by left|]. destruct (IH H); auto. right. by right.
Qed.

Lemma map_set_nodup k v cs : NoDup (map fst cs) -> NoDup (map fst (map_set k v cs)).
Proof.
  induction cs as [|[k' v'] cs IH]; cbn [map_set map fst]; [intros _; apply NoDup_singleton|]. intros [Hn Hd]%NoDup_cons.
  destruct (list_eqb_spec k' k) as [->|Hne]; cbn [map fst]; apply NoDup_cons; [done|]. split; [|auto].
  intros Hin. apply list_elem_of_In, map_set_keys in Hin as [->|Hin]; [done|]. by apply Hn, list_elem_of_In.
Qed.

Lemma map_set_Forall (P : list Z * Node -> Prop) k v cs : Forall P cs -> P (k, v) -> Forall P (map_set k v cs).
Proof.
  intros Hcs Hk. induction Hcs as [|[k' v'] cs Hk' Hcs IH]; cbn [map_set]; [by repeat constructor|].
  destruct (list_eqb_spec k' k) as [->|]; by constructor.
Qed.

Lemma map_get_Forall (P : list Z * Node -> Prop) k cs c : Forall P cs -> map_get k cs = Some c -> P (k, c).
Proof.
  induction 1 as [|[k' v'] cs Hk _ IH]; cbn [map_get]; [done|].
  destruct (list_eqb_spec k' k) as [->|]; [by intros [= ->]|done].
Qed.

Lemma map_delete_Forall (P : list Z * Node -> Prop) k cs : Forall P cs -> Forall P (map_delete k cs).
Proof. induction 1 as [|[k' v'] cs]; cbn [map_delete]; [done|]. destruct (list_eqb k' k); [done|by constructor]. Qed.

Lemma empty_append e n : empty (append_handler e n) = false.
Proof. destruct n as [[|? ?] [?|] [?|] [|? ?]]; done. Qed.

Lemma empty_ensure levels e n : empty (ensure levels (append_handler e) n) = false.
Proof.
  destruct levels as [|l levels]; [apply empty_append|]. destruct n as [cs p h hs]. cbn [ensure].
  destruct (list_eqb l plus_level); [by destruct cs|]. destruct (list_eqb l hash_level); [by destruct cs, p|].
  destruct cs as [|[k c] cs]; cbn [map_set]; [done|]. by destruct (list_eqb k l).
Qed.

Lemma wf_new : wf newNode.
Proof. constructor; [constructor|constructor|done|done]. Qed.

Lemma wf_ensure levels e n : wf n -> wf (ensure levels (append_handler e) n).
Proof.
  revert n. induction levels as [|l levels IH]; intros n Hn; destruct Hn as [cs p h hs Hd Hcs Hp Hh].
  { by constructor. }
  cbn [ensure]. destruct (list_eqb_spec l plus_level) as [->|Hnp]; [|destruct (list_eqb_spec l hash_level) as [->|Hnh]].
  - constructor; try done. intros c [= <-]. split; [|apply empty_ensure]. apply IH.
    destruct p as [c|]; [by apply (Hp c)|apply wf_new].
  - constructor; try done. intros c [= <-]. destruct h as [c|]; [|by exists [e]].
    destruct (Hh c eq_refl) as (hs' & -> & _). exists (hs' ++ [e]). split; [done|]. by destruct hs'.
  - constructor; [by apply map_set_nodup| |done..]. apply map_set_Forall; [done|]. cbn [fst snd]. split; [done|].
    split; [|apply empty_ensure]. apply IH. destruct (map_get l cs) as [c|] eqn:E; [|apply wf_new].
    by apply (map_get_Forall _ _ _ _ Hcs E).
Qed.

(** ** Unregistering *)

Lemma remove_entry_spec id hs :
  match remove_entry id hs with
  | Some hs' => exists e, e_id e = id /\ hs ≡ₚ e :: hs'
  | None => Forall (fun e => e_id e <> id) hs
  end.
Proof.
  induction hs as [|e hs IH]; cbn [remove_entry]; [done|]. destruct (Z.eqb_spec (e_id e) id) as [E|E]; [by exists e|].
  destruct (remove_entry id hs) as [hs'|]; [|by constructor]. destruct IH as (e' & He & Hp). exists e'.
  split; [done|]. rewrite Hp. apply Permutation_swap.
Qed.

Lemma remove_leaf_spec id n :
  match remove_leaf id n with
  | Some n' => exists e, e_id e = id /\ flat n ≡ₚ ([], e) :: flat n'
  | None => forall e, ([], e) ∈ flat n -> e_id e <> id
  end.
Proof.
  destruct n as [cs p h hs]. cbn [remove_leaf]. pose proof (remove_entry_spec id hs) as Hs.
  destruct (remove_entry id hs) as [hs'|].
  - destruct Hs as (e & He & Hp). exists e. split; [done|]. cbn [flat]. rewrite Hp. cbn [map]. solve_Permutation.
  - intros e Hin. cbn [flat] in Hin. rewrite !elem_of_app in Hin.
    assert (Hpush : forall k l, ([], e) ∉ map (push k) l) by (intros k l (? & ? & _)%list_elem_of_fmap; discriminate).
    destruct Hin as [Hin|[Hin|[Hin|Hin]]].
    + apply list_elem_of_fmap in Hin as (e' & [= ->] & Hin). rewrite Forall_forall in Hs. auto.
    + destruct p; [by apply Hpush in Hin|by apply elem_of_nil in Hin].
    + destruct h; [by apply Hpush in Hin|by apply elem_of_nil in Hin].
    + exfalso. apply list_elem_of_In, in_concat in Hin as (l & Hl & Hin). apply in_map_iff in Hl as (kc & <- & _).
      by apply list_elem_of_In, Hpush in Hin.
Qed.

Lemma flat_empty n : empty n = true -> flat n = [].
Proof. destruct n as [[|? ?] [?|] [?|] [|? ?]]; done. Qed.

Lemma flat_prune k n : flat_opt k (prune n) = map (push k) (flat n).
Proof. unfold prune. destruct (empty n) eqn:E; [|done]. by rewrite (flat_empty n E). Qed.

(** Entries reached through a given first level. *)
Lemma elem_of_push k l e f : (f, e) ∈ map (push k) l <-> exists f', f = k :: f' /\ (f', e) ∈ l.
Proof.
  rewrite list_elem_of_fmap. split.
  - intros ([f' e'] & [= -> ->] & Hin). by exists f'.
  - intros (f' & -> & Hin). by exists (f', e).
Qed.

Lemma elem_of_flat_opt k o e f :
  (f, e) ∈ flat_opt k o <-> exists f' c, f = k :: f' /\ o = Some c /\ (f', e) ∈ flat c.
Proof.
  destruct o as [c|].
  - rewrite elem_of_push. split; [intros (f' & -> & ?); by exists f', c|intros (f' & c' & -> & [= ->] & ?); by exists f'].
  - split; [by intros ?%elem_of_nil|by intros (? & ? & _ & ? & _)].
Qed.

Lemma elem_of_flat_children cs e f :
  (f, e) ∈ flat_children cs -> exists k f' c, f = k :: f' /\ In (k, c) cs /\ (f', e) ∈ flat c.
Proof.
  intros (l & Hl & Hin)%list_elem_of_In%in_concat. apply in_map_iff in Hl as ([k c] & <- & Hkc).
  apply list_elem_of_In, elem_of_push in Hin as (f' & -> & Hin). by exists k, f', c.
Qed.

Lemma map_get_In k c cs : NoDup (map fst cs) -> In (k, c) cs -> map_get k cs = Some c.
Proof.
  induction cs as [|[k' c'] cs IH]; cbn [map fst map_get]; [done|]. intros [Hn Hd]%NoDup_cons [[= -> ->]|Hin].
  - by rewrite list_eqb_refl.
  - destruct (list_eqb_spec k' k) as [->|]; [|auto]. exfalso. apply Hn, list_elem_of_In, in_map_iff. by exists (k, c).
Qed.

(** The node below a level, however it is stored. *)
Definition below (l : list Z) (n : Node) : option Node :=
  if list_eqb l plus_level then plusChild n
  else if list_eqb l hash_level then hashChild n
  else map_get l (children n).

Lemma elem_of_below n l f e : wf n -> (l :: f, e) ∈ flat n -> exists c, below l n = Some c /\ (f, e) ∈ flat c.
Proof.
  intros Hn Hin. destruct Hn as [cs p h hs Hd Hcs _ _]. cbn [flat] in Hin. rewrite !elem_of_app in Hin.
  destruct Hin as [Hin|[Hin|[Hin|Hin]]].
  - by apply list_elem_of_fmap in Hin as (? & ? & _).
  - apply elem_of_flat_opt in Hin as (f' & c & [= -> ->] & -> & ?). by exists c.
  - apply elem_of_flat_opt in Hin as (f' & c & [= -> ->] & -> & ?). by exists c.
  - apply elem_of_flat_children in Hin as (k & f' & c & [= -> ->] & Hk & ?). exists c. split; [|done].
    rewrite Forall_forall in Hcs. destruct (Hcs _ (proj2 (list_elem_of_In _ _) Hk)) as [[H1 H2] _]. cbn [fst] in *.
    unfold below. cbn [children]. destruct (list_eqb_spec k plus_level), (list_eqb_spec k hash_level); [done..|].
    by apply map_get_In.
Qed.

Lemma remove_at_spec levels id n :
  wf n ->
  match remove_at levels id n with
  | Some n' => exists e, e_id e = id /\ flat n ≡ₚ (upto_hash levels, e) :: flat n'
  | None => forall e, (upto_hash levels, e) ∈ flat n -> e_id e <> id
  end.
Proof.
  revert n. induction levels as [|l levels IH]; intros n Hn; [apply remove_leaf_spec|].
  pose proof (fun f e => elem_of_below n l f e Hn) as Hbelow. unfold below in Hbelow.
  destruct Hn as [cs p h hs Hd Hcs Hp Hh]. cbn [remove_at upto_hash plusChild hashChild children] in *.
  destruct (list_eqb_spec l plus_level) as [->|Hnp]; [rewrite plus_not_hash|destruct (list_eqb_spec l hash_level) as [->|Hnh]].
  - destruct p as [c|]; [|intros e Hin; by apply Hbelow in Hin as (? & ? & _)].
    destruct (Hp c eq_refl) as [Hc _]. specialize (IH c Hc). destruct (remove_at levels id c) as [c'|].
    + destruct IH as (e & He & Hf). exists e. split; [done|]. cbn [flat]. rewrite flat_prune, Hf. cbn [map].
      change (push plus_level (?a, ?b)) with (plus_level :: a, b). solve_Permutation.
    + intros e Hin. apply Hbelow in Hin as (? & [= <-] & Hin). auto.
  - destruct h as [c|]; [|intros e Hin; by apply Hbelow in Hin as (? & ? & _)].
    pose proof (remove_leaf_spec id c) as Hl. destruct (remove_leaf id c) as [c'|].
    + destruct Hl as (e & He & Hf). exists e. split; [done|]. cbn [flat]. rewrite flat_prune, Hf. cbn [map].
      change (push hash_level (?a, ?b)) with (hash_level :: a, b). solve_Permutation.
    + intros e Hin. apply Hbelow in Hin as (? & [= <-] & Hin). auto.
  - destruct (map_get l cs) as [c|] eqn:E; [|intros e Hin; by apply Hbelow in Hin as (? & ? & _)].
    destruct (map_get_Forall _ _ _ _ Hcs E) as [_ [Hc _]]. specialize (IH c Hc). destruct (remove_at levels id c) as [c'|].
    + destruct IH as (e & He & Hf). exists e. split; [done|]. cbn [flat]. rewrite (map_get_flat l cs), E, Hf. cbn [map].
      change (push l (?a, ?b)) with (l :: a, b).
      assert (Hnew : flat_children (match prune c' with Some c => map_set l c cs | None => map_delete l cs end)
                     ≡ₚ map (push l) (flat c') ++ flat_children (map_delete l cs)).
      { rewrite <- flat_prune. destruct (prune c'); [by rewrite map_set_flat|done]. }
      rewrite Hnew. solve_Permutation.
    + intros e Hin. apply Hbelow in Hin as (? & [= <-] & Hin). auto.
Qed.

Lemma prune_Some n c : prune n = Some c -> c = n /\ empty n = false.
Proof. unfold prune. destruct (empty n) eqn:E; [done|]. by intros [= <-]. Qed.

Lemma wf_remove_leaf id n n' : wf n -> remove_leaf id n = Some n' -> wf n'.
Proof. intros [cs p h hs ? ? ? ?]. cbn [remove_leaf]. destruct (remove_entry id hs); [|done]. intros [= <-]. by constructor. Qed.

Lemma wf_remove levels id n n' : wf n -> remove_at levels id n = Some n' -> wf n'.
Proof.
  revert n n'. induction levels as [|l levels IH]; intros n n' Hn; [by apply wf_remove_leaf|].
  destruct Hn as [cs p h hs Hd Hcs Hp Hh]. cbn [remove_at].
  destruct (list_eqb_spec l plus_level) as [->|Hnp]; [|destruct (list_eqb_spec l hash_level) as [->|Hnh]].
  - destruct p as [c|]; [|done]. destruct (remove_at levels id c) as [c'|] eqn:E; [|done]. intros [= <-].
    destruct (Hp c eq_refl) as [Hc _]. constructor; try done. intros c2 [-> ?]%prune_Some. eauto.
  - destruct h as [c|]; [|done]. destruct (Hh c eq_refl) as (hs' & -> & _). cbn [remove_leaf].
    destruct (remove_entry id hs') as [hs2|]; [|done]. intros [= <-]. constructor; try done.
    intros c2 [-> He]%prune_Some. exists hs2. split; [done|]. by destruct hs2.
  - destruct (map_get l cs) as [c|] eqn:E; [|done]. destruct (map_get_Forall _ _ _ _ Hcs E) as [_ [Hc _]].
    destruct (remove_at levels id c) as [c'|] eqn:R; [|done]. intros [= <-]. destruct (prune c') as [c2|] eqn:P.
    + apply prune_Some in P as [-> ?]. constructor; [by apply map_set_nodup| |done..].
      apply map_set_Forall; [done|]. cbn [fst snd]. eauto.
    + constructor; [by apply map_delete_keys|by apply map_delete_Forall|done..].
Qed.

(** A well-formed tree without registrations is the bare root. *)
Lemma wf_flat_nil n : wf n -> flat n = [] -> empty n = true.
Proof.
  revert n. fix IH 2. intros n Hn. destruct Hn as [cs p h hs Hd Hcs Hp Hh]. cbn [flat]. intros Hf.
  apply app_nil in Hf as [H1 Hf]. apply app_nil in Hf as [H2 Hf]. apply app_nil in Hf as [H3 H4].
  destruct hs; [|done]. destruct p as [c|].
  { destruct (Hp c eq_refl) as [Hc He]. rewrite (IH c Hc) in He; [done|]. by destruct (flat c). }
  destruct h as [c|].
  { destruct (Hh c eq_refl) as (hs' & -> & ?). by destruct hs'. }
  destruct cs as [|[k c] cs]; [done|]. cbn [map concat fst snd] in H4. apply app_nil in H4 as [H4 _].
  inversion Hcs as [|? ? Hc _]. destruct Hc as [_ [Hc He]]. cbn [snd] in *.
  rewrite (IH c Hc) in He; [done|]. by destruct (flat c).
Qed.

(** ** Matching *)

(** The levels of [topic] from [start] on. *)
Definition levels_at (topic : list Z) (start : Z) : list (list Z) :=
  if len topic <? start then [] else splitLevels (zdrop start topic).

Lemma index_byte_spec l c :
  match index_byte l c with
  | Some i => exists a b, l = a ++ c :: b /\ i = len a /\ Forall (fun x => x <> c) a
  | None => Forall (fun x => x <> c) l
  end.
Proof.
  induction l as [|d l IH]; cbn [index_byte]; [done|]. destruct (Z.eqb_spec d c) as [->|Hne].
  - exists [], l. done.
  - destruct (index_byte l c) as [i|]; [|by constructor]. destruct IH as (a & b & -> & -> & Ha).
    exists (d :: a), b. split; [done|]. split; [by rewrite len_cons|by constructor].
Qed.

Lemma next_level_spec topic start :
  0 <= start <= len topic ->
  let (level, next) := next_level topic start in
  levels_at topic start = level :: levels_at topic next /\ start < next <= len topic + 1.
Proof.
  intros Hs. unfold next_level, levels_at at 1. rewrite (proj2 (Z.ltb_ge _ _)) by lia.
  pose proof (index_byte_spec (zdrop start topic) slash) as Hi. assert (Hl := len_zdrop start topic Hs).
  destruct (index_byte _ slash) as [rel|].
  - destruct Hi as (a & b & E & -> & Ha). rewrite E in Hl |- *. rewrite len_app, len_cons in Hl.
    pose proof (len_nonneg a). pose proof (len_nonneg b). split; [|lia].
    unfold splitLevels. rewrite split_app, ztake_app_len by done. f_equal. unfold levels_at.
    rewrite (proj2 (Z.ltb_ge _ _)) by lia. unfold splitLevels. f_equal.
    replace (start + len a + 1) with (start + (len a + 1)) by lia. rewrite <- zdrop_zdrop by lia. rewrite E.
    rewrite zdrop_app_ge by lia. replace (len a + 1 - len a) with 1 by lia. done.
  - split; [|lia]. unfold splitLevels. rewrite split_plain by done. f_equal. unfold levels_at.
    by rewrite (proj2 (Z.ltb_lt _ _)) by lia.
Qed.

(** The handlers of the entries whose levels satisfy [sel]. *)
Definition selected (sel : list (list Z) -> bool) (l : list (list (list Z) * entry)) : list Handler :=
  map (fun r => e_handler (snd r)) (List.filter (fun r => sel (fst r)) l).

Lemma selected_app sel l1 l2 : selected sel (l1 ++ l2) = selected sel l1 ++ selected sel l2.
Proof. unfold selected. by rewrite List.filter_app, map_app. Qed.

Lemma selected_push sel sel' k l :
  (forall f, sel (k :: f) = sel' f) -> selected sel (map (push k) l) = selected sel' l.
Proof.
  unfold selected. intros Hs. induction l as [|[f e] l IH]; [done|]. cbn [map List.filter fst push]. rewrite Hs.
  destruct (sel' f); cbn [map snd]; by rewrite IH.
Qed.

Lemma selected_none sel l : (forall r, In r l -> sel (fst r) = false) -> selected sel l = [].
Proof.
  unfold selected. induction l as [|r l IH]; [done|]. intros Hs. cbn [List.filter]. rewrite (Hs r) by (by left). apply IH. intros. apply Hs. by right.
Qed.

Lemma selected_all sel (l : list entry) :
  selected sel (map (pair []) l) = if sel [] then map e_handler l else [].
Proof. unfold selected. induction l as [|e l IH]; cbn [map List.filter fst]; destruct (sel []); cbn [map snd]; by rewrite ?IH. Qed.

Lemma selected_perm sel l1 l2 : l1 ≡ₚ l2 -> selected sel l1 ≡ₚ selected sel l2.
Proof.
  unfold selected. induction 1 as [|[f e] l1 l2 _ IH|[f e] [f' e'] l|l1 l2 l3 _ IH1 _ IH2]; cbn [List.filter fst]; [done| | |].
  - destruct (sel f); cbn [map snd]; by rewrite IH.
  - destruct (sel f), (sel f'); cbn [map snd]; try done. apply Permutation_swap.
  - by rewrite IH1.
Qed.

Lemma matches_nil_cons k f : k <> hash_level -> matches (k :: f) [] = false.
Proof. intros. cbn [matches]. by destruct (list_eqb_spec k hash_level). Qed.

Lemma matches_literal k f x t : k <> plus_level -> k <> hash_level -> matches (k :: f) (x :: t) = list_eqb k x && matches f t.
Proof.
  intros. cbn [matches]. destruct (list_eqb_spec k hash_level); [done|]. by destruct (list_eqb_spec k plus_level).
Qed.

(** Handlers under ["#"] match whatever remains. *)
Lemma selected_hash h sel :
  (forall c, h = Some c -> exists hs', c = mkNode [] None None hs' /\ hs' <> []) ->
  (forall f, sel (hash_level :: f) = true) ->
  selected sel (flat_opt hash_level h) = match h with Some c => map e_handler (handlers c) | None => [] end.
Proof.
  intros Hh Hs. destruct h as [c|]; [|done]. destruct (Hh c eq_refl) as (hs' & -> & _).
  rewrite (selected_push sel (fun _ => true)) by done. cbn [flat map concat app handlers]. rewrite app_nil_r.
  by rewrite selected_all.
Qed.

(** Among the children only the one named like the topic's level can match. *)
Lemma selected_children cs level sel :
  NoDup (map fst cs) -> (forall k f, In k (map fst cs) -> k <> level -> sel (k :: f) = false) ->
  selected sel (flat_children cs) ≡ₚ selected sel (flat_opt level (map_get level cs)).
Proof.
  intros Hd Hs. rewrite (selected_perm sel _ _ (map_get_flat level cs)), selected_app.
  rewrite (selected_none sel (flat_children (map_delete level cs))); [by rewrite app_nil_r|].
  intros [f e] Hin. apply list_elem_of_In, elem_of_flat_children in Hin as (k & f' & c & -> & Hin & _). cbn [fst].
  destruct (map_delete_keys level cs Hd) as [_ Hne]. rewrite Forall_forall in Hne.
  apply Hs; [|by apply (Hne (k, c)), list_elem_of_In]. apply in_map_iff. exists (k, c).
  split; [done|by apply (map_delete_subset level)].
Qed.

Lemma wf_child_keys cs :
  Forall (fun kc => (fst kc <> plus_level /\ fst kc <> hash_level) /\ wf (snd kc) /\ empty (snd kc) = false) cs ->
  forall k, In k (map fst cs) -> k <> plus_level /\ k <> hash_level.
Proof.
  intros Hcs k Hin. apply in_map_iff in Hin as (kc & <- & Hin). rewrite Forall_forall in Hcs.
  by apply Hcs, list_elem_of_In.
Qed.

Lemma map_get_key l cs c : map_get l cs = Some c -> In l (map fst cs).
Proof.
  induction cs as [|[k v] cs IH]; cbn [map_get map fst]; [done|]. destruct (list_eqb_spec k l) as [->|]; [by left|by right; auto].
Qed.

Lemma matchLevels_spec fuel n topic start :
  wf n -> 0 <= start <= len topic + 1 -> len topic + 1 - start < Z.of_nat fuel ->
  matchLevels fuel n topic start ≡ₚ selected (fun f => matches f (levels_at topic start)) (flat n).
Proof.
  revert n start. induction fuel as [|fuel IH]; intros n start Hn Hs Hf; [lia|].
  destruct Hn as [cs p h hs Hd Hcs Hp Hh]. cbn [matchLevels hashChild plusChild children handlers flat].
  pose proof (wf_child_keys cs Hcs) as Hkeys. rewrite !selected_app, selected_all.
  rewrite (selected_hash h) by done. destruct (Z.ltb_spec (len topic) start) as [Hend|Hmore].
  - assert (E : levels_at topic start = []) by (unfold levels_at; by rewrite (proj2 (Z.ltb_lt _ _))). rewrite E. cbn [matches].
    rewrite (selected_none _ (flat_opt plus_level p)).
    2:{ intros [f e] Hin. apply list_elem_of_In, elem_of_flat_opt in Hin as (f' & c & -> & _). by apply matches_nil_cons. }
    rewrite (selected_none _ (flat_children cs)); [solve_Permutation|].
    intros [f e] Hin. apply list_elem_of_In, elem_of_flat_children in Hin as (k & f' & c & -> & Hk & _).
    apply matches_nil_cons, Hkeys, in_map_iff. by exists (k, c).
  - pose proof (next_level_spec topic start ltac:(lia)) as Hnext. destruct (next_level topic start) as [level next].
    destruct Hnext as [E Hnext]. rewrite E. cbn [matches].
    assert (HP : match p with Some c => matchLevels fuel c topic next | None => [] end
                 ≡ₚ selected (fun f => matches f (level :: levels_at topic next)) (flat_opt plus_level p)).
    { destruct p as [c|]; [|done]. rewrite (selected_push _ (fun f => matches f (levels_at topic next))) by done.
      apply IH; [by apply (Hp c)|lia|lia]. }
    assert (HC : match map_get level cs with Some c => matchLevels fuel c topic next | None => [] end
                 ≡ₚ selected (fun f => matches f (level :: levels_at topic next)) (flat_children cs)).
    { rewrite (selected_children cs level); [|done|].
      2:{ intros k f Hk Hne. rewrite matches_literal by (by apply Hkeys). by destruct (list_eqb_spec k level). }
      destruct (map_get level cs) as [c|] eqn:G; [|done]. pose proof (Hkeys _ (map_get_key _ _ _ G)) as [? ?].
      rewrite (selected_push _ (fun f => matches f (levels_at topic next))).
      2:{ intros f. rewrite matches_literal by done. by rewrite list_eqb_refl. }
      apply IH; [|lia|lia]. by apply (map_get_Forall _ _ _ _ Hcs G). }
    cbn [app]. rewrite HP, HC. solve_Permutation.
Qed.

Lemma levels_at_0 topic : levels_at topic 0 = splitLevels topic.
Proof. unfold levels_at. pose proof (len_nonneg topic). by rewrite (proj2 (Z.ltb_ge _ _)) by lia. Qed.

Lemma Match_spec t topic :
  wf (root t) -> Match t topic ≡ₚ selected (fun f => topic_matches f topic) (flat (root t)).
Proof.
  intros Hn. unfold Match, topic_matches. pose proof (len_nonneg topic). destruct (has_prefix topic (str "$")).
  2:{ rewrite matchLevels_spec; [by rewrite levels_at_0|done|lia|unfold len; lia]. }
  unfold matchDollar. pose proof (next_level_spec topic 0 ltac:(lia)) as Hnext.
  assert (Hfirst : match index_byte topic slash with Some i => (ztake i topic, i + 1) | None => (topic, len topic + 1) end
                   = next_level topic 0).
  { unfold next_level. rewrite zdrop_0. by destruct (index_byte topic slash). }
  rewrite Hfirst. destruct (next_level topic 0) as [level next]. destruct Hnext as [E Hnext]. rewrite levels_at_0 in E. rewrite E.
  destruct Hn as [cs p h hs Hd Hcs Hp Hh]. cbn [children root flat]. pose proof (wf_child_keys cs Hcs) as Hkeys.
  set (sel := fun f => negb (true && wildcard_first f) && matches f (level :: levels_at topic next)).
  assert (Hwild : forall k o, k = plus_level \/ k = hash_level -> selected sel (flat_opt k o) = []).
  { intros k o Hk. apply selected_none. intros [f e] Hin. apply list_elem_of_In, elem_of_flat_opt in Hin as (f' & c & -> & _).
    by destruct Hk as [-> | ->]. }
  assert (Hlit : forall k f, In k (map fst cs) -> sel (k :: f) = list_eqb k level && matches f (levels_at topic next)).
  { intros k f Hk. apply Hkeys in Hk as [? ?]. subst sel. cbn beta. rewrite matches_literal by done. cbn [wildcard_first].
    by destruct (list_eqb_spec k plus_level), (list_eqb_spec k hash_level). }
  rewrite !selected_app, selected_all, !Hwild by auto. change (sel []) with false. cbn [app].
  rewrite (selected_children cs level); [|done|intros k f Hk Hne; rewrite Hlit by done; by destruct (list_eqb_spec k level)].
  destruct (map_get level cs) as [c|] eqn:G; [|done].
  rewrite (selected_push sel (fun f => matches f (levels_at topic next))).
  2:{ intros f. rewrite Hlit by (by eapply map_get_key). by rewrite list_eqb_refl. }
  apply matchLevels_spec; [by apply (map_get_Forall _ _ _ _ Hcs G)|lia|unfold len in *; lia].
Qed.

(** ** The list of registrations *)

Record Registration : Type := mkReg { r_filter : list Z; r_id : Z; r_handler : Handler }.

(** The levels a registration is stored under. *)
Definition address (filter : list Z) : list (list Z) := upto_hash (splitLevels filter).

Definition located (r : Registration) : list (list Z) * entry := (address (r_filter r), mkEntry (r_id r) (r_handler r)).

(** Calls of the tree's operations and what they return. *)
Inductive call : Type :=
| CRegister (filter : list Z) (h : Handler)
| CUnregister (filter : list Z) (id : Z)
| CReset.

Inductive answer : Type := AId (id : Z) | AFound (b : bool) | ADone.

Definition exec (t : Tree) (c : call) : Tree * answer :=
  match c with
  | CRegister f h => let (t, id) := Register t f h in (t, AId id)
  | CUnregister f id => let (t, b) := Unregister t f id in (t, AFound b)
  | CReset => (Reset t, ADone)
  end.

Fixpoint run (t : Tree) (cs : list call) : Tree * list answer :=
  match cs with
  | [] => (t, [])
  | c :: cs => let (t, a) := exec t c in let (t, l) := run t cs in (t, a :: l)
  end.

(** The specification: a list of live registrations and the last identifier. *)
Definition is_at (filter : list Z) (id : Z) (r : Registration) : bool :=
  (r_id r =? id) && bool_decide (address (r_filter r) = address filter).

Definition spec_exec (s : list Registration * Z) (c : call) : (list Registration * Z) * answer :=
  let (regs, last) := s in
  match c with
  | CRegister f h => ((mkReg f (last + 1) h :: regs, last + 1), AId (last + 1))
  | CUnregister f id => ((List.filter (fun r => negb (is_at f id r)) regs, last), AFound (existsb (is_at f id) regs))
  | CReset => (([], last), ADone)
  end.

Fixpoint spec_run (s : list Registration * Z) (cs : list call) : (list Registration * Z) * list answer :=
  match cs with
  | [] => (s, [])
  | c :: cs => let (s, a) := spec_exec s c in let (s, l) := spec_run s cs in (s, a :: l)
  end.

(** The tree holds exactly the live registrations. *)
Definition holds (t : Tree) (s : list Registration * Z) : Prop :=
  wf (root t) /\ flat (root t) ≡ₚ map located (fst s) /\ nextID t = snd s /\ 0 <= snd s
  /\ NoDup (map r_id (fst s)) /\ Forall (fun r => r_id r <= snd s) (fst s).

Lemma is_at_true f id r : is_at f id r = true <-> r_id r = id /\ address (r_filter r) = address f.
Proof. unfold is_at. rewrite andb_true_iff, Z.eqb_eq, bool_decide_eq_true. done. Qed.

Lemma filter_none f id regs :
  existsb (is_at f id) regs = false -> List.filter (fun r => negb (is_at f id r)) regs = regs.
Proof.
  induction regs as [|r regs IH]; [done|]. cbn [existsb List.filter]. intros [H1 H2]%orb_false_iff. rewrite H1. cbn [negb].
  by rewrite IH.
Qed.

Lemma filter_one f id regs r :
  NoDup (map r_id regs) -> In r regs -> is_at f id r = true ->
  regs ≡ₚ r :: List.filter (fun r => negb (is_at f id r)) regs.
Proof.
  induction regs as [|r' regs IH]; cbn [map In List.filter]; [done|]. intros [Hn Hd]%NoDup_cons [->|Hin] Hat.
  - rewrite Hat. cbn [negb]. rewrite filter_none; [done|]. apply not_true_iff_false. intros (r2 & Hin & H2)%existsb_exists.
    apply is_at_true in H2 as [H2 _]. apply is_at_true in Hat as [H1 _]. apply Hn. rewrite H1, <- H2.
    apply list_elem_of_In, in_map. done.
  - destruct (is_at f id r') eqn:E; cbn [negb].
    + exfalso. apply is_at_true in E as [E _]. apply is_at_true in Hat as [H1 _]. apply Hn. rewrite E, <- H1.
      apply list_elem_of_In, in_map. done.
    + rewrite (IH Hd Hin Hat) at 1. apply Permutation_swap.
Qed.

Lemma holds_unregister t s f id :
  holds t s ->
  let (t', b) := Unregister t f id in
  holds t' (List.filter (fun r => negb (is_at f id r)) (fst s), snd s) /\ b = existsb (is_at f id) (fst s).
Proof.
  destruct s as [regs last]. intros (Hw & Hf & Hid & H0 & Hd & Hle). cbn [fst snd] in *. unfold Unregister.
  pose proof (remove_at_spec (splitLevels f) id (root t) Hw) as Hr. pose proof (wf_remove (splitLevels f) id (root t)) as Hw'.
  fold (address f) in Hr. destruct (remove_at (splitLevels f) id (root t)) as [n'|].
  - destruct Hr as (e & He & Hp). assert (Hin : (address f, e) ∈ map located regs).
    { rewrite <- Hf, Hp. by left. }
    apply list_elem_of_fmap in Hin as (r & [= Ha Hre] & Hin). apply list_elem_of_In in Hin.
    assert (Hat : is_at f id r = true) by (apply is_at_true; split; [by rewrite <- He, Hre|done]).
    pose proof (filter_one f id regs r Hd Hin Hat) as Hone. split.
    2:{ symmetry. apply existsb_exists. by exists r. }
    set (rest := List.filter (fun r => negb (is_at f id r)) regs) in *.
    assert (Hd' : NoDup (map r_id (r :: rest))) by (by rewrite <- Hone). apply NoDup_cons in Hd' as [_ Hd'].
    assert (Hle' : Forall (fun r => r_id r <= last) (r :: rest)) by (by rewrite <- Hone). apply Forall_cons in Hle' as [_ Hle'].
    split; [by apply Hw'|]. split; [|done]. cbn [root fst]. apply (Permutation_cons_inv (a := (address f, e))).
    rewrite <- Hp, Hf, Hone. cbn [map]. unfold located at 1. by rewrite <- Ha, <- Hre.
  - assert (E : existsb (is_at f id) regs = false).
    { apply not_true_iff_false. intros (r & Hin & [H1 H2]%is_at_true)%existsb_exists.
      apply (Hr (mkEntry (r_id r) (r_handler r))); [|done]. rewrite Hf, <- H2. apply list_elem_of_In.
      by apply (in_map located regs r). }
    rewrite filter_none by done. split; [|done]. by repeat split.
Qed.

Lemma holds_exec t s c :
  holds t s -> snd s + 1 < 2 ^ 64 ->
  let (t', a) := exec t c in let (s', a') := spec_exec s c in
  holds t' s' /\ a = a' /\ snd s' <= snd s + 1.
Proof.
  destruct s as [regs last]. intros Hh Hlast. destruct c as [f h|f id|]; cbn [exec spec_exec].
  - destruct Hh as (Hw & Hf & Hid & H0 & Hd & Hle). cbn [fst snd Register root nextID] in *. unfold Register. rewrite Hid.
    assert (E : u64 (last + 1) = last + 1) by (unfold u64; rewrite Z.mod_small; lia). rewrite E.
    split; [|split; [done|lia]]. split; [by apply wf_ensure|]. cbn [root nextID fst snd map]. split; [|split; [done|split; [lia|split]]].
    + by rewrite flat_ensure, Hf.
    + cbn [r_id]. apply NoDup_cons. split; [|done]. intros (r & E1 & Hin)%list_elem_of_fmap. rewrite Forall_forall in Hle.
      apply Hle in Hin. lia.
    + constructor; [cbn [r_id]; lia|]. eapply Forall_impl; [exact Hle|]. cbn beta. lia.
  - pose proof (holds_unregister t (regs, last) f id Hh) as Hu. destruct (Unregister t f id) as [t' b]. cbn [fst snd] in *.
    destruct Hu as [Hu ->]. split; [done|]. split; [done|lia].
  - destruct Hh as (_ & _ & Hid & H0 & _). cbn [fst snd] in *. split; [|split; [done|lia]].
    split; [apply wf_new|]. cbn [root fst snd Reset map]. do 3 (split; [done|]). split; constructor.
Qed.

Lemma holds_run cs : forall t s,
  holds t s -> snd s + len cs < 2 ^ 64 ->
  holds (fst (run t cs)) (fst (spec_run s cs)) /\ snd (run t cs) = snd (spec_run s cs).
Proof.
  induction cs as [|c cs IH]; intros t s Hh Hl; [done|]. rewrite len_cons in Hl. pose proof (len_nonneg cs).
  cbn [run spec_run]. pose proof (holds_exec t s c Hh ltac:(lia)) as He.
  destruct (exec t c) as [t' a], (spec_exec s c) as [s' a']. destruct He as (Hh' & -> & Hs).
  specialize (IH t' s' Hh' ltac:(lia)). destruct (run t' cs), (spec_run s' cs). cbn [fst snd] in *.
  destruct IH as [? ->]. done.
Qed.

Lemma holds_new : holds NewTree ([], 0).
Proof. split; [apply wf_new|]. cbn [NewTree root nextID fst snd map]. repeat split; [done|lia|constructor|constructor]. Qed.

(** ** Theorems *)

(** C36: the trie refines the list of registrations. After any sequence of
    Register, Unregister and Reset calls on a new tree the calls have
    returned what a plain list of live registrations returns (fresh
    identifiers, and for Unregister whether that registration was live), and
    [Match] yields, for any topic, exactly the handlers of the live
    registrations whose filter matches it by the rules of section 4.7,
    wildcards at the front not matching ['$'] topics, each as often as it is
    registered. *)
Theorem trie_refines_registrations cs :
  len cs < 2 ^ 64 ->
  let t := fst (run NewTree cs) in
  let regs := fst (fst (spec_run ([], 0) cs)) in
  snd (run NewTree cs) = snd (spec_run ([], 0) cs)
  /\ forall topic, Match t topic ≡ₚ
       map r_handler (List.filter (fun r => topic_matches (address (r_filter r)) topic) regs).
Proof.
  intros Hl. destruct (holds_run cs NewTree ([], 0) holds_new ltac:(cbn; lia)) as [Hh Ha]. split; [done|]. intros topic.
  destruct Hh as (Hw & Hf & _). rewrite Match_spec by done. rewrite (selected_perm _ _ _ Hf).
  generalize (fst (fst (spec_run ([], 0) cs))). intros regs. unfold selected. induction regs as [|r regs IH]; [done|].
  cbn [map List.filter located fst]. destruct (topic_matches _ topic); cbn [map snd]; [by rewrite IH|done].
Qed.

(** The trie is pruned. Whatever was registered and unregistered before,
    a tree with no live registration is a single bare root, and every node
    below the root of any reachable tree leads to a live registration. *)
Theorem trie_pruned cs :
  len cs < 2 ^ 64 ->
  let t := fst (run NewTree cs) in
  wf (root t) /\ (fst (fst (spec_run ([], 0) cs)) = [] -> root t = newNode /\ Nodes t = 1).
Proof.
  intros Hl. destruct (holds_run cs NewTree ([], 0) holds_new ltac:(cbn; lia)) as [(Hw & Hf & _) _]. split; [done|].
  intros E. rewrite E in Hf. cbn [map] in Hf. apply Permutation_nil_r in Hf. apply wf_flat_nil in Hf; [|done].
  unfold Nodes. destruct (root _) as [[|? ?] [?|] [?|] [|? ?]]; done.
Qed.
End trie.

(** ** Witnesses *)

(** Three registrations, one of them withdrawn. *)
Definition sample_calls : list (@call Z) :=
  [CRegister (str "a/+") 10; CRegister (str "a/#") 20; CRegister (str "#") 30; CUnregister (str "#") 3].

Lemma trie_refines_registrations_witness :
  snd (run NewTree sample_calls) = [AId 1; AId 2; AId 3; AFound true]
  /\ Match (fst (run NewTree sample_calls)) (str "a/b") ≡ₚ [20; 10].
Proof.
  destruct (trie_refines_registrations sample_calls ltac:(vm_compute; reflexivity)) as [H1 H2].
  split; [exact H1|exact (H2 (str "a/b"))].
Defined.

Lemma trie_pruned_witness :
  root (fst (run NewTree [CRegister (str "a/+/b") 10; CUnregister (str "a/+/b") 1])) = newNode.
Proof.
  apply (trie_pruned [CRegister (str "a/+/b") 10; CUnregister (str "a/+/b") 1]); [vm_compute; reflexivity|reflexivity].
Defined.
