(* ===== verification/Session.v ===== *)
(** * Session: the session store (session/store.go)

    Records of QoS 1/2 flows, their validation, the [Store] contract as an
    interface with laws, and [MemoryStore], which is proved to implement it.
    Byte slices are values: [Put] and [Load] copy them at the boundary. *)

From stdpp Require Import gmap sorting.
From S2P Require Import Prelude GoLib Errors.

(** ** Data *)

Definition Outbound : Z := 1.
Definition Inbound : Z := 2.

Definition AwaitPuback : Z := 1.
Definition AwaitPubrec : Z := 2.
Definition AwaitPubcomp : Z := 3.
Definition AwaitPubrel : Z := 4.
Definition Completed : Z := 5.

(** [Phase.Valid] *)
Definition Phase_Valid (p d : Z) : bool :=
  if d =? Outbound then (p =? AwaitPuback) || (p =? AwaitPubrec) || (p =? AwaitPubcomp) || (p =? Completed)
  else if d =? Inbound then p =? AwaitPubrel
  else false.

Record RecordKey : Type := mkKey { Dir : Z; PacketID : Z }.

#[export] Instance RecordKey_eq_dec : EqDecision RecordKey.
Proof. solve_decision. Defined.
#[export] Instance RecordKey_countable : Countable RecordKey.
Proof.
  refine (inj_countable' (fun k => (Dir k, PacketID k)) (fun p => mkKey p.1 p.2) _). by intros [].
Defined.

(** [Record]; [ExpiresAt] in nanoseconds, [None] for the zero time. *)
Record SRecord : Type := mkRecord {
  Key : RecordKey;
  Seq : Z;
  PubrecSeq : Z;
  Outcome : Z;
  QoS : Z;
  Phase : Z;
  PacketBytes : list Z;
  ExpiresAt : option Z;
  Ref : list Z;
}.

Definition MaxRefLen : Z := 255.

(** What a store can answer with; [ErrIO] stands for the errors of the
    medium of a store that is not in memory. *)
Inductive store_error : Type := ErrInvalidRecord | ErrClosed | ErrIO.

(** [Record.Validate] *)
Definition Validate (r : SRecord) : option store_error :=
  if negb (Phase_Valid (Phase r) (Dir (Key r))) then Some ErrInvalidRecord
  else if MaxRefLen <? len (Ref r) then Some ErrInvalidRecord
  else None.

Record Meta : Type := mkMeta { ClientID : list Z; SessionExpiry : Z }.
Definition zeroMeta : Meta := mkMeta [] 0.

(** ** The order of [Load] *)

(** The comparison given to [slices.SortFunc]: outbound first, by Seq, then
    inbound, by packet identifier; [cmp_record a b] is its value being at
    most zero. *)
Definition cmp_record (a b : SRecord) : bool :=
  if Dir (Key a) =? Dir (Key b) then
    if Dir (Key a) =? Outbound then Seq a <=? Seq b else PacketID (Key a) <=? PacketID (Key b)
  else Dir (Key a) <? Dir (Key b).

Definition record_le (a b : SRecord) : Prop := cmp_record a b = true.

#[export] Instance record_le_dec : RelDecision record_le.
Proof. intros a b. unfold record_le. apply _. Defined.

#[export] Instance record_le_total : Total record_le.
Proof.
  intros a b. unfold record_le, cmp_record. repeat case_match;
    repeat match goal with
    | H : (_ =? _) = true |- _ => apply Z.eqb_eq in H
    | H : (_ =? _) = false |- _ => apply Z.eqb_neq in H
    end; rewrite ?Z.leb_le, ?Z.ltb_lt; lia || congruence || (by left) || idtac.
Qed.

#[export] Instance record_le_trans : Transitive record_le.
Proof.
  intros a b c. unfold record_le, cmp_record. repeat case_match;
    repeat match goal with
    | H : (_ =? _) = true |- _ => apply Z.eqb_eq in H
    | H : (_ =? _) = false |- _ => apply Z.eqb_neq in H
    end; rewrite ?Z.leb_le, ?Z.ltb_lt; lia || congruence.
Qed.

(** ** MemoryStore *)

Record MemoryStore : Type := mkStore { closed : bool; meta : Meta; records : gmap RecordKey SRecord }.

Definition NewMemoryStore : MemoryStore := mkStore false zeroMeta ∅.

(** The range over the map yields the records in some order, which the sort
    then fixes up to equal elements. *)
Definition mem_Load (s : MemoryStore) : res store_error (Meta * list SRecord) :=
  if closed s then Err ErrClosed
  else
    let out := map snd (map_to_list (records s)) in
    Ok (meta s, merge_sort record_le out).

Definition mem_Put (s : MemoryStore) (r : SRecord) : MemoryStore * option store_error :=
  match Validate r with
  | Some err => (s, Some err)
  | None =>
      if closed s then (s, Some ErrClosed)
      else (mkStore (closed s) (meta s) (<[Key r := r]> (records s)), None)
  end.

Definition mem_Delete (s : MemoryStore) (k : RecordKey) : MemoryStore * option store_error :=
  if closed s then (s, Some ErrClosed) else (mkStore (closed s) (meta s) (delete k (records s)), None).

Definition mem_SetMeta (s : MemoryStore) (m : Meta) : MemoryStore * option store_error :=
  if closed s then (s, Some ErrClosed) else (mkStore (closed s) m (records s), None).

Definition mem_Reset (s : MemoryStore) : MemoryStore * option store_error :=
  if closed s then (s, Some ErrClosed) else (mkStore (closed s) zeroMeta ∅, None).

Definition mem_Close (s : MemoryStore) : MemoryStore * option store_error :=
  (mkStore true (meta s) (records s), None).

(** ** The contract *)

(** The calls of the client, in the order it makes them. *)
Inductive store_call : Type :=
| SPut (r : SRecord)
| SDelete (k : RecordKey)
| SSetMeta (m : Meta)
| SReset
| SClose.

(** What a store holds: nothing usable once it is closed. *)
Abbreviation contents := (option (Meta * gmap RecordKey SRecord)).

(** One call, as the contract describes it. *)
Definition contract (a : contents) (c : store_call) : contents * option store_error :=
  match c, a with
  | SPut r, _ =>
      match Validate r, a with
      | Some err, _ => (a, Some err)
      | None, None => (None, Some ErrClosed)
      | None, Some (m, rs) => (Some (m, <[Key r := r]> rs), None)
      end
  | SClose, _ => (None, None)
  | _, None => (None, Some ErrClosed)
  | SDelete k, Some (m, rs) => (Some (m, delete k rs), None)
  | SSetMeta m, Some (_, rs) => (Some (m, rs), None)
  | SReset, Some _ => (Some (zeroMeta, ∅), None)
  end.

(** [out] is what [Load] may return for the records [rs]. *)
Definition loads (rs : gmap RecordKey SRecord) (out : list SRecord) : Prop :=
  out ≡ₚ map snd (map_to_list rs) /\ StronglySorted record_le out.

(** [Store], with the laws an implementation promises: a call it [accepts]
    takes effect and is answered as the contract says, or the medium fails it
    and it changes nothing. *)
Class Store (St : Type) : Type := {
  Load : St -> res store_error (Meta * list SRecord);
  perform : St -> store_call -> St * option store_error;
  accepts : store_call -> Prop;
  holds : St -> contents -> Prop;
  Load_law s a :
    holds s a ->
    match a with
    | None => Load s = Err ErrClosed
    | Some (m, rs) => exists out, Load s = Ok (m, out) /\ loads rs out
    end;
  perform_law s c a :
    accepts c -> holds s a ->
    (holds (fst (perform s c)) (fst (contract a c)) /\ snd (perform s c) = snd (contract a c))
    \/ (holds (fst (perform s c)) a /\ snd (perform s c) = Some ErrIO /\ a <> None /\ c <> SClose);
}.

(** [MemoryStore] implements [Store]. *)
Definition mem_perform (s : MemoryStore) (c : store_call) : MemoryStore * option store_error :=
  match c with
  | SPut r => mem_Put s r
  | SDelete k => mem_Delete s k
  | SSetMeta m => mem_SetMeta s m
  | SReset => mem_Reset s
  | SClose => mem_Close s
  end.

Definition mem_holding (s : MemoryStore) : contents := if closed s then None else Some (meta s, records s).

#[export, program] Instance MemoryStore_Store : Store MemoryStore := {|
  Load := mem_Load;
  perform := mem_perform;
  accepts _ := True;
  holds s a := mem_holding s = a;
|}.
Next Obligation.
  intros s a <-. unfold mem_holding, mem_Load. destruct (closed s); [done|]. eexists. split; [done|].
  split; [apply merge_sort_Permutation|]. apply StronglySorted_merge_sort; apply _.
Qed.
Next Obligation.
  intros s c a _ <-. left. unfold mem_holding. destruct s as [cl m rs]. destruct c as [r|k|m'| |]; cbn;
    unfold mem_Put, mem_Delete, mem_SetMeta, mem_Reset, mem_Close; cbn; [destruct (Validate r)|..]; by destruct cl.
Qed.

(** ** Clients of the contract *)

#[export] Instance store_error_eq_dec : EqDecision store_error.
Proof. solve_decision. Defined.

Section client.
Context {St : Type} `{Store St}.

Fixpoint perform_all (s : St) (cs : list store_call) : St :=
  match cs with [] => s | c :: cs => perform_all (fst (perform s c)) cs end.

(** The calls the medium did not fail. *)
Fixpoint performed (s : St) (cs : list store_call) : list store_call :=
  match cs with
  | [] => []
  | c :: cs =>
      let rest := performed (fst (perform s c)) cs in
      if decide (snd (perform s c) = Some ErrIO) then rest else c :: rest
  end.

Fixpoint contract_all (a : contents) (cs : list store_call) : contents :=
  match cs with [] => a | c :: cs => contract_all (fst (contract a c)) cs end.

Lemma Validate_no_io r : Validate r <> Some ErrIO.
Proof. unfold Validate. by repeat case_match. Qed.

Lemma contract_no_io a c : snd (contract a c) <> Some ErrIO.
Proof. destruct c as [r|k|m| |], a as [[m' rs]|]; cbn; try done; pose proof (Validate_no_io r); destruct (Validate r); cbn; congruence. Qed.

Lemma perform_all_law cs : forall s a, Forall accepts cs -> holds s a -> holds (perform_all s cs) (contract_all a (performed s cs)).
Proof.
  induction cs as [|c cs IH]; intros s a Hc Hs; [done|]. apply Forall_cons in Hc as [Hc Hcs]. cbn [perform_all performed].
  destruct (perform_law s c a Hc Hs) as [[H1 H2]|(H1 & H2 & _)]; rewrite H2.
  - rewrite decide_False by apply contract_no_io. by apply IH.
  - rewrite decide_True by done. by apply IH.
Qed.
End client.

(** The record a sequence of calls leaves under a key: the last valid Put,
    unless a Delete or Reset came after it. *)
Fixpoint last_write (k : RecordKey) (old : option SRecord) (cs : list store_call) : option SRecord :=
  match cs with
  | [] => old
  | SPut r :: cs => last_write k (if bool_decide (Validate r = None /\ Key r = k) then Some r else old) cs
  | SDelete k' :: cs => last_write k (if bool_decide (k' = k) then None else old) cs
  | SReset :: cs => last_write k None cs
  | _ :: cs => last_write k old cs
  end.


(** A session in progress: the store is not closed. *)
Definition no_close (cs : list store_call) : Prop := Forall (fun c => c <> SClose) cs.

Lemma contract_last_write cs m rs :
  no_close cs -> exists m' rs', contract_all (Some (m, rs)) cs = Some (m', rs')
                 /\ forall k, rs' !! k = last_write k (rs !! k) cs.
Proof.
  revert m rs. induction cs as [|c cs IH]; intros m rs Hn; [by exists m, rs|]. apply Forall_cons in Hn as [Hc Hn].
  destruct c as [r|k0|m0| |]; cbn [contract_all contract last_write]; [|..|done].
  - destruct (Validate r) as [err|] eqn:V; cbn [fst].
    + destruct (IH m rs Hn) as (m' & rs' & E & Hl). exists m', rs'. split; [done|]. intros k. rewrite Hl.
      by rewrite bool_decide_eq_false_2 by (by intros [? _]).
    + destruct (IH m (<[Key r := r]> rs) Hn) as (m' & rs' & E & Hl). exists m', rs'. split; [done|]. intros k. rewrite Hl.
      f_equal. destruct (decide (Key r = k)) as [<-|Hne].
      * by rewrite lookup_insert_eq, bool_decide_eq_true_2.
      * rewrite lookup_insert_ne by done. by rewrite bool_decide_eq_false_2 by (by intros [_ ?]).
  - destruct (IH m (delete k0 rs) Hn) as (m' & rs' & E & Hl). exists m', rs'. split; [done|]. intros k. rewrite Hl.
    f_equal. destruct (decide (k0 = k)) as [<-|Hne].
    + by rewrite lookup_delete_eq, bool_decide_eq_true_2.
    + by rewrite lookup_delete_ne, bool_decide_eq_false_2.
  - destruct (IH m0 rs Hn) as (m' & rs' & E & Hl). by exists m', rs'.
  - destruct (IH zeroMeta ∅ Hn) as (m' & rs' & E & Hl). exists m', rs'. split; [done|]. intros k. by rewrite Hl.
Qed.

Lemma last_write_valid k cs old r :
  (forall r, old = Some r -> Validate r = None /\ Key r = k) -> last_write k old cs = Some r -> Validate r = None /\ Key r = k.
Proof.
  revert old. induction cs as [|c cs IH]; intros old Ho; cbn [last_write]; [auto|].
  destruct c as [r'|k'|m'| |]; apply IH; try done.
  - intros r2. case_bool_decide as E; [intros [= <-]; done|auto].
  - intros r2. case_bool_decide; [done|auto].
Qed.

(** The records under their keys, as a list. *)
Lemma values_keys (rs : gmap RecordKey SRecord) :
  (forall k r, rs !! k = Some r -> Key r = k) ->
  NoDup (map Key (map snd (map_to_list rs))) /\ (forall r, r ∈ map snd (map_to_list rs) <-> rs !! Key r = Some r).
Proof.
  intros Hk. split.
  - assert (E : map Key (map snd (map_to_list rs)) = map fst (map_to_list rs)).
    { rewrite map_map. apply map_ext_in. intros [k r] Hin. cbn. apply Hk.
      by apply elem_of_map_to_list, list_elem_of_In. }
    rewrite E. apply NoDup_fst_map_to_list.
  - intros r. rewrite list_elem_of_fmap. split.
    + intros ([k r'] & -> & Hin%elem_of_map_to_list). cbn in *. by rewrite (Hk _ _ Hin).
    + intros Hin. exists (Key r, r). split; [done|by apply elem_of_map_to_list].
Qed.

(** The order is a tie only between records of one direction with one
    sequence number or identifier. *)
Definition distinct_seq (rs : gmap RecordKey SRecord) : Prop :=
  forall a b, rs !! Key a = Some a -> rs !! Key b = Some b ->
    Dir (Key a) = Outbound -> Dir (Key b) = Outbound -> Seq a = Seq b -> a = b.

Lemma record_le_antisym rs a b :
  distinct_seq rs -> rs !! Key a = Some a -> rs !! Key b = Some b -> record_le a b -> record_le b a -> a = b.
Proof.
  unfold record_le, cmp_record. intros Hd Ha Hb. destruct (Z.eqb_spec (Dir (Key a)) (Dir (Key b))) as [E|E].
  - rewrite (proj2 (Z.eqb_eq (Dir (Key b)) _)) by done. rewrite <- E. destruct (Z.eqb_spec (Dir (Key a)) Outbound) as [O|O].
    + intros H1%Z.leb_le H2%Z.leb_le. apply Hd; [done|done|done|congruence|lia].
    + intros H1%Z.leb_le H2%Z.leb_le. assert (K : Key a = Key b) by (destruct (Key a), (Key b); cbn in *; f_equal; lia).
      congruence.
  - rewrite (proj2 (Z.eqb_neq (Dir (Key b)) _)) by congruence. intros H1%Z.ltb_lt H2%Z.ltb_lt. lia.
Qed.

Lemma sorted_unique (P : SRecord -> Prop) l1 l2 :
  (forall a b, P a -> P b -> record_le a b -> record_le b a -> a = b) -> Forall P l1 ->
  StronglySorted record_le l1 -> StronglySorted record_le l2 -> l1 ≡ₚ l2 -> l1 = l2.
Proof.
  intros Hanti. revert l2. induction l1 as [|x l1 IH]; intros l2 HP H1 H2 Hp.
  { by apply Permutation_nil_l in Hp. }
  destruct l2 as [|y l2]; [by apply Permutation_nil_r in Hp|].
  apply Forall_cons in HP as [Px HP]. apply StronglySorted_inv in H1 as [H1 Hx]. apply StronglySorted_inv in H2 as [H2 Hy].
  rewrite Forall_forall in Hx, Hy, HP.
  assert (Hrefl : forall z, record_le z z) by (intros z; by destruct (record_le_total z z)).
  assert (x = y) as ->.
  { assert (Iy : y ∈ x :: l1) by (rewrite Hp; by left). assert (Ix : x ∈ y :: l2) by (rewrite <- Hp; by left).
    apply elem_of_cons in Iy as [|Iy]; [done|]. apply elem_of_cons in Ix as [|Ix]; [done|]. auto. }
  f_equal. apply IH; [by apply Forall_forall|done|done|]. by apply Permutation_cons_inv in Hp.
Qed.

(** ** What any implementation promises *)

Section session_laws.
Context {St : Type} `{Store St}.

Lemma performed_no_close cs : forall s, no_close cs -> no_close (performed s cs).
Proof.
  induction cs as [|c cs IH]; intros s Hn; [done|]. apply Forall_cons in Hn as [Hc Hn]. cbn [performed].
  destruct (decide _); [by apply IH|]. constructor; [done|by apply IH].
Qed.

Lemma store_recovers s cs :
  holds s (Some (zeroMeta, ∅)) -> Forall accepts cs -> no_close cs ->
  exists m out, Load (perform_all s cs) = Ok (m, out)
    /\ (forall r, r ∈ out <-> last_write (Key r) None (performed s cs) = Some r)
    /\ NoDup (map Key out) /\ Forall (fun r => Validate r = None) out /\ StronglySorted record_le out.
Proof.
  intros Hs Hc Hn. destruct (contract_last_write (performed s cs) zeroMeta ∅ (performed_no_close cs s Hn)) as (m & rs & E & Hl).
  pose proof (Load_law _ _ (perform_all_law cs s _ Hc Hs)) as Hload. rewrite E in Hload.
  destruct Hload as (out & Hout & Hperm & Hsorted). exists m, out. split; [done|].
  assert (Hval : forall k r, rs !! k = Some r -> Validate r = None /\ Key r = k).
  { intros k r Hk. rewrite Hl, lookup_empty in Hk. by apply (last_write_valid k (performed s cs) None r). }
  destruct (values_keys rs) as [Hnd Hin]; [intros k r Hk; by apply (Hval k r)|].
  assert (Hiff : forall r, r ∈ out <-> last_write (Key r) None (performed s cs) = Some r)
    by (intros r; by rewrite Hperm, Hin, Hl, lookup_empty).
  split; [done|]. split; [by rewrite Hperm|]. split; [|done].
  apply Forall_forall. intros r Hr. apply Hiff in Hr. by apply (last_write_valid (Key r) (performed s cs) None r).
Qed.

Lemma store_closed s a cs c :
  Forall accepts (SClose :: c :: cs) -> holds s a ->
  let s' := perform_all (fst (perform s SClose)) cs in
  Load s' = Err ErrClosed
  /\ snd (perform s' c) = match c with
                          | SClose => None
                          | SPut r => Some (default ErrClosed (Validate r))
                          | _ => Some ErrClosed
                          end.
Proof.
  intros Hacc Ha. inversion_clear Hacc as [|? ? Hcl Hacc2]. inversion_clear Hacc2 as [|? ? Hc Hcs].
  assert (Hclosed : forall l, contract_all None l = None).
  { induction l as [|c' l IH]; [done|]. cbn [contract_all]. destruct c' as [r|?|?| |]; cbn; try done. by destruct (Validate r). }
  cbn zeta. assert (Hh : holds (perform_all (fst (perform s SClose)) cs) None).
  { destruct (perform_law s SClose a Hcl Ha) as [[H1 _]|(_ & _ & _ & Hn)]; [|done]. cbn in H1. rewrite <- (Hclosed (performed (fst (perform s SClose)) cs)).
    by apply perform_all_law. }
  split; [apply (Load_law _ _ Hh)|].
  destruct (perform_law _ c None Hc Hh) as [[_ ->]|(_ & _ & Hn & _)]; [|done]. destruct c as [r|?|?| |]; cbn; try done. by destruct (Validate r).
Qed.
End session_laws.

(** No medium fails a call to [MemoryStore]. *)
Lemma mem_performed cs : forall s, performed s cs = cs.
Proof.
  induction cs as [|c cs IH]; intros s; [done|]. cbn [performed]. rewrite IH, decide_False; [done|].
  destruct s as [cl m rs], c as [r|k|m'| |]; cbn; unfold mem_Put, mem_Delete, mem_SetMeta, mem_Reset, mem_Close; cbn; try by destruct cl.
  pose proof (Validate_no_io r). destruct (Validate r); cbn; [congruence|]. by destruct cl.
Qed.

(** Keys are kept: a record is stored under its own key. *)
Definition keyed (s : MemoryStore) : Prop := forall k r, records s !! k = Some r -> Key r = k.

Lemma keyed_perform s c : keyed s -> keyed (fst (mem_perform s c)).
Proof.
  intros Hk. destruct c as [r|k|m| |]; cbn [mem_perform];
    unfold mem_Put, mem_Delete, mem_SetMeta, mem_Reset, mem_Close; repeat case_match; try done; cbn [fst].
  - intros k r'. cbn [records]. rewrite lookup_insert_Some. intros [[<- <-]|[_ ?]]; [done|by apply Hk].
  - intros k' r'. cbn [records]. rewrite lookup_delete_Some. intros [_ ?]. by apply Hk.
Qed.

Lemma keyed_all cs s : keyed s -> keyed (perform_all s cs).
Proof. revert s. induction cs as [|c cs IH]; intros s Hk; [done|]. apply IH. by apply (keyed_perform s c). Qed.

(** ** Theorems *)

(** A session is recovered. After any sequence of Put, Delete, SetMeta
    and Reset calls on a new [MemoryStore], [Load] returns exactly the
    records whose last valid Put was not followed by a Delete or Reset, each
    once, all of them valid, outbound ones first in the order of their
    sequence numbers. The proof uses the store contract only. *)
Theorem session_recovered cs :
  no_close cs ->
  exists m out, mem_Load (perform_all NewMemoryStore cs) = Ok (m, out)
    /\ (forall r, r ∈ out <-> last_write (Key r) None cs = Some r)
    /\ NoDup (map Key out) /\ Forall (fun r => Validate r = None) out /\ StronglySorted record_le out.
Proof.
  intros Hn. pose proof (store_recovers NewMemoryStore cs eq_refl) as H. rewrite mem_performed in H. apply H; [by apply Forall_true|done].
Qed.

(** The order of [Load] is determined. In any state the calls reach,
    when no two outbound records carry the same sequence number, the sorted
    list [Load] returns is the only one: neither the order of the range over
    the map nor an unstable sort can show. *)
Theorem Load_order_determined cs m out out' :
  let s := perform_all NewMemoryStore cs in
  distinct_seq (records s) -> mem_Load s = Ok (m, out) ->
  out' ≡ₚ map snd (map_to_list (records s)) -> StronglySorted record_le out' -> out' = out.
Proof.
  intros s Hd Hload P2 S2. assert (Hk : keyed s) by (apply keyed_all; by intros k r).
  destruct (values_keys (records s) Hk) as [_ Hin].
  unfold mem_Load in Hload. destruct (closed s); [discriminate|]. injection Hload as _ <-.
  apply (sorted_unique (fun r => records s !! Key r = Some r)).
  - intros a b Ha Hb. by apply (record_le_antisym (records s)).
  - apply Forall_forall. intros r. by rewrite P2, Hin.
  - done.
  - apply StronglySorted_merge_sort; apply _.
  - rewrite P2. symmetry. apply merge_sort_Permutation.
Qed.

(** A closed store stays closed. After Close, whatever is called, [Load]
    and every further call that is not a Close fail, a Put of an invalid
    record with its validation error and all others with [ErrClosed]. *)
Theorem closed_store_fails cs c s :
  let s' := perform_all (fst (mem_Close s)) cs in
  mem_Load s' = Err ErrClosed
  /\ snd (mem_perform s' c) = match c with
                              | SClose => None
                              | SPut r => Some (default ErrClosed (Validate r))
                              | _ => Some ErrClosed
                              end.
Proof.
  assert (H : Forall accepts (SClose :: c :: cs)) by (by apply Forall_true). exact (store_closed s (mem_holding s) cs c H eq_refl).
Qed.

(** ** Witnesses *)

Definition sample_record (id seq phase : Z) : SRecord :=
  mkRecord (mkKey Outbound id) seq 0 0 1 phase [0x32; 0] None [].

(** Two flows, one of them completed. *)
Definition sample_store_calls : list store_call :=
  [SPut (sample_record 7 2 AwaitPuback); SPut (sample_record 8 1 AwaitPuback); SDelete (mkKey Outbound 7)].

Lemma session_recovered_witness :
  exists m out, mem_Load (perform_all NewMemoryStore sample_store_calls) = Ok (m, out)
    /\ sample_record 8 1 AwaitPuback ∈ out.
Proof.
  destruct (session_recovered sample_store_calls) as (m & out & Hl & Hin & _); [by repeat constructor|].
  exists m, out. split; [exact Hl|]. apply Hin. reflexivity.
Defined.

(** One record: the list is the only order there is. *)
Lemma Load_order_determined_witness :
  [sample_record 7 2 AwaitPuback]
  = merge_sort record_le (map snd (map_to_list (records (perform_all NewMemoryStore [SPut (sample_record 7 2 AwaitPuback)])))).
Proof.
  assert (Hrec : records (perform_all NewMemoryStore [SPut (sample_record 7 2 AwaitPuback)])
                 = {[mkKey Outbound 7 := sample_record 7 2 AwaitPuback]}) by reflexivity.
  apply (Load_order_determined [SPut (sample_record 7 2 AwaitPuback)] zeroMeta).
  - unfold distinct_seq. rewrite Hrec. intros a b Ha Hb _ _ _.
    apply lookup_singleton_Some in Ha as [_ <-]. apply lookup_singleton_Some in Hb as [_ <-]. reflexivity.
  - reflexivity.
  - rewrite Hrec, map_to_list_singleton. reflexivity.
  - by repeat constructor.
Defined.
