(* ===== verification/IdTable.v ===== *)
(** * IdTable: packet identifiers (internal/inflight/engine.go)

    The table that hands out the identifiers 1..max and remembers what each
    is allocated to.  The buffered channel [inUse] counts the identifiers
    taken; a full one makes [AllocateID] wait. *)

From S2P Require Import Prelude GoLib.

Module IDs.

(** ** Definitions *)

Inductive Owner : Type := OwnerNone | OwnerPublish | OwnerSubscribe | OwnerUnsubscribe.

#[global] Instance Owner_eq_dec : EqDecision Owner.
Proof. solve_decision. Defined.

(** [idTable]: the array [owner] as the map of its entries other than
    [OwnerNone], and the number of elements in [inUse], whose capacity is
    [max]. *)
Record idTable : Type := mkTable { owner : gmap Z Owner; next : Z; max : Z; inUse : Z }.

(** [t.owner[id]] and [t.owner[id] = o] *)
Definition owner_of (t : idTable) (id : Z) : Owner := default OwnerNone (owner t !! id).
Definition set_owner (m : gmap Z Owner) (id : Z) (o : Owner) : gmap Z Owner :=
  match o with OwnerNone => delete id m | _ => <[id := o]> m end.

Definition newIDTable (max : Z) : idTable := mkTable ∅ 1 max 0.

(** The loop of [take]; [None] when the fuel runs out. *)
Fixpoint take_loop (fuel : nat) (t : idTable) (o : Owner) : option (Z * idTable) :=
  match fuel with
  | O => None
  | S fuel =>
      let id := next t in
      let next := if next t =? max t then 1 else u16 (next t + 1) in
      let t := mkTable (owner t) next (max t) (inUse t) in
      if decide (owner_of t id = OwnerNone)
      then Some (id, mkTable (set_owner (owner t) id o) next (max t) (inUse t))
      else take_loop fuel t o
  end.

(** [take]: one round visits every identifier. *)
Definition take (t : idTable) (o : Owner) : option (Z * idTable) := take_loop (Z.to_nat (max t)) t o.

Definition claim (t : idTable) (id : Z) (o : Owner) : bool * idTable :=
  if (id =? 0) || (max t <? id) || negb (bool_decide (owner_of t id = OwnerNone)) then (false, t)
  else if inUse t <? max t then (true, mkTable (set_owner (owner t) id o) (next t) (max t) (inUse t + 1))
  else (false, t).

(** What [AllocateID] does to the table. *)
Inductive allocation : Type :=
| Blocked                       (* [inUse] is full: wait for ctx, stop or a release *)
| Allocated (id : Z) (t : idTable)
| Spinning.                     (* no identifier is free: [take] does not return *)

Definition AllocateID (t : idTable) (o : Owner) : allocation :=
  if inUse t <? max t then
    match take (mkTable (owner t) (next t) (max t) (inUse t + 1)) o with
    | Some (id, t) => Allocated id t
    | None => Spinning
    end
  else Blocked.

(** [releaseLocked], and with it [ReleaseID]. *)
Definition releaseLocked (t : idTable) (id : Z) (o : Owner) : bool * idTable :=
  if (id =? 0) || negb (bool_decide (owner_of t id = o)) then (false, t)
  else (true, mkTable (set_owner (owner t) id OwnerNone) (next t) (max t) (inUse t - 1)).

(** ** The invariant *)

(** Identifiers 1..max, each entry counted once in [inUse]. *)
Record table_ok (t : idTable) : Prop := {
  ok_max : 1 <= max t <= 65535;
  ok_next : 1 <= next t <= max t;
  ok_range : forall id o, owner t !! id = Some o -> 1 <= id <= max t /\ o <> OwnerNone;
  ok_count : inUse t = Z.of_nat (size (owner t));
}.

Lemma newIDTable_ok max : 1 <= max <= 65535 -> table_ok (newIDTable max).
Proof. intros H. split; cbn; [done|lia| |by rewrite map_size_empty]. intros id o. by rewrite lookup_empty. Qed.

Lemma owner_of_None t id : table_ok t -> owner_of t id = OwnerNone <-> owner t !! id = None.
Proof.
  intros [_ _ Hr _]. unfold owner_of. destruct (owner t !! id) as [o|] eqn:E; cbn; [|done].
  destruct (Hr _ _ E). split; [done|discriminate].
Qed.

Lemma set_owner_insert m id o : o <> OwnerNone -> set_owner m id o = <[id := o]> m.
Proof. by destruct o. Qed.

(** The identifiers 1..n. *)
Definition id_range (n : Z) : list Z := map (fun i => Z.of_nat i + 1) (seq 0 (Z.to_nat n)).

Lemma elem_of_id_range n id : id ∈ id_range n <-> 1 <= id <= n.
Proof.
  unfold id_range. rewrite list_elem_of_fmap. split.
  - intros (i & -> & Hi%elem_of_seq). lia.
  - intros H. exists (Z.to_nat (id - 1)). split; [lia|]. apply elem_of_seq. lia.
Qed.

Lemma length_id_range n : 0 <= n -> length (id_range n) = Z.to_nat n.
Proof. intros. unfold id_range. by rewrite length_map, length_seq. Qed.

Lemma NoDup_id_range n : NoDup (id_range n).
Proof. unfold id_range. apply NoDup_fmap_2_strong; [|apply NoDup_seq]. intros; lia. Qed.

(** As many entries as identifiers: every one is taken. *)
Lemma free_exists t : table_ok t -> inUse t < max t -> exists id, 1 <= id <= max t /\ owner t !! id = None.
Proof.
  intros [Hm _ _ Hc] Hlt. destruct (decide (Forall (fun id => is_Some (owner t !! id)) (id_range (max t)))) as [Hall|Hn].
  - assert (Hsub : list_to_set (id_range (max t)) ⊆ dom (owner t)).
    { intros id Hid%elem_of_list_to_set. apply elem_of_dom. by apply (proj1 (Forall_forall _ _) Hall). }
    apply subseteq_size in Hsub. rewrite size_list_to_set, length_id_range in Hsub by (apply NoDup_id_range || lia).
    rewrite size_dom in Hsub. lia.
  - apply not_Forall_Exists, Exists_exists in Hn as (id & Hid & Hf); [|apply _].
    exists id. apply elem_of_id_range in Hid. split; [done|]. by apply eq_None_not_Some.
Qed.

(** The distance from the hint to an identifier, going round. *)
Definition ahead (t : idTable) (id : Z) : Z := if next t <=? id then id - next t else id + max t - next t.

Lemma take_loop_spec fuel t o id0 :
  1 <= max t <= 65535 -> 1 <= next t <= max t -> 1 <= id0 <= max t -> owner_of t id0 = OwnerNone ->
  ahead t id0 < Z.of_nat fuel ->
  exists id next', take_loop fuel t o = Some (id, mkTable (set_owner (owner t) id o) next' (max t) (inUse t))
    /\ 1 <= id <= max t /\ owner_of t id = OwnerNone /\ 1 <= next' <= max t.
Proof.
  revert t. induction fuel as [|fuel IH]; intros t Hm Hn Hid Hfree Hf.
  { unfold ahead in Hf. destruct (Z.leb_spec (next t) id0); lia. }
  cbn [take_loop]. cbn zeta.
  set (n' := if next t =? max t then 1 else u16 (next t + 1)).
  assert (Hn' : 1 <= n' <= max t).
  { unfold n'. destruct (Z.eqb_spec (next t) (max t)); [lia|]. rewrite u16_small by (split; lia). lia. }
  unfold owner_of at 1. cbn [owner max inUse]. fold (owner_of t (next t)).
  destruct (decide (owner_of t (next t) = OwnerNone)) as [E|E]; [by exists (next t), n'|].
  set (t' := mkTable (owner t) n' (max t) (inUse t)).
  apply (IH t'); [done|done|done|done|].
  assert (id0 <> next t) by (intros ->; done).
  unfold ahead in *. cbn [next max t']. unfold n'. destruct (Z.eqb_spec (next t) (max t)).
  - destruct (Z.leb_spec (next t) id0), (Z.leb_spec 1 id0); lia.
  - rewrite u16_small by (split; lia). destruct (Z.leb_spec (next t) id0), (Z.leb_spec (next t + 1) id0); lia.
Qed.

Lemma table_ok_insert t id o n' :
  table_ok t -> o <> OwnerNone -> 1 <= id <= max t -> owner t !! id = None -> 1 <= n' <= max t ->
  table_ok (mkTable (<[id := o]> (owner t)) n' (max t) (inUse t + 1)).
Proof.
  intros [Hm _ Hr Hc] Ho Hid Hnone Hn'. split; cbn; [done|done| |].
  - intros id' o'. rewrite lookup_insert_Some. intros [[<- <-]|[_ H]]; [done|by apply Hr].
  - rewrite map_size_insert_None by done. lia.
Qed.

(** [AllocateID] blocks exactly when every identifier is taken, and
    otherwise returns one that is free. *)
Lemma AllocateID_spec t o :
  table_ok t -> o <> OwnerNone ->
  match AllocateID t o with
  | Blocked => forall id, 1 <= id <= max t -> owner_of t id <> OwnerNone
  | Allocated id t' => 1 <= id <= max t /\ owner_of t id = OwnerNone /\ owner t' = <[id := o]> (owner t)
                       /\ max t' = max t /\ table_ok t'
  | Spinning => False
  end.
Proof.
  intros Hok Ho. pose proof Hok as [Hm Hn Hr Hc]. unfold AllocateID. destruct (Z.ltb_spec (inUse t) (max t)) as [Hlt|Hge].
  - destruct (free_exists t Hok Hlt) as (id0 & Hid0 & Hf0). unfold take. cbn [max].
    destruct (take_loop_spec (Z.to_nat (max t)) (mkTable (owner t) (next t) (max t) (inUse t + 1)) o id0)
      as (id & n' & -> & Hid & Hfree & Hn'); cbn [max next owner inUse] in *; [lia|lia|lia| | |].
    + by apply (owner_of_None t).
    + unfold ahead. cbn. destruct (Z.leb_spec (next t) id0); lia.
    + apply (owner_of_None t id Hok) in Hfree as Hnone. rewrite set_owner_insert by done.
      split; [done|]. split; [exact Hfree|]. split; [done|]. split; [done|]. by apply table_ok_insert.
  - intros id Hid Hfree%(owner_of_None t); [|done].
    assert (Hsub : dom (owner t) ⊆ list_to_set (id_range (max t)) ∖ {[id]}).
    { intros id' [o' Ho']%elem_of_dom. apply elem_of_difference.
      rewrite elem_of_list_to_set, elem_of_id_range, elem_of_singleton. split; [by apply (Hr _ _ Ho')|]. intros ->. congruence. }
    apply subseteq_size in Hsub. rewrite size_dom in Hsub.
    assert (Hin : id ∈ (list_to_set (id_range (max t)) : gset Z)) by (by apply elem_of_list_to_set, elem_of_id_range).
    rewrite size_difference in Hsub by set_solver.
    rewrite size_list_to_set, length_id_range, size_singleton in Hsub by (apply NoDup_id_range || lia). lia.
Qed.

Lemma releaseLocked_spec t id o :
  table_ok t -> o <> OwnerNone ->
  releaseLocked t id o = if decide (owner t !! id = Some o)
                         then (true, mkTable (delete id (owner t)) (next t) (max t) (inUse t - 1)) else (false, t).
Proof.
  intros Hok Ho. unfold releaseLocked. pose proof Hok as [_ _ Hr _]. unfold owner_of.
  destruct (decide (owner t !! id = Some o)) as [E|E].
  - destruct (Hr _ _ E). rewrite E. cbn. rewrite bool_decide_eq_true_2 by done. by destruct (Z.eqb_spec id 0); [lia|].
  - rewrite bool_decide_eq_false_2; [by rewrite orb_true_r|]. destruct (owner t !! id); cbn; congruence.
Qed.

Lemma releaseLocked_ok t id o : table_ok t -> o <> OwnerNone -> table_ok (snd (releaseLocked t id o)).
Proof.
  intros Hok Ho. rewrite releaseLocked_spec by done. destruct (decide _) as [E|E]; [|done]. cbn [snd].
  destruct Hok as [Hm Hn Hr Hc]. split; cbn; [done|done| |].
  - intros id' o'. rewrite lookup_delete_Some. intros [_ H]. by apply Hr.
  - rewrite map_size_delete_Some by done. assert (size (owner t) <> 0%nat) by (apply map_size_ne_0_lookup; eauto). lia.
Qed.


Lemma claim_ok t id o : table_ok t -> o <> OwnerNone -> is_u16 id -> table_ok (snd (claim t id o)).
Proof.
  intros Hok Ho Hid. unfold claim. destruct (Z.eqb_spec id 0); [done|]. destruct (Z.ltb_spec (max t) id); [done|]. cbn [orb].
  destruct (decide (owner_of t id = OwnerNone)) as [E|E]; [|by rewrite bool_decide_eq_false_2].
  rewrite bool_decide_eq_true_2 by done. cbn [negb]. destruct (inUse t <? max t); [|done]. cbn [snd].
  rewrite set_owner_insert by done. destruct Hid. apply table_ok_insert; [done|done|lia| |apply Hok]. by apply owner_of_None.
Qed.

(** A free identifier is claimed: there is a place in [inUse] for it. *)
Lemma claim_free t id o :
  table_ok t -> o <> OwnerNone -> 1 <= id <= max t -> owner t !! id = None ->
  claim t id o = (true, mkTable (<[id := o]> (owner t)) (next t) (max t) (inUse t + 1)).
Proof.
  intros Hok Ho Hid Hnone. unfold claim. destruct (Z.eqb_spec id 0); [lia|]. destruct (Z.ltb_spec (max t) id); [lia|].
  rewrite bool_decide_eq_true_2 by (by apply owner_of_None). cbn [orb negb]. rewrite set_owner_insert by done.
  destruct (Z.ltb_spec (inUse t) (max t)) as [|Hge]; [done|].
  pose proof (AllocateID_spec t o Hok Ho) as Hspec. unfold AllocateID in Hspec.
  destruct (Z.ltb_spec (inUse t) (max t)); [lia|]. exfalso. apply (Hspec id Hid). by apply owner_of_None.
Qed.

(** ** Reachable tables *)

Inductive reachable_table (max : Z) : idTable -> Prop :=
| reach_new : reachable_table max (newIDTable max)
| reach_allocate t o id t' :
    reachable_table max t -> o <> OwnerNone -> AllocateID t o = Allocated id t' -> reachable_table max t'
| reach_release t o id :
    reachable_table max t -> o <> OwnerNone -> reachable_table max (snd (releaseLocked t id o))
| reach_claim t o id :
    reachable_table max t -> o <> OwnerNone -> is_u16 id -> reachable_table max (snd (claim t id o)).

Lemma reachable_table_ok max t : 1 <= max <= 65535 -> reachable_table max t -> table_ok t.
Proof.
  intros Hm. induction 1 as [|t o id t' _ IH Ho E|t o id _ IH Ho|t o id _ IH Ho Hid].
  - by apply newIDTable_ok.
  - pose proof (AllocateID_spec t o IH Ho) as H. rewrite E in H. apply H.
  - by apply releaseLocked_ok.
  - by apply claim_ok.
Qed.

Lemma owner_of_insert m n mx u t id o i :
  owner_of (mkTable (<[id := o]> m) n mx u) i = if decide (i = id) then o else owner_of (mkTable m t mx u) i.
Proof.
  unfold owner_of. cbn [owner]. destruct (decide (i = id)) as [->|Hne]; [by rewrite lookup_insert_eq|].
  by rewrite lookup_insert_ne by congruence.
Qed.

(** ** Theorem *)

(** Packet identifiers are handed out safely. In every table reached from
    a new one, [AllocateID] waits exactly when all of 1..max are taken;
    otherwise it returns, with one of them that nothing owned, and changes
    no other. [ReleaseID] frees an identifier exactly when the caller's kind
    of flow owns it, so a stray acknowledgement frees none. *)
Theorem ids_exclusive max t o :
  1 <= max <= 65535 -> reachable_table max t -> o <> OwnerNone ->
  match AllocateID t o with
  | Blocked => forall id, 1 <= id <= IDs.max t -> owner_of t id <> OwnerNone
  | Allocated id t' => 1 <= id <= IDs.max t /\ owner_of t id = OwnerNone
                       /\ forall i, owner_of t' i = if decide (i = id) then o else owner_of t i
  | Spinning => False
  end
  /\ forall id, let (ok, t') := releaseLocked t id o in
       ok = bool_decide (owner_of t id = o)
       /\ forall i, owner_of t' i = if decide (ok = true /\ i = id) then OwnerNone else owner_of t i.
Proof.
  intros Hm Hr Ho. pose proof (reachable_table_ok max t Hm Hr) as Hok. split.
  - pose proof (AllocateID_spec t o Hok Ho) as H. destruct (AllocateID t o) as [|id t'|]; [done| |done].
    destruct H as (Hid & Hfree & Ht' & _). split; [done|]. split; [done|]. intros i.
    rewrite <- (owner_of_insert (owner t) 0 0 0 0). unfold owner_of at 1. by rewrite Ht'.
  - intros id. rewrite releaseLocked_spec by done. unfold owner_of. destruct (decide (owner t !! id = Some o)) as [E|E].
    + split; [by rewrite E, bool_decide_eq_true_2|]. intros i. cbn [owner].
      destruct (decide (true = true /\ i = id)) as [[_ ->]|Hn]; [by rewrite lookup_delete_eq|].
      rewrite lookup_delete_ne; [done|]. intros ->. by apply Hn.
    + split; [|intros i; by rewrite decide_False by (by intros [? _])].
      symmetry. apply bool_decide_eq_false_2. intros Ho2. apply E. destruct (owner t !! id); cbn in Ho2; congruence.
Qed.

(** Two identifiers, one of them taken by a SUBSCRIBE: the other one goes to
    the next PUBLISH, and a PUBACK cannot free the first. *)
Lemma ids_exclusive_witness :
  AllocateID (mkTable {[1 := OwnerSubscribe]} 2 2 1) OwnerPublish
    = Allocated 2 (mkTable {[1 := OwnerSubscribe; 2 := OwnerPublish]} 1 2 2)
  /\ fst (releaseLocked (mkTable {[1 := OwnerSubscribe]} 2 2 1) 1 OwnerPublish) = false.
Proof.
  split; [reflexivity|].
  destruct (ids_exclusive 2 (mkTable {[1 := OwnerSubscribe]} 2 2 1) OwnerPublish) as [_ H]; [lia| |discriminate|].
  - apply (reach_allocate 2 (newIDTable 2) OwnerSubscribe 1); [apply reach_new|discriminate|reflexivity].
  - specialize (H 1). destruct (releaseLocked _ 1 OwnerPublish) as [ok t']. destruct H as [-> _]. reflexivity.
Defined.

End IDs.
