(* ===== verification/Batch.v ===== *)
(** * Batch: one batch of packets for the writer (internal/inflight/engine.go)

    [Frames] collects acknowledgements in a small buffer and refers to
    stored PUBLISH packets without copying them; a retransmission gets its
    DUP flag from a first byte written into the small buffer.  The bytes
    that reach the connection are proved to be the packets, in order. *)

From S2P Require Import Prelude GoLib Errors Buffers Varint Fields PropView Utf8 Topics Validate PropLists Frames.
From S2P Require Import Publish Acks.

(** ** Definitions *)

(** [segment]: a range of [small], or a stored packet. *)
Record segment : Type := mkSegment { s_off : Z; s_end : Z; s_pkt : option (list Z) }.

(** [Frames], without [out], which [Buffers] fills anew. *)
Record Frames : Type := mkFrames { small : list Z; segs : list segment; n : Z }.

Definition Frames_Reset (f : Frames) : Frames := mkFrames [] [] 0.

(** [extendSmall] on the segments: [e] is the end of [small]. *)
Fixpoint extend_last (segs : list segment) (off e : Z) : list segment :=
  match segs with
  | [] => [mkSegment off e None]
  | [s] => if negb (bool_decide (is_Some (s_pkt s))) && (s_end s =? off)
           then [mkSegment (s_off s) e (s_pkt s)] else [s; mkSegment off e None]
  | s :: segs => s :: extend_last segs off e
  end.

Definition extendSmall (f : Frames) (off : Z) : Frames :=
  mkFrames (small f) (extend_last (segs f) off (len (small f))) (n f).

Definition appendAck (f : Frames) (t id rc : Z) : Frames :=
  let off := len (small f) in
  let f := extendSmall (mkFrames (PubResp.AppendPubResp (small f) t id rc) (segs f) (n f)) off in
  mkFrames (small f) (segs f) (n f + 1).

Definition appendPublish (f : Frames) (pkt : list Z) (dup : bool) : wres Frames :=
  let! (f, pkt) := (if dup then
                      let off := len (small f) in
                      let! b := idx pkt 0 in
                      let f := extendSmall (mkFrames (small f ++ [Z.lor b 0x08]) (segs f) (n f)) off in
                      let! pkt := from pkt 1 in
                      Ok (f, pkt)
                    else Ok (f, pkt)) in
  Ok (mkFrames (small f) (segs f ++ [mkSegment 0 0 (Some pkt)]) (n f + 1)).

Definition seg_bytes (small : list Z) (s : segment) : wres (list Z) :=
  match s_pkt s with
  | Some pkt => Ok pkt
  | None => slice small (s_off s) (s_end s)
  end.

(** [Buffers]; [WriteTo] writes them one after the other. *)
Fixpoint Buffers_loop (small : list Z) (segs : list segment) : wres (list (list Z)) :=
  match segs with
  | [] => Ok []
  | s :: segs => let! b := seg_bytes small s in let! bs := Buffers_loop small segs in Ok (b :: bs)
  end.
Definition Buffers (f : Frames) : wres (list (list Z)) := Buffers_loop (small f) (segs f).

(** [WriteTo]: one Write for a single segment, one writev otherwise; the
    bytes handed to the connection. *)
Definition WriteTo (f : Frames) : wres (list Z) :=
  match segs f with
  | [s] => seg_bytes (small f) s
  | _ => let! bufs := Buffers f in Ok (concat bufs)
  end.

(** ** What a batch is made of *)

(** One packet the engine adds. *)
Inductive item : Type :=
| IAck (t id rc : Z)
| IPublish (pkt : list Z) (dup : bool).

Definition append_item (f : Frames) (i : item) : wres Frames :=
  match i with
  | IAck t id rc => Ok (appendAck f t id rc)
  | IPublish pkt dup => appendPublish f pkt dup
  end.

Fixpoint append_items (f : Frames) (its : list item) : wres Frames :=
  match its with [] => Ok f | i :: its => let! f := append_item f i in append_items f its end.

(** A PUBLISH with its DUP flag set. *)
Definition set_dup (pkt : list Z) : list Z :=
  match pkt with [] => [] | b :: pkt => Z.lor b 0x08 :: pkt end.

(** The packet an item stands for. *)
Definition item_bytes (i : item) : list Z :=
  match i with
  | IAck t id rc => PubResp.AppendPubResp [] t id rc
  | IPublish pkt dup => if dup then set_dup pkt else pkt
  end.

(** Stored packets are not empty. *)
Definition item_ok (i : item) : Prop := match i with IPublish pkt _ => pkt <> [] | _ => True end.

(** ** Rendering *)

Definition renders (small : list Z) (segs : list segment) (bs : list Z) : Prop :=
  exists bufs, Buffers_loop small segs = Ok bufs /\ concat bufs = bs.

Lemma seg_bytes_mono small more s b : seg_bytes small s = Ok b -> seg_bytes (small ++ more) s = Ok b.
Proof.
  unfold seg_bytes. destruct (s_pkt s); [done|]. unfold slice.
  destruct (Z.leb_spec 0 (s_off s)), (Z.leb_spec (s_off s) (s_end s)), (Z.leb_spec (s_end s) (len small)); try done.
  cbn [andb]. intros [= <-]. rewrite (proj2 (Z.leb_le _ _)) by slia. f_equal.
  unfold ztake, zdrop, len in *. rewrite drop_app_le, take_app_le by (rewrite ?length_drop; lia). done.
Qed.

Lemma renders_mono small more segs bs : renders small segs bs -> renders (small ++ more) segs bs.
Proof.
  intros (bufs & E & <-). exists bufs. split; [|done]. revert bufs E.
  induction segs as [|s segs IH]; intros bufs; cbn [Buffers_loop]; [done|].
  destruct (seg_bytes small s) as [b| |] eqn:Es; cbn [rbind]; try done. rewrite (seg_bytes_mono small more s b Es). cbn [rbind].
  destruct (Buffers_loop small segs) as [bs| |]; cbn [rbind]; try done. intros [= <-]. by rewrite (IH bs eq_refl).
Qed.

Lemma renders_cons small s segs b bs :
  seg_bytes small s = Ok b -> renders small segs bs -> renders small (s :: segs) (b ++ bs).
Proof. intros Eb (bufs & E & <-). exists (b :: bufs). cbn [Buffers_loop]. by rewrite Eb, E. Qed.

Lemma renders_cons_inv small s segs bs :
  renders small (s :: segs) bs -> exists b bs', bs = b ++ bs' /\ seg_bytes small s = Ok b /\ renders small segs bs'.
Proof.
  intros (bufs & E & <-). cbn [Buffers_loop] in E. destruct (seg_bytes small s) as [b| |]; cbn [rbind] in E; try done.
  destruct (Buffers_loop small segs) as [bs| |] eqn:E2; cbn [rbind] in E; try done. injection E as <-.
  exists b, (concat bs). split; [done|]. split; [done|]. by exists bs.
Qed.

Lemma renders_nil small : renders small [] [].
Proof. by exists []. Qed.

Lemma renders_one small s b : seg_bytes small s = Ok b -> renders small [s] b.
Proof. intros E. exists [b]. cbn [Buffers_loop concat]. by rewrite E, app_nil_r. Qed.

Lemma renders_app small segs segs' bs bs' :
  renders small segs bs -> renders small segs' bs' -> renders small (segs ++ segs') (bs ++ bs').
Proof.
  revert bs. induction segs as [|s segs IH]; intros bs H H'.
  - destruct H as (bufs & [= <-] & <-). done.
  - apply renders_cons_inv in H as (b & bs2 & -> & Eb & H). rewrite <- app_assoc. apply renders_cons; auto.
Qed.

(** A range at the end of [small] that starts where the last one ended is
    merged with it; either way the new bytes come last. *)
Lemma renders_extend small more segs bs :
  renders small segs bs -> renders (small ++ more) (extend_last segs (len small) (len (small ++ more))) (bs ++ more).
Proof.
  assert (Hnew : seg_bytes (small ++ more) (mkSegment (len small) (len (small ++ more)) None) = Ok more).
  { unfold seg_bytes. cbn [s_pkt s_off s_end]. rewrite <- (app_nil_r more) at 1.
    apply slice_app; [done|]. by rewrite len_app. }
  revert bs. induction segs as [|s segs IH]; intros bs H.
  { destruct H as (bufs & [= <-] & <-). by apply renders_one. }
  apply renders_cons_inv in H as (b & bs2 & -> & Eb & H). pose proof (seg_bytes_mono small more s b Eb) as Eb'.
  destruct segs as [|s2 segs].
  - destruct H as (bufs & [= <-] & <-). cbn [extend_last concat]. rewrite app_nil_r.
    assert (Hapart : renders (small ++ more) [s; mkSegment (len small) (len (small ++ more)) None] (b ++ more)).
    { apply renders_cons; [done|]. by apply renders_one. }
    destruct s as [off e pk]; cbn [s_pkt s_off s_end] in *. destruct pk as [pk|]; [by rewrite bool_decide_eq_true_2|].
    destruct (Z.eqb_spec e (len small)) as [->|]; [|by rewrite andb_false_r].
    rewrite bool_decide_eq_false_2 by (by intros []). cbn [negb andb].
    apply renders_one.
    unfold seg_bytes in *. cbn [s_pkt s_off s_end] in *. unfold slice in Eb.
    destruct (Z.leb_spec 0 off), (Z.leb_spec off (len small)); try done. cbn [andb] in Eb.
    rewrite Z.leb_refl in Eb. injection Eb as <-.
    destruct (split_at off small) as (l1 & l2 & -> & Hl); [lia|].
    rewrite zdrop_app_len by done.
    replace (len (l1 ++ l2) - off) with (len l2) by slia. rewrite ztake_len. rewrite <- (app_nil_r more) at 1.
    rewrite <- !app_assoc, (app_assoc l2). apply slice_app; [done|]. slia.
  - change (extend_last (s :: s2 :: segs) ?o ?e) with (s :: extend_last (s2 :: segs) o e). rewrite <- app_assoc.
    apply renders_cons; [done|]. by apply IH.
Qed.

Lemma renders_extendSmall f more bs :
  renders (small f) (segs f) bs ->
  let f' := extendSmall (mkFrames (small f ++ more) (segs f) (n f)) (len (small f)) in
  renders (small f') (segs f') (bs ++ more).
Proof. intros H. by apply renders_extend. Qed.

Lemma AppendPubResp_app dst t id rc : PubResp.AppendPubResp dst t id rc = dst ++ PubResp.AppendPubResp [] t id rc.
Proof. unfold PubResp.AppendPubResp. by destruct (rc =? ReasonSuccess). Qed.

Lemma append_item_ok f i bs :
  item_ok i -> renders (small f) (segs f) bs ->
  exists f', append_item f i = Ok f' /\ renders (small f') (segs f') (bs ++ item_bytes i) /\ n f' = n f + 1.
Proof.
  intros Hi Hr. destruct i as [t id rc|pkt dup]; cbn [append_item item_bytes].
  - eexists. split; [done|]. split; [|done]. unfold appendAck. cbn zeta. rewrite AppendPubResp_app.
    by apply renders_extendSmall.
  - destruct pkt as [|b pkt]; [done|]. unfold appendPublish. destruct dup.
    + rewrite idx_0. cbn [rbind]. rewrite (from_app [b] pkt 1 eq_refl : from (b :: pkt) 1 = Ok pkt). cbn [rbind]. eexists. split; [done|]. split; [|done].
      cbn [small segs set_dup]. change (Z.lor b 8 :: pkt) with ([Z.lor b 8] ++ pkt). rewrite app_assoc.
      apply renders_app; [by apply renders_extendSmall|]. by apply renders_one.
    + cbn [rbind]. eexists. split; [done|]. split; [|done]. cbn [small segs]. apply renders_app; [done|]. by apply renders_one.
Qed.

Lemma append_items_ok its f bs :
  Forall item_ok its -> renders (small f) (segs f) bs ->
  exists f', append_items f its = Ok f' /\ renders (small f') (segs f') (bs ++ concat (map item_bytes its))
    /\ n f' = n f + len its.
Proof.
  revert f bs. induction its as [|i its IH]; intros f bs Hi Hr; cbn [append_items].
  - exists f. cbn. rewrite app_nil_r, len_nil. split; [done|]. split; [done|]. lia.
  - apply Forall_cons in Hi as [Hi His]. destruct (append_item_ok f i bs Hi Hr) as (f1 & -> & Hr1 & Hn1). cbn [rbind].
    destruct (IH f1 _ His Hr1) as (f2 & E & Hr2 & Hn2). exists f2. split; [done|]. split; [|slia].
    cbn [map concat]. by rewrite app_assoc.
Qed.

Lemma WriteTo_renders f bs : renders (small f) (segs f) bs -> WriteTo f = Ok bs.
Proof.
  unfold WriteTo, Buffers. intros H. destruct (segs f) as [|s [|s2 ss]].
  - by destruct H as (bufs & -> & <-).
  - apply renders_cons_inv in H as (b & bs2 & -> & -> & (bufs & [= <-] & <-)). cbn. by rewrite app_nil_r.
  - by destruct H as (bufs & -> & <-).
Qed.

(** DUP is the only difference between a message and its retransmission. *)
Definition with_dup (o : PublishOpts) : PublishOpts :=
  mkPublishOpts (Topic o) (Payload o) (QoS o) (Retain o) true (PacketID o) (PayloadFormatIndicator o)
    (MessageExpiryInterval o) (ContentType o) (ResponseTopic o) (CorrelationData o) (TopicAlias o) (UserProps o).

Lemma set_dup_enc o : publish_typed o -> publish_valid o -> set_dup (enc_publish o) = enc_publish (with_dup o).
Proof.
  intros Ht Hv. pose proof (publish_valid_qos o Ht Hv) as Hq. unfold enc_publish, publish_header.
  change (publish_body (with_dup o)) with (publish_body o). change (publish_varhdr (with_dup o)) with (publish_varhdr o).
  cbn [app set_dup Payload with_dup]. f_equal. unfold publishFlags. cbn [QoS Dup Retain with_dup].
  assert (QoS o = 0 \/ QoS o = 1 \/ QoS o = 2) as [-> | [-> | ->]] by lia; destruct (Dup o), (Retain o); reflexivity.
Qed.

(** ** Theorem *)

(** A batch reaches the connection as its packets. Whatever was collected
    before the [Reset], after any sequence of acknowledgements and stored
    PUBLISH packets [WriteTo] writes exactly their bytes, one after the
    other, [Len] counts them, nothing is read out of range; a
    retransmission is the message with DUP set and nothing else changed. *)
Theorem batch_exact f its :
  Forall item_ok its ->
  exists f', append_items (Frames_Reset f) its = Ok f' /\ WriteTo f' = Ok (concat (map item_bytes its)) /\ n f' = len its
    /\ forall o, publish_typed o -> publish_valid o -> item_bytes (IPublish (enc_publish o) true) = enc_publish (with_dup o).
Proof.
  intros Hi. destruct (append_items_ok its (Frames_Reset f) [] Hi (renders_nil _)) as (f' & E & Hr & Hn).
  exists f'. split; [done|]. split; [by apply WriteTo_renders|]. split; [done|]. intros o Ht Hv. by apply set_dup_enc.
Qed.

(** Two acknowledgements merged into one segment, then a retransmission. *)
Lemma batch_exact_witness :
  exists f', append_items (Frames_Reset (mkFrames [9] [] 1)) [IAck PUBACK 1 0; IAck PUBREL 2 0; IPublish [0x32; 0] true] = Ok f'
    /\ WriteTo f' = Ok [0x40; 2; 0; 1; 0x62; 2; 0; 2; 0x3A; 0] /\ len (segs f') = 2.
Proof.
  destruct (batch_exact (mkFrames [9] [] 1) [IAck PUBACK 1 0; IAck PUBREL 2 0; IPublish [0x32; 0] true])
    as (f' & E & W & _); [by repeat constructor|].
  exists f'. split; [exact E|]. split; [exact W|]. vm_compute in E. injection E as <-. reflexivity.
Defined.
