(* ===== verification/Inflight.v ===== *)
(** * Inflight: the session state machine (internal/inflight)

    Outbound and inbound QoS 1/2 flows, the acknowledgements owed to the
    broker, the queues of store writes and the packets handed to the
    connection's writer.  Flows are shared by several maps, lists, queued
    writes and the callers' handles, so they live in a heap and are named by
    their address.

    Every critical section under [e.mu] is one function on the engine's
    state.  A queued store write is data: performing it and the critical
    section that follows are separate steps ([perform_head], [finish_head]),
    which may interleave with anything else.  Sequence numbers and
    generations, [uint64] counters incremented once per message and
    connection, are unbounded. *)

From stdpp Require Import gmap sorting.
From S2P Require Import Prelude GoLib Errors Varint Fields PropView Validate Publish Batch IdTable Session.

Module Inflight.

(** ** Data *)

Definition outKey (id : Z) : RecordKey := mkKey Outbound id.
Definition inKey (id : Z) : RecordKey := mkKey Inbound id.

(** The errors a flow can end with. [StoreError] carries its [Op];
    [Refused] is what [Config.Refusal] builds; the error values a caller
    passes in are [OtherError]. *)
Inductive flow_error : Type :=
| ErrSessionLost
| ErrMessageExpired
| ErrQoSNotSupported
| ErrRetainNotSupported
| ErrPacketTooLarge
| Canceled
| Refused (t rc : Z)
| StoreError (op : string)
| OtherError (n : Z).

Inductive SessionLossPolicy : Type := Republish | Fail.

(** [Config]; without a store state is in memory only. *)
Record Config : Type := mkConfig { hasStore : bool; ReceiveMaximum : Z; SessionLoss : SessionLossPolicy }.

(** [Out]: the list it is in and its neighbours are those of [pub] and
    [rel]; [closes] counts how often [done] was closed (Go panics on the
    second); [settle] names the producer's function. *)
Record Out : Type := mkOut {
  o_id : Z;
  qos : Z;
  phase : Z;
  seq : Z;
  pubSeq : Z;
  packet : list Z;
  expiresAt : option Z;
  expiry : Z;
  attempted : bool;
  counted : bool;
  finished : bool;
  settling : bool;
  adopted : bool;
  reason : Z;
  outcome : Z;
  ref : list Z;
  settle : option Z;
  closes : Z;
  o_err : option flow_error;
}.

#[export] Instance Out_rebuild : Rebuild Out := fun r =>
  mkOut (o_id r) (qos r) (phase r) (seq r) (pubSeq r) (packet r) (expiresAt r) (expiry r) (attempted r) (counted r)
    (finished r) (settling r) (adopted r) (reason r) (outcome r) (ref r) (settle r) (closes r) (o_err r).

Definition zeroOut : Out := mkOut 0 0 0 0 0 [] None 0 false false false false false 0 0 [] None 0 None.

Inductive inState : Type := inDelivered | inAcked | inAwaitPubrel | inReleased.

Record In : Type := mkIn { in_id : Z; in_qos : Z; state : inState; dead : bool }.

#[export] Instance In_rebuild : Rebuild In := fun r => mkIn (in_id r) (in_qos r) (state r) (dead r).
Definition zeroIn : In := mkIn 0 0 inDelivered false.

#[export] Instance inState_eq_dec : EqDecision inState.
Proof. solve_decision. Defined.

(** Addresses of [Out] and [In] objects. *)
Abbreviation flow := nat (only parsing).
Abbreviation inflow := nat (only parsing).

(** [ctrlFrame] *)
Record ctrlFrame : Type := mkCtrl { c_typ : Z; c_id : Z; c_rc : Z; c_gated : bool; c_in : option inflow }.

(** The [do] and [after] of a [job]. *)
Inductive work : Type :=
| PutNew (r : SRecord)            (* Register's "put outbound" *)
| PutOut (r : SRecord)            (* putOutLocked's "put outbound" *)
| SettleDelete (s : option Z) (outcome : option flow_error) (ref : list Z)  (* "delete outbound" *)
| PutIn                           (* "put inbound" *)
| DeleteIn.                       (* "delete inbound" *)

Inductive job_owner : Type := OwnOut (o : flow) | OwnIn (i : inflow).

#[export] Instance job_owner_eq_dec : EqDecision job_owner.
Proof. solve_decision. Defined.

(** What [do] returned: nil, a [settleError] or the store's error. *)
Inductive do_result : Type := DoOk | SettleFailed | StoreFailed.

(** [job]; [j_result] is [None] until [do] has returned. *)
Record job : Type := mkJob { j_work : work; j_owner : job_owner; j_epoch : Z; j_result : option do_result }.

(** [Engine], and the heap its flows live in. [writes] is the number of
    jobs in [queues]. *)
Record Engine : Type := mkEngine {
  flows : gmap flow Out;
  nextOut : flow;
  ins : gmap inflow In;
  nextIn : inflow;
  ids : IDs.idTable;
  out : gmap Z flow;
  pub : list flow;
  rel : list flow;
  nextSeq : Z;
  cursor : option flow;
  released : Z;
  quota : Z;
  quotaMax : Z;
  inb : gmap Z inflow;
  fifo : list inflow;
  ctrl : list ctrlFrame;
  link : option Z;
  gen : Z;
  lastGen : Z;
  e_meta : Meta;
  refs : gmap (list Z) flow;
  orphans : gmap (list Z) flow;
  queues : gmap RecordKey (list job);
  epoch : Z;
  failure : option flow_error;
}.

#[export] Instance Engine_rebuild : Rebuild Engine := fun e =>
  mkEngine (flows e) (nextOut e) (ins e) (nextIn e) (ids e) (out e) (pub e) (rel e) (nextSeq e) (cursor e) (released e)
    (quota e) (quotaMax e) (inb e) (fifo e) (ctrl e) (link e) (gen e) (lastGen e) (e_meta e) (refs e) (orphans e)
    (queues e) (epoch e) (failure e).

(** [New] *)
Definition New : Engine :=
  mkEngine ∅ 0%nat ∅ 0%nat (IDs.newIDTable 65535) ∅ [] [] 1 None 0 65535 65535 ∅ [] [] None 0 0 zeroMeta ∅ ∅ ∅ 0 None.

(** ** The heap, the lists and the identifiers *)

Definition get (e : Engine) (o : flow) : Out := default zeroOut (flows e !! o).
Definition modify (o : flow) (f : Out -> Out) (e : Engine) : Engine := e <| flows ::= alter f o |>.
Definition get_in (e : Engine) (i : inflow) : In := default zeroIn (ins e !! i).
Definition modify_in (i : inflow) (f : In -> In) (e : Engine) : Engine := e <| ins ::= alter f i |>.

(** [&Out{...}] and [&In{...}] *)
Definition new_flow (f : Out) (e : Engine) : flow * Engine :=
  (nextOut e, e <| flows ::= <[nextOut e := f]> |> <| nextOut ::= S |>).
Definition new_in (i : In) (e : Engine) : inflow * Engine :=
  (nextIn e, e <| ins ::= <[nextIn e := i]> |> <| nextIn ::= S |>).

(** [flowList.remove]; a flow is in a list at most once. *)
Definition remove_flow (o : flow) (l : list flow) : list flow := filter (fun x => x <> o) l.

(** [o.next] in one list. *)
Fixpoint next_in (o : flow) (l : list flow) : option flow :=
  match l with
  | [] => None
  | x :: l => if decide (x = o) then head l else next_in o l
  end.

Definition next_flow (e : Engine) (o : flow) : option flow :=
  if decide (o ∈ pub e) then next_in o (pub e) else next_in o (rel e).

Definition push_pub (o : flow) (e : Engine) : Engine := e <| pub ::= fun l => l ++ [o] |>.
Definition push_rel (o : flow) (e : Engine) : Engine := e <| rel ::= fun l => l ++ [o] |>.

Definition unlinkLocked (o : flow) (e : Engine) : Engine :=
  let e := if decide (cursor e = Some o) then e <| cursor := next_flow e o |> else e in
  e <| pub ::= remove_flow o |> <| rel ::= remove_flow o |>.

Definition releaseLocked (id : Z) (ow : IDs.Owner) (e : Engine) : Engine :=
  e <| ids ::= fun t => snd (IDs.releaseLocked t id ow) |>.

(** ** Store writes (writes.go) *)

Definition queue (e : Engine) (k : RecordKey) : list job := default [] (queues e !! k).

Definition queueLocked (k : RecordKey) (ow : job_owner) (w : work) (e : Engine) : Engine :=
  e <| queues ::= <[k := queue e k ++ [mkJob w ow (epoch e) None]]> |>.

Definition storedLocked (e : Engine) (k : RecordKey) : bool :=
  match queue e k with [] => true | _ => false end.

Definition cancelLocked (k : RecordKey) (ow : job_owner) (e : Engine) : Engine :=
  match queue e k with
  | [] => e
  | j :: q => e <| queues ::= <[k := j :: filter (fun j => j_owner j <> ow) q]> |>
  end.

(** The pop at the end of [run]. *)
Definition pop_head (k : RecordKey) (e : Engine) : Engine :=
  match queue e k with
  | [] | [_] => e <| queues ::= delete k |>
  | _ :: q => e <| queues ::= <[k := q]> |>
  end.

(** ** Outbound flows (outbound.go) *)

Definition AwaitFirst (q : Z) : Z := if q =? 2 then AwaitPubrec else AwaitPuback.

(** [Out.record] *)
Definition record (f : Out) : SRecord :=
  let base pk prseq oc := mkRecord (outKey (o_id f)) (pubSeq f) prseq oc (qos f) (phase f) pk (expiresAt f) (ref f) in
  if phase f =? AwaitPubcomp then base (packet f) (seq f) 0
  else if phase f =? Completed then base [] 0 (outcome f)
  else base (packet f) 0 0.

Definition OutcomeAccepted : Z := 0x00.
Definition OutcomeSessionLost : Z := 0x01.
Definition OutcomeExpired : Z := 0x02.
Definition OutcomePacketTooLarge : Z := 0x03.
Definition OutcomeRetainNotSupported : Z := 0x04.
Definition OutcomeQoSNotSupported : Z := 0x05.

Definition encodeOutcome (f : Out) : option Z :=
  match o_err f with
  | None => Some OutcomeAccepted
  | Some err =>
      if IsError (reason f) then Some (reason f)
      else match err with
           | ErrSessionLost => Some OutcomeSessionLost
           | ErrMessageExpired => Some OutcomeExpired
           | ErrPacketTooLarge => Some OutcomePacketTooLarge
           | ErrRetainNotSupported => Some OutcomeRetainNotSupported
           | ErrQoSNotSupported => Some OutcomeQoSNotSupported
           | _ => None
           end
  end.

(** [decodeOutcomeLocked]: [None] for a value this version does not know. *)
Definition decodeOutcome (f : Out) : option Out :=
  let b := outcome f in
  if b =? OutcomeAccepted then Some (f <| o_err := None |>)
  else if IsError b then
    let t := if qos f =? 2 then PUBREC else PUBACK in
    Some (f <| reason := b |> <| o_err := Some (Refused t b) |>)
  else if b =? OutcomeSessionLost then Some (f <| o_err := Some ErrSessionLost |>)
  else if b =? OutcomeExpired then Some (f <| o_err := Some ErrMessageExpired |>)
  else if b =? OutcomePacketTooLarge then Some (f <| o_err := Some ErrPacketTooLarge |>)
  else if b =? OutcomeRetainNotSupported then Some (f <| o_err := Some ErrRetainNotSupported |>)
  else if b =? OutcomeQoSNotSupported then Some (f <| o_err := Some ErrQoSNotSupported |>)
  else None.

Definition finishLocked (o : flow) (err : option flow_error) (e : Engine) : Engine :=
  let f := get e o in
  let e := e <| out ::= delete (o_id f) |> in
  let e := modify o (fun f => f <| finished := true |> <| o_err := err |> <| closes ::= Z.succ |>) e in
  if list_eqb (ref f) [] then e else e <| refs ::= delete (ref f) |>.

Definition creditLocked (o : flow) (e : Engine) : Engine :=
  if counted (get e o) then modify o (fun f => f <| counted := false |>) (e <| quota ::= Z.succ |>) else e.

Definition pushCtrlLocked (t id rc : Z) (gated : bool) (i : option inflow) (e : Engine) : Engine :=
  e <| ctrl ::= fun l => l ++ [mkCtrl t id rc gated i] |>.

(** [settleLocked] *)
Definition settleLocked (o : flow) (e : Engine) : Engine :=
  let e := modify o (fun f => f <| settling := true |>) e in
  let f := get e o in
  queueLocked (outKey (o_id f)) (OwnOut o) (SettleDelete (settle f) (o_err f) (ref f)) e.

Section engine.
Context (cfg : Config).

Definition putOutLocked (o : flow) (e : Engine) : Engine :=
  if hasStore cfg then
    let f := get e o in queueLocked (outKey (o_id f)) (OwnOut o) (PutOut (record f)) e
  else e.

Definition completeLocked (o : flow) (e : Engine) : Engine :=
  let f := get e o in
  if negb (hasStore cfg) || (phase f =? Completed) then e
  else match encodeOutcome f with
       | None => e
       | Some oc => putOutLocked o (modify o (fun f => f <| phase := Completed |> <| outcome := oc |>) e)
       end.

Definition retireLocked (o : flow) (e : Engine) : Engine :=
  let f := get e o in
  if negb (list_eqb (ref f) []) then
    let e := e <| orphans ::= <[ref f := o]> |> in
    match settle f with
    | None => completeLocked o e
    | Some _ => settleLocked o e
    end
  else if negb (hasStore cfg) && bool_decide (settle f = None) then releaseLocked (o_id f) IDs.OwnerPublish e
  else settleLocked o e.

(** [Message] *)
Record Message : Type := mkMessage {
  m_ID : Z;
  m_QoS : Z;
  m_Packet : list Z;
  m_ExpiresAt : option Z;
  m_Ref : list Z;
  m_Settle : option Z;
}.

(** The time from [now] to [t] in whole seconds, rounded up; nanoseconds. *)
Definition secondsUntil (t now : Z) : Z := u32 (Z.quot (t - now + 1000000000 - 1) 1000000000).

(** [Register] up to the point where its caller runs the write it queued. *)
Definition Register (m : Message) (now : Z) (e : Engine) : Engine * (flow + flow_error) :=
  match failure e with
  | Some err => (releaseLocked (m_ID m) IDs.OwnerPublish e, inr err)
  | None =>
      let ex := match m_ExpiresAt m with Some t => secondsUntil t now | None => 0 end in
      let f := mkOut (m_ID m) (m_QoS m) (AwaitFirst (m_QoS m)) (nextSeq e) (nextSeq e) (m_Packet m) (m_ExpiresAt m) ex
                 false false false false false 0 0 (m_Ref m) (m_Settle m) 0 None in
      let (o, e) := new_flow f e in
      let e := e <| nextSeq ::= Z.succ |> <| out ::= <[m_ID m := o]> |> in
      let e := if list_eqb (m_Ref m) [] then e else e <| refs ::= <[m_Ref m := o]> |> in
      let e := push_pub o e in
      let e := match cursor e with None => e <| cursor := Some o |> | Some _ => e end in
      let e := if hasStore cfg then queueLocked (outKey (m_ID m)) (OwnOut o) (PutNew (record f)) e else e in
      (e, inl o)
  end.

Definition Withdraw (o : flow) (e : Engine) : Engine * bool :=
  let f := get e o in
  if finished f || attempted f then (e, false)
  else (retireLocked o (finishLocked o (Some Canceled) (unlinkLocked o e)), true).

Definition Adopt (r : list Z) (s : option Z) (e : Engine) : Engine * bool :=
  match refs e !! r with
  | Some o => (modify o (fun f => f <| settle := s |>) e, true)
  | None =>
      match orphans e !! r with
      | None => (e, false)
      | Some o =>
          let e := modify o (fun f => f <| settle := s |>) e in
          (if settling (get e o) then modify o (fun f => f <| adopted := true |>) e else settleLocked o e, true)
      end
  end.

(** The handlers return whether the acknowledgement was a stray. *)
Definition HandlePuback (id rc : Z) (refused : option flow_error) (e : Engine) : Engine * bool :=
  match failure e, out e !! id with
  | Some _, _ => (e, false)
  | None, None => (e, true)
  | None, Some o =>
      let f := get e o in
      if negb (qos f =? 1) || negb (attempted f) then (e, true)
      else
        let e := unlinkLocked o e in
        let e := if bool_decide (is_Some refused) then modify o (fun f => f <| reason := rc |>) e else e in
        let e := finishLocked o refused e in
        let e := creditLocked o e in
        (retireLocked o e, false)
  end.

Definition HandlePubrec (id rc : Z) (refused : option flow_error) (e : Engine) : Engine * bool :=
  match failure e, out e !! id with
  | Some _, _ => (e, false)
  | None, None => (pushCtrlLocked PUBREL id ReasonPacketIdentifierNotFound false None e, false)
  | None, Some o =>
      let f := get e o in
      if negb (qos f =? 2) || negb (attempted f) then (e, true)
      else if phase f =? AwaitPubcomp then (pushCtrlLocked PUBREL id ReasonSuccess true None e, false)
      else if bool_decide (is_Some refused) then
        let e := unlinkLocked o e in
        let e := modify o (fun f => f <| reason := rc |>) e in
        let e := finishLocked o refused e in
        let e := creditLocked o e in
        (retireLocked o e, false)
      else
        let e := unlinkLocked o e in
        let e := modify o (fun f => f <| phase := AwaitPubcomp |> <| seq := nextSeq e |>) e in
        let e := e <| nextSeq ::= Z.succ |> in
        let e := push_rel o e in
        let e := pushCtrlLocked PUBREL id ReasonSuccess true None e in
        (putOutLocked o e, false)
  end.

Definition HandlePubcomp (id : Z) (e : Engine) : Engine * bool :=
  match failure e, out e !! id with
  | Some _, _ => (e, false)
  | None, None => (e, true)
  | None, Some o =>
      if negb (phase (get e o) =? AwaitPubcomp) then (e, true)
      else
        let e := unlinkLocked o e in
        let e := finishLocked o None e in
        let e := creditLocked o e in
        (retireLocked o e, false)
  end.

(** ** Inbound flows (inbound.go) *)

(** What [Receive] returns. *)
Inductive received : Type := Deliver (i : inflow) | Duplicate | ReceiveMaximumExceeded.

Definition Receive (id q : Z) (e : Engine) : Engine * received :=
  match failure e, inb e !! id with
  | Some _, _ => (e, Duplicate)
  | None, Some x =>
      if bool_decide (state (get_in e x) = inAwaitPubrel) && (q =? 2)
      then (pushCtrlLocked PUBREC id ReasonSuccess true None e, Duplicate) else (e, Duplicate)
  | None, None =>
      let limit := ReceiveMaximum cfg in
      if (0 <? limit) && (limit <=? Z.of_nat (size (inb e))) then (e, ReceiveMaximumExceeded)
      else
        let (i, e) := new_in (mkIn id q inDelivered false) e in
        (e <| inb ::= <[id := i]> |> <| fifo ::= fun l => l ++ [i] |>, Deliver i)
  end.

(** The loop of [ack] over the flows left in [fifo]. *)
Fixpoint ack_loop (l : list inflow) (e : Engine) : Engine :=
  match l with
  | [] => e <| fifo := [] |>
  | i :: l' =>
      let head := get_in e i in
      if decide (state head = inAcked) then
        if in_qos head =? 1
        then ack_loop l' (pushCtrlLocked PUBACK (in_id head) ReasonSuccess false (Some i) e)
        else
          let e := modify_in i (fun f => f <| state := inAwaitPubrel |>) e in
          let e := pushCtrlLocked PUBREC (in_id head) ReasonSuccess true None e in
          let e := if hasStore cfg then queueLocked (inKey (in_id head)) (OwnIn i) PutIn e else e in
          ack_loop l' e
      else e <| fifo := l |>
  end.

(** [ack] *)
Definition ack (i : inflow) (e : Engine) : Engine :=
  let x := get_in e i in
  if dead x || negb (bool_decide (state x = inDelivered)) then e
  else let e := modify_in i (fun f => f <| state := inAcked |>) e in ack_loop (fifo e) e.

Definition HandlePubrel (id : Z) (e : Engine) : Engine :=
  match failure e with
  | Some _ => e
  | None =>
      match inb e !! id with
      | Some i =>
          match state (get_in e i) with
          | inReleased => e
          | inAwaitPubrel =>
              let e := modify_in i (fun f => f <| state := inReleased |>) e in
              let e := pushCtrlLocked PUBCOMP id ReasonSuccess true (Some i) e in
              if hasStore cfg then queueLocked (inKey id) (OwnIn i) DeleteIn e else e
          | _ => pushCtrlLocked PUBCOMP id ReasonPacketIdentifierNotFound false None e
          end
      | None => pushCtrlLocked PUBCOMP id ReasonPacketIdentifierNotFound false None e
      end
  end.

(** ** Connections (engine.go) *)

Record Limits : Type := mkLimits { MaximumQoS : Z; RetainAvailable : bool; MaximumPacketSize : Z; Downgrade : bool }.

Record ConnInfo : Type := mkConnInfo {
  SessionPresent : bool;
  ci_ReceiveMaximum : Z;
  ci_Limits : option Limits;
  ci_Link : Z;
  HoldRepublished : bool;
}.

Definition resumeLocked (e : Engine) : Engine :=
  let e := e <| ctrl ::= filter (fun c => c_typ c <> PUBREL) |> in
  fold_left (fun e o => pushCtrlLocked PUBREL (o_id (get e o)) ReasonSuccess true None e) (rel e) e.

(** The order of [sortByPubSeq]. *)
Definition by_pubSeq (e : Engine) (a b : flow) : Prop := pubSeq (get e a) <= pubSeq (get e b).
#[export] Instance by_pubSeq_dec e : RelDecision (by_pubSeq e).
Proof. intros a b. unfold by_pubSeq. apply _. Defined.

Definition drainFlowsLocked (e : Engine) : list flow * Engine :=
  (merge_sort (by_pubSeq e) (pub e ++ rel e), e <| pub := [] |> <| rel := [] |>).

(** [wire.WithMessageExpiry], which returns a packet for any bytes. *)
Definition with_expiry (pk : list Z) (s : Z) : list Z :=
  match WithMessageExpiry pk s with Ok pk' => pk' | _ => pk end.

(** One inbound flow of a lost session. *)
Definition lose_in (e : Engine) (x : Z * inflow) : Engine :=
  let (id, i) := x in
  let e := modify_in i (fun f => f <| dead := true |>) e in
  if bool_decide (state (get_in e i) = inAwaitPubrel) && hasStore cfg
  then queueLocked (inKey id) (OwnIn i) DeleteIn e else e.

(** One outbound flow of a lost session. *)
Definition lose_flow (now : Z) (e : Engine) (o : flow) : Engine :=
  let f := get e o in
  let gone := match SessionLoss cfg with
              | Fail => Some ErrSessionLost
              | Republish => match expiresAt f with
                             | Some t => if t <=? now then Some ErrMessageExpired else None
                             | None => None
                             end
              end in
  match gone with
  | Some err => retireLocked o (finishLocked o (Some err) e)
  | None =>
      let e := modify o (fun f => f <| phase := AwaitFirst (qos f) |> <| seq := pubSeq f |> <| attempted := false |>) e in
      let e := match expiresAt f with
               | Some t => let left := secondsUntil t now in
                           modify o (fun f => f <| expiry := left |> <| packet := with_expiry (packet f) left |>) e
               | None => e
               end in
      putOutLocked o (push_pub o e)
  end.

Definition drop_inbound (e : Engine) : Engine := e <| inb := ∅ |> <| fifo := [] |> <| ctrl := [] |>.

Definition sessionLostLocked (now : Z) (e : Engine) : Engine :=
  let e := fold_left lose_in (map_to_list (inb e)) e in
  let e := drop_inbound e in
  let (flows, e) := drainFlowsLocked e in
  fold_left (lose_flow now) flows e.

(** One flow in [enforceLimitsLocked]. *)
Definition limit_flow (l : Limits) (fresh : bool) (e : Engine) (o : flow) : Engine :=
  let f := get e o in
  let fail err := retireLocked o (finishLocked o (Some err) (unlinkLocked o e)) in
  let first := hd 0 (packet f) in
  if negb fresh && attempted f then e
  else if (0 <? MaximumPacketSize l) && (MaximumPacketSize l <? u32 (len (packet f))) then fail ErrPacketTooLarge
  else if negb (Z.land first 0x01 =? 0) && negb (RetainAvailable l) then fail ErrRetainNotSupported
  else if (MaximumQoS l <? qos f) && Downgrade l && (MaximumQoS l =? 1) then
    putOutLocked o (modify o (fun f => f <| packet := Z.lor (Z.ldiff first 0x06) (Z.shiftl 1 1) :: tl (packet f) |>
                                         <| qos := 1 |> <| phase := AwaitPuback |>) e)
  else if MaximumQoS l <? qos f then fail ErrQoSNotSupported
  else e.

Definition enforceLimitsLocked (l : Limits) (fresh : bool) (e : Engine) : Engine :=
  fold_left (limit_flow l fresh) (pub e) e.

(** [Connected]: the generation and the sequence number that releases what
    is held, or the failure. *)
Definition Connected (ci : ConnInfo) (now : Z) (e : Engine) : Engine * ((Z * Z) + flow_error) :=
  match failure e with
  | Some err => (e, inr err)
  | None =>
      let e := e <| lastGen ::= Z.succ |> in
      let e := e <| gen := lastGen e |> <| link := Some (ci_Link ci) |> in
      let e := e <| quotaMax := (if ci_ReceiveMaximum ci =? 0 then 65535 else ci_ReceiveMaximum ci) |> in
      let e := e <| quota := quotaMax e |> in
      let e := fold_left (fun e x => modify (snd x) (fun f => f <| counted := false |>) e) (map_to_list (out e)) e in
      let e := if SessionPresent ci then resumeLocked e else sessionLostLocked now e in
      let e := match ci_Limits ci with
               | Some l => enforceLimitsLocked l (negb (SessionPresent ci)) e
               | None => e
               end in
      let e := e <| cursor := head (pub e) |> <| released := nextSeq e - 1 |> in
      if negb (SessionPresent ci) && HoldRepublished ci && bool_decide (pub e <> [])
      then (e <| released := 0 |>, inl (gen e, released e))
      else (e, inl (gen e, 0))
  end.

Definition Disconnected (l : Z) (e : Engine) : Engine :=
  if decide (link e = Some l) then e <| link := None |> <| gen := 0 |> else e.

(** ** Collecting packets *)

Definition readyLocked (e : Engine) (c : ctrlFrame) : bool :=
  if negb (c_gated c) then true
  else if c_typ c =? PUBREL then storedLocked e (outKey (c_id c)) else storedLocked e (inKey (c_id c)).

Definition servesLocked (g : Z) (e : Engine) : bool :=
  negb (g =? 0) && (g =? gen e) && bool_decide (failure e = None).

(** The loop of [collectControlLocked] over the frames left. *)
Fixpoint control_loop (l : list ctrlFrame) (e : Engine) : Engine * list item :=
  match l with
  | [] => (e <| ctrl := [] |>, [])
  | c :: l' =>
      if readyLocked e c then
        let e := if ((c_typ c =? PUBACK) || (c_typ c =? PUBCOMP)) && bool_decide (is_Some (c_in c))
                    && bool_decide (inb e !! c_id c = c_in c)
                 then e <| inb ::= delete (c_id c) |> else e in
        let (e, its) := control_loop l' e in (e, IAck (c_typ c) (c_id c) (c_rc c) :: its)
      else (e <| ctrl := l |>, [])
  end.
Definition collectControlLocked (e : Engine) : Engine * list item := control_loop (ctrl e) e.

Definition CollectControl (g : Z) (e : Engine) : Engine * list item :=
  if servesLocked g e then collectControlLocked e else (e, []).

Definition maxPublishesPerCollect : Z := 64.

(** The flows from the cursor on. *)
Fixpoint from_flow (o : flow) (l : list flow) : list flow :=
  match l with [] => [] | x :: l' => if decide (x = o) then l else from_flow o l' end.
Definition at_cursor (e : Engine) : list flow :=
  match cursor e with None => [] | Some o => from_flow o (pub e) end.

(** The loop of [Collect]: [l] is what is left of [pub] from the cursor on. *)
Fixpoint publish_loop (l : list flow) (sent now : Z) (e : Engine) : Engine * list item :=
  match l with
  | [] => (e, [])
  | o :: l =>
      let f := get e o in
      let send e :=
        let pk := packet (get e o) in
        let e := modify o (fun f => f <| attempted := true |> <| counted := true |>) e in
        let e := e <| quota ::= Z.pred |> in
        let e := e <| cursor := next_flow e o |> in
        let (e, its) := publish_loop l (sent + 1) now e in
        (e, IPublish pk (attempted f) :: its) in
      if negb (sent <? maxPublishesPerCollect) then (e, [])
      else if (released e <? seq f) || negb (storedLocked e (outKey (o_id f))) || (quota e =? 0) then (e, [])
      else match (if attempted f then None else expiresAt f) with
           | None => send e
           | Some t =>
               if t <=? now then
                 publish_loop l sent now (retireLocked o (finishLocked o (Some ErrMessageExpired) (unlinkLocked o e)))
               else
                 let left := secondsUntil t now in
                 if left <? expiry f then
                   let e := modify o (fun f => f <| expiry := left |> <| packet := with_expiry (packet f) left |>) e in
                   if hasStore cfg then (putOutLocked o e, []) else send e
                 else send e
           end
  end.

Definition Collect (g upTo now : Z) (e : Engine) : Engine * list item :=
  if servesLocked g e then
    let e := if released e <? upTo then e <| released := upTo |> else e in
    let (e, acks) := collectControlLocked e in
    let (e, pubs) := publish_loop (at_cursor e) 0 now e in
    (e, acks ++ pubs)
  else (e, []).

(** ** Failure, and the writes themselves (writes.go) *)

(** [failLocked], and the Settles that learn of it. *)
Definition failLocked (err : flow_error) (e : Engine) : Engine * list Z :=
  match failure e with
  | Some _ => (e, [])
  | None =>
      let e := e <| failure := Some err |> <| epoch ::= Z.succ |> in
      let e := fold_left (fun e x => modify_in (snd x) (fun f => f <| dead := true |>) e) (map_to_list (inb e)) e in
      let e := drop_inbound e in
      let (fl, e) := drainFlowsLocked e in
      let settles := omap (fun o => settle (get e o)) fl in
      let e := fold_left (fun e o => modify o (fun f => f <| finished := true |> <| o_err := Some err |>
                                                          <| closes ::= Z.succ |>) e) fl e in
      let waiting := omap (fun x => let f := get e (snd x) in
                                    if adopted f || (negb (settling f) && bool_decide (is_Some (settle f)))
                                    then settle f else None) (map_to_list (orphans e)) in
      (e <| out := ∅ |> <| refs := ∅ |> <| orphans := ∅ |> <| cursor := None |>, settles ++ waiting)
  end.

(** [job.op] *)
Definition op (w : work) : string :=
  match w with
  | PutNew _ | PutOut _ => "put outbound"
  | SettleDelete _ _ _ => "delete outbound"
  | PutIn => "put inbound"
  | DeleteIn => "delete inbound"
  end.

(** The [after] of [Register]'s write when the store refused it: the flow
    was never stored, and writes queued for it since never run. *)
Definition register_failed (o : flow) (e : Engine) : Engine :=
  let f := get e o in
  let e := cancelLocked (outKey (o_id f)) (OwnOut o) e in
  let e := unlinkLocked o e in
  let e := e <| out ::= delete (o_id f) |> in
  let e := if list_eqb (ref f) [] then e
           else
             let e := e <| refs ::= delete (ref f) |> in
             if decide (orphans e !! ref f = Some o) then e <| orphans ::= delete (ref f) |> else e in
  let e := modify o (fun f => f <| finished := true |>) e in
  releaseLocked (o_id f) IDs.OwnerPublish e.

(** [job.after], or the rule for jobs without one: the error that fails the
    session. *)
Definition after (j : job) (r : do_result) (e : Engine) : Engine * option flow_error :=
  match j_work j, j_owner j with
  | PutNew _, OwnOut o =>
      match r with
      | DoOk => (e, None)
      | _ => (register_failed o e, None)
      end
  | SettleDelete _ _ _, OwnOut o =>
      let e := modify o (fun f => f <| settling := false |>) e in
      match r with
      | StoreFailed => (e, Some (StoreError (op (j_work j))))
      | _ =>
          let failed := match r with SettleFailed => true | _ => false end in
          let e := if failed then completeLocked o e else e in
          if adopted (get e o) then (settleLocked o (modify o (fun f => f <| adopted := false |>) e), None)
          else if failed then (modify o (fun f => f <| settle := None |>) e, None)
          else
            let f := get e o in
            let e := if negb (list_eqb (ref f) []) && bool_decide (orphans e !! ref f = Some o)
                     then e <| orphans ::= delete (ref f) |> else e in
            (releaseLocked (o_id f) IDs.OwnerPublish e, None)
      end
  | _, _ => match r with DoOk => (e, None) | _ => (e, Some (StoreError (op (j_work j)))) end
  end.

(** The first critical section of [run] after [do] has returned for the job
    at the head of a queue. [None]: there is no such job. *)
Definition finish_head (k : RecordKey) (e : Engine) : option (Engine * list Z) :=
  match queue e k with
  | mkJob w ow ep (Some r) :: _ =>
      let (e, fail) := (if ep =? epoch e then after (mkJob w ow ep (Some r)) r e else (e, None)) in
      let e := pop_head k e in
      match fail with
      | Some err => Some (failLocked err e)
      | None => Some (e, [])
      end
  | _ => None
  end.

(** How the world answers a job: whether the producer's Settle fails, and
    whether the store's medium does, before or after the write took place. *)
Inductive medium : Type := MediumOk | MediumFails (written : bool).
#[export] Instance medium_eq_dec : EqDecision medium.
Proof. solve_decision. Defined.
Record answer : Type := mkAnswer { settle_ok : bool; a_medium : medium }.

(** A call of the store: the contract's answer, unless the medium fails. *)
Definition store_do (m : medium) (c : store_call) (a : contents) : contents * bool :=
  match m with
  | MediumOk => let (a', err) := contract a c in (a', bool_decide (err = None))
  | MediumFails written => ((if written then fst (contract a c) else a), false)
  end.

(** [do]: the store's new contents, the result and the Settle it called. *)
Definition do_work (w : work) (k : RecordKey) (ans : answer) (a : contents) : contents * do_result * list Z :=
  let call c := let (a, ok) := store_do (a_medium ans) c a in (a, if (ok : bool) then DoOk else StoreFailed) in
  match w with
  | PutNew r | PutOut r => (call (SPut r), [])
  | PutIn => (call (SPut (mkRecord k 0 0 0 2 AwaitPubrel [] None [])), [])
  | DeleteIn => (call (SDelete k), [])
  | SettleDelete s oc rf =>
      let told := match s with Some x => [x] | None => [] end in
      if bool_decide (is_Some s) && negb (settle_ok ans) && negb (list_eqb rf []) then (a, SettleFailed, told)
      else if hasStore cfg then (call (SDelete k), told)
      else (a, DoOk, told)
  end.

(** [j.do] of the job at the head of a queue. *)
Definition perform_head (k : RecordKey) (ans : answer) (e : Engine) (a : contents)
    : option (Engine * contents * list Z) :=
  match queue e k with
  | mkJob w ow ep None :: q =>
      let '(a, r, told) := do_work w k ans a in
      Some (e <| queues ::= <[k := mkJob w ow ep (Some r) :: q]> |>, a, told)
  | _ => None
  end.

(** ** Meta, Discard and Restore (engine.go) *)

(** [SetMeta]; the store's call runs between its two critical sections. *)
Definition SetMeta (m : Meta) (ans : medium) (e : Engine) (a : contents) : Engine * contents * list Z :=
  match failure e with
  | Some _ => (e, a, [])
  | None =>
      if bool_decide (ClientID (e_meta e) = ClientID m) && (SessionExpiry (e_meta e) =? SessionExpiry m) then (e, a, [])
      else if negb (hasStore cfg) then (e <| e_meta := m |>, a, [])
      else
        let (a, ok) := store_do ans (SSetMeta m) a in
        if (ok : bool) then (e <| e_meta := m |>, a, [])
        else let (e, told) := failLocked (StoreError "set meta") e in (e, a, told)
  end.

(** [Discard] once the running writes are drained; [false] when the reset
    failed and nothing was dropped. *)
Definition Discard (ans : medium) (e : Engine) (a : contents) : Engine * contents * list Z * bool :=
  let (a, ok) := (if hasStore cfg then store_do ans SReset a else (a, true)) in
  if (ok : bool) then
    let e := fold_left (fun e x => modify_in (snd x) (fun f => f <| dead := true |>) e) (map_to_list (inb e)) e in
    let e := drop_inbound e in
    let (fl, e) := drainFlowsLocked e in
    let settles := omap (fun o => settle (get e o)) fl in
    let e := fold_left (fun e o => releaseLocked (o_id (get e o)) IDs.OwnerPublish
                                     (finishLocked o (Some ErrSessionLost) e)) fl e in
    let waiting := omap (fun x => settle (get e (snd x))) (map_to_list (orphans e)) in
    let e := fold_left (fun e x => releaseLocked (o_id (get e (snd x))) IDs.OwnerPublish e
                                     <| orphans ::= delete (fst x) |>) (map_to_list (orphans e)) e in
    (e <| cursor := None |> <| e_meta := zeroMeta |>, a, settles ++ waiting, true)
  else (e, a, [], false).

(** One record in [Restore]: the engine, and the AwaitPubcomp flows so far. *)
Definition restore_record (x : Engine * list flow) (r : SRecord) : Engine * list flow :=
  let (e, rl) := x in
  let id := PacketID (Key r) in
  let dir := Dir (Key r) in
  if negb (Phase_Valid (Phase r) dir) || (negb (QoS r =? 1) && negb (QoS r =? 2)) then (e, rl)
  else if (dir =? Outbound) && (Phase r =? Completed) then
    let f := mkOut id (QoS r) (Phase r) (Seq r) (Seq r) [] (ExpiresAt r) 0 false false true false false 0 (Outcome r) (Ref r)
               None 0 None in
    match decodeOutcome f with
    | None => (e, rl)
    | Some f =>
        if list_eqb (Ref r) [] then (e, rl)
        else
          let (ok, t) := IDs.claim (ids e) id IDs.OwnerPublish in
          if (ok : bool) then
            let (o, e) := new_flow (f <| closes ::= Z.succ |>) (e <| ids := t |>) in
            (e <| orphans ::= <[Ref r := o]> |> <| nextSeq ::= fun n => Z.max n (Seq r + 1) |>, rl)
          else (e, rl)
    end
  else if dir =? Outbound then
    if len (PacketBytes r) =? 0 then (e, rl)
    else
      let (ok, t) := IDs.claim (ids e) id IDs.OwnerPublish in
      if (ok : bool) then
        let sq := if Phase r =? AwaitPubcomp then PubrecSeq r else Seq r in
        let f := mkOut id (QoS r) (Phase r) sq (Seq r) (PacketBytes r) (ExpiresAt r) 0 true false false false false 0 0 (Ref r)
                   None 0 None in
        let (o, e) := new_flow f (e <| ids := t |>) in
        let e := e <| out ::= <[id := o]> |> in
        let e := if list_eqb (Ref r) [] then e else e <| refs ::= <[Ref r := o]> |> in
        let '(e, rl) := (if Phase r =? AwaitPubcomp then (e, rl ++ [o]) else (push_pub o e, rl)) in
        (e <| nextSeq ::= fun n => Z.max (Z.max n (Seq r + 1)) (PubrecSeq r + 1) |>, rl)
      else (e, rl)
  else
    let (i, e) := new_in (mkIn id 2 inAwaitPubrel false) e in
    (e <| inb ::= <[id := i]> |>, rl).

Definition by_seq (e : Engine) (a b : flow) : Prop := seq (get e a) <= seq (get e b).
#[export] Instance by_seq_dec e : RelDecision (by_seq e).
Proof. intros a b. unfold by_seq. apply _. Defined.

(** [Restore] once the running writes are drained, with what [Load] gave.
    [None]: "Restore over a live session". *)
Definition Restore (m : Meta) (recs : list SRecord) (e : Engine) : option Engine :=
  if bool_decide (out e = ∅) && bool_decide (inb e = ∅) then
    let e := e <| failure := None |> <| ids ::= fun t => IDs.newIDTable (IDs.max t) |> <| orphans := ∅ |> <| e_meta := m |> in
    let (e, rl) := fold_left restore_record recs (e, []) in
    Some (fold_left (fun e o => push_rel o e) (merge_sort (by_seq e) rl) e)
  else None.

End engine.

End Inflight.
