(* ===== verification/Machine.v ===== *)
(** * Machine: the session engine among its callers, store and broker

    The engine of [Inflight] as a transition system: any interleaving of
    its critical sections, of the store writes it queued, of acknowledgements
    from a broker that may send anything, of lost connections, failing
    stores and restarts of the process. *)

From stdpp Require Import gmap sorting.
From S2P Require Import Prelude GoLib Errors Batch IdTable Session Inflight.

Module Machine.
Import Inflight.

(** The engine, what the store holds, and the packet identifiers callers
    got from [AllocateID(OwnerPublish)] and have not yet passed on. *)
Record World : Type := mkWorld { eng : Engine; disk : contents; held : gset Z }.

#[export] Instance World_rebuild : Rebuild World := fun w => mkWorld (eng w) (disk w) (held w).

Definition start : World := mkWorld New (Some (zeroMeta, ∅)) ∅.

Inductive event : Type :=
| EvAllocate (ow : IDs.Owner)
| EvRelease (id : Z) (ow : IDs.Owner)
| EvRegister (m : Message) (now : Z)
| EvWithdraw (o : flow)
| EvAdopt (r : list Z) (s : option Z)
| EvPuback (id rc : Z) (refused : option flow_error)
| EvPubrec (id rc : Z) (refused : option flow_error)
| EvPubcomp (id : Z)
| EvReceive (id q : Z)
| EvAck (i : inflow)
| EvPubrel (id : Z)
| EvConnected (ci : ConnInfo) (now : Z)
| EvDisconnected (l : Z)
| EvCollect (g upTo now : Z)
| EvCollectControl (g : Z)
| EvPerform (k : RecordKey) (ans : answer)
| EvFinish (k : RecordKey)
| EvSetMeta (m : Meta) (ans : medium)
| EvDiscard (ans : medium)
| EvRestore
| EvRestart.

(** What the environment sees. *)
Inductive output : Type :=
| Sent (i : item)             (* a packet handed to the connection's writer *)
| Delivered (i : inflow)      (* an inbound message handed to the application *)
| Told (s : Z).               (* a producer's Settle called *)

(** What [Load] returns for the store's contents. *)
Definition load (cfg : Config) (a : contents) : option (Meta * list SRecord) :=
  if hasStore cfg then
    match a with
    | Some (m, rs) => Some (m, merge_sort record_le (map snd (map_to_list rs)))
    | None => None
    end
  else Some (zeroMeta, []).

(** One step; [None] when the event cannot happen. The conditions are the
    rules callers follow: a message is a QoS 1 or 2 PUBLISH and its
    identifier comes from [AllocateID]; identifiers are released by whoever
    got them; handles are ones the engine gave out; [Restore] follows a
    failure, and it and [Discard] run between connections, once the writes
    in progress are drained, while nobody holds an identifier allocated
    before.  A [Reset] that fails has not taken effect, as in a store with
    transactions. *)
Definition step (cfg : Config) (ev : event) (w : World) : option (World * list output) :=
  let e := eng w in
  let keep e := Some (w <| eng := e |>, []) in
  let sends (x : Engine * list item) := Some (w <| eng := fst x |>, map Sent (snd x)) in
  let drained := bool_decide (size (queues e) = 0%nat) && (gen e =? 0) in
  match ev with
  | EvAllocate ow =>
      match IDs.AllocateID (ids e) ow with
      | IDs.Allocated id t =>
          if decide (ow = IDs.OwnerNone) then None
          else Some (w <| eng := e <| ids := t |> |>
                       <| held := (if decide (ow = IDs.OwnerPublish) then {[id]} ∪ held w else held w) |>, [])
      | _ => None
      end
  | EvRelease id ow =>
      if decide (ow = IDs.OwnerNone \/ (ow = IDs.OwnerPublish /\ id ∉ held w)) then None
      else Some (w <| eng := Inflight.releaseLocked id ow e |>
                   <| held := (if decide (ow = IDs.OwnerPublish) then held w ∖ {[id]} else held w) |>, [])
  | EvRegister m now =>
      if decide (m_ID m ∈ held w /\ (m_QoS m = 1 \/ m_QoS m = 2) /\ m_Packet m <> [])
      then Some (w <| eng := fst (Register cfg m now e) |> <| held ::= fun h => h ∖ {[m_ID m]} |>, [])
      else None
  | EvWithdraw o => if decide (is_Some (flows e !! o)) then keep (fst (Withdraw cfg o e)) else None
  | EvAdopt r s => keep (fst (Adopt r s e))
  | EvPuback id rc refused => keep (fst (HandlePuback cfg id rc refused e))
  | EvPubrec id rc refused => keep (fst (HandlePubrec cfg id rc refused e))
  | EvPubcomp id => keep (fst (HandlePubcomp cfg id e))
  | EvReceive id q =>
      if decide (1 <= id <= 65535 /\ (q = 1 \/ q = 2)) then
        let (e, r) := Receive cfg id q e in
        Some (w <| eng := e |>, match r with Deliver i => [Delivered i] | _ => [] end)
      else None
  | EvAck i => if decide (is_Some (ins e !! i)) then keep (ack cfg i e) else None
  | EvPubrel id => keep (HandlePubrel cfg id e)
  | EvConnected ci now => if decide (0 <= ci_ReceiveMaximum ci) then keep (fst (Connected cfg ci now e)) else None
  | EvDisconnected l => keep (Disconnected l e)
  | EvCollect g upTo now => sends (Collect cfg g upTo now e)
  | EvCollectControl g => sends (CollectControl g e)
  | EvPerform k ans =>
      match perform_head cfg k ans e (disk w) with
      | Some (e, a, told) => Some (w <| eng := e |> <| disk := a |>, map Told told)
      | None => None
      end
  | EvFinish k =>
      match finish_head cfg k e with
      | Some (e, told) => Some (w <| eng := e |>, map Told told)
      | None => None
      end
  | EvSetMeta m ans =>
      let '(e, a, told) := SetMeta cfg m ans e (disk w) in
      Some (w <| eng := e |> <| disk := a |>, map Told told)
  | EvDiscard ans =>
      if drained && bool_decide (ans <> MediumFails true) then
        let '(e, a, told, _) := Discard cfg ans e (disk w) in
        Some (w <| eng := e |> <| disk := a |>, map Told told)
      else None
  | EvRestore =>
      match failure e, load cfg (disk w) with
      | Some _, Some (m, recs) =>
          if drained then
            match Restore m recs e with
            | Some e => Some (w <| eng := e |> <| held := ∅ |>, [])
            | None => None
            end
          else None
      | _, _ => None
      end
  | EvRestart =>
      match load cfg (disk w) with
      | Some (m, recs) =>
          match Restore m recs New with
          | Some e => Some (w <| eng := e |> <| held := ∅ |>, [])
          | None => None
          end
      | None => None
      end
  end.

(** A sequence of events, and what it shows. *)
Fixpoint run (cfg : Config) (evs : list event) (w : World) : option (World * list output) :=
  match evs with
  | [] => Some (w, [])
  | ev :: evs =>
      match step cfg ev w with
      | None => None
      | Some (w, outs) =>
          match run cfg evs w with
          | None => None
          | Some (w, outs') => Some (w, outs ++ outs')
          end
      end
  end.

Inductive reachable (cfg : Config) : World -> Prop :=
| reach_start : reachable cfg start
| reach_step w ev w' outs : reachable cfg w -> step cfg ev w = Some (w', outs) -> reachable cfg w'.

Lemma run_reachable cfg evs w w' outs : reachable cfg w -> run cfg evs w = Some (w', outs) -> reachable cfg w'.
Proof.
  revert w outs. induction evs as [|ev evs IH]; intros w outs Hr; cbn [run]; [by intros [= <- _]|].
  destruct (step cfg ev w) as [[w1 o1]|] eqn:E; [|done]. destruct (run cfg evs w1) as [[w2 o2]|] eqn:E2; [|done].
  intros [= <- _]. by apply (IH w1 o2); [apply (reach_step cfg w ev w1 o1)|].
Qed.

End Machine.
