(* ===== verification/EngineInv.v ===== *)
(** * EngineInv: the invariant of the session engine

    What holds in every reachable state of [Machine]: which flow is in
    which list, in which order, who owns each packet identifier, which
    store writes are queued for it, and how much of the send quota is
    used.  The invariant carries a list [D] of unfinished flows that are in
    neither list for the moment, so that it also holds half-way through an
    operation. *)

From stdpp Require Import gmap sorting list_tactics.
From S2P Require Import Prelude GoLib Errors Batch IdTable Session Inflight Machine.

Module EngineInv.
Import Inflight Machine.

(** Reduces projections of updated records. *)
Ltac es := cbn [update flows nextOut ins nextIn ids out pub rel nextSeq cursor released quota quotaMax inb fifo ctrl link gen
                lastGen e_meta refs orphans queues epoch failure] in *.
Ltac fs := cbn [update o_id qos phase seq pubSeq packet expiresAt expiry attempted counted finished settling adopted reason
                outcome ref settle closes o_err] in *.

(** Reads the fields of [e'] that are those of [e] from [e]. *)
Ltac frame e' e :=
  try change (flows e') with (flows e); try change (nextOut e') with (nextOut e); try change (ids e') with (ids e);
  try change (out e') with (out e); try change (pub e') with (pub e); try change (rel e') with (rel e);
  try change (nextSeq e') with (nextSeq e); try change (quota e') with (quota e); try change (quotaMax e') with (quotaMax e);
  try change (orphans e') with (orphans e); try change (queue e') with (queue e); try change (epoch e') with (epoch e);
  try change (failure e') with (failure e).

(** ** Statement *)

(** [o] is why packet identifier [id] is in use: an unfinished flow, a
    finished one whose outcome is not recorded, or one with queued writes. *)
Definition holds (e : Engine) (o : flow) (id : Z) : Prop :=
  exists f, flows e !! o = Some f /\ o_id f = id
    /\ (out e !! id = Some o \/ orphans e !! ref f = Some o \/ exists j, j ∈ queue e (outKey id) /\ j_owner j = OwnOut o).

Definition is_settle (w : work) : Prop := match w with SettleDelete _ _ _ => True | _ => False end.

(** The phase fits the QoS, the packet is there, [done] is open; sequence
    numbers are below the next one. *)
Record flow_wf (n : Z) (f : Out) : Prop := {
  wf_phase : (qos f = 1 /\ phase f = AwaitPuback) \/ (qos f = 2 /\ (phase f = AwaitPubrec \/ phase f = AwaitPubcomp));
  wf_packet : packet f <> [];
  wf_closes : closes f = 0;
  wf_seq : seq f < n /\ pubSeq f < n;
  wf_pub : phase f <> AwaitPubcomp -> seq f = pubSeq f;
}.

(** A record of the outbound flow with identifier [id]: its phase fits its
    QoS and it has the packet, or it ended; fields of other phases are
    zero. *)
Record rec_fits (id : Z) (r : SRecord) : Prop := {
  rf_key : Key r = outKey id;
  rf_id : 1 <= id <= 65535;
  rf_phase : Phase r = Completed
    \/ PacketBytes r <> [] /\ ((QoS r = 1 /\ Phase r = AwaitPuback) \/ (QoS r = 2 /\ (Phase r = AwaitPubrec \/ Phase r = AwaitPubcomp)));
  rf_pubrec : Phase r = AwaitPubcomp \/ PubrecSeq r = 0;
  rf_outcome : Phase r = Completed \/ Outcome r = 0;
}.

(** What a write in the queue of flow [f] may be. *)
Definition job_fits (cfg : Config) (f : Out) (w : work) : Prop :=
  match w with
  | PutNew r | PutOut r => hasStore cfg = true /\ rec_fits (o_id f) r
  | SettleDelete _ _ _ => settling f = true /\ finished f = true
  | _ => False
  end.

(** The flows among [l] whose PUBLISH holds a unit of the send quota. *)
Definition cnt (e : Engine) (l : list flow) : Z := len (filter (fun o => counted (get e o) = true) l).

Lemma cnt_app e l k : cnt e (l ++ k) = cnt e l + cnt e k.
Proof. unfold cnt. by rewrite filter_app, len_app. Qed.

Lemma cnt_cons e o l : cnt e (o :: l) = (if counted (get e o) then 1 else 0) + cnt e l.
Proof. unfold cnt. rewrite filter_cons. destruct (counted (get e o)); [by rewrite decide_True, len_cons|by rewrite decide_False]. Qed.

Lemma cnt_nonneg e l : 0 <= cnt e l.
Proof. apply len_nonneg. Qed.

#[export] Instance cnt_perm e : Proper ((≡ₚ) ==> eq) (cnt e).
Proof. intros l k P. unfold cnt, len. by rewrite P. Qed.

Lemma cnt_ext e e' l : (forall o, o ∈ l -> counted (get e o) = counted (get e' o)) -> cnt e l = cnt e' l.
Proof.
  induction l as [|o l IH]; intros H; [done|]. rewrite !cnt_cons, IH by (intros; apply H; by right).
  by rewrite (H o) by (by left).
Qed.

(** A flow that lost its unit only makes the count smaller. *)
Lemma cnt_le e e' l : (forall o, o ∈ l -> counted (get e' o) = true -> counted (get e o) = true) -> cnt e' l <= cnt e l.
Proof.
  induction l as [|o l IH]; intros H; [done|]. rewrite !cnt_cons. assert (cnt e' l <= cnt e l) by (apply IH; intros; apply H; [by right|done]).
  specialize (H o ltac:(by left)). destruct (counted (get e' o)), (counted (get e o)); lia || by specialize (H eq_refl).
Qed.

Record Inv (cfg : Config) (D : list flow) (h : gset Z) (e : Engine) : Prop := {
  inv_ids : IDs.table_ok (ids e);
  inv_max : IDs.max (ids e) = 65535;
  inv_heap o f : flows e !! o = Some f ->
    (o < nextOut e)%nat /\ (finished f = false -> out e !! o_id f = Some o)
    /\ (closes f = 0 \/ closes f = 1 /\ finished f = true);
  inv_out id o : out e !! id = Some o ->
    exists f, flows e !! o = Some f /\ o_id f = id /\ finished f = false /\ flow_wf (nextSeq e) f;
  inv_nodup : NoDup (pub e ++ rel e ++ D);
  inv_mem o : o ∈ pub e ++ rel e ++ D <-> exists id, out e !! id = Some o;
  inv_pub : StronglySorted (by_seq e) (pub e) /\ Forall (fun o => phase (get e o) <> AwaitPubcomp) (pub e);
  inv_rel : StronglySorted (by_seq e) (rel e) /\ Forall (fun o => phase (get e o) = AwaitPubcomp) (rel e);
  inv_quota : 0 <= quota e /\ quota e + cnt e (pub e ++ rel e ++ D) <= quotaMax e;
  inv_held id : id ∈ h -> IDs.owner_of (ids e) id = IDs.OwnerPublish /\ forall o, ~ holds e o id;
  inv_owner o id : holds e o id -> IDs.owner_of (ids e) id = IDs.OwnerPublish;
  inv_excl o o' id : holds e o id -> holds e o' id -> o = o';
  inv_orphan r o : orphans e !! r = Some o -> exists f, flows e !! o = Some f /\ ref f = r /\ finished f = true /\ r <> [];
  inv_jobs id j : j ∈ queue e (outKey id) ->
    exists o f, j_owner j = OwnOut o /\ flows e !! o = Some f /\ o_id f = id /\ job_fits cfg f (j_work j);
  inv_last id q1 j q2 : queue e (outKey id) = q1 ++ j :: q2 -> is_settle (j_work j) -> q2 = [];
  inv_epoch id j : j ∈ queue e (outKey id) -> j_epoch j <= epoch e /\ (failure e = None <-> j_epoch j = epoch e);
  inv_failed : failure e <> None -> out e = ∅ /\ orphans e = ∅;
}.

(** ** Reading the invariant *)

Lemma get_lookup e o f : flows e !! o = Some f -> get e o = f.
Proof. unfold get. by intros ->. Qed.

Lemma outKey_inj a b : outKey a = outKey b -> a = b.
Proof. by intros [= ->]. Qed.

Lemma outKey_not_inKey a b : outKey a <> inKey b.
Proof. discriminate. Qed.

Section reading.
Context {cfg : Config} {D : list flow} {h : gset Z} {e : Engine}.
Hypothesis I : Inv cfg D h e.

(** A flow in a list or detached is unfinished. *)
Lemma member_live o :
  o ∈ pub e ++ rel e ++ D ->
  exists f, flows e !! o = Some f /\ out e !! o_id f = Some o /\ finished f = false /\ flow_wf (nextSeq e) f.
Proof.
  intros Hin. apply (inv_mem _ _ _ _ I) in Hin as [id Hid]. destruct (inv_out _ _ _ _ I id o Hid) as (f & Hf & <- & Hfin & Hwf).
  by exists f.
Qed.

Lemma live_holds o f : flows e !! o = Some f -> out e !! o_id f = Some o -> holds e o (o_id f).
Proof. intros Hf Ho. exists f. auto. Qed.

Lemma live_unfinished o f : flows e !! o = Some f -> out e !! o_id f = Some o -> finished f = false /\ flow_wf (nextSeq e) f.
Proof. intros Hf Ho. destruct (inv_out _ _ _ _ I _ _ Ho) as (f' & Hf' & _ & ? & ?). rewrite Hf in Hf'. by injection Hf' as <-. Qed.

Lemma live_member o f : flows e !! o = Some f -> finished f = false -> o ∈ pub e ++ rel e ++ D.
Proof. intros Hf Hn. apply (inv_mem _ _ _ _ I). exists (o_id f). by apply (inv_heap _ _ _ _ I o f Hf). Qed.

(** The writes queued for an unfinished flow are its own and store its
    record. *)
Lemma live_jobs o f j :
  flows e !! o = Some f -> out e !! o_id f = Some o -> j ∈ queue e (outKey (o_id f)) ->
  j_owner j = OwnOut o /\ ~ is_settle (j_work j) /\ hasStore cfg = true.
Proof.
  intros Hf Ho Hj. destruct (inv_jobs _ _ _ _ I _ j Hj) as (o' & f' & Hown & Hf' & Hid & Hfit).
  assert (o' = o) as ->.
  { apply (inv_excl _ _ _ _ I o' o (o_id f)); [|by apply live_holds].
    exists f'. split; [done|]. split; [done|]. right; right. by exists j. }
  rewrite Hf in Hf'. injection Hf' as <-. split; [done|]. destruct (live_unfinished o f Hf Ho) as [Hn _].
  destruct (j_work j); cbn in *; destruct Hfit; first [by split; [intros []|] | congruence].
Qed.

(** Without a store an unfinished flow has no queued writes. *)
Lemma live_queue_nil o f : flows e !! o = Some f -> out e !! o_id f = Some o -> hasStore cfg = false -> queue e (outKey (o_id f)) = [].
Proof.
  intros Hf Ho Hs. destruct (queue e (outKey (o_id f))) as [|j q] eqn:E; [done|].
  destruct (live_jobs o f j Hf Ho) as (_ & _ & ?); [rewrite E; by left|congruence].
Qed.
End reading.

(** ** Changes that do not concern outbound flows *)

(** [e'] has the outbound state of [e]. *)
Definition same_view (e e' : Engine) : Prop :=
  flows e' = flows e /\ nextOut e' = nextOut e /\ ids e' = ids e /\ out e' = out e /\ pub e' = pub e /\ rel e' = rel e
  /\ nextSeq e' = nextSeq e /\ quota e' = quota e /\ quotaMax e' = quotaMax e /\ orphans e' = orphans e
  /\ epoch e' = epoch e /\ failure e' = failure e /\ forall id, queue e' (outKey id) = queue e (outKey id).

#[export] Instance same_view_equiv : Equivalence same_view.
Proof.
  split.
  - intros e. by repeat split.
  - intros e e' H. unfold same_view in *. destruct_and! H. split_and!; congruence.
  - intros e e' e2 H H'. unfold same_view in *. destruct_and! H. destruct_and! H'. split_and!; congruence.
Qed.

Lemma Inv_view cfg D h e e' : same_view e e' -> Inv cfg D h e -> Inv cfg D h e'.
Proof.
  intros (Hf & Hn & Hi & Ho & Hp & Hr & Hs & Hq & Hm & Hor & He & Hfa & HQ) I.
  assert (Hh : forall o id, holds e' o id <-> holds e o id).
  { intros o id. unfold holds. rewrite Hf, Ho, Hor, HQ. done. }
  assert (Hg : forall o, get e' o = get e o) by (intros o; unfold get; by rewrite Hf).
  assert (Hc : forall l, cnt e' l = cnt e l).
  { intros l. unfold cnt. f_equal. apply list_filter_iff. intros o. by rewrite Hg. }
  assert (Hb : by_seq e' = by_seq e) by (unfold by_seq, get; by rewrite Hf).
  destruct I. split; rewrite ?Hf, ?Hn, ?Hi, ?Ho, ?Hp, ?Hr, ?Hs, ?Hq, ?Hm, ?Hor, ?He, ?Hfa, ?Hb, ?Hc; try done.
  - split; [apply inv_pub0|]. eapply Forall_impl; [apply inv_pub0|]. intros o. by rewrite Hg.
  - split; [apply inv_rel0|]. eapply Forall_impl; [apply inv_rel0|]. intros o. by rewrite Hg.
  - intros id Hid. destruct (inv_held0 id Hid) as [? Hno]. split; [done|]. intros o. rewrite Hh. apply Hno.
  - intros o id. rewrite Hh. apply inv_owner0.
  - intros o o' id. rewrite !Hh. apply inv_excl0.
  - intros id j. rewrite HQ. apply inv_jobs0.
  - intros id q1 j q2. rewrite HQ. apply inv_last0.
  - intros id j. rewrite HQ. apply inv_epoch0.
Qed.

Lemma Inv_perm cfg D D' h e : D ≡ₚ D' -> Inv cfg D h e -> Inv cfg D' h e.
Proof.
  intros P []. assert (PP : pub e ++ rel e ++ D ≡ₚ pub e ++ rel e ++ D') by (by rewrite P).
  split; try done.
  - by rewrite <- PP.
  - intros o. by rewrite <- PP.
  - by rewrite <- PP.
Qed.

Lemma Inv_held_sub cfg D h h' e : h' ⊆ h -> Inv cfg D h e -> Inv cfg D h' e.
Proof. intros Hs []. split; try done. intros id Hid. by apply inv_held0, Hs. Qed.

Lemma minus_sub (h : gset Z) id : h ∖ {[id]} ⊆ h.
Proof. by apply subseteq_difference_l. Qed.

Lemma minus_notin (h : gset Z) id : id ∉ h ∖ {[id]}.
Proof. intros [_ H]%elem_of_difference. by apply H, elem_of_singleton. Qed.

(** ** Lists *)

Lemma remove_flow_notin o l : o ∉ l -> remove_flow o l = l.
Proof.
  intros H. unfold remove_flow. induction l as [|x l IH]; [done|]. apply not_elem_of_cons in H as [Hx Hl].
  rewrite filter_cons_True by congruence. by rewrite IH.
Qed.

Lemma remove_flow_perm o l : NoDup l -> o ∈ l -> o :: remove_flow o l ≡ₚ l.
Proof.
  intros Hn Hin. induction l as [|x l IH]; [by apply elem_of_nil in Hin|]. apply NoDup_cons in Hn as [Hx Hn].
  destruct (decide (x = o)) as [->|Hne].
  - unfold remove_flow. rewrite filter_cons_False by (by intros []). fold (remove_flow o l). by rewrite remove_flow_notin.
  - unfold remove_flow. rewrite filter_cons_True by done. fold (remove_flow o l).
    apply elem_of_cons in Hin as [->|Hin]; [done|]. rewrite Permutation_swap. by rewrite IH.
Qed.

Lemma elem_detached (x o : flow) A B D : x ∈ A ++ B ++ o :: D <-> x = o \/ x ∈ A ++ B ++ D.
Proof. rewrite !elem_of_app, elem_of_cons. tauto. Qed.

Lemma elem_first (x : flow) A B D : x ∈ A -> x ∈ A ++ B ++ D.
Proof. rewrite !elem_of_app. tauto. Qed.

Lemma elem_second (x : flow) A B D : x ∈ B -> x ∈ A ++ B ++ D.
Proof. rewrite !elem_of_app. tauto. Qed.

Lemma elem_of_remove o x l : x ∈ remove_flow o l <-> x ∈ l /\ x <> o.
Proof. unfold remove_flow. rewrite list_elem_of_filter. tauto. Qed.

Lemma StronglySorted_snoc {A} (R : A -> A -> Prop) l x :
  StronglySorted R l -> Forall (fun y => R y x) l -> StronglySorted R (l ++ [x]).
Proof.
  induction 1 as [|y l Hs IH Hy]; intros HF; cbn; [by repeat constructor|]. apply Forall_cons in HF as [Hyx HF].
  constructor; [auto|]. apply Forall_app. by split; [|constructor].
Qed.

(** Sequence numbers of the members are all that the order depends on. *)
Lemma sorted_ext e e' l :
  (forall o, o ∈ l -> seq (get e' o) = seq (get e o)) -> StronglySorted (by_seq e) l -> StronglySorted (by_seq e') l.
Proof.
  intros H. induction 1 as [|x l Hs IH Hx]; constructor.
  - apply IH. intros o Ho. apply H. by right.
  - apply Forall_forall. intros y Hy. apply (proj1 (Forall_forall _ _) Hx) in Hy as Hxy. unfold by_seq in *.
    rewrite !H by (by constructor). done.
Qed.

Lemma Forall_phase_ext (P : Z -> Prop) e e' l :
  (forall o, o ∈ l -> P (phase (get e o)) -> P (phase (get e' o))) -> Forall (fun o => P (phase (get e o))) l ->
  Forall (fun o => P (phase (get e' o))) l.
Proof. intros H HF. apply Forall_forall. intros o Ho. apply H; [done|]. by apply (proj1 (Forall_forall _ _) HF). Qed.

(** ** Holders *)

(** A change that adds no flow to any of the three places makes no new
    holders. *)
Lemma holds_mono e e' o id :
  (forall o f', flows e' !! o = Some f' -> exists f, flows e !! o = Some f /\ o_id f = o_id f' /\ ref f = ref f') ->
  out e' ⊆ out e -> orphans e' ⊆ orphans e ->
  (forall j, j ∈ queue e' (outKey id) -> j ∈ queue e (outKey id)) ->
  holds e' o id -> holds e o id.
Proof.
  intros Hf Ho Hr Hq (f' & Hf' & Hid & H). destruct (Hf o f' Hf') as (f & Hfe & Hide & Href). exists f.
  split; [done|]. split; [congruence|]. destruct H as [H|[H|(j & Hj & H)]].
  - left. by apply (lookup_weaken _ _ _ _ H).
  - right; left. rewrite Href. by apply (lookup_weaken _ _ _ _ H).
  - right; right. exists j. auto.
Qed.

(** Packet identifier [id] is in use and nothing but [o] uses it. *)
Definition own (h : gset Z) (e : Engine) (o : flow) (id : Z) : Prop :=
  IDs.owner_of (ids e) id = IDs.OwnerPublish /\ (id ∉ h) /\ forall o', holds e o' id -> o' = o.

Lemma live_own cfg D h e o f : Inv cfg D h e -> flows e !! o = Some f -> out e !! o_id f = Some o -> own h e o (o_id f).
Proof.
  intros I Hf Ho. pose proof (live_holds o f Hf Ho) as Hh. split; [by apply (inv_owner _ _ _ _ I o)|].
  split; [|intros o' Ho'; by apply (inv_excl _ _ _ _ I o' o (o_id f))].
  intros Hin. by apply (inv_held _ _ _ _ I _ Hin) in Hh.
Qed.

(** No Settle is queued for [id]. *)
Definition no_settle (e : Engine) (id : Z) : Prop := forall j, j ∈ queue e (outKey id) -> ~ is_settle (j_work j).

(** ** Steps the operations are made of *)

Lemma get_modify o g e x :
  get (modify o g e) x = (if decide (x = o /\ is_Some (flows e !! o)) then g (get e o) else get e x).
Proof.
  unfold get, modify. es. destruct (decide (x = o)) as [->|Hne].
  - rewrite lookup_alter_eq. destruct (flows e !! o) as [f|]; cbn; [by rewrite decide_True|].
    rewrite decide_False; [done|]. by intros [_ []].
  - rewrite lookup_alter_ne by done. rewrite decide_False; [done|]. tauto.
Qed.

Lemma get_modify_ne o g e x : x <> o -> get (modify o g e) x = get e x.
Proof. intros. rewrite get_modify. rewrite decide_False; [done|tauto]. Qed.

Lemma get_modify_eq o g e f : flows e !! o = Some f -> get (modify o g e) o = g f.
Proof. intros Hf. rewrite get_modify, decide_True by eauto. by rewrite (get_lookup _ _ _ Hf). Qed.

Section steps.
Context {cfg : Config}.
Implicit Types (D : list flow) (h : gset Z) (e : Engine) (o : flow).

(** A flow changes without changing hands. *)
Lemma Inv_modify_quota D h e o f g :
  Inv cfg D h e -> flows e !! o = Some f ->
  o_id (g f) = o_id f -> ref (g f) = ref f -> finished (g f) = finished f -> closes (g f) = closes f ->
  (settling f = true -> settling (g f) = true \/ no_settle e (o_id f)) ->
  (finished f = false -> flow_wf (nextSeq e) (g f)) ->
  (o ∈ pub e ++ rel e -> seq (g f) = seq f /\ (phase (g f) = AwaitPubcomp <-> phase f = AwaitPubcomp)) ->
  (quota e + cnt (modify o g e) (pub e ++ rel e ++ D) <= quotaMax e) ->
  Inv cfg D h (modify o g e).
Proof.
  intros I Hf Hid Href Hfin Hcl Hset Hwf Hpos Hq.
  assert (Hl : forall x fx', flows (modify o g e) !! x = Some fx' ->
             exists fx, flows e !! x = Some fx /\ o_id fx = o_id fx' /\ ref fx = ref fx' /\ finished fx = finished fx'
               /\ closes fx = closes fx' /\ (settling fx = true -> settling fx' = true \/ no_settle e (o_id fx))
               /\ (finished fx = false -> flow_wf (nextSeq e) fx -> flow_wf (nextSeq e) fx')).
  { intros x fx'. unfold modify. es. destruct (decide (x = o)) as [->|Hne].
    - rewrite lookup_alter_eq, Hf. cbn. intros [= <-]. exists f. split_and!; auto.
    - rewrite lookup_alter_ne by done. intros Hx. exists fx'. split_and!; auto. }
  assert (Hu : forall x fx, flows e !! x = Some fx -> exists fx', flows (modify o g e) !! x = Some fx').
  { intros x fx Hx. unfold modify. es. destruct (decide (x = o)) as [->|Hne].
    - rewrite lookup_alter_eq, Hx. cbn. eauto.
    - rewrite lookup_alter_ne by done. eauto. }
  assert (Hh : forall x id, holds (modify o g e) x id -> holds e x id).
  { intros x id. apply holds_mono; [|done|done|done]. intros x' fx' Hx'. destruct (Hl x' fx' Hx') as (fx & ? & ? & ? & _). eauto. }
  assert (Hg : forall x, x ∈ pub e ++ rel e -> seq (get (modify o g e) x) = seq (get e x)
             /\ (phase (get (modify o g e) x) = AwaitPubcomp <-> phase (get e x) = AwaitPubcomp)).
  { intros x Hx. rewrite get_modify. case_decide as E; [|done]. destruct E as [-> _]. rewrite (get_lookup _ _ _ Hf). auto. }
  destruct I. split; frame (modify o g e) e; try done.
  - intros x fx' Hx'. destruct (Hl x fx' Hx') as (fx & Hx & Eid & _ & Efin & Ecl & _). rewrite <- Eid, <- Efin, <- Ecl.
    by apply inv_heap0.
  - intros id x Hx. destruct (inv_out0 id x Hx) as (fx & Hfx & Eid & Efin & Ewf). destruct (Hu x fx Hfx) as [fx' Hfx'].
    destruct (Hl x fx' Hfx') as (fx2 & Hfx2 & E1 & _ & E2 & _ & _ & E3). rewrite Hfx in Hfx2. injection Hfx2 as <-.
    exists fx'. split; [done|]. split; [congruence|]. split; [congruence|]. by apply E3.
  - split.
    + apply (sorted_ext e); [|apply inv_pub0]. intros x Hx. apply Hg, elem_of_app. by left.
    + apply (Forall_phase_ext (fun p => p <> AwaitPubcomp) e); [|apply inv_pub0]. intros x Hx Hp Hp'.
      apply Hp. apply (Hg x); [apply elem_of_app; by left|done].
  - split.
    + apply (sorted_ext e); [|apply inv_rel0]. intros x Hx. apply Hg, elem_of_app. by right.
    + apply (Forall_phase_ext (fun p => p = AwaitPubcomp) e); [|apply inv_rel0]. intros x Hx Hp.
      apply (Hg x); [apply elem_of_app; by right|done].
  - split; [apply inv_quota0|done].
  - intros id Hid'. destruct (inv_held0 id Hid') as [? Hno]. split; [done|]. intros x Hx. by apply (Hno x), Hh.
  - intros x id Hx. by apply (inv_owner0 x), Hh.
  - intros x x' id Hx Hx'. apply (inv_excl0 x x' id); by apply Hh.
  - intros r x Hx. destruct (inv_orphan0 r x Hx) as (fx & Hfx & Er & Ef & Hr). destruct (Hu x fx Hfx) as [fx' Hfx'].
    destruct (Hl x fx' Hfx') as (fx2 & Hfx2 & _ & E1 & E2 & _). rewrite Hfx in Hfx2. injection Hfx2 as <-.
    exists fx'. split; [done|]. split_and!; congruence.
  - intros id j Hj. destruct (inv_jobs0 id j Hj) as (x & fx & Hown & Hfx & Eid & Hfit). destruct (Hu x fx Hfx) as [fx' Hfx'].
    destruct (Hl x fx' Hfx') as (fx2 & Hfx2 & E1 & _ & E2 & _ & E3 & _). rewrite Hfx in Hfx2. injection Hfx2 as <-.
    exists x, fx'. split; [done|]. split; [done|]. split; [congruence|]. destruct (j_work j) eqn:Ew; cbn in *; try (first [by rewrite E1|by rewrite <- E1|done]).
    destruct (E3 (proj1 Hfit)) as [?|Hns]; [split; [done|]; rewrite <- E2; apply Hfit|].
    exfalso. rewrite Eid in Hns. apply (Hns j Hj). by rewrite Ew.
Qed.

Lemma Inv_modify D h e o f g :
  Inv cfg D h e -> flows e !! o = Some f ->
  o_id (g f) = o_id f -> ref (g f) = ref f -> finished (g f) = finished f -> closes (g f) = closes f ->
  (settling f = true -> settling (g f) = true) ->
  (finished f = false -> flow_wf (nextSeq e) (g f)) ->
  (o ∈ pub e ++ rel e -> seq (g f) = seq f /\ (phase (g f) = AwaitPubcomp <-> phase f = AwaitPubcomp)) ->
  (counted (g f) = true -> counted f = true) ->
  Inv cfg D h (modify o g e).
Proof.
  intros I Hf H1 H2 H3 H4 H5 H6 H7 Hcnt. apply (Inv_modify_quota D h e o f g I Hf); try done; [by left; auto|].
  destruct (inv_quota _ _ _ _ I) as [_ Hq].
  assert (cnt (modify o g e) (pub e ++ rel e ++ D) <= cnt e (pub e ++ rel e ++ D)); [|lia].
  apply cnt_le. intros x _. rewrite get_modify. case_decide as E; [|done]. destruct E as [-> _]. by rewrite (get_lookup _ _ _ Hf).
Qed.

Lemma unlink_eq o e : exists c, unlinkLocked o e = e <| cursor := c |> <| pub ::= remove_flow o |> <| rel ::= remove_flow o |>.
Proof. unfold unlinkLocked. destruct (decide _); eexists; [done|]. instantiate (1 := cursor e). by destruct e. Qed.

(** [unlinkLocked] takes a flow off its list. *)
Lemma Inv_detach D h e o : Inv cfg D h e -> o ∈ pub e ++ rel e -> Inv cfg (o :: D) h (unlinkLocked o e).
Proof.
  intros I Ho. destruct (unlink_eq o e) as [c ->]. set (e' := _ <| rel ::= _ |>).
  assert (Hnd : NoDup (pub e ++ rel e)).
  { apply (sublist_NoDup _ (pub e ++ rel e ++ D)); [apply I|]. rewrite app_assoc. apply sublist_inserts_r. reflexivity. }
  assert (P : pub e' ++ rel e' ++ o :: D ≡ₚ pub e ++ rel e ++ D).
  { change (pub e') with (remove_flow o (pub e)). change (rel e') with (remove_flow o (rel e)).
    rewrite !app_assoc, <- Permutation_middle, app_comm_cons. apply Permutation_app_tail.
    rewrite <- (remove_flow_perm o (pub e ++ rel e) Hnd Ho). unfold remove_flow. by rewrite filter_app. }
  destruct I. split; frame e' e; try done.
  - by rewrite P.
  - intros x. by rewrite P.
  - split; [apply (StronglySorted_filter (by_seq e)), inv_pub0|]. apply Forall_forall. intros x [Hx _]%elem_of_remove.
    by apply (proj1 (Forall_forall _ _) (proj2 inv_pub0)).
  - split; [apply (StronglySorted_filter (by_seq e)), inv_rel0|]. apply Forall_forall. intros x [Hx _]%elem_of_remove.
    by apply (proj1 (Forall_forall _ _) (proj2 inv_rel0)).
  - rewrite P. apply inv_quota0.
Qed.

(** A flow in neither list is left where it is. *)
Lemma unlink_notin o e : o ∉ pub e ++ rel e -> same_view e (unlinkLocked o e).
Proof.
  intros Ho. destruct (unlink_eq o e) as [c ->]. apply not_elem_of_app in Ho as [Hp Hr].
  unfold same_view. es. by rewrite !remove_flow_notin.
Qed.

(** A detached flow goes back into [pub] as its last. *)
Lemma Inv_push_pub D h e o f :
  Inv cfg (o :: D) h e -> flows e !! o = Some f -> phase f <> AwaitPubcomp ->
  Forall (fun x => seq (get e x) <= seq f) (pub e) -> Inv cfg D h (push_pub o e).
Proof.
  intros I Hf Hph Hle. set (e' := push_pub o e). destruct I.
  assert (P : pub e' ++ rel e ++ D ≡ₚ pub e ++ rel e ++ o :: D).
  { change (pub e') with (pub e ++ [o]). solve_Permutation. }
  split; frame e' e; try done.
  - by rewrite P.
  - intros x. by rewrite P.
  - change (pub e') with (pub e ++ [o]). change (get e') with (get e). change (by_seq e') with (by_seq e). split.
    + apply StronglySorted_snoc; [apply inv_pub0|]. eapply Forall_impl; [exact Hle|]. intros x Hx. unfold by_seq.
      by rewrite (get_lookup e o f).
    + apply Forall_app. split; [apply inv_pub0|]. constructor; [|constructor]. by rewrite (get_lookup e o f).
  - change (cnt e') with (cnt e). change (quota e') with (quota e). change (quotaMax e') with (quotaMax e). rewrite P. done.
Qed.

(** It goes into [rel] as its last. *)
Lemma Inv_push_rel D h e o f :
  Inv cfg (o :: D) h e -> flows e !! o = Some f -> phase f = AwaitPubcomp ->
  Forall (fun x => seq (get e x) <= seq f) (rel e) -> Inv cfg D h (push_rel o e).
Proof.
  intros I Hf Hph Hle. set (e' := push_rel o e). destruct I.
  assert (P : pub e ++ rel e' ++ D ≡ₚ pub e ++ rel e ++ o :: D).
  { change (rel e') with (rel e ++ [o]). solve_Permutation. }
  split; frame e' e; try done.
  - by rewrite P.
  - intros x. by rewrite P.
  - change (rel e') with (rel e ++ [o]). change (get e') with (get e). change (by_seq e') with (by_seq e). split.
    + apply StronglySorted_snoc; [apply inv_rel0|]. eapply Forall_impl; [exact Hle|]. intros x Hx. unfold by_seq.
      by rewrite (get_lookup e o f).
    + apply Forall_app. split; [apply inv_rel0|]. constructor; [|constructor]. by rewrite (get_lookup e o f).
  - change (cnt e') with (cnt e). change (quota e') with (quota e). change (quotaMax e') with (quotaMax e). rewrite P. done.
Qed.

(** Counters move up. *)
Lemma flow_wf_mono n n' f : n <= n' -> flow_wf n f -> flow_wf n' f.
Proof. intros Hn []. split; try done. lia. Qed.

Lemma Inv_nextSeq D h e g : (forall n, n <= g n) -> Inv cfg D h e -> Inv cfg D h (e <| nextSeq ::= g |>).
Proof.
  intros Hn I. set (e' := e <| nextSeq ::= g |>). destruct I. split; frame e' e; try done.
  intros id o Ho. destruct (inv_out0 id o Ho) as (f & ? & ? & ? & Hwf). exists f. split_and!; try done.
  apply (flow_wf_mono (nextSeq e)); [apply Hn|done].
Qed.

(** [finishLocked] ends a detached flow: it is no longer unfinished, and the
    unit of quota it may hold is free. *)
Lemma finish_eq o err e :
  exists rs, finishLocked o err e
    = modify o (fun f => f <| finished := true |> <| o_err := err |> <| closes ::= Z.succ |>)
        (e <| out ::= delete (o_id (get e o)) |> <| refs := rs |>).
Proof. unfold finishLocked. cbn zeta. destruct (list_eqb _ _); eexists; [|done]. instantiate (1 := refs e). by destruct e. Qed.

Lemma Inv_finish_gen D h e o f g rs :
  Inv cfg (o :: D) h e -> flows e !! o = Some f ->
  o_id (g f) = o_id f -> ref (g f) = ref f -> finished (g f) = true -> settling (g f) = settling f ->
  (closes (g f) = 0 \/ closes (g f) = 1) ->
  let e' := modify o g (e <| out ::= delete (o_id f) |> <| refs := rs |>) in
  Inv cfg D h e' /\ own h e' o (o_id f) /\ flows e' !! o = Some (g f)
  /\ (quota e' + (if counted f then 1 else 0) + cnt e' (pub e' ++ rel e' ++ D) <= quotaMax e')
  /\ queue e' = queue e /\ failure e' = failure e.
Proof.
  intros I Hf Gid Gref Gfin Gset Gcl. set (e' := modify o g _). cbn zeta.
  assert (Hdet : o ∉ pub e ++ rel e ++ D).
  { pose proof (inv_nodup _ _ _ _ I) as Hnd. rewrite !app_assoc, <- Permutation_middle in Hnd. by apply NoDup_cons in Hnd as [? _]; rewrite app_assoc. }
  destruct (member_live I o) as (f2 & Hf2 & Hout & Hfin & Hwf); [apply elem_detached; by left|]. rewrite Hf in Hf2. injection Hf2 as <-.
  pose proof (live_own _ _ _ _ o f I Hf Hout) as Hown.
  assert (Hfl : flows e' = alter g o (flows e)) by reflexivity.
  assert (Hout' : out e' = delete (o_id f) (out e)) by reflexivity.
  assert (Hg : forall x, x <> o -> get e' x = get e x).
  { intros x Hx. unfold get. rewrite Hfl. by rewrite lookup_alter_ne. }
  assert (Hmem : forall x, x ∈ pub e ++ rel e ++ D -> x <> o) by (intros x Hx ->; done).
  assert (Hh : forall x id, holds e' x id -> holds e x id).
  { intros x id. apply holds_mono; [|rewrite Hout'; apply delete_subseteq|done|done].
    intros x' fx'. rewrite Hfl. destruct (decide (x' = o)) as [->|Hne]; [|rewrite lookup_alter_ne by done; eauto].
    rewrite lookup_alter_eq, Hf. cbn. intros [= <-]. exists f. split; [done|]. by rewrite Gid, Gref. }
  assert (Ho' : flows e' !! o = Some (g f)) by (rewrite Hfl, lookup_alter_eq, Hf; done).
  split; [|split; [|split; [done|split]]]; cycle 1.
  - destruct Hown as (Hown & Hh' & Hex). split; [done|]. split; [done|]. intros x Hx. by apply Hex, Hh.
  - destruct (inv_quota _ _ _ _ I) as [_ Hq]. change (quota e') with (quota e). change (quotaMax e') with (quotaMax e).
    change (pub e') with (pub e). change (rel e') with (rel e).
    rewrite !app_assoc, <- Permutation_middle, cnt_cons, (get_lookup e o f Hf) in Hq.
    rewrite (cnt_ext e' e), app_assoc; [lia|]. intros x Hx. by rewrite Hg by (by apply Hmem).
  - done.
  - destruct I. split; frame e' e; rewrite ?Hout'; try done.
    + intros x fx'. rewrite Hfl. destruct (decide (x = o)) as [->|Hne].
      * rewrite lookup_alter_eq, Hf. cbn. intros [= <-]. destruct (inv_heap0 o f Hf) as (? & _ & _). split; [done|].
        split; [congruence|]. tauto.
      * rewrite lookup_alter_ne by done. intros Hx. destruct (inv_heap0 x fx' Hx) as (? & Hxo & ?). split; [done|].
        split; [|done]. intros Hn. specialize (Hxo Hn). rewrite lookup_delete_ne; [done|]. intros E. rewrite <- E in Hxo. congruence.
    + intros id x. rewrite lookup_delete_Some. intros [Hne Hx]. destruct (inv_out0 id x Hx) as (fx & Hfx & Eid & Hr).
      exists fx. rewrite Hfl, lookup_alter_ne; [done|]. intros ->. rewrite Hf in Hfx. injection Hfx as <-. done.
    + rewrite !app_assoc, <- Permutation_middle in inv_nodup0. apply NoDup_cons in inv_nodup0 as [_ ?]. by rewrite app_assoc.
    + intros x. split.
      * intros Hx. destruct (proj1 (inv_mem0 x)) as [id Hid]; [apply elem_detached; by right|]. exists id. rewrite lookup_delete_ne; [done|].
        intros <-. rewrite Hout in Hid. injection Hid as ->. done.
      * intros [id [Hne Hid]%lookup_delete_Some]. assert (Hx : x ∈ pub e ++ rel e ++ o :: D) by (apply inv_mem0; eauto).
        apply elem_detached in Hx as [->|?]; [|done]. destruct (inv_out0 id o Hid) as (f2 & Hf2 & Eid & _). congruence.
    + split; [apply (sorted_ext e); [|apply inv_pub0]|apply (Forall_phase_ext (fun p => p <> AwaitPubcomp) e); [|apply inv_pub0]];
        intros x Hx; rewrite Hg by (by apply Hmem, elem_first); done.
    + split; [apply (sorted_ext e); [|apply inv_rel0]|apply (Forall_phase_ext (fun p => p = AwaitPubcomp) e); [|apply inv_rel0]];
        intros x Hx; rewrite Hg by (by apply Hmem, elem_second); done.
    + destruct inv_quota0 as [? Hq]. split; [done|].
      rewrite !app_assoc, <- Permutation_middle, cnt_cons in Hq. rewrite (cnt_ext e' e), app_assoc.
      * destruct (counted (get e o)); lia.
      * intros x Hx. by rewrite Hg by (by apply Hmem).
    + intros id Hid. destruct (inv_held0 id Hid) as [? Hno]. split; [done|]. intros x Hx. by apply (Hno x), Hh.
    + intros x id Hx. by apply (inv_owner0 x), Hh.
    + intros x x' id Hx Hx'. apply (inv_excl0 x x' id); by apply Hh.
    + intros r x Hx. destruct (inv_orphan0 r x Hx) as (fx & Hfx & Er & Ef & Hr). exists fx.
      rewrite Hfl, lookup_alter_ne; [done|]. intros ->. congruence.
    + intros id j Hj. destruct (inv_jobs0 id j Hj) as (x & fx & Hox & Hfx & Eid & Hfit). destruct (decide (x = o)) as [->|Hne].
      * rewrite Hf in Hfx. injection Hfx as <-. exists o, (g f). split_and!; try done; [congruence|]. destruct (j_work j); cbn in *; rewrite ?Gid, ?Gset; tauto.
      * exists x, fx. rewrite Hfl, lookup_alter_ne by done. done.
    + intros Hfa. destruct (inv_failed0 Hfa) as [-> ->]. by rewrite delete_empty.
Qed.

Lemma Inv_finish D h e o f err :
  Inv cfg (o :: D) h e -> flows e !! o = Some f ->
  let e' := finishLocked o err e in
  Inv cfg D h e' /\ own h e' o (o_id f)
  /\ flows e' !! o = Some (f <| finished := true |> <| o_err := err |> <| closes ::= Z.succ |>)
  /\ (quota e' + (if counted f then 1 else 0) + cnt e' (pub e' ++ rel e' ++ D) <= quotaMax e')
  /\ queue e' = queue e /\ failure e' = failure e.
Proof.
  intros I Hf. destruct (finish_eq o err e) as [rs ->]. rewrite (get_lookup e o f Hf).
  apply (Inv_finish_gen D h e o f (fun f => f <| finished := true |> <| o_err := err |> <| closes ::= Z.succ |>)); try done.
  destruct (member_live I o) as (f2 & Hf2 & _ & _ & Hwf); [apply elem_detached; by left|]. rewrite Hf in Hf2. injection Hf2 as <-.
  right. fs. by rewrite (wf_closes _ _ Hwf).
Qed.

(** A unit of quota goes back; the flow no longer counts. *)
Lemma Inv_credit D h e o f :
  Inv cfg D h e -> flows e !! o = Some f -> finished f = true ->
  (quota e + (if counted f then 1 else 0) + cnt e (pub e ++ rel e ++ D) <= quotaMax e) -> Inv cfg D h (creditLocked o e).
Proof.
  intros I Hf Hfin Hq. unfold creditLocked. rewrite (get_lookup e o f Hf). destruct (counted f); [|done].
  assert (I' : Inv cfg D h (e <| quota ::= Z.succ |>)).
  { set (e' := e <| quota ::= Z.succ |>). destruct I. split; frame e' e; try done.
    change (quota e') with (Z.succ (quota e)). change (cnt e') with (cnt e). lia. }
  apply (Inv_modify _ _ _ o f _ I'); try done.
  - congruence.
Qed.

(** An identifier nobody uses is freed. *)
Lemma owner_of_release t id i :
  IDs.table_ok t -> i <> id -> IDs.owner_of (snd (IDs.releaseLocked t id IDs.OwnerPublish)) i = IDs.owner_of t i.
Proof.
  intros Hok Hne. rewrite IDs.releaseLocked_spec by done. case_decide; [|done]. cbn [snd]. unfold IDs.owner_of.
  cbn [IDs.owner]. by rewrite lookup_delete_ne.
Qed.

Lemma max_release id ow e : IDs.max (ids (releaseLocked id ow e)) = IDs.max (ids e).
Proof. unfold releaseLocked, IDs.releaseLocked. es. by case_match. Qed.

Lemma Inv_release D h e id :
  Inv cfg D h e -> (id ∉ h) -> (forall o, ~ holds e o id) -> Inv cfg D h (releaseLocked id IDs.OwnerPublish e).
Proof.
  intros I Hh Hno. set (e' := releaseLocked id IDs.OwnerPublish e). pose proof I as I0. destruct I.
  assert (Hown : forall i, i <> id -> IDs.owner_of (ids e') i = IDs.owner_of (ids e) i)
    by (intros i Hi; by apply owner_of_release).
  assert (Hold : forall o i, holds e' o i <-> holds e o i) by done.
  split; frame e' e; try done.
  - by apply IDs.releaseLocked_ok.
  - etransitivity; [apply max_release|done].
  - intros i Hi. destruct (inv_held0 i Hi). rewrite Hown by (intros ->; done). done.
  - intros o i Ho. rewrite Hown; [by apply (inv_owner0 o)|]. intros ->. by apply (Hno o).
Qed.

Lemma queue_queueLocked k ow w e k' :
  queue (queueLocked k ow w e) k' = (if decide (k' = k) then queue e k ++ [mkJob w ow (epoch e) None] else queue e k').
Proof.
  unfold queue at 1, queueLocked. es. destruct (decide (k' = k)) as [->|Hne].
  - by rewrite lookup_insert_eq.
  - by rewrite lookup_insert_ne by congruence.
Qed.

(** A write is queued for the flow that uses the identifier. *)
Lemma Inv_enqueue D h e o f w :
  Inv cfg D h e -> flows e !! o = Some f -> own h e o (o_id f) -> job_fits cfg f w -> no_settle e (o_id f) ->
  failure e = None -> Inv cfg D h (queueLocked (outKey (o_id f)) (OwnOut o) w e).
Proof.
  intros I Hf (Hown & Hnh & Hex) Hfit Hns Hnf. set (e' := queueLocked _ _ w e).
  assert (HQ : forall i, queue e' (outKey i) = (if decide (i = o_id f)
                                                then queue e (outKey (o_id f)) ++ [mkJob w (OwnOut o) (epoch e) None]
                                                else queue e (outKey i))).
  { intros i. unfold e'. rewrite queue_queueLocked. destruct (decide (i = o_id f)) as [->|Hne]; [by rewrite decide_True|].
    rewrite decide_False; [done|]. by intros E%outKey_inj. }
  assert (Hin : forall i j, j ∈ queue e' (outKey i) ->
             j ∈ queue e (outKey i) \/ (i = o_id f /\ j = mkJob w (OwnOut o) (epoch e) None)).
  { intros i j. rewrite HQ. destruct (decide (i = o_id f)) as [->|]; [|by left].
    rewrite elem_of_app, list_elem_of_singleton. intros [?| ->]; auto. }
  assert (Hh : forall x i, holds e' x i -> holds e x i \/ (x = o /\ i = o_id f)).
  { intros x i (fx & Hfx & Hi & [H|[H|(j & Hj & H)]]).
    - left. exists fx. auto.
    - left. exists fx. auto.
    - destruct (Hin i j Hj) as [Hj'|[-> ->]].
      + left. exists fx. split; [done|]. split; [done|]. right; right. eauto.
      + right. cbn in H. by injection H as <-. }
  destruct I. split; frame e' e; try done.
  - intros i Hi. destruct (inv_held0 i Hi) as [? Hno]. split; [done|]. intros x [Hx|[-> ->]]%Hh; [by apply (Hno x)|done].
  - intros x i [Hx|[-> ->]]%Hh; [by apply (inv_owner0 x)|done].
  - intros x x' i [Hx|[-> ->]]%Hh [Hx'|[-> E]]%Hh; subst; [by apply (inv_excl0 x x' i)|by apply Hex|symmetry; by apply Hex|done].
  - intros i j [Hj|[-> ->]]%Hin; [by apply (inv_jobs0 i j)|]. exists o, f. by split_and!.
  - intros i q1 j q2. rewrite HQ. destruct (decide (i = o_id f)) as [->|]; [|apply inv_last0]. intros E Hs.
    destruct q2 as [|j2 q2 _] using rev_ind; [done|]. exfalso. rewrite app_comm_cons, app_assoc in E.
    apply app_inj_tail in E as [E _]. apply (Hns j); [|done]. rewrite E. apply elem_of_app. right. by left.
  - intros i j [Hj|[-> ->]]%Hin; [by apply (inv_epoch0 i j)|]. done.
Qed.

(** A finished flow becomes an orphan. *)
Lemma Inv_orphan D h e o f :
  Inv cfg D h e -> flows e !! o = Some f -> finished f = true -> ref f <> [] -> own h e o (o_id f) -> failure e = None ->
  Inv cfg D h (e <| orphans ::= <[ref f := o]> |>) /\ own h (e <| orphans ::= <[ref f := o]> |>) o (o_id f).
Proof.
  intros I Hf Hfin Href (Hown & Hnh & Hex) Hnf. set (e' := e <| orphans ::= _ |>).
  assert (Hh : forall x i, holds e' x i -> holds e x i \/ (x = o /\ i = o_id f)).
  { intros x i (fx & Hfx & Hi & [H|[H|H]]).
    - left. exists fx. auto.
    - change (orphans e') with (<[ref f := o]> (orphans e)) in H. apply lookup_insert_Some in H as [[_ <-]|[_ H]].
      + right. change (flows e') with (flows e) in Hfx. rewrite Hf in Hfx. by injection Hfx as <-.
      + left. exists fx. auto.
    - left. exists fx. auto. }
  split.
  - destruct I. split; frame e' e; try done.
    + intros i Hi. destruct (inv_held0 i Hi) as [? Hno]. split; [done|]. intros x [Hx|[-> ->]]%Hh; [by apply (Hno x)|done].
    + intros x i [Hx|[-> ->]]%Hh; [by apply (inv_owner0 x)|done].
    + intros x x' i [Hx|[-> ->]]%Hh [Hx'|[-> E]]%Hh; subst; [by apply (inv_excl0 x x' i)|by apply Hex|symmetry; by apply Hex|done].
    + change (orphans e') with (<[ref f := o]> (orphans e)). intros r x [[<- <-]|[_ Hx]]%lookup_insert_Some; [by exists f|].
      by apply inv_orphan0.
  - split; [done|]. split; [done|]. intros x [Hx|[-> _]]%Hh; [by apply Hex|done].
Qed.

Lemma flows_modify o g e f : flows e !! o = Some f -> flows (modify o g e) !! o = Some (g f).
Proof. intros Hf. unfold modify. es. by rewrite lookup_alter_eq, Hf. Qed.

Lemma own_modify h e o g f x id :
  flows e !! o = Some f -> o_id (g f) = o_id f -> ref (g f) = ref f -> own h e x id -> own h (modify o g e) x id.
Proof.
  intros Hf Hid Href (Hown & Hnh & Hex). split; [done|]. split; [done|]. intros y Hy. apply Hex.
  apply (holds_mono e (modify o g e)); [|done..|done]. intros z fz. unfold modify. es.
  destruct (decide (z = o)) as [->|Hne]; [rewrite lookup_alter_eq, Hf; cbn; intros [= <-]; eauto|].
  rewrite lookup_alter_ne by done. eauto.
Qed.

Lemma finished_notin D h e o f : Inv cfg D h e -> flows e !! o = Some f -> finished f = true -> o ∉ pub e ++ rel e ++ D.
Proof.
  intros I Hf Hfin Hin. destruct (member_live I o Hin) as (f' & Hf' & _ & Hn & _). rewrite Hf in Hf'. injection Hf' as <-. congruence.
Qed.

Lemma Inv_settleLocked D h e o f :
  Inv cfg D h e -> flows e !! o = Some f -> finished f = true -> own h e o (o_id f) -> no_settle e (o_id f) ->
  failure e = None -> Inv cfg D h (settleLocked o e).
Proof.
  intros I Hf Hfin Hown Hns Hnf. unfold settleLocked. set (g := fun f : Out => f <| settling := true |>).
  pose proof (finished_notin _ _ _ _ _ I Hf Hfin) as Hnin. rewrite app_assoc in Hnin. apply not_elem_of_app in Hnin as [Hnin _].
  assert (I' : Inv cfg D h (modify o g e)) by (apply (Inv_modify _ _ _ o f g I); done || (unfold g; fs; congruence)).
  rewrite (get_modify_eq o g e f Hf). apply (Inv_enqueue D h (modify o g e) o (g f)); try done.
  - by apply flows_modify.
  - by apply (own_modify h e o g f).
Qed.

Lemma owner_range D h e id : Inv cfg D h e -> IDs.owner_of (ids e) id = IDs.OwnerPublish -> 1 <= id <= 65535.
Proof.
  intros I. destruct (inv_ids _ _ _ _ I) as [Hm _ Hr _]. unfold IDs.owner_of. destruct (IDs.owner (ids e) !! id) eqn:E; [|done].
  apply Hr in E as [? _]. lia.
Qed.

Lemma record_fits f :
  1 <= o_id f <= 65535 -> phase f = Completed \/ (exists n, flow_wf n f) -> rec_fits (o_id f) (record f).
Proof.
  intros Hid [Hph|(n & [Hph Hpk _ _ _])]; unfold record.
  - rewrite Hph. cbn. split; cbn; auto.
  - destruct Hph as [[Eq Ep]|[Eq [Ep|Ep]]]; rewrite Ep; cbn; split; cbn; auto 7.
Qed.

Lemma Inv_putOut D h e o f :
  Inv cfg D h e -> flows e !! o = Some f -> own h e o (o_id f) -> no_settle e (o_id f) ->
  failure e = None -> phase f = Completed \/ (exists n, flow_wf n f) -> Inv cfg D h (putOutLocked cfg o e).
Proof.
  intros I Hf Hown Hns Hnf Hph. unfold putOutLocked. destruct (hasStore cfg) eqn:Hs; [|done]. rewrite (get_lookup e o f Hf).
  apply Inv_enqueue; try done. split; [done|]. apply record_fits; [|done]. by apply (owner_range D h e), Hown.
Qed.

Lemma Inv_complete D h e o f :
  Inv cfg D h e -> flows e !! o = Some f -> finished f = true -> own h e o (o_id f) -> no_settle e (o_id f) ->
  failure e = None -> Inv cfg D h (completeLocked cfg o e).
Proof.
  intros I Hf Hfin Hown Hns Hnf. unfold completeLocked. rewrite (get_lookup e o f Hf). destruct (_ || _); [done|].
  destruct (encodeOutcome f) as [oc|]; [|done]. set (g := fun f : Out => f <| phase := Completed |> <| outcome := oc |>).
  pose proof (finished_notin _ _ _ _ _ I Hf Hfin) as Hnin. rewrite app_assoc in Hnin. apply not_elem_of_app in Hnin as [Hnin _].
  assert (I' : Inv cfg D h (modify o g e)) by (apply (Inv_modify _ _ _ o f g I); done || (unfold g; fs; congruence)).
  apply (Inv_putOut D h (modify o g e) o (g f)); try done.
  - by apply flows_modify.
  - by apply (own_modify h e o g f).
  - by left.
Qed.

(** [retireLocked] hands a finished flow's identifier on. *)
Lemma Inv_retire D h e o f :
  Inv cfg D h e -> flows e !! o = Some f -> finished f = true -> own h e o (o_id f) -> no_settle e (o_id f) ->
  (hasStore cfg = false -> queue e (outKey (o_id f)) = []) -> orphans e !! ref f <> Some o ->
  failure e = None -> Inv cfg D h (retireLocked cfg o e).
Proof.
  intros I Hf Hfin Hown Hns Hq Hor Hnf. unfold retireLocked. rewrite (get_lookup e o f Hf).
  destruct (list_eqb (ref f) []) eqn:Er; cbn [negb].
  - destruct (negb (hasStore cfg) && bool_decide (settle f = None)) eqn:E.
    + apply Inv_release; [done|apply Hown|]. intros x Hx. assert (x = o) as -> by (by apply Hown).
      destruct Hx as (fx & Hfx & _ & Hx). rewrite Hf in Hfx. injection Hfx as <-. destruct Hx as [Hx|[Hx|(j & Hj & _)]].
      * apply (live_unfinished I o f Hf) in Hx as [? _]. congruence.
      * done.
      * apply andb_true_iff in E as [E _]. apply negb_true_iff in E. rewrite (Hq E) in Hj. by apply elem_of_nil in Hj.
    + by apply (Inv_settleLocked D h e o f).
  - assert (Href : ref f <> []) by (intros E; by rewrite E in Er).
    destruct (Inv_orphan D h e o f I Hf Hfin Href Hown Hnf) as [I' Hown']. destruct (settle f).
    + by apply (Inv_settleLocked _ _ _ o f).
    + by apply (Inv_complete _ _ _ o f).
Qed.

Lemma unlink_keeps o e :
  flows (unlinkLocked o e) = flows e /\ out (unlinkLocked o e) = out e /\ failure (unlinkLocked o e) = failure e
  /\ nextSeq (unlinkLocked o e) = nextSeq e /\ rel (unlinkLocked o e) = remove_flow o (rel e)
  /\ pub (unlinkLocked o e) = remove_flow o (pub e).
Proof. by destruct (unlink_eq o e) as [c ->]. Qed.

(** What is known of a flow that was detached and finished. *)
Lemma finished_facts D h e o f err :
  Inv cfg (o :: D) h e -> flows e !! o = Some f ->
  let e' := finishLocked o err e in
  no_settle e' (o_id f) /\ (hasStore cfg = false -> queue e' (outKey (o_id f)) = []) /\ orphans e' !! ref f <> Some o.
Proof.
  intros I Hf. cbn zeta. destruct (Inv_finish D h e o f err I Hf) as (_ & _ & _ & _ & HQ & _).
  destruct (member_live I o) as (f2 & Hf2 & Hout & Hfin & _); [apply elem_detached; by left|]. rewrite Hf in Hf2. injection Hf2 as <-.
  unfold no_settle. rewrite HQ. split_and!.
  - intros j Hj. by apply (live_jobs I o f j).
  - intros Hs. by apply (live_queue_nil I o f).
  - destruct (finish_eq o err e) as [rs ->]. change (orphans e !! ref f <> Some o). intros Hor.
    destruct (inv_orphan _ _ _ _ I _ _ Hor) as (f2 & Hf2 & _ & Hn & _). rewrite Hf in Hf2. injection Hf2 as <-. congruence.
Qed.

(** A detached flow ends. *)
Lemma Inv_end D h e o f err :
  Inv cfg (o :: D) h e -> flows e !! o = Some f -> failure e = None ->
  Inv cfg D h (retireLocked cfg o (finishLocked o err e)).
Proof.
  intros I Hf Hnf. destruct (Inv_finish D h e o f err I Hf) as (I' & Hown & Hf' & _ & _ & Hfa).
  destruct (finished_facts D h e o f err I Hf) as (Hns & Hq & Hor).
  eapply (Inv_retire D h _ o _ I' Hf'); fs; try done. by rewrite Hfa.
Qed.

(** It ends with the broker's acknowledgement and gives its unit back. *)
Lemma Inv_end_credit D h e o f err :
  Inv cfg (o :: D) h e -> flows e !! o = Some f -> failure e = None ->
  Inv cfg D h (retireLocked cfg o (creditLocked o (finishLocked o err e))).
Proof.
  intros I Hf Hnf. destruct (Inv_finish D h e o f err I Hf) as (I' & Hown & Hf' & Hcr & _ & Hfa).
  destruct (finished_facts D h e o f err I Hf) as (Hns & Hq & Hor). set (e1 := finishLocked o err e) in *.
  set (f1 := f <| finished := true |> <| o_err := err |> <| closes ::= Z.succ |>) in *.
  pose proof (Inv_credit D h e1 o f1 I' Hf' eq_refl Hcr) as I2. unfold creditLocked in *. rewrite (get_lookup _ _ _ Hf') in *.
  change (counted f1) with (counted f) in *. destruct (counted f).
  - set (g := fun f : Out => f <| counted := false |>) in *. set (e2 := e1 <| quota ::= Z.succ |>) in *.
    eapply (Inv_retire D h (modify o g e2) o (g f1)); try done.
    + by apply flows_modify.
    + by apply (own_modify h e2 o g f1).
    + by change (failure (modify o g e2)) with (failure e1); rewrite Hfa.
  - apply (Inv_retire D h e1 o f1); try done. by rewrite Hfa.
Qed.

(** ** Handlers *)

Lemma flow_wf_reason n f rc : flow_wf n f -> flow_wf n (f <| reason := rc |>).
Proof. by intros []. Qed.

(** Taking a listed flow off its list and noting the broker's reason. *)
Lemma Inv_take_reason D h e o f rc :
  Inv cfg D h e -> o ∈ pub e ++ rel e -> flows e !! o = Some f ->
  Inv cfg (o :: D) h (modify o (fun f => f <| reason := rc |>) (unlinkLocked o e)).
Proof.
  intros I Hin Hf. pose proof (Inv_detach D h e o I Hin) as I1. destruct (unlink_keeps o e) as (Ef & _ & _ & Es & _).
  apply (Inv_modify _ _ _ o f _ I1); fs; rewrite ?Ef; try done.
  - intros Hn. rewrite Es. apply flow_wf_reason. destruct (member_live I o) as (f2 & Hf2 & _ & _ & Hwf).
    + rewrite app_assoc. apply elem_of_app. by left.
    + congruence.
Qed.

Lemma out_listed h e id o : Inv cfg [] h e -> out e !! id = Some o ->
  exists f, flows e !! o = Some f /\ o_id f = id /\ finished f = false /\ flow_wf (nextSeq e) f /\ (o ∈ pub e ++ rel e).
Proof.
  intros I Ho. destruct (inv_out _ _ _ _ I id o Ho) as (f & Hf & Hid & Hfin & Hwf). exists f. split_and!; try done.
  pose proof (proj2 (inv_mem _ _ _ _ I o) (ex_intro _ id Ho)) as Hin. by rewrite app_nil_r in Hin.
Qed.

Lemma Inv_HandlePuback h e id rc refused : Inv cfg [] h e -> Inv cfg [] h (fst (HandlePuback cfg id rc refused e)).
Proof.
  intros I. unfold HandlePuback. destruct (failure e) eqn:Hnf; [done|]. destruct (out e !! id) as [o|] eqn:Ho; [|done].
  destruct (out_listed h e id o I Ho) as (f & Hf & <- & _ & _ & Hin). destruct (_ || _); [done|]. cbn [fst].
  destruct (unlink_keeps o e) as (Ef & _ & Efa & _). case_bool_decide.
  - eapply Inv_end_credit; [by apply (Inv_take_reason _ _ _ _ f)|apply flows_modify; by rewrite Ef|].
    change (failure (unlinkLocked o e) = None). congruence.
  - eapply Inv_end_credit; [by apply Inv_detach|by rewrite Ef|congruence].
Qed.

Lemma Inv_HandlePubcomp h e id : Inv cfg [] h e -> Inv cfg [] h (fst (HandlePubcomp cfg id e)).
Proof.
  intros I. unfold HandlePubcomp. destruct (failure e) eqn:Hnf; [done|]. destruct (out e !! id) as [o|] eqn:Ho; [|done].
  destruct (out_listed h e id o I Ho) as (f & Hf & <- & _ & _ & Hin). destruct (negb _); [done|]. cbn [fst].
  destruct (unlink_keeps o e) as (Ef & _ & Efa & _).
  eapply Inv_end_credit; [by apply Inv_detach|by rewrite Ef|congruence].
Qed.

Lemma Inv_Withdraw h e o : Inv cfg [] h e -> failure e = None -> is_Some (flows e !! o) -> Inv cfg [] h (fst (Withdraw cfg o e)).
Proof.
  intros I Hnf [f Hf]. unfold Withdraw. rewrite (get_lookup e o f Hf). destruct (finished f) eqn:Hfin; [done|].
  destruct (attempted f); [done|]. cbn [orb fst]. destruct (unlink_keeps o e) as (Ef & _ & Efa & _).
  pose proof (live_member I o f Hf Hfin) as Hin. rewrite app_nil_r in Hin.
  eapply Inv_end; [by apply Inv_detach|by rewrite Ef|congruence].
Qed.

(** The next record of an unfinished flow is queued. *)
Lemma Inv_putOut_live D h e o f :
  Inv cfg D h e -> flows e !! o = Some f -> out e !! o_id f = Some o -> failure e = None -> Inv cfg D h (putOutLocked cfg o e).
Proof.
  intros I Hf Ho Hnf. apply (Inv_putOut D h e o f); try done.
  - by apply (live_own cfg D).
  - intros j Hj. by apply (live_jobs I o f j).
  - right. exists (nextSeq e). by apply (live_unfinished I o f Hf).
Qed.

Lemma Inv_ctrl D h e t id rc g i : Inv cfg D h e -> Inv cfg D h (pushCtrlLocked t id rc g i e).
Proof. apply Inv_view. by repeat split. Qed.

Lemma Inv_HandlePubrec h e id rc refused : Inv cfg [] h e -> Inv cfg [] h (fst (HandlePubrec cfg id rc refused e)).
Proof.
  intros I. unfold HandlePubrec. destruct (failure e) eqn:Hnf; [done|]. destruct (out e !! id) as [o|] eqn:Ho; [|by apply Inv_ctrl].
  destruct (out_listed h e id o I Ho) as (f & Hf & <- & Hfin & Hwf & Hin). rewrite (get_lookup e o f Hf).
  destruct (Z.eqb_spec (qos f) 2) as [Hq|]; [|done]. destruct (attempted f); [|done]. cbn [negb orb].
  destruct (Z.eqb_spec (phase f) AwaitPubcomp) as [|Hph]; [by apply Inv_ctrl|].
  destruct (unlink_keeps o e) as (Ef & Eo & Efa & Es & Er & _). case_bool_decide; cbn [fst].
  - eapply Inv_end_credit; [by apply (Inv_take_reason _ _ _ _ f)|apply flows_modify; by rewrite Ef|].
    change (failure (unlinkLocked o e) = None). congruence.
  - pose proof (Inv_detach [] h e o I Hin) as I1. apply (Inv_nextSeq _ _ _ Z.succ) in I1; [|lia].
    set (e1 := unlinkLocked o e) in *. set (g := fun f : Out => f <| phase := AwaitPubcomp |> <| seq := nextSeq e1 |>).
    set (e2 := e1 <| nextSeq ::= Z.succ |>) in I1. assert (Hf1 : flows e2 !! o = Some f) by (change (flows e1 !! o = Some f); by rewrite Ef).
    assert (I2 : Inv cfg [o] h (modify o g e2)).
    { apply (Inv_modify _ _ _ o f g I1); try done.
      - intros _. change (nextSeq e2) with (Z.succ (nextSeq e1)). rewrite Es. destruct Hwf. unfold g. split; fs; try done; lia || tauto.
      - intros Hin'. exfalso. change (pub e2 ++ rel e2) with (pub e1 ++ rel e1) in Hin'.
        destruct (unlink_keeps o e) as (_ & _ & _ & _ & Er' & Ep'). fold e1 in Er', Ep'. rewrite Er', Ep' in Hin'.
        apply elem_of_app in Hin' as [[_ ?]%elem_of_remove|[_ ?]%elem_of_remove]; done. }
    assert (Hf2 : flows (modify o g e2) !! o = Some (g f)) by (by apply flows_modify).
    assert (I3 : Inv cfg [] h (push_rel o (modify o g e2))).
    { apply (Inv_push_rel _ _ _ o (g f)); try done. apply Forall_forall. intros x Hx.
      destruct (member_live I2 x) as (fx & Hfx & _ & _ & Hwx); [by apply elem_second|]. rewrite (get_lookup _ _ _ Hfx).
      apply wf_seq in Hwx. change (nextSeq (modify o g e2)) with (Z.succ (nextSeq e1)) in Hwx. unfold g; fs. lia. }
    apply (Inv_ctrl _ _ _ PUBREL (o_id f) ReasonSuccess true None) in I3.
    apply (Inv_putOut_live _ _ _ o (g f)); [exact I3|exact Hf2| |].
    + change (out e1 !! o_id f = Some o). by rewrite Eo.
    + change (failure e1 = None). congruence.
Qed.

(** ** New flows *)

Lemma fresh_flow D h e : Inv cfg D h e -> flows e !! nextOut e = None.
Proof.
  intros I. destruct (flows e !! nextOut e) as [f|] eqn:E; [|done]. apply (inv_heap _ _ _ _ I) in E as (? & _). lia.
Qed.

(** A new unfinished flow under an identifier that is taken but not used. *)
Lemma Inv_new D h h' e f :
  Inv cfg D h e -> h' ⊆ h -> (o_id f ∉ h') -> IDs.owner_of (ids e) (o_id f) = IDs.OwnerPublish ->
  (forall o, ~ holds e o (o_id f)) -> finished f = false -> counted f = false -> flow_wf (nextSeq e) f -> failure e = None ->
  Inv cfg (nextOut e :: D) h' (e <| flows ::= <[nextOut e := f]> |> <| nextOut ::= S |> <| out ::= <[o_id f := nextOut e]> |>).
Proof.
  intros I Hsub Hnh Hown Hno Hfin Hcnt Hwf Hnf. pose proof (fresh_flow _ _ _ I) as Hfresh. set (o := nextOut e) in *.
  set (e' := _ <| out ::= _ |>).
  assert (Hfl : flows e' = <[o := f]> (flows e)) by done. assert (Hout : out e' = <[o_id f := o]> (out e)) by done.
  assert (Hnone : out e !! o_id f = None).
  { destruct (out e !! o_id f) as [x|] eqn:E; [|done]. destruct (inv_out _ _ _ _ I _ _ E) as (fx & Hfx & Eid & _).
    exfalso. apply (Hno x). exists fx. split_and!; auto. }
  assert (Hold : forall x fx, flows e !! x = Some fx -> x <> o /\ flows e' !! x = Some fx).
  { intros x fx Hx. assert (x <> o) by congruence. rewrite Hfl, lookup_insert_ne by done. done. }
  assert (Hg : forall x, x ∈ pub e ++ rel e ++ D -> get e' x = get e x /\ x <> o).
  { intros x Hx. destruct (member_live I x Hx) as (fx & Hfx & _). destruct (Hold x fx Hfx) as [? Hx'].
    by rewrite (get_lookup _ _ _ Hfx), (get_lookup _ _ _ Hx'). }
  assert (Hh : forall x i, holds e' x i -> holds e x i \/ (x = o /\ i = o_id f)).
  { intros x i (fx & Hfx & Hi & H). destruct (decide (x = o)) as [->|Hne].
    { rewrite Hfl, lookup_insert_eq in Hfx. injection Hfx as <-. by right. }
    left. rewrite Hfl, lookup_insert_ne in Hfx by done. exists fx. split; [done|]. split; [done|].
    destruct H as [H|[H|H]]; [left|auto..]. rewrite Hout in H. apply lookup_insert_Some in H as [[_ H]|[_ H]]; congruence. }
  pose proof I as I0. destruct I. split; frame e' e; try done.
  - intros x fx. rewrite Hfl. intros [[<- <-]|[Hne Hx]]%lookup_insert_Some; change (nextOut e') with (S (nextOut e)).
    + split; [unfold o; lia|]. rewrite Hout, lookup_insert_eq. split; [done|]. left. apply Hwf.
    + destruct (inv_heap0 x fx Hx) as (? & Hxo & ?). split; [lia|]. split; [|done]. intros Hn. specialize (Hxo Hn).
      rewrite Hout, lookup_insert_ne; [done|]. intros E. congruence.
  - intros id x. rewrite Hout. intros [[<- <-]|[Hne Hx]]%lookup_insert_Some.
    + exists f. rewrite Hfl, lookup_insert_eq. done.
    + destruct (inv_out0 id x Hx) as (fx & Hfx & ?). exists fx. split; [by apply Hold|done].
  - rewrite !app_assoc, <- Permutation_middle. apply NoDup_cons. rewrite <- app_assoc. split; [|done].
    intros Hin. by destruct (Hg o Hin).
  - intros x. rewrite elem_detached, inv_mem0, Hout. split.
    + intros [->|[id Hid]]; [exists (o_id f); by rewrite lookup_insert_eq|]. exists id. rewrite lookup_insert_ne by congruence. done.
    + intros [id [[_ <-]|[_ Hid]]%lookup_insert_Some]; eauto.
  - split; [apply (sorted_ext e); [|apply inv_pub0]|apply (Forall_phase_ext (fun p => p <> AwaitPubcomp) e); [|apply inv_pub0]];
      intros x Hx; rewrite (proj1 (Hg x (elem_first _ _ _ _ Hx))); done.
  - split; [apply (sorted_ext e); [|apply inv_rel0]|apply (Forall_phase_ext (fun p => p = AwaitPubcomp) e); [|apply inv_rel0]];
      intros x Hx; rewrite (proj1 (Hg x (elem_second _ _ _ _ Hx))); done.
  - destruct inv_quota0 as [Hq0 Hq]. split; [done|]. rewrite !app_assoc, <- Permutation_middle, cnt_cons, <- app_assoc.
    rewrite (get_lookup e' o f) by (rewrite Hfl; apply lookup_insert_eq). rewrite Hcnt, (cnt_ext e' e); [lia|].
    intros x Hx. by rewrite (proj1 (Hg x Hx)).
  - intros i Hi. destruct (inv_held0 i (Hsub i Hi)) as [? Hno']. split; [done|]. intros x [Hx|[-> ->]]%Hh; [by apply (Hno' x)|done].
  - intros x i [Hx|[-> ->]]%Hh; [by apply (inv_owner0 x)|done].
  - intros x x' i [Hx|[-> ->]]%Hh [Hx'|[-> E]]%Hh; subst; [by apply (inv_excl0 x x' i)|by apply Hno in Hx|by apply Hno in Hx'|done].
  - intros r x Hx. destruct (inv_orphan0 r x Hx) as (fx & Hfx & ?). exists fx. split; [by apply Hold|done].
  - intros i j Hj. destruct (inv_jobs0 i j Hj) as (x & fx & ? & Hfx & ?). exists x, fx. split; [done|]. split; [by apply Hold|done].
Qed.

Lemma AwaitFirst_ne q : AwaitFirst q <> AwaitPubcomp.
Proof. unfold AwaitFirst. by destruct (q =? 2). Qed.

Lemma Inv_Register h e m now :
  Inv cfg [] h e -> m_ID m ∈ h -> m_QoS m = 1 \/ m_QoS m = 2 -> m_Packet m <> [] ->
  Inv cfg [] (h ∖ {[m_ID m]}) (fst (Register cfg m now e)).
Proof.
  intros I Hid Hq Hp. destruct (inv_held _ _ _ _ I _ Hid) as [Hown Hno]. unfold Register. destruct (failure e) as [err|] eqn:Hnf.
  { cbn [fst]. apply Inv_release; [|apply minus_notin|done]. by apply (Inv_held_sub _ _ h _ _ (minus_sub h _)). }
  cbn zeta. set (f := mkOut (m_ID m) (m_QoS m) _ _ _ _ _ _ _ _ _ _ _ _ _ _ _ _ _). unfold new_flow. cbn [fst].
  assert (Hph : phase f <> AwaitPubcomp) by apply AwaitFirst_ne.
  pose proof (Inv_nextSeq [] h e Z.succ ltac:(lia) I) as I0. set (e0 := e <| nextSeq ::= Z.succ |>) in I0.
  assert (Hwf : flow_wf (nextSeq e0) f).
  { change (nextSeq e0) with (Z.succ (nextSeq e)). unfold f, AwaitFirst. destruct Hq as [Eq|Eq]; rewrite Eq; split; fs; try done; lia || tauto. }
  pose proof (Inv_new [] h (h ∖ {[m_ID m]}) e0 f I0 (minus_sub _ _) (minus_notin _ _) Hown Hno eq_refl eq_refl Hwf Hnf) as I1.
  set (e1 := _ <| out ::= _ |>) in I1. change (nextOut e0) with (nextOut e) in *.
  assert (Hf1 : flows e1 !! nextOut e = Some f) by (apply lookup_insert_eq).
  assert (I2 : Inv cfg [] (h ∖ {[m_ID m]}) (push_pub (nextOut e) e1)).
  { apply (Inv_push_pub _ _ _ _ f I1 Hf1 Hph). apply Forall_forall. intros x Hx.
    destruct (member_live I x) as (fx & Hfx & _ & _ & Hwx); [by apply elem_first|].
    assert (Hx1 : flows e1 !! x = Some fx).
    { unfold e1. es. change (flows e0) with (flows e). rewrite lookup_insert_ne; [done|]. intros <-.
      by rewrite (fresh_flow _ _ _ I) in Hfx. }
    rewrite (get_lookup _ _ _ Hx1). apply wf_seq in Hwx. unfold f; fs. lia. }
  set (e3 := match _ with Some _ => _ | None => _ end).
  assert (V : same_view (push_pub (nextOut e) e1) e3).
  { unfold e3. destruct (list_eqb (m_Ref m) []); case_match; by repeat split. }
  pose proof (Inv_view _ _ _ _ _ V I2) as I3. destruct (hasStore cfg) eqn:Hs; [|done].
  destruct V as (Vf & _ & _ & Vo & _ & _ & _ & _ & _ & _ & _ & Vfa & _).
  assert (Hf3 : flows e3 !! nextOut e = Some f) by (rewrite Vf; exact Hf1).
  assert (Ho3 : out e3 !! o_id f = Some (nextOut e)) by (rewrite Vo; apply lookup_insert_eq).
  apply (Inv_enqueue _ _ e3 _ f); try done.
  - by apply (live_own cfg []).
  - split; [done|]. apply record_fits; [by apply (owner_range [] h e)|]. right. by exists (nextSeq e0).
  - intros j Hj. by apply (live_jobs I3 (nextOut e) f j).
  - rewrite Vfa. done.
Qed.

Lemma modify_absent o g e : flows e !! o = None -> same_view e (modify o g e).
Proof. intros H. unfold same_view, modify. es. rewrite alter_id by congruence. by split_and!. Qed.

Lemma Inv_settle D h e o s : Inv cfg D h e -> Inv cfg D h (modify o (fun f => f <| settle := s |>) e).
Proof.
  intros I. destruct (flows e !! o) as [f|] eqn:Hf; [|by apply (Inv_view _ _ _ _ _ (modify_absent o _ e Hf))].
  apply (Inv_modify _ _ _ o f _ I); fs; try done. intros Hn.
  destruct (live_unfinished I o f Hf) as [_ []]; [by apply (inv_heap _ _ _ _ I)|]. by split.
Qed.

Lemma orphan_holds D h e r o : Inv cfg D h e -> orphans e !! r = Some o ->
  exists f, flows e !! o = Some f /\ finished f = true /\ own h e o (o_id f) /\ failure e = None.
Proof.
  intros I Ho. destruct (inv_orphan _ _ _ _ I _ _ Ho) as (f & Hf & Hr & Hfin & _). exists f. split; [done|]. split; [done|].
  assert (Hh : holds e o (o_id f)) by (exists f; subst r; auto). split.
  - split; [by apply (inv_owner _ _ _ _ I o)|]. split; [|intros o' Ho'; by apply (inv_excl _ _ _ _ I o' o (o_id f))].
    intros Hin. by apply (inv_held _ _ _ _ I _ Hin) in Hh.
  - destruct (failure e) eqn:E; [|done]. destruct (inv_failed _ _ _ _ I) as [_ Hor]; [congruence|]. by rewrite Hor, lookup_empty in Ho.
Qed.

Lemma not_settling D h e o f : Inv cfg D h e -> flows e !! o = Some f -> settling f = false -> own h e o (o_id f) -> no_settle e (o_id f).
Proof.
  intros I Hf Hs (_ & _ & Hex) j Hj. destruct (inv_jobs _ _ _ _ I _ j Hj) as (x & fx & Hown & Hfx & Hid & Hfit).
  assert (x = o) as ->.
  { apply Hex. exists fx. split; [done|]. split; [done|]. right; right. by exists j. }
  rewrite Hf in Hfx. injection Hfx as <-. destruct (j_work j); cbn in *; try tauto. destruct Hfit; congruence.
Qed.

Lemma Inv_Adopt h e r s : Inv cfg [] h e -> Inv cfg [] h (fst (Adopt r s e)).
Proof.
  intros I. unfold Adopt. destruct (refs e !! r) as [o|]; [by apply Inv_settle|]. destruct (orphans e !! r) as [o|] eqn:Ho; [|done].
  cbn [fst]. set (g := fun f : Out => f <| settle := s |>). pose proof (Inv_settle [] h e o s I) as I1. fold g in I1.
  destruct (orphan_holds [] h (modify o g e) r o I1 Ho) as (f & Hf & Hfin & Hown & Hnf).
  rewrite (get_lookup _ _ _ Hf). destruct (settling f) eqn:Hs.
  - apply (Inv_modify _ _ _ o f _ I1); fs; try done. congruence.
  - apply (Inv_settleLocked _ _ _ o f I1); try done. by apply (not_settling [] h _ o f).
Qed.

(** ** What an operation on one flow leaves alone *)

(** [e'] differs from [e] in flow [o], whose sequence number it keeps, and
    in who uses which identifier. *)
Definition keeps (o : flow) (e e' : Engine) : Prop :=
  (forall x, x <> o -> flows e' !! x = flows e !! x)
  /\ pubSeq (get e' o) = pubSeq (get e o)
  /\ pub e' = pub e /\ rel e' = rel e /\ nextSeq e' = nextSeq e /\ quota e' = quota e /\ quotaMax e' = quotaMax e
  /\ cursor e' = cursor e /\ released e' = released e /\ gen e' = gen e /\ failure e' = failure e /\ epoch e' = epoch e
  /\ ins e' = ins e /\ nextIn e' = nextIn e /\ inb e' = inb e /\ fifo e' = fifo e /\ ctrl e' = ctrl e
  /\ (forall id, queue e' (inKey id) = queue e (inKey id)).

Lemma keeps_refl o e : keeps o e e.
Proof. by repeat split. Qed.

Lemma keeps_trans o e1 e2 e3 : keeps o e1 e2 -> keeps o e2 e3 -> keeps o e1 e3.
Proof.
  intros (F1 & H1) (F2 & H2). split; [|destruct_and! H1; destruct_and! H2; split_and!; congruence].
  intros x Hx. by rewrite F2, F1.
Qed.

Lemma keeps_get o e e' x : keeps o e e' -> x <> o -> get e' x = get e x.
Proof. intros (H & _) Hx. unfold get. by rewrite H. Qed.

Lemma keeps_modify o g e : (forall f, pubSeq (g f) = pubSeq f) -> keeps o e (modify o g e).
Proof.
  intros Hg. repeat split; try done.
  - intros x Hx. unfold modify. es. by rewrite lookup_alter_ne.
  - rewrite get_modify. case_decide; [apply Hg|done].
Qed.

Lemma keeps_queue o id ow w e : keeps o e (queueLocked (outKey id) ow w e).
Proof. repeat split; try done. intros i. rewrite queue_queueLocked. by rewrite decide_False by (intros E; discriminate E). Qed.

Lemma keeps_putOut o e : keeps o e (putOutLocked cfg o e).
Proof. unfold putOutLocked. destruct (hasStore cfg); [apply keeps_queue|apply keeps_refl]. Qed.

Lemma keeps_settle o e : keeps o e (settleLocked o e).
Proof. eapply keeps_trans; [|apply keeps_queue]. by apply keeps_modify. Qed.

Lemma keeps_complete o e : keeps o e (completeLocked cfg o e).
Proof.
  unfold completeLocked. destruct (_ || _); [apply keeps_refl|]. case_match; [|apply keeps_refl].
  eapply keeps_trans; [|apply keeps_putOut]. by apply keeps_modify.
Qed.

Lemma keeps_retire o e : keeps o e (retireLocked cfg o e).
Proof.
  unfold retireLocked. destruct (negb _).
  - apply (keeps_trans _ _ (e <| orphans ::= <[ref (get e o) := o]> |>)); [by repeat split|].
    destruct (settle (get e o)); [apply keeps_settle|apply keeps_complete].
  - destruct (_ && _); [by repeat split|apply keeps_settle].
Qed.

Lemma keeps_finish o err e : keeps o e (finishLocked o err e).
Proof.
  destruct (finish_eq o err e) as [rs ->]. eapply keeps_trans; [|by apply keeps_modify]. by repeat split.
Qed.

(** ** Collecting *)

Lemma cnt_modify_le o g e l : NoDup l -> cnt (modify o g e) l <= cnt e l + 1.
Proof.
  induction l as [|x l IH]; intros Hn; [by change (0 <= 0 + 1)|]. apply NoDup_cons in Hn as [Hx Hn]. rewrite !cnt_cons.
  destruct (decide (x = o)) as [->|Hne].
  - assert (cnt (modify o g e) l = cnt e l).
    { apply cnt_ext. intros y Hy. by rewrite get_modify_ne by (intros ->; done). }
    destruct (counted (get (modify o g e) o)), (counted (get e o)); lia.
  - rewrite get_modify_ne by done. specialize (IH Hn). lia.
Qed.

(** A PUBLISH is handed to the connection. *)
Lemma Inv_send h e o f c :
  Inv cfg [] h e -> flows e !! o = Some f -> finished f = false -> quota e <> 0 ->
  Inv cfg [] h (modify o (fun f => f <| attempted := true |> <| counted := true |>) e <| quota ::= Z.pred |> <| cursor := c |>).
Proof.
  intros I Hf Hfin Hq. destruct (inv_quota _ _ _ _ I) as [Hq0 Hq1]. set (e1 := e <| quota ::= Z.pred |> <| cursor := c |>).
  assert (I1 : Inv cfg [] h e1).
  { destruct I. split; frame e1 e; try done. change (quota e1) with (Z.pred (quota e)). change (cnt e1) with (cnt e). lia. }
  destruct (live_unfinished I1 o f Hf) as [_ Hwf]; [by apply (inv_heap _ _ _ _ I1)|].
  apply (Inv_modify_quota _ _ _ o f _ I1); try done; [by left|intros _; by destruct Hwf|].
  change (quota e1) with (Z.pred (quota e)). change (quotaMax e1) with (quotaMax e).
  pose proof (cnt_modify_le o (fun f => f <| attempted := true |> <| counted := true |>) e1 _ (inv_nodup _ _ _ _ I1)) as Hc.
  change (cnt e1 (pub e1 ++ rel e1 ++ [])) with (cnt e (pub e ++ rel e ++ [])) in Hc. lia.
Qed.

(** Ending a listed flow, as Withdraw, a limit or an expiry does. *)
Definition drop_flow (o : flow) (err : flow_error) (e : Engine) : Engine :=
  retireLocked cfg o (finishLocked o (Some err) (unlinkLocked o e)).

Lemma drop_flow_keeps o err e :
  (forall x, x <> o -> flows (drop_flow o err e) !! x = flows e !! x)
  /\ pub (drop_flow o err e) = remove_flow o (pub e) /\ rel (drop_flow o err e) = remove_flow o (rel e)
  /\ failure (drop_flow o err e) = failure e.
Proof.
  unfold drop_flow. destruct (unlink_keeps o e) as (Ef & _ & Efa & _ & Er & Ep). set (e0 := unlinkLocked o e) in *.
  pose proof (keeps_trans o _ _ _ (keeps_finish o (Some err) e0) (keeps_retire o _)) as K.
  set (e1 := retireLocked _ _ _) in *. destruct K as (Kf & _ & Kp & Kr & _ & _ & _ & _ & _ & _ & Kfa & _).
  split; [|by rewrite Kp, Kr, Kfa]. intros x Hx. by rewrite Kf, Ef by done.
Qed.

Lemma Inv_drop_flow h e o err : Inv cfg [] h e -> o ∈ pub e ++ rel e -> failure e = None -> Inv cfg [] h (drop_flow o err e).
Proof.
  intros I Hin Hnf. destruct (member_live I o) as (f & Hf & _); [by rewrite app_nil_r|].
  destruct (unlink_keeps o e) as (Ef & _ & Efa & _).
  apply (Inv_end [] h _ o f); [by apply Inv_detach|by rewrite Ef|congruence].
Qed.

Lemma with_expiry_length pk s : with_expiry pk s = [] -> pk = [].
Proof.
  unfold with_expiry, Publish.WithMessageExpiry. destruct (Publish.messageExpiryOffset pk) as [[off|]| |]; cbn [rbind]; try done.
  unfold PutUint32, put. destruct (_ && _) eqn:E; [|done]. intros H. apply andb_true_iff in E as [E1 E2].
  apply Z.leb_le in E1, E2. destruct pk; [done|]. exfalso. apply app_eq_nil in H as [_ H]. by apply app_eq_nil in H as [H _].
Qed.

(** The Message Expiry Interval of an unfinished flow is brought down. *)
Lemma Inv_expiry D h e o f left :
  Inv cfg D h e -> flows e !! o = Some f -> finished f = false ->
  Inv cfg D h (modify o (fun f => f <| expiry := left |> <| packet := with_expiry (packet f) left |>) e).
Proof.
  intros I Hf Hfin. destruct (live_unfinished I o f Hf) as [_ Hwf]; [by apply (inv_heap _ _ _ _ I)|].
  apply (Inv_modify _ _ _ o f _ I); fs; try done. intros _. destruct Hwf. split; try done. fs. by intros ?%with_expiry_length.
Qed.

Lemma Inv_publish_loop h l : forall sent now e,
  Inv cfg [] h e -> failure e = None -> NoDup l -> (forall o, o ∈ l -> o ∈ pub e) ->
  Inv cfg [] h (fst (publish_loop cfg l sent now e)) /\ failure (fst (publish_loop cfg l sent now e)) = None.
Proof.
  induction l as [|o l IH]; intros sent now e I Hnf Hnd Hl; [done|]. apply NoDup_cons in Hnd as [Hnin Hnd].
  assert (Hin : o ∈ pub e) by (apply Hl; by left). assert (Hl' : forall x, x ∈ l -> x ∈ pub e) by (intros; apply Hl; by right).
  destruct (member_live I o) as (f & Hf & Hout & Hfin & Hwf); [by apply elem_first|].
  cbn [publish_loop]. cbn zeta. rewrite (get_lookup e o f Hf). destruct (negb (sent <? _)); [done|].
  destruct (Z.eqb_spec (quota e) 0) as [|Hq]; [by rewrite orb_true_r|]. rewrite orb_false_r. destruct (_ || _); [done|].
  assert (Hsend : forall e1 f1 pk, Inv cfg [] h e1 -> flows e1 !! o = Some f1 -> finished f1 = false -> quota e1 <> 0 ->
    failure e1 = None -> pub e1 = pub e ->
    let r := (let e2 := modify o (fun f => f <| attempted := true |> <| counted := true |>) e1 in
              let e2 := e2 <| quota ::= Z.pred |> in
              let e2 := e2 <| cursor := next_flow e2 o |> in
              let (e3, its) := publish_loop cfg l (sent + 1) now e2 in
              (e3, IPublish pk (attempted f) :: its)) in
    Inv cfg [] h (fst r) /\ failure (fst r) = None).
  { intros e1 f1 pk I1 Hf1 Hfin1 Hq1 Hnf1 Hp1. cbn zeta. set (e2 := _ <| cursor := _ |>).
    assert (I2 : Inv cfg [] h e2) by exact (Inv_send h e1 o f1 _ I1 Hf1 Hfin1 Hq1).
    specialize (IH (sent + 1) now e2 I2 Hnf1 Hnd). destruct (publish_loop cfg l (sent + 1) now e2) as [e3 its]. cbn [fst] in *.
    apply IH. intros x Hx. change (x ∈ pub e1). rewrite Hp1. auto. }
  destruct (if attempted f then None else expiresAt f) as [t|]; [|by apply (Hsend e f)].
  destruct (t <=? now).
  - destruct (drop_flow_keeps o ErrMessageExpired e) as (_ & Kp & _ & Kfa).
    apply (IH sent now (drop_flow o ErrMessageExpired e)); try done.
    + apply Inv_drop_flow; [done|apply elem_of_app; by left|done].
    + congruence.
    + intros x Hx. rewrite Kp. apply elem_of_remove. split; [auto|]. intros ->. done.
  - destruct (_ <? expiry f); [|by apply (Hsend e f)]. pose proof (Inv_expiry [] h e o f (secondsUntil t now) I Hf Hfin) as I1.
    set (g := fun f : Out => f <| expiry := secondsUntil t now |> <| packet := with_expiry (packet f) (secondsUntil t now) |>) in *.
    assert (Hf1 : flows (modify o g e) !! o = Some (g f)) by (by apply flows_modify).
    destruct (hasStore cfg).
    + cbn [fst]. destruct (keeps_putOut o (modify o g e)) as (_ & _ & _ & _ & _ & _ & _ & _ & _ & _ & Kfa & _).
      split; [|by rewrite Kfa]. by apply (Inv_putOut_live _ _ _ o (g f)).
    + by apply (Hsend (modify o g e) (g f)).
Qed.

Lemma control_view l : forall e, same_view e (fst (control_loop l e)).
Proof.
  induction l as [|c l IH]; intros e; cbn [control_loop]; [by repeat split|]. destruct (readyLocked e c); [|by repeat split].
  cbn zeta. match goal with |- context [control_loop l ?x] => set (e1 := x) end. specialize (IH e1). destruct (control_loop l e1) as [e2 its]. cbn [fst] in *.
  etransitivity; [|exact IH]. unfold e1. case_match; by repeat split.
Qed.

Lemma from_flow_suffix o l : exists l1, l = l1 ++ from_flow o l.
Proof.
  induction l as [|x l [l1 IH]]; cbn; [by exists []|]. destruct (decide (x = o)); [by exists []|]. exists (x :: l1). cbn. by f_equal.
Qed.

Lemma at_cursor_suffix e : exists l1, pub e = l1 ++ at_cursor e.
Proof. unfold at_cursor. destruct (cursor e); [apply from_flow_suffix|]. exists (pub e). by rewrite app_nil_r. Qed.

Lemma Inv_Collect h e g upTo now : Inv cfg [] h e -> Inv cfg [] h (fst (Collect cfg g upTo now e)).
Proof.
  intros I. unfold Collect. destruct (servesLocked g e) eqn:S; [|done]. cbn zeta.
  match goal with |- context [collectControlLocked ?x] => set (e0 := x) end.
  assert (V0 : same_view e e0) by (unfold e0; case_match; by repeat split).
  pose proof (control_view (ctrl e0) e0) as V1. unfold collectControlLocked. destruct (control_loop (ctrl e0) e0) as [e1 acks].
  cbn [fst] in V1. pose proof (transitivity V0 V1) as V. pose proof (Inv_view _ _ _ _ _ V I) as I1.
  assert (Hnf : failure e1 = None).
  { unfold servesLocked in S. apply andb_true_iff in S as [_ S]. apply bool_decide_eq_true in S.
    destruct V as (_ & _ & _ & _ & _ & _ & _ & _ & _ & _ & _ & Vf & _). congruence. }
  destruct (at_cursor_suffix e1) as [l1 Hl1]. destruct (Inv_publish_loop h (at_cursor e1) 0 now e1 I1 Hnf) as [I2 _].
  - pose proof (inv_nodup _ _ _ _ I1) as Hnd. rewrite Hl1 in Hnd. apply NoDup_app in Hnd as (Hnd & _ & _).
    by apply NoDup_app in Hnd as (_ & _ & ?).
  - intros o Ho. rewrite Hl1. apply elem_of_app. by right.
  - destruct (publish_loop cfg (at_cursor e1) 0 now e1) as [e2 pubs]. exact I2.
Qed.

(** ** Several flows at once *)

Lemma fold_modify {A} (p : A -> flow) g l : forall e,
  fold_left (fun e x => modify (p x) g e) l e = e <| flows := fold_left (fun m x => alter g (p x) m) l (flows e) |>.
Proof. induction l as [|x l IH]; intros e; cbn [fold_left]; [by destruct e|]. by rewrite IH. Qed.

Lemma fold_alter_lookup {A} (p : A -> flow) (g : Out -> Out) (l : list A) o : forall (m : gmap flow Out),
  NoDup (map p l) ->
  fold_left (fun m x => alter g (p x) m) l m !! o = (if decide (o ∈ map p l) then g <$> m !! o else m !! o).
Proof.
  induction l as [|x l IH]; intros m Hnd; cbn [fold_left map] in *.
  - rewrite decide_False; [done|]. apply not_elem_of_nil.
  - apply NoDup_cons in Hnd as [Hx Hnd]. rewrite (IH _ Hnd). destruct (decide (o = p x)) as [->|Hne].
    + rewrite (decide_False _ _ Hx) || rewrite (decide_False (P := p x ∈ map p l)) by done. rewrite lookup_alter_eq.
      by rewrite decide_True by (by left).
    + rewrite lookup_alter_ne by done. destruct (decide (o ∈ map p l)) as [Hin|Hin].
      * by rewrite decide_True by (by right).
      * rewrite decide_False; [done|]. by intros [?|?]%elem_of_cons.
Qed.

(** A store failure ends the session: every flow is finished, and only the
    writes still queued keep identifiers in use. *)
Lemma drain_perm e : fst (drainFlowsLocked e) ≡ₚ pub e ++ rel e.
Proof. apply merge_sort_Permutation. Qed.

Lemma fold_dead l : forall e, exists m, fold_left (fun e (x : Z * inflow) => modify_in (snd x) (fun f => f <| dead := true |>) e) l e = e <| ins := m |>.
Proof.
  induction l as [|x l IH]; intros e; cbn [fold_left]; [exists (ins e); by destruct e|].
  destruct (IH (modify_in (snd x) (fun f => f <| dead := true |>) e)) as [m ->]. by exists m.
Qed.

Definition failed_out (err : flow_error) (f : Out) : Out := f <| finished := true |> <| o_err := Some err |> <| closes ::= Z.succ |>.

Lemma fail_eq err e : failure e = None ->
  exists m, fst (failLocked err e)
    = e <| failure := Some err |> <| epoch ::= Z.succ |> <| ins := m |> <| inb := ∅ |> <| fifo := [] |> <| ctrl := [] |>
        <| pub := [] |> <| rel := [] |>
        <| flows := fold_left (fun fl o => alter (failed_out err) o fl) (fst (drainFlowsLocked e)) (flows e) |>
        <| out := ∅ |> <| refs := ∅ |> <| orphans := ∅ |> <| cursor := None |>.
Proof.
  intros Hn. unfold failLocked. rewrite Hn. cbn zeta.
  destruct (fold_dead (map_to_list (inb (e <| failure := Some err |> <| epoch ::= Z.succ |>)))
              (e <| failure := Some err |> <| epoch ::= Z.succ |>)) as [m ->]. exists m.
  unfold drainFlowsLocked. cbn [fst]. rewrite (fold_modify (fun o => o)). reflexivity.
Qed.

Lemma Inv_fail h e err : Inv cfg [] h e -> Inv cfg [] h (fst (failLocked err e)).
Proof.
  intros I. destruct (failure e) eqn:Hnf; [by unfold failLocked; rewrite Hnf|]. destruct (fail_eq err e Hnf) as [m ->].
  set (fl := fst (drainFlowsLocked e)). set (e' := _ <| cursor := None |>).
  assert (Hnd : NoDup (map (fun o : flow => o) fl)).
  { rewrite map_id. unfold fl. rewrite drain_perm. pose proof (inv_nodup _ _ _ _ I) as H. by rewrite app_nil_r in H. }
  assert (Hfl : forall o, flows e' !! o = (if decide (o ∈ fl) then failed_out err <$> flows e !! o else flows e !! o)).
  { intros o. change (flows e') with (fold_left (fun fl o => alter (failed_out err) o fl) fl (flows e)).
    rewrite (fold_alter_lookup (fun o => o) _ _ _ _ Hnd). by rewrite map_id. }
  assert (Hmem : forall o, o ∈ fl <-> exists id, out e !! id = Some o).
  { intros o. unfold fl. rewrite drain_perm, <- (inv_mem _ _ _ _ I o), app_nil_r. done. }
  assert (Hback : forall o f', flows e' !! o = Some f' ->
            exists f, flows e !! o = Some f /\ o_id f = o_id f' /\ ref f = ref f' /\ settling f = settling f'
              /\ (finished f = true -> finished f' = true) /\ finished f' = true /\ (closes f' = 0 \/ closes f' = 1)).
  { intros o f'. rewrite Hfl. destruct (decide (o ∈ fl)) as [Hin|Hin].
    - destruct (flows e !! o) as [f|] eqn:Hf; cbn; [|done]. intros [= <-]. exists f. split_and!; try done. right.
      apply Hmem in Hin as [id Hid]. destruct (inv_out _ _ _ _ I _ _ Hid) as (f2 & Hf2 & _ & _ & Hwf). rewrite Hf in Hf2. injection Hf2 as <-.
      unfold failed_out; fs. by rewrite (wf_closes _ _ Hwf).
    - intros Hf. exists f'. destruct (inv_heap _ _ _ _ I o f' Hf) as (_ & Ho & Hc). assert (finished f' = true).
      { destruct (finished f') eqn:E; [done|]. exfalso. apply Hin, Hmem. exists (o_id f'). auto. }
      split_and!; try done. tauto. }
  assert (Hh : forall o id, holds e' o id -> holds e o id).
  { intros o id. apply holds_mono; [|apply map_empty_subseteq..|done].
    intros x f' Hx. destruct (Hback x f' Hx) as (f & ? & ? & ? & _). eauto. }
  destruct I. split; frame e' e; try done.
  - intros o f' Hf'. destruct (Hback o f' Hf') as (f & Hf & _ & _ & _ & _ & Hfin & Hc). split; [by apply (inv_heap0 o f)|].
    split; [congruence|]. tauto.
  - constructor.
  - intros o. split; [intros H; by apply elem_of_nil in H|by intros [id H]].
  - split; constructor.
  - split; constructor.
  - destruct inv_quota0 as [? Hq]. split; [done|]. pose proof (cnt_nonneg e (pub e ++ rel e ++ [])).
    change (cnt e' (pub e' ++ rel e' ++ [])) with 0. lia.
  - intros id Hid. destruct (inv_held0 id Hid) as [? Hno]. split; [done|]. intros o Ho. by apply (Hno o), Hh.
  - intros o id Ho. by apply (inv_owner0 o), Hh.
  - intros o o' id Ho Ho'. apply (inv_excl0 o o' id); by apply Hh.
  - intros id j Hj. destruct (inv_jobs0 id j Hj) as (o & f & Hown & Hf & Hid & Hfit).
    assert (exists f', flows e' !! o = Some f') as [f' Hf'].
    { rewrite Hfl, Hf. destruct (decide (o ∈ fl)); cbn; eauto. }
    destruct (Hback o f' Hf') as (f2 & Hf2 & E1 & _ & E2 & E3 & _). rewrite Hf in Hf2. injection Hf2 as <-.
    exists o, f'. split_and!; try done; [congruence|]. destruct (j_work j); cbn in *; first [by rewrite <- E1|by rewrite E1|rewrite <- E2; tauto|done].
  - intros id j Hj. destruct (inv_epoch0 id j Hj) as [Hle _]. change (epoch e') with (Z.succ (epoch e)). split; [lia|].
    split; [done|]. lia.
Qed.

(** ** Store writes *)

(** The same write, whether or not it has been performed. *)
Definition same_job (j j' : job) : Prop := j_work j = j_work j' /\ j_owner j = j_owner j' /\ j_epoch j = j_epoch j'.

(** Writes leave the front of the queues. *)
Lemma Inv_queues D h e Q :
  let e' := e <| queues := Q |> in
  (forall id, exists gone rest, queue e (outKey id) = gone ++ rest /\ Forall2 same_job rest (queue e' (outKey id))) ->
  Inv cfg D h e -> Inv cfg D h e'.
Proof.
  intros e' HQ I.
  assert (Hj : forall id j', j' ∈ queue e' (outKey id) -> exists j, j ∈ queue e (outKey id) /\ same_job j j').
  { intros id j' Hj'. destruct (HQ id) as (gone & rest & Eq & HF). apply list_elem_of_lookup in Hj' as [n Hn].
    destruct (Forall2_lookup_r _ _ _ _ _ HF Hn) as (j & Hjn & Hs). exists j. split; [|done]. rewrite Eq. apply elem_of_app. right.
    by apply list_elem_of_lookup_2 in Hjn. }
  assert (Hh : forall o id, holds e' o id -> holds e o id).
  { intros o id (f & Hf & Hid & [H|[H|(j' & Hj' & H)]]); exists f; split; try done; split; try done; [tauto|tauto|].
    right; right. destruct (Hj id j' Hj') as (j & Hjin & _ & Ho & _). exists j. split; [done|congruence]. }
  destruct I. split; frame e' e; try done.
  - intros id Hid. destruct (inv_held0 id Hid) as [? Hno]. split; [done|]. intros o Ho. by apply (Hno o), Hh.
  - intros o id Ho. by apply (inv_owner0 o), Hh.
  - intros o o' id Ho Ho'. apply (inv_excl0 o o' id); by apply Hh.
  - intros id j' Hj'. destruct (Hj id j' Hj') as (j & Hjin & Hw & Ho & _). destruct (inv_jobs0 id j Hjin) as (o & f & ? & ? & ? & ?).
    exists o, f. rewrite <- Hw, <- Ho. done.
  - intros id q1 j' q2 Eq' Hs. destruct (HQ id) as (gone & rest & Eq & HF). rewrite Eq' in HF.
    apply Forall2_app_inv_r in HF as (r1 & r2 & _ & HF & ->). apply Forall2_cons_inv_r in HF as (j & r3 & (Hw & _) & HF & ->).
    rewrite <- Hw in Hs. rewrite app_assoc in Eq. specialize (inv_last0 id _ _ _ Eq Hs) as ->. by inversion HF.
  - intros id j' Hj'. destruct (Hj id j' Hj') as (j & Hjin & _ & _ & He). rewrite <- He. by apply (inv_epoch0 id).
Qed.

Lemma queue_pop k e k' : queue (pop_head k e) k' = (if decide (k' = k) then tail (queue e k) else queue e k').
Proof.
  unfold pop_head. destruct (decide (k' = k)) as [->|Hne].
  - destruct (queue e k) as [|j [|j2 q]]; unfold queue; es; by rewrite ?lookup_delete_eq, ?lookup_insert_eq.
  - destruct (queue e k) as [|j [|j2 q]]; unfold queue at 1; es; by rewrite ?lookup_delete_ne, ?lookup_insert_ne by congruence.
Qed.

Lemma pop_eq k e : pop_head k e = e <| queues := queues (pop_head k e) |>.
Proof. unfold pop_head. by destruct (queue e k) as [|j [|j2 q]]. Qed.

Lemma same_jobs_refl q : Forall2 same_job q q.
Proof. apply Forall_Forall2_diag, Forall_forall. by intros. Qed.

Lemma Inv_pop D h e k : Inv cfg D h e -> Inv cfg D h (pop_head k e).
Proof.
  intros I. rewrite pop_eq. apply Inv_queues; [|done]. intros id. rewrite <- pop_eq, queue_pop.
  destruct (decide (outKey id = k)) as [<-|_].
  - destruct (queue e (outKey id)) as [|j q]; [by exists [], []|]. exists [j], q. split; [done|apply same_jobs_refl].
  - exists [], (queue e (outKey id)). split; [done|apply same_jobs_refl].
Qed.

Lemma Inv_perform h k ans e a e' a' told : Inv cfg [] h e -> perform_head cfg k ans e a = Some (e', a', told) -> Inv cfg [] h e'.
Proof.
  intros I. unfold perform_head. destruct (queue e k) as [|[w ow ep [r|]] q] eqn:Eq; try done.
  destruct (do_work cfg w k ans a) as [[a2 r] told2]. intros [= <- _ _].
  change (e <| queues ::= ?g |>) with (e <| queues := g (queues e) |>). apply Inv_queues; [|done]. intros id.
  unfold queue at 2. es. destruct (decide (k = outKey id)) as [->|Hne].
  - rewrite lookup_insert_eq. cbn. exists [], (mkJob w ow ep None :: q). split; [done|]. constructor; [done|apply same_jobs_refl].
  - rewrite lookup_insert_ne by done. exists [], (queue e (outKey id)). split; [done|apply same_jobs_refl].
Qed.

(** [e] is [e0] with the write [j] still at the head of the queue of [k]. *)
Definition before (k : RecordKey) (j : job) (e0 e : Engine) : Prop :=
  (exists Q, e = e0 <| queues := Q |>) /\ queue e k = j :: queue e0 k /\ forall k', k' <> k -> queue e k' = queue e0 k'.

Lemma before_view k j e0 e : before k j e0 e -> same_view e0 (pop_head k e).
Proof.
  intros ([Q ->] & Hk & Hne). rewrite pop_eq. unfold same_view. es. split_and!; try done.
  intros id. change (queue (pop_head k (e0 <| queues := Q |>)) (outKey id) = queue e0 (outKey id)). rewrite queue_pop.
  destruct (decide (outKey id = k)) as [->|]; [by rewrite Hk|by apply Hne].
Qed.

Lemma before_modify k j e0 e o g : before k j e0 e -> before k j (modify o g e0) (modify o g e).
Proof. intros ([Q ->] & Hk & Hne). split; [by exists Q|]. done. Qed.

Lemma before_get k j e0 e o : before k j e0 e -> get e o = get e0 o.
Proof. by intros ([Q ->] & _). Qed.

Lemma before_queue k j e0 e k' ow w : before k j e0 e -> before k j (queueLocked k' ow w e0) (queueLocked k' ow w e).
Proof.
  intros B. pose proof B as ([Q ->] & Hk & Hne). split; [eexists; reflexivity|]. rewrite !queue_queueLocked. split.
  - destruct (decide (k = k')) as [<-|]; [by rewrite Hk|done].
  - intros k2 Hk2. rewrite !queue_queueLocked. destruct (decide (k2 = k')) as [->|]; [by rewrite (Hne k' Hk2)|by apply Hne].
Qed.

Lemma before_putOut k j e0 e o : before k j e0 e -> before k j (putOutLocked cfg o e0) (putOutLocked cfg o e).
Proof.
  intros B. unfold putOutLocked. destruct (hasStore cfg); [|done]. rewrite (before_get _ _ _ _ o B). by apply before_queue.
Qed.

Lemma before_settle k j e0 e o : before k j e0 e -> before k j (settleLocked o e0) (settleLocked o e).
Proof.
  intros B. unfold settleLocked. apply (before_modify _ _ _ _ o (fun f => f <| settling := true |>)) in B.
  rewrite (before_get _ _ _ _ o B). by apply before_queue.
Qed.

Lemma before_complete k j e0 e o : before k j e0 e -> before k j (completeLocked cfg o e0) (completeLocked cfg o e).
Proof.
  intros B. unfold completeLocked. rewrite (before_get _ _ _ _ o B). destruct (_ || _); [done|].
  destruct (encodeOutcome _); [|done]. by apply before_putOut, before_modify.
Qed.

Lemma before_pop k j q e : queue e k = j :: q -> before k j (pop_head k e) e.
Proof.
  intros Eq. split; [|split].
  - exists (queues e). rewrite pop_eq. by destruct e.
  - by rewrite queue_pop, decide_True, Eq.
  - intros k' Hne. by rewrite queue_pop, decide_False.
Qed.

(** Nothing but the flow itself keeps its identifier in use. *)
Lemma job_own D h e id j o : Inv cfg D h e -> j ∈ queue e (outKey id) -> j_owner j = OwnOut o -> own h e o id.
Proof.
  intros I Hj Ho. destruct (inv_jobs _ _ _ _ I id j Hj) as (o' & f & Ho' & Hf & Hid & _). rewrite Ho in Ho'. injection Ho' as <-.
  assert (Hh : holds e o id) by (exists f; split; [done|]; split; [done|]; right; right; eauto).
  split; [by apply (inv_owner _ _ _ _ I o)|]. split; [|intros x Hx; by apply (inv_excl _ _ _ _ I x o id)].
  intros Hin. by apply (inv_held _ _ _ _ I _ Hin) in Hh.
Qed.

(** Fewer orphans, fewer holders. *)
Lemma Inv_unorphan D h e m : m ⊆ orphans e -> Inv cfg D h e -> Inv cfg D h (e <| orphans := m |>).
Proof.
  intros Hm I. set (e' := e <| orphans := m |>).
  assert (Hh : forall o id, holds e' o id -> holds e o id).
  { intros o id. apply holds_mono; try done. intros x f' Hx. eauto. }
  destruct I. split; frame e' e; try done.
  - intros id Hid. destruct (inv_held0 id Hid) as [? Hno]. split; [done|]. intros o Ho. by apply (Hno o), Hh.
  - intros o id Ho. by apply (inv_owner0 o), Hh.
  - intros o o' id Ho Ho'. apply (inv_excl0 o o' id); by apply Hh.
  - intros r o Ho. apply inv_orphan0. by apply (lookup_weaken _ _ _ _ Ho).
  - intros Hf. destruct (inv_failed0 Hf) as [? E]. split; [done|]. change (m = ∅). rewrite E in Hm. apply map_eq. intros r. rewrite lookup_empty. destruct (m !! r) eqn:Er; [|done].
    pose proof (lookup_weaken _ _ _ _ Er Hm) as Hx. by rewrite lookup_empty in Hx.
Qed.

Lemma Inv_unsettle D h e o f :
  Inv cfg D h e -> flows e !! o = Some f -> finished f = true -> no_settle e (o_id f) ->
  Inv cfg D h (modify o (fun f => f <| settling := false |>) e).
Proof.
  intros I Hf Hfin Hns. apply (Inv_modify_quota _ _ _ o f _ I); fs; try done; [tauto|congruence|].
  rewrite (cnt_ext _ e); [apply I|]. intros x _. rewrite get_modify. case_decide as E; [|done]. destruct E as [-> _]. done.
Qed.

(** A finished flow that is no orphan and has no write queued uses nothing. *)
Lemma nothing_held D h e o f :
  Inv cfg D h e -> flows e !! o = Some f -> finished f = true -> own h e o (o_id f) ->
  orphans e !! ref f <> Some o -> queue e (outKey (o_id f)) = [] -> forall x, ~ holds e x (o_id f).
Proof.
  intros I Hf Hfin (_ & _ & Hex) Hor Hq x Hx. assert (x = o) as -> by (by apply Hex).
  destruct Hx as (fx & Hfx & _ & Hx). rewrite Hf in Hfx. injection Hfx as <-. destruct Hx as [Hx|[Hx|(j & Hj & _)]].
  - apply (live_unfinished I o f Hf) in Hx as [? _]. congruence.
  - done.
  - rewrite Hq in Hj. by apply elem_of_nil in Hj.
Qed.

Lemma own_sub h e e' o id :
  IDs.owner_of (ids e') id = IDs.owner_of (ids e) id -> (forall x, holds e' x id -> holds e x id) -> own h e o id -> own h e' o id.
Proof. intros Hi Hh (H1 & H2 & H3). split; [congruence|]. split; [done|]. intros x Hx. by apply H3, Hh. Qed.

Lemma enqueue_facts h e o f w :
  own h e o (o_id f) -> flows e !! o = Some f ->
  own h (queueLocked (outKey (o_id f)) (OwnOut o) w e) o (o_id f)
  /\ (no_settle e (o_id f) -> ~ is_settle w -> no_settle (queueLocked (outKey (o_id f)) (OwnOut o) w e) (o_id f)).
Proof.
  intros (Hown & Hnh & Hex) Hf. set (e' := queueLocked _ _ _ _).
  assert (HQ : queue e' (outKey (o_id f)) = queue e (outKey (o_id f)) ++ [mkJob w (OwnOut o) (epoch e) None])
    by (unfold e'; by rewrite queue_queueLocked, decide_True).
  split.
  - split; [done|]. split; [done|]. intros x (fx & Hfx & Hid & [H|[H|(j & Hj & H)]]).
    + apply Hex. exists fx. auto.
    + apply Hex. exists fx. auto.
    + rewrite HQ in Hj. apply elem_of_app in Hj as [Hj|Hj%list_elem_of_singleton]; [|subst j; by injection H].
      apply Hex. exists fx. split; [done|]. split; [done|]. right; right. eauto.
  - intros Hns Hw j Hj. rewrite HQ in Hj. apply elem_of_app in Hj as [Hj|Hj%list_elem_of_singleton]; [by apply Hns|by subst j].
Qed.

Lemma complete_facts D h e o f :
  Inv cfg D h e -> flows e !! o = Some f -> finished f = true -> own h e o (o_id f) -> no_settle e (o_id f) -> failure e = None ->
  let e' := completeLocked cfg o e in
  Inv cfg D h e' /\ failure e' = None /\ own h e' o (o_id f) /\ no_settle e' (o_id f)
  /\ exists f', flows e' !! o = Some f' /\ o_id f' = o_id f /\ finished f' = true /\ adopted f' = adopted f /\ ref f' = ref f.
Proof.
  intros I Hf Hfin Hown Hns Hnf e'. split; [by apply (Inv_complete D h e o f)|]. unfold e', completeLocked.
  rewrite (get_lookup e o f Hf). destruct (_ || _); [by eauto 10|]. destruct (encodeOutcome f) as [oc|]; [|by eauto 10].
  set (g := fun f : Out => f <| phase := Completed |> <| outcome := oc |>).
  assert (Hf1 : flows (modify o g e) !! o = Some (g f)) by (by apply flows_modify).
  assert (Hown1 : own h (modify o g e) o (o_id (g f))) by (by apply (own_modify h e o g f)).
  unfold putOutLocked. destruct (hasStore cfg); [|split_and!; try done; by exists (g f)].
  rewrite (get_lookup _ _ _ Hf1). destruct (enqueue_facts h (modify o g e) o (g f) (PutOut (record (g f))) Hown1 Hf1) as [H1 H2].
  split_and!; [done|done| |by exists (g f)]. apply H2; [done|by intros []].
Qed.

(** What follows a Settle, once it has left the queue. *)
Lemma Inv_after_settle h e o f s oc rf ep res r :
  Inv cfg [] h e -> flows e !! o = Some f -> finished f = true -> own h e o (o_id f) -> queue e (outKey (o_id f)) = [] ->
  failure e = None -> Inv cfg [] h (fst (after cfg (mkJob (SettleDelete s oc rf) (OwnOut o) ep res) r e)).
Proof.
  intros I Hf Hfin Hown Hq Hnf. unfold after. cbn [j_work j_owner]. set (g := fun f : Out => f <| settling := false |>).
  assert (Hns : no_settle e (o_id f)) by (intros j Hj; rewrite Hq in Hj; by apply elem_of_nil in Hj).
  assert (I1 : Inv cfg [] h (modify o g e)) by (by apply (Inv_unsettle [] h e o f)).
  assert (Hf1 : flows (modify o g e) !! o = Some (g f)) by (by apply flows_modify).
  assert (Hown1 : own h (modify o g e) o (o_id (g f))) by (by apply (own_modify h e o g f)).
  set (e1 := modify o g e) in *.
  assert (Hadopt : forall e2 f2, Inv cfg [] h e2 -> flows e2 !! o = Some f2 -> finished f2 = true -> own h e2 o (o_id f2) ->
            no_settle e2 (o_id f2) -> failure e2 = None ->
            Inv cfg [] h (settleLocked o (modify o (fun f => f <| adopted := false |>) e2))).
  { intros e2 f2 I2 Hf2 Hfin2 Hown2 Hns2 Hnf2. apply (Inv_settleLocked _ _ _ o (f2 <| adopted := false |>)); try done.
    - apply (Inv_modify _ _ _ o f2 _ I2); fs; try done. congruence.
    - by apply flows_modify.
    - by apply (own_modify h e2 o (fun f => f <| adopted := false |>) f2). }
  destruct r; [| |done].
  - rewrite (get_lookup _ _ _ Hf1). destruct (adopted (g f)); [by apply (Hadopt e1 (g f))|]. cbn [fst].
    match goal with |- Inv _ _ _ (releaseLocked _ _ ?x) => set (e2 := x) end.
    assert (exists m, m ⊆ orphans e1 /\ m !! ref f <> Some o /\ e2 = e1 <| orphans := m |>) as (m & Hm & Hmo & ->).
    { unfold e2. change (ref (g f)) with (ref f). destruct (negb (list_eqb (ref f) [])) eqn:Er; cbn [andb].
      - case_bool_decide as Eo.
        + exists (delete (ref f) (orphans e1)). split; [apply delete_subseteq|]. by rewrite lookup_delete_eq.
        + exists (orphans e1). split; [done|]. split; [done|]. by destruct e1.
      - exists (orphans e1). split; [done|]. split; [|by destruct e1]. intros Eo.
        destruct (inv_orphan _ _ _ _ I1 _ _ Eo) as (_ & _ & _ & _ & Hr). by destruct (ref f). }
    apply (Inv_release _ _ (e1 <| orphans := m |>)); [by apply Inv_unorphan|apply Hown1|].
    apply (nothing_held [] h _ o (g f)); try done; [by apply Inv_unorphan|].
    apply (own_sub h e1); [done| |exact Hown1]. intros x. apply holds_mono; try done. intros y fy Hy. eauto.
  - destruct (complete_facts [] h e1 o (g f) I1 Hf1 Hfin Hown1 Hns Hnf) as (I2 & Hnf2 & Hown2 & Hns2 & f2 & Hf2 & Hid2 & Hfin2 & _).
    rewrite (get_lookup _ _ _ Hf2). destruct (adopted f2); [|by apply Inv_settle].
    apply (Hadopt _ f2); try done; by rewrite Hid2.
Qed.

Lemma filter_owned ow q : Forall (fun j => j_owner j = ow) q -> filter (fun j => j_owner j <> ow) q = [].
Proof. induction 1 as [|j q Hj _ IH]; [done|]. rewrite filter_cons_False; [done|]. by intros []. Qed.

(** [Register]'s write failed: what is left once it has left the queue. *)
Lemma register_failed_eq e o f id j q :
  flows e !! o = Some f -> o_id f = id -> queue e (outKey id) = j :: q -> Forall (fun j => j_owner j = OwnOut o) q ->
  (forall m, orphans e !! ref f = Some m -> ref f <> []) ->
  exists c rs m Q,
    pop_head (outKey id) (register_failed o e)
    = releaseLocked id IDs.OwnerPublish (modify o (fun f => f <| finished := true |>)
        (e <| queues := Q |> <| orphans := m |> <| cursor := c |> <| pub ::= remove_flow o |> <| rel ::= remove_flow o |>
           <| out ::= delete id |> <| refs := rs |>))
    /\ m ⊆ orphans e /\ m !! ref f <> Some o
    /\ forall k, queue (e <| queues := Q |>) k = (if decide (k = outKey id) then [] else queue e k).
Proof.
  intros Hf Hid Hq Hown Hne. unfold register_failed. rewrite (get_lookup e o f Hf), Hid. cbn zeta.
  assert (Hcan : cancelLocked (outKey id) (OwnOut o) e = e <| queues := <[outKey id := [j]]> (queues e) |>).
  { unfold cancelLocked. by rewrite Hq, (filter_owned _ _ Hown). }
  rewrite Hcan. set (e1 := e <| queues := _ |>). destruct (unlink_eq o e1) as [c ->].
  match goal with |- context [modify o ?g (if _ then ?x else _)] => set (e2 := x) end.
  match goal with |- context [modify o ?g (if ?b then ?x else ?y)] => set (e3 := if b then x else y) end.
  assert (exists rs m, e3 = e2 <| refs := rs |> <| orphans := m |> /\ m ⊆ orphans e /\ m !! ref f <> Some o) as (rs & m & -> & Hm & Hmo).
  { unfold e3. destruct (list_eqb (ref f) []) eqn:Er.
    - exists (refs e2), (orphans e2). split; [by destruct e2|]. split; [done|]. intros E. apply (Hne o E). by destruct (ref f).
    - destruct (decide _) as [E|E].
      + eexists _, _. split; [reflexivity|]. split; [apply delete_subseteq|]. by rewrite lookup_delete_eq.
      + exists (delete (ref f) (refs e2)), (orphans e2). split; [by destruct e2|]. by split. }
  exists c, rs, m, (delete (outKey id) (<[outKey id := [j]]> (queues e))). split; [|split; [done|split; [done|]]].
  - match goal with |- pop_head _ ?x = _ => set (e4 := x) end.
    assert (Hq4 : queue e4 (outKey id) = [j]) by (unfold e4, queue, releaseLocked, modify, e2, e1; es; by rewrite lookup_insert_eq).
    unfold pop_head. rewrite Hq4. reflexivity.
  - intros k. unfold queue. es. destruct (decide (k = outKey id)) as [->|Hk]; [by rewrite lookup_delete_eq|].
    by rewrite lookup_delete_ne, lookup_insert_ne by done.
Qed.

Lemma Inv_register_failed h e o f j q :
  Inv cfg [] h e -> flows e !! o = Some f -> queue e (outKey (o_id f)) = j :: q -> j_owner j = OwnOut o ->
  Inv cfg [] h (pop_head (outKey (o_id f)) (register_failed o e)).
Proof.
  intros I Hf Hq Hj. assert (Hown : own h e o (o_id f)) by (apply (job_own [] h e (o_id f) j o I); [rewrite Hq; by left|done]).
  assert (Hall : Forall (fun j => j_owner j = OwnOut o) q).
  { apply Forall_forall. intros j' Hj'. destruct (inv_jobs _ _ _ _ I (o_id f) j') as (o' & f' & Ho' & Hf' & Hid' & _); [rewrite Hq; by right|].
    rewrite Ho'. f_equal. apply Hown. exists f'. split; [done|]. split; [done|]. right; right. exists j'. rewrite Hq. split; [by right|done]. }
  destruct (register_failed_eq e o f (o_id f) j q Hf eq_refl Hq Hall) as (c & rs & m & Q & -> & Hm & Hmo & HQ).
  { intros x Hx. by destruct (inv_orphan _ _ _ _ I _ _ Hx) as (_ & _ & _ & _ & ?). }
  set (e0 := e <| queues := Q |>) in *. set (g := fun f : Out => f <| finished := true |>).
  assert (I0 : Inv cfg [] h (e0 <| orphans := m |>)).
  { apply Inv_unorphan; [done|]. apply Inv_queues; [|done]. intros id. fold e0. rewrite HQ. destruct (decide _) as [E|_].
    - exists (queue e (outKey id)), []. by rewrite app_nil_r.
    - exists [], (queue e (outKey id)). split; [done|apply same_jobs_refl]. }
  set (e1 := e0 <| orphans := m |>) in *. set (e2 := _ <| refs := rs |>).
  assert (Hdone : Inv cfg [] h (modify o g e2)).
  { destruct (finished f) eqn:Hfin.
    - apply (Inv_view _ _ _ e1); [|done]. pose proof (finished_notin [] h e1 o f I0 Hf Hfin) as Hnin.
      rewrite app_nil_r in Hnin. apply not_elem_of_app in Hnin as [Hp Hr]. unfold same_view, modify, e2. es.
      rewrite !remove_flow_notin by done. split_and!; try done.
      + apply alter_id. intros f' Hf'. change (flows e !! o = Some f') in Hf'. rewrite Hf in Hf'. injection Hf' as <-. unfold g. destruct f; cbn in *; by subst.
      + apply delete_id. destruct (out e1 !! o_id f) as [x|] eqn:Hx; [|done].
        destruct (inv_out _ _ _ _ I0 _ _ Hx) as (fx & Hfx & Eid & Hn & _). assert (x = o) as -> by (apply Hown; exists fx; auto).
        change (flows e !! o = Some fx) in Hfx. congruence.
    - assert (Hin : o ∈ pub e1 ++ rel e1) by (pose proof (live_member I0 o f Hf Hfin) as H; by rewrite app_nil_r in H).
      pose proof (Inv_detach [] h e1 o I0 Hin) as I1. destruct (unlink_eq o e1) as [c' E]. rewrite E in I1.
      apply (Inv_view _ _ _ _ (e1 <| cursor := c |> <| pub ::= remove_flow o |> <| rel ::= remove_flow o |>)) in I1; [|by repeat split].
      apply (Inv_finish_gen [] h _ o f g rs I1 Hf); try done. left. apply (live_unfinished I0 o f Hf). by apply (inv_heap _ _ _ _ I0). }
  assert (Hf2 : flows (modify o g e2) !! o = Some (g f)) by (by apply flows_modify).
  apply Inv_release; [done|apply Hown|]. apply (nothing_held [] h _ o (g f) Hdone); try done.
  - apply (own_sub h e); [done| |exact Hown]. intros x. apply holds_mono.
    + intros y fy Hy. destruct (decide (y = o)) as [->|Hne]; [rewrite Hf2 in Hy; injection Hy as <-; by exists f|].
      exists fy. split; [|done]. unfold modify in Hy. es. by rewrite lookup_alter_ne in Hy by done.
    + apply delete_subseteq.
    + done.
    + intros j'. change (j' ∈ queue e0 (outKey (o_id f)) -> j' ∈ queue e (outKey (o_id f))). rewrite HQ, decide_True by done.
      intros H. by apply elem_of_nil in H.
  - change (queue e0 (outKey (o_id f)) = []). by rewrite HQ, decide_True.
Qed.

(** What follows a Settle does not depend on whether it is still queued. *)
Lemma before_after_settle k j0 e0 e s oc rf o ep res r :
  before k j0 e0 e ->
  before k j0 (fst (after cfg (mkJob (SettleDelete s oc rf) (OwnOut o) ep res) r e0))
              (fst (after cfg (mkJob (SettleDelete s oc rf) (OwnOut o) ep res) r e)).
Proof.
  intros B. unfold after. cbn [j_work j_owner]. apply (before_modify _ _ _ _ o (fun f => f <| settling := false |>)) in B.
  set (e1 := modify _ _ e) in *. set (e2 := modify _ _ e0) in *. destruct r; [| |done].
  - rewrite (before_get _ _ _ _ o B). destruct (adopted _); cbn [fst]; [by apply before_settle, before_modify|].
    destruct B as ([Q ->] & Hk & Hne). change (orphans (e2 <| queues := Q |>)) with (orphans e2).
    split; [exists Q; case_match; reflexivity|]. by case_match.
  - apply (before_complete _ _ _ _ o) in B. rewrite (before_get _ _ _ _ o B).
    destruct (adopted _); cbn [fst]; [by apply before_settle, before_modify|by apply before_modify].
Qed.

(** What the queue of an inbound record holds. *)
Definition in_job (j : job) : Prop := exists i, j_owner j = OwnIn i /\ (j_work j = PutIn \/ j_work j = DeleteIn).

Lemma key_cases k : (exists id, k = outKey id) \/ forall id, k <> outKey id.
Proof.
  destruct k as [d p]. destruct (decide (d = Outbound)) as [->|Hd]; [left; by exists p|right]. intros id [= ? _]. done.
Qed.

Lemma Inv_finish_head h k e e' told :
  Inv cfg [] h e -> ((forall id, k <> outKey id) -> Forall in_job (queue e k)) ->
  finish_head cfg k e = Some (e', told) -> Inv cfg [] h e'.
Proof.
  intros I Hin. unfold finish_head. destruct (queue e k) as [|[w ow ep [r|]] q] eqn:Eq; try done.
  set (j := mkJob w ow ep (Some r)).
  assert (Hend : forall e1 fail, Inv cfg [] h (pop_head k e1) ->
            match fail with Some err => Some (failLocked err (pop_head k e1)) | None => Some (pop_head k e1, []) end = Some (e', told) ->
            Inv cfg [] h e').
  { intros e1 [err|] I1; [|by intros [= <- _]]. intros [= E]. pose proof (Inv_fail h (pop_head k e1) err I1) as I2.
    rewrite E in I2. exact I2. }
  assert (Hplain : forall fail, match fail with Some err => Some (failLocked err (pop_head k e)) | None => Some (pop_head k e, []) end
                                = Some (e', told) -> Inv cfg [] h e') by (intros fail; apply Hend, Inv_pop, I).
  destruct (Z.eqb_spec ep (epoch e)) as [Hep|]; [|apply (Hplain None)].
  destruct (key_cases k) as [[id ->]|Hk].
  - assert (Hj : j ∈ queue e (outKey id)) by (rewrite Eq; by left).
    destruct (inv_jobs _ _ _ _ I id j Hj) as (o & f & Ho & Hf & Hid & Hfit).
    assert (Hnf : failure e = None) by (by apply (inv_epoch _ _ _ _ I id j Hj)). cbn in Ho. subst ow id.
    destruct w as [r0|r0|s oc rf| |]; cbn in Hfit; try done.
    + unfold after. cbn [j_work j_owner j]. destruct r; [apply (Hplain None)|..];
        apply Hend with (fail := None); by apply (Inv_register_failed h e o f j q).
    + unfold after. cbn [j_work j_owner j]. destruct r; [apply (Hplain None)|apply (Hplain (Some _))..].
    + assert (q = []) as -> by (by apply (inv_last _ _ _ _ I (o_id f) [] j q)).
      pose proof (before_pop _ _ _ _ Eq) as B. set (e0 := pop_head (outKey (o_id f)) e) in *.
      assert (I0 : Inv cfg [] h e0) by apply Inv_pop, I.
      assert (Hq0 : queue e0 (outKey (o_id f)) = []) by (unfold e0; by rewrite queue_pop, decide_True, Eq).
      assert (Hf0 : flows e0 !! o = Some f) by (unfold e0; rewrite pop_eq; exact Hf).
      assert (Hown : own h e0 o (o_id f)).
      { apply (own_sub h e); [unfold e0; by rewrite pop_eq| |by apply (job_own [] h e (o_id f) j)].
        intros x. apply holds_mono; [|by unfold e0; rewrite pop_eq..|].
        - intros y fy Hy. exists fy. unfold e0 in Hy. rewrite pop_eq in Hy. by split_and!.
        - rewrite Hq0. intros j' Hj'. by apply elem_of_nil in Hj'. }
      assert (Hnf0 : failure e0 = None) by (unfold e0; by rewrite pop_eq).
      pose proof (Inv_after_settle h e0 o f s oc rf ep (Some r) r I0 Hf0 (proj2 Hfit) Hown Hq0 Hnf0) as I1.
      pose proof (before_view _ _ _ _ (before_after_settle _ _ _ _ s oc rf o ep (Some r) r B)) as V. fold j in V, I1.
      destruct (after cfg j r e) as [e1 fail]. by apply Hend, (Inv_view _ _ _ _ _ V).
  - destruct (Forall_cons_1 _ _ _ (Hin Hk)) as [(i & Ho & Hw) _]. cbn in Ho, Hw. subst ow. unfold after. cbn [j_work j_owner j].
    destruct Hw as [-> | ->]; destruct r; first [apply (Hplain None)|apply (Hplain (Some _))].
Qed.
End steps.

End EngineInv.
