(* ===== verification/Footprint.v ===== *)
(** * Footprint: what an operation on one outbound flow leaves alone

    The operations of [Inflight] on a flow [o] change that flow, the write
    queue of its record and the bookkeeping of outbound flows: no other
    flow, no other queue, nothing inbound. *)

From stdpp Require Import gmap sorting list_tactics.
From S2P Require Import Prelude GoLib Errors Batch IdTable Session Inflight Machine EngineInv.

Module Footprint.
Import Inflight Machine EngineInv.

(** The acknowledgements owed for inbound messages. *)
Definition in_ctrl (l : list ctrlFrame) : list ctrlFrame := filter (fun c => c_typ c <> PUBREL) l.

(** [e'] has the inbound flows of [e] and owes the same acknowledgements. *)
Record same_in (e e' : Engine) : Prop := {
  si_ins : ins e' = ins e;
  si_nextIn : nextIn e' = nextIn e;
  si_inb : inb e' = inb e;
  si_fifo : fifo e' = fifo e;
  si_ctrl : in_ctrl (ctrl e') = in_ctrl (ctrl e);
  si_failure : failure e' = failure e;
  si_epoch : epoch e' = epoch e;
  si_queue k : Dir k <> Outbound -> queue e' k = queue e k;
}.

#[export] Instance same_in_preorder : PreOrder same_in.
Proof.
  split.
  - by intros e.
  - intros e1 e2 e3 [] []. split; try congruence. intros k Hk. by rewrite si_queue1, si_queue0.
Qed.

(** Flows, queues and inbound state are the same. *)
Definition books (e e' : Engine) : Prop :=
  flows e' = flows e /\ queues e' = queues e /\ ins e' = ins e /\ nextIn e' = nextIn e /\ inb e' = inb e /\ fifo e' = fifo e
  /\ in_ctrl (ctrl e') = in_ctrl (ctrl e) /\ failure e' = failure e /\ epoch e' = epoch e.

Lemma books_same_in e e' : books e e' -> same_in e e'.
Proof. intros (_ & HQ & ? & ? & ? & ? & ? & ? & ?). split; try done. intros k _. unfold queue. by rewrite HQ. Qed.

(** The operation from [e] to [e'] concerned flow [o] only. *)
Record touches (o : flow) (e e' : Engine) : Prop := {
  tc_flows x : x <> o -> flows e' !! x = flows e !! x;
  tc_flow f : flows e !! o = Some f ->
    exists f', flows e' !! o = Some f' /\ o_id f' = o_id f /\ (finished f = true -> finished f' = true);
  tc_queue k : k <> outKey (o_id (get e o)) -> queue e' k = queue e k;
  tc_grow : exists q, queue e' (outKey (o_id (get e o))) = queue e (outKey (o_id (get e o))) ++ q
                      /\ Forall (fun j => j_result j = None) q;
  tc_in : same_in e e';
}.

Create HintDb touch.

Section ops.
Context {cfg : Config}.
Implicit Types (e : Engine) (o : flow).

Lemma touches_get o e e' f : flows e !! o = Some f -> touches o e e' -> o_id (get e' o) = o_id (get e o).
Proof. intros Hf [_ Hg _ _ _]. destruct (Hg f Hf) as (f' & Hf' & Hid & _). by rewrite (get_lookup _ _ _ Hf), (get_lookup _ _ _ Hf'). Qed.

Lemma touches_refl o e : touches o e e.
Proof. split; try done; [intros f Hf; by exists f|]. exists []. by rewrite app_nil_r. Qed.

Lemma touches_trans o e1 e2 e3 :
  is_Some (flows e1 !! o) -> touches o e1 e2 -> touches o e2 e3 -> touches o e1 e3.
Proof.
  intros [f Hf] T1 T2. pose proof (touches_get o e1 e2 f Hf T1) as Hid. destruct T1 as [A1 B1 C1 G1 D1], T2 as [A2 B2 C2 G2 D2]. split.
  - intros x Hx. by rewrite A2, A1.
  - intros f1 Hf1. destruct (B1 f1 Hf1) as (f2 & Hf2 & E2 & F2). destruct (B2 f2 Hf2) as (f3 & Hf3 & E3 & F3).
    exists f3. split; [done|]. split; [congruence|]. auto.
  - intros k Hk. rewrite C2, C1; [done|done|congruence].
  - rewrite Hid in G2. destruct G1 as (q1 & E1 & F1), G2 as (q2 & E2 & F2). exists (q1 ++ q2).
    rewrite E2, E1, app_assoc. split; [done|]. by apply Forall_app.
  - by transitivity e2.
Qed.

(** Changes of the bookkeeping alone. *)
Lemma touches_view o e e' : books e e' -> touches o e e'.
Proof.
  intros (Hf & HQ & ? & ? & ? & ? & ? & ? & ?). assert (Hq : forall k, queue e' k = queue e k) by (intros k; unfold queue; by rewrite HQ).
  split; [by rewrite Hf| |done| |by split].
  - intros f. rewrite Hf. by exists f.
  - exists []. by rewrite app_nil_r.
Qed.

Lemma touches_modify o g e :
  (forall f, o_id (g f) = o_id f) -> (forall f, finished f = true -> finished (g f) = true) -> touches o e (modify o g e).
Proof.
  intros Hg Hn. split; [| |done|exists []; by rewrite app_nil_r|done].
  - intros x Hx. unfold modify. es. by rewrite lookup_alter_ne.
  - intros f Hf. exists (g f). split; [by apply flows_modify|]. auto.
Qed.

Lemma touches_enqueue o w e : touches o e (queueLocked (outKey (o_id (get e o))) (OwnOut o) w e).
Proof.
  split; [done| | | |split; try done].
  - intros f Hf. by exists f.
  - intros k Hk. by rewrite queue_queueLocked, decide_False.
  - exists [mkJob w (OwnOut o) (epoch e) None]. rewrite queue_queueLocked, decide_True by done. split; [done|]. by constructor.
  - intros k Hk. rewrite queue_queueLocked, decide_False; [done|]. by intros ->.
Qed.

Lemma books_pubrel id rc g e : books e (pushCtrlLocked PUBREL id rc g None e).
Proof.
  split_and!; try done. unfold pushCtrlLocked. es. unfold in_ctrl. rewrite filter_app, filter_cons_False by (cbn; tauto).
  by rewrite filter_nil, app_nil_r.
Qed.

Lemma touches_pubrel o id rc g e : touches o e (pushCtrlLocked PUBREL id rc g None e).
Proof.
  apply touches_view, books_pubrel.
Qed.

Lemma touches_unlink o e : touches o e (unlinkLocked o e).
Proof. destruct (unlink_eq o e) as [c ->]. apply touches_view. by split_and!. Qed.

Lemma some_touched o e e' : is_Some (flows e !! o) -> touches o e e' -> is_Some (flows e' !! o).
Proof. intros [f Hf] [_ H _ _ _]. destruct (H f Hf) as (f' & -> & _). by eexists. Qed.
End ops.

#[export] Hint Resolve touches_refl touches_enqueue touches_pubrel touches_unlink : touch.

(** Splits a footprint at the state [e1] in between. *)
Ltac via e1 :=
  match goal with
  | |- touches ?o ?e _ =>
      eapply (touches_trans o e e1); [eauto|try (by eauto with touch); try (by apply touches_modify); try (apply touches_view; by split_and!)|]
  end.

Section composed.
Context {cfg : Config}.
Implicit Types (e : Engine) (o : flow).

Lemma touches_putOut o e : touches o e (putOutLocked cfg o e).
Proof. unfold putOutLocked. destruct (hasStore cfg); auto with touch. Qed.

Lemma touches_settle o e : is_Some (flows e !! o) -> touches o e (settleLocked o e).
Proof. intros H. unfold settleLocked. via (modify o (fun f => f <| settling := true |>) e). auto with touch. Qed.

Lemma touches_complete o e : is_Some (flows e !! o) -> touches o e (completeLocked cfg o e).
Proof.
  intros H. unfold completeLocked. destruct (_ || _); [auto with touch|]. destruct (encodeOutcome _) as [oc|]; [|auto with touch].
  via (modify o (fun f => f <| phase := Completed |> <| outcome := oc |>) e). apply touches_putOut.
Qed.

Lemma touches_retire o e : is_Some (flows e !! o) -> touches o e (retireLocked cfg o e).
Proof.
  intros H. unfold retireLocked. destruct (negb _).
  - via (e <| orphans ::= <[ref (get e o) := o]> |>). destruct (settle (get e o)); [by apply touches_settle|by apply touches_complete].
  - destruct (_ && _); [apply touches_view; by split_and!|by apply touches_settle].
Qed.

Lemma touches_finish o err e : is_Some (flows e !! o) -> touches o e (finishLocked o err e).
Proof.
  intros H. destruct (finish_eq o err e) as [rs ->].
  via (e <| out ::= delete (o_id (get e o)) |> <| refs := rs |>). by apply touches_modify.
Qed.

Lemma touches_credit o e : is_Some (flows e !! o) -> touches o e (creditLocked o e).
Proof.
  intros H. unfold creditLocked. destruct (counted _); [|auto with touch]. via (e <| quota ::= Z.succ |>). by apply touches_modify.
Qed.

(** A flow ends. *)
Lemma finished_finish o err e : is_Some (flows e !! o) -> finished (get (finishLocked o err e) o) = true.
Proof. intros [f Hf]. destruct (finish_eq o err e) as [rs ->]. by rewrite (get_modify_eq _ _ _ f). Qed.

Lemma finished_touched o e e' : is_Some (flows e !! o) -> touches o e e' -> finished (get e o) = true -> finished (get e' o) = true.
Proof. intros [f Hf] [_ H _ _ _]. destruct (H f Hf) as (f' & Hf' & _ & Hn). rewrite (get_lookup _ _ _ Hf), (get_lookup _ _ _ Hf'). auto. Qed.

(** From finishing on, with the quota given back or not. *)
Definition ends (o : flow) (e e' : Engine) : Prop := touches o e e' /\ finished (get e' o) = true.

Lemma ends_after o e e1 e2 : is_Some (flows e !! o) -> touches o e e1 -> ends o e1 e2 -> ends o e e2.
Proof. intros H T [T' Hn]. split; [by apply (touches_trans o e e1)|done]. Qed.

Lemma ends_finish_retire o err e : is_Some (flows e !! o) -> ends o e (retireLocked cfg o (finishLocked o err e)).
Proof.
  intros H. pose proof (touches_finish o err e H) as T1. pose proof (some_touched o _ _ H T1) as H1.
  pose proof (touches_retire o _ H1) as T2. split; [by apply (touches_trans o e (finishLocked o err e))|].
  apply (finished_touched o _ _ H1 T2). by apply finished_finish.
Qed.

Lemma ends_finish_credit_retire o err e :
  is_Some (flows e !! o) -> ends o e (retireLocked cfg o (creditLocked o (finishLocked o err e))).
Proof.
  intros H. pose proof (touches_finish o err e H) as T1. pose proof (some_touched o _ _ H T1) as H1.
  pose proof (touches_credit o _ H1) as T2. pose proof (some_touched o _ _ H1 T2) as H2.
  pose proof (touches_retire o _ H2) as T3. split.
  - apply (touches_trans o e (finishLocked o err e)); [done|done|]. by eapply touches_trans.
  - apply (finished_touched o _ _ H2 T3), (finished_touched o _ _ H1 T2). by apply finished_finish.
Qed.

Lemma ends_drop o err e : is_Some (flows e !! o) -> ends o e (drop_flow (cfg := cfg) o err e).
Proof.
  intros H. unfold drop_flow. apply (ends_after o e (unlinkLocked o e)); [done|auto with touch|].
  apply ends_finish_retire. by apply (some_touched o e); auto with touch.
Qed.
End composed.

#[export] Hint Resolve touches_putOut touches_settle touches_complete touches_retire touches_finish touches_credit : touch.

(** ** Collecting PUBLISHes, one at a time *)

Definition send_flow (o : flow) (e : Engine) : Engine :=
  let e := modify o (fun f => f <| attempted := true |> <| counted := true |>) e in
  let e := e <| quota ::= Z.pred |> in
  e <| cursor := next_flow e o |>.

Definition shorten (o : flow) (left : Z) (e : Engine) : Engine :=
  modify o (fun f => f <| expiry := left |> <| packet := with_expiry (packet f) left |>) e.

(** [f] is next and may go. *)
Definition sendable (e : Engine) (f : Out) : Prop :=
  seq f <= released e /\ queue e (outKey (o_id f)) = [] /\ quota e <> 0.

(** The loop of [Collect] over the flows from the cursor on, as a relation. *)
Inductive loop_run (cfg : Config) : list flow -> Engine -> Engine -> list item -> Prop :=
| lr_stop l e : loop_run cfg l e e []
| lr_send o l e f e' its :
    flows e !! o = Some f -> sendable e f -> loop_run cfg l (send_flow o e) e' its ->
    loop_run cfg (o :: l) e e' (IPublish (packet f) (attempted f) :: its)
| lr_shorten o l e f left e' its :
    hasStore cfg = false -> flows e !! o = Some f -> sendable e f -> attempted f = false ->
    loop_run cfg l (send_flow o (shorten o left e)) e' its ->
    loop_run cfg (o :: l) e e' (IPublish (with_expiry (packet f) left) false :: its)
| lr_drop o l e f e' its :
    flows e !! o = Some f -> attempted f = false -> loop_run cfg l (drop_flow (cfg := cfg) o ErrMessageExpired e) e' its ->
    loop_run cfg (o :: l) e e' its
| lr_save o l e f left :
    hasStore cfg = true -> flows e !! o = Some f -> attempted f = false ->
    loop_run cfg (o :: l) e (putOutLocked cfg o (shorten o left e)) [].

Section collecting.
Context {cfg : Config}.
Implicit Types (h : gset Z) (e : Engine) (o : flow) (l : list flow).

Lemma stored_queue e k : storedLocked e k = true -> queue e k = [].
Proof. unfold storedLocked. by destruct (queue e k). Qed.

Lemma publish_loop_run l : forall sent now e,
  (forall o, o ∈ l -> is_Some (flows e !! o)) ->
  loop_run cfg l e (fst (publish_loop cfg l sent now e)) (snd (publish_loop cfg l sent now e)).
Proof.
  induction l as [|o l IH]; intros sent now e Hl; [constructor|]. destruct (Hl o) as [f Hf]; [by left|].
  assert (Hkeep : forall e1, (forall x, is_Some (flows e !! x) -> is_Some (flows e1 !! x)) -> forall x, x ∈ l -> is_Some (flows e1 !! x)).
  { intros e1 H x Hx. apply H, Hl. by right. }
  assert (Hmod : forall g e1 x, is_Some (flows e1 !! x) -> is_Some (flows (modify o g e1) !! x)).
  { intros g e1 x [fx Hx]. unfold modify. es. destruct (decide (x = o)) as [->|]; [rewrite lookup_alter_eq, Hx|rewrite lookup_alter_ne, Hx by done]; by eexists. }
  cbn [publish_loop]. cbn zeta. rewrite (get_lookup e o f Hf). destruct (negb (sent <? _)); [constructor|].
  destruct (_ || _) eqn:Eb; [constructor|]. apply orb_false_iff in Eb as [Eb Hq]. apply orb_false_iff in Eb as [Hs Hst].
  assert (Hsend : sendable e f).
  { split; [by apply Z.ltb_ge in Hs|]. split; [by apply stored_queue, negb_false_iff|]. by apply Z.eqb_neq in Hq. }
  assert (Hgo : loop_run cfg (o :: l) e
    (fst (let (e3, its) := publish_loop cfg l (sent + 1) now (send_flow o e) in (e3, IPublish (packet f) (attempted f) :: its)))
    (snd (let (e3, its) := publish_loop cfg l (sent + 1) now (send_flow o e) in (e3, IPublish (packet f) (attempted f) :: its)))).
  { specialize (IH (sent + 1) now (send_flow o e)). destruct (publish_loop cfg l (sent + 1) now (send_flow o e)) as [e3 its].
    apply lr_send; [done|done|]. apply IH, Hkeep. intros x Hx. by apply (Hmod _ e x). }
  destruct (attempted f) eqn:Ha; [exact Hgo|]. destruct (expiresAt f) as [t|]; [|exact Hgo].
  destruct (t <=? now).
  - apply (lr_drop cfg o l e f); [done|done|]. apply IH, Hkeep. intros x Hx. destruct (decide (x = o)) as [->|Hne].
    + apply (some_touched o e); [done|]. by apply ends_drop.
    + destruct (ends_drop (cfg := cfg) o ErrMessageExpired e) as [[H _ _ _ _] _]; [by eexists|].
      change (is_Some (flows (drop_flow (cfg := cfg) o ErrMessageExpired e) !! x)). by rewrite H.
  - destruct (_ <? expiry f); [|exact Hgo]. destruct (hasStore cfg) eqn:Hc; [by apply (lr_save cfg o l e f)|].
    match goal with |- context [packet (get ?x o)] => change x with (shorten o (secondsUntil t now) e) end.
    assert (Hf1 : flows (shorten o (secondsUntil t now) e) !! o = Some (f <| expiry := secondsUntil t now |> <| packet := with_expiry (packet f) (secondsUntil t now) |>))
      by exact (flows_modify o _ e f Hf).
    rewrite (get_lookup _ _ _ Hf1). fs. specialize (IH (sent + 1) now (send_flow o (shorten o (secondsUntil t now) e))).
    unfold send_flow in IH at 2 3. cbn zeta in IH. destruct (publish_loop cfg l (sent + 1) now _) as [e3 its].
    apply (lr_shorten cfg o l e f (secondsUntil t now)); [done|done|done|done|]. apply IH, Hkeep. intros x Hx. by apply Hmod, Hmod.
Qed.

(** What the loop starts from and keeps. *)
Record collecting h l e : Prop := {
  cl_inv : Inv cfg [] h e;
  cl_ok : failure e = None;
  cl_nodup : NoDup l;
  cl_pub o : o ∈ l -> o ∈ pub e;
}.

Lemma collecting_head h o l e f :
  collecting h (o :: l) e -> flows e !! o = Some f -> finished f = false /\ flow_wf (nextSeq e) f /\ out e !! o_id f = Some o.
Proof.
  intros [I _ _ Hp] Hf. destruct (member_live I o) as (f' & Hf' & Ho & Hn & Hwf); [apply elem_first, Hp; by left|].
  rewrite Hf in Hf'. by injection Hf' as <-.
Qed.

Lemma collecting_send h o l e f :
  collecting h (o :: l) e -> flows e !! o = Some f -> sendable e f -> collecting h l (send_flow o e).
Proof.
  intros C Hf (_ & _ & Hq). destruct (collecting_head _ _ _ _ _ C Hf) as (Hn & _). destruct C as [I Hnf Hnd Hp].
  apply NoDup_cons in Hnd as [_ Hnd]. split; [|done|done|intros x Hx; apply Hp; by right].
  exact (Inv_send h e o f _ I Hf Hn Hq).
Qed.

Lemma collecting_shorten h o l left e f :
  collecting h (o :: l) e -> flows e !! o = Some f -> collecting h (o :: l) (shorten o left e).
Proof.
  intros C Hf. destruct (collecting_head _ _ _ _ _ C Hf) as (Hn & _). destruct C as [I Hnf Hnd Hp]. split; try done.
  by apply (Inv_expiry _ _ _ o f).
Qed.

Lemma collecting_drop h o l e : collecting h (o :: l) e -> collecting h l (drop_flow (cfg := cfg) o ErrMessageExpired e).
Proof.
  intros [I Hnf Hnd Hp]. apply NoDup_cons in Hnd as [Hnin Hnd]. destruct (drop_flow_keeps (cfg := cfg) o ErrMessageExpired e) as (_ & Kp & _ & Kf).
  split; [apply Inv_drop_flow; [done|apply elem_of_app; left; apply Hp; by left|done]|congruence|done|].
  intros x Hx. rewrite Kp. apply elem_of_remove. split; [apply Hp; by right|]. by intros ->.
Qed.
End collecting.

End Footprint.
