(* ===== verification/EngineConn.v ===== *)
(** * EngineConn: connections, session loss, discarding and restoring

    The operations of [Inflight] that touch every flow at once preserve the
    invariant of [EngineInv], and with them every step of [Machine]. *)

From stdpp Require Import gmap sorting list_tactics.
From S2P Require Import Prelude GoLib Errors Batch IdTable Session Inflight Machine EngineInv Footprint.

Module EngineConn.
Import Inflight Machine EngineInv Footprint.

Section conn.
Context {cfg : Config}.
Implicit Types (D : list flow) (h : gset Z) (e : Engine) (o : flow).

(** ** A new connection *)

Lemma flow_wf_same n f f' :
  qos f' = qos f -> phase f' = phase f -> packet f' = packet f -> closes f' = closes f -> seq f' = seq f -> pubSeq f' = pubSeq f ->
  flow_wf n f -> flow_wf n f'.
Proof. intros H1 H2 H3 H4 H5 H6 []. split; rewrite ?H1, ?H2, ?H3, ?H4, ?H5, ?H6; done. Qed.

Lemma Inv_uncount1 D h e o : Inv cfg D h e -> Inv cfg D h (modify o (fun f => f <| counted := false |>) e).
Proof.
  intros I. destruct (flows e !! o) as [f|] eqn:Hf; [|by apply (Inv_view _ _ _ _ _ (modify_absent o _ e Hf))].
  apply (Inv_modify _ _ _ o f _ I); fs; try done. intros Hn.
  destruct (live_unfinished I o f Hf) as [_ Hwf]; [by apply (inv_heap _ _ _ _ I)|]. by apply (flow_wf_same _ f).
Qed.

Abbreviation uncount := (fold_left (fun e (x : Z * flow) => modify (snd x) (fun f => f <| counted := false |>) e)).

Lemma Inv_uncount h l : forall e, Inv cfg [] h e -> Inv cfg [] h (uncount l e).
Proof. induction l as [|x l IH]; intros e I; [done|]. by apply IH, Inv_uncount1. Qed.

Lemma uncount_spec l : forall e o, (o ∈ map snd l \/ counted (get e o) = false) -> counted (get (uncount l e) o) = false.
Proof.
  induction l as [|x l IH]; intros e o H; cbn [fold_left map] in *.
  - destruct H as [H|H]; [by apply elem_of_nil in H|done].
  - apply IH. destruct (decide (o = snd x)) as [->|Hne].
    + right. rewrite get_modify. case_decide as E; [done|]. unfold get. destruct (flows e !! snd x) eqn:F; [|done].
      exfalso. apply E. split; [done|]. by eexists.
    + rewrite get_modify_ne by done. destruct H as [[?|?]%elem_of_cons|?]; [done|by left|by right].
Qed.

Lemma cnt_zero e l : (forall o, o ∈ l -> counted (get e o) = false) -> cnt e l = 0.
Proof.
  induction l as [|o l IH]; intros H; [done|]. rewrite cnt_cons, H by (by left). rewrite IH; [done|]. intros; apply H; by right.
Qed.

(** All units of quota are free on a new connection. *)
Lemma Inv_new_quota h e q :
  Inv cfg [] h e -> 0 <= q -> (forall o, o ∈ pub e ++ rel e ++ [] -> counted (get e o) = false) ->
  Inv cfg [] h (e <| quotaMax := q |> <| quota := q |>).
Proof.
  intros I Hq Hc. set (e' := _ <| quota := q |>). destruct I. split; frame e' e; try done.
  change (cnt e') with (cnt e). change (quota e') with q. change (quotaMax e') with q. rewrite (cnt_zero e) by done. lia.
Qed.

Lemma out_members D h e o : Inv cfg D h e -> o ∈ pub e ++ rel e ++ D -> o ∈ map snd (map_to_list (out e)).
Proof.
  intros I Hin. apply (inv_mem _ _ _ _ I) in Hin as [id Hid]. apply list_elem_of_fmap. exists (id, o). split; [done|].
  by apply elem_of_map_to_list.
Qed.

(** ** A lost session *)

Lemma lose_in_view e x : same_view e (lose_in cfg e x).
Proof.
  destruct x as [id i]. unfold lose_in. destruct (_ && _); [|by repeat split]. unfold same_view. es. split_and!; try done.
  intros id'. rewrite queue_queueLocked. by rewrite decide_False.
Qed.

Lemma lose_ins_view l : forall e, same_view e (fold_left (lose_in cfg) l e).
Proof.
  induction l as [|x l IH]; intros e; [done|]. cbn [fold_left]. etransitivity; [apply lose_in_view|apply IH].
Qed.

Lemma Inv_drain h e : Inv cfg [] h e -> Inv cfg (fst (drainFlowsLocked e)) h (snd (drainFlowsLocked e)).
Proof.
  intros I. pose proof (drain_perm e) as P. set (fl := fst (drainFlowsLocked e)) in *. set (e' := snd (drainFlowsLocked e)).
  assert (P' : pub e' ++ rel e' ++ fl ≡ₚ pub e ++ rel e ++ []) by (change (fl ≡ₚ pub e ++ rel e ++ []); by rewrite P, app_nil_r).
  destruct I. split; frame e' e; try done.
  - by rewrite P'.
  - intros o. by rewrite P'.
  - split; constructor.
  - split; constructor.
  - rewrite P'. done.
Qed.

(** What a lost flow becomes does not disturb the others. *)
Lemma lose_flow_keeps now e o :
  (pub (lose_flow cfg now e o) = pub e \/ pub (lose_flow cfg now e o) = pub e ++ [o])
  /\ (forall x, pubSeq (get (lose_flow cfg now e o) x) = pubSeq (get e x)) /\ failure (lose_flow cfg now e o) = failure e.
Proof.
  assert (Hk : forall e', keeps o e e' -> (forall x, pubSeq (get e' x) = pubSeq (get e x))).
  { intros e' K x. destruct (decide (x = o)) as [->|Hne]; [apply K|]. by rewrite (keeps_get o e e' x). }
  unfold lose_flow. match goal with |- context [match ?g with Some _ => _ | None => _ end] => set (gone := g) end.
  destruct gone as [err|].
  - pose proof (keeps_trans o _ _ _ (keeps_finish o (Some err) e) (keeps_retire (cfg := cfg) o _)) as K.
    split; [left; apply K|]. split; [by apply Hk|apply K].
  - match goal with |- context [push_pub o ?x] => set (e1 := x) end.
    assert (K1 : keeps o e e1).
    { unfold e1. destruct (expiresAt _); [eapply keeps_trans; [|by apply keeps_modify]|]; by apply keeps_modify. }
    pose proof (keeps_putOut (cfg := cfg) o (push_pub o e1)) as K2. split.
    + right. destruct K2 as (_ & _ & -> & _). change (pub e1 ++ [o] = pub e ++ [o]). f_equal. apply K1.
    + split.
      * intros x. destruct (decide (x = o)) as [->|Hne].
        -- destruct K2 as (_ & -> & _). apply (Hk e1 K1).
        -- rewrite (keeps_get _ _ _ _ K2 Hne). apply (Hk e1 K1).
      * destruct K2 as (_ & _ & _ & _ & _ & _ & _ & _ & _ & _ & -> & _). apply K1.
Qed.

Lemma flow_wf_lost n f : flow_wf n f -> flow_wf n (f <| phase := AwaitFirst (qos f) |> <| seq := pubSeq f |> <| attempted := false |>).
Proof.
  intros [Hph ? ? ? ?]. split; fs; try done; [|lia]. unfold AwaitFirst.
  destruct Hph as [[-> _]|[-> _]]; [by left|right; split; [done|by left]].
Qed.

Lemma Inv_lose_flow D h e o now :
  Inv cfg (o :: D) h e -> failure e = None -> (forall x, x ∈ pub e -> pubSeq (get e x) <= pubSeq (get e o)) ->
  Inv cfg D h (lose_flow cfg now e o).
Proof.
  intros I Hnf Hle. destruct (member_live I o) as (f & Hf & Hout & Hfin & Hwf); [apply elem_detached; by left|].
  unfold lose_flow. rewrite (get_lookup e o f Hf). match goal with |- context [match ?g with Some _ => _ | None => _ end] => set (gone := g) end.
  destruct gone as [err|]; [by apply (Inv_end D h e o f)|].
  assert (Hnin : o ∉ pub e ++ rel e).
  { pose proof (inv_nodup _ _ _ _ I) as Hnd. rewrite app_assoc in Hnd. apply NoDup_app in Hnd as (_ & Hd & _).
    intros Hin. apply (Hd o Hin). by left. }
  set (g := fun f : Out => f <| phase := AwaitFirst (qos f) |> <| seq := pubSeq f |> <| attempted := false |>).
  assert (I1 : Inv cfg (o :: D) h (modify o g e)).
  { apply (Inv_modify _ _ _ o f g I Hf); try done. intros _. by apply flow_wf_lost. }
  assert (Hf1 : flows (modify o g e) !! o = Some (g f)) by (by apply flows_modify).
  match goal with |- context [push_pub o ?x] => set (e2 := x) end.
  assert (exists f2, Inv cfg (o :: D) h e2 /\ flows e2 !! o = Some f2 /\ o_id f2 = o_id f /\ phase f2 = AwaitFirst (qos f)
            /\ seq f2 = pubSeq f /\ keeps o e e2 /\ out e2 = out e) as (f2 & I2 & Hf2 & Hid2 & Hph2 & Hs2 & K2 & Eo2).
  { unfold e2. destruct (expiresAt f) as [t|].
    - eexists. split; [by apply (Inv_expiry _ _ _ o (g f))|]. split; [by apply flows_modify|].
      split_and!; try done. eapply keeps_trans; [|by apply keeps_modify]. by apply keeps_modify.
    - exists (g f). split_and!; try done. by apply keeps_modify. }
  assert (I3 : Inv cfg D h (push_pub o e2)).
  { apply (Inv_push_pub _ _ _ o f2 I2 Hf2); [rewrite Hph2; apply AwaitFirst_ne|]. apply Forall_forall. intros x Hx.
    assert (Hxe : x ∈ pub e) by (destruct K2 as (_ & _ & Kp & _); by rewrite Kp in Hx).
    assert (x <> o) by (intros ->; apply Hnin, elem_of_app; by left).
    destruct (member_live I x) as (fx & Hfx & _ & _ & Hwx); [by apply elem_first|].
    rewrite (keeps_get _ _ _ _ K2), (get_lookup _ _ _ Hfx), Hs2 by done.
    assert (Hpx : phase fx <> AwaitPubcomp).
    { pose proof (proj1 (Forall_forall _ _) (proj2 (inv_pub _ _ _ _ I)) x Hxe) as H'. cbv beta in H'. by rewrite (get_lookup _ _ _ Hfx) in H'. }
    rewrite (wf_pub _ _ Hwx Hpx). specialize (Hle x Hxe). by rewrite (get_lookup _ _ _ Hfx), (get_lookup _ _ _ Hf) in Hle. }
  apply (Inv_putOut_live _ _ _ o f2 I3 Hf2).
  - change (out e2 !! o_id f2 = Some o). by rewrite Eo2, Hid2.
  - change (failure e2 = None). destruct K2 as (_ & _ & _ & _ & _ & _ & _ & _ & _ & _ & K & _). congruence.
Qed.

(** Any preorder the steps respect relates the states before and after. *)
Lemma Inv_lose_flows h now (R : relation Engine) `{!PreOrder R} D :
  (forall D e o, Inv cfg (o :: D) h e -> R e (lose_flow cfg now e o)) -> forall e,
  Inv cfg D h e -> failure e = None -> StronglySorted (by_pubSeq e) D ->
  (forall x y, x ∈ pub e -> y ∈ D -> pubSeq (get e x) <= pubSeq (get e y)) ->
  let e' := fold_left (lose_flow cfg now) D e in Inv cfg [] h e' /\ failure e' = None /\ R e e'.
Proof.
  intros HR. induction D as [|o D IH]; intros e I Hnf Hs Hle; [done|]. cbn [fold_left]. apply StronglySorted_inv in Hs as [Hs Ho].
  destruct (lose_flow_keeps now e o) as (Hp & Hq & Hfa). pose proof (HR D e o I) as HR1. destruct (IH (lose_flow cfg now e o)) as (I' & Hf' & HR').
  - apply Inv_lose_flow; [done|done|]. intros x Hx. apply Hle; [done|by left].
  - congruence.
  - clear -Hs Hq. induction Hs as [|x l Hs IH Hx]; constructor; [done|]. eapply Forall_impl; [exact Hx|].
    unfold by_pubSeq. intros y. by rewrite !Hq.
  - intros x y Hx Hy. rewrite !Hq. destruct Hp as [Hp|Hp]; rewrite Hp in Hx.
    + apply Hle; [done|by right].
    + apply elem_of_app in Hx as [Hx|Hx%list_elem_of_singleton]; [apply Hle; [done|by right]|]. subst x.
      by apply (proj1 (Forall_forall _ _) Ho).
  - split; [done|]. split; [done|]. by etransitivity.
Qed.

#[export] Instance by_pubSeq_trans e : Transitive (by_pubSeq e).
Proof. intros a b c. unfold by_pubSeq. lia. Qed.
#[export] Instance by_pubSeq_total e : Total (by_pubSeq e).
Proof. intros a b. unfold by_pubSeq. lia. Qed.
#[export] Instance by_seq_trans e : Transitive (by_seq e).
Proof. intros a b c. unfold by_seq. lia. Qed.
#[export] Instance by_seq_total e : Total (by_seq e).
Proof. intros a b. unfold by_seq. lia. Qed.

Lemma Inv_sessionLost h e now (R : relation Engine) `{!PreOrder R} :
  (forall D e o, Inv cfg (o :: D) h e -> R e (lose_flow cfg now e o)) ->
  Inv cfg [] h e -> failure e = None ->
  Inv cfg [] h (sessionLostLocked cfg now e) /\ failure (sessionLostLocked cfg now e) = None
  /\ R (drop_inbound (fold_left (lose_in cfg) (map_to_list (inb e)) e) <| pub := [] |> <| rel := [] |>) (sessionLostLocked cfg now e).
Proof.
  intros HR I Hnf. unfold sessionLostLocked. pose proof (lose_ins_view (map_to_list (inb e)) e) as V.
  set (e1 := fold_left (lose_in cfg) (map_to_list (inb e)) e) in *.
  assert (V2 : same_view e (drop_inbound e1)) by (etransitivity; [exact V|by repeat split]).
  pose proof (Inv_view _ _ _ _ _ V2 I) as I2. set (e2 := drop_inbound e1) in *.
  assert (Hnf2 : failure e2 = None) by (destruct V2 as (_ & _ & _ & _ & _ & _ & _ & _ & _ & _ & _ & H & _); congruence).
  pose proof (Inv_drain h e2 I2) as I3. unfold drainFlowsLocked in *. cbn [fst snd] in I3.
  apply (Inv_lose_flows h now R); [exact HR|exact I3|done| |].
  - apply (StronglySorted_merge_sort (by_pubSeq e2)).
  - intros x y Hx. by apply elem_of_nil in Hx.
Qed.

(** ** Limits *)

Lemma Inv_limit_flow h l fresh e o :
  Inv cfg [] h e -> failure e = None -> o ∈ pub e ->
  Inv cfg [] h (limit_flow cfg l fresh e o) /\ failure (limit_flow cfg l fresh e o) = None
  /\ forall x, x <> o -> x ∈ pub e -> x ∈ pub (limit_flow cfg l fresh e o).
Proof.
  intros I Hnf Hin. destruct (member_live I o) as (f & Hf & Hout & Hfin & Hwf); [by apply elem_first|].
  assert (Hdrop : forall err, Inv cfg [] h (drop_flow (cfg := cfg) o err e) /\ failure (drop_flow (cfg := cfg) o err e) = None
            /\ forall x, x <> o -> x ∈ pub e -> x ∈ pub (drop_flow (cfg := cfg) o err e)).
  { intros err. destruct (drop_flow_keeps (cfg := cfg) o err e) as (_ & Kp & _ & Kf). split; [apply Inv_drop_flow; [done| |done]|].
    - apply elem_of_app. by left.
    - split; [congruence|]. intros x Hx Hxin. rewrite Kp. by apply elem_of_remove. }
  unfold limit_flow. rewrite (get_lookup e o f Hf). cbn zeta. destruct (negb fresh && attempted f); [done|].
  destruct (_ && _); [apply Hdrop|]. destruct (_ && negb _); [apply Hdrop|].
  destruct ((MaximumQoS l <? qos f) && Downgrade l && (MaximumQoS l =? 1)) eqn:Ed; [|destruct (_ <? _); [apply Hdrop|done]].
  set (g := fun f0 : Out => f0 <| packet := _ |> <| qos := 1 |> <| phase := AwaitPuback |>).
  assert (Hph : phase f <> AwaitPubcomp).
  { pose proof (proj1 (Forall_forall _ _) (proj2 (inv_pub _ _ _ _ I)) o Hin) as Hp. cbv beta in Hp. by rewrite (get_lookup _ _ _ Hf) in Hp. }
  assert (I1 : Inv cfg [] h (modify o g e)).
  { apply (Inv_modify _ _ _ o f g I Hf); try done; unfold g; fs.
    intros _. destruct Hwf as [? ? ? ? Hseq]. split; fs; try done; [by left|]. intros _. by apply Hseq. }
  assert (Hf1 : flows (modify o g e) !! o = Some (g f)) by (by apply flows_modify).
  destruct (keeps_putOut (cfg := cfg) o (modify o g e)) as (_ & _ & Kp & _ & _ & _ & _ & _ & _ & _ & Kfa & _).
  split; [by apply (Inv_putOut_live _ _ _ o (g f))|]. split; [by rewrite Kfa|]. intros x _ Hx. by rewrite Kp.
Qed.

Lemma Inv_limits h l fresh (R : relation Engine) `{!PreOrder R} k :
  (forall e o, Inv cfg [] h e -> o ∈ pub e -> R e (limit_flow cfg l fresh e o)) -> forall e,
  Inv cfg [] h e -> failure e = None -> NoDup k -> (forall o, o ∈ k -> o ∈ pub e) ->
  let e' := fold_left (limit_flow cfg l fresh) k e in Inv cfg [] h e' /\ failure e' = None /\ R e e'.
Proof.
  intros HR. induction k as [|o k IH]; intros e I Hnf Hnd Hk; [done|]. apply NoDup_cons in Hnd as [Hnin Hnd]. cbn [fold_left].
  assert (Ho : o ∈ pub e) by (apply Hk; by left). pose proof (HR e o I Ho) as HR1.
  destruct (Inv_limit_flow h l fresh e o I Hnf Ho) as (I1 & Hnf1 & Hp). destruct (IH (limit_flow cfg l fresh e o)) as (I2 & Hnf2 & HR2); try done.
  - intros x Hx. apply Hp; [intros ->; done|]. apply Hk. by right.
  - split; [done|]. split; [done|]. by etransitivity.
Qed.

Lemma pub_nodup D h e : Inv cfg D h e -> NoDup (pub e).
Proof. intros I. pose proof (inv_nodup _ _ _ _ I) as H. by apply NoDup_app in H as (H & _ & _). Qed.

Lemma resume_books e : books e (resumeLocked e) /\ same_view e (resumeLocked e).
Proof.
  unfold resumeLocked. set (e0 := e <| ctrl ::= _ |>).
  assert (B0 : books e e0) by (split_and!; try done; unfold e0, in_ctrl; es; rewrite list_filter_filter; apply list_filter_iff; tauto).
  assert (V0 : same_view e e0) by (by repeat split). change (rel e0) with (rel e). clearbody e0. revert e0 B0 V0.
  induction (rel e) as [|o l IH]; intros e0 B0 V0; [done|]. cbn [fold_left]. apply IH; [|etransitivity; [exact V0|by repeat split]].
  pose proof (books_pubrel (o_id (get e0 o)) ReasonSuccess true e0) as B. unfold books in *. destruct_and! B0. destruct_and! B.
  split_and!; congruence.
Qed.

(** A new connection, and what any preorder that its steps respect says of
    it. *)
Lemma Inv_Connected h e ci now (R : relation Engine) `{!PreOrder R} :
  (forall e e', books e e' -> R e e') -> (forall e o, R e (modify o (fun f => f <| counted := false |>) e)) ->
  (SessionPresent ci = false -> forall e, R e (drop_inbound (fold_left (lose_in cfg) (map_to_list (inb e)) e))) ->
  (SessionPresent ci = false -> forall D e o, Inv cfg (o :: D) h e -> R e (lose_flow cfg now e o)) ->
  (forall l fresh e o, Inv cfg [] h e -> o ∈ pub e -> R e (limit_flow cfg l fresh e o)) ->
  Inv cfg [] h e -> 0 <= ci_ReceiveMaximum ci ->
  Inv cfg [] h (fst (Connected cfg ci now e)) /\ R e (fst (Connected cfg ci now e)).
Proof.
  intros Rb Rm Rd Rl Rq I Hrm. unfold Connected. destruct (failure e) eqn:Hnf; [done|]. cbn zeta.
  match goal with |- context [uncount _ ?x0] => set (e1 := x0) end.
  set (out_list := map_to_list (out e1)) in *.
  set (q := if ci_ReceiveMaximum ci =? 0 then 65535 else ci_ReceiveMaximum ci) in *.
  assert (Hq : 0 <= q) by (unfold q; destruct (_ =? 0); lia).
  assert (R2 : R e (uncount out_list e1)).
  { etransitivity; [apply (Rb e e1); by split_and!|]. clear -Rm PreOrder0. generalize e1. induction out_list as [|x l IH]; intros e1'; [done|].
    cbn [fold_left]. etransitivity; [apply Rm|apply IH]. }
  assert (I1 : Inv cfg [] h (uncount out_list e1) /\ failure (uncount out_list e1) = None).
  { pose proof (Inv_uncount h out_list e I) as I0. pose proof (fold_modify snd (fun f => f <| counted := false |>) out_list e) as E0.
    pose proof (fold_modify snd (fun f => f <| counted := false |>) out_list e1) as E1. rewrite E1. split; [|done].
    assert (Hc : forall o, o ∈ pub e ++ rel e ++ [] -> counted (get (uncount out_list e) o) = false).
    { intros o Ho. apply uncount_spec. left. by apply (out_members [] h e). }
    rewrite E0 in I0, Hc. pose proof (Inv_new_quota h _ q I0 Hq Hc) as I2. eapply Inv_view; [|exact I2]. by repeat split. }
  set (e2 := uncount out_list e1) in *. destruct I1 as [I2 Hnf2].
  set (e3 := if SessionPresent ci then resumeLocked e2 else sessionLostLocked cfg now e2) in *.
  assert (I3 : Inv cfg [] h e3 /\ failure e3 = None /\ R e2 e3).
  { unfold e3. destruct (SessionPresent ci).
    - destruct (resume_books e2) as [B V]. split; [by apply (Inv_view _ _ _ _ _ V)|]. split; [|by apply Rb].
      destruct V as (_ & _ & _ & _ & _ & _ & _ & _ & _ & _ & _ & V & _). congruence.
    - destruct (Inv_sessionLost h e2 now R (Rl eq_refl) I2 Hnf2) as (? & ? & HR). split; [done|]. split; [done|].
      etransitivity; [by apply Rd|]. etransitivity; [|exact HR]. apply Rb. by split_and!. }
  destruct I3 as (I3 & Hnf3 & R3).
  match goal with |- context [head (pub ?x)] => set (e4 := x) end.
  assert (I4 : Inv cfg [] h e4 /\ R e3 e4).
  { unfold e4. destruct (ci_Limits ci) as [l|]; [|done].
    destruct (Inv_limits h l (negb (SessionPresent ci)) R (pub e3) (Rq l _) e3) as (? & _ & ?); try done. by apply (pub_nodup [] h). }
  destruct I4 as [I4 R4]. split.
  - destruct (_ && bool_decide _); cbn [fst]; apply (Inv_view _ _ _ e4); (done || by repeat split).
  - etransitivity; [exact R2|]. etransitivity; [exact R3|]. etransitivity; [exact R4|].
    destruct (_ && bool_decide _); cbn [fst]; apply Rb; by split_and!.
Qed.

(** ** Identifiers *)

(** An identifier changes hands that no flow uses. *)
Lemma Inv_ids D h h' e t id :
  Inv cfg D h e -> IDs.table_ok t -> IDs.max t = IDs.max (ids e) -> (forall i, i <> id -> IDs.owner_of t i = IDs.owner_of (ids e) i) ->
  (forall o, ~ holds e o id) -> (forall i, i ∈ h' -> i ∈ h /\ i <> id \/ i = id /\ IDs.owner_of t id = IDs.OwnerPublish) ->
  Inv cfg D h' (e <| ids := t |>).
Proof.
  intros I Ht Hm Hi Hno Hh. set (e' := e <| ids := t |>).
  assert (Hold : forall o i, holds e' o i <-> holds e o i) by done. destruct I. split; frame e' e; try done.
  - change (IDs.max t = 65535). congruence.
  - intros i Hin. destruct (Hh i Hin) as [[Hin' Hne]|[-> Hown]]; [|split; [exact Hown|exact Hno]].
    change (ids e') with t. rewrite Hi by done. by apply inv_held0.
  - intros o i Ho. change (ids e') with t. rewrite Hi; [by apply (inv_owner0 o)|]. intros ->. by apply (Hno o).
Qed.

(** Who owns an identifier decides whether a flow may use it. *)
Lemma unused D h e id : Inv cfg D h e -> IDs.owner_of (ids e) id <> IDs.OwnerPublish -> forall o, ~ holds e o id.
Proof. intros I Hne o Ho. by apply Hne, (inv_owner _ _ _ _ I o). Qed.

Lemma Inv_Allocate h e ow id t :
  Inv cfg [] h e -> ow <> IDs.OwnerNone -> IDs.AllocateID (ids e) ow = IDs.Allocated id t ->
  Inv cfg [] (if decide (ow = IDs.OwnerPublish) then {[id]} ∪ h else h) (e <| ids := t |>).
Proof.
  intros I Hne E. pose proof (IDs.AllocateID_spec (ids e) ow (inv_ids _ _ _ _ I) Hne) as H. rewrite E in H.
  destruct H as (_ & Hfree & Hown & Hmax & Hok).
  assert (Ho : forall i, IDs.owner_of t i = if decide (i = id) then ow else IDs.owner_of (ids e) i).
  { intros i. unfold IDs.owner_of. rewrite Hown. case_decide as Ei; [subst i; by rewrite lookup_insert_eq|]. by rewrite lookup_insert_ne. }
  assert (Hnh : (id ∉ h)) by (intros Hin; apply (inv_held _ _ _ _ I) in Hin as [Hp _]; congruence).
  apply (Inv_ids [] h _ e t id I Hok Hmax).
  - intros i Hi. by rewrite Ho, decide_False.
  - apply (unused [] h e id I). by rewrite Hfree.
  - intros i Hin. rewrite Ho, decide_True by done. case_decide as Ep; [apply elem_of_union in Hin as [Hin%elem_of_singleton|Hin]|];
      [by right| |]; left; (split; [done|]); by intros ->.
Qed.

Lemma Inv_Release h e id ow :
  Inv cfg [] h e -> ow <> IDs.OwnerNone -> (ow = IDs.OwnerPublish -> id ∈ h) ->
  Inv cfg [] (if decide (ow = IDs.OwnerPublish) then h ∖ {[id]} else h) (releaseLocked id ow e).
Proof.
  intros I Hne Hh. pose proof (inv_ids _ _ _ _ I) as Hok. case_decide as Ep.
  { subst ow. apply Inv_release; [by apply (Inv_held_sub _ _ h _ _ (minus_sub h _))|apply minus_notin|].
    by apply (inv_held _ _ _ _ I), Hh. }
  unfold releaseLocked. set (t := snd (IDs.releaseLocked (ids e) id ow)).
  change (Inv cfg [] h (e <| ids := t |>)).
  assert (Hokt : IDs.table_ok t) by (by apply IDs.releaseLocked_ok). unfold t in *. clear t.
  rewrite IDs.releaseLocked_spec in * by done. case_decide as Eo; cbn [snd] in *;
    [|eapply Inv_view; [|exact I]; by repeat split].
  apply (Inv_ids [] h h e _ id I Hokt); [done|..].
  - intros i Hi. unfold IDs.owner_of. cbn [IDs.owner]. by rewrite lookup_delete_ne.
  - apply (unused [] h e id I). unfold IDs.owner_of. by rewrite Eo.
  - intros i Hin. left. split; [done|]. intros ->. apply (inv_held _ _ _ _ I) in Hin as [Hp _].
    unfold IDs.owner_of in Hp. rewrite Eo in Hp. by apply Ep.
Qed.

(** ** Inbound flows and the connection *)

Lemma queue_in_view id ow w e : same_view e (queueLocked (inKey id) ow w e).
Proof.
  unfold same_view. split_and!; try done. intros id'. rewrite queue_queueLocked. by rewrite decide_False.
Qed.

Lemma Receive_view id q e : same_view e (fst (Receive cfg id q e)).
Proof. unfold Receive, new_in. repeat case_match; try done; cbn [fst]; by repeat split. Qed.

Lemma ack_loop_view l : forall e, same_view e (ack_loop cfg l e).
Proof.
  induction l as [|i l IH]; intros e; cbn [ack_loop]; [by repeat split|]. case_decide; [|by repeat split].
  case_match; [etransitivity; [|apply IH]; by repeat split|].
  match goal with |- context [if hasStore cfg then queueLocked _ _ _ ?x else _] => set (e1 := x) end.
  assert (same_view e e1) by (by repeat split). etransitivity; [|apply IH].
  case_match; [etransitivity; [done|apply queue_in_view]|done].
Qed.

Lemma ack_view i e : same_view e (ack cfg i e).
Proof. unfold ack. case_match; [done|]. etransitivity; [|apply ack_loop_view]. by repeat split. Qed.

Lemma HandlePubrel_view id e : same_view e (HandlePubrel cfg id e).
Proof.
  unfold HandlePubrel. repeat case_match; try done; try by repeat split.
  match goal with |- same_view e (queueLocked _ _ _ ?x) => set (e1 := x) end.
  assert (same_view e e1) by (by repeat split). etransitivity; [done|apply queue_in_view].
Qed.

Lemma Disconnected_view l e : same_view e (Disconnected l e).
Proof. unfold Disconnected. case_decide; [by repeat split|done]. Qed.

Lemma Inv_SetMeta h e m ans a : Inv cfg [] h e -> Inv cfg [] h (fst (fst (SetMeta cfg m ans e a))).
Proof.
  intros I. unfold SetMeta. destruct (failure e); [done|]. destruct (_ && _); [done|].
  destruct (negb _); [apply (Inv_view _ _ _ e); [by repeat split|done]|].
  destruct (store_do ans (SSetMeta m) a) as [a' [|]]; [apply (Inv_view _ _ _ e); [by repeat split|done]|].
  pose proof (Inv_fail h e (StoreError "set meta") I) as H. by destruct (failLocked _ e).
Qed.

(** ** Discarding the session *)

Lemma Inv_discard_flow D h e o err :
  Inv cfg (o :: D) h e -> (forall k, queue e k = []) ->
  Inv cfg D h (releaseLocked (o_id (get e o)) IDs.OwnerPublish (finishLocked o err e)).
Proof.
  intros I HQ. destruct (member_live I o) as (f & Hf & _); [apply elem_detached; by left|]. rewrite (get_lookup e o f Hf).
  destruct (Inv_finish D h e o f err I Hf) as (I' & Hown & Hf' & _ & HQ' & _).
  destruct (finished_facts D h e o f err I Hf) as (_ & _ & Hor). apply Inv_release; [done|apply Hown|].
  apply (nothing_held D h _ o _ I' Hf'); fs; try done. by rewrite HQ', HQ.
Qed.

Lemma Inv_discard_flows h err D : forall e,
  Inv cfg D h e -> (forall k, queue e k = []) ->
  let e' := fold_left (fun e o => releaseLocked (o_id (get e o)) IDs.OwnerPublish (finishLocked o err e)) D e in
  Inv cfg [] h e' /\ queues e' = queues e /\ pub e' = pub e /\ rel e' = rel e.
Proof.
  induction D as [|o D IH]; intros e I HQ; [done|]. cbn [fold_left]. set (e1 := releaseLocked _ _ (finishLocked o err e)).
  assert (E1 : queues e1 = queues e /\ pub e1 = pub e /\ rel e1 = rel e) by (unfold e1; by destruct (finish_eq o err e) as [rs ->]).
  destruct E1 as (E1 & E2 & E3). destruct (IH e1) as (I2 & H1 & H2 & H3).
  - by apply Inv_discard_flow.
  - intros k. unfold queue. rewrite E1. apply HQ.
  - split; [done|]. split_and!; congruence.
Qed.

Lemma Inv_discard_orphan h e r o :
  Inv cfg [] h e -> (forall k, queue e k = []) -> orphans e !! r = Some o ->
  Inv cfg [] h (releaseLocked (o_id (get e o)) IDs.OwnerPublish (e <| orphans ::= delete r |>)).
Proof.
  intros I HQ Hr. destruct (orphan_holds [] h e r o I Hr) as (f & Hf & Hfin & Hown & _).
  assert (Href : ref f = r).
  { destruct (inv_orphan _ _ _ _ I _ _ Hr) as (f' & Hf' & Href & _). rewrite Hf in Hf'. by injection Hf' as <-. } rewrite (get_lookup e o f Hf).
  assert (I' : Inv cfg [] h (e <| orphans := delete r (orphans e) |>)) by (apply Inv_unorphan; [apply delete_subseteq|done]).
  change (e <| orphans ::= delete r |>) with (e <| orphans := delete r (orphans e) |>).
  apply Inv_release; [exact I'|apply Hown|]. apply (nothing_held [] h _ o f I'); try done.
  - apply (own_sub h e); try done. intros x. apply holds_mono; try done; [intros; eauto|]. apply delete_subseteq.
  - es. rewrite Href, lookup_delete_eq. done.
  - apply HQ.
Qed.

Lemma Inv_discard_orphans h l : forall e,
  Inv cfg [] h e -> (forall k, queue e k = []) -> NoDup l.*1 -> (forall r o, (r, o) ∈ l -> orphans e !! r = Some o) ->
  let e' := fold_left (fun e x => releaseLocked (o_id (get e (snd x))) IDs.OwnerPublish (e <| orphans ::= delete (fst x) |>)) l e in
  Inv cfg [] h e' /\ queues e' = queues e /\ pub e' = pub e /\ rel e' = rel e.
Proof.
  induction l as [|[r o] l IH]; intros e I HQ Hnd Hl; [done|]. apply NoDup_cons in Hnd as [Hr Hnd]. cbn [fold_left fst snd].
  assert (I1 : Inv cfg [] h (releaseLocked (o_id (get e o)) IDs.OwnerPublish (e <| orphans ::= delete r |>)))
    by (apply (Inv_discard_orphan h e r o); [done|done|apply Hl; by left]).
  destruct (IH _ I1 HQ Hnd) as (I2 & H1 & H2 & H3); [|by split_and!].
  intros r' o' Hin. es. unfold releaseLocked. es. rewrite lookup_delete_ne; [apply Hl; by right|]. intros ->. apply Hr.
  apply list_elem_of_fmap. by exists (r', o').
Qed.

(** The lists hold every unfinished flow. *)
Lemma out_empty h e : Inv cfg [] h e -> pub e = [] -> rel e = [] -> out e = ∅.
Proof.
  intros I Hp Hr. apply map_eq. intros id. rewrite lookup_empty. destruct (out e !! id) as [o|] eqn:E; [|done].
  assert (Ho : o ∈ pub e ++ rel e ++ []) by (apply (inv_mem _ _ _ _ I); eauto). rewrite Hp, Hr in Ho. by apply elem_of_nil in Ho.
Qed.

Lemma Inv_Discard h e ans a :
  Inv cfg [] h e -> (forall k, queue e k = []) ->
  let '(e', a', _, ok) := Discard cfg ans e a in
  Inv cfg [] h e' /\ queues e' = queues e /\ (if ok : bool then out e' = ∅ else e' = e)
  /\ (a', ok) = (if hasStore cfg then store_do ans SReset a else (a, true)).
Proof.
  intros I HQ. unfold Discard. destruct (if hasStore cfg then store_do ans SReset a else (a, true)) as [a' [|]]; [|done].
  destruct (fold_dead (map_to_list (inb e)) e) as [m Em]. rewrite Em. set (e1 := drop_inbound (e <| ins := m |>)).
  assert (V1 : same_view e e1) by (by repeat split). pose proof (Inv_drain h e1 (Inv_view _ _ _ _ _ V1 I)) as I1.
  destruct (drainFlowsLocked e1) as [fl e2] eqn:Ed. cbn [fst snd] in I1.
  assert (E2 : queues e2 = queues e /\ pub e2 = [] /\ rel e2 = []) by (by injection Ed as _ <-). destruct E2 as (Q2 & P2 & R2).
  assert (HQ2 : forall k, queue e2 k = []) by (intros k; unfold queue; rewrite Q2; apply HQ).
  destruct (Inv_discard_flows h (Some ErrSessionLost) fl e2 I1 HQ2) as (I3 & Q3 & P3 & R3).
  set (e3 := fold_left _ fl e2) in *. assert (HQ3 : forall k, queue e3 k = []) by (intros k; unfold queue; rewrite Q3; apply HQ2).
  destruct (Inv_discard_orphans h (map_to_list (orphans e3)) e3 I3 HQ3) as (I4 & Q4 & P4 & R4); [apply NoDup_fst_map_to_list| |].
  { intros r o. by rewrite elem_of_map_to_list. }
  set (e4 := fold_left _ (map_to_list (orphans e3)) e3) in *. split; [eapply Inv_view; [|exact I4]; by repeat split|].
  split; [change (queues e4 = queues e); congruence|]. split; [|done]. change (out e4 = ∅). apply (out_empty h); congruence.
Qed.
End conn.

End EngineConn.
