(* ===== verification/Restart.v ===== *)
(** * Restart: loading a stored session

    [Restore] builds a session that satisfies the invariant of [EngineInv]
    from whatever well-formed records the store holds. *)

From stdpp Require Import gmap sorting list_tactics.
From S2P Require Import Prelude GoLib Errors Batch IdTable Session Inflight Machine EngineInv EngineConn.

Module Restart.
Import Inflight Machine EngineInv EngineConn.

Section restore.
Context {cfg : Config}.
Implicit Types (D rl : list flow) (h : gset Z) (e : Engine) (o : flow).

(** The state [Restore] starts from. *)
Definition blank (m : Meta) (e : Engine) : Engine :=
  e <| failure := None |> <| ids ::= fun t => IDs.newIDTable (IDs.max t) |> <| orphans := ∅ |> <| e_meta := m |>.

Lemma no_lists h e : Inv cfg [] h e -> out e = ∅ -> pub e = [] /\ rel e = [].
Proof.
  intros I Ho. assert (H : pub e ++ rel e ++ [] = []).
  { destruct (pub e ++ rel e ++ []) as [|o l] eqn:E; [done|]. exfalso.
    destruct (proj1 (inv_mem _ _ _ _ I o)) as [id Hid]; [rewrite E; by left|]. by rewrite Ho, lookup_empty in Hid. }
  apply app_nil in H as [? H]. by apply app_nil in H as [? _].
Qed.

Lemma Inv_blank h m e :
  Inv cfg [] h e -> out e = ∅ -> (forall k, queue e k = []) -> Inv cfg [] ∅ (blank m e).
Proof.
  intros I Ho HQ. destruct (no_lists h e I Ho) as [Hp Hr]. set (e' := blank m e).
  assert (Hh : forall o id, ~ holds e' o id).
  { intros o id (f & _ & _ & [H|[H|(j & Hj & _)]]).
    - change (out e') with (out e) in H. by rewrite Ho, lookup_empty in H.
    - change (orphans e') with (∅ : gmap (list Z) flow) in H. by rewrite lookup_empty in H.
    - change (queue e' (outKey id)) with (queue e (outKey id)) in Hj. rewrite HQ in Hj. by apply elem_of_nil in Hj. }
  assert (Hj : forall id j, j ∈ queue e' (outKey id) -> False).
  { intros id j Hj. change (queue e' (outKey id)) with (queue e (outKey id)) in Hj. rewrite HQ in Hj. by apply elem_of_nil in Hj. }
  destruct I. split; frame e' e; try done.
  - change (ids e') with (IDs.newIDTable (IDs.max (ids e))). apply IDs.newIDTable_ok. apply inv_ids0.
  - intros o id Ho'. by apply Hh in Ho'.
  - intros o o' id Ho'. by apply Hh in Ho'.
  - intros id j Hin. by apply Hj in Hin.
Qed.

Lemma claim_true t id ow t' :
  IDs.claim t id ow = (true, t') -> IDs.owner_of t id = IDs.OwnerNone
  /\ forall i, ow <> IDs.OwnerNone -> IDs.owner_of t' i = if decide (i = id) then ow else IDs.owner_of t i.
Proof.
  unfold IDs.claim. destruct (_ || _) eqn:E; [done|]. apply orb_false_iff in E as [_ E].
  apply negb_false_iff, bool_decide_eq_true in E. destruct (_ <? _); [|done]. intros [= <-]. split; [done|].
  intros i Ho. unfold IDs.owner_of. cbn [IDs.owner]. rewrite IDs.set_owner_insert by done.
  case_decide; [subst; by rewrite lookup_insert_eq|by rewrite lookup_insert_ne].
Qed.

Lemma claim_max t id ow t' : IDs.claim t id ow = (true, t') -> IDs.max t' = IDs.max t.
Proof. unfold IDs.claim. repeat case_match; try done. by intros [= <-]. Qed.

Lemma Inv_claim D e id t :
  Inv cfg D ∅ e -> 1 <= id <= 65535 -> IDs.claim (ids e) id IDs.OwnerPublish = (true, t) ->
  Inv cfg D ∅ (e <| ids := t |>) /\ IDs.owner_of t id = IDs.OwnerPublish /\ forall o, ~ holds (e <| ids := t |>) o id.
Proof.
  intros I Hid E. destruct (claim_true _ _ _ _ E) as [Hfree Ho].
  assert (Hno : forall o, ~ holds e o id) by (apply (unused D ∅ e id I); by rewrite Hfree). split; [|split; [by rewrite Ho, decide_True|exact Hno]].
  apply (Inv_ids D ∅ ∅ e t id I); [|by apply (claim_max _ _ _ _ E)|intros i Hi; by rewrite Ho, decide_False|done|by intros i ?%elem_of_empty].
  pose proof (IDs.claim_ok (ids e) id IDs.OwnerPublish (inv_ids _ _ _ _ I)) as H. rewrite E in H. apply H; [done|]. split; lia.
Qed.

(** A new flow that has ended already. *)
Lemma Inv_new_finished D h e f :
  Inv cfg D h e -> finished f = true -> closes f = 1 ->
  Inv cfg D h (e <| flows ::= <[nextOut e := f]> |> <| nextOut ::= S |>).
Proof.
  intros I Hfin Hcl. pose proof (fresh_flow _ _ _ I) as Hfresh. set (o := nextOut e) in *. set (e' := _ <| nextOut ::= S |>).
  assert (Hfl : flows e' = <[o := f]> (flows e)) by done.
  assert (Hold : forall x fx, flows e !! x = Some fx -> flows e' !! x = Some fx).
  { intros x fx Hx. rewrite Hfl, lookup_insert_ne by congruence. done. }
  assert (Hg : forall x, x ∈ pub e ++ rel e ++ D -> get e' x = get e x).
  { intros x Hx. destruct (member_live I x Hx) as (fx & Hfx & _). by rewrite (get_lookup _ _ _ Hfx), (get_lookup _ _ _ (Hold x fx Hfx)). }
  assert (Hh : forall x i, holds e' x i -> holds e x i).
  { intros x i (fx & Hfx & Hi & H). destruct (decide (x = o)) as [->|Hne].
    - exfalso. destruct H as [H|[H|(j & Hj & H)]].
      + destruct (inv_out _ _ _ _ I _ _ H) as (f2 & Hf2 & _). congruence.
      + destruct (inv_orphan _ _ _ _ I _ _ H) as (f2 & Hf2 & _). congruence.
      + destruct (inv_jobs _ _ _ _ I _ _ Hj) as (x2 & f2 & Ho & Hf2 & _). congruence.
    - rewrite Hfl, lookup_insert_ne in Hfx by done. by exists fx. }
  destruct I. split; frame e' e; try done.
  - intros x fx. rewrite Hfl. intros [[<- <-]|[Hne Hx]]%lookup_insert_Some; change (nextOut e') with (S (nextOut e)).
    + split; [unfold o; lia|]. split; [by rewrite Hfin|by right].
    + destruct (inv_heap0 x fx Hx) as (? & ? & ?). split; [lia|done].
  - intros id x Hx. destruct (inv_out0 id x Hx) as (fx & Hfx & ?). exists fx. split; [by apply Hold|done].
  - split; [apply (sorted_ext e); [|apply inv_pub0]|apply (Forall_phase_ext (fun p => p <> AwaitPubcomp) e); [|apply inv_pub0]];
      intros x Hx; rewrite (Hg x (elem_first _ _ _ _ Hx)); done.
  - split; [apply (sorted_ext e); [|apply inv_rel0]|apply (Forall_phase_ext (fun p => p = AwaitPubcomp) e); [|apply inv_rel0]];
      intros x Hx; rewrite (Hg x (elem_second _ _ _ _ Hx)); done.
  - rewrite (cnt_ext e' e); [done|]. intros x Hx. by rewrite (Hg x Hx).
  - intros i Hi. destruct (inv_held0 i Hi) as [? Hno]. split; [done|]. intros x Hx. by apply (Hno x), Hh.
  - intros x i Hx. by apply (inv_owner0 x), Hh.
  - intros x x' i Hx Hx'. by apply (inv_excl0 x x' i); apply Hh.
  - intros r x Hx. destruct (inv_orphan0 r x Hx) as (fx & Hfx & ?). exists fx. split; [by apply Hold|done].
  - intros i j Hj. destruct (inv_jobs0 i j Hj) as (x & fx & ? & Hfx & ?). exists x, fx. split; [done|]. split; [by apply Hold|done].
Qed.

(** ** One record *)

(** What [Restore] may find under a key. *)
Definition rec_ok (r : SRecord) : Prop := Dir (Key r) = Outbound -> rec_fits (PacketID (Key r)) r.

(** A record of an exchange that goes on. *)
Definition unfinished (r : SRecord) : Prop := Dir (Key r) = Outbound /\ Phase r <> Completed.

(** After the records [done]: the flows to resend PUBREL for are not in a
    list yet, and every unfinished flow is that of a record. *)
Record loading (done : list SRecord) (rl : list flow) (e : Engine) : Prop := {
  ld_inv : Inv cfg rl ∅ e;
  ld_ok : failure e = None;
  ld_queue k : queue e k = [];
  ld_rel : rel e = [];
  ld_phase : Forall (fun o => phase (get e o) = AwaitPubcomp) rl;
  ld_from o f : flows e !! o = Some f -> finished f = false -> record f ∈ done /\ attempted f = true;
  ld_ids id : IDs.owner_of (ids e) id <> IDs.OwnerNone -> exists r, r ∈ done /\ Key r = outKey id;
  ld_all r : r ∈ done -> unfinished r -> exists o f, flows e !! o = Some f /\ finished f = false /\ record f = r;
}.

Lemma loading_skip done rl e r : loading done rl e -> ~ unfinished r -> loading (done ++ [r]) rl e.
Proof.
  intros [] Hr. split; try done.
  - intros o f Hf Hn. destruct (ld_from0 o f Hf Hn) as [? ?]. split; [|done]. apply elem_of_app. by left.
  - intros id Hid. destruct (ld_ids0 id Hid) as (r' & ? & ?). exists r'. split; [|done]. apply elem_of_app. by left.
  - intros r' [Hin|Hin%list_elem_of_singleton]%elem_of_app Hu; [by apply ld_all0|]. by subst.
Qed.

(** The record of a flow made from a record is that record. *)
Definition flow_of (r : SRecord) : Out :=
  mkOut (PacketID (Key r)) (QoS r) (Phase r) (if Phase r =? AwaitPubcomp then PubrecSeq r else Seq r) (Seq r) (PacketBytes r)
    (ExpiresAt r) 0 true false false false false 0 0 (Ref r) None 0 None.

Lemma record_flow_of id r : rec_fits id r -> Phase r <> Completed -> record (flow_of r) = r.
Proof.
  intros [Hk _ _ Hp Ho] Hc. destruct Ho as [|Ho]; [done|]. unfold record, flow_of. fs.
  rewrite (proj2 (Z.eqb_neq (Phase r) Completed)) by done. destruct r as [k sq psq oc q ph pk ex rf]. cbn in *. subst k oc.
  destruct (Z.eqb_spec ph AwaitPubcomp) as [->|Hne]; [done|]. destruct Hp as [|Hp]; [done|]. by subst psq.
Qed.

Lemma flow_of_wf id r n :
  rec_fits id r -> Phase r <> Completed -> Seq r < n -> PubrecSeq r < n -> flow_wf n (flow_of r).
Proof.
  intros [Hk _ Hph _ _] Hc H1 H2. destruct Hph as [|[Hpk Hph]]; [done|]. unfold flow_of. split; fs; try done.
  - destruct (_ =? _); lia.
  - intros Hne. by rewrite (proj2 (Z.eqb_neq _ _)).
Qed.

(** The state with the flow of [r] added, in no list yet. *)
Definition with_flow (r : SRecord) (t : IDs.idTable) (rs : gmap (list Z) flow) (e : Engine) : Engine :=
  e <| ids := t |> <| flows ::= <[nextOut e := flow_of r]> |> <| nextOut ::= S |> <| out ::= <[PacketID (Key r) := nextOut e]> |>
    <| refs := rs |> <| nextSeq ::= fun n => Z.max (Z.max n (Seq r + 1)) (PubrecSeq r + 1) |>.

Lemma Inv_with_flow rl e r t rs :
  Inv cfg rl ∅ e -> failure e = None -> rec_fits (PacketID (Key r)) r -> Phase r <> Completed ->
  IDs.claim (ids e) (PacketID (Key r)) IDs.OwnerPublish = (true, t) -> Inv cfg (nextOut e :: rl) ∅ (with_flow r t rs e).
Proof.
  intros I Hnf Hfit Hc E. set (id := PacketID (Key r)) in *.
  destruct (Inv_claim rl e id t I (rf_id _ _ Hfit) E) as (I1 & Hown & Hno).
  set (g := fun n => Z.max (Z.max n (Seq r + 1)) (PubrecSeq r + 1)).
  pose proof (Inv_nextSeq rl ∅ _ g ltac:(unfold g; lia) I1) as I2. set (e2 := _ <| nextSeq ::= g |>) in I2.
  assert (Hwf : flow_wf (nextSeq e2) (flow_of r)) by (apply (flow_of_wf id); try done; change (nextSeq e2) with (g (nextSeq e)); unfold g; lia).
  pose proof (Inv_new rl ∅ ∅ e2 (flow_of r) I2 ltac:(done) ltac:(apply not_elem_of_empty) Hown Hno eq_refl eq_refl Hwf Hnf) as I3.
  eapply Inv_view; [|exact I3]. by repeat split.
Qed.

Lemma load_live done rl e e' rl' r t rs :
  loading done rl e -> rec_fits (PacketID (Key r)) r -> Dir (Key r) = Outbound -> Phase r <> Completed ->
  IDs.claim (ids e) (PacketID (Key r)) IDs.OwnerPublish = (true, t) ->
  Inv cfg rl' ∅ e' -> flows e' = flows (with_flow r t rs e) -> failure e' = failure e -> queue e' = queue e -> rel e' = rel e ->
  ids e' = t -> Forall (fun o => phase (get e' o) = AwaitPubcomp) rl' -> loading (done ++ [r]) rl' e'.
Proof.
  intros L Hfit Hdir Hc E I' Hfl Hfa HQ Hr Ht Hph. change (flows (with_flow r t rs e)) with (<[nextOut e := flow_of r]> (flows e)) in Hfl.
  pose proof (fresh_flow _ _ _ (ld_inv _ _ _ L)) as Hfresh. pose proof (record_flow_of _ r Hfit Hc) as Er.
  destruct (claim_true _ _ _ _ E) as [_ Ho]. destruct L. split; try done; try congruence.
  - intros o f. rewrite Hfl. intros [[_ <-]|[_ Hf]]%lookup_insert_Some Hn.
    + rewrite Er. split; [apply elem_of_app; right; by left|done].
    + destruct (ld_from0 o f Hf Hn). split; [apply elem_of_app; by left|done].
  - intros i. rewrite Ht, Ho by done. case_decide as Ei; [intros _; exists r|intros Hi; destruct (ld_ids0 i Hi) as (r' & ? & ?); exists r'];
      rewrite elem_of_app; [|tauto]. split; [right; by left|]. subst i. apply (rf_key _ _ Hfit).
  - intros r' [Hin|Hin%list_elem_of_singleton]%elem_of_app Hu.
    + destruct (ld_all0 r' Hin Hu) as (o & f & Hf & Hn & Hrec). exists o, f. rewrite Hfl, lookup_insert_ne by congruence. done.
    + subst r'. exists (nextOut e), (flow_of r). rewrite Hfl, lookup_insert_eq. done.
Qed.

(** An ended flow whose outcome waits for its producer. *)
Lemma load_ended done rl e r f t :
  loading done rl e -> rec_fits (PacketID (Key r)) r -> ~ unfinished r ->
  IDs.claim (ids e) (PacketID (Key r)) IDs.OwnerPublish = (true, t) ->
  o_id f = PacketID (Key r) -> ref f = Ref r -> Ref r <> [] -> finished f = true -> closes f = 1 ->
  loading (done ++ [r]) rl
    (e <| ids := t |> <| flows ::= <[nextOut e := f]> |> <| nextOut ::= S |> <| orphans ::= <[Ref r := nextOut e]> |>
       <| nextSeq ::= fun n => Z.max n (Seq r + 1) |>).
Proof.
  intros L Hfit Hu E Hid Hrf Hne Hfin Hcl. set (id := PacketID (Key r)) in *. pose proof (ld_inv _ _ _ L) as I0.
  destruct (Inv_claim rl e id t I0 (rf_id _ _ Hfit) E) as (I1 & Hown & Hno).
  pose proof (Inv_new_finished rl ∅ _ f I1 Hfin Hcl) as I2. set (e2 := _ <| nextOut ::= S |>) in I2.
  assert (Hf2 : flows e2 !! nextOut e = Some f) by (apply lookup_insert_eq).
  assert (Hown2 : own ∅ e2 (nextOut e) (o_id f)).
  { rewrite Hid. split; [exact Hown|]. split; [apply not_elem_of_empty|]. intros x (fx & Hfx & Hix & Hx).
    destruct (decide (x = nextOut e)) as [->|Hxne]; [done|]. exfalso. apply (Hno x). exists fx. split; [|done].
    unfold e2 in Hfx. es. by rewrite lookup_insert_ne in Hfx. }
  destruct (Inv_orphan rl ∅ e2 (nextOut e) f I2 Hf2 Hfin ltac:(congruence) Hown2 (ld_ok _ _ _ L)) as [I3 _].
  pose proof (Inv_nextSeq rl ∅ _ (fun n => Z.max n (Seq r + 1)) ltac:(intros n; cbv beta; lia) I3) as I4. rewrite Hrf in I4.
  match goal with |- loading _ _ ?x => set (e' := x) end. assert (I' : Inv cfg rl ∅ e') by (eapply Inv_view; [|exact I4]; by repeat split).
  assert (Hfl : flows e' = <[nextOut e := f]> (flows e)) by done.
  pose proof (fresh_flow _ _ _ I0) as Hfresh. destruct (claim_true _ _ _ _ E) as [_ Ho].
  assert (Hg : Forall (fun o => phase (get e' o) = AwaitPubcomp) rl).
  { apply Forall_forall. intros x Hx. destruct (member_live I0 x) as (fx & Hfx & _); [rewrite !elem_of_app; tauto|].
    unfold get. rewrite Hfl, lookup_insert_ne by congruence. by apply (proj1 (Forall_forall _ _) (ld_phase _ _ _ L)). }
  destruct L. split; try done.
  - intros o fo. rewrite Hfl. intros [[_ <-]|[_ Hf]]%lookup_insert_Some Hn; [congruence|].
    destruct (ld_from0 o fo Hf Hn). split; [apply elem_of_app; by left|done].
  - intros i. change (ids e') with t. rewrite Ho by done. case_decide as Ei;
      [intros _; exists r|intros Hi; destruct (ld_ids0 i Hi) as (r' & ? & ?); exists r']; rewrite elem_of_app; [|tauto].
    split; [right; by left|]. subst i. apply (rf_key _ _ Hfit).
  - intros r' [Hin|Hin%list_elem_of_singleton]%elem_of_app Hr; [|by subst].
    destruct (ld_all0 r' Hin Hr) as (o & fo & Hf & Hn & Hrec). exists o, fo. rewrite Hfl, lookup_insert_ne by congruence. done.
Qed.

Lemma decodeOutcome_same f f' :
  decodeOutcome f = Some f' -> o_id f' = o_id f /\ ref f' = ref f /\ finished f' = finished f /\ closes f' = closes f.
Proof. unfold decodeOutcome. repeat case_match; intros [= <-]; done. Qed.

Lemma load_record done rl e r :
  loading done rl e -> rec_ok r -> (forall r', r' ∈ done -> record_le r' r) -> (forall r', r' ∈ done -> Key r' <> Key r) ->
  loading (done ++ [r]) (snd (restore_record (e, rl) r)) (fst (restore_record (e, rl) r)).
Proof.
  intros L Hok Hle Hkey. unfold restore_record.
  destruct (negb (Phase_Valid (Phase r) (Dir (Key r))) || (negb (QoS r =? 1) && negb (QoS r =? 2))) eqn:Ev.
  { apply loading_skip; [done|]. intros [Hd Hc]. destruct (Hok Hd) as [_ _ Hph _ _]. destruct Hph as [|[_ Hph]]; [done|].
    unfold Phase_Valid in Ev. rewrite Hd in Ev. destruct Hph as [[Eq Ep]|[Eq [Ep|Ep]]]; rewrite Eq, Ep in Ev; done. }
  destruct (Z.eqb_spec (Dir (Key r)) Outbound) as [Hd|Hd]; cbn [andb].
  2: { apply loading_skip; [|by intros []]. destruct L. split; try done. apply (Inv_view _ _ _ e); [by repeat split|done]. }
  specialize (Hok Hd). destruct (Z.eqb_spec (Phase r) Completed) as [Hc|Hc].
  { assert (Hu : ~ unfinished r) by (by intros []). destruct (decodeOutcome _) as [f|] eqn:Ed; [|by apply loading_skip].
    apply decodeOutcome_same in Ed as (E1 & E2 & E3 & E4). destruct (list_eqb (Ref r) []) eqn:Er; [by apply loading_skip|].
    destruct (IDs.claim _ _ _) as [[|] t] eqn:Ec; [|by apply loading_skip].
    apply (load_ended done rl e r (f <| closes ::= Z.succ |>) t); try done; fs; [|by rewrite E4].
    intros E. by rewrite E in Er. }
  assert (Hp : PacketBytes r <> []) by (destruct (rf_phase _ _ Hok) as [|[? _]]; done).
  destruct (Z.eqb_spec (len (PacketBytes r)) 0) as [Hz|_]; [by apply len_0_nil in Hz|].
  pose proof (ld_inv _ _ _ L) as I. destruct (rf_id _ _ Hok) as [Hid1 Hid2].
  destruct (IDs.claim (ids e) (PacketID (Key r)) IDs.OwnerPublish) as [ok t] eqn:Ec. assert (ok = true) as ->.
  { rewrite IDs.claim_free in Ec; [by injection Ec|apply I|done|by rewrite (inv_max _ _ _ _ I)|].
    apply IDs.owner_of_None; [apply I|]. destruct (decide (IDs.owner_of (ids e) (PacketID (Key r)) = IDs.OwnerNone)) as [|Hn]; [done|].
    destruct (ld_ids _ _ _ L _ Hn) as (r' & Hin & Hk). exfalso. apply (Hkey r' Hin). by rewrite Hk, <- (rf_key _ _ Hok). }
  cbn [new_flow fst snd]. match goal with |- context [push_pub _ ?x] => set (e0 := x) end.
  assert (exists rs, e0 <| nextSeq ::= fun n => Z.max (Z.max n (Seq r + 1)) (PubrecSeq r + 1) |> = with_flow r t rs e) as [rs E0].
  { unfold e0. destruct (list_eqb (Ref r) []); eexists; reflexivity. }
  pose proof (Inv_with_flow rl e r t rs I (ld_ok _ _ _ L) Hok Hc Ec) as I1.
  assert (Hf1 : flows (with_flow r t rs e) !! nextOut e = Some (flow_of r)) by (apply lookup_insert_eq).
  assert (Hold : forall x, x ∈ pub e ++ rl -> get (with_flow r t rs e) x = get e x).
  { intros x Hx. destruct (member_live I x) as (fx & Hfx & _); [rewrite !elem_of_app in *; tauto|]. unfold get.
    change (flows (with_flow r t rs e)) with (<[nextOut e := flow_of r]> (flows e)). rewrite lookup_insert_ne; [done|].
    intros <-. by rewrite (fresh_flow _ _ _ I) in Hfx. }
  destruct (Z.eqb_spec (Phase r) AwaitPubcomp) as [Hp2|Hp2]; cbn [fst snd].
  - rewrite E0. apply (load_live done rl e _ _ r t rs); try done.
    + apply (Inv_perm cfg (nextOut e :: rl)); [|done]. by rewrite Permutation_app_comm.
    + apply Forall_app. split; [|apply Forall_singleton; change (phase (get (with_flow r t rs e) (nextOut e)) = AwaitPubcomp); by rewrite (get_lookup _ _ _ Hf1)].
      apply Forall_forall. intros x Hx. rewrite Hold by (apply elem_of_app; by right).
      by apply (proj1 (Forall_forall _ _) (ld_phase _ _ _ L)).
  - match goal with |- loading _ _ ?x => change x with (push_pub (nextOut e) (e0 <| nextSeq ::= fun n => Z.max (Z.max n (Seq r + 1)) (PubrecSeq r + 1) |>)) end.
    rewrite E0. apply (load_live done rl e _ _ r t rs); try done.
    + apply (Inv_push_pub _ _ _ (nextOut e) (flow_of r) I1 Hf1 Hp2). apply Forall_forall. intros x Hx. change (pub (with_flow r t rs e)) with (pub e) in Hx.
      rewrite Hold by (apply elem_of_app; by left). destruct (member_live I x) as (fx & Hfx & _ & Hnx & Hwx); [by apply elem_first|].
      rewrite (get_lookup _ _ _ Hfx). destruct (ld_from _ _ _ L x fx Hfx Hnx) as [Hin _]. apply Hle in Hin.
      assert (Hpx : phase fx <> AwaitPubcomp).
      { pose proof (proj1 (Forall_forall _ _) (proj2 (inv_pub _ _ _ _ I)) x Hx) as H'. cbv beta in H'. by rewrite (get_lookup _ _ _ Hfx) in H'. }
      rewrite (wf_pub _ _ Hwx Hpx). unfold flow_of. fs. rewrite (proj2 (Z.eqb_neq _ _) Hp2).
      unfold record_le, cmp_record in Hin. replace (Key (record fx)) with (outKey (o_id fx)) in Hin by (unfold record; repeat case_match; done).
      replace (Seq (record fx)) with (pubSeq fx) in Hin by (unfold record; repeat case_match; done). cbn [outKey Dir] in Hin.
      rewrite Hd, Z.eqb_refl in Hin. by apply Z.leb_le in Hin.
    + apply Forall_forall. intros x Hx. change (get (push_pub (nextOut e) (with_flow r t rs e)) x) with (get (with_flow r t rs e) x).
      rewrite Hold by (apply elem_of_app; by right). by apply (proj1 (Forall_forall _ _) (ld_phase _ _ _ L)).
Qed.

(** ** The whole session *)

Lemma load_records recs : forall done rl e,
  loading done rl e -> Forall rec_ok recs -> StronglySorted record_le (done ++ recs) -> NoDup (map Key (done ++ recs)) ->
  loading (done ++ recs) (snd (fold_left restore_record recs (e, rl))) (fst (fold_left restore_record recs (e, rl))).
Proof.
  induction recs as [|r recs IH]; intros done rl e L Hok Hs Hnd; [by rewrite app_nil_r|]. apply Forall_cons in Hok as [Hr Hok].
  assert (L1 : loading (done ++ [r]) (snd (restore_record (e, rl) r)) (fst (restore_record (e, rl) r))).
  { apply load_record; [done|done| |].
    - intros r' Hin. clear -Hs Hin. induction done as [|x done IH]; [by apply elem_of_nil in Hin|]. cbn in Hs.
      apply StronglySorted_inv in Hs as [Hs Hx]. apply elem_of_cons in Hin as [->|Hin]; [|by apply IH].
      apply (proj1 (Forall_forall _ _) Hx). apply elem_of_app. right. by left.
    - intros r' Hin E. rewrite map_app in Hnd. apply NoDup_app in Hnd as (_ & Hd & _).
      apply (Hd (Key r')); [by apply list_elem_of_fmap_2|]. rewrite E. by left. }
  cbn [fold_left]. destruct (restore_record (e, rl) r) as [e1 rl1]. cbn [fst snd] in L1.
  rewrite (cons_middle r done recs), app_assoc in *. by apply IH.
Qed.

Lemma push_rels h l : forall e,
  Inv cfg l h e -> Forall (fun o => phase (get e o) = AwaitPubcomp) l -> StronglySorted (by_seq e) (rel e ++ l) ->
  let e' := fold_left (fun e o => push_rel o e) l e in
  Inv cfg [] h e' /\ e' = e <| rel ::= fun x => x ++ l |>.
Proof.
  induction l as [|o l IH]; intros e I Hph Hs; cbn [fold_left].
  { split; [done|]. destruct e. unfold update, rebuild, Engine_rebuild. cbn. by rewrite app_nil_r. }
  apply Forall_cons in Hph as [Ho Hph].
  destruct (member_live I o) as (f & Hf & _); [apply elem_detached; by left|].
  rewrite cons_middle, app_assoc in Hs.
  assert (I1 : Inv cfg l h (push_rel o e)).
  { apply (Inv_push_rel _ _ _ o f I Hf); [by rewrite (get_lookup _ _ _ Hf) in Ho|]. rewrite <- (get_lookup _ _ _ Hf).
    apply Forall_forall. intros x Hx. clear -Hs Hx. induction (rel e) as [|y k IHk]; [by apply elem_of_nil in Hx|]. cbn in Hs.
    apply StronglySorted_inv in Hs as [Hs Hy]. apply elem_of_cons in Hx as [->|Hx]; [|by apply IHk].
    apply (proj1 (Forall_forall _ _) Hy). rewrite !elem_of_app. left. right. by left. }
  destruct (IH (push_rel o e) I1 Hph Hs) as [I2 E2]. split; [done|]. etransitivity; [exact E2|].
  destruct e. unfold push_rel, update, rebuild, Engine_rebuild. cbn. by rewrite <- app_assoc.
Qed.

(** What [Restore] gives. *)
Record restored (recs : list SRecord) (e : Engine) : Prop := {
  rs_inv : Inv cfg [] ∅ e;
  rs_ok : failure e = None;
  rs_queue k : queue e k = [];
  rs_from o f : flows e !! o = Some f -> finished f = false -> record f ∈ recs /\ attempted f = true;
  rs_all r : r ∈ recs -> unfinished r -> exists o f, flows e !! o = Some f /\ finished f = false /\ record f = r;
}.

Lemma Restore_restored h m recs e e' :
  Inv cfg [] h e -> (forall k, queue e k = []) -> Forall rec_ok recs -> StronglySorted record_le recs -> NoDup (map Key recs) ->
  Restore m recs e = Some e' -> restored recs e'.
Proof.
  intros I HQ Hok Hs Hnd. unfold Restore. destruct (bool_decide (out e = ∅)) eqn:Ho; [|done]. apply bool_decide_eq_true in Ho.
  destruct (bool_decide (inb e = ∅)); [|done]. cbn [andb]. cbn zeta. fold (blank m e).
  assert (L0 : loading [] [] (blank m e)).
  { split; try done.
    - by apply (Inv_blank h).
    - by destruct (no_lists h e I Ho).
    - intros o f Hf Hn. destruct (inv_heap _ _ _ _ I o f Hf) as (_ & H & _). specialize (H Hn). by rewrite Ho, lookup_empty in H.
    - intros r Hin. by apply elem_of_nil in Hin. }
  pose proof (load_records recs [] [] (blank m e) L0 Hok Hs Hnd) as L. cbn [app] in L.
  destruct (fold_left restore_record recs (blank m e, [])) as [e1 rl]. cbn [fst snd] in L. intros [= <-].
  pose proof (merge_sort_Permutation (by_seq e1) rl) as P.
  destruct (push_rels ∅ (merge_sort (by_seq e1) rl) e1) as [I2 E2].
  - apply (Inv_perm cfg rl); [by rewrite P|apply L].
  - rewrite P. apply L.
  - rewrite (ld_rel _ _ _ L). apply (StronglySorted_merge_sort (by_seq e1)).
  - rewrite E2 in *. split; [exact I2|apply L..].
Qed.
End restore.

End Restart.
