(* ===== verification/Durable.v ===== *)
(** * Durable: the store is never behind what the connection is told

    For every unfinished flow either the store holds exactly its record, or
    the write that will put it there is the last of its queue.  A PUBLISH
    leaves only when the queue of its flow is empty, so the store holds the
    packet that is sent. *)

From stdpp Require Import gmap sorting list_tactics.
From S2P Require Import Prelude GoLib Errors Batch IdTable Session Inflight Machine EngineInv EngineConn Restart Footprint.

Module Durable.
Import Inflight Machine EngineInv EngineConn Restart Footprint.

(** ** Statement *)

Definition on_disk (a : contents) (r : SRecord) : Prop := exists m rs, a = Some (m, rs) /\ rs !! Key r = Some r.

Definition is_put (w : work) (r : SRecord) : Prop := w = PutNew r \/ w = PutOut r.

(** The queue [q] leaves [r] in the store. *)
Definition saved (a : contents) (q : list job) (r : SRecord) : Prop :=
  match last q with
  | None => on_disk a r
  | Some j => is_put (j_work j) r /\ (j_result j = Some DoOk -> on_disk a r)
  end.

Definition Saved (a : contents) (e : Engine) : Prop :=
  forall o f, flows e !! o = Some f -> finished f = false -> saved a (queue e (outKey (o_id f))) (record f).

(** Only the write at the head of a queue has been performed. *)
Definition fresh (q : list job) : Prop := Forall (fun j => j_result j = None) (tail q).

Lemma fresh_app q q' : fresh q -> Forall (fun j => j_result j = None) q' -> fresh (q ++ q').
Proof.
  unfold fresh. destruct q as [|j q]; cbn; intros Hq Hq'; [|by apply Forall_app].
  destruct q'; [constructor|]. by apply Forall_cons in Hq' as [_ ?].
Qed.

Definition put_last (q : list job) (r : SRecord) : Prop :=
  exists q0 w ow ep, q = q0 ++ [mkJob w ow ep None] /\ is_put w r.

(** Unfinished flows of [e'] are unfinished flows of [e] with the same
    record and queue, or the last write queued for them puts their record. *)
Definition saves (e e' : Engine) : Prop :=
  forall o f', flows e' !! o = Some f' -> finished f' = false ->
    put_last (queue e' (outKey (o_id f'))) (record f')
    \/ exists f, flows e !! o = Some f /\ finished f = false /\ record f = record f'
                 /\ queue e' (outKey (o_id f')) = queue e (outKey (o_id f')).

Lemma record_id f f' : record f = record f' -> o_id f = o_id f'.
Proof. unfold record. intros E. apply (f_equal Key) in E. by repeat case_match; injection E. Qed.

(** What a step of the engine alone preserves. *)
Record advances (cfg : Config) (e e' : Engine) : Prop := {
  av_saves : hasStore cfg = true -> saves e e';
  av_fresh k : fresh (queue e k) -> fresh (queue e' k);
  av_in k : Dir k <> Outbound -> Forall in_job (queue e k) -> Forall in_job (queue e' k);
}.

Lemma Saved_saves a e e' : saves e e' -> Saved a e -> Saved a e'.
Proof.
  intros H HS o f' Hf' Hn. destruct (H o f' Hf' Hn) as [(q0 & w & ow & ep & E & Hw)|(f & Hf & Hfn & Hr & E)].
  - unfold saved. rewrite E, last_snoc. cbn. split; [done|discriminate].
  - rewrite E, <- Hr, <- (record_id f f' Hr). by apply (HS o f).
Qed.

#[export] Instance advances_preorder cfg : PreOrder (advances cfg).
Proof.
  split.
  - intros e. split; try done. intros _ o f Hf Hn. right. exists f. by split_and!.
  - intros e1 e2 e3 [S1 F1 I1] [S2 F2 I2]. split; [|by auto|by auto]. intros Hs o f3 Hf3 Hn3. specialize (S1 Hs). specialize (S2 Hs).
    destruct (S2 o f3 Hf3 Hn3) as [|(f2 & Hf2 & Hn2 & Hr2 & Hq2)]; [by left|].
    destruct (S1 o f2 Hf2 Hn2) as [H|(f1 & Hf1 & Hn1 & Hr1 & Hq1)]; rewrite (record_id _ _ Hr2) in *.
    + left. by rewrite Hq2, <- Hr2.
    + right. exists f1. split_and!; try done; congruence.
Qed.

Section ops.
Context {cfg : Config}.
Implicit Types (D : list flow) (h : gset Z) (e : Engine) (o : flow).

(** ** Steps *)

(** Nothing is left to save when every flow has ended. *)
Lemma saves_dead D h e e' : Inv cfg D h e' -> out e' = ∅ -> saves e e'.
Proof.
  intros I Ho o f Hf Hn. destruct (inv_heap _ _ _ _ I o f Hf) as (_ & H & _). specialize (H Hn). by rewrite Ho, lookup_empty in H.
Qed.

(** No flow, no queue of an outbound record changes. *)
Lemma advances_view e e' :
  flows e' = flows e -> (forall id, queue e' (outKey id) = queue e (outKey id)) ->
  (forall k, fresh (queue e k) -> fresh (queue e' k)) ->
  (forall k, Dir k <> Outbound -> Forall in_job (queue e k) -> Forall in_job (queue e' k)) -> advances cfg e e'.
Proof.
  intros Hf Hq Hfr Hin. split; try done. intros _ o f Hf' Hn. right. exists f. rewrite <- Hf. by rewrite Hq.
Qed.

Lemma advances_same e e' : flows e' = flows e -> queues e' = queues e -> advances cfg e e'.
Proof.
  intros Hf HQ. assert (Hq : forall k, queue e' k = queue e k) by (intros k; unfold queue; by rewrite HQ).
  apply advances_view; [done|intros id; by rewrite Hq|intros k; by rewrite Hq|intros k _; by rewrite Hq].
Qed.

(** A change of a flow that its record does not show. *)
Lemma advances_modify o g e :
  (forall f, record (g f) = record f) -> (forall f, finished (g f) = finished f) -> advances cfg e (modify o g e).
Proof.
  intros Hr Hn. split; try done. intros _ x f'. unfold modify. es. intros Hx Hnx. right.
  destruct (decide (x = o)) as [->|Hne].
  - rewrite lookup_alter_eq in Hx. destruct (flows e !! o) as [f|]; [|done]. cbn in Hx. injection Hx as <-. exists f.
    rewrite Hn in Hnx. by rewrite Hr.
  - rewrite lookup_alter_ne in Hx by done. by exists f'.
Qed.

(** Other unfinished flows have other identifiers. *)
Definition alone (e : Engine) (o : flow) : Prop :=
  forall x f, flows e !! x = Some f -> finished f = false -> x <> o -> o_id f <> o_id (get e o).

Lemma holds_alone D h e o f : Inv cfg D h e -> flows e !! o = Some f -> holds e o (o_id f) -> alone e o.
Proof.
  intros I Hf Hh x fx Hx Hn Hne Hid. rewrite (get_lookup _ _ _ Hf) in Hid. apply Hne.
  apply (inv_excl _ _ _ _ I x o (o_id f)); [|done]. rewrite <- Hid. apply live_holds; [done|]. by apply (inv_heap _ _ _ _ I).
Qed.

Lemma live_alone D h e o f : Inv cfg D h e -> flows e !! o = Some f -> finished f = false -> alone e o.
Proof. intros I Hf Hn. apply (holds_alone D h e o f I Hf). apply live_holds; [done|]. by apply (inv_heap _ _ _ _ I). Qed.

(** An operation on one flow, which leaves its record as it was, stored or
    about to be. *)
Definition stable (o : flow) (e e' : Engine) : Prop :=
  forall f', flows e' !! o = Some f' -> finished f' = false ->
    put_last (queue e' (outKey (o_id f'))) (record f')
    \/ exists f, flows e !! o = Some f /\ finished f = false /\ record f = record f'
                 /\ queue e' (outKey (o_id f')) = queue e (outKey (o_id f')).

Lemma advances_touch o e e' : alone e o -> touches o e e' -> (hasStore cfg = true -> stable o e e') -> advances cfg e e'.
Proof.
  intros Ha [Tf _ Tq (q & Tg & Tn) Ti] Hst. split.
  - intros Hs x f' Hx Hn. destruct (decide (x = o)) as [->|Hne]; [by apply Hst|]. right. exists f'.
    rewrite Tf in Hx by done. split_and!; try done. apply Tq. intros E%outKey_inj. by apply (Ha x f').
  - intros k Hk. destruct (decide (k = outKey (o_id (get e o)))) as [->|Hne]; [|by rewrite Tq]. rewrite Tg. by apply fresh_app.
  - intros k Hk. by rewrite (si_queue _ _ Ti k Hk).
Qed.

Lemma stable_ended o e e' : finished (get e' o) = true -> stable o e e'.
Proof. intros Hn f' Hf' Hn'. rewrite (get_lookup _ _ _ Hf') in Hn. congruence. Qed.

Lemma advances_ends o e e' : alone e o -> ends o e e' -> advances cfg e e'.
Proof. intros Ha [T Hn]. apply (advances_touch o); [done|done|]. intros _. by apply stable_ended. Qed.

Lemma stable_putOut o e0 e : hasStore cfg = true -> stable o e0 (putOutLocked cfg o e).
Proof.
  intros Hs f' Hf' Hn. left. unfold putOutLocked in *. rewrite Hs in *. change (flows e !! o = Some f') in Hf'.
  rewrite (get_lookup _ _ _ Hf'). rewrite queue_queueLocked, decide_True by done. do 4 eexists. split; [done|by right].
Qed.
(** ** Outbound operations *)

Lemma out_live D h e id o : Inv cfg D h e -> out e !! id = Some o -> is_Some (flows e !! o) /\ alone e o.
Proof.
  intros I Ho. destruct (inv_out _ _ _ _ I id o Ho) as (f & Hf & _ & Hn & _). split; [by eexists|]. by apply (live_alone D h e o f).
Qed.

Lemma advances_Register h e m now :
  Inv cfg [] h e -> m_ID m ∈ h -> advances cfg e (fst (Register cfg m now e)).
Proof.
  intros I Hid. destruct (inv_held _ _ _ _ I _ Hid) as [_ Hno]. unfold Register. destruct (failure e) as [err|]; [by apply advances_same|].
  cbn zeta. set (f := mkOut (m_ID m) (m_QoS m) _ _ _ _ _ _ _ _ _ _ _ _ _ _ _ _ _). unfold new_flow. cbn [fst].
  match goal with |- context [if hasStore cfg then queueLocked _ _ _ ?x else _] => set (e1 := x) end.
  assert (Hfl : flows e1 = <[nextOut e := f]> (flows e)) by (unfold e1; repeat case_match; done).
  assert (HQ : queue e1 = queue e) by (unfold e1; repeat case_match; done).
  assert (Hep : epoch e1 = epoch e) by (unfold e1; repeat case_match; done). clearbody e1.
  assert (Hq : forall k, queue (if hasStore cfg then queueLocked (outKey (m_ID m)) (OwnOut (nextOut e)) (PutNew (record f)) e1 else e1) k
                = queue e k ++ (if decide (hasStore cfg = true /\ k = outKey (m_ID m))
                                then [mkJob (PutNew (record f)) (OwnOut (nextOut e)) (epoch e) None] else [])).
  { intros k. destruct (hasStore cfg); [rewrite queue_queueLocked, HQ, Hep|by rewrite HQ, decide_False, app_nil_r by (by intros [])].
    destruct (decide (k = outKey (m_ID m))) as [->|Hne]; [by rewrite decide_True|].
    rewrite decide_False, app_nil_r; [done|]. by intros []. }
  split.
  - intros Hs x f'. rewrite Hq. replace (flows _) with (<[nextOut e := f]> (flows e)) by (by rewrite Hs).
    intros [[<- <-]|[Hne Hx]]%lookup_insert_Some Hn.
    + left. rewrite decide_True by done. do 4 eexists. split; [done|by left].
    + right. exists f'. rewrite decide_False, app_nil_r; [done|]. intros [_ E%outKey_inj]. apply (Hno x). rewrite <- E.
      apply live_holds; [done|]. by apply (inv_heap _ _ _ _ I).
  - intros k Hk. rewrite Hq. apply fresh_app; [done|]. destruct (decide _); repeat constructor.
  - intros k Hk Hin. rewrite Hq. rewrite decide_False, app_nil_r; [done|]. by intros [_ ->].
Qed.

Lemma advances_Withdraw h e o : Inv cfg [] h e -> is_Some (flows e !! o) -> advances cfg e (fst (Withdraw cfg o e)).
Proof.
  intros I [f Hf]. unfold Withdraw. rewrite (get_lookup _ _ _ Hf). destruct (finished f) eqn:Hn; [done|]. destruct (attempted f); [done|].
  cbn [orb fst]. apply (advances_ends o); [by apply (live_alone [] h e o f)|]. apply (ends_drop (cfg := cfg) o Canceled e). by eexists.
Qed.

Lemma advances_Adopt h e r s : Inv cfg [] h e -> advances cfg e (fst (Adopt r s e)).
Proof.
  intros I. unfold Adopt. destruct (refs e !! r) as [o|]; [by apply advances_modify|].
  destruct (orphans e !! r) as [o|] eqn:Ho; [|done]. cbn [fst].
  destruct (orphan_holds [] h e r o I Ho) as (f & Hf & Hn & Hown & _). set (g := fun f : Out => f <| settle := s |>).
  assert (Ha : alone e o).
  { apply (holds_alone [] h e o f I Hf). destruct (inv_orphan _ _ _ _ I _ _ Ho) as (f2 & Hf2 & Hr & _).
    rewrite Hf in Hf2. injection Hf2 as <-. exists f. subst r. auto. }
  assert (T1 : touches o e (modify o g e)) by (by apply touches_modify).
  assert (H1 : is_Some (flows (modify o g e) !! o)) by (eexists; by apply flows_modify).
  apply (advances_ends o); [done|]. apply (ends_after o e (modify o g e)); [by eexists|done|].
  assert (Hn1 : finished (get (modify o g e) o) = true) by (by rewrite (get_modify_eq _ _ _ f)).
  destruct (settling _).
  - split; [by apply touches_modify|]. by rewrite (get_modify_eq _ _ _ (g f)) by (by apply flows_modify).
  - pose proof (touches_settle o _ H1) as T2. split; [done|]. by apply (finished_touched o _ _ H1 T2).
Qed.

Lemma advances_HandlePuback h e id rc refused : Inv cfg [] h e -> advances cfg e (fst (HandlePuback cfg id rc refused e)).
Proof.
  intros I. unfold HandlePuback. destruct (failure e); [done|]. destruct (out e !! id) as [o|] eqn:Ho; [|done].
  destruct (out_live _ _ _ _ _ I Ho) as [H Ha]. destruct (_ || _); [done|]. cbn [fst]. apply (advances_ends o); [done|].
  pose proof (some_touched o _ _ H (touches_unlink o e)) as H1. apply (ends_after o e (unlinkLocked o e)); [done|auto with touch|].
  case_bool_decide; [|by apply ends_finish_credit_retire].
  set (g := fun f : Out => f <| reason := rc |>). assert (T : touches o (unlinkLocked o e) (modify o g (unlinkLocked o e))) by (by apply touches_modify).
  apply (ends_after o _ _ _ H1 T). apply ends_finish_credit_retire. by apply (some_touched _ _ _ H1 T).
Qed.

Lemma advances_HandlePubcomp h e id : Inv cfg [] h e -> advances cfg e (fst (HandlePubcomp cfg id e)).
Proof.
  intros I. unfold HandlePubcomp. destruct (failure e); [done|]. destruct (out e !! id) as [o|] eqn:Ho; [|done].
  destruct (out_live _ _ _ _ _ I Ho) as [H Ha]. destruct (negb _); [done|]. cbn [fst]. apply (advances_ends o); [done|].
  pose proof (some_touched o _ _ H (touches_unlink o e)) as H1. apply (ends_after o e (unlinkLocked o e)); [done|auto with touch|].
  by apply ends_finish_credit_retire.
Qed.

Lemma advances_HandlePubrec h e id rc refused : Inv cfg [] h e -> advances cfg e (fst (HandlePubrec cfg id rc refused e)).
Proof.
  intros I. unfold HandlePubrec. destruct (failure e); [done|]. destruct (out e !! id) as [o|] eqn:Ho; [|by apply advances_same].
  destruct (out_live _ _ _ _ _ I Ho) as [H Ha]. destruct (_ || _); [done|]. destruct (_ =? _); [by apply advances_same|].
  pose proof (some_touched o _ _ H (touches_unlink o e)) as H1. set (e1 := unlinkLocked o e) in *.
  assert (T1 : touches o e e1) by apply touches_unlink. case_bool_decide; cbn [fst].
  - set (g := fun f : Out => f <| reason := rc |>). assert (T : touches o e1 (modify o g e1)) by (by apply touches_modify).
    apply (advances_ends o); [done|]. apply (ends_after o e e1); [done|done|]. apply (ends_after o _ _ _ H1 T).
    apply ends_finish_credit_retire. by apply (some_touched _ _ _ H1 T).
  - set (g := fun f : Out => f <| phase := AwaitPubcomp |> <| seq := nextSeq e1 |>).
    apply (advances_touch o); [done| |intros Hs; by apply stable_putOut].
    via e1. via (modify o g e1). set (e2 := modify o g e1) in *.
    assert (H2 : is_Some (flows e2 !! o)) by (apply (some_touched o e1); [done|by apply touches_modify]).
    via (push_rel o (e2 <| nextSeq ::= Z.succ |>)). eapply touches_trans; [exact H2|apply touches_pubrel|apply touches_putOut].
Qed.
(** ** Collecting *)

Lemma advances_send o e : advances cfg e (send_flow o e).
Proof.
  unfold send_flow. cbn zeta. etransitivity; [by apply (advances_modify o (fun f => f <| attempted := true |> <| counted := true |>))|].
  by apply advances_same.
Qed.

(** A new packet, with the write that stores it. *)
Lemma advances_put o g e f :
  alone e o -> flows e !! o = Some f -> (forall f, o_id (g f) = o_id f) -> (forall f, finished f = true -> finished (g f) = true) ->
  advances cfg e (putOutLocked cfg o (modify o g e)).
Proof.
  intros Ha Hf Hg Hn. apply (advances_touch o); [done| |intros Hs; by apply stable_putOut].
  eapply touches_trans; [by eexists|by apply touches_modify|apply touches_putOut].
Qed.

Lemma advances_shorten o left e : hasStore cfg = false -> advances cfg e (shorten o left e).
Proof. intros Hs. split; [by rewrite Hs|done|done]. Qed.

Lemma advances_loop h l e e' its : loop_run cfg l e e' its -> collecting (cfg := cfg) h l e -> advances cfg e e'.
Proof.
  induction 1 as [|o l e f e' its Hf Hs _ IH|o l e f left e' its Hc Hf Hs Ha _ IH|o l e f e' its Hf Ha _ IH|o l e f left Hc Hf Ha];
    intros C; [done|..].
  - etransitivity; [apply (advances_send o)|]. by apply IH, (collecting_send h o l e f).
  - etransitivity; [by apply (advances_shorten o left)|]. etransitivity; [apply (advances_send o)|].
    pose proof (collecting_shorten h o l left e f C Hf) as C1. eapply IH, collecting_send; [exact C1|by apply flows_modify|].
    destruct Hs as (? & ? & ?). split_and!; done.
  - etransitivity; [|by apply IH, collecting_drop]. destruct (collecting_head _ _ _ _ _ C Hf) as (Hn & _).
    apply (advances_ends o); [apply (live_alone [] h e o f); [apply C|done|done]|]. apply ends_drop. by eexists.
  - destruct (collecting_head _ _ _ _ _ C Hf) as (Hn & _). apply (advances_put o _ e f); try done.
    apply (live_alone [] h e o f); [apply C|done|done].
Qed.

(** The flows that [Collect] looks at. *)
Lemma collecting_start h g upTo now e :
  Inv cfg [] h e -> servesLocked g e = true ->
  let e0 := if released e <? upTo then e <| released := upTo |> else e in
  let e1 := fst (collectControlLocked e0) in
  collecting (cfg := cfg) h (at_cursor e1) e1 /\ same_view e e1
  /\ fst (Collect cfg g upTo now e) = fst (publish_loop cfg (at_cursor e1) 0 now e1)
  /\ snd (Collect cfg g upTo now e) = snd (collectControlLocked e0) ++ snd (publish_loop cfg (at_cursor e1) 0 now e1).
Proof.
  intros I S. cbn zeta. unfold Collect. rewrite S. cbn zeta. set (e0 := if released e <? upTo then _ else e).
  assert (V0 : same_view e e0) by (unfold e0; case_match; by repeat split).
  pose proof (control_view (ctrl e0) e0) as V1. unfold collectControlLocked. destruct (control_loop (ctrl e0) e0) as [e1 acks].
  cbn [fst snd] in *. pose proof (transitivity V0 V1) as V. pose proof (Inv_view _ _ _ _ _ V I) as I1.
  assert (Hnf : failure e1 = None).
  { unfold servesLocked in S. apply andb_true_iff in S as [_ S]. apply bool_decide_eq_true in S.
    destruct V as (_ & _ & _ & _ & _ & _ & _ & _ & _ & _ & _ & Vf & _). congruence. }
  destruct (at_cursor_suffix e1) as [l1 Hl1]. split; [|split; [done|by destruct (publish_loop _ _ _ _ _)]]. split; try done.
  - pose proof (pub_nodup [] h e1 I1) as Hnd. rewrite Hl1 in Hnd. by apply NoDup_app in Hnd as (_ & _ & ?).
  - intros o Ho. rewrite Hl1. apply elem_of_app. by right.
Qed.

Lemma collecting_some h l e : collecting (cfg := cfg) h l e -> forall o, o ∈ l -> is_Some (flows e !! o).
Proof.
  intros [I _ _ Hp] o Ho. destruct (member_live I o) as (f & Hf & _); [by apply elem_first, Hp|]. by eexists.
Qed.

Lemma control_queues l : forall e, queues (fst (control_loop l e)) = queues e.
Proof.
  induction l as [|c l IH]; intros e; cbn [control_loop]; [done|]. destruct (readyLocked e c); [|done]. cbn zeta.
  match goal with |- context [control_loop l ?x] => set (e1 := x) end. specialize (IH e1). destruct (control_loop l e1) as [e2 its].
  cbn [fst] in *. rewrite IH. unfold e1. by case_match.
Qed.

Lemma advances_Collect h g upTo now e : Inv cfg [] h e -> advances cfg e (fst (Collect cfg g upTo now e)).
Proof.
  intros I. destruct (servesLocked g e) eqn:S; [|unfold Collect; by rewrite S].
  destruct (collecting_start h g upTo now e I S) as (C & V & -> & _). set (e0 := if released e <? upTo then _ else e) in *.
  set (e1 := fst (collectControlLocked e0)) in *. etransitivity.
  - apply (advances_same e e1); [apply V|]. unfold e1, collectControlLocked. rewrite control_queues. unfold e0. by case_match.
  - eapply advances_loop; [|exact C]. apply publish_loop_run. by apply (collecting_some h).
Qed.
(** ** Connections *)

Lemma advances_lose_flow D h now e o : Inv cfg (o :: D) h e -> advances cfg e (lose_flow cfg now e o).
Proof.
  intros I. destruct (member_live I o) as (f & Hf & _ & Hn & _); [apply elem_detached; by left|].
  assert (H : is_Some (flows e !! o)) by (by eexists). pose proof (live_alone _ h e o f I Hf Hn) as Ha. unfold lose_flow.
  match goal with |- context [match ?g with Some _ => _ | None => _ end] => destruct g as [err|] end.
  { apply (advances_ends o); [done|]. by apply ends_finish_retire. }
  apply (advances_touch o); [done| |intros Hs; by apply stable_putOut].
  set (g := fun f : Out => f <| phase := AwaitFirst (qos f) |> <| seq := pubSeq f |> <| attempted := false |>).
  via (modify o g e). assert (H1 : is_Some (flows (modify o g e) !! o)) by (eexists; by apply flows_modify).
  match goal with |- context [push_pub o ?x] => set (e2 := x) end.
  assert (T : touches o (modify o g e) e2) by (unfold e2; destruct (expiresAt _); [by apply touches_modify|auto with touch]).
  eapply touches_trans; [exact H1|exact T|]. pose proof (some_touched _ _ _ H1 T) as H2.
  via (push_pub o e2). apply touches_putOut.
Qed.

Lemma advances_limit_flow h l fr e o : Inv cfg [] h e -> o ∈ pub e -> advances cfg e (limit_flow cfg l fr e o).
Proof.
  intros I Hin. destruct (member_live I o) as (f & Hf & _ & Hn & _); [by apply elem_first|].
  pose proof (live_alone _ h e o f I Hf Hn) as Ha.
  assert (Hdrop : forall err, advances cfg e (retireLocked cfg o (finishLocked o (Some err) (unlinkLocked o e)))).
  { intros err. apply (advances_ends o); [done|]. apply (ends_drop (cfg := cfg) o err e). by eexists. }
  unfold limit_flow. cbn zeta. destruct (_ && attempted _); [done|]. destruct (_ && _); [done|]. destruct (_ && negb _); [done|].
  destruct (_ && Downgrade l && _); [|destruct (_ <? _); done]. by apply (advances_put o _ e f).
Qed.

Lemma advances_queue_in id ow w e :
  (exists i, ow = OwnIn i) -> w = PutIn \/ w = DeleteIn -> advances cfg e (queueLocked (inKey id) ow w e).
Proof.
  intros [i ->] Hw. apply advances_view; try done.
  - intros id'. rewrite queue_queueLocked. by rewrite decide_False.
  - intros k Hk. rewrite queue_queueLocked. case_decide; [subst k|done]. apply fresh_app; [done|]. by constructor.
  - intros k _ Hk. rewrite queue_queueLocked. case_decide; [subst k|done]. apply Forall_app. split; [done|]. constructor; [|constructor].
    by exists i.
Qed.

Lemma advances_lose_in e x : advances cfg e (lose_in cfg e x).
Proof.
  destruct x as [id i]. unfold lose_in. destruct (_ && _); [|by apply advances_same].
  match goal with |- advances cfg e (queueLocked _ _ _ ?x) => transitivity x; [by apply advances_same|] end.
  apply advances_queue_in; [by eexists|by right].
Qed.

Lemma advances_drop_inbound e : advances cfg e (drop_inbound (fold_left (lose_in cfg) (map_to_list (inb e)) e)).
Proof.
  transitivity (fold_left (lose_in cfg) (map_to_list (inb e)) e); [|by apply advances_same].
  generalize (map_to_list (inb e)). intros l. revert e. induction l as [|x l IH]; intros e; [done|]. cbn [fold_left]. etransitivity; [apply advances_lose_in|apply IH].
Qed.

Lemma Connected_advances h e ci now :
  Inv cfg [] h e -> 0 <= ci_ReceiveMaximum ci ->
  Inv cfg [] h (fst (Connected cfg ci now e)) /\ advances cfg e (fst (Connected cfg ci now e)).
Proof.
  intros I Hrm. apply (Inv_Connected h e ci now (advances cfg)); try done.
  - intros e1 e2 B. apply advances_same; apply B.
  - intros e1 o. by apply advances_modify.
  - intros _. apply advances_drop_inbound.
  - intros _ D e1 o. apply advances_lose_flow.
  - intros l fr e1 o. apply advances_limit_flow.
Qed.

(** ** Inbound operations *)

Lemma advances_Receive id q e : advances cfg e (fst (Receive cfg id q e)).
Proof. unfold Receive, new_in. repeat case_match; try done; by apply advances_same. Qed.

Lemma advances_ack i e : advances cfg e (ack cfg i e).
Proof.
  unfold ack. case_match; [done|]. cbn zeta. set (e1 := modify_in i _ e). transitivity e1; [by apply advances_same|].
  generalize (fifo e1). generalize e1. clear. intros e l. revert e.
  induction l as [|i l IH]; intros e; cbn [ack_loop]; [by apply advances_same|]. case_decide; [|by apply advances_same].
  case_match; [match goal with |- advances cfg e (ack_loop cfg l ?x) => transitivity x; [by apply advances_same|apply IH] end|].
  match goal with |- context [if hasStore cfg then queueLocked _ _ _ ?x else _] => set (e1 := x) end.
  assert (H1 : advances cfg e e1) by (by apply advances_same).
  match goal with |- advances cfg e (ack_loop cfg l ?x) => transitivity x; [|apply IH] end.
  case_match; [|done]. transitivity e1; [done|]. apply advances_queue_in; [by eexists|by left].
Qed.

Lemma advances_HandlePubrel id e : advances cfg e (HandlePubrel cfg id e).
Proof.
  unfold HandlePubrel. repeat case_match; try done; try by apply advances_same.
  match goal with |- advances cfg e (queueLocked _ _ _ ?x) => transitivity x; [by apply advances_same|] end.
  apply advances_queue_in; [by eexists|by right].
Qed.

(** ** The end of the session *)

Lemma queues_fail err e : queues (fst (failLocked err e)) = queues e.
Proof.
  destruct (failure e) eqn:Hnf; [unfold failLocked; by rewrite Hnf|]. destruct (fail_eq err e Hnf) as [m E]. rewrite E. done.
Qed.

Lemma advances_dead D h e e' : Inv cfg D h e' -> out e' = ∅ -> queues e' = queues e -> advances cfg e e'.
Proof.
  intros I Ho HQ. assert (Hq : forall k, queue e' k = queue e k) by (intros k; unfold queue; by rewrite HQ). split.
  - intros _. by apply (saves_dead D h).
  - intros k. by rewrite Hq.
  - intros k _. by rewrite Hq.
Qed.

Lemma advances_fail h err e : Inv cfg [] h e -> failure e = None -> advances cfg e (fst (failLocked err e)).
Proof.
  intros I Hnf. pose proof (Inv_fail h e err I) as I'. apply (advances_dead [] h); [done| |apply queues_fail].
  apply (inv_failed _ _ _ _ I'). destruct (fail_eq err e Hnf) as [m E]. rewrite E. done.
Qed.

Lemma advances_SetMeta h e m ans a : Inv cfg [] h e -> advances cfg e (fst (fst (SetMeta cfg m ans e a))).
Proof.
  intros I. unfold SetMeta. destruct (failure e) eqn:Hnf; [done|]. destruct (_ && _); [done|].
  destruct (negb _); [by apply advances_same|]. destruct (store_do ans (SSetMeta m) a) as [a' [|]]; [by apply advances_same|].
  pose proof (advances_fail h (StoreError "set meta") e I Hnf) as H. by destruct (failLocked _ e).
Qed.
(** ** The writes themselves *)

(** The record [do_work] leaves under a key other than its own. *)
Definition disk_at (a : contents) (k : RecordKey) : option SRecord :=
  match a with Some (_, rs) => rs !! k | None => None end.

Lemma on_disk_at a r : on_disk a r <-> disk_at a (Key r) = Some r.
Proof.
  unfold on_disk, disk_at. split; [by intros (m & rs & -> & ?)|]. destruct a as [[m rs]|]; [|done]. intros H. by exists m, rs.
Qed.

Lemma store_do_at m c a k :
  (forall r, c = SPut r -> Key r <> k) -> (forall k', c = SDelete k' -> k' <> k) -> c <> SReset -> c <> SClose ->
  disk_at a k = disk_at (fst (store_do m c a)) k.
Proof.
  intros Hp Hd Hr Hc. assert (H : disk_at (fst (contract a c)) k = disk_at a k).
  { unfold contract. destruct c as [r|k'|m'| |], a as [[m0 rs]|]; try done.
    - destruct (Validate r); [done|]. cbn. by rewrite lookup_insert_ne by (by apply Hp).
    - by destruct (Validate r).
    - cbn. by rewrite lookup_delete_ne by (by apply Hd). }
  unfold store_do. destruct m as [|[|]]; [by destruct (contract a c)|done|done].
Qed.

Lemma store_do_put m r a a' : store_do m (SPut r) a = (a', true) -> on_disk a' r.
Proof.
  unfold store_do. destruct m as [|w]; [|done]. unfold contract. destruct (Validate r); [done|]. destruct a as [[m rs]|]; [|done].
  cbn. intros [= <-]. exists m, (<[Key r := r]> rs). by rewrite lookup_insert_eq.
Qed.

(** A job writes under its own key. *)
Definition keyed_work (k : RecordKey) (w : work) : Prop := match w with PutNew r | PutOut r => Key r = k | _ => True end.

Lemma do_work_at w k ans a a' r told k' :
  keyed_work k w -> do_work cfg w k ans a = (a', r, told) -> k' <> k -> disk_at a' k' = disk_at a k'.
Proof.
  intros Hk E Hne.
  assert (Hc : forall c, (forall r, c = SPut r -> Key r = k) -> (forall k', c = SDelete k' -> k' = k) -> c <> SReset -> c <> SClose ->
            disk_at (fst (store_do (a_medium ans) c a)) k' = disk_at a k').
  { intros c H1 H2 H3 H4. symmetry. apply store_do_at; try done; [intros r0 E0; rewrite (H1 r0 E0)|intros k0 E0; rewrite (H2 k0 E0)]; congruence. }
  unfold do_work in E. destruct w as [r0|r0|s oc rf| |]; cbn zeta in E.
  - specialize (Hc (SPut r0)). destruct (store_do _ _ a) as [a1 ok]. injection E as <- _ _. apply Hc; congruence || (by intros ? [= <-]).
  - specialize (Hc (SPut r0)). destruct (store_do _ _ a) as [a1 ok]. injection E as <- _ _. apply Hc; congruence || (by intros ? [= <-]).
  - destruct (_ && _); [by injection E as <- _ _|]. destruct (hasStore cfg); [|by injection E as <- _ _].
    specialize (Hc (SDelete k)). destruct (store_do _ _ a) as [a1 ok]. injection E as <- _ _. apply Hc; congruence || (by intros ? [= <-]).
  - specialize (Hc (SPut (mkRecord k 0 0 0 2 AwaitPubrel [] None []))). destruct (store_do _ _ a) as [a1 ok]. injection E as <- _ _.
    apply Hc; congruence || (by intros ? [= <-]).
  - specialize (Hc (SDelete k)). destruct (store_do _ _ a) as [a1 ok]. injection E as <- _ _. apply Hc; congruence || (by intros ? [= <-]).
Qed.

Lemma do_work_put w k ans a a' res told r : is_put w r -> do_work cfg w k ans a = (a', res, told) -> res = DoOk -> on_disk a' r.
Proof.
  intros [-> | ->]; unfold do_work; cbn zeta; intros E ->; destruct (store_do (a_medium ans) (SPut r) a) as [a1 [|]] eqn:Es; try done;
    injection E as <- _; by apply (store_do_put (a_medium ans) r a).
Qed.
(** What [do_work] may leave under its own key. *)
Lemma store_do_own m c a k r :
  disk_at (fst (store_do m c a)) k = Some r -> disk_at a k = Some r \/ (exists r', c = SPut r' /\ r = r' /\ Key r' = k).
Proof.
  assert (H : disk_at (fst (contract a c)) k = Some r -> disk_at a k = Some r \/ (exists r', c = SPut r' /\ r = r' /\ Key r' = k)).
  { unfold contract. destruct c as [r'|k'|m'| |], a as [[m0 rs]|]; cbn; auto.
    - destruct (Validate r'); [auto|]. cbn. intros [[<- <-]|[_ H]]%lookup_insert_Some; [right; by exists r'|by left].
    - destruct (Validate r'); auto.
    - intros [_ H]%lookup_delete_Some. by left.
    - intros H. by rewrite lookup_empty in H.
    - done. }
  unfold store_do. destruct m as [|[|]]; [by destruct (contract a c)|done|by left].
Qed.

Lemma do_work_own w k ans a a' res told r :
  do_work cfg w k ans a = (a', res, told) -> disk_at a' k = Some r ->
  disk_at a k = Some r \/ is_put w r \/ (w = PutIn /\ r = mkRecord k 0 0 0 2 AwaitPubrel [] None []).
Proof.
  assert (Hc : forall c, disk_at (fst (store_do (a_medium ans) c a)) k = Some r -> disk_at a k = Some r \/ c = SPut r).
  { intros c [|(r' & -> & -> & _)]%store_do_own; auto. }
  unfold do_work. destruct w as [r0|r0|s oc rf| |]; cbn zeta; intros E Hr.
  - specialize (Hc (SPut r0)). destruct (store_do _ _ a) as [a1 ok]. injection E as <- _ _. destruct (Hc Hr) as [|[= ->]]; [auto|]. right; left. by left.
  - specialize (Hc (SPut r0)). destruct (store_do _ _ a) as [a1 ok]. injection E as <- _ _. destruct (Hc Hr) as [|[= ->]]; [auto|]. right; left. by right.
  - destruct (_ && _); [injection E as <- _ _; auto|]. destruct (hasStore cfg); [|injection E as <- _ _; auto].
    specialize (Hc (SDelete k)). destruct (store_do _ _ a) as [a1 ok]. injection E as <- _ _. destruct (Hc Hr) as [|]; auto; done.
  - specialize (Hc (SPut (mkRecord k 0 0 0 2 AwaitPubrel [] None []))). destruct (store_do _ _ a) as [a1 ok]. injection E as <- _ _.
    destruct (Hc Hr) as [|[= <-]]; auto.
  - specialize (Hc (SDelete k)). destruct (store_do _ _ a) as [a1 ok]. injection E as <- _ _. destruct (Hc Hr) as [|]; auto; done.
Qed.

(** ** The invariant of queues and store *)

Record DInv (a : contents) (e : Engine) : Prop := {
  dv_saved : hasStore cfg = true -> Saved a e;
  dv_fresh k : fresh (queue e k);
  dv_in k : Dir k <> Outbound -> Forall in_job (queue e k);
  dv_disk k r : disk_at a k = Some r -> Key r = k /\ rec_ok r;
}.

Lemma DInv_advances a e e' : advances cfg e e' -> DInv a e -> DInv a e'.
Proof. intros A []. split; [|intros k; by apply A|intros k Hk; apply A; auto|done]. intros Hs. apply (Saved_saves a e); [by apply A|auto]. Qed.

(** The write at the head of a queue. *)
Lemma head_work h e a k j q :
  Inv cfg [] h e -> DInv a e -> queue e k = j :: q ->
  (forall r, is_put (j_work j) r -> Key r = k /\ rec_ok r) /\ (j_work j = PutIn -> Dir k <> Outbound).
Proof.
  intros I Dv Eq. destruct (decide (Dir k = Outbound)) as [Hd|Hd].
  - assert (k = outKey (PacketID k)) as Ek by (destruct k; cbn in *; by subst). rewrite Ek in Eq.
    destruct (inv_jobs _ _ _ _ I (PacketID k) j) as (o & f & _ & _ & Hid & Hfit); [rewrite Eq; by left|].
    split; [|intros Hw; by rewrite Hw in Hfit]. intros r [Hw|Hw]; rewrite Hw in Hfit; cbn in Hfit; destruct Hfit as [_ Hfit];
      (split; [rewrite Ek; rewrite <- Hid; apply (rf_key _ _ Hfit)|]); intros _; rewrite (rf_key _ _ Hfit); exact Hfit.
  - split; [|done]. pose proof (dv_in _ _ Dv k Hd) as Hin. rewrite Eq in Hin. apply Forall_cons in Hin as [(i & _ & Hw) _].
    intros r [E|E]; rewrite E in Hw; by destruct Hw.
Qed.

Lemma saved_other a a' q r : disk_at a' (Key r) = disk_at a (Key r) -> saved a q r -> saved a' q r.
Proof. intros E. unfold saved. destruct (last q); rewrite !on_disk_at, E; done. Qed.

Lemma record_key f : Key (record f) = outKey (o_id f).
Proof. unfold record. by repeat case_match. Qed.

Lemma DInv_perform h k ans e a e' a' told :
  Inv cfg [] h e -> DInv a e -> perform_head cfg k ans e a = Some (e', a', told) -> DInv a' e'.
Proof.
  intros I Dv. unfold perform_head. destruct (queue e k) as [|[w ow ep [r|]] q] eqn:Eq; try done.
  destruct (do_work cfg w k ans a) as [[a1 res] told1] eqn:Ew. intros [= <- <- _].
  destruct (head_work h e a k _ q I Dv Eq) as [Hput Hin]. cbn [j_work] in *.
  assert (Hk : keyed_work k w) by (destruct w; cbn; try done; apply Hput; [by left|by right]).
  pose proof (do_work_at w k ans a a1 res told1) as Hat.
  set (e' := e <| queues ::= _ |>). assert (Hq : forall k', queue e' k' = if decide (k' = k) then mkJob w ow ep (Some res) :: q else queue e k').
  { intros k'. unfold e', queue. es. case_decide; [subst; by rewrite lookup_insert_eq|by rewrite lookup_insert_ne]. }
  pose proof (dv_fresh _ _ Dv k) as Hfr. rewrite Eq in Hfr. split.
  - intros Hs o f Hf Hn. pose proof (dv_saved _ _ Dv Hs o f Hf Hn) as S. rewrite Hq. case_decide as Ek.
    + rewrite Ek, Eq in S. destruct q as [|j q _] using rev_ind.
      * unfold saved in *. cbn in *. destruct S as [Hw _]. split; [done|]. intros [= ->]. by apply (do_work_put w k ans a a1 DoOk told1).
      * unfold saved in *. rewrite app_comm_cons, last_snoc in S |- *. destruct S as [Hw _]. split; [done|].
        cbn in Hfr. apply Forall_app in Hfr as [_ Hj]. apply Forall_cons in Hj as [-> _]. done.
    + apply (saved_other a a1); [|done]. rewrite record_key. by apply Hat.
  - intros k'. rewrite Hq. case_decide; [exact Hfr|]. apply Dv.
  - intros k' Hk'. rewrite Hq. case_decide as Ek; [|by apply Dv]. subst k'. pose proof (dv_in _ _ Dv k Hk') as H. rewrite Eq in H.
    apply Forall_cons in H as [Hj H]. by constructor.
  - intros k' r Hr. destruct (decide (k' = k)) as [->|Hne]; [|rewrite Hat in Hr by done; by apply Dv].
    destruct (do_work_own w k ans a a1 res told1 r Ew Hr) as [H|[H|[H ->]]]; [by apply Dv|by apply Hput|]. split; [done|].
    intros Hd. cbn in Hd. by apply Hin in H.
Qed.
(** ** After a write *)

Lemma Saved_dead D h a e : Inv cfg D h e -> out e = ∅ -> Saved a e.
Proof.
  intros I Ho o f Hf Hn. destruct (inv_heap _ _ _ _ I o f Hf) as (_ & H & _). specialize (H Hn). by rewrite Ho, lookup_empty in H.
Qed.

Lemma flows_pop k e : flows (pop_head k e) = flows e.
Proof. by rewrite pop_eq. Qed.

Lemma fresh_tail q : fresh q -> fresh (tail q).
Proof. unfold fresh. destruct q as [|j [|j' q]]; cbn; try done. by intros [_ ?]%Forall_cons. Qed.

(** What is left when the head of a queue goes. *)
Lemma DInv_pop k a e :
  DInv a e -> (hasStore cfg = true -> Saved a (pop_head k e)) -> DInv a (pop_head k e).
Proof.
  intros [] Hs. split; try done.
  - intros k'. rewrite queue_pop. case_decide; [apply fresh_tail|]; done.
  - intros k' Hk'. rewrite queue_pop. case_decide; [subst|by auto]. specialize (dv_in0 k Hk'). destruct (queue e k); [done|].
    by apply Forall_cons in dv_in0 as [_ ?].
Qed.

Lemma Saved_pop_in k a e : Dir k <> Outbound -> Saved a e -> Saved a (pop_head k e).
Proof.
  intros Hk S o f. rewrite flows_pop. intros Hf Hn. rewrite queue_pop, decide_False; [by apply (S o f)|]. intros E. by rewrite <- E in Hk.
Qed.

Lemma Saved_pop_out id j q a e :
  Saved a e -> queue e (outKey id) = j :: q -> (q = [] -> j_result j = Some DoOk) -> Saved a (pop_head (outKey id) e).
Proof.
  intros S Eq Hr o f. rewrite flows_pop. intros Hf Hn. specialize (S o f Hf Hn). rewrite queue_pop. case_decide as Ek; [|done].
  rewrite Ek, Eq in S. rewrite Eq. cbn [tail]. destruct q as [|j' q]; [|exact S]. unfold saved in *. cbn in *.
  apply S. by apply Hr.
Qed.

(** The flow the queue belongs to has ended. *)
Lemma Saved_ended o f a e e1 :
  Saved a e -> flows e !! o = Some f -> alone e o -> (forall x, x <> o -> flows e1 !! x = flows e !! x) ->
  finished (get e1 o) = true -> (forall k, k <> outKey (o_id f) -> queue e1 k = queue e k) -> Saved a e1.
Proof.
  intros S Hf Ha Hfl Hn HQ x fx Hx Hnx. assert (Hne : x <> o).
  { intros ->. rewrite (get_lookup _ _ _ Hx) in Hn. congruence. }
  rewrite Hfl in Hx by done. pose proof (Ha x fx Hx Hnx Hne) as Hid. rewrite (get_lookup _ _ _ Hf) in Hid.
  rewrite HQ by (by intros E%outKey_inj). by apply (S x fx).
Qed.

Lemma after_register_failed h e o f j q :
  Inv cfg [] h e -> flows e !! o = Some f -> queue e (outKey (o_id f)) = j :: q -> j_owner j = OwnOut o ->
  let e' := pop_head (outKey (o_id f)) (register_failed o e) in
  (forall x, x <> o -> flows e' !! x = flows e !! x) /\ finished (get e' o) = true
  /\ forall k, queue e' k = if decide (k = outKey (o_id f)) then [] else queue e k.
Proof.
  intros I Hf Hq Hj. destruct (register_failed_eq e o f (o_id f) j q Hf eq_refl Hq) as (c & rs & m & Q & -> & _ & _ & HQ).
  - apply Forall_forall. intros j' Hj'. destruct (inv_jobs _ _ _ _ I (o_id f) j') as (o' & f' & Ho' & Hf' & Hid' & _); [rewrite Hq; by right|].
    rewrite Ho'. f_equal. destruct (job_own [] h e (o_id f) j o I) as (_ & _ & Hex); [rewrite Hq; by left|done|].
    apply Hex. exists f'. split; [done|]. split; [done|]. right; right. exists j'. rewrite Hq. split; [by right|done].
  - intros x Hx. by destruct (inv_orphan _ _ _ _ I _ _ Hx) as (_ & _ & _ & _ & ?).
  - cbn zeta. split_and!; [| |exact HQ].
    + intros x Hx. unfold releaseLocked, modify. es. by rewrite lookup_alter_ne.
    + unfold get, releaseLocked, modify. es. by rewrite lookup_alter_eq, Hf.
Qed.

Lemma ends_after_settle o f s oc rf ep res r e :
  flows e !! o = Some f -> finished f = true -> ends o e (fst (after cfg (mkJob (SettleDelete s oc rf) (OwnOut o) ep res) r e)).
Proof.
  intros Hf Hn. assert (H : is_Some (flows e !! o)) by (by eexists). set (e1 := modify o (fun f => f <| settling := false |>) e).
  assert (T1 : touches o e e1) by (by apply touches_modify). pose proof (some_touched _ _ _ H T1) as H1.
  assert (Hn0 : finished (get e o) = true) by (by rewrite (get_lookup _ _ _ Hf)).
  assert (Hgo : forall e2, touches o e1 e2 -> ends o e e2).
  { intros e2 T2. pose proof (touches_trans o e e1 e2 H T1 T2) as T. split; [done|]. by apply (finished_touched o e). }
  unfold after. cbn [j_work j_owner]. fold e1.
  assert (Hrest : forall failed : bool, ends o e (fst (
     let e := if failed then completeLocked cfg o e1 else e1 in
     if adopted (get e o) then (settleLocked o (modify o (fun f => f <| adopted := false |>) e), None)
     else if failed then (modify o (fun f => f <| settle := None |>) e, None)
     else let f := get e o in
          let e := if negb (list_eqb (ref f) []) && bool_decide (orphans e !! ref f = Some o) then e <| orphans ::= delete (ref f) |> else e in
          (releaseLocked (o_id f) IDs.OwnerPublish e, @None flow_error)))).
  { intros failed. cbn zeta. set (e2 := if failed then completeLocked cfg o e1 else e1).
    assert (T2 : touches o e1 e2) by (unfold e2; destruct failed; auto with touch). pose proof (some_touched _ _ _ H1 T2) as H2.
    apply Hgo. apply (touches_trans o e1 e2); [done|done|]. destruct (adopted _); cbn [fst].
    - via (modify o (fun f => f <| adopted := false |>) e2). apply touches_settle. destruct H2 as [f2 Hf2]. eexists. by apply flows_modify.
    - destruct failed; cbn [fst]; [by apply touches_modify|]. apply touches_view. destruct (_ && _); by split_and!. }
  destruct r; [apply (Hrest false)|apply (Hrest true)|]. cbn [fst]. apply Hgo. auto with touch.
Qed.
(** A session that fails after a write has nothing left to save. *)
Lemma DInv_fail h a e e' err :
  Inv cfg [] h e' -> e' = fst (failLocked err e) -> (forall k, fresh (queue e k)) ->
  (forall k, Dir k <> Outbound -> Forall in_job (queue e k)) -> (forall k r, disk_at a k = Some r -> Key r = k /\ rec_ok r) -> DInv a e'.
Proof.
  intros I -> Hf Hin Hd. assert (Hq : forall k, queue (fst (failLocked err e)) k = queue e k) by (intros k; unfold queue; by rewrite queues_fail).
  split; [|intros k; by rewrite Hq|intros k Hk; rewrite Hq; auto|done]. intros _. apply (Saved_dead [] h); [done|].
  destruct (failure e) eqn:Hnf.
  - apply (inv_failed _ _ _ _ I). unfold failLocked. rewrite Hnf. cbn [fst]. congruence.
  - by destruct (fail_eq err _ Hnf) as [m ->].
Qed.

(** The job at the head of an outbound queue is in force. *)
Lemma DInv_finish_out h id e a e' told :
  Inv cfg [] h e -> DInv a e -> finish_head cfg (outKey id) e = Some (e', told) -> DInv a e'.
Proof.
  intros I Dv E. assert (I' : Inv cfg [] h e') by (apply (Inv_finish_head h (outKey id) e e' told I); [intros H; by destruct (H id)|done]).
  revert E. unfold finish_head. destruct (queue e (outKey id)) as [|[w ow ep [r|]] q] eqn:Eq; try done.
  set (j := mkJob w ow ep (Some r)) in *. assert (Hj : j ∈ queue e (outKey id)) by (rewrite Eq; by left).
  destruct (inv_jobs _ _ _ _ I id j Hj) as (o & f & Ho & Hf & Hid & Hfit). cbn in Ho. subst ow id.
  assert (Hend : forall e1 err, DInv a (pop_head (outKey (o_id f)) e1) -> match err with
            | Some err => Some (failLocked err (pop_head (outKey (o_id f)) e1)) | None => Some (pop_head (outKey (o_id f)) e1, []) end = Some (e', told) -> DInv a e').
  { intros e1 [err|] D1; [|by intros [= <- _]]. intros [= E]. apply (DInv_fail h a (pop_head (outKey (o_id f)) e1) e' err); [done|by rewrite E|apply D1..]. }
  assert (Hpop : (hasStore cfg = true -> Saved a (pop_head (outKey (o_id f)) e)) -> DInv a (pop_head (outKey (o_id f)) e)) by (by apply DInv_pop).
  destruct (Z.eqb_spec ep (epoch e)) as [Hep|Hep].
  2: { intros [= <- _]. apply Hpop. intros _. apply (Saved_dead [] h); [by apply Inv_pop|]. rewrite pop_eq. es.
       destruct (inv_epoch _ _ _ _ I _ j Hj) as [_ Hnf]. cbn in Hnf. apply (inv_failed _ _ _ _ I). intros E. by apply Hep, Hnf. }
  assert (Ha : alone e o).
  { apply (holds_alone [] h e o f I Hf). exists f. split; [done|]. split; [done|]. right; right. by exists j. }
  assert (Hok : r = DoOk -> DInv a (pop_head (outKey (o_id f)) e)).
  { intros ->. apply Hpop. intros Hs. by apply (Saved_pop_out (o_id f) j q a e (dv_saved _ _ Dv Hs) Eq). }
  destruct w as [r0|r0|s oc rf| |]; cbn in Hfit; try done.
  - assert (Hfail : DInv a (pop_head (outKey (o_id f)) (register_failed o e))).
    { destruct (after_register_failed h e o f j q I Hf Eq eq_refl) as (H1 & H2 & H3). split; [|intros k; rewrite H3; case_decide; [constructor|apply Dv]| |apply Dv].
      - intros Hs. apply (Saved_ended o f a e); [by apply Dv|done|done|done|done|]. intros k Hk. by rewrite H3, decide_False.
      - intros k Hk. rewrite H3, decide_False by (by intros ->). by apply Dv. }
    unfold after. cbn [j_work j_owner j]. destruct r; intros [= <- _]; auto.
  - unfold after. cbn [j_work j_owner j]. assert (Hs : forall err, Some (failLocked err (pop_head (outKey (o_id f)) e)) = Some (e', told) -> DInv a e').
    { intros err [= E]. apply (DInv_fail h a (pop_head (outKey (o_id f)) e) e' err); [done|by rewrite E| | |apply Dv].
      - intros k. rewrite queue_pop. case_decide; [apply fresh_tail|]; apply Dv.
      - intros k Hk. rewrite queue_pop. rewrite decide_False by (by intros ->). by apply Dv. }
    destruct r; [intros [= <- _]; auto|apply Hs..].
  - destruct (ends_after_settle o f s oc rf ep (Some r) r e Hf (proj2 Hfit)) as [[Tf _ Tq (qx & Tg & Tn) Ti] Hn]. fold j in Tf, Tq, Tg, Tn, Ti, Hn.
    assert (q = []) as -> by (by apply (inv_last _ _ _ _ I (o_id f) [] j q)). rewrite (get_lookup _ _ _ Hf) in Tq, Tg. rewrite Eq in Tg.
    destruct (after cfg j r e) as [e1 err]. cbn [fst] in *. apply Hend.
    assert (Hq1 : forall k, queue (pop_head (outKey (o_id f)) e1) k = if decide (k = outKey (o_id f)) then qx else queue e k).
    { intros k. rewrite queue_pop. case_decide; [by rewrite Tg|by apply Tq]. }
    split; [| | |apply Dv].
    + intros Hs. apply (Saved_ended o f a e); [by apply Dv|done|done| | |].
      * intros x Hx. rewrite flows_pop. by apply Tf.
      * unfold get. rewrite flows_pop. exact Hn.
      * intros k Hk. by rewrite Hq1, decide_False.
    + intros k. rewrite Hq1. case_decide; [|apply Dv]. apply (fresh_app []); [constructor|done].
    + intros k Hk. rewrite Hq1, decide_False by (by intros ->). by apply Dv.
Qed.

Lemma DInv_finish h k e a e' told : Inv cfg [] h e -> DInv a e -> finish_head cfg k e = Some (e', told) -> DInv a e'.
Proof.
  intros I Dv E. destruct (decide (Dir k = Outbound)) as [Hd|Hd].
  { assert (k = outKey (PacketID k)) as Ek by (destruct k; cbn in *; by subst). rewrite Ek in E. by apply (DInv_finish_out h (PacketID k) e a e' told). }
  assert (I' : Inv cfg [] h e') by (apply (Inv_finish_head h k e e' told I); [intros _; by apply Dv|done]).
  revert E. unfold finish_head. destruct (queue e k) as [|[w ow ep [r|]] q] eqn:Eq; try done.
  assert (Hp : DInv a (pop_head k e)) by (apply DInv_pop; [done|]; intros Hs; apply Saved_pop_in; [done|by apply Dv]).
  destruct (Forall_cons_1 _ _ _ (eq_ind _ (fun l => Forall in_job l) (dv_in _ _ Dv k Hd) _ Eq)) as [(i & Ho & Hw) _]. cbn in Ho, Hw. subst ow.
  assert (Hfail : forall err, Some (failLocked err (pop_head k e)) = Some (e', told) -> DInv a e').
  { intros err [= E]. apply (DInv_fail h a (pop_head k e) e' err); [done|by rewrite E|apply Hp..]. }
  destruct (ep =? epoch e); [|by intros [= <- _]].
  destruct Hw as [-> | ->]; unfold after; cbn [j_work j_owner]; (destruct r; [by intros [= <- _]|apply Hfail..]).
Qed.
End ops.

End Durable.
