(* ===== verification/EngineSafety.v ===== *)
(** * EngineSafety: what holds of the session engine in every execution

    The invariants of [EngineInv] and [Durable] hold in every reachable
    state of [Machine]; from them the properties the engine promises: packet
    identifiers, the broker's Receive Maximum, the order of PUBLISHes, the
    store ahead of the connection, recovery after a restart. *)

From stdpp Require Import gmap sorting list_tactics.
From S2P Require Import Prelude GoLib Errors Batch IdTable Session Inflight Machine EngineInv Footprint EngineConn Restart Durable.

Module EngineSafety.
Import Inflight Machine EngineInv Footprint EngineConn Restart Durable.

(** ** The invariant of the machine *)

Record WInv (cfg : Config) (w : World) : Prop := {
  wi_inv : Inv cfg [] (held w) (eng w);
  wi_disk : DInv (cfg := cfg) (disk w) (eng w);
}.

Lemma Inv_New cfg : Inv cfg [] ∅ New.
Proof.
  assert (Hh : forall o id, ~ holds New o id) by (by intros o id (f & Hf & _)).
  split; try done.
  - constructor.
  - intros o. split; [by intros ?%elem_of_nil|]. by intros [id Hid].
  - split; constructor.
  - split; constructor.
  - intros o id H. by apply Hh in H.
  - intros o o' id H. by apply Hh in H.
  - intros id j Hj. by apply elem_of_nil in Hj.
  - intros id q1 j q2 E. by destruct q1.
  - intros id j Hj. by apply elem_of_nil in Hj.
Qed.

Lemma WInv_start cfg : WInv cfg start.
Proof.
  split; [apply Inv_New|]. split; try done. intros k. constructor.
Qed.

Section step.
Context {cfg : Config}.

Lemma drained_queue e : bool_decide (size (queues e) = 0%nat) && (gen e =? 0) = true -> forall k, queue e k = [].
Proof.
  intros [H _]%andb_true_iff k. apply bool_decide_eq_true in H. apply map_size_empty_inv in H. unfold queue. by rewrite H, lookup_empty.
Qed.

(** What [Load] gives is well-formed. *)
Lemma load_ok a m recs :
  (forall k r, disk_at a k = Some r -> Key r = k /\ rec_ok r) -> load cfg a = Some (m, recs) ->
  Forall rec_ok recs /\ StronglySorted record_le recs /\ NoDup (map Key recs)
  /\ (hasStore cfg = true -> forall r, r ∈ recs <-> on_disk a r).
Proof.
  intros Hd. unfold load. destruct (hasStore cfg); [|by intros [= <- <-]; split_and!; try done; constructor].
  destruct a as [[m' rs]|]; [|done]. intros [= <- <-]. pose proof (merge_sort_Permutation record_le (map snd (map_to_list rs))) as P.
  assert (Hin : forall r, r ∈ map snd (map_to_list rs) <-> rs !! Key r = Some r).
  { intros r. rewrite list_elem_of_fmap. split.
    - intros ([k r'] & -> & Hk%elem_of_map_to_list). cbn. by rewrite (proj1 (Hd k r' Hk)).
    - intros Hr. exists (Key r, r). by rewrite elem_of_map_to_list. }
  split_and!.
  - rewrite P. apply Forall_forall. intros r Hr%Hin. by apply (Hd (Key r)).
  - apply (StronglySorted_merge_sort record_le).
  - rewrite P. assert (E : map Key (map snd (map_to_list rs)) = map fst (map_to_list rs)); [|rewrite E; apply NoDup_fst_map_to_list].
    rewrite map_map. apply map_ext_in. intros [k r] Hk%list_elem_of_In%elem_of_map_to_list. by apply (Hd k).
  - intros _ r. rewrite P, Hin, on_disk_at. done.
Qed.

Lemma WInv_restored w e' m recs h :
  DInv (cfg := cfg) (disk w) (eng w) -> load cfg (disk w) = Some (m, recs) ->
  forall e, Inv cfg [] h e -> (forall k, queue e k = []) -> Restore m recs e = Some e' -> WInv cfg (mkWorld e' (disk w) ∅).
Proof.
  intros Dv Hl e I HQ E. destruct (load_ok _ _ _ (dv_disk _ _ Dv) Hl) as (H1 & H2 & H3 & H4).
  destruct (Restore_restored h m recs e e' I HQ H1 H2 H3 E) as [I' _ Hq Hfrom _]. split; [done|]. split; [| | |apply Dv].
  - intros Hs o f Hf Hn. unfold saved. cbn [eng disk]. rewrite Hq. cbn. apply H4; [done|]. by apply (Hfrom o f).
  - intros k. cbn [eng]. rewrite Hq. constructor.
  - intros k _. cbn [eng]. rewrite Hq. constructor.
Qed.
(** Steps of the engine that leave the store alone. *)
Lemma WInv_step w e' h' :
  WInv cfg w -> Inv cfg [] h' e' -> advances cfg (eng w) e' -> WInv cfg (mkWorld e' (disk w) h').
Proof. intros [I Dv] I' A. split; [done|]. by apply (DInv_advances _ (eng w)). Qed.

Lemma SetMeta_disk m ans e a k : disk_at (snd (fst (SetMeta cfg m ans e a))) k = disk_at a k.
Proof.
  unfold SetMeta. destruct (failure e); [done|]. destruct (_ && _); [done|]. destruct (negb _); [done|].
  pose proof (store_do_at ans (SSetMeta m) a k) as H. destruct (store_do ans (SSetMeta m) a) as [a' [|]]; [by rewrite H|].
  destruct (failLocked _ e). by rewrite H.
Qed.

(** Only the records count. *)
Lemma DInv_disk a a' e : (forall k, disk_at a' k = disk_at a k) -> DInv (cfg := cfg) a e -> DInv (cfg := cfg) a' e.
Proof.
  intros H []. split; [|done|done|intros k r; rewrite H; apply dv_disk0].
  intros Hs o f Hf Hn. apply (saved_other a); [by rewrite H|by apply (dv_saved0 Hs o f)].
Qed.

Lemma DInv_discard h ans (ok : bool) a a' e e' :
  Inv cfg [] h e' -> ans <> MediumFails true -> DInv (cfg := cfg) a e -> queues e' = queues e -> (if ok then out e' = ∅ else e' = e) ->
  (a', ok) = (if hasStore cfg then store_do ans SReset a else (a, true)) -> DInv (cfg := cfg) a' e'.
Proof.
  intros I Hans [Dv1 Dv2 Dv3 Dv4] HQ Hok Ea. assert (Hq : forall k, queue e' k = queue e k) by (intros k; unfold queue; by rewrite HQ).
  split; [|intros k; by rewrite Hq|intros k Hk; rewrite Hq; auto|].
  - intros Hs. destruct ok; [by apply (Saved_dead [] h a' e' I)|]. rewrite Hs in Ea. subst e'. unfold store_do in Ea.
    destruct ans as [|[|]]; [|done|injection Ea as ->; auto]. unfold contract in Ea. destruct a as [[m rs]|]; [done|]. injection Ea as ->. auto.
  - intros k r Hr. destruct (hasStore cfg); [|injection Ea as -> _; auto]. apply (Dv4 k).
    assert (E : a' = fst (store_do ans SReset a)) by (by rewrite <- Ea). subst a'.
    destruct (store_do_own ans SReset a k r Hr) as [|(r' & H & _)]; done.
Qed.

Lemma step_WInv w ev w' outs : WInv cfg w -> step cfg ev w = Some (w', outs) -> WInv cfg w'.
Proof.
  intros W. pose proof W as [I Dv]. destruct w as [e a h]. cbn [eng disk held] in *. unfold step. cbn [eng disk held].
  destruct ev as [ow|id ow|m now|o|r s|id rc rf|id rc rf|id|id q|i|id|ci now|l|g upTo now|g|k ans|k|m ans|ans| |].
  - destruct (IDs.AllocateID (ids e) ow) as [|id t|] eqn:E; try done. case_decide; [done|]. intros [= <- _].
    apply (WInv_step (mkWorld e a h)); [done|by apply Inv_Allocate|by apply advances_same].
  - case_decide as H; [done|]. intros [= <- _]. apply (WInv_step (mkWorld e a h)); [done| |by apply advances_same].
    apply Inv_Release; [done|tauto|]. intros ->. destruct (decide (id ∈ h)); [done|]. tauto.
  - case_decide as H; [|done]. destruct H as (H1 & H2 & H3). intros [= <- _]. apply (WInv_step (mkWorld e a h)); [done| |by apply (advances_Register h)].
    by apply Inv_Register.
  - case_decide as H; [|done]. intros [= <- _]. apply (WInv_step (mkWorld e a h)); [done| |by apply (advances_Withdraw h)].
    destruct (failure e) eqn:Hnf; [|by apply Inv_Withdraw]. destruct H as [f0 Hf]. unfold Withdraw. rewrite (get_lookup _ _ _ Hf).
    destruct (finished f0) eqn:Hn; [done|]. destruct (inv_heap _ _ _ _ I o f0 Hf) as (_ & Ho & _). specialize (Ho Hn).
    destruct (inv_failed _ _ _ _ I) as [E _]; [congruence|]. by rewrite E, lookup_empty in Ho.
  - intros [= <- _]. apply (WInv_step (mkWorld e a h)); [done|by apply Inv_Adopt|by apply (advances_Adopt h)].
  - intros [= <- _]. apply (WInv_step (mkWorld e a h)); [done|by apply Inv_HandlePuback|by apply (advances_HandlePuback h)].
  - intros [= <- _]. apply (WInv_step (mkWorld e a h)); [done|by apply Inv_HandlePubrec|by apply (advances_HandlePubrec h)].
  - intros [= <- _]. apply (WInv_step (mkWorld e a h)); [done|by apply Inv_HandlePubcomp|by apply (advances_HandlePubcomp h)].
  - case_decide as H; [|done]. pose proof (Receive_view (cfg := cfg) id q e) as V. pose proof (advances_Receive (cfg := cfg) id q e) as A.
    destruct (Receive cfg id q e) as [e' r]. intros [= <- _]. apply (WInv_step (mkWorld e a h)); [done|by apply (Inv_view _ _ _ e)|done].
  - case_decide as H; [|done]. intros [= <- _]. apply (WInv_step (mkWorld e a h)); [done| |apply advances_ack].
    apply (Inv_view _ _ _ e); [apply ack_view|done].
  - intros [= <- _]. apply (WInv_step (mkWorld e a h)); [done| |apply advances_HandlePubrel].
    apply (Inv_view _ _ _ e); [apply HandlePubrel_view|done].
  - case_decide as H; [|done]. intros [= <- _]. destruct (Connected_advances h e ci now I H).
    by apply (WInv_step (mkWorld e a h)).
  - intros [= <- _]. apply (WInv_step (mkWorld e a h)); [done| |].
    + apply (Inv_view _ _ _ e); [apply Disconnected_view|done].
    + unfold Disconnected. case_decide; [by apply advances_same|done].
  - intros [= <- _]. apply (WInv_step (mkWorld e a h)); [done|by apply Inv_Collect|by apply (advances_Collect h)].
  - intros [= <- _]. unfold CollectControl, collectControlLocked. destruct (servesLocked g e); [|done].
    apply (WInv_step (mkWorld e a h)); [done| |].
    + apply (Inv_view _ _ _ e); [apply control_view|done].
    + apply advances_same; [apply (control_view (ctrl e) e)|apply control_queues].
  - destruct (perform_head cfg k ans e a) as [[[e' a'] told]|] eqn:E; [|done]. intros [= <- _]. split; cbn [eng disk held].
    + by apply (Inv_perform h k ans e a e' a' told).
    + by apply (DInv_perform h k ans e a e' a' told).
  - destruct (finish_head cfg k e) as [[e' told]|] eqn:E; [|done]. intros [= <- _]. split; cbn [eng disk held].
    + apply (Inv_finish_head h k e e' told I); [|done]. intros Hk. apply Dv. intros Hd. apply (Hk (PacketID k)). destruct k; cbn in *. by subst.
    + by apply (DInv_finish h k e a e' told).
  - pose proof (Inv_SetMeta h e m ans a I) as I'. pose proof (advances_SetMeta h e m ans a I) as A.
    pose proof (SetMeta_disk m ans e a) as Hd. destruct (SetMeta cfg m ans e a) as [[e' a'] told]. cbn [fst snd] in *. intros [= <- _].
    split; [done|]. apply (DInv_disk a); [done|]. by apply (DInv_advances a e).
  - destruct (bool_decide (size _ = _) && _) eqn:Hq; [|done]. destruct (bool_decide (ans <> MediumFails true)) eqn:Ha; [|done]. apply bool_decide_eq_true in Ha. pose proof (drained_queue _ Hq) as HQ.
    pose proof (Inv_Discard h e ans a I HQ) as Hd. destruct (Discard cfg ans e a) as [[[e' a'] told] ok]. intros [= <- _].
    destruct Hd as (I' & HQ' & Hok & Ea). split; [done|]. cbn [andb eng disk].
    by apply (DInv_discard h ans ok a a' e e').
  - destruct (failure e); [|done]. destruct (load cfg a) as [[m recs]|] eqn:Hl; [|done].
    destruct (bool_decide (size _ = _) && _) eqn:Hq; [|done]. destruct (Restore m recs e) as [e'|] eqn:E; [|done]. intros [= <- _].
    apply (WInv_restored (mkWorld e a h) e' m recs h Dv Hl e I); [by apply drained_queue|done].
  - destruct (load cfg a) as [[m recs]|] eqn:Hl; [|done]. destruct (Restore m recs New) as [e'|] eqn:E; [|done]. intros [= <- _].
    by apply (WInv_restored (mkWorld e a h) e' m recs ∅ Dv Hl New (Inv_New cfg)).
Qed.
End step.

Lemma reachable_WInv cfg w : reachable cfg w -> WInv cfg w.
Proof. induction 1 as [|w ev w' outs _ IH E]; [apply WInv_start|]. by apply (step_WInv w ev w' outs). Qed.

(** ** Flows and packet identifiers *)

(** C33: flows are in the state their place says. In every reachable state an
    unfinished flow is in exactly one of the two lists, waiting for PUBACK or
    PUBREC in the one and for PUBCOMP in the other, as its QoS has it, and is
    the one its packet identifier names; both lists are in sequence order; a
    finished flow is in neither; [done] is closed at most once, and only when
    the flow is finished. *)
Theorem session_well_formed cfg w :
  reachable cfg w ->
  let e := eng w in
  NoDup (pub e ++ rel e) /\ StronglySorted (by_seq e) (pub e) /\ StronglySorted (by_seq e) (rel e)
  /\ (forall o f, flows e !! o = Some f ->
        (closes f = 0 \/ closes f = 1 /\ finished f = true)
        /\ (finished f = false <-> o ∈ pub e ++ rel e)
        /\ (finished f = false -> out e !! o_id f = Some o)
        /\ (o ∈ pub e -> (qos f = 1 /\ phase f = AwaitPuback) \/ (qos f = 2 /\ phase f = AwaitPubrec))
        /\ (o ∈ rel e -> qos f = 2 /\ phase f = AwaitPubcomp)).
Proof.
  intros R. destruct (reachable_WInv cfg w R) as [I _]. cbn zeta. set (e := eng w) in *.
  pose proof (inv_nodup _ _ _ _ I) as Hnd. rewrite app_nil_r in Hnd. split; [done|]. split; [apply I|]. split; [apply I|].
  intros o f Hf. destruct (inv_heap _ _ _ _ I o f Hf) as (_ & Ho & Hc). split; [done|].
  assert (Hiff : finished f = false <-> o ∈ pub e ++ rel e).
  { split; [intros Hn; pose proof (live_member I o f Hf Hn) as H; by rewrite app_nil_r in H|].
    intros Hin. destruct (member_live I o) as (f' & Hf' & _ & Hn & _); [by rewrite app_nil_r|]. congruence. }
  split; [done|]. split; [done|].
  assert (Hph : o ∈ pub e ++ rel e -> flow_wf (nextSeq e) f) by (intros Hin; apply (live_unfinished I o f Hf); apply Ho, Hiff, Hin).
  split; intros Hin.
  - pose proof (proj1 (Forall_forall _ _) (proj2 (inv_pub _ _ _ _ I)) o Hin) as Hp. cbv beta in Hp. rewrite (get_lookup _ _ _ Hf) in Hp.
    destruct (Hph ltac:(apply elem_of_app; by left)) as [Hq _ _ _ _]. tauto.
  - pose proof (proj1 (Forall_forall _ _) (proj2 (inv_rel _ _ _ _ I)) o Hin) as Hp. cbv beta in Hp. rewrite (get_lookup _ _ _ Hf) in Hp.
    destruct (Hph ltac:(apply elem_of_app; by right)) as [Hq _ _ _ _]. rewrite Hp in *. destruct Hq as [[_ H]|[? _]]; done.
Qed.

(** C4: a packet identifier is never reused too early. Whatever the broker,
    the store and the callers do, at most one flow uses an identifier, where
    a flow uses it from [Register] until its exchange has ended, its outcome
    is recorded and no write for it is queued; [AllocateID] never hands out
    one that is used, and one a caller holds is not used. *)
Theorem packet_ids_exclusive cfg w :
  reachable cfg w ->
  (forall o o' id, holds (eng w) o id -> holds (eng w) o' id -> o = o')
  /\ (forall o id ow id' t, holds (eng w) o id -> ow <> IDs.OwnerNone -> IDs.AllocateID (ids (eng w)) ow = IDs.Allocated id' t -> id' <> id)
  /\ (forall o id, id ∈ held w -> ~ holds (eng w) o id).
Proof.
  intros R. destruct (reachable_WInv cfg w R) as [I _]. split_and!.
  - apply I.
  - intros o id ow id' t Hh How E ->. pose proof (IDs.AllocateID_spec (ids (eng w)) ow (inv_ids _ _ _ _ I) How) as Hs.
    rewrite E in Hs. destruct Hs as (_ & Hf & _). by rewrite (inv_owner _ _ _ _ I o id Hh) in Hf.
  - intros o id Hid. by apply (inv_held _ _ _ _ I).
Qed.

(** ** The store and the connection *)

(** What the loop of [Collect] sends is stored. *)
Lemma loop_saved cfg h a l e e' its :
  hasStore cfg = true -> loop_run cfg l e e' its -> collecting (cfg := cfg) h l e -> Saved a e ->
  forall pk dup, IPublish pk dup ∈ its ->
    exists r, on_disk a r /\ Dir (Key r) = Outbound /\ PacketBytes r = pk /\ (Phase r = AwaitPuback \/ Phase r = AwaitPubrec).
Proof.
  intros Hs. induction 1 as [|o l e f e' its Hf Hsd _ IH|o l e f left e' its Hc|o l e f e' its Hf Ha _ IH|]; intros C S pk dup Hin;
    try (by apply elem_of_nil in Hin); [| congruence |].
  - assert (C1 : collecting (cfg := cfg) h l (send_flow o e)) by (by apply (collecting_send h o l e f)).
    apply elem_of_cons in Hin as [[= -> ->]|Hin]; [|eapply (IH C1); [|exact Hin]; by apply (Saved_saves a e); [apply (advances_send (cfg := cfg) o e)|]].
    destruct (collecting_head _ _ _ _ _ C Hf) as (Hn & [Hph _ _ _ _] & _). specialize (S o f Hf Hn).
    destruct Hsd as (_ & Hq & _). rewrite Hq in S. exists (record f). split; [exact S|]. rewrite record_key. split; [done|].
    assert (Hp : phase f <> AwaitPubcomp).
    { destruct C as [I _ _ Hp]. pose proof (proj1 (Forall_forall _ _) (proj2 (inv_pub _ _ _ _ I)) o (Hp o ltac:(by left))) as H.
      cbv beta in H. by rewrite (get_lookup _ _ _ Hf) in H. }
    destruct Hph as [[_ E]|[_ [E|E]]]; [..|done]; unfold record; rewrite E; cbn; rewrite ?E; auto.
  - apply (IH (collecting_drop h o l e C)) with dup; [|done]. destruct (collecting_head _ _ _ _ _ C Hf) as (Hn & _).
    apply (Saved_saves a e); [|done]. eapply av_saves; [|exact Hs].
    apply (advances_ends o); [apply (live_alone (cfg := cfg) [] h e o f); [apply C|done|done]|]. apply ends_drop. by eexists.
Qed.

Lemma control_no_publish l : forall e pk dup, IPublish pk dup ∉ snd (control_loop l e).
Proof.
  induction l as [|c l IH]; intros e pk dup; cbn [control_loop]; [apply not_elem_of_nil|]. destruct (readyLocked e c); [|apply not_elem_of_nil].
  cbn zeta. match goal with |- context [control_loop l ?x] => specialize (IH x); destruct (control_loop l x) as [e2 its] end. cbn [snd] in *.
  apply not_elem_of_cons. split; [done|]. apply IH.
Qed.

(** C2: the store is ahead of the connection. Every PUBLISH a connection is
    given to send is, at that moment, in the store with exactly those bytes,
    as a message waiting for its PUBACK or PUBREC. *)
Theorem publish_after_store cfg w g upTo now w' outs pk dup :
  reachable cfg w -> hasStore cfg = true -> step cfg (EvCollect g upTo now) w = Some (w', outs) -> Sent (IPublish pk dup) ∈ outs ->
  exists r, on_disk (disk w) r /\ Dir (Key r) = Outbound /\ PacketBytes r = pk /\ (Phase r = AwaitPuback \/ Phase r = AwaitPubrec).
Proof.
  intros R Hs E Hin. destruct (reachable_WInv cfg w R) as [I Dv]. cbn [step] in E. injection E as _ <-.
  apply list_elem_of_fmap in Hin as (it & [= <-] & Hin). destruct (servesLocked g (eng w)) eqn:Sv.
  2: { unfold Collect in Hin. rewrite Sv in Hin. by apply elem_of_nil in Hin. }
  destruct (collecting_start (held w) g upTo now (eng w) I Sv) as (C & V & _ & Es). rewrite Es in Hin.
  set (e0 := if released (eng w) <? upTo then _ else _) in *. set (e1 := fst (collectControlLocked e0)) in *.
  apply elem_of_app in Hin as [Hin|Hin]; [by apply control_no_publish in Hin|].
  eapply (loop_saved cfg (held w) (disk w) (at_cursor e1) e1); [done| |exact C| |exact Hin].
  - apply publish_loop_run. exact (collecting_some (held w) _ _ C).
  - apply (Saved_saves _ (eng w)); [|by apply Dv]. eapply av_saves; [|exact Hs]. apply (advances_same (cfg := cfg)); [apply V|].
    unfold e1, collectControlLocked. rewrite control_queues. unfold e0. by case_match.
Qed.

(** C3: a restart loses no message that was stored. Whenever the process
    stops, the next one resumes every exchange whose record the store holds,
    as it was, and no other; each is sent as a retransmission, none that has
    ended is. *)
Theorem restart_recovers cfg w w' outs :
  reachable cfg w -> hasStore cfg = true -> step cfg EvRestart w = Some (w', outs) ->
  (forall o f, flows (eng w) !! o = Some f -> finished f = false -> storedLocked (eng w) (outKey (o_id f)) = true ->
     exists o' f', flows (eng w') !! o' = Some f' /\ finished f' = false /\ record f' = record f)
  /\ (forall r, (exists o' f', flows (eng w') !! o' = Some f' /\ finished f' = false /\ record f' = r)
                <-> on_disk (disk w) r /\ unfinished r)
  /\ (forall o' f', flows (eng w') !! o' = Some f' -> finished f' = false -> attempted f' = true).
Proof.
  intros R Hs E. destruct (reachable_WInv cfg w R) as [I Dv]. cbn [step] in E.
  destruct (load cfg (disk w)) as [[m recs]|] eqn:Hl; [|done]. destruct (Restore m recs New) as [e'|] eqn:Er; [|done]. injection E as <- _.
  destruct (load_ok _ _ _ (dv_disk _ _ Dv) Hl) as (H1 & H2 & H3 & H4). specialize (H4 Hs).
  destruct (Restore_restored (cfg := cfg) ∅ m recs New e' (Inv_New cfg) ltac:(done) H1 H2 H3 Er) as [I' _ _ Hfrom Hall]. cbn [eng].
  assert (Hu : forall f n, flow_wf n f -> unfinished (record f)).
  { intros f n [Hph _ _ _ _]. split; [by rewrite record_key|]. unfold record. destruct Hph as [[_ Ep]|[_ [Ep|Ep]]]; rewrite Ep; done. }
  split_and!.
  - intros o f Hf Hn Hst. apply Hall; [|eapply Hu; apply (live_unfinished I o f Hf); by apply (inv_heap _ _ _ _ I)].
    apply H4. pose proof (dv_saved _ _ Dv Hs o f Hf Hn) as S. by rewrite (stored_queue _ _ Hst) in S.
  - intros r. split.
    + intros (o' & f' & Hf' & Hn & <-). split; [by apply H4, (Hfrom o' f')|].
      eapply Hu; apply (live_unfinished I' o' f' Hf'); by apply (inv_heap _ _ _ _ I').
    + intros [Hd Hun]. apply Hall; [by apply H4|done].
  - intros o' f' Hf' Hn. by apply (Hfrom o' f').
Qed.

(** ** An execution *)

Definition sample_cfg : Config := mkConfig true 10 Republish.

(** Two messages are registered and stored and the connection comes up; later
    both are sent and the PUBREC of the second arrives. *)
Definition sample_events : list event :=
  let good := mkAnswer true MediumOk in
  [EvAllocate IDs.OwnerPublish; EvRegister (mkMessage 1 1 [50; 5; 0; 1; 97; 0; 1] None [] None) 0;
   EvPerform (outKey 1) good; EvFinish (outKey 1);
   EvAllocate IDs.OwnerPublish; EvRegister (mkMessage 2 2 [52; 5; 0; 1; 98; 0; 2] None [9] None) 0;
   EvPerform (outKey 2) good; EvFinish (outKey 2);
   EvConnected (mkConnInfo true 5 None 7 false) 0].

Definition sample_world : World := default start (fst <$> run sample_cfg sample_events start).
Definition sample_later : World := default start (fst <$> run sample_cfg [EvCollect 1 0 0; EvPubrec 2 0 None] sample_world).
Definition sample_restart : World := default start (fst <$> step sample_cfg EvRestart sample_later).

Lemma sample_reachable : reachable sample_cfg sample_world.
Proof. apply (run_reachable sample_cfg sample_events start sample_world []); [constructor|]. vm_compute. reflexivity. Qed.

Lemma sample_later_reachable : reachable sample_cfg sample_later.
Proof.
  eapply (run_reachable sample_cfg [EvCollect 1 0 0; EvPubrec 2 0 None] sample_world); [apply sample_reachable|]. vm_compute. reflexivity.
Qed.

Lemma session_well_formed_witness :
  pub (eng sample_later) = [0%nat] /\ rel (eng sample_later) = [1%nat] /\ NoDup (pub (eng sample_later) ++ rel (eng sample_later)).
Proof.
  split; [vm_compute; reflexivity|]. split; [vm_compute; reflexivity|].
  exact (proj1 (session_well_formed sample_cfg sample_later sample_later_reachable)).
Defined.

Lemma packet_ids_exclusive_witness :
  holds (eng sample_later) 1%nat 2
  /\ forall ow id' t, ow <> IDs.OwnerNone -> IDs.AllocateID (ids (eng sample_later)) ow = IDs.Allocated id' t -> id' <> 2.
Proof.
  assert (H : holds (eng sample_later) 1%nat 2).
  { eexists. split; [vm_compute; reflexivity|]. split; [reflexivity|]. left. vm_compute. reflexivity. }
  split; [exact H|]. intros ow id' t. exact (proj1 (proj2 (packet_ids_exclusive sample_cfg sample_later sample_later_reachable)) 1%nat 2 ow id' t H).
Defined.

Lemma publish_after_store_witness :
  exists r, on_disk (disk sample_world) r /\ Dir (Key r) = Outbound /\ PacketBytes r = [52; 5; 0; 1; 98; 0; 2]
            /\ (Phase r = AwaitPuback \/ Phase r = AwaitPubrec).
Proof.
  eapply (publish_after_store sample_cfg sample_world 1 0 0 _ _ [52; 5; 0; 1; 98; 0; 2] false sample_reachable eq_refl).
  - vm_compute. reflexivity.
  - right. left.
Defined.

Lemma restart_recovers_witness :
  exists o f, flows (eng sample_restart) !! o = Some f /\ finished f = false /\ attempted f = true /\ o_id f = 1.
Proof.
  assert (E : step sample_cfg EvRestart sample_later = Some (sample_restart, [])) by (vm_compute; reflexivity).
  destruct (restart_recovers sample_cfg sample_later sample_restart [] sample_later_reachable eq_refl E) as (H1 & _ & H3).
  assert (Hf : exists f, flows (eng sample_later) !! 0%nat = Some f /\ finished f = false /\ o_id f = 1
                         /\ storedLocked (eng sample_later) (outKey (o_id f)) = true).
  { eexists. split; [vm_compute; reflexivity|]. split; [reflexivity|]. split; [reflexivity|]. vm_compute. reflexivity. }
  destruct Hf as (f & Hf & Hn & Hid & Hst). destruct (H1 0%nat f Hf Hn Hst) as (o' & f' & Hf' & Hn' & Hr). exists o', f'.
  split; [exact Hf'|]. split; [exact Hn'|]. split; [exact (H3 o' f' Hf' Hn')|]. by rewrite (record_id _ _ Hr).
Defined.

End EngineSafety.
