(* ===== verification/Sending.v ===== *)
(** * Sending: order and quota of the PUBLISHes of a connection

    On one connection the flows waiting for PUBACK or PUBREC are those whose
    PUBLISH was sent on it, which hold a unit of the send quota, followed by
    those from the cursor on, which were not. *)

From stdpp Require Import gmap sorting list_tactics.
From S2P Require Import Prelude GoLib Errors Batch IdTable Session Inflight Machine EngineInv Footprint EngineConn Restart Durable EngineSafety.

Module Sending.
Import Inflight Machine EngineInv Footprint EngineConn Restart Durable EngineSafety.

(** [sent] went out on this connection, [rest] is what the cursor is at. *)
Record parted (e : Engine) (sent rest : list flow) : Prop := {
  pt_pub : pub e = sent ++ rest;
  pt_cursor : cursor e = head rest;
  pt_sent : Forall (fun o => counted (get e o) = true) sent;
  pt_rest : Forall (fun o => counted (get e o) = false) rest;
}.

Definition split_ok (e : Engine) : Prop := NoDup (pub e) /\ exists sent rest, parted e sent rest.

(** A PUBLISH on a connection: the flow, as it was before, and the packet. *)
Record sending : Type := mkSending { sn_flow : flow; sn_as : Out; sn_item : item }.

(** Every flow still to be sent is none of those sent and has no lower number. *)
Definition later (tr : list sending) (e : Engine) : Prop :=
  Forall (fun s => (sn_flow s < nextOut e)%nat /\ pubSeq (sn_as s) <= nextSeq e) tr
  /\ forall o, o ∈ pub e -> counted (get e o) = false -> Forall (fun s => sn_flow s <> o /\ pubSeq (sn_as s) <= pubSeq (get e o)) tr.

(** Flow [o] is under way and its PUBLISH took a unit of the quota. *)
Definition owing (e : Engine) (o : flow) : Prop := counted (get e o) = true /\ finished (get e o) = false.

(** No flow becomes one that owes a unit. *)
Definition calm (e e' : Engine) : Prop := forall o, owing e' o -> owing e o.

Lemma calm_flows e e' : flows e' = flows e -> calm e e'.
Proof. intros Hf o. unfold owing, get. by rewrite Hf. Qed.

Lemma owing_alter g o m x :
  (forall f, counted (g f) = true -> finished (g f) = false -> counted f = true /\ finished f = false) ->
  let at_ (fl : gmap flow Out) := default zeroOut (fl !! x) in
  counted (at_ (alter g o m)) = true /\ finished (at_ (alter g o m)) = false -> counted (at_ m) = true /\ finished (at_ m) = false.
Proof.
  intros Hg. cbn zeta. destruct (decide (x = o)) as [->|Hne]; [|by rewrite lookup_alter_ne]. rewrite lookup_alter_eq.
  destruct (m !! o) as [f|]; [|done]. intros []. by apply Hg.
Qed.

Lemma calm_modify o g e :
  (forall f, counted (g f) = true -> finished (g f) = false -> counted f = true /\ finished f = false) -> calm e (modify o g e).
Proof. intros Hg x. apply (owing_alter g o (flows e) x Hg). Qed.

Lemma owing_drained g l m x :
  (forall f, counted (g f) = true -> finished (g f) = false -> counted f = true /\ finished f = false) ->
  let at_ (fl : gmap flow Out) := default zeroOut (fl !! x) in
  let m' := fold_left (fun fl o => alter g o fl) l m in
  counted (at_ m') = true /\ finished (at_ m') = false -> counted (at_ m) = true /\ finished (at_ m) = false.
Proof.
  intros Hg. revert m. induction l as [|o l IH]; intros m; [done|]. cbn zeta. cbn [fold_left]. intros H%IH. by apply (owing_alter g o m x Hg).
Qed.

(** A step that changes the quota by [d] and keeps the division and what is
    still to be sent. *)
Record tame (d : Z) (e e' : Engine) : Prop := {
  tm_quota : quota e' = quota e + d;
  tm_max : quotaMax e' = quotaMax e;
  tm_gen : gen e' = gen e;
  tm_split : split_ok e -> split_ok e';
  tm_later tr : later tr e -> later tr e';
  tm_calm : calm e e';
}.

Lemma tame_refl e : tame 0 e e.
Proof. split; try done; [lia|by apply calm_flows]. Qed.

Lemma tame_trans d1 d2 e1 e2 e3 : tame d1 e1 e2 -> tame d2 e2 e3 -> tame (d1 + d2) e1 e3.
Proof. intros [] []. split; try congruence; [lia|auto|auto|]. intros o. unfold calm in *. auto. Qed.

Lemma tame_trans0 d e1 e2 e3 : tame d e1 e2 -> tame 0 e2 e3 -> tame d e1 e3.
Proof. intros T1 T2. pose proof (tame_trans _ _ _ _ _ T1 T2) as T. by rewrite Z.add_0_r in T. Qed.

Lemma tame_trans0' d e1 e2 e3 : tame 0 e1 e2 -> tame d e2 e3 -> tame d e1 e3.
Proof. intros T1 T2. exact (tame_trans _ _ _ _ _ T1 T2). Qed.

(** The lists, the cursor and what counts stay. *)
Lemma parted_same e e' sent rest :
  pub e' = pub e -> cursor e' = cursor e -> (forall o, o ∈ pub e -> counted (get e' o) = counted (get e o)) ->
  parted e sent rest -> parted e' sent rest.
Proof.
  intros Hp Hc Hcn [P C S R].
  split; [congruence|congruence|..]; apply Forall_forall; intros o Ho; rewrite Hcn by (rewrite P; apply elem_of_app; tauto).
  - by apply (proj1 (Forall_forall _ _) S).
  - by apply (proj1 (Forall_forall _ _) R).
Qed.

(** The counters do not go back. *)
Definition onward (e e' : Engine) : Prop := nextSeq e <= nextSeq e' /\ (nextOut e <= nextOut e')%nat.

Lemma onward_same e e' : nextSeq e' = nextSeq e -> nextOut e' = nextOut e -> onward e e'.
Proof. unfold onward. lia. Qed.

#[local] Hint Resolve onward_same : core.

Lemma later_same tr e e' :
  onward e e' -> (forall o, o ∈ pub e' -> o ∈ pub e /\ counted (get e' o) = counted (get e o) /\ pubSeq (get e' o) = pubSeq (get e o)) ->
  later tr e -> later tr e'.
Proof.
  intros [Hn Ho] Hp [HF Hl]. split; [eapply Forall_impl; [exact HF|]; cbn; intros; lia|].
  intros o Hin Hc. destruct (Hp o Hin) as (Hin' & E1 & ->). apply Hl; congruence.
Qed.

Lemma tame_same e e' :
  pub e' = pub e -> cursor e' = cursor e -> quota e' = quota e -> quotaMax e' = quotaMax e -> gen e' = gen e -> onward e e' ->
  (forall o, o ∈ pub e -> counted (get e' o) = counted (get e o) /\ pubSeq (get e' o) = pubSeq (get e o)) -> calm e e' -> tame 0 e e'.
Proof.
  intros Hp Hc Hq Hm Hg Hs Hcn Hk. split; try done; [lia| |].
  - intros [Hnd (sent & rest & Hpt)]. split; [by rewrite Hp|]. exists sent, rest. apply (parted_same e); try done. intros o Ho. by apply Hcn.
  - intros tr. apply later_same; [done|]. rewrite Hp. auto.
Qed.

Lemma tame_view e e' :
  pub e' = pub e -> cursor e' = cursor e -> quota e' = quota e -> quotaMax e' = quotaMax e -> gen e' = gen e -> nextSeq e' = nextSeq e ->
  nextOut e' = nextOut e -> flows e' = flows e -> tame 0 e e'.
Proof. intros ? ? ? ? ? ? ? Hf. apply tame_same; auto; [|by apply calm_flows]. intros o _. unfold get. by rewrite Hf. Qed.

Lemma tame_modify o g e :
  (forall f, counted (g f) = counted f /\ pubSeq (g f) = pubSeq f /\ (finished (g f) = false -> finished f = false)) -> tame 0 e (modify o g e).
Proof.
  intros Hg. apply tame_same; auto.
  2: { apply calm_modify. intros f. destruct (Hg f) as (-> & _ & Hf). auto. }
  intros x _. rewrite get_modify. case_decide as E; [|done]. destruct E as [-> _]. by destruct (Hg (get e o)) as (? & ? & _).
Qed.

Lemma keeps_counted o e e' :
  keeps o e e' -> (counted (get e' o) = counted (get e o) \/ o ∉ pub e) ->
  forall x, x ∈ pub e -> counted (get e' x) = counted (get e x) /\ pubSeq (get e' x) = pubSeq (get e x).
Proof. intros K Ho x Hx. destruct (decide (x = o)) as [->|Hne]; [split; [by destruct Ho|apply K]|]. by rewrite (keeps_get o e e' x). Qed.

Lemma tame_keeps o e e' :
  keeps o e e' -> nextOut e' = nextOut e -> (counted (get e' o) = counted (get e o) \/ o ∉ pub e) -> (owing e' o -> owing e o) -> tame 0 e e'.
Proof.
  intros K Hn Ho Hk. pose proof K as (_ & _ & H1 & _ & H6 & H2 & H3 & H4 & _ & H5 & _). apply tame_same; auto; [by apply (keeps_counted o)|].
  intros x. destruct (decide (x = o)) as [->|Hne]; [done|]. unfold owing. by rewrite (keeps_get o e e' x).
Qed.

(** ** Removing a flow *)

Lemma next_in_head o (l1 l2 : list flow) : o ∉ l1 -> next_in o (l1 ++ o :: l2) = head l2.
Proof.
  induction l1 as [|x l1 IH]; cbn; intros H; [by rewrite decide_True|]. apply not_elem_of_cons in H as [H1 H2].
  rewrite decide_False by done. by apply IH.
Qed.

Lemma remove_flow_app o (l1 l2 : list flow) : remove_flow o (l1 ++ l2) = remove_flow o l1 ++ remove_flow o l2.
Proof. apply filter_app. Qed.

Lemma parted_unlink o e sent rest :
  NoDup (pub e) -> parted e sent rest -> parted (unlinkLocked o e) (remove_flow o sent) (remove_flow o rest).
Proof.
  intros Hnd [P C S R]. assert (Hcn : forall x, get (unlinkLocked o e) x = get e x) by (intros x; by destruct (unlink_eq o e) as [c ->]).
  assert (Hp : pub (unlinkLocked o e) = remove_flow o (pub e)) by apply (unlink_keeps o e). split.
  - by rewrite Hp, P, remove_flow_app.
  - unfold unlinkLocked. destruct (decide (cursor e = Some o)) as [Hc|Hc].
    + rewrite C in Hc. destruct rest as [|x rest]; [done|]. cbn in Hc. injection Hc as ->.
      rewrite P in Hnd. apply NoDup_app in Hnd as (_ & Hd & Hr). apply NoDup_cons in Hr as [Hr _].
      assert (Ho : o ∉ sent) by (intros Hin; apply (Hd o Hin); by left).
      change (next_flow e o = head (remove_flow o (o :: rest))). unfold next_flow.
      rewrite decide_True by (rewrite P; apply elem_of_app; right; by left). rewrite P, next_in_head by done.
      unfold remove_flow. rewrite filter_cons_False by (by intros []). fold (remove_flow o rest). by rewrite remove_flow_notin.
    + change (cursor e = head (remove_flow o rest)). rewrite C in *. destruct rest as [|x rest]; [done|]. cbn in Hc.
      unfold remove_flow. rewrite filter_cons_True by congruence. done.
  - apply Forall_forall. intros x [Hx _]%elem_of_remove. rewrite Hcn. by apply (proj1 (Forall_forall _ _) S).
  - apply Forall_forall. intros x [Hx _]%elem_of_remove. rewrite Hcn. by apply (proj1 (Forall_forall _ _) R).
Qed.

Lemma tame_unlink o e : tame 0 e (unlinkLocked o e).
Proof.
  assert (Hq : quota (unlinkLocked o e) = quota e /\ quotaMax (unlinkLocked o e) = quotaMax e /\ gen (unlinkLocked o e) = gen e)
    by (by destruct (unlink_eq o e) as [c ->]). destruct Hq as (? & ? & ?).
  destruct (unlink_keeps o e) as (Hf & _ & _ & _ & Hn & Hp). split; try done; [lia| | |].
  - intros [Hnd (sent & rest & Hs)]. split; [rewrite Hp; by apply NoDup_filter|].
    exists (remove_flow o sent), (remove_flow o rest). by apply parted_unlink.
  - intros tr. apply later_same; [by destruct (unlink_eq o e) as [c ->]|]. intros x. rewrite Hp. intros [Hx _]%elem_of_remove.
    unfold get. by rewrite Hf.
  - by apply calm_flows.
Qed.

Lemma unlinked o e : o ∉ pub (unlinkLocked o e).
Proof. destruct (unlink_keeps o e) as (_ & _ & _ & _ & _ & ->). intros [_ H]%elem_of_remove. done. Qed.

Section ops.
Context {cfg : Config}.
Implicit Types (h : gset Z) (e : Engine) (o : flow).

Lemma nextOut_retire o e : nextOut (retireLocked cfg o e) = nextOut e.
Proof. unfold retireLocked, completeLocked, putOutLocked. repeat case_match; done. Qed.

Lemma nextOut_finish o err e : nextOut (finishLocked o err e) = nextOut e.
Proof. by destruct (finish_eq o err e) as [rs ->]. Qed.

Lemma nextOut_unlink o e : nextOut (unlinkLocked o e) = nextOut e.
Proof. by destruct (unlink_eq o e) as [c ->]. Qed.

Lemma calm_finish o err e : calm e (finishLocked o err e).
Proof. destruct (finish_eq o err e) as [rs ->]. intros x. by apply (owing_alter (fun f => f <| finished := true |> <| o_err := err |> <| closes ::= Z.succ |>) o (flows e) x). Qed.

Lemma calm_retire o e : calm e (retireLocked cfg o e).
Proof.
  intros x. unfold retireLocked, completeLocked, putOutLocked, settleLocked. repeat case_match; try done;
    match goal with |- context [modify o ?g ?y] => by apply (owing_alter g o (flows e) x) end.
Qed.

Lemma tame_drop o err e : tame 0 e (drop_flow (cfg := cfg) o err e).
Proof.
  unfold drop_flow. eapply tame_trans0; [apply (tame_unlink o)|]. apply (tame_keeps o); [|by rewrite nextOut_retire, nextOut_finish|right; apply unlinked|].
  - eapply keeps_trans; [apply keeps_finish|apply keeps_retire].
  - intros H%calm_retire. by apply (calm_finish o (Some err)).
Qed.

(** A flow that is in no list ends, giving back its unit. *)
Lemma tame_finish_credit o err e :
  o ∉ pub e -> tame (if counted (get e o) then 1 else 0) e (retireLocked cfg o (creditLocked o (finishLocked o err e))).
Proof.
  intros Hn. pose proof (keeps_finish o err e) as K1. set (e1 := finishLocked o err e) in *.
  assert (Hc : counted (get e1 o) = counted (get e o)).
  { unfold e1. destruct (finish_eq o err e) as [rs ->]. rewrite get_modify. by case_decide. }
  assert (Hn1 : o ∉ pub e1) by (destruct K1 as (_ & _ & -> & _); done).
  eapply tame_trans0'; [apply (tame_keeps o e e1 K1); [apply nextOut_finish|by right|apply calm_finish]|]. unfold creditLocked. rewrite Hc.
  destruct (counted (get e o)) eqn:Ec.
  - apply (tame_trans0 1 _ (modify o (fun f => f <| counted := false |>) (e1 <| quota ::= Z.succ |>))).
    + split; try done.
      2: { intros tr. apply later_same; [done|]. intros x Hx. split; [done|]. rewrite get_modify_ne; [done|]. by intros ->. }
      2: { intros x. by apply (owing_alter (fun f => f <| counted := false |>) o (flows e1) x). }
      intros [Hnd (sent & rest & [P C S R])]. split; [done|]. exists sent, rest.
      assert (Hg : forall x, x ∈ sent ++ rest -> get (modify o (fun f => f <| counted := false |>) (e1 <| quota ::= Z.succ |>)) x = get e1 x).
      { intros x Hx. rewrite get_modify_ne; [done|]. intros ->. apply Hn1. by rewrite P. }
      split; [done|done|..]; apply Forall_forall; intros x Hx; rewrite Hg by (apply elem_of_app; tauto).
      * by apply (proj1 (Forall_forall _ _) S).
      * by apply (proj1 (Forall_forall _ _) R).
    + apply (tame_keeps o); [apply keeps_retire|apply nextOut_retire|by right|apply calm_retire].
  - apply (tame_keeps o); [apply keeps_retire|apply nextOut_retire|by right|apply calm_retire].
Qed.
(** ** The operations *)

Lemma out_retire o e : out (retireLocked cfg o e) = out e.
Proof.
  unfold retireLocked, completeLocked, putOutLocked. repeat case_match; done.
Qed.

Lemma out_ended o err e : out (retireLocked cfg o (creditLocked o (finishLocked o err e))) = delete (o_id (get e o)) (out e).
Proof.
  rewrite out_retire. destruct (finish_eq o err e) as [rs ->]. unfold creditLocked. by case_match.
Qed.

Lemma tame_Register m now e : flows e !! nextOut e = None -> (forall o, o ∈ pub e -> is_Some (flows e !! o)) -> tame 0 e (fst (Register cfg m now e)).
Proof.
  intros Hfresh Hpub. unfold Register. destruct (failure e); [by apply tame_view|]. cbn zeta.
  set (f := mkOut (m_ID m) (m_QoS m) _ _ _ _ _ _ _ _ _ _ _ _ _ _ _ _ _). unfold new_flow. cbn [fst].
  match goal with |- context [if hasStore cfg then queueLocked _ _ _ ?x else _] => set (e1 := x) end.
  assert (T : tame 0 e e1).
  { assert (E : pub e1 = pub e ++ [nextOut e] /\ cursor e1 = match cursor e with None => Some (nextOut e) | c => c end
              /\ quota e1 = quota e /\ quotaMax e1 = quotaMax e /\ gen e1 = gen e /\ flows e1 = <[nextOut e := f]> (flows e)
              /\ nextSeq e1 = nextSeq e + 1 /\ nextOut e1 = S (nextOut e)).
    { unfold e1. destruct (list_eqb (m_Ref m) []);
        match goal with |- context [match cursor (push_pub ?o ?x) with _ => _ end] => change (cursor (push_pub o x)) with (cursor e) end;
        destruct (cursor e) eqn:Ec; by split_and!. }
    clearbody e1. destruct E as (Ep & Ec & Eq & Em & Eg & Ef & En & Eo).
    assert (Hg : forall x, x ∈ pub e -> get e1 x = get e x).
    { intros x Hx. unfold get. rewrite Ef, lookup_insert_ne; [done|]. intros <-. destruct (Hpub _ Hx). congruence. }
    split; try done; [lia| | |].
    3: { intros x. unfold owing, get. rewrite Ef. destruct (decide (x = nextOut e)) as [->|Hne]; [|by rewrite lookup_insert_ne].
         rewrite lookup_insert_eq. by intros []. }
    2: { intros tr [HF Hl]. split; [rewrite Eo, En; eapply Forall_impl; [exact HF|]; cbn; intros; lia|].
         intros x. rewrite Ep. intros [Hx| ->%list_elem_of_singleton]%elem_of_app; [rewrite Hg by done; by apply Hl|].
         intros _. eapply Forall_impl; [exact HF|]. intros x [Hx Hb]. split; [lia|]. unfold get. rewrite Ef, lookup_insert_eq. exact Hb. }
    intros [Hnd (sent & rest & [P C S R])]. split.
    { rewrite Ep. apply NoDup_app. split; [done|]. split; [|apply NoDup_singleton]. intros x Hx ->%list_elem_of_singleton.
      destruct (Hpub _ Hx). congruence. }
    exists sent, (rest ++ [nextOut e]). split.
    - by rewrite Ep, P, app_assoc.
    - rewrite Ec, C. by destruct rest.
    - apply Forall_forall. intros x Hx. rewrite Hg by (rewrite P; apply elem_of_app; by left). by apply (proj1 (Forall_forall _ _) S).
    - apply Forall_app. split.
      + apply Forall_forall. intros x Hx. rewrite Hg by (rewrite P; apply elem_of_app; by right). by apply (proj1 (Forall_forall _ _) R).
      + apply Forall_singleton. unfold get. by rewrite Ef, lookup_insert_eq. }
  destruct (hasStore cfg); [|done]. eapply tame_trans0; [exact T|]. by apply tame_view.
Qed.

Lemma tame_Withdraw o e : tame 0 e (fst (Withdraw cfg o e)).
Proof. unfold Withdraw. destruct (_ || _); [apply tame_refl|]. apply tame_drop. Qed.

Lemma tame_settle o e : tame 0 e (settleLocked o e).
Proof. unfold settleLocked. eapply tame_trans0; [by apply (tame_modify o (fun f => f <| settling := true |>))|]. by apply tame_view. Qed.

Lemma tame_putOut o e : tame 0 e (putOutLocked cfg o e).
Proof. unfold putOutLocked. destruct (hasStore cfg); [by apply tame_view|apply tame_refl]. Qed.

Lemma tame_complete o e : tame 0 e (completeLocked cfg o e).
Proof.
  unfold completeLocked. destruct (_ || _); [apply tame_refl|]. destruct (encodeOutcome _) as [oc|]; [|apply tame_refl].
  eapply tame_trans0; [by apply (tame_modify o (fun f => f <| phase := Completed |> <| outcome := oc |>))|apply tame_putOut].
Qed.

Lemma tame_Adopt r s e : tame 0 e (fst (Adopt r s e)).
Proof.
  unfold Adopt. destruct (refs e !! r) as [o|]; [by apply tame_modify|]. destruct (orphans e !! r) as [o|]; [|apply tame_refl]. cbn [fst].
  eapply tame_trans0; [by apply (tame_modify o (fun f => f <| settle := s |>))|]. destruct (settling _); [by apply tame_modify|apply tame_settle].
Qed.

(** An acknowledgement gives back at most a unit, and only when it ended the
    exchange of its identifier and that flow had taken one. *)
Definition frees (id : Z) (e e' : Engine) : Prop :=
  exists d, tame d e e' /\ (d = 0 \/ d = 1 /\ exists o, out e !! id = Some o /\ owing e o /\ out e' !! id = None).

Lemma frees_none id e e' : tame 0 e e' -> frees id e e'.
Proof. intros T. exists 0. split; [done|]. by left. Qed.

Lemma frees_ended id o err e e1 :
  out e !! id = Some o -> o_id (get e1 o) = id -> finished (get e1 o) = false -> out e1 = out e -> tame 0 e e1 -> o ∉ pub e1 ->
  frees id e (retireLocked cfg o (creditLocked o (finishLocked o err e1))).
Proof.
  intros Ho Hid Hfin Ho1 T Hn. exists (if counted (get e1 o) then 1 else 0). split; [eapply tame_trans0'; [exact T|by apply tame_finish_credit]|].
  destruct (counted (get e1 o)) eqn:Ec; [right|by left]. split; [done|]. exists o. split; [done|]. split; [by apply (tm_calm _ _ _ T)|].
  by rewrite out_ended, Hid, Ho1, lookup_delete_eq.
Qed.

Lemma frees_Puback h id rc rf e : Inv cfg [] h e -> frees id e (fst (HandlePuback cfg id rc rf e)).
Proof.
  intros I. unfold HandlePuback. destruct (failure e); [apply frees_none, tame_refl|].
  destruct (out e !! id) as [o|] eqn:Ho; [|apply frees_none, tame_refl]. destruct (_ || _); [apply frees_none, tame_refl|]. cbn [fst].
  destruct (inv_out _ _ _ _ I id o Ho) as (f & Hf & Hid & Hfin & _). destruct (unlink_keeps o e) as (Ef & Eo & _).
  set (g := fun f : Out => f <| reason := rc |>). assert (Hf1 : flows (unlinkLocked o e) !! o = Some f) by (by rewrite Ef).
  case_bool_decide; [apply (frees_ended id o rf e (modify o g (unlinkLocked o e)))|apply (frees_ended id o rf e)]; try done.
  - by rewrite (get_modify_eq o g _ f Hf1).
  - by rewrite (get_modify_eq o g _ f Hf1).
  - eapply tame_trans0; [apply (tame_unlink o)|by apply tame_modify].
  - apply unlinked.
  - by rewrite (get_lookup _ _ _ Hf1).
  - by rewrite (get_lookup _ _ _ Hf1).
  - apply tame_unlink.
  - apply unlinked.
Qed.

Lemma frees_Pubcomp h id e : Inv cfg [] h e -> frees id e (fst (HandlePubcomp cfg id e)).
Proof.
  intros I. unfold HandlePubcomp. destruct (failure e); [apply frees_none, tame_refl|].
  destruct (out e !! id) as [o|] eqn:Ho; [|apply frees_none, tame_refl]. destruct (negb _); [apply frees_none, tame_refl|]. cbn [fst].
  destruct (inv_out _ _ _ _ I id o Ho) as (f & Hf & Hid & Hfin & _). destruct (unlink_keeps o e) as (Ef & Eo & _).
  apply (frees_ended id o None e); try done; [by rewrite (get_lookup _ _ f) by (by rewrite Ef)..|apply tame_unlink|apply unlinked].
Qed.

Lemma frees_Pubrec h id rc rf e : Inv cfg [] h e -> frees id e (fst (HandlePubrec cfg id rc rf e)).
Proof.
  intros I. unfold HandlePubrec. destruct (failure e); [apply frees_none, tame_refl|].
  destruct (out e !! id) as [o|] eqn:Ho; [|by apply frees_none, tame_view]. destruct (_ || _); [apply frees_none, tame_refl|].
  destruct (_ =? _); [by apply frees_none, tame_view|].
  destruct (inv_out _ _ _ _ I id o Ho) as (f & Hf & Hid & Hfin & _). destruct (unlink_keeps o e) as (Ef & Eo & _).
  assert (Hf1 : flows (unlinkLocked o e) !! o = Some f) by (by rewrite Ef). case_bool_decide; cbn [fst].
  - set (g := fun f : Out => f <| reason := rc |>). apply (frees_ended id o rf e (modify o g (unlinkLocked o e))); try done.
    + by rewrite (get_modify_eq o g _ f Hf1).
    + by rewrite (get_modify_eq o g _ f Hf1).
    + eapply tame_trans0; [apply (tame_unlink o)|by apply tame_modify].
    + apply unlinked.
  - apply frees_none. eapply tame_trans0; [apply (tame_unlink o)|]. set (e1 := unlinkLocked o e) in *.
    eapply tame_trans0; [by apply (tame_modify o (fun f => f <| phase := AwaitPubcomp |> <| seq := nextSeq e1 |>))|].
    eapply tame_trans0; [|apply tame_putOut]. apply tame_same; try done; [split; [cbn; lia|done]|by apply calm_flows].
Qed.
(** ** Collecting *)

Lemma control_steady l : forall e,
  let e' := fst (control_loop l e) in
  pub e' = pub e /\ cursor e' = cursor e /\ quota e' = quota e /\ quotaMax e' = quotaMax e /\ gen e' = gen e /\ nextSeq e' = nextSeq e
  /\ nextOut e' = nextOut e /\ flows e' = flows e.
Proof.
  induction l as [|c l IH]; intros e; cbn [control_loop]; [done|]. destruct (readyLocked e c); [|done]. cbn zeta.
  match goal with |- context [control_loop l ?x] => set (e1 := x) end. specialize (IH e1). destruct (control_loop l e1) as [e2 its].
  assert (E : pub e1 = pub e /\ cursor e1 = cursor e /\ quota e1 = quota e /\ quotaMax e1 = quotaMax e /\ gen e1 = gen e
              /\ nextSeq e1 = nextSeq e /\ nextOut e1 = nextOut e /\ flows e1 = flows e)
    by (unfold e1; case_match; done).
  cbn [fst] in *. destruct_and! IH. destruct_and! E. split_and!; congruence.
Qed.

Lemma tame_control l e : tame 0 e (fst (control_loop l e)).
Proof. destruct (control_steady l e) as (? & ? & ? & ? & ? & ? & ? & ?). by apply tame_view. Qed.

(** The division after sending the first of the rest. *)
Lemma parted_send o e f sent rest :
  NoDup (pub e) -> flows e !! o = Some f -> parted e sent (o :: rest) -> parted (send_flow o e) (sent ++ [o]) rest.
Proof.
  intros Hnd Hf [P C S R]. set (g := fun f : Out => f <| attempted := true |> <| counted := true |>).
  pose proof Hnd as Hnd'. rewrite P in Hnd'. apply NoDup_app in Hnd' as (_ & Hd & Hr). apply NoDup_cons in Hr as [Hr _].
  assert (Ho : o ∉ sent) by (intros Hin; apply (Hd o Hin); by left).
  assert (Hg : forall x, get (send_flow o e) x = get (modify o g e) x) by done. split.
  - change (pub e = (sent ++ [o]) ++ rest). by rewrite P, <- app_assoc.
  - change (next_flow e o = head rest). unfold next_flow. rewrite decide_True by (rewrite P; apply elem_of_app; right; by left).
    by rewrite P, next_in_head.
  - apply Forall_app. split; [|apply Forall_singleton; by rewrite Hg, (get_modify_eq o g e f)].
    apply Forall_forall. intros x Hx. rewrite Hg, get_modify_ne by (by intros ->). by apply (proj1 (Forall_forall _ _) S).
  - apply Forall_cons in R as [_ R]. apply Forall_forall. intros x Hx. rewrite Hg, get_modify_ne by (by intros ->). by apply (proj1 (Forall_forall _ _) R).
Qed.

Lemma parted_drop o err e sent rest :
  NoDup (pub e) -> parted e sent (o :: rest) -> parted (drop_flow (cfg := cfg) o err e) sent rest.
Proof.
  intros Hnd Hp. pose proof (parted_unlink o e _ _ Hnd Hp) as Hu. destruct Hp as [P _ _ _].
  rewrite P in Hnd. apply NoDup_app in Hnd as (_ & Hd & Hr). apply NoDup_cons in Hr as [Hr _].
  rewrite remove_flow_notin in Hu by (intros Hin; apply (Hd o Hin); by left). unfold remove_flow in Hu. rewrite filter_cons_False in Hu by (by intros []).
  fold (remove_flow o rest) in Hu. rewrite remove_flow_notin in Hu by done.
  pose proof (keeps_trans o _ _ _ (keeps_finish o (Some err) (unlinkLocked o e)) (keeps_retire (cfg := cfg) o _)) as K.
  apply (parted_same (unlinkLocked o e)); [apply K|apply K| |done].
  intros x Hx. apply (keeps_counted o _ _ K); [right; apply unlinked|done].
Qed.

(** What the loop of [Collect] does to a divided list: it sends PUBLISHes of
    the rest, in order, and they then count as sent. *)
Definition carried (f : Out) (it : item) : Prop :=
  exists pk, it = IPublish pk (attempted f) /\ (pk = packet f \/ attempted f = false /\ exists left, pk = with_expiry (packet f) left).

Definition carries (e : Engine) (o : flow) (it : item) : Prop := carried (get e o) it.

Record collected (e e' : Engine) (sent rest : list flow) (its : list item) : Prop := {
  co_quota : quota e' = quota e - len its;
  co_max : quotaMax e' = quotaMax e /\ gen e' = gen e;
  co_seq : nextSeq e' = nextSeq e /\ nextOut e' = nextOut e /\ forall o, pubSeq (get e' o) = pubSeq (get e o);
  co_parted : exists fl rest', parted e' (sent ++ fl) rest' /\ sublist (fl ++ rest') rest /\ Forall2 (carries e) fl its
              /\ forall o, owing e' o -> owing e o \/ o ∈ fl;
}.

Lemma carries_same e e1 fl its : (forall x, x ∈ fl -> get e1 x = get e x) -> Forall2 (carries e1) fl its -> Forall2 (carries e) fl its.
Proof.
  intros H. induction 1 as [|o it fl its Ho _ IH]; constructor.
  - unfold carries in *. by rewrite H in Ho by (by left).
  - apply IH. intros x Hx. apply H. by right.
Qed.

Lemma collected_none e e' sent rest :
  quota e' = quota e -> quotaMax e' = quotaMax e -> gen e' = gen e -> nextSeq e' = nextSeq e -> nextOut e' = nextOut e ->
  (forall o, pubSeq (get e' o) = pubSeq (get e o)) -> calm e e' -> parted e' sent rest -> collected e e' sent rest [].
Proof.
  intros Hq Hm Hg Hn Ho Hs Hk P. split; [change (len (@nil item)) with 0; lia|done|done|]. exists [], rest. rewrite app_nil_r.
  split_and!; [done|done|constructor|]. intros o Hw. left. by apply Hk.
Qed.

Lemma send_owing o e x : owing (send_flow o e) x -> owing e x \/ x = o.
Proof.
  destruct (decide (x = o)) as [->|Hne]; [by right|]. left. unfold owing in *.
  change (get (send_flow o e) x) with (get (modify o (fun f => f <| attempted := true |> <| counted := true |>) e) x) in *.
  by rewrite get_modify_ne in *.
Qed.

Lemma calm_shorten o left e : calm e (shorten o left e).
Proof. by apply calm_modify. Qed.

Lemma send_pubSeq o e x : pubSeq (get (send_flow o e) x) = pubSeq (get e x).
Proof.
  change (pubSeq (get (modify o (fun f => f <| attempted := true |> <| counted := true |>) e) x) = pubSeq (get e x)). rewrite get_modify.
  case_decide as E; [|done]. by destruct E as [-> _].
Qed.

Lemma shorten_pubSeq o left e x : pubSeq (get (shorten o left e) x) = pubSeq (get e x).
Proof. unfold shorten. rewrite get_modify. case_decide as E; [|done]. by destruct E as [-> _]. Qed.

Lemma collected_send o l e e1 e' sent its it :
  (forall x, x ∈ l -> get e1 x = get e x) -> (forall x, pubSeq (get e1 x) = pubSeq (get e x)) -> quota e1 = quota e -> quotaMax e1 = quotaMax e ->
  gen e1 = gen e -> nextSeq e1 = nextSeq e -> nextOut e1 = nextOut e -> calm e e1 -> carries e o it -> (o ∉ l) ->
  collected (send_flow o e1) e' (sent ++ [o]) l its -> collected e e' sent (o :: l) (it :: its).
Proof.
  intros Hg Hs Hq Hm Hge Hn Hno Hk Hit Ho [Q M (N & No & B) (fl & rest' & P & Hsub & HF & HO)]. change (quota (send_flow o e1)) with (Z.pred (quota e1)) in Q.
  change (quotaMax (send_flow o e1)) with (quotaMax e1) in M. change (gen (send_flow o e1)) with (gen e1) in M.
  change (nextSeq (send_flow o e1)) with (nextSeq e1) in N. change (nextOut (send_flow o e1)) with (nextOut e1) in No. split.
  - rewrite Q, Hq, len_cons. lia.
  - destruct M. split; congruence.
  - split; [congruence|]. split; [congruence|]. intros x. by rewrite B, send_pubSeq.
  - exists (o :: fl), rest'. rewrite <- app_assoc in P. split; [done|]. split; [by apply sublist_skip|].
    split; [|intros x [[Hw%Hk| ->]%send_owing|Hin]%HO; [by left|right; by left|right; by right]]. constructor; [done|].
    apply (carries_same e (send_flow o e1)); [|done]. intros x Hx. assert (Hxl : x ∈ l) by (apply (sublist_subseteq _ _ Hsub), elem_of_app; by left).
    change (get (modify o (fun f => f <| attempted := true |> <| counted := true |>) e1) x = get e x).
    rewrite get_modify_ne by (by intros ->). by apply Hg.
Qed.

Lemma drop_seq o err e :
  nextSeq (drop_flow (cfg := cfg) o err e) = nextSeq e /\ nextOut (drop_flow (cfg := cfg) o err e) = nextOut e
  /\ forall x, pubSeq (get (drop_flow (cfg := cfg) o err e) x) = pubSeq (get e x).
Proof.
  pose proof (keeps_trans o _ _ _ (keeps_finish o (Some err) (unlinkLocked o e)) (keeps_retire (cfg := cfg) o _)) as K.
  assert (E : nextSeq (unlinkLocked o e) = nextSeq e /\ forall x, get (unlinkLocked o e) x = get e x) by (by destruct (unlink_eq o e) as [c ->]).
  destruct E as [En Eg]. fold (drop_flow (cfg := cfg) o err e) in K. split; [destruct K as (_ & _ & _ & _ & -> & _); done|].
  split; [unfold drop_flow; by rewrite nextOut_retire, nextOut_finish, nextOut_unlink|].
  intros x. rewrite <- Eg. destruct (decide (x = o)) as [->|Hne]; [apply K|]. by rewrite (keeps_get o _ _ x K).
Qed.

Lemma collected_drop o l e e' sent its :
  o ∉ l -> collected (drop_flow (cfg := cfg) o ErrMessageExpired e) e' sent l its -> collected e e' sent (o :: l) its.
Proof.
  intros Ho [Q M (N & No & B) (fl & rest' & P' & Hs & HF & HO)]. destruct (tame_drop o ErrMessageExpired e) as [Tq Tm Tg _ _ Tk].
  destruct (drop_flow_keeps (cfg := cfg) o ErrMessageExpired e) as (Kf & _). destruct (drop_seq o ErrMessageExpired e) as (Dn & Do & Ds).
  split; [lia|destruct M; split; congruence| |].
  - split; [congruence|]. split; [congruence|]. intros x. by rewrite B.
  - exists fl, rest'. split; [done|]. split; [by apply sublist_cons|].
    split; [|intros x [Hw%Tk|Hin]%HO; [by left|by right]]. apply (carries_same e (drop_flow (cfg := cfg) o ErrMessageExpired e)); [|done].
    intros x Hx. unfold get. rewrite Kf; [done|]. intros ->. apply Ho, (sublist_subseteq _ _ Hs), elem_of_app. by left.
Qed.

Lemma loop_collected h l e e' its : loop_run cfg l e e' its -> collecting (cfg := cfg) h l e -> forall sent, parted e sent l -> collected e e' sent l its.
Proof.
  induction 1 as [l e|o l e f e' its Hf Hs _ IH|o l e f left e' its Hc Hf Hs Ha _ IH|o l e f e' its Hf Ha _ IH|o l e f left Hc Hf Ha];
    intros C sent P; pose proof (pub_nodup [] h e (cl_inv _ _ _ C)) as Hnd; try (pose proof (cl_nodup _ _ _ C) as Hnl; apply NoDup_cons in Hnl as [Hnl _]).
  - apply collected_none; try done. by apply calm_flows.
  - apply (collected_send o l e e); try done; [by apply calm_flows|exists (packet f); rewrite (get_lookup _ _ _ Hf); auto|].
    apply IH; [by apply (collecting_send h o l e f)|by apply (parted_send o e f)].
  - pose proof (collecting_shorten h o l left e f C Hf) as C1.
    assert (P1 : parted (shorten o left e) sent (o :: l)).
    { apply (parted_same e); [done|done| |done]. intros x _. unfold shorten. rewrite get_modify. case_decide as E; [|done]. by destruct E as [-> _]. }
    pose proof (flows_modify o (fun f => f <| expiry := left |> <| packet := with_expiry (packet f) left |>) e f Hf) as Hf1.
    assert (Hg : forall x, x ∈ l -> get (shorten o left e) x = get e x).
    { intros x Hx. unfold shorten. rewrite get_modify_ne; [done|]. by intros ->. }
    apply (collected_send o l e (shorten o left e) e' sent its _ Hg (shorten_pubSeq o left e)); try done.
    + apply calm_shorten.
    + eexists. rewrite (get_lookup _ _ _ Hf), Ha. split; [done|]. right. split; [done|]. by eexists.
    + apply IH; [|eapply parted_send; [done|exact Hf1|done]]. eapply collecting_send; [exact C1|exact Hf1|]. destruct Hs as (? & ? & ?). by split_and!.
  - apply (collected_drop o l e e' sent its Hnl). apply (IH (collecting_drop h o l e C) sent (parted_drop o _ e sent l Hnd P)).
  - assert (E : forall x, get (putOutLocked cfg o (shorten o left e)) x = get (shorten o left e) x)
      by (intros x; unfold putOutLocked; by destruct (hasStore cfg)).
    apply collected_none; try (unfold putOutLocked; by destruct (hasStore cfg)).
    + intros x. by rewrite E, shorten_pubSeq.
    + intros x. unfold owing. rewrite E. apply calm_shorten.
    + apply (parted_same e); [..|done]; try (unfold putOutLocked; by destruct (hasStore cfg)).
      intros x _. rewrite E. unfold shorten. rewrite get_modify. case_decide as Ex; [|done]. by destruct Ex as [-> _].
Qed.
(** ** The other operations *)

Lemma tame_Receive id q e : tame 0 e (fst (Receive cfg id q e)).
Proof. unfold Receive, new_in. repeat case_match; try apply tame_refl; by apply tame_view. Qed.

Lemma tame_ack i e : tame 0 e (ack cfg i e).
Proof.
  unfold ack. case_match; [apply tame_refl|]. cbn zeta. set (e1 := modify_in i _ e). apply (tame_trans0 0 _ e1); [by apply tame_view|].
  generalize (fifo e1). generalize e1. clear. intros e l. revert e.
  induction l as [|i l IH]; intros e; cbn [ack_loop]; [by apply tame_view|]. case_decide; [|by apply tame_view].
  case_match; (eapply tame_trans0; [|apply IH]); [by apply tame_view|]. case_match; by apply tame_view.
Qed.

Lemma tame_Pubrel id e : tame 0 e (HandlePubrel cfg id e).
Proof. unfold HandlePubrel. repeat case_match; try apply tame_refl; by apply tame_view. Qed.

Lemma tame_fail err e : tame 0 e (fst (failLocked err e)).
Proof.
  destruct (failure e) eqn:Hnf; [unfold failLocked; rewrite Hnf; apply tame_refl|]. destruct (fail_eq err e Hnf) as [m ->].
  split; [es; lia|done|done| | |].
  - intros _. split; [constructor|]. exists [], []. split; try done; constructor.
  - intros tr. apply later_same; [done|]. intros x Hx. by apply elem_of_nil in Hx.
  - intros x. by apply (owing_drained (failed_out err) (fst (drainFlowsLocked e)) (flows e) x).
Qed.

Lemma tame_SetMeta m ans e a : tame 0 e (fst (fst (SetMeta cfg m ans e a))).
Proof.
  unfold SetMeta. destruct (failure e); [apply tame_refl|]. destruct (_ && _); [apply tame_refl|]. destruct (negb _); [by apply tame_view|].
  destruct (store_do _ _ _) as [a' [|]]; [by apply tame_view|]. pose proof (tame_fail (StoreError "set meta") e) as H. by destruct (failLocked _ e).
Qed.

Lemma tame_pop k e : tame 0 e (pop_head k e).
Proof. rewrite pop_eq. by apply tame_view. Qed.

Lemma tame_register_failed o e : tame 0 e (register_failed o e).
Proof.
  unfold register_failed. cbn zeta. match goal with |- context [unlinkLocked o ?x] => set (e1 := x) end.
  apply (tame_trans0 0 _ e1); [unfold e1, cancelLocked; case_match; [apply tame_refl|by apply tame_view]|].
  apply (tame_trans0 0 _ (unlinkLocked o e1)); [apply tame_unlink|]. set (e2 := unlinkLocked o e1).
  match goal with |- context [modify o ?g ?x] => apply (tame_trans0 0 _ x); [repeat case_match; by apply tame_view|];
    apply (tame_trans0 0 _ (modify o g x)); [by apply tame_modify|by apply tame_view] end.
Qed.

Lemma tame_after j r e : tame 0 e (fst (after cfg j r e)).
Proof.
  unfold after. destruct (j_work j) as [r0|r0|s oc rf| |], (j_owner j) as [o|i]; try (destruct r; apply tame_refl).
  - destruct r; [apply tame_refl|apply tame_register_failed..].
  - set (e1 := modify o (fun f => f <| settling := false |>) e). assert (T1 : tame 0 e e1) by (by apply tame_modify).
    destruct r; cbn [fst]; [| |exact T1]; (eapply tame_trans0; [exact T1|]).
    + destruct (adopted _); cbn [fst].
      * eapply tame_trans0; [by apply (tame_modify o (fun f => f <| adopted := false |>))|apply tame_settle].
      * case_match; by apply tame_view.
    + eapply tame_trans0; [apply (tame_complete o)|]. destruct (adopted _); cbn [fst]; [|by apply tame_modify].
      eapply tame_trans0; [by apply (tame_modify o (fun f => f <| adopted := false |>))|apply tame_settle].
Qed.

Lemma tame_finish k e e' told : finish_head cfg k e = Some (e', told) -> tame 0 e e'.
Proof.
  unfold finish_head. destruct (queue e k) as [|[w ow ep [r|]] q]; try done.
  pose proof (tame_after (mkJob w ow ep (Some r)) r e) as T. destruct (ep =? epoch e).
  - destruct (after cfg _ r e) as [e1 fail]. cbn [fst] in T. pose proof (tame_trans0 0 _ _ _ T (tame_pop k e1)) as T1.
    destruct fail as [err|]; [|by intros [= <- _]]. pose proof (tame_fail err (pop_head k e1)) as T2. intros [= E]. rewrite E in T2.
    by apply (tame_trans0 0 _ (pop_head k e1)).
  - intros [= <- _]. apply tame_pop.
Qed.
(** ** A new connection *)

Definition same_quota (e e' : Engine) : Prop := quota e' = quota e /\ quotaMax e' = quotaMax e.

#[local] Instance same_quota_preorder : PreOrder same_quota.
Proof. split; [done|]. unfold same_quota. intros e1 e2 e3 [] []. split; congruence. Qed.

Lemma fold_quota {A} (g : Engine -> A -> Engine) l : (forall e x, same_quota e (g e x)) -> forall e, same_quota e (fold_left g l e).
Proof. intros Hg. induction l as [|x l IH]; intros e; [done|]. cbn [fold_left]. etransitivity; [apply Hg|apply IH]. Qed.

Lemma keeps_same_quota o e e' : keeps o e e' -> same_quota e e'.
Proof. intros (_ & _ & _ & _ & _ & H1 & H2 & _). by split. Qed.

Lemma lose_flow_quota now e o : same_quota e (lose_flow cfg now e o).
Proof.
  unfold lose_flow. match goal with |- context [match ?g with Some _ => _ | None => _ end] => destruct g as [err|] end.
  - apply (keeps_same_quota o). eapply keeps_trans; [apply keeps_finish|apply keeps_retire].
  - unfold putOutLocked. destruct (expiresAt _), (hasStore cfg); done.
Qed.

Lemma limit_flow_quota l fr e o : same_quota e (limit_flow cfg l fr e o).
Proof.
  assert (Hd : forall err, same_quota e (retireLocked cfg o (finishLocked o (Some err) (unlinkLocked o e)))).
  { intros err. destruct (tame_drop o err e) as [Hq Hm _ _ _ _]. split; [unfold drop_flow in Hq; lia|done]. }
  unfold limit_flow. cbn zeta. destruct (_ && attempted _); [done|]. destruct (_ && _); [done|]. destruct (_ && negb _); [done|].
  destruct (_ && Downgrade l && _); [|by destruct (_ <? _)]. unfold putOutLocked. by destruct (hasStore cfg).
Qed.

(** The Receive Maximum of a connection. *)
Definition receive_max (ci : ConnInfo) : Z := if ci_ReceiveMaximum ci =? 0 then 65535 else ci_ReceiveMaximum ci.

Lemma Connected_quota ci now e :
  failure e = None -> let e' := fst (Connected cfg ci now e) in
  quota e' = receive_max ci /\ quotaMax e' = receive_max ci /\ cursor e' = head (pub e').
Proof.
  intros Hnf. unfold Connected. rewrite Hnf. cbn zeta. match goal with |- context [fold_left ?g (map_to_list (out ?x0)) ?x0] => set (e1 := x0); set (e2 := fold_left g (map_to_list (out e1)) e1) end.
  assert (Hq : same_quota e1 e2) by (by apply fold_quota).
  assert (H3 : same_quota e2 (if SessionPresent ci then resumeLocked e2 else sessionLostLocked cfg now e2)).
  { destruct (SessionPresent ci).
    - destruct (resume_books e2) as [_ (_ & _ & _ & _ & _ & _ & _ & H1 & H2 & _)]. by split.
    - unfold sessionLostLocked, drainFlowsLocked. cbv beta iota. etransitivity; [|apply fold_quota; intros; apply lose_flow_quota].
      set (e3 := fold_left (lose_in cfg) (map_to_list (inb e2)) e2).
      assert (H : same_quota e2 e3) by (apply fold_quota; intros e' [id i]; unfold lose_in; by case_match). exact H. }
  set (e3 := if SessionPresent ci then resumeLocked e2 else sessionLostLocked cfg now e2) in *.
  assert (H4 : same_quota e3 (match ci_Limits ci with Some l => enforceLimitsLocked cfg l (negb (SessionPresent ci)) e3 | None => e3 end)).
  { destruct (ci_Limits ci); [|done]. apply fold_quota. intros. apply limit_flow_quota. }
  set (e4 := match ci_Limits ci with Some l => _ | None => e3 end) in *. fold (receive_max ci) in e1.
  assert (E : quota e4 = receive_max ci /\ quotaMax e4 = receive_max ci).
  { destruct (transitivity Hq (transitivity H3 H4)) as [E1 E2]. rewrite E1, E2. done. }
  destruct E as [E1 E2]. destruct (_ && bool_decide _); cbn [fst]; (split; [exact E1|]; split; [exact E2|reflexivity]).
Qed.

Lemma cnt_none e l : cnt e l <= 0 -> Forall (fun o => counted (get e o) = false) l.
Proof.
  induction l as [|o l IH]; [by constructor|]. rewrite cnt_cons. pose proof (cnt_nonneg e l). destruct (counted (get e o)) eqn:E; intros; [lia|].
  constructor; [done|]. apply IH. lia.
Qed.

Lemma Connected_split h ci now e :
  Inv cfg [] h e -> 0 <= ci_ReceiveMaximum ci -> failure e = None -> parted (fst (Connected cfg ci now e)) [] (pub (fst (Connected cfg ci now e))).
Proof.
  intros I Hr Hnf. destruct (Connected_advances h e ci now I Hr) as [I' _]. destruct (Connected_quota ci now e Hnf) as (H1 & H2 & H3).
  set (e' := fst (Connected cfg ci now e)) in *. destruct (inv_quota _ _ _ _ I') as [_ Hq]. rewrite cnt_app in Hq.
  pose proof (cnt_nonneg e' (rel e' ++ [])). split; [done|done|constructor|]. apply cnt_none. lia.
Qed.
(** ** The machine *)

Lemma from_flow_at o (l1 l2 : list flow) : o ∉ l1 -> from_flow o (l1 ++ o :: l2) = o :: l2.
Proof.
  induction l1 as [|x l1 IH]; cbn; intros H; [by rewrite decide_True|]. apply not_elem_of_cons in H as [H1 H2].
  rewrite decide_False by done. by apply IH.
Qed.

Lemma at_cursor_rest e sent rest : NoDup (pub e) -> parted e sent rest -> at_cursor e = rest.
Proof.
  intros Hnd [P C _ _]. unfold at_cursor. rewrite C. destruct rest as [|o rest]; [done|]. cbn. rewrite P in *. apply from_flow_at.
  apply NoDup_app in Hnd as (_ & Hd & _). intros Hin. apply (Hd o Hin). by left.
Qed.

(** The PUBLISHes among what the environment sees. *)
Definition is_publish (x : output) : option item := match x with Sent (IPublish pk dup) => Some (IPublish pk dup) | _ => None end.
Definition publishes (outs : list output) : list item := omap is_publish outs.

Lemma publishes_acks l e : publishes (map Sent (snd (control_loop l e))) = [].
Proof.
  revert e. induction l as [|c l IH]; intros e; cbn [control_loop]; [done|]. destruct (readyLocked e c); [|done]. cbn zeta.
  match goal with |- context [control_loop l ?x] => specialize (IH x); destruct (control_loop l x) as [e2 its] end. cbn in *. exact IH.
Qed.

Lemma publishes_items l e e' its : loop_run cfg l e e' its -> publishes (map Sent its) = its.
Proof. induction 1 as [| | | |]; cbn; try done; by f_equal. Qed.

Lemma publishes_told l : publishes (map Told l) = [].
Proof. by induction l. Qed.

(** Events of one connection. *)
Definition same_connection (ev : event) : bool :=
  match ev with EvConnected _ _ | EvDisconnected _ | EvDiscard _ | EvRestore | EvRestart => false | _ => true end.

Definition ack_id (ev : event) : option Z :=
  match ev with EvPuback id _ _ | EvPubrec id _ _ | EvPubcomp id => Some id | _ => None end.

(** The quota [ev] gives back. *)
Definition gives (d : Z) (ev : event) (e e' : Engine) : Prop :=
  d = 0 \/ d = 1 /\ exists id o, ack_id ev = Some id /\ out e !! id = Some o /\ owing e o /\ out e' !! id = None.

Definition SInv (w : World) : Prop := gen (eng w) <> 0 -> split_ok (eng w).

Lemma Collect_collected h g upTo now e :
  Inv cfg [] h e -> (gen e <> 0 -> split_ok e) -> servesLocked g e = true ->
  exists sent rest, parted e sent rest /\ collected e (fst (Collect cfg g upTo now e)) sent rest (publishes (map Sent (snd (Collect cfg g upTo now e)))).
Proof.
  intros I HS Sv. destruct (collecting_start h g upTo now e I Sv) as (C & V & -> & ->).
  destruct HS as [Hnd (sent & rest & P)].
  { unfold servesLocked in Sv. apply andb_true_iff in Sv as [Sv _]. apply andb_true_iff in Sv as [H1 H2]. apply Z.eqb_eq in H2. subst g.
    by apply negb_true_iff, Z.eqb_neq in H1. }
  set (e0 := if released e <? upTo then _ else e) in *. set (e1 := fst (collectControlLocked e0)) in *.
  assert (E : pub e1 = pub e /\ cursor e1 = cursor e /\ quota e1 = quota e /\ quotaMax e1 = quotaMax e /\ gen e1 = gen e
              /\ nextSeq e1 = nextSeq e /\ nextOut e1 = nextOut e /\ flows e1 = flows e).
  { destruct (control_steady (ctrl e0) e0) as (H1 & H2 & H3 & H4 & H5 & H6 & H7 & H8). unfold e1, collectControlLocked. rewrite H1, H2, H3, H4, H5, H6, H7, H8.
    unfold e0. by case_match. }
  destruct E as (E1 & E2 & E3 & E4 & E5 & E7 & E8 & E6). assert (Hg : forall x, get e1 x = get e x) by (intros x; unfold get; by rewrite E6).
  assert (P1 : parted e1 sent rest) by (apply (parted_same e); [done|done|intros x _; by rewrite Hg|done]).
  rewrite (at_cursor_rest e1 sent rest) in * by (done || by rewrite E1).
  pose proof (publish_loop_run (cfg := cfg) rest 0 now e1 (collecting_some h _ _ C)) as L.
  destruct (loop_collected h rest e1 _ _ L C sent P1) as [Q M (N & No & B) (fl & rest' & P' & Hs & HF & HO)].
  exists sent, rest. split; [done|]. unfold publishes. rewrite map_app, omap_app. fold (publishes (map Sent (snd (collectControlLocked e0)))).
  unfold collectControlLocked at 1. rewrite publishes_acks. cbn [app]. fold (publishes (map Sent (snd (publish_loop cfg rest 0 now e1)))).
  rewrite (publishes_items _ _ _ _ L). split; [lia|destruct M; split; congruence| |].
  - split; [congruence|]. split; [congruence|]. intros x. by rewrite B, Hg.
  - exists fl, rest'. split; [done|]. split; [done|]. split; [apply (carries_same e e1); [intros x _; apply Hg|done]|].
    intros o [Hw|Hw]%HO; [left|by right]. unfold owing. by rewrite <- Hg.
Qed.

(** A step of a connection sends PUBLISHes in [Collect] only. *)
Lemma step_cases w ev w' outs :
  WInv cfg w -> same_connection ev = true -> step cfg ev w = Some (w', outs) ->
  (exists d, tame d (eng w) (eng w') /\ gives d ev (eng w) (eng w') /\ publishes outs = [])
  \/ (exists g upTo now, ev = EvCollect g upTo now /\ servesLocked g (eng w) = true /\ eng w' = fst (Collect cfg g upTo now (eng w))
        /\ outs = map Sent (snd (Collect cfg g upTo now (eng w)))).
Proof.
  intros [I _] Hsc E. destruct w as [e a h]. cbn [eng disk held] in *.
  assert (H0 : ack_id ev = None -> forall e' outs', tame 0 e e' -> publishes outs' = [] ->
            exists d, tame d e e' /\ gives d ev e e' /\ publishes outs' = []).
  { intros Ha e' outs' T Ho. exists 0. split_and!; try done. by left. }
  assert (Hack : forall id, ack_id ev = Some id -> forall e', frees id e e' ->
            exists d, tame d e e' /\ gives d ev e e' /\ publishes [] = []).
  { intros id Ha e' (d & T & Hd). exists d. split_and!; try done. destruct Hd as [->|(-> & o & Ho)]; [by left|]. right. split; [done|]. by exists id, o. }
  unfold step in E. cbn [eng disk held] in E.
  destruct ev as [ow|id ow|m now|o|r s|id rc rf|id rc rf|id|id q|i|id|ci now|l|g upTo now|g|k ans|k|m ans|ans| |]; try done.
  12: { injection E as <- <-. destruct (servesLocked g e) eqn:Sv; [right; by eexists _, _, _|left]. unfold Collect. rewrite Sv.
        apply H0; [done|apply tame_refl|done]. }
  all: left.
  - destruct (IDs.AllocateID (ids e) ow) as [|id t|]; try done. case_decide; [done|]. injection E as <- <-. apply H0; [done| |done]. by apply tame_view.
  - case_decide; [done|]. injection E as <- <-. apply H0; [done| |done]. by apply tame_view.
  - case_decide; [|done]. injection E as <- <-. apply H0; [done| |done]. apply tame_Register; [by apply (fresh_flow [] h e I)|].
    intros o Ho. destruct (member_live I o) as (f & Hf & _); [by apply elem_first|]. by eexists.
  - case_decide; [|done]. injection E as <- <-. apply H0; [done| |done]. apply tame_Withdraw.
  - injection E as <- <-. apply H0; [done| |done]. apply tame_Adopt.
  - injection E as <- <-. apply (Hack id); [done|]. by apply (frees_Puback h).
  - injection E as <- <-. apply (Hack id); [done|]. by apply (frees_Pubrec h).
  - injection E as <- <-. apply (Hack id); [done|]. by apply (frees_Pubcomp h).
  - case_decide; [|done]. pose proof (tame_Receive id q e) as T. destruct (Receive cfg id q e) as [e' r]. injection E as <- <-.
    apply H0; [done|done|]. by destruct r.
  - case_decide; [|done]. injection E as <- <-. apply H0; [done| |done]. apply tame_ack.
  - injection E as <- <-. apply H0; [done| |done]. apply tame_Pubrel.
  - injection E as <- <-. unfold CollectControl. destruct (servesLocked g e); (apply H0; [done| |]); [apply tame_control|apply publishes_acks|apply tame_refl|done].
  - unfold perform_head in E. destruct (queue e k) as [|[w0 ow ep [r|]] q]; try done. destruct (do_work cfg w0 k ans a) as [[a' r] told]. injection E as <- <-.
    apply H0; [done| |apply publishes_told]. by apply tame_view.
  - destruct (finish_head cfg k e) as [[e' told]|] eqn:Ef; [|done]. injection E as <- <-. apply H0; [done| |apply publishes_told]. by apply (tame_finish k e e' told).
  - pose proof (tame_SetMeta m ans e a) as T. destruct (SetMeta cfg m ans e a) as [[e' a'] told]. injection E as <- <-. apply H0; [done|done|apply publishes_told].
Qed.

(** A step of a connection keeps the division. *)
Lemma step_split w ev w' outs :
  WInv cfg w -> SInv w -> same_connection ev = true -> step cfg ev w = Some (w', outs) ->
  SInv w'.
Proof.
  intros W HS Hsc E. destruct (step_WInv (cfg := cfg) w ev w' outs W E) as [I' _]. pose proof (wi_inv _ _ W) as I.
  destruct (step_cases w ev w' outs W Hsc E) as [(d & [Hq _ Hg Hs _ _] & _)|(g & upTo & now & -> & Sv & Ee & ->)].
  - intros Hn. apply Hs, HS. by rewrite <- Hg.
  - destruct (Collect_collected (held w) g upTo now (eng w) I HS Sv) as (sent & rest & P & [Q [M G] _ (fl & rest' & P' & _)]).
    rewrite <- Ee in *. intros _. split; [|by eexists _, _].
    by apply (pub_nodup (cfg := cfg) [] (held w')).
Qed.

(** ** Between connections *)

Lemma fold_gen {A} (g : Engine -> A -> Engine) l : (forall e x, gen (g e x) = gen e) -> forall e, gen (fold_left g l e) = gen e.
Proof. intros Hg. induction l as [|x l IH]; intros e; [done|]. cbn [fold_left]. by rewrite IH, Hg. Qed.

Lemma Discard_gen ans e a : gen (fst (fst (fst (Discard cfg ans e a)))) = gen e.
Proof.
  unfold Discard. destruct (if hasStore cfg then _ else _) as [a' [|]]; [|done]. unfold drainFlowsLocked. cbv beta iota zeta. cbn [fst].
  match goal with |- gen (?x <| cursor := None |> <| e_meta := zeroMeta |>) = _ => change (gen x = gen e) end.
  rewrite fold_gen by done. rewrite fold_gen by (intros e1 o; apply (keeps_finish o (Some ErrSessionLost) e1)).
  match goal with |- gen (?x <| pub := [] |> <| rel := [] |> <| out := _ |> <| refs := _ |>) = _ => change (gen x = gen e) | _ => idtac end.
  apply (fold_gen (fun e x => modify_in (snd x) (fun f => f <| dead := true |>) e)). done.
Qed.

Lemma restore_record_gen x r : gen (fst (restore_record x r)) = gen (fst x).
Proof.
  destruct x as [e rl]. unfold restore_record. cbn zeta. destruct (_ || _); [done|].
  destruct ((Dir (Key r) =? Outbound) && (Phase r =? Completed)).
  - destruct (decodeOutcome _); [|done]. destruct (list_eqb _ _); [done|]. by destruct (IDs.claim _ _ _) as [[|] t].
  - destruct (Dir (Key r) =? Outbound); [destruct (len (PacketBytes r) =? 0); [done|]; destruct (IDs.claim _ _ _) as [[|] t]; [|done]|].
    all: unfold new_flow; cbv beta iota zeta; repeat match goal with |- context [if ?b then _ else _] => destruct b end; done.
Qed.

Lemma Restore_gen m recs e e' : Restore m recs e = Some e' -> gen e' = gen e.
Proof.
  unfold Restore. destruct (_ && _); [|done]. cbn zeta. set (e0 := e <| failure := None |> <| ids ::= _ |> <| orphans := ∅ |> <| e_meta := m |>).
  assert (H : forall l x, gen (fst (fold_left restore_record l x)) = gen (fst x)).
  { induction l as [|r l IH]; intros x; [done|]. cbn [fold_left]. by rewrite IH, restore_record_gen. }
  specialize (H recs (e0, [])). destruct (fold_left restore_record recs (e0, [])) as [e1 rl]. intros [= <-]. by rewrite fold_gen.
Qed.

Lemma step_SInv w ev w' outs : WInv cfg w -> SInv w -> step cfg ev w = Some (w', outs) -> SInv w'.
Proof.
  intros W HS E. destruct (same_connection ev) eqn:Hsc; [by apply (step_split w ev w' outs)|]. destruct W as [I _].
  destruct w as [e a h]. cbn [eng disk held] in *. unfold step in E. cbn [eng disk held] in E.
  assert (Hdead : bool_decide (size (queues e) = 0%nat) && (gen e =? 0) = true -> gen e = 0) by (intros [_ ?%Z.eqb_eq]%andb_true_iff; done).
  destruct ev; try done; unfold SInv.
  - case_decide as Hr; [|done]. injection E as <- _. change (gen (fst (Connected cfg ci now e)) <> 0 -> split_ok (fst (Connected cfg ci now e))).
    destruct (failure e) as [er|] eqn:Hnf; [unfold Connected; rewrite Hnf; exact HS|]. intros _. split.
    + apply (pub_nodup (cfg := cfg) [] h). by apply (Connected_advances h e ci now I Hr).
    + eexists [], _. by apply (Connected_split h).
  - injection E as <- _. change (gen (Disconnected l e) <> 0 -> split_ok (Disconnected l e)). unfold Disconnected. destruct (decide _); [intros Hn; destruct (Hn eq_refl)|exact HS].
  - destruct (_ && _) eqn:Hq; [|done]. apply andb_true_iff in Hq as [Hq _]. pose proof (Discard_gen ans e a) as Hg.
    destruct (Discard cfg ans e a) as [[[e' a'] told] ok]. injection E as <- _. cbn [fst] in Hg. change (gen e' <> 0 -> split_ok e'). intros Hn. destruct Hn. by rewrite Hg, Hdead.
  - destruct (failure e); [|done]. destruct (load cfg a) as [[m recs]|]; [|done]. destruct (_ && _) eqn:Hq; [|done].
    destruct (Restore m recs e) as [e'|] eqn:Er; [|done]. injection E as <- _. change (gen e' <> 0 -> split_ok e').
    intros Hn. destruct Hn. by rewrite (Restore_gen _ _ _ _ Er), Hdead.
  - destruct (load cfg a) as [[m recs]|]; [|done]. destruct (Restore m recs New) as [e'|] eqn:Er; [|done]. injection E as <- _.
    change (gen e' <> 0 -> split_ok e'). intros Hn. destruct Hn. by rewrite (Restore_gen _ _ _ _ Er).
Qed.

Lemma reachable_SInv w : reachable cfg w -> SInv w.
Proof.
  induction 1 as [|w ev w' outs R IH E]; [done|]. apply (step_SInv w ev w' outs); [|done|done]. by apply reachable_WInv.
Qed.

(** ** The PUBLISHes of a connection *)

(** The flows whose PUBLISH a step sent. *)
Definition newly (e e' : Engine) : list flow :=
  filter (fun o => counted (get e' o) = true /\ counted (get e o) = false) (pub e').

Definition step_sendings (e e' : Engine) (outs : list output) : list sending :=
  zip_with (fun o it => mkSending o (get e o) it) (newly e e') (publishes outs).

Fixpoint sendings (evs : list event) (w : World) : list sending :=
  match evs with
  | [] => []
  | ev :: evs => match step cfg ev w with
                 | Some (w', outs) => step_sendings (eng w) (eng w') outs ++ sendings evs w'
                 | None => []
                 end
  end.

(** First the one with the lower number; never the same flow again. *)
Definition before (s t : sending) : Prop := sn_flow s <> sn_flow t /\ pubSeq (sn_as s) <= pubSeq (sn_as t).

Definition in_order (e : Engine) (o o' : flow) : Prop := o <> o' /\ pubSeq (get e o) <= pubSeq (get e o').

Lemma pub_in_order h e : Inv cfg [] h e -> StronglySorted (in_order e) (pub e).
Proof.
  intros I. pose proof (pub_nodup (cfg := cfg) [] h e I) as Hnd. destruct (inv_pub _ _ _ _ I) as [Hs Hp].
  assert (Hn : Forall (fun o => seq (get e o) = pubSeq (get e o)) (pub e)).
  { apply Forall_forall. intros o Ho. pose proof (proj1 (Forall_forall _ _) Hp o Ho) as Ha. cbv beta in Ha.
    destruct (member_live I o) as (f & Hf & _ & _ & Hw); [by apply elem_first|]. rewrite (get_lookup _ _ _ Hf) in *. by apply (wf_pub _ _ Hw). }
  clear Hp I. induction Hs as [|o l Hs IH Ho]; [constructor|]. apply NoDup_cons in Hnd as [Hno Hnd]. apply Forall_cons in Hn as [Eo Hn].
  constructor; [auto|]. apply Forall_forall. intros x Hx. split; [by intros ->|].
  pose proof (proj1 (Forall_forall _ _) Ho x Hx) as Hle. pose proof (proj1 (Forall_forall _ _) Hn x Hx) as Ex. unfold by_seq in Hle. cbv beta in Ex. lia.
Qed.

Lemma newly_parted e e' sent fl rest rest' :
  parted e sent rest -> parted e' (sent ++ fl) rest' -> sublist (fl ++ rest') rest -> newly e e' = fl.
Proof.
  intros [_ _ S R] [P' _ S' R'] Hs. unfold newly. rewrite P', !filter_app.
  apply Forall_app in S' as [_ S']. rewrite Forall_forall in *. 
  assert (H1 : filter (fun o => counted (get e' o) = true /\ counted (get e o) = false) sent = []).
  { apply list_filter_none. intros x Hx [_ Hc]. rewrite (S x Hx) in Hc. done. }
  assert (H2 : filter (fun o => counted (get e' o) = true /\ counted (get e o) = false) rest' = []).
  { apply list_filter_none. intros x Hx [Hc _]. rewrite (R' x Hx) in Hc. done. }
  rewrite H1, H2, app_nil_r. apply list_filter_all. intros x Hx. split; [by apply S'|].
  apply R, (sublist_subseteq _ _ Hs), elem_of_app. by left.
Qed.

(** A trace of the sendings of a connection so far. *)
Definition traced (tr : list sending) (e : Engine) : Prop := StronglySorted before tr /\ later tr e.

Lemma zip_items e fl its :
  Forall2 (carries e) fl its ->
  let tr := zip_with (fun o it => mkSending o (get e o) it) fl its in
  sn_flow <$> tr = fl /\ sn_item <$> tr = its /\ Forall (fun s => sn_as s = get e (sn_flow s) /\ carried (sn_as s) (sn_item s)) tr.
Proof. induction 1 as [|o it fl its Ho _ IH]; cbn; [done|]. destruct IH as (-> & -> & IH). split; [done|]. split; [done|]. by constructor. Qed.

Lemma before_in_order e tr :
  Forall (fun s => sn_as s = get e (sn_flow s)) tr -> StronglySorted (in_order e) (sn_flow <$> tr) -> StronglySorted before tr.
Proof.
  induction tr as [|s tr IH]; intros Ha Hs; [constructor|]. apply Forall_cons in Ha as [Es Ha]. apply StronglySorted_inv in Hs as [Hs Hh].
  constructor; [auto|]. apply Forall_forall. intros t Ht. unfold before. rewrite Es, (proj1 (Forall_forall _ _) Ha t Ht).
  apply (proj1 (Forall_forall _ _) Hh). apply list_elem_of_fmap. by exists t.
Qed.

(** [Collect] extends the trace. *)
Lemma Collect_traced h g upTo now e tr :
  Inv cfg [] h e -> (gen e <> 0 -> split_ok e) -> servesLocked g e = true -> traced tr e ->
  let e' := fst (Collect cfg g upTo now e) in
  let its := publishes (map Sent (snd (Collect cfg g upTo now e))) in
  let tr' := zip_with (fun o it => mkSending o (get e o) it) (newly e e') its in
  traced (tr ++ tr') e' /\ sn_item <$> tr' = its /\ Forall (fun s => carried (sn_as s) (sn_item s)) tr'.
Proof.
  intros I HS Sv [Hso [HF Hl]]. destruct (Collect_collected h g upTo now e I HS Sv) as (sent & rest & P & [_ _ (N & No & B) (fl & rest' & P' & Hsub & HC & _)]).
  cbn zeta. set (e' := fst (Collect cfg g upTo now e)) in *. rewrite (newly_parted e e' sent fl rest rest' P P' Hsub).
  destruct (zip_items e fl _ HC) as (H1 & H2 & H3). set (tr' := zip_with _ fl _) in *. split; [|split; [done|eapply Forall_impl; [exact H3|]; by intros ? []]].
  assert (Hin : forall o, o ∈ fl ++ rest' -> o ∈ pub e /\ counted (get e o) = false).
  { intros o Ho. apply (sublist_subseteq _ _ Hsub) in Ho. rewrite (pt_pub _ _ _ P). split; [apply elem_of_app; by right|].
    by apply (proj1 (Forall_forall _ _) (pt_rest _ _ _ P)). }
  assert (Hsf : StronglySorted (in_order e) (fl ++ rest')).
  { eapply StronglySorted_sublist; [exact Hsub|]. pose proof (pub_in_order h e I) as H. rewrite (pt_pub _ _ _ P) in H. by apply StronglySorted_app in H as (_ & _ & H). }
  assert (Hs : forall s, s ∈ tr' -> sn_as s = get e (sn_flow s) /\ sn_flow s ∈ fl).
  { intros s Hs. split; [by apply (proj1 (Forall_forall _ _) H3 s Hs)|]. rewrite <- H1. apply list_elem_of_fmap. by exists s. }
  apply StronglySorted_app in Hsf as (Hfr & Hfl & _). split.
  - apply StronglySorted_app_2; [|done|apply (before_in_order e); [eapply Forall_impl; [exact H3|]; by intros ? []|by rewrite H1]].
    intros s t Hst Ht. destruct (Hs t Ht) as [Et Hft]. unfold before. rewrite Et.
    destruct (Hin (sn_flow t) ltac:(apply elem_of_app; by left)) as [Hp Hc]. by apply (proj1 (Forall_forall _ _) (Hl _ Hp Hc)).
  - split.
    + apply Forall_app. rewrite No, N. split; [done|]. apply Forall_forall. intros s Hin'. destruct (Hs s Hin') as [-> Hf].
      destruct (Hin (sn_flow s) ltac:(apply elem_of_app; by left)) as [Hp _].
      destruct (member_live I (sn_flow s)) as (f & Hff & _ & _ & Hw); [by apply elem_first|]. rewrite (get_lookup _ _ _ Hff).
      split; [|pose proof (wf_seq _ _ Hw); lia]. by apply (inv_heap _ _ _ _ I _ f).
    + intros o Ho Hc. assert (Hr : o ∈ rest').
      { rewrite (pt_pub _ _ _ P') in Ho. apply elem_of_app in Ho as [Ho|Ho]; [|done].
        pose proof (proj1 (Forall_forall _ _) (pt_sent _ _ _ P') o Ho) as E. cbv beta in E. congruence. }
      destruct (Hin o ltac:(apply elem_of_app; by right)) as [Hp Hce]. rewrite B. apply Forall_app. split; [by apply Hl|].
      apply Forall_forall. intros s Hin'. destruct (Hs s Hin') as [-> Hf]. by apply (Hfr (sn_flow s) o).
Qed.

Lemma run_traced evs : forall w w' outs tr,
  WInv cfg w -> SInv w -> forallb same_connection evs = true -> traced tr (eng w) -> run cfg evs w = Some (w', outs) ->
  traced (tr ++ sendings evs w) (eng w') /\ sn_item <$> sendings evs w = publishes outs
  /\ Forall (fun s => carried (sn_as s) (sn_item s)) (sendings evs w).
Proof.
  induction evs as [|ev evs IH]; intros w w' outs tr W S Hsc T; cbn [run sendings]; [intros [= <- <-]; by rewrite app_nil_r|].
  cbn [forallb] in Hsc. apply andb_true_iff in Hsc as [Hev Hsc]. destruct (step cfg ev w) as [[w1 outs1]|] eqn:E; [|done].
  destruct (run cfg evs w1) as [[w2 outs2]|] eqn:E2; [|done]. intros [= <- <-].
  pose proof (step_WInv (cfg := cfg) w ev w1 outs1 W E) as W1. pose proof (step_SInv w ev w1 outs1 W S E) as S1.
  assert (H : traced (tr ++ step_sendings (eng w) (eng w1) outs1) (eng w1) /\ sn_item <$> step_sendings (eng w) (eng w1) outs1 = publishes outs1
              /\ Forall (fun s => carried (sn_as s) (sn_item s)) (step_sendings (eng w) (eng w1) outs1)).
  { unfold step_sendings. destruct (step_cases w ev w1 outs1 W Hev E) as [(d & [_ _ _ _ Tl _] & _ & Ho)|(g & upTo & now & -> & Sv & Ee & ->)].
    - rewrite Ho. rewrite zip_with_nil_r, app_nil_r. destruct T as [T1 T2]. split; [split; [done|by apply Tl]|done].
    - rewrite Ee. by apply (Collect_traced (held w) g upTo now (eng w) tr); [apply W| | |]. }
  destruct H as (H1 & H2 & H3). destruct (IH w1 w2 outs2 _ W1 S1 Hsc H1 E2) as (K1 & K2 & K3).
  rewrite <- app_assoc in K1. split; [done|]. split; [|by apply Forall_app]. rewrite fmap_app, H2, K2. unfold publishes. by rewrite omap_app.
Qed.

(** An acknowledgement answers a PUBLISH of the connection when it ends the
    exchange of a flow of [fl], those whose PUBLISH went out on it. *)
Definition answers (fl : list flow) (ev : event) (e e' : Engine) : Z :=
  match ack_id ev with
  | Some id => match out e !! id with
               | Some o => if bool_decide (o ∈ fl /\ out e' !! id = None) then 1 else 0
               | None => 0
               end
  | None => 0
  end.

(** The PUBLISHes of the connection answered along a run. *)
Fixpoint answered (fl : list flow) (evs : list event) (w : World) : Z :=
  match evs with
  | [] => 0
  | ev :: evs => match step cfg ev w with
                 | Some (w', outs) => answers fl ev (eng w) (eng w')
                                      + answered (fl ++ (sn_flow <$> step_sendings (eng w) (eng w') outs)) evs w'
                 | None => 0
                 end
  end.

(** Every flow that took a unit of the quota had its PUBLISH sent. *)
Definition known (fl : list flow) (e : Engine) : Prop := forall o, owing e o -> o ∈ fl.

Lemma answers_nonneg fl ev e e' : 0 <= answers fl ev e e'.
Proof. unfold answers. repeat case_match; lia. Qed.

Lemma gives_answers fl d ev e e' : known fl e -> gives d ev e e' -> 0 <= d <= answers fl ev e e'.
Proof.
  intros K [->|(-> & id & o & Ha & Ho & Hw & Ho')]; [pose proof (answers_nonneg fl ev e e'); lia|].
  unfold answers. rewrite Ha, Ho, bool_decide_eq_true_2; [lia|]. auto.
Qed.

(** The account of one step. *)
Lemma step_account fl w ev w' outs :
  WInv cfg w -> SInv w -> known fl (eng w) -> same_connection ev = true -> step cfg ev w = Some (w', outs) ->
  known (fl ++ (sn_flow <$> step_sendings (eng w) (eng w') outs)) (eng w')
  /\ quota (eng w') + len (publishes outs) <= quota (eng w) + answers fl ev (eng w) (eng w').
Proof.
  intros W HS K Hsc E. destruct (step_cases w ev w' outs W Hsc E) as [(d & [Hq _ _ _ _ Tk] & Hd & Ho)|(g & upTo & now & -> & Sv & Ee & ->)].
  - pose proof (gives_answers fl d ev _ _ K Hd). rewrite Ho. change (len (@nil item)) with 0. split; [|lia].
    intros o Hw. apply elem_of_app. left. by apply K, Tk.
  - destruct (Collect_collected (held w) g upTo now (eng w) (wi_inv _ _ W) HS Sv) as (sent & rest & P & [Q _ _ (fl' & rest' & P' & Hsub & HC & HO)]).
    rewrite <- Ee in *. unfold step_sendings. rewrite (newly_parted _ _ sent fl' rest rest' P P' Hsub).
    destruct (zip_items _ fl' _ HC) as (-> & _). pose proof (answers_nonneg fl (EvCollect g upTo now) (eng w) (eng w')).
    split; [|lia]. intros o [Hw%K|Hin]%HO; apply elem_of_app; [by left|by right].
Qed.

Lemma run_account evs : forall fl w w' outs,
  WInv cfg w -> SInv w -> known fl (eng w) -> forallb same_connection evs = true -> run cfg evs w = Some (w', outs) ->
  quota (eng w') + len (publishes outs) <= quota (eng w) + answered fl evs w.
Proof.
  induction evs as [|ev evs IH]; intros fl w w' outs W S K Hsc; cbn [run answered].
  { intros [= <- <-]. change (len (publishes [])) with 0. lia. }
  cbn [forallb] in Hsc. apply andb_true_iff in Hsc as [Hev Hsc]. destruct (step cfg ev w) as [[w1 outs1]|] eqn:E; [|done].
  destruct (run cfg evs w1) as [[w2 outs2]|] eqn:E2; [|done]. intros [= <- <-]. destruct (step_account fl w ev w1 outs1 W S K Hev E) as (K1 & H).
  pose proof (IH _ w1 w2 outs2 (step_WInv (cfg := cfg) w ev w1 outs1 W E) (step_SInv w ev w1 outs1 W S E) K1 Hsc E2).
  unfold publishes in *. rewrite omap_app, len_app. lia.
Qed.

(** A new connection starts with every unit of its quota. *)
Lemma Connected_known h ci now e :
  Inv cfg [] h e -> 0 <= ci_ReceiveMaximum ci -> failure e = None -> known [] (fst (Connected cfg ci now e)).
Proof.
  intros I Hr Hnf o [Hc Hfin]. exfalso. destruct (Connected_advances h e ci now I Hr) as [I' _]. destruct (Connected_quota ci now e Hnf) as (H1 & H2 & _).
  set (e' := fst (Connected cfg ci now e)) in *. destruct (inv_quota _ _ _ _ I') as [_ Hq].
  destruct (flows e' !! o) as [f|] eqn:Hf; [|unfold get in Hc; by rewrite Hf in Hc]. rewrite (get_lookup _ _ _ Hf) in Hfin.
  assert (H0 : cnt e' (pub e' ++ rel e' ++ []) <= 0) by lia. pose proof (proj1 (Forall_forall _ _) (cnt_none e' _ H0) o (live_member I' o f Hf Hfin)) as Hn. cbv beta in Hn. congruence.
Qed.
End ops.

(** C6: the Receive Maximum holds. Counted from the CONNACK on, at any moment
    of a connection, the PUBLISHes with QoS above 0 that went out on it and
    were not answered are at most the server's Receive Maximum. A PUBLISH is
    answered by the PUBACK, the PUBREC with a failure or the PUBCOMP that ends
    the exchange of a flow whose PUBLISH went out on this same connection: an
    exchange that an earlier connection began and this one only completes
    makes no room, and neither do withdrawn and expired messages. *)
Theorem receive_maximum cfg w ci now w1 o1 evs w2 outs :
  reachable cfg w -> failure (eng w) = None -> step cfg (EvConnected ci now) w = Some (w1, o1) ->
  forallb same_connection evs = true -> run cfg evs w1 = Some (w2, outs) ->
  sn_item <$> sendings (cfg := cfg) evs w1 = publishes outs
  /\ len (publishes outs) - answered (cfg := cfg) [] evs w1 <= receive_max ci.
Proof.
  intros R Hnf E Hsc Er. assert (R1 : reachable cfg w1) by (by apply (reach_step cfg w (EvConnected ci now) w1 o1)).
  pose proof (reachable_WInv cfg w1 R1) as W1. pose proof (reachable_SInv w1 R1) as S1. split.
  { destruct (run_traced (cfg := cfg) evs w1 w2 outs [] W1 S1 Hsc) as (_ & H & _); [|done|done].
    split; [constructor|]. split; [constructor|]. intros. constructor. }
  pose proof (proj1 (inv_quota _ _ _ _ (wi_inv _ _ (reachable_WInv cfg w2 (run_reachable cfg evs w1 w2 outs R1 Er))))) as Hq.
  destruct (Connected_quota (cfg := cfg) ci now (eng w) Hnf) as (Eq & _). cbn [step] in E. case_decide as Hr; [|done]. injection E as <- _.
  pose proof (run_account (cfg := cfg) evs [] _ w2 outs W1 S1
                (Connected_known (held w) ci now (eng w) (wi_inv _ _ (reachable_WInv cfg w R)) Hr Hnf) Hsc Er) as H.
  change (quota (eng (w <| eng := fst (Connected cfg ci now (eng w)) |>))) with (quota (fst (Connected cfg ci now (eng w)))) in H. lia.
Qed.

(** C5: PUBLISHes go out in order, once per connection. From the CONNACK on,
    the PUBLISHes a connection is given are those of distinct flows, in the
    order in which the messages were registered, each with the message's
    packet (its expiry interval reduced to what is left, on a first attempt)
    and DUP set just when it was attempted before. *)
Theorem publish_order cfg w ci now w1 o1 evs w2 outs :
  reachable cfg w -> step cfg (EvConnected ci now) w = Some (w1, o1) -> forallb same_connection evs = true -> run cfg evs w1 = Some (w2, outs) ->
  let tr := sendings (cfg := cfg) evs w1 in
  sn_item <$> tr = publishes outs /\ StronglySorted before tr /\ Forall (fun s => carried (sn_as s) (sn_item s)) tr.
Proof.
  intros R E Hsc Er. assert (R1 : reachable cfg w1) by (by apply (reach_step cfg w (EvConnected ci now) w1 o1)).
  destruct (run_traced (cfg := cfg) evs w1 w2 outs [] (reachable_WInv cfg w1 R1) (reachable_SInv w1 R1) Hsc) as ([H1 _] & H2 & H3); [|done|done].
  split; [constructor|]. split; [constructor|]. intros. constructor.
Qed.

(** ** A connection that allows one PUBLISH at a time *)

Definition narrow : ConnInfo := mkConnInfo true 1 None 7 false.
Definition narrow_start : World := default start (fst <$> run sample_cfg (take 8 sample_events) start).
Definition narrow_world : World := default start (fst <$> step sample_cfg (EvConnected narrow 0) narrow_start).
Definition narrow_events : list event := [EvCollect 1 0 0; EvPuback 1 0 None; EvCollect 1 0 0].
Definition narrow_end : World := default start (fst <$> run sample_cfg narrow_events narrow_world).

Lemma narrow_reachable : reachable sample_cfg narrow_start.
Proof. apply (run_reachable sample_cfg (take 8 sample_events) start narrow_start []); [constructor|]. vm_compute. reflexivity. Qed.

Lemma receive_maximum_witness :
  let outs := [Sent (IPublish [50; 5; 0; 1; 97; 0; 1] false); Sent (IPublish [52; 5; 0; 1; 98; 0; 2] false)] in
  run sample_cfg narrow_events narrow_world = Some (narrow_end, outs) /\ answered (cfg := sample_cfg) [] narrow_events narrow_world = 1
  /\ len (publishes outs) - answered (cfg := sample_cfg) [] narrow_events narrow_world <= receive_max narrow.
Proof.
  intros outs. assert (E : run sample_cfg narrow_events narrow_world = Some (narrow_end, outs)) by (vm_compute; reflexivity).
  split; [exact E|]. split; [reflexivity|].
  exact (proj2 (receive_maximum sample_cfg narrow_start narrow 0 narrow_world [] narrow_events narrow_end outs narrow_reachable
           ltac:(vm_compute; reflexivity) ltac:(vm_compute; reflexivity) eq_refl E)).
Defined.

Lemma publish_order_witness :
  sn_flow <$> sendings (cfg := sample_cfg) narrow_events narrow_world = [0%nat; 1%nat]
  /\ StronglySorted before (sendings (cfg := sample_cfg) narrow_events narrow_world).
Proof.
  split; [vm_compute; reflexivity|].
  refine (proj1 (proj2 (publish_order sample_cfg narrow_start narrow 0 narrow_world [] narrow_events narrow_end _ narrow_reachable
           ltac:(vm_compute; reflexivity) eq_refl _))). vm_compute. reflexivity.
Defined.

End Sending.
