(* ===== verification/Inbound.v ===== *)
(** * Inbound: what the broker is told about the messages it sent

    The inbound half of the engine: which messages are under way, which
    acknowledgements are owed for them, and that a QoS 2 message whose
    PUBREC went out is not delivered again, over reconnects and restarts,
    until the broker released it. *)

From stdpp Require Import gmap sorting list_tactics.
From S2P Require Import Prelude GoLib Errors Batch IdTable Session Inflight Machine EngineInv Footprint EngineConn Restart Durable EngineSafety.

Module Inbound.
Import Inflight Machine EngineInv Footprint EngineConn Restart Durable EngineSafety.

(** ** Outbound operations leave it alone *)

Lemma si_view e e' : books e e' -> same_in e e'.
Proof. apply books_same_in. Qed.

Lemma si_modify o g e : same_in e (modify o g e).
Proof. by split. Qed.

Lemma si_enqueue id ow w e : same_in e (queueLocked (outKey id) ow w e).
Proof. split; try done. intros k Hk. rewrite queue_queueLocked, decide_False; [done|]. by intros ->. Qed.

Lemma si_cancel id ow e : same_in e (cancelLocked (outKey id) ow e).
Proof.
  unfold cancelLocked. destruct (queue e (outKey id)) as [|j q]; [done|]. split; try done. intros k Hk. unfold queue. es.
  by rewrite lookup_insert_ne by (by intros <-).
Qed.

Lemma si_pop id e : same_in e (pop_head (outKey id) e).
Proof.
  pose proof (queue_pop (outKey id) e) as Hq. rewrite pop_eq in *. split; try done. intros k Hk. rewrite Hq, decide_False; [done|]. by intros ->.
Qed.

Lemma si_unlink o e : same_in e (unlinkLocked o e).
Proof. destruct (unlink_eq o e) as [c ->]. by split. Qed.

Lemma si_finish o err e : same_in e (finishLocked o err e).
Proof. destruct (finish_eq o err e) as [rs ->]. by split. Qed.

Lemma si_credit o e : same_in e (creditLocked o e).
Proof. unfold creditLocked. by destruct (counted _). Qed.

Lemma si_settle o e : same_in e (settleLocked o e).
Proof. unfold settleLocked. etransitivity; [|apply si_enqueue]. apply si_modify. Qed.

Section ops.
Context {cfg : Config}.
Implicit Types (h : gset Z) (e : Engine) (o : flow) (a : contents).

Lemma si_putOut o e : same_in e (putOutLocked cfg o e).
Proof. unfold putOutLocked. destruct (hasStore cfg); [apply si_enqueue|done]. Qed.

Lemma si_complete o e : same_in e (completeLocked cfg o e).
Proof.
  unfold completeLocked. destruct (_ || _); [done|]. destruct (encodeOutcome _) as [oc|]; [|done].
  etransitivity; [|apply si_putOut]. apply si_modify.
Qed.

Lemma si_retire o e : same_in e (retireLocked cfg o e).
Proof.
  unfold retireLocked. destruct (negb _).
  - transitivity (e <| orphans ::= <[ref (get e o) := o]> |>); [by split|]. destruct (settle _); [apply si_settle|apply si_complete].
  - destruct (_ && _); [by split|apply si_settle].
Qed.

Lemma si_drop o err e : same_in e (retireLocked cfg o (finishLocked o err (unlinkLocked o e))).
Proof. etransitivity; [|apply si_retire]. etransitivity; [|apply si_finish]. apply si_unlink. Qed.

Lemma si_ended o err e e1 : same_in e e1 -> same_in e (retireLocked cfg o (creditLocked o (finishLocked o err e1))).
Proof. intros H. etransitivity; [|apply si_retire]. etransitivity; [|apply si_credit]. etransitivity; [|apply si_finish]. done. Qed.

Lemma si_Register m now e : same_in e (fst (Register cfg m now e)).
Proof.
  unfold Register. destruct (failure e); [by split|]. cbn zeta. unfold new_flow. cbn [fst].
  match goal with |- context [if hasStore cfg then queueLocked _ _ _ ?x else _] => set (e1 := x) end.
  assert (H : same_in e e1) by (unfold e1; repeat case_match; by split). destruct (hasStore cfg); [|done]. etransitivity; [exact H|apply si_enqueue].
Qed.

Lemma si_Withdraw o e : same_in e (fst (Withdraw cfg o e)).
Proof. unfold Withdraw. destruct (_ || _); [done|]. apply si_drop. Qed.

Lemma si_Adopt r s e : same_in e (fst (Adopt r s e)).
Proof.
  unfold Adopt. destruct (refs e !! r); [apply si_modify|]. destruct (orphans e !! r) as [o|]; [|done]. cbn [fst].
  transitivity (modify o (fun f => f <| settle := s |>) e); [apply si_modify|]. destruct (settling _); [apply si_modify|apply si_settle].
Qed.

Lemma si_Puback id rc rf e : same_in e (fst (HandlePuback cfg id rc rf e)).
Proof.
  unfold HandlePuback. destruct (failure e); [done|]. destruct (out e !! id); [|done]. destruct (_ || _); [done|]. cbn [fst].
  apply si_ended. case_bool_decide; [etransitivity; [apply si_unlink|apply si_modify]|apply si_unlink].
Qed.

Lemma si_Pubcomp id e : same_in e (fst (HandlePubcomp cfg id e)).
Proof.
  unfold HandlePubcomp. destruct (failure e); [done|]. destruct (out e !! id); [|done]. destruct (negb _); [done|]. cbn [fst].
  apply si_ended, si_unlink.
Qed.

Lemma si_Pubrec id rc rf e : same_in e (fst (HandlePubrec cfg id rc rf e)).
Proof.
  unfold HandlePubrec. destruct (failure e); [done|]. destruct (out e !! id) as [o|]; [|apply si_view, books_pubrel].
  destruct (_ || _); [done|]. destruct (_ =? _); [apply si_view, books_pubrel|]. case_bool_decide; cbn [fst].
  - apply si_ended. etransitivity; [apply si_unlink|apply si_modify].
  - etransitivity; [|apply si_putOut]. etransitivity; [|apply si_view, books_pubrel]. etransitivity; [apply (si_unlink o)|].
    match goal with |- context [modify o ?g ?x] => transitivity (modify o g x); [apply si_modify|] end. by split.
Qed.

Lemma si_lose_flow now e o : same_in e (lose_flow cfg now e o).
Proof.
  unfold lose_flow. match goal with |- context [match ?g with Some _ => _ | None => _ end] => destruct g as [err|] end.
  - etransitivity; [|apply si_retire]. apply si_finish.
  - etransitivity; [|apply si_putOut]. destruct (expiresAt _); by split.
Qed.

Lemma si_limit_flow l fr e o : same_in e (limit_flow cfg l fr e o).
Proof.
  unfold limit_flow. cbn zeta. destruct (_ && attempted _); [done|]. destruct (_ && _); [apply si_drop|]. destruct (_ && negb _); [apply si_drop|].
  destruct (_ && Downgrade l && _); [|destruct (_ <? _); [apply si_drop|done]]. etransitivity; [|apply si_putOut]. apply si_modify.
Qed.

Lemma si_loop l e e' its : loop_run cfg l e e' its -> same_in e e'.
Proof.
  induction 1 as [| | | |]; try done.
  - etransitivity; [|eassumption]. by split.
  - etransitivity; [|eassumption]. by split.
  - etransitivity; [apply (si_drop o (Some ErrMessageExpired))|eassumption].
  - etransitivity; [|apply si_putOut]. by split.
Qed.

Lemma si_register_failed o e : same_in e (register_failed o e).
Proof.
  unfold register_failed. cbn zeta. transitivity (cancelLocked (outKey (o_id (get e o))) (OwnOut o) e); [apply si_cancel|].
  etransitivity; [apply (si_unlink o)|]. repeat case_match; by split.
Qed.

Lemma si_after w o ep res r e : same_in e (fst (after cfg (mkJob w (OwnOut o) ep res) r e)).
Proof.
  unfold after. cbn [j_work j_owner]. destruct w as [r0|r0|s oc rf| |]; try (by destruct r).
  - destruct r; [done|apply si_register_failed..].
  - set (e1 := modify o (fun f => f <| settling := false |>) e). assert (H1 : same_in e e1) by apply si_modify. cbn zeta.
    assert (Hrest : forall e2, same_in e e2 -> same_in e (settleLocked o (modify o (fun f => f <| adopted := false |>) e2))).
    { intros e2 H2. etransitivity; [exact H2|]. etransitivity; [apply si_modify|apply si_settle]. }
    destruct r; [| |exact H1]; destruct (adopted _); cbn [fst]; try (apply Hrest); try done.
    + etransitivity; [exact H1|]. destruct (_ && _); by split.
    + etransitivity; [exact H1|apply si_complete].
    + etransitivity; [exact H1|]. etransitivity; [apply (si_complete o)|apply si_modify].
Qed.

(** ** The invariant *)

Definition in_record (k : RecordKey) : SRecord := mkRecord k 0 0 0 2 AwaitPubrel [] None [].

(** The flow under identifier [id], and its state. *)
Definition inbound (e : Engine) (id : Z) (i : inflow) (x : In) : Prop := inb e !! id = Some i /\ ins e !! i = Some x.

(** What a queued acknowledgement stands for. *)
Inductive frame_ok (e : Engine) (c : ctrlFrame) : Prop :=
| fr_puback i x : c_typ c = PUBACK -> c_gated c = false -> c_in c = Some i -> inbound e (c_id c) i x ->
    state x = inAcked -> in_qos x = 1 -> i ∉ fifo e -> frame_ok e c
| fr_pubrec i x : c_typ c = PUBREC -> c_gated c = true -> c_in c = None -> inbound e (c_id c) i x ->
    state x = inAwaitPubrel \/ state x = inReleased -> frame_ok e c
| fr_pubcomp i x : c_typ c = PUBCOMP -> c_gated c = true -> c_in c = Some i -> inbound e (c_id c) i x ->
    state x = inReleased -> frame_ok e c
| fr_unknown : c_typ c = PUBCOMP -> c_gated c = false -> c_in c = None -> frame_ok e c.

(** After the frame that ends an exchange, only a PUBCOMP "packet identifier
    not found" may name its identifier. *)
Definition follows (c d : ctrlFrame) : Prop := is_Some (c_in c) -> c_id d = c_id c -> c_typ d = PUBCOMP /\ c_in d = None.

(** The queue leaves the record under [k] in the store. *)
Definition in_saved (a : contents) (q : list job) (k : RecordKey) : Prop :=
  match last q with
  | None => on_disk a (in_record k)
  | Some j => j_work j = PutIn /\ (j_result j = Some DoOk -> on_disk a (in_record k))
  end.

(** In the order of arrival, delivered or waiting for an earlier one. *)
Definition waiting (e : Engine) (i : inflow) : Prop :=
  exists x, inbound e (in_id x) i x /\ (state x = inDelivered \/ state x = inAcked) /\ (in_qos x = 1 \/ in_qos x = 2).

Record IInv (a : contents) (e : Engine) : Prop := {
  ii_inb id i : inb e !! id = Some i -> (i < nextIn e)%nat /\ exists x, ins e !! i = Some x /\ in_id x = id;
  ii_fifo : StronglySorted lt (fifo e) /\ Forall (waiting e) (fifo e);
  ii_ctrl : Forall (frame_ok e) (in_ctrl (ctrl e)) /\ StronglySorted follows (in_ctrl (ctrl e));
  ii_saved id i x : hasStore cfg = true -> inbound e id i x -> state x = inAwaitPubrel -> in_saved a (queue e (inKey id)) (inKey id);
  ii_epoch k j : failure e = None -> Dir k <> Outbound -> j ∈ queue e k -> j_epoch j = epoch e;
  ii_disk k r : Dir k <> Outbound -> disk_at a k = Some r -> r = in_record k;
  ii_failed : failure e <> None -> inb e = ∅ /\ fifo e = [] /\ in_ctrl (ctrl e) = [];
}.

Lemma frame_same e e' c : inb e' = inb e -> ins e' = ins e -> fifo e' = fifo e -> frame_ok e c -> frame_ok e' c.
Proof.
  intros H1 H2 H3 H. assert (E : forall id i x, inbound e id i x -> inbound e' id i x) by (unfold inbound; by rewrite H1, H2).
  destruct H as [i x|i x|i x|]; [apply (fr_puback _ _ i x)|apply (fr_pubrec _ _ i x)|apply (fr_pubcomp _ _ i x)|apply fr_unknown]; rewrite ?H3; auto.
Qed.

Lemma IInv_same a e e' : same_in e e' -> IInv a e -> IInv a e'.
Proof.
  intros [H1 H2 H3 H4 H5 H6 H7 H8] []. split; rewrite ?H1, ?H2, ?H3, ?H4, ?H5, ?H6, ?H7; try done.
  - destruct ii_fifo0 as [S F]. split; [done|]. eapply Forall_impl; [exact F|]. intros i. unfold waiting, inbound. by rewrite H1, H3.
  - destruct ii_ctrl0 as [F S]. split; [|done]. eapply Forall_impl; [exact F|]. intros c. by apply frame_same.
  - intros id i x. unfold inbound. rewrite H1, H3, H8 by done. by apply ii_saved0.
  - intros k j Hf Hk. rewrite H8 by done. by apply ii_epoch0.
Qed.

(** ** Queueing *)

Lemma in_ctrl_app l c : c_typ c <> PUBREL -> in_ctrl (l ++ [c]) = in_ctrl l ++ [c].
Proof. intros H. unfold in_ctrl. rewrite filter_app. f_equal. by rewrite filter_cons_True. Qed.

Lemma IInv_push a c e :
  IInv a e -> failure e = None -> frame_ok e c -> c_typ c <> PUBREL -> (forall d, d ∈ in_ctrl (ctrl e) -> follows d c) ->
  IInv a (e <| ctrl ::= fun l => l ++ [c] |>).
Proof.
  intros [] Hnf Hc Ht Hf. split; try done.
  - cbn [ctrl set]. destruct ii_ctrl0 as [F S]. change (ctrl (e <| ctrl ::= fun l => l ++ [c] |>)) with (ctrl e ++ [c]). rewrite in_ctrl_app by done. split.
    + apply Forall_app. split; [eapply Forall_impl; [exact F|]; intros d; by apply frame_same|]. apply Forall_singleton. by apply (frame_same e).
    + apply StronglySorted_app_2; [|done|repeat constructor]. intros d c' Hd ->%list_elem_of_singleton. by apply Hf.
Qed.

Lemma IInv_queue a id ow w e :
  IInv a e -> (forall i x, inbound e id i x -> state x <> inAwaitPubrel) -> IInv a (queueLocked (inKey id) ow w e).
Proof.
  intros [] Hno. split; try done.
  - destruct ii_ctrl0 as [F S]. split; [|done]. eapply Forall_impl; [exact F|]. intros c. by apply frame_same.
  - intros id' i x Hs Hi Hx. rewrite queue_queueLocked. case_decide as E; [|by apply (ii_saved0 id' i x)]. injection E as ->.
    by destruct (Hno i x Hi).
  - intros k j Hf Hk. rewrite queue_queueLocked. case_decide; [subst k|by apply ii_epoch0]. intros [Hj|Hj]%elem_of_app; [by apply (ii_epoch0 (inKey id))|].
    apply list_elem_of_singleton in Hj as ->. done.
Qed.

(** ** The operations *)

Lemma inbound_eq e id i x i' x' : inbound e id i x -> inbound e id i' x' -> i' = i /\ x' = x.
Proof. unfold inbound. intros [H1 H2] [H3 H4]. split; congruence. Qed.

(** The exchange a last frame ends. *)
Lemma final_frame e c i :
  frame_ok e c -> c_in c = Some i ->
  exists x, inbound e (c_id c) i x /\ ((state x = inAcked /\ in_qos x = 1 /\ i ∉ fifo e) \/ state x = inReleased).
Proof.
  intros [j x _ _ E Hb|j x _ _ E Hb|j x _ _ E Hb|_ _ E] Hi; rewrite E in Hi; try done; injection Hi as ->; exists x; auto.
Qed.

Lemma follows_open e d c i x :
  frame_ok e d -> inbound e (c_id c) i x -> ~ ((state x = inAcked /\ in_qos x = 1 /\ i ∉ fifo e) \/ state x = inReleased) -> follows d c.
Proof.
  intros Hd Hi Hn [i' Hi'] E. destruct (final_frame e d i' Hd Hi') as (x' & Hx & Hs). rewrite <- E in Hx.
  destruct (inbound_eq _ _ _ _ _ _ Hi Hx) as [-> ->]. contradiction.
Qed.

Lemma inbound_modify e i x s id j y :
  ins e !! i = Some x -> inbound (modify_in i (fun f => f <| state := s |>) e) id j y ->
  (j <> i /\ inbound e id j y) \/ (j = i /\ inb e !! id = Some i /\ y = x <| state := s |>).
Proof.
  intros Hx [H1 H2]. change (inb e !! id = Some j) in H1. change (alter (fun f => f <| state := s |>) i (ins e) !! j = Some y) in H2.
  destruct (decide (j = i)) as [->|Hne]; [rewrite lookup_alter_eq, Hx in H2; injection H2 as <-; by right|].
  rewrite lookup_alter_ne in H2 by done. by left.
Qed.

Lemma inbound_modify_ne e i g id j y : j <> i -> inbound e id j y -> inbound (modify_in i g e) id j y.
Proof. intros Hne [H1 H2]. split; [done|]. change (alter g i (ins e) !! j = Some y). by rewrite lookup_alter_ne. Qed.

Lemma inbound_modify_eq e i g id y : inbound e id i y -> inbound (modify_in i g e) id i (g y).
Proof. intros [H1 H2]. split; [done|]. change (alter g i (ins e) !! i = Some (g y)). by rewrite lookup_alter_eq, H2. Qed.

(** A flow goes on to state [s]; the order of arrival becomes [l]. *)
Lemma IInv_move a e i x s p l :
  IInv a e -> ins e !! i = Some x -> fifo e = p ++ l -> (i ∈ l -> s = inAcked) ->
  state x = inDelivered \/ (state x = inAcked /\ in_qos x <> 1) \/ (state x = inAwaitPubrel /\ s = inReleased) ->
  (s = inAwaitPubrel -> hasStore cfg = true -> forall id, inb e !! id = Some i -> in_saved a (queue e (inKey id)) (inKey id)) ->
  IInv a (modify_in i (fun f => f <| state := s |>) e <| fifo := l |>).
Proof.
  intros [] Hx El Hl Hm Hsv. set (g := fun f : In => f <| state := s |>). split; try done.
  - intros id j Hj. destruct (ii_inb0 id j Hj) as (Hlt & y & Hy & Hid). split; [done|]. change (exists x', alter g i (ins e) !! j = Some x' /\ in_id x' = id).
    destruct (decide (j = i)) as [->|Hne]; [rewrite lookup_alter_eq, Hy|rewrite lookup_alter_ne by done]; eexists; (split; [done|]); done.
  - change (StronglySorted lt l /\ Forall (waiting (modify_in i g e)) l). destruct ii_fifo0 as [S F]. rewrite El in S, F.
    apply StronglySorted_app in S as (_ & _ & S). apply Forall_app in F as [_ F]. split; [done|]. apply Forall_forall. intros j Hj.
    destruct (proj1 (Forall_forall _ _) F j Hj) as (y & Hy & Hst & Hq). destruct (decide (j = i)) as [->|Hne].
    + exists (g y). split; [by apply (inbound_modify_eq e i g (in_id y))|]. split; [right; by apply Hl|done].
    + exists y. split; [by apply inbound_modify_ne|done].
  - destruct ii_ctrl0 as [F S]. split; [|done]. eapply Forall_impl; [exact F|]. intros c Hc.
    assert (Hout : forall j y, inbound e (c_id c) j y -> j <> i -> inbound (modify_in i g e <| fifo := l |>) (c_id c) j y)
      by (intros; by apply (inbound_modify_ne e i g)).
    assert (Hsame : forall j y, inbound e (c_id c) j y -> j = i -> y = x) by (intros j y [_ Hy] ->; congruence).
    destruct Hc as [j y ? ? ? Hi Hs Hq Hn|j y ? ? ? Hi Hs|j y ? ? ? Hi Hs|]; [| | |by apply fr_unknown].
    + apply (fr_puback _ _ j y); try done; [|intros Hin; apply Hn; rewrite El; apply elem_of_app; by right]. apply Hout; [done|]. intros ->.
      assert (y = x) as -> by (by apply (Hsame i)). destruct Hm as [Hm|[[Hm Hq']|[Hm _]]]; congruence.
    + destruct (decide (j = i)) as [->|Hne]; [|apply (fr_pubrec _ _ j y); auto]. assert (y = x) as -> by (by apply (Hsame i)).
      apply (fr_pubrec _ _ i (g x)); try done; [apply (inbound_modify_eq e i g _ _ Hi)|]. right.
      destruct Hm as [Hm|[[Hm _]|[_ ->]]]; [destruct Hs; congruence..|done].
    + apply (fr_pubcomp _ _ j y); try done. apply Hout; [done|]. intros ->. assert (y = x) as -> by (by apply (Hsame i)).
      destruct Hm as [Hm|[[Hm _]|[Hm _]]]; congruence.
  - intros id j y Hs Hi Hy. destruct (inbound_modify e i x s id j y Hx Hi) as [[_ Ho]|(-> & Hb & ->)]; [by apply (ii_saved0 id j y)|].
    by apply Hsv.
  - intros Hf. destruct (ii_failed0 Hf) as (H1 & H2 & H3). rewrite H2 in El. symmetry in El. by apply app_eq_nil in El as [_ ->].
Qed.

Lemma IInv_Receive a id q e : IInv a e -> q = 1 \/ q = 2 -> IInv a (fst (Receive cfg id q e)).
Proof.
  intros I Hq. unfold Receive. destruct (failure e) eqn:Hnf; [done|]. destruct (inb e !! id) as [i|] eqn:Hi.
  - destruct (_ && _) eqn:Hc; [|done]. apply andb_true_iff in Hc as [Hs _]. apply bool_decide_eq_true in Hs.
    destruct (ii_inb _ _ I id i Hi) as (_ & x & Hx & Hid). unfold get_in in Hs. rewrite Hx in Hs. cbn in Hs.
    assert (Hb : inbound e id i x) by done. apply IInv_push; try done.
    + by apply (fr_pubrec _ _ i x); auto.
    + intros d Hd. apply (follows_open e d _ i x); [by apply (proj1 (Forall_forall _ _) (proj1 (ii_ctrl _ _ I)))|done|]. rewrite Hs. intros [[? _]|?]; done.
  - destruct (_ && _); [done|]. unfold new_in. cbn [fst]. destruct I. set (i := nextIn e). set (x := mkIn id q inDelivered false).
    match goal with |- IInv a ?z => set (e' := z) end.
    assert (Hb : forall id' j y, inbound e id' j y -> inbound e' id' j y).
    { intros id' j y [H1 H2]. destruct (ii_inb0 id' j H1) as (Hlt & _). split.
      - change (<[id := i]> (inb e) !! id' = Some j). rewrite lookup_insert_ne; [done|]. congruence.
      - change (<[i := x]> (ins e) !! j = Some y). rewrite lookup_insert_ne; [done|]. unfold i. lia. }
    assert (Hn : inbound e' id i x).
    { split; [change (<[id := i]> (inb e) !! id = Some i)|change (<[i := x]> (ins e) !! i = Some x)]; by rewrite lookup_insert_eq. }
    assert (Hinv : forall id' j y, inbound e' id' j y -> (id' = id /\ j = i /\ y = x) \/ inbound e id' j y).
    { intros id' j y [H1 H2]. change (<[id := i]> (inb e) !! id' = Some j) in H1. change (<[i := x]> (ins e) !! j = Some y) in H2.
      apply lookup_insert_Some in H1 as [[<- <-]|[Hne H1]]; [rewrite lookup_insert_eq in H2; left; by injection H2 as <-|].
      destruct (ii_inb0 id' j H1) as (Hlt & _). rewrite lookup_insert_ne in H2 by (unfold i; lia). by right. }
    destruct ii_fifo0 as [S F]. assert (Hlt : forall j, j ∈ fifo e -> (j < i)%nat).
    { intros j Hj. destruct (proj1 (Forall_forall _ _) F j Hj) as (y & [Hy _] & _). by apply (ii_inb0 (in_id y)). }
    split; try done.
    + intros id' j Hj. change (<[id := i]> (inb e) !! id' = Some j) in Hj. change (nextIn e') with (Datatypes.S i).
      apply lookup_insert_Some in Hj as [[<- <-]|[Hne Hj]]; [split; [lia|]; exists x; by destruct Hn|].
      destruct (ii_inb0 id' j Hj) as (Hl & y & Hy & Hid). split; [unfold i; lia|]. exists y. split; [|done]. by destruct (Hb id' j y).
    + change (fifo e') with (fifo e ++ [i]). split.
      * apply StronglySorted_app_2; [|done|repeat constructor]. intros j j' Hj ->%list_elem_of_singleton. by apply Hlt.
      * apply Forall_app. split; [|apply Forall_singleton; exists x; auto]. eapply Forall_impl; [exact F|]. intros j (y & Hy & Hr).
        exists y. split; [by apply Hb|done].
    + destruct ii_ctrl0 as [Fc Sc]. split; [|done]. eapply Forall_impl; [exact Fc|]. intros c [j y ? ? ? Hi' Hs Hq' Hnf'|j y ? ? ? Hi' Hs|j y ? ? ? Hi' Hs|].
      * apply (fr_puback _ _ j y); auto. change (fifo e') with (fifo e ++ [i]). intros [?|E%list_elem_of_singleton]%elem_of_app; [done|].
        subst j. destruct Hi' as [Hb' _]. destruct (ii_inb0 _ _ Hb') as [? _]. unfold i in *. lia.
      * apply (fr_pubrec _ _ j y); auto.
      * apply (fr_pubcomp _ _ j y); auto.
      * by apply fr_unknown.
    + intros id' j y Hs Hi' Hy. destruct (Hinv id' j y Hi') as [(-> & -> & ->)|Hi2]; [done|]. by apply (ii_saved0 id' j y).
Qed.

(** The next of the order of arrival is acknowledged. *)
Lemma IInv_ack_next a i l e :
  IInv a (e <| fifo := i :: l |>) -> failure e = None -> state (get_in e i) = inAcked ->
  let x := get_in e i in
  IInv a ((if in_qos x =? 1 then pushCtrlLocked PUBACK (in_id x) ReasonSuccess false (Some i) e
           else let e := modify_in i (fun f => f <| state := inAwaitPubrel |>) e in
                let e := pushCtrlLocked PUBREC (in_id x) ReasonSuccess true None e in
                if hasStore cfg then queueLocked (inKey (in_id x)) (OwnIn i) PutIn e else e) <| fifo := l |>).
Proof.
  intros I Hnf Hs. pose proof (ii_fifo _ _ I) as [S F]. change (fifo (e <| fifo := i :: l |>)) with (i :: l) in S, F.
  apply Forall_cons in F as [(x & Hb & _ & Hq) F]. apply StronglySorted_inv in S as [S Hlt].
  assert (Hil : i ∉ l) by (intros Hin; apply (proj1 (Forall_forall _ _) Hlt) in Hin; lia).
  change (inbound e (in_id x) i x) in Hb. assert (Hx : get_in e i = x) by (unfold get_in; by rewrite (proj2 Hb)). cbn zeta. rewrite Hx in *.
  assert (Ho : forall c, c_id c = in_id x -> forall d, d ∈ in_ctrl (ctrl e) -> follows d c).
  { intros c Hid d Hd. apply (follows_open (e <| fifo := i :: l |>) d c i x); [by apply (proj1 (Forall_forall _ _) (proj1 (ii_ctrl _ _ I)))|by rewrite Hid|].
    intros [(_ & _ & Hn)|E]; [|congruence]. apply Hn. by left. }
  destruct (Z.eqb_spec (in_qos x) 1) as [Hq1|Hq1].
  - assert (I1 : IInv a (e <| fifo := l |>)).
    { destruct I. split; try done.
      - destruct ii_ctrl0 as [Fc Sc]. split; [|done]. eapply Forall_impl; [exact Fc|]. intros c [j y ? ? ? Hi' Hs' Hq' Hn|j y|j y|].
        + apply (fr_puback _ _ j y); try done. intros Hin. apply Hn. by right.
        + by apply (fr_pubrec _ _ j y).
        + by apply (fr_pubcomp _ _ j y).
        + by apply fr_unknown. }
    refine (IInv_push a (mkCtrl PUBACK (in_id x) ReasonSuccess false (Some i)) (e <| fifo := l |>) I1 Hnf _ _ _); [|done|by apply Ho].
    by apply (fr_puback _ _ i x).
  - set (e1 := if hasStore cfg then queueLocked (inKey (in_id x)) (OwnIn i) PutIn (e <| fifo := i :: l |>) else e <| fifo := i :: l |>).
    assert (I1 : IInv a e1).
    { unfold e1. destruct (hasStore cfg); [|done]. apply IInv_queue; [done|]. intros j y Hy. destruct (inbound_eq _ _ _ _ _ _ Hb Hy) as [-> ->]. congruence. }
    assert (E1 : ins e1 = ins e /\ fifo e1 = i :: l /\ inb e1 = inb e /\ failure e1 = failure e /\ ctrl e1 = ctrl e) by (unfold e1; by destruct (hasStore cfg)).
    destruct E1 as (En & Ef & Eb & Efl & Ec). pose proof (IInv_move a e1 i x inAwaitPubrel [i] l I1) as M.
    assert (I2 : IInv a (modify_in i (fun f => f <| state := inAwaitPubrel |>) e1 <| fifo := l |>)).
    { apply M; [rewrite En; apply Hb|done|done|auto|]. intros _ Hst id Hid. rewrite Eb in Hid. destruct (ii_inb _ _ I id i Hid) as (_ & y & Hy & Hyid). change (ins e !! i = Some y) in Hy.
      assert (in_id x = id) as <- by (destruct Hb as [_ Hb]; congruence). unfold e1. rewrite Hst, queue_queueLocked, decide_True by done.
      unfold in_saved. rewrite last_snoc. by split. }
    set (c := mkCtrl PUBREC (in_id x) ReasonSuccess true None).
    set (e2 := modify_in i (fun f => f <| state := inAwaitPubrel |>) (e1 <| fifo := l |>)) in *.
    assert (I3 : IInv a (e2 <| ctrl ::= fun l => l ++ [c] |>)).
    { apply IInv_push; try done.
      - change (failure e1 = None). congruence.
      - apply (fr_pubrec _ _ i (x <| state := inAwaitPubrel |>)); try done; [|by left].
        apply (inbound_modify_eq e1 i (fun f => f <| state := inAwaitPubrel |>) (in_id x) x). split; [rewrite Eb; apply Hb|rewrite En; apply Hb].
      - change (forall d, d ∈ in_ctrl (ctrl e1) -> follows d c). rewrite Ec. by apply Ho. }
    unfold e2, e1 in I3. destruct (hasStore cfg); exact I3.
Qed.

Lemma IInv_ack_loop a l : forall e, failure e = None -> IInv a (e <| fifo := l |>) -> IInv a (ack_loop cfg l e).
Proof.
  induction l as [|i l IH]; intros e Hnf I; cbn [ack_loop]; [done|]. case_decide as Hs; [|done].
  pose proof (IInv_ack_next a i l e I Hnf Hs) as I1. cbn zeta in I1.
  destruct (_ =? 1); (apply IH; [|exact I1]); [done|]. by destruct (hasStore cfg).
Qed.

Lemma IInv_ack a i e : IInv a e -> is_Some (ins e !! i) -> IInv a (ack cfg i e).
Proof.
  intros I [x Hx]. unfold ack. destruct (_ || _) eqn:Hc; [done|]. apply orb_false_iff in Hc as [_ Hc]. apply negb_false_iff, bool_decide_eq_true in Hc.
  unfold get_in in Hc. rewrite Hx in Hc. cbn in Hc.
  set (e1 := modify_in i (fun f => f <| state := inAcked |>) e).
  assert (I1 : IInv a (e1 <| fifo := fifo e |>)) by (apply (IInv_move a e i x inAcked [] (fifo e)); auto; done).
  destruct (failure e) as [err|] eqn:Hnf; [|by apply IInv_ack_loop].
  destruct (ii_failed _ _ I) as (_ & Hf & _); [congruence|]. change (fifo e1) with (fifo e). rewrite Hf in *. exact I1.
Qed.

Lemma IInv_Pubrel a id e : IInv a e -> IInv a (HandlePubrel cfg id e).
Proof.
  intros I. unfold HandlePubrel. destruct (failure e) eqn:Hnf; [done|].
  assert (Hun : IInv a (pushCtrlLocked PUBCOMP id ReasonPacketIdentifierNotFound false None e)).
  { apply IInv_push; try done. by apply fr_unknown. }
  destruct (inb e !! id) as [i|] eqn:Hi; [|done]. destruct (ii_inb _ _ I id i Hi) as (_ & x & Hx & Hid).
  assert (Hgx : get_in e i = x) by (unfold get_in; by rewrite Hx). rewrite Hgx.
  destruct (state x) eqn:Hs; try done. set (g := fun f : In => f <| state := inReleased |>). assert (Hb : inbound e id i x) by done.
  assert (Hn : i ∉ fifo e).
  { intros Hin. destruct (proj1 (Forall_forall _ _) (proj2 (ii_fifo _ _ I)) i Hin) as (y & [_ Hy] & [?|?] & _); congruence. }
  assert (I1 : IInv a (modify_in i g e)).
  { refine (IInv_move a e i x inReleased [] (fifo e) I Hx eq_refl _ _ _); [done|auto|done]. }
  assert (I2 : IInv a (pushCtrlLocked PUBCOMP id ReasonSuccess true (Some i) (modify_in i g e))).
  { apply IInv_push; try done; [by apply (fr_pubcomp _ _ i (g x)); try done; apply (inbound_modify_eq e i g id x)|].
    intros d Hd. apply (follows_open e d _ i x); [by apply (proj1 (Forall_forall _ _) (proj1 (ii_ctrl _ _ I)))|done|].
    rewrite Hs. intros [[? _]|?]; done. }
  destruct (hasStore cfg); [|done]. apply IInv_queue; [done|]. intros j y Hy.
  destruct (inbound_modify e i x inReleased id j y Hx Hy) as [[Hne [Hj _]]|(_ & _ & ->)]; [congruence|done].
Qed.

(** ** Sending acknowledgements *)

Lemma in_ctrl_cons c l : in_ctrl (c :: l) = if decide (c_typ c <> PUBREL) then c :: in_ctrl l else in_ctrl l.
Proof. unfold in_ctrl. rewrite filter_cons. done. Qed.

(** What a frame that goes out does to the flows. *)
Definition sent_frame (c : ctrlFrame) (e : Engine) : Engine :=
  if ((c_typ c =? PUBACK) || (c_typ c =? PUBCOMP)) && bool_decide (is_Some (c_in c)) && bool_decide (inb e !! c_id c = c_in c)
  then e <| inb ::= delete (c_id c) |> else e.

Lemma inbound_delete e id0 id i x : inbound (e <| inb ::= delete id0 |>) id i x <-> id <> id0 /\ inbound e id i x.
Proof.
  unfold inbound. change (inb (e <| inb ::= delete id0 |>)) with (delete id0 (inb e)). rewrite lookup_delete_Some.
  change (ins (e <| inb ::= delete id0 |>)) with (ins e). split; [intros [[? ?] ?]; by split_and!|intros (? & ? & ?); by split_and!].
Qed.

Lemma IInv_sent a c l e : IInv a (e <| ctrl := c :: l |>) -> failure e = None -> IInv a ((sent_frame c e) <| ctrl := l |>).
Proof.
  intros I Hnf. unfold sent_frame. destruct (_ && _) eqn:Hc.
  2: { destruct I. split; try done. destruct ii_ctrl0 as [F S]. change (in_ctrl (ctrl (e <| ctrl := l |>))) with (in_ctrl l).
       change (in_ctrl (ctrl (e <| ctrl := c :: l |>))) with (in_ctrl (c :: l)) in F, S.
       assert (H : Forall (frame_ok (e <| ctrl := c :: l |>)) (in_ctrl l) /\ StronglySorted follows (in_ctrl l)).
       { rewrite in_ctrl_cons in F, S. case_decide; [|done]. apply Forall_cons in F as [_ F]. by apply StronglySorted_inv in S as [S _]. }
       destruct H as [H HS]. split; [|done]. eapply Forall_impl; [exact H|]. intros d. by apply frame_same. }
  apply andb_true_iff in Hc as [Hc Hin]. apply andb_true_iff in Hc as [Ht Hsm]. apply bool_decide_eq_true in Hin, Hsm. destruct Hsm as [i Hi].
  assert (Hnr : c_typ c <> PUBREL) by (intros E; rewrite E in Ht; done). destruct I. destruct ii_ctrl0 as [F S].
  change (in_ctrl (ctrl (e <| ctrl := c :: l |>))) with (in_ctrl (c :: l)) in F, S. rewrite in_ctrl_cons, decide_True in F, S by done.
  apply Forall_cons in F as [Fc F]. apply StronglySorted_inv in S as [S Sc].
  destruct (final_frame _ c i Fc Hi) as (x & Hb & Hst). change (inbound e (c_id c) i x) in Hb. set (id := c_id c) in *.
  assert (Hd : forall id' j y, inbound e id' j y -> id' <> id -> inbound (e <| inb ::= delete id |>) id' j y) by (intros; by apply inbound_delete).
  split; try done.
  - intros id' j Hj. change (delete id (inb e) !! id' = Some j) in Hj. apply lookup_delete_Some in Hj as [_ Hj]. by apply (ii_inb0 id').
  - destruct ii_fifo0 as [Sf Ff]. split; [done|]. change (Forall (waiting (e <| inb ::= delete id |>)) (fifo e)). change (Forall (waiting e) (fifo e)) in Ff.
    apply Forall_forall. intros j Hj.
    destruct (proj1 (Forall_forall _ _) Ff j Hj) as (y & Hy & Hsy & Hq). exists y. split; [|done]. apply Hd; [done|]. intros E. rewrite E in Hy.
    destruct (inbound_eq _ _ _ _ _ _ Hb Hy) as [-> ->]. destruct Hst as [(_ & _ & Hn)|Hs]; [by apply Hn|]. destruct Hsy; congruence.
  - split; [|done]. apply Forall_forall. intros d Hdl. pose proof (proj1 (Forall_forall _ _) Sc d Hdl ltac:(by eexists)) as Hfo.
    pose proof (proj1 (Forall_forall _ _) F d Hdl) as Hfr. fold id in Hfo.
    destruct Hfr as [j y ? ? ? Hi' Hs' Hq' Hn|j y Htd ? ? Hi'|j y ? ? ? Hi'|].
    + apply (fr_puback _ _ j y); try done. apply Hd; [done|]. intros E. destruct (Hfo E). congruence.
    + apply (fr_pubrec _ _ j y); try done. apply Hd; [done|]. intros E. destruct (Hfo E) as [Hp _]. by rewrite Htd in Hp.
    + apply (fr_pubcomp _ _ j y); try done. apply Hd; [done|]. intros E. destruct (Hfo E). congruence.
    + by apply fr_unknown.
  - intros id' j y Hs Hi' Hy. change (inbound (e <| inb ::= delete id |>) id' j y) in Hi'. apply inbound_delete in Hi' as [_ Hi']. by apply (ii_saved0 id' j y).
Qed.

Lemma control_loop_cons c l e :
  control_loop (c :: l) e = if readyLocked e c then let (e', its) := control_loop l (sent_frame c e) in (e', IAck (c_typ c) (c_id c) (c_rc c) :: its)
                            else (e <| ctrl := c :: l |>, []).
Proof. reflexivity. Qed.

Lemma sent_frame_same c e : failure (sent_frame c e) = failure e /\ queues (sent_frame c e) = queues e /\ ins (sent_frame c e) = ins e.
Proof. unfold sent_frame. by case_match. Qed.

(** A PUBREC goes out when its record is stored, or the broker has released
    the message already. *)
Definition answered (a : contents) (e : Engine) (id : Z) : Prop :=
  exists i x, inbound e id i x /\ (state x = inReleased \/ (state x = inAwaitPubrel /\ queue e (inKey id) = []
                                     /\ (hasStore cfg = true -> on_disk a (in_record (inKey id))))).

Lemma IInv_control a l : forall e,
  IInv a (e <| ctrl := l |>) -> failure e = None ->
  IInv a (fst (control_loop l e)) /\ failure (fst (control_loop l e)) = None
  /\ (forall id i, inb (fst (control_loop l e)) !! id = Some i -> inb e !! id = Some i)
  /\ forall id rc, IAck PUBREC id rc ∈ snd (control_loop l e) -> answered a e id.
Proof.
  induction l as [|c l IH]; intros e I Hnf.
  { cbn [control_loop fst snd]. split_and!; try done. intros id rc H. by apply elem_of_nil in H. }
  rewrite control_loop_cons. destruct (readyLocked e c) eqn:Hr.
  2: { split_and!; try done. intros id rc H. by apply elem_of_nil in H. }
  destruct (sent_frame_same c e) as (E1 & E2 & E3). destruct (IH (sent_frame c e) (IInv_sent a c l e I Hnf)) as (J1 & J2 & J3 & J4); [congruence|].
  assert (Hsub : forall id i, inb (sent_frame c e) !! id = Some i -> inb e !! id = Some i).
  { intros id i. unfold sent_frame. case_match; [|done]. change (delete (c_id c) (inb e) !! id = Some i -> inb e !! id = Some i).
    by intros [_ ?]%lookup_delete_Some. }
  destruct (control_loop l (sent_frame c e)) as [e' its]. cbn [fst snd] in *. split_and!; try done; [auto|].
  intros id rc [E|H]%elem_of_cons.
  - injection E as Et -> ->. assert (Hc : frame_ok (e <| ctrl := c :: l |>) c).
    { apply (proj1 (Forall_forall _ _) (proj1 (ii_ctrl _ _ I))). change (c ∈ in_ctrl (c :: l)). rewrite in_ctrl_cons, decide_True by (by rewrite <- Et). by left. }
    destruct Hc as [i x Ht|i x Ht Hg Hci Hb Hs|i x Ht|Ht]; [by rewrite <- Et in Ht| |by rewrite <- Et in Ht..]. exists i, x. split; [done|].
    destruct Hs as [Hs|Hs]; [right|by left]. split; [done|].
    assert (Hq : queue e (inKey (c_id c)) = []).
    { unfold readyLocked in Hr. rewrite Hg, <- Et in Hr. cbn in Hr. unfold storedLocked in Hr. by destruct (queue e (inKey (c_id c))). }
    split; [done|]. intros Hst. pose proof (ii_saved _ _ I (c_id c) i x Hst Hb Hs) as Hsv.
    change (queue (e <| ctrl := c :: l |>)) with (queue e) in Hsv. by rewrite Hq in Hsv.
  - destruct (J4 id rc H) as (i & x & [H1 H2] & Hs). exists i, x. rewrite E3 in H2. split; [split; [auto|done]|].
    destruct Hs as [|(? & Hq & ?)]; [by left|]. right. unfold queue in *. rewrite E2 in Hq. by split_and!.
Qed.

(** ** The end of a session *)

Lemma IInv_none a e :
  inb e = ∅ -> fifo e = [] -> in_ctrl (ctrl e) = [] ->
  (forall k j, failure e = None -> Dir k <> Outbound -> j ∈ queue e k -> j_epoch j = epoch e) ->
  (forall k r, Dir k <> Outbound -> disk_at a k = Some r -> r = in_record k) -> IInv a e.
Proof.
  intros H1 H2 H3 H4 H5. split; try done; rewrite ?H1, ?H2, ?H3.
  - intros id i. by rewrite lookup_empty.
  - by repeat constructor.
  - by repeat constructor.
  - intros id i x _ [Hi _]. by rewrite H1, lookup_empty in Hi.
Qed.

Definition in_epochs (e : Engine) : Prop := forall k j, Dir k <> Outbound -> j ∈ queue e k -> j_epoch j = epoch e.

Lemma lose_in_epochs e x : in_epochs e -> in_epochs (lose_in cfg e x).
Proof.
  destruct x as [id i]. unfold lose_in. intros H. destruct (_ && _); [|done]. intros k j Hk. rewrite queue_queueLocked. case_decide; [subst k|by apply H].
  intros [Hj|Hj]%elem_of_app; [by apply (H (inKey id))|]. by apply list_elem_of_singleton in Hj as ->.
Qed.

Lemma lose_in_failure e x : failure (lose_in cfg e x) = failure e.
Proof. destruct x as [id i]. unfold lose_in. by destruct (_ && _). Qed.

Lemma IInv_lost a e : IInv a e -> IInv a (drop_inbound (fold_left (lose_in cfg) (map_to_list (inb e)) e)).
Proof.
  intros I. set (e1 := fold_left _ _ e). apply IInv_none; try done; [|apply I]. intros k j Hf.
  assert (H : failure e1 = failure e /\ (in_epochs e -> in_epochs e1)).
  { unfold e1. generalize (map_to_list (inb e)). intros l. clear. revert e. induction l as [|x l IH]; intros e; [done|]. cbn [fold_left].
    destruct (IH (lose_in cfg e x)) as [H1 H2]. rewrite H1, lose_in_failure. split; [done|]. intros H. by apply H2, lose_in_epochs. }
  destruct H as [H1 H2]. change (failure e1 = None) in Hf. change (Dir k <> Outbound -> j ∈ queue e1 k -> j_epoch j = epoch e1).
  apply H2. intros k' j'. apply (ii_epoch _ _ I). congruence.
Qed.

Lemma IInv_failing a err e :
  (failure e <> None -> inb e = ∅ /\ fifo e = [] /\ in_ctrl (ctrl e) = []) ->
  (forall k r, Dir k <> Outbound -> disk_at a k = Some r -> r = in_record k) -> IInv a (fst (failLocked err e)).
Proof.
  intros Hf Hd. destruct (failure e) eqn:Hnf; [|destruct (fail_eq err e Hnf) as [m ->]; by apply IInv_none].
  unfold failLocked. rewrite Hnf. destruct Hf as (H1 & H2 & H3); [done|]. apply IInv_none; try done. cbn [fst]. congruence.
Qed.

Lemma IInv_fail a err e : IInv a e -> IInv a (fst (failLocked err e)).
Proof. intros I. apply IInv_failing; apply I. Qed.

Lemma IInv_Connected h a e ci now :
  Inv cfg [] h e -> 0 <= ci_ReceiveMaximum ci -> IInv a e -> IInv a (fst (Connected cfg ci now e)).
Proof.
  intros I Hr. set (R := fun e e' => IInv a e -> IInv a e'). assert (PR : PreOrder R) by (split; unfold R; auto). change (R e (fst (Connected cfg ci now e))).
  assert (RS : forall e e', same_in e e' -> R e e') by (intros e1 e2 S; unfold R; by apply IInv_same).
  apply (Inv_Connected h e ci now R); try done.
  - intros e1 e2 B. by apply RS, books_same_in.
  - intros e1 o. apply RS, si_modify.
  - intros _ e1. exact (IInv_lost a e1).
  - intros _ D e1 o _. apply RS, si_lose_flow.
  - intros l fr e1 o _ _. apply RS, si_limit_flow.
Qed.

(** With the session present nothing inbound changes. *)
Lemma si_Connected h e ci now :
  Inv cfg [] h e -> 0 <= ci_ReceiveMaximum ci -> SessionPresent ci = true -> same_in e (fst (Connected cfg ci now e)).
Proof.
  intros I Hr Hp. apply (Inv_Connected h e ci now same_in); try done; try congruence.
  - intros e1 e2 B. by apply books_same_in.
  - intros l fr e1 o _ _. apply si_limit_flow.
Qed.

(** ** The writes *)

Lemma IInv_disk a a' e : (forall k, Dir k <> Outbound -> disk_at a' k = disk_at a k) -> IInv a e -> IInv a' e.
Proof.
  intros H []. split; try done.
  - intros id i x Hs Hb Hx. specialize (ii_saved0 id i x Hs Hb Hx). unfold in_saved in *. destruct (last _); rewrite !on_disk_at in *; cbn [Key in_record] in *;
      by rewrite H.
  - intros k r Hk. rewrite H by done. by apply ii_disk0.
Qed.

Lemma IInv_perform a k ans e e' a' told :
  (forall k, fresh (queue e k)) -> (forall k, Dir k <> Outbound -> Forall in_job (queue e k)) ->
  (forall r q, queue e k = q -> forall j q', q = j :: q' -> is_put (j_work j) r -> Key r = k) ->
  IInv a e -> perform_head cfg k ans e a = Some (e', a', told) -> IInv a' e'.
Proof.
  intros Hfr Hin Hkey I. unfold perform_head. destruct (queue e k) as [|[w ow ep [r|]] q] eqn:Eq; try done.
  destruct (do_work cfg w k ans a) as [[a1 res] told1] eqn:Ew. intros [= <- <- _].
  assert (Hk : keyed_work k w) by (destruct w as [r|r| | |]; cbn; try done; apply (Hkey r _ eq_refl _ q eq_refl); [by left|by right]).
  pose proof (fun k' => do_work_at w k ans a a1 res told1 k' Hk Ew) as Hat.
  set (e' := e <| queues ::= _ |>). assert (Hq : forall k', queue e' k' = if decide (k' = k) then mkJob w ow ep (Some res) :: q else queue e k').
  { intros k'. unfold e', queue. es. case_decide; [subst; by rewrite lookup_insert_eq|by rewrite lookup_insert_ne]. }
  destruct (decide (Dir k = Outbound)) as [Hd|Hd].
  { apply (IInv_disk a); [intros k' Hk'; apply Hat; by intros ->|]. apply (IInv_same a e); [|done]. split; try done.
    intros k' Hk'. rewrite Hq, decide_False; [done|]. by intros ->. }
  specialize (Hfr k). specialize (Hin k Hd). rewrite Eq in Hfr, Hin. apply Forall_cons in Hin as [(i0 & Ho & Hw) Hin]. cbn in Ho, Hw.
  destruct I. split; try done.
  - destruct ii_ctrl0 as [F S]. split; [|done]. eapply Forall_impl; [exact F|]. intros c. by apply frame_same.
  - intros id i x Hs Hb Hx. specialize (ii_saved0 id i x Hs Hb Hx). rewrite Hq. case_decide as Ek.
    + rewrite Ek, Eq in ii_saved0. unfold in_saved in *. destruct q as [|j q _] using rev_ind.
      * cbn in *. destruct ii_saved0 as [-> _]. split; [done|]. intros [= ->]. unfold do_work in Ew. cbn zeta in Ew.
        destruct (store_do (a_medium ans) _ a) as [a2 ok] eqn:Es. destruct ok; [|done]. injection Ew as -> _. rewrite Ek. by apply (store_do_put _ _ _ _ Es).
      * rewrite app_comm_cons, last_snoc in ii_saved0 |- *. destruct ii_saved0 as [Hj _]. split; [done|].
        cbn in Hfr. apply Forall_app in Hfr as [_ Hj']. apply Forall_cons in Hj' as [-> _]. done.
    + unfold in_saved in *. destruct (last _); rewrite !on_disk_at in *; cbn [Key in_record] in *; by rewrite Hat.
  - intros k' j Hf Hk'. rewrite Hq. case_decide as Ek; [|by apply ii_epoch0]. subst k'. intros [->|Hj]%elem_of_cons; cbn.
    + apply (ii_epoch0 k (mkJob w ow ep None) Hf Hd). rewrite Eq. by left.
    + apply (ii_epoch0 k j Hf Hd). rewrite Eq. by right.
  - intros k' r' Hk' Hr'. destruct (decide (k' = k)) as [->|Hne]; [|rewrite Hat in Hr' by done; by apply ii_disk0].
    destruct (do_work_own w k ans a a1 res told1 r' Ew Hr') as [H|[H|[_ ->]]]; [by apply ii_disk0| |done].
    destruct H as [-> | ->]; by destruct Hw.
Qed.

Lemma IInv_pop_in a k j q e :
  IInv a e -> Dir k <> Outbound -> queue e k = j :: q -> (failure e = None -> q = [] -> j_result j = Some DoOk) -> IInv a (pop_head k e).
Proof.
  intros I Hk Eq Hr. pose proof (queue_pop k e) as Hq. rewrite pop_eq in *. set (e' := e <| queues := _ |>) in *.
  destruct (failure e) eqn:Hnf.
  { destruct (ii_failed _ _ I) as (H1 & H2 & H3); [congruence|]. apply IInv_none; try done; [|apply I]. intros k' j'.
    change (failure e') with (failure e). congruence. }
  destruct I. split; try done.
  - destruct ii_ctrl0 as [F S]. split; [|done]. eapply Forall_impl; [exact F|]. intros c. by apply frame_same.
  - intros id i x Hs Hb Hx. specialize (ii_saved0 id i x Hs Hb Hx). rewrite Hq. case_decide as Ek; [|done].
    rewrite Ek, Eq in *. cbn [tail]. destruct q as [|j' q]; [|exact ii_saved0]. unfold in_saved in *. cbn in *.
    apply ii_saved0. by apply Hr.
  - intros k' j' Hf Hk'. rewrite Hq. case_decide as Ek; [|by apply ii_epoch0]. subst k'. intros Hj. apply (ii_epoch0 k j' Hnf Hk).
    rewrite Eq in *. by right.
Qed.

Lemma IInv_finish h a k e e' told :
  Inv cfg [] h e -> (forall k, Dir k <> Outbound -> Forall in_job (queue e k)) ->
  IInv a e -> finish_head cfg k e = Some (e', told) -> IInv a e'.
Proof.
  intros I Hin II. unfold finish_head. destruct (queue e k) as [|[w ow ep [r|]] q] eqn:Eq; try done. destruct (decide (Dir k = Outbound)) as [Hd|Hd].
  - assert (k = outKey (PacketID k)) as Ek by (destruct k; cbn in *; by subst). set (id := PacketID k) in *. clearbody id. subst k.
    destruct (inv_jobs _ _ _ _ I id (mkJob w ow ep (Some r))) as (o & f & Ho & _); [rewrite Eq; by left|]. cbn in Ho. subst ow.
    pose proof (si_after w o ep (Some r) r e) as Sa. destruct (ep =? epoch e).
    + destruct (after cfg _ r e) as [e1 fail]. cbn [fst] in Sa. assert (I1 : IInv a (pop_head (outKey id) e1)).
      { apply (IInv_same a e); [|done]. etransitivity; [exact Sa|apply si_pop]. }
      destruct fail as [err|]; [|by intros [= <- _]]. pose proof (IInv_fail a err _ I1) as I2. intros [= E]. by rewrite E in I2.
    + intros [= <- _]. apply (IInv_same a e); [apply si_pop|done].
  - specialize (Hin k Hd). rewrite Eq in Hin. apply Forall_cons in Hin as [(i0 & Ho & Hw) _]. cbn in Ho, Hw. subst ow.
    pose proof (IInv_pop_in a k _ q e II Hd Eq) as Hp. cbn [j_result] in Hp.
    assert (Hf : forall err, Some (failLocked err (pop_head k e)) = Some (e', told) -> IInv a e').
    { intros err. pose proof (IInv_failing a err (pop_head k e)) as H. rewrite pop_eq in *. intros [= E]. rewrite E in H. apply H; apply II. }
    destruct (Z.eqb_spec ep (epoch e)) as [Hep|Hep].
    + destruct Hw as [-> | ->]; unfold after; cbn [j_work j_owner]; (destruct r; [intros [= <- _]; by apply Hp|apply Hf..]).
    + intros [= <- _]. apply Hp. intros Hnf. destruct Hep. apply (ii_epoch _ _ II k (mkJob w (OwnIn i0) ep (Some r)) Hnf Hd). rewrite Eq. by left.
Qed.

Lemma IInv_SetMeta a m ans e :
  IInv a e -> let '(e', a', _) := SetMeta cfg m ans e a in IInv a' e'.
Proof.
  intros I. unfold SetMeta. destruct (failure e); [done|]. destruct (_ && _); [done|]. destruct (negb _); [apply (IInv_same a e); [by split|done]|].
  pose proof (fun k => store_do_at ans (SSetMeta m) a k) as Hat. destruct (store_do ans (SSetMeta m) a) as [a' ok]. cbn [fst] in Hat.
  assert (I' : IInv a' e) by (apply (IInv_disk a); [intros k _; symmetry; by apply Hat|done]). destruct ok; [apply (IInv_same a' e); [by split|done]|].
  pose proof (IInv_fail a' (StoreError "set meta") e I') as I2. by destruct (failLocked _ e).
Qed.

(** ** Between connections *)

Lemma fold_same_in {A} (g : Engine -> A -> Engine) l : (forall e x, same_in e (g e x)) -> forall e, same_in e (fold_left g l e).
Proof. intros Hg. induction l as [|x l IH]; intros e; [done|]. cbn [fold_left]. etransitivity; [apply Hg|apply IH]. Qed.

Lemma IInv_Discard a ans e :
  IInv a e -> (forall k, queue e k = []) -> ans <> MediumFails true -> let '(e', a', _, _) := Discard cfg ans e a in IInv a' e'.
Proof.
  intros I HQ Ha. unfold Discard.
  assert (H : forall x : contents * bool, x = (if hasStore cfg then store_do ans SReset a else (a, true)) ->
            (forall k r, Dir k <> Outbound -> disk_at (fst x) k = Some r -> r = in_record k) /\ (snd x = false -> fst x = a)).
  { intros x ->. destruct (hasStore cfg); [|split; [apply I|done]]. split.
    - intros k r Hk Hr. apply store_do_own in Hr as [Hr|(r' & ? & _)]; [by apply I|done].
    - unfold store_do. destruct ans as [|[|]]; [|done|done]. by destruct a as [[m rs]|]. }
  destruct (if hasStore cfg then _ else _) as [a' ok]. destruct (H _ eq_refl) as [Hd Hno]. cbn [fst snd] in *. destruct ok; [|by rewrite Hno].
  unfold drainFlowsLocked. cbv beta iota zeta.
  match goal with |- IInv a' (?y <| cursor := None |> <| e_meta := zeroMeta |>) => set (e3 := y) end.
  apply (IInv_same a' e3); [by split|].
  set (e1 := fold_left (fun e x => modify_in (snd x) (fun f => f <| dead := true |>) e) (map_to_list (inb e)) e) in *.
  assert (S : same_in (drop_inbound e1) e3).
  { unfold e3. etransitivity; [|apply fold_same_in; intros; by split].
    match goal with |- same_in _ (fold_left ?g ?l ?x) => transitivity x; [by split|apply fold_same_in] end.
    intros e' o. etransitivity; [apply (si_finish o (Some ErrSessionLost))|by split]. }
  apply (IInv_same a' _ _ S). apply IInv_none; try done. intros k j _ _.
  assert (Eq : queues e1 = queues e).
  { unfold e1. generalize (map_to_list (inb e)). intros l. clear. revert e. induction l as [|x l IH]; intros e; [done|]. cbn [fold_left]. by rewrite IH. }
  assert (Hk : queue (drop_inbound e1) k = []) by (change (queue e1 k = []); unfold queue; rewrite Eq; apply HQ).
  rewrite Hk. intros Hj. by apply elem_of_nil in Hj.
Qed.

(** What [Restore] has read so far. *)
Record reloaded (a : contents) (e : Engine) : Prop := {
  rd_inb id i : inb e !! id = Some i -> (i < nextIn e)%nat /\ ins e !! i = Some (mkIn id 2 inAwaitPubrel false)
                                        /\ (hasStore cfg = true -> on_disk a (in_record (inKey id)));
  rd_none : fifo e = [] /\ in_ctrl (ctrl e) = [] /\ failure e = None;
  rd_queue k : queue e k = [];
}.

Lemma reloaded_IInv a e : (forall k r, Dir k <> Outbound -> disk_at a k = Some r -> r = in_record k) -> reloaded a e -> IInv a e.
Proof.
  intros Hd [Hi (H1 & H2 & H3) HQ]. split; rewrite ?H1, ?H2; try done.
  - intros id i Hb. destruct (Hi id i Hb) as (Hlt & Hx & _). split; [done|]. by eexists.
  - by repeat constructor.
  - by repeat constructor.
  - intros id i x Hs [Hb _] _. rewrite HQ. by apply (Hi id i Hb).
  - intros k j _ _. rewrite HQ. intros Hj. by apply elem_of_nil in Hj.
Qed.

Lemma same_in_queues e e' : same_in e e' -> queues e' = queues e -> forall a, reloaded a e -> reloaded a e'.
Proof.
  intros [] HQ a [Hi (H1 & H2 & H3) Hq]. split.
  - rewrite si_inb0, si_ins0, si_nextIn0. done.
  - by rewrite si_fifo0, si_ctrl0, si_failure0.
  - intros k. unfold queue. rewrite HQ. apply Hq.
Qed.

Lemma restore_record_out x r :
  Dir (Key r) = Outbound -> same_in (fst x) (fst (restore_record x r)) /\ queues (fst (restore_record x r)) = queues (fst x).
Proof.
  intros Hd. destruct x as [e rl]. unfold restore_record. cbn zeta. rewrite Hd. cbn [Z.eqb]. destruct (_ || _); [done|].
  change (Outbound =? Outbound) with true. cbn [andb]. destruct (Phase r =? Completed).
  - destruct (decodeOutcome _); [|done]. destruct (list_eqb _ _); [done|]. destruct (IDs.claim _ _ _) as [[|] t]; [|done]. by split.
  - destruct (len _ =? 0); [done|]. destruct (IDs.claim _ _ _) as [[|] t]; [|done]. unfold new_flow. cbv beta iota zeta.
    destruct (list_eqb _ _), (Phase r =? AwaitPubcomp); by split.
Qed.

Lemma restore_record_in x k :
  Dir k <> Outbound ->
  fst (restore_record x (in_record k)) = if Dir k =? Inbound then
     let (i, e) := new_in (mkIn (PacketID k) 2 inAwaitPubrel false) (fst x) in e <| inb ::= <[PacketID k := i]> |> else fst x.
Proof.
  intros Hd. destruct x as [e rl]. unfold restore_record. cbn [in_record Key Phase QoS]. cbn zeta. rewrite (proj2 (Z.eqb_neq _ _) Hd).
  unfold Phase_Valid. rewrite (proj2 (Z.eqb_neq _ _) Hd). by destruct (Dir k =? Inbound).
Qed.

Lemma reloaded_record a x r :
  (hasStore cfg = true -> on_disk a r) -> (Dir (Key r) <> Outbound -> r = in_record (Key r)) -> reloaded a (fst x) ->
  reloaded a (fst (restore_record x r))
  /\ (forall id, is_Some (inb (fst x) !! id) -> is_Some (inb (fst (restore_record x r)) !! id))
  /\ (forall id, r = in_record (inKey id) -> is_Some (inb (fst (restore_record x r)) !! id)).
Proof.
  intros Hr Hin R. destruct (decide (Dir (Key r) = Outbound)) as [Hd|Hd].
  { destruct (restore_record_out x r Hd) as [S HQ]. split_and!; [by apply (same_in_queues _ _ S HQ)|by rewrite (si_inb _ _ S)|].
    intros id ->. done. }
  specialize (Hin Hd). set (k := Key r) in *. clearbody k. subst r. rewrite restore_record_in by done. destruct (Z.eqb_spec (Dir k) Inbound) as [Hk|Hk].
  2: { split_and!; try done. intros id [= ->]. done. }
  assert (k = inKey (PacketID k)) as Ek by (destruct k; cbn in *; by subst). set (id0 := PacketID k) in *. clearbody id0. subst k.
  unfold new_in. destruct R as [Hi (H1 & H2 & H3) HQ]. set (i0 := nextIn (fst x)). split_and!.
  - split; [|done|done]. intros id i Hb. match type of Hb with inb ?e !! _ = _ => change (<[id0 := i0]> (inb (fst x)) !! id = Some i) in Hb;
      change (nextIn e) with (S i0); change (ins e) with (<[i0 := mkIn id0 2 inAwaitPubrel false]> (ins (fst x))) end.
    apply lookup_insert_Some in Hb as [[<- <-]|[Hne Hb]]; [rewrite lookup_insert_eq; split_and!; [lia|done|done]|].
    destruct (Hi id i Hb) as (Hlt & Hx & Ho). unfold i0. rewrite lookup_insert_ne by lia. split_and!; [lia|done|done].
  - intros id Hb. match goal with |- is_Some (inb ?e !! _) => change (inb e) with (<[id0 := i0]> (inb (fst x))) end. apply lookup_insert_is_Some. destruct (decide (id0 = id)); auto.
  - intros id [= ->]. match goal with |- is_Some (inb ?e !! _) => change (inb e) with (<[id := i0]> (inb (fst x))) end. rewrite lookup_insert_eq. by eexists.
Qed.

Lemma Restore_inbound a m recs e e' :
  (hasStore cfg = true -> forall r, r ∈ recs -> on_disk a r) -> (forall r, r ∈ recs -> Dir (Key r) <> Outbound -> r = in_record (Key r)) ->
  fifo e = [] -> in_ctrl (ctrl e) = [] -> (forall k, queue e k = []) -> Restore m recs e = Some e' ->
  reloaded a e' /\ forall id, in_record (inKey id) ∈ recs -> is_Some (inb e' !! id).
Proof.
  intros Hd Hin H1 H2 HQ. unfold Restore. destruct (_ && _) eqn:Hc; [|done]. apply andb_true_iff in Hc as [_ Hc]. apply bool_decide_eq_true in Hc. cbn zeta.
  set (e0 := e <| failure := None |> <| ids ::= _ |> <| orphans := ∅ |> <| e_meta := m |>).
  assert (R0 : reloaded a e0) by (split; [change (inb e0) with (inb e); rewrite Hc; intros id i Hb; by rewrite lookup_empty in Hb|done|done]).
  assert (H : forall l x, (forall r, r ∈ l -> r ∈ recs) -> reloaded a (fst x) ->
            reloaded a (fst (fold_left restore_record l x)) /\ (forall id, is_Some (inb (fst x) !! id) -> is_Some (inb (fst (fold_left restore_record l x)) !! id))
            /\ forall id, in_record (inKey id) ∈ l -> is_Some (inb (fst (fold_left restore_record l x)) !! id)).
  { induction l as [|r l IH]; intros x Hl Rx; cbn [fold_left]; [split_and!; try done; intros id Hn; by apply elem_of_nil in Hn|].
    destruct (reloaded_record a x r) as (R1 & K1 & N1); [intros Hs; apply Hd; [done|apply Hl; by left]|apply Hin, Hl; by left|done|].
    destruct (IH (restore_record x r)) as (R2 & K2 & N2); [intros r' Hr'; apply Hl; by right|done|]. split_and!; [done|auto|].
    intros id [<-|Hid]%elem_of_cons; [by apply K2, N1|by apply N2]. }
  destruct (H recs (e0, []) ltac:(done) R0) as (R1 & _ & N1). destruct (fold_left restore_record recs (e0, [])) as [e1 rl]. cbn [fst] in *. intros [= <-].
  assert (S : forall l e, same_in e (fold_left (fun e o => push_rel o e) l e) /\ queues (fold_left (fun e o => push_rel o e) l e) = queues e).
  { clear. induction l as [|o l IH]; intros e; [done|]. cbn [fold_left]. destruct (IH (push_rel o e)) as [S Q]. rewrite Q. split; [|done].
    etransitivity; [|exact S]. by split. }
  destruct (S (merge_sort (by_seq e1) rl) e1) as [S1 Q1]. split; [by apply (same_in_queues _ _ S1 Q1)|]. intros id Hid. rewrite (si_inb _ _ S1). by apply N1.
Qed.

(** ** The machine *)

Definition IW (w : World) : Prop := IInv (disk w) (eng w).

Lemma load_disk a m recs r :
  (forall k r, disk_at a k = Some r -> Key r = k /\ rec_ok r) -> load cfg a = Some (m, recs) -> r ∈ recs -> on_disk a r.
Proof.
  intros Hd Hl Hr. destruct (load_ok a m recs Hd Hl) as (_ & _ & _ & H). unfold load in Hl. destruct (hasStore cfg); [by apply H|].
  injection Hl as _ <-. by apply elem_of_nil in Hr.
Qed.

Lemma IInv_Restore a m recs e0 e e' :
  (forall k r, disk_at a k = Some r -> Key r = k /\ rec_ok r) -> load cfg a = Some (m, recs) -> IInv a e0 ->
  fifo e = [] -> in_ctrl (ctrl e) = [] -> (forall k, queue e k = []) -> Restore m recs e = Some e' ->
  IInv a e' /\ reloaded a e' /\ (hasStore cfg = true -> forall id, on_disk a (in_record (inKey id)) -> is_Some (inb e' !! id)).
Proof.
  intros Hd Hl I H1 H2 HQ E. pose proof (fun r => load_disk a m recs r Hd Hl) as Hr.
  destruct (Restore_inbound a m recs e e') as [R N]; try done.
  { intros r Hin Ho. apply (ii_disk _ _ I (Key r)); [done|]. by apply on_disk_at, Hr. }
  split; [apply reloaded_IInv; [apply I|done]|]. split; [done|]. intros Hs id Ho. apply N. destruct (load_ok a m recs Hd Hl) as (_ & _ & _ & H). by apply H.
Qed.

Lemma collect_inbound h g upTo now e :
  Inv cfg [] h e -> servesLocked g e = true ->
  let e0 := if released e <? upTo then e <| released := upTo |> else e in
  same_in (fst (collectControlLocked e0)) (fst (Collect cfg g upTo now e)).
Proof.
  intros I Sv. destruct (collecting_start h g upTo now e I Sv) as (C & _ & -> & _). eapply si_loop, publish_loop_run. exact (collecting_some h _ _ C).
Qed.

Lemma serves_ok g e : servesLocked g e = true -> failure e = None.
Proof. unfold servesLocked. intros [_ H]%andb_true_iff. by apply bool_decide_eq_true in H. Qed.

Lemma IInv_own_ctrl a e : IInv a e -> IInv a (e <| ctrl := ctrl e |>).
Proof. apply IInv_same. by split. Qed.

Lemma loop_no_ack l e e' its t id rc : loop_run cfg l e e' its -> IAck t id rc ∉ its.
Proof. induction 1; try apply not_elem_of_nil; try done; by apply not_elem_of_cons. Qed.

(** The acknowledgements a step sends. *)
Lemma step_answers w ev w' outs id rc :
  WInv cfg w -> IW w -> step cfg ev w = Some (w', outs) -> Sent (IAck PUBREC id rc) ∈ outs -> answered (disk w) (eng w) id.
Proof.
  intros [I _] II. destruct w as [e a h]. cbn [eng disk held] in *. unfold IW in II. cbn [eng disk] in II.
  assert (Hctl : forall e0, same_in e e0 -> queues e0 = queues e -> failure e = None -> IAck PUBREC id rc ∈ snd (collectControlLocked e0) -> answered a e id).
  { intros e0 S Q Hnf Hin. pose proof (IInv_same a e e0 S II) as I0. unfold collectControlLocked in Hin.
    destruct (IInv_control a (ctrl e0) e0 (IInv_own_ctrl a e0 I0)) as (_ & _ & _ & H); [by rewrite (si_failure _ _ S)|].
    destruct (H id rc Hin) as (i & x & [Hi Hx] & Hs). rewrite (si_inb _ _ S) in Hi. rewrite (si_ins _ _ S) in Hx. exists i, x.
    split; [by split|]. unfold queue in *. by rewrite Q in Hs. }
  assert (Htold : forall l, Sent (IAck PUBREC id rc) ∉ map Told l) by (intros l Hin; by apply list_elem_of_fmap in Hin as (? & ? & _)).
  unfold step. cbn [eng disk held].
  destruct ev as [ow|id0 ow|m now|o|r s|id0 rc0 rf|id0 rc0 rf|id0|id0 q|i|id0|ci now|l|g upTo now|g|k ans|k|m ans|ans| |]; intros E Hin.
  all: try (repeat case_match; simplify_eq; by apply elem_of_nil in Hin).
  - case_decide; [|done]. destruct (Receive cfg id0 q e) as [e' [i| |]]; injection E as _ <-; [apply elem_of_cons in Hin as [?|Hin]; [done|]|..]; by apply elem_of_nil in Hin.
  - injection E as _ <-. apply list_elem_of_fmap in Hin as (it & [= <-] & Hin). destruct (servesLocked g e) eqn:Sv.
    2: { unfold Collect in Hin. rewrite Sv in Hin. by apply elem_of_nil in Hin. }
    destruct (collecting_start h g upTo now e I Sv) as (C & _ & _ & Es). rewrite Es in Hin. clear Es. apply elem_of_app in Hin as [Hin|Hin].
    + revert Hin. apply Hctl; [case_match; by split|by case_match|by apply (serves_ok g)].
    + by apply (loop_no_ack _ _ _ _ PUBREC id rc (publish_loop_run (cfg := cfg) _ 0 now _ (collecting_some h _ _ C))) in Hin.
  - injection E as _ <-. apply list_elem_of_fmap in Hin as (it & [= <-] & Hin). unfold CollectControl in Hin. destruct (servesLocked g e) eqn:Sv.
    + apply (Hctl e); try done. by apply (serves_ok g).
    + by apply elem_of_nil in Hin.
  - destruct (perform_head cfg k ans e a) as [[[e' a'] told]|]; [|done]. injection E as _ <-. by apply Htold in Hin.
  - destruct (finish_head cfg k e) as [[e' told]|]; [|done]. injection E as _ <-. by apply Htold in Hin.
  - destruct (SetMeta cfg m ans e a) as [[e' a'] told]. injection E as _ <-. by apply Htold in Hin.
  - destruct (_ && _); [|done]. destruct (Discard cfg ans e a) as [[[e' a'] told] ok]. injection E as _ <-. by apply Htold in Hin.
Qed.

Lemma IInv_Collect h a g upTo now e : Inv cfg [] h e -> IInv a e -> IInv a (fst (Collect cfg g upTo now e)).
Proof.
  intros I II. destruct (servesLocked g e) eqn:Sv; [|unfold Collect; by rewrite Sv]. apply (IInv_same a _ _ (collect_inbound h g upTo now e I Sv)).
  set (e0 := if released e <? upTo then _ else e). assert (S : same_in e e0) by (unfold e0; case_match; by split).
  apply (IInv_control a (ctrl e0) e0); [apply IInv_own_ctrl; by apply (IInv_same a e)|]. rewrite (si_failure _ _ S). by apply (serves_ok g).
Qed.

Lemma step_IW w ev w' outs : WInv cfg w -> IW w -> step cfg ev w = Some (w', outs) -> IW w'.
Proof.
  intros [I Dv] II. destruct w as [e a h]. unfold IW in *. cbn [eng disk held] in *.
  assert (HS : forall e', same_in e e' -> IInv a e') by (intros e' S; by apply (IInv_same a e)).
  unfold step. cbn [eng disk held].
  destruct ev as [ow|id0 ow|m now|o|r s|id0 rc0 rf|id0 rc0 rf|id0|id0 q|i|id0|ci now|l|g upTo now|g|k ans|k|m ans|ans| |]; intros E.
  - destruct (IDs.AllocateID _ _); try done. case_decide; [done|]. injection E as <- _. apply HS. by split.
  - case_decide; [done|]. injection E as <- _. apply HS. by split.
  - case_decide; [|done]. injection E as <- _. apply HS, si_Register.
  - case_decide; [|done]. injection E as <- _. apply HS, si_Withdraw.
  - injection E as <- _. apply HS, si_Adopt.
  - injection E as <- _. apply HS, si_Puback.
  - injection E as <- _. apply HS, si_Pubrec.
  - injection E as <- _. apply HS, si_Pubcomp.
  - case_decide as Hc; [|done]. pose proof (IInv_Receive a id0 q e II (proj2 Hc)) as H. destruct (Receive cfg id0 q e) as [e' r]. by injection E as <- _.
  - case_decide as Hc; [|done]. injection E as <- _. by apply IInv_ack.
  - injection E as <- _. by apply IInv_Pubrel.
  - case_decide as Hc; [|done]. injection E as <- _. by apply (IInv_Connected h).
  - injection E as <- _. apply HS. unfold Disconnected. case_decide; [by split|done].
  - injection E as <- _. by apply (IInv_Collect h).
  - injection E as <- _. unfold CollectControl. destruct (servesLocked g e) eqn:Sv; [|done].
    apply (IInv_control a (ctrl e) e); [by apply IInv_own_ctrl|by apply (serves_ok g)].
  - destruct (perform_head cfg k ans e a) as [[[e' a'] told]|] eqn:Ep; [|done]. injection E as <- _.
    apply (IInv_perform a k ans e e' a' told); try done; [apply Dv|apply Dv|]. intros r q <- j q' Eq Hr. by apply (head_work h e a k j q' I Dv Eq).
  - destruct (finish_head cfg k e) as [[e' told]|] eqn:Ef; [|done]. injection E as <- _. apply (IInv_finish h a k e e' told); try done. apply Dv.
  - pose proof (IInv_SetMeta a m ans e II) as H. destruct (SetMeta cfg m ans e a) as [[e' a'] told]. by injection E as <- _.
  - destruct (bool_decide (size _ = _) && _) eqn:Hq; [|done]. destruct (bool_decide (ans <> MediumFails true)) eqn:Ha; [|done]. apply bool_decide_eq_true in Ha.
    pose proof (IInv_Discard a ans e II (drained_queue _ Hq) Ha) as H. destruct (Discard cfg ans e a) as [[[e' a'] told] ok]. by injection E as <- _.
  - destruct (failure e) eqn:Hf; [|done]. destruct (load cfg a) as [[m recs]|] eqn:Hl; [|done].
    destruct (bool_decide (size _ = _) && _) eqn:Hq; [|done]. destruct (Restore m recs e) as [e'|] eqn:Er; [|done]. injection E as <- _.
    destruct (ii_failed _ _ II) as (_ & H2 & H3); [congruence|].
    by destruct (IInv_Restore a m recs e e e' (dv_disk _ _ Dv) Hl II H2 H3 (drained_queue _ Hq) Er) as [H _].
  - destruct (load cfg a) as [[m recs]|] eqn:Hl; [|done]. destruct (Restore m recs New) as [e'|] eqn:Er; [|done]. injection E as <- _.
    by destruct (IInv_Restore a m recs e New e' (dv_disk _ _ Dv) Hl II eq_refl eq_refl ltac:(done) Er) as [H _].
Qed.

Lemma reachable_IW w : reachable cfg w -> IW w.
Proof.
  induction 1 as [|w ev w' outs R IH E].
  - apply IInv_none; try done. intros k j _ _ Hj. by apply elem_of_nil in Hj.
  - apply (step_IW w ev w' outs); [by apply reachable_WInv|done|done].
Qed.

(** ** Messages received once *)

(** The message under [id] was taken over: its record is stored, and while
    the session lasts its identifier is known. *)
Record taken (id : Z) (a : contents) (e : Engine) : Prop := {
  tk_disk : on_disk a (in_record (inKey id));
  tk_queue : queue e (inKey id) = [];
  tk_state : failure e = None -> exists i x, inbound e id i x /\ state x = inAwaitPubrel;
}.

(** Events that neither end the session nor release the message. *)
Definition keeps_session (id : Z) (ev : event) : bool :=
  match ev with
  | EvPubrel id' => negb (id' =? id)
  | EvConnected ci _ => SessionPresent ci
  | EvDiscard _ => false
  | _ => true
  end.

Lemma taken_step id a e e' :
  queue e' (inKey id) = queue e (inKey id) -> (failure e' = None -> failure e = None) ->
  (forall i x, failure e' = None -> inbound e id i x -> state x = inAwaitPubrel -> inbound e' id i x) -> taken id a e -> taken id a e'.
Proof.
  intros HQ Hf Hb [H1 H2 H3]. split; [done|congruence|]. intros Hn. destruct (H3 (Hf Hn)) as (i & x & Hi & Hx). exists i, x. auto.
Qed.

Lemma taken_same id a e e' : same_in e e' -> taken id a e -> taken id a e'.
Proof.
  intros [] T. apply (taken_step id a e); [by rewrite si_queue0|congruence| |done]. unfold inbound. intros i x _. by rewrite si_inb0, si_ins0.
Qed.

Lemma taken_Receive id a id0 q e : IInv a e -> taken id a e -> taken id a (fst (Receive cfg id0 q e)).
Proof.
  intros I T. unfold Receive. destruct (failure e) eqn:Hnf; [done|]. destruct (inb e !! id0) as [j|] eqn:Hj.
  - destruct (_ && _); [|done]. by apply (taken_step id a e).
  - destruct (_ && _); [done|]. unfold new_in. cbn [fst]. apply (taken_step id a e); try done. intros i x _ [H1 H2] _.
    destruct (ii_inb _ _ I id i H1) as [Hlt _]. match goal with |- inbound ?e' _ _ _ => split;
      [change (<[id0 := nextIn e]> (inb e) !! id = Some i)|change (<[nextIn e := mkIn id0 q inDelivered false]> (ins e) !! i = Some x)] end.
    + rewrite lookup_insert_ne; [done|]. congruence.
    + rewrite lookup_insert_ne; [done|]. lia.
Qed.

Lemma ack_loop_taken a id i x l : forall e,
  failure e = None -> IInv a (e <| fifo := l |>) -> inbound e id i x -> state x = inAwaitPubrel ->
  inbound (ack_loop cfg l e) id i x /\ queue (ack_loop cfg l e) (inKey id) = queue e (inKey id) /\ failure (ack_loop cfg l e) = None.
Proof.
  induction l as [|j l IH]; intros e Hnf I Hb Hx; cbn [ack_loop]; [done|]. case_decide as Hs; [|done].
  pose proof (IInv_ack_next a j l e I Hnf Hs) as I1. cbn zeta in I1. pose proof (proj2 (ii_fifo _ _ I)) as F.
  change (Forall (waiting (e <| fifo := j :: l |>)) (j :: l)) in F. apply Forall_cons in F as [(y & Hy & _) _]. change (inbound e (in_id y) j y) in Hy.
  assert (Hgy : get_in e j = y) by (unfold get_in; by rewrite (proj2 Hy)). rewrite Hgy in *.
  assert (Hne : i <> j) by (intros ->; destruct Hb, Hy; congruence).
  assert (Hid : in_id y <> id) by (intros E; rewrite E in Hy; destruct (inbound_eq _ _ _ _ _ _ Hb Hy); congruence).
  destruct (_ =? 1).
  - exact (IH (pushCtrlLocked PUBACK (in_id y) ReasonSuccess false (Some j) e) Hnf I1 Hb Hx).
  - set (g := fun f : In => f <| state := inAwaitPubrel |>) in *.
    set (e1 := pushCtrlLocked PUBREC (in_id y) ReasonSuccess true None (modify_in j g e)) in *.
    set (e2 := if hasStore cfg then queueLocked (inKey (in_id y)) (OwnIn j) PutIn e1 else e1) in *.
    assert (Hb1 : inbound e1 id i x) by (by apply (inbound_modify_ne e j g)).
    assert (E2 : failure e2 = failure e /\ inbound e2 id i x /\ queue e2 (inKey id) = queue e (inKey id)).
    { unfold e2. destruct (hasStore cfg); [|done]. split; [done|]. split; [done|]. rewrite queue_queueLocked, decide_False; [done|]. intros [= E]. congruence. }
    destruct E2 as (Ef & Eb & Eq). destruct (IH e2 ltac:(congruence) I1 Eb Hx) as (H1 & H2 & H3). split; [done|]. split; [congruence|done].
Qed.

Lemma taken_ack id a i0 e : IInv a e -> is_Some (ins e !! i0) -> taken id a e -> taken id a (ack cfg i0 e).
Proof.
  intros I [y Hy] T. unfold ack. destruct (_ || _) eqn:Hc; [done|]. apply orb_false_iff in Hc as [_ Hc]. apply negb_false_iff, bool_decide_eq_true in Hc.
  unfold get_in in Hc. rewrite Hy in Hc. change (state y = inDelivered) in Hc. set (e1 := modify_in i0 (fun f => f <| state := inAcked |>) e).
  assert (I1 : IInv a (e1 <| fifo := fifo e |>)) by (apply (IInv_move a e i0 y inAcked [] (fifo e)); auto; done).
  change (fifo e1) with (fifo e). destruct (failure e) as [err|] eqn:Hnf.
  - destruct (ii_failed _ _ I) as (_ & Hf & _); [congruence|]. rewrite Hf. apply (taken_step id a e); try done.
    change (failure (ack_loop cfg [] e1)) with (failure e). intros i x Hn. congruence.
  - destruct (tk_state _ _ _ T Hnf) as (i & x & Hi & Hx). assert (Hne : i <> i0) by (intros ->; destruct Hi; congruence).
    assert (Hb1 : inbound e1 id i x) by (by apply inbound_modify_ne). destruct (ack_loop_taken a id i x (fifo e) e1 Hnf I1 Hb1 Hx) as (H1 & H2 & H3).
    split; [apply T|rewrite H2; apply T|]. intros _. by exists i, x.
Qed.

Lemma taken_Pubrel id a id0 e : IInv a e -> id0 <> id -> taken id a e -> taken id a (HandlePubrel cfg id0 e).
Proof.
  intros I Hne T. unfold HandlePubrel. destruct (failure e) eqn:Hnf; [done|]. assert (Hp : forall rc, taken id a (pushCtrlLocked PUBCOMP id0 rc false None e)).
  { intros rc. by apply (taken_step id a e). }
  destruct (inb e !! id0) as [j|] eqn:Hj; [|done]. destruct (state (get_in e j)); try done.
  set (g := fun f : In => f <| state := inReleased |>).
  assert (T1 : taken id a (pushCtrlLocked PUBCOMP id0 ReasonSuccess true (Some j) (modify_in j g e))).
  { apply (taken_step id a e); try done. intros i x _ Hb _. apply (inbound_modify_ne e j g); [|done]. intros ->.
    destruct (ii_inb _ _ I id0 j Hj) as (_ & y & Hy & E1). destruct (ii_inb _ _ I id j (proj1 Hb)) as (_ & z & Hz & E2). congruence. }
  destruct (hasStore cfg); [|done]. revert T1. apply taken_step; try done. rewrite queue_queueLocked, decide_False; [done|]. intros [= E]. congruence.
Qed.

Lemma taken_control a id i x l : forall e,
  IInv a (e <| ctrl := l |>) -> failure e = None -> inbound e id i x -> state x = inAwaitPubrel -> inbound (fst (control_loop l e)) id i x.
Proof.
  induction l as [|c l IH]; intros e I Hnf Hb Hx; [done|]. rewrite control_loop_cons. destruct (readyLocked e c); [|done].
  destruct (sent_frame_same c e) as (E1 & _ & E3). specialize (IH (sent_frame c e) (IInv_sent a c l e I Hnf) ltac:(congruence)).
  destruct (control_loop l (sent_frame c e)) as [e' its]. cbn [fst] in *. apply IH; [|done]. unfold sent_frame. destruct (_ && _) eqn:Hc; [|done].
  apply inbound_delete. split; [|done]. intros ->. apply andb_true_iff in Hc as [Hc Hin]. apply andb_true_iff in Hc as [Ht Hsm].
  apply bool_decide_eq_true in Hin, Hsm. destruct Hsm as [j Hj]. assert (Hc : frame_ok (e <| ctrl := c :: l |>) c).
  { apply (proj1 (Forall_forall _ _) (proj1 (ii_ctrl _ _ I))). change (c ∈ in_ctrl (c :: l)). rewrite in_ctrl_cons, decide_True; [by left|].
    intros E. by rewrite E in Ht. }
  destruct (final_frame _ c j Hc Hj) as (y & Hy & Hs). change (inbound e (c_id c) j y) in Hy. destruct (inbound_eq _ _ _ _ _ _ Hb Hy) as [-> ->].
  destruct Hs as [[? _]|?]; congruence.
Qed.

Lemma taken_sent_all id a e : IInv a e -> failure e = None -> taken id a e -> taken id a (fst (collectControlLocked e)).
Proof.
  intros I Hnf T. unfold collectControlLocked. pose proof (IInv_own_ctrl a e I) as I'.
  destruct (tk_state _ _ _ T Hnf) as (i & x & Hb & Hx). split; [apply T| |].
  - unfold queue. rewrite control_queues. apply T.
  - intros _. exists i, x. split; [|done]. by apply (taken_control a).
Qed.

Lemma taken_disk id a a' e : disk_at a' (inKey id) = disk_at a (inKey id) -> taken id a e -> taken id a' e.
Proof. intros H [H1 H2 H3]. split; [|done|done]. rewrite on_disk_at in *. cbn [Key in_record] in *. by rewrite H. Qed.

Lemma taken_fail id a err e : taken id a e -> taken id a (fst (failLocked err e)).
Proof.
  intros T. destruct (failure e) eqn:Hnf; [unfold failLocked; by rewrite Hnf|]. apply (taken_step id a e); [| | |done].
  - unfold queue. by rewrite queues_fail.
  - done.
  - destruct (fail_eq err e Hnf) as [m ->]. done.
Qed.

Lemma taken_pop id a k e : k <> inKey id -> taken id a e -> taken id a (pop_head k e).
Proof.
  intros Hk T. pose proof (queue_pop k e (inKey id)) as Hq. rewrite pop_eq in *. apply (taken_step id a e); try done. rewrite Hq, decide_False; [done|congruence].
Qed.

Lemma taken_finish h id a k e e' told :
  Inv cfg [] h e -> (forall k, Dir k <> Outbound -> Forall in_job (queue e k)) -> taken id a e -> finish_head cfg k e = Some (e', told) -> taken id a e'.
Proof.
  intros I Hin T E. assert (Hk : k <> inKey id) by (intros ->; unfold finish_head in E; by rewrite (tk_queue _ _ _ T) in E). revert E.
  unfold finish_head. destruct (queue e k) as [|[w ow ep [r|]] q] eqn:Eq; try done.
  assert (Ha : taken id a (fst (if ep =? epoch e then after cfg (mkJob w ow ep (Some r)) r e else (e, None)))).
  { destruct (ep =? epoch e); [|done]. destruct (decide (Dir k = Outbound)) as [Hd|Hd].
    - assert (k = outKey (PacketID k)) as Ek by (destruct k; cbn in *; by subst). rewrite Ek in Eq.
      destruct (inv_jobs _ _ _ _ I (PacketID k) (mkJob w ow ep (Some r))) as (o & f & Ho & _); [rewrite Eq; by left|]. cbn in Ho. subst ow.
      apply (taken_same id a e); [apply si_after|done].
    - specialize (Hin k Hd). rewrite Eq in Hin. apply Forall_cons in Hin as [(i0 & Ho & Hw) _]. cbn in Ho, Hw. subst ow.
      destruct Hw as [-> | ->]; unfold after; cbn [j_work j_owner]; by destruct r. }
  destruct (if ep =? epoch e then _ else _) as [e1 fail]. cbn [fst] in Ha. pose proof (taken_pop id a k e1 Hk Ha) as T1.
  destruct fail as [err|]; [|by intros [= <- _]]. pose proof (taken_fail id a err _ T1) as T2. intros [= E]. by rewrite E in T2.
Qed.

Lemma taken_restored id a e :
  hasStore cfg = true -> on_disk a (in_record (inKey id)) -> reloaded a e -> is_Some (inb e !! id) -> taken id a e.
Proof.
  intros Hs Hd [Hi _ HQ] [i Hb]. split; [done|apply HQ|]. intros _. destruct (Hi id i Hb) as (_ & Hx & _). by exists i, (mkIn id 2 inAwaitPubrel false).
Qed.

Lemma step_taken id w ev w' outs :
  WInv cfg w -> IW w -> hasStore cfg = true -> keeps_session id ev = true -> taken id (disk w) (eng w) ->
  step cfg ev w = Some (w', outs) -> taken id (disk w') (eng w').
Proof.
  intros [I Dv] II Hs Hk T. destruct w as [e a h]. unfold IW in *. cbn [eng disk held] in *.
  assert (HS : forall e', same_in e e' -> taken id a e') by (intros e' S; by apply (taken_same id a e)).
  unfold step. cbn [eng disk held].
  destruct ev as [ow|id0 ow|m now|o|r s|id0 rc0 rf|id0 rc0 rf|id0|id0 q|i|id0|ci now|l|g upTo now|g|k ans|k|m ans|ans| |]; intros E; try done.
  - destruct (IDs.AllocateID _ _); try done. case_decide; [done|]. injection E as <- _. apply HS. by split.
  - case_decide; [done|]. injection E as <- _. apply HS. by split.
  - case_decide; [|done]. injection E as <- _. apply HS, si_Register.
  - case_decide; [|done]. injection E as <- _. apply HS, si_Withdraw.
  - injection E as <- _. apply HS, si_Adopt.
  - injection E as <- _. apply HS, si_Puback.
  - injection E as <- _. apply HS, si_Pubrec.
  - injection E as <- _. apply HS, si_Pubcomp.
  - case_decide as Hc; [|done]. pose proof (taken_Receive id a id0 q e II T) as H. destruct (Receive cfg id0 q e) as [e' r]. by injection E as <- _.
  - case_decide as Hc; [|done]. injection E as <- _. by apply taken_ack.
  - injection E as <- _. apply taken_Pubrel; try done. intros ->. cbn in Hk. by rewrite Z.eqb_refl in Hk.
  - case_decide as Hc; [|done]. injection E as <- _. apply HS. by apply (si_Connected h).
  - injection E as <- _. apply HS. unfold Disconnected. case_decide; [by split|done].
  - injection E as <- _. destruct (servesLocked g e) eqn:Sv; [|unfold Collect; by rewrite Sv]. apply (taken_same id a _ _ (collect_inbound h g upTo now e I Sv)).
    set (e0 := if released e <? upTo then _ else e). assert (S : same_in e e0) by (unfold e0; case_match; by split).
    apply taken_sent_all; [by apply (IInv_same a e)| |by apply (taken_same id a e)]. rewrite (si_failure _ _ S). by apply (serves_ok g).
  - injection E as <- _. unfold CollectControl. destruct (servesLocked g e) eqn:Sv; [|done]. apply taken_sent_all; try done. by apply (serves_ok g).
  - destruct (perform_head cfg k ans e a) as [[[e' a'] told]|] eqn:Ep; [|done]. injection E as <- _. cbn [eng disk].
    assert (Hne : inKey id <> k) by (intros <-; unfold perform_head in Ep; by rewrite (tk_queue _ _ _ T) in Ep).
    unfold perform_head in Ep. destruct (queue e k) as [|[w ow ep [r|]] q] eqn:Eq; try done.
    destruct (do_work cfg w k ans a) as [[a1 res] told1] eqn:Ew. injection Ep as <- <- _.
    apply (taken_disk id a).
    { apply (do_work_at (cfg := cfg) w k ans a a1 res told1); try done. destruct (head_work h e a k _ q I Dv Eq) as [Hput _].
      destruct w; cbn; try done; apply Hput; [by left|by right]. }
    apply (taken_step id a e); try done.
    transitivity (default [] (<[k := mkJob w ow ep (Some res) :: q]> (queues e) !! inKey id)); [done|]. by rewrite lookup_insert_ne.
  - destruct (finish_head cfg k e) as [[e' told]|] eqn:Ef; [|done]. injection E as <- _. apply (taken_finish h id a k e e' told); try done. apply Dv.
  - pose proof (SetMeta_disk (cfg := cfg) m ans e a (inKey id)) as Hd.
    assert (T' : taken id a (fst (fst (SetMeta cfg m ans e a)))).
    { unfold SetMeta. destruct (failure e); [done|]. destruct (_ && _); [done|]. destruct (negb _); [by apply HS|].
      destruct (store_do _ _ _) as [a1 [|]]; [by apply HS|]. pose proof (taken_fail id a (StoreError "set meta") e T) as H. by destruct (failLocked _ e). }
    destruct (SetMeta cfg m ans e a) as [[e' a'] told]. injection E as <- _. by apply (taken_disk id a).
  - destruct (failure e) eqn:Hf; [|done]. destruct (load cfg a) as [[m recs]|] eqn:Hl; [|done].
    destruct (bool_decide (size _ = _) && _) eqn:Hq; [|done]. destruct (Restore m recs e) as [e'|] eqn:Er; [|done]. injection E as <- _.
    destruct (ii_failed _ _ II) as (_ & H2 & H3); [congruence|].
    destruct (IInv_Restore a m recs e e e' (dv_disk _ _ Dv) Hl II H2 H3 (drained_queue _ Hq) Er) as (_ & R & N).
    apply taken_restored; [done|apply T|done|]. apply N; [done|apply T].
  - destruct (load cfg a) as [[m recs]|] eqn:Hl; [|done]. destruct (Restore m recs New) as [e'|] eqn:Er; [|done]. injection E as <- _.
    destruct (IInv_Restore a m recs e New e' (dv_disk _ _ Dv) Hl II eq_refl eq_refl ltac:(done) Er) as (_ & R & N).
    apply taken_restored; [done|apply T|done|]. apply N; [done|apply T].
Qed.

Lemma run_taken id evs : forall w w' outs,
  WInv cfg w -> IW w -> hasStore cfg = true -> forallb (keeps_session id) evs = true -> taken id (disk w) (eng w) ->
  run cfg evs w = Some (w', outs) -> taken id (disk w') (eng w') /\ IW w'.
Proof.
  induction evs as [|ev evs IH]; intros w w' outs W II Hs Hk T; cbn [run]; [by intros [= <- _]|]. cbn [forallb] in Hk. apply andb_true_iff in Hk as [Hev Hk].
  destruct (step cfg ev w) as [[w1 outs1]|] eqn:E; [|done]. destruct (run cfg evs w1) as [[w2 outs2]|] eqn:E2; [|done]. intros [= <- _].
  apply (IH w1 w2 outs2); try done; [by apply (step_WInv w ev w1 outs1)|by apply (step_IW w ev w1 outs1)|by apply (step_taken id w ev w1 outs1)].
Qed.

(** Acknowledgements go out of the two collecting steps only. *)
Lemma sent_keeps id w ev w' outs it : step cfg ev w = Some (w', outs) -> Sent it ∈ outs -> keeps_session id ev = true.
Proof.
  assert (Htold : forall l, Sent it ∉ map Told l) by (intros l Hin; by apply list_elem_of_fmap in Hin as (? & ? & _)).
  destruct ev; cbn [keeps_session]; try done; unfold step; intros E Hin.
  - injection E as _ <-. by apply elem_of_nil in Hin.
  - case_decide; [|done]. injection E as _ <-. by apply elem_of_nil in Hin.
  - destruct (_ && _); [|done]. destruct (Discard _ _ _ _) as [[[e' a'] told] ok]. injection E as _ <-. by apply Htold in Hin.
Qed.
End ops.

(** ** Theorems *)

(** C7: a PUBREC is a promise kept. When a PUBREC goes out, its message is in
    the store as received, unless the broker has released it already; from
    then on, whatever happens short of losing the session on the broker's
    side or discarding it here (reconnects, store failures, restarts of the
    process), until the PUBREL arrives a PUBLISH with its identifier is not
    delivered to the application, and a QoS 2 one is answered by another
    PUBREC. *)
Theorem exactly_once cfg w ev w1 outs id rc evs w2 outs2 q w3 outs3 :
  reachable cfg w -> hasStore cfg = true -> step cfg ev w = Some (w1, outs) -> Sent (IAck PUBREC id rc) ∈ outs ->
  (forall i x, inbound (eng w) id i x -> state x <> inReleased) ->
  forallb (keeps_session id) evs = true -> run cfg evs w1 = Some (w2, outs2) -> step cfg (EvReceive id q) w2 = Some (w3, outs3) ->
  on_disk (disk w) (in_record (inKey id)) /\ outs3 = []
  /\ (q = 2 -> failure (eng w2) = None -> ctrl (eng w3) = ctrl (eng w2) ++ [mkCtrl PUBREC id ReasonSuccess true None]).
Proof.
  intros R Hs E Hin Hnr Hk Er E3. pose proof (reachable_WInv cfg w R) as W. pose proof (reachable_IW (cfg := cfg) w R) as II.
  destruct (step_answers (cfg := cfg) w ev w1 outs id rc W II E Hin) as (i & x & Hb & [Hx|(Hx & HQ & Hd)]); [by destruct (Hnr i x Hb)|]. specialize (Hd Hs).
  split; [done|]. assert (T : taken id (disk w) (eng w)) by (split; [done|done|intros _; by exists i, x]).
  pose proof (step_taken (cfg := cfg) id w ev w1 outs W II Hs (sent_keeps (cfg := cfg) id w ev w1 outs _ E Hin) T E) as T1.
  destruct (run_taken (cfg := cfg) id evs w1 w2 outs2 (step_WInv (cfg := cfg) w ev w1 outs W E) (step_IW (cfg := cfg) w ev w1 outs W II E) Hs Hk T1 Er) as [T2 II2].
  cbn [step] in E3. case_decide; [|done]. unfold Receive in E3. destruct (failure (eng w2)) eqn:Hf; [injection E3 as <- <-; split; [done|done]|].
  destruct (tk_state _ _ _ T2 Hf) as (j & y & [Hj Hy] & Hst). rewrite Hj in E3. unfold get_in in E3. rewrite Hy in E3. cbn [default] in E3.
  change (Datatypes.id y) with y in E3. rewrite Hst in E3.
  destruct (q =? 2) eqn:Hq2; cbn in E3; injection E3 as <- <-; (split; [done|]); intros Hq _; [done|]. by subst q.
Qed.

(** The acknowledgement a message is due. *)
Definition ack_frame (e : Engine) (i : inflow) : ctrlFrame :=
  let x := get_in e i in
  if in_qos x =? 1 then mkCtrl PUBACK (in_id x) ReasonSuccess false (Some i) else mkCtrl PUBREC (in_id x) ReasonSuccess true None.

Lemma get_in_modify_ne e i j g : j <> i -> get_in (modify_in i g e) j = get_in e j.
Proof. intros H. unfold get_in. change (ins (modify_in i g e)) with (alter g i (ins e)). by rewrite lookup_alter_ne. Qed.

Lemma lt_sorted_nodup (l : list nat) : StronglySorted lt l -> NoDup l.
Proof.
  induction 1 as [|i l _ IH Hi]; constructor; [|done]. intros Hin. apply (proj1 (Forall_forall _ _) Hi) in Hin. lia.
Qed.

Lemma map_ack_frame e e' l : (forall j, j ∈ l -> get_in e' j = get_in e j) -> map (ack_frame e') l = map (ack_frame e) l.
Proof. intros H. apply map_ext_in. intros j Hj. unfold ack_frame. by rewrite H by (by apply list_elem_of_In). Qed.

Lemma ack_loop_exact cfg l : forall e,
  NoDup l ->
  exists p r, l = p ++ r /\ fifo (ack_loop cfg l e) = r /\ ctrl (ack_loop cfg l e) = ctrl e ++ map (ack_frame e) p
    /\ Forall (fun j => state (get_in e j) = inAcked) p /\ match r with [] => True | j :: _ => state (get_in e j) <> inAcked end.
Proof.
  induction l as [|i l IH]; intros e Hnd; cbn [ack_loop]; [exists [], []; split_and!; try done; by rewrite app_nil_r|]. apply NoDup_cons in Hnd as [Hi Hnd].
  case_decide as Hs; [|exists [], (i :: l); split_and!; try done; by rewrite app_nil_r].
  assert (Hgo : forall e1, (forall j, j ∈ l -> get_in e1 j = get_in e j) -> ctrl e1 = ctrl e ++ [ack_frame e i] ->
            exists p r, i :: l = p ++ r /\ fifo (ack_loop cfg l e1) = r /\ ctrl (ack_loop cfg l e1) = ctrl e ++ map (ack_frame e) p
              /\ Forall (fun j => state (get_in e j) = inAcked) p /\ match r with [] => True | j :: _ => state (get_in e j) <> inAcked end).
  { intros e1 Hg Hc. destruct (IH e1 Hnd) as (p & r & -> & H2 & H3 & H4 & H5). exists (i :: p), r. split; [done|]. split; [done|]. split_and!.
    - rewrite H3, Hc, <- app_assoc. cbn. do 2 f_equal. apply map_ack_frame. intros j Hj. apply Hg, elem_of_app. by left.
    - constructor; [done|]. apply Forall_forall. intros j Hj. rewrite <- Hg by (apply elem_of_app; by left). by apply (proj1 (Forall_forall _ _) H4).
    - destruct r as [|j r]; [done|]. rewrite <- Hg; [done|]. apply elem_of_app. right. by left. }
  destruct (in_qos (get_in e i) =? 1) eqn:Hq.
  - apply Hgo; [done|]. unfold ack_frame. by rewrite Hq.
  - set (g := fun f : In => f <| state := inAwaitPubrel |>). set (e1 := pushCtrlLocked _ _ _ _ _ (modify_in i g e)).
    assert (H1 : forall j, j ∈ l -> get_in e1 j = get_in e j) by (intros j Hj; apply (get_in_modify_ne e i j g); by intros ->).
    assert (H2 : ctrl e1 = ctrl e ++ [ack_frame e i]) by (unfold ack_frame; by rewrite Hq). destruct (hasStore cfg); by apply Hgo.
Qed.

(** C37: acknowledgements are in the order of arrival. In every reachable
    state the messages not yet answered stand in the order they arrived.
    Acknowledging one queues the PUBACK or PUBREC of as many from the front
    as are acknowledged without a gap, in that order, and of no other;
    acknowledging one again, or one of a session that is gone, does
    nothing. *)
Theorem acks_in_order cfg w i w' outs :
  reachable cfg w -> step cfg (EvAck i) w = Some (w', outs) ->
  let e := eng w in
  let open := negb (dead (get_in e i)) && bool_decide (state (get_in e i) = inDelivered) in
  StronglySorted lt (fifo e)
  /\ exists p l, fifo e = p ++ l /\ fifo (eng w') = l /\ ctrl (eng w') = ctrl e ++ map (ack_frame e) p
       /\ Forall (fun j => j = i \/ state (get_in e j) = inAcked) p
       /\ (open = false -> w' = w)
       /\ (open = true -> match l with [] => True | j :: _ => j <> i /\ state (get_in e j) <> inAcked end).
Proof.
  intros R E. pose proof (reachable_IW (cfg := cfg) w R) as II. cbn zeta. destruct w as [e a h]. unfold IW in II. cbn [eng disk held step] in *.
  pose proof (proj1 (ii_fifo _ _ II)) as S. split; [done|]. case_decide as Hi; [|done]. injection E as <- _. unfold ack.
  destruct (dead (get_in e i)) eqn:Hd; cbn [orb andb negb].
  { exists [], (fifo e). split_and!; try done. by rewrite app_nil_r. }
  destruct (bool_decide (state (get_in e i) = inDelivered)) eqn:Hs; cbn [negb].
  2: { exists [], (fifo e). split_and!; try done. by rewrite app_nil_r. }
  set (g := fun f : In => f <| state := inAcked |>). change (fifo (modify_in i g e)) with (fifo e).
  destruct (ack_loop_exact cfg (fifo e) (modify_in i g e)) as (p & l & H1 & H2 & H3 & H4 & H5); [by apply lt_sorted_nodup|].
  assert (Hf : forall j, ack_frame (modify_in i g e) j = ack_frame e j).
  { intros j. unfold ack_frame. destruct (decide (j = i)) as [->|Hne]; [|by rewrite get_in_modify_ne]. unfold get_in.
    change (ins (modify_in i g e)) with (alter g i (ins e)). rewrite lookup_alter_eq. destruct Hi as [x Hx]. by rewrite Hx. }
  assert (Hst : forall j, j <> i -> state (get_in (modify_in i g e) j) = state (get_in e j)) by (intros j Hj; by rewrite get_in_modify_ne).
  exists p, l. split; [done|]. split; [exact H2|]. split; [|split; [|split; [done|]]].
  - etransitivity; [exact H3|]. change (ctrl (modify_in i g e)) with (ctrl e). f_equal. by apply map_ext.
  - apply Forall_forall. intros j Hj. destruct (decide (j = i)) as [->|Hne]; [by left|right]. rewrite <- Hst by done. by apply (proj1 (Forall_forall _ _) H4).
  - intros _. destruct l as [|j l]; [done|]. destruct (decide (j = i)) as [->|Hne]; [|by rewrite Hst in H5]. destruct H5. unfold get_in.
    change (ins (modify_in i g e)) with (alter g i (ins e)). rewrite lookup_alter_eq. destruct Hi as [x Hx]. by rewrite Hx.
Qed.

(** ** An execution *)

(** A QoS 2 and a QoS 1 message arrive; the application acknowledges the
    second, then the first, whose record is stored; the acknowledgements are
    sent. Then the process restarts and the broker resends the first. *)
Definition inbound_start : list event := [EvConnected (mkConnInfo true 5 None 7 false) 0; EvReceive 7 2; EvReceive 8 1; EvAck 1].
Definition inbound_stored : list event := [EvAck 0; EvPerform (inKey 7) (mkAnswer true MediumOk); EvFinish (inKey 7)].
Definition inbound_later : list event := [EvRestart; EvConnected (mkConnInfo true 5 None 8 false) 0].

Definition inbound_world : World := default start (fst <$> run sample_cfg inbound_start start).
Definition inbound_ready : World := default start (fst <$> run sample_cfg inbound_stored inbound_world).
Definition inbound_sent : World := default start (fst <$> step sample_cfg (EvCollectControl 1) inbound_ready).
Definition inbound_resumed : World := default start (fst <$> run sample_cfg inbound_later inbound_sent).
Definition inbound_resent : World := default start (fst <$> step sample_cfg (EvReceive 7 2) inbound_resumed).

Lemma inbound_reachable : reachable sample_cfg inbound_world.
Proof. eapply (run_reachable sample_cfg inbound_start start); [constructor|]. vm_compute. reflexivity. Qed.

Lemma inbound_ready_reachable : reachable sample_cfg inbound_ready.
Proof. eapply (run_reachable sample_cfg inbound_stored inbound_world); [apply inbound_reachable|]. vm_compute. reflexivity. Qed.

Lemma exactly_once_witness :
  step sample_cfg (EvCollectControl 1) inbound_ready = Some (inbound_sent, [Sent (IAck PUBREC 7 0); Sent (IAck PUBACK 8 0)])
  /\ on_disk (disk inbound_ready) (in_record (inKey 7))
  /\ ctrl (eng inbound_resent) = ctrl (eng inbound_resumed) ++ [mkCtrl PUBREC 7 ReasonSuccess true None].
Proof.
  assert (E : step sample_cfg (EvCollectControl 1) inbound_ready = Some (inbound_sent, [Sent (IAck PUBREC 7 0); Sent (IAck PUBACK 8 0)])) by (vm_compute; reflexivity).
  split; [exact E|].
  destruct (exactly_once sample_cfg inbound_ready (EvCollectControl 1) inbound_sent _ 7 0 inbound_later inbound_resumed [] 2 inbound_resent []
              inbound_ready_reachable eq_refl E) as (H1 & _ & H3).
  - left.
  - intros i x [Hi Hx]. assert (Hi' : inb (eng inbound_ready) !! 7 = Some 0%nat) by (vm_compute; reflexivity). rewrite Hi' in Hi. injection Hi as <-.
    assert (Hx' : ins (eng inbound_ready) !! 0%nat = Some (mkIn 7 2 inAwaitPubrel false)) by (vm_compute; reflexivity).
    rewrite Hx' in Hx. injection Hx as <-. discriminate.
  - reflexivity.
  - vm_compute. reflexivity.
  - vm_compute. reflexivity.
  - split; [exact H1|]. apply H3; vm_compute; reflexivity.
Defined.

Lemma acks_in_order_witness :
  exists w', step sample_cfg (EvAck 0) inbound_world = Some (w', [])
  /\ ctrl (eng w') = [mkCtrl PUBREC 7 ReasonSuccess true None; mkCtrl PUBACK 8 ReasonSuccess false (Some 1%nat)]
  /\ StronglySorted lt (fifo (eng inbound_world)).
Proof.
  eexists. split; [vm_compute; reflexivity|]. split; [vm_compute; reflexivity|].
  refine (proj1 (acks_in_order sample_cfg inbound_world 0%nat _ [] inbound_reachable _)). vm_compute. reflexivity.
Defined.

End Inbound.
