(* ===== verification/Queue.v ===== *)
(** * Queue: publisher queues (queue_publisher.go)

    The [PublisherQueue] contract as an interface with laws, and
    [MemoryPublisherQueue], which keeps acknowledged entries as holes in a
    slice until it reclaims them.  What an entry holds besides its sequence
    number is of any type; slices are values, so the copies the queue makes
    at its boundary are not visible. *)

From stdpp Require Import list sorting.
From S2P Require Import Prelude GoLib.

Module Queue.

(** ** sort.Search *)

Fixpoint Search_loop (fuel i j : nat) (f : nat -> bool) : nat :=
  match fuel with
  | O => i
  | S fuel =>
      if (i <? j)%nat then
        let h := ((i + j) / 2)%nat in
        if f h then Search_loop fuel i h f else Search_loop fuel (S h) j f
      else i
  end.
Definition Search (n : nat) (f : nat -> bool) : nat := Search_loop n 0 n f.

(** [r] is where [f] turns true. *)
Record turns (n : nat) (f : nat -> bool) (r : nat) : Prop := {
  tn_le : (r <= n)%nat;
  tn_below i : (i < r)%nat -> f i = false;
  tn_above i : (r <= i < n)%nat -> f i = true;
}.

Lemma Search_loop_turns n f fuel : forall i j,
  (forall a b, (a <= b < n)%nat -> f a = true -> f b = true) -> (i <= j <= n)%nat -> (j - i <= fuel)%nat ->
  (forall a, (a < i)%nat -> f a = false) -> (forall a, (j <= a < n)%nat -> f a = true) -> turns n f (Search_loop fuel i j f).
Proof.
  induction fuel as [|fuel IH]; intros i j Hm Hij Hf Hlo Hhi; cbn [Search_loop].
  { assert (i = j) as -> by lia. by split; [lia| |]. }
  destruct (Nat.ltb_spec i j) as [Hlt|Hge]; [|assert (i = j) as -> by lia; by split; [lia| |]].
  assert (Hh : (i <= (i + j) / 2 < j)%nat).
  { split; [apply Nat.div_le_lower_bound; lia|apply Nat.Div0.div_lt_upper_bound; lia]. }
  set (h := ((i + j) / 2)%nat) in *. destruct (f h) eqn:E.
  - apply IH; try done; try lia. intros a Ha. apply (Hm h); [lia|done].
  - apply IH; try done; try lia. intros a Ha. destruct (f a) eqn:Ea; [|done]. rewrite (Hm a h) in E; [done|lia|done].
Qed.

Lemma Search_turns n f : (forall a b, (a <= b < n)%nat -> f a = true -> f b = true) -> turns n f (Search n f).
Proof. intros Hm. apply Search_loop_turns; try done; try lia. Qed.

(** ** Data *)

(** [ErrQueueIO] stands for the errors of the medium of a queue that is not
    in memory. *)
Inductive queue_error : Type := ErrQueueClosed | ErrQueueFull | ErrQueueIO.

Inductive DropPolicy : Type := DropNewest | DropOldest.
#[export] Instance DropPolicy_eq_dec : EqDecision DropPolicy.
Proof. solve_decision. Defined.

Record QueueLimit : Type := mkLimit { Max : Z; Policy : DropPolicy; Keep : Z }.

(** [QueueEntry]: its sequence number and the rest. *)
Record QueueEntry (M : Type) : Type := mkEntry { Seq : Z; body : M }.
#[global] Arguments mkEntry {M} _ _.
#[global] Arguments Seq {M} _.
#[global] Arguments body {M} _.

Record memQueueEntry (M : Type) : Type := mkMem { e : QueueEntry M; acked : bool }.
#[global] Arguments mkMem {M} _ _.
#[global] Arguments e {M} _.
#[global] Arguments acked {M} _.

(** [MemoryPublisherQueue] *)
Record MemoryPublisherQueue (M : Type) : Type := mkQueue {
  closed : bool;
  nextSeq : Z;
  entries : list (memQueueEntry M);
  head : nat;
  count : Z;
}.
#[global] Arguments mkQueue {M} _ _ _ _ _.
#[global] Arguments closed {M} _.
#[global] Arguments nextSeq {M} _.
#[global] Arguments entries {M} _.
#[global] Arguments head {M} _.
#[global] Arguments count {M} _.

#[export] Instance MemoryPublisherQueue_rebuild M : Rebuild (MemoryPublisherQueue M) := fun q =>
  mkQueue (closed q) (nextSeq q) (entries q) (head q) (count q).

Definition NewMemoryPublisherQueue {M} : MemoryPublisherQueue M := mkQueue false 0 [] 0 0.

(** ** Operations *)

Section operations.
(** [zero] is the zero value of what an entry holds. *)
Context {M : Type} (zero : M).
Implicit Types (q : MemoryPublisherQueue M) (l : list (memQueueEntry M)).

Definition zeroEntry : memQueueEntry M := mkMem (mkEntry 0 zero) false.

Definition hole (seq : Z) : memQueueEntry M := mkMem (mkEntry seq zero) true.

Definition at_index l (i : nat) : memQueueEntry M := default zeroEntry (l !! i).

(** [search] *)
Definition search (seq : Z) q : nat :=
  (head q + Search (length (entries q) - head q) (fun i => (seq <? Seq (e (at_index (entries q) (head q + i))))%Z))%nat.

(** The loop at the start of [reclaim]. *)
Fixpoint skip_acked (fuel : nat) (h : nat) l : nat * list (memQueueEntry M) :=
  match fuel with
  | O => (h, l)
  | S fuel =>
      if ((h <? length l)%nat && acked (at_index l h)) then skip_acked fuel (S h) (<[h := zeroEntry]> l) else (h, l)
  end.

Definition reclaim q : MemoryPublisherQueue M :=
  let (h, l) := skip_acked (length (entries q)) (head q) (entries q) in
  let q := q <| head := h |> <| entries := l |> in
  let hd := Z.of_nat h in
  let holes := len l - hd - count q in
  if ((hd <=? 1024) || (hd <=? len l / 2)) && ((holes <=? 64) || (holes <=? count q)) then q
  else q <| entries := filter (fun x => acked x = false) (drop h l) |> <| head := 0%nat |>.

(** The loop of [Enqueue] that picks victims among the entries from [i] on. *)
Fixpoint pick l (i : nat) (need : Z) : list nat :=
  match l with
  | [] => []
  | x :: l => if 0 <? need then if acked x then pick l (S i) need else i :: pick l (S i) (need - 1) else []
  end.

(** One victim is evicted. *)
Definition evict (x : list (memQueueEntry M) * list (QueueEntry M)) (i : nat) : list (memQueueEntry M) * list (QueueEntry M) :=
  let (l, evicted) := x in
  (<[i := hole (Seq (e (at_index l i)))]> l, evicted ++ [e (at_index l i)]).

Definition mem_Enqueue (m : M) (limit : QueueLimit) q : MemoryPublisherQueue M * (Z * list (QueueEntry M) + queue_error) :=
  let add q evicted :=
    let q := q <| nextSeq ::= fun n => u64 (n + 1) |> in
    let q := q <| entries ::= fun l => l ++ [mkMem (mkEntry (nextSeq q) m) false] |> <| count ::= Z.succ |> in
    (q, inl (nextSeq q, evicted)) in
  if closed q then (q, inr ErrQueueClosed)
  else if (0 <? Max limit) && (Max limit <=? count q) then
    if decide (Policy limit <> DropOldest) then (q, inr ErrQueueFull)
    else
      let need := count q - Max limit + 1 in
      let i := search (Keep limit) q in
      let victims := pick (drop i (entries q)) i need in
      if len victims <? need then (q, inr ErrQueueFull)
      else
        let (l, evicted) := fold_left evict victims (entries q, []) in
        let q := q <| entries := l |> <| count ::= fun c => c - len victims |> in
        add (reclaim q) evicted
  else add q [].

(** The loop of [Peek]. *)
Fixpoint peek_loop l (n : Z) : list (QueueEntry M) :=
  match l with
  | [] => []
  | x :: l => if 0 <? n then if acked x then peek_loop l n else e x :: peek_loop l (n - 1) else []
  end.

Definition mem_Peek (after n : Z) q : list (QueueEntry M) + queue_error :=
  if closed q then inr ErrQueueClosed else inl (peek_loop (drop (search after q) (entries q)) n).

Definition mem_Ack (seq : Z) q : MemoryPublisherQueue M * option queue_error :=
  if closed q then (q, Some ErrQueueClosed)
  else
    let i := search (u64 (seq - 1)) q in
    if ((i <? length (entries q))%nat && (Seq (e (at_index (entries q) i)) =? seq) && negb (acked (at_index (entries q) i)))
    then (reclaim (q <| entries ::= <[i := hole seq]> |> <| count ::= Z.pred |>), None)
    else (q, None).

Definition mem_Len q : Z + queue_error := if closed q then inr ErrQueueClosed else inl (count q).

Definition mem_Close q : MemoryPublisherQueue M := mkQueue true (nextSeq q) [] 0 0.
End operations.

(** ** The contract *)

(** What a queue holds, oldest first, and the last sequence number given. *)
Record holding (M : Type) : Type := mkHolding { last_seq : Z; items : list (QueueEntry M) }.
#[global] Arguments mkHolding {M} _ _.
#[global] Arguments last_seq {M} _.
#[global] Arguments items {M} _.

Section contract.
Context {M : Type}.
Implicit Types (a : option (holding M)).

(** The entries above [keep], and those up to it. *)
Definition above (keep : Z) (l : list (QueueEntry M)) : list (QueueEntry M) := filter (fun x => keep < Seq x) l.
Definition upto (keep : Z) (l : list (QueueEntry M)) : list (QueueEntry M) := filter (fun x => ~ keep < Seq x) l.

Definition spec_add (m : M) (l : list (QueueEntry M)) (n : Z) (evicted : list (QueueEntry M))
    : option (holding M) * (Z * list (QueueEntry M) + queue_error) :=
  (Some (mkHolding (n + 1) (l ++ [mkEntry (n + 1) m])), inl (n + 1, evicted)).

(** [Enqueue]: at the bound it refuses, or removes the oldest above [Keep]. *)
Definition spec_Enqueue (m : M) (limit : QueueLimit) a : option (holding M) * (Z * list (QueueEntry M) + queue_error) :=
  match a with
  | None => (None, inr ErrQueueClosed)
  | Some h =>
      if (0 <? Max limit) && (Max limit <=? len (items h)) then
        let need := len (items h) - Max limit + 1 in
        if decide (Policy limit = DropOldest) then
          if need <=? len (above (Keep limit) (items h)) then
            spec_add m (upto (Keep limit) (items h) ++ zdrop need (above (Keep limit) (items h))) (last_seq h)
              (ztake need (above (Keep limit) (items h)))
          else (a, inr ErrQueueFull)
        else (a, inr ErrQueueFull)
      else spec_add m (items h) (last_seq h) []
  end.

Definition spec_Peek (after n : Z) a : list (QueueEntry M) + queue_error :=
  match a with None => inr ErrQueueClosed | Some h => inl (ztake n (above after (items h))) end.

Definition spec_Ack (seq : Z) a : option (holding M) * option queue_error :=
  match a with
  | None => (None, Some ErrQueueClosed)
  | Some h => (Some (mkHolding (last_seq h) (filter (fun x => Seq x <> seq) (items h))), None)
  end.

Definition spec_Len a : Z + queue_error := match a with None => inr ErrQueueClosed | Some h => inl (len (items h)) end.
End contract.

(** The calls of a client. *)
Inductive queue_call (M : Type) : Type :=
| QEnqueue (m : M) (limit : QueueLimit)
| QPeek (after n : Z)
| QAck (seq : Z)
| QLen
| QClose.
#[global] Arguments QEnqueue {M} _ _.
#[global] Arguments QPeek {M} _ _.
#[global] Arguments QAck {M} _.
#[global] Arguments QLen {M}.
#[global] Arguments QClose {M}.

Inductive queue_answer (M : Type) : Type :=
| AEnqueue (r : Z * list (QueueEntry M) + queue_error)
| APeek (r : list (QueueEntry M) + queue_error)
| AAck (r : option queue_error)
| ALen (r : Z + queue_error)
| AClose.
#[global] Arguments AEnqueue {M} _.
#[global] Arguments APeek {M} _.
#[global] Arguments AAck {M} _.
#[global] Arguments ALen {M} _.
#[global] Arguments AClose {M}.

Definition spec_call {M} (c : queue_call M) (a : option (holding M)) : option (holding M) * queue_answer M :=
  match c with
  | QEnqueue m limit => let (a, r) := spec_Enqueue m limit a in (a, AEnqueue r)
  | QPeek after n => (a, APeek (spec_Peek after n a))
  | QAck seq => let (a, r) := spec_Ack seq a in (a, AAck r)
  | QLen => (a, ALen (spec_Len a))
  | QClose => (None, AClose)
  end.

(** Arguments of their Go types. *)
Definition call_ok {M} (c : queue_call M) : Prop :=
  match c with
  | QEnqueue _ limit => 0 <= Keep limit < 2 ^ 64
  | QPeek after _ => 0 <= after < 2 ^ 64
  | QAck seq => 0 <= seq < 2 ^ 64
  | _ => True
  end.

(** The medium failed a call. *)
Definition failed {M} (r : queue_answer M) : bool :=
  match r with
  | AEnqueue (inr ErrQueueIO) | APeek (inr ErrQueueIO) | AAck (Some ErrQueueIO) => true
  | _ => false
  end.

(** [PublisherQueue], with the law an implementation promises: while fewer
    than 2^63 - 1 sequence numbers are used, it answers a call it accepts
    like the contract, or the medium fails the call and nothing changes. *)
Class PublisherQueue (Q M : Type) : Type := {
  call : queue_call M -> Q -> Q * queue_answer M;
  queue_accepts : queue_call M -> Prop;
  holds_queue : Q -> option (holding M) -> Prop;
  call_law c q a :
    queue_accepts c -> holds_queue q a -> (forall h, a = Some h -> last_seq h < 2 ^ 63 - 1) ->
    (holds_queue (fst (call c q)) (fst (spec_call c a)) /\ snd (call c q) = snd (spec_call c a))
    \/ (holds_queue (fst (call c q)) a /\ failed (snd (call c q)) = true);
}.

Definition mem_call {M} (zero : M) (c : queue_call M) (q : MemoryPublisherQueue M) : MemoryPublisherQueue M * queue_answer M :=
  match c with
  | QEnqueue m limit => let (q, r) := mem_Enqueue zero m limit q in (q, AEnqueue r)
  | QPeek after n => (q, APeek (mem_Peek zero after n q))
  | QAck seq => let (q, r) := mem_Ack zero seq q in (q, AAck r)
  | QLen => (q, ALen (mem_Len q))
  | QClose => (mem_Close q, AClose)
  end.

(** ** MemoryPublisherQueue implements it *)

Section refinement.
Context {M : Type} (zero : M).
Implicit Types (q : MemoryPublisherQueue M) (l : list (memQueueEntry M)).

(** The entries a slice of the queue holds. *)
Definition alive l : list (QueueEntry M) := e <$> filter (fun x => acked x = false) l.

Lemma alive_app l k : alive (l ++ k) = alive l ++ alive k.
Proof. unfold alive. by rewrite filter_app, fmap_app. Qed.

Lemma alive_cons x l : alive (x :: l) = if acked x then alive l else e x :: alive l.
Proof.
  unfold alive. rewrite filter_cons. case_decide as H; destruct (acked x); done.
Qed.

Definition by_number (x y : memQueueEntry M) : Prop := Seq (e x) < Seq (e y).

(** The slots in use. *)
Definition slots q : list (memQueueEntry M) := drop (head q) (entries q).

Record good q : Prop := {
  gd_head : (head q <= length (entries q))%nat;
  gd_sorted : StronglySorted by_number (slots q);
  gd_range : Forall (fun x => 0 < Seq (e x) <= nextSeq q) (slots q);
  gd_count : count q = len (alive (slots q));
  gd_next : 0 <= nextSeq q < 2 ^ 64;
}.

(** *** Searching *)

Lemma at_index_lookup l i x : l !! i = Some x -> at_index zero l i = x.
Proof. unfold at_index. by intros ->. Qed.

Lemma sorted_lookup l i j x y : StronglySorted by_number l -> (i < j)%nat -> l !! i = Some x -> l !! j = Some y -> Seq (e x) < Seq (e y).
Proof.
  intros Hs. revert i j. induction Hs as [|z l _ IH Hz]; intros i j Hij Hx Hy; [done|]. destruct j as [|j]; [lia|]. destruct i as [|i].
  - injection Hx as ->. apply (proj1 (Forall_forall _ _) Hz y). by apply (list_elem_of_lookup_2 _ j).
  - by apply (IH i j); [lia|..].
Qed.

(** Where the numbers pass [s] in a sorted slice. *)
Lemma search_split l s :
  StronglySorted by_number l ->
  let n := Search (length l) (fun i => s <? Seq (e (at_index zero l i))) in
  drop n l = filter (fun x => s < Seq (e x)) l /\ take n l = filter (fun x => ~ s < Seq (e x)) l.
Proof.
  intros Hs n. assert (T : turns (length l) (fun i => s <? Seq (e (at_index zero l i))) n).
  { apply Search_turns. intros a b Hab. rewrite !Z.ltb_lt. destruct (lookup_lt_is_Some_2 l a) as [x Hx]; [lia|].
    destruct (lookup_lt_is_Some_2 l b) as [y Hy]; [lia|]. rewrite (at_index_lookup _ _ _ Hx), (at_index_lookup _ _ _ Hy).
    destruct (decide (a = b)) as [->|Hne]; [congruence|]. pose proof (sorted_lookup l a b x y Hs ltac:(lia) Hx Hy). lia. }
  assert (Hlo : forall x, x ∈ take n l -> ~ s < Seq (e x)).
  { intros x (i & Hi)%list_elem_of_lookup. apply lookup_take_Some in Hi as [Hi Hlt]. pose proof (tn_below _ _ _ T i Hlt) as E. cbv beta in E.
    rewrite (at_index_lookup _ _ _ Hi) in E. apply Z.ltb_ge in E. lia. }
  assert (Hhi : forall x, x ∈ drop n l -> s < Seq (e x)).
  { intros x (i & Hi)%list_elem_of_lookup. rewrite lookup_drop in Hi. pose proof (lookup_lt_Some _ _ _ Hi).
    pose proof (tn_above _ _ _ T (n + i)%nat ltac:(lia)) as E. cbv beta in E. rewrite (at_index_lookup _ _ _ Hi) in E. by apply Z.ltb_lt in E. }
  split; [symmetry; by apply filter_drop|]. rewrite <- (take_drop n l) at 2. rewrite filter_app.
  rewrite list_filter_all by done. rewrite list_filter_none; [by rewrite app_nil_r|]. intros x Hx Hn. by apply Hn, Hhi.
Qed.

Lemma search_slots q s :
  good q ->
  let i := search zero s q in
  (head q <= i <= length (entries q))%nat /\ drop i (entries q) = filter (fun x => s < Seq (e x)) (slots q)
  /\ entries q = take (head q) (entries q) ++ filter (fun x => ~ s < Seq (e x)) (slots q) ++ drop i (entries q)
  /\ length (take (head q) (entries q) ++ filter (fun x => ~ s < Seq (e x)) (slots q)) = i.
Proof.
  intros G i. pose proof (gd_head _ G) as Hh. destruct (search_split (slots q) s (gd_sorted _ G)) as [H1 H2].
  set (n := Search (length (slots q)) (fun i => s <? Seq (e (at_index zero (slots q) i)))) in *.
  assert (Ei : i = (head q + n)%nat).
  { unfold i, search, n, slots. rewrite length_drop. f_equal. unfold Search.
    assert (Hf : forall fuel a b, Search_loop fuel a b (fun i => s <? Seq (e (at_index zero (entries q) (head q + i))))
              = Search_loop fuel a b (fun i => s <? Seq (e (at_index zero (drop (head q) (entries q)) i)))); [|apply Hf].
    induction fuel as [|fuel IH]; intros a b; cbn [Search_loop]; [done|]. unfold at_index. rewrite lookup_drop. by rewrite !IH. }
  assert (Hn : (n <= length (slots q))%nat).
  { unfold n. apply (tn_le _ (fun i => s <? Seq (e (at_index zero (slots q) i)))), Search_turns. intros a b Hab. rewrite !Z.ltb_lt.
    destruct (lookup_lt_is_Some_2 (slots q) a) as [x Hx]; [lia|]. destruct (lookup_lt_is_Some_2 (slots q) b) as [y Hy]; [lia|].
    rewrite (at_index_lookup _ _ _ Hx), (at_index_lookup _ _ _ Hy). destruct (decide (a = b)) as [->|Hne]; [congruence|].
    pose proof (sorted_lookup _ a b x y (gd_sorted _ G) ltac:(lia) Hx Hy). lia. }
  assert (Hd : drop i (entries q) = drop n (slots q)) by (unfold slots; rewrite drop_drop, Ei; done).
  unfold slots in Hn. rewrite length_drop in Hn. split_and!; [lia|lia|by rewrite Hd| |].
  - rewrite Hd, <- H2, take_drop. unfold slots. by rewrite take_drop.
  - rewrite length_app, <- H2, !length_take. unfold slots. rewrite length_drop. lia.
Qed.

(** *** Reclaiming *)

Lemma skip_acked_spec fuel : forall h l,
  (h <= length l)%nat -> (length l - h <= fuel)%nat ->
  let (h', l') := skip_acked zero fuel h l in
  (h <= h' <= length l)%nat /\ length l' = length l /\ drop h' l' = drop h' l /\ alive (drop h' l) = alive (drop h l).
Proof.
  induction fuel as [|fuel IH]; intros h l Hh Hf; cbn [skip_acked]; [by split_and!|].
  destruct (Nat.ltb_spec h (length l)) as [Hlt|Hge]; cbn [andb]; [|by split_and!].
  destruct (acked (at_index zero l h)) eqn:Ha; [|by split_and!].
  specialize (IH (S h) (<[h := zeroEntry zero]> l)). rewrite length_insert in IH. specialize (IH ltac:(lia) ltac:(lia)).
  destruct (skip_acked zero fuel (S h) _) as [h' l']. destruct IH as (H1 & H2 & H3 & H4).
  rewrite (drop_insert_lt l h') in H3, H4 by lia. rewrite (drop_insert_lt l (S h)) in H4 by lia. split_and!; try done; [lia|lia|].
  rewrite H4. destruct (lookup_lt_is_Some_2 l h Hlt) as [x Hx]. rewrite (drop_S l x h Hx), alive_cons. rewrite (at_index_lookup _ _ _ Hx) in Ha. by rewrite Ha.
Qed.

(** Memory follows what the queue holds. *)
Definition tidy q : Prop :=
  let hd := Z.of_nat (head q) in
  let holes := len (entries q) - hd - count q in
  (hd <= 1024 \/ hd <= len (entries q) / 2) /\ (holes <= 64 \/ holes <= count q).

Lemma alive_filter l : alive (filter (fun x => acked x = false) l) = alive l.
Proof. unfold alive. rewrite list_filter_filter_l; [done|tauto]. Qed.

Lemma reclaim_good q : good q -> good (reclaim zero q) /\ tidy (reclaim zero q) /\ alive (slots (reclaim zero q)) = alive (slots q)
  /\ nextSeq (reclaim zero q) = nextSeq q /\ closed (reclaim zero q) = closed q.
Proof.
  intros [Hh Hs Hr Hc Hn]. unfold reclaim. pose proof (skip_acked_spec (length (entries q)) (head q) (entries q) Hh ltac:(lia)) as H.
  destruct (skip_acked zero _ (head q) (entries q)) as [h l]. destruct H as (H1 & H2 & H3 & H4). cbn zeta.
  set (q1 := q <| head := h |> <| entries := l |>). assert (Hd : slots q1 = drop (h - head q) (slots q)).
  { change (drop h l = drop (h - head q) (drop (head q) (entries q))). rewrite H3, drop_drop. f_equal. lia. }
  assert (Ha : alive (slots q1) = alive (slots q)) by (change (slots q1) with (drop h l); by rewrite H3, H4).
  assert (G1 : good q1).
  { split; rewrite ?Hd; try done.
    - change (h <= length l)%nat. lia.
    - by apply StronglySorted_drop.
    - by apply Forall_drop.
    - change (count q1) with (count q). by rewrite Hc, <- Ha, Hd. }
  change (count q1) with (count q). destruct (_ && _) eqn:Hb.
  - split; [done|]. split; [|done]. apply andb_true_iff in Hb as [Hb1 Hb2]. apply orb_true_iff in Hb1, Hb2. rewrite !Z.leb_le in Hb1, Hb2. by split.
  - set (k := filter (fun x => acked x = false) (drop h l)). assert (Hk : alive k = alive (slots q)) by (unfold k; rewrite alive_filter; exact Ha).
    assert (Hlen : len (alive k) = len k).
    { unfold alive, k. rewrite list_filter_filter_l by tauto. unfold len. by rewrite length_fmap. }
    split_and!; try done.
    + split; try done.
      * change (0 <= length k)%nat. lia.
      * change (slots (q1 <| entries := k |> <| head := 0%nat |>)) with k. unfold k. apply StronglySorted_filter. change (StronglySorted by_number (slots q1)). apply G1.
      * change (slots (q1 <| entries := k |> <| head := 0%nat |>)) with k. apply Forall_forall. intros x [_ Hx]%list_elem_of_filter.
        apply (proj1 (Forall_forall _ _) (gd_range _ G1)). exact Hx.
      * change (count q = len (alive k)). by rewrite Hc, Hk.
    + unfold tidy. change (len (entries (q1 <| entries := k |> <| head := 0%nat |>))) with (len k).
      change (count (q1 <| entries := k |> <| head := 0%nat |>)) with (count q). change (Z.of_nat (head (q1 <| entries := k |> <| head := 0%nat |>))) with 0.
      rewrite <- Hlen, Hk, <- Hc. split; left; lia.
Qed.

(** *** Evicting and peeking *)

(** The first [need] entries of a slice become holes. *)
Fixpoint punch l (need : Z) : list (memQueueEntry M) :=
  match l with
  | [] => []
  | x :: l => if 0 <? need then if acked x then x :: punch l need else hole zero (Seq (e x)) :: punch l (need - 1) else x :: l
  end.

Lemma alive_punch l : forall need, alive (punch l need) = zdrop need (alive l).
Proof.
  induction l as [|x l IH]; intros need; cbn [punch]; [unfold zdrop; by destruct (Z.to_nat need)|].
  destruct (Z.ltb_spec 0 need) as [Hn|Hn]; [|by rewrite zdrop_nonpos by lia]. rewrite alive_cons. destruct (acked x) eqn:Ha.
  - by rewrite alive_cons, Ha.
  - rewrite alive_cons. cbn [acked hole]. by rewrite zdrop_cons, IH by lia.
Qed.

Definition numbers l : list Z := (fun x => Seq (e x)) <$> l.

Lemma numbers_punch l : forall need, numbers (punch l need) = numbers l.
Proof.
  induction l as [|x l IH]; intros need; cbn [punch]; [done|]. destruct (0 <? need); [|done]. unfold numbers in *.
  destruct (acked x); cbn; f_equal; apply IH.
Qed.

Lemma sorted_numbers l : StronglySorted by_number l <-> StronglySorted Z.lt (numbers l).
Proof.
  induction l as [|x l IH]; [split; constructor|]. unfold numbers in *. cbn. split; intros H; apply StronglySorted_inv in H as [H Hx].
  - constructor; [by apply IH|]. apply Forall_fmap. exact Hx.
  - constructor; [by apply IH|]. rewrite Forall_fmap in Hx. exact Hx.
Qed.

Lemma range_numbers n l : Forall (fun x => 0 < Seq (e x) <= n) l <-> Forall (fun z => 0 < z <= n) (numbers l).
Proof. unfold numbers. by rewrite Forall_fmap. Qed.

Lemma len_pick l : forall i need, 0 <= need -> len (pick l i need) = Z.min need (len (alive l)).
Proof.
  induction l as [|x l IH]; intros i need Hn; cbn [pick]; [unfold len; cbn; lia|]. rewrite alive_cons.
  destruct (Z.ltb_spec 0 need) as [Hp|Hp]; [|rewrite len_nil; destruct (acked x); slia]. destruct (acked x); [by apply IH|].
  rewrite !len_cons, IH by lia. lia.
Qed.

Lemma evict_all l : forall i need pre ev,
  length pre = i -> fold_left (evict zero) (pick l i need) (pre ++ l, ev) = (pre ++ punch l need, ev ++ ztake need (alive l)).
Proof.
  induction l as [|x l IH]; intros i need pre ev Hi; cbn [pick punch fold_left].
  { rewrite app_nil_r. f_equal. unfold ztake. cbn. by rewrite firstn_nil, app_nil_r. }
  rewrite alive_cons. destruct (Z.ltb_spec 0 need) as [Hn|Hn].
  2: { cbn [fold_left]. rewrite ztake_nonpos by lia. by rewrite app_nil_r. }
  assert (Hpre : pre ++ x :: l = (pre ++ [x]) ++ l) by (by rewrite <- app_assoc). destruct (acked x).
  - rewrite Hpre, (IH (S i) need (pre ++ [x]) ev) by (rewrite length_app; cbn; lia). by rewrite <- app_assoc.
  - cbn [fold_left evict]. assert (Hx : at_index zero (pre ++ x :: l) i = x) by (apply at_index_lookup; by apply list_lookup_middle).
    rewrite Hx. assert (Hs : <[i := hole zero (Seq (e x))]> (pre ++ x :: l) = (pre ++ [hole zero (Seq (e x))]) ++ l).
    { rewrite <- Hi, <- (Nat.add_0_r (length pre)), insert_app_r. cbn. by rewrite <- app_assoc. }
    rewrite Hs, (IH (S i) (need - 1) _ (ev ++ [e x])) by (rewrite length_app; cbn; lia). rewrite ztake_cons by lia. by rewrite <- !app_assoc.
Qed.

Lemma peek_alive l : forall n, peek_loop l n = ztake n (alive l).
Proof.
  induction l as [|x l IH]; intros n; cbn [peek_loop]; [unfold ztake; by rewrite firstn_nil|]. rewrite alive_cons.
  destruct (Z.ltb_spec 0 n) as [Hn|Hn]; [|by rewrite ztake_nonpos by lia]. destruct (acked x); [apply IH|]. by rewrite ztake_cons, IH by lia.
Qed.

(** The entries among the slots above, and up to, a number. *)
Lemma alive_above l s : alive (filter (fun x => s < Seq (e x)) l) = above s (alive l).
Proof.
  unfold above. induction l as [|x l IH]; [done|]. rewrite filter_cons, (alive_cons x l). destruct (decide _) as [Hs|Hs].
  - rewrite alive_cons. destruct (acked x); [done|]. by rewrite filter_cons, decide_True, IH.
  - destruct (acked x); [done|]. by rewrite filter_cons, decide_False.
Qed.

Lemma alive_upto l s : alive (filter (fun x => ~ s < Seq (e x)) l) = upto s (alive l).
Proof.
  unfold upto. induction l as [|x l IH]; [done|]. rewrite filter_cons, (alive_cons x l). destruct (decide _) as [Hs|Hs].
  - rewrite alive_cons. destruct (acked x); [done|]. by rewrite filter_cons, decide_True, IH.
  - destruct (acked x); [done|]. by rewrite filter_cons, decide_False.
Qed.

(** *** The simulation *)

Definition mem_holds q (a : option (holding M)) : Prop :=
  match a with
  | None => closed q = true /\ entries q = [] /\ count q = 0
  | Some h => closed q = false /\ good q /\ tidy q /\ last_seq h = nextSeq q /\ items h = alive (slots q)
  end.

Lemma add_good m q :
  good q -> tidy q -> nextSeq q < 2 ^ 64 - 1 ->
  let q' := q <| nextSeq := nextSeq q + 1 |> <| entries ::= fun l => l ++ [mkMem (mkEntry (nextSeq q + 1) m) false] |> <| count ::= Z.succ |> in
  good q' /\ tidy q' /\ alive (slots q') = alive (slots q) ++ [mkEntry (nextSeq q + 1) m].
Proof.
  intros [Hh Hs Hr Hc Hn] [Ht1 Ht2] Hb q'. set (x := mkMem (mkEntry (nextSeq q + 1) m) false).
  assert (Hd : slots q' = slots q ++ [x]) by (unfold slots; change (drop (head q) (entries q ++ [x]) = drop (head q) (entries q) ++ [x]); by apply drop_app_le).
  assert (Ha : alive (slots q') = alive (slots q) ++ [mkEntry (nextSeq q + 1) m]) by (by rewrite Hd, alive_app).
  assert (Hl : len (entries q') = len (entries q) + 1) by (change (entries q') with (entries q ++ [x]); slia).
  change (nextSeq q') with (nextSeq q + 1) in *. split_and!; [split| |done].
  - change (entries q') with (entries q ++ [x]). rewrite length_app. change (head q') with (head q). lia.
  - rewrite Hd. apply StronglySorted_app_2; [|done|repeat constructor]. intros y z Hy ->%list_elem_of_singleton.
    pose proof (proj1 (Forall_forall _ _) Hr y Hy) as Hy2. cbn beta in Hy2. unfold by_number, x. cbn [e Seq]. lia.
  - rewrite Hd. change (nextSeq q') with (nextSeq q + 1). apply Forall_app. split; [eapply Forall_impl; [exact Hr|]; cbn; lia|]. apply Forall_singleton. cbn. lia.
  - rewrite Ha. change (count q') with (Z.succ (count q)). slia.
  - change (nextSeq q') with (nextSeq q + 1). lia.
  - unfold tidy. rewrite Hl. change (head q') with (head q). change (count q') with (Z.succ (count q)). split; [|lia].
    destruct Ht1; [by left|right]. pose proof (Z.div_le_mono (len (entries q)) (len (entries q) + 1) 2). lia.
Qed.

(** The end of [Enqueue], in [mem_Enqueue]'s words. *)
Lemma add_holds m q (h : holding M) (ev : list (QueueEntry M)) :
  good q -> tidy q -> closed q = false -> nextSeq q = last_seq h -> last_seq h < 2 ^ 64 - 1 ->
  let q1 := q <| nextSeq ::= fun n => u64 (n + 1) |> in
  let q2 := q1 <| entries ::= fun l => l ++ [mkMem (mkEntry (nextSeq q1) m) false] |> <| count ::= Z.succ |> in
  mem_holds q2 (fst (spec_add m (alive (slots q)) (last_seq h) ev)) /\ inl (nextSeq q2, ev) = snd (spec_add m (alive (slots q)) (last_seq h) ev).
Proof.
  intros G T C N Hb q1 q2. assert (Hu : u64 (nextSeq q + 1) = nextSeq q + 1) by (unfold u64; pose proof (gd_next _ G); rewrite Z.mod_small; lia).
  destruct (add_good m q G T ltac:(lia)) as (G2 & T2 & A2).
  assert (Eq : q2 = q <| nextSeq := nextSeq q + 1 |> <| entries ::= fun l => l ++ [mkMem (mkEntry (nextSeq q + 1) m) false] |> <| count ::= Z.succ |>).
  { transitivity (mkQueue (closed q) (u64 (nextSeq q + 1)) (entries q ++ [mkMem (mkEntry (u64 (nextSeq q + 1)) m) false]) (head q) (Z.succ (count q))); [done|].
    by rewrite Hu. }
  rewrite Eq. unfold spec_add. cbn [fst snd]. split; [|f_equal; f_equal; cbn; lia]. split_and!; try done; [cbn; lia|]. cbn [items]. rewrite A2. do 3 f_equal. lia.
Qed.

(** Evicting the oldest [need] entries above [keep]. *)
Lemma evict_good keep need q :
  good q -> 0 <= need <= len (above keep (alive (slots q))) ->
  let i := search zero keep q in
  let (l, ev) := fold_left (evict zero) (pick (drop i (entries q)) i need) (entries q, []) in
  let q1 := q <| entries := l |> <| count ::= fun c => c - need |> in
  good q1 /\ ev = ztake need (above keep (alive (slots q)))
  /\ alive (slots q1) = upto keep (alive (slots q)) ++ zdrop need (above keep (alive (slots q))).
Proof.
  intros G Hneed i. destruct (search_slots q keep G) as (Hi & Hd & He & Hl). fold i in Hi, Hd, He, Hl.
  set (lo := filter (fun x => ~ keep < Seq (e x)) (slots q)) in *. set (hi := drop i (entries q)) in *.
  assert (Ahi : alive hi = above keep (alive (slots q))) by (rewrite Hd; apply alive_above).
  assert (Alo : alive lo = upto keep (alive (slots q))) by apply alive_upto.
  rewrite He, app_assoc, (evict_all hi i need _ []) by done. rewrite <- app_assoc.
  set (l := take (head q) (entries q) ++ lo ++ punch hi need). intros q1.
  assert (Hsl : slots q1 = lo ++ punch hi need).
  { change (drop (head q) l = lo ++ punch hi need). unfold l. apply drop_app_length'. rewrite length_take. pose proof (gd_head _ G). lia. }
  assert (Hsq : slots q = lo ++ hi).
  { unfold slots. rewrite He at 1. apply drop_app_length'. rewrite length_take. pose proof (gd_head _ G). lia. }
  assert (Hnum : numbers (slots q1) = numbers (slots q)).
  { rewrite Hsl, Hsq. unfold numbers. rewrite !fmap_app. f_equal. apply numbers_punch. }
  assert (Hal : alive (slots q1) = upto keep (alive (slots q)) ++ zdrop need (above keep (alive (slots q)))).
  { rewrite Hsl, alive_app, Alo, alive_punch. by rewrite Ahi. }
  split_and!; [|by rewrite Ahi|done]. destruct G as [Gh Gs Gr Gc Gn]. split; try done.
  - change (head q1) with (head q). change (entries q1) with l. unfold l. rewrite !length_app, length_take. lia.
  - apply sorted_numbers. rewrite Hnum. by apply sorted_numbers.
  - apply range_numbers. rewrite Hnum. by apply range_numbers.
  - change (count q1) with (count q - need). rewrite Hal, len_app, len_zdrop by lia.
    assert (E : len (alive (slots q)) = len (upto keep (alive (slots q))) + len (above keep (alive (slots q)))).
    { rewrite <- Alo, <- Ahi, <- len_app, <- alive_app. by rewrite <- Hsq. }
    rewrite Gc. lia.
Qed.

Lemma mem_Enqueue_ok m limit q h :
  mem_holds q (Some h) -> last_seq h < 2 ^ 64 - 1 ->
  mem_holds (fst (mem_Enqueue zero m limit q)) (fst (spec_Enqueue m limit (Some h)))
  /\ snd (mem_Enqueue zero m limit q) = snd (spec_Enqueue m limit (Some h)).
Proof.
  intros (Hcl & G & T & El & Ei) Hb. unfold mem_Enqueue, spec_Enqueue. rewrite Hcl. cbn zeta. rewrite Ei, <- (gd_count _ G). destruct (_ && _) eqn:Hm.
  2: { destruct (add_holds m q h [] G T Hcl (eq_sym El) Hb) as [H1 H2]. by split. }
  destruct (Policy limit) eqn:Hp; [rewrite decide_True by done; rewrite decide_False by done; by split_and!|].
  rewrite decide_False by (intros Hn; by apply Hn). rewrite decide_True by done. set (need := count q - Max limit + 1) in *.
  assert (Hneed : 0 < need) by (unfold need; apply andb_true_iff in Hm as [_ Hm]; apply Z.leb_le in Hm; lia).
  assert (Hd : alive (drop (search zero (Keep limit) q) (entries q)) = above (Keep limit) (alive (slots q))).
  { destruct (search_slots q (Keep limit) G) as (_ & -> & _). apply alive_above. }
  rewrite len_pick, Hd by lia. destruct (Z.leb_spec need (len (above (Keep limit) (alive (slots q))))) as [Hle|Hgt].
  2: { rewrite (proj2 (Z.ltb_lt _ _)) by lia. by split_and!. }
  rewrite (proj2 (Z.ltb_ge _ _)), Z.min_l by lia. pose proof (evict_good (Keep limit) need q G ltac:(lia)) as HE. cbv zeta in HE.
  destruct (fold_left _ _ _) as [l ev]. destruct HE as (G1 & -> & Hal). set (q1 := q <| entries := l |> <| count ::= fun c => c - need |>) in *.
  destruct (reclaim_good q1 G1) as (G2 & T2 & A2 & N2 & C2).
  destruct (add_holds m (reclaim zero q1) h (ztake need (above (Keep limit) (alive (slots q)))) G2 T2) as [H1 H2];
    [rewrite C2; done|rewrite N2; symmetry; exact El|done|]. rewrite A2, Hal in H1, H2. by split.
Qed.

(** *** Acknowledging *)

(** The slot [Ack] looks at. *)
Lemma ack_slot seq q :
  good q -> 0 <= seq < 2 ^ 64 ->
  let i := search zero (u64 (seq - 1)) q in
  if ((i <? length (entries q))%nat && (Seq (e (at_index zero (entries q) i)) =? seq) && negb (acked (at_index zero (entries q) i)))
  then exists lo x hi, entries q = take (head q) (entries q) ++ lo ++ x :: hi /\ slots q = lo ++ x :: hi
    /\ length (take (head q) (entries q) ++ lo) = i /\ Seq (e x) = seq /\ acked x = false
  else Forall (fun x => Seq x <> seq) (alive (slots q)).
Proof.
  intros G Hseq i. destruct (search_slots q (u64 (seq - 1)) G) as (Hi & Hd & He & Hl). fold i in Hi, Hd, He, Hl.
  set (lo := filter (fun x => ~ u64 (seq - 1) < Seq (e x)) (slots q)) in *.
  assert (Hsq : slots q = lo ++ drop i (entries q)).
  { unfold slots. rewrite He at 1. apply drop_app_length'. rewrite length_take. pose proof (gd_head _ G). lia. }
  assert (Hlow : seq <> 0 -> forall x, x ∈ lo -> Seq (e x) < seq).
  { intros Hnz x [Hx _]%list_elem_of_filter. unfold u64 in Hx. rewrite Z.mod_small in Hx; lia. }
  assert (Hpos : forall x, x ∈ slots q -> 0 < Seq (e x)) by (intros x Hx; by apply (proj1 (Forall_forall _ _) (gd_range _ G) x Hx)).
  destruct (drop i (entries q)) as [|x hi] eqn:Ed.
  { assert (length (entries q) <= i)%nat by (apply (f_equal length) in Ed; rewrite length_drop in Ed; cbn in Ed; lia).
    rewrite (proj2 (Nat.ltb_ge _ _)) by lia. cbn [andb]. apply Forall_forall. intros y (x & -> & [_ Hx]%list_elem_of_filter)%list_elem_of_fmap.
    pose proof (Hpos x Hx). rewrite Hsq, app_nil_r in Hx. intros Hy. pose proof (Hlow ltac:(lia) x Hx). lia. }
  assert (Hx : entries q !! i = Some x) by (rewrite <- (Nat.add_0_r i), <- lookup_drop, Ed; done).
  rewrite (at_index_lookup _ _ _ Hx), (proj2 (Nat.ltb_lt _ _)) by (by apply lookup_lt_Some in Hx). cbn [andb].
  destruct (Z.eqb_spec (Seq (e x)) seq) as [Hs|Hs]; cbn [andb]; [destruct (acked x) eqn:Ha|]; cbn [negb].
  2: { exists lo, x, hi. by split_and!. }
  all: apply Forall_forall; intros y (z & -> & [Hza Hz]%list_elem_of_filter)%list_elem_of_fmap Hy; pose proof (Hpos z Hz) as Hzp;
    pose proof (gd_sorted _ G) as Hso; rewrite Hsq in Hz, Hso; apply elem_of_app in Hz as [Hz|Hz]; [pose proof (Hlow ltac:(lia) z Hz); lia|];
    apply StronglySorted_app in Hso as (_ & _ & Hso); apply StronglySorted_inv in Hso as [_ Hso];
    apply elem_of_cons in Hz as [->|Hz]; [congruence|]; pose proof (proj1 (Forall_forall _ _) Hso z Hz) as Hlt; unfold by_number in Hlt.
  - lia.
  - assert (Hxi : x ∈ filter (fun x => u64 (seq - 1) < Seq (e x)) (slots q)) by (rewrite <- Hd; left).
    apply list_elem_of_filter in Hxi as [Hxi _]. unfold u64 in Hxi. rewrite Z.mod_small in Hxi by lia. lia.
Qed.

Lemma mem_Ack_ok seq q h :
  0 <= seq < 2 ^ 64 -> mem_holds q (Some h) ->
  mem_holds (fst (mem_Ack zero seq q)) (fst (spec_Ack seq (Some h))) /\ snd (mem_Ack zero seq q) = snd (spec_Ack seq (Some h)).
Proof.
  intros Hseq (Hcl & G & T & El & Ei). unfold mem_Ack, spec_Ack. rewrite Hcl. cbn zeta. pose proof (ack_slot seq q G Hseq) as HA. cbv zeta in HA.
  destruct (_ && _); cbn [fst snd].
  2: { split; [|done]. split_and!; try done. cbn [items]. rewrite Ei. apply list_filter_all. by apply Forall_forall. }
  destruct HA as (lo & x & hi & He & Hsq & Hi & Hs & Hx). set (i := search zero (u64 (seq - 1)) q) in *.
  set (q1 := q <| entries ::= <[i := hole zero seq]> |> <| count ::= Z.pred |>). set (pre := take (head q) (entries q)) in *.
  assert (Hent : entries q1 = pre ++ lo ++ hole zero seq :: hi).
  { change (<[i := hole zero seq]> (entries q) = pre ++ lo ++ hole zero seq :: hi). rewrite He, app_assoc, <- Hi, <- (Nat.add_0_r (length (pre ++ lo))), insert_app_r.
    cbn [insert list_insert]. by rewrite <- app_assoc. }
  assert (Hpre : length pre = head q) by (unfold pre; rewrite length_take; pose proof (gd_head _ G); lia).
  assert (Hsl : slots q1 = lo ++ hole zero seq :: hi) by (unfold slots; rewrite Hent; change (head q1) with (head q); by apply drop_app_length').
  assert (Hnum : numbers (slots q1) = numbers (slots q)) by (rewrite Hsl, Hsq; unfold numbers; rewrite !fmap_app, !fmap_cons; cbn [hole e Seq]; by rewrite Hs).
  assert (G1 : good q1).
  { destruct G as [Gh Gs Gr Gc Gn]. split; try done.
    - rewrite Hent, length_app, Hpre. change (head q1) with (head q). lia.
    - apply sorted_numbers. rewrite Hnum. by apply sorted_numbers.
    - apply range_numbers. rewrite Hnum. by apply range_numbers.
    - change (count q1) with (Z.pred (count q)). rewrite Gc, Hsq, Hsl, !alive_app, !alive_cons, Hx. cbn [hole acked]. slia. }
  destruct (reclaim_good q1 G1) as (G2 & T2 & A2 & N2 & C2). split; [|done]. split_and!; try done; [rewrite C2; done|cbn [last_seq]; rewrite N2; exact El|].
  cbn [items]. rewrite A2, Ei, Hsl, Hsq, !alive_app, !alive_cons, Hx. cbn [hole acked]. rewrite filter_app, filter_cons, decide_False by tauto.
  pose proof (gd_sorted _ G) as Hso. rewrite Hsq in Hso. apply StronglySorted_app in Hso as (Hlo & _ & Hhi). apply StronglySorted_inv in Hhi as [_ Hhi].
  f_equal; apply list_filter_all; intros y (z & -> & [_ Hz]%list_elem_of_filter)%list_elem_of_fmap.
  - pose proof (Hlo z x Hz ltac:(left)). unfold by_number in *. lia.
  - pose proof (proj1 (Forall_forall _ _) Hhi z Hz). unfold by_number in *. lia.
Qed.

Lemma mem_Peek_ok after n q h : mem_holds q (Some h) -> mem_Peek zero after n q = spec_Peek after n (Some h).
Proof.
  intros (Hcl & G & T & El & Ei). unfold mem_Peek, spec_Peek. rewrite Hcl. f_equal. rewrite peek_alive, Ei.
  destruct (search_slots q after G) as (_ & -> & _). by rewrite alive_above.
Qed.

Lemma new_holds : mem_holds NewMemoryPublisherQueue (Some (mkHolding 0 [])).
Proof. repeat split; try (left; done); try done; constructor. Qed.

Lemma holds_bounded q a : mem_holds q a -> len (entries q) <= 1152 + 4 * count q.
Proof.
  destruct a as [h|]; cbn.
  - intros (_ & G & [T1 T2] & _). pose proof (len_nonneg (alive (slots q))). rewrite <- (gd_count _ G) in *.
    pose proof (Z.mul_div_le (len (entries q)) 2 ltac:(lia)). lia.
  - intros (_ & -> & ->). done.
Qed.

Lemma mem_call_law c q a :
  call_ok c -> mem_holds q a -> (forall h, a = Some h -> last_seq h < 2 ^ 64 - 1) ->
  mem_holds (fst (mem_call zero c q)) (fst (spec_call c a)) /\ snd (mem_call zero c q) = snd (spec_call c a).
Proof.
  intros Hok Hq Hb. destruct a as [h|].
  - specialize (Hb h eq_refl). destruct c as [m limit|after n|seq| |]; cbn [mem_call spec_call call_ok] in *.
    + pose proof (mem_Enqueue_ok m limit q h Hq Hb) as [H1 H2]. destruct (mem_Enqueue _ _ _ _), (spec_Enqueue _ _ _). cbn in *. by subst.
    + rewrite (mem_Peek_ok after n q h Hq). by split.
    + pose proof (mem_Ack_ok seq q h Hok Hq) as [H1 H2]. destruct (mem_Ack _ _ _), (spec_Ack _ _). cbn in *. by subst.
    + destruct Hq as (Hcl & G & T & El & Ei). split; [by split_and!|]. unfold mem_Len, spec_Len. by rewrite Hcl, Ei, (gd_count _ G).
    + by split.
  - destruct Hq as [Hcl Hq]. destruct c; cbn; unfold mem_Enqueue, mem_Peek, mem_Ack, mem_Len; by rewrite ?Hcl.
Qed.

Lemma mem_never_fails c q : failed (snd (mem_call zero c q)) = false.
Proof.
  destruct c as [m limit|after n|seq| |]; cbn; unfold mem_Enqueue, mem_Peek, mem_Ack, mem_Len; repeat case_match; simplify_eq/=; done.
Qed.

#[export] Instance MemoryPublisherQueue_queue : PublisherQueue (MemoryPublisherQueue M) M := {
  call := mem_call zero;
  queue_accepts := call_ok;
  holds_queue := mem_holds;
  call_law c q a Hc Hq Hb := or_introl (mem_call_law c q a Hc Hq (fun h E => Z.lt_trans _ _ _ (Hb h E) (ltac:(done) : 2 ^ 63 - 1 < 2 ^ 64 - 1)));
}.
End refinement.

(** ** Clients of a queue *)

Section clients.
Context {Q M : Type} `{!PublisherQueue Q M}.

(** A sequence of calls and its answers. *)
Fixpoint run_calls (cs : list (queue_call M)) (q : Q) : Q * list (queue_answer M) :=
  match cs with
  | [] => (q, [])
  | c :: cs => let (q, r) := call c q in let (q, rs) := run_calls cs q in (q, r :: rs)
  end.

Fixpoint run_spec (cs : list (queue_call M)) (a : option (holding M)) : option (holding M) * list (queue_answer M) :=
  match cs with
  | [] => (a, [])
  | c :: cs => let (a, r) := spec_call c a in let (a, rs) := run_spec cs a in (a, r :: rs)
  end.

Lemma spec_call_seq (c : queue_call M) a h h' : a = Some h -> fst (spec_call c a) = Some h' -> last_seq h <= last_seq h' <= last_seq h + 1.
Proof.
  intros ->. destruct c as [m limit|after n|seq| |]; cbn; unfold spec_Enqueue, spec_add.
  - intros Hh. repeat case_match; simplify_eq/=; lia.
  - intros [= <-]. lia.
  - intros [= <-]. cbn. lia.
  - intros [= <-]. lia.
  - done.
Qed.

(** [last] never returns once a queue is closed. *)
Lemma spec_call_closed (c : queue_call M) : fst (spec_call c None) = None.
Proof. by destruct c. Qed.

(** The contract with the calls that the medium fails left out. *)
Inductive answers_like : option (holding M) -> list (queue_call M) -> list (queue_answer M) -> option (holding M) -> Prop :=
| like_nil a : answers_like a [] [] a
| like_ok a c cs rs a' : answers_like (fst (spec_call c a)) cs rs a' -> answers_like a (c :: cs) (snd (spec_call c a) :: rs) a'
| like_failed a c r cs rs a' : failed r = true -> answers_like a cs rs a' -> answers_like a (c :: cs) (r :: rs) a'.

(** An implementation answers a sequence of calls like the contract. *)
Lemma run_calls_law cs : forall q a,
  Forall queue_accepts cs -> holds_queue q a -> (forall h, a = Some h -> last_seq h + len cs < 2 ^ 63) ->
  exists a', holds_queue (fst (run_calls cs q)) a' /\ answers_like a cs (snd (run_calls cs q)) a'.
Proof.
  induction cs as [|c cs IH]; intros q a Hok Hq Hb; [exists a; split; [done|constructor]|]. inversion_clear Hok as [|? ? Hc Hcs]. cbn [run_calls].
  rewrite len_cons in Hb. pose proof (len_nonneg cs). pose proof (call_law c q a Hc Hq ltac:(intros h Hh; specialize (Hb h Hh); lia)) as HL.
  destruct (call c q) as [q1 r1]. cbn [fst snd] in HL. destruct HL as [[H1 ->]|[H1 H2]].
  - assert (Hb' : forall h', fst (spec_call c a) = Some h' -> last_seq h' + len cs < 2 ^ 63).
    { intros h' Hh'. destruct a as [h|]; [|by rewrite spec_call_closed in Hh']. specialize (Hb h eq_refl). pose proof (spec_call_seq c _ h h' eq_refl Hh'). lia. }
    destruct (IH q1 _ Hcs H1 Hb') as (a' & H3 & H4). destruct (run_calls cs q1). exists a'. split; [done|]. by apply like_ok.
  - destruct (IH q1 a Hcs H1) as (a' & H3 & H4); [intros h Hh; specialize (Hb h Hh); lia|]. destruct (run_calls cs q1). exists a'. split; [done|]. by apply like_failed.
Qed.

(** Where nothing fails, the answers are the contract's. *)
Lemma answers_exact a cs rs a' : answers_like a cs rs a' -> Forall (fun r => failed r = false) rs -> run_spec cs a = (a', rs).
Proof.
  induction 1 as [a|a c cs rs a' _ IH|a c r cs rs a' Hf _ IH]; intros Hn; [done|..]; inversion_clear Hn as [|? ? Hr Hn']; [|congruence].
  specialize (IH Hn'). cbn [run_spec]. destruct (spec_call c a) as [a1 r1]. cbn [fst snd] in *. by rewrite IH.
Qed.
End clients.

Lemma run_never_fails {M} (zero : M) cs : forall q,
  Forall (fun r => failed r = false) (snd (run_calls (PublisherQueue0 := MemoryPublisherQueue_queue zero) cs q)).
Proof.
  induction cs as [|c cs IH]; intros q; [constructor|]. cbn [run_calls]. pose proof (mem_never_fails zero c q) as Hf. change (call c q) with (mem_call zero c q).
  destruct (mem_call zero c q) as [q1 r]. specialize (IH q1). destruct (run_calls cs q1). by constructor.
Qed.

Lemma run_mem {M} (zero : M) cs :
  Forall call_ok cs -> len cs < 2 ^ 63 ->
  let r := run_calls (PublisherQueue0 := MemoryPublisherQueue_queue zero) cs NewMemoryPublisherQueue in
  exists a, mem_holds (fst r) a /\ answers_like (Some (mkHolding 0 [])) cs (snd r) a.
Proof.
  intros Hok Hlen. apply (run_calls_law (PublisherQueue0 := MemoryPublisherQueue_queue zero)); [done|apply new_holds|]. by intros h [= <-].
Qed.

(** ** Properties *)

(** Any sequence of fewer than 2^63 calls to a new
    [MemoryPublisherQueue] — [Enqueue], [Peek], [Ack], [Len] and [Close],
    with arguments of their Go types — is answered exactly as the
    [PublisherQueue] contract says: sequence numbers count up from one,
    [Peek] gives the unacknowledged entries above a number oldest first, a
    full queue refuses or evicts the oldest entries above [Keep], and a
    closed queue refuses.  Binary search over a slice with holes, and
    compaction, are not visible. *)
Theorem memory_queue_refines {M} (zero : M) (cs : list (queue_call M)) :
  Forall call_ok cs -> len cs < 2 ^ 63 ->
  snd (run_calls (PublisherQueue0 := MemoryPublisherQueue_queue zero) cs NewMemoryPublisherQueue) = snd (run_spec cs (Some (mkHolding 0 []))).
Proof.
  intros Hok Hlen. destruct (run_mem zero cs Hok Hlen) as (a & _ & H). by rewrite (answers_exact _ _ _ _ H (run_never_fails zero cs NewMemoryPublisherQueue)).
Qed.

(** The slice of a [MemoryPublisherQueue] follows what the queue
    holds and not the traffic it has seen: after any sequence of calls it
    has at most 1152 slots and four more for each entry held. *)
Theorem memory_queue_bounded {M} (zero : M) (cs : list (queue_call M)) :
  Forall call_ok cs -> len cs < 2 ^ 63 ->
  let q := fst (run_calls (PublisherQueue0 := MemoryPublisherQueue_queue zero) cs NewMemoryPublisherQueue) in
  len (entries q) <= 1152 + 4 * count q.
Proof.
  intros Hok Hlen q. destruct (run_mem zero cs Hok Hlen) as (a & H & _). exact (holds_bounded _ _ H).
Qed.

(** Entries are enqueued, acknowledged out of order and evicted. *)
Definition sample_calls : list (queue_call Z) :=
  [QEnqueue 10 (mkLimit 3 DropOldest 0); QEnqueue 11 (mkLimit 3 DropOldest 0); QEnqueue 12 (mkLimit 3 DropOldest 0); QAck 2;
   QEnqueue 13 (mkLimit 3 DropOldest 0); QEnqueue 14 (mkLimit 3 DropOldest 1); QAck 0; QPeek 0 2; QPeek 1 9; QLen; QClose; QLen].

Lemma sample_calls_ok : Forall call_ok sample_calls.
Proof. unfold sample_calls. repeat constructor; cbn; lia. Qed.

Lemma memory_queue_refines_witness :
  snd (run_calls (PublisherQueue0 := MemoryPublisherQueue_queue 0) sample_calls NewMemoryPublisherQueue)
  = [AEnqueue (inl (1, [])); AEnqueue (inl (2, [])); AEnqueue (inl (3, [])); AAck None; AEnqueue (inl (4, []));
     AEnqueue (inl (5, [mkEntry 3 12])); AAck None; APeek (inl [mkEntry 1 10; mkEntry 4 13]);
     APeek (inl [mkEntry 4 13; mkEntry 5 14]); ALen (inl 3); AClose; ALen (inr ErrQueueClosed)].
Proof.
  rewrite (memory_queue_refines 0 sample_calls sample_calls_ok); [|done]. vm_compute. reflexivity.
Defined.

Lemma memory_queue_bounded_witness :
  let q := fst (run_calls (PublisherQueue0 := MemoryPublisherQueue_queue 0) (take 7 sample_calls) NewMemoryPublisherQueue) in
  len (entries q) <= 1152 + 4 * count q /\ len (entries q) = 5 /\ count q = 3.
Proof.
  split; [apply (memory_queue_bounded 0 (take 7 sample_calls)); [apply Forall_take, sample_calls_ok|done]|]. by vm_compute.
Defined.

End Queue.
