(* ===== verification/ClientErrors.v ===== *)
(** * ClientErrors: the client's errors (types.go, queue_publisher.go, subscription.go)

    The client's sentinels, a broker's refusal with its reason code, the
    reconnect limit, wrapping, and the classifications the client builds on
    them with [errors.Is] and [errors.As]. *)

From S2P Require Import Prelude GoLib Errors.

Module ClientErrors.

(** Sentinels of the client; the ones it shares with the wire package are
    [Wire]'s. *)
Inductive client_sentinel : Type :=
| ErrNotConnected
| ErrClosed
| ErrConnectRefused
| ErrSessionLost
| ErrMessageExpired
| ErrPacketIDsExhausted
| ErrStoreFailed
| ErrReconnectLimit
| ErrQoSNotSupported
| ErrTopicAliasInvalid
| ErrRetainNotSupported
| ErrPacketTooLarge
| ErrNotAuthorized
| ErrQuotaExceeded
| ErrTopicNameInvalid
| ErrPayloadFormatInvalid
| ErrSharedSubsUnsupported
| ErrWildcardSubsUnsupported
| ErrQueueFull
| ErrQoS0NotQueueable
| Wire (s : sentinel).

#[export] Instance client_sentinel_eq_dec : EqDecision client_sentinel.
Proof. solve_decision. Defined.

Definition ErrInvalidTopic : client_sentinel := Wire Errors.ErrInvalidTopic.
Definition ErrInvalidField : client_sentinel := Wire Errors.ErrInvalidField.
Definition ErrFieldTooLong : client_sentinel := Wire ErrStringTooLong.

(** Reason codes a client branches on. *)
Definition ReasonNotAuthorized : Z := 0x87.
Definition ReasonTopicNameInvalid : Z := 0x90.
Definition ReasonPacketTooLarge : Z := 0x95.
Definition ReasonQuotaExceeded : Z := 0x97.
Definition ReasonPayloadFormatInvalid : Z := 0x99.
Definition ReasonRetainNotSupported : Z := 0x9A.
Definition ReasonQoSNotSupported : Z := 0x9B.

(** [ReasonCodeError], without its diagnostics. *)
Record ReasonCodeError : Type := mkReason { Packet : Z; Code : Z }.

(** An error of the client: a sentinel, an error of the wire package, a
    broker's refusal, a [ReconnectLimitError] with its last failure, a
    [StoreError] with the store's, or an error that wraps others. *)
#[local] Set Warnings "-register-all".
Inductive cerror : Type :=
| CSentinel (s : client_sentinel)
| CWire (e : error)
| CReason (e : ReasonCodeError)
| CReconnectLimit (last : option cerror)
| CStore (e : cerror)
| CErrorf (format : string) (wrapped : list cerror)
| COther (tag : Z).

(** [ReasonCodeError.Is] *)
Definition ReasonCodeError_Is (e : ReasonCodeError) (t : client_sentinel) : bool :=
  match t with
  | ErrConnectRefused => Packet e =? CONNACK
  | ErrNotAuthorized => Code e =? ReasonNotAuthorized
  | ErrQuotaExceeded => Code e =? ReasonQuotaExceeded
  | ErrTopicNameInvalid => Code e =? ReasonTopicNameInvalid
  | ErrPayloadFormatInvalid => Code e =? ReasonPayloadFormatInvalid
  | ErrPacketTooLarge => Code e =? ReasonPacketTooLarge
  | _ => false
  end.

(** [errors.Is(e, t)]; [ReconnectLimitError.Unwrap] is [ErrReconnectLimit] and
    [ErrClosed], [StoreError.Unwrap] is [ErrStoreFailed] and the store's. *)
Fixpoint Is (e : cerror) (t : client_sentinel) : bool :=
  match e with
  | CSentinel s => bool_decide (s = t)
  | CWire e => match t with Wire s => errors_is e s | _ => false end
  | CReason r => ReasonCodeError_Is r t
  | CReconnectLimit _ => bool_decide (t = ErrReconnectLimit) || bool_decide (t = ErrClosed)
  | CStore e => bool_decide (t = ErrStoreFailed) || Is e t
  | CErrorf _ ws => existsb (fun w => Is w t) ws
  | COther _ => false
  end.

(** [errors.As(e, *ReasonCodeError)]: the first one in [e]'s tree. *)
Fixpoint As_reason (e : cerror) : option ReasonCodeError :=
  match e with
  | CReason r => Some r
  | CStore e => As_reason e
  | CErrorf _ ws => fold_right (fun w acc => match As_reason w with Some r => Some r | None => acc end) None ws
  | _ => None
  end.

(** [PermanentPublishError] *)
Definition permanent_codes : list Z :=
  [ReasonNotAuthorized; ReasonTopicNameInvalid; ReasonPacketTooLarge;
   ReasonPayloadFormatInvalid; ReasonRetainNotSupported; ReasonQoSNotSupported].

Definition permanent_sentinels : list client_sentinel :=
  [ErrQoSNotSupported; ErrRetainNotSupported; ErrPacketTooLarge;
   ErrInvalidTopic; ErrInvalidField; ErrFieldTooLong; ErrTopicAliasInvalid].

Definition PermanentPublishError (e : cerror) : bool :=
  match As_reason e with
  | Some rc => existsb (Z.eqb (Code rc)) permanent_codes
  | None => existsb (Is e) permanent_sentinels
  end.

End ClientErrors.
