(* ===== verification/Message.v ===== *)
(** * Message: messages to publish (types.go)

    [PublishOptions], what an application publishes, its encoding as a PUBLISH
    packet for tools and storage formats, and the way back. *)

From S2P Require Import Prelude GoLib Errors Buffers Varint Fields PropView Utf8 Topics Validate PropLists Frames.
From S2P Require Import Publish Acks Connect Subscribe Decoder Stream Refusals Codec.

Module Message.

Record PublishOptions : Type := mkOptions {
  o_Topic : list Z;
  o_Payload : list Z;
  o_QoS : Z;
  o_Retain : bool;
  o_PayloadFormatIndicator : option Z;
  o_MessageExpiryInterval : option Z;
  o_ContentType : list Z;
  o_ResponseTopic : list Z;
  o_CorrelationData : option (list Z);
  o_TopicAlias : Z;
  o_UserProperties : list UserProperty;
}.

#[export] Instance PublishOptions_rebuild : Rebuild PublishOptions := fun o =>
  mkOptions (o_Topic o) (o_Payload o) (o_QoS o) (o_Retain o) (o_PayloadFormatIndicator o) (o_MessageExpiryInterval o)
    (o_ContentType o) (o_ResponseTopic o) (o_CorrelationData o) (o_TopicAlias o) (o_UserProperties o).

(** What a [QueueEntry] of a publisher queue holds besides its sequence
    number; times in Unix nanoseconds, [None] for the zero time. *)
Record entry_body : Type := mkBody { ID : list Z; Pub : PublishOptions; EnqueuedAt : option Z; ExpiresAt : option Z }.

(** [PublishOptions.wire], with the packet identifier the caller sets next. *)
Definition wire (o : PublishOptions) (id : Z) : PublishOpts := {|
  Topic := o_Topic o; Payload := o_Payload o; QoS := o_QoS o; Retain := o_Retain o; Dup := false; PacketID := id;
  PayloadFormatIndicator := o_PayloadFormatIndicator o; MessageExpiryInterval := o_MessageExpiryInterval o;
  ContentType := o_ContentType o; ResponseTopic := o_ResponseTopic o; CorrelationData := o_CorrelationData o;
  TopicAlias := o_TopicAlias o; UserProps := o_UserProperties o;
|}.

Definition publishOptionsOf (w : PublishOpts) : PublishOptions := {|
  o_Topic := Topic w; o_Payload := Payload w; o_QoS := QoS w; o_Retain := Retain w;
  o_PayloadFormatIndicator := PayloadFormatIndicator w; o_MessageExpiryInterval := MessageExpiryInterval w;
  o_ContentType := ContentType w; o_ResponseTopic := ResponseTopic w; o_CorrelationData := CorrelationData w;
  o_TopicAlias := TopicAlias w; o_UserProperties := UserProps w;
|}.

Definition EncodePublish (o : PublishOptions) (id : Z) : wres (list Z) := MarshalPublish (wire o id).

(** The decoder is strict and without a limit. *)
Definition DecodePublish `{BufferPool} (frame : list Z) : wres (PublishOptions * Z) :=
  let! (pkt, _) := snd (ReadPacket (mkDecoder 0 false) (mkReader frame (Sentinel EOF))) in
  match pkt with
  | PPublish pub => let! w := Opts pub in Ok (publishOptionsOf w, PacketID w)
  | _ => failf "mqttv5: frame holds %s, not PUBLISH" []
  end.

(** Messages that can be sent with packet identifier [id]. *)
Definition sendable_as (o : PublishOptions) (id : Z) : Prop :=
  publish_typed (wire o id) /\ publish_valid (wire o id) /\ publish_fits (wire o id).

Lemma encode_sendable o id : sendable_as o id -> EncodePublish o id = Ok (enc_publish (wire o id)) /\ bytes (enc_publish (wire o id)).
Proof. intros (H1 & H2 & H3). split; [by apply MarshalPublish_spec|by apply bytes_enc_publish]. Qed.

Lemma decode_sendable `{BufferPool} o id : sendable_as o id -> 0 < o_QoS o -> DecodePublish (enc_publish (wire o id)) = Ok (o, id).
Proof.
  intros Hs Hq. unfold DecodePublish. rewrite enc_publish_packet. pose proof (ReadPacket_format (mkDecoder 0 false) (wire o id) [] (Sentinel EOF) Hs) as E.
  rewrite app_nil_r in E. unfold encoding in E. cbn in E. cbn. rewrite E; [|constructor|by left]. cbn [snd rbind].
  destruct Hs as (H1 & H2 & _). rewrite Opts_publish_of by done. cbn [rbind]. unfold publish_normal, publishOptionsOf, wire. cbn.
  rewrite (proj2 (Z.ltb_lt _ _)) by done. by destruct o.
Qed.

(** Decoding never panics. *)
Lemma DecodePublish_total `{BufferPool} frame : bytes frame -> no_panic (DecodePublish frame).
Proof.
  intros Hb. unfold DecodePublish. pose proof (ReadPacket_no_panic (mkDecoder 0 false) (mkReader frame (Sentinel EOF)) Hb) as Hn.
  pose proof (fun p r' => ReadPacket_packet_ok (mkDecoder 0 false) (mkReader frame (Sentinel EOF)) p r' Hb) as Hp.
  destruct (snd (ReadPacket (mkDecoder 0 false) (mkReader frame (Sentinel EOF)))) as [[pkt r]|e|]; cbn [rbind]; [|done|done].
  destruct pkt; try done. destruct (Hp _ _ eq_refl) as [[_ Hraw] _]. apply no_panic_bind; [|by intros ? _]. unfold Opts. do 6 (apply no_panic_bind;
    [first [by apply Byte_no_panic|by apply PUint32_no_panic|by apply PString_no_panic|by apply PUint16_no_panic]|intros ? _]).
  apply no_panic_bind; [apply UserProperties_loop_no_panic; unfold len; lia || done|by intros ? _].
Qed.

End Message.
