(* ===== verification/Checksum.v ===== *)
(** * Checksum: sealed values (internal/filedb/filedb.go)

    CRC32C as hash/crc32 computes it, and the checksum the file store and
    the file queue put after each value.  Besides the round trip, the lemmas
    say which damage a checksum always shows. *)

From S2P Require Import Prelude GoLib Varint PropView.

Module Checksum.

(** ** hash/crc32 *)

Definition poly : Z := 0x82f63b78.

Definition table_bit (crc : Z) : Z := if Z.odd crc then Z.lxor (Z.shiftr crc 1) poly else Z.shiftr crc 1.

(** [crc32.MakeTable(crc32.Castagnoli)] *)
Definition castagnoli : list Z := Eval vm_compute in map (fun i => Nat.iter 8 table_bit (Z.of_nat i)) (seq 0 256).

Definition entry (i : Z) : Z := nth (Z.to_nat i) castagnoli 0.

(** One byte of [crc32.Update]. *)
Definition update1 (crc v : Z) : Z := Z.lxor (entry (Z.lxor (u8 crc) v)) (Z.shiftr crc 8).

Definition flip (crc : Z) : Z := Z.lxor crc 0xFFFFFFFF.

Definition Checksum (b : list Z) : Z := flip (fold_left update1 b (flip 0)).

(** ** Sealing *)

(** Why a stored value cannot be used. *)
Inductive decode_error : Type :=
| TooShort
| ChecksumMismatch
| UnsupportedLayout
| TruncatedField (field : string)
| BadKey
| BadPublish.

Definition Seal (b : list Z) : list Z := b ++ be32 (Checksum b).

Definition Unseal (v : list Z) : res decode_error (list Z) :=
  if len v <? 4 then Err TooShort
  else
    let! body := slice v 0 (len v - 4) in
    let! tail := from v (len v - 4) in
    let! sum := Uint32 tail in
    if negb (Checksum body =? sum) then Err ChecksumMismatch else Ok body.

(** ** What a checksum shows *)

Example castagnoli_check : Checksum (str "123456789") = 0xE3069283.
Proof. reflexivity. Qed.

Lemma entry_range i : is_u8 i -> is_u32 (entry i).
Proof.
  intros Hi. assert (E : (0 <=? entry i) && (entry i <? 2 ^ 32) = true) by byte_cases i.
  apply andb_true_iff in E as [E1%Z.leb_le E2%Z.ltb_lt]. done.
Qed.

(** The first bytes of the table are all different. *)
Lemma entry_top i j : is_u8 i -> is_u8 j -> Z.shiftr (entry i) 24 = Z.shiftr (entry j) 24 -> i = j.
Proof.
  intros Hi Hj E. assert (P : forallb (fun j => negb (Z.shiftr (entry i) 24 =? Z.shiftr (entry j) 24) || (i =? j)) (map Z.of_nat (seq 0 256)) = true) by byte_cases i.
  pose proof (forall_u8 _ P j Hj) as Q. cbn beta in Q. rewrite E, Z.eqb_refl in Q. by apply Z.eqb_eq in Q.
Qed.

Lemma lxor_range n a b : 0 <= n -> 0 <= a < 2 ^ n -> 0 <= b < 2 ^ n -> 0 <= Z.lxor a b < 2 ^ n.
Proof.
  intros Hn Ha Hb. split; [by apply Z.lxor_nonneg; lia|]. destruct (Z.eq_dec (Z.lxor a b) 0) as [->|Hz]; [lia|].
  apply Z.log2_lt_pow2; [assert (0 <= Z.lxor a b) by (apply Z.lxor_nonneg; lia); lia|].
  eapply Z.le_lt_trans; [apply Z.log2_lxor; lia|]. apply Z.max_lub_lt.
  - destruct (Z.eq_dec a 0) as [->|]; [cbn; destruct (Z.eq_dec n 0) as [->|]; [|lia]|apply Z.log2_lt_pow2; lia].
    exfalso. apply Hz. assert (b = 0) as -> by (cbn in Hb; lia). reflexivity.
  - destruct (Z.eq_dec b 0) as [->|]; [cbn; destruct (Z.eq_dec n 0) as [->|]; [|lia]|apply Z.log2_lt_pow2; lia].
    exfalso. apply Hz. assert (a = 0) as -> by (cbn in Ha; lia). reflexivity.
Qed.

Lemma lxor_inj_l a b c : Z.lxor a b = Z.lxor a c -> b = c.
Proof.
  intros E. apply (f_equal (Z.lxor a)) in E. by rewrite <- !Z.lxor_assoc, Z.lxor_nilpotent, !Z.lxor_0_l in E.
Qed.

Lemma lxor_inj_r a b c : Z.lxor b a = Z.lxor c a -> b = c.
Proof. rewrite !(Z.lxor_comm _ a). apply lxor_inj_l. Qed.

Lemma index_u8 s v : is_u8 v -> is_u8 (Z.lxor (u8 s) v).
Proof. intros Hv. apply (lxor_range 8); [lia|apply u8_range|done]. Qed.

Lemma update1_range s v : is_u32 s -> is_u8 v -> is_u32 (update1 s v).
Proof.
  intros Hs Hv. unfold update1. apply (lxor_range 32); [lia|by apply entry_range, index_u8|]. unfold is_u32 in Hs. rewrite Z.shiftr_div_pow2 by lia. pow2. dlia.
Qed.

Lemma run_range l : forall s, is_u32 s -> bytes l -> is_u32 (fold_left update1 l s).
Proof. induction l as [|v l IH]; intros s Hs Hl; [done|]. apply bytes_cons in Hl as [Hv Hl]. apply IH; [by apply update1_range|done]. Qed.

(** One round backwards: the table index and the upper bits of the state. *)
Lemma update1_back s v s' v' k :
  is_u32 s -> is_u32 s' -> is_u8 v -> is_u8 v' -> 0 <= k <= 24 -> Z.shiftr (update1 s v) k = Z.shiftr (update1 s' v') k ->
  Z.lxor (u8 s) v = Z.lxor (u8 s') v' /\ Z.shiftr s (k + 8) = Z.shiftr s' (k + 8).
Proof.
  intros Hs Hs' Hv Hv' Hk E. assert (Hi : Z.lxor (u8 s) v = Z.lxor (u8 s') v').
  { apply entry_top; [by apply index_u8..|]. apply (f_equal (fun x => Z.shiftr x (24 - k))) in E. revert E. unfold update1.
    rewrite !Z.shiftr_shiftr by lia. replace (k + (24 - k)) with 24 by lia. rewrite !Z.shiftr_lxor, !Z.shiftr_shiftr by lia.
    rewrite (Z.shiftr_div_pow2 s), (Z.shiftr_div_pow2 s') by lia. change (2 ^ (8 + 24)) with (2 ^ 32). rewrite !Z.div_small by done. by rewrite !Z.lxor_0_r. }
  split; [done|]. unfold update1 in E. rewrite Hi, !Z.shiftr_lxor in E. apply lxor_inj_l in E. rewrite !Z.shiftr_shiftr in E by lia. by rewrite Z.add_comm.
Qed.

Lemma update1_state s s' v : is_u32 s -> is_u32 s' -> is_u8 v -> update1 s v = update1 s' v -> s = s'.
Proof.
  intros Hs Hs' Hv E. destruct (update1_back s v s' v 0) as [H1 H2]; [done..|lia|by rewrite E|]. apply lxor_inj_r in H1.
  change (0 + 8) with 8 in H2. rewrite !Z.shiftr_div_pow2 in H2 by lia. unfold u8 in H1. pose proof (Z.div_mod s (2 ^ 8)). pose proof (Z.div_mod s' (2 ^ 8)). lia.
Qed.

Lemma run_state l : forall s s', is_u32 s -> is_u32 s' -> bytes l -> fold_left update1 l s = fold_left update1 l s' -> s = s'.
Proof.
  induction l as [|v l IH]; intros s s' Hs Hs' Hl E; [done|]. apply bytes_cons in Hl as [Hv Hl]. apply (update1_state s s' v); try done.
  apply IH; try done; by apply update1_range.
Qed.

Lemma run_back l : forall l' s s' k,
  is_u32 s -> is_u32 s' -> bytes l -> bytes l' -> length l = length l' -> 0 <= k -> k + 8 * len l <= 32 ->
  Z.shiftr (fold_left update1 l s) k = Z.shiftr (fold_left update1 l' s') k -> Z.shiftr s (k + 8 * len l) = Z.shiftr s' (k + 8 * len l).
Proof.
  induction l as [|v l IH]; intros [|v' l'] s s' k Hs Hs' Hl Hl' Hlen Hk Hb E; try done; [change (len (@nil Z)) with 0; by rewrite Z.add_0_r|].
  apply bytes_cons in Hl as [Hv Hl], Hl' as [Hv' Hl']. injection Hlen as Hlen. rewrite len_cons in *. pose proof (len_nonneg l). cbn [fold_left] in E.
  apply IH in E; try done; try lia; [|by apply update1_range..]. apply update1_back in E as [_ E]; try done; [|lia].
  by replace (k + 8 * (1 + len l)) with (k + 8 * len l + 8) by lia.
Qed.

(** Four bytes or fewer are determined by the state they lead to. *)
Lemma run_inj l : forall l' s,
  is_u32 s -> bytes l -> bytes l' -> length l = length l' -> len l <= 4 -> fold_left update1 l s = fold_left update1 l' s -> l = l'.
Proof.
  induction l as [|v l IH]; intros [|v' l'] s Hs Hl Hl' Hlen Hb E; try done. apply bytes_cons in Hl as [Hv Hl], Hl' as [Hv' Hl'].
  injection Hlen as Hlen. rewrite len_cons in Hb. pose proof (len_nonneg l). cbn [fold_left] in E.
  assert (Hvv : v = v').
  { pose proof (run_back l l' (update1 s v) (update1 s v') 0) as H0. rewrite E in H0. specialize (H0 ltac:(by apply update1_range) ltac:(by apply update1_range) Hl Hl' Hlen ltac:(lia) ltac:(lia) eq_refl).
    apply update1_back in H0 as [H0 _]; try done; [|lia]. by apply lxor_inj_l in H0. }
  subst v'. f_equal. apply (IH l' (update1 s v)); try done; [by apply update1_range|lia].
Qed.

Lemma flip_range s : is_u32 s -> is_u32 (flip s).
Proof. intros Hs. unfold flip. apply (lxor_range 32); [lia|done|lia]. Qed.

Lemma Checksum_range b : bytes b -> is_u32 (Checksum b).
Proof. intros Hb. apply flip_range, run_range; [by apply flip_range|done]. Qed.

(** Damage within four consecutive bytes changes the checksum. *)
Lemma Checksum_burst pre l l' post :
  bytes (pre ++ l ++ post) -> bytes l' -> length l = length l' -> len l <= 4 -> Checksum (pre ++ l ++ post) = Checksum (pre ++ l' ++ post) -> l = l'.
Proof.
  intros Hb Hl' Hlen H4 E. apply bytes_app in Hb as [Hpre Hb]. apply bytes_app in Hb as [Hl Hpost]. unfold Checksum in E.
  apply (lxor_inj_r 0xFFFFFFFF) in E. rewrite !fold_left_app in E.
  assert (Hs : is_u32 (fold_left update1 pre (flip 0))) by (apply run_range; [by apply flip_range|done]).
  apply run_state in E; try done; [|by apply run_range..]. by apply run_inj in E.
Qed.

(** ** Sealed values *)

Lemma bytes_Seal b : bytes b -> bytes (Seal b).
Proof. intros Hb. apply bytes_app. split; [done|apply bytes_be32]. Qed.

Lemma Unseal_app b w : is_u32 w -> Unseal (b ++ be32 w) = if Checksum b =? w then Ok b else Err ChecksumMismatch.
Proof.
  intros Hw. unfold Unseal. rewrite len_app, len_be32. pose proof (len_nonneg b). rewrite (proj2 (Z.ltb_ge _ _)) by lia.
  rewrite slice0_app by lia. cbn [rbind]. rewrite from_app by lia. cbn [rbind]. rewrite <- (app_nil_r (be32 w)), Uint32_be32 by done. cbn [rbind]. by destruct (_ =? _).
Qed.

Lemma Unseal_Seal b : bytes b -> Unseal (Seal b) = Ok b.
Proof. intros Hb. unfold Seal. rewrite Unseal_app by (by apply Checksum_range). by rewrite Z.eqb_refl. Qed.

(** A value splits into a body and a checksum. *)
Lemma sealed_split v : bytes v -> 4 <= len v -> exists b w, v = b ++ be32 w /\ is_u32 w.
Proof.
  intros Hv Hl. destruct (split_at (len v - 4) v) as (b & t & -> & Hb); [lia|]. apply bytes_app in Hv as [_ Ht]. rewrite len_app in *.
  destruct (Uint32_inv t Ht) as (w & t' & -> & Hw); [lia|]. rewrite len_app, len_be32 in *. assert (t' = []) as -> by (apply len_0_nil; pose proof (len_nonneg t'); lia).
  exists b, w. by rewrite app_nil_r.
Qed.

Lemma Unseal_inv v b : bytes v -> Unseal v = Ok b -> v = Seal b.
Proof.
  intros Hv E. destruct (Z.lt_ge_cases (len v) 4) as [Hl|Hl]; [unfold Unseal in E; by rewrite (proj2 (Z.ltb_lt _ _)) in E|].
  destruct (sealed_split v Hv Hl) as (b' & w & -> & Hw). rewrite Unseal_app in E by done. destruct (Z.eqb_spec (Checksum b') w) as [<-|]; [|done]. by injection E as ->.
Qed.

Lemma Unseal_total v : bytes v -> no_panic (Unseal v).
Proof.
  intros Hv. destruct (Z.lt_ge_cases (len v) 4) as [Hl|Hl]; [unfold Unseal; rewrite (proj2 (Z.ltb_lt _ _)) by done; done|].
  destruct (sealed_split v Hv Hl) as (b' & w & -> & Hw). rewrite Unseal_app by done. by destruct (_ =? _).
Qed.

(** Damage within four consecutive bytes of the body, or within the checksum. *)
Lemma damage_shows b pre l l' post :
  bytes b -> Seal b = pre ++ l ++ post -> bytes l' -> length l = length l' -> len l <= 4 -> l <> l' ->
  len pre + len l <= len b \/ len b <= len pre -> Unseal (pre ++ l' ++ post) = Err ChecksumMismatch.
Proof.
  intros Hb E Hl' Hlen H4 Hne Hwhere. pose proof (Checksum_range b Hb) as Hw. assert (Hv : bytes (pre ++ l ++ post)) by (rewrite <- E; by apply bytes_Seal).
  apply bytes_app in Hv as [Hpre Hv]. apply bytes_app in Hv as [Hl Hpost]. destruct Hwhere as [Hin|Hout].
  - destruct (split_at (len b - (len pre + len l)) post) as (p1 & p2 & -> & Hp1).
    { apply (f_equal len) in E. unfold Seal in E. rewrite !len_app, len_be32 in E. lia. }
    assert (b = pre ++ l ++ p1 /\ be32 (Checksum b) = p2) as [Eb <-].
    { apply app_inj_1; [|unfold Seal in E; rewrite E; by rewrite <- !app_assoc]. unfold len in *. rewrite !length_app. lia. }
    replace (pre ++ l' ++ p1 ++ be32 (Checksum b)) with ((pre ++ l' ++ p1) ++ be32 (Checksum b)) by (by rewrite <- !app_assoc).
    rewrite Unseal_app by done. destruct (Z.eqb_spec (Checksum (pre ++ l' ++ p1)) (Checksum b)) as [Ec|]; [|done]. exfalso. apply Hne.
    rewrite Eb in Ec, Hb. by apply (Checksum_burst pre l l' p1).
  - destruct (split_at (len b) pre) as (b' & p1 & -> & Hb'); [pose proof (len_nonneg b); lia|]. rewrite <- app_assoc in E. unfold Seal in E.
    apply app_inj_1 in E as [<- E]; [|unfold len in *; lia]. apply bytes_app in Hpre as [_ Hp1].
    assert (Hc : bytes (p1 ++ l' ++ post)) by (rewrite !bytes_app; done). destruct (Uint32_inv _ Hc) as (w & t & Et & Hw').
    { apply (f_equal len) in E. rewrite len_be32, !len_app in E. rewrite !len_app. unfold len in *. lia. }
    assert (t = []) as ->. { apply len_0_nil. apply (f_equal len) in E, Et. rewrite len_be32, !len_app in E. rewrite !len_app, len_be32 in Et. unfold len in *. lia. }
    rewrite app_nil_r in Et. rewrite <- app_assoc, Et, Unseal_app by done. destruct (Z.eqb_spec (Checksum b) w) as [<-|]; [|done]. exfalso. apply Hne.
    rewrite E in Et. apply app_inv_head in Et. apply app_inj_1 in Et as [-> _]; done.
Qed.

(** ** 64-bit fields *)

(** [binary.BigEndian.Uint64(b)] *)
Definition Uint64 {E} (b : list Z) : res E Z :=
  let! hi := Uint32 b in
  let! rest := from b 4 in
  let! lo := Uint32 rest in
  Ok (Z.lor lo (Z.shiftl hi 32)).

(** [int64(x)] of a uint64 *)
Definition i64 (x : Z) : Z := if x <? 2 ^ 63 then x else x - 2 ^ 64.

Definition is_u64 (x : Z) : Prop := 0 <= x < 2 ^ 64.
Definition is_i64 (x : Z) : Prop := - 2 ^ 63 <= x < 2 ^ 63.

Lemma i64_u64 x : is_i64 x -> i64 (u64 x) = x.
Proof. unfold is_i64, i64, u64. intros H. destruct (Z.ltb_spec (x mod 2 ^ 64) (2 ^ 63)); change (2 ^ 63) with 9223372036854775808 in *; pow2; dlia. Qed.

Lemma u64_range x : is_u64 (u64 x).
Proof. by apply Z.mod_pos_bound. Qed.

Lemma len_be64 v : len (be64 v) = 8.
Proof. reflexivity. Qed.

Lemma bytes_be64 v : bytes (be64 v).
Proof. apply bytes_app. split; apply bytes_be32. Qed.

Lemma Uint64_be64 {E} v post : is_u64 v -> @Uint64 E (be64 v ++ post) = Ok v.
Proof.
  intros Hv. unfold Uint64, be64. rewrite <- app_assoc. assert (Hhi : is_u32 (Z.shiftr v 32)) by (unfold is_u64, is_u32 in *; rewrite Z.shiftr_div_pow2 by lia; pow2; dlia).
  rewrite Uint32_be32 by done. cbn [rbind]. rewrite from_app by done. cbn [rbind].
  assert (Hlo : be32 v = be32 (u32 v)).
  { unfold be32. rewrite !Z.shiftr_div_pow2 by lia. unfold u8, u32. pow2. do 4 (apply (f_equal2 cons); [dlia|]). done. }
  rewrite Hlo, Uint32_be32 by apply u32_range. cbn [rbind]. f_equal. rewrite lor_shiftl_add; [|lia|apply u32_range]. rewrite Z.shiftr_div_pow2 by lia. unfold u32.
  pose proof (Z.div_mod v (2 ^ 32)). lia.
Qed.

Lemma be64_inj a b : is_u64 a -> is_u64 b -> be64 a = be64 b -> a = b.
Proof.
  intros Ha Hb E. pose proof (@Uint64_be64 unit a [] Ha) as H1. rewrite E, Uint64_be64 in H1 by done. congruence.
Qed.

(** *** Optional fields *)

(** [flags&bit != 0] *)
Definition has (flags bit : Z) : bool := negb (Z.land flags bit =? 0).

Definition bit_if (c : bool) (bit : Z) : Z := if c then bit else 0.

(** An optional field of [n] bytes of a stored value, decoded by [get]. *)
Definition field {A} (present : bool) (n : Z) (what : string) (zero : A) (get : list Z -> res decode_error A) (rest : list Z)
    : res decode_error (A * list Z) :=
  if present then
    if len rest <? n then Err (TruncatedField what)
    else let! x := get rest in let! rest := from rest n in Ok (x, rest)
  else Ok (zero, rest).

Lemma field_some {A} n what (zero : A) get pre rest x :
  len pre = n -> get (pre ++ rest) = Ok x -> field true n what zero get (pre ++ rest) = Ok (x, rest).
Proof.
  intros Hn Hg. unfold field. rewrite (proj2 (Z.ltb_ge _ _)) by (rewrite len_app; pose proof (len_nonneg rest); lia). rewrite Hg. cbn [rbind].
  by rewrite from_app.
Qed.

Lemma Uint32_some {E} b : 4 <= len b -> exists x, @Uint32 E b = Ok x.
Proof.
  intros H. unfold Uint32. destruct (@idx_ok E b 3) as [x ->]; [lia|]. destruct (@idx_ok E b 2) as [y ->]; [lia|].
  destruct (@idx_ok E b 1) as [z ->]; [lia|]. destruct (@idx_ok E b 0) as [w ->]; [lia|]. cbn [rbind]. eauto.
Qed.

Lemma Uint64_some {E} b : 8 <= len b -> exists x, @Uint64 E b = Ok x.
Proof.
  intros H. unfold Uint64. destruct (@Uint32_some E b) as [x ->]; [lia|]. cbn [rbind]. rewrite from_ok by lia. cbn [rbind].
  destruct (@Uint32_some E (zdrop 4 b)) as [y ->]; [rewrite len_zdrop by lia; lia|]. cbn [rbind]. eauto.
Qed.

Lemma field_total {A} present n what (zero : A) get rest :
  0 <= n -> (n <= len rest -> exists x, get rest = Ok x) -> no_panic (field present n what zero get rest).
Proof.
  intros Hn Hg. unfold field. destruct present; [|done]. destruct (Z.ltb_spec (len rest) n); [done|]. destruct Hg as [x ->]; [lia|].
  cbn [rbind]. rewrite from_ok by lia. done.
Qed.

(** *** Keys in order *)

(** [bytes.Compare(a, b) < 0] *)
Fixpoint lex_lt (a b : list Z) : bool :=
  match a, b with
  | _, [] => false
  | [], _ :: _ => true
  | x :: a, y :: b => (x <? y) || ((x =? y) && lex_lt a b)
  end.

Lemma lex_irrefl a : lex_lt a a = false.
Proof. induction a as [|x a IH]; [done|]. cbn. by rewrite Z.ltb_irrefl, Z.eqb_refl, IH. Qed.

Lemma lex_prefix p a b : lex_lt (p ++ a) (p ++ b) = lex_lt a b.
Proof. induction p as [|x p IH]; [done|]. cbn. by rewrite Z.ltb_irrefl, Z.eqb_refl, IH. Qed.

(** Big-endian numbers of one width are ordered as the numbers are. *)
Fixpoint be_value (l : list Z) : Z := match l with [] => 0 | x :: l => x * 2 ^ (8 * len l) + be_value l end.

Lemma be_value_range l : bytes l -> 0 <= be_value l < 2 ^ (8 * len l).
Proof.
  induction l as [|x l IH]; intros Hl; cbn [be_value]; [done|]. apply bytes_cons in Hl as [Hx Hl]. specialize (IH Hl). unfold is_u8 in Hx.
  rewrite len_cons, Z.mul_add_distr_l, Z.pow_add_r by (pose proof (len_nonneg l); lia). change (8 * 1) with 8. nia.
Qed.

Lemma lex_value a : forall b, bytes a -> bytes b -> length a = length b -> lex_lt a b = (be_value a <? be_value b).
Proof.
  induction a as [|x a IH]; intros [|y b] Ha Hb Hlen; try done. apply bytes_cons in Ha as [Hx Ha], Hb as [Hy Hb]. injection Hlen as Hlen.
  cbn [lex_lt be_value]. rewrite (IH b) by done. assert (El : len a = len b) by (unfold len; by rewrite Hlen). rewrite El.
  pose proof (be_value_range a Ha) as Ra. pose proof (be_value_range b Hb) as Rb. rewrite El in Ra.
  destruct (Z.ltb_spec x y) as [H|H]; cbn [orb]; [symmetry; apply Z.ltb_lt; nia|]. destruct (Z.eqb_spec x y) as [->|Hne]; cbn [andb].
  - destruct (Z.ltb_spec (be_value a) (be_value b)); symmetry; [apply Z.ltb_lt|apply Z.ltb_ge]; lia.
  - symmetry. apply Z.ltb_ge. nia.
Qed.

Lemma be_value_be64 v : is_u64 v -> be_value (be64 v) = v.
Proof.
  intros Hv. unfold be64, be32. cbn [app be_value]. unfold len. cbn [length Z.of_nat Pos.of_succ_nat Pos.succ Z.mul Pos.mul].
  rewrite !Z.shiftr_div_pow2 by lia. unfold u8, is_u64 in *. rewrite !Z.div_div by lia. rewrite <- !Z.pow_add_r by lia. cbn [Z.add Pos.add Pos.succ].
  change (2 ^ 56) with 72057594037927936. change (2 ^ 48) with 281474976710656. change (2 ^ 40) with 1099511627776. change (2 ^ 0) with 1. pow2. dlia.
Qed.

Lemma lex_be64 a b : is_u64 a -> is_u64 b -> lex_lt (be64 a) (be64 b) = (a <? b).
Proof. intros Ha Hb. rewrite lex_value by (done || apply bytes_be64). by rewrite !be_value_be64. Qed.

(** ** Property *)

(** A sealed value is read back, and damage shows.  [Unseal] returns what
    [Seal] was given; when up to four consecutive bytes of the stored body,
    or bytes of its checksum, have other values than were written, [Unseal]
    refuses the value; whatever the bytes, it does not panic, and it
    accepts nothing but sealed values. *)
Theorem seal_protects b v :
  bytes b -> bytes v ->
  Unseal (Seal b) = Ok b
  /\ (forall pre l l' post, Seal b = pre ++ l ++ post -> bytes l' -> length l = length l' -> len l <= 4 -> l <> l' ->
        len pre + len l <= len b \/ len b <= len pre -> Unseal (pre ++ l' ++ post) = Err ChecksumMismatch)
  /\ no_panic (Unseal v) /\ (forall c, Unseal v = Ok c -> v = Seal c).
Proof.
  intros Hb Hv. split_and!; [by apply Unseal_Seal|intros pre l l' post; by apply damage_shows|by apply Unseal_total|intros; by apply Unseal_inv].
Qed.

Lemma seal_protects_witness :
  Unseal (Seal (str "session")) = Ok (str "session")
  /\ Unseal (str "sesSIOn" ++ be32 (Checksum (str "session"))) = Err ChecksumMismatch.
Proof.
  destruct (seal_protects (str "session") [1]) as (H1 & H2 & _); [by repeat constructor..|].
  split; [exact H1|]. apply (H2 (str "ses") (str "sio") (str "SIO") (str "n" ++ be32 (Checksum (str "session")))); try done; [by repeat constructor|left; vm_compute; discriminate].
Defined.

End Checksum.
