(* ===== verification/FileDb.v ===== *)
(** * FileDb: the database layer of the file store and the file queue
    (internal/filedb/filedb.go)

    bbolt is not part of this repository: it is the interface [Bolt], whose
    laws are what its documentation says of buckets, transactions and their
    order of keys.  A transaction is what it sees of the database; a commit
    may fail, and then the file is as before.  On top of it [Update] with its
    policies and the group commit of [committer], whose batches are proved to
    be one write after the other. *)

From S2P Require Import Prelude GoLib Checksum.

Module FileDb.
Import Checksum.

(** ** go.etcd.io/bbolt *)

(** A bucket, and the buckets of a database by name. *)
Abbreviation bucket := (gmap (list Z) (list Z)).
Abbreviation buckets := (gmap (list Z) bucket).

Definition by_key (x y : list Z * list Z) : Prop := lex_lt (fst x) (fst y) = true.

Definition MaxKeySize : Z := 32768.
Definition MaxValueSize : Z := 2 ^ 31 - 2.

(** [err] is the type of bbolt's errors. *)
Class Bolt (DB err : Type) : Type := {
  ErrDatabaseNotOpen : err;
  (** errors a commit may end with, for the disk's reasons *)
  commit_error : err -> bool;
  (** [errors.Is(err, ErrDatabaseNotOpen)] *)
  is_not_open : err -> bool;

  (** [Bucket.Get], [Put], [Delete], [ForEach] and [Cursor] with [Seek] *)
  Get : list Z -> bucket -> option (list Z);
  Put : list Z -> list Z -> bucket -> res err bucket;
  Delete : list Z -> bucket -> res err bucket;
  ForEach : bucket -> list (list Z * list Z);
  Seek : list Z -> bucket -> list (list Z * list Z);
  (** [Tx.CreateBucket], [DeleteBucket] and [CreateBucketIfNotExists] *)
  CreateBucket : list Z -> buckets -> res err buckets;
  DeleteBucket : list Z -> buckets -> res err buckets;
  CreateBucketIfNotExists : list Z -> buckets -> res err buckets;

  Get_law k m : Get k m = m !! k;
  Put_law k v m : 0 < len k <= MaxKeySize -> len v <= MaxValueSize -> Put k v m = Ok (<[k := v]> m);
  Delete_law k m : Delete k m = Ok (delete k m);
  ForEach_law m : ForEach m ≡ₚ map_to_list m /\ StronglySorted by_key (ForEach m);
  Seek_law k m : Seek k m = filter (fun x => lex_lt (fst x) k = false) (ForEach m);
  CreateBucket_law b t : b <> [] -> t !! b = None -> CreateBucket b t = Ok (<[b := ∅]> t);
  DeleteBucket_law b t m : t !! b = Some m -> DeleteBucket b t = Ok (delete b t);
  CreateBucketIfNotExists_law b t :
    b <> [] -> CreateBucketIfNotExists b t = Ok (match t !! b with Some _ => t | None => <[b := ∅]> t end);

  (** what the file holds, and whether the handle is open *)
  file : DB -> buckets;
  is_open : DB -> bool;
  bolt_Open : buckets -> DB;
  bolt_Update : forall {A : Type}, DB -> (buckets -> res err (A * buckets)) -> DB * res err A;
  bolt_View : forall {A : Type}, DB -> (buckets -> res err A) -> res err A;
  bolt_Close : DB -> DB;

  bolt_Open_law t : is_open (bolt_Open t) = true /\ file (bolt_Open t) = t;
  bolt_Close_law db : is_open (bolt_Close db) = false /\ file (bolt_Close db) = file db;
  bolt_View_law {A} db (fn : buckets -> res err A) :
    bolt_View db fn = if is_open db then fn (file db) else Err ErrDatabaseNotOpen;
  bolt_Update_closed {A} db (fn : buckets -> res err (A * buckets)) :
    is_open db = false -> bolt_Update db fn = (db, Err ErrDatabaseNotOpen);
  bolt_Update_open {A} db (fn : buckets -> res err (A * buckets)) :
    is_open db = true ->
    let (db', r) := bolt_Update db fn in
    is_open db' = true /\
    match fn (file db) with
    | Ok (a, t) => (r = Ok a /\ file db' = t) \/ (file db' = file db /\ exists e, r = Err e /\ commit_error e = true)
    | Err e => r = Err e /\ file db' = file db
    | Panic => r = Panic /\ file db' = file db
    end;
  is_not_open_law e : is_not_open ErrDatabaseNotOpen = true /\ (commit_error e = true -> is_not_open e = false);
}.

(** ** Transactions *)

Section transactions.
Context {DB err : Type} `{!Bolt DB err}.

(** [tx.Bucket(b)]: a missing bucket is nil, and using it panics. *)
Definition with_bucket {A} (b : list Z) (fn : bucket -> res err (A * bucket)) (t : buckets) : res err (A * buckets) :=
  match t !! b with
  | None => Panic
  | Some m => let! (a, m) := fn m in Ok (a, <[b := m]> t)
  end.

Definition tx_Put (b k v : list Z) (t : buckets) : res err buckets :=
  let! (_, t) := with_bucket b (fun m => let! m := Put k v m in Ok (tt, m)) t in Ok t.

Definition tx_Delete (b k : list Z) (t : buckets) : res err buckets :=
  let! (_, t) := with_bucket b (fun m => let! m := Delete k m in Ok (tt, m)) t in Ok t.

Definition tx_Get (b k : list Z) (t : buckets) : res err (option (list Z)) :=
  match t !! b with None => Panic | Some m => Ok (Get k m) end.

Definition tx_ForEach (b : list Z) (t : buckets) : res err (list (list Z * list Z)) :=
  match t !! b with None => Panic | Some m => Ok (ForEach m) end.

Definition tx_Seek (b k : list Z) (t : buckets) : res err (list (list Z * list Z)) :=
  match t !! b with None => Panic | Some m => Ok (Seek k m) end.

Lemma tx_Put_ok b k v t m : t !! b = Some m -> 0 < len k <= MaxKeySize -> len v <= MaxValueSize -> tx_Put b k v t = Ok (<[b := <[k := v]> m]> t).
Proof. intros Hb Hk Hv. unfold tx_Put, with_bucket. rewrite Hb, Put_law by done. done. Qed.

Lemma tx_Delete_ok b k t m : t !! b = Some m -> tx_Delete b k t = Ok (<[b := delete k m]> t).
Proof. intros Hb. unfold tx_Delete, with_bucket. rewrite Hb, Delete_law. done. Qed.

Lemma tx_Get_ok b k t m : t !! b = Some m -> tx_Get b k t = Ok (m !! k).
Proof. intros Hb. unfold tx_Get. by rewrite Hb, Get_law. Qed.
End transactions.

(** ** filedb.DB *)

Inductive SyncPolicy : Type := SyncGroupCommit | SyncEveryWrite | SyncNone.

(** The errors of the layer: [ErrClosed], [ErrLocked] from [Open], or
    bbolt's own. *)
Inductive db_error (err : Type) : Type := ErrClosed | ErrLocked | ErrBolt (e : err).
#[global] Arguments ErrClosed {err}.
#[global] Arguments ErrLocked {err}.
#[global] Arguments ErrBolt {err} _.

Section filedb.
Context {DB err : Type} `{!Bolt DB err}.

(** [mapErr] *)
Definition mapErr {A} (r : res err A) : res (db_error err) A :=
  match r with
  | Ok a => Ok a
  | Err e => if is_not_open e then Err ErrClosed else Err (ErrBolt e)
  | Panic => Panic
  end.

(** The buckets [Open] makes sure of, in one transaction. *)
Fixpoint create_buckets (bs : list (list Z)) (t : buckets) : res err buckets :=
  match bs with
  | [] => Ok t
  | b :: bs => let! t := CreateBucketIfNotExists b t in create_buckets bs t
  end.
End filedb.

(** *** Group commit *)

Section committer.
Context {DB err A : Type} `{!Bolt DB err}.

(** A write is a function of the transaction; what it computes besides is
    what its last run computed. *)
Abbreviation write := (buckets -> res err (A * buckets)).

(** The shared transaction of [run]: the writes one after the other, until
    one fails. *)
Fixpoint shared (batch : list write) (t : buckets) : res err (list A * buckets) :=
  match batch with
  | [] => Ok ([], t)
  | op :: batch => let! (a, t) := op t in let! (l, t) := shared batch t in Ok (a :: l, t)
  end.

(** Each write on its own. *)
Fixpoint one_by_one (batch : list write) (db : DB) : DB * list (res err A) :=
  match batch with
  | [] => (db, [])
  | op :: batch => let (db, r) := bolt_Update db op in let (db, rs) := one_by_one batch db in (db, r :: rs)
  end.

(** The transactions of one round of [run], and what it sends to [done]. *)
Definition commit_batch (batch : list write) (db : DB) : DB * list (res err A) :=
  match bolt_Update db (shared batch) with
  | (db, Ok l) => (db, map Ok l)
  | (db, Err _) => one_by_one batch db
  | (db, Panic) => (db, map (fun _ => Panic) batch)
  end.

(** [committer] with the writes waiting on it; [sent] is what was sent to the
    writes' [done] channels, in order, [runners] counts the goroutines in
    [run], and [batch] is what [run] is committing. *)
Record committer : Type := mkCommitter {
  pending : list (nat * write);
  running : bool;
  runners : nat;
  batch : list (nat * write);
  sent : list (nat * write * res err A);
  db : DB;
}.

(** The part of [do] under the lock, and the goroutine it starts. *)
Definition do (w : nat * write) (c : committer) : committer :=
  mkCommitter (pending c ++ [w]) true (if running c then runners c else S (runners c)) (batch c) (sent c) (db c).

(** The part of a round of [run] under the lock: it takes what is pending,
    or ends. *)
Definition take_batch (c : committer) : committer :=
  match pending c with
  | [] => mkCommitter [] false (pred (runners c)) [] (sent c) (db c)
  | p => mkCommitter [] (running c) (runners c) p (sent c) (db c)
  end.

(** The rest of the round. *)
Definition answer (c : committer) : committer :=
  let (d, rs) := commit_batch (map snd (batch c)) (db c) in
  mkCommitter (pending c) (running c) (runners c) [] (sent c ++ combine (batch c) rs) d.

(** What the goroutine in [run], if there is one, does next. *)
Definition run (c : committer) : option committer :=
  match batch c with
  | _ :: _ => Some (answer c)
  | [] => if (0 <? runners c)%nat then Some (take_batch c) else None
  end.

Definition NewCommitter (d : DB) : committer := mkCommitter [] false 0 [] [] d.

(** The states after the writes [ws] were queued, in this order. *)
Inductive commit_reachable (d : DB) : list (nat * write) -> committer -> Prop :=
| reach_new : commit_reachable d [] (NewCommitter d)
| reach_do ws w c : commit_reachable d ws c -> commit_reachable d (ws ++ [w]) (do w c)
| reach_run ws c c' : commit_reachable d ws c -> run c = Some c' -> commit_reachable d ws c'.
End committer.

(** ** What group commit promises *)

Section group_commit.
Context {DB err A : Type} `{!Bolt DB err}.
Abbreviation write := (buckets -> res err (A * buckets)).
Implicit Types (op : write) (t : buckets).

(** The writes of a list took effect one after the other: each that is
    answered with a value ran on what those before it left, each that failed
    changed nothing, and failed for its own reason or the disk's. *)
Inductive serial : buckets -> list write -> list (res err A) -> buckets -> Prop :=
| serial_nil t : serial t [] [] t
| serial_ok op ops rs a t t1 t2 : op t = Ok (a, t1) -> serial t1 ops rs t2 -> serial t (op :: ops) (Ok a :: rs) t2
| serial_err op ops rs e t t2 : op t = Err e -> serial t ops rs t2 -> serial t (op :: ops) (Err e :: rs) t2
| serial_lost op ops rs e t t2 : commit_error e = true -> serial t ops rs t2 -> serial t (op :: ops) (Err e :: rs) t2.

(** A write that keeps [P], for instance that its buckets exist, and does not
    panic where [P] holds. *)
Definition keeps (P : buckets -> Prop) op : Prop :=
  forall t, P t -> match op t with Ok (_, t') => P t' | Err _ => True | Panic => False end.

Lemma shared_keeps P batch : Forall (keeps P) batch -> forall t, P t ->
  match shared batch t with Ok (l, t') => P t' /\ serial t batch (map Ok l) t' | Err _ => True | Panic => False end.
Proof.
  induction 1 as [|op batch Hop _ IH]; intros t Ht; cbn [shared]; [split; [done|constructor]|]. specialize (Hop t Ht).
  destruct (op t) as [[a t1]|e|] eqn:E; cbn [rbind]; try done. specialize (IH t1 Hop). destruct (shared batch t1) as [[l t2]|e|]; cbn [rbind]; try done.
  destruct IH as [H1 H2]. split; [done|]. by apply (serial_ok _ _ _ _ _ t1).
Qed.

(** One update of an open database. *)
Lemma Update_serial P op ops (d : DB) :
  keeps P op -> P (file d) -> is_open d = true ->
  let (d', r) := bolt_Update d op in
  is_open d' = true /\ P (file d') /\ forall rs t, serial (file d') ops rs t -> serial (file d) (op :: ops) (r :: rs) t.
Proof.
  intros Hop Ht Ho. pose proof (bolt_Update_open d op Ho) as H. specialize (Hop (file d) Ht). destruct (bolt_Update d op) as [d' r]. destruct H as [H1 H2].
  split; [done|]. destruct (op (file d)) as [[a t]|e|] eqn:E; [|destruct H2 as [-> ->]; split; [done|]; intros rs t; by apply serial_err|done].
  destruct H2 as [[-> ->]|[-> (e & -> & He)]].
  - split; [done|]. intros rs t'. by apply serial_ok.
  - split; [done|]. intros rs t'. by apply serial_lost.
Qed.

Lemma one_by_one_serial P batch : Forall (keeps P) batch -> forall d : DB, P (file d) -> is_open d = true ->
  let (d', rs) := one_by_one batch d in is_open d' = true /\ P (file d') /\ serial (file d) batch rs (file d').
Proof.
  induction 1 as [|op batch Hop _ IH]; intros d Hd Ho; cbn [one_by_one]; [split_and!; [done|done|constructor]|].
  pose proof (Update_serial P op batch d Hop Hd Ho) as H. destruct (bolt_Update d op) as [d1 r]. destruct H as (O1 & P1 & H).
  specialize (IH d1 P1 O1). destruct (one_by_one batch d1) as [d2 rs]. destruct IH as (O2 & P2 & H2). split_and!; [done|done|]. by apply H.
Qed.

Lemma commit_batch_serial P batch (d : DB) : Forall (keeps P) batch -> P (file d) -> is_open d = true ->
  let (d', rs) := commit_batch batch d in is_open d' = true /\ P (file d') /\ serial (file d) batch rs (file d').
Proof.
  intros Hb Hd Ho. unfold commit_batch. pose proof (bolt_Update_open d (shared batch) Ho) as H. pose proof (shared_keeps P batch Hb (file d) Hd) as Hs.
  destruct (bolt_Update d (shared batch)) as [d1 r]. destruct H as [O1 H]. destruct (shared batch (file d)) as [[l t]|e|]; [|destruct H as [-> Hf]|done].
  - destruct H as [[-> ->]|[Hf (e & -> & He)]]; [by destruct Hs; split_and!|]. rewrite <- Hf in *. by apply one_by_one_serial.
  - rewrite <- Hf in *. by apply one_by_one_serial.
Qed.

Lemma serial_length t ops rs t' : serial t ops rs t' -> length rs = length ops.
Proof. induction 1; cbn; lia. Qed.

Lemma serial_app t ops rs t1 ops2 rs2 t2 : serial t ops rs t1 -> serial t1 ops2 rs2 t2 -> serial t (ops ++ ops2) (rs ++ rs2) t2.
Proof. induction 1; intros H2; cbn; [done|econstructor; eauto|eapply serial_err; eauto|eapply serial_lost; eauto]. Qed.

(** *** The goroutines *)

Record commit_inv (P : buckets -> Prop) (d : DB) (ws : list (nat * write)) (c : committer) : Prop := {
  ci_order : map fst (sent c) ++ batch c ++ pending c = ws;
  ci_serial : serial (file d) (map snd (map fst (sent c))) (map snd (sent c)) (file (db c));
  ci_open : is_open (db c) = true;
  ci_keeps : P (file (db c));
  ci_runner : runners c = if running c then 1%nat else 0%nat;
  ci_idle : running c = false -> batch c = [] /\ pending c = [];
}.

Lemma fst_combine {X Y} (l : list X) (k : list Y) : length k = length l -> map fst (combine l k) = l.
Proof. revert k. induction l as [|x l IH]; intros [|y k]; cbn; try done. intros [= H]. by rewrite IH. Qed.

Lemma snd_combine {X Y} (l : list X) (k : list Y) : length k = length l -> map snd (combine l k) = k.
Proof. revert k. induction l as [|x l IH]; intros [|y k]; cbn; try done. intros [= H]. by rewrite IH. Qed.

Lemma commit_inv_run P d ws c c' :
  Forall (keeps P) (map snd ws) -> commit_inv P d ws c -> run c = Some c' -> commit_inv P d ws c'.
Proof.
  intros Hws [Ho Hs Hopen Hk Hr Hi]. unfold run. destruct (batch c) as [|b bs] eqn:Hb.
  - destruct (Nat.ltb_spec 0 (runners c)); [|done]. intros [= <-]. unfold take_batch. destruct (pending c) as [|w p] eqn:Hp; split; cbn; try done.
    + by destruct (running c); lia.
    + by rewrite app_nil_r.
    + intros E. by destruct (Hi E).
  - intros [= <-]. unfold answer. rewrite Hb. rewrite <- Hb. assert (Hbk : Forall (keeps P) (map snd (batch c))).
    { rewrite <- Ho, !map_app, !Forall_app in Hws. rewrite Hb. tauto. }
    pose proof (commit_batch_serial P (map snd (batch c)) (db c) Hbk Hk Hopen) as H. destruct (commit_batch _ _) as [d' rs]. destruct H as (O1 & P1 & S1).
    pose proof (serial_length _ _ _ _ S1) as Hlen. rewrite length_map in Hlen. split; cbn; try done.
    + by rewrite map_app, fst_combine, <- app_assoc, Hb.
    + rewrite !map_app, fst_combine, snd_combine by done. by eapply serial_app.
    + intros E. destruct (Hi E) as [E1 _]. congruence.
Qed.

Lemma commit_reachable_inv P d ws c :
  is_open d = true -> P (file d) -> Forall (keeps P) (map snd ws) -> commit_reachable d ws c -> commit_inv P d ws c.
Proof.
  intros Hd HP Hws R. induction R as [|ws w c R IH|ws c c' R IH E].
  - split; try done. constructor.
  - rewrite map_app, Forall_app in Hws. destruct (IH (proj1 Hws)) as [Ho Hs Hopen Hk Hr Hi]. split; cbn; try done.
    + by rewrite <- Ho, <- !app_assoc.
    + destruct (running c); [done|lia].
  - by eapply commit_inv_run; [|apply IH|].
Qed.

(** [n] rounds of [run]; it stops where [run] ends. *)
Fixpoint rounds (n : nat) (c : @committer DB err A) : @committer DB err A :=
  match n with O => c | S n => match run c with Some c' => rounds n c' | None => c end end.

Lemma rounds_inv P d ws n : forall c, Forall (keeps P) (map snd ws) -> commit_inv P d ws c -> commit_inv P d ws (rounds n c).
Proof.
  induction n as [|n IH]; intros c Hws I; cbn [rounds]; [done|]. destruct (run c) eqn:E; [|done]. apply IH; [done|]. by eapply commit_inv_run.
Qed.

(** Four rounds end every write that is waiting, and then [run]. *)
Lemma rounds_drain P d ws c : commit_inv P d ws c -> let c' := rounds 4 c in batch c' = [] /\ pending c' = [] /\ running c' = false.
Proof.
  assert (Hnop : forall n c, run c = None -> rounds n c = c) by (intros [|n] c' E; cbn [rounds]; [|rewrite E]; done).
  assert (Hstop : forall n c, batch c = [] -> pending c = [] -> runners c = 1%nat ->
            let c' := rounds (S n) c in batch c' = [] /\ pending c' = [] /\ running c' = false).
  { intros n c' Hb Hp Hr. assert (E : run c' = Some (mkCommitter [] false 0 [] (sent c') (db c'))) by (unfold run, take_batch; by rewrite Hb, Hp, Hr).
    cbn [rounds]. rewrite E, Hnop by done. done. }
  assert (Hans : forall n c, batch c <> [] -> pending c = [] -> runners c = 1%nat ->
            let c' := rounds (S (S n)) c in batch c' = [] /\ pending c' = [] /\ running c' = false).
  { intros n c' Hb Hp Hr. assert (E : run c' = Some (answer c')) by (unfold run; by destruct (batch c')).
    change (rounds (S (S n)) c') with (match run c' with Some c' => rounds (S n) c' | None => c' end). rewrite E.
    apply Hstop; unfold answer; by destruct (commit_batch _ _). }
  assert (Htake : forall n c, batch c = [] -> runners c = 1%nat ->
            let c' := rounds (S (S (S n))) c in batch c' = [] /\ pending c' = [] /\ running c' = false).
  { intros n c' Hb Hr. destruct (pending c') as [|w p] eqn:Hp; [by apply Hstop|].
    assert (E : run c' = Some (mkCommitter [] (running c') (runners c') (w :: p) (sent c') (db c'))) by (unfold run, take_batch; by rewrite Hb, Hp, Hr).
    change (rounds (S (S (S n))) c') with (match run c' with Some c' => rounds (S (S n)) c' | None => c' end). rewrite E. by apply Hans. }
  intros [_ _ _ _ Hr Hi]. destruct (running c) eqn:Hrun.
  - destruct (batch c) as [|b bs] eqn:Hb; [by apply Htake|]. assert (E : run c = Some (answer c)) by (unfold run; by rewrite Hb).
    change (rounds 4 c) with (match run c with Some c' => rounds 3 c' | None => c end). rewrite E. apply Htake; unfold answer; by destruct (commit_batch _ _).
  - destruct (Hi eq_refl) as [Hb Hp]. rewrite Hnop by (unfold run; by rewrite Hb, Hr). done.
Qed.
End group_commit.

(** ** Writing through the layer *)

Section layer.
Context {DB err A : Type} `{!Bolt DB err} (sync : SyncPolicy).
Implicit Types (fn : buckets -> res err (A * buckets)).

(** [DB.Update]; a lone writer's batch under [SyncGroupCommit] is its write. *)
Definition db_Update (d : DB) fn : DB * res (db_error err) A :=
  match sync with
  | SyncGroupCommit => let (d, rs) := commit_batch [fn] d in (d, mapErr (hd Panic rs))
  | _ => let (d, r) := bolt_Update d fn in (d, mapErr r)
  end.

(** [DB.View] *)
Definition db_View (d : DB) (fn : buckets -> res err A) : res (db_error err) A := mapErr (bolt_View d fn).

Lemma mapErr_open (e : err) : commit_error e = true -> mapErr (A := A) (Err e) = Err (ErrBolt e).
Proof. intros He. unfold mapErr. by rewrite (proj2 (is_not_open_law e) He). Qed.

Lemma db_Update_closed (d : DB) fn : is_open d = false -> is_open (fst (db_Update d fn)) = false /\ snd (db_Update d fn) = Err ErrClosed.
Proof.
  intros Hd. pose proof (proj1 (is_not_open_law ErrDatabaseNotOpen)) as Hn. unfold db_Update, commit_batch. destruct sync.
  - rewrite (bolt_Update_closed d (shared [fn]) Hd). cbn [one_by_one]. rewrite (bolt_Update_closed d fn Hd). cbn [fst snd hd mapErr]. by rewrite Hn.
  - rewrite (bolt_Update_closed d fn Hd). cbn [fst snd mapErr]. by rewrite Hn.
  - rewrite (bolt_Update_closed d fn Hd). cbn [fst snd mapErr]. by rewrite Hn.
Qed.

(** A write that succeeds on what the file holds is committed, or the disk
    fails it and the file stays. *)
Lemma db_Update_ok (d : DB) fn a t :
  is_open d = true -> fn (file d) = Ok (a, t) ->
  let (d', r) := db_Update d fn in
  is_open d' = true /\ ((r = Ok a /\ file d' = t) \/ (file d' = file d /\ exists e, r = Err (ErrBolt e))).
Proof.
  intros Hd E. assert (H1 : let (d', r) := bolt_Update d fn in is_open d' = true /\ ((r = Ok a /\ file d' = t) \/ (file d' = file d /\ exists e, r = Err e /\ commit_error e = true))).
  { pose proof (bolt_Update_open d fn Hd) as H. destruct (bolt_Update d fn) as [d' r]. by rewrite E in H. }
  assert (H2 : let (d', r) := bolt_Update d fn in is_open d' = true /\ ((mapErr r = Ok a /\ file d' = t) \/ (file d' = file d /\ exists e, mapErr r = Err (ErrBolt e)))).
  { destruct (bolt_Update d fn) as [d' r]. destruct H1 as [O [[-> F]|[F (e & -> & He)]]]; (split; [done|]); [by left|]. right. split; [done|]. exists e. by apply mapErr_open. }
  unfold db_Update. destruct sync; [|by destruct (bolt_Update d fn)..]. unfold commit_batch.
  assert (Es : shared [fn] (file d) = Ok ([a], t)) by (cbn [shared]; by rewrite E).
  pose proof (bolt_Update_open d (shared [fn]) Hd) as H. rewrite Es in H. destruct (bolt_Update d (shared [fn])) as [d1 r].
  destruct H as [O1 [[-> F1]|[F1 (e & -> & He)]]]; cbn [map hd]; [split; [done|]; by left|]. cbn [one_by_one].
  assert (E1 : fn (file d1) = Ok (a, t)) by (by rewrite F1). pose proof (bolt_Update_open d1 fn O1) as H. rewrite E1 in H.
  destruct (bolt_Update d1 fn) as [d2 r]. cbn [hd]. destruct H as [O2 [[-> F2]|[F2 (e2 & -> & He2)]]]; (split; [done|]); [by left|].
  right. split; [congruence|]. exists e2. by apply mapErr_open.
Qed.
End layer.

(** ** An implementation of the interface *)

(** A database in memory, whose commits fail as [faults] says; it shows that
    the laws of [Bolt] can hold together. *)
Module MemBolt.

Record mem : Type := mkMem { m_open : bool; m_file : buckets; faults : list bool }.

Inductive mem_error : Type := MNotOpen | MDisk | MKeyInvalid | MExists | MNotFound.

Definition m_le (x y : list Z * list Z) : Prop := lex_lt (fst y) (fst x) = false.
#[export] Instance m_le_dec : RelDecision m_le.
Proof. intros x y. unfold m_le. apply _. Defined.

Lemma lex_trans a : forall b c, lex_lt a b = true -> lex_lt b c = true -> lex_lt a c = true.
Proof.
  induction a as [|x a IH]; intros [|y b] [|z c]; cbn; try done. rewrite !orb_true_iff, !andb_true_iff, !Z.ltb_lt, !Z.eqb_eq.
  intros [H|[-> H]] [K|[-> K]]; [left; lia|left; lia|left; lia|]. right. split; [done|]. by apply (IH b).
Qed.

Lemma lex_total a : forall b, lex_lt a b = false -> lex_lt b a = false -> a = b.
Proof.
  induction a as [|x a IH]; intros [|y b]; cbn; try done. rewrite !orb_false_iff, !andb_false_iff, !Z.ltb_ge, !Z.eqb_neq.
  intros [H1 [H2|H2]] [H3 [H4|H4]]; try lia. f_equal; [lia|]. by apply IH.
Qed.

#[export] Instance m_le_total : Total m_le.
Proof.
  intros x y. unfold m_le. destruct (lex_lt (fst y) (fst x)) eqn:E; [right|by left]. destruct (lex_lt (fst x) (fst y)) eqn:F; [|done].
  pose proof (lex_trans _ _ _ E F) as H. by rewrite lex_irrefl in H.
Qed.

#[export] Instance m_le_trans : Transitive m_le.
Proof.
  intros x y z. unfold m_le. intros H1 H2. destruct (lex_lt (fst z) (fst x)) eqn:E; [|done]. destruct (lex_lt (fst x) (fst y)) eqn:F.
  - by rewrite (lex_trans _ _ _ E F) in H2.
  - rewrite (lex_total _ _ F H1) in E. congruence.
Qed.

Definition m_ForEach (m : bucket) : list (list Z * list Z) := merge_sort m_le (map_to_list m).

Definition m_Put (k v : list Z) (m : bucket) : res mem_error bucket :=
  if (0 <? len k) && (len k <=? MaxKeySize) && (len v <=? MaxValueSize) then Ok (<[k := v]> m) else Err MKeyInvalid.

Definition m_Create (b : list Z) (t : buckets) : res mem_error buckets :=
  match b, t !! b with [], _ => Err MKeyInvalid | _, Some _ => Err MExists | _, None => Ok (<[b := ∅]> t) end.

Definition m_CreateIf (b : list Z) (t : buckets) : res mem_error buckets :=
  match b, t !! b with [], _ => Err MKeyInvalid | _, Some _ => Ok t | _, None => Ok (<[b := ∅]> t) end.

Definition m_DeleteBucket (b : list Z) (t : buckets) : res mem_error buckets :=
  match t !! b with Some _ => Ok (delete b t) | None => Err MNotFound end.

Definition m_Update {A} (d : mem) (fn : buckets -> res mem_error (A * buckets)) : mem * res mem_error A :=
  if m_open d then
    match fn (m_file d), faults d with
    | Ok (a, t), true :: fs => (mkMem true (m_file d) fs, Err MDisk)
    | Ok (a, t), fs => (mkMem true t (tail fs), Ok a)
    | Err e, _ => (d, Err e)
    | Panic, _ => (d, Panic)
    end
  else (d, Err MNotOpen).

Definition m_commit_error (e : mem_error) : bool := match e with MDisk => true | _ => false end.
Definition m_not_open (e : mem_error) : bool := match e with MNotOpen => true | _ => false end.

Lemma m_ForEach_law m : m_ForEach m ≡ₚ map_to_list m /\ StronglySorted by_key (m_ForEach m).
Proof.
  split; [apply merge_sort_Permutation|]. assert (S : StronglySorted m_le (m_ForEach m)) by (apply StronglySorted_merge_sort; apply _).
  assert (N : NoDup (map fst (m_ForEach m))) by (unfold m_ForEach; rewrite merge_sort_Permutation; apply NoDup_fst_map_to_list).
  induction S as [|x l Hl IH Hx]; [constructor|]. cbn in N. apply NoDup_cons in N as [N1 N2]. constructor; [by apply IH|].
  apply Forall_forall. intros y Hy. pose proof (proj1 (Forall_forall _ _) Hx y Hy) as H. unfold by_key, m_le in *. destruct (lex_lt (fst x) (fst y)) eqn:E; [done|].
  exfalso. apply N1. rewrite (lex_total _ _ E H). apply list_elem_of_fmap. by exists y.
Qed.

#[export, program] Instance MemBolt : Bolt mem mem_error := {|
  ErrDatabaseNotOpen := MNotOpen;
  commit_error := m_commit_error;
  is_not_open := m_not_open;
  Get k m := m !! k;
  Put := m_Put;
  Delete k m := Ok (delete k m);
  ForEach := m_ForEach;
  Seek k m := filter (fun x => lex_lt (fst x) k = false) (m_ForEach m);
  CreateBucket := m_Create;
  DeleteBucket := m_DeleteBucket;
  CreateBucketIfNotExists := m_CreateIf;
  file := m_file;
  is_open := m_open;
  bolt_Open t := mkMem true t [];
  bolt_Update A := @m_Update A;
  bolt_View A d fn := if m_open d then fn (m_file d) else Err MNotOpen;
  bolt_Close d := mkMem false (m_file d) (faults d);
  ForEach_law := m_ForEach_law;
|}.
Solve Obligations with try done.
Next Obligation.
  intros k v m [H1 H2] H3. unfold m_Put. by rewrite (proj2 (Z.ltb_lt _ _) H1), (proj2 (Z.leb_le _ _) H2), (proj2 (Z.leb_le _ _) H3).
Qed.
Next Obligation. intros b t Hb Ht. unfold m_Create. destruct b; [done|]. by rewrite Ht. Qed.
Next Obligation. intros b t m Ht. unfold m_DeleteBucket. by rewrite Ht. Qed.
Next Obligation. intros b t Hb. unfold m_CreateIf. destruct b; [done|]. by destruct (t !! _). Qed.
Next Obligation. intros A d fn Hd. unfold m_Update. cbn in *. by rewrite Hd. Qed.
Next Obligation.
  intros A d fn Hd. cbn in *. unfold m_Update. rewrite Hd. destruct (fn (m_file d)) as [[a t]|e|] eqn:E; [|by split_and!..].
  destruct (faults d) as [|[|] fs]; cbn; (split; [done|]); [by left|right; split; [done|by exists MDisk]|by left].
Qed.
Next Obligation. intros [| | | |]; split; done. Qed.

End MemBolt.
Import MemBolt.

(** ** Properties *)

(** C28: group commit.  Whatever writes reach the committer and however its
    goroutine is scheduled, they are answered in the order they were queued,
    and the file is what they leave one after the other: a write answered
    without an error is committed, one that failed changed nothing, and it
    failed on its own or because of the disk, never because it shared a
    transaction with another.  A write that waits always has a goroutine to
    commit it, and four rounds of it leave none waiting. *)
Theorem group_commit {DB err A : Type} `{!Bolt DB err} (P : buckets -> Prop) (d : DB) (ws : list (nat * (buckets -> res err (A * buckets)))) c :
  is_open d = true -> P (file d) -> Forall (keeps P) (map snd ws) -> commit_reachable d ws c ->
  map fst (sent c) ++ batch c ++ pending c = ws
  /\ serial (file d) (map snd (map fst (sent c))) (map snd (sent c)) (file (db c))
  /\ (batch c ++ pending c <> [] -> runners c = 1%nat)
  /\ map fst (sent (rounds 4 c)) = ws.
Proof.
  intros Hd HP Hws R. pose proof (commit_reachable_inv P d ws c Hd HP Hws R) as I. split_and!.
  - apply (ci_order _ _ _ _ I).
  - apply (ci_serial _ _ _ _ I).
  - intros Hne. rewrite (ci_runner _ _ _ _ I). destruct (running c) eqn:E; [done|]. destruct (ci_idle _ _ _ _ I E) as [E1 E2]. by rewrite E1, E2 in Hne.
  - destruct (rounds_drain P d ws c I) as (Hb & Hp & _). pose proof (ci_order _ _ _ _ (rounds_inv P d ws 4 c Hws I)) as Ho.
    by rewrite Hb, Hp, !app_nil_r in Ho.
Qed.

(** Three writes share a transaction that the second one fails. *)
Definition sample_write (k : list Z) : buckets -> res mem_error (unit * buckets) :=
  fun t => let! t := tx_Put (DB := mem) (str "b") k [1] t in Ok (tt, t).

Definition has_b (t : buckets) : Prop := t !! str "b" <> None.

Lemma sample_write_keeps k : keeps has_b (sample_write k).
Proof.
  intros t Ht. unfold sample_write, tx_Put, with_bucket, has_b in *. destruct (t !! str "b") as [m|] eqn:E; [|done].
  cbn [Put MemBolt]. unfold m_Put. destruct (_ && _); cbn [rbind]; [|done]. by rewrite lookup_insert_eq.
Qed.

Definition sample_writes : list (nat * (buckets -> res mem_error (unit * buckets))) :=
  [(1%nat, sample_write [7]); (2%nat, sample_write []); (3%nat, sample_write [9])].

Definition sample_db : mem := mkMem true {[str "b" := ∅]} [].

Definition sample_committer : committer := fold_left (fun c w => do w c) sample_writes (NewCommitter sample_db).

Lemma group_commit_witness :
  map fst (sent (rounds 4 sample_committer)) = sample_writes
  /\ map snd (sent (rounds 4 sample_committer)) = [Ok tt; Err MKeyInvalid; Ok tt].
Proof.
  split; [|reflexivity].
  apply (group_commit (DB := mem) has_b sample_db sample_writes sample_committer); [done|by vm_compute|repeat constructor; apply sample_write_keeps|].
  apply (reach_do sample_db [(1%nat, sample_write [7]); (2%nat, sample_write [])]), (reach_do sample_db [(1%nat, sample_write [7])]), (reach_do sample_db []), reach_new.
Defined.

End FileDb.
