(* ===== verification/FileStore.v ===== *)
(** * FileStore: the session store on disk (store/file/store.go)

    Records and metadata as sealed bytes, the store's operations as
    transactions of [FileDb], and the proof that it is a [Store]: what it
    loads is what was put, whatever the database's commits do, and damaged
    values are left out and reported. *)

From stdpp Require Import gmap sorting.
From S2P Require Import Prelude GoLib Varint PropView Session Checksum FileDb.

Module FileStore.
Import Checksum FileDb.

(** ** Buckets and keys *)

Definition bucketMeta : list Z := str "meta".
Definition bucketOut : list Z := str "out".
Definition bucketIn : list Z := str "in".
Definition keyMeta : list Z := str "meta".

Definition bucketFor (d : Z) : list Z := if d =? Inbound then bucketIn else bucketOut.

Definition idKey (id : Z) : list Z := be16 id.

(** ** Record encoding *)

Definition recordVersion : Z := 1.

Definition flagExpires : Z := 1.
Definition flagRef : Z := 2.
Definition flagPubrecSeq : Z := 4.
Definition flagOutcome : Z := 8.

(** [present] is [r.Ref != nil], which a list does not show. *)
Definition recordFlags (present : bool) (r : SRecord) : Z :=
  Z.lor (Z.lor (Z.lor (bit_if (bool_decide (ExpiresAt r <> None)) flagExpires) (bit_if present flagRef))
    (bit_if (negb (PubrecSeq r =? 0)) flagPubrecSeq)) (bit_if (negb (Outcome r =? 0)) flagOutcome).

Definition encodeRecord (present : bool) (r : SRecord) : list Z :=
  let flags := recordFlags present r in
  let b := [recordVersion; QoS r; Phase r; flags] in
  let b := b ++ be64 (Seq r) in
  let b := if has flags flagPubrecSeq then b ++ be64 (PubrecSeq r) else b in
  let b := if has flags flagOutcome then b ++ [Outcome r] else b in
  let b := if has flags flagExpires then b ++ be64 (u64 (default 0 (ExpiresAt r))) else b in
  let b := if has flags flagRef then b ++ u8 (len (Ref r)) :: Ref r else b in
  let b := b ++ PacketBytes r in
  Seal b.

Definition decodeRecord (v : list Z) : res decode_error SRecord :=
  let! body := Unseal v in
  let! version := (if len body <? 12 then Err UnsupportedLayout else idx body 0) in
  if negb (version =? recordVersion) then Err UnsupportedLayout
  else
    let! qos := idx body 1 in
    let! phase := idx body 2 in
    let! seqBytes := slice body 4 12 in
    let! seq := Uint64 seqBytes in
    let! flags := idx body 3 in
    let! rest := from body 12 in
    let! (pubrecSeq, rest) := field (has flags flagPubrecSeq) 8 "pubrec seq" 0 Uint64 rest in
    let! (outcome, rest) := field (has flags flagOutcome) 1 "outcome" 0 (fun b => idx b 0) rest in
    let! (expires, rest) :=
      field (has flags flagExpires) 8 "expiry" None (fun b => let! n := Uint64 b in Ok (Some (i64 n))) rest in
    let! (ref, rest) :=
      (if has flags flagRef then
         if len rest <? 1 then Err (TruncatedField "ref")
         else
           let! n := idx rest 0 in
           if len rest <? 1 + n then Err (TruncatedField "ref")
           else let! ref := slice rest 1 (1 + n) in let! rest := from rest (1 + n) in Ok (ref, rest)
       else Ok ([], rest)) in
    Ok (mkRecord (mkKey 0 0) seq pubrecSeq outcome qos phase rest expires ref).

Definition encodeMeta (m : Meta) : list Z := Seal (recordVersion :: be32 (SessionExpiry m) ++ ClientID m).

Definition decodeMeta (v : list Z) : res decode_error Meta :=
  let! body := Unseal v in
  let! version := (if len body <? 5 then Err UnsupportedLayout else idx body 0) in
  if negb (version =? recordVersion) then Err UnsupportedLayout
  else
    let! expiryBytes := slice body 1 5 in
    let! expiry := Uint32 expiryBytes in
    let! id := from body 5 in
    Ok (mkMeta id expiry).

(** ** Round trips *)

(** Fields of their Go types; a packet is at most what MQTT allows. *)
Definition typed_record (r : SRecord) : Prop :=
  is_u64 (Seq r) /\ is_u64 (PubrecSeq r) /\ is_u8 (Outcome r) /\ is_u8 (QoS r) /\ is_u8 (Phase r)
  /\ bytes (PacketBytes r) /\ len (PacketBytes r) <= 2 ^ 28 + 4 /\ bytes (Ref r)
  /\ (forall t, ExpiresAt r = Some t -> is_i64 t).

Definition typed_meta (m : Meta) : Prop := is_u32 (SessionExpiry m) /\ bytes (ClientID m) /\ len (ClientID m) <= 65535.

Lemma has_flags present r :
  has (recordFlags present r) flagExpires = bool_decide (ExpiresAt r <> None) /\ has (recordFlags present r) flagRef = present
  /\ has (recordFlags present r) flagPubrecSeq = negb (PubrecSeq r =? 0) /\ has (recordFlags present r) flagOutcome = negb (Outcome r =? 0)
  /\ is_u8 (recordFlags present r).
Proof.
  unfold recordFlags. destruct (bool_decide _), present, (negb (PubrecSeq r =? 0)), (negb (Outcome r =? 0)); split_and!; done.
Qed.

(** The record without its sealing. *)
Definition body_of (present : bool) (r : SRecord) : list Z :=
  [recordVersion; QoS r; Phase r; recordFlags present r] ++ be64 (Seq r)
  ++ (if negb (PubrecSeq r =? 0) then be64 (PubrecSeq r) else [])
  ++ (if negb (Outcome r =? 0) then [Outcome r] else [])
  ++ (match ExpiresAt r with Some t => be64 (u64 t) | None => [] end)
  ++ (if present then len (Ref r) :: Ref r else [])
  ++ PacketBytes r.

Lemma encodeRecord_body present r : len (Ref r) <= 255 -> encodeRecord present r = Seal (body_of present r).
Proof.
  intros Hr. unfold encodeRecord, body_of. destruct (has_flags present r) as (-> & -> & -> & -> & _). cbn zeta. f_equal.
  assert (Hu : u8 (len (Ref r)) = len (Ref r)) by (apply u8_small; unfold is_u8; pose proof (len_nonneg (Ref r)); lia). rewrite Hu.
  destruct (negb (PubrecSeq r =? 0)), (negb (Outcome r =? 0)), (ExpiresAt r), present; cbn [bool_decide app default]; rewrite ?bool_decide_eq_true_2, ?bool_decide_eq_false_2 by (congruence || (intros H; by apply H)); rewrite <- ?app_assoc; reflexivity.
Qed.

Lemma bytes_body present r : typed_record r -> len (Ref r) <= 255 -> bytes (body_of present r).
Proof.
  intros (Hs & Hp & Ho & Hq & Hph & Hpk & _ & Href & He) Hr. unfold body_of. rewrite !bytes_app. pose proof (has_flags present r) as (_ & _ & _ & _ & Hf).
  split_and!; try done; try apply bytes_be64.
  - do 4 (apply bytes_cons; split; [done|]). apply bytes_nil.
  - case_match; [apply bytes_be64|apply bytes_nil].
  - case_match; [apply bytes_cons; split; [done|apply bytes_nil]|apply bytes_nil].
  - case_match; [apply bytes_be64|apply bytes_nil].
  - case_match; [apply bytes_cons; split; [unfold is_u8; pose proof (len_nonneg (Ref r)); lia|done]|apply bytes_nil].
Qed.

Lemma decode_record_body present r :
  typed_record r -> len (Ref r) <= 255 -> (Ref r <> [] -> present = true) ->
  decodeRecord (encodeRecord present r) = Ok (mkRecord (mkKey 0 0) (Seq r) (PubrecSeq r) (Outcome r) (QoS r) (Phase r) (PacketBytes r) (ExpiresAt r) (Ref r)).
Proof.
  intros T Hr Hp. rewrite encodeRecord_body by done. unfold decodeRecord. rewrite Unseal_Seal by (by apply bytes_body). cbn [rbind].
  destruct T as (Hs & Hps & Ho & Hq & Hph & Hpk & _ & Href & He). pose proof (has_flags present r) as (F1 & F2 & F3 & F4 & _).
  set (flags := recordFlags present r) in *. unfold body_of. fold flags. set (rest := _ ++ _ ++ _ ++ _ ++ PacketBytes r).
  rewrite (proj2 (Z.ltb_ge _ _)) by (rewrite !len_app, len_be64; change (len [recordVersion; QoS r; Phase r; flags]) with 4; pose proof (len_nonneg rest); lia).
  cbn [app]. rewrite idx_0, idx_1, idx_2, idx_3. cbn [rbind]. change (negb (recordVersion =? recordVersion)) with false. cbn iota.
  change (recordVersion :: QoS r :: Phase r :: flags :: be64 (Seq r) ++ rest) with ([recordVersion; QoS r; Phase r; flags] ++ be64 (Seq r) ++ rest).
  rewrite slice_app by done. cbn [rbind]. rewrite <- (app_nil_r (be64 (Seq r))), Uint64_be64, app_nil_r by done. cbn [rbind].
  rewrite (app_assoc _ (be64 _)), from_app by done. cbn [rbind]. unfold rest.
  rewrite F3. destruct (Z.eqb_spec (PubrecSeq r) 0) as [->|Hnz]; cbn [negb];
    [cbn [field rbind app]|rewrite (field_some 8 _ _ _ (be64 (PubrecSeq r)) _ (PubrecSeq r)) by (done || (by apply Uint64_be64)); cbn [rbind]];
  (rewrite F4; destruct (Z.eqb_spec (Outcome r) 0) as [->|Hoz]; cbn [negb];
    [cbn [field rbind app]|rewrite (field_some 1 _ _ _ [Outcome r] _ (Outcome r)) by done; cbn [rbind]]);
  (rewrite F1; destruct (ExpiresAt r) as [t|]; [rewrite bool_decide_eq_true_2 by done|rewrite bool_decide_eq_false_2 by (intros H; by apply H)];
    [rewrite (field_some 8 _ _ _ (be64 (u64 t)) _ (Some t)) by (done || (rewrite Uint64_be64 by apply u64_range; cbn [rbind]; by rewrite i64_u64 by (by apply He))); cbn [rbind]
    |cbn [field rbind app]]).
  all: rewrite F2; destruct present;
    [|destruct (Ref r) as [|x ref]; [reflexivity|by discriminate Hp]];
    cbn [app]; rewrite (proj2 (Z.ltb_ge _ 1)) by (rewrite len_cons; pose proof (len_nonneg (Ref r ++ PacketBytes r)); lia);
    rewrite idx_0; cbn [rbind]; rewrite (proj2 (Z.ltb_ge _ (1 + _))) by (rewrite len_cons, len_app; pose proof (len_nonneg (PacketBytes r)); lia);
    change (len (Ref r) :: Ref r ++ PacketBytes r) with ([len (Ref r)] ++ Ref r ++ PacketBytes r);
    rewrite slice_app by done; cbn [rbind]; rewrite app_assoc, from_app by (rewrite len_app; reflexivity); reflexivity.
Qed.

Lemma bytes_meta m : typed_meta m -> bytes (recordVersion :: be32 (SessionExpiry m) ++ ClientID m).
Proof. intros (H1 & H2 & _). apply bytes_cons. split; [done|]. apply bytes_app. split; [apply bytes_be32|done]. Qed.

Lemma decode_meta_encode m : typed_meta m -> decodeMeta (encodeMeta m) = Ok m.
Proof.
  intros T. unfold decodeMeta, encodeMeta. rewrite Unseal_Seal by (by apply bytes_meta). cbn [rbind]. destruct T as (H1 & H2 & _).
  rewrite (proj2 (Z.ltb_ge _ _)) by (rewrite len_cons, len_app, len_be32; pose proof (len_nonneg (ClientID m)); lia). rewrite idx_0. cbn [rbind].
  change (negb (recordVersion =? recordVersion)) with false. cbn iota.
  change (recordVersion :: be32 (SessionExpiry m) ++ ClientID m) with ([recordVersion] ++ be32 (SessionExpiry m) ++ ClientID m).
  rewrite slice_app by done. cbn [rbind]. rewrite <- (app_nil_r (be32 _)), Uint32_be32, app_nil_r by done. cbn [rbind].
  rewrite app_assoc, from_app by done. cbn [rbind]. by destruct m.
Qed.

(** Decoding never panics. *)
Lemma decodeRecord_total v : bytes v -> no_panic (decodeRecord v).
Proof.
  intros Hv. unfold decodeRecord. pose proof (Unseal_total v Hv) as Hu. destruct (Unseal v) as [body|e|] eqn:Eb; cbn [rbind]; [|done|done].
  assert (Hb : bytes body) by (pose proof (Unseal_inv v body Hv Eb) as ->; by apply bytes_app in Hv as [? _]).
  destruct (Z.ltb_spec (len body) 12); cbn [rbind]; [done|]. destruct (@idx_ok decode_error body 0) as [x ->]; [lia|]. cbn [rbind]. destruct (negb _); [done|].
  destruct (@idx_ok decode_error body 1) as [q ->]; [lia|]. destruct (@idx_ok decode_error body 2) as [p ->]; [lia|].
  rewrite (slice_ok body 4 12) by lia. cbn [rbind]. destruct (@Uint64_some decode_error (ztake (12 - 4) (zdrop 4 body))) as [s ->].
  { rewrite len_ztake; rewrite ?len_zdrop by lia; lia. }
  destruct (@idx_ok decode_error body 3) as [f ->]; [lia|]. cbn [rbind]. rewrite from_ok by lia. cbn [rbind].
  assert (Hrest : bytes (zdrop 12 body)) by (by apply bytes_zdrop). set (rest := zdrop 12 body) in *. clearbody rest.
  assert (Hfield : forall A pr n what (z : A) get r y r', bytes r -> field pr n what z get r = Ok (y, r') -> bytes r').
  { intros A pr n what z get r y r' Hr. unfold field. destruct pr; [|by intros [= _ <-]]. destruct (len r <? n); [done|]. destruct (get r); cbn [rbind]; try done.
    unfold from. destruct (_ && _); cbn [rbind]; [|done]. intros [= _ <-]. by apply bytes_zdrop. }
  apply no_panic_bind; [by apply field_total; [done|intros; apply Uint64_some]|]. intros [ps r1] E1. apply Hfield in E1; [|done].
  apply no_panic_bind; [by apply field_total; [done|intros; apply idx_ok; lia]|]. intros [oc r2] E2. apply Hfield in E2; [|done].
  apply no_panic_bind; [apply field_total; [done|intros H8; destruct (@Uint64_some decode_error r2 H8) as [y ->]; cbn [rbind]; eauto]|].
  intros [ex r3] E3. apply Hfield in E3; [|done]. apply no_panic_bind; [|by intros [ref r4] _].
  destruct (has f flagRef); [|done]. destruct (Z.ltb_spec (len r3) 1); [done|]. destruct r3 as [|n r3]; [rewrite len_nil in *; lia|]. rewrite idx_0. cbn [rbind].
  apply bytes_cons in E3 as [Hn _]. unfold is_u8 in Hn. destruct (Z.ltb_spec (len (n :: r3)) (1 + n)); [done|]. rewrite slice_ok by lia. cbn [rbind]. rewrite from_ok by lia. done.
Qed.

Lemma decodeMeta_total v : bytes v -> no_panic (decodeMeta v).
Proof.
  intros Hv. unfold decodeMeta. pose proof (Unseal_total v Hv) as Hu. destruct (Unseal v) as [body|e|]; cbn [rbind]; [|done|done].
  destruct (Z.ltb_spec (len body) 5); cbn [rbind]; [done|]. destruct (@idx_ok decode_error body 0) as [x ->]; [lia|]. cbn [rbind]. destruct (negb _); [done|].
  rewrite (slice_ok body 1 5) by lia. cbn [rbind]. destruct (@Uint32_some decode_error (ztake (5 - 1) (zdrop 1 body))) as [s ->].
  { rewrite len_ztake; rewrite ?len_zdrop by lia; lia. }
  cbn [rbind]. by rewrite from_ok by lia.
Qed.

(** ** The store *)

(** What [Load] found it could not use. *)
Inductive corrupt_record : Type :=
| CorruptMeta (e : decode_error)
| CorruptKey (k : list Z)
| CorruptRecord (dir id : Z) (e : decode_error).

Record FileStore (DB : Type) : Type := mkFileStore { fdb : DB; corrupt : list corrupt_record }.
#[global] Arguments mkFileStore {DB} _ _.
#[global] Arguments fdb {DB} _.
#[global] Arguments corrupt {DB} _.

Section store.
Context {DB err : Type} `{!Bolt DB err} (sync : SyncPolicy).
(** Whether a record's [Ref] is not nil. *)
Context (ref_present : SRecord -> bool) (ref_present_law : forall r, Ref r <> [] -> ref_present r = true).
Implicit Types (s : FileStore DB).

(** The buckets [Open] makes sure of. *)
Definition file_Open (t : buckets) : FileStore DB * res (db_error err) unit :=
  let (d, r) := db_Update SyncNone (bolt_Open t)
                  (fun t => let! t := create_buckets (DB := DB) [bucketMeta; bucketOut; bucketIn] t in Ok (tt, t)) in
  (mkFileStore d [], r).

(** The callback of [ForEach] in [Load], over the entries of one bucket. *)
Fixpoint load_records (dir : Z) (l : list (list Z * list Z)) : res err (list SRecord * list corrupt_record) :=
  match l with
  | [] => Ok ([], [])
  | (k, v) :: l =>
      if negb (len k =? 2) then let! (recs, bad) := load_records dir l in Ok (recs, CorruptKey k :: bad)
      else
        let! id := Uint16 k in
        match decodeRecord v with
        | Ok r =>
            let! (recs, bad) := load_records dir l in
            Ok (mkRecord (mkKey dir id) (Seq r) (PubrecSeq r) (Outcome r) (QoS r) (Phase r) (PacketBytes r) (ExpiresAt r) (Ref r) :: recs, bad)
        | Err e => let! (recs, bad) := load_records dir l in Ok (recs, CorruptRecord dir id e :: bad)
        | Panic => Panic
        end
  end.

(** The transaction of [Load]. *)
Definition load_view (t : buckets) : res err (Meta * list SRecord * list corrupt_record) :=
  let! v := tx_Get (DB := DB) bucketMeta keyMeta t in
  let! (meta, bad) := (match v with
                       | None => Ok (zeroMeta, [])
                       | Some v => match decodeMeta v with
                                   | Ok m => Ok (m, [])
                                   | Err e => Ok (zeroMeta, [CorruptMeta e])
                                   | Panic => Panic
                                   end
                       end) in
  let! out := tx_ForEach (DB := DB) (bucketFor Outbound) t in
  let! (recs1, bad1) := load_records Outbound out in
  let! inb := tx_ForEach (DB := DB) (bucketFor Inbound) t in
  let! (recs2, bad2) := load_records Inbound inb in
  Ok (meta, recs1 ++ recs2, bad ++ bad1 ++ bad2).

(** The layer's errors as the contract's. *)
Definition store_err (e : db_error err) : store_error :=
  match e with ErrClosed => Session.ErrClosed | _ => ErrIO end.

Definition file_Load s : FileStore DB * res store_error (Meta * list SRecord) :=
  match db_View (fdb s) load_view with
  | Ok (meta, recs, bad) => (mkFileStore (fdb s) bad, Ok (meta, merge_sort record_le recs))
  | Err e => (s, Err (store_err e))
  | Panic => (s, Panic)
  end.

(** [s.db.Update] with a write of the store. *)
Definition update_store s (fn : buckets -> res err buckets) : FileStore DB * res store_error unit :=
  let (d, r) := db_Update sync (fdb s) (fun t => let! t := fn t in Ok (tt, t)) in
  (mkFileStore d (corrupt s), on_err store_err r).

Definition file_Put s (r : SRecord) : FileStore DB * res store_error unit :=
  match Validate r with
  | Some e => (s, Err e)
  | None =>
      let v := encodeRecord (ref_present r) r in
      let k := idKey (PacketID (Key r)) in
      update_store s (tx_Put (DB := DB) (bucketFor (Dir (Key r))) k v)
  end.

Definition file_Delete s (k : RecordKey) : FileStore DB * res store_error unit :=
  let key := idKey (PacketID k) in
  update_store s (tx_Delete (DB := DB) (bucketFor (Dir k)) key).

Definition file_SetMeta s (m : Meta) : FileStore DB * res store_error unit :=
  let v := encodeMeta m in
  update_store s (tx_Put (DB := DB) bucketMeta keyMeta v).

(** The loop of [Reset]. *)
Fixpoint reset_buckets (bs : list (list Z)) (t : buckets) : res err buckets :=
  match bs with
  | [] => Ok t
  | b :: bs => let! t := DeleteBucket b t in let! t := CreateBucket b t in reset_buckets bs t
  end.

Definition file_Reset s : FileStore DB * res store_error unit :=
  update_store s (reset_buckets [bucketMeta; bucketOut; bucketIn]).

Definition file_Close s : FileStore DB * res store_error unit := (mkFileStore (bolt_Close (fdb s)) (corrupt s), Ok tt).

Definition file_call s (c : store_call) : FileStore DB * res store_error unit :=
  match c with
  | SPut r => file_Put s r
  | SDelete k => file_Delete s k
  | SSetMeta m => file_SetMeta s m
  | SReset => file_Reset s
  | SClose => file_Close s
  end.

(** *** Loading whatever the file holds *)

Definition with_key (dir id : Z) (r : SRecord) : SRecord :=
  mkRecord (mkKey dir id) (Seq r) (PubrecSeq r) (Outcome r) (QoS r) (Phase r) (PacketBytes r) (ExpiresAt r) (Ref r).

(** An entry of a bucket, decoded. *)
Definition decode_at (dir : Z) (x : list Z * list Z) : SRecord + corrupt_record :=
  match @Uint16 unit (fst x) with
  | Ok id =>
      if len (fst x) =? 2 then
        match decodeRecord (snd x) with Ok r => inl (with_key dir id r) | Err e => inr (CorruptRecord dir id e) | Panic => inr (CorruptKey (fst x)) end
      else inr (CorruptKey (fst x))
  | _ => inr (CorruptKey (fst x))
  end.

Definition lefts {A B} (l : list (A + B)) : list A := omap (fun x => match x with inl a => Some a | inr _ => None end) l.
Definition rights {A B} (l : list (A + B)) : list B := omap (fun x => match x with inl _ => None | inr b => Some b end) l.

Lemma rights_none {A B C} (f : C -> A + B) l : (forall x, x ∈ l -> exists a, f x = inl a) -> rights (map f l) = [].
Proof.
  unfold rights. induction l as [|x l IH]; intros H; [done|]. cbn. destruct (H x ltac:(left)) as [a ->]. apply IH. intros y Hy. apply H. by right.
Qed.

Lemma lefts_elem {A B C} (f : C -> A + B) l a : a ∈ lefts (map f l) <-> exists x, x ∈ l /\ f x = inl a.
Proof.
  unfold lefts. rewrite list_elem_of_omap. split.
  - intros (y & (x & -> & Hx)%list_elem_of_fmap & Hy). exists x. split; [done|]. destruct (f x); congruence.
  - intros (x & Hx & Hf). exists (f x). split; [apply list_elem_of_fmap; by exists x|by rewrite Hf].
Qed.

Lemma lefts_NoDup {A B C K} (g : A -> K) (f : K * C -> A + B) (l : list (K * C)) :
  NoDup (map fst l) -> (forall x a, x ∈ l -> f x = inl a -> fst x = g a) -> NoDup (lefts (map f l)).
Proof.
  induction l as [|x l IH]; intros Hn Hg; [constructor|]. cbn in Hn. apply NoDup_cons in Hn as [Hx Hn].
  assert (Hl : NoDup (lefts (map f l))) by (apply IH; [done|]; intros y a Hy; apply Hg; by right).
  cbn. destruct (f x) as [a|] eqn:E; [|done]. constructor; [|done]. intros (y & Hy & Ey)%lefts_elem. apply Hx.
  rewrite (Hg x a) by (done || left). rewrite <- (Hg y a) by (done || by right). apply list_elem_of_fmap. by exists y.
Qed.

Definition byte_values (m : bucket) : Prop := map_Forall (fun _ v => bytes v) m.

Lemma Uint16_any {E} k : len k = 2 -> exists id, @Uint16 E k = Ok id /\ @Uint16 unit k = Ok id.
Proof.
  intros Hk. destruct k as [|a [|b [|c k]]]; try (unfold len in Hk; cbn in Hk; lia).
  unfold Uint16. rewrite !idx_1. cbn [rbind]. rewrite !idx_0. cbn [rbind]. eauto.
Qed.

Lemma load_records_spec dir l :
  Forall (fun x => bytes (snd x)) l -> load_records dir l = Ok (lefts (map (decode_at dir) l), rights (map (decode_at dir) l)).
Proof.
  induction 1 as [|[k v] l Hv _ IH]; [done|]. cbn [load_records map lefts rights omap list_omap]. fold (lefts (map (decode_at dir) l)) (rights (map (decode_at dir) l)).
  rewrite IH. cbn [rbind]. cbn [snd] in Hv. unfold decode_at. cbn [fst snd]. destruct (Z.eqb_spec (len k) 2) as [Hk|Hk]; cbn [negb].
  - destruct (@Uint16_any err k Hk) as (id & -> & ->). cbn [rbind]. pose proof (decodeRecord_total v Hv) as Ht. by destruct (decodeRecord v).
  - destruct (@Uint16 unit k); done.
Qed.

Definition meta_of (bm : bucket) : Meta * list corrupt_record :=
  match bm !! keyMeta with
  | None => (zeroMeta, [])
  | Some v => match decodeMeta v with Ok m => (m, []) | Err e => (zeroMeta, [CorruptMeta e]) | Panic => (zeroMeta, []) end
  end.

(** The entries of a bucket as [Load] decodes them. *)
Definition decoded (dir : Z) (b : bucket) : list (SRecord + corrupt_record) := map (decode_at dir) (ForEach b).

Lemma byte_values_ForEach b : byte_values b -> Forall (fun x => bytes (snd x)) (ForEach b).
Proof.
  intros Hb. apply Forall_forall. intros [k v] Hx. rewrite (proj1 (ForEach_law b)) in Hx. apply elem_of_map_to_list in Hx. by apply (Hb k v).
Qed.

Lemma load_view_spec t bm bo bi :
  t !! bucketMeta = Some bm -> t !! bucketOut = Some bo -> t !! bucketIn = Some bi -> byte_values bm -> byte_values bo -> byte_values bi ->
  load_view t = Ok (fst (meta_of bm), lefts (decoded Outbound bo) ++ lefts (decoded Inbound bi),
                    snd (meta_of bm) ++ rights (decoded Outbound bo) ++ rights (decoded Inbound bi)).
Proof.
  intros Hm Ho Hi Vm Vo Vi. unfold load_view. rewrite (tx_Get_ok _ _ _ _ Hm). cbn [rbind]. unfold meta_of.
  assert (Hout : tx_ForEach (DB := DB) (err := err) (bucketFor Outbound) t = Ok (ForEach bo)) by (unfold tx_ForEach; change (bucketFor Outbound) with bucketOut; by rewrite Ho).
  assert (Hin : tx_ForEach (DB := DB) (err := err) (bucketFor Inbound) t = Ok (ForEach bi)) by (unfold tx_ForEach; change (bucketFor Inbound) with bucketIn; by rewrite Hi).
  rewrite Hout, Hin. cbn [rbind]. rewrite !load_records_spec by (by apply byte_values_ForEach). cbn [rbind].
  destruct (bm !! keyMeta) as [v|] eqn:Ev; [|done]. pose proof (decodeMeta_total v (Vm _ _ Ev)) as Ht. by destruct (decodeMeta v).
Qed.

(** *** What a file represents *)

Definition stored_record (key : RecordKey) (r : SRecord) : Prop :=
  Key r = key /\ is_u16 (PacketID key) /\ (Dir key = Outbound \/ Dir key = Inbound) /\ typed_record r /\ len (Ref r) <= 255.

Definition bucket_of (dir : Z) (rs : gmap RecordKey SRecord) (b : bucket) : Prop :=
  forall k v, b !! k = Some v <-> exists id r, is_u16 id /\ k = idKey id /\ rs !! mkKey dir id = Some r /\ v = encodeRecord (ref_present r) r.

Record represents (t : buckets) (m : Meta) (rs : gmap RecordKey SRecord) : Prop := {
  rp_meta : exists bm, t !! bucketMeta = Some bm /\ byte_values bm
            /\ (bm !! keyMeta = None /\ m = zeroMeta \/ bm !! keyMeta = Some (encodeMeta m) /\ typed_meta m);
  rp_out : exists b, t !! bucketOut = Some b /\ bucket_of Outbound rs b;
  rp_in : exists b, t !! bucketIn = Some b /\ bucket_of Inbound rs b;
  rp_typed : forall key r, rs !! key = Some r -> stored_record key r;
}.

Lemma decode_at_entry dir id r : stored_record (mkKey dir id) r -> decode_at dir (idKey id, encodeRecord (ref_present r) r) = inl r.
Proof.
  intros (Hk & Hid & _ & Ht & Hr). unfold decode_at. cbn [fst snd]. unfold idKey. rewrite <- (app_nil_r (be16 id)), Uint16_be16, app_nil_r by done.
  rewrite len_be16. change (2 =? 2) with true. cbn iota. rewrite decode_record_body by (done || apply ref_present_law). unfold with_key. cbn. destruct r; cbn in *. by subst.
Qed.

Lemma bytes_encodeRecord r : typed_record r -> len (Ref r) <= 255 -> bytes (encodeRecord (ref_present r) r).
Proof. intros Ht Hr. rewrite encodeRecord_body by done. by apply bytes_Seal, bytes_body. Qed.

Section bucket.
Context (dir : Z) (rs : gmap RecordKey SRecord) (b : bucket) (B : bucket_of dir rs b) (Hrs : forall key r, rs !! key = Some r -> stored_record key r).

Lemma bucket_values : byte_values b.
Proof. intros k v Hv. apply B in Hv as (id & r & _ & _ & Hr & ->). apply Hrs in Hr as (_ & _ & _ & ? & ?). by apply bytes_encodeRecord. Qed.

Lemma bucket_entry x : x ∈ ForEach b -> exists id r, is_u16 id /\ fst x = idKey id /\ rs !! mkKey dir id = Some r /\ decode_at dir x = inl r.
Proof.
  rewrite (proj1 (ForEach_law b)). destruct x as [k v]. intros Hx%elem_of_map_to_list. apply B in Hx as (id & r & Hid & -> & Hr & ->).
  exists id, r. split_and!; try done. by apply decode_at_entry, Hrs.
Qed.

Lemma bucket_decoded :
  rights (decoded dir b) = [] /\ NoDup (lefts (decoded dir b)) /\ (forall r, r ∈ lefts (decoded dir b) <-> Dir (Key r) = dir /\ rs !! Key r = Some r).
Proof.
  unfold decoded. split_and!.
  - apply rights_none. intros x Hx. destruct (bucket_entry x Hx) as (id & r & _ & _ & _ & H). eauto.
  - apply (lefts_NoDup (fun r => idKey (PacketID (Key r)))).
    + rewrite (proj1 (ForEach_law b)). apply NoDup_fst_map_to_list.
    + intros x r Hx Hr. destruct (bucket_entry x Hx) as (id & r' & _ & -> & Hr' & H). rewrite H in Hr. injection Hr as ->. apply Hrs in Hr' as (-> & _). done.
  - intros r. rewrite lefts_elem. split.
    + intros (x & Hx & Hr). destruct (bucket_entry x Hx) as (id & r' & _ & _ & Hr' & H). rewrite H in Hr. injection Hr as ->. pose proof (Hrs _ _ Hr') as (-> & _). done.
    + intros [Hd Hr]. pose proof (Hrs _ _ Hr) as (_ & Hid & _). destruct (Key r) as [d id] eqn:Hk. cbn [Dir PacketID] in *. subst d. exists (idKey id, encodeRecord (ref_present r) r).
      split; [|by apply decode_at_entry, Hrs]. rewrite (proj1 (ForEach_law b)). apply elem_of_map_to_list, B. by exists id, r.
Qed.
End bucket.

(** *** The laws of a store *)

Definition file_holds s (a : contents) : Prop :=
  match a with
  | None => is_open (fdb s) = false
  | Some (m, rs) => is_open (fdb s) = true /\ represents (file (fdb s)) m rs
  end.

Lemma db_View_open {A} (d : DB) (fn : buckets -> res err A) a : is_open d = true -> fn (file d) = Ok a -> db_View d fn = Ok a.
Proof. intros Ho E. unfold db_View. rewrite bolt_View_law, Ho, E. done. Qed.

Lemma loads_perm rs bo bi :
  bucket_of Outbound rs bo -> bucket_of Inbound rs bi -> (forall key r, rs !! key = Some r -> stored_record key r) ->
  lefts (decoded Outbound bo) ++ lefts (decoded Inbound bi) ≡ₚ map snd (map_to_list rs).
Proof.
  intros Bo Bi Hrs. destruct (bucket_decoded _ _ _ Bo Hrs) as (_ & No & Eo). destruct (bucket_decoded _ _ _ Bi Hrs) as (_ & Ni & Ei).
  destruct (values_keys rs) as [Nk Ek]; [intros k r Hr; by apply (Hrs k r)|]. apply NoDup_Permutation.
  - apply NoDup_app. split; [done|]. split; [|done]. intros r [H1 _]%Eo [H2 _]%Ei. unfold Outbound, Inbound in *. lia.
  - by apply NoDup_fmap_1 in Nk.
  - intros r. rewrite elem_of_app, Eo, Ei, Ek. split; [tauto|]. intros Hr. destruct (Hrs _ _ Hr) as (_ & _ & [H|H] & _); tauto.
Qed.

Lemma file_Load_law s a :
  file_holds s a ->
  match a with
  | None => snd (file_Load s) = Err Session.ErrClosed
  | Some (m, rs) => exists out, snd (file_Load s) = Ok (m, out) /\ loads rs out /\ corrupt (fst (file_Load s)) = []
  end.
Proof.
  destruct a as [[m rs]|]; cbn [file_holds].
  - intros [Ho [(bm & Hm & Vm & Hmeta) (bo & Hbo & Bo) (bi & Hbi & Bi) Hrs]]. unfold file_Load.
    rewrite (db_View_open _ _ _ Ho (load_view_spec _ bm bo bi Hm Hbo Hbi Vm (bucket_values _ _ _ Bo Hrs) (bucket_values _ _ _ Bi Hrs))).
    destruct (bucket_decoded _ _ _ Bo Hrs) as (Ro & _). destruct (bucket_decoded _ _ _ Bi Hrs) as (Ri & _).
    assert (Hmo : meta_of bm = (m, [])) by (unfold meta_of; destruct Hmeta as [[-> ->]|[-> Ht]]; [done|by rewrite decode_meta_encode]).
    rewrite Hmo, Ro, Ri. cbn [fst snd app corrupt]. eexists. split; [done|]. split; [|done]. split; [|apply StronglySorted_merge_sort; apply _].
    rewrite merge_sort_Permutation. by apply loads_perm.
  - intros Ho. unfold file_Load, db_View. rewrite bolt_View_law, Ho. cbn. by rewrite (proj1 (is_not_open_law ErrDatabaseNotOpen)).
Qed.

Lemma update_ok s fn t' :
  is_open (fdb s) = true -> fn (file (fdb s)) = Ok t' ->
  let (s', r) := update_store s fn in
  is_open (fdb s') = true /\ ((r = Ok tt /\ file (fdb s') = t') \/ (r = Err ErrIO /\ file (fdb s') = file (fdb s))).
Proof.
  intros Ho E. unfold update_store. pose proof (db_Update_ok sync (fdb s) (fun t => let! t := fn t in Ok (tt, t)) tt t' Ho) as H.
  cbn beta in H. rewrite E in H. specialize (H eq_refl). destruct (db_Update sync (fdb s) _) as [d r]. destruct H as [H1 [[-> H2]|[H2 [e ->]]]]; cbn; (split; [done|]); [by left|by right].
Qed.

Lemma update_closed s fn : is_open (fdb s) = false -> is_open (fdb (fst (update_store s fn))) = false /\ snd (update_store s fn) = Err Session.ErrClosed.
Proof.
  intros Ho. unfold update_store. destruct (db_Update_closed sync (fdb s) (fun t => let! t := fn t in Ok (tt, t)) Ho) as [H1 H2].
  destruct (db_Update sync (fdb s) _) as [d r]. cbn in *. by subst.
Qed.

Lemma bucket_of_ext dir rs rs' b : (forall id, rs !! mkKey dir id = rs' !! mkKey dir id) -> bucket_of dir rs b -> bucket_of dir rs' b.
Proof. intros He B k v. rewrite (B k v). by setoid_rewrite He. Qed.

Lemma idKey_inj a b : is_u16 a -> is_u16 b -> idKey a = idKey b -> a = b.
Proof.
  intros Ha Hb E. pose proof (@Uint16_be16 unit a [] Ha) as H1. unfold idKey in E. rewrite E, Uint16_be16 in H1 by done. congruence.
Qed.

Lemma bucket_of_insert dir rs b id r :
  is_u16 id -> bucket_of dir rs b -> bucket_of dir (<[mkKey dir id := r]> rs) (<[idKey id := encodeRecord (ref_present r) r]> b).
Proof.
  intros Hid B k v. rewrite lookup_insert_Some, (B k v). split.
  - intros [[<- <-]|[Hne (id' & r' & H1 & -> & H2 & ->)]]; [exists id, r; by rewrite lookup_insert_eq|].
    exists id', r'. split_and!; try done. rewrite lookup_insert_ne; [done|]. intros [= ->]. done.
  - intros (id' & r' & H1 & -> & H2 & ->). apply lookup_insert_Some in H2 as [[[= <-] <-]|[Hne H2]]; [by left|]. right.
    split; [intros E; apply Hne; f_equal; by apply idKey_inj|by exists id', r'].
Qed.

Lemma bucket_of_delete dir rs b id : is_u16 id -> bucket_of dir rs b -> bucket_of dir (delete (mkKey dir id) rs) (delete (idKey id) b).
Proof.
  intros Hid B k v. rewrite lookup_delete_Some, (B k v). split.
  - intros (Hne & id' & r' & H1 & -> & H2 & ->). exists id', r'. split_and!; try done. rewrite lookup_delete_ne; [done|]. intros [= ->]. done.
  - intros (id' & r' & H1 & -> & H2 & ->). apply lookup_delete_Some in H2 as [Hne H2]. split; [intros E; apply Hne; f_equal; by apply idKey_inj|by exists id', r'].
Qed.

Lemma bucket_of_empty dir : bucket_of dir ∅ ∅.
Proof. intros k v. rewrite lookup_empty. split; [done|]. intros (id & r & _ & _ & H & _). by rewrite lookup_empty in H. Qed.

(** One bucket of a file changes. *)
Lemma represents_bucket t m rs rs' dir b b' :
  (dir = Outbound \/ dir = Inbound) -> represents t m rs -> t !! bucketFor dir = Some b -> (bucket_of dir rs b -> bucket_of dir rs' b') ->
  (forall d id, d <> dir -> rs !! mkKey d id = rs' !! mkKey d id) -> (forall key r, rs' !! key = Some r -> stored_record key r) ->
  represents (<[bucketFor dir := b']> t) m rs'.
Proof.
  intros [->| ->] [(bm & Hm & Vm & Hmeta) (bo & Hbo & Bo) (bi & Hbi & Bi) Hrs] Hb Hnew Hother Hrs'; split; try done;
    unfold bucketFor in *; cbn [Z.eqb Outbound Inbound Pos.eqb] in *.
  - exists bm. rewrite lookup_insert_ne by done. done.
  - exists b'. rewrite lookup_insert_eq. split; [done|]. rewrite Hb in Hbo. injection Hbo as <-. by apply Hnew.
  - exists bi. rewrite lookup_insert_ne by done. split; [done|]. eapply bucket_of_ext; [|exact Bi]. intros id. by apply Hother.
  - exists bm. rewrite lookup_insert_ne by done. done.
  - exists bo. rewrite lookup_insert_ne by done. split; [done|]. eapply bucket_of_ext; [|exact Bo]. intros id. by apply Hother.
  - exists b'. rewrite lookup_insert_eq. split; [done|]. rewrite Hb in Hbi. injection Hbi as <-. by apply Hnew.
Qed.

Lemma represents_has t m rs dir : (dir = Outbound \/ dir = Inbound) -> represents t m rs -> exists b, t !! bucketFor dir = Some b.
Proof. intros [->| ->] [_ (bo & Hbo & _) (bi & Hbi & _) _]; eauto. Qed.

(** Arguments of their Go types. *)
Definition file_accepts (c : store_call) : Prop :=
  match c with
  | SPut r => is_u16 (PacketID (Key r)) /\ typed_record r
  | SDelete k => is_u16 (PacketID k) /\ (Dir k = Outbound \/ Dir k = Inbound)
  | SSetMeta m => typed_meta m
  | _ => True
  end.

Lemma Validate_stored r : is_u16 (PacketID (Key r)) -> typed_record r -> Validate r = None -> stored_record (Key r) r.
Proof.
  intros Hid Ht. unfold Validate, MaxRefLen. destruct (Phase_Valid (Phase r) (Dir (Key r))) eqn:E; [|done]. cbn [negb]. destruct (Z.ltb_spec 255 (len (Ref r))); [done|]. intros _.
  split_and!; try done. revert E. unfold Phase_Valid. destruct (Z.eqb_spec (Dir (Key r)) Outbound); [by left|]. destruct (Z.eqb_spec (Dir (Key r)) Inbound); [by right|done].
Qed.

Lemma len_encodeRecord r : typed_record r -> len (Ref r) <= 255 -> len (encodeRecord (ref_present r) r) <= MaxValueSize.
Proof.
  intros (_ & _ & _ & _ & _ & _ & Hp & _) Hr. rewrite encodeRecord_body by done. unfold Seal, body_of, MaxValueSize. rewrite !len_app, len_be32, len_be64.
  change (len [recordVersion; QoS r; Phase r; recordFlags (ref_present r) r]) with 4.
  repeat match goal with |- context [if ?c then _ else _] => destruct c end; destruct (ExpiresAt r); rewrite ?len_cons, ?len_be64, ?len_nil; change (2 ^ 31) with 2147483648; change (2 ^ 28) with 268435456 in Hp; lia.
Qed.

(** The call in the database, when nothing fails it. *)
Lemma represents_put t m rs r :
  represents t m rs -> stored_record (Key r) r ->
  exists t', tx_Put (DB := DB) (err := err) (bucketFor (Dir (Key r))) (idKey (PacketID (Key r))) (encodeRecord (ref_present r) r) t = Ok t'
    /\ represents t' m (<[Key r := r]> rs).
Proof.
  intros R S. pose proof S as (_ & Hid & Hdir & Ht & Hr). destruct (represents_has t m rs _ Hdir R) as [b Hb]. eexists. split.
  - apply (tx_Put_ok _ _ _ _ b Hb); [unfold idKey; rewrite len_be16; unfold MaxKeySize; lia|by apply len_encodeRecord].
  - apply (represents_bucket t m rs _ (Dir (Key r)) b); try done.
    + intros B. replace (<[Key r := r]> rs) with (<[mkKey (Dir (Key r)) (PacketID (Key r)) := r]> rs) by (by destruct (Key r)). by apply bucket_of_insert.
    + intros d id Hd. rewrite lookup_insert_ne; [done|]. intros E. rewrite E in Hd. done.
    + intros key r'. rewrite lookup_insert_Some. intros [[<- <-]|[_ H]]; [done|by apply R].
Qed.

Lemma represents_delete t m rs k :
  represents t m rs -> is_u16 (PacketID k) -> (Dir k = Outbound \/ Dir k = Inbound) ->
  exists t', tx_Delete (DB := DB) (err := err) (bucketFor (Dir k)) (idKey (PacketID k)) t = Ok t' /\ represents t' m (delete k rs).
Proof.
  intros R Hid Hdir. destruct (represents_has t m rs _ Hdir R) as [b Hb]. eexists. split; [apply (tx_Delete_ok _ _ _ b Hb)|].
  apply (represents_bucket t m rs _ (Dir k) b); try done.
  - intros B. replace (delete k rs) with (delete (mkKey (Dir k) (PacketID k)) rs) by (by destruct k). by apply bucket_of_delete.
  - intros d id Hd. rewrite lookup_delete_ne; [done|]. intros ->. done.
  - intros key r' [_ H]%lookup_delete_Some. by apply R.
Qed.

Lemma represents_meta t m rs m' :
  represents t m rs -> typed_meta m' ->
  exists t', tx_Put (DB := DB) (err := err) bucketMeta keyMeta (encodeMeta m') t = Ok t' /\ represents t' m' rs.
Proof.
  intros [(bm & Hm & Vm & _) Ro Ri Hrs] Ht. eexists. split.
  - apply (tx_Put_ok _ _ _ _ bm Hm); [by vm_compute|]. destruct Ht as (_ & _ & Hl). unfold encodeMeta, Seal, MaxValueSize.
    rewrite len_app, len_cons, len_app, !len_be32. change (2 ^ 31) with 2147483648. lia.
  - destruct Ro as (bo & Hbo & Bo), Ri as (bi & Hbi & Bi). split; try done.
    + eexists. rewrite lookup_insert_eq. split; [done|]. split; [|right; by rewrite lookup_insert_eq]. intros k v. rewrite lookup_insert_Some.
      intros [[_ <-]|[_ H]]; [by apply bytes_Seal, bytes_meta|by apply (Vm k)].
    + exists bo. by rewrite lookup_insert_ne.
    + exists bi. by rewrite lookup_insert_ne.
Qed.

Lemma represents_reset t m rs :
  represents t m rs -> exists t', reset_buckets [bucketMeta; bucketOut; bucketIn] t = Ok t' /\ represents t' zeroMeta ∅.
Proof.
  intros [(bm & Hm & _) (bo & Hbo & _) (bi & Hbi & _) _]. cbn [reset_buckets]. eexists. split.
  - rewrite (DeleteBucket_law _ _ bm) by done. cbn [rbind]. rewrite CreateBucket_law by (done || apply lookup_delete_eq). cbn [rbind].
    rewrite (DeleteBucket_law _ _ bo) by (rewrite lookup_insert_ne, lookup_delete_ne by done; done). cbn [rbind]. rewrite CreateBucket_law by (done || apply lookup_delete_eq). cbn [rbind].
    rewrite (DeleteBucket_law _ _ bi) by (rewrite lookup_insert_ne, lookup_delete_ne, lookup_insert_ne, lookup_delete_ne by done; done). cbn [rbind].
    rewrite CreateBucket_law by (done || apply lookup_delete_eq). reflexivity.
  - split; [exists ∅|exists ∅|exists ∅|].
    + do 2 (rewrite lookup_insert_ne, lookup_delete_ne by done). rewrite lookup_insert_eq. split_and!; try done. by left.
    + rewrite lookup_insert_ne, lookup_delete_ne by done. rewrite lookup_insert_eq. split; [done|apply bucket_of_empty].
    + rewrite lookup_insert_eq. split; [done|apply bucket_of_empty].
    + intros key r. by rewrite lookup_empty.
Qed.

Lemma file_call_law s c a :
  file_accepts c -> file_holds s a ->
  let (s', r) := file_call s c in
  (file_holds s' (fst (contract a c)) /\ r = match snd (contract a c) with None => Ok tt | Some e => Err e end)
  \/ (file_holds s' a /\ r = Err ErrIO /\ a <> None /\ c <> SClose).
Proof.
  intros Hc Ha. assert (Hstep : forall fn m rs m' rs', c <> SClose -> a = Some (m, rs) -> (exists t', fn (file (fdb s)) = Ok t' /\ represents t' m' rs') ->
            let (s', r) := update_store s fn in
            (file_holds s' (Some (m', rs')) /\ r = Ok tt) \/ (file_holds s' a /\ r = Err ErrIO /\ a <> None /\ c <> SClose)).
  { intros fn m rs m' rs' Hn -> (t' & E & R). destruct Ha as [Ho R0]. pose proof (update_ok s fn t' Ho E) as H. destruct (update_store s fn) as [s' r].
    destruct H as [O1 [[-> F]|[-> F]]]; cbn [file_holds]; rewrite F; [by left|by right]. }
  assert (Hclosed : forall fn, a = None -> let (s', r) := update_store s fn in
            (file_holds s' None /\ r = Err Session.ErrClosed) \/ (file_holds s' a /\ r = Err ErrIO /\ a <> None /\ c <> SClose)).
  { intros fn ->. pose proof (update_closed s fn Ha) as H. destruct (update_store s fn). by left. }
  destruct c as [r|k|m'| |]; cbn [file_call contract file_accepts] in *; [unfold file_Put; destruct (Validate r) as [e|] eqn:V; [left; by destruct a|]|..];
    [destruct a as [[m rs]|]; [destruct Ha as [_ R]|exact (Hclosed _ eq_refl)]..|].
  - apply (Hstep _ m rs m (<[Key r := r]> rs)); [done|done|]. destruct Hc. apply represents_put; [done|]. by apply Validate_stored.
  - apply (Hstep _ m rs m (delete k rs)); [done|done|]. destruct Hc. by apply represents_delete.
  - apply (Hstep _ m rs m' rs); [done|done|]. by apply (represents_meta _ m).
  - apply (Hstep _ m rs zeroMeta ∅); [done|done|]. by apply (represents_reset _ m rs).
  - left. split; [apply bolt_Close_law|done].
Qed.

(** A new file. *)
Lemma file_Open_new : file_holds (mkFileStore (bolt_Open {[bucketMeta := ∅; bucketOut := ∅; bucketIn := ∅]}) []) (Some (zeroMeta, ∅)).
Proof.
  destruct (bolt_Open_law {[bucketMeta := ∅; bucketOut := ∅; bucketIn := ∅]}) as [Ho Hf]. split; [exact Ho|]. cbn [fdb]. rewrite Hf. split.
  - exists ∅. split; [done|]. split; [done|by left].
  - exists ∅. split; [done|apply bucket_of_empty].
  - exists ∅. split; [done|apply bucket_of_empty].
  - intros key r. by rewrite lookup_empty.
Qed.

(** A restart: the file is opened by the next process. *)
Definition reopen s : FileStore DB := mkFileStore (bolt_Open (file (fdb s))) [].

Lemma reopen_holds s m rs : represents (file (fdb s)) m rs -> file_holds (reopen s) (Some (m, rs)).
Proof. intros R. destruct (bolt_Open_law (file (fdb s))) as [Ho Hf]. split; [done|]. cbn [fdb reopen]. by rewrite Hf. Qed.

(** The contract's view of a call's answer. *)
Definition error_of (r : res store_error unit) : option store_error :=
  match r with Ok _ => None | Err e => Some e | Panic => Some ErrIO end.

#[export, program] Instance FileStore_Store : Store (FileStore DB) := {|
  Load s := snd (file_Load s);
  perform s c := let (s, r) := file_call s c in (s, error_of r);
  accepts := file_accepts;
  holds := file_holds;
|}.
Next Obligation.
  intros s a Ha. pose proof (file_Load_law s a Ha) as H. destruct a as [[m rs]|]; [|done]. destruct H as (out & H1 & H2 & _). by exists out.
Qed.
Next Obligation.
  cbn beta. intros s c a Hc Ha. pose proof (file_call_law s c a Hc Ha) as H. cbn beta. destruct (file_call s c) as [s' r]. cbn [fst snd].
  destruct H as [[H1 ->]|(H1 & -> & H2)]; [left; split; [done|]; by destruct (snd (contract a c))|by right].
Qed.

(** *** Damage *)

Lemma lefts_perm {A B} (l k : list (A + B)) : l ≡ₚ k -> lefts l ≡ₚ lefts k.
Proof. intros H. unfold lefts. by rewrite H. Qed.

Lemma rights_perm {A B} (l k : list (A + B)) : l ≡ₚ k -> rights l ≡ₚ rights k.
Proof. intros H. unfold rights. by rewrite H. Qed.

Lemma decoded_insert dir b k v : decoded dir (<[k := v]> b) ≡ₚ decode_at dir (k, v) :: decoded dir (delete k b).
Proof.
  unfold decoded. rewrite (proj1 (ForEach_law (<[k := v]> b))), (proj1 (ForEach_law (delete k b))).
  rewrite <- insert_delete_eq, map_to_list_insert by apply lookup_delete_eq. done.
Qed.

(** The value stored for [r] is overwritten. *)
Definition overwrite (r : SRecord) (v : list Z) (t : buckets) : buckets :=
  alter (alter (fun _ => v) (idKey (PacketID (Key r)))) (bucketFor (Dir (Key r))) t.

Lemma damaged_bucket dir rs b id r v e :
  bucket_of dir rs b -> (forall key r, rs !! key = Some r -> stored_record key r) -> rs !! mkKey dir id = Some r -> bytes v -> decodeRecord v = Err e ->
  let b' := alter (fun _ => v) (idKey id) b in
  byte_values b' /\ rights (decoded dir b') = [CorruptRecord dir id e]
  /\ exists b1, bucket_of dir (delete (mkKey dir id) rs) b1 /\ lefts (decoded dir b') ≡ₚ lefts (decoded dir b1).
Proof.
  intros B Hrs Hr Hv He b'. pose proof (Hrs _ _ Hr) as (_ & Hid & _). cbn [PacketID] in Hid.
  assert (Hb : b !! idKey id = Some (encodeRecord (ref_present r) r)) by (apply B; by exists id, r).
  assert (Eb : b' = <[idKey id := v]> b) by (unfold b'; apply map_eq; intros k; destruct (decide (k = idKey id)) as [->|Hk];
    [by rewrite lookup_alter_eq, lookup_insert_eq, Hb|by rewrite lookup_alter_ne, lookup_insert_ne by done]).
  assert (B1 : bucket_of dir (delete (mkKey dir id) rs) (delete (idKey id) b)) by (by apply bucket_of_delete).
  assert (Hrs1 : forall key r, delete (mkKey dir id) rs !! key = Some r -> stored_record key r) by (intros key r' [_ H]%lookup_delete_Some; by apply Hrs).
  assert (Hd : decode_at dir (idKey id, v) = inr (CorruptRecord dir id e)).
  { unfold decode_at. cbn [fst snd]. unfold idKey. rewrite <- (app_nil_r (be16 id)), Uint16_be16, app_nil_r by done. rewrite len_be16. cbn. by rewrite He. }
  rewrite Eb. split_and!.
  - intros k w. rewrite lookup_insert_Some. intros [[_ <-]|[_ H]]; [done|]. by apply (bucket_values dir rs b B Hrs k).
  - apply Permutation_singleton_r. rewrite (rights_perm _ _ (decoded_insert dir b (idKey id) v)), Hd.
    transitivity ([CorruptRecord dir id e] ++ rights (decoded dir (delete (idKey id) b))); [done|]. by rewrite (proj1 (bucket_decoded _ _ _ B1 Hrs1)).
  - exists (delete (idKey id) b). split; [done|]. rewrite (lefts_perm _ _ (decoded_insert dir b (idKey id) v)), Hd. done.
Qed.

Lemma overwrite_load t m rs r v e :
  represents t m rs -> rs !! Key r = Some r -> bytes v -> decodeRecord v = Err e ->
  exists recs, load_view (overwrite r v t) = Ok (m, recs, [CorruptRecord (Dir (Key r)) (PacketID (Key r)) e])
    /\ recs ≡ₚ map snd (map_to_list (delete (Key r) rs)).
Proof.
  intros [(bm & Hm & Vm & Hmeta) (bo & Hbo & Bo) (bi & Hbi & Bi) Hrs] Hr Hv He. pose proof (Hrs _ _ Hr) as (_ & _ & Hdir & _).
  assert (Hmo : meta_of bm = (m, [])) by (unfold meta_of; destruct Hmeta as [[-> ->]|[-> Ht]]; [done|by rewrite decode_meta_encode]).
  assert (Hrs1 : forall key r', delete (Key r) rs !! key = Some r' -> stored_record key r') by (intros key r' [_ H]%lookup_delete_Some; by apply Hrs).
  unfold overwrite. destruct (Key r) as [dir id] eqn:Hk. cbn [Dir PacketID] in *. destruct Hdir as [->| ->].
  - destruct (damaged_bucket Outbound rs bo id r v e Bo Hrs Hr Hv He) as (V & R & b1 & B1 & L).
    pose proof (bucket_of_ext Inbound rs (delete (mkKey Outbound id) rs) bi ltac:(intros x; by rewrite lookup_delete_ne) Bi) as Bi1.
    eexists. split; [rewrite (load_view_spec _ bm (alter (fun _ => v) (idKey id) bo) bi)|].
    + by rewrite Hmo, R, (proj1 (bucket_decoded _ _ _ Bi1 Hrs1)), app_nil_r.
    + by rewrite lookup_alter_ne.
    + change (bucketFor Outbound) with bucketOut. by rewrite lookup_alter_eq, Hbo.
    + by rewrite lookup_alter_ne.
    + done.
    + done.
    + by apply (bucket_values _ _ _ Bi Hrs).
    + rewrite L. by apply loads_perm.
  - destruct (damaged_bucket Inbound rs bi id r v e Bi Hrs Hr Hv He) as (V & R & b1 & B1 & L).
    pose proof (bucket_of_ext Outbound rs (delete (mkKey Inbound id) rs) bo ltac:(intros x; by rewrite lookup_delete_ne) Bo) as Bo1.
    eexists. split; [rewrite (load_view_spec _ bm bo (alter (fun _ => v) (idKey id) bi))|].
    + by rewrite Hmo, R, (proj1 (bucket_decoded _ _ _ Bo1 Hrs1)).
    + by rewrite lookup_alter_ne.
    + by rewrite lookup_alter_ne.
    + change (bucketFor Inbound) with bucketIn. by rewrite lookup_alter_eq, Hbi.
    + done.
    + by apply (bucket_values _ _ _ Bo Hrs).
    + done.
    + rewrite L. by apply loads_perm.
Qed.

Lemma damaged_record r pre l l' post :
  typed_record r -> len (Ref r) <= 255 -> encodeRecord (ref_present r) r = pre ++ l ++ post -> bytes l' -> length l = length l' -> len l <= 4 -> l <> l' ->
  len pre + len l <= len (pre ++ l ++ post) - 4 \/ len (pre ++ l ++ post) - 4 <= len pre ->
  bytes (pre ++ l' ++ post) /\ decodeRecord (pre ++ l' ++ post) = Err ChecksumMismatch.
Proof.
  intros Ht Hr E Hl' Hlen H4 Hne Hw. pose proof (bytes_encodeRecord r Ht Hr) as Hb. rewrite E, !bytes_app in Hb. split; [rewrite !bytes_app; tauto|].
  rewrite encodeRecord_body in E by done. unfold decodeRecord. rewrite (damage_shows (body_of (ref_present r) r) pre l l' post); try done; [by apply bytes_body|].
  rewrite <- E in Hw. unfold Seal in Hw. rewrite len_app, len_be32 in Hw. lia.
Qed.
End store.

(** ** Properties *)

(** A store on a new file. *)
Definition new_store {DB err} `{!Bolt DB err} : FileStore DB :=
  mkFileStore (bolt_Open {[bucketMeta := ∅; bucketOut := ∅; bucketIn := ∅]}) [].

(** C24: a session on disk is recovered.  Whatever the sync policy and
    whichever commits the disk fails, after any sequence of [Put], [Delete],
    [SetMeta] and [Reset] calls, with arguments of their Go types, a store
    opened on the file by the next process loads exactly the records whose
    last valid [Put] that did not fail was not followed by a [Delete] or
    [Reset] that did not fail, each once and as it was put, in resend order,
    and reports no damage. *)
Theorem file_session_recovered {DB err : Type} `{!Bolt DB err} (sync : SyncPolicy) (ref_present : SRecord -> bool)
    (ref_present_law : forall r, Ref r <> [] -> ref_present r = true) cs :
  Forall file_accepts cs -> no_close cs ->
  let St := FileStore_Store sync ref_present ref_present_law in
  let s := perform_all (H := St) new_store cs in
  exists m out, file_Load (reopen s) = (reopen s, Ok (m, out))
    /\ (forall r, r ∈ out <-> last_write (Key r) None (performed (H := St) new_store cs) = Some r)
    /\ NoDup (map Key out) /\ Forall (fun r => Validate r = None) out /\ StronglySorted record_le out.
Proof.
  intros Hc Hn St s. destruct (store_recovers (H := St) new_store cs (file_Open_new ref_present) Hc Hn) as (m & out & Hl & H1).
  pose proof (perform_all_law (H := St) cs new_store _ Hc (file_Open_new ref_present)) as Hs.
  destruct (contract_last_write (performed (H := St) new_store cs) zeroMeta ∅ (performed_no_close (H := St) cs new_store Hn)) as (m' & rs & E & _).
  rewrite E in Hs. fold s in Hs, Hl. destruct Hs as [Ho R].
  pose proof (file_Load_law ref_present ref_present_law (reopen s) (Some (m', rs)) (reopen_holds ref_present s m' rs R)) as (out' & H2 & _ & H3).
  exists m, out. split; [|exact H1].
  assert (Hv : forall d : DB, is_open d = true -> db_View d load_view = mapErr (load_view (file d))) by (intros d Hd; unfold db_View; by rewrite bolt_View_law, Hd).
  change (snd (file_Load s) = Ok (m, out)) in Hl. destruct (bolt_Open_law (file (fdb s))) as [Ho2 Hf2]. unfold file_Load, reopen in *. cbn [fdb corrupt] in *.
  rewrite Hv in Hl by done. rewrite Hv, Hf2 in H2, H3 |- * by done. destruct (mapErr (load_view (file (fdb s)))) as [[[m0 recs] bad]|e|]; cbn [snd fst corrupt] in *; [|done..].
  by rewrite Hl, H3.
Qed.

(** C29: damage is contained.  When up to four consecutive bytes of one
    record's stored body, or bytes of its checksum, have changed on the disk,
    a store opened on the file loads all the other records and the metadata
    as they were, leaves that record out, and reports it. *)
Theorem file_damage_contained {DB err : Type} `{!Bolt DB err} (ref_present : SRecord -> bool)
    (ref_present_law : forall r, Ref r <> [] -> ref_present r = true) (s : FileStore DB) m rs r pre l l' post :
  file_holds ref_present s (Some (m, rs)) -> rs !! Key r = Some r ->
  encodeRecord (ref_present r) r = pre ++ l ++ post -> bytes l' -> length l = length l' -> len l <= 4 -> l <> l' ->
  len pre + len l <= len (pre ++ l ++ post) - 4 \/ len (pre ++ l ++ post) - 4 <= len pre ->
  let d := bolt_Open (overwrite r (pre ++ l' ++ post) (file (fdb s))) in
  exists out, file_Load (mkFileStore d []) = (mkFileStore d [CorruptRecord (Dir (Key r)) (PacketID (Key r)) ChecksumMismatch], Ok (m, out))
    /\ loads (delete (Key r) rs) out.
Proof.
  intros [Ho R] Hr E Hl' Hlen H4 Hne Hw d. destruct (rp_typed _ _ _ _ R _ _ Hr) as (_ & _ & _ & Ht & Href).
  destruct (damaged_record ref_present r pre l l' post Ht Href E Hl' Hlen H4 Hne Hw) as [Hb Hd].
  destruct (overwrite_load (DB := DB) (err := err) ref_present ref_present_law _ m rs r _ _ R Hr Hb Hd) as (recs & Hv & Hp).
  destruct (bolt_Open_law (overwrite r (pre ++ l' ++ post) (file (fdb s)))) as [Ho2 Hf2]. fold d in Ho2, Hf2.
  exists (merge_sort record_le recs). unfold file_Load. cbn [fdb]. rewrite (db_View_open _ _ _ Ho2 (eq_trans (f_equal load_view Hf2) Hv)). split; [done|].
  split; [by rewrite merge_sort_Permutation|apply StronglySorted_merge_sort; apply _].
Qed.

(** ** Witnesses *)

Import MemBolt.

Definition sample_present (r : SRecord) : bool := negb (bool_decide (Ref r = [])).

Lemma sample_present_law r : Ref r <> [] -> sample_present r = true.
Proof. intros H. unfold sample_present. by rewrite bool_decide_eq_false_2. Qed.

Definition on_disk_record (id seq : Z) : SRecord :=
  mkRecord (mkKey Outbound id) seq 0 0 1 AwaitPuback [0x32; 0] (Some 1700000000000000000) (str "queue-1").

Definition sample_file_calls : list store_call :=
  [SPut (on_disk_record 7 2); SPut (on_disk_record 8 1); SDelete (mkKey Outbound 7); SSetMeta (mkMeta (str "c") 30)].

Lemma sample_file_calls_ok : Forall file_accepts sample_file_calls.
Proof.
  assert (Hr : forall id seq, is_u16 id -> is_u64 seq -> is_u16 (PacketID (Key (on_disk_record id seq))) /\ typed_record (on_disk_record id seq)).
  { intros id seq Hid Hseq. split; [done|]. split_and!; try done; [by repeat constructor..|]. intros t [= <-]. done. }
  unfold sample_file_calls. rewrite !Forall_cons. cbn [file_accepts]. split_and!; try done; try (by apply Hr); [by left|by repeat constructor].
Qed.

Lemma file_session_recovered_witness :
  exists m out, file_Load (reopen (perform_all (H := FileStore_Store (DB := MemBolt.mem) SyncGroupCommit sample_present sample_present_law) new_store sample_file_calls))
    = (reopen (perform_all (H := FileStore_Store (DB := MemBolt.mem) SyncGroupCommit sample_present sample_present_law) new_store sample_file_calls), Ok (m, out))
    /\ on_disk_record 8 1 ∈ out.
Proof.
  destruct (file_session_recovered (DB := MemBolt.mem) SyncGroupCommit sample_present sample_present_law sample_file_calls sample_file_calls_ok) as (m & out & Hl & Hin & _).
  { by repeat constructor. }
  exists m, out. split; [exact Hl|]. apply Hin. vm_compute. reflexivity.
Defined.

(** One byte of the packet of a stored record is flipped. *)
Definition one_record : FileStore MemBolt.mem :=
  perform_all (H := FileStore_Store (DB := MemBolt.mem) SyncEveryWrite sample_present sample_present_law) new_store [SPut (on_disk_record 7 2)].

Lemma file_damage_contained_witness :
  let r := on_disk_record 7 2 in
  let body := body_of true r in
  exists out, snd (file_Load (mkFileStore (bolt_Open (overwrite r (ztake 28 body ++ [0x33] ++ zdrop 29 body ++ be32 (Checksum body)) (file (fdb one_record)))) [])) = Ok (zeroMeta, out)
    /\ loads ∅ out.
Proof.
  intros r body.
  assert (Hh : file_holds sample_present one_record (Some (zeroMeta, {[mkKey Outbound 7 := r]}))).
  { destruct (file_call_law SyncEveryWrite sample_present new_store (SPut r) (Some (zeroMeta, ∅))) as [[H _]|(_ & H & _)];
      [exact (Forall_inv sample_file_calls_ok)|apply file_Open_new|exact H|discriminate H]. }
  destruct (file_damage_contained sample_present sample_present_law one_record zeroMeta {[mkKey Outbound 7 := r]} r (ztake 28 body) [0x32] [0x33] (zdrop 29 body ++ be32 (Checksum body))) as (out & H1 & H2);
    [exact Hh|reflexivity|reflexivity|by repeat constructor|reflexivity|vm_compute; discriminate|discriminate|left; vm_compute; discriminate|].
  exists out. split; [exact (f_equal snd H1)|]. by rewrite delete_singleton_eq in H2.
Defined.

End FileStore.
