(* ===== verification/FileQueue.v ===== *)
(** * FileQueue: the publisher queue on disk (queue/file/queue.go)

    Entries as sealed bytes under their big-endian sequence numbers, the
    queue's operations as transactions of [FileDb], and the proof that it is
    a [PublisherQueue]; entries that cannot be decoded are moved aside. *)

From stdpp Require Import gmap sorting.
From S2P Require Import Prelude GoLib Errors Buffers Varint PropView Publish Codec Message Queue Checksum FileDb.

Module FileQueue.
Import Checksum FileDb Message Queue.

(** ** Entries *)

Abbreviation fileEntry := (QueueEntry entry_body).

Definition bucketMeta : list Z := str "meta".
Definition bucketEntries : list Z := str "entries".
Definition bucketQuarantine : list Z := str "quarantine".
Definition keyNext : list Z := str "next".
Definition keyCount : list Z := str "count".

Definition seqKey (seq : Z) : list Z := be64 seq.

Definition entryVersion : Z := 1.
Definition flagEnqueued : Z := 1.
Definition flagExpires : Z := 2.

Definition is_set (t : option Z) : bool := bool_decide (t <> None).

Definition encodeEntry (m : entry_body) : wres (list Z) :=
  if 255 <? len (ID m) then failf "mqttv5/queue/file: entry ID of %d bytes, at most 255" []
  else
    let! frame := map_err (fun e => Errorf "mqttv5/queue/file: encode entry: %w" [e]) (EncodePublish (Pub m) 1) in
    let flags := Z.lor (bit_if (is_set (EnqueuedAt m)) flagEnqueued) (bit_if (is_set (ExpiresAt m)) flagExpires) in
    let b := [entryVersion; flags] in
    let b := if has flags flagEnqueued then b ++ be64 (u64 (default 0 (EnqueuedAt m))) else b in
    let b := if has flags flagExpires then b ++ be64 (u64 (default 0 (ExpiresAt m))) else b in
    let b := b ++ u8 (len (ID m)) :: ID m in
    let b := b ++ frame in
    Ok (Seal b).

Section decoding.
Context `{BufferPool}.

(** The time of one round of the loop in [decodeEntry]. *)
Definition time_field (flags bit : Z) (rest : list Z) : res decode_error (option Z * list Z) :=
  field (has flags bit) 8 "time" None (fun b => let! n := Uint64 b in Ok (Some (i64 n))) rest.

Definition decodeEntry (k v : list Z) : res decode_error fileEntry :=
  if negb (len k =? 8) then Err BadKey
  else
    let! body := Unseal v in
    let! version := (if len body <? 3 then Err UnsupportedLayout else idx body 0) in
    if negb (version =? entryVersion) then Err UnsupportedLayout
    else
      let! seq := Uint64 k in
      let! flags := idx body 1 in
      let! rest := from body 2 in
      let! (enqueued, rest) := time_field flags flagEnqueued rest in
      let! (expires, rest) := time_field flags flagExpires rest in
      if len rest <? 1 then Err (TruncatedField "id")
      else
        let! n := idx rest 0 in
        if len rest <? 1 + n then Err (TruncatedField "id")
        else
          let! id := slice rest 1 (1 + n) in
          let! rest := from rest (1 + n) in
          match DecodePublish rest with
          | Ok (pub, _) => Ok (mkEntry seq (mkBody id pub enqueued expires))
          | Err _ => Err BadPublish
          | Panic => Panic
          end.
End decoding.

(** ** The queue *)

Record corruptEntry : Type := mkCorrupt { c_seq : Z; c_err : decode_error; c_value : list Z }.

(** [Queue]; [corrupt] is also what [onCorrupt] was called with. *)
Record FQueue (DB : Type) : Type := mkFQ { fq_db : DB; fq_count : Z; fq_closed : bool; fq_corrupt : list (Z * decode_error) }.
#[global] Arguments mkFQ {DB} _ _ _ _.
#[global] Arguments fq_db {DB} _.
#[global] Arguments fq_count {DB} _.
#[global] Arguments fq_closed {DB} _.
#[global] Arguments fq_corrupt {DB} _.

Definition report {DB} (bad : list corruptEntry) (q : FQueue DB) : FQueue DB :=
  mkFQ (fq_db q) (fq_count q) (fq_closed q) (fq_corrupt q ++ map (fun b => (c_seq b, c_err b)) bad).

(** What [Enqueue]'s transaction computes. *)
Record enqueued : Type := mkEnqueued { q_seq : Z; q_evicted : list fileEntry; q_full : bool; q_delta : Z; q_bad : list corruptEntry }.

Section queue.
Context {DB err : Type} `{!Bolt DB err} `{BufferPool} (sync : SyncPolicy).

(** [getUint] *)
Definition getUint (b k : list Z) (t : buckets) : res err Z :=
  let! v := tx_Get (DB := DB) b k t in
  match v with
  | Some v => if len v =? 8 then Uint64 v else Ok 0
  | None => Ok 0
  end.

Definition putUint (b k : list Z) (v : Z) (t : buckets) : res err buckets := tx_Put (DB := DB) b k (be64 v) t.

(** The cursor's loop in [Enqueue], until [need] entries are found. *)
Fixpoint pick_victims (cur : list (list Z * list Z)) (need : Z) : res err (list (list Z) * list fileEntry * list corruptEntry) :=
  match cur with
  | [] => Ok ([], [], [])
  | (k, val) :: cur =>
      if 0 <? need then
        match decodeEntry k val with
        | Ok ev => let! (ks, evs, bad) := pick_victims cur (need - 1) in Ok (k :: ks, ev :: evs, bad)
        | Err e =>
            let! seq := Uint64 k in
            let! (ks, evs, bad) := pick_victims cur (need - 1) in
            Ok (k :: ks, evs, mkCorrupt seq e val :: bad)
        | Panic => Panic
        end
      else Ok ([], [], [])
  end.

Fixpoint quarantine_all (bad : list corruptEntry) (t : buckets) : res err buckets :=
  match bad with
  | [] => Ok t
  | b :: bad => let! t := tx_Put (DB := DB) bucketQuarantine (seqKey (c_seq b)) (c_value b) t in quarantine_all bad t
  end.

Fixpoint delete_all (ks : list (list Z)) (t : buckets) : res err buckets :=
  match ks with
  | [] => Ok t
  | k :: ks => let! t := tx_Delete (DB := DB) bucketEntries k t in delete_all ks t
  end.

(** The end of [Enqueue]'s transaction. *)
Definition store_entry (v : list Z) (count delta : Z) (evicted : list fileEntry) (bad : list corruptEntry) (t : buckets)
    : res err (enqueued * buckets) :=
  let! next := getUint bucketMeta keyNext t in
  let seq := u64 (next + 1) in
  let! t := tx_Put (DB := DB) bucketEntries (seqKey seq) v t in
  let! t := putUint bucketMeta keyNext seq t in
  let! t := putUint bucketMeta keyCount (u64 (count + 1)) t in
  Ok (mkEnqueued seq evicted false (delta + 1) bad, t).

Definition enqueue_tx (v : list Z) (limit : QueueLimit) (t : buckets) : res err (enqueued * buckets) :=
  let maxCount := Z.max (Max limit) 0 in
  let full := mkEnqueued 0 [] true 0 [] in
  let! count := getUint bucketMeta keyCount t in
  if (0 <? maxCount) && (maxCount <=? count) then
    if decide (Policy limit <> DropOldest) then Ok (full, t)
    else
      let need := i64 (count - maxCount + 1) in
      let! cur := tx_Seek (DB := DB) bucketEntries (seqKey (u64 (Keep limit + 1))) t in
      let! (victims, evicted, bad) := pick_victims cur need in
      if len victims <? need then Ok (full, t)
      else
        let! t := quarantine_all bad t in
        let! t := delete_all victims t in
        store_entry v (u64 (count - len victims)) (- len victims) evicted bad t
  else store_entry v count 0 [] [] t.

(** [Queue.mapErr] *)
Definition queue_err (e : db_error err) : queue_error := match e with ErrClosed => ErrQueueClosed | _ => ErrQueueIO end.

(** The errors of [Enqueue]: the contract's, or the message's own. *)
Inductive enqueue_error : Type := EQueue (e : queue_error) | EEncode (e : error).

Definition file_Enqueue (m : entry_body) (limit : QueueLimit) (q : FQueue DB)
    : FQueue DB * res enqueue_error (Z * list fileEntry) :=
  if fq_closed q then (q, Err (EQueue ErrQueueClosed))
  else
    match encodeEntry m with
    | Err e => (q, Err (EEncode e))
    | Panic => (q, Panic)
    | Ok v =>
        let (d, r) := db_Update sync (fq_db q) (enqueue_tx v limit) in
        let q := mkFQ d (fq_count q) (fq_closed q) (fq_corrupt q) in
        match r with
        | Err e => (q, Err (EQueue (queue_err e)))
        | Panic => (q, Panic)
        | Ok x =>
            if q_full x then (q, Err (EQueue ErrQueueFull))
            else (report (q_bad x) (mkFQ (fq_db q) (fq_count q + q_delta x) (fq_closed q) (fq_corrupt q)), Ok (q_seq x, q_evicted x))
        end
    end.

(** The cursor's loop in [Peek]. *)
Fixpoint peek_entries (cur : list (list Z * list Z)) (n : Z) : res err (list fileEntry * list corruptEntry) :=
  match cur with
  | [] => Ok ([], [])
  | (k, v) :: cur =>
      if 0 <? n then
        match decodeEntry k v with
        | Ok e => let! (out, bad) := peek_entries cur (n - 1) in Ok (e :: out, bad)
        | Err e =>
            let! seq := Uint64 k in
            let! (out, bad) := peek_entries cur n in
            Ok (out, mkCorrupt seq e v :: bad)
        | Panic => Panic
        end
      else Ok ([], [])
  end.

(** The loop of [quarantine]: how many entries it moved. *)
Fixpoint move_bad (bad : list corruptEntry) (t : buckets) : res err (Z * buckets) :=
  match bad with
  | [] => Ok (0, t)
  | b :: bad =>
      let k := seqKey (c_seq b) in
      let! old := tx_Get (DB := DB) bucketEntries k t in
      match old with
      | None => move_bad bad t
      | Some _ =>
          let! t := tx_Put (DB := DB) bucketQuarantine k (c_value b) t in
          let! t := tx_Delete (DB := DB) bucketEntries k t in
          let! (moved, t) := move_bad bad t in
          Ok (moved + 1, t)
      end
  end.

Definition quarantine_tx (bad : list corruptEntry) (t : buckets) : res err (Z * buckets) :=
  let! (moved, t) := move_bad bad t in
  let! count := getUint bucketMeta keyCount t in
  let! t := putUint bucketMeta keyCount (u64 (count - moved)) t in
  Ok (moved, t).

Definition quarantine (bad : list corruptEntry) (q : FQueue DB) : FQueue DB * res queue_error unit :=
  let (d, r) := db_Update sync (fq_db q) (quarantine_tx bad) in
  let q := mkFQ d (fq_count q) (fq_closed q) (fq_corrupt q) in
  match r with
  | Err e => (q, Err (queue_err e))
  | Panic => (q, Panic)
  | Ok moved => (report bad (mkFQ (fq_db q) (fq_count q - moved) (fq_closed q) (fq_corrupt q)), Ok tt)
  end.

Definition peek_view (after n : Z) (t : buckets) : res err (list fileEntry * list corruptEntry) :=
  let! cur := tx_Seek (DB := DB) bucketEntries (seqKey (u64 (after + 1))) t in
  peek_entries cur n.

Definition file_Peek (after n : Z) (q : FQueue DB) : FQueue DB * res queue_error (list fileEntry) :=
  if fq_closed q then (q, Err ErrQueueClosed)
  else
    match db_View (fq_db q) (peek_view after n) with
    | Err e => (q, Err (queue_err e))
    | Panic => (q, Panic)
    | Ok (out, []) => (q, Ok out)
    | Ok (out, bad) => let (q, r) := quarantine bad q in (q, let! _ := r in Ok out)
    end.

(** [Ack]'s transaction: whether it removed the entry. *)
Definition ack_tx (k : list Z) (t : buckets) : res err (bool * buckets) :=
  let! old := tx_Get (DB := DB) bucketEntries k t in
  match old with
  | None => Ok (false, t)
  | Some _ =>
      let! t := tx_Delete (DB := DB) bucketEntries k t in
      let! count := getUint bucketMeta keyCount t in
      let! t := putUint bucketMeta keyCount (Z.max count 1 - 1) t in
      Ok (true, t)
  end.

Definition file_Ack (seq : Z) (q : FQueue DB) : FQueue DB * res queue_error unit :=
  if fq_closed q then (q, Err ErrQueueClosed)
  else
    let (d, r) := db_Update sync (fq_db q) (ack_tx (seqKey seq)) in
    let q := mkFQ d (fq_count q) (fq_closed q) (fq_corrupt q) in
    match r with
    | Err e => (q, Err (queue_err e))
    | Panic => (q, Panic)
    | Ok removed => (if removed then mkFQ (fq_db q) (fq_count q - 1) (fq_closed q) (fq_corrupt q) else q, Ok tt)
    end.

Definition file_Len (q : FQueue DB) : Z + queue_error := if fq_closed q then inr ErrQueueClosed else inl (fq_count q).

Definition file_Close (q : FQueue DB) : FQueue DB := mkFQ (bolt_Close (fq_db q)) (fq_count q) true (fq_corrupt q).

(** [Open] on a file, whose buckets it makes sure of. *)
Definition file_Open (t : buckets) : res (db_error err) (FQueue DB) :=
  let (d, r) := db_Update SyncNone (bolt_Open t)
                  (fun t => let! t := create_buckets (DB := DB) [bucketMeta; bucketEntries; bucketQuarantine] t in Ok (tt, t)) in
  let! _ := r in
  let! n := db_View d (getUint bucketMeta keyCount) in
  Ok (mkFQ d (i64 n) false []).
End queue.

(** ** Round trip of entries *)

(** Entries a [QueuePublisher] makes: a message that can be sent with QoS 1 or
    2, of their Go types. *)
Definition entry_ok (m : entry_body) : Prop :=
  bytes (ID m) /\ len (ID m) <= 255 /\ sendable_as (Pub m) 1 /\ 0 < o_QoS (Pub m)
  /\ (forall t, EnqueuedAt m = Some t -> is_i64 t) /\ (forall t, ExpiresAt m = Some t -> is_i64 t).

Definition frame_of (m : entry_body) : list Z := enc_publish (wire (Pub m) 1).

Definition flags_of (m : entry_body) : Z :=
  Z.lor (bit_if (is_set (EnqueuedAt m)) flagEnqueued) (bit_if (is_set (ExpiresAt m)) flagExpires).

Definition time_bytes (t : option Z) : list Z := match t with Some t => be64 (u64 t) | None => [] end.

(** An entry without its sealing. *)
Definition entry_bytes (m : entry_body) : list Z :=
  [entryVersion; flags_of m] ++ time_bytes (EnqueuedAt m) ++ time_bytes (ExpiresAt m) ++ (len (ID m) :: ID m) ++ frame_of m.

Definition enc (m : entry_body) : list Z := Seal (entry_bytes m).

Lemma entry_has_flags m : has (flags_of m) flagEnqueued = is_set (EnqueuedAt m) /\ has (flags_of m) flagExpires = is_set (ExpiresAt m) /\ is_u8 (flags_of m).
Proof. unfold flags_of. by destruct (is_set (EnqueuedAt m)), (is_set (ExpiresAt m)). Qed.

Lemma is_set_some t : is_set (Some t) = true.
Proof. done. Qed.

Lemma encodeEntry_ok m : entry_ok m -> encodeEntry m = Ok (enc m).
Proof.
  intros (_ & Hid & Hs & _). unfold encodeEntry. rewrite (proj2 (Z.ltb_ge _ _)) by lia. destruct (encode_sendable (Pub m) 1 Hs) as [-> _]. cbn [map_err rbind].
  fold (flags_of m). destruct (entry_has_flags m) as (-> & -> & _). unfold enc, entry_bytes, frame_of. rewrite u8_small by (unfold is_u8; pose proof (len_nonneg (ID m)); lia).
  destruct (EnqueuedAt m), (ExpiresAt m); cbn [is_set bool_decide decide default time_bytes]; rewrite <- ?app_assoc; reflexivity.
Qed.

Lemma bytes_entry m : entry_ok m -> bytes (entry_bytes m).
Proof.
  intros (Hb & Hid & Hs & _). unfold entry_bytes. rewrite !bytes_app. split_and!.
  - apply bytes_cons. split; [done|]. apply bytes_cons. split; [apply entry_has_flags|apply bytes_nil].
  - destruct (EnqueuedAt m); [apply bytes_be64|apply bytes_nil].
  - destruct (ExpiresAt m); [apply bytes_be64|apply bytes_nil].
  - apply bytes_cons. split; [unfold is_u8; pose proof (len_nonneg (ID m)); lia|done].
  - by apply (encode_sendable (Pub m) 1).
Qed.

Lemma bytes_enc m : entry_ok m -> bytes (enc m).
Proof. intros Hm. by apply bytes_Seal, bytes_entry. Qed.

Lemma time_field_ok flags bit t rest :
  has flags bit = is_set t -> (forall x, t = Some x -> is_i64 x) -> time_field flags bit (time_bytes t ++ rest) = Ok (t, rest).
Proof.
  intros Hf Ht. unfold time_field. rewrite Hf. destruct t as [x|]; [|done]. rewrite is_set_some. cbn [time_bytes]. apply field_some; [done|].
  rewrite Uint64_be64 by apply u64_range. cbn [rbind]. by rewrite i64_u64 by (by apply Ht).
Qed.

Lemma decodeEntry_ok `{BufferPool} s m : is_u64 s -> entry_ok m -> decodeEntry (seqKey s) (enc m) = Ok (mkEntry s m).
Proof.
  intros Hu Hm. unfold decodeEntry, seqKey. rewrite len_be64. change (negb (8 =? 8)) with false. cbn iota. unfold enc. rewrite Unseal_Seal by (by apply bytes_entry).
  cbn [rbind]. pose proof Hm as (Hb & Hid & Hs & Hq & He & Hx). destruct (entry_has_flags m) as (F1 & F2 & _). unfold entry_bytes. set (rest := time_bytes (EnqueuedAt m) ++ _).
  rewrite (proj2 (Z.ltb_ge _ _)).
  2: { rewrite len_app. change (len [entryVersion; flags_of m]) with 2. unfold rest. rewrite !len_app, len_cons. pose proof (len_nonneg (ID m)). pose proof (len_nonneg (frame_of m)).
       pose proof (len_nonneg (time_bytes (EnqueuedAt m))). pose proof (len_nonneg (time_bytes (ExpiresAt m))). lia. }
  cbn [app]. rewrite idx_0, idx_1. cbn [rbind]. change (negb (entryVersion =? entryVersion)) with false. cbn iota.
  rewrite <- (app_nil_r (be64 s)), Uint64_be64 by done. cbn [rbind].
  change (entryVersion :: flags_of m :: rest) with ([entryVersion; flags_of m] ++ rest). rewrite from_app by done. cbn [rbind]. unfold rest.
  rewrite time_field_ok by done. cbn [rbind]. rewrite time_field_ok by done. cbn [rbind app]. rewrite (proj2 (Z.ltb_ge _ 1)) by (rewrite len_cons; pose proof (len_nonneg (ID m ++ frame_of m)); lia).
  rewrite idx_0. cbn [rbind]. rewrite (proj2 (Z.ltb_ge _ (1 + _))) by (rewrite len_cons, len_app; pose proof (len_nonneg (frame_of m)); lia).
  change (len (ID m) :: ID m ++ frame_of m) with ([len (ID m)] ++ ID m ++ frame_of m). rewrite slice_app by done. cbn [rbind].
  rewrite app_assoc, from_app by (rewrite len_app; reflexivity). cbn [rbind]. unfold frame_of. rewrite decode_sendable by done. by destruct m.
Qed.

Lemma len_enc m : entry_ok m -> len (enc m) <= MaxValueSize.
Proof.
  intros (_ & Hid & (_ & _ & Hf) & _). unfold enc, Seal, entry_bytes, frame_of. rewrite !len_app, len_be32, !len_cons, enc_publish_packet. change (len (@nil Z)) with 0.
  assert (Ht : forall t, len (time_bytes t) <= 8) by (intros [t|]; [reflexivity|unfold len; cbn; lia]). pose proof (Ht (EnqueuedAt m)). pose proof (Ht (ExpiresAt m)).
  unfold publish_fits in Hf. set (b := publish_body (wire (Pub m) 1)) in *. assert (Hp : len (Frames.packet (16 * PUBLISH + publishFlags (wire (Pub m) 1)) b) <= len b + 5).
  { unfold Frames.packet. pose proof (len_nonneg b). pose proof (VarintSize_range (len b) ltac:(lia)). rewrite len_cons, len_app, len_enc_varint by lia. lia. }
  unfold MaxValueSize, MaxVarintValue in *. change (2 ^ 31) with 2147483648. lia.
Qed.

(** Evaluate the powers of two of 64-bit numbers. *)
Ltac pow63 := change (2 ^ 63) with 9223372036854775808 in *; pow2.

(** ** What a file represents *)

(** The entry of the bucket that holds [x]. *)
Definition slot (x : fileEntry) : list Z * list Z := (seqKey (Seq x), enc (body x)).

Definition before (x y : fileEntry) : Prop := Seq x < Seq y.

Lemma before_split keep (l : list fileEntry) : StronglySorted before l -> l = upto keep l ++ above keep l.
Proof.
  induction 1 as [|x l Hs IH Hx]; [done|]. unfold upto, above in *. rewrite !filter_cons. destruct (decide (keep < Seq x)) as [Hk|Hk].
  - rewrite decide_False by tauto. rewrite (list_filter_none (fun y => ~ keep < Seq y)).
    + cbn. f_equal. symmetry. apply list_filter_all. intros y Hy. pose proof (proj1 (Forall_forall _ _) Hx y Hy). unfold before in *. lia.
    + intros y Hy Hn. apply Hn. pose proof (proj1 (Forall_forall _ _) Hx y Hy). unfold before in *. lia.
  - rewrite decide_True by done. cbn. by f_equal.
Qed.

Section simulation.
Context {DB err : Type} `{!Bolt DB err} {Pool : BufferPool} (sync : SyncPolicy).

(** The bucket of the entries holds [l]. *)
Definition entries_of (t : buckets) (l : list fileEntry) : Prop :=
  exists m, t !! bucketEntries = Some m /\ forall k v, m !! k = Some v <-> exists x, x ∈ l /\ (k, v) = slot x.

Record represents (t : buckets) (h : holding entry_body) : Prop := {
  rp_sorted : StronglySorted before (items h);
  rp_range : Forall (fun x => 0 < Seq x <= last_seq h) (items h);
  rp_ok : Forall (fun x => entry_ok (body x)) (items h);
  rp_last : 0 <= last_seq h < 2 ^ 63;
  rp_meta : exists m, t !! bucketMeta = Some m;
  rp_count : getUint (DB := DB) (err := err) bucketMeta keyCount t = Ok (len (items h));
  rp_next : getUint (DB := DB) (err := err) bucketMeta keyNext t = Ok (last_seq h);
  rp_entries : entries_of t (items h);
  rp_quarantine : exists m, t !! bucketQuarantine = Some m;
}.

Lemma getUint_ext b k t t' m m' :
  t !! b = Some m -> t' !! b = Some m' -> m !! k = m' !! k -> getUint (DB := DB) (err := err) b k t = getUint (DB := DB) (err := err) b k t'.
Proof. intros H1 H2 E. unfold getUint. by rewrite (tx_Get_ok _ _ _ _ H1), (tx_Get_ok _ _ _ _ H2), E. Qed.

Lemma getUint_put b k v t m : t !! b = Some m -> m !! k = Some (be64 v) -> is_u64 v -> getUint (DB := DB) (err := err) b k t = Ok v.
Proof.
  intros Hb Hk Hv. unfold getUint. rewrite (tx_Get_ok _ _ _ _ Hb), Hk. cbn [rbind]. rewrite len_be64. change (8 =? 8) with true. cbn iota.
  rewrite <- (app_nil_r (be64 v)). by apply Uint64_be64.
Qed.

Lemma putUint_ok b k v t m : t !! b = Some m -> 0 < len k <= MaxKeySize -> putUint (DB := DB) (err := err) b k v t = Ok (<[b := <[k := be64 v]> m]> t).
Proof. intros Hb Hk. unfold putUint. apply tx_Put_ok; [done|done|]. rewrite len_be64. unfold MaxValueSize. change (2 ^ 31) with 2147483648. lia. Qed.

Lemma seq_u64 t h x : represents t h -> x ∈ items h -> is_u64 (Seq x).
Proof.
  intros R Hx. pose proof (proj1 (Forall_forall _ _) (rp_range _ _ R) x Hx) as H. pose proof (rp_last _ _ R). cbn beta in H. unfold is_u64.
  pow63. lia.
Qed.

#[local] Instance by_key_antisym : AntiSymm (=) by_key.
Proof. intros [k v] [k' v']. unfold by_key. cbn. intros H1 H2. pose proof (MemBolt.lex_trans _ _ _ H1 H2) as H3. by rewrite lex_irrefl in H3. Qed.

(** A cursor sees the entries in the order of their numbers. *)
Lemma ForEach_items t h m :
  represents t h -> t !! bucketEntries = Some m -> ForEach m = map slot (items h).
Proof.
  intros R Hm. destruct (rp_entries _ _ R) as (m' & Hm' & He). assert (m' = m) as -> by congruence. destruct (ForEach_law m) as [Hp Hs].
  assert (Hsl : StronglySorted by_key (map slot (items h))).
  { pose proof (rp_sorted _ _ R) as Hso. assert (Hu : Forall (fun x => is_u64 (Seq x)) (items h)) by (apply Forall_forall; intros x; by apply (seq_u64 t)).
    clear -Hso Hu. induction Hso as [|x l _ IH Hx]; [constructor|]. inversion_clear Hu as [|? ? Hux Hul]. constructor; [by apply IH|].
    apply Forall_fmap, Forall_forall. intros y Hy. pose proof (proj1 (Forall_forall _ _) Hx y Hy) as Hlt. unfold by_key, slot, seqKey. cbn.
    rewrite lex_be64; [by apply Z.ltb_lt|done|by apply (proj1 (Forall_forall _ _) Hul)]. }
  apply (StronglySorted_unique by_key); [done|done|]. rewrite Hp. apply NoDup_Permutation.
  - apply NoDup_map_to_list.
  - clear -Hsl. induction Hsl as [|x l _ IH Hx]; constructor; [|done]. intros Hin. pose proof (proj1 (Forall_forall _ _) Hx x Hin) as Hk. unfold by_key in Hk. by rewrite lex_irrefl in Hk.
  - intros [k v]. rewrite elem_of_map_to_list, (He k v), list_elem_of_fmap. split; intros (x & H1 & H2); by exists x.
Qed.

Lemma filter_map {A B} (P : B -> Prop) `{!forall x, Decision (P x)} (Q : A -> Prop) `{!forall x, Decision (Q x)} (f : A -> B) l :
  (forall x, x ∈ l -> P (f x) <-> Q x) -> filter P (map f l) = map f (filter Q l).
Proof.
  induction l as [|x l IH]; intros Hpq; [done|]. cbn [map]. rewrite !filter_cons. pose proof (Hpq x ltac:(left)) as Hx.
  assert (E : filter P (map f l) = map f (filter Q l)) by (apply IH; intros y Hy; apply Hpq; by right). rewrite E.
  destruct (decide (P (f x))), (decide (Q x)); done || tauto.
Qed.

Lemma Seek_items t h after :
  represents t h -> 0 <= after < 2 ^ 64 - 1 -> tx_Seek (DB := DB) (err := err) bucketEntries (seqKey (u64 (after + 1))) t = Ok (map slot (above after (items h))).
Proof.
  intros R Ha. destruct (rp_entries _ _ R) as (m & Hm & _). unfold tx_Seek. rewrite Hm, Seek_law, (ForEach_items t h m R Hm). f_equal. apply filter_map.
  intros x Hx. unfold slot, seqKey. cbn [fst]. unfold u64. rewrite Z.mod_small by lia. rewrite lex_be64 by (unfold is_u64; lia || by apply (seq_u64 t h)). rewrite Z.ltb_ge. lia.
Qed.

Lemma ok_above t h after : represents t h -> Forall (fun x => is_u64 (Seq x) /\ entry_ok (body x)) (above after (items h)).
Proof.
  intros R. apply Forall_forall. intros x [_ Hx]%list_elem_of_filter. split; [by apply (seq_u64 t h)|by apply (proj1 (Forall_forall _ _) (rp_ok _ _ R))].
Qed.

Lemma decode_slot x : is_u64 (Seq x) -> entry_ok (body x) -> decodeEntry (fst (slot x)) (snd (slot x)) = Ok x.
Proof. intros H1 H2. unfold slot. cbn [fst snd]. rewrite decodeEntry_ok by done. by destruct x. Qed.

Lemma pick_slots l : Forall (fun x => is_u64 (Seq x) /\ entry_ok (body x)) l -> forall need,
  pick_victims (err := err) (map slot l) need = Ok (map (fun x => seqKey (Seq x)) (ztake need l), ztake need l, []).
Proof.
  induction 1 as [|x l [H1 H2] _ IH]; intros need; [unfold ztake; by rewrite firstn_nil|]. cbn [map pick_victims]. destruct (slot x) as [k v] eqn:E.
  destruct (Z.ltb_spec 0 need) as [Hn|Hn]; [|by rewrite ztake_nonpos]. pose proof (decode_slot x H1 H2) as D. rewrite E in D. cbn [fst snd] in D. rewrite D, IH. cbn [rbind].
  rewrite ztake_cons by done. cbn [map]. injection E as <- _. done.
Qed.

Lemma peek_slots l : Forall (fun x => is_u64 (Seq x) /\ entry_ok (body x)) l -> forall n, peek_entries (err := err) (map slot l) n = Ok (ztake n l, []).
Proof.
  induction 1 as [|x l [H1 H2] _ IH]; intros n; [unfold ztake; by rewrite firstn_nil|]. cbn [map peek_entries]. destruct (slot x) as [k v] eqn:E.
  destruct (Z.ltb_spec 0 n) as [Hn|Hn]; [|by rewrite ztake_nonpos]. pose proof (decode_slot x H1 H2) as D. rewrite E in D. cbn [fst snd] in D. rewrite D, IH. cbn [rbind].
  by rewrite ztake_cons by done.
Qed.

(** Deleting entries leaves the other buckets alone. *)
Lemma delete_all_ok ks : forall t m, t !! bucketEntries = Some m ->
  exists t' m', delete_all (DB := DB) (err := err) ks t = Ok t' /\ t' !! bucketEntries = Some m' /\ (forall b, b <> bucketEntries -> t' !! b = t !! b)
    /\ forall k v, m' !! k = Some v <-> (k ∉ ks) /\ m !! k = Some v.
Proof.
  induction ks as [|k0 ks IH]; intros t m Hm; cbn [delete_all].
  { exists t, m. split_and!; try done. intros k v. split; [intros H; split; [apply not_elem_of_nil|done]|tauto]. }
  rewrite (tx_Delete_ok _ _ _ m Hm). cbn [rbind]. destruct (IH (<[bucketEntries := delete k0 m]> t) (delete k0 m)) as (t' & m' & E & H1 & H2 & H3); [apply lookup_insert_eq|].
  exists t', m'. split_and!; try done.
  - intros b Hb. rewrite H2 by done. by rewrite lookup_insert_ne.
  - intros k v. rewrite (H3 k v), lookup_delete_Some, not_elem_of_cons. intuition congruence.
Qed.

Lemma entries_of_add t l x m0 : entries_of t l -> (forall y, y ∈ l -> Seq y <> Seq x) -> Forall (fun y => is_u64 (Seq y)) (x :: l) ->
  t !! bucketEntries = Some m0 -> entries_of (<[bucketEntries := <[seqKey (Seq x) := enc (body x)]> m0]> t) (l ++ [x]).
Proof.
  intros (m & Hm & He) Hnew Hu Hm0. assert (m0 = m) as -> by congruence. exists (<[seqKey (Seq x) := enc (body x)]> m). split; [apply lookup_insert_eq|].
  intros k v. rewrite lookup_insert_Some, He. split.
  - intros [[<- <-]|[_ (y & Hy & E)]]; [exists x; split; [apply elem_of_app; right; by left|done]|exists y; split; [apply elem_of_app; by left|done]].
  - intros (y & [Hy| ->%list_elem_of_singleton]%elem_of_app & E); [|left; by injection E as -> ->]. right. split; [|by exists y].
    injection E as -> _. intros E. apply (Hnew y Hy). inversion_clear Hu as [|? ? Hux Hul]. symmetry. apply be64_inj; [done|by apply (proj1 (Forall_forall _ _) Hul)|done].
Qed.

Lemma sorted_len l : StronglySorted before l -> forall a n, Forall (fun x => a < Seq x <= n) l -> len l <= Z.max 0 (n - a).
Proof.
  induction 1 as [|x l _ IH Hx]; intros a n Hr; [unfold len; cbn; lia|]. inversion_clear Hr as [|? ? Hxa Hl]. rewrite len_cons.
  assert (Hl2 : Forall (fun y => Seq x < Seq y <= n) l).
  { apply Forall_forall. intros y Hy. pose proof (proj1 (Forall_forall _ _) Hx y Hy). pose proof (proj1 (Forall_forall _ _) Hl y Hy) as Hn. cbn beta in Hn. unfold before in *. lia. }
  specialize (IH (Seq x) n Hl2). lia.
Qed.

Lemma store_entry_ok t l n m delta ev :
  entries_of t l -> StronglySorted before l -> Forall (fun x => 0 < Seq x <= n) l -> Forall (fun x => entry_ok (body x)) l -> 0 <= n < 2 ^ 63 - 1 ->
  (exists mm, t !! bucketMeta = Some mm) -> getUint (DB := DB) (err := err) bucketMeta keyNext t = Ok n -> (exists mq, t !! bucketQuarantine = Some mq) -> entry_ok m ->
  exists t', store_entry (DB := DB) (err := err) (enc m) (len l) delta ev [] t = Ok (mkEnqueued (n + 1) ev false (delta + 1) [], t')
    /\ represents t' (mkHolding (n + 1) (l ++ [mkEntry (n + 1) m])).
Proof.
  intros He Hs Hr Hok Hn (mm & Hmm) Hnext Hq Hm. pose proof He as (me & Hme & _). pose proof (sorted_len l Hs 0 n Hr) as Hlen. pose proof (len_nonneg l).
  assert (Hun : u64 (n + 1) = n + 1) by (unfold u64; rewrite Z.mod_small; pow63; lia).
  assert (Huc : u64 (len l + 1) = len l + 1) by (unfold u64; rewrite Z.mod_small; pow63; lia).
  unfold store_entry. rewrite Hnext. cbn [rbind]. rewrite Hun, Huc. set (x := mkEntry (n + 1) m).
  rewrite (tx_Put_ok _ _ _ _ me) by (done || (unfold seqKey; rewrite len_be64; unfold MaxKeySize; lia) || by apply len_enc). cbn [rbind].
  set (t1 := <[bucketEntries := _]> t). assert (H1 : t1 !! bucketMeta = Some mm) by (unfold t1; by rewrite lookup_insert_ne).
  rewrite (putUint_ok _ _ _ _ mm H1) by (by vm_compute). cbn [rbind]. rewrite (putUint_ok _ _ _ _ (<[keyNext := be64 (n + 1)]> mm)) by (apply lookup_insert_eq || by vm_compute). cbn [rbind].
  eexists. split; [done|]. set (mm' := <[keyCount := _]> _). set (t2 := <[bucketMeta := mm']> _). assert (Hmeta : t2 !! bucketMeta = Some mm') by apply lookup_insert_eq.
  assert (Hother : forall b, b <> bucketMeta -> t2 !! b = t1 !! b) by (intros b Hb; unfold t2; by rewrite !lookup_insert_ne by done).
  assert (Hul : forall y, y ∈ l -> is_u64 (Seq y) /\ Seq y <= n).
  { intros y Hy. pose proof (proj1 (Forall_forall _ _) Hr y Hy) as Hyr. cbn beta in Hyr. unfold is_u64. pow63. lia. }
  split; cbn [items last_seq].
  - apply StronglySorted_app_2; [|done|repeat constructor]. intros y z Hy ->%list_elem_of_singleton. unfold before, x. cbn. pose proof (Hul y Hy). lia.
  - apply Forall_app. split; [|apply Forall_singleton; unfold x; cbn; lia]. eapply Forall_impl; [exact Hr|]. intros y. cbn beta. lia.
  - apply Forall_app. split; [done|by apply Forall_singleton].
  - lia.
  - by exists mm'.
  - apply (getUint_put _ _ _ _ mm' Hmeta); [|unfold is_u64; rewrite len_app; change (len [x]) with 1; pow63; lia].
    unfold mm'. rewrite lookup_insert_eq. f_equal. rewrite len_app. done.
  - apply (getUint_put _ _ _ _ mm' Hmeta); [|unfold is_u64; pow63; lia]. unfold mm'. by rewrite lookup_insert_ne, lookup_insert_eq.
  - destruct (entries_of_add t l x me He) as (m' & Hm' & He'); [intros y Hy; pose proof (Hul y Hy); unfold x; cbn; lia| |done|exists m'; split; [rewrite Hother by done; exact Hm'|done]].
    constructor; [unfold x, is_u64; cbn; pow63; lia|]. apply Forall_forall. intros y Hy. by apply Hul.
  - destruct Hq as [mq Hmq]. exists mq. rewrite Hother by done. unfold t1. by rewrite lookup_insert_ne.
Qed.

(** Evicting entries. *)
Lemma evict_ok t h keep need :
  represents t h -> 0 <= need <= len (above keep (items h)) ->
  exists t', delete_all (DB := DB) (err := err) (map (fun x => seqKey (Seq x)) (ztake need (above keep (items h)))) t = Ok t'
    /\ entries_of t' (upto keep (items h) ++ zdrop need (above keep (items h))) /\ (forall b, b <> bucketEntries -> t' !! b = t !! b).
Proof.
  intros R Hn. destruct (rp_entries _ _ R) as (m & Hm & He). set (gone := ztake need (above keep (items h))). set (rest := upto keep (items h) ++ zdrop need (above keep (items h))).
  destruct (delete_all_ok (map (fun x => seqKey (Seq x)) gone) t m Hm) as (t' & m' & E & H1 & H2 & H3). exists t'. split; [done|]. split; [|done]. exists m'. split; [done|].
  pose proof (before_split keep (items h) (rp_sorted _ _ R)) as Hsp. pose proof (rp_sorted _ _ R) as Hso. rewrite Hsp, <- (ztake_zdrop need (above keep (items h))) in Hso.
  assert (Hin : forall x, x ∈ items h <-> x ∈ rest \/ x ∈ gone).
  { intros x. unfold rest, gone. rewrite Hsp at 1. rewrite <- (ztake_zdrop need (above keep (items h))) at 1. rewrite !elem_of_app. tauto. }
  assert (Hdis : forall x y, x ∈ rest -> y ∈ gone -> Seq x <> Seq y).
  { apply StronglySorted_app in Hso as (S1 & _ & S2). apply StronglySorted_app in S2 as (S3 & _ & _). intros x y [Hx|Hx]%elem_of_app Hy.
    - pose proof (S1 x y Hx ltac:(apply elem_of_app; by left)). unfold before in *. lia.
    - pose proof (S3 y x Hy Hx). unfold before in *. lia. }
  intros k v. rewrite (H3 k v), (He k v). split.
  - intros (Hk & x & Hx & E1). exists x. split; [|done]. apply Hin in Hx as [Hx|Hx]; [done|]. exfalso. apply Hk. injection E1 as -> _. apply list_elem_of_fmap. by exists x.
  - intros (x & Hx & E1). split; [|exists x; split; [apply Hin; by left|done]]. injection E1 as -> _. intros (y & Ey & Hy)%list_elem_of_fmap.
    apply (Hdis x y Hx Hy). apply be64_inj; [apply (seq_u64 t h); [done|apply Hin; by left]|apply (seq_u64 t h); [done|apply Hin; by right]|done].
Qed.

Definition delta_of (h h' : holding entry_body) : Z := len (items h') - len (items h).

Lemma enqueue_tx_ok t h m limit :
  represents t h -> last_seq h < 2 ^ 63 - 1 -> entry_ok m -> 0 <= Keep limit < 2 ^ 64 - 1 ->
  exists x t' h', enqueue_tx (DB := DB) (err := err) (enc m) limit t = Ok (x, t') /\ fst (spec_Enqueue m limit (Some h)) = Some h' /\ represents t' h'
    /\ match snd (spec_Enqueue m limit (Some h)) with
       | inl (seq, ev) => x = mkEnqueued seq ev false (delta_of h h') []
       | inr e => e = ErrQueueFull /\ q_full x = true /\ h' = h
       end.
Proof.
  intros R Hl Hm Hk. pose proof R as [Hs Hr Hok Hlast Hmeta Hcount Hnext He Hq]. pose proof (sorted_len _ Hs 0 _ Hr) as Hlen. pose proof (len_nonneg (items h)).
  unfold enqueue_tx, spec_Enqueue. cbn zeta. rewrite Hcount. cbn [rbind]. set (full := mkEnqueued 0 [] true 0 []).
  assert (Hc : (0 <? Z.max (Max limit) 0) && (Z.max (Max limit) 0 <=? len (items h)) = (0 <? Max limit) && (Max limit <=? len (items h))).
  { destruct (Z.ltb_spec 0 (Max limit)); [rewrite Z.max_l by lia; by rewrite (proj2 (Z.ltb_lt _ _)) by lia|]. rewrite Z.max_r by lia. done. }
  rewrite Hc. clear Hc. destruct (_ && _) eqn:Hb.
  2: { destruct (store_entry_ok t (items h) (last_seq h) m 0 [] He Hs Hr Hok ltac:(lia) Hmeta Hnext Hq Hm) as (t' & E & R'). eexists _, t', _.
       split; [exact E|]. split; [done|]. split; [exact R'|]. cbn. f_equal. unfold delta_of. cbn. rewrite len_app. change (len [mkEntry (last_seq h + 1) m]) with 1. lia. }
  apply andb_true_iff in Hb as [Hb1%Z.ltb_lt Hb2%Z.leb_le]. rewrite Z.max_l by lia. set (need := len (items h) - Max limit + 1).
  destruct (Policy limit) eqn:Hp; [rewrite decide_True by done; rewrite decide_False by done; by exists full, t, h|].
  rewrite decide_False by (intros Hn; by apply Hn). rewrite decide_True by done. assert (Hi : i64 need = need) by (unfold i64; rewrite (proj2 (Z.ltb_lt _ _)) by lia; done).
  rewrite Hi, (Seek_items t h) by done. cbn [rbind]. rewrite pick_slots by (by apply (ok_above t)). cbn [rbind]. rewrite len_map.
  destruct (Z.leb_spec need (len (above (Keep limit) (items h)))) as [Hle|Hgt].
  2: { assert (Ht : len (ztake need (above (Keep limit) (items h))) < need) by (unfold ztake, len in *; rewrite length_take; lia). rewrite (proj2 (Z.ltb_lt _ _)) by done. by exists full, t, h. }
  rewrite len_ztake by lia. rewrite Z.ltb_irrefl. cbn [quarantine_all rbind]. destruct (evict_ok t h (Keep limit) need R ltac:(lia)) as (t1 & E1 & He1 & Ho1). rewrite E1. cbn [rbind].
  set (l := upto (Keep limit) (items h) ++ zdrop need (above (Keep limit) (items h))) in *. pose proof (before_split (Keep limit) (items h) Hs) as Hsp.
  assert (Hsub : sublist l (items h)). { rewrite Hsp at 1. apply sublist_app; [done|]. unfold zdrop. apply sublist_drop. }
  assert (Hll : len l = len (items h) - need). { rewrite Hsp at 1. unfold l. rewrite !len_app, len_zdrop by lia. lia. }
  assert (Hu : u64 (len (items h) - need) = len l) by (rewrite <- Hll; unfold u64; rewrite Z.mod_small; [done|]; pose proof (len_nonneg l); pow63; lia). rewrite Hu.
  destruct Hmeta as [mm Hmm], Hq as [mq Hmq]. destruct (store_entry_ok t1 l (last_seq h) m (- need) (ztake need (above (Keep limit) (items h))) He1) as (t' & E & R').
  - by eapply StronglySorted_sublist.
  - apply Forall_forall. intros x Hx. apply (proj1 (Forall_forall _ _) Hr). by eapply sublist_subseteq.
  - apply Forall_forall. intros x Hx. apply (proj1 (Forall_forall _ _) Hok). by eapply sublist_subseteq.
  - lia.
  - exists mm. by rewrite Ho1.
  - rewrite <- Hnext. apply (getUint_ext _ _ _ _ mm mm); [by rewrite Ho1|done|done].
  - exists mq. by rewrite Ho1.
  - done.
  - eexists _, t', _. split; [exact E|]. split; [done|]. split; [exact R'|]. cbn. f_equal. unfold delta_of. cbn [items]. rewrite len_app, Hll. change (len [mkEntry (last_seq h + 1) m]) with 1. lia.
Qed.

(** Acknowledging one entry. *)
Definition others (seq : Z) (l : list fileEntry) : list fileEntry := filter (fun x => Seq x <> seq) l.

Lemma others_absent seq l : (forall x, x ∈ l -> Seq x <> seq) -> others seq l = l.
Proof. apply list_filter_all. Qed.

Lemma others_len l x : StronglySorted before l -> x ∈ l -> len (others (Seq x) l) = len l - 1.
Proof.
  unfold others. induction 1 as [|y l _ IH Hy]; intros Hx; [by apply not_elem_of_nil in Hx|]. rewrite filter_cons, len_cons. destruct (decide (Seq y <> Seq x)) as [Hn|Hn].
  - rewrite len_cons, IH; [lia|]. apply elem_of_cons in Hx as [->|Hx]; done.
  - assert (E : Seq y = Seq x) by lia. rewrite list_filter_all; [lia|]. intros z Hz. pose proof (proj1 (Forall_forall _ _) Hy z Hz). unfold before in *. lia.
Qed.

Lemma ack_tx_ok t h seq :
  represents t h -> is_u64 seq ->
  exists removed t', ack_tx (DB := DB) (err := err) (seqKey seq) t = Ok (removed, t') /\ represents t' (mkHolding (last_seq h) (others seq (items h)))
    /\ len (others seq (items h)) = len (items h) - (if removed then 1 else 0).
Proof.
  intros R Hseq. pose proof R as [Hs Hr Hok Hlast [mm Hmm] Hcount Hnext (m & Hm & He) Hq]. unfold ack_tx. rewrite (tx_Get_ok _ _ _ m Hm). cbn [rbind].
  destruct (m !! seqKey seq) as [v|] eqn:Ev.
  - apply He in Ev as (x & Hx & E). assert (seq = Seq x) as -> by (apply be64_inj; [done|by apply (seq_u64 t h)|exact (f_equal fst E)]).
    rewrite (tx_Delete_ok _ _ _ m Hm). cbn [rbind]. set (t1 := <[bucketEntries := _]> t). assert (H1 : t1 !! bucketMeta = Some mm) by (unfold t1; by rewrite lookup_insert_ne).
    rewrite (getUint_ext _ _ t1 t mm mm H1 Hmm eq_refl), Hcount. cbn [rbind]. assert (Hpos : 0 < len (items h)) by (destruct (items h); [by apply not_elem_of_nil in Hx|rewrite len_cons; pose proof (len_nonneg l); lia]).
    rewrite Z.max_l by lia. rewrite (putUint_ok _ _ _ _ mm H1) by (by vm_compute). cbn [rbind]. eexists _, _. split; [done|]. pose proof (others_len _ x Hs Hx) as Hol. split; [|done].
    pose proof (sorted_len _ Hs 0 _ Hr) as Hlen. set (t2 := <[bucketMeta := _]> t1). assert (Hmeta : t2 !! bucketMeta = Some (<[keyCount := be64 (len (items h) - 1)]> mm)) by apply lookup_insert_eq.
    split; cbn [items last_seq]; try done.
    + by apply StronglySorted_filter.
    + apply Forall_forall. intros y [_ Hy]%list_elem_of_filter. by apply (proj1 (Forall_forall _ _) Hr).
    + apply Forall_forall. intros y [_ Hy]%list_elem_of_filter. by apply (proj1 (Forall_forall _ _) Hok).
    + eauto.
    + rewrite Hol. apply (getUint_put _ _ _ _ _ Hmeta); [apply lookup_insert_eq|unfold is_u64; pow63; lia].
    + rewrite <- Hnext. apply (getUint_ext _ _ _ _ _ mm Hmeta Hmm). by rewrite lookup_insert_ne.
    + exists (delete (seqKey (Seq x)) m). unfold t2. rewrite lookup_insert_ne by done. split; [apply lookup_insert_eq|]. intros k w. rewrite lookup_delete_Some, (He k w). split.
      * intros (Hk & y & Hy & Ey). exists y. split; [|done]. apply list_elem_of_filter. split; [|done]. intros E'. injection Ey as -> _. by rewrite E' in Hk.
      * intros (y & [Hn Hy]%list_elem_of_filter & Ey). split; [|by exists y]. injection Ey as -> _. intros E'. apply Hn. symmetry. apply be64_inj; [by apply (seq_u64 t h)..|done].
    + destruct Hq as [mq Hmq]. exists mq. unfold t2, t1. by rewrite !lookup_insert_ne.
  - assert (Hn : forall x, x ∈ items h -> Seq x <> seq).
    { intros x Hx E. assert (m !! seqKey (Seq x) = Some (enc (body x))) as E2 by (apply He; by exists x). rewrite E in E2. congruence. }
    rewrite (others_absent seq (items h) Hn). eexists false, t. split; [done|]. split; [by destruct h|lia].
Qed.

(** *** The queue *)

Definition file_queue_holds (q : FQueue DB) (a : option (holding entry_body)) : Prop :=
  match a with
  | None => fq_closed q = true
  | Some h => fq_closed q = false /\ is_open (fq_db q) = true /\ represents (file (fq_db q)) h /\ fq_count q = len (items h)
  end.

(** The answer of a call as the contract sees it; a panic is no answer to it. *)
Definition enqueue_answer (r : res enqueue_error (Z * list fileEntry)) : queue_answer entry_body :=
  match r with
  | Ok x => AEnqueue (inl x)
  | Err (EQueue e) => AEnqueue (inr e)
  | Err (EEncode _) | Panic => AClose
  end.

Definition file_queue_call (c : queue_call entry_body) (q : FQueue DB) : FQueue DB * queue_answer entry_body :=
  match c with
  | QEnqueue m limit => let (q, r) := file_Enqueue sync m limit q in (q, enqueue_answer r)
  | QPeek after n =>
      let (q, r) := file_Peek sync after n q in
      (q, match r with Ok x => APeek (inl x) | Err e => APeek (inr e) | Panic => AClose end)
  | QAck seq =>
      let (q, r) := file_Ack sync seq q in
      (q, match r with Ok _ => AAck None | Err e => AAck (Some e) | Panic => AClose end)
  | QLen => (q, ALen (file_Len q))
  | QClose => (file_Close q, AClose)
  end.

(** Messages that can be stored, and arguments of their Go types; numbers
    above 2^64 - 2 would wrap in [after+1]. *)
Definition file_queue_accepts (c : queue_call entry_body) : Prop :=
  match c with
  | QEnqueue m limit => entry_ok m /\ 0 <= Keep limit < 2 ^ 64 - 1
  | QPeek after _ => 0 <= after < 2 ^ 64 - 1
  | QAck seq => 0 <= seq < 2 ^ 64
  | _ => True
  end.

(** One transaction of an open queue. *)
Lemma update_represents {A} (q : FQueue DB) (fn : buckets -> res err (A * buckets)) h a t' h' :
  is_open (fq_db q) = true -> represents (file (fq_db q)) h -> fn (file (fq_db q)) = Ok (a, t') -> represents t' h' ->
  let (d, r) := db_Update sync (fq_db q) fn in
  is_open d = true /\ ((r = Ok a /\ represents (file d) h') \/ (represents (file d) h /\ exists e, r = Err (ErrBolt e))).
Proof.
  intros Ho R E R'. pose proof (db_Update_ok sync (fq_db q) fn a t' Ho E) as H. destruct (db_Update sync (fq_db q) fn) as [d r].
  destruct H as [H1 [[-> ->]|[-> [e ->]]]]; (split; [done|]); [by left|right; eauto].
Qed.

Lemma file_Enqueue_law m limit q h :
  entry_ok m -> 0 <= Keep limit < 2 ^ 64 - 1 -> last_seq h < 2 ^ 63 - 1 -> file_queue_holds q (Some h) ->
  let (q', r) := file_Enqueue sync m limit q in
  (file_queue_holds q' (fst (spec_Enqueue m limit (Some h))) /\ enqueue_answer r = AEnqueue (snd (spec_Enqueue m limit (Some h))))
  \/ (file_queue_holds q' (Some h) /\ failed (enqueue_answer r) = true).
Proof.
  intros Hm Hk Hl (Hc & Ho & R & Hn). unfold file_Enqueue. rewrite Hc, encodeEntry_ok by done.
  destruct (enqueue_tx_ok _ h m limit R Hl Hm Hk) as (x & t' & h' & E & Eh & R' & Ex). rewrite Eh.
  pose proof (update_represents q (enqueue_tx (enc m) limit) h x t' h' Ho R E R') as H. destruct (db_Update sync (fq_db q) _) as [d r].
  destruct H as [Hd [[-> Rd]|[Rd [e ->]]]]; [|right; cbn; by split_and!]. destruct (snd (spec_Enqueue m limit (Some h))) as [[seq ev]|e].
  - subst x. cbn. left. split; [|done]. split_and!; try done. cbn. rewrite Hn. unfold delta_of. lia.
  - destruct Ex as (-> & -> & ->). cbn. left. by split_and!.
Qed.

Lemma file_queue_law c q a :
  file_queue_accepts c -> file_queue_holds q a -> (forall h, a = Some h -> last_seq h < 2 ^ 63 - 1) ->
  (file_queue_holds (fst (file_queue_call c q)) (fst (spec_call c a)) /\ snd (file_queue_call c q) = snd (spec_call c a))
  \/ (file_queue_holds (fst (file_queue_call c q)) a /\ failed (snd (file_queue_call c q)) = true).
Proof.
  intros Hc Hq Hb. destruct a as [h|].
  2: { left. cbn in Hq. destruct c as [m limit|after n|seq| |]; cbn; unfold file_Enqueue, file_Peek, file_Ack, file_Len; by rewrite ?Hq. }
  specialize (Hb h eq_refl). destruct c as [m limit|after n|seq| |]; cbn [file_queue_call spec_call file_queue_accepts] in *.
  - destruct Hc as [Hm Hk]. pose proof (file_Enqueue_law m limit q h Hm Hk Hb Hq) as H. destruct (file_Enqueue sync m limit q) as [q' r].
    destruct (spec_Enqueue m limit (Some h)) as [a' s]. exact H.
  - left. pose proof Hq as (Hcl & Ho & R & Hn). unfold file_Peek. rewrite Hcl.
    assert (E : db_View (fq_db q) (peek_view after n) = Ok (ztake n (above after (items h)), [])).
    { unfold db_View. rewrite bolt_View_law, Ho. unfold peek_view. rewrite (Seek_items _ h after R Hc). cbn [rbind]. rewrite peek_slots by (by apply (ok_above (file (fq_db q)))). done. }
    rewrite E. by split.
  - pose proof Hq as (Hcl & Ho & R & Hn). unfold file_Ack. rewrite Hcl. destruct (ack_tx_ok _ h seq R Hc) as (removed & t' & E & R' & Hlen).
    pose proof (update_represents q _ h removed t' _ Ho R E R') as H. destruct (db_Update sync (fq_db q) _) as [d r].
    destruct H as [Hd [[-> Rd]|[Rd [e ->]]]]; [left|right; by split_and!]. split; [|by destruct removed]. cbn [fst spec_Ack]. fold (others seq (items h)).
    destruct removed; split_and!; try done; cbn [fq_count items]; lia.
  - left. destruct Hq as (Hcl & Ho & R & Hn). cbn. unfold file_Len. rewrite Hcl, Hn. by split_and!.
  - left. done.
Qed.

#[export] Instance FileQueue_queue : PublisherQueue (FQueue DB) entry_body := {
  call := file_queue_call;
  queue_accepts := file_queue_accepts;
  holds_queue := file_queue_holds;
  call_law := file_queue_law;
}.
End simulation.

(** ** The next process *)

Section reopening.
Context {DB err : Type} `{!Bolt DB err} {Pool : BufferPool} (sync : SyncPolicy).

Definition no_close (cs : list (queue_call entry_body)) : Prop := Forall (fun c => c <> QClose) cs.

(** Processes that use one file after the other: each opens the queue, makes
    its calls, and closes the queue or dies. *)
Fixpoint lives (ls : list (list (queue_call entry_body) * bool)) (t : buckets) : list (list (queue_answer entry_body)) :=
  match ls with
  | [] => []
  | (cs, closes) :: ls =>
      match file_Open (DB := DB) t with
      | Ok q =>
          let (q, rs) := run_calls (PublisherQueue0 := FileQueue_queue sync) cs q in
          rs :: lives ls (file (fq_db (if closes then file_Close q else q)))
      | _ => [] :: lives ls t
      end
  end.

(** What the contract allows them to see: each finds what the one before left,
    unless its [Open] failed. *)
Inductive lives_like : holding entry_body -> list (list (queue_call entry_body) * bool) -> list (list (queue_answer entry_body)) -> Prop :=
| lives_nil h : lives_like h [] []
| lives_open h cs closes rs h' ls rss :
    answers_like (Some h) cs rs (Some h') -> lives_like h' ls rss -> lives_like h ((cs, closes) :: ls) (rs :: rss)
| lives_unopened h cs closes ls rss : lives_like h ls rss -> lives_like h ((cs, closes) :: ls) ([] :: rss).

(** A file [Open] can be given: a queue's, or an empty one. *)
Definition queue_file (t : buckets) (h : holding entry_body) : Prop :=
  represents (DB := DB) (err := err) t h \/ (t = ∅ /\ h = mkHolding 0 []).

Definition new_file : buckets := <[bucketQuarantine := ∅]> (<[bucketEntries := ∅]> (<[bucketMeta := ∅]> ∅)).

Lemma new_file_represents : represents (DB := DB) (err := err) new_file (mkHolding 0 []).
Proof.
  assert (Hm : new_file !! bucketMeta = Some ∅) by (by vm_compute).
  assert (Hg : forall k, getUint (DB := DB) (err := err) bucketMeta k new_file = Ok 0) by (intros k; unfold getUint; by rewrite (tx_Get_ok _ _ _ _ Hm)).
  split; cbn [items last_seq]; [constructor|constructor|constructor|lia|by exists ∅|apply Hg|apply Hg| |exists ∅; by vm_compute].
  exists ∅. split; [by vm_compute|]. intros k v. rewrite lookup_empty. split; [done|]. by intros (x & []%not_elem_of_nil & _).
Qed.

Lemma create_queue t h :
  queue_file t h -> exists t', create_buckets (DB := DB) (err := err) [bucketMeta; bucketEntries; bucketQuarantine] t = Ok t' /\ represents (DB := DB) (err := err) t' h.
Proof.
  intros [R|[-> ->]].
  - pose proof R as [_ _ _ _ [mm Hm] _ _ (me & He & _) [mq Hq]]. exists t. split; [|done]. cbn [create_buckets]. do 3 (rewrite CreateBucketIfNotExists_law by done; rewrite ?Hm, ?He, ?Hq; cbn [rbind]). done.
  - exists new_file. split; [|apply new_file_represents]. cbn [create_buckets]. do 3 (rewrite CreateBucketIfNotExists_law by done; cbn [rbind]). by vm_compute.
Qed.

Lemma file_Open_law t h :
  queue_file t h -> match file_Open (DB := DB) t with Ok q => file_queue_holds q (Some h) | _ => True end.
Proof.
  intros Ht. destruct (create_queue t h Ht) as (t' & E & R). destruct (bolt_Open_law t) as [Ho Hf]. unfold file_Open.
  pose proof (db_Update_ok SyncNone (bolt_Open t) (fun t => let! t := create_buckets (DB := DB) [bucketMeta; bucketEntries; bucketQuarantine] t in Ok (tt, t)) tt t' Ho) as H.
  destruct (db_Update SyncNone _ _) as [d r]. destruct H as [Hd [[-> Hfd]|[_ [e ->]]]]; [by rewrite Hf, E| |done]. cbn [rbind].
  unfold db_View. rewrite bolt_View_law, Hd, Hfd, (rp_count _ _ R). cbn. split_and!; [done|done|by rewrite Hfd|]. cbn.
  pose proof (sorted_len _ (rp_sorted _ _ R) 0 _ (rp_range _ _ R)). pose proof (rp_last _ _ R). unfold i64. rewrite (proj2 (Z.ltb_lt _ _)) by lia. done.
Qed.

Lemma spec_call_open (c : queue_call entry_body) h : c <> QClose -> exists h', fst (spec_call c (Some h)) = Some h'.
Proof.
  intros Hc. destruct c as [m limit|after n|seq| |]; [|by eexists..|done]. cbn. destruct (0 <? Max limit), (Max limit <=? len (items h)); cbn; try (by eexists).
  destruct (decide (Policy limit = DropOldest)); [|by eexists]. destruct (_ <=? _); by eexists.
Qed.

Lemma like_open cs : forall (a : option (holding entry_body)) rs a' h,
  answers_like a cs rs a' -> no_close cs -> a = Some h -> exists h', a' = Some h' /\ last_seq h' <= last_seq h + len cs.
Proof.
  intros a rs a' h H. revert h. induction H as [a|a c cs rs a' _ IH|a c r cs rs a' _ _ IH]; intros h Hn ->; [exists h; rewrite len_nil; split; [done|lia]|..];
    inversion_clear Hn as [|? ? Hc Hcs]; rewrite len_cons.
  - destruct (spec_call_open c h Hc) as [h1 E1].
    destruct (IH h1 Hcs E1) as (h' & -> & Hle). exists h'. split; [done|]. pose proof (spec_call_seq c _ h h1 eq_refl E1). lia.
  - destruct (IH h Hcs eq_refl) as (h' & -> & Hle). exists h'. split; [done|lia].
Qed.
End reopening.

Lemma lives_law {DB err : Type} `{!Bolt DB err} {Pool : BufferPool} (sync : SyncPolicy) ls : forall t h,
  Forall (fun l => Forall file_queue_accepts (fst l) /\ no_close (fst l)) ls -> queue_file (DB := DB) (err := err) t h ->
  last_seq h + len (concat (map fst ls)) < 2 ^ 63 ->
  lives_like h ls (lives (DB := DB) sync ls t).
Proof.
  induction ls as [|[cs closes] ls IH]; intros t h Hls Ht Hb; [constructor|]. inversion_clear Hls as [|? ? [Hcs Hn] Hls']. cbn [fst map concat] in *.
  rewrite len_app in Hb. pose proof (len_nonneg cs). pose proof (len_nonneg (concat (map fst ls))). cbn [lives]. pose proof (file_Open_law t h Ht) as Ho.
  destruct (file_Open t) as [q|e|]; [|by apply lives_unopened, IH; [..|lia]|by apply lives_unopened, IH; [..|lia]].
  destruct (run_calls_law (PublisherQueue0 := FileQueue_queue sync) cs q (Some h) Hcs Ho) as (a' & Hq & Hl); [intros ? [= <-]; lia|].
  destruct (run_calls cs q) as [q' rs]. cbn [fst snd] in *. destruct (like_open cs _ _ _ h Hl Hn eq_refl) as (h' & -> & Hle).
  apply (lives_open h cs closes rs h'); [done|]. apply IH; [done| |lia]. left. destruct Hq as (_ & _ & R & _). destruct closes; [|done]. cbn. by rewrite (proj2 (bolt_Close_law _)).
Qed.

(** ** Properties *)

(** C25: the queue on disk keeps the [PublisherQueue] contract across
    processes, for the calls it accepts.  Over a file that starts empty, any
    number of processes in turn open the queue, make calls (fewer than 2^63 in
    all, each within [file_queue_accepts]: entries with an identifier of at most
    255 bytes, options of QoS 1 or 2 that can be encoded and int64 times; [Peek]
    after and [Keep] up to a number below 2^64-1; [Ack] of a uint64) and close the queue or die; under any sync policy, every
    call is answered as the contract says from what the process before left
    behind — sequence numbers go on counting, entries come back with their
    options, identifiers and times, [Len] is recovered, the limit is kept by
    refusing or by evicting the oldest entries above [Keep] — or fails with an
    input/output error and changes nothing.  At 2^64-1, which no entry ever has
    as its number, [after+1] wraps and [Peek] departs from the contract
    ([peek_wraps]). *)
Theorem file_queue_refines {DB err : Type} `{!Bolt DB err} {Pool : BufferPool} (sync : SyncPolicy) (ls : list (list (queue_call entry_body) * bool)) :
  Forall (fun l => Forall file_queue_accepts (fst l) /\ no_close (fst l)) ls -> len (concat (map fst ls)) < 2 ^ 63 ->
  lives_like (mkHolding 0 []) ls (lives (DB := DB) sync ls ∅).
Proof. intros Hls Hb. apply lives_law; [done|by right|done]. Qed.

Import MemBolt.

(** Two processes: the second finds the one entry the first left. *)
Definition queued_message : entry_body :=
  mkBody (str "m1") {| o_Topic := str "a/b"; o_Payload := [1; 2]; o_QoS := 1; o_Retain := false; o_PayloadFormatIndicator := Some 1; o_MessageExpiryInterval := Some 60;
    o_ContentType := str "x"; o_ResponseTopic := []; o_CorrelationData := None; o_TopicAlias := 0; o_UserProperties := [] |} (Some 1000) None.

Lemma queued_message_ok : entry_ok queued_message.
Proof.
  split_and!; try done; [by repeat constructor|split_and!|by intros t [= <-]]; [by repeat constructor| |done].
  split_and!; vm_compute; try done; try (intros; discriminate).
Qed.

Definition two_processes : list (list (queue_call entry_body) * bool) :=
  [([QEnqueue queued_message (mkLimit 1 DropNewest 0); QEnqueue queued_message (mkLimit 1 DropOldest 0); QEnqueue queued_message (mkLimit 1 DropNewest 0)], false);
   ([QLen; QPeek 0 10; QAck 2; QLen], true)].

Lemma file_queue_refines_witness :
  lives_like (mkHolding 0 []) two_processes (@lives MemBolt.mem MemBolt.mem_error _ fresh_pool SyncGroupCommit two_processes ∅)
  /\ @lives MemBolt.mem MemBolt.mem_error _ fresh_pool SyncGroupCommit two_processes ∅
     = [[AEnqueue (inl (1, [])); AEnqueue (inl (2, [mkEntry 1 queued_message])); AEnqueue (inr ErrQueueFull)];
        [ALen (inl 1); APeek (inl [mkEntry 2 queued_message]); AAck None; ALen (inl 0)]].
Proof.
  split; [|vm_compute; reflexivity]. apply (@file_queue_refines MemBolt.mem MemBolt.mem_error _ fresh_pool SyncGroupCommit two_processes); [|vm_compute; reflexivity].
  pose proof queued_message_ok. unfold two_processes. rewrite !Forall_cons, Forall_nil. cbn [fst file_queue_accepts Keep]. unfold no_close. rewrite !Forall_cons, !Forall_nil. cbn [file_queue_accepts Keep]. split_and!; done.
Defined.

(** ** Boundary cases *)

(** A key that is not a sequence number, which [decodeEntry] checks for, makes
    [Peek] panic in reading the number to report. *)
Example short_key_panics :
  snd (@file_Peek MemBolt.mem MemBolt.mem_error _ fresh_pool SyncNone 0 10
         (mkFQ (bolt_Open (<[bucketEntries := {[ [255] := [0] ]}]> new_file)) 1 false [])) = Panic.
Proof. vm_compute. reflexivity. Qed.

(** After the largest sequence number, [after+1] wraps and [Peek] starts over
    where the contract has nothing more to return. *)
Example peek_wraps :
  let q := @lives MemBolt.mem MemBolt.mem_error _ fresh_pool SyncNone [([QEnqueue queued_message (mkLimit 0 DropNewest 0); QPeek (2 ^ 64 - 1) 10], true)] ∅ in
  q = [[AEnqueue (inl (1, [])); APeek (inl [mkEntry 1 queued_message])]]
  /\ snd (spec_call (QPeek (2 ^ 64 - 1) 10) (Some (mkHolding 1 [mkEntry 1 queued_message]))) = APeek (inl []).
Proof. split; vm_compute; reflexivity. Qed.

End FileQueue.
