(* ===== verification/QueuePublisher.v ===== *)
(** * QueuePublisher: publishing from a queue (queue_publisher.go)

    The drain goroutine, the callers of [Publish], the callbacks the session
    settles exchanges with and [Close], as a machine over any
    [PublisherQueue]; what the session answers, the clock and the scheduler
    are the machine's inputs. *)

From stdpp Require Import gmap sorting.
From S2P Require Import Prelude GoLib Errors ClientErrors Buffers Varint Fields PropView Publish Codec Message Queue Checksum FileDb FileQueue.

Module QueuePublisher.
Import ClientErrors Message Queue Checksum FileQueue.

(** ** Data *)

Record queueConfig : Type := mkConfig {
  window : Z;
  maxSize : Z;
  dropPolicy : DropPolicy;
  ttl : Z;
  permanent : cerror -> bool;
  backoff : Z -> Z;
  idempotency : bool;
}.

Definition DefaultQueueWindow : Z := 32.

Abbreviation queueEntry := (QueueEntry entry_body).

Record queuedMessage : Type := mkQueued {
  entry : queueEntry;
  inFlight : bool;
  attempts : Z;
  retryAt : option Z;
  accepted : bool;
  deadLettered : bool;
}.
#[export] Instance queuedMessage_rebuild : Rebuild queuedMessage := fun m =>
  mkQueued (entry m) (inFlight m) (attempts m) (retryAt m) (accepted m) (deadLettered m).

(** What a thread has still to do for the message it works on; [callback]:
    the thread runs the session's callback, which returns at the end. *)
Inductive task : Type :=
| TEnqueue (e : entry_body)                       (* Publish, at its Enqueue *)
| TEvicted (ev : list queueEntry)                 (* Publish, at its loop over evicted *)
| TSignal                                         (* signal *)
| TRemove (seq : Z) (callback : bool)             (* remove, at its Ack *)
| TDelete (seq : Z) (callback : bool)             (* remove, at its delete *)
| TRetry (seq : Z) (at_ : option Z) (result : option bool).
    (* retry; then the callback, if any, returns nil (true) or an error *)

(** Where the drain goroutine is. *)
Inductive drain_pc : Type :=
| DTop                                            (* run: before connChanged *)
| DLoad                                           (* run: before cur.Load *)
| DDue                                            (* fill: before due *)
| DStart (todo : list Z) (next : option Z) (room : Z)  (* fill: starting the due ones *)
| DStarted (todo : list Z) (next : option Z)      (* fill: starting the claimed ones *)
| DSleep (next : option Z) (unread : bool)        (* run: in its select; unread: fill ended on a failed Peek *)
| DDone.

(** What the world outside sees, oldest first. *)
Inductive observation : Type :=
| Stored (e : queueEntry)                         (* Enqueue took the message *)
| Letter (e : queueEntry) (reason : cerror)       (* the dead-letter callback *)
| Accepted (seq : Z)                              (* stats.addPublishSent *)
| Published (seq : Z) (o : PublishOptions)        (* publishTracked began an exchange *)
| Forgotten (seq : Z)                             (* a callback returned nil: the session forgets the exchange *)
| Kept (seq : Z).                                 (* a callback returned an error: the session keeps it *)

Record publisher (Q : Type) : Type := mkPublisher {
  queue : Q;
  claimed : Z;
  pending : gmap Z queuedMessage;
  notify : bool;
  closing : bool;
  canceled : bool;
  connected : bool;       (* client.cur is not nil *)
  moved : bool;           (* the channel run took from connChanged is closed *)
  drain : drain_pc;
  inline : list task;     (* what the drain does before it goes on *)
  settling : list Z;      (* messages whose callback the session holds *)
  tasks : list task;      (* the other threads *)
  trace : list observation;
}.
#[global] Arguments mkPublisher {Q} _ _ _ _ _ _ _ _ _ _ _ _ _.
#[global] Arguments queue {Q} _.
#[global] Arguments claimed {Q} _.
#[global] Arguments pending {Q} _.
#[global] Arguments notify {Q} _.
#[global] Arguments closing {Q} _.
#[global] Arguments canceled {Q} _.
#[global] Arguments connected {Q} _.
#[global] Arguments moved {Q} _.
#[global] Arguments drain {Q} _.
#[global] Arguments inline {Q} _.
#[global] Arguments settling {Q} _.
#[global] Arguments tasks {Q} _.
#[global] Arguments trace {Q} _.
#[export] Instance publisher_rebuild Q : Rebuild (publisher Q) := fun p =>
  mkPublisher (queue p) (claimed p) (pending p) (notify p) (closing p) (canceled p) (connected p) (moved p) (drain p)
    (inline p) (settling p) (tasks p) (trace p).

(** ** Configuration *)

(** The checks of [NewQueuePublisher]; [backoff_error] is what
    [validateBackoff] returned, [has_classifier] that there is one. *)
Definition check_config (cfg : queueConfig) (has_classifier : bool) (backoff_error : option cerror) : option cerror :=
  if window cfg <? 1 then Some (CErrorf "mqttv5: WithQueueWindow(%d): must be at least 1" [])
  else if maxSize cfg <? 0 then Some (CErrorf "mqttv5: WithQueueMaxSize(%d): must not be negative" [])
  else if ttl cfg <? 0 then Some (CErrorf "mqttv5: WithQueueTTL(%v): must not be negative" [])
  else if negb has_classifier then Some (CErrorf "mqttv5: WithQueueClassifier needs a function" [])
  else match backoff_error with Some e => Some (CErrorf "mqttv5: WithQueueRetryBackoff: %w" [e]) | None => None end.

(** ** Publish *)

Definition QueueIDProperty : list Z := str "mqttv5-msg-id".
Definition second : Z := 1000000000.

(** The message with its identifier, when [WithQueueIdempotencyKey] asks for
    it. *)
Definition tagged (cfg : queueConfig) (opts : PublishOptions) (id : list Z) : PublishOptions :=
  if idempotency cfg then opts <| o_UserProperties ::= fun l => l ++ [mkUserProperty QueueIDProperty id] |> else opts.

(** [Publish] up to its [Enqueue]: the entry it stores, under the identifier
    [newQueueID] drew. *)
Definition publish_entry (cfg : queueConfig) (opts : PublishOptions) (id : list Z) (now : Z) : res cerror entry_body :=
  if o_QoS opts =? 0 then Err (CSentinel ErrQoS0NotQueueable)
  else if negb (o_TopicAlias opts =? 0) then Err (CErrorf "%w: a queued message carries its topic name, not an alias" [CSentinel ErrTopicAliasInvalid])
  else
    let opts := tagged cfg opts id in
    match EncodePublish opts 1 with
    | Err e => Err (CWire e)
    | Panic => Panic
    | Ok _ =>
        let expires := match o_MessageExpiryInterval opts with Some s => Some (now + s * second) | None => None end in
        let expires :=
          if (0 <? ttl cfg) && match expires with None => true | Some t => now + ttl cfg <? t end then Some (now + ttl cfg) else expires in
        Ok (mkBody id (opts <| o_MessageExpiryInterval := None |>) (Some now) expires)
    end.

Section publisher.
Context {Q : Type} `{!PublisherQueue Q entry_body} (cfg : queueConfig).
Implicit Types (p : publisher Q).

(** The queue's calls, with the queue put back. *)
Definition queue_do (c : queue_call entry_body) p : publisher Q * queue_answer entry_body :=
  let (q, r) := call c (queue p) in (p <| queue := q |>, r).

Definition observe (o : observation) p : publisher Q := p <| trace ::= fun l => l ++ [o] |>.

Definition modify (seq : Z) (f : queuedMessage -> queuedMessage) p : publisher Q := p <| pending ::= alter f seq |>.

Definition attempts_of (seq : Z) p : Z := match pending p !! seq with Some m => attempts m | None => 0 end.

(** ** Outcomes *)

(** [drop], up to its [remove]. *)
Definition drop_message (seq : Z) (reason : cerror) (callback : bool) p : publisher Q * list task :=
  match pending p !! seq with
  | None => (p, [])
  | Some m =>
      let p := modify seq (fun m => m <| deadLettered := true |>) p in
      let p := if deadLettered m then p else observe (Letter (entry m) reason) p in
      (p, [TRemove seq callback])
  end.

(** [failed] *)
Definition failed_ (seq : Z) (err : cerror) (callback : bool) (now : Z) p : publisher Q * list task :=
  let result := if callback then Some true else None in
  if Is err ErrMessageExpired || permanent cfg err then drop_message seq err callback p
  else if Is err ErrNotConnected then (p, [TRetry seq None result])
  else if Is err ErrClosed || canceled p then (p, [TRetry seq None result])
  else (p, [TRetry seq (Some (now + backoff cfg (attempts_of seq p - 1))) result]).

(** [settled], which the session calls with the outcome of the exchange. *)
Definition settled (seq : Z) (err : option cerror) (now : Z) p : publisher Q * list task :=
  match err with
  | None =>
      match pending p !! seq with
      | None => (p, [])
      | Some m =>
          let p := modify seq (fun m => m <| accepted := true |>) p in
          let p := if accepted m then p else observe (Accepted seq) p in
          (p, [TRemove seq true])
      end
  | Some err =>
      if Is err ErrSessionLost then (p, [TRetry seq None (Some true)])
      else failed_ seq err true now p
  end.

(** One step of a thread: what it does and what it has left to do. *)
Definition run_task (t : task) (now : Z) p : publisher Q * list task :=
  match t with
  | TEnqueue e =>
      let (p, r) := queue_do (QEnqueue e (mkLimit (maxSize cfg) (dropPolicy cfg) (claimed p))) p in
      match r with
      | AEnqueue (inl (seq, ev)) => (observe (Stored (mkEntry seq e)) p, [TEvicted ev])
      | _ => (p, [])
      end
  | TEvicted [] => (p, [TSignal])
  | TEvicted (e :: ev) => (observe (Letter e (CSentinel ClientErrors.ErrQueueFull)) p, [TEvicted ev])
  | TSignal => (p <| notify := true |>, [])
  | TRemove seq callback =>
      let (p, r) := queue_do (QAck seq) p in
      match r with
      | AAck None => (p, [TDelete seq callback])
      | _ => (p, [TRetry seq (Some (now + backoff cfg (attempts_of seq p - 1))) (if callback then Some false else None)])
      end
  | TDelete seq callback =>
      let p := p <| pending ::= delete seq |> in
      (if callback then observe (Forgotten seq) p else p, [TSignal])
  | TRetry seq at_ result =>
      let p := modify seq (fun m => m <| inFlight := false |> <| retryAt := at_ |>) p in
      (match result with Some ok => observe (if ok then Forgotten seq else Kept seq) p | None => p end, [TSignal])
  end.

(** ** The drain goroutine *)

(** The cases of the loop in [due]. *)
Definition is_due (now : Z) (m : queuedMessage) : bool :=
  negb (inFlight m) && match retryAt m with None => true | Some t => t <=? now end.

Definition sooner (now : Z) (m : queuedMessage) (next : option Z) : option Z :=
  if inFlight m || is_due now m then next
  else match next, retryAt m with
       | None, at_ => at_
       | Some t, Some t' => if t' <? t then Some t' else next
       | Some _, None => next
       end.

Definition due (now : Z) p : publisher Q * list Z * option Z * Z :=
  let todo := merge_sort Z.le (map fst (map_to_list (filter (fun x => is_due now (snd x) = true) (pending p)))) in
  let next := map_fold (fun _ => sooner now) None (pending p) in
  let p := p <| pending ::= fmap (fun m => if is_due now m then m <| inFlight := true |> else m) |> in
  (p, todo, next, window cfg - Z.of_nat (size (pending p))).

(** [claim]: the new messages' numbers, or [None] when the queue could not be
    read. *)
Definition claim (n : Z) p : publisher Q * option (list Z) :=
  let (p, r) := queue_do (QPeek (claimed p) n) p in
  match r with
  | APeek (inl es) =>
      let p := p <| pending ::= fun m => foldl (fun m e => <[Seq e := mkQueued e true 0 None false false]> m) m es |> in
      let p := match last es with Some e => p <| claimed := Seq e |> | None => p end in
      (p, Some (map Seq es))
  | _ => (p, None)
  end.

(** The options [start] publishes: what is left of the message's lifetime,
    in seconds rounded up. *)
Definition saturate (d : Z) : Z := Z.max (- 2 ^ 63) (Z.min (2 ^ 63 - 1) d).

Definition left_of (expires now : Z) : Z := u32 (Z.quot (i64 (u64 (saturate (expires - now) + second - 1))) second).

Definition outgoing (e : entry_body) (now : Z) : PublishOptions :=
  match ExpiresAt e with
  | None => Pub e
  | Some t => (Pub e) <| o_MessageExpiryInterval := Some (left_of t now) |>
  end.

Definition expired (e : entry_body) (now : Z) : bool := match ExpiresAt e with Some t => t <=? now | None => false end.

(** [start]; [adopted] is what the session's [Adopt] returned, [sent] what
    [publishTracked] returned. *)
Definition start (seq : Z) (adopted : bool) (sent : option cerror) (now : Z) p : publisher Q * list task :=
  match pending p !! seq with
  | None => (p, [])
  | Some m =>
      let e := entry m in
      let p := modify seq (fun m => m <| attempts ::= Z.succ |>) p in
      if adopted then (p <| settling ::= cons seq |>, [])
      else if expired (body e) now then drop_message seq (CSentinel ErrMessageExpired) false p
      else match sent with
           | None => (observe (Published seq (outgoing (body e) now)) (p <| settling ::= cons seq |>), [])
           | Some err => failed_ seq err false now p
           end
  end.

(** [fill], once it has started what was due. *)
Definition after_due (next : option Z) (room : Z) p : publisher Q :=
  if (room <=? 0) || negb (connected p) || canceled p then p <| drain := DSleep next false |>
  else
    let (p, r) := claim room p in
    match r with
    | None => p <| drain := DSleep next true |>
    | Some [] => p <| drain := DSleep next false |>
    | Some seqs => p <| drain := DStarted seqs next |>
    end.

(** One step of the drain: its own unfinished work first, then [run] and
    [fill]. *)
Definition drain_step (adopted : bool) (sent : option cerror) (now : Z) p : publisher Q :=
  match inline p with
  | t :: rest => let (p, ts) := run_task t now p in p <| inline := ts ++ rest |>
  | [] =>
      match drain p with
      | DTop => p <| moved := false |> <| drain := DLoad |>
      | DLoad => p <| drain := if connected p then DDue else DSleep None false |>
      | DDue => let '(p, todo, next, room) := due now p in p <| drain := DStart todo next room |>
      | DStart (seq :: todo) next room =>
          let (p, ts) := start seq adopted sent now (p <| drain := DStart todo next room |>) in p <| inline := ts |>
      | DStart [] next room => after_due next room p
      | DStarted (seq :: todo) next =>
          let (p, ts) := start seq adopted sent now (p <| drain := DStarted todo next |>) in p <| inline := ts |>
      | DStarted [] next => p <| drain := if connected p then DDue else DSleep next false |>
      | DSleep _ _ | DDone => p
      end
  end.

(** The cases of [run]'s select. *)
Inductive wake : Type := WClosing | WNotify | WChanged | WTimer.

Definition wake_up (w : wake) (now : Z) p : publisher Q :=
  match drain p, w with
  | DSleep _ _, WClosing => if closing p then p <| drain := DDone |> else p
  | DSleep _ _, WNotify => if notify p then p <| notify := false |> <| drain := DTop |> else p
  | DSleep _ _, WChanged => if moved p then p <| drain := DTop |> else p
  | DSleep (Some t) _, WTimer => if t <=? now then p <| drain := DTop |> else p
  | _, _ => p
  end.

(** ** The machine *)

Inductive input : Type :=
| IPublish (o : PublishOptions) (id : list Z) (now : Z)             (* a call of Publish *)
| ITask (i : nat) (now : Z)                                         (* a step of another thread *)
| IDrain (adopted : bool) (sent : option cerror) (now : Z)          (* a step of the drain *)
| IWake (w : wake) (now : Z)                                        (* the drain's select *)
| ISettle (seq : Z) (err : option cerror) (now : Z)                 (* the session calls a callback *)
| IConn (up : bool)                                                 (* setCur *)
| IClosing                                                          (* Close *)
| ICloseQueue (timeout : bool).                                     (* Close, after its waits *)

Definition is_callback (t : task) : bool :=
  match t with TRemove _ c | TDelete _ c => c | TRetry _ _ r => bool_decide (is_Some r) | _ => false end.

Definition step (i : input) p : publisher Q :=
  match i with
  | IPublish o id now =>
      if closing p then p
      else match publish_entry cfg o id now with Ok e => p <| tasks ::= cons (TEnqueue e) |> | _ => p end
  | ITask i now =>
      match tasks p !! i with
      | Some t => let (p, ts) := run_task t now p in p <| tasks ::= fun l => ts ++ take i l ++ drop (S i) l |>
      | None => p
      end
  | IDrain adopted sent now => drain_step adopted sent now p
  | IWake w now => wake_up w now p
  | ISettle seq err now =>
      if decide (seq ∈ settling p) then
        let (p, ts) := settled seq err now (p <| settling ::= filter (fun s => s <> seq) |>) in p <| tasks ::= fun l => ts ++ l |>
      else p
  | IConn up => p <| connected := up |> <| moved := true |>
  | IClosing => p <| closing := true |>
  | ICloseQueue timeout =>
      match drain p with
      | DDone =>
          if timeout || (bool_decide (settling p = []) && negb (existsb is_callback (tasks p)))
          then let (p, _) := queue_do QClose (p <| canceled := true |>) in p
          else p
      | _ => p
      end
  end.

Definition run (is_ : list input) p : publisher Q := foldl (fun p i => step i p) p is_.

(** [NewQueuePublisher] on a queue. *)
Definition NewQueuePublisher (q : Q) (up : bool) : publisher Q :=
  mkPublisher q 0 ∅ false false false up false DTop [] [] [] [].

End publisher.

(** ** Invariants *)

(** A message without its Message Expiry Interval is no larger. *)
Lemma fits_without_expiry o : publish_fits (wire o 1) -> publish_fits (wire (o <| o_MessageExpiryInterval := None |>) 1).
Proof.
  unfold publish_fits, publish_body, publish_varhdr. set (w := wire o 1). set (w' := wire _ 1). intros Hf.
  assert (Hle : len (enc_props (publish_props w')) <= len (enc_props (publish_props w))).
  { assert (exists a b c, publish_props w = a ++ b ++ c /\ publish_props w' = a ++ c) as (a & b & c & -> & ->) by (eexists _, _, _; split; reflexivity).
    rewrite !enc_props_app, !len_app. pose proof (len_nonneg (enc_props b)). lia. }
  assert (Hv : forall a b, 0 <= a <= b -> b <= MaxVarintValue -> len (enc_varint a) <= len (enc_varint b)).
  { intros a b Hab Hb. rewrite !len_enc_varint by lia. unfold VarintSize. repeat case_match; lia. }
  rewrite !len_app in Hf |- *. pose proof (len_nonneg (enc_props (publish_props w'))). pose proof (len_nonneg (enc_str (Topic w))). pose proof (len_nonneg (Payload w)).
  pose proof (len_nonneg (if 0 <? QoS w then be16 (PacketID w) else [])). pose proof (len_nonneg (enc_varint (len (enc_props (publish_props w))))).
  specialize (Hv (len (enc_props (publish_props w'))) (len (enc_props (publish_props w))) ltac:(lia) ltac:(lia)). change (Topic w') with (Topic w). change (QoS w') with (QoS w). change (PacketID w') with (PacketID w). change (Payload w') with (Payload w). lia.
Qed.

(** A queue that takes what a [QueuePublisher] gives it. *)
Class DrainQueue (Q : Type) `{!PublisherQueue Q entry_body} : Prop := {
  accepts_enqueue e limit : entry_ok e -> 0 <= Queue.Keep limit < 2 ^ 63 -> queue_accepts (QEnqueue e limit);
  accepts_peek after n : 0 <= after < 2 ^ 63 -> queue_accepts (QPeek after n);
  accepts_ack seq : 0 <= seq < 2 ^ 63 -> queue_accepts (QAck seq);
  accepts_close : queue_accepts QClose;
}.

#[export] Instance memory_drain (zero : entry_body) : @DrainQueue _ (MemoryPublisherQueue_queue zero).
Proof. split; cbn; intros; done || lia. Qed.

#[export] Instance file_drain {DB err : Type} `{!FileDb.Bolt DB err} {Pool : BufferPool} (sync : FileDb.SyncPolicy) : @DrainQueue _ (FileQueue_queue (DB := DB) sync).
Proof. split; cbn; intros; try split; done || lia. Qed.

Definition task_seq (t : task) : option Z :=
  match t with TRemove s _ | TDelete s _ | TRetry s _ _ => Some s | _ => None end.

Definition evicted_seqs (t : task) : list Z := match t with TEvicted ev => map Seq ev | _ => [] end.

Definition letter_seq (o : observation) : option Z := match o with Letter e _ => Some (Seq e) | _ => None end.

(** Messages the dead-letter callback has had or will get. *)
Definition lettered (tr : list observation) (ts : list task) : list Z := omap letter_seq tr ++ concat (map evicted_seqs ts).

(** Tasks that end in a signal, with nothing but letters before it. *)
Definition will_signal (t : task) : bool := match t with TSignal | TEvicted _ => true | _ => false end.

Definition drain_todo {Q} (p : publisher Q) : list Z :=
  match drain p with DStart l _ _ | DStarted l _ => l | _ => [] end.

(** The drain will wake up: something will signal it, or has. *)
Definition rouse {Q} (p : publisher Q) : bool := notify p || moved p || existsb will_signal (inline p ++ tasks p).

Definition waiting {Q} (p : publisher Q) : list Z := drain_todo p ++ settling p.
Definition all_tasks {Q} (p : publisher Q) : list task := inline p ++ tasks p.

Section invariants.
Context {Q : Type} `{!PublisherQueue Q entry_body} `{!DrainQueue Q} (cfg : queueConfig).
Implicit Types (p : publisher Q) (h : holding entry_body) (ws : list Z) (ts : list task).

(** The queue holds [h], or it did when it was closed. *)
Definition queue_at (q : Q) h : Prop := holds_queue q (Some h) \/ holds_queue q None.

Record in_order h : Prop := {
  io_sorted : StronglySorted before (items h);
  io_range : Forall (fun x => 0 < Seq x <= last_seq h) (items h);
  io_last : 0 <= last_seq h;
}.

(** Every message in flight has one thread or one exchange: [ws] are those the
    drain is about to start and those whose callback the session holds. *)
Record owned (pd : gmap Z queuedMessage) ws ts : Prop := {
  ow_nodup : NoDup (ws ++ omap task_seq ts);
  ow_flight s : s ∈ ws ++ omap task_seq ts <-> exists m, pd !! s = Some m /\ inFlight m = true;
}.

(** [pending] and the queue. *)
Record tracked (cl : Z) (pd : gmap Z queuedMessage) ts h : Prop := {
  tk_claimed : 0 <= cl <= last_seq h;
  tk_key s m : pd !! s = Some m -> Seq (entry m) = s /\ 0 < s <= cl;
  tk_entry s m : pd !! s = Some m -> entry m ∈ items h \/ exists c, TDelete s c ∈ ts;
  tk_deleting s c x : TDelete s c ∈ ts -> x ∈ items h -> Seq x <> s;
  tk_items x : x ∈ items h -> Seq x <= cl -> exists m, pd !! Seq x = Some m /\ entry m = x;
}.

(** What became of the messages. *)
Record accounted (all0 : list queueEntry) (cl : Z) (pd : gmap Z queuedMessage) (tr : list observation) ts h : Prop := {
  ac_finishing s c : TRemove s c ∈ ts \/ TDelete s c ∈ ts -> exists m, pd !! s = Some m /\ (accepted m = true \/ deadLettered m = true);
  ac_accepted s m : pd !! s = Some m -> accepted m = true -> Accepted s ∈ tr;
  ac_lettered s m : pd !! s = Some m -> if deadLettered m then exists r, Letter (entry m) r ∈ tr else s ∉ lettered tr ts;
  ac_history x : x ∈ all0 \/ Stored x ∈ tr ->
    x ∈ items h \/ Accepted (Seq x) ∈ tr \/ (exists r, Letter x r ∈ tr) \/ exists ev, TEvicted ev ∈ ts /\ x ∈ ev;
  ac_once : NoDup (lettered tr ts);
  ac_old s : s ∈ lettered tr ts -> s <= last_seq h;
  ac_fresh x : x ∈ items h -> cl < Seq x -> Seq x ∉ lettered tr ts;
}.

Record good (all0 : list queueEntry) p h ws ts : Prop := {
  gd_queue : queue_at (queue p) h;
  gd_order : in_order h;
  gd_storing e : TEnqueue e ∈ ts -> entry_ok e;
  gd_owned : owned (pending p) ws ts;
  gd_tracked : tracked (claimed p) (pending p) ts h;
  gd_accounted : accounted all0 (claimed p) (pending p) (trace p) ts h;
}.

Definition inv (all0 : list queueEntry) p h : Prop := good all0 p h (waiting p) (all_tasks p).
(** *** Lists up to order *)

Lemma lettered_perm tr ts ts' : ts ≡ₚ ts' -> lettered tr ts ≡ₚ lettered tr ts'.
Proof. intros E. unfold lettered. f_equiv. by rewrite E. Qed.

Lemma good_perm all0 p h ws ws' ts ts' : ws ≡ₚ ws' -> ts ≡ₚ ts' -> good all0 p h ws ts -> good all0 p h ws' ts'.
Proof.
  intros Ew Et [Hq Ho Hs [N F] [C1 C2 C3 C4 C5] [A1 A2 A3 A4 A5 A6 A7]]. pose proof (lettered_perm (trace p) ts ts' Et) as El. split; [done|done| | | |].
  - intros e He. apply Hs. by rewrite Et.
  - split; [by rewrite <- Ew, <- Et|]. intros s. rewrite <- Ew, <- Et. apply F.
  - split; [done|done| | |done].
    + intros s m Hm. destruct (C3 s m Hm) as [|[c Hc]]; [by left|]. right. exists c. by rewrite <- Et.
    + intros s c x Hc. apply (C4 s c). by rewrite Et.
  - split; [|done| | | | |].
    + intros s c Hc. apply (A1 s c). by rewrite Et.
    + intros s m Hm. specialize (A3 s m Hm). destruct (deadLettered m); [done|]. by rewrite <- El.
    + intros x Hx. destruct (A4 x Hx) as [|[|[|(ev & Hev & Hin)]]]; [by left|by right; left|by right; right; left|]. right; right; right. exists ev. by rewrite <- Et.
    + by rewrite <- El.
    + intros s. rewrite <- El. apply A6.
    + intros x. rewrite <- El. apply A7.
Qed.
Lemma good_same all0 p p' h ws ts :
  queue_at (queue p') h -> claimed p' = claimed p -> pending p' = pending p -> trace p' = trace p -> good all0 p h ws ts -> good all0 p' h ws ts.
Proof. intros Hq E2 E3 E4 [H1 H2 H3 H4 H5 H6]. split; by rewrite ?E2, ?E3, ?E4. Qed.

(** Tasks that concern no message. *)
Definition idle (t : task) : Prop := match t with TSignal | TEvicted [] | TEnqueue _ => True | _ => False end.

Lemma idle_task t : idle t -> task_seq t = None /\ evicted_seqs t = [].
Proof. by destruct t as [|[|]| | | |]. Qed.

Lemma lettered_idle tr t ts : idle t -> lettered tr (t :: ts) = lettered tr ts.
Proof. intros [_ E]%idle_task. unfold lettered. cbn. by rewrite E. Qed.

Lemma good_tasks all0 p h ws ts ts' :
  (forall u, ~ idle u -> u ∈ ts' <-> u ∈ ts) -> (forall e, TEnqueue e ∈ ts' -> entry_ok e) -> omap task_seq ts' = omap task_seq ts -> lettered (trace p) ts' = lettered (trace p) ts ->
  good all0 p h ws ts -> good all0 p h ws ts'.
Proof.
  intros Hin Hs Eo El [Hq Ho _ [N F] [C1 C2 C3 C4 C5] [A1 A2 A3 A4 A5 A6 A7]].
  assert (Hno : forall u, task_seq u <> None -> ~ idle u) by (intros u Hu [E _]%idle_task; done). split; [done|done|done| | |].
  - split; by rewrite Eo.
  - split; [done|done| | |done].
    + intros s m Hm. destruct (C3 s m Hm) as [|[c Hc]]; [by left|]. right. exists c. apply Hin; [by apply Hno|done].
    + intros s c x Hc. apply (C4 s c). apply Hin; [by apply Hno|done].
  - split; rewrite ?El; try done.
    + intros s c Hc. apply (A1 s c). destruct Hc; [left|right]; (apply Hin; [by apply Hno|done]).
    + intros x Hx. destruct (A4 x Hx) as [|[|[|(ev & Hev & Hxe)]]]; [by left|by right; left|by right; right; left|]. right; right; right. exists ev. split; [|done].
      apply Hin; [|done]. by destruct ev; [apply not_elem_of_nil in Hxe|intros []].
Qed.

Lemma good_idle all0 p h ws t ts : idle t -> (forall e, t = TEnqueue e -> entry_ok e) -> good all0 p h ws (t :: ts) <-> good all0 p h ws ts.
Proof.
  intros Ht He. pose proof (idle_task _ Ht) as [Hs _]. split; intros G; pose proof (gd_storing _ _ _ _ _ G) as Hst; revert G; apply good_tasks; try (cbn; by rewrite Hs); try (by rewrite lettered_idle).
  - intros u Hu. rewrite elem_of_cons. split; [by right|by intros [->|]].
  - intros e Hin. apply Hst. by right.
  - intros u Hu. rewrite elem_of_cons. split; [by intros [->|]|by right].
  - intros e [E|Hin]%elem_of_cons; [by apply He|by apply Hst].
Qed.

Lemma before_nodup (l : list queueEntry) : StronglySorted before l -> NoDup (map Seq l).
Proof.
  induction 1 as [|x l _ IH Hx]; [constructor|]. cbn. constructor; [|done]. intros (y & E & Hy)%list_elem_of_fmap.
  pose proof (proj1 (Forall_forall _ _) Hx y Hy) as H. unfold before in H. lia.
Qed.

(** *** The queue's answers *)

Lemma queue_do_same c p p' r : queue_do c p = (p', r) -> claimed p' = claimed p /\ pending p' = pending p /\ trace p' = trace p /\ p' = p <| queue := queue p' |>.
Proof. unfold queue_do. destruct (call c (queue p)). by intros [= <- <-]. Qed.

Lemma queue_do_law c p p' r h :
  queue_do c p = (p', r) -> queue_accepts c -> queue_at (queue p) h -> last_seq h < 2 ^ 63 - 1 ->
  (exists h', fst (spec_call c (Some h)) = Some h' /\ r = snd (spec_call c (Some h)) /\ queue_at (queue p') h')
  \/ (queue_at (queue p') h /\ (failed r = true \/ r = snd (spec_call c None)))
  \/ (c = QClose /\ queue_at (queue p') h).
Proof.
  unfold queue_do. destruct (call c (queue p)) as [q r'] eqn:E. intros [= <- <-] Hc [Hh|Hn] Hb.
  - pose proof (call_law c (queue p) _ Hc Hh ltac:(by intros ? [= <-])) as HL. rewrite E in HL. cbn [fst snd] in HL. destruct HL as [[H1 ->]|[H1 H2]].
    + destruct (fst (spec_call c (Some h))) as [h'|] eqn:Es; [left; exists h'; split_and!; try done; by left|]. right; right. split; [|by right].
      destruct c; try done. destruct (spec_call_open (QEnqueue m limit) h) as [h' E']; [done|]. congruence.
    + right; left. split; [by left|by left].
  - pose proof (call_law c (queue p) _ Hc Hn ltac:(done)) as HL. rewrite E in HL. cbn [fst snd] in HL. right; left.
    destruct HL as [[H1 H2]|[H1 H2]]; (split; [right|]); try (by left); try done; [|by right]. by rewrite (spec_call_closed c) in H1.
Qed.
Lemma ack_answers s p p' r h :
  queue_do (QAck s) p = (p', r) -> 0 <= s < 2 ^ 63 -> queue_at (queue p) h -> last_seq h < 2 ^ 63 - 1 ->
  (r = AAck None /\ queue_at (queue p') (mkHolding (last_seq h) (others s (items h)))) \/ (r <> AAck None /\ queue_at (queue p') h).
Proof.
  intros E Hs Hq Hb. destruct (queue_do_law _ _ _ _ h E (accepts_ack s Hs) Hq Hb) as [(h' & E1 & -> & H)|[[H1 H2]|[? _]]]; [|right|done].
  - left. split; [done|]. by injection E1 as <-.
  - split; [|done]. by destruct H2 as [H2| ->]; [intros ->|].
Qed.

Lemma peek_answers after n p p' r h :
  queue_do (QPeek after n) p = (p', r) -> 0 <= after < 2 ^ 63 -> queue_at (queue p) h -> last_seq h < 2 ^ 63 - 1 ->
  queue_at (queue p') h /\ (r = APeek (inl (ztake n (above after (items h)))) \/ forall es, r <> APeek (inl es)).
Proof.
  intros E Ha Hq Hb. destruct (queue_do_law _ _ _ _ h E (accepts_peek after n Ha) Hq Hb) as [(h' & E1 & -> & H)|[[H1 H2]|[? _]]]; [| |done].
  - injection E1 as <-. by split; [|left].
  - split; [done|]. right. intros es. by destruct H2 as [H2| ->]; [intros ->|].
Qed.

Lemma split_in_order h keep n :
  in_order h -> let ev := ztake n (above keep (items h)) in let rest := upto keep (items h) ++ zdrop n (above keep (items h)) in
  items h ≡ₚ ev ++ rest /\ sublist rest (items h) /\ Forall (fun x => keep < Seq x) ev.
Proof.
  intros [Hs _ _]. pose proof (before_split keep (items h) Hs) as E. cbn zeta. split_and!.
  - rewrite E at 1. rewrite <- (take_drop (Z.to_nat n) (above keep (items h))) at 1. unfold ztake, zdrop. rewrite !app_assoc. f_equiv. apply Permutation_app_comm.
  - rewrite E at 3. apply sublist_app; [done|]. apply sublist_drop.
  - apply Forall_forall. intros x Hx. apply (list_elem_of_filter (fun x => keep < Seq x) (items h) x). by eapply sublist_subseteq; [apply sublist_take|].
Qed.

Lemma in_order_add h rest e : in_order h -> sublist rest (items h) -> in_order (mkHolding (last_seq h + 1) (rest ++ [mkEntry (last_seq h + 1) e])).
Proof.
  intros [Hs Hr Hl] Hsub. assert (Hr' : Forall (fun x => 0 < Seq x <= last_seq h) rest).
  { apply Forall_forall. intros x Hx. apply (proj1 (Forall_forall _ _) Hr). by eapply sublist_subseteq. }
  split; cbn [items last_seq].
  - apply StronglySorted_app_2; [intros x y Hx ->%list_elem_of_singleton|by eapply StronglySorted_sublist|constructor; constructor].
    pose proof (proj1 (Forall_forall _ _) Hr' x Hx) as H. cbn in *. unfold before. cbn. lia.
  - apply Forall_app. split; [eapply Forall_impl; [exact Hr'|]; cbn; intros; lia|]. constructor; [|constructor]. cbn. lia.
  - lia.
Qed.
Lemma enqueue_answers e limit p p' r h :
  queue_do (QEnqueue e limit) p = (p', r) -> entry_ok e -> 0 <= Queue.Keep limit < 2 ^ 63 -> queue_at (queue p) h -> in_order h -> last_seq h < 2 ^ 63 - 1 ->
  (exists ev rest, r = AEnqueue (inl (last_seq h + 1, ev)) /\ items h ≡ₚ ev ++ rest /\ sublist rest (items h) /\ Forall (fun x => Queue.Keep limit < Seq x) ev
     /\ queue_at (queue p') (mkHolding (last_seq h + 1) (rest ++ [mkEntry (last_seq h + 1) e])))
  \/ ((forall x, r <> AEnqueue (inl x)) /\ queue_at (queue p') h).
Proof.
  intros E He Hk Hq Ho Hb. destruct (queue_do_law _ _ _ _ h E (accepts_enqueue e limit He Hk) Hq Hb) as [(h' & E1 & -> & H)|[[H1 H2]|[? _]]]; [|right|done].
  2: { split; [|done]. intros x. by destruct H2 as [H2| ->]; [intros ->|]. }
  cbn in E1 |- *. destruct (_ && _).
  - destruct (decide (Policy limit = DropOldest)); [|right; split; [done|]; by injection E1 as <-]. destruct (_ <=? _); [|right; split; [done|]; by injection E1 as <-].
    left. injection E1 as <-. eexists _, _. split; [done|]. destruct (split_in_order h (Queue.Keep limit) (len (items h) - Max limit + 1) Ho) as (P1 & P2 & P3). by split_and!.
  - left. injection E1 as <-. exists [], (items h). by split_and!.
Qed.

(** *** Steps of the threads *)

Lemma elem_of_lettered s tr ts : s ∈ lettered tr ts <-> (exists e r, Letter e r ∈ tr /\ Seq e = s) \/ exists ev x, TEvicted ev ∈ ts /\ x ∈ ev /\ Seq x = s.
Proof.
  unfold lettered. rewrite elem_of_app, list_elem_of_omap, list_elem_of_In, in_concat. split.
  - intros [(o & Ho & E)|(l & Hl & Hs)]; [left; destruct o; try done; injection E as <-; by eexists _, _|]. right.
    apply in_map_iff in Hl as (t & <- & Ht). destruct t; try done. cbn in Hs. apply in_map_iff in Hs as (x & <- & Hx). eexists ev, x. by rewrite !list_elem_of_In.
  - intros [(e & r & Ho & <-)|(ev & x & Ht & Hx & <-)]; [left; by eexists|]. right. exists (map Seq ev). split; [apply in_map_iff; exists (TEvicted ev); by rewrite <- list_elem_of_In|].
    apply in_map. by apply list_elem_of_In.
Qed.

Lemma lettered_observe o tr ts : letter_seq o = None -> lettered (tr ++ [o]) ts = lettered tr ts.
Proof. intros E. unfold lettered. rewrite omap_app. cbn. by rewrite E, app_nil_r. Qed.

Lemma good_enqueue all0 p h ws ts e now :
  last_seq h < 2 ^ 63 - 1 -> good all0 p h ws (TEnqueue e :: ts) ->
  exists h', last_seq h' <= last_seq h + 1 /\ let (p', us) := run_task cfg (TEnqueue e) now p in good all0 p' h' ws (us ++ ts) /\ ((items h' ⊆ items h /\ last_seq h' = last_seq h) \/ (existsb will_signal us = true /\ exists e', TEnqueue e = TEnqueue e')).
Proof.
  intros Hb G. assert (He : entry_ok e) by (apply (gd_storing _ _ _ _ _ G); left).
  assert (Hts : good all0 p h ws ts) by (revert G; apply good_idle; [done|by intros ? [= ->]]). clear G. pose proof Hts as [Hq Ho Hs Hw [C1 C2 C3 C4 C5] [A1 A2 A3 A4 A5 A6 A7]].
  cbn [run_task]. destruct (queue_do _ p) as [p' r] eqn:E. destruct (queue_do_same _ _ _ _ E) as (E1 & E2 & E3 & _).
  destruct (enqueue_answers _ _ _ _ _ h E He) as [(ev & rest & -> & P1 & P2 & P3 & Hq')|[Hr Hq']]; try done; [cbn; lia| |].
  2: { exists h. split; [lia|]. assert (Hg : good all0 p' h ws ts) by (by apply (good_same _ p)). destruct r as [[[]|]| | | |]; try (split; [exact Hg|by left]). by destruct (Hr (z, l)). }
  set (x0 := mkEntry (last_seq h + 1) e) in *. set (h' := mkHolding (last_seq h + 1) (rest ++ [x0])) in *.
  assert (Hin : forall x, x ∈ items h <-> x ∈ ev \/ x ∈ rest) by (intros x; by rewrite P1, elem_of_app).
  assert (Hin' : forall x, x ∈ items h' <-> x ∈ rest \/ x = x0) by (intros x; unfold h'; cbn [items]; by rewrite elem_of_app, list_elem_of_singleton).
  assert (Hev : forall x, x ∈ ev -> claimed p < Seq x) by (intros x Hx; exact (proj1 (Forall_forall _ _) P3 x Hx)).
  assert (Hle : forall x, x ∈ items h -> Seq x <= last_seq h) by (intros x Hx; pose proof (proj1 (Forall_forall _ _) (io_range _ Ho) x Hx) as H; cbn in H; lia).
  assert (Hnd : NoDup (map Seq ev ++ map Seq rest)) by (rewrite <- map_app, <- P1; apply before_nodup, Ho).
  exists h'. split; [cbn; lia|]. split; [|right; split; [done|by exists e]]. split; cbn [app]; change (pending (observe _ p')) with (pending p'); change (claimed (observe _ p')) with (claimed p'); try change (trace (observe ?o p')) with (trace p' ++ [o]); rewrite ?E1, ?E2, ?E3.
  - exact Hq'.
  - by apply in_order_add.
  - intros e' [|Hi]%elem_of_cons; [done|by apply Hs].
  - destruct Hw as [N F]. by split.
  - split; [unfold h'; cbn [last_seq]; lia|done| | |].
    + intros s m Hm. destruct (C3 s m Hm) as [Hi|[c Hc]]; [left|right; exists c; by right]. apply Hin'. left. apply Hin in Hi as [Hi|Hi]; [|done].
      specialize (Hev _ Hi). destruct (C2 s m Hm). lia.
    + intros s c x [|Hc]%elem_of_cons Hx; [done|]. apply Hin' in Hx as [Hx| ->]; [apply (C4 s c); [done|apply Hin; by right]|]. cbn.
      destruct (A1 s c (or_intror Hc)) as (m & Hm & _). destruct (C2 s m Hm). lia.
    + intros x Hx Hc. apply Hin' in Hx as [Hx| ->]; [apply C5; [apply Hin; by right|done]|]. cbn in Hc. lia.
  - assert (El : lettered (trace p ++ [Stored x0]) (TEvicted ev :: ts) ≡ₚ map Seq ev ++ lettered (trace p) ts).
    { rewrite lettered_observe by done. unfold lettered. cbn. by rewrite !app_assoc, (Permutation_app_comm (map Seq ev)). }
    split.
    + intros s c Hc. apply (A1 s c). rewrite !elem_of_cons in Hc. by destruct Hc as [[|]|[|]]; [|left| |right].
    + intros s m Hm Ha. apply elem_of_app. left. by apply (A2 s m).
    + intros s m Hm. specialize (A3 s m Hm). destruct (deadLettered m); [destruct A3 as [r Hr]; exists r; apply elem_of_app; by left|]. rewrite El, elem_of_app. intros [(x & -> & Hx)%list_elem_of_fmap|]; [|done].
      specialize (Hev x Hx). destruct (C2 _ m Hm). lia.
    + intros x Hx. assert (Hx' : x = x0 \/ (x ∈ all0 \/ Stored x ∈ trace p)).
      { destruct Hx as [|[|[= ->]%list_elem_of_singleton]%elem_of_app]; tauto. }
      destruct Hx' as [->|Hx']; [left; apply Hin'; by right|]. destruct (A4 x Hx') as [Hi|[Ha|[[r Hr]|(ev' & Ht & Hxe)]]].
      * apply Hin in Hi as [Hi|Hi]; [right; right; right; exists ev; split; [left|done]|left; apply Hin'; by left].
      * right; left. apply elem_of_app. by left.
      * right; right; left. exists r. apply elem_of_app. by left.
      * right; right; right. exists ev'. split; [by right|done].
    + rewrite El. apply NoDup_app. split_and!; [by apply NoDup_app in Hnd as [? _]| |done]. intros s (x & -> & Hx)%list_elem_of_fmap. apply A7; [apply Hin; by left|by apply Hev].
    + intros s. rewrite El, elem_of_app. unfold h'; cbn [last_seq]. intros [(x & -> & Hx)%list_elem_of_fmap|Hl]; [specialize (Hle x ltac:(apply Hin; by left)); lia|specialize (A6 s Hl); lia].
    + intros x Hx Hc. rewrite El, elem_of_app. apply Hin' in Hx as [Hx| ->].
      * intros [Hi|Hi]; [|by apply (A7 x); [apply Hin; by right|..]]. apply NoDup_app in Hnd as (_ & Hd & _). apply (Hd _ Hi). by apply list_elem_of_fmap_2.
      * cbn. intros [(y & Ey & Hy)%list_elem_of_fmap|Hl]; [specialize (Hle y ltac:(apply Hin; by left)); lia|specialize (A6 _ Hl); lia].
Qed.
(** Messages that differ in when they are tried, not in what became of them. *)
Definition same_message (m m' : queuedMessage) : Prop := entry m' = entry m /\ accepted m' = accepted m /\ deadLettered m' = deadLettered m.

Definition similar (pd pd' : gmap Z queuedMessage) : Prop := forall s, option_Forall2 same_message (pd !! s) (pd' !! s).

Lemma similar_alter f s pd : (forall m, same_message m (f m)) -> similar pd (alter f s pd).
Proof.
  intros Hf k. destruct (decide (k = s)) as [->|Hk]; [rewrite lookup_alter_eq|rewrite lookup_alter_ne by done]; destruct (pd !! _); by constructor.
Qed.

Lemma similar_back pd pd' s m' : similar pd pd' -> pd' !! s = Some m' -> exists m, pd !! s = Some m /\ same_message m m'.
Proof. intros Hs E. specialize (Hs s). rewrite E in Hs. inversion Hs as [m x Hm E1 E2|]; subst. eauto. Qed.

Lemma similar_forth pd pd' s m : similar pd pd' -> pd !! s = Some m -> exists m', pd' !! s = Some m' /\ same_message m m'.
Proof. intros Hs E. specialize (Hs s). rewrite E in Hs. inversion Hs as [x m' Hm E1 E2|]; subst. eauto. Qed.

Lemma tracked_similar cl pd pd' ts h : similar pd pd' -> tracked cl pd ts h -> tracked cl pd' ts h.
Proof.
  intros Hs [C1 C2 C3 C4 C5]. split; [done| | |done|].
  - intros s m' Hm. destruct (similar_back _ _ _ _ Hs Hm) as (m & E & -> & _). by apply C2.
  - intros s m' Hm. destruct (similar_back _ _ _ _ Hs Hm) as (m & E & -> & _). by apply C3.
  - intros x Hx Hc. destruct (C5 x Hx Hc) as (m & E & <-). destruct (similar_forth _ _ _ _ Hs E) as (m' & E' & Ee & _). by exists m'.
Qed.

Lemma accounted_similar all0 cl pd pd' tr ts h : similar pd pd' -> accounted all0 cl pd tr ts h -> accounted all0 cl pd' tr ts h.
Proof.
  intros Hs [A1 A2 A3 A4 A5 A6 A7]. split; try done.
  - intros s c Hc. destruct (A1 s c Hc) as (m & E & Hm). destruct (similar_forth _ _ _ _ Hs E) as (m' & E' & _ & Ha & Hd). exists m'. by rewrite Ha, Hd.
  - intros s m' Hm Hacc. destruct (similar_back _ _ _ _ Hs Hm) as (m & E & _ & Ha & _). apply (A2 s m); congruence.
  - intros s m' Hm. destruct (similar_back _ _ _ _ Hs Hm) as (m & E & -> & _ & ->). by apply A3.
Qed.

(** Another observation about a message that is not a letter. *)
Lemma accounted_observe all0 cl pd tr ts h o :
  letter_seq o = None -> (forall x, o <> Stored x) -> accounted all0 cl pd tr ts h -> accounted all0 cl pd (tr ++ [o]) ts h.
Proof.
  intros Ho Hst [A1 A2 A3 A4 A5 A6 A7]. split; rewrite ?lettered_observe by done; try done.
  - intros s m Hm Ha. apply elem_of_app. left. by apply (A2 s m).
  - intros s m Hm. specialize (A3 s m Hm). destruct (deadLettered m); [destruct A3 as [r Hr]; exists r; apply elem_of_app; by left|done].
  - intros x Hx. assert (Hx' : x ∈ all0 \/ Stored x ∈ tr) by (destruct Hx as [|[|E%list_elem_of_singleton]%elem_of_app]; [tauto|tauto|by destruct (Hst x)]).
    destruct (A4 x Hx') as [|[|[[r Hr]|]]]; [by left|right; left; apply elem_of_app; by left|right; right; left; exists r; apply elem_of_app; by left|by right; right; right].
Qed.

Lemma good_letter all0 p h ws ts e ev :
  good all0 p h ws (TEvicted (e :: ev) :: ts) -> good all0 (observe (Letter e (CSentinel ClientErrors.ErrQueueFull)) p) h ws (TEvicted ev :: ts).
Proof.
  intros [Hq Ho Hs [N F] [C1 C2 C3 C4 C5] [A1 A2 A3 A4 A5 A6 A7]].
  assert (El : lettered (trace p ++ [Letter e (CSentinel ClientErrors.ErrQueueFull)]) (TEvicted ev :: ts) = lettered (trace p) (TEvicted (e :: ev) :: ts)).
  { unfold lettered. rewrite omap_app. cbn. by rewrite <- app_assoc. }
  assert (Hin : forall u, task_seq u <> None -> u ∈ TEvicted ev :: ts <-> u ∈ TEvicted (e :: ev) :: ts) by (intros u Hu; rewrite !elem_of_cons; split; (intros [->|]; [done|by right])).
  split; [done|done| | | |].
  - intros e' [|Hi]%elem_of_cons; [done|]. apply Hs. by right.
  - by split.
  - split; [done|done| | |done].
    + intros s m Hm. destruct (C3 s m Hm) as [|[c Hc]]; [by left|]. right. exists c. by apply Hin.
    + intros s c x Hc. apply (C4 s c). by apply Hin.
  - change (trace (observe ?o p)) with (trace p ++ [o]). change (pending (observe _ p)) with (pending p). change (claimed (observe _ p)) with (claimed p).
    split; rewrite ?El; try done.
    + intros s c Hc. apply (A1 s c). destruct Hc; [left|right]; by apply Hin.
    + intros s m Hm Ha. apply elem_of_app. left. by apply (A2 s m).
    + intros s m Hm. specialize (A3 s m Hm). destruct (deadLettered m); [destruct A3 as [r Hr]; exists r; apply elem_of_app; by left|done].
    + intros x Hx. assert (Hx' : x ∈ all0 \/ Stored x ∈ trace p) by (destruct Hx as [|[|[=]%list_elem_of_singleton]%elem_of_app]; tauto).
      destruct (A4 x Hx') as [|[|[[r Hr]|(ev' & [[= ->]|Ht]%elem_of_cons & Hxe)]]]; [by left|right; left; apply elem_of_app; by left|right; right; left; exists r; apply elem_of_app; by left|..].
      * apply elem_of_cons in Hxe as [->|Hxe]; [right; right; left; eexists; apply elem_of_app; right; by apply list_elem_of_singleton|].
        right; right; right. exists ev. split; [left|done].
      * right; right; right. exists ev'. split; [by right|done].
Qed.
(** A message in a thread's hands. *)
Lemma task_pending all0 p h ws ts t s : good all0 p h ws (t :: ts) -> task_seq t = Some s -> exists m, pending p !! s = Some m /\ inFlight m = true /\ 0 < s <= claimed p.
Proof.
  intros G E. destruct (proj1 (ow_flight _ _ _ (gd_owned _ _ _ _ _ G) s)) as (m & Hm & Hf); [cbn; rewrite E; apply elem_of_app; right; left|].
  exists m. split_and!; try done; apply (tk_key _ _ _ _ (gd_tracked _ _ _ _ _ G) s m Hm).
Qed.

(** Another task for the same message. *)
Lemma good_hand_over all0 p h ws ts t t' s :
  task_seq t = Some s -> task_seq t' = Some s -> (forall c, t <> TDelete s c) -> (forall c, t' <> TDelete s c) -> (forall c, t' <> TRemove s c) ->
  good all0 p h ws (t :: ts) -> good all0 p h ws (t' :: ts).
Proof.
  intros Et Et' Hd Hd' Hr' [Hq Ho Hs [N F] [C1 C2 C3 C4 C5] [A1 A2 A3 A4 A5 A6 A7]].
  assert (El : lettered (trace p) (t' :: ts) = lettered (trace p) (t :: ts)) by (unfold lettered; by destruct t, t').
  assert (Hdel : forall s' c, TDelete s' c ∈ t' :: ts <-> TDelete s' c ∈ t :: ts).
  { intros s' c. rewrite !elem_of_cons. split; (intros [E|]; [|by right]); subst; cbn in *; simplify_eq; (by destruct (Hd c)) || (by destruct (Hd' c)). }
  split; [done|done| | | |].
  - intros e [<-|Hi]%elem_of_cons; [done|]. apply Hs. by right.
  - cbn in N, F. rewrite Et in N, F. split; cbn; by rewrite Et'.
  - split; [done|done| | |done].
    + intros s' m Hm. destruct (C3 s' m Hm) as [|[c Hc]]; [by left|]. right. exists c. by apply Hdel.
    + intros s' c x Hc. apply (C4 s' c). by apply Hdel.
  - split; rewrite ?El; try done.
    + intros s' c [[E|Hc]%elem_of_cons|Hc]; [subst; cbn in *; simplify_eq; by destruct (Hr' c)|apply (A1 s' c); left; by right|apply (A1 s' c); right; by apply Hdel].
    + intros x Hx. destruct (A4 x Hx) as [|[|[|(ev & Hev & Hxe)]]]; [by left|by right; left|by right; right; left|]. right; right; right. exists ev. split; [|done].
      apply elem_of_cons in Hev as [<-|]; [done|by right].
Qed.

Lemma good_remove all0 p h ws ts s c now :
  last_seq h < 2 ^ 63 - 1 -> good all0 p h ws (TRemove s c :: ts) ->
  exists h', last_seq h' <= last_seq h + 1 /\ let (p', us) := run_task cfg (TRemove s c) now p in good all0 p' h' ws (us ++ ts) /\ ((items h' ⊆ items h /\ last_seq h' = last_seq h) \/ (existsb will_signal us = true /\ exists e', TRemove s c = TEnqueue e')).
Proof.
  intros Hb G. destruct (task_pending _ _ _ _ _ _ _ G eq_refl) as (m & Hm & Hf & Hs). pose proof G as [Hq Ho Hst [N F] [C1 C2 C3 C4 C5] [A1 A2 A3 A4 A5 A6 A7]].
  cbn [run_task]. destruct (queue_do _ p) as [p' r] eqn:E. destruct (queue_do_same _ _ _ _ E) as (E1 & E2 & E3 & _).
  destruct (ack_answers _ _ _ _ h E) as [[-> Hq']|[Hr Hq']]; try done; [lia| |].
  2: { exists h. split; [lia|]. assert (Hg : good all0 p' h ws (TRemove s c :: ts)) by (by apply (good_same _ p)).
       assert (Hg' : forall a b, good all0 p' h ws (TRetry s a b :: ts)) by (intros a b; by apply (good_hand_over _ _ _ _ _ (TRemove s c) _ s)). destruct r as [| |[|]| |]; try (split; [apply Hg'|by left]). done. }
  set (h' := mkHolding (last_seq h) (others s (items h))) in *. assert (Hin : forall x, x ∈ items h' <-> Seq x <> s /\ x ∈ items h) by (intros x; unfold h'; cbn [items]; apply (list_elem_of_filter (fun y : queueEntry => Seq y <> s))).
  assert (El : lettered (trace p) (TDelete s c :: ts) = lettered (trace p) (TRemove s c :: ts)) by done. destruct (A1 s c) as (m0 & Hm0 & Hfin); [left; left|]. assert (m0 = m) as -> by congruence.
  exists h'. split; [cbn; lia|]. cbn [app]. split; [|left; split; [intros x Hx; by apply Hin in Hx as [_ ?]|done]]. split; rewrite ?E1, ?E2, ?E3.
  - done.
  - destruct Ho as [O1 O2 O3]. split; [by apply StronglySorted_filter| |done]. apply Forall_forall. intros x [_ Hx]%list_elem_of_filter. by apply (proj1 (Forall_forall _ _) O2).
  - intros e [|Hi]%elem_of_cons; [done|]. apply Hst. by right.
  - by split.
  - split; [done|done| | |].
    + intros s' m' Hm'. destruct (decide (s' = s)) as [->|Hne]; [right; exists c; left|]. destruct (C3 s' m' Hm') as [Hi|[c' [|Hc]%elem_of_cons]]; [left|done|right; exists c'; by right].
      apply Hin. split; [|done]. by destruct (C2 s' m' Hm') as [-> _].
    + intros s' c' x [[= -> ->]|Hc]%elem_of_cons Hx; apply Hin in Hx as [Hx1 Hx2]; [done|]. apply (C4 s' c'); [by right|done].
    + intros x Hx Hc. apply Hin in Hx as [_ Hx]. by apply C5.
  - split; rewrite ?El; try done.
    + intros s' c' [[|Hc]%elem_of_cons|[[= -> ->]|Hc]%elem_of_cons]; [done|apply (A1 s' c'); left; by right|eauto|apply (A1 s' c'); right; by right].
    + intros x Hx. destruct (A4 x Hx) as [Hi|[|[|(ev & [|Hev]%elem_of_cons & Hxe)]]]; [|by right; left|by right; right; left|done|right; right; right; exists ev; split; [by right|done]].
      destruct (decide (Seq x = s)) as [Ex|]; [|left; by apply Hin]. destruct (C5 x Hi) as (m1 & Hm1 & <-); [lia|]. assert (m1 = m) as -> by congruence.
      destruct Hfin as [Ha|Hd]; [right; left; rewrite Ex; by apply (A2 s m)|]. right; right; left. specialize (A3 s m Hm). by rewrite Hd in A3.
    + intros x [_ Hx]%Hin. by apply A7.
Qed.
(** The message leaves its owner: it is in flight no more, or gone. *)
Lemma owned_release (pd pd' : gmap Z queuedMessage) ws ws' ts ts' s :
  owned pd ws ts -> ws ++ omap task_seq ts ≡ₚ s :: ws' ++ omap task_seq ts' ->
  (forall k, k <> s -> pd' !! k = pd !! k) -> (forall m, pd' !! s = Some m -> inFlight m = false) -> owned pd' ws' ts'.
Proof.
  intros [N F] E Hk Hs. rewrite E in N. inversion_clear N as [|? ? Hn N']. split; [done|]. intros k. split.
  - intros Hi. assert (Hks : k <> s) by (by intros ->). rewrite Hk by done. apply F. rewrite E. by right.
  - intros (m & Hm & Hf). destruct (decide (k = s)) as [->|Hks]; [rewrite (Hs m Hm) in Hf; done|]. rewrite Hk in Hm by done.
    assert (Hi : k ∈ ws ++ omap task_seq ts) by (apply F; eauto). rewrite E in Hi. by apply elem_of_cons in Hi as [|].
Qed.

(** The owner changes, the messages in flight do not. *)
Lemma owned_pass (pd pd' : gmap Z queuedMessage) ws ws' ts ts' :
  owned pd ws ts -> ws ++ omap task_seq ts ≡ₚ ws' ++ omap task_seq ts' ->
  (forall k, inFlight <$> pd' !! k = inFlight <$> pd !! k) -> owned pd' ws' ts'.
Proof.
  intros [N F] E Hk. split; [by rewrite <- E|]. intros k. rewrite <- E, (F k). specialize (Hk k).
  split; intros (m & Hm & Hf); rewrite Hm in Hk; [destruct (pd' !! k) as [m'|]|destruct (pd !! k) as [m'|]]; try done; exists m'; (split; [done|]); injection Hk as Hk; congruence.
Qed.

Lemma flight_alter f s (pd : gmap Z queuedMessage) k : (forall m, inFlight (f m) = inFlight m) -> inFlight <$> alter f s pd !! k = inFlight <$> pd !! k.
Proof.
  intros Hf. destruct (decide (k = s)) as [->|Hk]; [rewrite lookup_alter_eq|by rewrite lookup_alter_ne]. destruct (pd !! s); cbn; [by rewrite Hf|done].
Qed.

Lemma good_delete all0 p h ws ts s c : good all0 p h ws (TDelete s c :: ts) -> good all0 (p <| pending ::= delete s |>) h ws ts.
Proof.
  intros [Hq Ho Hst Hw [C1 C2 C3 C4 C5] [A1 A2 A3 A4 A5 A6 A7]].
  assert (El : lettered (trace p) (TDelete s c :: ts) = lettered (trace p) ts) by done. rewrite El in *.
  assert (Hn : forall s' c', TRemove s' c' ∈ ts \/ TDelete s' c' ∈ ts -> s' <> s).
  { intros s' c' Hi ->. pose proof (ow_nodup _ _ _ Hw) as N. cbn in N. apply NoDup_app in N as (_ & _ & N). inversion_clear N as [|? ? N' _]. apply N'.
    apply list_elem_of_omap. destruct Hi as [Hi|Hi]; by eexists. }
  split; cbn; [done|done| | | |].
  - intros e Hi. apply Hst. by right.
  - apply (owned_release (pending p) _ ws ws (TDelete s c :: ts) ts s Hw); [cbn; by rewrite Permutation_middle|intros k Hk; by rewrite lookup_delete_ne|by rewrite lookup_delete_eq].
  - split; [done| | | |].
    + intros s' m [_ Hm]%lookup_delete_Some. by apply C2.
    + intros s' m [Hne Hm]%lookup_delete_Some. destruct (C3 s' m Hm) as [|[c' [[= -> ->]|Hc]%elem_of_cons]]; [by left|done|right; eauto].
    + intros s' c' x Hc. apply (C4 s' c'). by right.
    + intros x Hx Hc. rewrite lookup_delete_ne; [by apply C5|]. intros E. by apply (C4 s c x); [left|..].
  - split; try done.
    + intros s' c' Hc. rewrite lookup_delete_ne by (apply not_eq_sym; by apply (Hn s' c')). apply (A1 s' c'). destruct Hc; [left|right]; by right.
    + intros s' m [_ Hm]%lookup_delete_Some. by apply A2.
    + intros s' m [_ Hm]%lookup_delete_Some. by apply A3.
    + intros x Hx. destruct (A4 x Hx) as [Hi|[|[|(ev & [|Hev]%elem_of_cons & Hxe)]]]; [by left|by right; left|by right; right; left|done|right; right; right; eauto].
Qed.

Lemma good_retry all0 p h ws ts s a r :
  good all0 p h ws (TRetry s a r :: ts) -> good all0 (modify s (fun m => m <| inFlight := false |> <| retryAt := a |>) p) h ws ts.
Proof.
  intros [Hq Ho Hst Hw Hc Ha]. set (f := fun m => m <| inFlight := false |> <| retryAt := a |>). assert (Hsim : similar (pending p) (alter f s (pending p))) by (by apply similar_alter).
  assert (Hsub : forall u, u ∈ ts -> u ∈ TRetry s a r :: ts) by (intros u Hu; by right).
  assert (Hback : forall u, (forall a r, u <> TRetry s a r) -> u ∈ TRetry s a r :: ts -> u ∈ ts) by (intros u Hu [->|]%elem_of_cons; [by destruct (Hu a r)|done]).
  split; [done|done|by intros e Hi; apply Hst, Hsub| | |].
  - apply (owned_release (pending p) _ ws ws (TRetry s a r :: ts) ts s Hw); [cbn; by rewrite Permutation_middle|intros k Hk; cbn; by rewrite lookup_alter_ne|].
    intros m. cbn. rewrite lookup_alter_eq. by destruct (pending p !! s); intros [= <-].
  - apply (tracked_similar _ (pending p)); [done|]. destruct Hc as [C1 C2 C3 C4 C5]. split; [done|done| | |done].
    + intros s' m Hm. destruct (C3 s' m Hm) as [|[c Hi]]; [by left|]. right. exists c. by apply Hback.
    + intros s' c x Hi. apply (C4 s' c). by apply Hsub.
  - apply (accounted_similar _ _ (pending p)); [done|]. destruct Ha as [A1 A2 A3 A4 A5 A6 A7]. split; try done.
    + intros s' c Hi. apply (A1 s' c). destruct Hi; [left|right]; by apply Hsub.
    + intros x Hx. destruct (A4 x Hx) as [|[|[|(ev & Hev & Hxe)]]]; [by left|by right; left|by right; right; left|]. right; right; right. exists ev. split; [by apply Hback|done].
Qed.
Lemma good_observe all0 p h ws ts o : letter_seq o = None -> (forall x, o <> Stored x) -> good all0 p h ws ts -> good all0 (observe o p) h ws ts.
Proof. intros E Hst [H1 H2 H3 H4 H5 H6]. split; try done. by apply accounted_observe. Qed.

Lemma waiting_pending all0 p h ws ts s : good all0 p h (s :: ws) ts -> exists m, pending p !! s = Some m /\ inFlight m = true /\ Seq (entry m) = s /\ 0 < s <= claimed p.
Proof.
  intros G. destruct (proj1 (ow_flight _ _ _ (gd_owned _ _ _ _ _ G) s)) as (m & Hm & Hf); [left|]. exists m. split; [done|]. split; [done|]. by apply (tk_key _ _ _ _ (gd_tracked _ _ _ _ _ G) s m).
Qed.

(** A message in the drain's or the session's hands goes to a thread. *)
Lemma good_pick_up all0 p h ws ts s t :
  task_seq t = Some s -> (forall c, t <> TDelete s c) -> (forall c, t = TRemove s c -> exists m, pending p !! s = Some m /\ (accepted m = true \/ deadLettered m = true)) ->
  good all0 p h (s :: ws) ts -> good all0 p h ws (t :: ts).
Proof.
  intros Et Hd Hr [Hq Ho Hs Hw [C1 C2 C3 C4 C5] [A1 A2 A3 A4 A5 A6 A7]].
  assert (El : lettered (trace p) (t :: ts) = lettered (trace p) ts) by (unfold lettered; by destruct t).
  assert (Hdel : forall s' c, TDelete s' c ∈ t :: ts -> TDelete s' c ∈ ts).
  { intros s' c [E|]%elem_of_cons; [|done]. subst; cbn in *; simplify_eq. by destruct (Hd c). }
  split; [done|done| | | |].
  - intros e [<-|Hi]%elem_of_cons; [done|]. by apply Hs.
  - apply (owned_pass (pending p) _ (s :: ws) ws ts (t :: ts) Hw); [|done]. cbn. rewrite Et. by rewrite <- Permutation_middle.
  - split; [done|done| | |done].
    + intros s' m Hm. destruct (C3 s' m Hm) as [|[c Hc]]; [by left|]. right. exists c. by right.
    + intros s' c x Hc. apply (C4 s' c). by apply Hdel.
  - split; rewrite ?El; try done.
    + intros s' c [[E|Hc]%elem_of_cons|Hc]; [|apply (A1 s' c); by left|apply (A1 s' c); right; by apply Hdel]. subst; cbn in *; simplify_eq. by apply (Hr c).
    + intros x Hx. destruct (A4 x Hx) as [|[|[|(ev & Hev & Hxe)]]]; [by left|by right; left|by right; right; left|]. right; right; right. exists ev. split; [by right|done].
Qed.

Lemma good_similar all0 p h ws ts f s : (forall m, same_message m (f m) /\ inFlight (f m) = inFlight m) -> good all0 p h ws ts -> good all0 (modify s f p) h ws ts.
Proof.
  intros Hf [H1 H2 H3 H4 H5 H6]. assert (similar (pending p) (alter f s (pending p))) by (apply similar_alter; intros m; apply Hf).
  split; [done|done|done| |by apply (tracked_similar _ (pending p))|by apply (accounted_similar _ _ (pending p))].
  apply (owned_pass (pending p) _ ws ws ts ts H4); [done|]. intros k. apply flight_alter. intros m. apply Hf.
Qed.

(** The parts of the invariant that a message's flags do not touch. *)
Lemma good_flags all0 p h ws ts f s m tr :
  pending p !! s = Some m -> entry (f m) = entry m -> inFlight (f m) = inFlight m ->
  accounted all0 (claimed p) (<[s := f m]> (pending p)) tr ts h ->
  good all0 p h ws ts -> good all0 ((modify s f p) <| trace := tr |>) h ws ts.
Proof.
  intros Hm He Hf Ha [H1 H2 H3 H4 [C1 C2 C3 C4 C5] _].
  assert (Ep : pending ((modify s f p) <| trace := tr |>) = <[s := f m]> (pending p)).
  { apply map_eq. intros k. cbn. destruct (decide (k = s)) as [->|]; [by rewrite lookup_alter_eq, lookup_insert_eq, Hm|by rewrite lookup_alter_ne, lookup_insert_ne]. }
  assert (Hb : forall k m', <[s := f m]> (pending p) !! k = Some m' -> exists m0, pending p !! k = Some m0 /\ entry m' = entry m0).
  { intros k m' [[<- <-]|[_ Hk]]%lookup_insert_Some; eauto. }
  split; [done|done|done| | |by rewrite Ep]; rewrite Ep.
  - apply (owned_pass (pending p) _ ws ws ts ts H4); [done|]. intros k. destruct (decide (k = s)) as [->|]; [by rewrite lookup_insert_eq, Hm; cbn; rewrite Hf|by rewrite lookup_insert_ne].
  - split; [done| | |done|].
    + intros k m' (m0 & Hk & ->)%Hb. by apply C2.
    + intros k m' (m0 & Hk & ->)%Hb. by apply C3.
    + intros x Hx Hc. destruct (C5 x Hx Hc) as (m0 & Hk & Ex). destruct (decide (Seq x = s)) as [Es|]; [|exists m0; by rewrite lookup_insert_ne].
      exists (f m). rewrite Es in Hk |- *. rewrite lookup_insert_eq. split; [done|]. assert (m0 = m) as -> by congruence. by rewrite He.
Qed.

(** The broker accepted the message. *)
Lemma good_accept all0 p h ws ts s m :
  pending p !! s = Some m -> good all0 p h ws ts ->
  good all0 (let p' := modify s (fun m => m <| accepted := true |>) p in if accepted m then p' else observe (Accepted s) p') h ws ts.
Proof.
  intros Hm G. set (tr := if accepted m then trace p else trace p ++ [Accepted s]).
  assert (Htr : Accepted s ∈ tr /\ accounted all0 (claimed p) (pending p) tr ts h).
  { pose proof (gd_accounted _ _ _ _ _ G) as Ha. unfold tr. destruct (accepted m) eqn:E; [split; [by apply (ac_accepted _ _ _ _ _ _ Ha s m)|done]|].
    split; [apply elem_of_app; right; by apply list_elem_of_singleton|by apply accounted_observe]. }
  destruct Htr as [Hin [A1 A2 A3 A4 A5 A6 A7]].
  assert (Gt : good all0 ((modify s (fun m => m <| accepted := true |>) p) <| trace := tr |>) h ws ts).
  { apply (good_flags _ _ _ _ _ _ _ m); try done. split; try done.
    - intros k c Hc. destruct (A1 k c Hc) as (m0 & Hk & Hf). destruct (decide (k = s)) as [->|]; [|exists m0; by rewrite lookup_insert_ne]. eexists. rewrite lookup_insert_eq. split; [done|]. by left.
    - intros k m' [[<- <-]|[_ Hk]]%lookup_insert_Some Hacc; [done|]. by apply (A2 k m').
    - intros k m' [[<- <-]|[_ Hk]]%lookup_insert_Some; [by apply (A3 s m)|]. by apply A3. }
  unfold tr in Gt. destruct (accepted m); [|exact Gt]. by apply (good_same _ _ _ _ _ _ (gd_queue _ _ _ _ _ Gt)) in Gt.
Qed.

(** The message is dead-lettered, once. *)
Lemma good_drop all0 p h ws ts s reason callback :
  good all0 p h (s :: ws) ts -> let (p', us) := drop_message s reason callback p in good all0 p' h ws (us ++ ts).
Proof.
  intros G. destruct (waiting_pending _ _ _ _ _ _ G) as (m & Hm & _ & Hse & Hs). unfold drop_message. rewrite Hm. cbn [app].
  set (f := fun m => m <| deadLettered := true |>). set (tr := if deadLettered m then trace p else trace p ++ [Letter (entry m) reason]).
  pose proof (gd_accounted _ _ _ _ _ G) as [A1 A2 A3 A4 A5 A6 A7]. pose proof (A3 s m Hm) as Hl. pose proof (gd_tracked _ _ _ _ _ G) as [C1 _ _ _ _].
  assert (Hsub : forall o, o ∈ trace p -> o ∈ tr) by (intros o Ho; unfold tr; destruct (deadLettered m); [done|apply elem_of_app; by left]).
  assert (Hlet : exists r, Letter (entry m) r ∈ tr) by (unfold tr; destruct (deadLettered m); [done|exists reason; apply elem_of_app; right; by apply list_elem_of_singleton]).
  assert (El : forall k, k ∈ lettered tr ts <-> k = s \/ k ∈ lettered (trace p) ts).
  { intros k. unfold tr. destruct (deadLettered m).
    - split; [by right|]. intros [->|]; [|done]. destruct Hl as [r Hr]. apply elem_of_lettered. left. by eexists _, r.
    - unfold lettered. rewrite omap_app. cbn. rewrite !elem_of_app, list_elem_of_singleton, Hse. tauto. }
  assert (Gt : good all0 ((modify s f p) <| trace := tr |>) h (s :: ws) ts).
  { apply (good_flags _ _ _ _ _ _ _ m); try done. split.
    - intros k c Hc. destruct (A1 k c Hc) as (m0 & Hk & Hf). destruct (decide (k = s)) as [->|]; [|exists m0; by rewrite lookup_insert_ne]. eexists. rewrite lookup_insert_eq. split; [done|]. by right.
    - intros k m' [[<- <-]|[_ Hk]]%lookup_insert_Some Hacc; apply Hsub; [by apply (A2 s m)|by apply (A2 k m')].
    - intros k m' [[<- <-]|[Hne Hk]]%lookup_insert_Some; [done|]. specialize (A3 k m' Hk). destruct (deadLettered m'); [destruct A3 as [r Hr]; eauto|]. rewrite El. intros [->|]; done.
    - intros x Hx. assert (Hx' : x ∈ all0 \/ Stored x ∈ trace p).
      { destruct Hx as [|Hx]; [by left|right]. unfold tr in Hx. destruct (deadLettered m); [done|]. by apply elem_of_app in Hx as [|[=]%list_elem_of_singleton]. }
      destruct (A4 x Hx') as [|[|[[r Hr]|]]]; [by left|right; left; by apply Hsub|right; right; left; eauto|by right; right; right].
    - unfold tr. destruct (deadLettered m); [done|]. unfold lettered. rewrite omap_app. cbn. rewrite <- app_assoc. cbn. rewrite <- Permutation_middle. constructor; [by rewrite Hse|done].
    - intros k. rewrite El. intros [->|Hk]; [lia|by apply A6].
    - intros x Hx Hc. rewrite El. intros [E|Hk]; [lia|by apply (A7 x)]. }
  assert (Gu : good all0 ((modify s f p) <| trace := tr |>) h ws (TRemove s callback :: ts)).
  { apply (good_pick_up _ _ _ _ _ s); try done. intros c [= ->]. exists (f m). cbn. rewrite lookup_alter_eq, Hm. split; [done|by right]. }
  unfold tr in Gu. destruct (deadLettered m); [|exact Gu]. by apply (good_same _ _ _ _ _ _ (gd_queue _ _ _ _ _ Gu)) in Gu.
Qed.
Lemma good_failed all0 p h ws ts s err callback now :
  good all0 p h (s :: ws) ts -> let (p', us) := failed_ cfg s err callback now p in good all0 p' h ws (us ++ ts).
Proof.
  intros G. unfold failed_. assert (Hr : forall a r, good all0 p h ws ([TRetry s a r] ++ ts)) by (intros a r; by apply (good_pick_up _ _ _ _ _ s)).
  destruct (_ || _); [by apply good_drop|]. destruct (Is err ErrNotConnected); [apply Hr|]. destruct (_ || _); apply Hr.
Qed.

Lemma good_settled all0 p h ws ts s err now :
  good all0 p h (s :: ws) ts -> let (p', us) := settled cfg s err now p in good all0 p' h ws (us ++ ts).
Proof.
  intros G. unfold settled. destruct err as [err|]; [destruct (Is err ErrSessionLost); [by apply (good_pick_up _ _ _ _ _ s)|by apply good_failed]|].
  destruct (waiting_pending _ _ _ _ _ _ G) as (m & Hm & _). rewrite Hm. cbn zeta. cbn [app]. apply (good_pick_up _ _ _ _ _ s); [done|done| |by apply good_accept].
  intros c _. exists (m <| accepted := true |>). split; [|by left]. destruct (accepted m); cbn; by rewrite lookup_alter_eq, Hm.
Qed.

Lemma good_task all0 p h ws ts t now :
  last_seq h < 2 ^ 63 - 1 -> good all0 p h ws (t :: ts) ->
  exists h', last_seq h' <= last_seq h + 1 /\ let (p', us) := run_task cfg t now p in good all0 p' h' ws (us ++ ts) /\ ((items h' ⊆ items h /\ last_seq h' = last_seq h) \/ (existsb will_signal us = true /\ exists e', t = TEnqueue e')).
Proof.
  intros Hb G. destruct t as [e|[|e ev]| |s c|s c|s a r]; [by apply good_enqueue|..|by apply good_remove| |]; exists h; (split; [lia|]); cbn [run_task app]; (split; [|by left]).
  - apply good_idle; [done|done|]. revert G. by apply good_idle.
  - by apply good_letter.
  - apply (good_same _ p); [by apply (gd_queue _ _ _ _ _ G)|done|done|done|]. revert G. by apply good_idle.
  - apply good_idle; [done|done|]. apply good_delete in G. destruct c; [by apply good_observe|done].
  - apply good_idle; [done|done|]. apply good_retry in G. destruct r as [[]|]; [by apply good_observe..|done].
Qed.

Lemma good_start all0 p h ws ts s adopted sent now :
  good all0 p h (s :: ws) ts ->
  let (p', us) := start cfg s adopted sent now p in
  exists added, settling p' = added ++ settling p /\ good all0 p' h (added ++ ws) (us ++ ts).
Proof.
  intros G. destruct (waiting_pending _ _ _ _ _ _ G) as (m & Hm & _). unfold start. rewrite Hm. set (p1 := modify s _ p). assert (G1 : good all0 p1 h (s :: ws) ts) by (by apply good_similar).
  assert (Gs : good all0 (p1 <| settling ::= cons s |>) h ([s] ++ ws) ts) by (by apply (good_same _ p1); [apply (gd_queue _ _ _ _ _ G1)|..]).
  destruct adopted; [by exists [s]|]. destruct (expired _ now).
  - pose proof (good_drop _ _ _ _ _ s (CSentinel ErrMessageExpired) false G1) as Hd. unfold drop_message in Hd |- *. destruct (pending p1 !! s) as [m1|]; exists []; (split; [|exact Hd]); [by destruct (deadLettered m1)|done].
  - destruct sent as [err|]; [|exists [s]; split; [done|]; by apply good_observe]. pose proof (good_failed _ _ _ _ _ s err false now G1) as Hf. unfold failed_, drop_message in Hf |- *.
    repeat case_match; simplify_eq; exists []; by split.
Qed.
(** *** Steps of the drain *)

Definition mark_due (now : Z) (m : queuedMessage) : queuedMessage := if is_due now m then m <| inFlight := true |> else m.

Lemma due_todo now (pd : gmap Z queuedMessage) :
  let todo := merge_sort Z.le (map fst (map_to_list (filter (fun x => is_due now (snd x) = true) pd))) in
  NoDup todo /\ forall s, s ∈ todo <-> exists m, pd !! s = Some m /\ is_due now m = true.
Proof.
  intros todo. assert (E : todo ≡ₚ map fst (map_to_list (filter (fun x => is_due now (snd x) = true) pd))) by apply merge_sort_Permutation.
  split; [rewrite E; apply NoDup_fst_map_to_list|]. intros s. rewrite E, list_elem_of_fmap. split.
  - intros ([k m] & -> & Hm%elem_of_map_to_list). apply map_lookup_filter_Some in Hm as [Hm Hd]. by exists m.
  - intros (m & Hm & Hd). exists (s, m). split; [done|]. apply elem_of_map_to_list, map_lookup_filter_Some. by split.
Qed.

Lemma good_due all0 p h ws ts now :
  good all0 p h ws ts -> let '(p', todo, _, _) := due cfg now p in good all0 p' h (todo ++ ws) ts.
Proof.
  intros [H1 H2 H3 [N F] H5 H6]. unfold due. set (todo := merge_sort _ _). destruct (due_todo now (pending p)) as [Nt Ft]. fold todo in Nt, Ft.
  assert (Hsim : similar (pending p) (mark_due now <$> pending p)).
  { intros s. rewrite lookup_fmap. destruct (pending p !! s) as [m|]; constructor. unfold mark_due. by destruct (is_due now m). }
  split; [done|done|done| |by apply (tracked_similar _ (pending p))|by apply (accounted_similar _ _ (pending p))].
  change (owned (mark_due now <$> pending p) (todo ++ ws) ts). assert (Hdisj : forall s, s ∈ todo -> s ∉ ws ++ omap task_seq ts).
  { intros s (m & Hm & Hd)%Ft (m' & Hm' & Hf)%F. assert (m' = m) as -> by congruence. unfold is_due in Hd. by rewrite Hf in Hd. }
  split; rewrite <- app_assoc; [by apply NoDup_app|]. intros s. rewrite elem_of_app, (F s), (Ft s), lookup_fmap. split.
  - intros [(m & Hm & Hd)|(m & Hm & Hf)]; rewrite Hm; cbn; eexists; (split; [done|]); unfold mark_due; [by rewrite Hd|by destruct (is_due now m)].
  - intros (m' & Hm' & Hf). destruct (pending p !! s) as [m|]; [|done]. injection Hm' as <-. unfold mark_due in Hf. destruct (is_due now m) eqn:Hd; [left|right]; eauto.
Qed.

Definition fresh (e : queueEntry) : queuedMessage := mkQueued e true 0 None false false.

Lemma foldl_insert (es : list queueEntry) : forall (pd : gmap Z queuedMessage) s, NoDup (map Seq es) ->
  foldl (fun m e => <[Seq e := mkQueued e true 0 None false false]> m) pd es !! s
  = match list_find (fun e => Seq e = s) es with Some (_, e) => Some (fresh e) | None => pd !! s end.
Proof.
  induction es as [|e es IH]; intros pd s Hn; [done|]. cbn [foldl map] in *. inversion_clear Hn as [|? ? Hn1 Hn2]. rewrite IH by done. cbn. destruct (decide (Seq e = s)) as [<-|Hne].
  - assert (list_find (fun e0 => Seq e0 = Seq e) es = None) as ->; [|by rewrite lookup_insert_eq].
    apply list_find_None, Forall_forall. intros x Hx E. apply Hn1. rewrite <- E. by apply list_elem_of_fmap_2.
  - destruct (list_find _ es) as [[i x]|]; cbn; [done|by rewrite lookup_insert_ne].
Qed.

Lemma nodup_seq (es : list queueEntry) x y : NoDup (map Seq es) -> x ∈ es -> y ∈ es -> Seq x = Seq y -> x = y.
Proof.
  induction es as [|e es IH]; intros Hn Hx Hy E; [by apply not_elem_of_nil in Hx|]. cbn in Hn. inversion_clear Hn as [|? ? Hn1 Hn2].
  apply elem_of_cons in Hx as [->|Hx], Hy as [->|Hy]; [done|..|by apply IH]; destruct Hn1; [rewrite E|rewrite <- E]; by apply list_elem_of_fmap_2.
Qed.

Lemma foldl_insert_some es (pd : gmap Z queuedMessage) s m : NoDup (map Seq es) ->
  foldl (fun m e => <[Seq e := mkQueued e true 0 None false false]> m) pd es !! s = Some m
  <-> (exists e, e ∈ es /\ Seq e = s /\ m = fresh e) \/ (pd !! s = Some m /\ forall e, e ∈ es -> Seq e <> s).
Proof.
  intros Hn. rewrite foldl_insert by done. destruct (list_find (fun e => Seq e = s) es) as [[i e]|] eqn:E.
  - apply list_find_Some in E as (He & Es & _). apply list_elem_of_lookup_2 in He. split; [intros [= <-]; left; eauto|]. intros [(e' & He' & Es' & ->)|[_ Hno]]; [|by destruct (Hno e He)].
    do 2 f_equal. apply (nodup_seq es); congruence.
  - apply list_find_None in E. rewrite Forall_forall in E. split; [intros Hm; right; split; [done|]; by apply E|]. intros [(e & He & Es & _)|[Hm _]]; [by destruct (E e He)|done].
Qed.
Lemma remove_one (l : list Z) s : NoDup l -> s ∈ l -> l ≡ₚ s :: filter (fun k => k <> s) l.
Proof.
  intros N Hs. apply NoDup_Permutation; [done|constructor; [by intros [? _]%list_elem_of_filter|by apply NoDup_filter]|].
  intros k. rewrite elem_of_cons, list_elem_of_filter. destruct (decide (k = s)) as [->|]; tauto.
Qed.

Lemma last_elem {A} (l : list A) x : last l = Some x -> x ∈ l.
Proof. rewrite last_lookup. apply list_elem_of_lookup_2. Qed.

(** What [Peek] returned: the next entries in order, none left out. *)
Lemma peeked h cl n :
  in_order h -> let es := ztake n (above cl (items h)) in
  NoDup (map Seq es) /\ (forall x, x ∈ es -> x ∈ items h /\ cl < Seq x)
  /\ forall e, last es = Some e -> (forall x, x ∈ es -> Seq x <= Seq e) /\ forall x, x ∈ items h -> cl < Seq x -> Seq x <= Seq e -> x ∈ es.
Proof.
  intros [Hs _ _] es. set (l := above cl (items h)) in *. assert (Hl : forall x, x ∈ l <-> cl < Seq x /\ x ∈ items h) by (intros x; apply (list_elem_of_filter (fun y : queueEntry => cl < Seq y))).
  assert (Hsl : StronglySorted before l) by (by apply StronglySorted_filter). assert (El : l = es ++ zdrop n l) by (symmetry; apply take_drop). rewrite El in Hsl.
  apply StronglySorted_app in Hsl as (Hx & H1 & _). split; [by apply before_nodup|]. split; [intros x Hin; assert (x ∈ l) as [? ?]%Hl by (rewrite El; apply elem_of_app; by left); done|].
  intros e He. pose proof (last_elem _ _ He) as Hin. split.
  - intros x Hxe. apply last_Some in He as [es' E]. rewrite E in Hxe, H1. apply elem_of_app in Hxe as [Hxe| ->%list_elem_of_singleton]; [|done].
    apply StronglySorted_app in H1 as (Hb & _). specialize (Hb x e Hxe ltac:(by apply list_elem_of_singleton)). unfold before in Hb. lia.
  - intros x Hi Hc Hle. assert (Hxl : x ∈ l) by (by apply Hl). rewrite El in Hxl. apply elem_of_app in Hxl as [|Hd]; [done|]. specialize (Hx e x Hin Hd). unfold before in Hx. lia.
Qed.

Lemma good_claim all0 p h ws ts n :
  last_seq h < 2 ^ 63 - 1 -> good all0 p h ws ts ->
  let (p', r) := claim n p in good all0 p' h (default [] r ++ ws) ts.
Proof.
  intros Hb G. pose proof G as [Hq Ho Hs [N F] [C1 C2 C3 C4 C5] [A1 A2 A3 A4 A5 A6 A7]]. unfold claim. destruct (queue_do _ p) as [p1 r] eqn:E.
  destruct (queue_do_same _ _ _ _ E) as (E1 & E2 & E3 & _). destruct (peek_answers _ _ _ _ _ h E) as [Hq1 Hr]; try done; [lia|].
  assert (G1 : good all0 p1 h ws ts) by (by apply (good_same _ p)). destruct Hr as [->|Hr]; [|destruct r as [|[es|]| | |]; try exact G1; by destruct (Hr es)].
  destruct (peeked h (claimed p) n Ho) as (Hn & He & Hlast). set (es := ztake n _) in *. cbn [default]. destruct (last es) as [e|] eqn:El.
  2: { apply last_None in El. rewrite El. cbn. apply (good_same _ p1); try done. }
  destruct (Hlast e eq_refl) as [Hmax Hall]. clear Hlast. pose proof (last_elem _ _ El) as Hin. destruct (He e Hin) as [Hei Hec].
  set (pd := foldl (fun m e => <[Seq e := mkQueued e true 0 None false false]> m) (pending p) es).
  assert (Hpd : forall s m, pd !! s = Some m <-> (exists e, e ∈ es /\ Seq e = s /\ m = fresh e) \/ (pending p !! s = Some m /\ forall e, e ∈ es -> Seq e <> s)) by (intros s m; by apply foldl_insert_some).
  assert (Hold : forall s m, pending p !! s = Some m -> pd !! s = Some m).
  { intros s m Hm. apply Hpd. right. split; [done|]. intros x Hx Ex. destruct (C2 s m Hm), (He x Hx). lia. }
  assert (Hle : Seq e <= last_seq h) by (pose proof (proj1 (Forall_forall _ _) (io_range _ Ho) e Hei) as H; cbn in H; lia).
  assert (G2 : good all0 (p <| queue := queue p1 |> <| pending := pd |> <| claimed := Seq e |>) h (map Seq es ++ ws) ts).
  2: { revert G2. apply good_same; [exact Hq1|done|cbn; by rewrite E2|exact E3]. }
  split; cbn; [exact Hq1|done|done| | |].
  - split; rewrite <- app_assoc.
    + apply NoDup_app. split_and!; [done| |done]. intros s (x & -> & Hx)%list_elem_of_fmap (m & Hm & _)%F. destruct (C2 _ m Hm), (He x Hx). lia.
    + intros s. rewrite elem_of_app, (F s), list_elem_of_fmap. split.
      * intros [(x & -> & Hx)|(m & Hm & Hf)]; [exists (fresh x); split; [apply Hpd; left; eauto|done]|eauto].
      * intros (m & Hm & Hf). apply Hpd in Hm as [(x & Hx & Es & _)|[Hm _]]; [left|right]; eauto.
  - split; [lia| | |done|].
    + intros s m [(x & Hx & Es & ->)|[Hm _]]%Hpd; [cbn; destruct (He x Hx); specialize (Hmax x Hx); lia|]. destruct (C2 s m Hm). split; [done|lia].
    + intros s m [(x & Hx & Es & ->)|[Hm _]]%Hpd; [left; by apply (He x)|by apply C3].
    + intros x Hx Hc. destruct (decide (Seq x <= claimed p)) as [Hle'|Hgt].
      * destruct (C5 x Hx Hle') as (m & Hm & Ex). eauto.
      * exists (fresh x). split; [|done]. apply Hpd. left. exists x. split_and!; try done. apply Hall; [done|lia|done].
  - split; try done.
    + intros s c Hc. destruct (A1 s c Hc) as (m & Hm & Hf). eauto.
    + intros s m [(x & Hx & Es & ->)|[Hm _]]%Hpd Ha; [done|by apply (A2 s m)].
    + intros s m [(x & Hx & <- & ->)|[Hm _]]%Hpd; [cbn; destruct (He x Hx); by apply A7|by apply A3].
    + intros x Hx Hc. apply A7; [done|lia].
Qed.
(** *** The machine *)

Definition threads p : drain_pc * list task * list Z * list task := (drain p, inline p, settling p, tasks p).

Lemma queue_do_threads c p : threads (fst (queue_do c p)) = threads p.
Proof. unfold queue_do. by destruct (call c (queue p)). Qed.

Lemma drop_threads s reason cb p : threads (fst (drop_message s reason cb p)) = threads p.
Proof. unfold drop_message. destruct (pending p !! s) as [m|]; [|done]. by destruct (deadLettered m). Qed.

Lemma failed_threads s err cb now p : threads (fst (failed_ cfg s err cb now p)) = threads p.
Proof. unfold failed_. destruct (_ || _); [apply drop_threads|]. destruct (Is err ErrNotConnected); [done|]. by destruct (_ || _). Qed.

Lemma settled_threads s err now p : threads (fst (settled cfg s err now p)) = threads p.
Proof.
  unfold settled. destruct err as [err|]; [destruct (Is err ErrSessionLost); [done|apply failed_threads]|]. destruct (pending p !! s) as [m|]; [|done]. by destruct (accepted m).
Qed.

Lemma run_task_threads t now p : threads (fst (run_task cfg t now p)) = threads p.
Proof.
  destruct t as [e|[|e ev]| |s c|s c|s a [[]|]]; cbn [run_task]; try done.
  - pose proof (queue_do_threads (QEnqueue e (mkLimit (maxSize cfg) (dropPolicy cfg) (claimed p))) p) as H. destruct (queue_do _ p) as [p' [[[]|]| | | |]]; done.
  - pose proof (queue_do_threads (QAck s) p) as H. destruct (queue_do _ p) as [p' [| |[|]| |]]; done.
  - by destruct c.
Qed.

Lemma start_threads s adopted sent now p :
  let p' := fst (start cfg s adopted sent now p) in drain p' = drain p /\ inline p' = inline p /\ tasks p' = tasks p.
Proof.
  unfold start. destruct (pending p !! s) as [m|]; [|done]. destruct adopted; [done|]. destruct (expired _ now).
  - pose proof (drop_threads s (CSentinel ErrMessageExpired) false (modify s (fun m => m <| attempts ::= Z.succ |>) p)) as H. unfold threads in H. by injection H as -> -> _ ->.
  - destruct sent as [err|]; [|done]. pose proof (failed_threads s err false now (modify s (fun m => m <| attempts ::= Z.succ |>) p)) as H. unfold threads in H. by injection H as -> -> _ ->.
Qed.

Lemma claim_threads n p : threads (fst (claim n p)) = threads p.
Proof.
  unfold claim. pose proof (queue_do_threads (QPeek (claimed p) n) p) as H. destruct (queue_do _ p) as [p' [|[es|]| | |]]; try done. cbn. by destruct (last es).
Qed.

(** Inputs of their Go types: messages of at most the size of a packet and a
    clock of this century. *)
Definition publishable (o : PublishOptions) (id : list Z) (now : Z) : Prop :=
  publish_typed (wire o 1) /\ publish_fits (wire (tagged cfg o id) 1) /\ bytes id /\ len id <= 255 /\ 0 <= now < 2 ^ 62 /\ 0 <= ttl cfg < 2 ^ 62.

Lemma publish_entry_ok o id now e : publishable o id now -> publish_entry cfg o id now = Ok e -> entry_ok e.
Proof.
  intros (Ht & Hf & Hid & Hlen & Hnow & Httl). unfold publish_entry. destruct (Z.eqb_spec (o_QoS o) 0) as [|Hq]; [done|]. destruct (negb _); [done|].
  assert (Ht' : publish_typed (wire (tagged cfg o id) 1)).
  { unfold tagged. destruct (idempotency cfg); [|done]. destruct Ht as (T1 & T2 & T3 & T4 & T5 & T6 & T7 & T8 & T9 & T10 & T11). split_and!; try done. apply Forall_app. split; [done|]. constructor; [|done]. split; [by repeat constructor|done]. }
  assert (Eq : o_QoS (tagged cfg o id) = o_QoS o) by (unfold tagged; by destruct (idempotency cfg)). set (o' := tagged cfg o id) in *. unfold EncodePublish, MarshalPublish.
  destruct (validatePublishOpts (wire o' 1)) as [[]| |] eqn:Ev; [|done..]. apply validatePublishOpts_iff in Ev; [|done]. destruct (encode _ _ _) as [fr| |]; [|done..]. cbn [rbind]. intros [= <-].
  assert (Hs : sendable_as (o' <| o_MessageExpiryInterval := None |>) 1).
  { destruct Ht' as (T1 & T2 & T3 & T4 & T5 & T6 & T7 & T8 & T9 & T10 & T11). split; [split_and!; assumption || exact I|]. split; [exact Ev|by apply fits_without_expiry]. }
  pose proof Ht as (_ & _ & T3 & _). destruct Ht' as (_ & _ & _ & _ & _ & T6 & _). cbn in T3, T6. split_and!; cbn; try done.
  - unfold is_u8 in T3. lia.
  - intros t [= <-]. unfold is_i64. lia.
  - assert (Hx : forall t, match o_MessageExpiryInterval o' with Some s => Some (now + s * second) | None => None end = Some t -> is_i64 t).
    { intros t. destruct (o_MessageExpiryInterval o') as [x|]; [|done]. intros [= <-]. unfold is_i64, second. cbn in T6. unfold is_u32 in T6. lia. }
    intros t. destruct (_ && _); [|apply Hx]. intros [= <-]. unfold is_i64. lia.
Qed.

Definition input_ok (i : input) : Prop := match i with IPublish o id now => publishable o id now | _ => True end.

Lemma inv_from all0 p p' h ws ts :
  good all0 p h ws ts -> ws ≡ₚ waiting p' -> ts ≡ₚ all_tasks p' ->
  queue p' = queue p -> claimed p' = claimed p -> pending p' = pending p -> trace p' = trace p -> inv all0 p' h.
Proof.
  intros G Ew Et Eq Ec Ep Er. apply (good_perm _ _ _ ws _ ts); [done|done|]. apply (good_same _ p); try done. rewrite Eq. by apply (gd_queue _ _ _ _ _ G).
Qed.

Ltac from H := apply (inv_from _ _ _ _ _ _ H); unfold waiting, all_tasks, drain_todo; cbn; try done.

Lemma inv_after_due all0 p h next room :
  last_seq h < 2 ^ 63 - 1 -> inline p = [] -> good all0 p h (settling p) (tasks p) -> inv all0 (after_due next room p) h.
Proof.
  intros Hb Ei G. unfold after_due. destruct (_ || _ || _); [from G; by rewrite Ei|]. pose proof (good_claim _ _ _ _ _ room Hb G) as Gc. pose proof (claim_threads room p) as E.
  destruct (claim room p) as [p1 r]. cbn [fst] in E. unfold threads in E. injection E as _ E2 E3 E4. rewrite Ei in E2.
  destruct r as [[|s seqs]|]; from Gc; by rewrite ?E2, ?E3, ?E4.
Qed.

Lemma rouse_new p us rest : existsb will_signal us = true -> rouse (p <| inline := us ++ rest |>) = true.
Proof. intros E. unfold rouse. cbn. by rewrite !existsb_app, E, !orb_true_r. Qed.

Lemma rouse_new_task p us (f : list task -> list task) : existsb will_signal us = true -> rouse (p <| tasks ::= fun l => us ++ f l |>) = true.
Proof. intros E. unfold rouse. cbn. by rewrite !existsb_app, E, !orb_true_r. Qed.

Lemma inv_drain all0 p h adopted sent now :
  last_seq h < 2 ^ 63 - 1 -> inv all0 p h ->
  exists h', last_seq h' <= last_seq h + 1 /\ (items h' ⊆ items h \/ rouse (drain_step cfg adopted sent now p) = true)
    /\ (~ (exists e rest, inline p = TEnqueue e :: rest) -> last_seq h' = last_seq h) /\ inv all0 (drain_step cfg adopted sent now p) h'.
Proof.
  intros Hb G. unfold drain_step. unfold inv, all_tasks, waiting, drain_todo in G. destruct (inline p) as [|t rest] eqn:Ei.
  2: { destruct (good_task _ _ _ _ _ t now Hb G) as (h' & Hl & H). exists h'. split; [done|]. pose proof (run_task_threads t now p) as E. destruct (run_task cfg t now p) as [p' us]. cbn [fst] in E. destruct H as [H Hsub].
       unfold threads in E. injection E as E1 E2 E3 E4. split; [destruct Hsub as [[]|[Hw _]]; [by left|right; by apply rouse_new]|]. split; [destruct Hsub as [[]|[_ [e ->]]]; [done|intros []; eauto]|]. from H; [by rewrite E1, E3|by rewrite E4, <- app_assoc]. }
  exists h. split; [lia|]. split; [by left|]. split; [done|]. cbn [app] in G. assert (Hstart : forall s ws p1, inline p1 = [] -> tasks p1 = tasks p -> settling p1 = settling p -> drain_todo p1 = ws ->
    good all0 p1 h (s :: ws ++ settling p) (tasks p) -> inv all0 (let (p2, us) := start cfg s adopted sent now p1 in p2 <| inline := us |>) h).
  { intros s ws p1 I1 T1 S1 D1 G1. pose proof (good_start _ _ _ _ _ s adopted sent now G1) as Hs. pose proof (start_threads s adopted sent now p1) as E. destruct (start cfg s adopted sent now p1) as [p2 us].
    cbn [fst] in E. destruct E as (E1 & E2 & E3), Hs as (added & Ha & H). unfold drain_todo in D1. from H; [rewrite E1, Ha, D1, S1; by rewrite !app_assoc, (Permutation_app_comm added ws)|by rewrite E3, T1]. }
  destruct (drain p) as [| | |[|s todo] next room|[|s todo] next|next unread|] eqn:Ed; cbn [app] in G.
  - from G. by rewrite Ei.
  - from G; [by destruct (connected p)|by rewrite Ei].
  - pose proof (good_due _ _ _ _ _ now G) as Gd. unfold due in Gd |- *. from Gd. by rewrite Ei.
  - by apply inv_after_due.
  - apply (Hstart s todo); try done. by apply (good_same _ p); [apply (gd_queue _ _ _ _ _ G)|..].
  - from G; [by destruct (connected p)|by rewrite Ei].
  - apply (Hstart s todo); try done. by apply (good_same _ p); [apply (gd_queue _ _ _ _ _ G)|..].
  - from G; [by rewrite Ed|by rewrite Ei].
  - from G; [by rewrite Ed|by rewrite Ei].
Qed.
Lemma inv_step all0 p h i :
  last_seq h < 2 ^ 63 - 1 -> input_ok i -> inv all0 p h ->
  exists h', last_seq h' <= last_seq h + 1 /\ (items h' ⊆ items h \/ rouse (step cfg i p) = true) /\ inv all0 (step cfg i p) h'.
Proof.
  intros Hb Hi G. destruct i as [o id now|i now|adopted sent now|w now|s err now|up| |timeout]; cbn [step].
  - exists h. split; [lia|]. split; [by left|]. destruct (closing p); [done|]. destruct (publish_entry cfg o id now) as [e| |] eqn:Ee; [|done..].
    assert (G' : good all0 p h (waiting p) (TEnqueue e :: all_tasks p)) by (apply good_idle; [done|by intros ? [= <-]; apply (publish_entry_ok o id now)|done]). from G'. unfold all_tasks. by rewrite Permutation_middle.
  - destruct (tasks p !! i) as [t|] eqn:Et; [|exists h; split_and!; [lia|by left|done]]. assert (Ep : tasks p ≡ₚ t :: take i (tasks p) ++ drop (S i) (tasks p)) by (by rewrite <- delete_take_drop, <- delete_Permutation).
    assert (G' : good all0 p h (waiting p) (t :: inline p ++ take i (tasks p) ++ drop (S i) (tasks p))) by (apply (good_perm _ _ _ (waiting p) _ (all_tasks p)); [done| |done]; unfold all_tasks; by rewrite Ep at 1; rewrite <- Permutation_middle).
    destruct (good_task _ _ _ _ _ t now Hb G') as (h' & Hl & H). exists h'. split; [done|]. pose proof (run_task_threads t now p) as E. destruct (run_task cfg t now p) as [p' us]. cbn [fst] in E. destruct H as [H Hsub].
    unfold threads in E. injection E as E1 E2 E3 E4. split; [destruct Hsub as [[]|[Hw _]]; [by left|right; by apply (rouse_new_task p' us (fun l => take i l ++ drop (S i) l))]|]. from H; [by rewrite E1, E3|]. rewrite E2, E4, !app_assoc. f_equiv. f_equiv. apply Permutation_app_comm.
  - destruct (inv_drain all0 p h adopted sent now Hb G) as (h' & H1 & H2 & _ & H3). eauto.
  - exists h. split; [lia|]. split; [by left|]. unfold wake_up. destruct (drain p) as [| | |? ? ?|? ?|next unread|] eqn:Ed; try done. unfold inv, waiting, drain_todo in G. rewrite Ed in G.
    assert (Hd : forall d, match d with DStart l _ _ | DStarted l _ => l | _ => [] end = [] -> inv all0 (p <| drain := d |>) h) by (intros d Hd; from G; by rewrite Hd).
    assert (Hsame : inv all0 p h) by (from G; by rewrite Ed).
    destruct next as [t|], w; try destruct (closing p); try destruct (notify p); try destruct (moved p); try destruct (t <=? now); try exact Hsame; try (by apply Hd); from G.
  - exists h. split; [lia|]. split; [by left|]. destruct (decide (s ∈ settling p)) as [Hs|]; [|done].
    assert (Ep : settling p ≡ₚ s :: filter (fun k => k <> s) (settling p)).
    { pose proof (ow_nodup _ _ _ (gd_owned _ _ _ _ _ G)) as N. unfold waiting in N. rewrite <- app_assoc in N. apply NoDup_app in N as (_ & _ & N). apply NoDup_app in N as (N & _ & _). by apply remove_one. }
    assert (G' : good all0 (p <| settling ::= filter (fun k => k <> s) |>) h (s :: drain_todo p ++ filter (fun k => k <> s) (settling p)) (all_tasks p)).
    { apply (good_same _ p); try done; [by apply (gd_queue _ _ _ _ _ G)|]. apply (good_perm _ _ _ (waiting p) _ (all_tasks p)); [|done|done]. unfold waiting. by rewrite Ep at 1; rewrite <- Permutation_middle. }
    pose proof (good_settled _ _ _ _ _ s err now G') as H. pose proof (settled_threads s err now (p <| settling ::= filter (fun k => k <> s) |>)) as E. destruct (settled cfg s err now _) as [p' us]. cbn [fst] in E.
    unfold threads in E. injection E as E1 E2 E3 E4. from H; [by rewrite E1, E3|]. rewrite E2, E4. unfold all_tasks. cbn. rewrite !app_assoc. f_equiv. apply Permutation_app_comm.
  - exists h. split; [lia|]. split; [by left|]. from G.
  - exists h. split; [lia|]. split; [by left|]. from G.
  - exists h. split; [lia|]. split; [by left|]. destruct (drain p) eqn:Ed; try done. destruct (_ || _); [|done]. destruct (queue_do QClose _) as [p' r] eqn:E.
    pose proof (queue_do_threads QClose (p <| canceled := true |>)) as Et. rewrite E in Et. unfold threads in Et. injection Et as E1 E2 E3 E4. destruct (queue_do_same _ _ _ _ E) as (F1 & F2 & F3 & _).
    assert (Hq : queue_at (queue p') h).
    { destruct (queue_do_law _ _ _ _ h E accepts_close (gd_queue _ _ _ _ _ G) Hb) as [(h' & [=] & _)|[[Hq _]|[_ Hq]]]; done. }
    apply (good_same _ p p') in G; [|exact Hq|done..]. from G; unfold waiting, drain_todo, all_tasks; by rewrite ?E1, ?E2, ?E3, ?E4.
Qed.

Lemma inv_run all0 is_ : forall p h, Forall input_ok is_ -> last_seq h + len is_ < 2 ^ 63 -> inv all0 p h -> exists h', inv all0 (run cfg is_ p) h'.
Proof.
  induction is_ as [|i is_ IH]; intros p h Hok Hb G; [by exists h|]. inversion_clear Hok as [|? ? Hi Hok']. rewrite len_cons in Hb. pose proof (len_nonneg is_).
  destruct (inv_step all0 p h i) as (h1 & Hl & _ & G1); [lia|done|done|]. cbn. apply (IH _ h1); [done|lia|done].
Qed.

Lemma inv_new q h up : holds_queue q (Some h) -> in_order h -> inv (items h) (NewQueuePublisher q up) h.
Proof.
  intros Hq Ho. unfold inv. unfold waiting, all_tasks, drain_todo. cbn. split; cbn; [by left|done|by intros e []%not_elem_of_nil| | |].
  - split; [constructor|]. intros s. split; [by intros []%not_elem_of_nil|]. by intros (m & [=] & _).
  - split; try done; [by pose proof (io_last _ Ho); lia|by intros s c x []%not_elem_of_nil|]. intros x Hx Hc. pose proof (proj1 (Forall_forall _ _) (io_range _ Ho) x Hx) as H. cbn in H. lia.
  - split; cbn; try done.
    + by intros s c [[]%not_elem_of_nil|[]%not_elem_of_nil].
    + intros x [Hx|[]%not_elem_of_nil]. by left.
    + constructor.
    + by intros s []%not_elem_of_nil.
    + intros x _ _ []%not_elem_of_nil.
Qed.
(** ** The window, and waking up *)

Definition sz p : Z := Z.of_nat (size (pending p)).

(** Every message is in flight, or tried again no earlier than [next]. *)
Definition covered (next : option Z) p : Prop :=
  forall s m, pending p !! s = Some m -> inFlight m = true \/ exists t a, next = Some t /\ retryAt m = Some a /\ t <= a.

Definition caught_up p h : Prop := forall x, x ∈ items h -> Seq x <= claimed p.

Record awake p h : Prop := {
  aw_canceled : canceled p = true -> drain p = DDone;
  aw_drain : rouse p = true \/
    match drain p with
    | DStart _ next room => covered next p /\ window cfg <= sz p + room
    | DStarted _ next => covered next p
    | DSleep next unread => connected p = true -> covered next p /\ (unread = true \/ window cfg <= sz p \/ caught_up p h)
    | _ => True
    end;
}.

Record fits_window p : Prop := {
  fw_size : sz p <= window cfg;
  fw_room : match drain p with DStart _ _ room => sz p + room <= window cfg | _ => True end;
}.

Definition flags p : bool * bool * bool := (moved p, connected p, canceled p).

(** A step that changes no message's turn. *)
Definition calm p p' : Prop :=
  (forall s m', pending p' !! s = Some m' -> exists m, pending p !! s = Some m /\ inFlight m' = inFlight m /\ retryAt m' = retryAt m)
  /\ sz p' = sz p /\ claimed p' = claimed p.

Lemma calm_refl p p' : pending p' = pending p -> claimed p' = claimed p -> calm p p'.
Proof. intros E1 E2. unfold calm, sz. rewrite E1. split_and!; eauto. Qed.

Lemma size_alter f s (pd : gmap Z queuedMessage) : size (alter f s pd) = size pd.
Proof. rewrite <- !size_dom. by rewrite dom_alter_L. Qed.

Lemma calm_alter f s p p' : (forall m, inFlight (f m) = inFlight m /\ retryAt (f m) = retryAt m) -> pending p' = alter f s (pending p) -> claimed p' = claimed p -> calm p p'.
Proof.
  intros Hf E1 E2. unfold calm, sz. rewrite E1. split; [|split; [by rewrite size_alter|done]]. intros k m'. destruct (decide (k = s)) as [->|]; [|rewrite lookup_alter_ne by done; eauto].
  rewrite lookup_alter_eq. destruct (pending p !! s) as [m|]; intros [= <-]. exists m. by split; [|apply Hf].
Qed.

Lemma calm_covered next p p' : calm p p' -> covered next p -> covered next p'.
Proof. intros (Hc & _) H s m' Hm'. destruct (Hc s m' Hm') as (m & Hm & -> & ->). by apply (H s). Qed.

Lemma drop_calm s reason cb p : calm p (fst (drop_message s reason cb p)) /\ flags (fst (drop_message s reason cb p)) = flags p /\ notify (fst (drop_message s reason cb p)) = notify p.
Proof.
  unfold drop_message. destruct (pending p !! s) as [m|] eqn:Hm; [|by split; [apply calm_refl|]]. destruct (deadLettered m); (split; [|done]);
    by apply (calm_alter (fun m => m <| deadLettered := true |>) s).
Qed.

Lemma failed_calm s err cb now p : calm p (fst (failed_ cfg s err cb now p)) /\ flags (fst (failed_ cfg s err cb now p)) = flags p /\ notify (fst (failed_ cfg s err cb now p)) = notify p.
Proof.
  unfold failed_. destruct (_ || _); [apply drop_calm|]. destruct (Is err ErrNotConnected); [by split; [apply calm_refl|]|]. destruct (_ || _); by split; [apply calm_refl|].
Qed.

Lemma settled_calm s err now p : calm p (fst (settled cfg s err now p)) /\ flags (fst (settled cfg s err now p)) = flags p /\ notify (fst (settled cfg s err now p)) = notify p.
Proof.
  unfold settled. destruct err as [err|]; [destruct (Is err ErrSessionLost); [by split; [apply calm_refl|]|apply failed_calm]|].
  destruct (pending p !! s) as [m|]; [|by split; [apply calm_refl|]]. destruct (accepted m); (split; [|done]); by apply (calm_alter (fun m => m <| accepted := true |>) s).
Qed.

Lemma start_calm s adopted sent now p : calm p (fst (start cfg s adopted sent now p)) /\ flags (fst (start cfg s adopted sent now p)) = flags p /\ notify (fst (start cfg s adopted sent now p)) = notify p.
Proof.
  unfold start. destruct (pending p !! s) as [m|]; [|by split; [apply calm_refl|]]. set (p1 := modify s _ p). assert (Hc : calm p p1) by (by apply (calm_alter (fun m => m <| attempts ::= Z.succ |>) s)).
  assert (Ht : forall p2, calm p1 p2 /\ flags p2 = flags p1 /\ notify p2 = notify p1 -> calm p p2 /\ flags p2 = flags p /\ notify p2 = notify p).
  { intros p2 ((H1 & H2 & H3) & -> & ->). destruct Hc as (K1 & K2 & K3). split; [|done]. split_and!; [|congruence|congruence]. intros k m' Hm'. destruct (H1 k m' Hm') as (m1 & Hm1 & -> & ->). by apply K1. }
  destruct adopted; [apply Ht; by split; [apply calm_refl|]|]. destruct (expired _ now); [apply Ht, drop_calm|]. destruct sent as [err|]; [apply Ht, failed_calm|]. apply Ht. by split; [apply calm_refl|].
Qed.

Lemma queue_do_calm c p : calm p (fst (queue_do c p)) /\ flags (fst (queue_do c p)) = flags p /\ notify (fst (queue_do c p)) = notify p.
Proof. unfold queue_do. destruct (call c (queue p)). by split; [apply calm_refl|]. Qed.

(** A task signals the drain, or does not concern it. *)
Lemma run_task_calm t now p :
  let (p', us) := run_task cfg t now p in
  flags p' = flags p /\ (notify p = true -> notify p' = true) /\ (will_signal t = true -> existsb will_signal us = true \/ notify p' = true)
  /\ (calm p p' \/ (sz p' <= sz p /\ existsb will_signal us = true)).
Proof.
  destruct t as [e|[|e ev]| |s c|s c|s a r]; cbn [run_task].
  - pose proof (queue_do_calm (QEnqueue e (mkLimit (maxSize cfg) (dropPolicy cfg) (claimed p))) p) as (H1 & H2 & H3). destruct (queue_do _ p) as [p' r]. cbn [fst] in *.
    destruct r as [[[]|]| | | |]; (split; [exact H2|]); (split; [intros Hn; change (notify p' = true); congruence|]); (split; [done|]); left; exact H1.
  - split_and!; try done; [by left|left; by apply calm_refl].
  - split_and!; try done; [by left|left; by apply calm_refl].
  - split_and!; try done; [by right|left; by apply calm_refl].
  - pose proof (queue_do_calm (QAck s) p) as (H1 & H2 & H3). destruct (queue_do _ p) as [p' r]. cbn [fst] in *. destruct r as [| |[|]| |]; (split; [exact H2|]); (split; [intros Hn; congruence|]); (split; [done|]); left; exact H1.
  - assert (Hs : sz (p <| pending ::= delete s |>) <= sz p) by (apply inj_le, map_subseteq_size, delete_subseteq).
    destruct c; (split; [done|]); (split; [exact id|]); (split; [done|]); right; by split.
  - assert (Hs : sz (modify s (fun m => m <| inFlight := false |> <| retryAt := a |>) p) <= sz p) by (apply inj_le; cbn; by rewrite size_alter).
    destruct r as [[]|]; (split; [done|]); (split; [exact id|]); (split; [done|]); right; by split.
Qed.
Lemma claim_calm n p : (forall next, covered next p -> covered next (fst (claim n p))) /\ flags (fst (claim n p)) = flags p /\ notify (fst (claim n p)) = notify p.
Proof.
  unfold claim. pose proof (queue_do_calm (QPeek (claimed p) n) p) as (H1 & H2 & H3). destruct (queue_do _ p) as [p1 r]. cbn [fst] in *.
  assert (Hc : forall next, covered next p -> covered next p1) by (intros next; by apply calm_covered).
  destruct r as [|[es|]| | |]; try done. split; [|by destruct (last es)]. intros next Hn. specialize (Hc next Hn).
  assert (Hf : forall pd : gmap Z queuedMessage, (forall s m, pd !! s = Some m -> inFlight m = true \/ exists t a, next = Some t /\ retryAt m = Some a /\ t <= a) ->
    forall s m, foldl (fun m e => <[Seq e := mkQueued e true 0 None false false]> m) pd es !! s = Some m -> inFlight m = true \/ exists t a, next = Some t /\ retryAt m = Some a /\ t <= a).
  { clear. induction es as [|e es IH]; intros pd Hp s m; [apply Hp|]. cbn. apply IH. intros k x [[<- <-]|[_ Hx]]%lookup_insert_Some; [by left|by apply (Hp k)]. }
  intros s m Hm. apply (Hf _ Hc s m). by destruct (last es).
Qed.

Lemma existsb_perm {A} (f : A -> bool) l l' : l ≡ₚ l' -> existsb f l = existsb f l'.
Proof. induction 1; cbn; [done|by f_equal|by rewrite !orb_assoc, (orb_comm (f y))|congruence]. Qed.

Lemma sooner_le now m next t : next = Some t -> exists t', sooner now m next = Some t' /\ t' <= t.
Proof.
  intros ->. unfold sooner. destruct (_ || _); [by exists t|]. destruct (retryAt m) as [a|]; [|by exists t]. destruct (Z.ltb_spec a t); [exists a; split; [done|lia]|by exists t].
Qed.

Lemma sooner_self now m next : inFlight m = false -> is_due now m = false -> exists t a, sooner now m next = Some t /\ retryAt m = Some a /\ t <= a.
Proof.
  intros Hf Hd. unfold sooner. rewrite Hf, Hd. unfold is_due in Hd. rewrite Hf in Hd. cbn in *. destruct (retryAt m) as [a|]; [|done].
  destruct next as [t|]; [destruct (Z.ltb_spec a t); [by exists a, a|by exists t, a]|by exists a, a].
Qed.

(** [due] finds the earliest retry. *)
Lemma sooner_covers now (pd : gmap Z queuedMessage) s m :
  pd !! s = Some m -> inFlight m = false -> is_due now m = false ->
  exists t a, map_fold (fun _ => sooner now) None pd = Some t /\ retryAt m = Some a /\ t <= a.
Proof.
  intros Hm Hf Hd. revert Hm. apply (map_fold_weak_ind (fun next pd => pd !! s = Some m -> exists t a, next = Some t /\ retryAt m = Some a /\ t <= a)); [done|].
  intros k x pd' next _ IH [[<- <-]|[_ Hm]]%lookup_insert_Some; [by apply sooner_self|]. destruct (IH Hm) as (t & a & -> & Ha & Hle).
  destruct (sooner_le now x (Some t) t eq_refl) as (t' & -> & Hle'). exists t', a. split_and!; [done|done|lia].
Qed.

Lemma awake_keep p p' h h' :
  drain p' = drain p -> connected p' = connected p -> canceled p' = canceled p -> (rouse p = true -> rouse p' = true) ->
  calm p p' \/ rouse p' = true -> items h' ⊆ items h \/ rouse p' = true -> awake p h -> awake p' h'.
Proof.
  intros Ed Ec Ex Hr Hc Hi [A1 A2]. split; [by rewrite Ed, Ex|]. destruct (rouse p') eqn:Er; [by left|right]. destruct Hc as [Hc|]; [|done]. destruct Hi as [Hi|]; [|done].
  destruct A2 as [A2|A2]; [by specialize (Hr A2)|]. pose proof Hc as (_ & Hs & Hcl). rewrite Ed, Ec, Hs. destruct (drain p) as [| | |todo next room|todo next|next unread|]; try done.
  - destruct A2 as [A2 A3]. split; [by apply (calm_covered _ p)|done].
  - by apply (calm_covered _ p).
  - intros Hco. destruct (A2 Hco) as [Hn H]. split; [by apply (calm_covered _ p)|]. destruct H as [H|[H|H]]; [by left|by right; left|right; right].
    intros x Hx. rewrite Hcl. by apply H, Hi.
Qed.

Lemma rouse_inline t rest p : inline p = t :: rest ->
  rouse p = notify p || moved p || (will_signal t || existsb will_signal (rest ++ tasks p)).
Proof. intros E. unfold rouse. by rewrite E. Qed.

Lemma awake_new p h : drain p = DTop -> canceled p = false -> awake p h.
Proof. intros E1 E2. split; [by rewrite E2|]. rewrite E1. by right. Qed.

(** [claim] that finds nothing has seen all the queue holds. *)
Lemma claim_empty all0 p h ws ts n p' :
  last_seq h < 2 ^ 63 - 1 -> good all0 p h ws ts -> 0 < n -> claim n p = (p', Some []) -> caught_up p' h.
Proof.
  intros Hb G Hn. pose proof (gd_tracked _ _ _ _ _ G) as [C1 _ _ _ _]. unfold claim. destruct (queue_do _ p) as [p1 r] eqn:E.
  destruct (queue_do_same _ _ _ _ E) as (E1 & _). destruct (peek_answers _ _ _ _ _ h E) as [_ Hr]; [lia|by apply (gd_queue _ _ _ _ _ G)|done|].
  destruct Hr as [->|Hr]; [|destruct r as [|[es|]| | |]; try done; by destruct (Hr es)]. set (es := ztake n _). intros [= <- Hnil]. destruct (last es) as [e|] eqn:El; [by rewrite (map_eq_nil _ _ Hnil) in El|].
  intros x Hx. cbn. rewrite E1. destruct (decide (Seq x <= claimed p)) as [|Hgt]; [done|]. exfalso.
  assert (Hin : x ∈ above (claimed p) (items h)) by (apply (list_elem_of_filter (fun y : queueEntry => claimed p < Seq y)); split; [lia|done]).
  apply map_eq_nil in Hnil. unfold es in Hnil. destruct (above (claimed p) (items h)) as [|y l]; [by apply not_elem_of_nil in Hin|]. rewrite ztake_cons in Hnil by done. done.
Qed.
(** One task of a thread is replaced by what it leaves to do. *)
Lemma awake_task p h h' t now before_ after_ us p1 p2 :
  inline p ++ tasks p = before_ ++ t :: after_ -> run_task cfg t now p = (p1, us) -> inline p2 ++ tasks p2 ≡ₚ us ++ before_ ++ after_ ->
  drain p2 = drain p -> pending p2 = pending p1 -> claimed p2 = claimed p1 -> notify p2 = notify p1 -> flags p2 = flags p1 ->
  items h' ⊆ items h \/ rouse p2 = true -> awake p h -> awake p2 h'.
Proof.
  intros Et E Et2 Ed Ep Ecl En Ef Hi A. pose proof (run_task_calm t now p) as H. rewrite E in H. destruct H as (F1 & F2 & F3 & F4). rewrite F1 in Ef. unfold flags in Ef. injection Ef as Em Ec Ex.
  assert (Ew : existsb will_signal (inline p2 ++ tasks p2) = existsb will_signal us || (existsb will_signal before_ || existsb will_signal after_)) by (rewrite <- !existsb_app; by apply existsb_perm).
  assert (Hr : existsb will_signal us = true \/ notify p1 = true -> rouse p2 = true) by (unfold rouse; rewrite Ew, En; intros [-> | ->]; by rewrite ?orb_true_r).
  apply (awake_keep p p2 h h'); try done.
  - unfold rouse. rewrite Et, Ew, En, Em, existsb_app. cbn. rewrite !orb_true_iff. intros [[Hn|Hm]|[Hb|[Ht|Ha]]]; [left; left; by apply F2|by left; right|right; right; by left| |right; right; by right].
    destruct (F3 Ht) as [Hu|Hn]; [right; by left|left; by left].
  - destruct F4 as [(C1 & C2 & C3)|[_ Hu]]; [left|right; apply Hr; by left]. unfold calm, sz in *. rewrite Ep, Ecl. by split_and!.
Qed.

Lemma awake_after_due all0 p h next room :
  last_seq h < 2 ^ 63 - 1 -> good all0 p h (settling p) (tasks p) -> canceled p = false -> inline p = [] ->
  rouse p = true \/ (covered next p /\ window cfg <= sz p + room) -> awake (after_due next room p) h.
Proof.
  intros Hb G Hx Ei A. unfold after_due. destruct ((room <=? 0) || negb (connected p) || canceled p) eqn:Ec.
  { split; cbn; [by rewrite Hx|]. destruct A as [A|[A1 A2]]; [by left|right]. intros Hco. split; [exact A1|]. right; left. change (sz _) with (sz p).
    rewrite Hx, Hco, orb_false_r in Ec. cbn in Ec. rewrite orb_false_r in Ec. apply Z.leb_le in Ec. lia. }
  apply orb_false_iff in Ec as [[Hroom _]%orb_false_iff _]. apply Z.leb_gt in Hroom. pose proof (good_claim _ _ _ _ _ room Hb G) as Gc. pose proof (claim_threads room p) as E.
  pose proof (claim_empty all0 p h (settling p) (tasks p) room) as Hemp. pose proof (claim_calm room p) as (Hcov & F & Hn). destruct (claim room p) as [p1 r]. cbn [fst] in *. unfold threads in E. injection E as _ E2 E3 E4. unfold flags in F. injection F as F1 F2 F3.
  assert (Hr : rouse p1 = rouse p) by (unfold rouse; by rewrite E2, E4, Hn, F1). destruct r as [[|s seqs]|]; (split; cbn; [by rewrite F3, Hx|]); (destruct A as [A|[A1 A2]]; [left; exact (eq_trans Hr A)|right]).
  - intros _. split; [by apply Hcov|]. right; right. by apply (Hemp p1 Hb G Hroom).
  - by apply Hcov.
  - intros _. split; [by apply Hcov|by left].
Qed.
Lemma awake_at p h : canceled p = false -> match drain p with DStart _ _ _ | DStarted _ _ | DSleep _ _ => False | _ => True end -> awake p h.
Proof. intros Ex Hd. split; [by rewrite Ex|]. right. by destruct (drain p). Qed.

Lemma awake_start p p1 h s adopted sent now :
  inline p1 = [] -> pending p1 = pending p -> claimed p1 = claimed p -> tasks p1 = tasks p -> inline p = [] -> notify p1 = notify p -> flags p1 = flags p ->
  (canceled p1 = true -> drain p1 = DDone) -> (forall p2, calm p p2 -> connected p2 = connected p -> drain p2 = drain p1 -> rouse p = true \/
    match drain p2 with DStart _ next room => covered next p2 /\ window cfg <= sz p2 + room | DStarted _ next => covered next p2 | DSleep next unread => connected p2 = true -> covered next p2 /\ (unread = true \/ window cfg <= sz p2 \/ caught_up p2 h) | _ => True end) ->
  awake (let (p2, us) := start cfg s adopted sent now p1 in p2 <| inline := us |>) h.
Proof.
  intros I1 P1 C1 T1 I0 N1 F1 Hx Hd. pose proof (start_calm s adopted sent now p1) as (Hc & F2 & N2). pose proof (start_threads s adopted sent now p1) as (D2 & I2 & T2).
  destruct (start cfg s adopted sent now p1) as [p2 us]. cbn [fst] in *. rewrite F1 in F2. unfold flags in F1, F2. injection F1 as M1 Co1 X1. injection F2 as M2 Co2 X2.
  split; cbn; [rewrite D2; intros E; apply Hx; congruence|]. destruct (Hd (p2 <| inline := us |>)) as [Hr|Hm]; [|exact Co2|exact D2|left|by right].
  - destruct Hc as (K1 & K2 & K3). split_and!; [intros k m' Hm'; rewrite <- P1; by apply K1| |cbn; congruence]. unfold sz in *. cbn. by rewrite <- P1.
  - unfold rouse in *. cbn. rewrite I0 in Hr. rewrite N2, N1, M2, T2, T1, existsb_app. cbn in Hr. rewrite !orb_true_iff in Hr. rewrite !orb_true_iff. tauto.
Qed.

Lemma awake_drain all0 p h h' adopted sent now :
  last_seq h < 2 ^ 63 - 1 -> inv all0 p h -> awake p h -> items h' ⊆ items h \/ rouse (drain_step cfg adopted sent now p) = true ->
  awake (drain_step cfg adopted sent now p) h'.
Proof.
  intros Hb G A Hi. unfold drain_step in *. destruct (inline p) as [|t rest] eqn:Ei.
  2: { destruct (run_task cfg t now p) as [p1 us] eqn:E. pose proof (run_task_threads t now p) as Et. rewrite E in Et. unfold threads in Et. cbn [fst] in Et. injection Et as D1 I1 S1 T1.
       apply (awake_task p h h' t now [] (rest ++ tasks p) us p1); try done; (by rewrite Ei) || (cbn; by rewrite T1, <- app_assoc). }
  assert (Hmono : forall p', awake p' h -> items h' ⊆ items h \/ rouse p' = true -> awake p' h').
  { intros p' A' Hi'. apply (awake_keep p' p' h h'); try done. left. by apply calm_refl. }
  destruct A as [A1 A2]. assert (Hx : drain p <> DDone -> canceled p = false) by (destruct (canceled p); [by intros []; apply A1|done]).
  destruct (drain p) as [| | |[|s todo] next room|[|s todo] next|next unread|] eqn:Ed; apply Hmono; try done; clear Hmono Hi; try specialize (Hx ltac:(done)).
  - by apply awake_at.
  - destruct (connected p) eqn:Ec; [by apply awake_at|]. split; cbn; [by rewrite Hx|]. right. by rewrite Ec.
  - unfold due. split; [intros E; change (canceled p = true) in E; congruence|]. right. cbn. split.
    + intros s m'. cbn. rewrite lookup_fmap. destruct (pending p !! s) as [m|] eqn:Hm; [|done]. intros [= <-]. destruct (is_due now m) eqn:Hd; [by left|]. destruct (inFlight m) eqn:Hf; [by left|right].
      by apply (sooner_covers now (pending p) s m).
    + unfold sz. cbn. lia.
  - apply (awake_after_due all0); try done. unfold inv, waiting, all_tasks, drain_todo in G. by rewrite Ed, Ei in G.
  - apply (awake_start p); try done; [intros E; change (canceled p = true) in E; congruence|]. intros p2 Hc _ ->. cbn. destruct A2 as [|[A2 A3]]; [by left|right]. destruct Hc as (K1 & K2 & K3). rewrite K2. split; [|done]. by apply (calm_covered _ p).
  - destruct (connected p) eqn:Ec; [by apply awake_at|]. split; cbn; [by rewrite Hx|]. right. by rewrite Ec.
  - apply (awake_start p); try done; [intros E; change (canceled p = true) in E; congruence|]. intros p2 Hc _ ->. cbn. destruct A2 as [|A2]; [by left|right]. by apply (calm_covered _ p).
  - split; [by rewrite Hx|by rewrite Ed].
  - split; [done|by rewrite Ed].
Qed.
Lemma awake_step all0 p h h' i :
  last_seq h < 2 ^ 63 - 1 -> inv all0 p h -> awake p h -> items h' ⊆ items h \/ rouse (step cfg i p) = true -> awake (step cfg i p) h'.
Proof.
  intros Hb G A Hi. assert (Hkeep : forall p', drain p' = drain p -> flags p' = flags p -> pending p' = pending p -> claimed p' = claimed p -> (rouse p = true -> rouse p' = true) -> items h' ⊆ items h \/ rouse p' = true -> awake p' h').
  { intros p' E1 E2 E3 E4 Hr Hs. unfold flags in E2. injection E2 as _ E5 E6. apply (awake_keep p p' h h'); try done. left. by apply calm_refl. }
  destruct i as [o id now|i now|adopted sent now|w now|s err now|up| |timeout]; cbn [step] in *.
  - destruct (closing p); [by apply Hkeep|]. destruct (publish_entry cfg o id now); try (by apply Hkeep). apply Hkeep; try done. unfold rouse. cbn. rewrite !existsb_app. cbn. by rewrite !orb_true_iff.
  - destruct (tasks p !! i) as [t|] eqn:Et; [|by apply Hkeep]. destruct (run_task cfg t now p) as [p1 us] eqn:E. pose proof (run_task_threads t now p) as Th. rewrite E in Th. unfold threads in Th. cbn [fst] in Th. injection Th as D1 I1 S1 T1.
    apply (awake_task p h h' t now (inline p ++ take i (tasks p)) (drop (S i) (tasks p)) us p1); try done.
    + rewrite <- app_assoc. f_equal. symmetry. by apply take_drop_middle.
    + cbn. rewrite I1, T1, !app_assoc. f_equiv. f_equiv. apply Permutation_app_comm.
  - by apply (awake_drain all0 p h).
  - unfold wake_up in *. destruct (drain p) as [| | |? ? ?|? ?|next unread|] eqn:Ed; try (by apply Hkeep).
    assert (Hx : canceled p = false) by (destruct (canceled p) eqn:Ec; [by pose proof (aw_canceled _ _ A Ec) as E; rewrite Ed in E|done]).
    destruct next as [t|], w; try destruct (closing p); try destruct (notify p); try destruct (moved p); try destruct (t <=? now); try (by apply awake_at); by apply Hkeep.
  - destruct (decide (s ∈ settling p)); [|by apply Hkeep]. pose proof (settled_calm s err now (p <| settling ::= filter (fun k => k <> s) |>)) as (Hc & F & N). pose proof (settled_threads s err now (p <| settling ::= filter (fun k => k <> s) |>)) as Th.
    destruct (settled cfg s err now _) as [p1 us]. cbn [fst] in *. unfold threads in Th. injection Th as D1 I1 S1 T1. unfold flags in F. injection F as F1 F2 F3.
    apply (awake_keep p _ h h'); try done; [|by left]. unfold rouse. cbn. rewrite N, F1, I1, T1, !existsb_app, !orb_true_iff. cbn. tauto.
  - destruct A as [A1 A2]. split; [exact A1|]. left. unfold rouse. cbn. by rewrite orb_true_r.
  - by apply Hkeep.
  - destruct (drain p) eqn:Ed; try (by apply Hkeep). destruct (_ || _) in Hi |- *; [|by apply Hkeep]. pose proof (queue_do_threads QClose (p <| canceled := true |>)) as Th. destruct (queue_do QClose _) as [p1 r]. cbn [fst] in *.
    unfold threads in Th. injection Th as D1 _ _ _. change (drain p1 = drain p) in D1. rewrite Ed in D1. split; [done|]. right. by rewrite D1.
Qed.

(** *** The window *)

Lemma calm_window p p' : drain p' = drain p -> sz p' <= sz p -> fits_window p -> fits_window p'.
Proof. intros Ed Hs [W1 W2]. split; [lia|]. rewrite Ed. destruct (drain p); try done. lia. Qed.

Lemma run_task_size t now p : sz (fst (run_task cfg t now p)) <= sz p.
Proof.
  pose proof (run_task_calm t now p) as H. destruct (run_task cfg t now p) as [p' us]. destruct H as (_ & _ & _ & [(_ & Hs & _)|[Hs _]]); cbn; lia.
Qed.

Lemma foldl_insert_size (es : list queueEntry) : forall pd : gmap Z queuedMessage,
  Z.of_nat (size (foldl (fun m e => <[Seq e := mkQueued e true 0 None false false]> m) pd es)) <= Z.of_nat (size pd) + len es.
Proof.
  induction es as [|e es IH]; intros pd; cbn [foldl]; [rewrite len_nil; lia|]. rewrite len_cons. specialize (IH (<[Seq e := mkQueued e true 0 None false false]> pd)).
  assert (size (<[Seq e := mkQueued e true 0 None false false]> pd) <= S (size pd))%nat by (rewrite map_size_insert; destruct (pd !! Seq e); cbn; lia). lia.
Qed.

Lemma claim_size all0 p h ws ts n : last_seq h < 2 ^ 63 - 1 -> good all0 p h ws ts -> 0 < n -> sz (fst (claim n p)) <= sz p + n.
Proof.
  intros Hb G Hn. pose proof (gd_tracked _ _ _ _ _ G) as [C1 _ _ _ _]. unfold claim. destruct (queue_do _ p) as [p1 r] eqn:E.
  destruct (queue_do_same _ _ _ _ E) as (_ & E2 & _). destruct (peek_answers _ _ _ _ _ h E) as [_ Hr]; [lia|by apply (gd_queue _ _ _ _ _ G)|done|].
  assert (Hs : sz p1 = sz p) by (unfold sz; by rewrite E2). destruct Hr as [->|Hr]; [|destruct r as [|[es|]| | |]; cbn; try lia; by destruct (Hr es)].
  set (es := ztake n _). assert (He : len es <= n) by (unfold es, ztake, len; rewrite length_take; lia). pose proof (foldl_insert_size es (pending p1)) as Hf. unfold sz in *. destruct (last es); cbn; lia.
Qed.

Lemma window_drain all0 p h adopted sent now :
  last_seq h < 2 ^ 63 - 1 -> inv all0 p h -> fits_window p -> fits_window (drain_step cfg adopted sent now p).
Proof.
  intros Hb G W. unfold drain_step. destruct (inline p) as [|t rest] eqn:Ei.
  2: { pose proof (run_task_size t now p) as Hs. pose proof (run_task_threads t now p) as Th. destruct (run_task cfg t now p) as [p1 us]. unfold threads in Th. injection Th as D1 _ _ _. by apply (calm_window p). }
  destruct W as [W1 W2]. assert (Hat : forall p', sz p' = sz p -> match drain p' with DStart _ _ _ => False | _ => True end -> fits_window p') by (intros p' Es Hd; split; [lia|by destruct (drain p')]).
  assert (Hst : forall s p1, sz p1 = sz p -> fits_window p1 -> fits_window (let (p2, us) := start cfg s adopted sent now p1 in p2 <| inline := us |>)).
  { intros s p1 _ W. pose proof (start_calm s adopted sent now p1) as ((_ & Hs & _) & _). pose proof (start_threads s adopted sent now p1) as (D2 & _). destruct (start cfg s adopted sent now p1) as [p2 us]. apply (calm_window p1); [done|cbn [fst] in *; change (sz (p2 <| inline := us |>)) with (sz p2); lia|done]. }
  destruct (drain p) as [| | |[|s todo] next room|[|s todo] next|next unread|] eqn:Ed; try (by apply Hat).
  - apply Hat; [done|]. cbn. by destruct (connected p).
  - unfold due. assert (Es : forall x, sz (p <| pending ::= fmap (fun m => if is_due now m then m <| inFlight := true |> else m) |> <| drain := x |>) = sz p) by (intros x; unfold sz; cbn; by rewrite map_size_fmap).
    split; rewrite Es; [done|]. cbn. rewrite map_size_fmap. unfold sz. lia.
  - unfold after_due. destruct ((room <=? 0) || negb (connected p) || canceled p) eqn:Ec; [by apply Hat|]. apply orb_false_iff in Ec as [[Hroom _]%orb_false_iff _]. apply Z.leb_gt in Hroom.
    pose proof (claim_size all0 p h (waiting p) (all_tasks p) room Hb G Hroom) as Hs. destruct (claim room p) as [p1 r]. cbn [fst] in Hs. destruct r as [[|s seqs]|]; (split; [change (sz p1 <= window cfg); lia|done]).
  - apply Hst; [done|]. split; [done|exact W2].
  - apply Hat; [done|]. cbn. by destruct (connected p).
  - apply Hst; [done|]. by split.
  - apply Hat; [done|]. by rewrite Ed.
  - apply Hat; [done|]. by rewrite Ed.
Qed.

Lemma window_step all0 p h i : last_seq h < 2 ^ 63 - 1 -> inv all0 p h -> fits_window p -> fits_window (step cfg i p).
Proof.
  intros Hb G W. destruct i as [o id now|i now|adopted sent now|w now|s err now|up| |timeout]; cbn [step]; try (by apply (calm_window p)).
  - destruct (closing p); [exact W|]. destruct (publish_entry cfg o id now); by apply (calm_window p).
  - destruct (tasks p !! i) as [t|]; [|done]. pose proof (run_task_size t now p) as Hs. pose proof (run_task_threads t now p) as Th. destruct (run_task cfg t now p) as [p1 us]. unfold threads in Th. injection Th as D1 _ _ _. by apply (calm_window p).
  - by apply (window_drain all0 p h).
  - destruct W as [W1 W2]. unfold wake_up. destruct (drain p) as [| | |? ? ?|? ?|next unread|] eqn:Ed; try (split; [done|by rewrite Ed]).
    destruct next as [t|], w; try destruct (closing p); try destruct (notify p); try destruct (moved p); try destruct (t <=? now); split; try done; by rewrite Ed.
  - destruct (decide (s ∈ settling p)); [|done]. pose proof (settled_calm s err now (p <| settling ::= filter (fun k => k <> s) |>)) as ((_ & Hs & _) & _). pose proof (settled_threads s err now (p <| settling ::= filter (fun k => k <> s) |>)) as Th.
    destruct (settled cfg s err now _) as [p1 us]. cbn [fst] in *. unfold threads in Th. injection Th as D1 _ _ _. apply (calm_window p); [done|change (sz p1 <= sz p); rewrite Hs; done|done].
  - destruct (drain p) eqn:Ed; try done. destruct (_ || _); [|done]. pose proof (queue_do_calm QClose (p <| canceled := true |>)) as ((_ & Hs & _) & _). pose proof (queue_do_threads QClose (p <| canceled := true |>)) as Th.
    destruct (queue_do QClose _) as [p1 r]. cbn [fst] in *. unfold threads in Th. injection Th as D1 _ _ _. apply (calm_window p); [done|rewrite Hs; done|done].
Qed.
(** *** Termination of [fill] *)

(** Work the drain does itself never stores a message. *)
Definition own_task (t : task) : bool := match t with TEnqueue _ | TEvicted _ => false | _ => true end.

Definition task_cost (t : task) : Z := match t with TRemove _ _ => 3 | TDelete _ _ | TRetry _ _ _ => 2 | _ => 1 end.

Fixpoint cost ts : Z := match ts with [] => 0 | t :: ts => task_cost t + cost ts end.

Lemma cost_app ts us : cost (ts ++ us) = cost ts + cost us.
Proof. induction ts as [|t ts IH]; cbn; [done|]. rewrite IH. lia. Qed.

Lemma cost_nonneg ts : 0 <= cost ts.
Proof. induction ts as [|t ts IH]; cbn; [done|]. destruct t; cbn; lia. Qed.

Definition own p : Prop := forallb own_task (inline p) = true.

(** How many steps the drain has before it sleeps, at most, when the queue
    has given out [last] sequence numbers. *)
Definition work (last_ : Z) p : Z :=
  let w := window cfg in
  let ahead := (last_ - claimed p) * (8 * w + 3) in
  cost (inline p) +
  match drain p with
  | DTop => 8 * w + 6 + ahead
  | DLoad => 8 * w + 5 + ahead
  | DDue => 8 * w + 4 + ahead
  | DStart todo _ _ => 4 * len todo + 4 * w + 3 + ahead
  | DStarted todo _ => 4 * len todo + 8 * w + 5 + ahead
  | DSleep _ _ | DDone => 0
  end.

Lemma run_task_cost t now p : own_task t = true ->
  let (p', us) := run_task cfg t now p in cost us < task_cost t /\ forallb own_task us = true /\ claimed p' = claimed p.
Proof.
  destruct t as [e|[|e ev]| |s c|s c|s a [[]|]]; try done; intros _; cbn [run_task].
  - destruct (queue_do (QAck s) p) as [p' r] eqn:E. destruct (queue_do_same _ _ _ _ E) as (Ec & _). by destruct r as [| |[|]| |].
  - by destruct c.
Qed.

Lemma start_cost s adopted sent now p :
  let (p', us) := start cfg s adopted sent now p in cost us <= 3 /\ forallb own_task us = true /\ claimed p' = claimed p.
Proof.
  pose proof (start_calm s adopted sent now p) as ((_ & _ & Hc) & _). destruct (start cfg s adopted sent now p) as [p' us] eqn:E. cbn [fst] in Hc. revert E. unfold start, failed_, drop_message.
  repeat case_match; intros [= <- <-]; by split_and!.
Qed.

Lemma claim_progress all0 p h ws ts n p' seqs :
  last_seq h < 2 ^ 63 - 1 -> good all0 p h ws ts -> 0 < n -> claim n p = (p', Some seqs) -> seqs <> [] -> claimed p < claimed p' /\ len seqs <= n.
Proof.
  intros Hb G Hn. pose proof (gd_tracked _ _ _ _ _ G) as [C1 _ _ _ _]. unfold claim. destruct (queue_do _ p) as [p1 r] eqn:E.
  destruct (queue_do_same _ _ _ _ E) as (E1 & _). destruct (peek_answers _ _ _ _ _ h E) as [_ Hr]; [lia|by apply (gd_queue _ _ _ _ _ G)|done|].
  destruct Hr as [->|Hr]; [|destruct r as [|[es|]| | |]; try done; by destruct (Hr es)]. destruct (peeked h (claimed p) n (gd_order _ _ _ _ _ G)) as (_ & He & _). set (es := ztake n _) in *.
  intros [= <- <-] Hne. split; [|rewrite len_map; unfold es, ztake, len; rewrite length_take; lia]. destruct (last es) as [e|] eqn:El; [|apply last_None in El; by rewrite El in Hne].
  cbn. destruct (He e (last_elem _ _ El)). lia.
Qed.

Lemma todo_le now p : len (merge_sort Z.le (map fst (map_to_list (filter (fun x => is_due now (snd x) = true) (pending p))))) <= sz p.
Proof.
  unfold len, sz. rewrite merge_sort_Permutation, length_fmap, length_map_to_list. apply inj_le, map_subseteq_size, map_filter_subseteq.
Qed.

Lemma drain_works all0 p h adopted sent now :
  last_seq h < 2 ^ 63 - 1 -> inv all0 p h -> fits_window p -> own p -> 1 <= window cfg ->
  let p' := drain_step cfg adopted sent now p in
  own p' /\ 0 <= work (last_seq h) p /\ (work (last_seq h) p' < work (last_seq h) p \/ (work (last_seq h) p = 0 /\ p' = p)).
Proof.
  intros Hb G [W1 W2] Ho Hw. pose proof (tk_claimed _ _ _ _ (gd_tracked _ _ _ _ _ G)) as Hc. pose proof (cost_nonneg (inline p)) as Hcn.
  assert (Ha : 0 <= (last_seq h - claimed p) * (8 * window cfg + 3)) by nia.
  assert (Hpos : 0 <= work (last_seq h) p) by (unfold work; destruct (drain p) as [| | |todo next room|todo next|next unread|]; try pose proof (len_nonneg todo); lia).
  unfold drain_step, own in *. unfold work in Hpos |- *. destruct (inline p) as [|t rest] eqn:Ei.
  2: { cbn in Ho. apply andb_true_iff in Ho as [Ht Hrest]. pose proof (run_task_cost t now p Ht) as H. pose proof (run_task_threads t now p) as Th. destruct (run_task cfg t now p) as [p1 us].
       unfold threads in Th. cbn [fst] in Th. injection Th as D1 _ _ _. destruct H as (H1 & H2 & H3). cbn. split; [by rewrite forallb_app, H2, Hrest|]. split; [done|]. left. rewrite cost_app, D1, H3. cbn in *. lia. }
  cbn [cost] in *. assert (Hst : forall s d p1, inline p1 = [] -> claimed p1 = claimed p -> drain p1 = d ->
    let p' := let (p2, us) := start cfg s adopted sent now p1 in p2 <| inline := us |> in forallb own_task (inline p') = true /\ cost (inline p') <= 3 /\ claimed p' = claimed p /\ drain p' = d).
  { intros s d p1 I1 C1 D1. pose proof (start_cost s adopted sent now p1) as H. pose proof (start_threads s adopted sent now p1) as (D2 & _). destruct (start cfg s adopted sent now p1) as [p2 us]. cbn [fst] in D2.
    destruct H as (H1 & H2 & H3). cbn. split_and!; try done; congruence. }
  destruct (drain p) as [| | |[|s todo] next room|[|s todo] next|next unread|] eqn:Ed; cbn; try change (@len Z []) with 0 in *.
  - rewrite Ei. split; [done|]. split; [done|]. left. cbn. lia.
  - rewrite Ei. split; [done|]. split; [done|]. left. cbn. destruct (connected p); cbn; lia.
  - rewrite Ei. split; [done|]. split; [done|]. left. cbn. pose proof (todo_le now p) as Ht. lia.
  - split; [|split; [done|left]].
    + pose proof (claim_threads room p) as Th. unfold after_due. destruct (_ || _ || _); [cbn; by rewrite Ei|]. destruct (claim room p) as [p1 [[|s seqs]|]]; unfold threads in Th; injection Th as _ I1 _ _; cbn; by rewrite I1, Ei.
    + pose proof (claim_threads room p) as Th. unfold after_due. destruct ((room <=? 0) || negb (connected p) || canceled p) eqn:Ec; [cbn; rewrite Ei; cbn; lia|].
      apply orb_false_iff in Ec as [[Hroom _]%orb_false_iff _]. apply Z.leb_gt in Hroom. pose proof (claim_progress all0 p h (waiting p) (all_tasks p) room) as Hp.
      destruct (claim room p) as [p1 r]; unfold threads in Th; cbn [fst] in Th; injection Th as _ I1 _ _. rewrite Ei in I1. destruct r as [[|s seqs]|]; cbn; rewrite I1; cbn; try lia.
      destruct (Hp p1 (s :: seqs) Hb G Hroom eq_refl) as [Hcl Hlen]; [done|]. unfold sz in W2. cbn in W2. nia.
  - pose proof (Hst s (DStart todo next room) (p <| drain := DStart todo next room |>)) as H; cbv zeta in H. destruct H as (H1 & H2 & H3 & H4); [exact Ei|reflexivity|reflexivity|]. split; [exact H1|]. split; [done|]. left. rewrite H3, H4, len_cons. lia.
  - rewrite Ei. split; [done|]. split; [done|]. left. cbn. destruct (connected p); cbn; lia.
  - pose proof (Hst s (DStarted todo next) (p <| drain := DStarted todo next |>)) as H; cbv zeta in H. destruct H as (H1 & H2 & H3 & H4); [exact Ei|reflexivity|reflexivity|]. split; [exact H1|]. split; [done|]. left. rewrite H3, H4, len_cons. lia.
  - rewrite Ei. split; [done|]. split; [done|]. by right.
  - rewrite Ei. split; [done|]. split; [done|]. by right.
Qed.
(** Everything that holds in every state. *)
Record sound (all0 : list queueEntry) p h : Prop := {
  so_inv : inv all0 p h;
  so_awake : awake p h;
  so_window : fits_window p;
  so_own : own p;
}.

Lemma own_step i p : (forall adopted sent now, i <> IDrain adopted sent now) -> own p -> own (step cfg i p).
Proof.
  unfold own. intros Hi Ho. assert (Hsame : forall p', inline p' = inline p -> forallb own_task (inline p') = true) by (by intros p' ->).
  destruct i as [o id now|i now|adopted sent now|w now|s err now|up| |timeout]; cbn [step]; try (by apply Hsame).
  - destruct (closing p); [done|]. by destruct (publish_entry cfg o id now); apply Hsame.
  - destruct (tasks p !! i) as [t|]; [|done]. pose proof (run_task_threads t now p) as Th. destruct (run_task cfg t now p) as [p1 us]. unfold threads in Th. injection Th as _ I1 _ _. by apply Hsame.
  - by destruct (Hi adopted sent now).
  - apply Hsame. unfold wake_up. destruct (drain p) as [| | |? ? ?|? ?|[t|] unread|], w; try done; by destruct (closing p), (notify p), (moved p); try destruct (t <=? now).
  - destruct (decide (s ∈ settling p)); [|done]. pose proof (settled_threads s err now (p <| settling ::= filter (fun k => k <> s) |>)) as Th. destruct (settled cfg s err now _) as [p1 us]. unfold threads in Th. injection Th as _ I1 _ _. by apply Hsame.
  - destruct (drain p); try done. destruct (_ || _); [|done]. pose proof (queue_do_threads QClose (p <| canceled := true |>)) as Th. destruct (queue_do QClose _) as [p1 r]. unfold threads in Th. injection Th as _ I1 _ _. by apply Hsame.
Qed.

Lemma sound_step all0 p h i : 1 <= window cfg -> last_seq h < 2 ^ 63 - 1 -> input_ok i -> sound all0 p h ->
  exists h', last_seq h' <= last_seq h + 1 /\ sound all0 (step cfg i p) h'.
Proof.
  intros Hw Hb Hi [S1 S2 S3 S4]. destruct (inv_step all0 p h i Hb Hi S1) as (h' & Hl & Hs & G'). exists h'. split; [done|].
  split; [done|by apply (awake_step all0 p h)|by apply (window_step all0 p h)|]. destruct i; try (by apply own_step). by apply (drain_works all0 p h).
Qed.

Lemma sound_run all0 is_ : forall p h, 1 <= window cfg -> Forall input_ok is_ -> last_seq h + len is_ < 2 ^ 63 -> sound all0 p h ->
  exists h', last_seq h' <= last_seq h + len is_ /\ sound all0 (run cfg is_ p) h'.
Proof.
  induction is_ as [|i is_ IH]; intros p h Hw Hok Hb S; [exists h; rewrite len_nil; split; [lia|done]|]. inversion_clear Hok as [|? ? Hi Hok']. rewrite len_cons in Hb |- *. pose proof (len_nonneg is_).
  destruct (sound_step all0 p h i) as (h1 & Hl & S1); [done|lia|done|done|]. destruct (IH (step cfg i p) h1) as (h2 & Hl2 & S2); [done|done|lia|done|]. exists h2. split; [lia|done].
Qed.

Lemma sound_new q h up : 1 <= window cfg -> holds_queue q (Some h) -> in_order h -> sound (items h) (NewQueuePublisher q up) h.
Proof.
  intros Hw Hq Ho. split; [by apply inv_new|by apply awake_new| |done]. split; [|done]. change (Z.of_nat (size (∅ : gmap Z queuedMessage)) <= window cfg). rewrite map_size_empty. lia.
Qed.

Definition drain_inputs (ds : list (bool * option cerror * Z)) : list input := map (fun '(adopted, sent, now) => IDrain adopted sent now) ds.

Definition asleep p : Prop := match drain p with DSleep _ _ | DDone => True | _ => False end.

Lemma drain_sleeps all0 ds : forall p h, 1 <= window cfg -> last_seq h < 2 ^ 63 - 1 -> sound all0 p h -> work (last_seq h) p <= len ds -> asleep (run cfg (drain_inputs ds) p).
Proof.
  induction ds as [|[[adopted sent] now] ds IH]; intros p h Hw Hb S Hn; pose proof S as [S1 S2 S3 S4]; destruct (drain_works all0 p h false None 0 Hb S1 S3 S4 Hw) as (_ & Hpos & _).
  - rewrite len_nil in Hn. unfold asleep, work in *. pose proof (cost_nonneg (inline p)). pose proof (tk_claimed _ _ _ _ (gd_tracked _ _ _ _ _ S1)). cbn.
    assert (0 <= (last_seq h - claimed p) * (8 * window cfg + 3)) by nia. destruct (drain p) as [| | |todo ? ?|todo ?| |]; try pose proof (len_nonneg todo); try done; lia.
  - cbn. destruct (drain_works all0 p h adopted sent now Hb S1 S3 S4 Hw) as (Ho & _ & Hdec). pose proof (len_nonneg ds). rewrite len_cons in Hn.
    destruct (inv_drain all0 p h adopted sent now Hb S1) as (h' & Hl & Hs & Hlast & G').
    assert (El : last_seq h' = last_seq h) by (apply Hlast; intros (e & rest & E); unfold own in S4; by rewrite E in S4).
    assert (S' : sound all0 (drain_step cfg adopted sent now p) h') by (split; [done|by apply (awake_drain all0 p h)|by apply (window_drain all0 p h)|done]).
    apply (IH _ h'); [done|lia|done|]. rewrite El. destruct Hdec as [|[Hz Hp]]; [lia|]. change (step cfg (IDrain adopted sent now) p) with (drain_step cfg adopted sent now p) in *. rewrite Hp. lia.
Qed.
End invariants.

(** ** Properties *)

(** What a history starts from: a queue in order, a window of at least one,
    inputs of their types and fewer than 2^63 of them. *)
Definition history {Q : Type} `{!PublisherQueue Q entry_body} (cfg : queueConfig) (q : Q) (h0 : holding entry_body) (is_ : list input) : Prop :=
  holds_queue q (Some h0) /\ in_order h0 /\ 1 <= window cfg /\ Forall (input_ok cfg) is_ /\ last_seq h0 + len is_ < 2 ^ 63 - 1.

Lemma history_sound {Q : Type} `{!PublisherQueue Q entry_body} `{!DrainQueue Q} cfg (q : Q) h0 up is_ :
  history cfg q h0 is_ -> exists h, last_seq h < 2 ^ 63 - 1 /\ sound cfg (items h0) (run cfg is_ (NewQueuePublisher q up)) h.
Proof.
  intros (Hq & Ho & Hw & Hok & Hb). destruct (sound_run cfg (items h0) is_ (NewQueuePublisher q up) h0) as (h & Hl & S); [done|done|lia|by apply sound_new|]. exists h. split; [lia|done].
Qed.


(** Each message has one exchange at a time, and the window is kept: in
    every state the drain's list of messages to start, the exchanges the
    session holds and the messages other threads are finishing have no
    message in common or twice, and all of them are among the at most
    [window] claimed ones. *)
Theorem queue_one_exchange {Q : Type} `{!PublisherQueue Q entry_body} `{!DrainQueue Q} (cfg : queueConfig) (q : Q) (h0 : holding entry_body) (up : bool) (is_ : list input) :
  history cfg q h0 is_ ->
  let p := run cfg is_ (NewQueuePublisher q up) in
  let busy := drain_todo p ++ settling p ++ omap task_seq (all_tasks p) in
  NoDup busy /\ (forall s, s ∈ busy -> is_Some (pending p !! s)) /\ Z.of_nat (size (pending p)) <= window cfg /\ len busy <= window cfg.
Proof.
  intros H p busy. destruct (history_sound cfg q h0 up is_ H) as (h & _ & [[_ _ _ Hw _ _] _ Hf _]). fold p in Hw, Hf.
  pose proof (ow_nodup _ _ _ Hw) as N. unfold waiting in N. rewrite <- app_assoc in N. fold busy in N.
  assert (Hp : forall s, s ∈ busy -> is_Some (pending p !! s)) by (intros s Hs; unfold busy in Hs; rewrite app_assoc in Hs; apply (ow_flight _ _ _ Hw) in Hs as (m & -> & _); done).
  pose proof (fw_size _ _ Hf) as Hs. unfold sz in Hs. split_and!; try done. transitivity (Z.of_nat (size (pending p))); [|done]. unfold len. apply inj_le.
  rewrite <- (size_list_to_set (C := gset Z) busy N), <- (size_dom (pending p)). apply subseteq_size. intros s Hin%elem_of_list_to_set. by apply elem_of_dom, Hp.
Qed.


(** C27: [fill] ends.  From any state of the machine, the drain left to itself
    — whatever the session answers, and the clock — finishes what is due,
    claims what the queue holds as far as the window allows and goes to
    sleep within a number of steps that depends on the state alone. *)
Theorem queue_fill_terminates {Q : Type} `{!PublisherQueue Q entry_body} `{!DrainQueue Q} (cfg : queueConfig) (q : Q) (h0 : holding entry_body) (up : bool) (is_ : list input) :
  history cfg q h0 is_ ->
  exists n, forall ds, n <= len ds ->
    match drain (run cfg (is_ ++ drain_inputs ds) (NewQueuePublisher q up)) with DSleep _ _ | DDone => True | _ => False end.
Proof.
  intros H. pose proof H as (_ & _ & Hw & _). destruct (history_sound cfg q h0 up is_ H) as (h & Hb & S). exists (work cfg (last_seq h) (run cfg is_ (NewQueuePublisher q up))). intros ds Hn.
  unfold run. rewrite foldl_app. by apply (drain_sleeps cfg (items h0) ds _ h).
Qed.

(** A message waits for its lifetime and no longer.  The entry [Publish]
    stores at [now] expires at the earlier of its Message Expiry Interval and
    the queue's time to live (of at most 2^32 - 1 seconds); when it is sent later and has not expired, the
    interval it carries covers the time it has left, exceeds it by less than
    a second, and is not zero; a message with an interval that is sent the
    moment it was stored carries that interval. *)
Theorem queue_expiry (cfg : queueConfig) (o : PublishOptions) (id : list Z) (now later : Z) (e : entry_body) :
  publishable cfg o id now -> publish_entry cfg o id now = Ok e -> now <= later < 2 ^ 62 -> ttl cfg <= (2 ^ 32 - 1) * second ->
  ExpiresAt e = (let own := option_map (fun s => now + s * second) (o_MessageExpiryInterval o) in
                 if 0 <? ttl cfg then Some (match own with Some t => Z.min t (now + ttl cfg) | None => now + ttl cfg end) else own)
  /\ (forall t, ExpiresAt e = Some t -> expired e later = false ->
        exists s, o_MessageExpiryInterval (outgoing e later) = Some s /\ 1 <= s < 2 ^ 32 /\ t - later <= s * second < t - later + second)
  /\ (forall s, o_MessageExpiryInterval o = Some s -> 0 < s -> ttl cfg = 0 -> o_MessageExpiryInterval (outgoing e now) = Some s).
Proof.
  intros (Ht & _ & _ & _ & Hnow & Httl) E Hl Hs. assert (Hu : forall s, o_MessageExpiryInterval o = Some s -> is_u32 s) by (intros s Es; destruct Ht as (_ & _ & _ & _ & _ & T & _); cbn in T; by rewrite Es in T).
  assert (Em : o_MessageExpiryInterval (tagged cfg o id) = o_MessageExpiryInterval o) by (unfold tagged; by destruct (idempotency cfg)).
  assert (Ex : ExpiresAt e = (let own := option_map (fun s => now + s * second) (o_MessageExpiryInterval o) in
    if 0 <? ttl cfg then Some (match own with Some t => Z.min t (now + ttl cfg) | None => now + ttl cfg end) else own)).
  { revert E. unfold publish_entry. destruct (_ =? 0); [done|]. destruct (negb _); [done|]. destruct (EncodePublish _ 1); [|done..]. intros [= <-]. cbn [ExpiresAt]. rewrite Em.
    destruct (o_MessageExpiryInterval o) as [s|]; cbn; destruct (0 <? ttl cfg); cbn; try done. destruct (Z.ltb_spec (now + ttl cfg) (now + s * second)); f_equal; lia. }
  assert (Hleft : forall t at_, ExpiresAt e = Some t -> now <= at_ -> at_ < t -> let s := left_of t at_ in 1 <= s < 2 ^ 32 /\ t - at_ <= s * second < t - at_ + second).
  { intros t at_ Et Hat Hlt. assert (Hd : 0 < t - at_ <= (2 ^ 32 - 1) * second \/ t - at_ <= ttl cfg).
    { rewrite Et in Ex. revert Ex. cbn zeta. destruct (o_MessageExpiryInterval o) as [s|] eqn:Es; cbn; [specialize (Hu s eq_refl); unfold is_u32 in Hu|]; destruct (Z.ltb_spec 0 (ttl cfg)); intros [= ->]; unfold second in *; lia. }
    unfold left_of, saturate. rewrite Z.max_r, Z.min_r by (unfold second in *; lia). unfold i64, u64, u32, second in *. rewrite (Z.mod_small (t - at_ + 1000000000 - 1)) by lia. rewrite (proj2 (Z.ltb_lt _ _)) by lia.
    rewrite Z.quot_div_nonneg by lia. pose proof (Z.div_mod (t - at_ + 1000000000 - 1) 1000000000 ltac:(lia)) as Hdm. pose proof (Z.mod_pos_bound (t - at_ + 1000000000 - 1) 1000000000 ltac:(lia)).
    rewrite (Z.mod_small (_ / _)) by lia. lia. }
  split; [done|]. split.
  - intros t Et He. unfold expired in He. rewrite Et in He. apply Z.leb_gt in He. unfold outgoing. rewrite Et. eexists. split; [done|]. by apply (Hleft t later Et); [lia|].
  - intros s Es Hs0 Hz. assert (Et : ExpiresAt e = Some (now + s * second)) by (rewrite Ex, Es, Hz; done). unfold outgoing. rewrite Et.
    pose proof (Hleft _ now Et ltac:(lia) ltac:(unfold second; lia)) as Hr. cbn zeta in Hr. unfold second in *. cbn. f_equal. lia.
Qed.

(** ** Witnesses *)

Definition sample_config : queueConfig := mkConfig 2 3 DropOldest (60 * second) PermanentPublishError (fun n => (n + 1) * second) true.

Definition sample_options : PublishOptions :=
  {| o_Topic := str "a/b"; o_Payload := [1; 2]; o_QoS := 1; o_Retain := false; o_PayloadFormatIndicator := None; o_MessageExpiryInterval := Some 30;
     o_ContentType := []; o_ResponseTopic := []; o_CorrelationData := None; o_TopicAlias := 0; o_UserProperties := [] |}.

Lemma sample_publishable d now : is_u8 d -> 0 <= now < 2 ^ 62 -> publishable sample_config sample_options [109; d] now.
Proof. intros Hd Hn. split; [by repeat constructor|]. split; [vm_compute; discriminate|]. split; [by constructor; [|constructor; [exact Hd|constructor]]|]. split; [vm_compute; discriminate|]. split; [done|]. cbn. unfold second. lia. Qed.

Abbreviation memory := (MemoryPublisherQueue_queue queued_message).

(** Two messages are published and started; the broker accepts the first. *)
Definition drains (n : nat) (now : Z) : list input := repeat (IDrain false None now) n.

Definition sample_inputs : list input :=
  [IPublish sample_options [109; 49] 100; ITask 0 100; ITask 0 100; ITask 0 100;
   IPublish sample_options [109; 50] 200; ITask 0 200; ITask 0 200; ITask 0 200]
  ++ drains 9 300 ++ [ISettle 1 None 400; ITask 0 400; ITask 0 400; ITask 0 400].

Lemma sample_history : history (PublisherQueue0 := memory) sample_config NewMemoryPublisherQueue (mkHolding 0 []) sample_inputs.
Proof.
  split; [apply new_holds|]. split; [by repeat constructor|]. split; [done|]. split; [|done].
  unfold sample_inputs, drains. cbn [repeat app]. rewrite !Forall_cons, Forall_nil. cbn [input_ok]. split_and!; try exact I; by apply sample_publishable.
Qed.

Abbreviation sample_state := (run (PublisherQueue0 := memory) sample_config sample_inputs (NewQueuePublisher NewMemoryPublisherQueue true)).


Lemma queue_one_exchange_witness :
  NoDup (drain_todo sample_state ++ settling sample_state ++ omap task_seq (all_tasks sample_state)) /\ Z.of_nat (size (pending sample_state)) <= 2.
Proof.
  destruct (queue_one_exchange (PublisherQueue0 := memory) sample_config NewMemoryPublisherQueue (mkHolding 0 []) true sample_inputs sample_history) as (H1 & _ & H2 & _).
  split; [exact H1|exact H2].
Defined.

(** The drain has taken the signal and found nothing more to claim. *)
Definition sleep_inputs : list input := sample_inputs ++ [IWake WNotify 500] ++ drains 4 500.

Lemma sleep_history : history (PublisherQueue0 := memory) sample_config NewMemoryPublisherQueue (mkHolding 0 []) sleep_inputs.
Proof.
  destruct sample_history as (H1 & H2 & H3 & H4 & _). split; [done|]. split; [done|]. split; [done|]. split; [|done].
  apply Forall_app. split; [exact H4|]. by repeat constructor.
Qed.

Abbreviation sleep_state := (run (PublisherQueue0 := memory) sample_config sleep_inputs (NewQueuePublisher NewMemoryPublisherQueue true)).

Lemma no_tasks (l : list task) : l = [] -> forall t, t ∈ l -> will_signal t = false.
Proof. by intros -> t []%not_elem_of_nil. Qed.


Lemma queue_fill_terminates_witness :
  exists n, forall ds, n <= len ds ->
    match drain (run (PublisherQueue0 := memory) sample_config (sample_inputs ++ drain_inputs ds) (NewQueuePublisher NewMemoryPublisherQueue true)) with DSleep _ _ | DDone => True | _ => False end.
Proof. exact (queue_fill_terminates (PublisherQueue0 := memory) sample_config NewMemoryPublisherQueue (mkHolding 0 []) true sample_inputs sample_history). Defined.

(** Published at second 1 with 30 seconds to live, sent 2.5 seconds later. *)
Lemma queue_expiry_witness :
  exists e, publish_entry sample_config sample_options [109; 49] second = Ok e /\ ExpiresAt e = Some (31 * second)
    /\ exists s, o_MessageExpiryInterval (outgoing e (3500000000)) = Some s /\ 1 <= s < 2 ^ 32 /\ 27500000000 <= s * second < 28500000000.
Proof.
  eexists. split; [vm_compute; reflexivity|].
  destruct (queue_expiry sample_config sample_options [109; 49] second 3500000000 _ (sample_publishable 49 second ltac:(done) ltac:(done)) ltac:(vm_compute; reflexivity) ltac:(done) ltac:(done)) as (H1 & H2 & _).
  split; [vm_compute; reflexivity|]. exact (H2 (31 * second) ltac:(vm_compute; reflexivity) ltac:(vm_compute; reflexivity)).
Defined.

(** ** A queue that cannot be read *)

(** A memory queue whose next [Peek] fails when the flag is set. *)
Definition flaky_call (c : queue_call entry_body) (q : MemoryPublisherQueue entry_body * bool) : (MemoryPublisherQueue entry_body * bool) * queue_answer entry_body :=
  match c, snd q with
  | QPeek _ _, true => ((fst q, false), APeek (inr ErrQueueIO))
  | _, _ => let (q', r) := call (PublisherQueue := memory) c (fst q) in ((q', snd q), r)
  end.

#[export] Program Instance flaky : PublisherQueue (MemoryPublisherQueue entry_body * bool) entry_body := {
  call := flaky_call;
  queue_accepts := queue_accepts (PublisherQueue := memory);
  holds_queue q a := holds_queue (PublisherQueue := memory) (fst q) a;
}.
Next Obligation.
  cbn beta. intros c [q b] a Hc Hq Hb. pose proof (call_law (PublisherQueue := memory) c q a Hc Hq Hb) as H. unfold flaky_call. cbn [fst snd] in *.
  destruct (call (PublisherQueue := memory) c q) as [q' r]. destruct c, b; try exact H. right. by split.
Qed.

(** When the first [Peek] of a connected publisher fails, the drain sleeps
    without a timer although a message waits in the queue, and nothing is on
    its way that would wake it up: the message waits for some other event. *)
Example failed_peek_stalls :
  let q := fst (call (PublisherQueue := memory) (QEnqueue queued_message (mkLimit 0 DropNewest 0)) NewMemoryPublisherQueue) in
  let p := run (PublisherQueue0 := flaky) sample_config (drains 4 200) (NewQueuePublisher (q, true) true) in
  drain p = DSleep None true /\ connected p = true /\ notify p = false /\ moved p = false /\ all_tasks p = [] /\ pending p = ∅
  /\ snd (call (PublisherQueue := flaky) (QPeek (claimed p) 1) (queue p)) = APeek (inl [mkEntry 1 queued_message]).
Proof. split_and!; vm_compute; reflexivity. Qed.

End QueuePublisher.
