(* ===== verification/Subscriptions.v ===== *)
(** * Subscriptions: the client's subscriptions (subscription.go, subscribe.go)

    Local subscriptions share one broker subscription per topic filter; their
    SUBSCRIBEs and UNSUBSCRIBEs wait in a queue until acknowledged and are
    sent again on the next connection.  The structs Go points to
    ([activeSub], [brokerSub], [ctrlOp], [route]) are names in heaps, so that
    maps, queues and lists that share one see the same object.  A
    [range] over a Go map visits it in an order the caller of the model
    chooses. *)

From S2P Require Import Prelude GoLib Errors ClientErrors Buffers Varint Topics Subscribe IdTable Trie.

Module Subscriptions.
Import ClientErrors.

(** ** Slices and maps *)

(** [slices.Index] *)
Fixpoint Index {A} `{EqDecision A} (l : list A) (x : A) : option nat :=
  match l with
  | [] => None
  | y :: l => if decide (y = x) then Some 0%nat else S <$> Index l x
  end.

(** [slices.Delete(l, i, j)] *)
Definition Delete {A} (l : list A) (i j : nat) : list A := take i l ++ drop j l.

(** [slices.Contains] *)
Definition Contains {A} `{EqDecision A} (l : list A) (x : A) : bool := bool_decide (x ∈ l).

(** The pairs of a map in the order of a [range] over it: as [ord] says, and
    the keys it does not name last. *)
Definition range {K A} `{Countable K} (ord : list K) (m : gmap K A) : list (K * A) :=
  omap (fun k => pair k <$> m !! k) (remove_dups ord) ++ map_to_list (filter (fun p => p.1 ∉ ord) m).

(** ** Filters *)

(** [TopicFilter] has the fields of [wire.SubscribeFilter], to which
    [wireFilters] converts it. *)
Definition TopicFilter : Type := SubscribeFilter.
Definition wireFilters (filters : list TopicFilter) : list SubscribeFilter := filters.

Definition sharedSubPrefix : list Z := str "$share/".

(** [stripShareGroup] *)
Definition stripShareGroup (filter : list Z) : list Z * bool :=
  if negb (has_prefix filter sharedSubPrefix) then (filter, false)
  else
    let tail := zdrop (len sharedSubPrefix) filter in
    match index_byte tail slash with
    | None => (tail, true)
    | Some i => (zdrop (i + 1) tail, true)
    end.

(** [containsWildcard] *)
Definition containsWildcard (filter : list Z) : bool := contains_any filter (str "+#").

(** [parseShareFilter]: group, underlying filter, whether it is shared. *)
Definition parseShareFilter (filter : list Z) : list Z * list Z * bool :=
  if negb (has_prefix filter sharedSubPrefix) then ([], filter, false)
  else
    let rest := zdrop (len sharedSubPrefix) filter in
    match index_byte rest slash with
    | None => ([], filter, false)
    | Some i => if i <=? 0 then ([], filter, false) else (ztake i rest, zdrop (i + 1) rest, true)
    end.

(** The filter a subscription's messages match. *)
Definition underlying (filter : list Z) : list Z := snd (fst (parseShareFilter filter)).

(** ** Data *)

Inductive subState : Type := subPending | subActive | subClosed.
#[export] Instance subState_eq_dec : EqDecision subState.
Proof. solve_decision. Defined.

Record SubscribeResult : Type := mkResult { r_Filter : TopicFilter; r_Reason : Z }.

(** [SubscribeResult.Granted] *)
Definition Granted (r : SubscribeResult) : bool := negb (IsError (r_Reason r)).

(** How a subscription or an operation fails: a client error, a
    [SubscribeError], a [RejectedByDisconnectError] with the packet type, the
    attempts and the DISCONNECT's reason. *)
Inductive sub_error : Type :=
| EClient (e : cerror)
| ERefused (results : list SubscribeResult)
| ERejected (packet attempts reason : Z).

(** [activeSub]; its name is its [id]. A nil [results] is [None]. *)
Record activeSub : Type := mkSub {
  s_route : Z;
  s_state : subState;
  s_filters : list TopicFilter;
  s_results : option (list SubscribeResult);
  s_err : option sub_error;
  s_op : option Z;
  s_unsub : option Z;
  s_unsubTopics : list (list Z);
}.

(** [subView] *)
Record subView : Type := mkView { v_ids : list Z; v_issued : list Z; v_routes : list Z }.

(** [brokerSub] *)
Record brokerSub : Type := mkBs {
  b_filter : list Z;
  b_trieKey : list Z;
  b_trieID : Z;
  b_holders : list Z;
  b_ids : list Z;
  b_issued : list Z;
  b_granted : bool;
  b_pending : Z;
  b_view : subView;
}.

Definition maxIssued : Z := 64.

Inductive ctrlKind : Type := KSubscribe | KUnsubscribe.
#[export] Instance ctrlKind_eq_dec : EqDecision ctrlKind.
Proof. solve_decision. Defined.

Record ctrlResult : Type := mkCtrlResult { c_codes : list Z; c_err : option sub_error }.

(** [ctrlOp]. [o_results] is what [complete] recorded: a second result would
    close the channel [done] a second time. *)
Record ctrlOp : Type := mkOp {
  o_kind : ctrlKind;
  o_sub : Z;
  o_filters : list TopicFilter;
  o_ident : Z;
  o_resub : bool;
  o_topics : list (list Z);
  o_retired : list Z;
  o_retiredIssued : list Z;
  o_queued : bool;
  o_id : Z;
  o_conn : option Z;
  o_sent : bool;
  o_rejections : Z;
  o_counted : list Z;
  o_results : list ctrlResult;
}.

(** [route]: whether it was closed, and how often [onClose] ran. *)
Record route : Type := mkRoute { zeroCopy : bool; closed : bool; closes : Z }.

(** What the subscriptions use of a [connState]: its name and what the
    CONNACK said. *)
Record connState : Type := mkConn {
  cs_name : Z;
  SharedSubscriptionAvailable : bool;
  WildcardSubscriptionAvailable : bool;
  SubscriptionIdentifiersAvailable : bool;
  MaximumPacketSize : Z;
}.

(** A packet handed to a connection's writer. *)
Record packet : Type := mkPacket { p_conn : Z; p_op : Z; p_id : Z; p_bytes : list Z }.

(** The subscription state of [Client], the heaps, the engine's packet
    identifiers and the current connection. *)
Record client : Type := mkClient {
  h_subs : gmap Z activeSub;
  h_bsubs : gmap Z brokerSub;
  h_ops : gmap Z ctrlOp;
  h_routes : gmap Z route;
  next_bsub : Z;
  next_op : Z;
  nextSubID : Z;
  activeSubs : gset Z;
  brokerSubs : gmap (list Z) Z;
  identRefs : gmap Z Z;
  nextIdent : Z;
  retiring : option (list Z);
  router : @Tree Z;
  ctrlQueue : list Z;
  ctrlOps : gmap Z Z;
  sessionLost : bool;
  engine_ids : IDs.idTable;
  cur : option connState;
  written : list packet;
}.

#[export] Instance activeSub_rebuild : Rebuild activeSub := fun s =>
  mkSub (s_route s) (s_state s) (s_filters s) (s_results s) (s_err s) (s_op s) (s_unsub s) (s_unsubTopics s).
#[export] Instance brokerSub_rebuild : Rebuild brokerSub := fun b =>
  mkBs (b_filter b) (b_trieKey b) (b_trieID b) (b_holders b) (b_ids b) (b_issued b) (b_granted b) (b_pending b) (b_view b).
#[export] Instance ctrlOp_rebuild : Rebuild ctrlOp := fun o =>
  mkOp (o_kind o) (o_sub o) (o_filters o) (o_ident o) (o_resub o) (o_topics o) (o_retired o) (o_retiredIssued o)
    (o_queued o) (o_id o) (o_conn o) (o_sent o) (o_rejections o) (o_counted o) (o_results o).
#[export] Instance route_rebuild : Rebuild route := fun r => mkRoute (zeroCopy r) (closed r) (closes r).
#[export] Instance client_rebuild : Rebuild client := fun c =>
  mkClient (h_subs c) (h_bsubs c) (h_ops c) (h_routes c) (next_bsub c) (next_op c) (nextSubID c) (activeSubs c)
    (brokerSubs c) (identRefs c) (nextIdent c) (retiring c) (router c) (ctrlQueue c) (ctrlOps c) (sessionLost c)
    (engine_ids c) (cur c) (written c).

(** Assignments through a pointer. *)
Definition upd_sub (s : Z) (f : activeSub -> activeSub) (c : client) : client := c <| h_subs ::= alter f s |>.
Definition upd_bs (b : Z) (f : brokerSub -> brokerSub) (c : client) : client := c <| h_bsubs ::= alter f b |>.
Definition upd_op (o : Z) (f : ctrlOp -> ctrlOp) (c : client) : client := c <| h_ops ::= alter f o |>.

(** [c.brokerSubs[filter]] with the struct it points to. *)
Definition broker_sub (c : client) (filter : list Z) : option (Z * brokerSub) :=
  match brokerSubs c !! filter with
  | Some b => pair b <$> h_bsubs c !! b
  | None => None
  end.

(** ** Identifiers *)

(** [subView.issuedAny] *)
Definition issuedAny (v : subView) (ids : list Z) : bool := existsb (Contains (v_issued v)) ids.

(** [subView.accepts] *)
Definition accepts (v : subView) (ids : list Z) : bool :=
  if len (v_ids v) =? 0 then true else existsb (Contains (v_ids v)) ids.

(** [c.identRefs[id]] and [c.identRefs[id]++] *)
Definition refs (m : gmap Z Z) (id : Z) : Z := default 0 (m !! id).
Definition incr_ref (id : Z) (m : gmap Z Z) : gmap Z Z := <[id := refs m id + 1]> m.

(** [allocIdentLocked]: [None] when the loop does not end. One more
    candidate than there are identifiers in use is enough. *)
Fixpoint alloc_loop (fuel : nat) (m : gmap Z Z) (nextIdent : Z) : option Z :=
  match fuel with
  | O => None
  | S fuel =>
      let nextIdent := nextIdent mod MaxVarintValue + 1 in
      if refs m nextIdent =? 0 then Some nextIdent else alloc_loop fuel m nextIdent
  end.

Definition allocIdentLocked (c : client) : option (client * Z) :=
  match alloc_loop (S (size (identRefs c))) (identRefs c) (nextIdent c) with
  | Some id => Some (c <| nextIdent := id |>, id)
  | None => None
  end.

(** [releaseIdentsLocked] *)
Definition release_ident (m : gmap Z Z) (id : Z) : gmap Z Z :=
  let n := refs m id - 1 in
  if n <=? 0 then delete id m else <[id := n]> m.

Definition releaseIdentsLocked (c : client) (ids : list Z) : client :=
  c <| identRefs := foldl release_ident (identRefs c) ids |>.

(** ** Views *)

(** The routes of [publishLocked]'s view: each once, in join order. *)
Definition add_route (c : client) (routes : list Z) (h : Z) : list Z :=
  match h_subs c !! h with
  | Some s => if Contains routes (s_route s) then routes else routes ++ [s_route s]
  | None => routes
  end.

Definition view_of (c : client) (b : brokerSub) : subView :=
  mkView (b_ids b) (b_issued b) (foldl (add_route c) [] (b_holders b)).

(** [publishLocked] *)
Definition publishLocked (c : client) (b : Z) : client :=
  upd_bs b (fun bs => bs <| b_view := view_of c bs |>) c.

(** ** The queue of operations *)

(** [enqueue] *)
Definition enqueue (c : client) (op : Z) : client :=
  (upd_op op (fun o => o <| o_queued := true |>) c) <| ctrlQueue ::= fun q => q ++ [op] |>.

(** [unregisterLocked]: the packet identifier to release, or 0. *)
Definition unregisterLocked (c : client) (op : Z) : client * Z :=
  match h_ops c !! op with
  | None => (c, 0)
  | Some o =>
      let id := o_id o in
      let c := upd_op op (fun o => o <| o_id := 0 |> <| o_conn := None |>) c in
      if (id =? 0) || negb (bool_decide (ctrlOps c !! id = Some op)) then (c, 0)
      else (c <| ctrlOps ::= delete id |>, id)
  end.

(** [dequeueLocked]: [None] when [op] was not queued, else the packet
    identifier to release. *)
Definition dequeueLocked (c : client) (op : Z) : client * option Z :=
  match h_ops c !! op with
  | None => (c, None)
  | Some o =>
      if negb (o_queued o) then (c, None)
      else
        let c := upd_op op (fun o => o <| o_queued := false |>) c in
        let c := match Index (ctrlQueue c) op with
                 | Some i => c <| ctrlQueue ::= fun q => Delete q i (S i) |>
                 | None => c
                 end in
        let (c, id) := unregisterLocked c op in (c, Some id)
  end.

(** [ctrlOp.owner] *)
Definition owner (o : ctrlOp) : IDs.Owner :=
  match o_kind o with KSubscribe => IDs.OwnerSubscribe | KUnsubscribe => IDs.OwnerUnsubscribe end.

(** [ctrlOp.codeCount] *)
Definition codeCount (o : ctrlOp) : Z :=
  match o_kind o with KSubscribe => len (o_filters o) | KUnsubscribe => len (o_topics o) end.

(** [ctrlOp.complete] *)
Definition complete (c : client) (op : Z) (r : ctrlResult) : client :=
  upd_op op (fun o => o <| o_results ::= fun l => l ++ [r] |>) c.

(** [c.engine.ReleaseID(id, op.owner())] *)
Definition ReleaseID (c : client) (id : Z) (o : IDs.Owner) : client :=
  c <| engine_ids := snd (IDs.releaseLocked (engine_ids c) id o) |>.

(** [if id != 0 { c.engine.ReleaseID(id, op.owner()) }] *)
Definition release_for (c : client) (op id : Z) : client :=
  match h_ops c !! op with
  | Some o => if id =? 0 then c else ReleaseID c id (owner o)
  | None => c
  end.

(** ** Subscribing *)

(** [brokerSubLocked] *)
Definition brokerSubLocked (c : client) (filter : list Z) : client * Z :=
  match brokerSubs c !! filter with
  | Some b => (c, b)
  | None =>
      let key := underlying filter in
      let b := next_bsub c in
      let (tree, trieID) := Register (router c) key b in
      let bs := mkBs filter key trieID [] [] [] false 0 (mkView [] [] []) in
      (c <| h_bsubs ::= <[b := bs]> |> <| next_bsub := b + 1 |> <| router := tree |>
         <| brokerSubs ::= <[filter := b]> |>, b)
  end.

(** The body of [queueSubscribeLocked]'s loop on a filter; [None] when the
    filter has no broker subscription (a nil dereference). *)
Definition issue (ident : Z) (bs : brokerSub) : brokerSub :=
  bs <| b_ids ::= fun l => l ++ [ident] |>
     <| b_issued ::= fun l => (if len l =? maxIssued then Delete l 0 1 else l) ++ [ident] |>.

Definition tag_filter (ident : Z) (c : option client) (f : TopicFilter) : option client :=
  match c with
  | None => None
  | Some c =>
      match broker_sub c (f_Topic f) with
      | None => None
      | Some (b, _) => Some (publishLocked ((upd_bs b (issue ident) c) <| identRefs ::= incr_ref ident |>) b)
      end
  end.

(** [queueSubscribeLocked] *)
Definition queueSubscribeLocked (c : client) (op : Z) : option client :=
  match allocIdentLocked c, h_ops c !! op with
  | Some (c, ident), Some o =>
      let c := upd_op op (fun o => o <| o_ident := ident |>) c in
      let c := upd_sub (o_sub o) (fun s => s <| s_op := Some op |>) c in
      match foldl (tag_filter ident) (Some c) (o_filters o) with
      | Some c => Some (enqueue c op)
      | None => None
      end
  | _, _ => None
  end.

(** A new [ctrlOp] in the heap. *)
Definition new_op (c : client) (o : ctrlOp) : client * Z :=
  (c <| h_ops ::= <[next_op c := o]> |> <| next_op ::= Z.succ |>, next_op c).

Definition subscribe_op (sub : Z) (filters : list TopicFilter) (resub : bool) : ctrlOp :=
  mkOp KSubscribe sub filters 0 resub [] [] [] false 0 None false 0 [] [].

Definition unsubscribe_op : ctrlOp := mkOp KUnsubscribe 0 [] 0 false [] [] [] false 0 None false 0 [] [].

(** The body of [addSub]'s loop: one more holder for the filter. *)
Definition join (sub : Z) (c : client) (f : TopicFilter) : client :=
  let (c, b) := brokerSubLocked c (f_Topic f) in
  upd_bs b (fun bs => bs <| b_holders ::= fun l => l ++ [sub] |>) c.

(** [addSub]; [ended] says that the span's end is closed, for which it returns
    ErrClosed. The subscription's and the operation's names. *)
Definition addSub (c : client) (filters : list TopicFilter) (r : Z) (ended : bool) : option (client * option (Z * Z)) :=
  if ended then Some (c, None)
  else
    let sub := u64 (nextSubID c + 1) in
    let c := c <| nextSubID := sub |> <| h_subs ::= <[sub := mkSub r subPending filters None None None None []]> |> in
    let c := foldl (join sub) c filters in
    let c := c <| activeSubs ::= fun m => {[sub]} ∪ m |> in
    let (c, op) := new_op c (subscribe_op sub filters false) in
    match queueSubscribeLocked c op with
    | Some c => Some (c, Some (sub, op))
    | None => None
    end.

(** ** Ending *)

(** The body of [untagLocked]'s loop. *)
Definition untag_filter (ident : Z) (c : client) (f : TopicFilter) : client :=
  match broker_sub c (f_Topic f) with
  | None => c
  | Some (b, bs) =>
      match Index (b_ids bs) ident with
      | Some i =>
          let c := upd_bs b (fun bs => bs <| b_ids ::= fun l => Delete l i (S i) |>) c in
          publishLocked (releaseIdentsLocked c [ident]) b
      | None => c
      end
  end.

(** [untagLocked] *)
Definition untagLocked (c : client) (op : Z) : client :=
  match h_ops c !! op with
  | Some o => foldl (untag_filter (o_ident o)) c (o_filters o)
  | None => c
  end.

(** [dropHolderLocked] *)
Definition dropHolderLocked (sub : Z) (c : client) (filter : list Z) : client :=
  match broker_sub c filter with
  | None => c
  | Some (b, bs) =>
      match Index (b_holders bs) sub with
      | Some i => publishLocked (upd_bs b (fun bs => bs <| b_holders ::= fun l => Delete l i (S i) |>) c) b
      | None => c
      end
  end.

(** [route.close] *)
Definition close_route (c : client) (r : Z) : client :=
  c <| h_routes ::= alter (fun r => if closed r then r else r <| closed := true |> <| closes ::= Z.succ |>) r |>.

(** [closeSubLocked], and the closing of the route it returns, which runs once
    the lock is released. *)
Definition closeSubLocked (c : client) (sub : Z) (err : option sub_error) : client :=
  match h_subs c !! sub with
  | None => c
  | Some s =>
      if decide (s_state s = subClosed) then c
      else
        let c := upd_sub sub (fun s => s <| s_state := subClosed |> <| s_err := err |>) c in
        let c := c <| activeSubs ::= fun m => m ∖ {[sub]} |> in
        let c := foldl (fun c f => dropHolderLocked sub c (f_Topic f)) c (s_filters s) in
        close_route c (s_route s)
  end.

(** [abandon], before the [settleAsync] it starts. *)
Definition abandon (c : client) (sub : Z) : client := closeSubLocked c sub None.

(** [retireLocked] *)
Definition retireLocked (c : client) (ids : list Z) : client :=
  if len ids =? 0 then c else c <| retiring := Some (default [] (retiring c) ++ ids) |>.

(** [unretireLocked] *)
Definition remove_first (l : list Z) (id : Z) : list Z :=
  match Index l id with Some i => Delete l i (S i) | None => l end.

Definition unretireLocked (c : client) (op : Z) : client :=
  match h_ops c !! op with
  | None => c
  | Some o =>
      let c := releaseIdentsLocked c (o_retired o) in
      match retiring c with
      | None => c
      | Some p => if len (o_retiredIssued o) =? 0 then c
                  else c <| retiring := Some (foldl remove_first p (o_retiredIssued o)) |>
      end
  end.

(** [Client.retired] *)
Definition retired (c : client) (ids : list Z) : bool :=
  match retiring c with
  | None => false
  | Some p => existsb (Contains p) ids
  end.

(** The body of [settle]'s loop, with the operation under construction. *)
Definition settle_one (s : client * option ctrlOp) (p : list Z * Z) : client * option ctrlOp :=
  let (c, op) := s in
  let (filter, b) := p in
  match h_bsubs c !! b with
  | None => (c, op)
  | Some bs =>
      if 0 <? len (b_holders bs) then (c, op)
      else
        let c := c <| router := fst (Unregister (router c) (b_trieKey bs) (b_trieID bs)) |>
                   <| brokerSubs ::= delete filter |> in
        if negb (b_granted bs) && (b_pending bs =? 0) then (releaseIdentsLocked c (b_ids bs), op)
        else
          let o := default unsubscribe_op op in
          (c, Some (o <| o_topics ::= fun l => l ++ [filter] |>
                      <| o_retired ::= fun l => l ++ b_ids bs |>
                      <| o_retiredIssued ::= fun l => l ++ b_issued bs |>))
  end.

(** Go's order of strings, for [slices.Sort]. *)
Fixpoint string_le (a b : list Z) : Prop :=
  match a, b with
  | [], _ => True
  | _ :: _, [] => False
  | x :: a, y :: b => x < y \/ (x = y /\ string_le a b)
  end.
#[export] Instance string_le_dec a b : Decision (string_le a b).
Proof. revert b. induction a as [|x a IH]; intros [|y b]; cbn; try apply _. Defined.

(** [settle]; [ord] is the order of the range over [c.brokerSubs]. *)
Definition settle (ord : list (list Z)) (c : client) : client * option Z :=
  match foldl settle_one (c, None) (range ord (brokerSubs c)) with
  | (c, None) => (c, None)
  | (c, Some o) =>
      let (c, op) := new_op c (o <| o_topics ::= merge_sort string_le |>) in
      let c := retireLocked c (o_retiredIssued o) in
      (enqueue c op, Some op)
  end.

(** ** Sending *)

(** The body of [markSent]'s loop. *)
Definition count_pending (op : Z) (c : client) (f : TopicFilter) : client :=
  match broker_sub c (f_Topic f) with
  | None => c
  | Some (b, _) =>
      upd_op op (fun o => o <| o_counted ::= fun l => l ++ [b] |>) (upd_bs b (fun bs => bs <| b_pending ::= Z.succ |>) c)
  end.

(** [markSent] *)
Definition markSent (c : client) (op : Z) : client * bool :=
  match h_ops c !! op with
  | None => (c, false)
  | Some o =>
      let first := negb (o_sent o) in
      let c := upd_op op (fun o => o <| o_sent := true |>) c in
      if first && bool_decide (o_kind o = KSubscribe) then (foldl (count_pending op) c (o_filters o), first)
      else (c, first)
  end.

(** [uncountLocked] *)
Definition uncountLocked (c : client) (op : Z) : client :=
  match h_ops c !! op with
  | None => c
  | Some o =>
      let c := foldl (fun c b => upd_bs b (fun bs => bs <| b_pending ::= Z.pred |>) c) c (o_counted o) in
      upd_op op (fun o => o <| o_counted := [] |>) c
  end.

(** [unmarkSent] *)
Definition unmarkSent (c : client) (op : Z) : client :=
  uncountLocked (upd_op op (fun o => o <| o_sent := false |>) c) op.

(** Whether [nextToSend] drops [o]: the SUBSCRIBE of a closed subscription
    that never reached a broker. *)
Definition droppable (c : client) (o : ctrlOp) : bool :=
  bool_decide (o_kind o = KSubscribe) && bool_decide ((s_state <$> h_subs c !! o_sub o) = Some subClosed) && negb (o_sent o).

(** The loop of [nextToSend] over the queue: the operations dropped and the
    next to send. *)
Fixpoint next_loop (cs : Z) (q : list Z) (c : client) (dropped : list Z) : client * list Z * option Z :=
  match q with
  | [] => (c, dropped, None)
  | op :: q =>
      match h_ops c !! op with
      | None => next_loop cs q c dropped
      | Some o =>
          if bool_decide (o_conn o = Some cs) then next_loop cs q c dropped
          else if droppable c o then next_loop cs q (fst (dequeueLocked c op)) (dropped ++ [op])
          else (c, dropped, Some op)
      end
  end.

Definition ErrClosed_result : ctrlResult := mkCtrlResult [] (Some (EClient (CSentinel ErrClosed))).

(** [nextToSend] *)
Definition nextToSend (c : client) (cs : connState) : client * option Z :=
  let '(c, dropped, next) := next_loop (cs_name cs) (ctrlQueue c) c [] in
  let c := foldl untagLocked c dropped in
  (foldl (fun c op => complete c op ErrClosed_result) c dropped, next).

(** [resetSession]: the queue taken apart, with the packet identifiers to
    release. *)
Definition unqueue_one (s : client * list (Z * Z)) (op : Z) : client * list (Z * Z) :=
  let (c, released) := s in
  let c := upd_op op (fun o => o <| o_queued := false |>) c in
  let (c, id) := unregisterLocked c op in
  (c, if id =? 0 then released else released ++ [(op, id)]).

(** Operations of the lost session that are over. *)
Definition finish_one (s : client * list (Z * ctrlResult)) (op : Z) : client * list (Z * ctrlResult) :=
  let (c, finished) := s in
  match h_ops c !! op with
  | None => (c, finished)
  | Some o =>
      match o_kind o with
      | KUnsubscribe => (unretireLocked c op, finished ++ [(op, mkCtrlResult (map (fun _ => 0) (o_topics o)) None)])
      | KSubscribe => if bool_decide ((s_state <$> h_subs c !! o_sub o) = Some subClosed)
                      then (c, finished ++ [(op, ErrClosed_result)]) else (c, finished)
      end
  end.

(** A broker subscription the broker no longer has. *)
Definition forget_one (c : client) (p : list Z * Z) : client :=
  let (filter, b) := p in
  match h_bsubs c !! b with
  | None => c
  | Some bs =>
      let c := releaseIdentsLocked c (b_ids bs) in
      let c := upd_bs b (fun bs => bs <| b_ids := [] |> <| b_issued := [] |> <| b_granted := false |> <| b_pending := 0 |>) c in
      if len (b_holders bs) =? 0
      then c <| router := fst (Unregister (router c) (b_trieKey bs) (b_trieID bs)) |> <| brokerSubs ::= delete filter |>
      else publishLocked c b
  end.

(** A live subscription subscribed again. *)
Definition resubscribe_one (c : option client) (sub : Z) : option client :=
  match c with
  | None => None
  | Some c =>
      match h_subs c !! sub with
      | None => None
      | Some s =>
          let (c, op) := match s_op s with
                         | Some op => (c, op)
                         | None => new_op c (subscribe_op sub (s_filters s) true)
                         end in
          queueSubscribeLocked (upd_op op (fun o => o <| o_sent := false |> <| o_counted := [] |>) c) op
      end
  end.

(** [resetSession]; [ord] is the order of the range over [c.brokerSubs]. *)
Definition resetSession (ord : list (list Z)) (c : client) : option client :=
  let old := ctrlQueue c in
  let c := c <| ctrlQueue := [] |> in
  let (c, released) := foldl unqueue_one (c, []) old in
  let (c, finished) := foldl finish_one (c, []) old in
  let c := foldl forget_one c (range ord (brokerSubs c)) in
  match foldl resubscribe_one (Some c) (merge_sort Z.le (elements (activeSubs c))) with
  | None => None
  | Some c =>
      let c := foldl (fun c p => release_for c p.1 p.2) c released in
      Some (foldl (fun c p => complete c p.1 p.2) c finished)
  end.

(** ** Packets *)

Section packets.
Context `{BufferPool}.

(** [checkFilterCapabilities]: the error names the first filter the broker's
    CONNACK rules out. *)
Fixpoint checkFilterCapabilities (cs : connState) (filters : list TopicFilter) : option sub_error :=
  match filters with
  | [] => None
  | f :: filters =>
      let (topic, isShared) := stripShareGroup (f_Topic f) in
      if isShared && negb (SharedSubscriptionAvailable cs)
      then Some (EClient (CErrorf "%w: filter[%d] = %q" [CSentinel ErrSharedSubsUnsupported]))
      else if containsWildcard topic && negb (WildcardSubscriptionAvailable cs)
      then Some (EClient (CErrorf "%w: filter[%d] = %q" [CSentinel ErrWildcardSubsUnsupported]))
      else checkFilterCapabilities cs filters
  end.

(** [checkPacketSize] *)
Definition checkPacketSize (cs : connState) (n : Z) : option sub_error :=
  let max := MaximumPacketSize cs in
  if (0 <? max) && (max <? u32 n)
  then Some (EClient (CErrorf "%w: %d bytes, broker maximum %d" [CSentinel ErrPacketTooLarge])) else None.

(** The size check on what a writer produced. *)
Definition sized (cs : connState) (w : wres (list Z)) : res sub_error (list Z) :=
  match w with
  | Ok b => match checkPacketSize cs (len b) with Some e => Err e | None => Ok b end
  | Err e => Err (EClient (CWire e))
  | Panic => Panic
  end.

(** [encodeSubscribe] *)
Definition encodeSubscribe (cs : connState) (id ident : Z) (filters : list TopicFilter) : res sub_error (list Z) :=
  sized cs (WriteSubscribe (mkSubscribeOpts id (wireFilters filters)
    (if SubscriptionIdentifiersAvailable cs then Some ident else None) [])).

(** [encodeUnsubscribe] *)
Definition encodeUnsubscribe (cs : connState) (id : Z) (topics : list (list Z)) : res sub_error (list Z) :=
  sized cs (WriteUnsubscribe (mkUnsubscribeOpts id topics [])).

Definition encode_op (cs : connState) (id : Z) (o : ctrlOp) : res sub_error (list Z) :=
  match o_kind o with
  | KSubscribe => encodeSubscribe cs id (o_ident o) (o_filters o)
  | KUnsubscribe => encodeUnsubscribe cs id (o_topics o)
  end.

(** The checks [subscribe] makes before it registers anything. *)
Definition subscribe_check (c : client) (filters : list TopicFilter) : res sub_error unit :=
  if len filters =? 0 then Err (EClient (CSentinel (Wire ErrEmptyFilterList)))
  else match cur c with
  | Some cs =>
      match checkFilterCapabilities cs filters with
      | Some e => Err e
      | None => let! _ := encodeSubscribe cs 1 MaxVarintValue filters in Ok tt
      end
  | None =>
      match WriteSubscribe (mkSubscribeOpts 1 (wireFilters filters) None []) with
      | Ok _ => Ok tt
      | Err e => Err (EClient (CWire e))
      | Panic => Panic
      end
  end.
End packets.

(** [failCtrl]; [ord] is the order of the range in the [settle] it ends
    with. *)
Definition failCtrl (ord : list (list Z)) (c : client) (op : Z) (err : sub_error) : client :=
  match dequeueLocked c op, h_ops c !! op with
  | (c, Some stale), Some o =>
      let c := match o_kind o with
               | KSubscribe => closeSubLocked (untagLocked c op) (o_sub o) (Some err)
               | KUnsubscribe => unretireLocked c op
               end in
      let c := release_for c op stale in
      let c := complete c op (mkCtrlResult [] (Some err)) in
      match o_kind o with KSubscribe => fst (settle ord c) | KUnsubscribe => c end
  | (c, _), _ => c
  end.

(** [sendCtrl] registers [op] under a packet identifier it allocated: [None]
    when the operation completed meanwhile. *)
Definition send_register (c : client) (cs : connState) (op id : Z) : client * bool :=
  match h_ops c !! op with
  | None => (c, false)
  | Some o =>
      if negb (o_queued o) then (ReleaseID c id (owner o), false)
      else
        let (c, stale) := unregisterLocked c op in
        let c := upd_op op (fun o => o <| o_id := id |> <| o_conn := Some (cs_name cs) |>) c in
        let c := c <| ctrlOps ::= <[id := op]> |> in
        (release_for c op stale, true)
  end.

(** The end of [sendCtrl] when the packet could not be queued. *)
Definition send_failed (c : client) (cs : connState) (op : Z) (first : bool) : client :=
  let c := if first then unmarkSent c op else c in
  match h_ops c !! op with
  | None => c
  | Some o =>
      if bool_decide (o_conn o = Some (cs_name cs))
      then let (c, id) := unregisterLocked c op in release_for c op id
      else c
  end.

(** ** Answers *)

(** The loop of [completeSubscribe] on one reason code, with [emptied]. *)
Definition answer_ids (ident : Z) (refused : bool) (c : client) (b : Z) (bs : brokerSub) : client :=
  match Index (b_ids bs) ident with
  | None => c
  | Some k =>
      if refused
      then releaseIdentsLocked (upd_bs b (fun bs => bs <| b_ids ::= fun l => Delete l k (S k) |>) c) [ident]
      else upd_bs b (fun bs => bs <| b_ids ::= fun l => Delete l 0 k |>) (releaseIdentsLocked c (take k (b_ids bs)))
  end.

Definition answer_holders (sub : Z) (refused : bool) (bs : brokerSub) : brokerSub :=
  if refused
  then match Index (b_holders bs) sub with
       | Some k => bs <| b_holders ::= fun l => Delete l k (S k) |>
       | None => bs
       end
  else bs.

Definition answer_one (o : ctrlOp) (live : bool) (c : client) (p : TopicFilter * Z) : client :=
  let (f, rc) := p in
  match broker_sub c (f_Topic f) with
  | None => c
  | Some (b, bs) =>
      let refused := IsError rc in
      let c := answer_ids (o_ident o) refused c b bs in
      let c := if refused then c else upd_bs b (fun bs => bs <| b_granted := true |>) c in
      let c := upd_bs b (answer_holders (o_sub o) (refused && live)) c in
      publishLocked c b
  end.

(** [completeSubscribe]. As many codes as filters, for which its callers
    see. *)
Definition completeSubscribe (c : client) (op : Z) (codes : list Z) (rejected : option sub_error) : client :=
  match h_ops c !! op with
  | None => c
  | Some o =>
      match h_subs c !! o_sub o with
      | None => c
      | Some s =>
          let live := negb (bool_decide (s_state s = subClosed)) in
          let c := uncountLocked c op in
          let c := foldl (answer_one o live) c (zip (o_filters o) codes) in
          let results := zip_with mkResult (o_filters o) codes in
          let c :=
            if live then
              let granted := map r_Filter (List.filter Granted results) in
              let c := upd_sub (o_sub o) (fun s =>
                s <| s_op := None |> <| s_filters := granted |>
                  <| s_results := if negb (o_resub o) || negb (bool_decide (is_Some (s_results s))) then Some results else s_results s |>) c in
              let failure := default (ERefused results) rejected in
              if len granted =? 0 then closeSubLocked c (o_sub o) (Some failure)
              else upd_sub (o_sub o) (fun s => s <| s_state := subActive |>) c
            else c in
          complete c op (mkCtrlResult codes rejected)
      end
  end.

(** [completeUnsubscribe] *)
Definition completeUnsubscribe (c : client) (op : Z) (codes : list Z) (rejected : option sub_error) : client :=
  complete (unretireLocked c op) op (mkCtrlResult codes rejected).

Definition complete_op (c : client) (op : Z) (codes : list Z) (rejected : option sub_error) : client :=
  match o_kind <$> h_ops c !! op with
  | Some KSubscribe => completeSubscribe c op codes rejected
  | Some KUnsubscribe => completeUnsubscribe c op codes rejected
  | None => c
  end.

(** [deliverControlAck] for a SUBACK or an UNSUBACK ([want]) read on the
    connection [cs]: the new state and whether it was a protocol error. *)
Definition deliverControlAck (c : client) (cs : Z) (want : ctrlKind) (id : Z) (codes : list Z) : client * bool :=
  match ctrlOps c !! id with
  | None => (c, false)
  | Some op =>
      match h_ops c !! op with
      | None => (c, false)
      | Some o =>
          if bool_decide (o_kind o = want /\ o_conn o = Some cs) then
            let (c, _) := unregisterLocked c op in
            if negb (len codes =? codeCount o) then
              let c := upd_op op (fun o => o <| o_conn := Some cs |>) c in
              (ReleaseID c id (owner o), true)
            else
              let (c, queued) := dequeueLocked c op in
              let c := ReleaseID c id (owner o) in
              match queued with
              | None => (c, false)
              | Some _ => (complete_op c op codes None, false)
              end
          else (c, false)
      end
  end.

(** ** Connections *)

Definition maxCtrlAttempts : Z := 3.

(** [blamesReceivedPacket] *)
Definition blamesReceivedPacket (rc : Z) : bool :=
  existsb (Z.eqb rc) [0x81; 0x82; 0x83; 0x87; 0x8F; 0x90; 0x94; 0x95; 0x97; 0x99; 0x9A; 0x9B; 0x9E; 0xA1; 0xA2].

(** The body of [connectionLost]'s loop over the registered operations. *)
Definition lose_one (blamed : bool) (s : client * list Z) (p : Z * Z) : client * list Z :=
  let (c, rejected) := s in
  let op := p.2 in
  let c := upd_op op (fun o => o <| o_id := 0 |> <| o_conn := None |>) c in
  if negb blamed then (c, rejected)
  else
    let c := upd_op op (fun o => o <| o_rejections ::= Z.succ |>) c in
    if default 0 (o_rejections <$> h_ops c !! op) <? maxCtrlAttempts then (c, rejected)
    else match dequeueLocked c op with
         | (c, Some _) => (c, rejected ++ [op])
         | (c, None) => (c, rejected)
         end.

Definition kind_type (k : ctrlKind) : Z := match k with KSubscribe => SUBSCRIBE | KUnsubscribe => UNSUBSCRIBE end.

(** What [connectionLost] does with an operation it gives up on. *)
Definition reject_one (reason : Z) (c : client) (op : Z) : client :=
  match h_ops c !! op with
  | None => c
  | Some o => complete_op c op (repeat reason (Z.to_nat (codeCount o)))
                (Some (ERejected (kind_type (o_kind o)) (o_rejections o) reason))
  end.

(** [connectionLost]; [sd] is the reason code of the broker's DISCONNECT if it
    sent one, [ord] the order of the range over the operations. *)
Definition connectionLost (ord : list Z) (c : client) (sd : option Z) : client :=
  let blamed := match sd with Some rc => blamesReceivedPacket rc | None => false end in
  let ops := range ord (ctrlOps c) in
  let c := c <| ctrlOps := ∅ |> in
  let (c, rejected) := foldl (lose_one blamed) (c, []) ops in
  let c := foldl (fun c p => release_for c p.2 p.1) c ops in
  foldl (reject_one (default 0 sd)) c rejected.

(** [markSessionLost] *)
Definition markSessionLost (c : client) : client := c <| sessionLost := true |>.

(** [closeAllSubs] *)
Definition closeAllSubs (c : client) : client :=
  let queue := ctrlQueue c in
  let registered := map_to_list (ctrlOps c) in
  let c := c <| ctrlQueue := [] |> <| ctrlOps := ∅ |> <| sessionLost := false |> in
  let c := foldl (fun c op => upd_op op (fun o => o <| o_queued := false |> <| o_id := 0 |> <| o_conn := None |>) c) c queue in
  let c := foldl (fun c sub => closeSubLocked c sub None) c (elements (activeSubs c)) in
  let c := c <| brokerSubs := ∅ |> <| identRefs := ∅ |> <| retiring := None |> <| router ::= Reset |> in
  let c := foldl (fun c p => release_for c p.2 p.1) c registered in
  foldl (fun c op => complete c op ErrClosed_result) c queue.

(** ** Unsubscribing *)

(** [Unsubscribe] up to the sending of its UNSUBSCRIBE, which it returns with
    the topics: closed subscriptions return the one that ended them. *)
Definition Unsubscribe (ord : list (list Z)) (c : client) (sub : Z) : client * (option Z * list (list Z)) :=
  match h_subs c !! sub with
  | None => (c, (None, []))
  | Some s =>
      if decide (s_state s = subClosed) then (c, (s_unsub s, s_unsubTopics s))
      else
        let topics := map f_Topic (s_filters s) in
        let c := closeSubLocked c sub None in
        let (c, op) := settle ord c in
        (upd_sub sub (fun s => s <| s_unsub := op |> <| s_unsubTopics := topics |>) c, (op, topics))
  end.

Record UnsubscribeResult : Type := mkUnsubResult { u_Topic : list Z; u_Reason : Z }.

(** How [awaitUnsubscribe] ends once nothing is left to wait for. *)
Inductive await_result : Type :=
| AwaitDone                                 (* nil *)
| AwaitErr (e : sub_error)
| AwaitRefused (results : list UnsubscribeResult)  (* UnsubscribeError *)
| AwaitPanic                                (* an index out of range *)
| AwaitWaiting.                             (* op.done is open *)

Definition unsubscribe_result (o : ctrlOp) (codes : list Z) (t : list Z) : option UnsubscribeResult :=
  match Index (o_topics o) t with
  | Some k => mkUnsubResult t <$> codes !! k
  | None => Some (mkUnsubResult t 0)
  end.

(** [awaitUnsubscribe] *)
Definition awaitUnsubscribe (c : client) (op : option Z) (topics : list (list Z)) : await_result :=
  match op ≫= fun op => h_ops c !! op with
  | None => AwaitDone
  | Some o =>
      if negb (existsb (Contains (o_topics o)) topics) then AwaitDone
      else match o_results o with
      | [] => AwaitWaiting
      | r :: _ =>
          match c_err r with
          | Some e => AwaitErr e
          | None =>
              match mapM (unsubscribe_result o (c_codes r)) topics with
              | None => AwaitPanic
              | Some results => if existsb (fun r => IsError (u_Reason r)) results then AwaitRefused results else AwaitDone
              end
          end
      end
  end.

(** [SubscriptionToken.Results] and [SubscriptionToken.Err] *)
Definition Results (c : client) (sub : Z) : option (list SubscribeResult) := h_subs c !! sub ≫= s_results.
Definition Err_of (c : client) (sub : Z) : option sub_error := h_subs c !! sub ≫= s_err.

(** ** The machine

    [ctrlSem] orders what changes the broker's subscriptions: one goroutine at
    a time holds it and is at some point of [flushCtrl] and [sendCtrl]; the
    read loop, the supervisor and the teardown run beside it. *)

(** Where the holder of [ctrlSem] is; [Idle]: it is free. *)
Inductive point : Type :=
| Idle
| Flushing (cs : connState)                                            (* the loop of flushCtrl *)
| Sending (cs : connState) (op : Z)                                    (* sendCtrl was called *)
| Holding (cs : connState) (op id : Z) (bytes : list Z)                (* an identifier allocated, the packet encoded *)
| Registered (cs : connState) (op id : Z) (bytes : list Z)             (* in ctrlOps *)
| Writing (cs : connState) (op id : Z) (bytes : list Z) (first : bool). (* marked sent *)

Record machine : Type := mkMachine { cl : client; pc : point; conns : Z }.

Inductive event : Type :=
| ESubscribe (filters : list TopicFilter) (zeroCopy ended : bool)
| EAbandon (sub : Z)
| EUnsubscribe (ord : list (list Z)) (sub : Z)
| ESettle (ord : list (list Z))              (* settleAsync *)
| EFlush (ord : list (list Z))               (* flushCtrl begins *)
| ENext                                      (* nextToSend *)
| EAllocate (giveUp : bool) (ord : list (list Z))
| ERegister
| EMark
| EWrite (ok : bool)                         (* cs.queue returns *)
| EAck (want : ctrlKind) (id : Z) (codes : list Z)
| EUp (shared wildcard identifiers : bool) (maximum : Z) (lost : bool)
| EDown (ord : list Z) (sd : option Z)
| ECloseAll                                  (* Disconnect, once the read loop has ended *)
| EPublishAlloc | EPublishRelease (id : Z) | EPublishClaim (id : Z).

(** [c.engine.AllocateID] for [sendCtrl], and what follows up to the
    registration: the next point. *)
Definition send_begin `{BufferPool} (ord : list (list Z)) (c : client) (cs : connState) (op : Z) : option (client * point) :=
  match h_ops c !! op with
  | None => None
  | Some o =>
      match (if bool_decide (o_kind o = KSubscribe) then checkFilterCapabilities cs (o_filters o) else None) with
      | Some e => Some (failCtrl ord c op e, Flushing cs)
      | None =>
          match IDs.AllocateID (engine_ids c) (owner o) with
          | IDs.Blocked => Some (c, Sending cs op)
          | IDs.Spinning => None
          | IDs.Allocated id t =>
              let c := c <| engine_ids := t |> in
              match encode_op cs id o with
              | Ok bytes => Some (c, Holding cs op id bytes)
              | Err e => Some (failCtrl ord (ReleaseID c id (owner o)) op e, Flushing cs)
              | Panic => None
              end
          end
      end
  end.

(** [flushCtrl] up to its loop. *)
Definition flush_begin (ord : list (list Z)) (c : client) : option (client * point) :=
  match cur c with
  | None => Some (c, Idle)
  | Some cs =>
      let lost := sessionLost c in
      let c := c <| sessionLost := false |> in
      if lost then match resetSession ord c with Some c => Some (c, Flushing cs) | None => None end
      else Some (c, Flushing cs)
  end.

(** [subscribe] up to its [flushCtrl]. Every flavour of subscription makes a
    route for the call. *)
Definition subscribe_begin `{BufferPool} (c : client) (filters : list TopicFilter) (zc ended : bool) : option client :=
  match subscribe_check c filters with
  | Panic => None
  | Err _ => Some c
  | Ok _ =>
      let r := u64 (nextSubID c + 1) in
      fst <$> addSub (if ended then c else c <| h_routes ::= <[r := mkRoute zc false 0]> |>) filters r ended
  end.

Definition publish_ids (f : IDs.idTable -> IDs.idTable) (c : client) : client := c <| engine_ids ::= f |>.

(** One step; an event that cannot happen where the machine is changes
    nothing, and [None] is a panic or a loop that does not end. *)
Definition step `{BufferPool} (m : machine) (e : event) : option machine :=
  let c := cl m in
  let go c := Some (mkMachine c (pc m) (conns m)) in
  let goto (r : option (client * point)) := match r with Some (c, p) => Some (mkMachine c p (conns m)) | None => None end in
  match e, pc m with
  | ESubscribe filters zc ended, Idle => match subscribe_begin c filters zc ended with Some c => go c | None => None end
  | EAbandon sub, _ => go (abandon c sub)
  | EUnsubscribe ord sub, Idle => go (fst (Unsubscribe ord c sub))
  | ESettle ord, Idle => go (fst (settle ord c))
  | EFlush ord, Idle => goto (flush_begin ord c)
  | ENext, Flushing cs =>
      let (c, next) := nextToSend c cs in
      goto (Some (c, match next with Some op => Sending cs op | None => Idle end))
  | EAllocate giveUp ord, Sending cs op => if giveUp then goto (Some (c, Idle)) else goto (send_begin ord c cs op)
  | ERegister, Holding cs op id bytes =>
      let (c, ok) := send_register c cs op id in
      goto (Some (c, if ok then Registered cs op id bytes else Flushing cs))
  | EMark, Registered cs op id bytes =>
      let (c, first) := markSent c op in goto (Some (c, Writing cs op id bytes first))
  | EWrite ok, Writing cs op id bytes first =>
      if ok then goto (Some (c <| written ::= fun l => l ++ [mkPacket (cs_name cs) op id bytes] |>, Flushing cs))
      else goto (Some (send_failed c cs op first, Idle))
  | EAck want id codes, _ =>
      match cur c with Some cs => go (fst (deliverControlAck c (cs_name cs) want id codes)) | None => Some m end
  | EUp sh wi si mx lost, _ =>
      match cur c with
      | Some _ => Some m
      | None =>
          let c := if lost then markSessionLost c else c in
          Some (mkMachine (c <| cur := Some (mkConn (conns m) sh wi si mx) |>) (pc m) (conns m + 1))
      end
  | EDown ord sd, _ =>
      match cur c with Some _ => go ((connectionLost ord c sd) <| cur := None |>) | None => Some m end
  | ECloseAll, _ => go ((closeAllSubs c) <| cur := None |>)
  | EPublishAlloc, _ =>
      go (publish_ids (fun t => match IDs.AllocateID t IDs.OwnerPublish with IDs.Allocated _ t => t | _ => t end) c)
  | EPublishRelease id, _ => go (publish_ids (fun t => snd (IDs.releaseLocked t id IDs.OwnerPublish)) c)
  | EPublishClaim id, _ => go (publish_ids (fun t => snd (IDs.claim t (u16 id) IDs.OwnerPublish)) c)
  | _, _ => Some m
  end.

Definition new_client : client :=
  mkClient ∅ ∅ ∅ ∅ 1 1 0 ∅ ∅ ∅ 0 None NewTree [] ∅ false (IDs.newIDTable 65535) None [].

Definition start : machine := mkMachine new_client Idle 1.

(** How many subscriptions and filters an event adds at most. *)
Definition weight (e : event) : Z := match e with ESubscribe filters _ _ => 1 + len filters | _ => 0 end.

(** [reachable n m]: [m] after events that added at most [n]. *)
Inductive reachable `{BufferPool} : Z -> machine -> Prop :=
| reachable_start : reachable 0 start
| reachable_step n m e m' : reachable n m -> step m e = Some m' -> reachable (n + weight e) m'.

End Subscriptions.
