(* ===== verification/SubsLists.v ===== *)
(** * SubsLists: slices, maps and folds of the subscription code

    Lemmas on [Index], [Delete] and [range], the number of occurrences of an
    element, and loops that carry an invariant. *)

From S2P Require Import Prelude GoLib Subscriptions.

Module SubsLists.
Import Subscriptions.

(** ** Occurrences *)

Section occ.
Context {A : Type} `{EqDecision A}.
Implicit Types (x y : A) (l k : list A).

(** How often [x] is in [l]. *)
Definition occ x l : Z := len (filter (eq x) l).

Lemma occ_nil x : occ x [] = 0.
Proof. done. Qed.

Lemma occ_cons x y l : occ x (y :: l) = (if decide (x = y) then 1 else 0) + occ x l.
Proof. unfold occ. rewrite filter_cons. destruct (decide (x = y)); [by rewrite len_cons|lia]. Qed.

Lemma occ_app x l k : occ x (l ++ k) = occ x l + occ x k.
Proof. unfold occ. by rewrite filter_app, len_app. Qed.

Lemma occ_singleton x y : occ x [y] = if decide (x = y) then 1 else 0.
Proof. rewrite occ_cons, occ_nil. lia. Qed.

Lemma occ_nonneg x l : 0 <= occ x l.
Proof. apply len_nonneg. Qed.

Lemma occ_pos x l : 0 < occ x l <-> x ∈ l.
Proof.
  induction l as [|y l IH]; [rewrite occ_nil; split; [lia|by intros ?%elem_of_nil]|].
  rewrite occ_cons, elem_of_cons. pose proof (occ_nonneg x l). destruct (decide (x = y)); [split; [auto|lia]|].
  rewrite <- IH. split; [intros; right; lia|intros [?|?]; [done|lia]].
Qed.

Lemma occ_zero x l : occ x l = 0 <-> x ∉ l.
Proof. rewrite <- occ_pos. pose proof (occ_nonneg x l). lia. Qed.

#[export] Instance occ_perm x : Proper (Permutation ==> eq) (occ x).
Proof. intros l k H. induction H; rewrite ?occ_cons; lia. Qed.

Lemma nil_of_occ l : (forall x, occ x l = 0) -> l = [].
Proof. destruct l as [|x l]; [done|]. intros H. specialize (H x). rewrite occ_cons, decide_True in H by done. pose proof (occ_nonneg x l). lia. Qed.

(** [slices.Index] and the removal of what it found. *)
Lemma Index_Some l x i : Index l x = Some i -> exists l1 l2, l = l1 ++ x :: l2 /\ length l1 = i /\ x ∉ l1.
Proof.
  revert i. induction l as [|y l IH]; intros i; cbn; [done|]. destruct (decide (y = x)) as [->|Hne].
  - intros [= <-]. exists [], l. repeat split; [done..|apply not_elem_of_nil].
  - destruct (Index l x) as [j|] eqn:E; [|done]. cbn. intros [= <-]. destruct (IH j eq_refl) as (l1 & l2 & -> & <- & Hn).
    exists (y :: l1), l2. repeat split; [done..|]. rewrite elem_of_cons. intros [?|?]; congruence.
Qed.

Lemma Index_None l x : Index l x = None <-> x ∉ l.
Proof.
  induction l as [|y l IH]; cbn; [split; [intros; apply not_elem_of_nil|done]|]. rewrite not_elem_of_cons. destruct (decide (y = x)) as [->|Hne].
  - split; [done|]. by intros [? _].
  - rewrite <- IH. destruct (Index l x); cbn; split; [done|by intros [_ ?]|by intros|done].
Qed.

Lemma Delete_mid l1 l2 x : Delete (l1 ++ x :: l2) (length l1) (S (length l1)) = l1 ++ l2.
Proof. unfold Delete. rewrite take_app_length. f_equal. change (x :: l2) with ([x] ++ l2). rewrite app_assoc. apply drop_app_length'. rewrite length_app; cbn; lia. Qed.

Lemma Delete_prefix l i : Delete l 0 i = drop i l.
Proof. done. Qed.

Lemma occ_Delete l x i y : Index l x = Some i -> occ y (Delete l i (S i)) = occ y l - if decide (y = x) then 1 else 0.
Proof. intros (l1 & l2 & -> & <- & _)%Index_Some. rewrite Delete_mid, !occ_app, occ_cons. lia. Qed.

Lemma Delete_perm l x i : Index l x = Some i -> l ≡ₚ x :: Delete l i (S i).
Proof. intros (l1 & l2 & -> & <- & _)%Index_Some. by rewrite Delete_mid, Permutation_middle. Qed.

Lemma Index_elem l x : x ∈ l -> exists i, Index l x = Some i.
Proof. intros H. destruct (Index l x) as [i|] eqn:E; [eauto|]. by apply Index_None in E. Qed.

Lemma NoDup_Delete l x i : Index l x = Some i -> NoDup l -> NoDup (Delete l i (S i)) /\ forall y, y ∈ Delete l i (S i) <-> y ∈ l /\ y <> x.
Proof.
  intros Hi Hl. pose proof (Delete_perm l x i Hi) as Hp. rewrite Hp in Hl. apply NoDup_cons in Hl as [Hx Hl]. split; [done|]. intros y.
  rewrite Hp at 2. rewrite elem_of_cons. split; [|by intros [[->|?] ?]]. intros Hy. split; [by right|]. by intros ->.
Qed.

Lemma Contains_true l x : Contains l x = true <-> x ∈ l.
Proof. unfold Contains. apply bool_decide_eq_true. Qed.

Lemma Contains_false l x : Contains l x = false <-> x ∉ l.
Proof. unfold Contains. apply bool_decide_eq_false. Qed.
End occ.

(** ** Ranges over maps *)

Section range.
Context {K A : Type} `{Countable K}.

Lemma elem_of_ordered ord (m : gmap K A) k a :
  (k, a) ∈ omap (fun k => pair k <$> m !! k) (remove_dups ord) <-> k ∈ ord /\ m !! k = Some a.
Proof.
  rewrite list_elem_of_omap. split.
  - intros (k' & Hk & E). destruct (m !! k') eqn:E'; cbn in E; [|done]. injection E as -> ->. by rewrite elem_of_remove_dups in Hk.
  - intros [Hk E]. exists k. by rewrite elem_of_remove_dups, E.
Qed.

Lemma NoDup_ordered ord (m : gmap K A) : NoDup (omap (fun k => pair k <$> m !! k) (remove_dups ord)).
Proof.
  induction (NoDup_remove_dups ord) as [|k l Hk _ IH]; [constructor|]. cbn. destruct (m !! k) as [a|] eqn:E; cbn; [|done].
  constructor; [|done]. intros (k' & Hk' & E')%list_elem_of_omap. destruct (m !! k'); cbn in E'; [|done]. injection E' as -> ->. done.
Qed.

Lemma range_perm ord (m : gmap K A) : range ord m ≡ₚ map_to_list m.
Proof.
  apply NoDup_Permutation; [|apply NoDup_map_to_list|].
  - unfold range. apply NoDup_app. split; [apply NoDup_ordered|]. split; [|apply NoDup_map_to_list].
    intros [k a] [Hk _]%elem_of_ordered. rewrite elem_of_map_to_list, map_lookup_filter_Some. by intros [_ ?].
  - intros [k a]. unfold range. rewrite elem_of_app, elem_of_ordered, !elem_of_map_to_list, map_lookup_filter_Some. cbn.
    split; [by intros [[_ ?]|[? _]]|]. intros E. destruct (decide (k ∈ ord)); auto.
Qed.

Lemma NoDup_range ord (m : gmap K A) : NoDup (range ord m).*1.
Proof. rewrite range_perm. apply NoDup_fst_map_to_list. Qed.

Lemma elem_of_range ord (m : gmap K A) k a : (k, a) ∈ range ord m <-> m !! k = Some a.
Proof. rewrite range_perm. apply elem_of_map_to_list. Qed.
End range.

(** ** Loops *)

(** [foldl_rest] for loops that may fail. *)
Lemma foldl_rest_opt {S X} (I : list X -> S -> Prop) (f : option S -> X -> option S) :
  (forall x l s, I (x :: l) s -> exists s', f (Some s) x = Some s' /\ I l s') ->
  forall l s, I l s -> exists s', foldl f (Some s) l = Some s' /\ I [] s'.
Proof.
  intros H l. induction l as [|x l IH]; intros s Hs; [eauto|]. cbn. destruct (H _ _ _ Hs) as (s' & -> & Hs'). auto.
Qed.

(** [alter] with a function that leaves a projection alone. *)
Lemma fmap_alter_same {A B} (g : A -> B) (f : A -> A) (k : Z) (m : gmap Z A) :
  (forall a, g (f a) = g a) -> g <$> alter f k m = g <$> m.
Proof.
  intros H. apply map_eq. intros i. rewrite !lookup_fmap. destruct (decide (i = k)) as [->|Hne].
  - rewrite lookup_alter_eq. destruct (m !! k); cbn; [by rewrite H|done].
  - by rewrite lookup_alter_ne by congruence.
Qed.

Lemma alter_same {K A} `{Countable K} (f : A -> A) (k : K) (m : gmap K A) : (forall a, m !! k = Some a -> f a = a) -> alter f k m = m.
Proof.
  intros H0. apply map_eq. intros i. destruct (decide (i = k)) as [->|Hne]; [|by rewrite lookup_alter_ne by congruence].
  rewrite lookup_alter_eq. destruct (m !! k) as [a|]; [|done]. cbn. f_equal. auto.
Qed.

Lemma alter_absent {K A} `{Countable K} (f : A -> A) (k : K) (m : gmap K A) : m !! k = None -> alter f k m = m.
Proof. intros H0. apply alter_same. intros a. by rewrite H0. Qed.

(** [List.filter] *)
Lemma elem_of_lfilter {A} (f : A -> bool) l x : x ∈ List.filter f l <-> x ∈ l /\ f x = true.
Proof. rewrite !list_elem_of_In. apply List.filter_In. Qed.

Lemma NoDup_lfilter {A} (f : A -> bool) l : NoDup l -> NoDup (List.filter f l).
Proof. rewrite !NoDup_ListNoDup. apply List.NoDup_filter. Qed.

End SubsLists.
