(* ===== verification/SubsQueue.v ===== *)
(** * SubsQueue: operations, their packet identifiers and their answers

    The invariant of the queue of SUBSCRIBEs and UNSUBSCRIBEs: an operation is
    queued or answered, never both; the packet identifiers the engine holds
    for SUBSCRIBE and UNSUBSCRIBE are those registered here and those a step
    has in hand to register or release. *)

From S2P Require Import Prelude GoLib Errors ClientErrors Buffers Varint Topics Subscribe IdTable Trie Subscriptions SubsLists.

Module SubsQueue.
Import Subscriptions SubsLists.

(** What this file is about in an operation. *)
Record opcore : Type := mkCore { k_kind : ctrlKind; k_sub : Z; k_queued : bool; k_id : Z; k_sent : bool; k_conn : option Z; k_done : Z }.

Definition acore (o : ctrlOp) : opcore := mkCore (o_kind o) (o_sub o) (o_queued o) (o_id o) (o_sent o) (o_conn o) (len (o_results o)).

Definition ops (c : client) : gmap Z opcore := acore <$> h_ops c.

(** All this file is about in a client. *)
Definition queue_part (c : client) := (ops c, ctrlOps c, engine_ids c, next_op c, dom (h_subs c)).
Definition queue_all (c : client) := (queue_part c, ctrlQueue c).

Definition kind_owner (k : ctrlKind) : IDs.Owner :=
  match k with KSubscribe => IDs.OwnerSubscribe | KUnsubscribe => IDs.OwnerUnsubscribe end.

Lemma owner_acore o : owner o = kind_owner (k_kind (acore o)).
Proof. unfold owner. by destruct o as [[] ?]. Qed.

Lemma kind_owner_none k : kind_owner k <> IDs.OwnerNone.
Proof. by destruct k. Qed.

(** The identifier a step took for or from [op]; 0 stands for none. *)
Definition hand_add (id op : Z) (R : gmap Z Z) : gmap Z Z := if id =? 0 then R else <[id := op]> R.

(** The invariant, in the middle of a step: [q] is the queue, the operations
    [P] were taken off it and not answered yet, [R] maps the identifiers in
    hand to their operations, those of [S] may carry an identifier that is no
    longer registered, and those of [U] may be registered and not yet marked
    as sent. *)
Record queue_inv (q : list Z) (P : gset Z) (R : gmap Z Z) (S U : gset Z) (W : gmap Z Z) (c : client) : Prop := {
  a_nodup : NoDup q;
  a_queued : forall op, op ∈ q <-> exists o, ops c !! op = Some o /\ k_queued o = true;
  a_taken : forall op, op ∈ P -> exists o, ops c !! op = Some o /\ k_queued o = false /\ k_done o = 0;
  a_done : forall op o, ops c !! op = Some o -> op ∉ P -> k_done o = if k_queued o then 0 else 1;
  a_reg : forall id op, ctrlOps c !! id = Some op ->
    id <> 0 /\ exists o, ops c !! op = Some o /\ k_id o = id /\ (k_queued o = true \/ op ∈ P);
  a_id : forall op o, ops c !! op = Some o -> op ∉ S -> k_id o <> 0 -> ctrlOps c !! k_id o = Some op;
  a_sent : forall op o, ops c !! op = Some o -> op ∉ S -> op ∉ U -> k_id o <> 0 -> k_sent o = true;
  a_conn : forall op cs o, W !! op = Some cs -> ops c !! op = Some o -> op ∉ S -> k_id o <> 0 -> k_conn o = Some cs;
  a_table : IDs.table_ok (engine_ids c);
  a_disj : ctrlOps c ##ₘ R;
  a_hand : forall id op, R !! id = Some op -> id <> 0 /\ is_Some (ops c !! op);
  a_owner : forall id w, w <> IDs.OwnerNone -> w <> IDs.OwnerPublish ->
    IDs.owner (engine_ids c) !! id = Some w <->
    exists op o, (ctrlOps c !! id = Some op \/ R !! id = Some op) /\ ops c !! op = Some o /\ kind_owner (k_kind o) = w;
  a_fresh : forall op, is_Some (ops c !! op) -> op < next_op c;
  a_sub : forall op o, ops c !! op = Some o -> k_kind o = KSubscribe -> k_sub o ∈ dom (h_subs c);
}.

Lemma queue_inv_frame q P R S U W c c' :
  queue_part c' = queue_part c -> queue_inv q P R S U W c -> queue_inv q P R S U W c'.
Proof. unfold queue_part. intros [= E1 E2 E3 E4 E5] []. split; rewrite ?E1, ?E2, ?E3, ?E4, ?E5; assumption. Qed.

Lemma queue_inv_all P R S U W c c' :
  queue_all c' = queue_all c -> queue_inv (ctrlQueue c) P R S U W c -> queue_inv (ctrlQueue c') P R S U W c'.
Proof. unfold queue_all. intros E. injection E as E1 E2 E3 E4 E5 ->. apply queue_inv_frame. unfold queue_part. congruence. Qed.

(** ** One operation changes *)

Lemma ops_upd op f c x : h_ops c !! op = Some x -> ops (upd_op op f c) = <[op := acore (f x)]> (ops c).
Proof.
  intros H. unfold ops, upd_op. cbn [h_ops update]. apply map_eq. intros i. destruct (decide (i = op)) as [->|Hne].
  - by rewrite lookup_fmap, lookup_alter_eq, lookup_insert_eq, H.
  - by rewrite lookup_fmap, lookup_alter_ne, lookup_insert_ne, lookup_fmap by congruence.
Qed.

Lemma upd_op_absent op f c : h_ops c !! op = None -> upd_op op f c = c.
Proof. intros H. unfold upd_op, update. rewrite alter_absent by done. by destruct c. Qed.

Lemma ops_lookup c op : ops c !! op = acore <$> h_ops c !! op.
Proof. apply lookup_fmap. Qed.

(** Look up in a map with one operation changed. *)
Ltac look op :=
  repeat match goal with
  | H : <[?k := _]> _ !! ?i = Some _ |- _ =>
      destruct (decide (i = k)) as [->|?]; [rewrite lookup_insert_eq in H; injection H as <-|rewrite lookup_insert_ne in H by congruence]
  end.

Section steps.
Context (q : list Z) (P : gset Z) (R : gmap Z Z) (S U : gset Z) (W : gmap Z Z) (c : client).
Hypothesis I : queue_inv q P R S U W c.

(** The operations other than [op] are as before; [op] has core [o'], with its
    kind, and the rest of the invariant holds for it. *)
Lemma core_changed c' op o o' q' P' S' U' :
  ops c !! op = Some o -> ops c' = <[op := o']> (ops c) -> k_kind o' = k_kind o -> k_sub o' = k_sub o ->
  ctrlOps c' = ctrlOps c -> engine_ids c' = engine_ids c -> next_op c' = next_op c -> dom (h_subs c') = dom (h_subs c) ->
  NoDup q' -> (forall x, x <> op -> (x ∈ q' <-> x ∈ q)) -> (op ∈ q' <-> k_queued o' = true) ->
  (forall x, x <> op -> (x ∈ P' <-> x ∈ P)) -> (op ∈ P' -> k_queued o' = false /\ k_done o' = 0) ->
  (op ∉ P' -> k_done o' = if k_queued o' then 0 else 1) ->
  (forall x, x <> op -> (x ∈ S' <-> x ∈ S)) -> (forall x, x <> op -> (x ∈ U' <-> x ∈ U)) ->
  (forall id, ctrlOps c !! id = Some op -> k_id o' = id /\ (k_queued o' = true \/ op ∈ P')) ->
  (op ∉ S' -> k_id o' <> 0 -> ctrlOps c !! k_id o' = Some op) ->
  (op ∉ S' -> op ∉ U' -> k_id o' <> 0 -> k_sent o' = true) ->
  (forall cs, W !! op = Some cs -> op ∉ S' -> k_id o' <> 0 -> k_conn o' = Some cs) ->
  queue_inv q' P' R S' U' W c'.
Proof.
  intros Ho Eops Hk Hsub E3 E4 E5 E6 Hq Hqx Hqo HPx HPo HPn HSx HUx Hreg Hid Hsent Hconn. destruct I.
  split; rewrite ?Eops, ?E3, ?E4, ?E5, ?E6; try assumption.
  - intros x. destruct (decide (x = op)) as [->|Hne].
    + rewrite Hqo, lookup_insert_eq. split; [eauto|]. by intros (? & [= <-] & ?).
    + by rewrite Hqx, lookup_insert_ne by congruence.
  - intros x Hx. destruct (decide (x = op)) as [->|Hne]; [rewrite lookup_insert_eq; eauto|].
    rewrite lookup_insert_ne by congruence. by apply a_taken0, HPx.
  - intros x y Hx Hn. look op; [auto|]. apply (a_done0 x); [done|]. by rewrite <- HPx.
  - intros id x Hx. destruct (a_reg0 _ _ Hx) as (H0 & y & Hy & Hid' & Hy'). split; [done|]. destruct (decide (x = op)) as [->|Hne].
    + destruct (Hreg _ Hx) as (? & ?). rewrite lookup_insert_eq. eauto.
    + rewrite lookup_insert_ne by congruence. exists y. by rewrite HPx.
  - intros x y Hx Hn Hid'. look op; [auto|]. apply a_id0; [done| |done]. by rewrite <- HSx.
  - intros x y Hx Hn Hn' Hid'. look op; [auto|]. apply (a_sent0 x); [done|by rewrite <- HSx|by rewrite <- HUx|done].
  - intros x cs y Hx Hy Hn Hid'. look op; [by apply Hconn|]. apply (a_conn0 x); [done|done|by rewrite <- HSx|done].
  - intros id x Hx. destruct (a_hand0 _ _ Hx) as [? [y ?]]. split; [done|]. destruct (decide (x = op)) as [->|]; [rewrite lookup_insert_eq|rewrite lookup_insert_ne by congruence]; eauto.
  - intros id w Hw1 Hw2. rewrite (a_owner0 id w Hw1 Hw2). split; intros (x & y & Hr & Hx & Hk').
    + destruct (decide (x = op)) as [->|Hne]; [exists op, o'; rewrite lookup_insert_eq, Hk; replace o with y by congruence; done|].
      exists x, y. by rewrite lookup_insert_ne by congruence.
    + look op; [exists op, o; by rewrite <- Hk|]. by exists x, y.
  - intros x [y Hx]. look op; [by apply a_fresh0; eauto|]. apply a_fresh0. eauto.
  - intros x y Hx Hkx. look op; [rewrite Hsub; apply (a_sub0 op); congruence|]. by apply (a_sub0 x).
Qed.

(** A registration taken out of [ctrlOps] is in hand, and the operation's
    identifier stale. *)
Lemma taken_in_hand id op :
  ctrlOps c !! id = Some op -> queue_inv q P (<[id := op]> R) ({[op]} ∪ S) U W (c <| ctrlOps ::= delete id |>).
Proof.
  intros Hr. destruct I. destruct (a_reg0 _ _ Hr) as (H0 & o & Ho & Hid & Hq). split; cbn [ctrlOps engine_ids next_op update]; try assumption.
  - intros id' x [Hne Hx]%lookup_delete_Some. exact (a_reg0 _ _ Hx).
  - intros x y Hx Hn Hy. rewrite not_elem_of_union, not_elem_of_singleton in Hn. destruct Hn as [Hn1 Hn2].
    rewrite lookup_delete_ne; [by apply a_id0|]. intros E. assert (ctrlOps c !! k_id y = Some x) by by apply a_id0. rewrite <- E, Hr in H. congruence.
  - intros x y Hx [_ Hn]%not_elem_of_union. by apply (a_sent0 x).
  - intros x cs y Hx Hy [_ Hn]%not_elem_of_union. by apply (a_conn0 x).
  - apply map_disjoint_insert_r. split; [apply lookup_delete_eq|]. apply map_disjoint_delete_l, a_disj0.
  - intros id' x [[<- <-]|[Hne Hx]]%lookup_insert_Some; [split; [done|eexists; exact Ho]|]. exact (a_hand0 _ _ Hx).
  - intros id' w Hw1 Hw2. rewrite (a_owner0 id' w Hw1 Hw2). destruct (decide (id' = id)) as [->|Hne].
    + rewrite lookup_delete_eq, lookup_insert_eq, Hr. assert (R !! id = None) as -> by (eapply map_disjoint_Some_l; [exact a_disj0|done]).
      split; intros (x & y & [Hx|Hx] & ?); [by exists x, y; eauto|done|done|by exists x, y; eauto].
    + by rewrite lookup_delete_ne, lookup_insert_ne by congruence.
Qed.

(** An operation that is not registered forgets its identifier. *)
Lemma id_forgotten op S' :
  (forall id, ctrlOps c !! id <> Some op) -> (forall x, x <> op -> (x ∈ S' <-> x ∈ S)) ->
  queue_inv q P R S' U W (upd_op op (fun o => o <| o_id := 0 |> <| o_conn := None |>) c).
Proof.
  intros Hn HS. destruct (h_ops c !! op) as [x|] eqn:Ho.
  - assert (Ho' : ops c !! op = Some (acore x)) by by rewrite ops_lookup, Ho.
    apply (core_changed _ op (acore x) _ _ _ _ _ Ho' (ops_upd _ _ _ _ Ho)); try done; cbn.
    + apply I.
    + rewrite (a_queued _ _ _ _ _ _ _ I), Ho'. split; [by intros (? & [= <-] & ?)|eauto].
    + intros Hp. destruct (a_taken _ _ _ _ _ _ _ I _ Hp) as (o' & Hx & ?). by simplify_eq.
    + by apply (a_done _ _ _ _ _ _ _ I op (acore x)).
    + intros id Hid. by destruct (Hn id).
  - rewrite upd_op_absent by done. assert (forall y, ops c !! op <> Some y) by (intros y; by rewrite ops_lookup, Ho).
    destruct I. split; try assumption.
    + intros y o Hy Hx Hid. apply a_id0; [done| |done]. rewrite <- HS; [done|]. intros ->. congruence.
    + intros y o Hy Hx Hu Hid. apply (a_sent0 y); [done| |done..]. rewrite <- HS; [done|]. intros ->. congruence.
    + intros y cs o Hy Ho1 Hx Hid. apply (a_conn0 y); [done|done| |done]. rewrite <- HS; [done|]. intros ->. congruence.
Qed.

(** [op] has no registered identifier. *)
Definition unregistered (d : client) (op : Z) : Prop := forall id, ctrlOps d !! id <> Some op.

Lemma unregistered_other id op :
  (forall id', ctrlOps c !! id' = Some op -> id' = id) -> unregistered (c <| ctrlOps ::= delete id |>) op.
Proof. intros H id'. cbn [ctrlOps update]. intros [Hne Hx]%lookup_delete_Some. by apply H in Hx. Qed.

Lemma registered_once op id id' : ctrlOps c !! id = Some op -> ctrlOps c !! id' = Some op -> id' = id.
Proof.
  intros H1 H2. destruct (a_reg _ _ _ _ _ _ _ I _ _ H1) as (_ & o & Ho & <- & _). destruct (a_reg _ _ _ _ _ _ _ I _ _ H2) as (_ & o' & Ho' & <- & _).
  congruence.
Qed.
End steps.

(** ** The operations of the queue *)

Section operations.
Context (q : list Z) (P : gset Z) (R : gmap Z Z) (S U : gset Z) (W : gmap Z Z) (c : client).
Hypothesis I : queue_inv q P R S U W c.

Lemma unregister_inv op :
  op ∉ S ->
  let (c', id) := unregisterLocked c op in
  queue_inv q P (hand_add id op R) S U W c' /\ (id <> 0 -> R !! id = None) /\ unregistered c' op
  /\ ctrlQueue c' = ctrlQueue c.
Proof.
  intros HS. unfold unregisterLocked. destruct (h_ops c !! op) as [x|] eqn:Ho.
  2:{ split; [done|]. split; [done|]. split; [|done]. intros id Hr. destruct (a_reg _ _ _ _ _ _ _ I _ _ Hr) as (_ & o & E & _). by rewrite ops_lookup, Ho in E. }
  assert (Ho' : ops c !! op = Some (acore x)) by by rewrite ops_lookup, Ho.
  change (ctrlOps (upd_op op (fun o => o <| o_id := 0 |> <| o_conn := None |>) c)) with (ctrlOps c).
  destruct (Z.eqb_spec (o_id x) 0) as [E0|E0]; cbn [orb].
  - assert (Hn : unregistered c op).
    { intros id Hr. destruct (a_reg _ _ _ _ _ _ _ I _ _ Hr) as (Hid & o & E & Ek & _). rewrite Ho' in E. injection E as <-. by rewrite <- Ek in Hid. }
    split; [|done]. apply (id_forgotten _ _ _ S); done.
  - pose proof (a_id _ _ _ _ _ _ _ I _ _ Ho' HS E0) as Hr. cbn [acore k_id] in Hr. rewrite bool_decide_eq_true_2 by done. cbn [negb].
    unfold hand_add. rewrite (proj2 (Z.eqb_neq _ _) E0).
    pose proof (unregistered_other c (o_id x) op ltac:(intros id' H'; by eapply registered_once)) as Hn. split.
    + apply (id_forgotten _ _ _ ({[op]} ∪ S) _ _ _ (taken_in_hand _ _ _ _ _ _ _ I _ _ Hr) op S); [done|].
      intros y Hy. rewrite elem_of_union, elem_of_singleton. tauto.
    + split; [|done]. intros _. eapply map_disjoint_Some_l; [apply I|exact Hr].
Qed.

(** An operation leaves the queue. *)
Lemma unqueued_inv op q' :
  NoDup q' -> op ∈ q -> op ∉ q' -> (forall y, y <> op -> (y ∈ q' <-> y ∈ q)) ->
  queue_inv q' ({[op]} ∪ P) R S U W (upd_op op (fun o => o <| o_queued := false |>) c).
Proof.
  intros Hq' Hin Hout Hq. pose proof (proj1 (a_queued _ _ _ _ _ _ _ I op) Hin) as (o & Ho & Hk).
  rewrite ops_lookup in Ho. destruct (h_ops c !! op) as [x|] eqn:E; [|done]. injection Ho as <-.
  assert (Ho' : ops c !! op = Some (acore x)) by by rewrite ops_lookup, E. cbn in Hk.
  assert (HP : op ∉ P). { intros Hp. destruct (a_taken _ _ _ _ _ _ _ I _ Hp) as (o' & Hx & ? & _). rewrite Ho' in Hx. injection Hx as <-. by cbn in *; congruence. }
  pose proof (a_done _ _ _ _ _ _ _ I _ _ Ho' HP) as Hd. cbn in Hd. rewrite Hk in Hd.
  apply (core_changed _ _ _ _ _ _ _ I _ op (acore x) _ _ _ _ _ Ho' (ops_upd _ _ _ _ E)); try done; cbn.
  - intros y Hy. rewrite elem_of_union, elem_of_singleton. tauto.
  - rewrite not_elem_of_union, not_elem_of_singleton. by intros [? _].
  - intros id Hr. destruct (a_reg _ _ _ _ _ _ _ I _ _ Hr) as (_ & o & Hx & Hid & _). rewrite Ho' in Hx. injection Hx as <-. split; [done|]. right. by apply elem_of_union_l, elem_of_singleton.
  - intros HS Hid. by apply (a_id _ _ _ _ _ _ _ I _ _ Ho').
  - intros HS HU Hid. by apply (a_sent _ _ _ _ _ _ _ I _ _ Ho').
  - intros cs Hw HS Hid. by apply (a_conn _ _ _ _ _ _ _ I _ _ _ Hw Ho').
Qed.

End operations.

(** [dequeueLocked] *)
Lemma dequeue_inv P R S U W c op :
  queue_inv (ctrlQueue c) P R S U W c -> op ∉ S ->
  match dequeueLocked c op with
  | (c', None) => c' = c /\ op ∉ ctrlQueue c
  | (c', Some id) => op ∈ ctrlQueue c /\ queue_inv (ctrlQueue c') ({[op]} ∪ P) (hand_add id op R) S U W c'
                     /\ (id <> 0 -> R !! id = None) /\ unregistered c' op
                     /\ (forall y, y ∈ ctrlQueue c' <-> y ∈ ctrlQueue c /\ y <> op)
  end.
Proof.
  intros I HS. unfold dequeueLocked. pose proof (a_queued _ _ _ _ _ _ _ I op) as Hq. rewrite ops_lookup in Hq.
  destruct (h_ops c !! op) as [x|] eqn:E; cbn in Hq; [|split; [done|]; rewrite Hq; by intros (? & ? & _)].
  destruct (o_queued x) eqn:Ek; cbn [negb]; [|split; [done|]; rewrite Hq; intros (? & [= <-] & ?); cbn in *; congruence].
  assert (Hin : op ∈ ctrlQueue c) by (apply Hq; eauto). destruct (Index_elem _ _ Hin) as [i Hi].
  change (ctrlQueue (upd_op op (fun o => o <| o_queued := false |>) c)) with (ctrlQueue c). rewrite Hi.
  destruct (NoDup_Delete _ _ _ Hi (a_nodup _ _ _ _ _ _ _ I)) as [Hnd Hd].
  pose proof (unqueued_inv _ _ _ _ _ _ _ I op (Delete (ctrlQueue c) i (Datatypes.S i)) Hnd Hin ltac:(rewrite Hd; tauto) ltac:(intros y Hy; rewrite Hd; tauto)) as I1.
  set (c1 := _ <| ctrlQueue ::= _ |>). assert (I2 : queue_inv (Delete (ctrlQueue c) i (Datatypes.S i)) ({[op]} ∪ P) R S U W c1) by (by apply (queue_inv_frame _ _ _ _ _ _ (upd_op op (fun o => o <| o_queued := false |>) c))).
  pose proof (unregister_inv _ _ _ _ _ _ _ I2 op HS) as H. destruct (unregisterLocked c1 op) as [c2 id]. destruct H as (H1 & H2 & H3 & H4).
  split; [done|]. rewrite H4. split; [done|]. split; [done|]. split; [done|]. exact Hd.
Qed.

(** ** Answers, releases and new operations *)

Section more_operations.
Context (q : list Z) (P : gset Z) (R : gmap Z Z) (S U : gset Z) (W : gmap Z Z) (c : client).

(** The engine's table changes: what is in hand with it. *)
Lemma table_changed R' t :
  queue_inv q P R S U W c -> IDs.table_ok t -> ctrlOps c ##ₘ R' ->
  (forall id op, R' !! id = Some op -> id <> 0 /\ is_Some (ops c !! op)) ->
  (forall id w, w <> IDs.OwnerNone -> w <> IDs.OwnerPublish ->
    IDs.owner t !! id = Some w <->
    exists op o, (ctrlOps c !! id = Some op \/ R' !! id = Some op) /\ ops c !! op = Some o /\ kind_owner (k_kind o) = w) ->
  queue_inv q P R' S U W (c <| engine_ids := t |>).
Proof. intros [] Ht Hd Hh Ho. split; assumption. Qed.

Lemma hand_release id op o :
  queue_inv q P R S U W c -> R !! id = Some op -> h_ops c !! op = Some o -> queue_inv q P (delete id R) S U W (ReleaseID c id (owner o)).
Proof.
  intros I Hr Ho. assert (Ho' : ops c !! op = Some (acore o)) by by rewrite ops_lookup, Ho.
  assert (Hc : ctrlOps c !! id = None) by (eapply map_disjoint_Some_r; [apply I|done]).
  assert (Hid : IDs.owner (engine_ids c) !! id = Some (owner o)).
  { rewrite owner_acore. apply I; [apply kind_owner_none|by destruct (k_kind (acore o))|]. exists op, (acore o). auto. }
  unfold ReleaseID. pose proof (a_table _ _ _ _ _ _ _ I) as Ht.
  pose proof (IDs.releaseLocked_ok (engine_ids c) id (owner o) Ht ltac:(rewrite owner_acore; apply kind_owner_none)) as Hok.
  rewrite IDs.releaseLocked_spec, decide_True in * by (done || (rewrite owner_acore; apply kind_owner_none)). cbn [snd] in *.
  apply table_changed; [done|done|apply map_disjoint_delete_r, I| |].
  - intros i x [_ Hx]%lookup_delete_Some. exact (a_hand _ _ _ _ _ _ _ I _ _ Hx).
  - intros i w Hw1 Hw2. cbn [IDs.owner]. destruct (decide (i = id)) as [->|Hne].
    + rewrite !lookup_delete_eq, Hc. split; [done|]. by intros (? & ? & [?|?] & _).
    + rewrite !lookup_delete_ne by congruence. by apply I.
Qed.

End more_operations.

Section answers.
Context (q : list Z) (P : gset Z) (R : gmap Z Z) (S U : gset Z) (W : gmap Z Z) (c : client).

Lemma release_inv id op :
  queue_inv q P (hand_add id op R) S U W c -> (id <> 0 -> R !! id = None) -> queue_inv q P R S U W (release_for c op id).
Proof.
  unfold hand_add, release_for. destruct (Z.eqb_spec id 0) as [->|H0]; intros I Hn; [by destruct (h_ops c !! op)|].
  destruct (a_hand _ _ _ _ _ _ _ I id op ltac:(apply lookup_insert_eq)) as [_ [o Ho]]. rewrite ops_lookup in Ho.
  destruct (h_ops c !! op) as [x|] eqn:E; [|done].
  pose proof (hand_release _ _ _ _ _ _ _ _ _ _ I (lookup_insert_eq _ _ _) E) as H. by rewrite delete_insert_id in H by auto.
Qed.

Hypothesis I : queue_inv q P R S U W c.

Lemma taken_core op : op ∈ P -> exists x, h_ops c !! op = Some x /\ ops c !! op = Some (acore x) /\ o_queued x = false /\ len (o_results x) = 0.
Proof.
  intros Hp. destruct (a_taken _ _ _ _ _ _ _ I _ Hp) as (o & Ho & H1 & H2). pose proof Ho as Ho'. rewrite ops_lookup in Ho.
  destruct (h_ops c !! op) as [x|]; [|done]. injection Ho as <-. by exists x.
Qed.

Lemma unregistered_id op x : unregistered c op -> ops c !! op = Some x -> op ∉ S -> k_id x = 0.
Proof. intros Hn Hx HS. destruct (decide (k_id x = 0)) as [|H0]; [done|]. by destruct (Hn (k_id x)); apply I. Qed.

(** [complete] *)
Lemma complete_inv op r : op ∈ P -> unregistered c op -> queue_inv q (P ∖ {[op]}) R S U W (complete c op r).
Proof.
  intros Hp Hn. destruct (taken_core _ Hp) as (x & E & Ho & Hq & Hd).
  apply (core_changed _ _ _ _ _ _ _ I _ op (acore x) _ _ _ _ _ Ho (ops_upd _ _ _ _ E)); try done; cbn.
  - apply I.
  - rewrite Hq. rewrite (a_queued _ _ _ _ _ _ _ I), Ho. split; [|done]. intros (? & [= <-] & ?). cbn in *. congruence.
  - intros y Hy. rewrite elem_of_difference, elem_of_singleton. tauto.
  - rewrite elem_of_difference, elem_of_singleton. tauto.
  - intros _. rewrite Hq, len_app, Hd. done.
  - intros id Hid. by destruct (Hn id).
  - intros HS Hid. by apply (a_id _ _ _ _ _ _ _ I _ _ Ho).
  - intros HS HU Hid. by apply (a_sent _ _ _ _ _ _ _ I _ _ Ho).
  - intros cs Hw HS Hid. by apply (a_conn _ _ _ _ _ _ _ I _ _ _ Hw Ho).
Qed.

(** [op.queued = true] for an operation appended to the queue. *)
Lemma enqueued_inv op : op ∈ P -> queue_inv (q ++ [op]) (P ∖ {[op]}) R S U W (enqueue c op).
Proof.
  intros Hp. destruct (taken_core _ Hp) as (x & E & Ho & Hq & Hd).
  assert (Hnq : op ∉ q). { rewrite (a_queued _ _ _ _ _ _ _ I), Ho. intros (? & [= <-] & ?). cbn in *. congruence. }
  apply (queue_inv_frame _ _ _ _ _ _ (upd_op op (fun o => o <| o_queued := true |>) c)); [done|].
  apply (core_changed _ _ _ _ _ _ _ I _ op (acore x) _ _ _ _ _ Ho (ops_upd _ _ _ _ E)); try done; cbn.
  - apply NoDup_app. split; [apply I|]. split; [|apply NoDup_singleton]. intros y Hy ->%list_elem_of_singleton. done.
  - intros y Hy. rewrite elem_of_app, list_elem_of_singleton. tauto.
  - rewrite elem_of_app, list_elem_of_singleton. tauto.
  - intros y Hy. rewrite elem_of_difference, elem_of_singleton. tauto.
  - rewrite elem_of_difference, elem_of_singleton. tauto.
  - intros id Hid. split; [|by left]. destruct (a_reg _ _ _ _ _ _ _ I _ _ Hid) as (_ & o & Hx & Hid' & _). rewrite Ho in Hx. by injection Hx as <-.
  - intros HS Hid. by apply (a_id _ _ _ _ _ _ _ I _ _ Ho).
  - intros HS HU Hid. by apply (a_sent _ _ _ _ _ _ _ I _ _ Ho).
  - intros cs Hw HS Hid. by apply (a_conn _ _ _ _ _ _ _ I _ _ _ Hw Ho).
Qed.

(** A new operation belongs to the step that makes it. *)
Lemma new_op_inv o :
  o_queued o = false -> o_id o = 0 -> o_results o = [] -> (o_kind o = KSubscribe -> o_sub o ∈ dom (h_subs c)) ->
  queue_inv q ({[next_op c]} ∪ P) R S U W (fst (new_op c o)) /\ unregistered (fst (new_op c o)) (next_op c).
Proof.
  intros Hq Hid Hd Hsub. assert (Hf : ops c !! next_op c = None).
  { apply eq_None_not_Some. intros H%(a_fresh _ _ _ _ _ _ _ I). lia. }
  assert (Eops : ops (fst (new_op c o)) = <[next_op c := acore o]> (ops c)) by (unfold ops, new_op; cbn [fst h_ops update]; apply fmap_insert).
  assert (Hn : unregistered (fst (new_op c o)) (next_op c)).
  { intros id Hr. destruct (a_reg _ _ _ _ _ _ _ I id (next_op c) Hr) as (_ & y & Hy & _). congruence. }
  split; [|done]. destruct I. split; try assumption; rewrite ?Eops.
  - intros op. rewrite a_queued0. destruct (decide (op = next_op c)) as [->|Hne].
    + rewrite lookup_insert_eq, Hf. split; [by intros (? & ? & _)|]. intros (? & [= <-] & ?). cbn in *. congruence.
    + by rewrite lookup_insert_ne by congruence.
  - intros op Hp. destruct (decide (op = next_op c)) as [->|Hne].
    + rewrite lookup_insert_eq. exists (acore o). cbn. by rewrite Hd.
    + rewrite lookup_insert_ne by congruence. apply a_taken0. rewrite elem_of_union, elem_of_singleton in Hp. tauto.
  - intros op y Hy Hp. rewrite not_elem_of_union, not_elem_of_singleton in Hp. destruct Hp as [Hne Hp].
    rewrite lookup_insert_ne in Hy by congruence. by apply (a_done0 op).
  - intros id op Hr. destruct (a_reg0 id op Hr) as (H0 & y & Hy & Hid' & Hq'). split; [done|]. exists y.
    rewrite lookup_insert_ne by congruence. split; [done|]. split; [done|]. rewrite elem_of_union. tauto.
  - intros op y Hy HS Hk. look op; [by rewrite <- Hid in Hk|]. by apply a_id0.
  - intros op y Hy HS HU Hk. look op; [by rewrite <- Hid in Hk|]. by apply (a_sent0 op).
  - intros op cs y Hw Hy HS Hk. look op; [by rewrite <- Hid in Hk|]. by apply (a_conn0 op).
  - intros id op Hr. destruct (a_hand0 id op Hr) as [H0 [y Hy]]. split; [done|]. rewrite lookup_insert_ne by congruence. eauto.
  - intros id w Hw1 Hw2. change (engine_ids (fst (new_op c o))) with (engine_ids c). change (ctrlOps (fst (new_op c o))) with (ctrlOps c).
    rewrite (a_owner0 id w Hw1 Hw2). split; intros (op & y & Hr & Hy & Hk); exists op, y.
    + by rewrite lookup_insert_ne by congruence.
    + look op; [|done]. destruct Hr as [Hr|Hr]; [destruct (a_reg0 id _ Hr) as (_ & ? & ? & _); congruence|].
      destruct (a_hand0 id _ Hr) as [_ [? ?]]. congruence.
  - intros op [y Hy]. change (next_op (fst (new_op c o))) with (Z.succ (next_op c)). look op; [lia|].
    assert (op < next_op c) by (apply a_fresh0; eauto). lia.
  - intros op y Hy Hk. look op; [by apply Hsub|]. by apply (a_sub0 op).
Qed.
End answers.

(** ** Sending *)

Section sending.
Context (q : list Z) (P : gset Z) (R : gmap Z Z) (S U : gset Z) (W : gmap Z Z) (c : client).
Hypothesis I : queue_inv q P R S U W c.

(** A SUBSCRIBE or an UNSUBSCRIBE takes an identifier. *)
Lemma allocate_inv op o id t :
  h_ops c !! op = Some o -> IDs.AllocateID (engine_ids c) (owner o) = IDs.Allocated id t ->
  queue_inv q P (<[id := op]> R) S U W (c <| engine_ids := t |>) /\ id <> 0 /\ R !! id = None.
Proof.
  intros Ho Ha. pose proof (IDs.AllocateID_spec (engine_ids c) (owner o) (a_table _ _ _ _ _ _ _ I) ltac:(rewrite owner_acore; apply kind_owner_none)) as H.
  rewrite Ha in H. destruct H as (Hid & Hfree & Howner & _ & Hok). pose proof (a_table _ _ _ _ _ _ _ I) as Ht.
  apply IDs.owner_of_None in Hfree; [|done]. assert (Ho' : ops c !! op = Some (acore o)) by by rewrite ops_lookup, Ho.
  assert (Hnone : ctrlOps c !! id = None /\ R !! id = None).
  { assert (Hx : forall x, ~ (ctrlOps c !! id = Some x \/ R !! id = Some x)).
    { intros x Hx. assert (exists y, ops c !! x = Some y) as [y Hy].
      { destruct Hx as [Hx|Hx]; [destruct (a_reg _ _ _ _ _ _ _ I _ _ Hx) as (_ & y & Hy & _)|destruct (a_hand _ _ _ _ _ _ _ I _ _ Hx) as [_ [y Hy]]]; eauto. }
      assert (IDs.owner (engine_ids c) !! id = Some (kind_owner (k_kind y))); [|congruence].
      apply I; [apply kind_owner_none|by destruct (k_kind y)|eauto]. }
    split; apply eq_None_not_Some; intros [x Hx']; eapply Hx; eauto. }
  destruct Hnone as [Hc Hr]. split; [|split; [lia|done]].
  apply (table_changed _ _ R); [done|done|by apply map_disjoint_insert_r; split; [|apply I]| |].
  - intros i x [[<- <-]|[Hne Hx]]%lookup_insert_Some; [split; [lia|eauto]|exact (a_hand _ _ _ _ _ _ _ I _ _ Hx)].
  - intros i w Hw1 Hw2. rewrite Howner. destruct (decide (i = id)) as [->|Hne].
    + rewrite !lookup_insert_eq, Hc, owner_acore. split; [intros [= <-]; exists op, (acore o); auto|].
      intros (x & y & [?|[= <-]] & Hy & <-); [done|]. rewrite Ho' in Hy. by injection Hy as <-.
    + rewrite !lookup_insert_ne by congruence. by apply I.
Qed.

(** The identifiers of PUBLISHes are the engine's own business. *)
Lemma publish_table_inv t :
  IDs.table_ok t ->
  (forall id w, w <> IDs.OwnerNone -> w <> IDs.OwnerPublish -> IDs.owner t !! id = Some w <-> IDs.owner (engine_ids c) !! id = Some w) ->
  queue_inv q P R S U W (c <| engine_ids := t |>).
Proof.
  intros Ht He. apply (table_changed _ _ R); [done|done|apply I|apply I|]. intros id w Hw1 Hw2. rewrite He by done. by apply I.
Qed.

(** A queued operation is registered under the identifier in hand; it has yet
    to be marked as sent. *)
Lemma register_inv op id cs :
  R !! id = Some op -> op ∈ q -> op ∉ S -> unregistered c op ->
  queue_inv q P (delete id R) S ({[op]} ∪ U) (<[op := cs]> W)
    ((upd_op op (fun o => o <| o_id := id |> <| o_conn := Some cs |>) c) <| ctrlOps ::= <[id := op]> |>).
Proof.
  intros Hr Hq HS Hn. destruct (proj1 (a_queued _ _ _ _ _ _ _ I op) Hq) as (o & Ho & Hk). pose proof Ho as Ho'.
  rewrite ops_lookup in Ho. destruct (h_ops c !! op) as [x|] eqn:E; [|done]. injection Ho as <-.
  destruct (a_hand _ _ _ _ _ _ _ I _ _ Hr) as [H0 _].
  assert (Hc : ctrlOps c !! id = None) by (eapply map_disjoint_Some_r; [apply I|done]).
  set (c' := _ <| ctrlOps ::= _ |>).
  assert (Eops : ops c' = <[op := acore (x <| o_id := id |> <| o_conn := Some cs |>)]> (ops c)) by exact (ops_upd op _ _ _ E).
  destruct I. split; try assumption; rewrite ?Eops; change (ctrlOps c') with (<[id := op]> (ctrlOps c)).
  - intros y. rewrite a_queued0. destruct (decide (y = op)) as [->|Hne]; [|by rewrite lookup_insert_ne by congruence].
    rewrite lookup_insert_eq, Ho'. split; intros (? & [= <-] & ?); eexists; split; eauto.
  - intros y Hp. destruct (a_taken0 y Hp) as (z & Hz & ? & ?). rewrite lookup_insert_ne; [eauto|]. intros <-. rewrite Ho' in Hz. injection Hz as <-. cbn in *. congruence.
  - intros y z Hz Hp. look op; [by apply (a_done0 op (acore x))|by apply (a_done0 y)].
  - intros i y [[<- <-]|[Hne Hy]]%lookup_insert_Some.
    + split; [done|]. rewrite lookup_insert_eq. eexists. split; [done|]. cbn in *. auto.
    + destruct (a_reg0 _ _ Hy) as (? & z & Hz & ? & ?). split; [done|]. exists z. rewrite lookup_insert_ne; [done|]. intros <-. by eapply Hn.
  - intros y z Hz HSy Hz0. look op; [apply lookup_insert_eq|]. rewrite lookup_insert_ne; [by apply a_id0|]. intros E1.
    assert (ctrlOps c !! k_id z = Some y) by by apply a_id0. congruence.
  - intros y z Hz HSy [HU1 HU2]%not_elem_of_union Hz0. rewrite not_elem_of_singleton in HU1. look op; [done|]. by apply (a_sent0 y).
  - intros y cs' z Hw Hz HSy Hz0. destruct (decide (y = op)) as [->|Hne].
    + rewrite lookup_insert_eq in Hw. rewrite lookup_insert_eq in Hz. injection Hw as <-. by injection Hz as <-.
    + rewrite lookup_insert_ne in Hw by congruence. rewrite lookup_insert_ne in Hz by congruence. by apply (a_conn0 y).
  - apply map_disjoint_insert_l. split; [apply lookup_delete_eq|]. apply map_disjoint_delete_r, a_disj0.
  - intros i y [_ Hy]%lookup_delete_Some. destruct (a_hand0 _ _ Hy) as [? [z Hz]]. split; [done|]. destruct (decide (y = op)) as [->|]; [rewrite lookup_insert_eq|rewrite lookup_insert_ne by congruence]; eauto.
  - intros i w Hw1 Hw2. change (engine_ids c') with (engine_ids c). rewrite (a_owner0 i w Hw1 Hw2).
    assert (Hin : forall y k, (exists z, ops c !! y = Some z /\ kind_owner (k_kind z) = k)
      <-> (exists z, <[op := acore (x <| o_id := id |> <| o_conn := Some cs |>)]> (ops c) !! y = Some z /\ kind_owner (k_kind z) = k)).
    { intros y k. destruct (decide (y = op)) as [->|]; [|by rewrite lookup_insert_ne by congruence].
      rewrite lookup_insert_eq, Ho'. split; intros (? & [= <-] & ?); eexists; split; eauto. }
    destruct (decide (i = id)) as [->|Hne].
    + rewrite Hc, Hr, lookup_insert_eq, lookup_delete_eq. split; intros (y & z & Hy & Hz).
      * destruct Hy as [Hy|Hy]; [done|]. destruct (proj1 (Hin y w) ltac:(eauto)) as (z' & ?). exists y, z'. auto.
      * destruct Hy as [Hy|Hy]; [|done]. destruct (proj2 (Hin y w) ltac:(eauto)) as (z' & ?). exists y, z'. auto.
    + rewrite lookup_insert_ne, lookup_delete_ne by congruence. split; intros (y & z & Hy & Hz).
      * destruct (proj1 (Hin y w) ltac:(eauto)) as (z' & ?). by exists y, z'.
      * destruct (proj2 (Hin y w) ltac:(eauto)) as (z' & ?). by exists y, z'.
  - intros y [z Hz]. change (next_op c') with (next_op c). look op; [apply a_fresh0; eauto|]. apply a_fresh0. eauto.
  - intros y z Hz Hkz. look op; [by apply (a_sub0 op (acore x))|]. by apply (a_sub0 y).
Qed.

(** [op.sent] is set; it may be cleared when [op] has no identifier, or about
    to lose it. *)
Lemma sent_inv op b U' :
  (forall x, x <> op -> (x ∈ U' <-> x ∈ U)) -> (b = true \/ op ∈ U' \/ unregistered c op /\ op ∉ S) ->
  queue_inv q P R S U' W (upd_op op (fun o => o <| o_sent := b |>) c).
Proof.
  intros HU Hb. destruct (h_ops c !! op) as [x|] eqn:E.
  - assert (Ho : ops c !! op = Some (acore x)) by by rewrite ops_lookup, E.
    apply (core_changed _ _ _ _ _ _ _ I _ op (acore x) _ _ _ _ _ Ho (ops_upd _ _ _ _ E)); try done; cbn.
    + apply I.
    + rewrite (a_queued _ _ _ _ _ _ _ I), Ho. split; [by intros (? & [= <-] & ?)|eauto].
    + intros Hp. destruct (a_taken _ _ _ _ _ _ _ I _ Hp) as (o' & Hx & ?). rewrite Ho in Hx. by injection Hx as <-.
    + by apply (a_done _ _ _ _ _ _ _ I op (acore x)).
    + intros id Hid. destruct (a_reg _ _ _ _ _ _ _ I _ _ Hid) as (_ & o & Hx & Hid' & Hq). rewrite Ho in Hx. by injection Hx as <-.
    + intros HS Hid. by apply (a_id _ _ _ _ _ _ _ I _ _ Ho).
    + intros HS HU' Hid. destruct Hb as [->|[?|[Hn HS']]]; [done..|]. by destruct Hid; apply (unregistered_id _ _ _ _ _ _ _ I _ _ Hn Ho HS').
    + intros cs Hw HS Hid. by apply (a_conn _ _ _ _ _ _ _ I _ _ _ Hw Ho).
  - rewrite upd_op_absent by done. destruct I. split; try assumption. intros y z Hz HS HUy. apply (a_sent0 y); [done|done|].
    rewrite <- HU; [done|]. intros ->. by rewrite ops_lookup, E in Hz.
Qed.
End sending.

(** ** What leaves the queue alone *)

Lemma ops_same op f c : (forall o, acore (f o) = acore o) -> queue_all (upd_op op f c) = queue_all c.
Proof. intros H. unfold queue_all, queue_part, ops, upd_op. cbn [h_ops ctrlOps engine_ids next_op ctrlQueue update]. by rewrite fmap_alter_same. Qed.

Lemma upd_sub_frame s f c : queue_all (upd_sub s f c) = queue_all c.
Proof. unfold queue_all, queue_part, upd_sub, ops. cbn [h_ops h_subs ctrlOps engine_ids next_op ctrlQueue update]. by rewrite dom_alter_L. Qed.

Lemma publish_frame c b : queue_all (publishLocked c b) = queue_all c.
Proof. done. Qed.

Lemma tag_frame ident c f c' : tag_filter ident (Some c) f = Some c' -> queue_all c' = queue_all c.
Proof. cbn. destruct (broker_sub c (f_Topic f)) as [[b bs]|]; [|done]. by intros [= <-]. Qed.

Lemma tags_frame ident fs c c' : foldl (tag_filter ident) (Some c) fs = Some c' -> queue_all c' = queue_all c.
Proof.
  assert (Hn : forall fs, foldl (tag_filter ident) None fs = None) by (intros l; induction l; done).
  revert c. induction fs as [|f fs IH]; cbn [foldl]; intros c; [by intros [= <-]|].
  destruct (tag_filter ident (Some c) f) as [c1|] eqn:E; [|by rewrite Hn]. intros H. rewrite (IH _ H). by apply tag_frame in E.
Qed.

Lemma untag_filter_frame ident c f : queue_all (untag_filter ident c f) = queue_all c.
Proof. unfold untag_filter. destruct (broker_sub c (f_Topic f)) as [[b bs]|]; [|done]. by destruct (Index (b_ids bs) ident). Qed.

Lemma untag_frame c op : queue_all (untagLocked c op) = queue_all c.
Proof. unfold untagLocked. destruct (h_ops c !! op); [|done]. apply foldl_frame. intros. apply untag_filter_frame. Qed.

Lemma drop_frame sub c f : queue_all (dropHolderLocked sub c f) = queue_all c.
Proof. unfold dropHolderLocked. destruct (broker_sub c f) as [[b bs]|]; [|done]. by destruct (Index (b_holders bs) sub). Qed.

Lemma close_sub_frame c sub err : queue_all (closeSubLocked c sub err) = queue_all c.
Proof.
  unfold closeSubLocked. destruct (h_subs c !! sub) as [s|]; [|done]. destruct (decide _); [done|].
  set (c1 := _ <| activeSubs ::= _ |>). transitivity (queue_all c1); [|exact (upd_sub_frame sub (fun s => s <| s_state := subClosed |> <| s_err := err |>) c)]. unfold close_route.
  apply (foldl_frame queue_all (fun c f => dropHolderLocked sub c (f_Topic f))). intros. apply drop_frame.
Qed.

Lemma unretire_frame c op : queue_all (unretireLocked c op) = queue_all c.
Proof. unfold unretireLocked. destruct (h_ops c !! op); [|done]. cbn [retiring releaseIdentsLocked update]. destruct (retiring c); [|done]. by destruct (_ =? 0). Qed.

Lemma retire_frame c l : queue_all (retireLocked c l) = queue_all c.
Proof. unfold retireLocked. by destruct (_ =? 0). Qed.

Lemma broker_sub_frame c f : queue_all (fst (brokerSubLocked c f)) = queue_all c.
Proof. unfold brokerSubLocked. destruct (brokerSubs c !! f); [done|]. by destruct (Register _ _ _). Qed.

Lemma join_frame sub c f : queue_all (join sub c f) = queue_all c.
Proof. unfold join. pose proof (broker_sub_frame c (f_Topic f)) as H. by destruct (brokerSubLocked c (f_Topic f)). Qed.

Lemma settle_one_frame s p : queue_all (fst (settle_one s p)) = queue_all (fst s).
Proof.
  destruct s as [c o], p as [f b]. cbn. destruct (h_bsubs c !! b); [|done]. destruct (0 <? _); [done|]. by destruct (_ && _).
Qed.

Lemma count_frame op c f : queue_all (count_pending op c f) = queue_all c.
Proof. unfold count_pending. destruct (broker_sub c (f_Topic f)) as [[b bs]|]; [|done]. by rewrite ops_same. Qed.

Lemma uncount_frame c op : queue_all (uncountLocked c op) = queue_all c.
Proof.
  unfold uncountLocked. destruct (h_ops c !! op) as [o|]; [|done]. rewrite ops_same by done.
  apply (foldl_frame queue_all (fun c b => upd_bs b (fun bs => bs <| b_pending ::= Z.pred |>) c)). done.
Qed.

Lemma answer_frame o live c p : queue_all (answer_one o live c p) = queue_all c.
Proof.
  destruct p as [f rc]. unfold answer_one. destruct (broker_sub c (f_Topic f)) as [[b bs]|]; [|done].
  rewrite publish_frame. transitivity (queue_all (answer_ids (o_ident o) (IsError rc) c b bs)); [by destruct (IsError rc)|].
  unfold answer_ids. destruct (Index _ _); [|done]. by destruct (IsError rc).
Qed.

Lemma forget_frame c p : queue_all (forget_one c p) = queue_all c.
Proof. destruct p as [f b]. cbn. destruct (h_bsubs c !! b); [|done]. by destruct (_ =? 0). Qed.

(** ** Methods *)

(** Between steps: nothing was taken and left unanswered. *)
Definition queue_ok (R : gmap Z Z) (U : gset Z) (W : gmap Z Z) (c : client) : Prop := queue_inv (ctrlQueue c) ∅ R ∅ U W c.

Lemma queue_ok_frame R U W c c' : queue_all c' = queue_all c -> queue_ok R U W c -> queue_ok R U W c'.
Proof. apply queue_inv_all. Qed.

Lemma queue_inv_set q P P' R S U W c : P ≡ P' -> queue_inv q P R S U W c -> queue_inv q P' R S U W c.
Proof. by intros ->%leibniz_equiv. Qed.

Lemma taken_back (op : Z) : ({[op]} ∪ ∅) ∖ {[op]} ≡ (∅ : gset Z).
Proof. intros x. rewrite elem_of_difference, elem_of_union, elem_of_singleton, elem_of_empty. tauto. Qed.

Lemma enqueue_inv P R S U W c op :
  op ∈ P -> queue_inv (ctrlQueue c) P R S U W c -> queue_inv (ctrlQueue (enqueue c op)) (P ∖ {[op]}) R S U W (enqueue c op).
Proof. intros Hp I. change (ctrlQueue (enqueue c op)) with (ctrlQueue c ++ [op]). by apply enqueued_inv. Qed.

Lemma queue_subscribe_part c op c' :
  queueSubscribeLocked c op = Some c' -> exists c1, queue_all c1 = queue_all c /\ c' = enqueue c1 op.
Proof.
  unfold queueSubscribeLocked, allocIdentLocked. destruct (alloc_loop _ _ _) as [ident|]; [|done].
  destruct (h_ops c !! op) as [o|] eqn:Ho; [|done]. set (c1 := upd_sub _ _ _).
  destruct (foldl _ _ _) as [c2|] eqn:E; [|done]. intros [= <-]. exists c2. split; [|done].
  rewrite (tags_frame _ _ _ _ E). subst c1. by rewrite upd_sub_frame, ops_same.
Qed.

Lemma queue_subscribe_inv P R S U W c op c' :
  queueSubscribeLocked c op = Some c' -> op ∈ P -> queue_inv (ctrlQueue c) P R S U W c ->
  queue_inv (ctrlQueue c') (P ∖ {[op]}) R S U W c' /\ ctrlOps c' = ctrlOps c.
Proof.
  intros (c1 & H1 & ->)%queue_subscribe_part Hp I. apply (queue_inv_all _ _ _ _ _ _ _ H1) in I. split; [by apply enqueue_inv|].
  change (ctrlOps c1 = ctrlOps c). unfold queue_all, queue_part in H1. congruence.
Qed.

Lemma add_sub_inv R U W c fs r ended c' x : addSub c fs r ended = Some (c', x) -> queue_ok R U W c -> queue_ok R U W c'.
Proof.
  unfold addSub. destruct ended; [by intros [= <- _]|]. set (sub := u64 (nextSubID c + 1)). set (c0 := _ <| h_subs ::= _ |>). set (c1 := _ <| activeSubs ::= _ |>). intros H I.
  assert (I0 : queue_ok R U W c0).
  { destruct I. split; try assumption. intros op o Ho Hk. change (h_subs c0) with (<[sub := mkSub r subPending fs None None None None []]> (h_subs c)).
    rewrite dom_insert. apply elem_of_union_r. by apply (a_sub0 op). }
  assert (H1 : queue_all c1 = queue_all c0).
  { subst c1. apply (foldl_frame queue_all (join sub)). intros. apply join_frame. }
  apply (queue_ok_frame _ _ _ _ _ H1) in I0. set (o := subscribe_op _ _ _) in H.
  assert (Hsub : sub ∈ dom (h_subs c1)).
  { assert (dom (h_subs c1) = dom (h_subs c0)) as -> by (unfold queue_all, queue_part in H1; congruence).
    change (h_subs c0) with (<[sub := mkSub r subPending fs None None None None []]> (h_subs c)). rewrite dom_insert. apply elem_of_union_l. by apply elem_of_singleton. }
  clearbody c1. destruct (new_op_inv _ _ _ _ _ _ _ I0 o eq_refl eq_refl eq_refl (fun _ => Hsub)) as [I1 _].
  change (new_op c1 o) with (fst (new_op c1 o), next_op c1) in H. cbn beta iota in H.
  destruct (queueSubscribeLocked _ _) as [c2|] eqn:E; [|done]. injection H as <- _.
  apply (queue_subscribe_inv ({[next_op c1]} ∪ ∅) R ∅ U W) in E as [E _]; [|by apply elem_of_union_l, elem_of_singleton|exact I1].
  eapply queue_inv_set; [|exact E]. apply taken_back.
Qed.

Lemma settle_inv R U W ord c : queue_ok R U W c -> queue_ok R U W (fst (settle ord c)).
Proof.
  intros I. unfold settle. pose proof (foldl_frame (fun s => queue_all (fst s)) settle_one settle_one_frame (range ord (brokerSubs c)) (c, None)) as H1.
  cbn [fst] in H1. destruct (foldl settle_one (c, None) (range ord (brokerSubs c))) as [c1 [o|]] eqn:E; cbn [fst] in H1; [|by eapply queue_ok_frame].
  assert (Ho : o_queued o = false /\ o_id o = 0 /\ o_results o = [] /\ o_kind o = KUnsubscribe).
  { set (fresh := fun s : client * option ctrlOp => match snd s with Some o => o_queued o = false /\ o_id o = 0 /\ o_results o = [] /\ o_kind o = KUnsubscribe | None => True end).
    assert (Hf : fresh (c1, Some o)); [|done]. rewrite <- E. apply foldl_inv; [|done]. intros [c2 o2] [f b]. unfold fresh. cbn.
    destruct (h_bsubs c2 !! b); [|done]. destruct (0 <? _); [done|]. destruct (_ && _); [done|]. by destruct o2. }
  apply (queue_ok_frame _ _ _ _ _ H1) in I. clear E H1. set (o' := o <| o_topics ::= _ |>).
  destruct Ho as (H1 & H2 & H3 & H4). destruct (new_op_inv _ _ _ _ _ _ _ I o' H1 H2 H3 ltac:(cbn; congruence)) as [I1 _].
  change (new_op c1 o') with (fst (new_op c1 o'), next_op c1). cbn [fst].
  pose proof (queue_inv_all _ _ _ _ _ (fst (new_op c1 o')) _ (retire_frame _ (o_retiredIssued o)) I1) as I2.
  eapply queue_inv_set; [|apply (enqueue_inv ({[next_op c1]} ∪ ∅)); [by apply elem_of_union_l, elem_of_singleton|exact I2]]. apply taken_back.
Qed.

(** All operations taken are answered. *)
Lemma complete_all q R S U W (l : list (Z * ctrlResult)) : forall P c,
  queue_inv q P R S U W c -> NoDup l.*1 -> (forall op, op ∈ P <-> op ∈ l.*1) -> (forall op, op ∈ P -> unregistered c op) ->
  queue_inv q ∅ R S U W (foldl (fun c p => complete c p.1 p.2) c l)
  /\ ctrlQueue (foldl (fun c p => complete c p.1 p.2) c l) = ctrlQueue c.
Proof.
  induction l as [|[op r] l IH]; intros P c I Hnd HP Hn; cbn [foldl].
  - split; [|done]. eapply queue_inv_set; [|exact I]. intros x. rewrite HP. cbn. by rewrite elem_of_nil, elem_of_empty.
  - cbn in Hnd, HP. apply NoDup_cons in Hnd as [Hop Hnd]. assert (Hin : op ∈ P) by (apply HP; by left).
    destruct (IH (P ∖ {[op]}) (complete c op r)) as [H1 H2].
    + by apply complete_inv; [|done|apply Hn].
    + done.
    + intros x. rewrite elem_of_difference, elem_of_singleton, HP, elem_of_cons. split; [tauto|]. intros Hx. split; [by right|]. by intros ->.
    + intros x [Hx _]%elem_of_difference. exact (Hn x Hx).
    + cbn [fst snd]. split; [exact H1|]. rewrite H2. done.
Qed.

Lemma dequeue_unregistered c op : unregistered c op -> match snd (dequeueLocked c op) with Some id => id = 0 | None => True end.
Proof.
  intros Hn. unfold dequeueLocked. destruct (h_ops c !! op) as [x|]; [|done]. destruct (negb _); [done|].
  set (c1 := match Index _ _ with Some _ => _ | None => _ end). assert (Hn1 : unregistered c1 op) by (subst c1; by destruct (Index _ _)).
  unfold unregisterLocked. destruct (h_ops c1 !! op); [|done].
  change (ctrlOps (upd_op op (fun o => o <| o_id := 0 |> <| o_conn := None |>) c1)) with (ctrlOps c1).
  rewrite bool_decide_eq_false_2 by apply Hn1. by rewrite orb_true_r.
Qed.

Lemma dequeue_ctrlOps c op x : ctrlOps (fst (dequeueLocked c op)) !! x = None \/ ctrlOps (fst (dequeueLocked c op)) !! x = ctrlOps c !! x.
Proof.
  unfold dequeueLocked. destruct (h_ops c !! op) as [o|]; [|by right]. destruct (negb _); [by right|].
  set (c1 := match Index _ _ with Some _ => _ | None => _ end). assert (ctrlOps c1 = ctrlOps c) as <- by (subst c1; by destruct (Index _ _)).
  unfold unregisterLocked. destruct (h_ops c1 !! op) as [o1|]; [|by right]. destruct (_ || _); [by right|]. cbn [fst ctrlOps update].
  destruct (decide (x = o_id o1)) as [->|]; [left; apply lookup_delete_eq|right; by apply lookup_delete_ne].
Qed.

Lemma dequeue_keeps_unregistered c op x : unregistered c x -> unregistered (fst (dequeueLocked c op)) x.
Proof. intros Hn id. destruct (dequeue_ctrlOps c op id) as [->| ->]; [done|apply Hn]. Qed.

(** A queued operation that was never sent has no identifier. *)
Lemma not_sent_unregistered q P R W c op x :
  queue_inv q P R ∅ ∅ W c -> h_ops c !! op = Some x -> o_sent x = false -> unregistered c op.
Proof.
  intros I Hx Hs id Hr. destruct (a_reg _ _ _ _ _ _ _ I _ _ Hr) as (H0 & o & Ho & Hid & _). rewrite ops_lookup, Hx in Ho. injection Ho as <-.
  assert (H : k_sent (acore x) = true); [|cbn in H; congruence].
  apply (a_sent _ _ _ _ _ _ _ I op); [by rewrite ops_lookup, Hx|apply not_elem_of_empty..|congruence].
Qed.

Lemma next_loop_inv cs R W l : forall c P dropped,
  queue_inv (ctrlQueue c) P R ∅ ∅ W c -> (forall op, op ∈ P <-> op ∈ dropped) -> NoDup dropped -> (forall op, op ∈ P -> unregistered c op) ->
  NoDup l -> (forall op, op ∈ l -> op ∈ ctrlQueue c) ->
  let '(c', dropped', next) := next_loop cs l c dropped in
  exists P', queue_inv (ctrlQueue c') P' R ∅ ∅ W c' /\ (forall op, op ∈ P' <-> op ∈ dropped') /\ NoDup dropped'
    /\ (forall op, op ∈ P' -> unregistered c' op) /\ (forall op, next = Some op -> op ∈ ctrlQueue c').
Proof.
  induction l as [|op l IH]; intros c P dropped I HP Hnd Hn Hl Hq; cbn [next_loop]; [by exists P|].
  apply NoDup_cons in Hl as [Hop Hl]. assert (Hq' : forall y, y ∈ l -> y ∈ ctrlQueue c) by (intros y Hy; apply Hq; by right).
  destruct (h_ops c !! op) as [o|] eqn:Ho; [|by apply (IH c P)]. destruct (bool_decide _); [by apply (IH c P)|].
  destruct (droppable c o) eqn:Hd.
  2:{ exists P. split; [done|]. split; [done|]. split; [done|]. split; [done|]. intros y [= <-]. apply Hq. by left. }
  unfold droppable in Hd. rewrite !andb_true_iff, negb_true_iff in Hd. destruct Hd as [_ Hs].
  pose proof (not_sent_unregistered _ _ _ _ _ _ _ I Ho Hs) as Hu. pose proof (dequeue_inv _ _ _ _ _ _ op I ltac:(apply not_elem_of_empty)) as H.
  pose proof (dequeue_unregistered c op Hu) as H0. pose proof (fun x => dequeue_keeps_unregistered c op x) as Hkeep.
  destruct (dequeueLocked c op) as [c1 [id|]]; cbn [fst snd] in *; [|destruct H as [_ H]; destruct H; apply Hq; by left].
  destruct H as (Hin & I1 & _ & Hu1 & Hq1). subst id. apply (IH c1 ({[op]} ∪ P)); try done.
  - intros x. rewrite elem_of_union, elem_of_singleton, elem_of_app, list_elem_of_singleton, HP. tauto.
  - apply NoDup_app. split; [done|]. split; [|apply NoDup_singleton]. intros x Hx%HP ->%list_elem_of_singleton.
    destruct (taken_core _ _ _ _ _ _ _ I _ Hx) as (y & _ & Hy & Hf & _). apply (a_queued _ _ _ _ _ _ _ I) in Hin as (z & Hz & Hk).
    rewrite Hy in Hz. injection Hz as <-. cbn in Hk. congruence.
  - intros x [->%elem_of_singleton|Hx]%elem_of_union; [done|]. by apply Hkeep, Hn.
  - intros x Hx. apply Hq1. split; [auto|]. by intros ->.
Qed.

(** [nextToSend] *)
Lemma next_inv R W c cs :
  queue_ok R ∅ W c -> let (c', next) := nextToSend c cs in queue_ok R ∅ W c' /\ forall op, next = Some op -> op ∈ ctrlQueue c'.
Proof.
  intros I. unfold nextToSend.
  pose proof (next_loop_inv (cs_name cs) R W (ctrlQueue c) c ∅ [] I ltac:(intros x; by rewrite elem_of_empty, elem_of_nil) ltac:(constructor) ltac:(intros x Hx; by apply not_elem_of_empty in Hx) (a_nodup _ _ _ _ _ _ _ I) ltac:(done)) as H.
  destruct (next_loop _ _ c []) as [[c1 dropped] next]. destruct H as (P & I1 & HP & Hnd & Hn & Hnext).
  assert (H2 : queue_all (foldl untagLocked c1 dropped) = queue_all c1) by (apply foldl_frame, untag_frame).
  apply (queue_inv_all _ _ _ _ _ _ _ H2) in I1. set (c2 := foldl untagLocked c1 dropped) in *.
  assert (Hn2 : forall op, op ∈ P -> unregistered c2 op).
  { intros op Hop id. assert (ctrlOps c2 = ctrlOps c1) as -> by (unfold queue_all, queue_part in H2; congruence). by apply Hn. }
  set (l := (fun op => (op, ErrClosed_result)) <$> dropped). assert (Hl : l.*1 = dropped) by (subst l; rewrite <- list_fmap_compose; apply list_fmap_id).
  assert (E : foldl (fun c op => complete c op ErrClosed_result) c2 dropped = foldl (fun c p => complete c p.1 p.2) c2 l).
  { subst l. clearbody c2. clear. revert c2. induction dropped; cbn; [done|]. intros c. apply IHdropped. }
  rewrite E. destruct (complete_all _ _ _ _ _ l P c2 I1) as [H3 H4]; [by rewrite Hl|by rewrite Hl|done|].
  unfold queue_ok. rewrite H4. split; [done|]. intros op Hop. assert (ctrlQueue c2 = ctrlQueue c1) as -> by (unfold queue_all in H2; congruence). auto.
Qed.

(** The subscription of every SUBSCRIBE exists. *)
Definition subs_exist (c : client) : Prop :=
  forall op o, h_ops c !! op = Some o -> o_kind o = KSubscribe -> is_Some (h_subs c !! o_sub o).

Lemma queue_subs_exist q P R S U W c : queue_inv q P R S U W c -> subs_exist c.
Proof. intros I op o Ho Hk. apply elem_of_dom. apply (a_sub _ _ _ _ _ _ _ I op (acore o)); [by rewrite ops_lookup, Ho|done]. Qed.

Lemma queue_all_ctrlOps c c' : queue_all c' = queue_all c -> ctrlOps c' = ctrlOps c.
Proof. unfold queue_all, queue_part. congruence. Qed.

Lemma complete_subscribe_part c op codes rej :
  subs_exist c -> match h_ops c !! op with
  | Some o => o_kind o = KSubscribe -> exists c1 r, queue_all c1 = queue_all c /\ completeSubscribe c op codes rej = complete c1 op r
  | None => completeSubscribe c op codes rej = c
  end.
Proof.
  intros Hs. unfold completeSubscribe. destruct (h_ops c !! op) as [o|] eqn:Ho; [|done]. intros Hk.
  destruct (Hs _ _ Ho Hk) as [s ->]. set (live := negb _). set (c1 := foldl _ _ _).
  assert (H1 : queue_all c1 = queue_all c).
  { subst c1. rewrite (foldl_frame queue_all (answer_one o live)) by (intros; apply answer_frame). apply uncount_frame. }
  eexists _, _. split; [|reflexivity]. rewrite <- H1. destruct live; [|done]. cbn zeta. destruct (_ =? 0); [by rewrite close_sub_frame, upd_sub_frame|by rewrite !upd_sub_frame].
Qed.

Lemma complete_op_inv P R S U W c op codes rej :
  queue_inv (ctrlQueue c) P R S U W c -> op ∈ P -> unregistered c op ->
  let c' := complete_op c op codes rej in
  queue_inv (ctrlQueue c') (P ∖ {[op]}) R S U W c' /\ ctrlOps c' = ctrlOps c.
Proof.
  intros I Hp Hn. pose proof (queue_subs_exist _ _ _ _ _ _ _ I) as Hs. unfold complete_op. destruct (taken_core _ _ _ _ _ _ _ I _ Hp) as (o & Ho & _). rewrite Ho. cbn [fmap option_fmap option_map].
  assert (H : exists c1 r, queue_all c1 = queue_all c /\ match o_kind o with KSubscribe => completeSubscribe c op codes rej | KUnsubscribe => completeUnsubscribe c op codes rej end = complete c1 op r).
  { destruct (o_kind o) eqn:Hk; [by pose proof (complete_subscribe_part c op codes rej Hs) as H; rewrite Ho in H; auto|].
    eexists _, _. split; [|reflexivity]. apply unretire_frame. }
  destruct H as (c1 & r & H1 & ->). cbn zeta. pose proof (queue_all_ctrlOps _ _ H1) as H2. apply (queue_inv_all _ _ _ _ _ _ _ H1) in I.
  split; [|done]. change (ctrlQueue (complete c1 op r)) with (ctrlQueue c1). apply complete_inv; [done|done|]. intros id. rewrite H2. apply Hn.
Qed.

Lemma back_out (op : Z) (P : gset Z) : op ∉ P -> ({[op]} ∪ P) ∖ {[op]} ≡ P.
Proof. intros H x. rewrite elem_of_difference, elem_of_union, elem_of_singleton. split; [tauto|]. intros Hx. split; [by right|]. by intros ->. Qed.

(** [failCtrl] *)
Lemma fail_inv R U W ord c op err : queue_ok R U W c -> queue_ok R U W (failCtrl ord c op err).
Proof.
  intros I. unfold failCtrl. pose proof (dequeue_inv _ _ _ _ _ _ op I ltac:(apply not_elem_of_empty)) as H.
  destruct (dequeueLocked c op) as [c1 [stale|]]; [|destruct H as [-> _]; by destruct (h_ops c !! op)].
  destruct H as (Hin & I1 & Hst & Hn & _). apply (a_queued _ _ _ _ _ _ _ I) in Hin as (k & Hk & _). rewrite ops_lookup in Hk.
  destruct (h_ops c !! op) as [o|]; [|done]. set (c2 := match o_kind o with KSubscribe => closeSubLocked _ _ _ | KUnsubscribe => _ end).
  assert (H2 : queue_all c2 = queue_all c1) by (subst c2; destruct (o_kind o); [by rewrite close_sub_frame, untag_frame|apply unretire_frame]).
  apply (queue_inv_all _ _ _ _ _ _ _ H2) in I1. pose proof (queue_all_ctrlOps _ _ H2) as H3. clearbody c2.
  pose proof (release_inv _ _ _ _ _ _ _ _ _ I1 Hst) as I2. set (c3 := release_for c2 op stale) in *.
  assert (H4 : ctrlQueue c3 = ctrlQueue c2 /\ ctrlOps c3 = ctrlOps c2) by (subst c3; unfold release_for; destruct (h_ops c2 !! op); [by destruct (_ =? 0)|done]).
  destruct H4 as [H4 H5]. rewrite <- H4 in I2.
  assert (I3 : queue_ok R U W (complete c3 op (mkCtrlResult [] (Some err)))).
  { eapply queue_inv_set; [apply taken_back|]. apply complete_inv; [exact I2|by apply elem_of_union_l, elem_of_singleton|].
    intros id. rewrite H5, H3. apply Hn. }
  destruct (o_kind o); [by apply settle_inv|done].
Qed.

(** An operation without an identifier need not be marked. *)
Lemma unmarked_inv q P R S U U' W c op :
  queue_inv q P R S U W c -> unregistered c op -> op ∉ S -> (forall x, x <> op -> (x ∈ U' <-> x ∈ U)) -> queue_inv q P R S U' W c.
Proof.
  intros I Hn HS HU. pose proof (unregistered_id _ _ _ _ _ _ _ I op) as H0. destruct I. split; try assumption.
  intros y o Hy HSy HUy Hid. destruct (decide (y = op)) as [->|Hne]; [by rewrite (H0 o) in Hid|]. apply (a_sent0 y); [done|done| |done]. by rewrite <- HU.
Qed.

Lemma unwatched_inv q P R S U W c : queue_inv q P R S U W c -> queue_inv q P R S U ∅ c.
Proof. intros []. split; try assumption. intros op cs o Hw. by rewrite lookup_empty in Hw. Qed.

(** [sendCtrl]'s registration *)
Lemma send_register_inv W c cs op id :
  queue_ok {[id := op]} ∅ W c ->
  let (c', ok) := send_register c cs op id in
  if ok then queue_ok ∅ {[op]} (<[op := cs_name cs]> W) c' else queue_ok ∅ ∅ W c'.
Proof.
  intros I. unfold send_register. destruct (a_hand _ _ _ _ _ _ _ I id op (lookup_singleton_eq _ _)) as [H0 [k Hk]].
  rewrite ops_lookup in Hk. destruct (h_ops c !! op) as [o|] eqn:Ho; [|done]. destruct (o_queued o) eqn:Hq; cbn [negb].
  2:{ pose proof (hand_release _ _ _ _ _ _ _ _ _ _ I (lookup_singleton_eq _ _) Ho) as H. by rewrite delete_singleton_eq in H. }
  assert (Hin : op ∈ ctrlQueue c) by (apply (a_queued _ _ _ _ _ _ _ I); exists (acore o); by rewrite ops_lookup, Ho).
  pose proof (unregister_inv _ _ _ _ _ _ _ I op ltac:(apply not_elem_of_empty)) as H. destruct (unregisterLocked c op) as [c1 stale].
  destruct H as (I1 & Hst & Hn & Hqueue).
  assert (Hne : stale <> 0 -> stale <> id) by (intros Hs ->; specialize (Hst Hs); by rewrite lookup_singleton_eq in Hst).
  assert (Hhand : hand_add stale op {[id := op]} !! id = Some op).
  { unfold hand_add. destruct (Z.eqb_spec stale 0); [apply lookup_singleton_eq|]. rewrite lookup_insert_ne by auto. apply lookup_singleton_eq. }
  pose proof (register_inv _ _ _ _ _ _ _ I1 op id (cs_name cs) Hhand Hin ltac:(apply not_elem_of_empty) Hn) as I2.
  set (c2 := _ <| ctrlOps ::= _ |>) in *. assert (Hdel : delete id (hand_add stale op {[id := op]}) = hand_add stale op ∅).
  { unfold hand_add. destruct (Z.eqb_spec stale 0) as [|n]; [apply delete_singleton_eq|]. rewrite delete_insert_ne by (intros E; by apply (Hne n)). f_equal. apply delete_singleton_eq. }
  rewrite Hdel, union_empty_r_L in I2. apply release_inv in I2; [|done]. unfold queue_ok.
  assert (ctrlQueue (release_for c2 op stale) = ctrlQueue c) as ->; [|done].
  rewrite <- Hqueue. unfold release_for. destruct (h_ops c2 !! op); [by destruct (_ =? 0)|done].
Qed.

(** [markSent] *)
Lemma mark_inv R W c op : queue_ok R {[op]} W c -> queue_ok R ∅ W (fst (markSent c op)).
Proof.
  intros I. unfold markSent. destruct (h_ops c !! op) as [o|] eqn:Ho.
  2:{ eapply unmarked_inv; [exact I| |apply not_elem_of_empty|].
      - intros id Hr. destruct (a_reg _ _ _ _ _ _ _ I _ _ Hr) as (_ & k & Hk & _). by rewrite ops_lookup, Ho in Hk.
      - intros x Hx. rewrite elem_of_singleton, elem_of_empty. tauto. }
  pose proof (sent_inv _ _ _ _ _ _ _ I op true ∅ ltac:(intros x Hx; rewrite elem_of_singleton, elem_of_empty; tauto) ltac:(by left)) as I1.
  set (c1 := upd_op _ _ c) in *. destruct (_ && _); cbn [fst]; [|exact I1].
  apply (queue_ok_frame _ _ _ c1); [|exact I1]. apply (foldl_frame queue_all (count_pending op)). intros. apply count_frame.
Qed.

(** The end of [sendCtrl] when the connection refused the packet. *)
Lemma send_failed_inv c cs op first :
  queue_ok ∅ ∅ {[op := cs_name cs]} c -> queue_ok ∅ ∅ ∅ (send_failed c cs op first).
Proof.
  intros I. unfold send_failed. set (c1 := if first then _ else _).
  assert (I1 : queue_ok ∅ {[op]} {[op := cs_name cs]} c1).
  { assert (I1 : queue_ok ∅ {[op]} {[op := cs_name cs]} c) by (destruct I; split; try assumption; intros y o Hy HS _; by apply (a_sent0 y)).
    subst c1. destruct first; [|exact I1]. unfold unmarkSent. eapply queue_ok_frame; [apply uncount_frame|].
    apply (sent_inv _ _ _ _ {[op]}); [exact I1|done|]. right. left. by apply elem_of_singleton. }
  clearbody c1.
  assert (Hend : forall c2, queue_ok ∅ {[op]} {[op := cs_name cs]} c2 -> unregistered c2 op -> queue_ok ∅ ∅ ∅ c2).
  { intros c2 I2 Hn. apply (unwatched_inv _ _ _ _ _ {[op := cs_name cs]}). eapply unmarked_inv; [exact I2|exact Hn|apply not_elem_of_empty|].
    intros x Hx. rewrite elem_of_singleton, elem_of_empty. tauto. }
  destruct (h_ops c1 !! op) as [o|] eqn:Ho.
  2:{ apply Hend; [done|]. intros id Hr. destruct (a_reg _ _ _ _ _ _ _ I1 _ _ Hr) as (_ & k & Hk & _). by rewrite ops_lookup, Ho in Hk. }
  destruct (bool_decide _) eqn:Hb.
  - pose proof (unregister_inv _ _ _ _ _ _ _ I1 op ltac:(apply not_elem_of_empty)) as H. destruct (unregisterLocked c1 op) as [c2 id].
    destruct H as (I2 & Hid & Hn & Hq). apply release_inv in I2; [|done]. rewrite <- Hq in I2.
    assert (H : ctrlQueue (release_for c2 op id) = ctrlQueue c2 /\ ctrlOps (release_for c2 op id) = ctrlOps c2)
      by (unfold release_for; destruct (h_ops c2 !! op); [by destruct (_ =? 0)|done]).
    destruct H as [H1 H2]. apply Hend; [unfold queue_ok; by rewrite H1|]. intros i. rewrite H2. apply Hn.
  - apply Hend; [done|]. intros id Hr. destruct (a_reg _ _ _ _ _ _ _ I1 _ _ Hr) as (H0 & k & Hk & Hid & _). apply bool_decide_eq_false in Hb.
    pose proof (a_conn _ _ _ _ _ _ _ I1 op (cs_name cs) k (lookup_singleton_eq _ _) Hk ltac:(apply not_elem_of_empty) ltac:(congruence)) as Hc.
    rewrite ops_lookup, Ho in Hk. injection Hk as <-. done.
Qed.

(** Kinds and subscriptions of operations do not change. *)
Definition kinds (c : client) : gmap Z (ctrlKind * Z) := (fun o => (o_kind o, o_sub o)) <$> h_ops c.

Lemma kinds_upd op f c : (forall o, (o_kind (f o), o_sub (f o)) = (o_kind o, o_sub o)) -> kinds (upd_op op f c) = kinds c.
Proof. intros H. unfold kinds, upd_op. cbn [h_ops update]. by apply fmap_alter_same. Qed.

Lemma unregister_kinds c op : kinds (fst (unregisterLocked c op)) = kinds c.
Proof. unfold unregisterLocked. destruct (h_ops c !! op); [|done]. destruct (_ || _); cbn [fst]; (transitivity (kinds (upd_op op (fun o => o <| o_id := 0 |> <| o_conn := None |>) c)); [done|by apply kinds_upd]). Qed.

Lemma dequeue_kinds c op : kinds (fst (dequeueLocked c op)) = kinds c.
Proof.
  unfold dequeueLocked. destruct (h_ops c !! op); [|done]. destruct (negb _); [done|]. set (c1 := match Index _ _ with Some _ => _ | None => _ end).
  pose proof (unregister_kinds c1 op) as H. destruct (unregisterLocked c1 op) as [c2 id]. cbn [fst] in *. rewrite H. subst c1.
  destruct (Index _ _); (transitivity (kinds (upd_op op (fun o => o <| o_queued := false |>) c)); [done|by apply kinds_upd]).
Qed.

Lemma kinds_owner c c' op o : kinds c' = kinds c -> h_ops c !! op = Some o -> exists o', h_ops c' !! op = Some o' /\ owner o' = owner o.
Proof.
  intros E Ho. assert (H : kinds c' !! op = Some (o_kind o, o_sub o)) by (unfold kinds in *; by rewrite E, lookup_fmap, Ho).
  unfold kinds in H. rewrite lookup_fmap in H. destruct (h_ops c' !! op) as [o'|] eqn:E'; [|done]. injection H as H _. exists o'. split; [done|]. unfold owner. by rewrite H.
Qed.

Lemma release_kind q P R S U W c c0 id op o :
  queue_inv q P R S U W c -> R !! id = Some op -> kinds c = kinds c0 -> h_ops c0 !! op = Some o -> queue_inv q P (delete id R) S U W (ReleaseID c id (owner o)).
Proof. intros I Hr Hk Ho. destruct (kinds_owner c0 c op o Hk Ho) as (o' & Ho' & <-). by eapply hand_release. Qed.

(** The connection of an operation without identifier is free to change. *)
Lemma conn_inv q P R S U W c op cs :
  queue_inv q P R S U W c -> unregistered c op -> op ∉ S -> queue_inv q P R S U W (upd_op op (fun o => o <| o_conn := cs |>) c).
Proof.
  intros I Hn HS. destruct (h_ops c !! op) as [x|] eqn:E; [|by rewrite upd_op_absent].
  assert (Ho : ops c !! op = Some (acore x)) by by rewrite ops_lookup, E.
  pose proof (unregistered_id _ _ _ _ _ _ _ I op (acore x) Hn Ho HS) as H0. cbn in H0.
  apply (core_changed _ _ _ _ _ _ _ I _ op (acore x) _ _ _ _ _ Ho (ops_upd _ _ _ _ E)); try done; cbn.
  - apply I.
  - rewrite (a_queued _ _ _ _ _ _ _ I), Ho. split; [by intros (? & [= <-] & ?)|eauto].
  - intros Hp. destruct (a_taken _ _ _ _ _ _ _ I _ Hp) as (o' & Hx & ?). rewrite Ho in Hx. by injection Hx as <-.
  - by apply (a_done _ _ _ _ _ _ _ I op (acore x)).
  - intros id Hid. by destruct (Hn id).
Qed.

Lemma registered_unregister q P R S U W c id op o :
  queue_inv q P R S U W c -> ctrlOps c !! id = Some op -> op ∉ S -> h_ops c !! op = Some o ->
  exists c1, unregisterLocked c op = (c1, id) /\ queue_inv q P (<[id := op]> R) S U W c1 /\ unregistered c1 op /\ ctrlQueue c1 = ctrlQueue c.
Proof.
  intros I Hr HS Ho. pose proof (unregister_inv _ _ _ _ _ _ _ I op HS) as H. destruct (a_reg _ _ _ _ _ _ _ I _ _ Hr) as (H0 & k & Hk & Hid & _).
  rewrite ops_lookup, Ho in Hk. injection Hk as <-. cbn in Hid.
  assert (E : snd (unregisterLocked c op) = id).
  { unfold unregisterLocked. rewrite Ho. change (ctrlOps (upd_op op (fun o => o <| o_id := 0 |> <| o_conn := None |>) c)) with (ctrlOps c).
    rewrite Hid, (proj2 (Z.eqb_neq _ _) H0), bool_decide_eq_true_2 by done. done. }
  destruct (unregisterLocked c op) as [c1 id1]. cbn in E. subst id1. exists c1. split; [done|]. destruct H as (H1 & _ & H2 & H3).
  unfold hand_add in H1. by rewrite (proj2 (Z.eqb_neq _ _) H0) in H1.
Qed.

(** [deliverControlAck] *)
Lemma ack_inv R U W c cs want id codes :
  queue_ok R U W c -> queue_ok R U W (fst (deliverControlAck c cs want id codes)).
Proof.
  intros I. unfold deliverControlAck. destruct (ctrlOps c !! id) as [op|] eqn:Hr; [|done]. destruct (h_ops c !! op) as [o|] eqn:Ho; [|done].
  destruct (bool_decide _); [|done].
  assert (HR : R !! id = None) by (eapply map_disjoint_Some_l; [apply (a_disj _ _ _ _ _ _ _ I)|done]).
  destruct (registered_unregister _ _ _ _ _ _ _ _ _ _ I Hr ltac:(apply not_elem_of_empty) Ho) as (c1 & E1 & I1 & Hn1 & Hq1).
  pose proof (unregister_kinds c op) as Hk1. rewrite E1 in *. cbn [fst] in Hk1. destruct (negb _).
  - cbn [fst]. pose proof (conn_inv _ _ _ _ _ _ _ op (Some cs) I1 Hn1 ltac:(apply not_elem_of_empty)) as I2.
    eapply release_kind in I2; [|apply lookup_insert_eq|rewrite kinds_upd by done; exact Hk1|exact Ho].
    rewrite delete_insert_id in I2 by done. unfold queue_ok. rewrite <- Hq1 in I2. exact I2.
  - rewrite <- Hq1 in I1. pose proof (dequeue_inv _ _ _ _ _ _ op I1 ltac:(apply not_elem_of_empty)) as H.
    pose proof (dequeue_unregistered c1 op Hn1) as H0. pose proof (dequeue_kinds c1 op) as Hk2.
    destruct (dequeueLocked c1 op) as [c2 [id'|]]; cbn [fst snd] in *.
    + destruct H as (Hin & I2 & _ & Hn2 & _). subst id'.
      change (hand_add 0 op (<[id := op]> R)) with (<[id := op]> R) in I2. eapply release_kind in I2; [|apply lookup_insert_eq|exact (eq_trans Hk2 Hk1)|exact Ho]. rewrite delete_insert_id in I2 by done.
      destruct (complete_op_inv _ _ _ _ _ (ReleaseID c2 id (owner o)) op codes None I2) as [I3 _]; [by apply elem_of_union_l, elem_of_singleton|done|].
      eapply queue_inv_set; [apply taken_back|exact I3].
    + destruct H as [-> _]. eapply release_kind in I1; [|apply lookup_insert_eq|exact Hk1|exact Ho]. by rewrite delete_insert_id in I1 by done.
Qed.

(** ** Connections *)

(** Every registration is in hand. *)
Lemma all_in_hand q P R U W c :
  queue_inv q P R ∅ U W c -> queue_inv q P (ctrlOps c ∪ R) (list_to_set (map_to_list (ctrlOps c)).*2) U W (c <| ctrlOps := ∅ |>).
Proof.
  intros I. assert (Hmem : forall op o, ops c !! op = Some o -> op ∉ (list_to_set (map_to_list (ctrlOps c)).*2 : gset Z) -> k_id o = 0).
  { intros op o Ho Hn. destruct (decide (k_id o = 0)) as [|H0]; [done|]. destruct Hn. apply elem_of_list_to_set, list_elem_of_fmap.
    exists (k_id o, op). split; [done|]. apply elem_of_map_to_list. apply (a_id _ _ _ _ _ _ _ I); [done|apply not_elem_of_empty|done]. }
  destruct I. split; cbn [ctrlOps engine_ids next_op h_subs update]; try assumption.
  - intros id op. by rewrite lookup_empty.
  - intros op o Ho HS H0. by rewrite (Hmem op o) in H0.
  - intros op o Ho HS _ H0. by rewrite (Hmem op o) in H0.
  - intros op cs o _ Ho HS H0. by rewrite (Hmem op o) in H0.
  - apply map_disjoint_empty_l.
  - intros id op [Hr|[_ Hr]]%lookup_union_Some_raw; [|exact (a_hand0 _ _ Hr)]. destruct (a_reg0 _ _ Hr) as (? & o & Ho & _). split; [done|]. by exists o.
  - intros id w Hw1 Hw2. rewrite (a_owner0 id w Hw1 Hw2), lookup_empty. split; intros (op & o & Hr & Ho).
    + exists op, o. split; [|done]. right. apply lookup_union_Some; [done|]. tauto.
    + destruct Hr as [Hr|Hr]; [done|]. apply lookup_union_Some in Hr; [|done]. by exists op, o.
Qed.

(** The identifiers of a list of registrations are released. *)
Lemma release_all q P R S U W (l : list (Z * Z)) : forall c,
  queue_inv q P (list_to_map l ∪ R) S U W c -> NoDup l.*1 -> list_to_map l ##ₘ R ->
  queue_inv q P R S U W (foldl (fun c p => release_for c p.2 p.1) c l).
Proof.
  induction l as [|[id op] l IH]; intros c I Hnd Hd; cbn [foldl]; [by rewrite list_to_map_nil, (left_id_L ∅ (∪)) in I|].
  cbn [fmap list_fmap fst] in Hnd. apply NoDup_cons in Hnd as [Hid Hnd]. rewrite list_to_map_cons in I, Hd. cbn [fst snd].
  apply map_disjoint_insert_l in Hd as [Hr Hd]. apply IH; [|done|done]. rewrite <- insert_union_l in I.
  assert (H0 : id <> 0) by apply (a_hand _ _ _ _ _ _ _ I id op (lookup_insert_eq _ _ _)).
  apply release_inv.
  - unfold hand_add. by rewrite (proj2 (Z.eqb_neq _ _) H0).
  - intros _. apply lookup_union_None. split; [|done]. by apply not_elem_of_list_to_map_1.
Qed.

Lemma release_queue c op id : ctrlQueue (release_for c op id) = ctrlQueue c /\ ctrlOps (release_for c op id) = ctrlOps c.
Proof. unfold release_for. destruct (h_ops c !! op); [by destruct (_ =? 0)|done]. Qed.

Lemma releases_queue (l : list (Z * Z)) c :
  ctrlQueue (foldl (fun c p => release_for c p.2 p.1) c l) = ctrlQueue c /\ ctrlOps (foldl (fun c p => release_for c p.2 p.1) c l) = ctrlOps c.
Proof.
  split; [apply (foldl_frame ctrlQueue (fun c p => release_for c p.2 p.1))|apply (foldl_frame ctrlOps (fun c p => release_for c p.2 p.1))];
    intros; apply release_queue.
Qed.

Lemma range_to_map {A} ord (m : gmap Z A) : list_to_map (range ord m) = m.
Proof. rewrite (list_to_map_proper _ (map_to_list m)); [apply list_to_map_to_list|apply NoDup_range|apply range_perm]. Qed.

(** The loop of [connectionLost]. *)
Lemma lose_all_inv blamed R U W (l : list (Z * Z)) : forall c P rejected,
  queue_inv (ctrlQueue c) P R (list_to_set l.*2) U W c -> ctrlOps c = ∅ -> (forall op, op ∈ P <-> op ∈ rejected) -> NoDup rejected -> NoDup l.*2 ->
  let (c', rejected') := foldl (lose_one blamed) (c, rejected) l in
  exists P', queue_inv (ctrlQueue c') P' R ∅ U W c' /\ ctrlOps c' = ∅ /\ (forall op, op ∈ P' <-> op ∈ rejected') /\ NoDup rejected'.
Proof.
  induction l as [|[id op] l IH]; intros c P rejected I Hc HP Hnd Hl; cbn [foldl]; [by exists P|].
  assert (Hn : forall x, unregistered c x) by (intros x i; by rewrite Hc, lookup_empty).
  cbn [fmap list_fmap snd list_to_set] in I, Hl. apply NoDup_cons in Hl as [Hop Hl]. pose proof (id_forgotten _ _ _ _ _ _ _ I op (list_to_set l.*2) (Hn op)) as I1.
  specialize (I1 ltac:(intros x Hx; rewrite elem_of_union, elem_of_singleton; tauto)). unfold lose_one at 2. cbn [snd].
  set (c1 := upd_op op _ c) in *. destruct blamed; cbn [negb]; [|by apply (IH c1 P)].
  set (c2 := upd_op op _ c1). assert (H2 : queue_all c2 = queue_all c1) by by apply ops_same.
  apply (queue_inv_all _ _ _ _ _ _ _ H2) in I1. assert (Hc2 : ctrlOps c2 = ∅) by done. clearbody c2. clear c1 H2.
  destruct (_ <? _); [by apply (IH c2 P)|].
  assert (Hn2 : unregistered c2 op) by (intros i; by rewrite Hc2, lookup_empty).
  pose proof (dequeue_inv _ _ _ _ _ _ op I1 ltac:(by rewrite elem_of_list_to_set)) as H. pose proof (dequeue_unregistered c2 op Hn2) as H0.
  pose proof (fun i => dequeue_ctrlOps c2 op i) as Hc3. destruct (dequeueLocked c2 op) as [c3 [id'|]]; cbn [fst snd] in *; [|by destruct H as [-> _]; apply (IH c2 P)].
  destruct H as (Hin & I3 & _). subst id'. apply (IH c3 ({[op]} ∪ P)); [exact I3| | | |done].
  - apply map_eq. intros i. rewrite lookup_empty. destruct (Hc3 i) as [->| ->]; [done|]. by rewrite Hc2, lookup_empty.
  - intros x. rewrite elem_of_union, elem_of_singleton, elem_of_app, list_elem_of_singleton, HP. tauto.
  - apply NoDup_app. split; [done|]. split; [|apply NoDup_singleton]. intros x Hx%HP ->%list_elem_of_singleton.
    destruct (taken_core _ _ _ _ _ _ _ I1 _ Hx) as (y & _ & Hy & Hf & _). apply (a_queued _ _ _ _ _ _ _ I1) in Hin as (z & Hz & Hk).
    rewrite Hy in Hz. injection Hz as <-. cbn in Hk. congruence.
Qed.

(** The operations given up on are answered. *)
Lemma reject_all_inv reason R U W (l : list Z) : forall c P,
  queue_inv (ctrlQueue c) P R ∅ U W c -> (forall op, op ∈ P <-> op ∈ l) -> NoDup l -> (forall op, op ∈ P -> unregistered c op) ->
  queue_ok R U W (foldl (reject_one reason) c l).
Proof.
  induction l as [|op l IH]; intros c P I HP Hnd Hn; cbn [foldl].
  - eapply queue_inv_set; [|exact I]. intros x. rewrite HP, elem_of_nil, elem_of_empty. done.
  - apply NoDup_cons in Hnd as [Hop Hnd]. assert (Hin : op ∈ P) by (apply HP; by left).
    unfold reject_one at 2. destruct (taken_core _ _ _ _ _ _ _ I _ Hin) as (o & -> & _).
    set (codes := repeat _ _). set (err := Some _). destruct (complete_op_inv _ _ _ _ _ _ op codes err I Hin (Hn _ Hin)) as [I1 Hc].
    apply (IH _ (P ∖ {[op]})); [exact I1| |done|].
    + intros x. rewrite elem_of_difference, elem_of_singleton, HP, elem_of_cons. split; [tauto|]. intros Hx. split; [by right|]. by intros ->.
    + intros x [Hx _]%elem_of_difference id. rewrite Hc. by apply Hn.
Qed.

Lemma registered_nodup q P R S U W c ord : queue_inv q P R S U W c -> NoDup (range ord (ctrlOps c)).*2.
Proof.
  intros I. rewrite range_perm. apply NoDup_fmap_2_strong; [|apply NoDup_map_to_list].
  intros [i x] [j y] Hi%elem_of_map_to_list Hj%elem_of_map_to_list E. cbn in E. subst y. f_equal. by eapply registered_once.
Qed.

(** [connectionLost] *)
Lemma lost_inv R U W ord c sd : queue_ok R U W c -> queue_ok R U W (connectionLost ord c sd).
Proof.
  intros I. unfold connectionLost. set (blamed := match sd with Some _ => _ | None => _ end). set (l := range ord (ctrlOps c)).
  pose proof (all_in_hand _ _ _ _ _ _ I) as I1. set (c1 := c <| ctrlOps := ∅ |>) in *.
  assert (HS : (list_to_set (map_to_list (ctrlOps c)).*2 : gset Z) = list_to_set l.*2) by (apply leibniz_equiv; unfold l; by rewrite range_perm).
  rewrite HS in I1. change (ctrlQueue c) with (ctrlQueue c1) in I1.
  pose proof (lose_all_inv blamed _ _ _ l c1 ∅ [] I1 eq_refl ltac:(intros x; by rewrite elem_of_empty, elem_of_nil) ltac:(constructor) (registered_nodup _ _ _ _ _ _ _ _ I)) as H.
  destruct (foldl (lose_one blamed) (c1, []) l) as [c2 rejected]. destruct H as (P & I2 & Hc2 & HP & Hnd).
  rewrite <- (range_to_map ord (ctrlOps c)) in I2. apply release_all in I2; [|apply NoDup_range|rewrite range_to_map; apply I].
  fold l in I2. destruct (releases_queue l c2) as [H1 H2]. rewrite <- H1 in I2.
  apply (reject_all_inv _ _ _ _ _ _ P I2 HP Hnd). intros op _ id. by rewrite H2, Hc2, lookup_empty.
Qed.

Lemma upd_op_compose op f g c : upd_op op g (upd_op op f c) = upd_op op (fun o => g (f o)) c.
Proof. unfold upd_op, update. destruct c. cbn. f_equal. apply map_eq. intros i. destruct (decide (i = op)) as [->|Hne].
  - rewrite !lookup_alter_eq. by destruct (_ !! op).
  - by rewrite !lookup_alter_ne by congruence.
Qed.

(** The loop of [closeAllSubs] over the queue. *)
Lemma unqueue_all_inv R U W (l : list Z) : forall c P S,
  queue_inv l P R S U W c -> ctrlOps c = ∅ -> (forall x, x ∈ S -> x ∈ l) ->
  let c' := foldl (fun c op => upd_op op (fun o => o <| o_queued := false |> <| o_id := 0 |> <| o_conn := None |>) c) c l in
  queue_inv [] (list_to_set l ∪ P) R ∅ U W c' /\ ctrlOps c' = ∅ /\ ctrlQueue c' = ctrlQueue c.
Proof.
  induction l as [|op l IH]; intros c P S I Hc HS; cbn [foldl].
  - split; [|done]. assert (S = ∅) as -> by (apply leibniz_equiv; intros x; rewrite elem_of_empty; split; [intros Hx%HS; by apply elem_of_nil in Hx|done]).
    eapply queue_inv_set; [|exact I]. intros x. rewrite elem_of_union. cbn. rewrite elem_of_empty. tauto.
  - pose proof (a_nodup _ _ _ _ _ _ _ I) as Hnd. apply NoDup_cons in Hnd as [Hop Hnd].
    pose proof (unqueued_inv _ _ _ _ _ _ _ I op l Hnd ltac:(by left) Hop ltac:(intros y Hy; rewrite elem_of_cons; tauto)) as I1.
    pose proof (id_forgotten _ _ _ _ _ _ _ I1 op (S ∖ {[op]}) ltac:(intros id; change (ctrlOps (upd_op op _ c)) with (ctrlOps c); by rewrite Hc, lookup_empty)
      ltac:(intros x Hx; rewrite elem_of_difference, elem_of_singleton; tauto)) as I2.
    rewrite upd_op_compose in I2. cbn zeta. destruct (IH _ _ _ I2) as (I3 & Hc3 & Hq3); [done| |].
    + intros x [Hx Hne]%elem_of_difference. rewrite elem_of_singleton in Hne. apply HS, elem_of_cons in Hx. tauto.
    + split; [|done]. eapply queue_inv_set; [|exact I3]. intros x. rewrite !elem_of_union, !elem_of_list_to_set, elem_of_cons, elem_of_singleton. tauto.
Qed.

(** [closeAllSubs] *)
Lemma close_all_inv R U W c : queue_ok R U W c -> queue_ok R U W (closeAllSubs c).
Proof.
  intros I. unfold closeAllSubs. set (queue := ctrlQueue c). set (l := map_to_list (ctrlOps c)).
  pose proof (all_in_hand _ _ _ _ _ _ I) as I1. fold l queue in I1. set (c1 := _ <| sessionLost := false |>).
  assert (I2 : queue_inv queue ∅ (ctrlOps c ∪ R) (list_to_set l.*2) U W c1) by (by apply (queue_inv_frame _ _ _ _ _ _ (c <| ctrlOps := ∅ |>))).
  destruct (unqueue_all_inv _ _ _ queue c1 _ _ I2 eq_refl) as (I3 & Hc3 & Hq3).
  { intros x Hx%elem_of_list_to_set%list_elem_of_fmap. destruct Hx as ([id y] & -> & Hy%elem_of_map_to_list).
    destruct (a_reg _ _ _ _ _ _ _ I _ _ Hy) as (_ & o & Ho & _ & [Hk|Hk]); [|by apply not_elem_of_empty in Hk]. apply (a_queued _ _ _ _ _ _ _ I). eauto. }
  set (c3 := foldl _ c1 queue) in *. clearbody c3. set (c4 := foldl _ c3 _).
  assert (H4 : queue_all c4 = queue_all c3) by (apply (foldl_frame queue_all (fun c sub => closeSubLocked c sub None)); intros; apply close_sub_frame).
  clearbody c4. set (c5 := _ <| router ::= Reset |>). assert (H5 : queue_all c5 = queue_all c3) by (by rewrite <- H4).
  assert (I5 : queue_inv [] (list_to_set queue ∪ ∅) (ctrlOps c ∪ R) ∅ U W c5).
  { eapply queue_inv_frame; [|exact I3]. unfold queue_all in H5. congruence. }
  pose proof (queue_all_ctrlOps _ _ H5) as Hc5. rewrite Hc3 in Hc5.
  assert (Hq5 : ctrlQueue c5 = []) by (unfold queue_all in H5; transitivity (ctrlQueue c3); [congruence|exact Hq3]).
  clearbody c5. rewrite <- (list_to_map_to_list (ctrlOps c)) in I5. fold l in I5.
  apply release_all in I5; [|apply NoDup_fst_map_to_list|unfold l; rewrite list_to_map_to_list; apply I].
  destruct (releases_queue l c5) as [H6 H7]. set (c6 := foldl _ c5 l) in *. clearbody c6.
  set (rs := (fun op => (op, ErrClosed_result)) <$> queue). assert (Hrs : rs.*1 = queue) by (subst rs; rewrite <- list_fmap_compose; apply list_fmap_id).
  assert (E : foldl (fun c op => complete c op ErrClosed_result) c6 queue = foldl (fun c p => complete c p.1 p.2) c6 rs).
  { subst rs. clear. revert c6. induction queue as [|x q IH]; cbn; [done|]. intros c6. apply IH. }
  rewrite E. destruct (complete_all _ _ _ _ _ rs _ c6 I5) as [H8 H9].
  - rewrite Hrs. apply (a_nodup _ _ _ _ _ _ _ I).
  - intros x. by rewrite Hrs, elem_of_union, elem_of_list_to_set, elem_of_empty, (right_id False or).
  - intros x _ id. by rewrite H7, Hc5, lookup_empty.
  - unfold queue_ok. by rewrite H9, H6, Hq5.
Qed.

(** ** A lost session *)

Definition by_id (p : Z * Z) : Z * Z := (p.2, p.1).

Lemma hand_app id op (released : list (Z * Z)) R :
  (id <> 0 -> (list_to_map (by_id <$> released) ∪ R : gmap Z Z) !! id = None) ->
  hand_add id op (list_to_map (by_id <$> released) ∪ R)
  = list_to_map (by_id <$> (if id =? 0 then released else released ++ [(op, id)])) ∪ R.
Proof.
  intros Hn. unfold hand_add. destruct (Z.eqb_spec id 0) as [|H0]; [done|]. apply Hn in H0 as [H1 _]%lookup_union_None.
  rewrite fmap_app, list_to_map_app, insert_union_l. f_equal. change (by_id <$> [(op, id)]) with [(id, op)].
  rewrite list_to_map_cons, list_to_map_nil, insert_empty.
  rewrite map_union_comm, <- insert_union_singleton_l; [done|]. by apply map_disjoint_singleton_r.
Qed.

(** The first loop of [resetSession]. *)
Lemma unqueue_reset_inv R U W (l : list Z) : forall c P released,
  queue_inv l P (list_to_map (by_id <$> released) ∪ R) ∅ U W c -> NoDup (by_id <$> released).*1 ->
  (list_to_map (by_id <$> released) : gmap Z Z) ##ₘ R -> (forall x, x ∈ P -> unregistered c x) ->
  let (c', released') := foldl unqueue_one (c, released) l in
  queue_inv [] (list_to_set l ∪ P) (list_to_map (by_id <$> released') ∪ R) ∅ U W c' /\ NoDup (by_id <$> released').*1
  /\ (list_to_map (by_id <$> released') : gmap Z Z) ##ₘ R /\ (forall x, x ∈ P \/ x ∈ l -> unregistered c' x)
  /\ ctrlQueue c' = ctrlQueue c.
Proof.
  induction l as [|op l IH]; intros c P released I Hnd Hd Hn; cbn [foldl].
  - split; [|by split; [|split; [|split; [intros x [Hx|Hx%elem_of_nil]; [auto|done]|]]]]. eapply queue_inv_set; [|exact I].
    intros x. rewrite elem_of_union. cbn. rewrite elem_of_empty. tauto.
  - pose proof (a_nodup _ _ _ _ _ _ _ I) as Hl. apply NoDup_cons in Hl as [Hop Hl].
    pose proof (unqueued_inv _ _ _ _ _ _ _ I op l Hl ltac:(by left) Hop ltac:(intros y Hy; rewrite elem_of_cons; tauto)) as I1.
    unfold unqueue_one at 2. set (c1 := upd_op op _ c) in *.
    pose proof (unregister_inv _ _ _ _ _ _ _ I1 op ltac:(apply not_elem_of_empty)) as H.
    assert (Hkeep : forall x, unregistered c1 x -> unregistered (fst (unregisterLocked c1 op)) x).
    { intros x Hx i. unfold unregisterLocked. destruct (h_ops c1 !! op); [|apply Hx]. destruct (_ || _); [apply Hx|]. cbn [fst ctrlOps update].
      intros [_ Hi]%lookup_delete_Some. by apply (Hx i). }
    destruct (unregisterLocked c1 op) as [c2 id]. destruct H as (I2 & Hid & Hu & Hq). cbn [fst] in Hkeep. rewrite (hand_app id op released R Hid) in I2.
    set (released2 := if id =? 0 then released else released ++ [(op, id)]) in *.
    assert (Hnd2 : NoDup (by_id <$> released2).*1 /\ (list_to_map (by_id <$> released2) : gmap Z Z) ##ₘ R).
    { subst released2. destruct (Z.eqb_spec id 0) as [|H0]; [done|]. apply Hid in H0 as [H1 H2]%lookup_union_None. rewrite !fmap_app. split.
      - apply NoDup_app. split; [done|]. split; [|apply NoDup_singleton]. intros x Hx ->%list_elem_of_singleton. by apply not_elem_of_list_to_map_2 in H1.
      - rewrite list_to_map_app. apply map_disjoint_union_l. split; [done|]. change (by_id <$> [(op, id)]) with [(id, op)]. rewrite list_to_map_cons, list_to_map_nil, insert_empty.
        by apply map_disjoint_singleton_l. }
    destruct Hnd2 as [Hnd2 Hd2]. specialize (IH c2 ({[op]} ∪ P) released2 I2 Hnd2 Hd2).
    destruct (foldl unqueue_one (c2, released2) l) as [c3 released3]. destruct IH as (I3 & Hnd3 & Hd3 & Hn3 & Hq3).
    + intros x [->%elem_of_singleton|Hx]%elem_of_union; [done|]. by apply Hkeep, Hn.
    + split; [|split; [done|split; [done|split; [|by rewrite Hq3, Hq]]]].
      * eapply queue_inv_set; [|exact I3]. intros x. cbn. rewrite !elem_of_union, !elem_of_singleton. tauto.
      * intros x Hx. apply Hn3. rewrite elem_of_union, elem_of_singleton. rewrite elem_of_cons in Hx. tauto.
Qed.

(** How live subscriptions and queued SUBSCRIBEs point to each other. *)
Definition live (a : activeSub) : Prop := s_state a <> subClosed.
#[export] Instance live_dec a : Decision (live a).
Proof. unfold live. apply _. Defined.

Record links (c : client) : Prop := {
  l_active : forall s, s ∈ activeSubs c <-> exists a, h_subs c !! s = Some a /\ live a;
  l_op : forall s a op, h_subs c !! s = Some a -> live a -> s_op a = Some op ->
    exists o, h_ops c !! op = Some o /\ o_kind o = KSubscribe /\ o_sub o = s /\ o_filters o = s_filters a /\ o_queued o = true;
  l_queued : forall op o, h_ops c !! op = Some o -> o_queued o = true -> o_kind o = KSubscribe ->
    exists a, h_subs c !! o_sub o = Some a /\ (live a -> s_op a = Some op);
}.

(** An operation [resetSession] is done with. *)
Definition over (c : client) (op : Z) : bool :=
  match kinds c !! op with
  | Some (KUnsubscribe, _) => true
  | Some (KSubscribe, s) => bool_decide ((s_state <$> h_subs c !! s) = Some subClosed)
  | None => false
  end.

(** What the middle of [resetSession] leaves alone. *)
Definition subs_part (c : client) := (queue_all c, h_ops c, h_subs c, activeSubs c).

Lemma unretire_subs c op : subs_part (unretireLocked c op) = subs_part c.
Proof. unfold unretireLocked. destruct (h_ops c !! op); [|done]. cbn [retiring releaseIdentsLocked update]. destruct (retiring c); [|done]. by destruct (_ =? 0). Qed.

Lemma forget_subs c p : subs_part (forget_one c p) = subs_part c.
Proof. destruct p as [f b]. cbn. destruct (h_bsubs c !! b); [|done]. by destruct (_ =? 0). Qed.

Lemma over_same c c' op : h_ops c' = h_ops c -> h_subs c' = h_subs c -> over c' op = over c op.
Proof. unfold over, kinds. by intros -> ->. Qed.

Lemma finish_all_spec (l : list Z) : forall c finished,
  let (c', finished') := foldl finish_one (c, finished) l in
  subs_part c' = subs_part c /\ finished'.*1 = finished.*1 ++ List.filter (over c) l.
Proof.
  induction l as [|op l IH]; intros c finished; cbn [foldl]; [split; [done|by rewrite app_nil_r]|].
  assert (H : let (c1, f1) := finish_one (c, finished) op in subs_part c1 = subs_part c /\ f1.*1 = finished.*1 ++ (if over c op then [op] else [])).
  { unfold finish_one, over, kinds. rewrite lookup_fmap. destruct (h_ops c !! op) as [o|]; cbn; [|split; [done|by rewrite app_nil_r]].
    destruct (o_kind o); [|by rewrite fmap_app, unretire_subs].
    destruct (bool_decide _); [by rewrite fmap_app|by rewrite app_nil_r]. }
  destruct (finish_one (c, finished) op) as [c1 f1]. destruct H as [H1 H2]. specialize (IH c1 f1). destruct (foldl finish_one (c1, f1) l) as [c2 f2].
  destruct IH as [H3 H4]. split; [congruence|]. rewrite H4, H2, <- app_assoc. f_equal. cbn [List.filter].
  assert (List.filter (over c1) l = List.filter (over c) l) as -> by (apply List.filter_ext; intros x; unfold subs_part in H1; apply over_same; congruence).
  by destruct (over c op).
Qed.

Lemma queue_subscribe_subs c op o c' :
  h_ops c !! op = Some o -> queueSubscribeLocked c op = Some c' ->
  h_subs c' = alter (fun s => s <| s_op := Some op |>) (o_sub o) (h_subs c) /\ kinds c' = kinds c.
Proof.
  intros Ho. unfold queueSubscribeLocked, allocIdentLocked. destruct (alloc_loop _ _ _) as [ident|]; [|done]. rewrite Ho.
  set (c1 := upd_sub _ _ _). destruct (foldl _ _ _) as [c2|] eqn:E; [|done]. intros [= <-].
  assert (H : (h_subs c2, h_ops c2) = (h_subs c1, h_ops c1)).
  { assert (Hnone : forall fs, foldl (tag_filter ident) None fs = None) by (intros l; induction l; done).
    revert E. clear -Hnone. generalize (o_filters o) as fs. generalize c1 as d. intros d fs. revert d.
    induction fs as [|f fs IH]; intros d; cbn [foldl]; [by intros [= <-]|].
    destruct (tag_filter ident (Some d) f) as [d'|] eqn:E; [|by rewrite Hnone]. intros H. rewrite (IH _ H). cbn in E.
    destruct (broker_sub d (f_Topic f)) as [[b bs]|]; [|done]. by injection E as <-. }
  injection H as H1 H2. split; [exact H1|]. unfold enqueue. transitivity (kinds (upd_op op (fun o => o <| o_queued := true |>) c2)); [done|].
  rewrite kinds_upd by done. unfold kinds. rewrite H2. subst c1. change (h_ops (upd_sub _ _ ?d)) with (h_ops d). by apply kinds_upd.
Qed.

Lemma resubscribe_none (l : list Z) : foldl resubscribe_one None l = None.
Proof. by induction l. Qed.

(** A live subscription's operation is queued again, or a new one made. *)
Lemma resubscribe_one_inv P R U W c sub s c' :
  queue_inv (ctrlQueue c) P R ∅ U W c -> h_subs c !! sub = Some s ->
  (forall op, s_op s = Some op -> op ∈ P /\ unregistered c op /\ kinds c !! op = Some (KSubscribe, sub)) ->
  resubscribe_one (Some c) sub = Some c' ->
  exists P', queue_inv (ctrlQueue c') P' R ∅ U W c' /\ (forall x, x ∈ P' <-> x ∈ P /\ s_op s <> Some x) /\ ctrlOps c' = ctrlOps c
    /\ (forall s', s' <> sub -> h_subs c' !! s' = h_subs c !! s') /\ (forall x k, kinds c !! x = Some k -> kinds c' !! x = Some k).
Proof.
  intros I Hs Hop. unfold resubscribe_one. rewrite Hs. destruct (s_op s) as [op|] eqn:Es; intros H.
  - destruct (Hop op eq_refl) as (Hp & Hu & Hk). pose proof (sent_inv _ _ _ _ _ _ _ I op false U ltac:(done) ltac:(right; right; split; [done|apply not_elem_of_empty])) as I1.
    set (c1 := upd_op op _ c) in H. assert (H1 : queue_all c1 = queue_all (upd_op op (fun o => o <| o_sent := false |>) c)).
    { transitivity (queue_all (upd_op op (fun o => o <| o_counted := [] |>) (upd_op op (fun o => o <| o_sent := false |>) c))); [by rewrite upd_op_compose|by apply ops_same]. }
    apply (queue_inv_all _ _ _ _ _ (upd_op op (fun o => o <| o_sent := false |>) c) _ H1) in I1.
    assert (Hk1 : kinds c1 = kinds c) by by apply kinds_upd. rewrite <- Hk1 in Hk. unfold kinds in Hk. rewrite lookup_fmap in Hk.
    destruct (h_ops c1 !! op) as [o|] eqn:Ho; [|done]. injection Hk as _ Hsub.
    destruct (queue_subscribe_inv _ _ _ _ _ _ _ _ H Hp I1) as [I2 Hc2]. destruct (queue_subscribe_subs _ _ _ _ Ho H) as [Hs2 Hk2].
    exists (P ∖ {[op]}). split; [done|]. split; [|split; [by rewrite Hc2|split]].
    + intros x. rewrite elem_of_difference, elem_of_singleton. split; intros [? ?]; (split; [done|congruence]).
    + intros s' Hne. rewrite Hs2, lookup_alter_ne by congruence. done.
    + intros x k Hx. by rewrite Hk2, Hk1.
  - set (o0 := subscribe_op sub (s_filters s) true) in H. assert (Hsub : sub ∈ dom (h_subs c)) by (apply elem_of_dom; eauto).
    destruct (new_op_inv _ _ _ _ _ _ _ I o0 eq_refl eq_refl eq_refl (fun _ => Hsub)) as [I1 Hu1].
    change (new_op c o0) with (fst (new_op c o0), next_op c) in H. cbn beta iota in H. set (c1 := fst (new_op c o0)) in *.
    change (ctrlQueue c) with (ctrlQueue c1) in I1. set (op := next_op c) in *.
    assert (Hfresh : ops c !! op = None) by (apply eq_None_not_Some; intros Hx%(a_fresh _ _ _ _ _ _ _ I); subst op; lia).
    assert (Hnp : op ∉ P) by (intros Hx; destruct (a_taken _ _ _ _ _ _ _ I _ Hx) as (? & ? & _); congruence).
    assert (Ho1 : h_ops c1 !! op = Some o0) by apply lookup_insert_eq.
    assert (E2 : upd_op op (fun o => o <| o_sent := false |> <| o_counted := [] |>) c1 = c1).
    { unfold upd_op, update. rewrite (alter_same _ _ (h_ops c1)); [by destruct c1|]. intros y Hy. rewrite Ho1 in Hy. by injection Hy as <-. }
    rewrite E2 in H. destruct (queue_subscribe_inv _ _ _ _ _ _ _ _ H ltac:(by apply elem_of_union_l, elem_of_singleton) I1) as [I2 Hc2].
    destruct (queue_subscribe_subs _ _ _ _ Ho1 H) as [Hs2 Hk2].
    exists (({[op]} ∪ P) ∖ {[op]}). split; [done|]. split; [|split; [by rewrite Hc2|split]].
    + intros x. rewrite (back_out op P Hnp x). split; [|tauto]. intros Hx. split; [done|discriminate].
    + intros s' Hne. rewrite Hs2, lookup_alter_ne by (cbn; congruence). done.
    + intros x k Hx. rewrite Hk2. unfold kinds, c1, new_op. cbn [fst h_ops update]. rewrite fmap_insert, lookup_insert_ne; [done|]. intros <-.
      unfold kinds in Hx. rewrite lookup_fmap in Hx. rewrite ops_lookup in Hfresh. fold op in Hx. by destruct (h_ops c !! op).
Qed.

Lemma resubscribe_all_inv R U W (l : list Z) : forall c P c',
  queue_inv (ctrlQueue c) P R ∅ U W c -> NoDup l ->
  (forall s, s ∈ l -> exists a, h_subs c !! s = Some a
     /\ forall op, s_op a = Some op -> op ∈ P /\ unregistered c op /\ kinds c !! op = Some (KSubscribe, s)) ->
  foldl resubscribe_one (Some c) l = Some c' ->
  exists P', queue_inv (ctrlQueue c') P' R ∅ U W c' /\ ctrlOps c' = ctrlOps c
    /\ (forall x, x ∈ P' <-> x ∈ P /\ forall s a, s ∈ l -> h_subs c !! s = Some a -> s_op a <> Some x).
Proof.
  induction l as [|sub l IH]; intros c P c' I Hnd Hl; cbn [foldl].
  - intros [= <-]. exists P. split; [done|]. split; [done|]. intros x. split; [|tauto]. intros Hx. split; [done|]. intros s a Hs. by apply elem_of_nil in Hs.
  - apply NoDup_cons in Hnd as [Hsub Hnd]. destruct (resubscribe_one (Some c) sub) as [c1|] eqn:E; [|by rewrite resubscribe_none]. intros H.
    destruct (Hl sub ltac:(by left)) as (a & Ha & Hop). destruct (resubscribe_one_inv _ _ _ _ _ _ _ _ I Ha Hop E) as (P1 & I1 & HP1 & Hc1 & Hs1 & Hk1).
    destruct (IH c1 P1 c' I1 Hnd) as (P2 & I2 & Hc2 & HP2); [|exact H|].
    + intros s Hs. destruct (Hl s ltac:(by right)) as (b & Hb & Hops). assert (Hne : s <> sub) by (by intros ->). exists b. rewrite Hs1 by done. split; [done|].
      intros op Eop. destruct (Hops op Eop) as (Hp & Hu & Hk). split; [|split; [intros i; rewrite Hc1; apply Hu|by apply Hk1]].
      apply HP1. split; [done|]. intros Ea. destruct (Hop op Ea) as (_ & _ & Hk'). congruence.
    + exists P2. split; [done|]. split; [congruence|]. intros x. rewrite HP2, HP1. split.
      * intros [[Hx Hxa] Hrest]. split; [done|]. intros s b [->|Hs]%elem_of_cons Hb; [congruence|]. apply (Hrest s b Hs). rewrite Hs1; [done|]. by intros ->.
      * intros [Hx Hall]. split; [split; [done|by apply (Hall sub a); [left|]]|]. intros s b Hs Hb. apply (Hall s b); [by right|]. rewrite <- Hs1; [done|]. by intros ->.
Qed.

Lemma unqueue_subs (l : list Z) c released : let (c', r) := foldl unqueue_one (c, released) l in
  kinds c' = kinds c /\ h_subs c' = h_subs c /\ activeSubs c' = activeSubs c.
Proof.
  pose proof (foldl_frame (fun s => (kinds (fst s), h_subs (fst s), activeSubs (fst s))) unqueue_one) as H. specialize (H ltac:(
    intros [d r] op; cbn; pose proof (unregister_kinds (upd_op op (fun o => o <| o_queued := false |>) d) op) as Hk; rewrite kinds_upd in Hk by done;
    unfold unregisterLocked in *; destruct (h_ops (upd_op op (fun o => o <| o_queued := false |>) d) !! op); [destruct (_ || _)|]; cbn in *; congruence)).
  specialize (H l (c, released)). cbn in H. destruct (foldl unqueue_one (c, released) l) as [c' r]. cbn in H. by injection H as -> -> ->.
Qed.

Lemma complete_kinds c op r : kinds (complete c op r) = kinds c.
Proof. by apply kinds_upd. Qed.

Lemma over_of_old R U W c subs x :
  queue_ok R U W c -> links c -> subs ≡ₚ elements (activeSubs c) -> x ∈ ctrlQueue c ->
  (forall s a, s ∈ subs -> h_subs c !! s = Some a -> s_op a <> Some x) -> over c x = true.
Proof.
  intros I L Hperm Hx Hno. apply (a_queued _ _ _ _ _ _ _ I) in Hx as (k & Hk & Hqd). rewrite ops_lookup in Hk.
  destruct (h_ops c !! x) as [o|] eqn:Ho; [|done]. injection Hk as <-. cbn in Hqd. unfold over, kinds. rewrite lookup_fmap, Ho. cbn.
  destruct (o_kind o) eqn:Hkind; [|done]. destruct (l_queued _ L _ _ Ho Hqd Hkind) as (a & Ha & Hlive). rewrite Ha. cbn.
  apply bool_decide_eq_true. f_equal. destruct (decide (s_state a = subClosed)) as [|Hn]; [done|].
  destruct (Hno (o_sub o) a); [|done|by apply Hlive]. rewrite Hperm, elem_of_elements, (l_active _ L). eauto.
Qed.

(** [resetSession] *)
Lemma reset_inv R U W ord c c' : queue_ok R U W c -> links c -> resetSession ord c = Some c' -> queue_ok R U W c'.
Proof.
  intros I L. unfold resetSession. set (old := ctrlQueue c). set (c0 := c <| ctrlQueue := [] |>).
  assert (I0 : queue_inv old ∅ (list_to_map (by_id <$> []) ∪ R) ∅ U W c0).
  { cbn [fmap list_fmap]. rewrite list_to_map_nil, (left_id_L ∅ (∪)). by apply (queue_inv_frame _ _ _ _ _ _ c). }
  pose proof (unqueue_reset_inv R U W old c0 ∅ [] I0 ltac:(constructor) ltac:(apply map_disjoint_empty_l) ltac:(intros x Hx; by apply not_elem_of_empty in Hx)) as H.
  pose proof (unqueue_subs old c0 []) as Hk1. destruct (foldl unqueue_one (c0, []) old) as [c1 released].
  destruct H as (I1 & Hnd1 & Hd1 & Hn1 & Hq1). destruct Hk1 as (Hk1 & Hs1 & Ha1).
  pose proof (finish_all_spec old c1 []) as H2. destruct (foldl finish_one (c1, []) old) as [c2 finished]. destruct H2 as [H2 Hfin]. cbn [fmap list_fmap app] in Hfin.
  set (c3 := foldl forget_one c2 _). assert (H3 : subs_part c3 = subs_part c1) by (rewrite <- H2; apply foldl_frame, forget_subs).
  clearbody c3. assert (Hqa : queue_all c3 = queue_all c1) by (unfold subs_part in H3; congruence).
  assert (Hq3 : ctrlQueue c3 = []) by (transitivity (ctrlQueue c1); [unfold queue_all in Hqa; congruence|exact Hq1]).
  assert (Hs3 : h_subs c3 = h_subs c) by (transitivity (h_subs c1); [unfold subs_part in H3; congruence|exact Hs1]).
  assert (Ha3 : activeSubs c3 = activeSubs c) by (transitivity (activeSubs c1); [unfold subs_part in H3; congruence|exact Ha1]).
  assert (Hk3 : kinds c3 = kinds c) by (transitivity (kinds c1); [unfold subs_part in H3; unfold kinds; congruence|exact Hk1]).
  assert (Hc3 : ctrlOps c3 = ctrlOps c1) by by apply queue_all_ctrlOps.
  assert (I3 : queue_inv (ctrlQueue c3) (list_to_set old ∪ ∅) (list_to_map (by_id <$> released) ∪ R) ∅ U W c3).
  { rewrite Hq3. eapply queue_inv_frame; [|exact I1]. unfold queue_all in Hqa. congruence. }
  set (subs := merge_sort Z.le (elements (activeSubs c3))).
  assert (Hperm : subs ≡ₚ elements (activeSubs c)) by (subst subs; rewrite Ha3; apply merge_sort_Permutation).
  destruct (foldl resubscribe_one (Some c3) subs) as [c4|] eqn:E4; [|done]. intros [= <-].
  assert (Hl : forall s, s ∈ subs -> exists a, h_subs c3 !! s = Some a /\ forall op, s_op a = Some op ->
    op ∈ (list_to_set old ∪ ∅ : gset Z) /\ unregistered c3 op /\ kinds c3 !! op = Some (KSubscribe, s)).
  { intros s Hs. rewrite Hperm, elem_of_elements, (l_active _ L) in Hs. destruct Hs as (a & Ha & Hlive). rewrite Hs3. exists a. split; [done|].
    intros op Eop. destruct (l_op _ L _ _ _ Ha Hlive Eop) as (o & Ho & Hkind & Hsub & _ & Hqd).
    assert (Hin : op ∈ old) by (apply (a_queued _ _ _ _ _ _ _ I); exists (acore o); by rewrite ops_lookup, Ho).
    split; [by apply elem_of_union_l, elem_of_list_to_set|]. split; [intros i; rewrite Hc3; apply Hn1; by right|].
    rewrite Hk3. unfold kinds. rewrite lookup_fmap, Ho. cbn. by rewrite Hkind, Hsub. }
  destruct (resubscribe_all_inv _ _ _ subs _ _ _ I3 ltac:(rewrite Hperm; apply NoDup_elements) Hl E4) as (P4 & I4 & Hc4 & HP4). pose proof I4 as I5.
  assert (E5 : foldl (fun c p => release_for c p.1 p.2) c4 released = foldl (fun c p => release_for c p.2 p.1) c4 (by_id <$> released)).
  { clear. revert c4. induction released as [|p l IH]; [done|]. intros c. apply IH. }
  rewrite E5. apply release_all in I5; [|done|done]. destruct (releases_queue (by_id <$> released) c4) as [H6 H7].
  set (c5 := foldl _ c4 (by_id <$> released)) in *. clearbody c5.
  destruct (complete_all _ _ _ _ _ finished P4 c5 I5) as [H8 H9].
  - rewrite Hfin. apply NoDup_lfilter. apply I.
  - intros x. rewrite HP4, Hfin, elem_of_lfilter, elem_of_union, elem_of_list_to_set, elem_of_empty.
    assert (Hover : over c1 x = over c x) by (unfold over; by rewrite Hk1, Hs1). rewrite Hover, Hs3. split.
    + intros [[Hx|[]] Hno]. split; [done|]. by eapply over_of_old.
    + intros [Hx Ho]. split; [by left|]. intros s a Hs Ha Es. rewrite Hperm, elem_of_elements, (l_active _ L) in Hs. destruct Hs as (a' & Ha' & Hlive).
      replace a' with a in Hlive by congruence. destruct (l_op _ L _ _ _ Ha Hlive Es) as (o & Hox & Hkind & Hsub & _).
      unfold over, kinds in Ho. rewrite lookup_fmap, Hox in Ho. cbn in Ho. rewrite Hkind, Hsub, Ha in Ho. cbn in Ho. apply bool_decide_eq_true in Ho. by injection Ho.
  - intros x Hx i. rewrite H7, Hc4, Hc3. apply HP4 in Hx as [Hx _]. rewrite elem_of_union, elem_of_list_to_set, elem_of_empty in Hx. apply Hn1. tauto.
  - unfold queue_ok. by rewrite H9, H6.
Qed.

End SubsQueue.
