(* ===== verification/SubsState.v ===== *)
(** * SubsState: local subscriptions, broker subscriptions and the trie

    The invariant that ties live subscriptions to the SUBSCRIBEs queued for
    them, to the holders of the broker subscriptions and to the registrations
    in the topic trie. *)

From S2P Require Import Prelude GoLib Errors ClientErrors Buffers Varint Topics Subscribe IdTable Trie Subscriptions SubsLists SubsQueue.

Module SubsState.
Import Subscriptions SubsLists SubsQueue.

(** ** Subscriptions and their SUBSCRIBEs *)

Definition sub_core (a : activeSub) := (s_state a, s_op a, s_filters a).
Definition op_core (o : ctrlOp) := (o_kind o, o_sub o, o_filters o, o_queued o).

Definition link_part (c : client) := (activeSubs c, sub_core <$> h_subs c, op_core <$> h_ops c).

(** [links] in the middle of a step that has taken the operations [E] off the
    queue. *)
Record linked (E : gset Z) (c : client) : Prop := {
  k_active : forall s, s ∈ activeSubs c <-> exists a, h_subs c !! s = Some a /\ live a;
  k_op : forall s a op, h_subs c !! s = Some a -> live a -> s_op a = Some op ->
    exists o, h_ops c !! op = Some o /\ o_kind o = KSubscribe /\ o_sub o = s /\ o_filters o = s_filters a
      /\ (o_queued o = true \/ op ∈ E);
  k_queued : forall op o, h_ops c !! op = Some o -> o_queued o = true \/ op ∈ E -> o_kind o = KSubscribe ->
    exists a, h_subs c !! o_sub o = Some a /\ (live a -> s_op a = Some op);
  k_pending : forall s a, h_subs c !! s = Some a -> s_state a = subPending -> is_Some (s_op a);
  k_filters : forall s a, h_subs c !! s = Some a -> live a -> s_filters a <> [];
}.

Lemma linked_links c : linked ∅ c -> links c.
Proof.
  intros []. split; [done| |].
  - intros s a op Ha Hl Hop. destruct (k_op0 _ _ _ Ha Hl Hop) as (o & Ho & Hk & Hs & Hf & [Hq|Hq]); [by exists o|by apply not_elem_of_empty in Hq].
  - intros op o Ho Hq. apply k_queued0; [done|by left].
Qed.

Lemma fmap_Some_core {A B} (g : A -> B) (m m' : gmap Z A) k a :
  g <$> m' = g <$> m -> m' !! k = Some a -> exists a0, m !! k = Some a0 /\ g a0 = g a.
Proof.
  intros E H. assert (Hk : (g <$> m) !! k = Some (g a)) by by rewrite <- E, lookup_fmap, H. rewrite lookup_fmap in Hk.
  destruct (m !! k) as [a0|]; [|done]. injection Hk as Hk. by exists a0.
Qed.

Lemma linked_frame E c c' : link_part c' = link_part c -> linked E c -> linked E c'.
Proof.
  unfold link_part. intros H. injection H as E1 E2 E3. intros [].
  assert (Hs : forall s a, h_subs c' !! s = Some a -> exists a0, h_subs c !! s = Some a0 /\ sub_core a0 = sub_core a) by (intros s a; by apply fmap_Some_core).
  assert (Ho : forall p o, h_ops c' !! p = Some o -> exists o0, h_ops c !! p = Some o0 /\ op_core o0 = op_core o) by (intros p o; by apply fmap_Some_core).
  symmetry in E2, E3.
  assert (Hs' : forall s a, h_subs c !! s = Some a -> exists a0, h_subs c' !! s = Some a0 /\ sub_core a0 = sub_core a) by (intros s a; by apply fmap_Some_core).
  assert (Ho' : forall p o, h_ops c !! p = Some o -> exists o0, h_ops c' !! p = Some o0 /\ op_core o0 = op_core o) by (intros p o; by apply fmap_Some_core).
  unfold sub_core, op_core, live in *. split.
  - intros s. rewrite E1, k_active0. split; intros (a & Ha & Hl).
    + destruct (Hs' _ _ Ha) as (a0 & H0 & Hc). injection Hc as H1 _ _. exists a0. split; [done|congruence].
    + destruct (Hs _ _ Ha) as (a0 & H0 & Hc). injection Hc as H1 _ _. exists a0. split; [done|congruence].
  - intros s a op Ha Hl Hop. destruct (Hs _ _ Ha) as (a0 & Ha0 & Hc). injection Hc as H1 H2 H3.
    destruct (k_op0 s a0 op) as (o & H4 & H5 & H6 & H7 & H8); [done|unfold live; congruence|congruence|].
    destruct (Ho' _ _ H4) as (o0 & Ho0 & Hoc). injection Hoc as G1 G2 G3 G4. exists o0. repeat split; try congruence.
  - intros op o Ho0 Hq Hk. destruct (Ho _ _ Ho0) as (o1 & Ho1 & Hoc). injection Hoc as G1 G2 G3 G4.
    destruct (k_queued0 op o1) as (a & Ha & Hl); [done|destruct Hq; [left; congruence|by right]|congruence|]. rewrite G2 in Ha.
    destruct (Hs' _ _ Ha) as (a0 & Ha0 & Hc). injection Hc as H1 H2 H3. exists a0. split; [done|]. unfold live in *. rewrite H1, H2. done.
  - intros s a Ha Hp. destruct (Hs _ _ Ha) as (a0 & Ha0 & Hc). injection Hc as H1 H2 H3. rewrite <- H2. apply (k_pending0 s); [done|congruence].
  - intros s a Ha Hp. destruct (Hs _ _ Ha) as (a0 & Ha0 & Hc). injection Hc as H1 H2 H3. rewrite <- H3. apply (k_filters0 s); [done|unfold live; congruence].
Qed.

(** ** One subscription or one operation changes *)

Lemma upd_sub_lookup c s f x : h_subs (upd_sub s f c) !! x = if decide (x = s) then f <$> h_subs c !! s else h_subs c !! x.
Proof. unfold upd_sub. cbn [h_subs update]. destruct (decide (x = s)) as [->|Hne]; [apply lookup_alter_eq|by rewrite lookup_alter_ne by congruence]. Qed.

Lemma upd_op_lookup c op f x : h_ops (upd_op op f c) !! x = if decide (x = op) then f <$> h_ops c !! op else h_ops c !! x.
Proof. unfold upd_op. cbn [h_ops update]. destruct (decide (x = op)) as [->|Hne]; [apply lookup_alter_eq|by rewrite lookup_alter_ne by congruence]. Qed.

Lemma upd_op_links op f c : (forall o, op_core (f o) = op_core o) -> link_part (upd_op op f c) = link_part c.
Proof. intros H. unfold link_part, upd_op. cbn [h_ops h_subs activeSubs update]. by rewrite fmap_alter_same. Qed.

Lemma upd_sub_links s f c : (forall a, sub_core (f a) = sub_core a) -> link_part (upd_sub s f c) = link_part c.
Proof. intros H. unfold link_part, upd_sub. cbn [h_ops h_subs activeSubs update]. by rewrite fmap_alter_same. Qed.

(** A subscription closes. *)
Lemma closed_links E c sub g :
  (forall a, s_state (g a) = subClosed) -> linked E c -> linked E ((upd_sub sub g c) <| activeSubs ::= fun m => m ∖ {[sub]} |>).
Proof.
  intros Hg []. set (c1 := _ <| activeSubs ::= _ |>).
  assert (Hl : forall x, h_subs c1 !! x = if decide (x = sub) then g <$> h_subs c !! sub else h_subs c !! x) by apply upd_sub_lookup.
  assert (Hlive : forall x a, h_subs c1 !! x = Some a -> live a -> x <> sub /\ h_subs c !! x = Some a).
  { intros x a. rewrite Hl. destruct (decide (x = sub)) as [->|]; [|done]. destruct (h_subs c !! sub); [|done]. unfold live. intros [= <-]. by rewrite Hg. }
  split.
  - intros x. change (activeSubs c1) with (activeSubs c ∖ {[sub]}). rewrite elem_of_difference, elem_of_singleton, k_active0. split.
    + intros [(a & Ha & Hla) Hne]. exists a. rewrite Hl, decide_False by done. done.
    + intros (a & Ha & Hla). destruct (Hlive _ _ Ha Hla). eauto.
  - intros x a op Ha Hla. destruct (Hlive _ _ Ha Hla) as [_ Ha']. exact (k_op0 x a op Ha' Hla).
  - intros op o Ho Hq Hk. destruct (k_queued0 op o Ho Hq Hk) as (a & Ha & Hop). rewrite Hl. destruct (decide _) as [E0|]; [|eauto]. rewrite <- E0.
    rewrite Ha. cbn. eexists. split; [done|]. unfold live. by rewrite Hg.
  - intros x a. rewrite Hl. destruct (decide (x = sub)) as [->|]; [|apply k_pending0]. destruct (h_subs c !! sub); [|done]. intros [= <-]. by rewrite Hg.
  - intros x a Ha Hla. destruct (Hlive _ _ Ha Hla) as [_ Ha']. exact (k_filters0 x a Ha' Hla).
Qed.


(** An operation leaves the queue into the hands of a step. *)
Lemma unqueued_links E c op o :
  linked E c -> h_ops c !! op = Some o -> o_queued o = true \/ op ∈ E ->
  linked ({[op]} ∪ E) (upd_op op (fun o => o <| o_queued := false |>) c).
Proof.
  intros [] Ho Hq. assert (Hl : forall x, h_ops (upd_op op (fun o => o <| o_queued := false |>) c) !! x
    = if decide (x = op) then Some (o <| o_queued := false |>) else h_ops c !! x) by (intros x; rewrite upd_op_lookup, Ho; done).
  split; [exact k_active0| | |exact k_pending0|exact k_filters0].
  - intros s a x Ha Hla Hx. destruct (k_op0 s a x Ha Hla Hx) as (o' & Ho' & H1 & H2 & H3 & H4). rewrite Hl. destruct (decide (x = op)) as [->|Hne].
    + replace o' with o in * by congruence. eexists. split; [done|]. cbn. repeat split; [done..|]. right. by apply elem_of_union_l, elem_of_singleton.
    + exists o'. repeat split; try done. rewrite elem_of_union. tauto.
  - intros x o' Hx Hqx Hk. rewrite Hl in Hx. destruct (decide (x = op)) as [->|Hne].
    + injection Hx as <-. exact (k_queued0 op o Ho Hq Hk).
    + apply (k_queued0 x o' Hx); [|done]. rewrite elem_of_union, elem_of_singleton in Hqx. tauto.
Qed.

(** ... and back. *)
Lemma enqueued_links E c op : linked E c -> op ∈ E -> linked (E ∖ {[op]}) (enqueue c op).
Proof.
  intros [] Hop. assert (Hl : forall x, h_ops (enqueue c op) !! x = if decide (x = op) then (fun o => o <| o_queued := true |>) <$> h_ops c !! op else h_ops c !! x) by apply upd_op_lookup.
  split; [exact k_active0| | |exact k_pending0|exact k_filters0].
  - intros s a x Ha Hla Hx. destruct (k_op0 s a x Ha Hla Hx) as (o' & Ho' & H1 & H2 & H3 & H4). rewrite Hl. destruct (decide (x = op)) as [->|Hne].
    + rewrite Ho'. eexists. split; [done|]. cbn. repeat split; [done..|]. by left.
    + exists o'. repeat split; try done. destruct H4; [by left|right]. apply elem_of_difference. by rewrite elem_of_singleton.
  - intros x o' Hx Hqx Hk. rewrite Hl in Hx. destruct (decide (x = op)) as [->|Hne].
    + destruct (h_ops c !! op) as [o|] eqn:Ho; [|done]. injection Hx as <-. exact (k_queued0 op o Ho (or_intror Hop) Hk).
    + apply (k_queued0 x o' Hx); [|done]. destruct Hqx as [?|[? _]%elem_of_difference]; auto.
Qed.

(** A step is done with an operation no live subscription waits for. *)
Lemma dropped_links E c op :
  linked E c -> (forall o, h_ops c !! op = Some o -> o_kind o = KSubscribe -> exists a, h_subs c !! o_sub o = Some a /\ ~ live a) -> linked (E ∖ {[op]}) c.
Proof.
  intros [] Hop. split; [exact k_active0| | |exact k_pending0|exact k_filters0].
  - intros s a x Ha Hla Hx. destruct (k_op0 s a x Ha Hla Hx) as (o' & Ho' & H1 & H2 & H3 & H4). exists o'. repeat split; try done.
    destruct H4 as [?|Hin]; [by left|]. right. apply elem_of_difference. split; [done|]. rewrite elem_of_singleton. intros ->.
    destruct (Hop o' Ho' H1) as (a' & Ha' & Hn). rewrite H2, Ha in Ha'. by injection Ha' as <-.
  - intros x o Ho Hq Hk. apply (k_queued0 x o Ho); [|done]. destruct Hq as [?|[? _]%elem_of_difference]; auto.
Qed.

Lemma linked_set E E' c : E ≡ E' -> linked E c -> linked E' c.
Proof. by intros ->%leibniz_equiv. Qed.

(** A new UNSUBSCRIBE. *)
Lemma new_op_links E c o :
  linked E c -> h_ops c !! next_op c = None -> o_kind o = KUnsubscribe -> linked ({[next_op c]} ∪ E) (fst (new_op c o)).
Proof.
  intros [] Hf Hk. assert (Hl : forall x, h_ops (fst (new_op c o)) !! x = if decide (x = next_op c) then Some o else h_ops c !! x).
  { intros x. unfold new_op. cbn [fst h_ops update]. destruct (decide _) as [->|]; [apply lookup_insert_eq|by rewrite lookup_insert_ne by congruence]. }
  split; [exact k_active0| | |exact k_pending0|exact k_filters0].
  - intros s a x Ha Hla Hx. destruct (k_op0 s a x Ha Hla Hx) as (o' & Ho' & H1 & H2 & H3 & H4). exists o'.
    rewrite Hl, decide_False by congruence. repeat split; try done. rewrite elem_of_union. tauto.
  - intros x o' Hx Hq Hk'. rewrite Hl in Hx. destruct (decide (x = next_op c)) as [->|Hne]; [congruence|].
    apply (k_queued0 x o' Hx); [|done]. rewrite elem_of_union, elem_of_singleton in Hq. tauto.
Qed.

(** A subscription is added with its SUBSCRIBE. *)
Lemma added_links E c sub op a o :
  linked E c -> h_subs c !! sub = None -> h_ops c !! op = None -> op ∉ E ->
  s_state a = subPending -> s_op a = Some op -> s_filters a <> [] ->
  o_kind o = KSubscribe -> o_sub o = sub -> o_filters o = s_filters a ->
  linked ({[op]} ∪ E) (c <| h_subs ::= <[sub := a]> |> <| h_ops ::= <[op := o]> |> <| activeSubs ::= fun m => {[sub]} ∪ m |>).
Proof.
  intros [] Hs Ho HE Hst Hop Hfs Hk Hsub Hf. set (c' := _ <| activeSubs ::= _ |>).
  assert (Hls : forall x, h_subs c' !! x = if decide (x = sub) then Some a else h_subs c !! x).
  { intros x. unfold c'. cbn [h_subs update]. destruct (decide _) as [->|]; [apply lookup_insert_eq|by rewrite lookup_insert_ne by congruence]. }
  assert (Hlo : forall x, h_ops c' !! x = if decide (x = op) then Some o else h_ops c !! x).
  { intros x. unfold c'. cbn [h_ops update]. destruct (decide _) as [->|]; [apply lookup_insert_eq|by rewrite lookup_insert_ne by congruence]. }
  split.
  - intros x. change (activeSubs c') with ({[sub]} ∪ activeSubs c). rewrite elem_of_union, elem_of_singleton, k_active0, Hls. destruct (decide (x = sub)) as [->|Hne]; [|tauto].
    split; [|by left]. intros _. exists a. split; [done|]. unfold live. congruence.
  - intros x b p Hb Hlb Hp. rewrite Hls in Hb. destruct (decide (x = sub)) as [->|Hne].
    + injection Hb as <-. replace p with op by congruence. exists o. rewrite Hlo, decide_True by done. repeat split; try done. right. by apply elem_of_union_l, elem_of_singleton.
    + destruct (k_op0 x b p Hb Hlb Hp) as (o' & Ho' & H1 & H2 & H3 & H4). exists o'. rewrite Hlo, decide_False by congruence. repeat split; try done. rewrite elem_of_union. tauto.
  - intros p o' Ho' Hq' Hk'. rewrite elem_of_union, elem_of_singleton in Hq'. rewrite Hlo in Ho'. destruct (decide (p = op)) as [->|Hne].
    + injection Ho' as <-. exists a. rewrite Hsub, Hls, decide_True by done. auto.
    + destruct (k_queued0 p o' Ho' ltac:(tauto) Hk') as (b & Hb & ?). exists b. rewrite Hls, decide_False by congruence. auto.
  - intros x b Hb. rewrite Hls in Hb. destruct (decide (x = sub)) as [->|Hne]; [|by apply (k_pending0 x)]. injection Hb as <-. rewrite Hop. eauto.
  - intros x b Hb. rewrite Hls in Hb. destruct (decide (x = sub)) as [->|Hne]; [|by apply (k_filters0 x)]. by injection Hb as <-.
Qed.

(** A live subscription without a SUBSCRIBE gets one. *)
Lemma assigned_links E c sub op a o :
  linked E c -> h_subs c !! sub = Some a -> live a -> s_op a = None -> h_ops c !! op = None -> op ∉ E ->
  o_kind o = KSubscribe -> o_sub o = sub -> o_filters o = s_filters a ->
  linked ({[op]} ∪ E) (upd_sub sub (fun s => s <| s_op := Some op |>) (c <| h_ops ::= <[op := o]> |>)).
Proof.
  intros [] Hs Hla Hnone Ho HE Hk Hsub Hf. set (c' := upd_sub _ _ _).
  assert (Hls : forall x, h_subs c' !! x = if decide (x = sub) then Some (a <| s_op := Some op |>) else h_subs c !! x).
  { intros x. unfold c'. rewrite upd_sub_lookup. cbn [h_subs update]. by rewrite Hs. }
  assert (Hlo : forall x, h_ops c' !! x = if decide (x = op) then Some o else h_ops c !! x).
  { intros x. unfold c', upd_sub. cbn [h_ops update]. destruct (decide _) as [->|]; [apply lookup_insert_eq|by rewrite lookup_insert_ne by congruence]. }
  split.
  - intros x. change (activeSubs c') with (activeSubs c). rewrite k_active0, Hls. destruct (decide (x = sub)) as [->|Hne]; [|done].
    split; intros (b & Hb & Hlb); [by exists (a <| s_op := Some op |>)|by exists a].
  - intros x b p Hb Hlb Hp. rewrite Hls in Hb. destruct (decide (x = sub)) as [->|Hne].
    + injection Hb as <-. cbn in Hp. injection Hp as <-. exists o. rewrite Hlo, decide_True by done. repeat split; try done. right. by apply elem_of_union_l, elem_of_singleton.
    + destruct (k_op0 x b p Hb Hlb Hp) as (o' & Ho' & H1 & H2 & H3 & H4). exists o'. rewrite Hlo, decide_False by congruence. repeat split; try done. rewrite elem_of_union. tauto.
  - intros p o' Ho' Hq' Hk'. rewrite elem_of_union, elem_of_singleton in Hq'. rewrite Hlo in Ho'. destruct (decide (p = op)) as [->|Hne].
    + injection Ho' as <-. exists (a <| s_op := Some op |>). rewrite Hsub, Hls, decide_True by done. auto.
    + destruct (k_queued0 p o' Ho' ltac:(tauto) Hk') as (b & Hb & Hlb). rewrite Hls. destruct (decide (o_sub o' = sub)) as [E0|E0]; [|eauto].
      rewrite E0, Hs in Hb. injection Hb as <-. apply Hlb in Hla. congruence.
  - intros x b Hb Hst. rewrite Hls in Hb. destruct (decide (x = sub)) as [->|Hne]; [injection Hb as <-; by eexists|by apply (k_pending0 x)].
  - intros x b Hb Hlb. rewrite Hls in Hb. destruct (decide (x = sub)) as [->|Hne]; [injection Hb as <-; exact (k_filters0 sub a Hs Hla)|by apply (k_filters0 x)].
Qed.

(** The SUBSCRIBE of a live subscription is answered: what is left of its
    filters stays subscribed. *)
Lemma answered_links E c sub op a o a' :
  linked E c -> op ∈ E -> h_ops c !! op = Some o -> o_kind o = KSubscribe -> o_sub o = sub -> o_queued o = false -> h_subs c !! sub = Some a -> live a ->
  s_state a' = subActive -> s_op a' = None -> s_filters a' <> [] ->
  linked (E ∖ {[op]}) (upd_sub sub (fun _ => a') c).
Proof.
  intros [] HE Ho Hk Hsub Hnq Ha Hla Hst Hop Hfs. set (c' := upd_sub _ _ _).
  assert (Hls : forall x, h_subs c' !! x = if decide (x = sub) then Some a' else h_subs c !! x) by (intros x; unfold c'; rewrite upd_sub_lookup; by rewrite Ha).
  assert (Hone : forall p o', h_ops c !! p = Some o' -> o_queued o' = true \/ p ∈ E -> o_kind o' = KSubscribe -> o_sub o' = sub -> p = op).
  { intros p o' Ho' Hq' Hk' Hs'. destruct (k_queued0 p o' Ho' Hq' Hk') as (b & Hb & Hlb). destruct (k_queued0 op o Ho (or_intror HE) Hk) as (b' & Hb' & Hlb').
    rewrite Hs', Ha in Hb. injection Hb as <-. rewrite Hsub, Ha in Hb'. injection Hb' as <-. apply Hlb in Hla as H1. apply Hlb' in Hla as H2. congruence. }
  split.
  - intros x. change (activeSubs c') with (activeSubs c). rewrite k_active0, Hls. destruct (decide (x = sub)) as [->|Hne]; [|done].
    split; intros (b & Hb & Hlb); [exists a'; split; [done|unfold live; congruence]|by exists a].
  - intros x b p Hb Hlb Hp. rewrite Hls in Hb. destruct (decide (x = sub)) as [->|Hne]; [congruence|].
    destruct (k_op0 x b p Hb Hlb Hp) as (o' & Ho' & H1 & H2 & H3 & H4). exists o'. repeat split; try done. destruct H4 as [?|?]; [by left|right].
    apply elem_of_difference. split; [done|]. rewrite elem_of_singleton. intros ->. congruence.
  - intros p o' Ho' Hq' Hk'. change (h_ops c !! p = Some o') in Ho'. assert (Hq2 : o_queued o' = true \/ p ∈ E) by (destruct Hq' as [?|[? _]%elem_of_difference]; auto).
    destruct (k_queued0 p o' Ho' Hq2 Hk') as (b & Hb & Hlb). rewrite Hls. destruct (decide (o_sub o' = sub)) as [E0|E0]; [|eauto].
    pose proof (Hone p o' Ho' Hq2 Hk' E0) as ->. exists a'. split; [done|]. destruct Hq' as [Hq'|[_ Hq']%elem_of_difference]; [congruence|].
    by destruct Hq'; apply elem_of_singleton.
  - intros x b Hb Hs. rewrite Hls in Hb. destruct (decide (x = sub)) as [->|Hne]; [congruence|by apply (k_pending0 x)].
  - intros x b Hb Hlb. rewrite Hls in Hb. destruct (decide (x = sub)) as [->|Hne]; [congruence|by apply (k_filters0 x)].
Qed.


(** ** Broker subscriptions and the trie *)

Definition bs_shape (b : brokerSub) := (b_filter b, b_trieKey b, b_trieID b).
Definition shape_part (c : client) := (brokerSubs c, bs_shape <$> h_bsubs c, router c, next_bsub c).

Definition trie_id (c : client) (b : Z) : Z := default 0 (b_trieID <$> h_bsubs c !! b).

(** What the trie should hold: one registration per broker subscription. *)
Definition registration (c : client) (p : list Z * Z) : @Registration Z := mkReg (underlying p.1) (trie_id c p.2) p.2.
Definition registrations (c : client) : list Registration := registration c <$> map_to_list (brokerSubs c).

Record shaped (c : client) : Prop := {
  m_bs : forall f b, brokerSubs c !! f = Some b -> exists bs, h_bsubs c !! b = Some bs /\ b_filter bs = f /\ b_trieKey bs = underlying f;
  m_fresh : forall b, is_Some (h_bsubs c !! b) -> b < next_bsub c;
  m_router : holds (router c) (registrations c, nextID (router c));
}.

Lemma holds_perm (t : @Tree Z) regs regs' n : regs ≡ₚ regs' -> holds t (regs, n) -> holds t (regs', n).
Proof.
  intros Hp (H1 & H2 & H3 & H4 & H5 & H6). cbn [fst snd] in *. split; [done|]. cbn [fst snd]. split; [by rewrite H2, Hp|]. split; [done|]. split; [done|].
  split; [by rewrite <- Hp|by rewrite <- Hp].
Qed.

Lemma shaped_frame c c' : shape_part c' = shape_part c -> shaped c -> shaped c'.
Proof.
  unfold shape_part. intros H. injection H as E1 E2 E3 E4. intros [H1 H2 H3].
  assert (Hb : forall b bs, h_bsubs c !! b = Some bs -> exists bs', h_bsubs c' !! b = Some bs' /\ bs_shape bs' = bs_shape bs) by (intros b bs; by apply fmap_Some_core).
  assert (Ht : forall b, trie_id c' b = trie_id c b).
  { intros b. unfold trie_id. assert (H : (bs_shape <$> h_bsubs c') !! b = (bs_shape <$> h_bsubs c) !! b) by by rewrite E2.
    rewrite !lookup_fmap in H. destruct (h_bsubs c' !! b), (h_bsubs c !! b); unfold bs_shape in H; cbn in *; congruence. }
  split.
  - intros f b Hf. rewrite E1 in Hf. destruct (H1 _ _ Hf) as (bs & Hbs & Hfl & Hk). destruct (Hb _ _ Hbs) as (bs' & Hbs' & Hs).
    unfold bs_shape in Hs. exists bs'. split; [done|]. split; congruence.
  - intros b [bs Hbs]. rewrite E4. apply H2. symmetry in E2. destruct (fmap_Some_core bs_shape _ _ _ _ (eq_sym E2) Hbs) as (bs' & ? & _). eauto.
  - rewrite E3. assert (registrations c' = registrations c) as ->; [|done]. unfold registrations, registration. rewrite E1. apply list_fmap_ext.
    intros i p _. by rewrite Ht.
Qed.

Lemma shaped_inj c f f' b : shaped c -> brokerSubs c !! f = Some b -> brokerSubs c !! f' = Some b -> f = f'.
Proof. intros [H1 _ _] Hf Hf'. destruct (H1 _ _ Hf) as (bs & Hb & <- & _). destruct (H1 _ _ Hf') as (bs' & Hb' & <- & _). congruence. Qed.

Lemma broker_sub_Some c f b bs : shaped c -> broker_sub c f = Some (b, bs) <-> brokerSubs c !! f = Some b /\ h_bsubs c !! b = Some bs.
Proof.
  intros H. unfold broker_sub. destruct (brokerSubs c !! f) as [b'|] eqn:E; [|split; [done|by intros [? _]]].
  destruct (m_bs _ H _ _ E) as (bs' & Hb & _). rewrite Hb. cbn. split; [by intros [= -> ->]|]. intros [[= ->] H']. congruence.
Qed.

Lemma broker_sub_None c f : shaped c -> broker_sub c f = None <-> brokerSubs c !! f = None.
Proof.
  intros H. unfold broker_sub. destruct (brokerSubs c !! f) as [b'|] eqn:E; [|done]. destruct (m_bs _ H _ _ E) as (bs' & Hb & _). by rewrite Hb.
Qed.

(** The trie forgets a broker subscription with the map. *)
Lemma removed_shape c f b bs :
  shaped c -> brokerSubs c !! f = Some b -> h_bsubs c !! b = Some bs ->
  shaped (c <| router := fst (Unregister (router c) (b_trieKey bs) (b_trieID bs)) |> <| brokerSubs ::= delete f |>).
Proof.
  intros H Hf Hb. pose proof H as [H1 H2 H3]. destruct (H1 _ _ Hf) as (bs' & Hb' & Hfl & Hk). replace bs' with bs in * by congruence. clear bs' Hb'.
  set (c' := _ <| brokerSubs ::= _ |>). split; [intros f' b'; change (brokerSubs c') with (delete f (brokerSubs c)); intros [_ ?]%lookup_delete_Some; by apply H1|exact H2|].
  pose proof (holds_unregister (router c) _ (b_trieKey bs) (b_trieID bs) H3) as Hu.
  change (router c') with (fst (Unregister (router c) (b_trieKey bs) (b_trieID bs))).
  destruct (Unregister (router c) (b_trieKey bs) (b_trieID bs)) as [t r]. cbn [fst snd] in *. destruct Hu as [Hu _].
  assert (Hn : nextID t = nextID (router c)) by apply Hu. rewrite Hn. eapply holds_perm; [|exact Hu].
  set (r0 := registration c (f, b)). assert (Hreg : registrations c ≡ₚ r0 :: registrations c').
  { unfold registrations. rewrite <- (insert_delete_id (brokerSubs c) f b) at 1 by done. rewrite map_to_list_insert by apply lookup_delete_eq. done. }
  apply (Permutation_cons_inv (a := r0)). rewrite <- Hreg. symmetry. apply filter_one.
  - apply H3.
  - apply list_elem_of_In. rewrite Hreg. by left.
  - apply is_at_true. unfold r0, registration, trie_id. cbn [r_id r_filter fst snd]. rewrite Hb, Hk. done.
Qed.

(** ** Holders, views and identifiers *)

(** How often each subscription holds each filter. *)
Definition holdings : Type := Z -> list Z -> Z.

Record held_by (h : holdings) (c : client) : Prop := {
  h_count : forall f b bs, brokerSubs c !! f = Some b -> h_bsubs c !! b = Some bs -> forall s, occ s (b_holders bs) = h s f;
  h_covered : forall s f, h s f <> 0 -> is_Some (brokerSubs c !! f);
}.

(** The published views are current, except for the filters [D]. *)
Definition viewed (D : gset (list Z)) (c : client) : Prop :=
  forall f b bs, brokerSubs c !! f = Some b -> h_bsubs c !! b = Some bs -> f ∉ D -> b_view bs = view_of c bs.

(** The identifiers in use: those of broker subscriptions and those an
    UNSUBSCRIBE that is queued, or taken off the queue by the step, reserves. *)
Definition ids_of (c : client) (b : Z) : list Z := default [] (b_ids <$> h_bsubs c !! b).
Definition tags (c : client) : list Z := map_to_list (brokerSubs c) ≫= fun p => ids_of c p.2.
Definition retired_of (c : client) (op : Z) : list Z := default [] (o_retired <$> h_ops c !! op).
Definition reserved (P : gset Z) (c : client) : list Z := (ctrlQueue c ++ elements P) ≫= retired_of c.

Definition positive (m : gmap Z Z) : Prop := forall id n, m !! id = Some n -> 0 < n.

(** [identRefs] counts them. *)
Record counts (P : gset Z) (c : client) : Prop := {
  n_refs : forall id, refs (identRefs c) id = occ id (tags c) + occ id (reserved P c);
  n_positive : positive (identRefs c);
  n_subscribe : forall op o, h_ops c !! op = Some o -> o_kind o = KSubscribe -> o_retired o = [];
}.

(** All of it. *)
Record core_inv (P : gset Z) (h : holdings) (D : gset (list Z)) (c : client) : Prop := {
  i_linked : linked P c;
  i_shaped : shaped c;
  i_held : held_by h c;
  i_viewed : viewed D c;
  i_counts : counts P c;
}.

(** ** One broker subscription changes *)

Lemma upd_bs_at c f b g f' b' :
  shaped c -> brokerSubs c !! f = Some b -> brokerSubs c !! f' = Some b' ->
  h_bsubs (upd_bs b g c) !! b' = if decide (f' = f) then g <$> h_bsubs c !! b' else h_bsubs c !! b'.
Proof.
  intros H Hf Hf'. unfold upd_bs. cbn [h_bsubs update]. destruct (decide (f' = f)) as [->|Hne].
  - replace b' with b by congruence. apply lookup_alter_eq.
  - apply lookup_alter_ne. intros ->. by destruct Hne; eapply shaped_inj.
Qed.

Lemma shape_upd_bs b g c bs : h_bsubs c !! b = Some bs -> bs_shape (g bs) = bs_shape bs -> shape_part (upd_bs b g c) = shape_part c.
Proof.
  intros Hb Hg. unfold shape_part, upd_bs. cbn [brokerSubs h_bsubs router next_bsub update]. do 2 f_equal. f_equal. apply map_eq. intros i.
  rewrite !lookup_fmap. destruct (decide (i = b)) as [->|Hne]; [rewrite lookup_alter_eq, Hb; cbn; by rewrite Hg|by rewrite lookup_alter_ne by congruence].
Qed.

(** The identifiers of the other broker subscriptions. *)
Definition tags_but (f : list Z) (c : client) : list Z := map_to_list (delete f (brokerSubs c)) ≫= fun p => ids_of c p.2.

Lemma tags_split c f b bs : brokerSubs c !! f = Some b -> h_bsubs c !! b = Some bs -> tags c ≡ₚ b_ids bs ++ tags_but f c.
Proof.
  intros Hf Hb. unfold tags, tags_but. rewrite <- (insert_delete_id (brokerSubs c) f b) at 1 by done. rewrite map_to_list_insert by apply lookup_delete_eq.
  cbn. unfold ids_of at 1. by rewrite Hb.
Qed.

Lemma bind_ext_in {A B} (l : list A) (g1 g2 : A -> list B) : (forall x, x ∈ l -> g1 x = g2 x) -> l ≫= g1 = l ≫= g2.
Proof. induction l as [|x l IH]; intros H; [done|]. cbn. rewrite (H x) by by left. f_equal. apply IH. intros y Hy. apply H. by right. Qed.

Lemma tags_but_upd c f b g : shaped c -> brokerSubs c !! f = Some b -> tags_but f (upd_bs b g c) = tags_but f c.
Proof.
  intros H Hf. unfold tags_but. change (brokerSubs (upd_bs b g c)) with (brokerSubs c). apply bind_ext_in. intros [f' b'] [Hne Hf']%elem_of_map_to_list%lookup_delete_Some.
  unfold ids_of. cbn [snd]. rewrite (upd_bs_at c f b g f' b') by done. by rewrite decide_False by congruence.
Qed.

Lemma bs_updated P h D c f b bs g m h' :
  core_inv P h D c -> brokerSubs c !! f = Some b -> h_bsubs c !! b = Some bs -> bs_shape (g bs) = bs_shape bs ->
  (forall s, occ s (b_holders (g bs)) = h' s f) -> (forall s f', f' <> f -> h' s f' = h s f') ->
  (forall id, refs m id = refs (identRefs c) id - occ id (b_ids bs) + occ id (b_ids (g bs))) -> positive m ->
  core_inv P h' ({[f]} ∪ D) ((upd_bs b g c) <| identRefs := m |>).
Proof.
  intros [L H Hh V N] Hf Hb Hs Hhs Hh' Hm Hpos. set (c' := _ <| identRefs := m |>).
  assert (Hbs : h_bsubs c' !! b = Some (g bs)) by (transitivity (g <$> h_bsubs c !! b); [apply lookup_alter_eq|by rewrite Hb]).
  split.
  - by apply (linked_frame _ c).
  - apply (shaped_frame c); [|done]. transitivity (shape_part (upd_bs b g c)); [done|by apply (shape_upd_bs _ _ _ bs)].
  - split.
    + intros f1 b1 bs1 Hf1 Hb1 s. destruct (decide (f1 = f)) as [->|Hne].
      * replace b1 with b in * by (change (brokerSubs c' !! f) with (brokerSubs c !! f) in Hf1; congruence). replace bs1 with (g bs) by congruence. apply Hhs.
      * rewrite Hh' by done. change (brokerSubs c' !! f1) with (brokerSubs c !! f1) in Hf1. apply (h_count _ _ Hh f1 b1); [done|].
        change (h_bsubs c' !! b1) with (h_bsubs (upd_bs b g c) !! b1) in Hb1. by rewrite (upd_bs_at c f b g f1 b1), decide_False in Hb1.
    + intros s f1 H1. destruct (decide (f1 = f)) as [->|Hne]; [by exists b|]. rewrite Hh' in H1 by done. by apply (h_covered _ _ Hh s).
  - intros f1 b1 bs1 Hf1 Hb1 [Hne HD]%not_elem_of_union. rewrite not_elem_of_singleton in Hne. change (brokerSubs c' !! f1) with (brokerSubs c !! f1) in Hf1.
    change (h_bsubs c' !! b1) with (h_bsubs (upd_bs b g c) !! b1) in Hb1. rewrite (upd_bs_at c f b g f1 b1), decide_False in Hb1 by done.
    exact (V f1 b1 bs1 Hf1 Hb1 HD).
  - split; [|exact Hpos|exact (n_subscribe _ _ N)]. intros id. change (identRefs c') with m. rewrite Hm, (n_refs _ _ N).
    change (tags c') with (tags (upd_bs b g c)). change (reserved P c') with (reserved P c).
    rewrite (tags_split c f b bs Hf Hb), (tags_split (upd_bs b g c) f b (g bs) Hf Hbs), tags_but_upd by done. rewrite !occ_app. lia.
Qed.

Lemma set_refs_same c : c <| identRefs := identRefs c |> = c.
Proof. by destruct c. Qed.

(** ... without a change of its identifiers. *)
Lemma bs_updated_same P h D c f b bs g h' :
  core_inv P h D c -> brokerSubs c !! f = Some b -> h_bsubs c !! b = Some bs -> bs_shape (g bs) = bs_shape bs ->
  (forall s, occ s (b_holders (g bs)) = h' s f) -> (forall s f', f' <> f -> h' s f' = h s f') -> b_ids (g bs) = b_ids bs ->
  core_inv P h' ({[f]} ∪ D) (upd_bs b g c).
Proof.
  intros I Hf Hb Hs Hh Hh' Hids. rewrite <- (set_refs_same (upd_bs b g c)). change (identRefs (upd_bs b g c)) with (identRefs c).
  apply (bs_updated P h D c f b bs); try done; [|apply (i_counts _ _ _ _ I)]. intros id. rewrite Hids. lia.
Qed.

(** [publishLocked] *)
Lemma published P h D c f b : core_inv P h D c -> brokerSubs c !! f = Some b -> core_inv P h (D ∖ {[f]}) (publishLocked c b).
Proof.
  intros I Hf. destruct (m_bs _ (i_shaped _ _ _ _ I) _ _ Hf) as (bs & Hb & _).
  set (c' := publishLocked c b). assert (I2 : core_inv P h ({[f]} ∪ D) c').
  { apply (bs_updated_same P h D c f b bs); try done. exact (h_count _ _ (i_held _ _ _ _ I) _ _ _ Hf Hb). }
  destruct I2 as [L H Hh V N]. split; try assumption.
  intros f1 b1 bs1 Hf1 Hb1 HD. destruct (decide (f1 = f)) as [->|Hne].
  - change (brokerSubs c' !! f) with (brokerSubs c !! f) in Hf1. replace b1 with b in * by congruence.
    assert (Hb2 : h_bsubs c' !! b = Some (bs <| b_view := view_of c bs |>)) by (transitivity ((fun bs => bs <| b_view := view_of c bs |>) <$> h_bsubs c !! b); [apply lookup_alter_eq|by rewrite Hb]).
    rewrite Hb1 in Hb2. injection Hb2 as ->. done.
  - apply (V f1 b1 bs1 Hf1 Hb1). rewrite elem_of_union, elem_of_singleton. intros [?|?]; [done|]. apply HD, elem_of_difference. by rewrite elem_of_singleton.
Qed.

(** ** Counting references *)

Lemma refs_incr m id x : refs (incr_ref id m) x = refs m x + if decide (x = id) then 1 else 0.
Proof.
  unfold incr_ref. unfold refs at 1. destruct (decide (x = id)) as [->|Hne]; [by rewrite lookup_insert_eq|]. rewrite lookup_insert_ne by congruence. fold (refs m x). lia.
Qed.

Lemma refs_nonneg m x : positive m -> 0 <= refs m x.
Proof. intros H. unfold refs. destruct (m !! x) as [n|] eqn:E; cbn; [|lia]. apply H in E. lia. Qed.

Lemma positive_incr m id : positive m -> positive (incr_ref id m).
Proof. intros H x n. unfold incr_ref. pose proof (refs_nonneg m id H). intros [[_ <-]|[_ ?]]%lookup_insert_Some; [lia|by eapply H]. Qed.

Lemma refs_release m id x : positive m -> 1 <= refs m id -> refs (release_ident m id) x = refs m x - if decide (x = id) then 1 else 0.
Proof.
  intros H Hid. unfold release_ident. destruct (Z.leb_spec (refs m id - 1) 0); unfold refs at 1; destruct (decide (x = id)) as [->|Hne].
  - rewrite lookup_delete_eq. cbn. lia.
  - rewrite lookup_delete_ne by congruence. fold (refs m x). lia.
  - by rewrite lookup_insert_eq.
  - rewrite lookup_insert_ne by congruence. fold (refs m x). lia.
Qed.

Lemma positive_release m id : positive m -> positive (release_ident m id).
Proof.
  intros H x n. unfold release_ident. destruct (Z.leb_spec (refs m id - 1) 0).
  - intros [_ ?]%lookup_delete_Some. by eapply H.
  - intros [[_ <-]|[_ ?]]%lookup_insert_Some; [lia|by eapply H].
Qed.

Lemma refs_releases l : forall m, positive m -> (forall x, occ x l <= refs m x) ->
  positive (foldl release_ident m l) /\ forall x, refs (foldl release_ident m l) x = refs m x - occ x l.
Proof.
  induction l as [|id l IH]; intros m H Hl; cbn [foldl]; [split; [done|]; intros x; rewrite occ_nil; lia|].
  assert (Hid : 1 <= refs m id) by (pose proof (Hl id) as H1; rewrite occ_cons, decide_True in H1 by done; pose proof (occ_nonneg id l); lia).
  destruct (IH (release_ident m id)) as [H1 H2].
  - by apply positive_release.
  - intros x. rewrite refs_release by done. specialize (Hl x). rewrite occ_cons in Hl. destruct (decide (x = id)); lia.
  - split; [done|]. intros x. rewrite H2, refs_release, occ_cons by done. lia.
Qed.

(** What a broker subscription carries is counted. *)
Lemma counted_ids P h D c f b bs x : core_inv P h D c -> brokerSubs c !! f = Some b -> h_bsubs c !! b = Some bs -> occ x (b_ids bs) <= refs (identRefs c) x.
Proof.
  intros I Hf Hb. rewrite (n_refs _ _ (i_counts _ _ _ _ I)), (tags_split c f b bs Hf Hb), occ_app.
  pose proof (occ_nonneg x (tags_but f c)). pose proof (occ_nonneg x (reserved P c)). lia.
Qed.

Lemma viewed_weaken D D' c : (forall f, f ∈ D -> f ∈ D') -> viewed D c -> viewed D' c.
Proof. intros H V f b bs Hf Hb HD. apply (V f b bs Hf Hb). auto. Qed.

Lemma core_weaken P h D D' c : (forall f, f ∈ D -> f ∈ D') -> core_inv P h D c -> core_inv P h D' c.
Proof. intros H []. split; try assumption. by eapply viewed_weaken. Qed.

(** After a change and its publication no more is dirty than before. *)
Lemma republished P h D c f b : core_inv P h ({[f]} ∪ D) c -> brokerSubs c !! f = Some b -> core_inv P h (D ∖ {[f]}) (publishLocked c b).
Proof. intros I Hf. eapply core_weaken; [|exact (published _ _ _ _ _ _ I Hf)]. intros f'. rewrite !elem_of_difference, elem_of_union, elem_of_singleton. tauto. Qed.

Lemma republished_same P h D c f b : core_inv P h ({[f]} ∪ D) c -> brokerSubs c !! f = Some b -> core_inv P h D (publishLocked c b).
Proof. intros I Hf. eapply core_weaken; [|exact (republished _ _ _ _ _ _ I Hf)]. intros f' [? _]%elem_of_difference. done. Qed.

(** ** Tags *)

Lemma tag_core P h D c ident f b :
  core_inv P h D c -> brokerSubs c !! f_Topic f = Some b ->
  exists c', tag_filter ident (Some c) f = Some c' /\ core_inv P h (D ∖ {[f_Topic f]}) c' /\ brokerSubs c' = brokerSubs c
    /\ forall x, x <> ident -> identRefs c' !! x = identRefs c !! x.
Proof.
  intros I Hf. pose proof (i_shaped _ _ _ _ I) as H. destruct (m_bs _ H _ _ Hf) as (bs & Hb & _). cbn [tag_filter].
  rewrite (proj2 (broker_sub_Some c _ b bs H) (conj Hf Hb)). eexists. split; [done|]. split; [|split; [done|]].
  - apply (republished _ _ _ _ (f_Topic f)); [|exact Hf]. apply (bs_updated P h D c (f_Topic f) b bs (issue ident) (incr_ref ident (identRefs c)) h); try done.
    + exact (h_count _ _ (i_held _ _ _ _ I) _ _ _ Hf Hb).
    + intros x. change (b_ids (issue ident bs)) with (b_ids bs ++ [ident]). rewrite refs_incr, occ_app, occ_singleton. lia.
    + apply positive_incr. apply (i_counts _ _ _ _ I).
  - intros x Hx. by apply lookup_insert_ne.
Qed.

Lemma untag_core P h D c ident f : core_inv P h D c -> core_inv P h D (untag_filter ident c f).
Proof.
  intros I. pose proof (i_shaped _ _ _ _ I) as H. unfold untag_filter. destruct (broker_sub c (f_Topic f)) as [[b bs]|] eqn:E; [|done].
  apply broker_sub_Some in E as [Hf Hb]; [|done]. destruct (Index (b_ids bs) ident) as [i|] eqn:Hi; [|done].
  apply (republished_same _ _ _ _ (f_Topic f)); [|exact Hf].
  assert (Hin : 1 <= refs (identRefs c) ident).
  { pose proof (counted_ids _ _ _ _ _ _ _ ident I Hf Hb). assert (0 < occ ident (b_ids bs)); [|lia]. apply occ_pos. destruct (Index_Some _ _ _ Hi) as (l1 & l2 & -> & _). apply elem_of_app. right. by left. }
  apply (bs_updated P h D c (f_Topic f) b bs (fun bs => bs <| b_ids ::= fun l => Delete l i (S i) |>) (release_ident (identRefs c) ident) h); try done.
  - exact (h_count _ _ (i_held _ _ _ _ I) _ _ _ Hf Hb).
  - intros x. rewrite refs_release by (done || apply (i_counts _ _ _ _ I)).
    change (b_ids (bs <| b_ids ::= fun l => Delete l i (S i) |>)) with (Delete (b_ids bs) i (S i)). rewrite (occ_Delete _ _ _ _ Hi). lia.
  - apply positive_release. apply (i_counts _ _ _ _ I).
Qed.

(** ** What none of this depends on *)

Definition bs_quiet (b : brokerSub) := (bs_shape b, b_holders b, b_ids b, b_issued b, b_view b).

Definition op_reserve (o : ctrlOp) := (o_kind o, o_retired o).

Definition rest_part (c : client) :=
  (brokerSubs c, bs_quiet <$> h_bsubs c, router c, next_bsub c, s_route <$> h_subs c, identRefs c, ctrlQueue c, op_reserve <$> h_ops c).
Definition core_part (c : client) := (link_part c, rest_part c).

Lemma view_of_ext c c' b b' :
  s_route <$> h_subs c' = s_route <$> h_subs c -> b_ids b' = b_ids b -> b_issued b' = b_issued b -> b_holders b' = b_holders b -> view_of c' b' = view_of c b.
Proof.
  intros E H1 H2 H3. unfold view_of. rewrite H1, H2, H3. f_equal. generalize (b_holders b) as l. generalize (@nil Z) as acc.
  intros acc l. revert acc. induction l as [|x l IH]; intros acc; [done|]. cbn [foldl]. rewrite <- IH. f_equal. unfold add_route.
  assert (H : (s_route <$> h_subs c') !! x = (s_route <$> h_subs c) !! x) by by rewrite E. rewrite !lookup_fmap in H.
  destruct (h_subs c' !! x), (h_subs c !! x); cbn in H; try done. by injection H as ->.
Qed.

Lemma default_fmap_ext {A B} (g : A -> list B) (m m' : gmap Z A) k : g <$> m' = g <$> m -> default [] (g <$> m' !! k) = default [] (g <$> m !! k).
Proof. intros E. rewrite <- !lookup_fmap. by rewrite E. Qed.

Lemma fmap_weaken {A B C} (g : A -> B) (p : B -> C) (m m' : gmap Z A) : g <$> m' = g <$> m -> (p ∘ g) <$> m' = (p ∘ g) <$> m.
Proof. intros E. by rewrite !map_fmap_compose, E. Qed.

(** The links may change, the rest is as before. *)
Lemma core_relink P h D c c' : rest_part c' = rest_part c -> linked P c' -> core_inv P h D c -> core_inv P h D c'.
Proof.
  unfold rest_part. intros E L'. injection E as E1 E2 E3 E4 E5 E6 E7 E8. intros [_ H Hh V N].
  assert (Hb : forall b bs, h_bsubs c' !! b = Some bs -> exists bs', h_bsubs c !! b = Some bs' /\ bs_quiet bs' = bs_quiet bs) by (intros b bs; by apply fmap_Some_core).
  assert (Hids : forall b, ids_of c' b = ids_of c b).
  { intros b. unfold ids_of. apply default_fmap_ext. exact (fmap_weaken bs_quiet (fun q => snd (fst (fst q))) _ _ E2). }
  split; [done| | | |].
  - apply (shaped_frame c); [|done]. unfold shape_part. rewrite E1, E3, E4. do 2 f_equal. f_equal. exact (fmap_weaken bs_quiet (fun q => fst (fst (fst (fst q)))) _ _ E2).
  - split; [|intros s f; rewrite E1; apply (h_covered _ _ Hh)]. intros f b bs Hf Hbs s. rewrite E1 in Hf. destruct (Hb _ _ Hbs) as (bs' & Hbs' & Hq).
    unfold bs_quiet in Hq. rewrite <- (h_count _ _ Hh f b bs' Hf Hbs' s). congruence.
  - intros f b bs Hf Hbs HD. rewrite E1 in Hf. destruct (Hb _ _ Hbs) as (bs' & Hbs' & Hq). unfold bs_quiet in Hq.
    rewrite (view_of_ext c c' bs' bs) by (done || congruence). rewrite <- (V f b bs' Hf Hbs' HD). congruence.
  - assert (Ht : tags c' = tags c) by (unfold tags; rewrite E1; apply bind_ext_in; intros p _; apply Hids).
    assert (Hr : reserved P c' = reserved P c) by (unfold reserved; rewrite E7; apply bind_ext_in; intros p _; apply default_fmap_ext; exact (fmap_weaken op_reserve snd _ _ E8)).
    destruct N as [N1 N2 N3]. split; [intros id; by rewrite E6, Ht, Hr|by rewrite E6|].
    intros op o Ho Hk. destruct (fmap_Some_core op_reserve _ _ _ _ E8 Ho) as (o' & Ho' & Hr'). unfold op_reserve in Hr'. injection Hr' as H1 H2. rewrite <- H2. apply (N3 op o' Ho'). congruence.
Qed.

Lemma core_frame P h D c c' : core_part c' = core_part c -> core_inv P h D c -> core_inv P h D c'.
Proof.
  unfold core_part. intros E I. assert (E1 : link_part c' = link_part c) by congruence. assert (E2 : rest_part c' = rest_part c) by congruence.
  apply (core_relink P h D c); [done| |done]. by apply (linked_frame _ c); [|apply I].
Qed.

(** ** Holders *)

(** One holding more, and one less. *)
Definition plus (h : holdings) (s : Z) (f : list Z) : holdings := fun s' f' => if decide (s' = s /\ f' = f) then h s' f' + 1 else h s' f'.
Definition minus (h : holdings) (s : Z) (f : list Z) : holdings := fun s' f' => if decide (s' = s /\ f' = f) then Z.max 0 (h s' f' - 1) else h s' f'.

Lemma held_ext h h' c : (forall s f, h s f = h' s f) -> held_by h c -> held_by h' c.
Proof. intros E []. split; [intros; rewrite <- E; eauto|intros s f; rewrite <- E; eauto]. Qed.

Lemma core_ext P h h' D c : (forall s f, h s f = h' s f) -> core_inv P h D c -> core_inv P h' D c.
Proof. intros E []. split; try assumption. by eapply held_ext. Qed.

Lemma held_zero h c s f : held_by h c -> brokerSubs c !! f = None -> h s f = 0.
Proof. intros H Hf. destruct (decide (h s f = 0)) as [|Hn]; [done|]. apply (h_covered _ _ H) in Hn as [b Hb]. congruence. Qed.

(** Removing the first [sub] of the holders, if there is one. *)
Lemma minus_holders P h D c f b bs sub :
  core_inv P h D c -> brokerSubs c !! f = Some b -> h_bsubs c !! b = Some bs ->
  match Index (b_holders bs) sub with
  | Some i => forall s, occ s (Delete (b_holders bs) i (S i)) = minus h sub f s f
  | None => forall s f', h s f' = minus h sub f s f'
  end.
Proof.
  intros I Hf Hb. pose proof (h_count _ _ (i_held _ _ _ _ I) _ _ _ Hf Hb) as Hc. destruct (Index (b_holders bs) sub) as [i|] eqn:Hi.
  - intros s. rewrite (occ_Delete _ _ _ _ Hi), Hc. unfold minus. destruct (decide (s = sub)) as [->|Hne].
    + rewrite decide_True by done. assert (0 < occ sub (b_holders bs)); [|rewrite Hc in *; lia]. apply occ_pos.
      destruct (Index_Some _ _ _ Hi) as (l1 & l2 & -> & _). apply elem_of_app. right. by left.
    + rewrite decide_False by tauto. lia.
  - intros s f'. unfold minus. destruct (decide _) as [[-> ->]|]; [|done]. apply Index_None, occ_zero in Hi. rewrite Hc in Hi. lia.
Qed.

Lemma minus_other h s f s' f' : f' <> f -> minus h s f s' f' = h s' f'.
Proof. intros. unfold minus. by rewrite decide_False by tauto. Qed.

(** [dropHolderLocked] *)
Lemma drop_core P h D c sub f : core_inv P h D c -> core_inv P (minus h sub f) D (dropHolderLocked sub c f).
Proof.
  intros I. pose proof (i_shaped _ _ _ _ I) as H. unfold dropHolderLocked. destruct (broker_sub c f) as [[b bs]|] eqn:E.
  - apply broker_sub_Some in E as [Hf Hb]; [|done]. pose proof (minus_holders _ _ _ _ _ _ _ sub I Hf Hb) as Hm.
    destruct (Index (b_holders bs) sub) as [i|] eqn:Hi; [|by eapply core_ext].
    apply (republished_same _ _ _ _ f); [|exact Hf]. apply (bs_updated_same P h D c f b bs); try done. intros s f' Hne. by apply minus_other.
  - apply broker_sub_None in E; [|done]. eapply core_ext; [|exact I]. intros s f'. unfold minus. destruct (decide _) as [[-> ->]|]; [|done].
    rewrite (held_zero _ _ _ _ (i_held _ _ _ _ I) E). done.
Qed.

(** The filters a subscription no longer holds. *)
Definition minus_all (h : holdings) (s : Z) (fs : list TopicFilter) : holdings := foldl (fun h f => minus h s (f_Topic f)) h fs.

Lemma drops_core P D sub (fs : list TopicFilter) : forall h c,
  core_inv P h D c -> core_inv P (minus_all h sub fs) D (foldl (fun c f => dropHolderLocked sub c (f_Topic f)) c fs).
Proof. induction fs as [|f fs IH]; intros h c I; [done|]. apply IH. by apply drop_core. Qed.

Lemma minus_all_spec sub (fs : list TopicFilter) : forall h s f,
  (forall f, 0 <= h sub f) ->
  minus_all h sub fs s f = if decide (s = sub) then Z.max 0 (h sub f - occ f (f_Topic <$> fs)) else h s f.
Proof.
  induction fs as [|g fs IH]; intros h s f H0; cbn [minus_all foldl fmap list_fmap].
  - rewrite occ_nil. specialize (H0 f). destruct (decide (s = sub)) as [->|]; lia.
  - unfold minus_all in IH. cbn [foldl]. rewrite IH; [|intros f'; unfold minus; specialize (H0 f'); destruct (decide _); lia].
    cbn [fmap list_fmap]. rewrite occ_cons. specialize (H0 f). pose proof (occ_nonneg f (f_Topic <$> fs)). unfold minus.
    destruct (decide (s = sub)) as [->|]; [|rewrite decide_False by tauto; done].
    destruct (decide (f = f_Topic g)) as [->|]; [rewrite decide_True by done|rewrite decide_False by tauto]; lia.
Qed.

(** ** Subscriptions close *)

(** How often the live subscriptions name each filter. *)
Definition topics (a : activeSub) : list (list Z) := f_Topic <$> s_filters a.
Definition held (c : client) : holdings := fun s f =>
  match h_subs c !! s with
  | Some a => if decide (live a) then occ f (topics a) else 0
  | None => 0
  end.

Lemma held_nonneg c s f : 0 <= held c s f.
Proof. unfold held. destruct (h_subs c !! s); [|done]. destruct (decide _); [apply occ_nonneg|done]. Qed.

Lemma held_frame c c' s f : sub_core <$> h_subs c' = sub_core <$> h_subs c -> held c' s f = held c s f.
Proof.
  intros E. unfold held. assert (H : (sub_core <$> h_subs c') !! s = (sub_core <$> h_subs c) !! s) by by rewrite E. rewrite !lookup_fmap in H.
  destruct (h_subs c' !! s) as [a|], (h_subs c !! s) as [a0|]; cbn in H; try done. unfold sub_core in H. injection H as H1 H2 H3.
  unfold topics. rewrite H3. destruct (decide (live a)) as [l|l], (decide (live a0)) as [l0|l0]; [done|by destruct l0; unfold live; rewrite <- H1|by destruct l; unfold live; rewrite H1|done].
Qed.

(** Between steps. *)
Definition core_ok (P : gset Z) (c : client) : Prop := core_inv P (held c) ∅ c.

Lemma core_ok_frame P c c' : core_part c' = core_part c -> core_ok P c -> core_ok P c'.
Proof.
  intros E I. unfold core_ok. eapply core_ext; [|by eapply core_frame]. intros s f. symmetry. apply held_frame. unfold core_part, link_part in E. congruence.
Qed.

Lemma drops_subs sub (fs : list TopicFilter) c : h_subs (foldl (fun c f => dropHolderLocked sub c (f_Topic f)) c fs) = h_subs c.
Proof.
  apply (foldl_frame h_subs (fun c f => dropHolderLocked sub c (f_Topic f))). intros d f. unfold dropHolderLocked.
  destruct (broker_sub d (f_Topic f)) as [[b bs]|]; [|done]. by destruct (Index _ _).
Qed.

(** [closeSubLocked] *)
Lemma close_sub_core P c sub err : core_ok P c -> core_ok P (closeSubLocked c sub err).
Proof.
  intros I. unfold closeSubLocked. destruct (h_subs c !! sub) as [a|] eqn:Ha; [|done]. destruct (decide _) as [|Hl]; [done|].
  set (c1 := _ <| activeSubs ::= _ |>). assert (I1 : core_inv P (held c) ∅ c1).
  { apply (core_relink P _ _ c); [|apply closed_links; [done|apply I]|done]. unfold rest_part, c1, upd_sub. cbn [brokerSubs h_bsubs router next_bsub h_subs identRefs ctrlQueue h_ops update].
    by rewrite (fmap_alter_same s_route). }
  apply (drops_core P ∅ sub (s_filters a)) in I1. pose proof (drops_subs sub (s_filters a) c1) as Hs. set (c2 := foldl _ c1 _) in *.
  assert (I2 : core_inv P (minus_all (held c) sub (s_filters a)) ∅ (close_route c2 (s_route a))) by (apply (core_frame P _ _ c2); done).
  unfold core_ok. eapply core_ext; [|exact I2]. intros s f. rewrite minus_all_spec by (intros; apply held_nonneg).
  unfold held. change (h_subs (close_route c2 (s_route a))) with (h_subs c2). rewrite Hs.
  change (h_subs c1) with (h_subs (upd_sub sub (fun s => s <| s_state := subClosed |> <| s_err := err |>) c)). rewrite upd_sub_lookup.
  destruct (decide (s = sub)) as [->|]; [|done]. rewrite Ha. cbn [fmap option_fmap option_map]. rewrite decide_True by done.
  rewrite decide_False by (unfold live; cbn; tauto). unfold topics. lia.
Qed.

(** ** Operations move between the queue and a step *)

Lemma elements_add (op : Z) (P : gset Z) : op ∉ P -> elements ({[op]} ∪ P) ≡ₚ op :: elements P.
Proof. intros H. by apply elements_union_singleton. Qed.

Lemma elements_remove (op : Z) (P : gset Z) : op ∈ P -> elements P ≡ₚ op :: elements (P ∖ {[op]}).
Proof. intros H. rewrite <- elements_union_singleton by (rewrite elem_of_difference, elem_of_singleton; tauto). f_equiv. by apply union_difference_singleton. Qed.

(** The queue and the operations in hand, in another order. *)
Lemma moved_core P P' h D c c' :
  core_inv P h D c -> linked P' c' ->
  (brokerSubs c', bs_quiet <$> h_bsubs c', router c', next_bsub c', s_route <$> h_subs c', identRefs c', op_reserve <$> h_ops c')
  = (brokerSubs c, bs_quiet <$> h_bsubs c, router c, next_bsub c, s_route <$> h_subs c, identRefs c, op_reserve <$> h_ops c) ->
  ctrlQueue c' ++ elements P' ≡ₚ ctrlQueue c ++ elements P -> core_inv P' h D c'.
Proof.
  intros I L E Hp. set (d := c' <| ctrlQueue := ctrlQueue c |>).
  assert (Ld : linked P' d) by (by apply (linked_frame _ c')).
  assert (Id : core_inv P' h D (d <| ctrlQueue := ctrlQueue c' |>)).
  { destruct I as [L0 H Hh V N].
    assert (I' : core_inv P' h D (c <| ctrlQueue := ctrlQueue c' |> <| h_ops := h_ops c' |> <| h_subs := h_subs c' |> <| activeSubs := activeSubs c' |>)).
    { split; [by apply (linked_frame _ c')|by apply (shaped_frame c)|by split; apply Hh| |].
      - intros f b bs Hf Hb HD. rewrite (V f b bs Hf Hb HD). symmetry. apply view_of_ext; try done. cbn [h_subs update]. congruence.
      - destruct N as [N1 N2 N3]. split; [|done|].
        + intros id. change (identRefs _) with (identRefs c) at 1. change (tags _) with (tags c) at 1. rewrite N1. f_equal.
          unfold reserved. cbn [ctrlQueue update]. rewrite Hp. f_equal. apply bind_ext_in. intros x _. unfold retired_of. cbn [h_ops update].
          symmetry. apply default_fmap_ext. refine (fmap_weaken op_reserve snd _ _ _). congruence.
        + intros op o Ho Hk. cbn [h_ops update] in Ho. destruct (fmap_Some_core op_reserve (h_ops c) (h_ops c') op o ltac:(congruence) Ho) as (o' & Ho' & Hr').
          unfold op_reserve in Hr'. injection Hr' as H1 H2. rewrite <- H2. apply (N3 op o' Ho'). congruence. }
    eapply core_relink; [|by apply (linked_frame _ c')|exact I']. unfold rest_part. cbn [brokerSubs h_bsubs router next_bsub h_subs identRefs ctrlQueue h_ops update d]. congruence. }
  eapply core_frame; [|exact Id]. done.
Qed.

(** [dequeueLocked] *)
Lemma dequeue_core P R S U W h D c op :
  queue_inv (ctrlQueue c) P R S U W c -> op ∉ S -> core_inv P h D c ->
  match dequeueLocked c op with
  | (c', Some _) => core_inv ({[op]} ∪ P) h D c'
  | (c', None) => c' = c
  end.
Proof.
  intros I HS Ic. pose proof (dequeue_inv _ _ _ _ _ _ op I HS) as H. unfold dequeueLocked in *. destruct (h_ops c !! op) as [o|] eqn:Ho; [|done].
  destruct (o_queued o) eqn:Hq; cbn [negb] in *; [|done]. set (c1 := upd_op op (fun o => o <| o_queued := false |>) c) in *.
  change (ctrlQueue c1) with (ctrlQueue c) in *.
  assert (Hnp : op ∉ P).
  { intros Hp. destruct (a_taken _ _ _ _ _ _ _ I _ Hp) as (k & Hk & Hf & _). rewrite ops_lookup, Ho in Hk. injection Hk as <-. cbn in Hf. congruence. }
  assert (Hin : op ∈ ctrlQueue c) by (apply (a_queued _ _ _ _ _ _ _ I); exists (acore o); by rewrite ops_lookup, Ho).
  destruct (Index_elem _ _ Hin) as [i Hi]. rewrite Hi in *. set (c2 := c1 <| ctrlQueue ::= _ |>) in *.
  assert (I2 : core_inv ({[op]} ∪ P) h D c2).
  { apply (moved_core P _ h D c); [done| | |].
    - apply (linked_frame _ c1); [done|]. apply (unqueued_links _ _ _ o); [apply Ic|done|by left].
    - unfold c2, c1, upd_op. cbn [brokerSubs h_bsubs router next_bsub h_subs identRefs h_ops update]. by rewrite (fmap_alter_same op_reserve).
    - change (ctrlQueue c2) with (Delete (ctrlQueue c) i (Datatypes.S i)). rewrite elements_add by done.
      rewrite (Delete_perm _ _ _ Hi) at 2. cbn. by rewrite <- Permutation_middle. }
  clearbody c2. unfold unregisterLocked. destruct (h_ops c2 !! op) as [o2|]; [|done].
  assert (I3 : core_inv ({[op]} ∪ P) h D (upd_op op (fun o => o <| o_id := 0 |> <| o_conn := None |>) c2)).
  { apply (core_frame _ _ _ c2); [|done]. unfold core_part, rest_part. rewrite upd_op_links by done. unfold upd_op. cbn [brokerSubs h_bsubs router next_bsub h_subs identRefs ctrlQueue h_ops update].
    by rewrite (fmap_alter_same op_reserve). }
  destruct (_ || _); [done|]. by apply (core_frame _ _ _ (upd_op op (fun o => o <| o_id := 0 |> <| o_conn := None |>) c2)).
Qed.

Lemma upd_op_core op f c : (forall o, op_core (f o) = op_core o) -> (forall o, op_reserve (f o) = op_reserve o) -> core_part (upd_op op f c) = core_part c.
Proof.
  intros H1 H2. unfold core_part, rest_part. rewrite upd_op_links by done. unfold upd_op.
  cbn [brokerSubs h_bsubs router next_bsub h_subs identRefs ctrlQueue h_ops update]. by rewrite (fmap_alter_same op_reserve).
Qed.

Lemma complete_core P h D c op r : core_inv P h D c -> core_inv P h D (complete c op r).
Proof. apply core_frame. by apply upd_op_core. Qed.

Lemma release_for_part c op id : core_part (release_for c op id) = core_part c.
Proof. unfold release_for. destruct (h_ops c !! op); [by destruct (_ =? 0)|done]. Qed.

(** [enqueue] *)
Lemma enqueue_core P h D c op : core_inv P h D c -> op ∈ P -> core_inv (P ∖ {[op]}) h D (enqueue c op).
Proof.
  intros I Hp. apply (moved_core P _ h D c); [done|apply enqueued_links; [apply I|done]| |].
  - unfold enqueue, upd_op. cbn [brokerSubs h_bsubs router next_bsub h_subs identRefs h_ops update]. by rewrite (fmap_alter_same op_reserve).
  - change (ctrlQueue (enqueue c op)) with (ctrlQueue c ++ [op]). rewrite (elements_remove op P Hp), <- app_assoc. done.
Qed.

(** What a taken operation reserves. *)
Lemma reserved_taken P c op o : op ∈ P -> h_ops c !! op = Some o -> reserved P c ≡ₚ o_retired o ++ reserved (P ∖ {[op]}) c.
Proof.
  intros Hp Ho. unfold reserved. rewrite (elements_remove op P Hp), <- Permutation_middle. cbn. unfold retired_of at 1. rewrite Ho. done.
Qed.

(** A step is done with a SUBSCRIBE nobody waits for. *)
Lemma dropped_core P h D c op o :
  core_inv P h D c -> op ∈ P -> h_ops c !! op = Some o -> o_kind o = KSubscribe ->
  (exists a, h_subs c !! o_sub o = Some a /\ ~ live a) -> core_inv (P ∖ {[op]}) h D c.
Proof.
  intros [L H Hh V N] Hp Ho Hk Hn. split; [|done..|].
  - apply dropped_links; [done|]. intros o' Ho' _. by replace o' with o by congruence.
  - destruct N as [N1 N2 N3]. split; [|done|done]. intros id. rewrite N1, (reserved_taken P c op o Hp Ho), (N3 op o Ho Hk). done.
Qed.

(** [unretireLocked] *)
Lemma unretire_core P h D c op o :
  core_inv P h D c -> op ∈ P -> h_ops c !! op = Some o -> o_kind o = KUnsubscribe -> core_inv (P ∖ {[op]}) h D (unretireLocked c op).
Proof.
  intros [L H Hh V N] Hp Ho Hk. destruct N as [N1 N2 N3].
  assert (Hle : forall x, occ x (o_retired o) <= refs (identRefs c) x).
  { intros x. rewrite N1, (reserved_taken P c op o Hp Ho), occ_app. pose proof (occ_nonneg x (tags c)). pose proof (occ_nonneg x (reserved (P ∖ {[op]}) c)). lia. }
  destruct (refs_releases (o_retired o) (identRefs c) N2 Hle) as [Hpos Hrefs].
  assert (I1 : core_inv (P ∖ {[op]}) h D (releaseIdentsLocked c (o_retired o))).
  { split; [|by apply (shaped_frame c)|by split; apply Hh|exact V|].
    - apply (linked_frame _ c); [done|]. apply dropped_links; [done|]. intros o' Ho' Hk'. congruence.
    - split; [|exact Hpos|exact N3]. intros id. change (identRefs (releaseIdentsLocked c (o_retired o))) with (foldl release_ident (identRefs c) (o_retired o)).
      rewrite Hrefs, N1, (reserved_taken P c op o Hp Ho), occ_app. change (tags (releaseIdentsLocked c (o_retired o))) with (tags c).
      change (reserved (P ∖ {[op]}) (releaseIdentsLocked c (o_retired o))) with (reserved (P ∖ {[op]}) c). lia. }
  unfold unretireLocked. rewrite Ho. change (retiring (releaseIdentsLocked c (o_retired o))) with (retiring c). destruct (retiring c); [|done]. destruct (_ =? 0); [done|].
  by apply (core_frame _ _ _ (releaseIdentsLocked c (o_retired o))).
Qed.

(** ** Subscribing *)

Lemma u64_id x : 0 <= x < 2 ^ 64 -> u64 x = x.
Proof. intros. unfold u64. by apply Z.mod_small. Qed.

Lemma lookup_alter_at {A} (g : A -> A) (k i : Z) (m : gmap Z A) : alter g k m !! i = if decide (i = k) then g <$> m !! k else m !! i.
Proof. destruct (decide (i = k)) as [->|]; [apply lookup_alter_eq|by rewrite lookup_alter_ne by congruence]. Qed.

(** A broker subscription is made for a filter that has none. *)
Lemma new_bsub_core P h D c f :
  core_inv P h D c -> brokerSubs c !! f = None -> nextID (router c) + 1 < 2 ^ 64 ->
  let (c', b) := brokerSubLocked c f in
  core_inv P h D c' /\ brokerSubs c' = <[f := b]> (brokerSubs c) /\ nextID (router c') = nextID (router c) + 1.
Proof.
  intros [L H Hh V N] Hf Hn. unfold brokerSubLocked. rewrite Hf. pose proof H as [H1 H2 H3].
  pose proof (holds_exec (router c) _ (CRegister (underlying f) (next_bsub c)) H3 Hn) as He. cbn [exec spec_exec] in He.
  destruct (Register (router c) (underlying f) (next_bsub c)) as [t id]. destruct He as (Ht & [= ->] & _). cbn [snd] in *.
  set (b := next_bsub c) in *. set (bs := mkBs f (underlying f) (nextID (router c) + 1) [] [] [] false 0 (mkView [] [] [])).
  set (c' := _ <| brokerSubs ::= _ |>). assert (Ebs : brokerSubs c' = <[f := b]> (brokerSubs c)) by done.
  assert (Hnone : h_bsubs c !! b = None) by (apply eq_None_not_Some; intros Hb%H2; subst b; lia).
  assert (Hold : forall f1 b1, brokerSubs c !! f1 = Some b1 -> h_bsubs c' !! b1 = h_bsubs c !! b1).
  { intros f1 b1 Hf1. destruct (H1 _ _ Hf1) as (bs1 & Hb1 & _). apply lookup_insert_ne. congruence. }
  assert (Hnew : h_bsubs c' !! b = Some bs) by apply lookup_insert_eq.
  assert (Hto : forall f1 b1, brokerSubs c' !! f1 = Some b1 -> f1 = f /\ b1 = b \/ f1 <> f /\ brokerSubs c !! f1 = Some b1).
  { intros f1 b1. rewrite Ebs. intros [[<- <-]|[Hne Hb1]]%lookup_insert_Some; auto. }
  assert (Hnt : nextID t = nextID (router c) + 1) by apply Ht. split; [|done]. split.
  - by apply (linked_frame _ c).
  - split.
    + intros f1 b1 [[-> ->]|[Hne Hb1]]%Hto; [by exists bs|]. rewrite (Hold _ _ Hb1). by apply H1.
    + intros b1 [bs1 Hb1]. change (next_bsub c') with (b + 1). change (h_bsubs c') with (<[b := bs]> (h_bsubs c)) in Hb1.
      apply lookup_insert_Some in Hb1 as [[<- _]|[_ Hb1]]; [lia|]. assert (b1 < next_bsub c) by (apply H2; eauto). subst b. lia.
    + change (router c') with t. rewrite Hnt. eapply holds_perm; [|exact Ht]. unfold registrations. rewrite Ebs, map_to_list_insert by done. cbn [fmap list_fmap].
      assert (registration c' (f, b) = mkReg (underlying f) (nextID (router c) + 1) b) as -> by (unfold registration, trie_id; cbn [fst snd]; by rewrite Hnew).
      f_equiv. apply Permutation_refl'. apply list_fmap_ext. intros i [f1 b1] Hi. apply list_elem_of_lookup_2, elem_of_map_to_list in Hi.
      unfold registration, trie_id. cbn [fst snd]. by rewrite (Hold _ _ Hi).
  - split.
    + intros f1 b1 bs1 [[-> ->]|[Hne Hf1]]%Hto Hb1 s; [|rewrite (Hold _ _ Hf1) in Hb1; by apply (h_count _ _ Hh f1 b1)].
      rewrite Hnew in Hb1. injection Hb1 as <-. by rewrite (held_zero _ _ _ _ Hh Hf).
    + intros s f1 Hs. rewrite Ebs. destruct (decide (f1 = f)) as [->|]; [rewrite lookup_insert_eq; eauto|]. rewrite lookup_insert_ne by congruence. by apply (h_covered _ _ Hh s).
  - intros f1 b1 bs1 [[-> ->]|[Hne Hf1]]%Hto Hb1 HD; [rewrite Hnew in Hb1; by injection Hb1 as <-|]. rewrite (Hold _ _ Hf1) in Hb1. exact (V f1 b1 bs1 Hf1 Hb1 HD).
  - destruct N as [N1 N2 N3]. split; [|done|done]. intros id. change (identRefs c') with (identRefs c). rewrite N1. change (reserved P c') with (reserved P c). f_equal.
    unfold tags. rewrite Ebs, map_to_list_insert by done. cbn. unfold ids_of at 2. rewrite Hnew. cbn. f_equal. apply bind_ext_in. intros [f1 b1] Hi%elem_of_map_to_list.
    unfold ids_of. cbn [snd]. by rewrite (Hold _ _ Hi).
Qed.

End SubsState.
