(* ===== verification/SubsOps.v ===== *)
(** * SubsOps: every operation on subscriptions keeps their state consistent

    Identifiers, subscribing, settling, answering, connections and sessions:
    each method of subscription.go keeps the invariant of [SubsState]. *)

From S2P Require Import Prelude GoLib Errors ClientErrors Buffers Varint Topics Subscribe IdTable Trie Subscriptions SubsLists SubsQueue SubsState.

Module SubsOps.
Import Subscriptions SubsLists SubsQueue SubsState.

(** ** Identifiers *)

(** The candidates [allocIdentLocked] tries, in order. *)
Definition candidate (n : Z) (k : nat) : Z := (n + Z.of_nat k) mod MaxVarintValue + 1.

Lemma alloc_tried fuel : forall m n, alloc_loop fuel m n = None -> forall k, (k < fuel)%nat -> refs m (candidate n k) <> 0.
Proof.
  induction fuel as [|fuel IH]; intros m n; cbn [alloc_loop]; [lia|]. destruct (Z.eqb_spec (refs m (n mod MaxVarintValue + 1)) 0) as [|Hne]; [done|].
  intros H [|k] Hk; [unfold candidate; by rewrite Z.add_0_r|]. specialize (IH _ _ H k ltac:(lia)). unfold candidate in *.
  rewrite <- Z.add_assoc, Zplus_mod_idemp_l in IH. by replace (n + Z.of_nat (S k)) with (n + (1 + Z.of_nat k)) by lia.
Qed.

Lemma candidate_inj n i j :
  Z.of_nat i < MaxVarintValue -> Z.of_nat j < MaxVarintValue -> candidate n i = candidate n j -> i = j.
Proof.
  unfold candidate. intros Hi Hj H. assert (Hmod : (n + Z.of_nat i) mod MaxVarintValue = (n + Z.of_nat j) mod MaxVarintValue) by lia.
  assert (Hd : (Z.of_nat i - Z.of_nat j) mod MaxVarintValue = 0).
  { replace (Z.of_nat i - Z.of_nat j) with ((n + Z.of_nat i) - (n + Z.of_nat j)) by lia. rewrite Zminus_mod, Hmod, Z.sub_diag. done. }
  apply Z.mod_divide in Hd as [q Hq]; [|done]. unfold MaxVarintValue in *. nia.
Qed.

(** A free identifier is found while not all are in use. *)
Lemma alloc_found m n : Z.of_nat (size m) < MaxVarintValue -> exists id, alloc_loop (S (size m)) m n = Some id.
Proof.
  intros Hs. destruct (alloc_loop (S (size m)) m n) as [id|] eqn:E; [eauto|]. exfalso.
  set (l := candidate n <$> seq 0 (S (size m))).
  assert (Hnd : NoDup l).
  { apply NoDup_fmap_2_strong; [|apply NoDup_seq]. intros i j Hi Hj. rewrite elem_of_seq in Hi, Hj. apply candidate_inj; lia. }
  assert (Hsub : list_to_set l ⊆ dom m).
  { intros x. rewrite elem_of_list_to_set. intros (k & -> & Hk)%list_elem_of_fmap. rewrite elem_of_seq in Hk.
    pose proof (alloc_tried _ _ _ E k ltac:(lia)) as Hr. apply elem_of_dom. unfold refs in Hr. destruct (m !! candidate n k); [eauto|done]. }
  apply subseteq_size in Hsub. rewrite size_dom, size_list_to_set in Hsub by done. unfold l in Hsub. rewrite length_fmap, length_seq in Hsub. lia.
Qed.

(** What is found is free and a valid Subscription Identifier. *)
Lemma alloc_free fuel : forall m n id, alloc_loop fuel m n = Some id -> refs m id = 0 /\ 1 <= id <= MaxVarintValue.
Proof.
  induction fuel as [|fuel IH]; intros m n id; cbn [alloc_loop]; [done|]. destruct (Z.eqb_spec (refs m (n mod MaxVarintValue + 1)) 0) as [H0|Hne]; [|apply IH].
  intros [= <-]. split; [done|]. pose proof (Z.mod_pos_bound n MaxVarintValue ltac:(done)). lia.
Qed.

(** ** Subscribing *)

(** A state with the local side of another. *)
Definition relink (x c : client) : client :=
  c <| h_subs := h_subs x |> <| h_ops := h_ops x |> <| activeSubs := activeSubs x |> <| next_op := next_op x |>
    <| nextIdent := nextIdent x |> <| nextSubID := nextSubID x |>.

Definition remote_part (c : client) :=
  (h_bsubs c, h_routes c, next_bsub c, brokerSubs c, identRefs c, retiring c, router c, ctrlQueue c, ctrlOps c, sessionLost c, engine_ids c, cur c, written c).

Lemma relink_eq x c : remote_part x = remote_part c -> relink x c = x.
Proof. destruct x, c. unfold remote_part, relink. cbn. intros H. injection H as -> -> -> -> -> -> -> -> -> -> -> -> ->. done. Qed.

Lemma joins_relink sub x (fs : list TopicFilter) : forall c, foldl (join sub) (relink x c) fs = relink x (foldl (join sub) c fs).
Proof.
  induction fs as [|f fs IH]; intros c; [done|]. cbn [foldl]. rewrite <- IH. f_equal. unfold join, brokerSubLocked.
  change (brokerSubs (relink x c)) with (brokerSubs c). destruct (brokerSubs c !! f_Topic f); [done|].
  change (router (relink x c)) with (router c). by destruct (Register _ _ _).
Qed.

Lemma joined P h D c f b sub :
  core_inv P h D c -> brokerSubs c !! f = Some b ->
  core_inv P (plus h sub f) ({[f]} ∪ D) (upd_bs b (fun bs => bs <| b_holders ::= fun l => l ++ [sub] |>) c).
Proof.
  intros I Hf. destruct (m_bs _ (i_shaped _ _ _ _ I) _ _ Hf) as (bs & Hb & _). apply (bs_updated_same P h D c f b bs); try done.
  - intros s. change (b_holders _) with (b_holders bs ++ [sub]). rewrite occ_app, occ_singleton, (h_count _ _ (i_held _ _ _ _ I) _ _ _ Hf Hb). unfold plus.
    destruct (decide (s = sub)) as [->|]; [by rewrite decide_True|rewrite decide_False by tauto; lia].
  - intros s f' Hne. unfold plus. by rewrite decide_False by tauto.
Qed.

Lemma join_core P h D c sub f :
  core_inv P h D c -> nextID (router c) + 1 < 2 ^ 64 ->
  core_inv P (plus h sub (f_Topic f)) ({[f_Topic f]} ∪ D) (join sub c f)
  /\ is_Some (brokerSubs (join sub c f) !! f_Topic f) /\ brokerSubs c ⊆ brokerSubs (join sub c f)
  /\ nextID (router (join sub c f)) <= nextID (router c) + 1.
Proof.
  intros I Hn. unfold join. destruct (brokerSubs c !! f_Topic f) as [b|] eqn:Hf.
  - assert (brokerSubLocked c (f_Topic f) = (c, b)) as -> by (unfold brokerSubLocked; by rewrite Hf). split; [by apply joined|]. split; [by exists b|]. split; [done|].
    change (nextID (router c) <= nextID (router c) + 1). lia.
  - pose proof (new_bsub_core _ _ _ _ _ I Hf Hn) as Hnew. destruct (brokerSubLocked c (f_Topic f)) as [c' b]. destruct Hnew as (I' & Hbs & Hid).
    assert (Hf' : brokerSubs c' !! f_Topic f = Some b) by (rewrite Hbs; apply lookup_insert_eq). split; [by apply joined|]. split; [by exists b|].
    split; [change (brokerSubs c ⊆ brokerSubs c'); rewrite Hbs; by apply insert_subseteq|]. change (nextID (router c') <= nextID (router c) + 1). lia.
Qed.

Definition plus_all (h : holdings) (s : Z) (fs : list TopicFilter) : holdings := foldl (fun h f => plus h s (f_Topic f)) h fs.

Lemma plus_all_spec sub (fs : list TopicFilter) : forall h s f,
  plus_all h sub fs s f = if decide (s = sub) then h sub f + occ f (f_Topic <$> fs) else h s f.
Proof.
  induction fs as [|g fs IH]; intros h s f; unfold plus_all in *; cbn [foldl fmap list_fmap].
  - rewrite occ_nil. destruct (decide (s = sub)) as [->|]; lia.
  - rewrite IH, occ_cons. unfold plus. destruct (decide (s = sub)) as [->|]; [|rewrite decide_False by tauto; done].
    destruct (decide (f = f_Topic g)) as [->|]; [rewrite decide_True by done|rewrite decide_False by tauto]; lia.
Qed.

Lemma joins_core P sub (fs : list TopicFilter) : forall h D c,
  core_inv P h D c -> nextID (router c) + len fs < 2 ^ 64 ->
  core_inv P (plus_all h sub fs) (list_to_set (f_Topic <$> fs) ∪ D) (foldl (join sub) c fs)
  /\ (forall f, f ∈ fs -> is_Some (brokerSubs (foldl (join sub) c fs) !! f_Topic f))
  /\ brokerSubs c ⊆ brokerSubs (foldl (join sub) c fs) /\ nextID (router (foldl (join sub) c fs)) <= nextID (router c) + len fs.
Proof.
  induction fs as [|f fs IH]; intros h D c I Hn.
  - cbn. split; [eapply core_weaken; [|exact I]; intros x Hx; by apply elem_of_union_r|]. split; [by intros f ?%elem_of_nil|]. split; [done|]. rewrite len_nil. lia.
  - rewrite len_cons in *. pose proof (len_nonneg fs). destruct (join_core _ _ _ _ sub f I ltac:(lia)) as (I1 & Hf & Hsub & Hid).
    cbn [foldl fmap list_fmap]. destruct (IH _ _ _ I1 ltac:(lia)) as (I2 & Hf2 & Hsub2 & Hid2). split; [|split; [|split; [by etrans|lia]]].
    + eapply core_weaken; [|exact I2]. intros x. cbn [list_to_set]. rewrite !elem_of_union. tauto.
    + intros g [->|Hg]%elem_of_cons; [|by apply Hf2]. destruct Hf as [b Hb]. exists b. by eapply lookup_weaken.
Qed.

(** What tagging broker subscriptions leaves alone. *)
Definition local_part (c : client) := (h_subs c, h_ops c, activeSubs c, ctrlQueue c, nextSubID c, router c, h_routes c, brokerSubs c).

Lemma tags_core P ident (fs : list TopicFilter) : forall h D c,
  core_inv P h D c -> (forall f, f ∈ fs -> is_Some (brokerSubs c !! f_Topic f)) ->
  exists c', foldl (tag_filter ident) (Some c) fs = Some c' /\ core_inv P h (D ∖ list_to_set (f_Topic <$> fs)) c'
    /\ local_part c' = local_part c /\ dom (identRefs c') ⊆ {[ident]} ∪ dom (identRefs c).
Proof.
  induction fs as [|f fs IH]; intros h D c I Hfs; cbn [foldl fmap list_fmap list_to_set].
  - exists c. split; [done|]. split; [|split; [done|apply union_subseteq_r]]. eapply core_weaken; [|exact I]. intros x Hx. rewrite elem_of_difference, elem_of_empty. tauto.
  - destruct (Hfs f ltac:(by left)) as [b Hf]. destruct (tag_core _ _ _ _ ident f b I Hf) as (c1 & E1 & I1 & Hbs & Hrefs). rewrite E1.
    destruct (IH _ _ c1 I1) as (c2 & E2 & I2 & Hl & Hd); [intros g Hg; rewrite Hbs; apply Hfs; by right|]. exists c2. split; [done|].
    assert (Hl1 : local_part c1 = local_part c) by (cbn in E1; destruct (broker_sub c (f_Topic f)) as [[b' bs]|]; [by injection E1 as <-|done]).
    split; [|split; [congruence|]].
    + eapply core_weaken; [|exact I2]. intros x. rewrite !elem_of_difference, elem_of_union, elem_of_singleton. tauto.
    + intros x Hx. apply Hd in Hx. rewrite elem_of_union, elem_of_singleton in *. destruct (decide (x = ident)) as [|Hne]; [by left|right].
      destruct Hx as [?|Hx]; [done|]. apply elem_of_dom. apply elem_of_dom in Hx. by rewrite Hrefs in Hx.
Qed.

(** [queueSubscribeLocked] once the operation and the subscription are
    linked. *)
Lemma queue_subscribe_core P h D c op o :
  h_ops c !! op = Some o -> Z.of_nat (size (identRefs c)) < MaxVarintValue ->
  (forall ident, core_inv P h D (upd_sub (o_sub o) (fun s => s <| s_op := Some op |>) (upd_op op (fun o => o <| o_ident := ident |>) (c <| nextIdent := ident |>)))) ->
  (forall f, f ∈ o_filters o -> is_Some (brokerSubs c !! f_Topic f)) -> op ∈ P -> (forall f, f ∈ D -> f ∈ f_Topic <$> o_filters o) ->
  exists c', queueSubscribeLocked c op = Some c' /\ core_inv (P ∖ {[op]}) h ∅ c'
    /\ h_subs c' = alter (fun s => s <| s_op := Some op |>) (o_sub o) (h_subs c)
    /\ (nextSubID c', router c', h_routes c', brokerSubs c', activeSubs c') = (nextSubID c, router c, h_routes c, brokerSubs c, activeSubs c)
    /\ (exists ident, refs (identRefs c) ident = 0 /\ dom (identRefs c') ⊆ {[ident]} ∪ dom (identRefs c)).
Proof.
  intros Ho Hs I Hfs Hp HD. unfold queueSubscribeLocked, allocIdentLocked. destruct (alloc_found (identRefs c) (nextIdent c) Hs) as [ident E]. rewrite E, Ho.
  destruct (alloc_free _ _ _ _ E) as [Hfree _]. specialize (I ident).
  set (c1 := upd_sub _ _ _) in *. destruct (tags_core P ident (o_filters o) h D c1 I Hfs) as (c2 & E2 & I2 & Hl & Hd). rewrite E2.
  eexists. split; [done|]. unfold local_part in Hl. split; [|split; [|split]].
  - apply enqueue_core; [|done]. eapply core_weaken; [|exact I2]. intros f [Hf Hn]%elem_of_difference. rewrite elem_of_list_to_set in Hn. by destruct Hn; apply HD.
  - change (h_subs c2 = h_subs c1). congruence.
  - change ((nextSubID c2, router c2, h_routes c2, brokerSubs c2, activeSubs c2) = (nextSubID c1, router c1, h_routes c1, brokerSubs c1, activeSubs c1)). congruence.
  - exists ident. split; [done|]. exact Hd.
Qed.

Lemma joins_frame sub (fs : list TopicFilter) c :
  (identRefs (foldl (join sub) c fs), h_routes (foldl (join sub) c fs)) = (identRefs c, h_routes c).
Proof.
  apply (foldl_frame (fun c => (identRefs c, h_routes c)) (join sub)). intros d f. unfold join, brokerSubLocked.
  destruct (brokerSubs d !! f_Topic f); [done|]. by destruct (Register _ _ _).
Qed.

Lemma new_op_at c o : h_ops (fst (new_op c o)) !! next_op c = Some o.
Proof. apply lookup_insert_eq. Qed.

(** A view depends on its holders' routes only. *)
Lemma view_of_holders c c' b : (forall s, s ∈ b_holders b -> h_subs c' !! s = h_subs c !! s) -> view_of c' b = view_of c b.
Proof.
  intros H. unfold view_of. f_equal. revert H. generalize (b_holders b) as l. generalize (@nil Z) as acc.
  intros acc l. revert acc. induction l as [|x l IH]; intros acc H; [done|]. cbn [foldl]. rewrite <- IH by (intros s Hs; apply H; by right). f_equal.
  unfold add_route. by rewrite H by by left.
Qed.

(** A new operation that reserves nothing yet, in the hands of the step. *)
Lemma new_op_counts P c c' op o :
  counts P c -> h_ops c !! op = None -> op ∉ P -> o_retired o = [] -> h_ops c' = <[op := o]> (h_ops c) ->
  identRefs c' = identRefs c -> tags c' = tags c -> ctrlQueue c' = ctrlQueue c -> counts ({[op]} ∪ P) c'.
Proof.
  intros [N1 N2 N3] Ho HP Hr Hops Hi Ht Hq.
  assert (Hret : forall x, retired_of c' x = retired_of c x).
  { intros x. unfold retired_of. rewrite Hops. destruct (decide (x = op)) as [->|Hne]; [by rewrite lookup_insert_eq, Ho; cbn|by rewrite lookup_insert_ne by congruence]. }
  split; [|by rewrite Hi|].
  - intros id. rewrite Hi, Ht, N1. f_equal. unfold reserved. rewrite Hq, elements_add by done. rewrite <- Permutation_middle. cbn. rewrite Hret.
    assert (retired_of c op = []) as -> by (unfold retired_of; by rewrite Ho). cbn. f_equal. apply bind_ext_in. intros x _. by rewrite Hret.
  - intros x o' Hx Hk. rewrite Hops in Hx. apply lookup_insert_Some in Hx as [[<- <-]|[_ Hx]]; [done|by apply (N3 x)].
Qed.

Lemma new_sub_core P h D c sub op a o :
  core_inv P h D c -> (forall f, h sub f = 0) -> h_subs c !! sub = None -> h_ops c !! op = None -> op ∉ P ->
  s_state a = subPending -> s_op a = Some op -> s_filters a <> [] ->
  o_kind o = KSubscribe -> o_sub o = sub -> o_filters o = s_filters a -> o_retired o = [] ->
  core_inv ({[op]} ∪ P) h D (c <| h_subs ::= <[sub := a]> |> <| h_ops ::= <[op := o]> |> <| activeSubs ::= fun m => {[sub]} ∪ m |>).
Proof.
  intros [L H Hh V N] H0 Hs Ho HP Hst Hop Hfs Hk Hsub Hf Hr. set (c' := _ <| activeSubs ::= _ |>). split.
  - by apply added_links.
  - by apply (shaped_frame c).
  - by split; apply Hh.
  - intros f b bs Hfb Hb HD. rewrite (V f b bs Hfb Hb HD). symmetry. apply view_of_holders. intros s Hin. unfold c'. cbn [h_subs update].
    apply lookup_insert_ne. intros <-. apply occ_pos in Hin. rewrite (h_count _ _ Hh f b bs Hfb Hb), H0 in Hin. lia.
  - by apply (new_op_counts P c _ op o).
Qed.

(** [addSub] *)
Lemma add_sub_core c filters r :
  core_ok ∅ c -> h_subs c !! (nextSubID c + 1) = None -> 0 <= nextSubID c -> nextSubID c + 1 < 2 ^ 64 -> h_ops c !! next_op c = None ->
  nextID (router c) + len filters < 2 ^ 64 -> Z.of_nat (size (identRefs c)) < MaxVarintValue -> filters <> [] ->
  let sub := nextSubID c + 1 in
  exists c', addSub c filters r false = Some (c', Some (sub, next_op c)) /\ core_ok ∅ c'
    /\ h_subs c' = <[sub := mkSub r subPending filters None None (Some (next_op c)) None []]> (h_subs c)
    /\ nextSubID c' = sub /\ nextID (router c') <= nextID (router c) + len filters /\ h_routes c' = h_routes c
    /\ (exists ident, refs (identRefs c) ident = 0 /\ dom (identRefs c') ⊆ {[ident]} ∪ dom (identRefs c)).
Proof.
  intros I Hsub H1 H2 Hop Hid Hs Hne sub. unfold addSub. rewrite u64_id by lia. fold sub in Hsub |- *. set (op := next_op c) in *.
  set (a := mkSub r subPending filters None None (Some op) None []). set (a0 := mkSub r subPending filters None None None None []).
  set (c0 := c <| nextSubID := sub |> <| h_subs ::= _ |>). set (o := subscribe_op sub filters false).
  assert (Hh0 : forall f, held c sub f = 0) by (intros f; unfold held; by rewrite Hsub).
  set (c1 := c <| h_subs ::= <[sub := a]> |> <| h_ops ::= <[op := o]> |> <| activeSubs ::= fun m => {[sub]} ∪ m |>).
  assert (I1 : core_inv ({[op]} ∪ ∅) (held c) ∅ c1) by (apply new_sub_core; try done; apply not_elem_of_empty).
  destruct (joins_core _ sub filters _ _ _ I1 Hid) as (I2 & Hfs & _ & Hid2). set (j := foldl (join sub) c filters).
  assert (E1 : foldl (join sub) c1 filters = relink c1 j).
  { unfold j. rewrite <- joins_relink, relink_eq; done. }
  assert (E0 : foldl (join sub) c0 filters = relink c0 j).
  { unfold j. rewrite <- joins_relink, relink_eq; done. }
  rewrite E1 in *. rewrite E0. pose proof (joins_frame sub filters c) as Hj. fold j in Hj. clearbody j. injection Hj as Hj1 Hj2. clear E0 E1. set (c2 := (relink c0 j) <| activeSubs ::= fun m => {[sub]} ∪ m |>). 
  assert (Hn2 : next_op c2 = op) by done. set (c3 := fst (new_op c2 o)). assert (En : new_op c2 o = (c3, op)) by (rewrite <- Hn2; done).
  rewrite En. assert (Ho3 : h_ops c3 !! op = Some o) by (rewrite <- Hn2; apply new_op_at).
  destruct (queue_subscribe_core ({[op]} ∪ ∅) (plus_all (held c) sub filters) (list_to_set (f_Topic <$> filters) ∪ ∅) c3 op o Ho3) as (c' & E & I3 & Hs3 & Hp3 & Hd3).
  - change (identRefs c3) with (identRefs j). by rewrite Hj1.
  - intros ident. eapply core_frame; [|exact I2]. unfold core_part, link_part, rest_part. cbn.
    rewrite alter_insert_eq, (fmap_alter_same op_core), (fmap_alter_same op_reserve) by done. done.
  - exact Hfs.
  - by apply elem_of_union_l, elem_of_singleton.
  - intros f [Hf|Hf]%elem_of_union; [by apply elem_of_list_to_set in Hf|by apply not_elem_of_empty in Hf].
  - rewrite E. exists c'. split; [done|]. injection Hp3 as P1 P2 P3 P4 P5.
    assert (Hs' : h_subs c' = <[sub := a]> (h_subs c)).
    { rewrite Hs3. change (h_subs c3) with (<[sub := a0]> (h_subs c)). cbn [o_sub o subscribe_op]. by rewrite alter_insert_eq. }
    split; [|split; [exact Hs'|split; [exact P1|split; [rewrite P2; exact Hid2|split]]]].
    + unfold core_ok. assert (I4 : core_inv ∅ (plus_all (held c) sub filters) ∅ c').
      { rewrite (leibniz_equiv _ _ (taken_back op)) in I3. exact I3. }
      eapply core_ext; [|exact I4]. intros s f. rewrite plus_all_spec. unfold held at 3. rewrite Hs'. destruct (decide (s = sub)) as [->|Hn].
      * rewrite lookup_insert_eq, Hh0, decide_True by done. done.
      * by rewrite lookup_insert_ne by congruence.
    + by rewrite P3.
    + change (identRefs c3) with (identRefs j) in Hd3. by rewrite Hj1 in Hd3.
Qed.

(** ** Broker subscriptions without holders *)

Definition removed (c : client) (f : list Z) (bs : brokerSub) : client :=
  c <| router := fst (Unregister (router c) (b_trieKey bs) (b_trieID bs)) |> <| brokerSubs ::= delete f |>.

Lemma removed_bs c f bs f1 b1 : brokerSubs (removed c f bs) !! f1 = Some b1 <-> f <> f1 /\ brokerSubs c !! f1 = Some b1.
Proof. apply lookup_delete_Some. Qed.

Lemma unheld P h D c f b bs : core_inv P h D c -> brokerSubs c !! f = Some b -> h_bsubs c !! b = Some bs -> b_holders bs = [] -> forall s, h s f = 0.
Proof. intros I Hf Hb Hn s. rewrite <- (h_count _ _ (i_held _ _ _ _ I) _ _ _ Hf Hb s), Hn. apply occ_nil. Qed.

Lemma removed_held P h D c f b bs :
  core_inv P h D c -> brokerSubs c !! f = Some b -> h_bsubs c !! b = Some bs -> b_holders bs = [] ->
  held_by h (removed c f bs) /\ viewed D (removed c f bs).
Proof.
  intros I Hf Hb Hn. pose proof (unheld _ _ _ _ _ _ _ I Hf Hb Hn) as H0. destruct I as [_ _ Hh V _]. split; [split|].
  - intros f1 b1 bs1 [_ Hf1]%removed_bs Hb1. by apply (h_count _ _ Hh f1 b1).
  - intros s f1 Hs. change (is_Some (delete f (brokerSubs c) !! f1)). rewrite lookup_delete_ne by (intros <-; apply Hs, H0). by apply (h_covered _ _ Hh s).
  - intros f1 b1 bs1 [_ Hf1]%removed_bs Hb1 HD. exact (V f1 b1 bs1 Hf1 Hb1 HD).
Qed.

Lemma removed_tags c f b bs : brokerSubs c !! f = Some b -> h_bsubs c !! b = Some bs -> tags c ≡ₚ b_ids bs ++ tags (removed c f bs).
Proof. intros Hf Hb. by rewrite (tags_split c f b bs). Qed.

(** Its identifiers are released ... *)
Lemma removed_release P h D c f b bs :
  core_inv P h D c -> brokerSubs c !! f = Some b -> h_bsubs c !! b = Some bs -> b_holders bs = [] ->
  core_inv P h D (releaseIdentsLocked (removed c f bs) (b_ids bs)).
Proof.
  intros I Hf Hb Hn. destruct (removed_held _ _ _ _ _ _ _ I Hf Hb Hn) as [Hh V]. pose proof (removed_tags _ _ _ _ Hf Hb) as Ht.
  pose proof (fun x => counted_ids _ _ _ _ _ _ _ x I Hf Hb) as Hc. pose proof (removed_shape _ _ _ _ (i_shaped _ _ _ _ I) Hf Hb) as H.
  destruct I as [L _ _ _ [N1 N2 N3]]. destruct (refs_releases _ _ N2 Hc) as [Hpos Hrefs]. split.
  - by apply (linked_frame _ c).
  - by apply (shaped_frame (removed c f bs)).
  - by split; apply Hh.
  - exact V.
  - split; [|exact Hpos|exact N3]. intros id. change (identRefs (releaseIdentsLocked (removed c f bs) (b_ids bs))) with (foldl release_ident (identRefs c) (b_ids bs)).
    rewrite Hrefs, N1, Ht, occ_app. change (tags (releaseIdentsLocked (removed c f bs) (b_ids bs))) with (tags (removed c f bs)).
    change (reserved P (releaseIdentsLocked (removed c f bs) (b_ids bs))) with (reserved P c). lia.
Qed.

(** ... or reserved by the UNSUBSCRIBE [op]. *)
Lemma removed_reserve P h D c f b bs op o g :
  core_inv P h D c -> brokerSubs c !! f = Some b -> h_bsubs c !! b = Some bs -> b_holders bs = [] ->
  op ∈ P -> h_ops c !! op = Some o -> o_kind o = KUnsubscribe -> op ∉ ctrlQueue c ->
  op_core (g o) = op_core o -> o_retired (g o) = o_retired o ++ b_ids bs ->
  core_inv P h D (upd_op op g (removed c f bs)).
Proof.
  intros I Hf Hb Hn HP Ho Hk Hq Hg Hr. destruct (removed_held _ _ _ _ _ _ _ I Hf Hb Hn) as [Hh V]. pose proof (removed_tags _ _ _ _ Hf Hb) as Ht.
  pose proof (removed_shape _ _ _ _ (i_shaped _ _ _ _ I) Hf Hb) as H. destruct I as [L _ _ _ [N1 N2 N3]]. set (c' := upd_op op g (removed c f bs)).
  assert (Hl : forall x, h_ops c' !! x = if decide (x = op) then Some (g o) else h_ops c !! x).
  { intros x. unfold c'. rewrite upd_op_lookup. change (h_ops (removed c f bs)) with (h_ops c). by rewrite Ho. }
  split.
  - apply (linked_frame _ c); [|done]. unfold link_part. change (h_subs c') with (h_subs c). change (activeSubs c') with (activeSubs c). f_equal.
    apply map_eq. intros x. rewrite !lookup_fmap, Hl. destruct (decide (x = op)) as [->|]; [rewrite Ho; cbn; by rewrite Hg|done].
  - by apply (shaped_frame (removed c f bs)).
  - by split; apply Hh.
  - exact V.
  - split; [|exact N2|].
    + intros id. change (identRefs c') with (identRefs c). change (tags c') with (tags (removed c f bs)). rewrite N1, Ht, occ_app.
      assert (Hret : forall x, x <> op -> retired_of c' x = retired_of c x) by (intros x Hx; unfold retired_of; by rewrite Hl, decide_False).
      unfold reserved. change (ctrlQueue c') with (ctrlQueue c). rewrite (elements_remove op P HP), <- Permutation_middle. cbn [mbind list_bind].
      rewrite !occ_app. assert (retired_of c' op = o_retired o ++ b_ids bs) as -> by (unfold retired_of; rewrite Hl, decide_True by done; exact Hr).
      assert (retired_of c op = o_retired o) as -> by (unfold retired_of; by rewrite Ho). rewrite occ_app.
      assert (((ctrlQueue c ++ elements (P ∖ {[op]})) ≫= retired_of c') = ((ctrlQueue c ++ elements (P ∖ {[op]})) ≫= retired_of c)) as ->; [|lia].
      apply bind_ext_in. intros x Hx. apply Hret. intros ->. rewrite elem_of_app, elem_of_elements, elem_of_difference, elem_of_singleton in Hx. tauto.
    + intros x o' Hx Hk'. rewrite Hl in Hx. destruct (decide (x = op)) as [->|]; [|by apply (N3 x)]. injection Hx as <-.
      assert (o_kind (g o) = o_kind o) by (unfold op_core in Hg; congruence). congruence.
Qed.

(** ** [settle] *)

Definition with_op (n : Z) (o : ctrlOp) (c : client) : client := c <| h_ops ::= <[n := o]> |>.

(** A new UNSUBSCRIBE in the hands of the step. *)
Lemma fresh_unsubscribe P h D c n :
  core_inv P h D c -> next_op c = n -> h_ops c !! n = None -> n ∉ P -> core_inv ({[n]} ∪ P) h D (with_op n unsubscribe_op c).
Proof.
  intros [L H Hh V N] Hn Hf HP. split.
  - apply (linked_frame _ (fst (new_op c unsubscribe_op))); [by rewrite <- Hn|]. rewrite <- Hn. apply new_op_links; [done|by rewrite Hn|done].
  - by apply (shaped_frame c).
  - by split; apply Hh.
  - exact V.
  - by apply (new_op_counts P c _ n unsubscribe_op).
Qed.

(** The loop of [settle] with [l] left to visit; [n] is the name the
    UNSUBSCRIBE will have. *)
Definition settling (P : gset Z) (h : holdings) (D : gset (list Z)) (n : Z) (q : list Z) (subs : gmap Z activeSub)
    (l : list (list Z * Z)) (s : client * option ctrlOp) : Prop :=
  let (c, x) := s in
  next_op c = n /\ h_ops c !! n = None /\ ctrlQueue c = q /\ h_subs c = subs
  /\ NoDup l.*1 /\ (forall f b, (f, b) ∈ l -> brokerSubs c !! f = Some b)
  /\ match x with
     | None => core_inv P h D c
     | Some o => o_kind o = KUnsubscribe /\ o_queued o = false /\ core_inv ({[n]} ∪ P) h D (with_op n o c)
     end.

Lemma settling_step P h D n q subs p l s : n ∉ P -> n ∉ q -> settling P h D n q subs (p :: l) s -> settling P h D n q subs l (settle_one s p).
Proof.
  intros HnP Hnq. destruct s as [c x], p as [f b]. intros (Hn & Ho & Hq & Hs & Hnd & Hin & I). cbn [fmap list_fmap] in Hnd. apply NoDup_cons in Hnd as [Hnf Hnd].
  assert (Hf : brokerSubs c !! f = Some b) by (apply Hin; by left).
  assert (Hin' : forall f1 b1, (f1, b1) ∈ l -> brokerSubs c !! f1 = Some b1) by (intros; apply Hin; by right).
  assert (Hin2 : forall bs f1 b1, (f1, b1) ∈ l -> brokerSubs (removed c f bs) !! f1 = Some b1).
  { intros bs f1 b1 Hl. apply removed_bs. split; [|by apply Hin']. intros ->. apply Hnf. by apply (list_elem_of_fmap_2 fst _ (f1, b1)). }
  cbn [settle_one]. destruct (h_bsubs c !! b) as [bs|] eqn:Hb; [|by split_and!].
  destruct (Z.ltb_spec 0 (len (b_holders bs))) as [|Hl]; [by split_and!|].
  assert (Hh : b_holders bs = []) by (destruct (b_holders bs) as [|y k]; [done|rewrite len_cons in Hl; pose proof (len_nonneg k); lia]).
  fold (removed c f bs). destruct (_ && _).
  - cbn. split_and!; try assumption; [by apply (Hin2 bs)|]. destruct x as [o|].
    + destruct I as (Hk & Hqd & I). split_and!; [done..|]. eapply core_frame; [|exact (removed_release _ _ _ _ _ _ _ I Hf Hb Hh)]. done.
    + by apply (removed_release _ _ _ _ _ b).
  - set (o := default unsubscribe_op x). assert (Io : o_kind o = KUnsubscribe /\ o_queued o = false /\ core_inv ({[n]} ∪ P) h D (with_op n o c)).
    { destruct x as [o'|]; [exact I|]. split_and!; [done..|]. by apply fresh_unsubscribe. }
    clearbody o. destruct Io as (Hk & Hqd & Io). split_and!; try assumption; [by apply (Hin2 bs)|].
    set (g := fun o : ctrlOp => o <| o_topics ::= fun l => l ++ [f] |> <| o_retired ::= fun l => l ++ b_ids bs |> <| o_retiredIssued ::= fun l => l ++ b_issued bs |>).
    assert (Ho' : h_ops (with_op n o c) !! n = Some o) by apply lookup_insert_eq.
    assert (I2 : core_inv ({[n]} ∪ P) h D (upd_op n g (removed (with_op n o c) f bs))).
    { apply (removed_reserve _ _ _ (with_op n o c) f b bs n o); try done; [by apply elem_of_union_l, elem_of_singleton|]. change (n ∉ ctrlQueue c). by rewrite Hq. }
    eapply core_frame; [|exact I2]. unfold core_part, link_part, rest_part, with_op, upd_op. cbn. by rewrite alter_insert_eq.
Qed.

Lemma elem_of_one (n : Z) (P : gset Z) : n ∈ {[n]} ∪ P.
Proof. by apply elem_of_union_l, elem_of_singleton. Qed.

(** The next name for an operation is not taken. *)
Definition fresh_name (c : client) : Prop := kinds c !! next_op c = None /\ next_op c ∉ ctrlQueue c.

Lemma queue_fresh P R S U W c : queue_inv (ctrlQueue c) P R S U W c -> fresh_name c.
Proof.
  intros Q. assert (Hn : h_ops c !! next_op c = None).
  { apply eq_None_not_Some. intros [o Ho]. pose proof (a_fresh _ _ _ _ _ _ _ Q (next_op c)) as Hx. rewrite ops_lookup, Ho in Hx. specialize (Hx ltac:(eauto)). lia. }
  split; [unfold kinds; by rewrite lookup_fmap, Hn|]. intros (o & Ho & _)%(a_queued _ _ _ _ _ _ _ Q). rewrite ops_lookup, Hn in Ho. done.
Qed.

Lemma fresh_none c : fresh_name c -> h_ops c !! next_op c = None.
Proof. intros [H _]. unfold kinds in H. rewrite lookup_fmap in H. by destruct (h_ops c !! next_op c). Qed.

Lemma settle_core ord c : fresh_name c -> core_ok ∅ c -> core_ok ∅ (fst (settle ord c)).
Proof.
  intros Q I. pose proof (fresh_none c Q) as Hn. destruct Q as [_ Hq].
  assert (H0 : settling ∅ (held c) ∅ (next_op c) (ctrlQueue c) (h_subs c) (range ord (brokerSubs c)) (c, None)).
  { split_and!; try done; [apply NoDup_range|]. intros f b. apply elem_of_range. }
  apply (foldl_rest (settling ∅ (held c) ∅ (next_op c) (ctrlQueue c) (h_subs c)) settle_one) in H0.
  2: { intros p l s. apply settling_step; [apply not_elem_of_empty|done]. }
  unfold settle. destruct (foldl settle_one _ _) as [c1 x]. destruct H0 as (Hn1 & Ho1 & Hq1 & Hs1 & _ & _ & I1).
  assert (Hheld : forall c' : client, h_subs c' = h_subs c -> core_inv ∅ (held c) ∅ c' -> core_ok ∅ c').
  { intros c' E Ic. eapply core_ext; [|exact Ic]. intros s f. unfold held. by rewrite E. }
  destruct x as [o|]; [|by apply Hheld]. destruct I1 as (Hk & Hqd & I1). set (o' := o <| o_topics ::= _ |>).
  assert (En : new_op c1 o' = (fst (new_op c1 o'), next_op c1)) by done. rewrite En. cbn [fst].
  assert (I2 : core_inv ({[next_op c1]} ∪ ∅) (held c) ∅ (fst (new_op c1 o'))).
  { eapply core_frame; [|rewrite Hn1; exact I1]. unfold core_part, link_part, rest_part, with_op, new_op. cbn. rewrite Hn1, !fmap_insert. done. }
  set (c2 := fst (new_op c1 o')) in *. assert (Hs2 : h_subs c2 = h_subs c) by exact Hs1. clearbody c2.
  assert (I3 : core_inv ({[next_op c1]} ∪ ∅) (held c) ∅ (retireLocked c2 (o_retiredIssued o))).
  { eapply core_frame; [|exact I2]. unfold retireLocked. by destruct (_ =? 0). }
  assert (Hs3 : h_subs (retireLocked c2 (o_retiredIssued o)) = h_subs c) by (rewrite <- Hs2; unfold retireLocked; by destruct (_ =? 0)).
  apply Hheld; [exact Hs3|]. rewrite <- (leibniz_equiv _ _ (taken_back (next_op c1))). apply enqueue_core; [exact I3|apply elem_of_one].
Qed.

(** ** Sending *)

Lemma dequeue_subs c op : h_subs (fst (dequeueLocked c op)) = h_subs c.
Proof.
  unfold dequeueLocked. destruct (h_ops c !! op); [|done]. destruct (negb _); [done|]. set (c1 := match Index _ _ with Some _ => _ | None => _ end).
  assert (h_subs c1 = h_subs c) as <- by (subst c1; by destruct (Index _ _)). unfold unregisterLocked. destruct (h_ops c1 !! op); [|done]. by destruct (_ || _).
Qed.

(** A SUBSCRIBE nobody waits for. *)
Definition gone (c : client) (op : Z) : Prop :=
  exists s a, kinds c !! op = Some (KSubscribe, s) /\ h_subs c !! s = Some a /\ ~ live a.

Lemma gone_frame c c' op : kinds c' = kinds c -> h_subs c' = h_subs c -> gone c op -> gone c' op.
Proof. unfold gone. by intros -> ->. Qed.

Lemma gone_core P h D c op : core_inv P h D c -> op ∈ P -> gone c op -> core_inv (P ∖ {[op]}) h D c.
Proof.
  intros I Hp (s & a & Hk & Ha & Hl). unfold kinds in Hk. rewrite lookup_fmap in Hk. destruct (h_ops c !! op) as [o|] eqn:Ho; [|done]. injection Hk as Hk Hs.
  apply (dropped_core _ _ _ _ _ o); try done. rewrite Hs. by exists a.
Qed.

Lemma gone_dequeue c op x : gone c x -> gone (fst (dequeueLocked c op)) x.
Proof. apply gone_frame; [apply dequeue_kinds|apply dequeue_subs]. Qed.

Lemma next_loop_core cs W h l : forall c P R dropped,
  queue_inv (ctrlQueue c) P R ∅ ∅ W c -> core_inv P h ∅ c -> (forall op, op ∈ P <-> op ∈ dropped) -> (forall op, op ∈ dropped -> gone c op) -> NoDup dropped ->
  NoDup l -> (forall op, op ∈ l -> op ∈ ctrlQueue c) ->
  let '(c', dropped', next) := next_loop cs l c dropped in
  exists P', core_inv P' h ∅ c' /\ (forall op, op ∈ P' <-> op ∈ dropped') /\ (forall op, op ∈ dropped' -> gone c' op) /\ NoDup dropped' /\ h_subs c' = h_subs c.
Proof.
  induction l as [|op l IH]; intros c P R dropped Q I HP Hg Hnd Hl Hq; cbn [next_loop]; [by exists P|].
  apply NoDup_cons in Hl as [Hop Hl]. assert (Hq' : forall y, y ∈ l -> y ∈ ctrlQueue c) by (intros y Hy; apply Hq; by right).
  destruct (h_ops c !! op) as [o|] eqn:Ho; [|by apply (IH c P R)]. destruct (bool_decide _); [by apply (IH c P R)|].
  destruct (droppable c o) eqn:Hd; [|by exists P].
  unfold droppable in Hd. rewrite !andb_true_iff, !bool_decide_eq_true in Hd. destruct Hd as [[Hk Hs] _].
  pose proof (dequeue_inv _ _ _ _ _ _ op Q ltac:(apply not_elem_of_empty)) as H. pose proof (dequeue_core _ _ _ _ _ _ _ _ op Q ltac:(apply not_elem_of_empty) I) as Hc.
  pose proof (fun x => gone_dequeue c op x) as Hgd. pose proof (dequeue_subs c op) as Hsd.
  destruct (dequeueLocked c op) as [c1 [id|]]; cbn [fst] in *; [|destruct H as [_ H]; destruct H; apply Hq; by left].
  destruct H as (Hin & Q1 & _ & _ & Hq1). specialize (IH c1 ({[op]} ∪ P) _ (dropped ++ [op]) Q1 Hc).
  destruct (next_loop cs l c1 (dropped ++ [op])) as [[c' dropped'] next]. destruct IH as (P' & I' & HP' & Hg' & Hnd' & Hs').
  - intros x. rewrite elem_of_union, elem_of_singleton, elem_of_app, list_elem_of_singleton, HP. tauto.
  - intros x [Hx| ->%list_elem_of_singleton]%elem_of_app; [by apply Hgd, Hg|]. apply Hgd. destruct (h_subs c !! o_sub o) as [a|] eqn:Ha; [|done].
    exists (o_sub o), a. split; [unfold kinds; rewrite lookup_fmap, Ho; cbn; by rewrite Hk|]. split; [done|]. injection Hs as Hs. unfold live. tauto.
  - apply NoDup_app. split; [done|]. split; [|apply NoDup_singleton]. intros x Hx%HP ->%list_elem_of_singleton.
    destruct (taken_core _ _ _ _ _ _ _ Q _ Hx) as (y & _ & Hy & Hf & _). apply (a_queued _ _ _ _ _ _ _ Q) in Hin as (z & Hz & Hkz).
    rewrite Hy in Hz. injection Hz as <-. cbn in Hkz. congruence.
  - done.
  - intros x Hx. apply Hq1. split; [auto|]. by intros ->.
  - exists P'. split_and!; try done. congruence.
Qed.

Lemma untag_filter_kinds ident c f : kinds (untag_filter ident c f) = kinds c /\ h_subs (untag_filter ident c f) = h_subs c.
Proof. unfold untag_filter. destruct (broker_sub c (f_Topic f)) as [[b bs]|]; [|done]. by destruct (Index _ _). Qed.

Lemma untag_op_core P h D c op :
  core_inv P h D c -> core_inv P h D (untagLocked c op) /\ kinds (untagLocked c op) = kinds c /\ h_subs (untagLocked c op) = h_subs c.
Proof.
  intros I. unfold untagLocked. destruct (h_ops c !! op) as [o|]; [|done].
  apply (foldl_inv (fun d => core_inv P h D d /\ kinds d = kinds c /\ h_subs d = h_subs c)); [|done].
  intros d f (Id & Hk & Hs). destruct (untag_filter_kinds (o_ident o) d f). split; [by apply untag_core|]. split; congruence.
Qed.

(** The operations a step gave up on are answered. *)
Lemma complete_gone h (l : list (Z * ctrlResult)) : forall P D c,
  core_inv P h D c -> (forall op, op ∈ P <-> op ∈ l.*1) -> (forall op, op ∈ l.*1 -> gone c op) ->
  core_inv ∅ h D (foldl (fun c p => complete c p.1 p.2) c l) /\ h_subs (foldl (fun c p => complete c p.1 p.2) c l) = h_subs c.
Proof.
  induction l as [|[op r] l IH]; intros P D c I HP Hg; cbn [foldl].
  - split; [|done]. assert (P = ∅) as -> by (apply leibniz_equiv; intros x; rewrite HP, elem_of_empty; cbn; by rewrite elem_of_nil). done.
  - cbn [fmap list_fmap fst] in *. assert (Hg' : forall x, x ∈ l.*1 -> gone (complete c op r) x) by (intros x Hx; apply (gone_frame c); [apply complete_kinds|done|apply Hg; by right]).
    destruct (decide (op ∈ l.*1)) as [Hin|Hin].
    + destruct (IH P D (complete c op r)) as [I' Hs']; [by apply complete_core| |done|split; [exact I'|exact Hs']].
      intros x. rewrite HP, elem_of_cons. split; [intros [->|?]; done|by right].
    + destruct (IH (P ∖ {[op]}) D (complete c op r)) as [I' Hs']; [|  |done|split; [exact I'|exact Hs']].
      * apply complete_core. apply gone_core; [done|apply HP; by left|apply Hg; by left].
      * intros x. rewrite elem_of_difference, elem_of_singleton, HP, elem_of_cons. split; [tauto|]. intros Hx. split; [by right|]. by intros ->.
Qed.

(** [nextToSend] *)
Lemma next_core R W c cs : queue_ok R ∅ W c -> core_ok ∅ c -> core_ok ∅ (fst (nextToSend c cs)) /\ h_subs (fst (nextToSend c cs)) = h_subs c.
Proof.
  intros Q I. unfold nextToSend.
  pose proof (next_loop_core (cs_name cs) W (held c) (ctrlQueue c) c ∅ R [] Q I ltac:(intros x; by rewrite elem_of_empty, elem_of_nil)
    ltac:(by intros x ?%elem_of_nil) ltac:(constructor) (a_nodup _ _ _ _ _ _ _ Q) ltac:(done)) as H.
  destruct (next_loop _ _ c []) as [[c1 dropped] next]. destruct H as (P & I1 & HP & Hg & Hnd & Hs). cbn [fst].
  assert (H2 : core_inv P (held c) ∅ (foldl untagLocked c1 dropped) /\ kinds (foldl untagLocked c1 dropped) = kinds c1 /\ h_subs (foldl untagLocked c1 dropped) = h_subs c1).
  { apply (foldl_inv (fun d => core_inv P (held c) ∅ d /\ kinds d = kinds c1 /\ h_subs d = h_subs c1)); [|done].
    intros d op (Id & Hk & Hsd). destruct (untag_op_core _ _ _ _ op Id) as (I2 & Hk2 & Hs2). split; [done|]. split; congruence. }
  destruct H2 as (I2 & Hk2 & Hs2). set (c2 := foldl untagLocked c1 dropped) in *. clearbody c2.
  set (l := (fun op => (op, ErrClosed_result)) <$> dropped). assert (Hl : l.*1 = dropped) by (subst l; rewrite <- list_fmap_compose; apply list_fmap_id).
  assert (E : foldl (fun c op => complete c op ErrClosed_result) c2 dropped = foldl (fun c p => complete c p.1 p.2) c2 l).
  { subst l. clear. revert c2. induction dropped; cbn; [done|]. intros c. apply IHdropped. }
  rewrite E. destruct (complete_gone (held c) l P ∅ c2 I2) as [I3 Hs3]; [by rewrite Hl|rewrite Hl; intros x Hx; apply (gone_frame c1); auto|].
  assert (Hs4 : h_subs (foldl (fun c p => complete c p.1 p.2) c2 l) = h_subs c) by congruence. split; [|done].
  eapply core_ext; [|exact I3]. intros s f. unfold held. by rewrite Hs4.
Qed.

Lemma core_ok_of P c c' : h_subs c' = h_subs c -> core_inv P (held c) ∅ c' -> core_ok P c'.
Proof. intros E I. eapply core_ext; [|exact I]. intros s f. unfold held. by rewrite E. Qed.

Lemma core_ok_set P P' c : P ≡ P' -> core_ok P c -> core_ok P' c.
Proof. by intros ->%leibniz_equiv. Qed.

Lemma dequeue_ok R U W c op :
  queue_ok R U W c -> core_ok ∅ c ->
  match dequeueLocked c op with
  | (c', Some _) => core_ok ({[op]} ∪ ∅) c'
  | (c', None) => c' = c
  end.
Proof.
  intros Q I. pose proof (dequeue_core _ _ _ _ _ _ _ _ op Q ltac:(apply not_elem_of_empty) I) as H. pose proof (dequeue_subs c op) as Hs.
  destruct (dequeueLocked c op) as [c' [id|]]; [|done]. by apply (core_ok_of _ c).
Qed.

Lemma close_sub_subs c sub err s :
  h_subs (closeSubLocked c sub err) !! s
  = if decide (s = sub) then (fun a => if decide (live a) then a <| s_state := subClosed |> <| s_err := err |> else a) <$> h_subs c !! s else h_subs c !! s.
Proof.
  unfold closeSubLocked. destruct (h_subs c !! sub) as [a|] eqn:Ha.
  2: { destruct (decide (s = sub)) as [->|]; [by rewrite Ha|done]. }
  destruct (decide (s_state a = subClosed)) as [Hc|Hc].
  - destruct (decide (s = sub)) as [->|]; [|done]. rewrite Ha. cbn. by rewrite decide_False by (unfold live; tauto).
  - set (c1 := _ <| activeSubs ::= _ |>). change (h_subs (close_route (foldl (fun c f => dropHolderLocked sub c (f_Topic f)) c1 (s_filters a)) (s_route a)))
      with (h_subs (foldl (fun c f => dropHolderLocked sub c (f_Topic f)) c1 (s_filters a))). rewrite drops_subs.
    change (h_subs c1) with (h_subs (upd_sub sub (fun s => s <| s_state := subClosed |> <| s_err := err |>) c)). rewrite upd_sub_lookup.
    destruct (decide (s = sub)) as [->|]; [|done]. rewrite Ha. cbn. by rewrite decide_True.
Qed.

Lemma close_sub_kinds c sub err : kinds (closeSubLocked c sub err) = kinds c.
Proof.
  unfold closeSubLocked. destruct (h_subs c !! sub) as [a|]; [|done]. destruct (decide _); [done|].
  transitivity (kinds (foldl (fun c f => dropHolderLocked sub c (f_Topic f)) ((upd_sub sub (fun s => s <| s_state := subClosed |> <| s_err := err |>) c) <| activeSubs ::= fun m => m ∖ {[sub]} |>) (s_filters a))); [done|].
  rewrite (foldl_frame kinds (fun c f => dropHolderLocked sub c (f_Topic f))); [done|].
  intros d f. unfold dropHolderLocked. destruct (broker_sub d (f_Topic f)) as [[b bs]|]; [|done]. by destruct (Index _ _).
Qed.

Lemma release_for_ok P c op id : core_ok P c -> core_ok P (release_for c op id).
Proof. apply core_ok_frame, release_for_part. Qed.

Definition name_part (c : client) := (kinds c, next_op c, ctrlQueue c).

Lemma fresh_frame c c' : name_part c' = name_part c -> fresh_name c -> fresh_name c'.
Proof. unfold fresh_name, name_part. intros H. by injection H as -> -> ->. Qed.

Lemma name_all c c' : kinds c' = kinds c -> queue_all c' = queue_all c -> name_part c' = name_part c.
Proof. unfold name_part, queue_all, queue_part. congruence. Qed.

Lemma release_for_names c op id : name_part (release_for c op id) = name_part c.
Proof. unfold release_for. destruct (h_ops c !! op); [by destruct (_ =? 0)|done]. Qed.

Lemma complete_names c op r : name_part (complete c op r) = name_part c.
Proof. unfold name_part. by rewrite complete_kinds. Qed.

(** [failCtrl] *)
Lemma fail_core R U W ord c op err : queue_ok R U W c -> core_ok ∅ c -> core_ok ∅ (failCtrl ord c op err).
Proof.
  intros Q I. unfold failCtrl. pose proof (dequeue_ok _ _ _ _ op Q I) as H. pose proof (dequeue_subs c op) as Hsd. pose proof (dequeue_kinds c op) as Hk.
  pose proof (dequeue_inv _ _ _ _ _ _ op Q ltac:(apply not_elem_of_empty)) as Hd.
  destruct (dequeueLocked c op) as [c1 [stale|]]; cbn [fst] in *; [|subst c1; by destruct (h_ops c !! op)].
  destruct Hd as ((k & Hx & _)%(a_queued _ _ _ _ _ _ _ Q) & Q1 & _). rewrite ops_lookup in Hx. destruct (h_ops c !! op) as [o|] eqn:Ho; [|done].
  assert (Hko : kinds c1 !! op = Some (o_kind o, o_sub o)) by (rewrite Hk; unfold kinds; by rewrite lookup_fmap, Ho). clear Hx Hk.
  pose proof (queue_fresh _ _ _ _ _ _ Q1) as Hfr. assert (Hin : op ∈ ({[op]} ∪ ∅ : gset Z)) by apply elem_of_one.
  assert (Hend : forall c2, core_ok (({[op]} ∪ ∅) ∖ {[op]}) c2 -> core_ok ∅ (complete (release_for c2 op stale) op (mkCtrlResult [] (Some err)))).
  { intros c2 I2. apply (core_ok_set _ ∅) in I2; [|apply taken_back]. apply (core_ok_frame _ (release_for c2 op stale)); [by apply upd_op_core|by apply release_for_ok]. }
  destruct (o_kind o) eqn:Hkind.
  - destruct (untag_op_core _ _ _ _ op H) as (I2 & Hk2 & Hs2). pose proof (untag_frame c1 op) as Hq2.
    apply (core_ok_of _ c1) in I2; [|done]. set (c2 := untagLocked c1 op) in *. clearbody c2.
    pose proof (close_sub_core _ c2 (o_sub o) (Some err) I2) as I3. pose proof (close_sub_kinds c2 (o_sub o) (Some err)) as Hk3.
    pose proof (close_sub_subs c2 (o_sub o) (Some err) (o_sub o)) as Hs3. rewrite decide_True in Hs3 by done.
    pose proof (close_sub_frame c2 (o_sub o) (Some err)) as Hq3. set (c3 := closeSubLocked c2 _ _) in *. clearbody c3.
    destruct (queue_subs_exist _ _ _ _ _ _ _ Q op o Ho Hkind) as [a Ha]. rewrite Hs2, Hsd, Ha in Hs3. cbn in Hs3.
    assert (Hg : gone c3 op).
    { exists (o_sub o), (if decide (live a) then a <| s_state := subClosed |> <| s_err := Some err |> else a). rewrite Hk3, Hk2. split; [done|]. split; [done|].
      destruct (decide (live a)); [|done]. unfold live. cbn. tauto. }
    apply settle_core; [|apply Hend; by apply gone_core].
    apply (fresh_frame c1); [|done]. rewrite complete_names, release_for_names. transitivity (name_part c2); by apply name_all.
  - assert (Hret : core_ok (({[op]} ∪ ∅) ∖ {[op]}) (unretireLocked c1 op)).
    { unfold kinds in Hko. rewrite lookup_fmap in Hko. destruct (h_ops c1 !! op) as [o1|] eqn:Ho1; [|done]. injection Hko as Hk1 _.
      apply (core_ok_of _ c1); [pose proof (unretire_subs c1 op) as E; unfold subs_part in E; congruence|]. by apply (unretire_core _ _ _ _ _ o1). }
    by apply Hend.
Qed.

(** ** Answers *)

Lemma occ_take_drop (x : Z) l k : occ x (take k l) + occ x (drop k l) = occ x l.
Proof. rewrite <- occ_app, take_drop. done. Qed.

Lemma core_dirty P h D c f : core_inv P h D c -> core_inv P h ({[f]} ∪ D) c.
Proof. apply core_weaken. intros x Hx. by apply elem_of_union_r. Qed.

Lemma answer_ids_core P h D c ident refused f b bs :
  core_inv P h D c -> brokerSubs c !! f = Some b -> h_bsubs c !! b = Some bs -> core_inv P h ({[f]} ∪ D) (answer_ids ident refused c b bs).
Proof.
  intros I Hf Hb. unfold answer_ids. destruct (Index (b_ids bs) ident) as [k|] eqn:Hi; [|by apply core_dirty].
  pose proof (h_count _ _ (i_held _ _ _ _ I) _ _ _ Hf Hb) as Hc. pose proof (n_positive _ _ (i_counts _ _ _ _ I)) as Hpos.
  pose proof (fun x => counted_ids _ _ _ _ _ _ _ x I Hf Hb) as Hcnt. destruct refused.
  - assert (Hin : 1 <= refs (identRefs c) ident).
    { pose proof (Hcnt ident). assert (0 < occ ident (b_ids bs)); [|lia]. apply occ_pos. destruct (Index_Some _ _ _ Hi) as (l1 & l2 & -> & _). apply elem_of_app. right. by left. }
    apply (bs_updated P h D c f b bs (fun bs => bs <| b_ids ::= fun l => Delete l k (S k) |>) (release_ident (identRefs c) ident) h); try done.
    + intros x. rewrite refs_release by done.
      change (b_ids (bs <| b_ids ::= fun l => Delete l k (S k) |>)) with (Delete (b_ids bs) k (S k)). rewrite (occ_Delete _ _ _ _ Hi). lia.
    + by apply positive_release.
  - destruct (refs_releases (take k (b_ids bs)) (identRefs c) Hpos) as [Hpos' Hrefs].
    { intros x. pose proof (Hcnt x). pose proof (occ_take_drop x (b_ids bs) k). pose proof (occ_nonneg x (drop k (b_ids bs))). lia. }
    apply (bs_updated P h D c f b bs (fun bs => bs <| b_ids ::= fun l => Delete l 0 k |>) (foldl release_ident (identRefs c) (take k (b_ids bs))) h); try done.
    intros x. rewrite Hrefs. change (b_ids (bs <| b_ids ::= fun l => Delete l 0 k |>)) with (Delete (b_ids bs) 0 k). rewrite Delete_prefix.
    pose proof (occ_take_drop x (b_ids bs) k). lia.
Qed.

Lemma upd_bs_quiet b g c : (forall bs, bs_quiet (g bs) = bs_quiet bs) -> core_part (upd_bs b g c) = core_part c.
Proof. intros H. unfold core_part, link_part, rest_part, upd_bs. cbn [brokerSubs h_bsubs router next_bsub h_subs identRefs ctrlQueue h_ops activeSubs update]. by rewrite (fmap_alter_same bs_quiet). Qed.

Lemma answer_ids_bs ident refused c b bs : brokerSubs (answer_ids ident refused c b bs) = brokerSubs c.
Proof. unfold answer_ids. destruct (Index _ _); [|done]. by destruct refused. Qed.

Definition answered (h : holdings) (o : ctrlOp) (live : bool) (p : TopicFilter * Z) : holdings :=
  if IsError p.2 && live then minus h (o_sub o) (f_Topic p.1) else h.

Lemma answer_core P h D c o live p : core_inv P h D c -> core_inv P (answered h o live p) D (answer_one o live c p).
Proof.
  intros I. destruct p as [f rc]. unfold answered. cbn [answer_one fst snd]. pose proof (i_shaped _ _ _ _ I) as H.
  destruct (broker_sub c (f_Topic f)) as [[b bs]|] eqn:E.
  2: { apply broker_sub_None in E; [|done]. destruct (_ && _); [|done]. eapply core_ext; [|exact I]. intros s f'. unfold minus. destruct (decide _) as [[-> ->]|]; [|done].
       by rewrite (held_zero _ _ _ _ (i_held _ _ _ _ I) E). }
  apply broker_sub_Some in E as [Hf Hb]; [|done]. pose proof (answer_ids_core _ _ _ _ (o_ident o) (IsError rc) _ _ _ I Hf Hb) as I1.
  pose proof (answer_ids_bs (o_ident o) (IsError rc) c b bs) as Hbs1. set (c1 := answer_ids _ _ _ _ _) in *. clearbody c1.
  set (c2 := if IsError rc then c1 else _). assert (I2 : core_inv P h ({[f_Topic f]} ∪ D) c2).
  { subst c2. destruct (IsError rc); [done|]. apply (core_frame _ _ _ c1); [by apply upd_bs_quiet|done]. }
  assert (Hf2 : brokerSubs c2 !! f_Topic f = Some b) by (subst c2; destruct (IsError rc); by rewrite <- Hf, <- Hbs1). clearbody c2.
  destruct (m_bs _ (i_shaped _ _ _ _ I2) _ _ Hf2) as (bs2 & Hb2 & _).
  apply (republished_same _ _ _ _ (f_Topic f)); [|exact Hf2].
  destruct (IsError rc && live).
  - pose proof (minus_holders _ _ _ _ _ _ _ (o_sub o) I2 Hf2 Hb2) as Hm. unfold answer_holders.
    apply (core_weaken _ _ ({[f_Topic f]} ∪ ({[f_Topic f]} ∪ D))); [intros x; rewrite !elem_of_union; tauto|].
    apply (bs_updated_same P h _ c2 _ b bs2); try done.
    + by destruct (Index _ _).
    + intros s. destruct (Index _ _) as [i|] eqn:Hi; [apply Hm|]. rewrite <- Hm. apply (h_count _ _ (i_held _ _ _ _ I2) _ _ _ Hf2 Hb2).
    + intros s f' Hne. by apply minus_other.
    + by destruct (Index _ _).
  - apply (core_frame _ _ _ c2); [by apply upd_bs_quiet|done].
Qed.

(** What a SUBACK refuses and grants. *)
Definition refused_of (fs : list TopicFilter) (codes : list Z) : list TopicFilter := map fst (List.filter (fun p => IsError (snd p)) (zip fs codes)).
Definition granted_of (fs : list TopicFilter) (codes : list Z) : list TopicFilter := map r_Filter (List.filter Granted (zip_with mkResult fs codes)).

Lemma answered_split f (fs : list TopicFilter) : forall codes, len codes = len fs ->
  occ f (f_Topic <$> fs) = occ f (f_Topic <$> granted_of fs codes) + occ f (f_Topic <$> refused_of fs codes).
Proof.
  induction fs as [|g fs IH]; intros [|rc codes] Hl; rewrite ?len_cons, ?len_nil in Hl; [done|pose proof (len_nonneg codes); lia|pose proof (len_nonneg fs); lia|].
  specialize (IH codes ltac:(lia)). unfold granted_of, refused_of in *. cbn [zip zip_with List.filter]. unfold Granted at 1. cbn [r_Reason snd].
  destruct (IsError rc); cbn [negb map fmap list_fmap fst r_Filter]; rewrite !occ_cons; lia.
Qed.

Lemma answered_all o (fs : list TopicFilter) codes : forall h,
  foldl (fun h p => answered h o true p) h (zip fs codes) = minus_all h (o_sub o) (refused_of fs codes).
Proof.
  revert codes. induction fs as [|g fs IH]; intros [|rc codes] h; try done. cbn [zip zip_with foldl]. rewrite IH. unfold answered, refused_of, minus_all. cbn.
  rewrite andb_true_r. by destruct (IsError rc).
Qed.

Lemma answered_none o (l : list (TopicFilter * Z)) : forall h, foldl (fun h p => answered h o false p) h l = h.
Proof. induction l as [|p l IH]; intros h; [done|]. cbn [foldl]. rewrite IH. unfold answered. by rewrite andb_false_r. Qed.

Lemma answers_core P D o live (l : list (TopicFilter * Z)) : forall h c,
  core_inv P h D c -> core_inv P (foldl (fun h p => answered h o live p) h l) D (foldl (answer_one o live) c l).
Proof. induction l as [|p l IH]; intros h c I; [done|]. apply IH. by apply answer_core. Qed.

Lemma answer_local o live c p : (h_subs (answer_one o live c p), h_ops (answer_one o live c p), activeSubs (answer_one o live c p)) = (h_subs c, h_ops c, activeSubs c).
Proof.
  destruct p as [f rc]. cbn [answer_one]. destruct (broker_sub c (f_Topic f)) as [[b bs]|]; [|done]. unfold answer_ids. destruct (IsError rc); by destruct (Index _ _).
Qed.

Lemma uncount_part c op : core_part (uncountLocked c op) = core_part c /\ h_subs (uncountLocked c op) = h_subs c /\ kinds (uncountLocked c op) = kinds c.
Proof.
  unfold uncountLocked. destruct (h_ops c !! op) as [o|]; [|done]. rewrite upd_op_core, kinds_upd by done. set (c1 := foldl _ c _).
  assert (H : core_part c1 = core_part c /\ h_subs c1 = h_subs c /\ kinds c1 = kinds c); [|split; [apply H|]; split; [|apply H]; change (h_subs c1 = h_subs c); apply H].
  subst c1. apply (foldl_inv (fun d => core_part d = core_part c /\ h_subs d = h_subs c /\ kinds d = kinds c)); [|done]. intros d b (H1 & H2 & H3).
  rewrite upd_bs_quiet by done. done.
Qed.

Lemma upd_sub_compose s f g c : upd_sub s g (upd_sub s f c) = upd_sub s (fun a => g (f a)) c.
Proof. unfold upd_sub, update. destruct c. cbn. f_equal. apply map_eq. intros i. destruct (decide (i = s)) as [->|Hne].
  - rewrite !lookup_alter_eq. by destruct (_ !! s).
  - by rewrite !lookup_alter_ne by congruence.
Qed.

Lemma upd_sub_const s f c a : h_subs c !! s = Some a -> upd_sub s f c = upd_sub s (fun _ => f a) c.
Proof.
  intros Ha. unfold upd_sub, update. destruct c. cbn in *. f_equal. apply map_eq. intros i. destruct (decide (i = s)) as [->|Hne].
  - by rewrite !lookup_alter_eq, Ha.
  - by rewrite !lookup_alter_ne by congruence.
Qed.

Lemma held_updated c sub a' s f : is_Some (h_subs c !! sub) ->
  held (upd_sub sub (fun _ => a') c) s f = if decide (s = sub) then (if decide (live a') then occ f (topics a') else 0) else held c s f.
Proof. intros [a Ha]. unfold held. rewrite upd_sub_lookup. destruct (decide (s = sub)) as [->|]; [by rewrite Ha|done]. Qed.

Lemma routes_updated c sub a a' : h_subs c !! sub = Some a -> s_route a' = s_route a -> s_route <$> h_subs (upd_sub sub (fun _ => a') c) = s_route <$> h_subs c.
Proof.
  intros Ha Hr. apply map_eq. intros s. rewrite !lookup_fmap, upd_sub_lookup. destruct (decide (s = sub)) as [->|]; [|done]. rewrite Ha. cbn. by rewrite Hr.
Qed.

(** The subscription goes on with what was granted ... *)
Lemma granted_core P h c sub op a o a' :
  core_inv P h ∅ c -> op ∈ P -> h_ops c !! op = Some o -> o_kind o = KSubscribe -> o_sub o = sub -> o_queued o = false -> h_subs c !! sub = Some a -> live a ->
  s_state a' = subActive -> s_op a' = None -> s_filters a' <> [] -> s_route a' = s_route a ->
  (forall s f, h s f = if decide (s = sub) then occ f (topics a') else held c s f) ->
  core_ok (P ∖ {[op]}) (upd_sub sub (fun _ => a') c).
Proof.
  intros I Hp Ho Hk Hs Hq Ha Hl Hst Hop Hfs Hr Hh. set (c' := upd_sub sub (fun _ => a') c).
  assert (L : linked (P ∖ {[op]}) c') by (by apply (answered_links P c sub op a o); [apply I|..]).
  assert (I0 : core_inv P h ∅ c) by done. destruct I as [_ H Hhd V [N1 N2 N3]].
  assert (I1 : core_inv (P ∖ {[op]}) h ∅ c').
  { split; [done|by apply (shaped_frame c)|by split; apply Hhd| |].
    - intros f b bs Hf Hb HD. rewrite (V f b bs Hf Hb HD). symmetry. apply view_of_ext; try done. by apply (routes_updated c sub a).
    - split; [|exact N2|exact N3]. intros id. change (identRefs c') with (identRefs c). rewrite N1, (reserved_taken P c op o Hp Ho), (N3 op o Ho Hk). done. }
  eapply core_ext; [|exact I1]. intros s f. rewrite Hh. unfold c'. rewrite held_updated by eauto. destruct (decide (s = sub)); [|done].
  rewrite decide_True; [done|]. unfold live. congruence.
Qed.

(** ... or ends, when everything was refused. *)
Lemma refused_core P h c sub op a o a' r :
  core_inv P h ∅ c -> op ∈ P -> h_ops c !! op = Some o -> o_kind o = KSubscribe -> o_sub o = sub -> h_subs c !! sub = Some a ->
  s_state a' = subClosed -> s_route a' = s_route a -> (forall s f, h s f = if decide (s = sub) then 0 else held c s f) ->
  core_ok (P ∖ {[op]}) (close_route ((upd_sub sub (fun _ => a') c) <| activeSubs ::= fun m => m ∖ {[sub]} |>) r).
Proof.
  intros I Hp Ho Hk Hs Ha Hst Hr Hh. set (c1 := _ <| activeSubs ::= _ |>). set (c' := close_route c1 r).
  assert (L : linked P c1) by (apply closed_links; [done|apply I]).
  assert (I1 : core_inv P h ∅ c1).
  { apply (core_relink P _ _ c); [|done|done]. unfold rest_part. change (s_route <$> h_subs c1) with (s_route <$> h_subs (upd_sub sub (fun _ => a') c)). by rewrite (routes_updated c sub a). }
  assert (I2 : core_inv (P ∖ {[op]}) h ∅ c').
  { apply (core_frame _ _ _ c1); [done|]. apply (dropped_core _ _ _ _ op o); try done. exists a'. rewrite Hs. split.
    - change (h_subs c1 !! sub) with (h_subs (upd_sub sub (fun _ => a') c) !! sub). by rewrite upd_sub_lookup, decide_True, Ha.
    - unfold live. tauto. }
  eapply core_ext; [|exact I2]. intros s f. rewrite Hh. change (held c' s f) with (held (upd_sub sub (fun _ => a') c) s f). rewrite held_updated by eauto.
  destruct (decide (s = sub)); [|done]. rewrite decide_False; [done|]. unfold live. tauto.
Qed.

(** [completeSubscribe] *)
Lemma complete_subscribe_core P c op o codes rej :
  core_ok P c -> op ∈ P -> h_ops c !! op = Some o -> o_kind o = KSubscribe -> o_queued o = false -> is_Some (h_subs c !! o_sub o) -> len codes = len (o_filters o) ->
  core_ok (P ∖ {[op]}) (completeSubscribe c op codes rej).
Proof.
  intros I Hp Ho Hk Hq [a Ha] Hlen. unfold completeSubscribe. rewrite Ho, Ha. destruct (uncount_part c op) as (E1 & Hs1 & Hk1).
  set (live0 := negb (bool_decide (s_state a = subClosed))). assert (I1 : core_inv P (held c) ∅ (uncountLocked c op)) by (by apply (core_frame _ _ _ c)).
  set (c1 := uncountLocked c op) in *. clearbody c1. pose proof (answers_core P ∅ o live0 (zip (o_filters o) codes) _ _ I1) as I2.
  pose proof (foldl_frame (fun c => (h_subs c, h_ops c, activeSubs c)) (answer_one o live0) (answer_local o live0) (zip (o_filters o) codes) c1) as H2.
  set (c2 := foldl (answer_one o live0) c1 (zip (o_filters o) codes)) in *. clearbody c2. injection H2 as Hs2 Ho2 _.
  assert (Ha2 : h_subs c2 !! o_sub o = Some a) by (by rewrite Hs2, Hs1). assert (Hh : forall s f, held c2 s f = held c s f) by (intros; unfold held; by rewrite Hs2, Hs1).
  assert (Hop2 : exists o2, h_ops c2 !! op = Some o2 /\ op_core o2 = op_core o).
  { apply (fmap_Some_core op_core (h_ops c2) (h_ops c)); [|done]. rewrite Ho2. unfold core_part, link_part in E1. congruence. }
  destruct Hop2 as (o2 & Hop2 & Hoc). unfold op_core in Hoc. injection Hoc as K1 K2 K3 K4.
  assert (Hend : forall c3 r, core_ok (P ∖ {[op]}) c3 -> core_ok (P ∖ {[op]}) (complete c3 op r)) by (intros c3 r I3; apply (core_ok_frame _ c3); [by apply upd_op_core|done]).
  subst live0. destruct (bool_decide_reflect (s_state a = subClosed)) as [Hcl|Hcl]; cbn [negb] in *.
  - rewrite answered_none in I2. apply Hend. apply (core_ok_of _ c); [by rewrite Hs2|]. apply (dropped_core _ _ _ _ _ o2); try done; [congruence|].
    exists a. rewrite K2. split; [done|]. unfold live. tauto.
  - rewrite answered_all in I2. set (results := zip_with mkResult (o_filters o) codes). change (map r_Filter (List.filter Granted results)) with (granted_of (o_filters o) codes).
    destruct (k_queued _ _ (i_linked _ _ _ _ I) op o Ho (or_intror Hp) Hk) as (a0 & Ha0 & Hsop). replace a0 with a in Hsop by congruence. specialize (Hsop Hcl).
    destruct (k_op _ _ (i_linked _ _ _ _ I) _ _ _ Ha Hcl Hsop) as (o0 & Ho0 & _ & _ & Hfs & _). replace o0 with o in Hfs by congruence. clear o0 Ho0 a0 Ha0.
    assert (Hh2 : forall s f, minus_all (held c) (o_sub o) (refused_of (o_filters o) codes) s f
      = if decide (s = o_sub o) then occ f (f_Topic <$> granted_of (o_filters o) codes) else held c2 s f).
    { intros s f. rewrite minus_all_spec, Hh by (intros; apply held_nonneg). destruct (decide _) as [->|]; [|done]. unfold held. rewrite Ha, decide_True by done.
      unfold topics. rewrite <- Hfs, (answered_split f (o_filters o) codes Hlen). pose proof (occ_nonneg f (f_Topic <$> granted_of (o_filters o) codes)). lia. }
    rewrite (upd_sub_const _ _ c2 a Ha2). cbn zeta. set (a1 := a <| s_op := None |> <| s_filters := _ |> <| s_results := _ |>).
    apply Hend. destruct (Z.eqb_spec (len (granted_of (o_filters o) codes)) 0) as [Hz|Hz].
    + assert (Hnil : granted_of (o_filters o) codes = []) by (destruct (granted_of _ _) as [|y k]; [done|rewrite len_cons in Hz; pose proof (len_nonneg k); lia]).
      unfold closeSubLocked. rewrite upd_sub_lookup, decide_True, Ha2 by done. cbn [fmap option_fmap option_map]. rewrite decide_False by done.
      rewrite upd_sub_compose. change (s_filters a1) with (granted_of (o_filters o) codes). rewrite Hnil. cbn [foldl].
      apply (refused_core P _ c2 (o_sub o) op a o2 _ _ I2); try done; [congruence|]. intros s f. rewrite Hh2, Hnil. done.
    + rewrite upd_sub_compose. apply (granted_core P _ c2 (o_sub o) op a o2 _ I2); try done; [congruence..|].
      cbn. intros Hn. rewrite Hn in Hz. done.
Qed.

(** [complete_op]: a SUBSCRIBE or an UNSUBSCRIBE is answered. *)
Lemma complete_op_core P c op o codes rej :
  subs_exist c -> core_ok P c -> op ∈ P -> h_ops c !! op = Some o -> o_queued o = false -> len codes = codeCount o -> core_ok (P ∖ {[op]}) (complete_op c op codes rej).
Proof.
  intros Q I Hp Ho Hq Hlen. unfold complete_op. rewrite Ho. cbn [fmap option_fmap option_map]. unfold codeCount in Hlen. destruct (o_kind o) eqn:Hk.
  - apply (complete_subscribe_core _ _ _ o); try done. by apply (Q op).
  - unfold completeUnsubscribe. apply (core_ok_frame _ (unretireLocked c op)); [by apply upd_op_core|].
    apply (core_ok_of _ c); [pose proof (unretire_subs c op) as E; unfold subs_part in E; congruence|]. by apply (unretire_core _ _ _ _ _ o).
Qed.

Lemma unregister_part c op : core_part (fst (unregisterLocked c op)) = core_part c.
Proof.
  unfold unregisterLocked. destruct (h_ops c !! op); [|done]. set (c1 := upd_op _ _ c). assert (core_part c1 = core_part c) as <- by by apply upd_op_core. by destruct (_ || _).
Qed.

(** The number of codes an operation expects. *)
Definition code_counts (c : client) : gmap Z Z := codeCount <$> h_ops c.

Lemma code_counts_upd op f c : (forall o, codeCount (f o) = codeCount o) -> code_counts (upd_op op f c) = code_counts c.
Proof. intros H. unfold code_counts, upd_op. cbn [h_ops update]. by apply fmap_alter_same. Qed.

Lemma unregister_codes c op : code_counts (fst (unregisterLocked c op)) = code_counts c.
Proof.
  unfold unregisterLocked. destruct (h_ops c !! op); [|done]. set (c1 := upd_op _ _ c). assert (code_counts c1 = code_counts c) as <- by by apply code_counts_upd. by destruct (_ || _).
Qed.

Lemma dequeue_codes c op : code_counts (fst (dequeueLocked c op)) = code_counts c.
Proof.
  unfold dequeueLocked. destruct (h_ops c !! op); [|done]. destruct (negb _); [done|]. set (c1 := match Index _ _ with Some _ => _ | None => _ end).
  assert (code_counts c1 = code_counts c) as <- by (subst c1; by destruct (Index _ _); rewrite <- (code_counts_upd op (fun o => o <| o_queued := false |>) c)).
  pose proof (unregister_codes c1 op) as H. by destruct (unregisterLocked c1 op).
Qed.

Lemma code_counts_at c c' op o : code_counts c' = code_counts c -> h_ops c !! op = Some o -> exists o', h_ops c' !! op = Some o' /\ codeCount o' = codeCount o.
Proof. intros E Ho. by apply (fmap_Some_core codeCount (h_ops c') (h_ops c)). Qed.

(** [deliverControlAck] *)
Lemma ack_core R U W c cs want id codes :
  queue_ok R U W c -> core_ok ∅ c -> core_ok ∅ (fst (deliverControlAck c cs want id codes)).
Proof.
  intros Q I. unfold deliverControlAck. destruct (ctrlOps c !! id) as [op|] eqn:Hr; [|done]. destruct (h_ops c !! op) as [o|] eqn:Ho; [|done].
  destruct (bool_decide _); [|done]. destruct (registered_unregister _ _ _ _ _ _ _ _ _ _ Q Hr ltac:(apply not_elem_of_empty) Ho) as (c1 & E1 & Q1 & _ & Hq1).
  pose proof (unregister_part c op) as Hp1. pose proof (unregister_codes c op) as Hc1. rewrite E1 in *. cbn [fst] in Hp1, Hc1. rewrite <- Hq1 in Q1.
  assert (I1 : core_ok ∅ c1) by (by apply (core_ok_frame _ c)). destruct (Z.eqb_spec (len codes) (codeCount o)) as [Hl|Hl]; cbn [negb].
  - pose proof (dequeue_ok _ _ _ _ op Q1 I1) as I2. pose proof (dequeue_inv _ _ _ _ _ _ op Q1 ltac:(apply not_elem_of_empty)) as Q2. pose proof (dequeue_codes c1 op) as Hc2.
    destruct (dequeueLocked c1 op) as [c2 [id'|]]; cbn [fst] in *; [|by subst c2; apply (core_ok_frame _ c1)].
    destruct Q2 as (_ & Q2 & _). destruct (code_counts_at c c2 op o (eq_trans Hc2 Hc1) Ho) as (o2 & Ho2 & Hn2).
    eapply core_ok_set; [apply taken_back|]. set (c3 := ReleaseID c2 id (owner o)).
    assert (I3 : core_ok ({[op]} ∪ ∅) c3) by (by apply (core_ok_frame _ c2)).
    destruct (taken_core _ _ _ _ _ _ _ Q2 op (elem_of_one _ _)) as (o3 & Ho3 & _ & Hq3 & _). replace o3 with o2 in Hq3 by congruence.
    apply (complete_op_core _ c3 op o2); try done; [|apply elem_of_one|congruence].
    intros x ox Hx. by apply (queue_subs_exist _ _ _ _ _ _ _ Q2 x).
  - cbn [fst]. apply (core_ok_frame _ (upd_op op (fun o => o <| o_conn := Some cs |>) c1)); [done|]. apply (core_ok_frame _ c1); [by apply upd_op_core|done].
Qed.

(** ** Connections *)

Lemma lose_all_core blamed R U W (l : list (Z * Z)) : forall c P rejected,
  queue_inv (ctrlQueue c) P R (list_to_set l.*2) U W c -> ctrlOps c = ∅ -> NoDup l.*2 -> core_ok P c -> (forall op, op ∈ P <-> op ∈ rejected) ->
  let (c', rejected') := foldl (lose_one blamed) (c, rejected) l in exists P', core_ok P' c' /\ (forall op, op ∈ P' <-> op ∈ rejected').
Proof.
  induction l as [|[id op] l IH]; intros c P rejected Q Hc Hl I HP; cbn [foldl]; [by exists P|].
  assert (Hn : forall x, unregistered c x) by (intros x i; by rewrite Hc, lookup_empty).
  cbn [fmap list_fmap snd list_to_set] in Q, Hl. apply NoDup_cons in Hl as [Hop Hl]. pose proof (id_forgotten _ _ _ _ _ _ _ Q op (list_to_set l.*2) (Hn op)) as Q1.
  specialize (Q1 ltac:(intros x Hx; rewrite elem_of_union, elem_of_singleton; tauto)). unfold lose_one at 2. cbn [snd].
  set (c1 := upd_op op _ c) in *. assert (I1 : core_ok P c1) by (apply (core_ok_frame _ c); [by apply upd_op_core|done]). destruct blamed; cbn [negb]; [|by apply (IH c1 P)].
  set (c2 := upd_op op _ c1). assert (H2 : queue_all c2 = queue_all c1) by by apply ops_same. assert (I2 : core_ok P c2) by (apply (core_ok_frame _ c1); [by apply upd_op_core|done]).
  apply (queue_inv_all _ _ _ _ _ _ _ H2) in Q1. assert (Hc2 : ctrlOps c2 = ∅) by done. clearbody c2. clear c1 H2 I1.
  destruct (_ <? _); [by apply (IH c2 P)|].
  assert (Hn2 : unregistered c2 op) by (intros i; by rewrite Hc2, lookup_empty). assert (HopS : op ∉ (list_to_set l.*2 : gset Z)) by by rewrite elem_of_list_to_set.
  pose proof (dequeue_inv _ _ _ _ _ _ op Q1 HopS) as H. pose proof (dequeue_unregistered c2 op Hn2) as H0. pose proof (dequeue_core _ _ _ _ _ _ _ _ op Q1 HopS I2) as I3.
  pose proof (fun i => dequeue_ctrlOps c2 op i) as Hc3. pose proof (dequeue_subs c2 op) as Hs3.
  destruct (dequeueLocked c2 op) as [c3 [id'|]]; cbn [fst snd] in *; [|by subst c3; apply (IH c2 P)].
  destruct H as (Hin & Q3 & _). subst id'. apply (IH c3 ({[op]} ∪ P)); [exact Q3| |done|by apply (core_ok_of _ c2)|].
  - apply map_eq. intros i. rewrite lookup_empty. destruct (Hc3 i) as [->| ->]; [done|]. by rewrite Hc2, lookup_empty.
  - intros x. rewrite elem_of_union, elem_of_singleton, elem_of_app, list_elem_of_singleton, HP. tauto.
Qed.

Lemma codeCount_nonneg o : 0 <= codeCount o.
Proof. unfold codeCount. destruct (o_kind o); apply len_nonneg. Qed.

Lemma reject_all_core reason R U W (l : list Z) : forall c P,
  queue_inv (ctrlQueue c) P R ∅ U W c -> core_ok P c -> (forall op, op ∈ P <-> op ∈ l) -> NoDup l -> (forall op, op ∈ P -> unregistered c op) ->
  core_ok ∅ (foldl (reject_one reason) c l).
Proof.
  induction l as [|op l IH]; intros c P Q I HP Hnd Hn; cbn [foldl].
  - eapply core_ok_set; [|exact I]. intros x. rewrite HP, elem_of_nil, elem_of_empty. done.
  - apply NoDup_cons in Hnd as [Hop Hnd]. assert (Hin : op ∈ P) by (apply HP; by left).
    unfold reject_one at 2. destruct (taken_core _ _ _ _ _ _ _ Q _ Hin) as (o & Ho & _ & Hq & _). rewrite Ho.
    set (codes := repeat _ _). set (err := Some _). destruct (complete_op_inv _ _ _ _ _ _ op codes err Q Hin (Hn _ Hin)) as [Q1 Hc].
    apply (IH _ (P ∖ {[op]})); [exact Q1| | |done|].
    + apply (complete_op_core _ _ _ o); try done; [by apply (queue_subs_exist _ _ _ _ _ _ _ Q)|]. pose proof (codeCount_nonneg o). unfold codes, len. rewrite repeat_length. lia.
    + intros x. rewrite elem_of_difference, elem_of_singleton, HP, elem_of_cons. split; [tauto|]. intros Hx. split; [by right|]. by intros ->.
    + intros x [Hx _]%elem_of_difference id. rewrite Hc. by apply Hn.
Qed.

Lemma releases_ok P (l : list (Z * Z)) c : core_ok P c -> core_ok P (foldl (fun c p => release_for c p.2 p.1) c l).
Proof. apply core_ok_frame. apply (foldl_frame core_part (fun c p => release_for c p.2 p.1)). intros. apply release_for_part. Qed.

(** [connectionLost] *)
Lemma lost_core R U W ord c sd : queue_ok R U W c -> core_ok ∅ c -> core_ok ∅ (connectionLost ord c sd).
Proof.
  intros Q I. unfold connectionLost. set (blamed := match sd with Some _ => _ | None => _ end). set (l := range ord (ctrlOps c)).
  pose proof (all_in_hand _ _ _ _ _ _ Q) as Q1. set (c1 := c <| ctrlOps := ∅ |>) in *.
  assert (HS : (list_to_set (map_to_list (ctrlOps c)).*2 : gset Z) = list_to_set l.*2) by (apply leibniz_equiv; unfold l; by rewrite range_perm).
  rewrite HS in Q1. change (ctrlQueue c) with (ctrlQueue c1) in Q1. pose proof (registered_nodup _ _ _ _ _ _ _ ord Q) as Hnd2.
  pose proof (lose_all_inv blamed _ _ _ l c1 ∅ [] Q1 eq_refl ltac:(intros x; by rewrite elem_of_empty, elem_of_nil) ltac:(constructor) Hnd2) as H.
  pose proof (lose_all_core blamed _ _ _ l c1 ∅ [] Q1 eq_refl Hnd2 (core_ok_frame _ c c1 eq_refl I) ltac:(intros x; by rewrite elem_of_empty, elem_of_nil)) as H'.
  destruct (foldl (lose_one blamed) (c1, []) l) as [c2 rejected]. destruct H as (P & Q2 & Hc2 & HP & Hnd). destruct H' as (P' & I2 & HP').
  apply (core_ok_set _ P) in I2; [|intros x; by rewrite HP, HP']. clear P' HP'.
  rewrite <- (range_to_map ord (ctrlOps c)) in Q2. apply release_all in Q2; [|apply NoDup_range|rewrite range_to_map; apply Q].
  fold l in Q2. destruct (releases_queue l c2) as [H1 H2]. rewrite <- H1 in Q2.
  apply (reject_all_core _ _ _ _ _ _ P Q2); [by apply releases_ok|done|done|]. intros op _ id. by rewrite H2, Hc2, lookup_empty.
Qed.

(** ** The whole queue taken apart *)

Definition queued_op (c : client) (op : Z) : Prop := exists o, h_ops c !! op = Some o /\ o_queued o = true.

Lemma unqueue_links {S} (π : S -> client) (step : S -> Z -> S) :
  (forall s op, link_part (π (step s op)) = link_part (upd_op op (fun o => o <| o_queued := false |>) (π s))) ->
  forall l s E, linked E (π s) -> NoDup l -> (forall op, op ∈ l -> queued_op (π s) op) -> linked (list_to_set l ∪ E) (π (foldl step s l)).
Proof.
  intros Hstep l. induction l as [|op l IH]; intros s E L Hnd Hq; cbn [foldl list_to_set].
  - eapply linked_set; [|exact L]. intros x. rewrite elem_of_union, elem_of_empty. tauto.
  - apply NoDup_cons in Hnd as [Hop Hnd]. destruct (Hq op ltac:(by left)) as (o & Ho & Hqo).
    pose proof (unqueued_links E (π s) op o L Ho (or_introl Hqo)) as L1. apply (linked_frame _ _ _ (Hstep s op)) in L1.
    eapply linked_set; [|apply (IH (step s op) ({[op]} ∪ E) L1 Hnd)]; [intros x; rewrite !elem_of_union; tauto|].
    intros x Hx. destruct (Hq x ltac:(by right)) as (ox & Hox & Hqx). specialize (Hstep s op). unfold link_part in Hstep. injection Hstep as _ _ E3.
    destruct (fmap_Some_core op_core (h_ops (π (step s op))) (h_ops (upd_op op (fun o => o <| o_queued := false |>) (π s))) x ox) as (ox' & Hox' & Hc); [done| |].
    + rewrite upd_op_lookup, decide_False; [done|]. by intros ->.
    + exists ox'. split; [done|]. unfold op_core in Hc. congruence.
Qed.

(** What is left when the queue has been taken apart. *)
Definition calm_part (c : client) :=
  (brokerSubs c, bs_quiet <$> h_bsubs c, router c, next_bsub c, s_route <$> h_subs c, identRefs c, op_reserve <$> h_ops c).

Lemma unqueue_core {S} (π : S -> client) (step : S -> Z -> S) R U W h c s :
  (forall s op, link_part (π (step s op)) = link_part (upd_op op (fun o => o <| o_queued := false |>) (π s))) ->
  (forall s op, calm_part (π (step s op)) = calm_part (π s)) -> (forall s op, ctrlQueue (π (step s op)) = ctrlQueue (π s)) ->
  queue_ok R U W c -> core_inv ∅ h ∅ c -> calm_part (π s) = calm_part c -> link_part (π s) = link_part c -> ctrlQueue (π s) = [] ->
  core_inv (list_to_set (ctrlQueue c) ∪ ∅) h ∅ (π (foldl step s (ctrlQueue c))).
Proof.
  intros H1 H2 H3 Q I Hc Hl Hq. apply (moved_core ∅ _ h ∅ c); [done| | |].
  - apply (unqueue_links π step H1); [by apply (linked_frame _ c); [|apply I]|apply Q|]. intros op Hop. apply (a_queued _ _ _ _ _ _ _ Q) in Hop as (k & Hk & Hkq).
    rewrite ops_lookup in Hk. destruct (h_ops c !! op) as [o|] eqn:Ho; [|done]. injection Hk as <-.
    unfold link_part in Hl. injection Hl as _ _ E3. destruct (fmap_Some_core op_core (h_ops (π s)) (h_ops c) op o (eq_sym E3) Ho) as (o' & Ho' & Hoc).
    exists o'. split; [done|]. unfold op_core in Hoc. cbn in Hkq. congruence.
  - change (calm_part (π (foldl step s (ctrlQueue c))) = calm_part c). rewrite <- Hc. by apply (foldl_frame (fun s => calm_part (π s))).
  - rewrite (foldl_frame (fun s => ctrlQueue (π s)) step H3), Hq, elements_empty, app_nil_r, union_empty_r_L. cbn. apply elements_list_to_set, Q.
Qed.

(** [closeAllSubs] *)
Lemma close_all_subs_ok P (l : list Z) : forall c, core_ok P c ->
  let c' := foldl (fun c sub => closeSubLocked c sub None) c l in
  core_ok P c' /\ kinds c' = kinds c /\ ctrlQueue c' = ctrlQueue c
  /\ (forall s a, h_subs c' !! s = Some a -> exists a0, h_subs c !! s = Some a0 /\ (live a -> (s ∉ l) /\ live a0)).
Proof.
  induction l as [|sub l IH]; intros c I; cbn [foldl].
  - split_and!; try done. intros s a Ha. exists a. split; [done|]. split; [apply not_elem_of_nil|done].
  - destruct (IH (closeSubLocked c sub None)) as (I1 & Hk & Hq & Hs); [by apply close_sub_core|]. cbn zeta. split_and!; [done|by rewrite Hk, close_sub_kinds| |].
    + rewrite Hq. pose proof (close_sub_frame c sub None) as E. unfold queue_all in E. congruence.
    + intros s a Ha. destruct (Hs s a Ha) as (a1 & Ha1 & Hl). rewrite close_sub_subs in Ha1. destruct (decide (s = sub)) as [->|Hne].
      * destruct (h_subs c !! sub) as [a0|]; [|done]. exists a0. split; [done|]. intros Hla. destruct (Hl Hla) as [_ Hl1]. cbn in Ha1.
        destruct (decide (live a0)); injection Ha1 as <-; [|done]. by destruct Hl1.
      * exists a1. split; [done|]. intros Hla. destruct (Hl Hla) as [Hnl Hl1]. split; [|done]. rewrite not_elem_of_cons. done.
Qed.

Lemma emptied_core P h c :
  core_inv P h ∅ c -> (forall s a, h_subs c !! s = Some a -> ~ live a) -> ctrlQueue c = [] ->
  core_ok ∅ (c <| brokerSubs := ∅ |> <| identRefs := ∅ |> <| retiring := None |> <| router ::= Reset |>).
Proof.
  intros [L H _ _ N] Hcl Hq. set (c' := _ <| router ::= Reset |>). assert (Hh : forall s f, held c' s f = 0).
  { intros s f. unfold held. change (h_subs c') with (h_subs c). destruct (h_subs c !! s) as [a|] eqn:Ha; [|done]. by rewrite decide_False by eauto. }
  split.
  - apply (linked_frame _ c); [done|]. destruct L. split; try done.
    + intros s a op Ha Hla. by destruct (Hcl s a Ha).
    + intros op o Ho [Hqo|[]%not_elem_of_empty] Hk. apply (k_queued0 op o Ho); [by left|done].
  - split; [done|apply H|]. destruct (m_router _ H) as (_ & _ & _ & H0 & _). cbn in H0.
    split; [apply wf_new|]. cbn [fst snd]. split_and!; [done|done|exact H0|constructor|constructor].
  - split; [done|]. intros s f Hn. by rewrite Hh in Hn.
  - done.
  - split; [|intros id n Hn; change (identRefs c') with (∅ : gmap Z Z) in Hn; by rewrite lookup_empty in Hn|apply N]. intros id.
    unfold reserved. change (ctrlQueue c') with (ctrlQueue c). rewrite Hq, elements_empty. done.
Qed.

Lemma close_all_core R U W c : queue_ok R U W c -> core_ok ∅ c -> core_ok ∅ (closeAllSubs c).
Proof.
  intros Q I. unfold closeAllSubs. set (queue := ctrlQueue c). set (c1 := _ <| sessionLost := false |>).
  pose proof (unqueue_core id (fun c op => upd_op op (fun o => o <| o_queued := false |> <| o_id := 0 |> <| o_conn := None |>) c) R U W (held c) c c1) as I2. cbn [id] in I2.
  specialize (I2 ltac:(intros s op; rewrite <- (upd_op_links op (fun o => o <| o_id := 0 |> <| o_conn := None |>) (upd_op op (fun o => o <| o_queued := false |>) s)) by done; by rewrite upd_op_compose)).
  specialize (I2 ltac:(intros s op; unfold calm_part, upd_op; cbn [brokerSubs h_bsubs router next_bsub h_subs identRefs h_ops update]; by rewrite (fmap_alter_same op_reserve)) ltac:(done) Q I ltac:(done) ltac:(done) ltac:(done)).
  fold queue in I2.
  assert (Hs2 : (h_subs (foldl (fun c op => upd_op op (fun o => o <| o_queued := false |> <| o_id := 0 |> <| o_conn := None |>) c) c1 queue),
    ctrlQueue (foldl (fun c op => upd_op op (fun o => o <| o_queued := false |> <| o_id := 0 |> <| o_conn := None |>) c) c1 queue)) = (h_subs c, [])).
  { by apply (foldl_frame (fun c => (h_subs c, ctrlQueue c)) (fun c op => upd_op op (fun o => o <| o_queued := false |> <| o_id := 0 |> <| o_conn := None |>) c)). }
  set (c2 := foldl _ c1 queue) in *. clearbody c2. injection Hs2 as Hs2 Hq2. apply (core_ok_of _ c) in I2; [|done].
  destruct (close_all_subs_ok _ (elements (activeSubs c2)) c2 I2) as (I3 & _ & Hq3 & Hs3). pose proof (k_active _ _ (i_linked _ _ _ _ I2)) as Hact.
  set (c3 := foldl _ c2 _) in *. clearbody c3.
  assert (I4 : core_ok ∅ (c3 <| brokerSubs := ∅ |> <| identRefs := ∅ |> <| retiring := None |> <| router ::= Reset |>)).
  { apply (emptied_core _ _ _ I3); [|congruence]. intros s a Ha Hla. destruct (Hs3 s a Ha) as (a0 & Ha0 & Hl). destruct (Hl Hla) as [Hn Hl0].
    apply Hn, elem_of_elements, Hact. eauto. }
  set (c4 := _ <| router ::= Reset |>) in *. clearbody c4. apply (releases_ok _ (map_to_list (ctrlOps c))) in I4. set (c5 := foldl _ c4 _) in *. clearbody c5.
  apply (core_ok_frame _ c5); [|done]. apply (foldl_frame core_part (fun c op => complete c op ErrClosed_result)). intros. by apply upd_op_core.
Qed.

(** ** A lost session *)

Lemma unqueue_one_part s op : link_part (fst (unqueue_one s op)) = link_part (upd_op op (fun o => o <| o_queued := false |>) (fst s))
  /\ calm_part (fst (unqueue_one s op)) = calm_part (fst s) /\ ctrlQueue (fst (unqueue_one s op)) = ctrlQueue (fst s).
Proof.
  destruct s as [c r]. unfold unqueue_one. cbn [fst]. set (c1 := upd_op op _ c). pose proof (unregister_part c1 op) as E.
  assert (Hc : calm_part c1 = calm_part c) by (unfold calm_part, c1, upd_op; cbn [brokerSubs h_bsubs router next_bsub h_subs identRefs h_ops update]; by rewrite (fmap_alter_same op_reserve)).
  assert (Hq : ctrlQueue c1 = ctrlQueue c) by done. destruct (unregisterLocked c1 op) as [c2 id]. cbn [fst] in *. unfold core_part, rest_part, calm_part in *. split; [congruence|]. split; congruence.
Qed.

(** The operations that end with the session. *)
Lemma finish_all_core h (l : list Z) : forall c P fin,
  core_inv P h ∅ c -> NoDup l -> (forall x, x ∈ l -> x ∈ P) ->
  let (c', fin') := foldl finish_one (c, fin) l in
  exists P', core_inv P' h ∅ c' /\ (forall x, x ∈ P' <-> x ∈ P /\ (x ∈ l -> over c x = false)).
Proof.
  induction l as [|op l IH]; intros c P fin I Hnd Hl; cbn [foldl].
  - exists P. split; [done|]. intros x. rewrite elem_of_nil. tauto.
  - apply NoDup_cons in Hnd as [Hop Hnd]. assert (Hin : op ∈ P) by (apply Hl; by left).
    assert (H1 : let (c1, f1) := finish_one (c, fin) op in
      core_inv (if over c op then P ∖ {[op]} else P) h ∅ c1 /\ h_ops c1 = h_ops c /\ h_subs c1 = h_subs c).
    { unfold finish_one. destruct (h_ops c !! op) as [o|] eqn:Ho.
      2: { unfold over, kinds. rewrite lookup_fmap, Ho. done. }
      assert (Hov : over c op = match o_kind o with KUnsubscribe => true | KSubscribe => bool_decide ((s_state <$> h_subs c !! o_sub o) = Some subClosed) end)
        by (unfold over, kinds; rewrite lookup_fmap, Ho; cbn; by destruct (o_kind o)).
      rewrite Hov. destruct (o_kind o) eqn:Hk.
      - destruct (bool_decide_reflect ((s_state <$> h_subs c !! o_sub o) = Some subClosed)) as [Hc|Hc]; [|done]. split; [|done].
        destruct (h_subs c !! o_sub o) as [a|] eqn:Ha; [|done]. injection Hc as Hc. apply (dropped_core _ _ _ _ _ o); try done. exists a. split; [done|]. unfold live. tauto.
      - pose proof (unretire_subs c op) as Es. unfold subs_part in Es. split; [by apply (unretire_core _ _ _ _ _ o)|]. split; congruence. }
    destruct (finish_one (c, fin) op) as [c1 f1]. destruct H1 as (I1 & Ho1 & Hs1). specialize (IH c1 _ f1 I1 Hnd).
    destruct (foldl finish_one (c1, f1) l) as [c2 f2]. destruct IH as (P' & I2 & HP').
    + intros x Hx. assert (Hxp : x ∈ P) by (apply Hl; by right). destruct (over c op); [|done]. apply elem_of_difference. split; [done|]. rewrite elem_of_singleton. by intros ->.
    + exists P'. split; [done|]. intros x. rewrite HP', elem_of_cons. rewrite (over_same c c1 x) by done. destruct (over c op) eqn:Eo.
      * rewrite elem_of_difference, elem_of_singleton. split.
        -- intros [[Hx Hne] Hn]. split; [done|]. intros [->|Hxl]; [done|auto].
        -- intros [Hx Hn]. split; [|auto]. split; [done|]. intros ->. rewrite Hn in Eo by by left. done.
      * split; [|intros [Hx Hn]; split; [done|auto]]. intros [Hx Hn]. split; [done|]. intros [->|Hxl]; auto.
Qed.

(** A dirty view nobody can see. *)
Lemma core_unseen P h D c f : core_inv P h ({[f]} ∪ D) c -> brokerSubs c !! f = None -> core_inv P h D c.
Proof.
  intros [L H Hh V N] Hf. split; try done. intros f1 b1 bs1 Hf1 Hb1 HD. apply (V f1 b1 bs1 Hf1 Hb1). rewrite elem_of_union, elem_of_singleton. intros [->|?]; [congruence|done].
Qed.

Lemma forget_core P h c f b :
  core_inv P h ∅ c -> brokerSubs c !! f = Some b ->
  core_inv P h ∅ (forget_one c (f, b)) /\ (forall f1 b1, brokerSubs (forget_one c (f, b)) !! f1 = Some b1 -> brokerSubs c !! f1 = Some b1 /\
    (f1 = f -> ids_of (forget_one c (f, b)) b1 = []) /\ (f1 <> f -> ids_of (forget_one c (f, b)) b1 = ids_of c b1))
  /\ (forall f1 b1, f1 <> f -> brokerSubs c !! f1 = Some b1 -> brokerSubs (forget_one c (f, b)) !! f1 = Some b1).
Proof.
  intros I Hf. pose proof (i_shaped _ _ _ _ I) as H. destruct (m_bs _ H _ _ Hf) as (bs & Hb & Hbf & Hbk). unfold forget_one. rewrite Hb.
  set (g := fun bs : brokerSub => bs <| b_ids := [] |> <| b_issued := [] |> <| b_granted := false |> <| b_pending := 0 |>).
  destruct (refs_releases (b_ids bs) (identRefs c) (n_positive _ _ (i_counts _ _ _ _ I)) (fun x => counted_ids _ _ _ _ _ _ _ x I Hf Hb)) as [Hpos Hrefs].
  assert (I1 : core_inv P h ({[f]} ∪ ∅) (upd_bs b g (releaseIdentsLocked c (b_ids bs)))).
  { apply (bs_updated P h ∅ c f b bs g (foldl release_ident (identRefs c) (b_ids bs)) h); try done; [exact (h_count _ _ (i_held _ _ _ _ I) _ _ _ Hf Hb)|].
    intros x. rewrite Hrefs. change (b_ids (g bs)) with (@nil Z). rewrite occ_nil. lia. }
  set (c1 := upd_bs b g (releaseIdentsLocked c (b_ids bs))) in *. assert (Hbs1 : brokerSubs c1 = brokerSubs c) by done.
  assert (Hb1 : h_bsubs c1 !! b = Some (g bs)) by (transitivity (g <$> h_bsubs c !! b); [apply lookup_alter_eq|by rewrite Hb]).
  assert (Hids : forall f1 b1, brokerSubs c !! f1 = Some b1 -> (f1 = f -> ids_of c1 b1 = []) /\ (f1 <> f -> ids_of c1 b1 = ids_of c b1)).
  { intros f1 b1 Hf1. split; [intros ->; replace b1 with b by congruence; unfold ids_of; by rewrite Hb1|]. intros Hne. unfold ids_of.
    change (h_bsubs c1) with (h_bsubs (upd_bs b g c)). by rewrite (upd_bs_at c f b g f1 b1), decide_False. }
  clearbody c1. destruct (Z.eqb_spec (len (b_holders bs)) 0) as [Hz|Hz].
  - assert (Hn : b_holders (g bs) = []) by (change (b_holders (g bs)) with (b_holders bs); destruct (b_holders bs) as [|y k]; [done|rewrite len_cons in Hz; pose proof (len_nonneg k); lia]).
    change (b_trieKey bs) with (b_trieKey (g bs)). change (b_trieID bs) with (b_trieID (g bs)). fold (removed c1 f (g bs)).
    pose proof (removed_release _ _ _ _ _ _ _ I1 (eq_trans (f_equal (.!! f) Hbs1) Hf) Hb1 Hn) as I2. change (b_ids (g bs)) with (@nil Z) in I2.
    split; [|split].
    + apply (core_unseen _ _ _ _ f); [|apply lookup_delete_eq]. apply (core_frame _ _ _ (releaseIdentsLocked (removed c1 f (g bs)) [])); [done|exact I2].
    + intros f1 b1 [Hne Hf1]%removed_bs. rewrite Hbs1 in Hf1. split; [done|]. by apply Hids.
    + intros f1 b1 Hne Hf1. apply removed_bs. rewrite Hbs1. split; [congruence|done].
  - split; [|split].
    + apply (republished_same _ _ _ _ f); [done|by rewrite Hbs1].
    + intros f1 b1 Hf1. change (brokerSubs (publishLocked c1 b)) with (brokerSubs c1) in Hf1. rewrite Hbs1 in Hf1. split; [done|].
      assert (Hpub : ids_of (publishLocked c1 b) b1 = ids_of c1 b1) by (unfold ids_of; apply default_fmap_ext; unfold publishLocked, upd_bs; cbn [h_bsubs update]; by apply fmap_alter_same).
      rewrite Hpub. by apply Hids.
    + intros f1 b1 _ Hf1. change (brokerSubs (publishLocked c1 b)) with (brokerSubs c1). by rewrite Hbs1.
Qed.

Definition forgetting (P : gset Z) (h : holdings) (l : list (list Z * Z)) (c : client) : Prop :=
  core_inv P h ∅ c /\ NoDup l.*1 /\ (forall f b, (f, b) ∈ l -> brokerSubs c !! f = Some b)
  /\ (forall f b, brokerSubs c !! f = Some b -> (f, b) ∈ l \/ ids_of c b = []).

Lemma forgetting_step P h p l c : forgetting P h (p :: l) c -> forgetting P h l (forget_one c p).
Proof.
  destruct p as [f b]. intros (I & Hnd & Hin & Hids). cbn [fmap list_fmap] in Hnd. apply NoDup_cons in Hnd as [Hf Hnd]. cbn [fst] in Hf.
  destruct (forget_core _ _ _ _ _ I (Hin f b ltac:(by left))) as (I1 & Hbs & Hkeep). split_and!; [done|done| |].
  - intros f1 b1 H1. apply Hkeep; [|apply Hin; by right]. intros ->. apply Hf. by apply (list_elem_of_fmap_2 fst _ (f, b1)).
  - intros f1 b1 H1. destruct (Hbs f1 b1 H1) as (H2 & Hsame & Hother). destruct (decide (f1 = f)) as [->|Hne]; [right; auto|].
    destruct (Hids f1 b1 H2) as [[E|Hl]%elem_of_cons|Hi]; [congruence|by left|right; rewrite Hother by done; done].
Qed.

(** No identifier is in use once every broker subscription is forgotten. *)
Lemma forgotten_refs P h c :
  core_inv P h ∅ c -> ctrlQueue c = [] -> (forall f b, brokerSubs c !! f = Some b -> ids_of c b = []) -> (forall x, x ∈ P -> retired_of c x = []) -> identRefs c = ∅.
Proof.
  intros I Hq Hids Hret. assert (Hnil : forall {A} (l : list A) (g : A -> list Z), (forall x, x ∈ l -> g x = []) -> l ≫= g = []).
  { intros A l g. induction l as [|x l IH]; intros Hg; [done|]. cbn. rewrite Hg by by left. apply IH. intros y Hy. apply Hg. by right. }
  apply map_eq. intros id. rewrite lookup_empty. destruct (identRefs c !! id) as [n|] eqn:E; [|done]. exfalso.
  pose proof (n_positive _ _ (i_counts _ _ _ _ I) id n E). pose proof (n_refs _ _ (i_counts _ _ _ _ I) id) as Hr. unfold refs in Hr. rewrite E in Hr. cbn in Hr.
  unfold tags, reserved in Hr. rewrite Hq, !Hnil in Hr; [rewrite !occ_nil in Hr; lia| |].
  - intros x Hx. apply Hret. by apply elem_of_elements.
  - intros [f b] Hx%elem_of_map_to_list. by apply (Hids f).
Qed.

Lemma sub_core_same c sub a f : h_subs c !! sub = Some a -> sub_core (f a) = sub_core a -> link_part (upd_sub sub f c) = link_part c.
Proof.
  intros Ha Hf. unfold link_part. change (activeSubs (upd_sub sub f c)) with (activeSubs c). change (h_ops (upd_sub sub f c)) with (h_ops c). do 2 f_equal.
  apply map_eq. intros s. rewrite !lookup_fmap, upd_sub_lookup. destruct (decide (s = sub)) as [->|]; [rewrite Ha; cbn; by rewrite Hf|done].
Qed.

Lemma upd_sub_rest sub f c : (forall a, s_route (f a) = s_route a) -> rest_part (upd_sub sub f c) = rest_part c.
Proof. intros H. unfold rest_part, upd_sub. cbn [brokerSubs h_bsubs router next_bsub h_subs identRefs ctrlQueue h_ops update]. by rewrite (fmap_alter_same s_route). Qed.

(** A live subscription subscribes again. *)
Lemma resubscribe_core P c sub a :
  core_ok P c -> h_subs c !! sub = Some a -> live a -> fresh_name c -> (forall op, s_op a = Some op -> op ∈ P) -> (forall x, x ∈ P -> is_Some (h_ops c !! x)) ->
  Z.of_nat (size (identRefs c)) < MaxVarintValue ->
  exists c' P', resubscribe_one (Some c) sub = Some c' /\ core_ok P' c' /\ (forall x, x ∈ P' <-> x ∈ P /\ s_op a <> Some x)
    /\ (forall s, s <> sub -> h_subs c' !! s = h_subs c !! s)
    /\ (nextSubID c', router c', h_routes c', brokerSubs c', activeSubs c') = (nextSubID c, router c, h_routes c, brokerSubs c, activeSubs c)
    /\ (exists ident, dom (identRefs c') ⊆ {[ident]} ∪ dom (identRefs c))
    /\ (exists op, h_subs c' = alter (fun s => s <| s_op := Some op |>) sub (h_subs c)).
Proof.
  intros I Ha Hl Hfr Hop HPo Hsz. unfold resubscribe_one. rewrite Ha.
  assert (Hcov : forall f, f ∈ s_filters a -> is_Some (brokerSubs c !! f_Topic f)).
  { intros f Hf. apply (h_covered _ _ (i_held _ _ _ _ I) sub). unfold held. rewrite Ha, decide_True by done.
    assert (0 < occ (f_Topic f) (topics a)); [|lia]. apply occ_pos. by apply list_elem_of_fmap_2. }
  assert (Hheld : forall op' c', h_subs c' = alter (fun s => s <| s_op := Some op' |>) sub (h_subs c) -> forall s f, held c' s f = held c s f).
  { intros op' c' E s f. unfold held. rewrite E, lookup_alter_at. destruct (decide (s = sub)) as [->|]; [|done]. rewrite Ha. cbn. done. }
  destruct (s_op a) as [op|] eqn:Es.
  - destruct (k_op _ _ (i_linked _ _ _ _ I) _ _ _ Ha Hl Es) as (o & Ho & Hk & Hsub & Hfs & _).
    set (c1 := upd_op op (fun o => o <| o_sent := false |> <| o_counted := [] |>) c). set (o1 := o <| o_sent := false |> <| o_counted := [] |>).
    assert (Ho1 : h_ops c1 !! op = Some o1) by (unfold c1; by rewrite upd_op_lookup, decide_True, Ho).
    destruct (queue_subscribe_core P (held c) ∅ c1 op o1 Ho1) as (c' & E & I' & Hs' & Hrest & (ident & _ & Hd)).
    + done.
    + intros ident. assert (I0 : core_inv P (held c) ∅ (upd_op op (fun o => o <| o_ident := ident |>) (c1 <| nextIdent := ident |>))).
      { apply (core_frame _ _ _ (c1 <| nextIdent := ident |>)); [by apply upd_op_core|]. apply (core_frame _ _ _ c1); [done|]. apply (core_frame _ _ _ c); [by apply upd_op_core|done]. }
      change (o_sub o1) with (o_sub o). rewrite Hsub. eapply core_frame; [|exact I0]. unfold core_part. rewrite upd_sub_rest by done.
      f_equal. apply (sub_core_same _ _ a); [done|]. unfold sub_core. cbn. by rewrite Es.
    + change (o_filters o1) with (o_filters o). rewrite Hfs. exact Hcov.
    + by apply Hop.
    + intros f []%not_elem_of_empty.
    + change (o_sub o1) with (o_sub o) in Hs'. rewrite Hsub in Hs'. change (h_subs c1) with (h_subs c) in Hs'. exists c', (P ∖ {[op]}). split_and!; [exact E| | | |exact Hrest|by exists ident|by exists op].
      * eapply core_ext; [|exact I']. intros s f. symmetry. by apply (Hheld op).
      * intros x. rewrite elem_of_difference, elem_of_singleton. split; intros [? ?]; (split; [done|congruence]).
      * intros s Hne. rewrite Hs'. by apply lookup_alter_ne.
  - set (o := subscribe_op sub (s_filters a) true). set (op := next_op c). assert (Hn : h_ops c !! op = None) by by apply fresh_none.
    assert (HnP : op ∉ P) by (intros Hx; destruct (HPo op Hx); congruence).
    assert (En : new_op c o = (fst (new_op c o), op)) by done. rewrite En. set (c1 := fst (new_op c o)).
    assert (Ho1 : h_ops c1 !! op = Some o) by apply new_op_at.
    assert (E2 : upd_op op (fun o => o <| o_sent := false |> <| o_counted := [] |>) c1 = c1).
    { unfold upd_op, update. rewrite (alter_same _ _ (h_ops c1)); [by destruct c1|]. intros y Hy. rewrite Ho1 in Hy. by injection Hy as <-. }
    rewrite E2. destruct (queue_subscribe_core ({[op]} ∪ P) (held c) ∅ c1 op o Ho1) as (c' & E & I' & Hs' & Hrest & (ident & _ & Hd)).
    + done.
    + intros ident. pose proof (assigned_links P c sub op a o (i_linked _ _ _ _ I) Ha Hl Es Hn HnP eq_refl eq_refl eq_refl) as L.
      set (c2 := upd_sub sub (fun s => s <| s_op := Some op |>) (c <| h_ops ::= <[op := o]> |>)) in *.
      assert (I2 : core_inv ({[op]} ∪ P) (held c) ∅ c2).
      { destruct I as [_ H Hh V N]. split; [done|by apply (shaped_frame c)|by split; apply Hh| |by apply (new_op_counts P c _ op o)].
        intros f b bs Hf Hb HD. rewrite (V f b bs Hf Hb HD). symmetry. apply view_of_ext; try done. unfold c2, upd_sub. cbn [h_subs update]. by apply fmap_alter_same. }
      eapply core_frame; [|exact I2]. unfold core_part, link_part, rest_part, c2, c1, new_op, upd_sub, upd_op.
      cbn [fst o_sub o subscribe_op brokerSubs h_bsubs router next_bsub h_subs identRefs ctrlQueue h_ops activeSubs update].
      by rewrite (fmap_alter_same op_core), (fmap_alter_same op_reserve) by done.
    + exact Hcov.
    + apply elem_of_one.
    + intros f []%not_elem_of_empty.
    + change (h_subs c1) with (h_subs c) in Hs'. cbn [o_sub o subscribe_op] in Hs'. exists c', (({[op]} ∪ P) ∖ {[op]}). split_and!; [exact E| | | |exact Hrest|by exists ident|by exists op].
      * eapply core_ext; [|exact I']. intros s f. symmetry. by apply (Hheld op).
      * intros x. rewrite (back_out op P HnP x). split; [|tauto]. intros Hx. split; [done|discriminate].
      * intros s Hne. rewrite Hs'. by apply lookup_alter_ne.
Qed.

(** All names of operations are below the next one. *)
Definition named (c : client) : Prop :=
  (forall op, is_Some (kinds c !! op) -> op < next_op c) /\ (forall op, op ∈ ctrlQueue c -> op < next_op c).

Lemma named_fresh c : named c -> fresh_name c.
Proof. intros [H1 H2]. split; [apply eq_None_not_Some; intros H%H1; lia|intros H%H2; lia]. Qed.

Lemma queue_subscribe_named c op o c' :
  named c -> h_ops c !! op = Some o -> queueSubscribeLocked c op = Some c' -> named c' /\ kinds c' = kinds c.
Proof.
  intros [H1 H2] Ho E. destruct (queue_subscribe_subs _ _ _ _ Ho E) as [_ Hk]. destruct (queue_subscribe_part _ _ _ E) as (c1 & Hq & ->).
  assert (Hn : next_op c1 = next_op c) by (unfold queue_all, queue_part in Hq; congruence). assert (Hq1 : ctrlQueue c1 = ctrlQueue c) by (unfold queue_all in Hq; congruence).
  split; [|done]. split; [rewrite Hk; change (next_op (enqueue c1 op)) with (next_op c1); by rewrite Hn|]. change (next_op (enqueue c1 op)) with (next_op c1). rewrite Hn.
  intros x [Hx| ->%list_elem_of_singleton]%elem_of_app; [apply H2; by rewrite <- Hq1|]. apply H1. unfold kinds. rewrite lookup_fmap, Ho. by eexists.
Qed.

Lemma resubscribe_named c sub a c' :
  named c -> h_subs c !! sub = Some a -> (forall op, s_op a = Some op -> is_Some (h_ops c !! op)) ->
  resubscribe_one (Some c) sub = Some c' -> named c' /\ (forall x, is_Some (kinds c !! x) -> is_Some (kinds c' !! x)).
Proof.
  intros Hn Ha Hop. unfold resubscribe_one. rewrite Ha. destruct (s_op a) as [op|].
  - destruct (Hop op eq_refl) as [o Ho]. set (c1 := upd_op op _ c). assert (Hk1 : kinds c1 = kinds c) by by apply kinds_upd.
    assert (Hn1 : named c1) by (destruct Hn; split; [by rewrite Hk1|done]). intros E.
    assert (Ho1 : h_ops c1 !! op = Some (o <| o_sent := false |> <| o_counted := [] |>)) by (unfold c1; by rewrite upd_op_lookup, decide_True, Ho).
    destruct (queue_subscribe_named _ _ _ _ Hn1 Ho1 E) as [Hn2 Hk2]. split; [done|]. intros x. by rewrite Hk2, Hk1.
  - set (o := subscribe_op sub (s_filters a) true). set (op := next_op c). assert (En : new_op c o = (fst (new_op c o), op)) by done. rewrite En.
    set (c1 := upd_op op (fun o => o <| o_sent := false |> <| o_counted := [] |>) (fst (new_op c o))). intros E.
    assert (Hk1 : kinds c1 = <[op := (KSubscribe, sub)]> (kinds c)).
    { unfold c1. rewrite kinds_upd by done. unfold kinds, new_op. cbn [fst h_ops update]. by rewrite fmap_insert. }
    assert (Hn1 : named c1).
    { destruct Hn as [H1 H2]. split.
      - intros x. rewrite Hk1. change (next_op c1) with (Z.succ op). destruct (decide (x = op)) as [->|]; [lia|]. rewrite lookup_insert_ne by congruence. intros Hx%H1. unfold op. lia.
      - change (ctrlQueue c1) with (ctrlQueue c). change (next_op c1) with (Z.succ op). intros x Hx%H2. unfold op. lia. }
    assert (Ho1 : exists o1, h_ops c1 !! op = Some o1) by (unfold c1; rewrite upd_op_lookup, decide_True by done; unfold op; rewrite new_op_at; by eexists).
    destruct Ho1 as [o1 Ho1]. destruct (queue_subscribe_named _ _ _ _ Hn1 Ho1 E) as [Hn2 Hk2]. split; [done|]. intros x Hx. rewrite Hk2, Hk1.
    destruct (decide (x = op)) as [->|]; [rewrite lookup_insert_eq; by eexists|by rewrite lookup_insert_ne by congruence].
Qed.

(** What a step may do to the bounds: nothing but release identifiers. *)
Definition fixed_part (c : client) := (nextSubID c, router c, h_routes c, brokerSubs c, activeSubs c, (fun a => (s_route a, s_state a)) <$> h_subs c).

Lemma resubscribe_all_core (l : list Z) : forall c P,
  core_ok P c -> named c -> NoDup l -> (forall x, x ∈ P -> is_Some (kinds c !! x)) ->
  (forall s, s ∈ l -> exists a, h_subs c !! s = Some a /\ live a /\ forall op, s_op a = Some op -> op ∈ P) ->
  (forall x, x ∈ P -> exists s a, s ∈ l /\ h_subs c !! s = Some a /\ s_op a = Some x) ->
  Z.of_nat (size (identRefs c)) + len l < MaxVarintValue ->
  exists c', foldl resubscribe_one (Some c) l = Some c' /\ core_ok ∅ c' /\ fixed_part c' = fixed_part c
    /\ Z.of_nat (size (identRefs c')) <= Z.of_nat (size (identRefs c)) + len l.
Proof.
  induction l as [|sub l IH]; intros c P I Hn Hnd HPk Hl HP Hsz; cbn [foldl].
  - exists c. split; [done|]. split; [|rewrite len_nil; split; [done|lia]]. eapply core_ok_set; [|exact I]. intros x. rewrite elem_of_empty. split; [|done].
    intros (s & a & Hs & _)%HP. by apply elem_of_nil in Hs.
  - apply NoDup_cons in Hnd as [Hsub Hnd]. rewrite len_cons in Hsz. pose proof (len_nonneg l). destruct (Hl sub ltac:(by left)) as (a & Ha & Hla & Hop).
    assert (HPo : forall x, x ∈ P -> is_Some (h_ops c !! x)) by (intros x [k Hx]%HPk; unfold kinds in Hx; rewrite lookup_fmap in Hx; by destruct (h_ops c !! x)).
    destruct (resubscribe_core P c sub a I Ha Hla (named_fresh c Hn) Hop HPo ltac:(lia)) as (c1 & P1 & E1 & I1 & HP1 & Hs1 & Hf1 & (ident & Hd1) & (op1 & Hm1)).
    destruct (resubscribe_named c sub a c1 Hn Ha ltac:(intros op Hx; apply HPo; auto) E1) as [Hn1 Hk1]. rewrite E1.
    assert (Hsz1 : Z.of_nat (size (identRefs c1)) <= Z.of_nat (size (identRefs c)) + 1).
    { apply subseteq_size in Hd1. rewrite size_dom in Hd1. etrans; [apply Nat2Z.inj_le, Hd1|]. pose proof (size_union_alt ({[ident]} : gset Z) (dom (identRefs c))) as Hu.
      rewrite Hu, size_singleton. pose proof (subseteq_size (dom (identRefs c) ∖ {[ident]}) (dom (identRefs c)) ltac:(intros x [? _]%elem_of_difference; done)) as Hle.
      rewrite size_dom in Hle. lia. }
    destruct (IH c1 P1 I1 Hn1 Hnd) as (c2 & E2 & I2 & Hf2 & Hsz2).
    + intros x [Hx _]%HP1. by apply Hk1, HPk.
    + intros s Hs. destruct (Hl s ltac:(by right)) as (b & Hb & Hlb & Hopb). assert (Hne : s <> sub) by (by intros ->). exists b. rewrite Hs1 by done. split_and!; [done..|].
      intros op Eop. apply HP1. split; [auto|]. intros Ea.
      destruct (k_op _ _ (i_linked _ _ _ _ I) _ _ _ Ha Hla Ea) as (o & Ho & _ & Ho1 & _). destruct (k_op _ _ (i_linked _ _ _ _ I) _ _ _ Hb Hlb Eop) as (o' & Ho' & _ & Ho2 & _). congruence.
    + intros x [Hx Hxa]%HP1. destruct (HP x Hx) as (s & b & [->|Hs]%elem_of_cons & Hb & Eb); [congruence|]. exists s, b. split; [done|]. rewrite Hs1; [done|]. by intros ->.
    + lia.
    + exists c2. split; [done|]. split; [done|]. split; [|rewrite len_cons; lia]. rewrite Hf2. unfold fixed_part. injection Hf1 as F1 F2 F3 F4 F5.
      rewrite Hm1. rewrite (fmap_alter_same (fun a => (s_route a, s_state a))) by done. congruence.
Qed.

Lemma queue_named P R S U W c : queue_inv (ctrlQueue c) P R S U W c -> named c.
Proof.
  intros Q. assert (H1 : forall op, is_Some (kinds c !! op) -> op < next_op c).
  { intros op [k Hk]. apply (a_fresh _ _ _ _ _ _ _ Q). rewrite ops_lookup. unfold kinds in Hk. rewrite lookup_fmap in Hk. destruct (h_ops c !! op); [by eexists|done]. }
  split; [done|]. intros op (o & Ho & _)%(a_queued _ _ _ _ _ _ _ Q). apply (a_fresh _ _ _ _ _ _ _ Q). by exists o.
Qed.

(** The fields the middle of [resetSession] leaves alone, and the trie's last
    identifier. *)
Definition still_part (c : client) := (nextSubID c, nextID (router c), h_routes c, activeSubs c, h_subs c, next_op c, ctrlQueue c, kinds c).

Lemma Unregister_nextID {A} (t : @Tree A) k id : nextID (fst (Unregister t k id)) = nextID t.
Proof. unfold Unregister. repeat case_match; done. Qed.

Lemma forget_still c p : still_part (forget_one c p) = still_part c.
Proof.
  destruct p as [f b]. cbn. destruct (h_bsubs c !! b); [|done]. destruct (_ =? 0); [|done]. unfold still_part. cbn. by rewrite Unregister_nextID.
Qed.

Lemma finish_still s op : still_part (fst (finish_one s op)) = still_part (fst s).
Proof.
  destruct s as [c fin]. unfold finish_one. destruct (h_ops c !! op) as [o|] eqn:Ho; [|done]. destruct (o_kind o); [by destruct (bool_decide _)|]. cbn [fst]. unfold unretireLocked. rewrite Ho.
  cbn [retiring releaseIdentsLocked update]. destruct (retiring c); [|done]. by destruct (_ =? 0).
Qed.

Lemma unqueue_still s op : still_part (fst (unqueue_one s op)) = still_part (fst s).
Proof.
  destruct s as [c r]. unfold unqueue_one. cbn [fst]. set (c1 := upd_op op _ c). assert (H1 : still_part c1 = still_part c) by (unfold still_part; subst c1; by rewrite kinds_upd).
  pose proof (unregister_kinds c1 op) as Hk. assert (H2 : still_part (fst (unregisterLocked c1 op)) = still_part c1).
  { unfold still_part. rewrite Hk. unfold unregisterLocked. destruct (h_ops c1 !! op); [|done]. by destruct (_ || _). }
  destruct (unregisterLocked c1 op) as [c2 id]. cbn [fst] in *. congruence.
Qed.

(** [resetSession] *)
Lemma reset_core R U W ord c :
  queue_ok R U W c -> core_ok ∅ c -> Z.of_nat (size (activeSubs c)) < MaxVarintValue ->
  exists c', resetSession ord c = Some c' /\ core_ok ∅ c' /\ nextSubID c' = nextSubID c /\ nextID (router c') = nextID (router c) /\ h_routes c' = h_routes c
    /\ (fun a => (s_route a, s_state a)) <$> h_subs c' = (fun a => (s_route a, s_state a)) <$> h_subs c
    /\ Z.of_nat (size (identRefs c')) <= Z.of_nat (size (activeSubs c)).
Proof.
  intros Q I Hsz. unfold resetSession. set (old := ctrlQueue c). set (c0 := c <| ctrlQueue := [] |>).
  pose proof (unqueue_core fst unqueue_one R U W (held c) c (c0, [])
    (fun s op => proj1 (unqueue_one_part s op)) (fun s op => proj1 (proj2 (unqueue_one_part s op))) (fun s op => proj2 (proj2 (unqueue_one_part s op))) Q I eq_refl eq_refl eq_refl) as I1.
  fold old in I1. pose proof (foldl_frame (fun s => still_part (fst s)) unqueue_one unqueue_still old (c0, [])) as St1.
  destruct (foldl unqueue_one (c0, []) old) as [c1 released]. cbn [fst] in I1, St1.
  pose proof (finish_all_core (held c) old c1 _ [] I1 ltac:(apply Q) ltac:(intros x Hx; by apply elem_of_union_l, elem_of_list_to_set)) as H2.
  pose proof (foldl_frame (fun s => still_part (fst s)) finish_one finish_still old (c1, [])) as St2.
  destruct (foldl finish_one (c1, []) old) as [c2 finished]. cbn [fst] in St2. destruct H2 as (P & I2 & HP).
  assert (F0 : forgetting P (held c) (range ord (brokerSubs c2)) c2).
  { split_and!; [done|apply NoDup_range|intros f b; apply elem_of_range|]. intros f b Hf. left. by apply elem_of_range. }
  apply (foldl_rest (forgetting P (held c)) forget_one) in F0; [|intros p l s; apply forgetting_step].
  pose proof (foldl_frame still_part forget_one forget_still (range ord (brokerSubs c2)) c2) as St3. set (c3 := foldl forget_one c2 _) in *. clearbody c3.
  destruct F0 as (I3 & _ & _ & Hids). rewrite St2, St1 in St3. unfold still_part in St3. cbn [c0] in St3. injection St3 as T1 T2 T3 T4 T5 T6 T7 T8.
  change (h_subs c0) with (h_subs c) in T5. change (kinds c0) with (kinds c) in T8. change (ctrlQueue c0) with (@nil Z) in T7.
  unfold still_part in St1. injection St1 as _ _ _ _ Hs1 _ _ Hk1. change (h_subs c0) with (h_subs c) in Hs1. change (kinds c0) with (kinds c) in Hk1.
  assert (Hover : forall x, over c1 x = over c x) by (intros x; unfold over; by rewrite Hk1, Hs1).
  assert (HP3 : forall x, x ∈ P -> exists s a, kinds c !! x = Some (KSubscribe, s) /\ h_subs c !! s = Some a /\ live a /\ s_op a = Some x).
  { intros x [Hx Hn]%HP. rewrite elem_of_union, elem_of_list_to_set, elem_of_empty in Hx. destruct Hx as [Hx|[]]. specialize (Hn Hx). rewrite Hover in Hn.
    apply (a_queued _ _ _ _ _ _ _ Q) in Hx as (k & Hk & Hq). rewrite ops_lookup in Hk. destruct (h_ops c !! x) as [o|] eqn:Ho; [|done]. injection Hk as <-. cbn in Hq.
    unfold over, kinds in Hn. rewrite lookup_fmap, Ho in Hn. cbn in Hn. destruct (o_kind o) eqn:Hko; [|done].
    destruct (k_queued _ _ (i_linked _ _ _ _ I) x o Ho (or_introl Hq) Hko) as (a & Ha & Hla). rewrite Ha in Hn. cbn in Hn. apply bool_decide_eq_false in Hn.
    assert (Hl : live a) by (unfold live; congruence). exists (o_sub o), a. split_and!; [|done|done|auto]. unfold kinds. rewrite lookup_fmap, Ho. cbn. by rewrite Hko. }
  assert (Hrefs : identRefs c3 = ∅).
  { apply (forgotten_refs P (held c)); [done|done|intros f b Hf; by destruct (Hids f b Hf) as [?%elem_of_nil|?]|].
    intros x (s & a & Hk & _)%HP3. unfold retired_of. rewrite <- T8 in Hk. unfold kinds in Hk. rewrite lookup_fmap in Hk. destruct (h_ops c3 !! x) as [o|] eqn:Ho; [|done].
    injection Hk as Hk _. cbn. by apply (n_subscribe _ _ (i_counts _ _ _ _ I3) x). }
  apply (core_ok_of _ c) in I3; [|done]. pose proof (merge_sort_Permutation Z.le (elements (activeSubs c3))) as Hperm. set (subs := merge_sort Z.le (elements (activeSubs c3))) in *.
  change (activeSubs c0) with (activeSubs c) in T4. rewrite T4 in Hperm.
  assert (Hlen : len subs = Z.of_nat (size (activeSubs c))) by (unfold len; rewrite Hperm; done).
  assert (Hact : forall s, s ∈ subs <-> exists a, h_subs c !! s = Some a /\ live a) by (intros s; rewrite Hperm, elem_of_elements; apply (k_active _ _ (i_linked _ _ _ _ I))).
  clearbody subs. destruct (resubscribe_all_core subs c3 P I3) as (c4 & E4 & I4 & F4 & Hsz4).
  - destruct (queue_named _ _ _ _ _ _ Q) as [N1 _]. change (next_op c0) with (next_op c) in T6. split; [by rewrite T8, T6|]. intros x. rewrite T7. by intros ?%elem_of_nil.
  - rewrite Hperm. apply NoDup_elements.
  - intros x (s & a & Hk & _)%HP3. rewrite T8, Hk. by eexists.
  - intros s (a & Ha & Hla)%Hact. rewrite T5. exists a. split_and!; [done..|]. intros op Eop. apply HP. destruct (k_op _ _ (i_linked _ _ _ _ I) _ _ _ Ha Hla Eop) as (o & Ho & Hk & Hsub & _ & [Hq|Hq]); [|by apply not_elem_of_empty in Hq].
    split; [|intros _; rewrite Hover; unfold over, kinds; rewrite lookup_fmap, Ho; cbn; rewrite Hk, Hsub, Ha; cbn; apply bool_decide_eq_false; unfold live in Hla; congruence].
    apply elem_of_union_l, elem_of_list_to_set. apply (a_queued _ _ _ _ _ _ _ Q). exists (acore o). by rewrite ops_lookup, Ho.
  - intros x (s & a & _ & Ha & Hla & Eop)%HP3. exists s, a. rewrite T5. split_and!; [|done|done]. apply Hact. eauto.
  - rewrite Hrefs, map_size_empty, Hlen. lia.
  - rewrite E4. set (c5 := foldl (fun c p => release_for c p.1 p.2) c4 released).
    assert (H5 : core_part c5 = core_part c4 /\ (nextSubID c5, router c5, h_routes c5, h_subs c5, identRefs c5) = (nextSubID c4, router c4, h_routes c4, h_subs c4, identRefs c4)).
    { subst c5. split; [apply (foldl_frame core_part (fun c p => release_for c p.1 p.2)); intros; apply release_for_part|].
      apply (foldl_frame (fun c => (nextSubID c, router c, h_routes c, h_subs c, identRefs c)) (fun c p => release_for c p.1 p.2)). intros d p. unfold release_for. destruct (h_ops d !! p.1); [by destruct (_ =? 0)|done]. }
    clearbody c5. destruct H5 as [C5 H5]. set (c6 := foldl (fun c p => complete c p.1 p.2) c5 finished).
    assert (H6 : core_part c6 = core_part c5 /\ (nextSubID c6, router c6, h_routes c6, h_subs c6, identRefs c6) = (nextSubID c5, router c5, h_routes c5, h_subs c5, identRefs c5)).
    { subst c6. split; [apply (foldl_frame core_part (fun c p => complete c p.1 p.2)); intros; by apply upd_op_core|].
      by apply (foldl_frame (fun c => (nextSubID c, router c, h_routes c, h_subs c, identRefs c)) (fun c p => complete c p.1 p.2)). }
    clearbody c6. destruct H6 as [C6 H6]. rewrite H5 in H6. injection H6 as X1 X2 X3 X4 X5. unfold fixed_part in F4. injection F4 as Y1 Y2 Y3 _ _ Y6.
    exists c6. split; [done|]. split; [apply (core_ok_frame _ c5); [done|]; by apply (core_ok_frame _ c4)|]. split_and!.
    + rewrite X1, Y1. exact T1.
    + rewrite X2, Y2. exact T2.
    + rewrite X3, Y3. exact T3.
    + rewrite X4, Y6. by rewrite T5.
    + rewrite X5. rewrite Hrefs, map_size_empty, Hlen in Hsz4. lia.
Qed.

End SubsOps.
