(* ===== verification/SubsMachine.v ===== *)
(** * SubsMachine: subscribers, the sender, the read loop and the supervisor

    Bounds, routes and the invariant of [Subscriptions.step] over all reachable
    states, with the theorems on subscriptions. *)

From S2P Require Import Prelude GoLib Errors ClientErrors Buffers Varint Fields PropView Utf8 Topics Validate PropLists Frames Subscribe Refusals IdTable Trie Subscriptions SubsLists SubsQueue SubsState SubsOps.

Module SubsMachine.
Import Subscriptions SubsLists SubsQueue SubsState SubsOps.

(** ** Routes and bounds *)

(** Every subscription has a route of its own, closed once when it ends. *)
Definition routed (c : client) : Prop :=
  forall s a, h_subs c !! s = Some a -> 1 <= s <= nextSubID c /\ s_route a = s
    /\ exists r, h_routes c !! s = Some r /\ closed r = bool_decide (s_state a = subClosed) /\ closes r = Z.b2z (closed r).

(** Operations stay, with their Subscription Identifiers; new ones have none. *)
Definition ops_grow (c c' : client) : Prop :=
  (forall op, is_Some (h_ops c !! op) -> is_Some (h_ops c' !! op))
  /\ forall op o', h_ops c' !! op = Some o' -> o_ident o' = 0 \/ exists o, h_ops c !! op = Some o /\ o_ident o' = o_ident o.

Lemma ops_grow_same c c' : h_ops c' = h_ops c -> ops_grow c c'.
Proof. intros E. split; rewrite E; [done|]. intros op o Ho. right. by exists o. Qed.

(** What all operations but subscribing and a new session do to the bounds. *)
Record evolves (c c' : client) : Prop := {
  e_next : nextSubID c' = nextSubID c;
  e_trie : nextID (router c') = nextID (router c);
  e_ids : dom (identRefs c') ⊆ dom (identRefs c);
  e_routed : routed c -> routed c';
  e_ops : ops_grow c c';
}.

#[export] Instance evolves_preorder : PreOrder evolves.
Proof.
  split; [intros c; split; try done; by apply ops_grow_same|]. intros c1 c2 c3 [H1 H2 H3 H4 [H5 H6]] [K1 K2 K3 K4 [K5 K6]]. split; [congruence|congruence|by etrans|auto|].
  split; [auto|]. intros op o3 Ho3. destruct (K6 op o3 Ho3) as [?|(o2 & Ho2 & E2)]; [by left|]. destruct (H6 op o2 Ho2) as [E1|(o1 & Ho1 & E1)]; [left; congruence|].
  right. exists o1. split; [done|congruence].
Qed.

Definition sub_route (a : activeSub) : Z * bool := (s_route a, bool_decide (s_state a = subClosed)).
Definition evo_part (c : client) := (nextSubID c, nextID (router c), sub_route <$> h_subs c, h_routes c).

Lemma routed_frame c c' : (nextSubID c', sub_route <$> h_subs c', h_routes c') = (nextSubID c, sub_route <$> h_subs c, h_routes c) -> routed c -> routed c'.
Proof.
  intros E H s a Ha. injection E as E1 E2 E3. destruct (fmap_Some_core sub_route (h_subs c) (h_subs c') s a E2 Ha) as (a0 & Ha0 & Hr).
  unfold sub_route in Hr. injection Hr as R1 R2. destruct (H s a0 Ha0) as (H1 & H2 & r & H3 & H4 & H5). rewrite E1, E3. split; [done|]. split; [congruence|].
  exists r. rewrite <- R2. done.
Qed.

Lemma evolves_frame c c' : evo_part c' = evo_part c -> dom (identRefs c') ⊆ dom (identRefs c) -> h_ops c' = h_ops c -> evolves c c'.
Proof. unfold evo_part. intros E H Ho. injection E as E1 E2 E3 E4. split; [done|done|done| |by apply ops_grow_same]. apply routed_frame. congruence. Qed.

Lemma evolves_same c c' : evo_part c' = evo_part c -> identRefs c' = identRefs c -> h_ops c' = h_ops c -> evolves c c'.
Proof. intros E Hi Ho. apply evolves_frame; [done|by rewrite Hi|done]. Qed.

Lemma evolves_foldl {X} (f : client -> X -> client) (l : list X) c : (forall c x, evolves c (f c x)) -> evolves c (foldl f c l).
Proof. intros H. apply (foldl_inv (evolves c)); [|done]. intros d x Hd. by etrans. Qed.

Lemma dom_release m id : dom (release_ident m id) ⊆ dom m.
Proof.
  unfold release_ident. destruct (Z.leb_spec (refs m id - 1) 0); [rewrite dom_delete; intros x [? _]%elem_of_difference; done|].
  rewrite dom_insert. intros x [->%elem_of_singleton|?]%elem_of_union; [|done]. apply elem_of_dom. unfold refs in *. destruct (m !! id); [by eexists|cbn in *; lia].
Qed.

Lemma dom_releases l : forall m, dom (foldl release_ident m l) ⊆ dom m.
Proof. induction l as [|id l IH]; intros m; [done|]. cbn [foldl]. etrans; [apply IH|apply dom_release]. Qed.

Lemma release_evolves c l : evolves c (releaseIdentsLocked c l).
Proof. apply evolves_frame; [done|apply dom_releases|done]. Qed.

Lemma upd_bs_evolves b g c : evolves c (upd_bs b g c).
Proof. by apply evolves_same. Qed.

Lemma upd_op_evolves op g c : (forall o, o_ident (g o) = o_ident o) -> evolves c (upd_op op g c).
Proof.
  intros H. split; try done. split; intros x.
  - rewrite upd_op_lookup. destruct (decide (x = op)) as [->|]; [|done]. intros [o ->]. by eexists.
  - intros o'. rewrite upd_op_lookup. destruct (decide (x = op)) as [->|]; [|intros Ho; right; by exists o'].
    destruct (h_ops c !! op) as [o|]; [|done]. intros [= <-]. right. exists o. split; [done|apply H].
Qed.

Lemma upd_sub_evolves s g c : (forall a, sub_route (g a) = sub_route a) -> evolves c (upd_sub s g c).
Proof. intros H. apply evolves_same; [|done|done]. unfold evo_part, upd_sub. cbn [nextSubID router h_subs h_routes update]. by rewrite fmap_alter_same. Qed.

Lemma unregister_evolves c op : evolves c (fst (unregisterLocked c op)).
Proof.
  unfold unregisterLocked. destruct (h_ops c !! op); [|done]. set (c1 := upd_op _ _ c). assert (H : evolves c c1) by by apply upd_op_evolves.
  destruct (_ || _); [done|]. etrans; [exact H|by apply evolves_same].
Qed.

Lemma dequeue_evolves c op : evolves c (fst (dequeueLocked c op)).
Proof.
  unfold dequeueLocked. destruct (h_ops c !! op); [|done]. destruct (negb _); [done|]. set (c1 := match Index _ _ with Some _ => _ | None => _ end).
  assert (H : evolves c c1) by (etrans; [by apply (upd_op_evolves op (fun o => o <| o_queued := false |>))|]; subst c1; destruct (Index _ _); [by apply evolves_same|done]). pose proof (unregister_evolves c1 op) as H1.
  destruct (unregisterLocked c1 op) as [c2 id]. cbn [fst] in *. by etrans.
Qed.

Lemma release_for_evolves c op id : evolves c (release_for c op id).
Proof. unfold release_for. destruct (h_ops c !! op); [destruct (_ =? 0); by apply evolves_same|done]. Qed.

Lemma untag_evolves c op : evolves c (untagLocked c op).
Proof.
  unfold untagLocked. destruct (h_ops c !! op) as [o|]; [|done]. apply evolves_foldl. intros d f. unfold untag_filter. destruct (broker_sub d (f_Topic f)) as [[b bs]|]; [|done].
  destruct (Index _ _) as [i|]; [|done]. etrans; [|apply upd_bs_evolves]. etrans; [|apply release_evolves]. apply upd_bs_evolves.
Qed.

Lemma unretire_evolves c op : evolves c (unretireLocked c op).
Proof.
  unfold unretireLocked. destruct (h_ops c !! op) as [o|]; [|done]. pose proof (release_evolves c (o_retired o)) as H. destruct (retiring _); [|done]. destruct (_ =? 0); [done|].
  etrans; [exact H|]. by apply evolves_same.
Qed.

Lemma uncount_evolves c op : evolves c (uncountLocked c op).
Proof. unfold uncountLocked. destruct (h_ops c !! op); [|done]. etrans; [|by apply upd_op_evolves]. apply evolves_foldl. intros. apply upd_bs_evolves. Qed.

Lemma drop_evolves sub c f : evolves c (dropHolderLocked sub c f).
Proof.
  unfold dropHolderLocked. destruct (broker_sub c f) as [[b bs]|]; [|done]. destruct (Index _ _); [|done]. etrans; [apply upd_bs_evolves|apply upd_bs_evolves].
Qed.

Lemma drops_routes sub (fs : list TopicFilter) c :
  (nextSubID (foldl (fun c f => dropHolderLocked sub c (f_Topic f)) c fs), h_routes (foldl (fun c f => dropHolderLocked sub c (f_Topic f)) c fs),
   router (foldl (fun c f => dropHolderLocked sub c (f_Topic f)) c fs), identRefs (foldl (fun c f => dropHolderLocked sub c (f_Topic f)) c fs), h_ops (foldl (fun c f => dropHolderLocked sub c (f_Topic f)) c fs))
  = (nextSubID c, h_routes c, router c, identRefs c, h_ops c).
Proof.
  apply (foldl_frame (fun c => (nextSubID c, h_routes c, router c, identRefs c, h_ops c)) (fun c f => dropHolderLocked sub c (f_Topic f))).
  intros d f. unfold dropHolderLocked. destruct (broker_sub d (f_Topic f)) as [[b bs]|]; [|done]. by destruct (Index _ _).
Qed.

(** A subscription closes with its route. *)
Lemma closed_routed c sub a a' r :
  routed c -> h_subs c !! sub = Some a -> live a -> s_state a' = subClosed -> s_route a' = s_route a -> r = s_route a -> forall c',
  nextSubID c' = nextSubID c -> h_subs c' = <[sub := a']> (h_subs c) ->
  h_routes c' = alter (fun r => if closed r then r else r <| closed := true |> <| closes ::= Z.succ |>) r (h_routes c) -> routed c'.
Proof.
  intros H Ha Hl Hst Hr -> c' H1 H2 H3 s b Hb. rewrite H1, H3. rewrite H2 in Hb. apply lookup_insert_Some in Hb as [[<- <-]|[Hne Hb]].
  - destruct (H sub a Ha) as (K1 & K2 & r & K3 & K4 & K5). split; [done|]. split; [congruence|]. rewrite K2, lookup_alter_eq, K3. cbn.
    rewrite bool_decide_eq_false_2 in K4 by done. rewrite K4 in *. eexists. split; [done|]. cbn. rewrite K5, bool_decide_eq_true_2 by done. done.
  - destruct (H s b Hb) as (K1 & K2 & r & K3 & K4 & K5). split; [done|]. split; [done|]. exists r. split; [|done]. destruct (H sub a Ha) as (_ & K6 & _). rewrite K6.
    by rewrite lookup_alter_ne.
Qed.

Lemma close_sub_evolves c sub err : evolves c (closeSubLocked c sub err).
Proof.
  unfold closeSubLocked. destruct (h_subs c !! sub) as [a|] eqn:Ha; [|done]. destruct (decide _) as [|Hl]; [done|]. set (c1 := _ <| activeSubs ::= _ |>).
  pose proof (drops_routes sub (s_filters a) c1) as E. pose proof (drops_subs sub (s_filters a) c1) as Es. set (c2 := foldl _ c1 _) in *. clearbody c2. injection E as E1 E2 E3 E4 E5.
  split; [exact E1|change (nextID (router c2) = nextID (router c)); by rewrite E3|change (dom (identRefs c2) ⊆ dom (identRefs c)); by rewrite E4| |by apply ops_grow_same].
  intros H. apply (closed_routed c sub a (a <| s_state := subClosed |> <| s_err := err |>) (s_route a)); try done.
  - change (h_subs (close_route c2 (s_route a))) with (h_subs c2). rewrite Es. unfold c1, upd_sub. cbn [h_subs update]. apply map_eq. intros s. rewrite lookup_alter_at.
    destruct (decide (s = sub)) as [->|]; [by rewrite Ha, lookup_insert_eq|by rewrite lookup_insert_ne by congruence].
  - unfold close_route. cbn [h_routes update]. by rewrite E2.
Qed.

Lemma upd_sub_evolves_at s g c a : h_subs c !! s = Some a -> sub_route (g a) = sub_route a -> evolves c (upd_sub s g c).
Proof.
  intros Ha H. apply evolves_same; [|done|done]. unfold evo_part. change (nextSubID (upd_sub s g c)) with (nextSubID c). change (router (upd_sub s g c)) with (router c).
  change (h_routes (upd_sub s g c)) with (h_routes c). f_equal. f_equal. apply map_eq. intros x. rewrite !lookup_fmap, upd_sub_lookup.
  destruct (decide (x = s)) as [->|]; [rewrite Ha; cbn; by rewrite H|done].
Qed.

Lemma answer_evolves o live c p : evolves c (answer_one o live c p).
Proof.
  destruct p as [f rc]. cbn [answer_one]. destruct (broker_sub c (f_Topic f)) as [[b bs]|]; [|done]. etrans; [|apply upd_bs_evolves]. etrans; [|apply upd_bs_evolves].
  assert (H : evolves c (answer_ids (o_ident o) (IsError rc) c b bs)).
  { unfold answer_ids. destruct (Index _ _); [|done]. destruct (IsError rc); [etrans; [apply upd_bs_evolves|apply release_evolves]|etrans; [apply release_evolves|apply upd_bs_evolves]]. }
  destruct (IsError rc); [done|]. etrans; [exact H|apply upd_bs_evolves].
Qed.

Lemma complete_op_evolves c op codes rej : evolves c (complete_op c op codes rej).
Proof.
  unfold complete_op. destruct (h_ops c !! op) as [o|] eqn:Ho; [|done]. cbn [fmap option_fmap option_map]. destruct (o_kind o).
  2: { unfold completeUnsubscribe. etrans; [apply unretire_evolves|by apply upd_op_evolves]. }
  unfold completeSubscribe. rewrite Ho. destruct (h_subs c !! o_sub o) as [a|] eqn:Ha; [|done]. set (live0 := negb (bool_decide (s_state a = subClosed))).
  assert (H1 : evolves c (foldl (answer_one o live0) (uncountLocked c op) (zip (o_filters o) codes))).
  { etrans; [apply uncount_evolves|]. apply evolves_foldl. intros. apply answer_evolves. }
  pose proof (foldl_frame (fun c => (h_subs c, h_ops c, activeSubs c)) (answer_one o live0) (answer_local o live0) (zip (o_filters o) codes) (uncountLocked c op)) as H2.
  injection H2 as Hs _ _. destruct (uncount_part c op) as (_ & Hs1 & _). rewrite Hs1 in Hs. set (c2 := foldl _ _ _) in *. clearbody c2.
  etrans; [|by apply upd_op_evolves]. etrans; [exact H1|]. destruct live0 eqn:El; [|done]. cbn zeta.
  set (g := fun s : activeSub => s <| s_op := None |> <| s_filters := _ |> <| s_results := _ |>). assert (H3 : evolves c2 (upd_sub (o_sub o) g c2)) by by apply upd_sub_evolves.
  destruct (_ =? 0); [etrans; [exact H3|apply close_sub_evolves]|]. etrans; [exact H3|]. apply (upd_sub_evolves_at _ _ _ (g a)); [by rewrite upd_sub_lookup, decide_True, Hs, Ha|].
  unfold live0 in El. apply negb_true_iff in El. unfold sub_route. cbn. by rewrite El.
Qed.

Lemma ack_evolves c cs want id codes : evolves c (fst (deliverControlAck c cs want id codes)).
Proof.
  unfold deliverControlAck. destruct (ctrlOps c !! id) as [op|]; [|done]. destruct (h_ops c !! op) as [o|]; [|done]. destruct (bool_decide _); [|done].
  pose proof (unregister_evolves c op) as H1. destruct (unregisterLocked c op) as [c1 id1]. cbn [fst] in H1. destruct (negb _); [etrans; [exact H1|]; etrans; [by apply (upd_op_evolves op (fun o => o <| o_conn := Some cs |>))|by apply evolves_same]|].
  pose proof (dequeue_evolves c1 op) as H2. destruct (dequeueLocked c1 op) as [c2 q]. cbn [fst] in H2. assert (H3 : evolves c (ReleaseID c2 id (owner o))) by (etrans; [by etrans|by apply evolves_same]).
  destruct q; cbn [fst]; [|done]. etrans; [exact H3|apply complete_op_evolves].
Qed.

Lemma settle_one_evolves s p : evolves (fst s) (fst (settle_one s p)).
Proof.
  destruct s as [c x], p as [f b]. cbn [settle_one fst]. destruct (h_bsubs c !! b) as [bs|]; [|done]. destruct (0 <? _); [done|]. fold (removed c f bs).
  assert (H : evolves c (removed c f bs)) by (apply evolves_same; [|done|done]; unfold evo_part, removed; cbn [nextSubID router h_subs h_routes update]; by rewrite Unregister_nextID).
  destruct (_ && _); [etrans; [exact H|apply release_evolves]|done].
Qed.

Lemma new_op_evolves c o : o_ident o = 0 -> evolves c (fst (new_op c o)).
Proof.
  intros H. split; try done. split; intros x.
  - intros Hx. change (is_Some (<[next_op c := o]> (h_ops c) !! x)). destruct (decide (x = next_op c)) as [->|]; [rewrite lookup_insert_eq; by eexists|by rewrite lookup_insert_ne by congruence].
  - intros o' Ho. change (<[next_op c := o]> (h_ops c) !! x = Some o') in Ho. apply lookup_insert_Some in Ho as [[_ <-]|[_ Ho]]; [by left|right; by exists o'].
Qed.

Lemma settle_evolves ord c : evolves c (fst (settle ord c)).
Proof.
  unfold settle. assert (H : evolves c (fst (foldl settle_one (c, None) (range ord (brokerSubs c))))
    /\ match snd (foldl settle_one (c, None) (range ord (brokerSubs c))) with Some o => o_ident o = 0 | None => True end).
  { apply (foldl_inv (fun s => evolves c (fst s) /\ match snd s with Some o => o_ident o = 0 | None => True end)); [|done]. intros s p [Hs Ho].
    split; [etrans; [exact Hs|apply settle_one_evolves]|]. destruct s as [d x], p as [f b]. cbn in *. destruct (h_bsubs d !! b); [|done]. destruct (0 <? _); [done|].
    destruct (_ && _); [done|]. by destruct x. }
  destruct (foldl _ _ _) as [c1 [o|]]; cbn [fst snd] in *; [|apply H]. destruct H as [H Ho]. etrans; [exact H|]. set (o' := o <| o_topics ::= _ |>).
  pose proof (new_op_evolves c1 o' Ho) as Hn. assert (En : new_op c1 o' = (fst (new_op c1 o'), next_op c1)) by done. rewrite En. cbn [fst]. set (c2 := fst (new_op c1 o')) in *. clearbody c2.
  etrans; [exact Hn|]. assert (Hr : evolves c2 (retireLocked c2 (o_retiredIssued o))) by (unfold retireLocked; destruct (_ =? 0); [done|by apply evolves_same]).
  etrans; [exact Hr|]. unfold enqueue. etrans; [by apply (upd_op_evolves (next_op c1) (fun o => o <| o_queued := true |>))|by apply evolves_same].
Qed.

Lemma completes_evolves {X} (op : X -> Z) (r : X -> ctrlResult) (l : list X) c : evolves c (foldl (fun c x => complete c (op x) (r x)) c l).
Proof. apply evolves_foldl. intros. by apply upd_op_evolves. Qed.

Lemma next_evolves c cs : evolves c (fst (nextToSend c cs)).
Proof.
  unfold nextToSend. assert (H : forall q c dropped, evolves c (fst (fst (next_loop (cs_name cs) q c dropped)))).
  { induction q as [|op q IH]; intros d dropped; cbn [next_loop]; [done|]. destruct (h_ops d !! op); [|apply IH]. destruct (bool_decide _); [apply IH|].
    destruct (droppable _ _); [|done]. etrans; [apply (dequeue_evolves d op)|apply IH]. }
  specialize (H (ctrlQueue c) c []). destruct (next_loop _ _ c []) as [[c1 dropped] next]. cbn [fst] in *. etrans; [exact H|]. etrans; [apply (evolves_foldl untagLocked dropped); apply untag_evolves|].
  apply (completes_evolves id (fun _ => ErrClosed_result)).
Qed.

Lemma fail_evolves ord c op err : evolves c (failCtrl ord c op err).
Proof.
  unfold failCtrl. pose proof (dequeue_evolves c op) as H. destruct (dequeueLocked c op) as [c1 [stale|]]; cbn [fst] in H; destruct (h_ops c !! op) as [o|]; try done.
  set (c2 := match o_kind o with KSubscribe => closeSubLocked _ _ _ | KUnsubscribe => _ end).
  assert (H2 : evolves c1 c2) by (subst c2; destruct (o_kind o); [etrans; [apply untag_evolves|apply close_sub_evolves]|apply unretire_evolves]).
  assert (H3 : evolves c (complete (release_for c2 op stale) op (mkCtrlResult [] (Some err)))).
  { etrans; [exact H|]. etrans; [exact H2|]. etrans; [apply release_for_evolves|by apply upd_op_evolves]. }
  destruct (o_kind o); [|done]. etrans; [exact H3|apply settle_evolves].
Qed.

Lemma lost_evolves ord c sd : evolves c (connectionLost ord c sd).
Proof.
  unfold connectionLost. set (blamed := match sd with Some _ => _ | None => _ end). set (l := range ord (ctrlOps c)).
  assert (H : evolves c (fst (foldl (lose_one blamed) (c <| ctrlOps := ∅ |>, []) l))).
  { apply (foldl_inv (fun s => evolves c (fst s))); [|by apply evolves_same]. intros [d rej] p Hd. cbn [fst] in Hd. unfold lose_one. set (d1 := upd_op p.2 _ d).
    assert (H1 : evolves c d1) by (etrans; [exact Hd|by apply upd_op_evolves]). destruct (negb blamed); [done|]. set (d2 := upd_op p.2 _ d1).
    assert (H2 : evolves c d2) by (etrans; [exact H1|by apply upd_op_evolves]). destruct (_ <? _); [done|]. pose proof (dequeue_evolves d2 p.2) as H3.
    destruct (dequeueLocked d2 p.2) as [d3 [x|]]; cbn [fst] in *; by etrans. }
  destruct (foldl _ _ l) as [c1 rejected]. cbn [fst] in H. etrans; [exact H|]. etrans; [apply (evolves_foldl (fun c p => release_for c p.2 p.1) l); intros; apply release_for_evolves|].
  apply evolves_foldl. intros d op. unfold reject_one. destruct (h_ops d !! op); [apply complete_op_evolves|done].
Qed.

Lemma close_all_evolves c : evolves c (closeAllSubs c).
Proof.
  unfold closeAllSubs. etrans; [|apply (completes_evolves id (fun _ => ErrClosed_result))]. etrans; [|apply evolves_foldl; intros; apply release_for_evolves].
  set (c1 := _ <| sessionLost := false |>). set (c2 := foldl _ c1 (ctrlQueue c)). set (c3 := foldl _ c2 _).
  assert (H1 : evolves c c1) by by apply evolves_same. assert (H2 : evolves c1 c2) by (apply evolves_foldl; intros; by apply upd_op_evolves).
  assert (H3 : evolves c2 c3) by (apply evolves_foldl; intros; apply close_sub_evolves). etrans; [exact H1|]. etrans; [exact H2|]. etrans; [exact H3|].
  apply evolves_frame; [done|apply empty_subseteq|done].
Qed.

Lemma mark_evolves c op : evolves c (fst (markSent c op)).
Proof.
  unfold markSent. destruct (h_ops c !! op) as [o|]; [|done]. destruct (_ && _); cbn [fst]; [|by apply upd_op_evolves]. etrans; [by apply (upd_op_evolves op (fun o => o <| o_sent := true |>))|]. apply evolves_foldl.
  intros d f. unfold count_pending. destruct (broker_sub d (f_Topic f)) as [[b bs]|]; [|done]. etrans; [apply upd_bs_evolves|by apply upd_op_evolves].
Qed.

Lemma register_evolves c cs op id : evolves c (fst (send_register c cs op id)).
Proof.
  unfold send_register. destruct (h_ops c !! op) as [o|]; [|done]. destruct (negb _); [by apply evolves_same|]. pose proof (unregister_evolves c op) as H.
  destruct (unregisterLocked c op) as [c1 stale]. cbn [fst] in *. etrans; [exact H|]. etrans; [|apply release_for_evolves].
  etrans; [by apply (upd_op_evolves op (fun o => o <| o_id := id |> <| o_conn := Some (cs_name cs) |>))|by apply evolves_same].
Qed.

Lemma send_failed_evolves c cs op first : evolves c (send_failed c cs op first).
Proof.
  unfold send_failed. set (c1 := if first then _ else _). assert (H : evolves c c1).
  { subst c1. destruct first; [|done]. unfold unmarkSent. etrans; [by apply (upd_op_evolves op (fun o => o <| o_sent := false |>))|apply uncount_evolves]. }
  destruct (h_ops c1 !! op) as [o|]; [|done]. destruct (bool_decide _); [|done]. pose proof (unregister_evolves c1 op) as H1. destruct (unregisterLocked c1 op) as [c2 id]. cbn [fst] in *.
  etrans; [exact H|]. etrans; [exact H1|apply release_for_evolves].
Qed.

Lemma unsubscribe_evolves ord c sub : evolves c (fst (Unsubscribe ord c sub)).
Proof.
  unfold Unsubscribe. destruct (h_subs c !! sub) as [a|]; [|done]. destruct (decide _); [done|]. pose proof (settle_evolves ord (closeSubLocked c sub None)) as H.
  destruct (settle ord _) as [c1 op]. cbn [fst] in *. etrans; [|by apply upd_sub_evolves]. etrans; [|exact H]. apply close_sub_evolves.
Qed.

(** ** Identifiers of operations *)

Definition idented (c : client) : Prop := forall op o, h_ops c !! op = Some o -> 0 <= o_ident o.

Lemma idented_evolves c c' : evolves c c' -> idented c -> idented c'.
Proof. intros [_ _ _ _ [_ H]] Hi op o Ho. destruct (H op o Ho) as [->|(o0 & Ho0 & ->)]; [done|eauto]. Qed.

Lemma idented_ops c c' : h_ops c' = h_ops c -> idented c -> idented c'.
Proof. unfold idented. by intros ->. Qed.

Lemma idented_upd op g c : (forall o, 0 <= o_ident o -> 0 <= o_ident (g o)) -> idented c -> idented (upd_op op g c).
Proof.
  intros H Hi x o. rewrite upd_op_lookup. destruct (decide (x = op)) as [->|]; [|apply Hi]. destruct (h_ops c !! op) as [o0|] eqn:E; [|done]. intros [= <-]. by apply H, (Hi op).
Qed.

Lemma tags_ops ident (fs : list TopicFilter) : forall c c', foldl (tag_filter ident) (Some c) fs = Some c' -> h_ops c' = h_ops c.
Proof.
  assert (Hnone : forall fs, foldl (tag_filter ident) None fs = None) by (intros l; induction l; done).
  induction fs as [|f fs IH]; intros c c'; cbn [foldl]; [by intros [= <-]|]. destruct (tag_filter ident (Some c) f) as [d|] eqn:E; [|by rewrite Hnone].
  intros ->%IH. cbn in E. destruct (broker_sub c (f_Topic f)) as [[b bs]|]; [|done]. by injection E as <-.
Qed.

Lemma queue_subscribe_idented c op c' : queueSubscribeLocked c op = Some c' -> idented c -> idented c'.
Proof.
  unfold queueSubscribeLocked, allocIdentLocked. destruct (alloc_loop _ _ _) as [ident|] eqn:E; [|done]. destruct (h_ops c !! op) as [o|]; [|done].
  destruct (alloc_free _ _ _ _ E) as [_ Hid]. destruct (foldl _ _ _) as [c2|] eqn:E2; [|done]. intros [= <-] Hi. apply idented_upd; [done|].
  apply (idented_ops _ _ (tags_ops _ _ _ _ E2)). change (idented (upd_op op (fun o => o <| o_ident := ident |>) (c <| nextIdent := ident |>))). apply idented_upd; [cbn; lia|done].
Qed.

Lemma new_op_idented c o : 0 <= o_ident o -> idented c -> idented (fst (new_op c o)).
Proof. intros H Hi op o' Ho. change (<[next_op c := o]> (h_ops c) !! op = Some o') in Ho. apply lookup_insert_Some in Ho as [[_ <-]|[_ Ho]]; [done|by apply (Hi op)]. Qed.

Lemma add_sub_idented c filters r c' x : addSub c filters r false = Some (c', x) -> idented c -> idented c'.
Proof.
  unfold addSub. set (c0 := _ <| h_subs ::= _ |>). set (c1 := foldl _ c0 filters). intros H Hi.
  assert (H1 : idented c1).
  { apply (idented_ops c0); [|done]. apply (foldl_frame h_ops (join (u64 (nextSubID c + 1)))). intros d f. unfold join, brokerSubLocked. destruct (brokerSubs d !! f_Topic f); [done|]. by destruct (Register _ _ _). }
  clearbody c1. set (c2 := c1 <| activeSubs ::= _ |>) in H. set (o := subscribe_op _ _ _) in H. assert (H2 : idented (fst (new_op c2 o))) by by apply new_op_idented.
  assert (En : new_op c2 o = (fst (new_op c2 o), next_op c2)) by done. rewrite En in H. destruct (queueSubscribeLocked _ _) as [c3|] eqn:E; [|done]. injection H as <- _.
  by apply (queue_subscribe_idented _ _ _ E).
Qed.

Lemma resubscribe_idented (l : list Z) : forall c c', foldl resubscribe_one (Some c) l = Some c' -> idented c -> idented c'.
Proof.
  induction l as [|sub l IH]; intros c c'; cbn [foldl]; [by intros [= <-]|]. destruct (resubscribe_one (Some c) sub) as [c1|] eqn:E; [|by rewrite resubscribe_none].
  intros H Hi. apply (IH _ _ H). cbn in E. destruct (h_subs c !! sub) as [a|]; [|done]. destruct (s_op a) as [op|]; apply (queue_subscribe_idented _ _ _ E); (apply idented_upd; [done|]); [done|].
  by apply new_op_idented.
Qed.

Lemma reset_idented ord c c' : resetSession ord c = Some c' -> idented c -> idented c'.
Proof.
  unfold resetSession. intros H Hi. set (c0 := c <| ctrlQueue := [] |>) in H.
  assert (H1 : idented (fst (foldl unqueue_one (c0, []) (ctrlQueue c)))).
  { apply (foldl_inv (fun s => idented (fst s))); [|done]. intros [d r] op Hd. cbn [unqueue_one]. set (d1 := upd_op op _ d). assert (Hd1 : idented d1) by by apply idented_upd.
    pose proof (idented_evolves _ _ (unregister_evolves d1 op) Hd1) as H2. by destruct (unregisterLocked d1 op). }
  destruct (foldl unqueue_one (c0, []) (ctrlQueue c)) as [c1 released]. cbn [fst] in H1.
  assert (H2 : idented (fst (foldl finish_one (c1, []) (ctrlQueue c)))).
  { apply (foldl_inv (fun s => idented (fst s))); [|done]. intros [d r] op Hd. cbn [fst] in Hd. cbn [finish_one]. destruct (h_ops d !! op) as [o|]; [|done].
    destruct (o_kind o); [by destruct (bool_decide _)|]. exact (idented_evolves _ _ (unretire_evolves d op) Hd). }
  destruct (foldl finish_one (c1, []) (ctrlQueue c)) as [c2 finished]. cbn [fst] in H2. set (c3 := foldl forget_one c2 _) in H.
  assert (H3 : idented c3).
  { apply (idented_ops c2); [|done]. subst c3. apply (foldl_frame h_ops forget_one). intros d [f b]. cbn. destruct (h_bsubs d !! b); [|done]. by destruct (_ =? 0). }
  clearbody c3. destruct (foldl resubscribe_one (Some c3) _) as [c4|] eqn:E; [|done]. injection H as <-. pose proof (resubscribe_idented _ _ _ E H3) as H4.
  eapply idented_evolves; [|exact H4]. etrans; [|apply (completes_evolves fst snd)]. apply (evolves_foldl (fun c p => release_for c p.1 p.2)). intros. apply release_for_evolves.
Qed.

(** ** Packets *)

Section packets.
Context `{BufferPool}.

Lemma writes_string s : writes (fun buf off => writeUTF8String buf off s) (be16 (u16 (len s)) ++ s).
Proof.
  unfold writeUTF8String, PutUint16.
  apply (writes_put (fun buf off => let! (buf, n) := copy buf off s in Ok (buf, off + n)) (be16 (u16 (len s))) s 2); [done|apply writes_copy].
Qed.

Lemma writes_filters_any fs : exists bs, writes (writeFilters fs) bs /\ len bs = filtersLen fs.
Proof.
  induction fs as [|f fs (bs & IH & Hl)]; [exists []; split; [apply writes_nil|done]|]. cbn [writeFilters filtersLen].
  exists ((be16 (u16 (len (f_Topic f))) ++ f_Topic f) ++ [encodeSubscribeOptions f] ++ bs). split.
  - wseq; [apply writes_string|]. wseq; [auto with writes|]. exact IH.
  - rewrite !len_app, len_be16, Hl. change (len [encodeSubscribeOptions f]) with 1. lia.
Qed.

Lemma writes_topics_any ts : exists bs, writes (writeTopics ts) bs /\ len bs = topicsLen ts.
Proof.
  induction ts as [|t ts (bs & IH & Hl)]; [exists []; split; [apply writes_nil|done]|]. cbn [writeTopics topicsLen].
  exists ((be16 (u16 (len t)) ++ t) ++ bs). split; [wseq; [apply writes_string|exact IH]|]. rewrite !len_app, len_be16, Hl. lia.
Qed.

Lemma fixedHdr_no_panic first n : no_panic (fixedHdr first n).
Proof.
  assert (E : fixedHdr first n = fixedHdr first (u32 n)) by (unfold fixedHdr; assert (u32 (u32 n) = u32 n) as -> by (unfold u32; by rewrite Zmod_mod); done).
  rewrite E. pose proof (Z.mod_pos_bound n (2 ^ 32) ltac:(done)). unfold u32. destruct (Z.le_gt_cases (n mod 2 ^ 32) MaxVarintValue); [by rewrite fixedHdr_spec by lia|by rewrite fixedHdr_large by lia].
Qed.

Lemma writes_whole_ok w bs n : writes w bs -> len bs = n -> 0 <= n -> exists x, w (acquired n) 0 = Ok x.
Proof. intros Hw Hl Hn. eexists. apply (writes_whole w bs); [done|]. by rewrite acquired_len. Qed.

Lemma filtersLen_nonneg fs : 0 <= filtersLen fs.
Proof. induction fs as [|f fs IH]; cbn [filtersLen]; [done|]. pose proof (len_nonneg (f_Topic f)). lia. Qed.

Lemma topicsLen_nonneg ts : 0 <= topicsLen ts.
Proof. induction ts as [|t ts IH]; cbn [topicsLen]; [done|]. pose proof (len_nonneg t). lia. Qed.

(** The SUBSCRIBEs and UNSUBSCRIBEs of a client are always encoded or
    refused, whatever the topics. *)
Lemma WriteSubscribe_safe id fs ident : (forall i, ident = Some i -> 0 <= i) -> no_panic (WriteSubscribe (mkSubscribeOpts id fs ident [])).
Proof.
  intros Hi. unfold WriteSubscribe. apply no_panic_bind; [unfold validateSubscribeOpts; validator_no_panic|]. intros [] Hv.
  destruct (_ =? 0); [discriminate|]. cbn [so_Filters so_SubscriptionIdentifier so_UserProperties userPropertiesLen].
  assert (Hr : forall i, ident = Some i -> 0 <= i <= MaxVarintValue).
  { intros i E. specialize (Hi i E). split; [done|]. subst ident. unfold validateSubscribeOpts in Hv. cbn [so_PacketID so_Filters so_SubscriptionIdentifier] in Hv.
    destruct (id =? 0); [done|]. destruct (len fs =? 0); [done|]. destruct (validateFilters fs); [|done|done]. cbn [rbind] in Hv.
    destruct (Z.ltb_spec MaxVarintValue i); [|lia]. rewrite orb_true_r in Hv. done. }
  set (props := match ident with Some i => 1 + VarintSize i | None => 0 end). rewrite Z.add_0_r.
  assert (Hp : 0 <= props <= 5).
  { subst props. destruct ident as [i|]; [|lia]. pose proof (VarintSize_range i (Hr i eq_refl)). lia. }
  apply no_panic_bind; [apply fixedHdr_no_panic|]. intros hdr _. destruct (writes_filters_any fs) as (bs & Hbs & Hl).
  assert (Hu : u32 props = props) by (unfold u32; apply Z.mod_small; lia).
  destruct (writes_whole_ok (subscribeBody (mkSubscribeOpts id fs ident []) props)
    (be16 id ++ enc_varint props ++ (match ident with Some i => PropSubscriptionIdentifier :: enc_varint i | None => [] end) ++ [] ++ bs)
    (2 + VarintSize (u32 props) + props + filtersLen fs)) as [[b o] Hx].
  - unfold subscribeBody. cbn [so_PacketID so_SubscriptionIdentifier so_UserProperties so_Filters]. wseq; [auto with writes|]. wseq; [apply writes_prefix; unfold MaxVarintValue; lia|].
    wseq; [destruct ident as [i|]; [by apply writes_subscriptionIdentifier, Hr|apply writes_nil]|]. wseq; [apply writes_nil|exact Hbs].
  - rewrite !len_app, len_be16, Hl, Hu, len_enc_varint by (unfold MaxVarintValue; lia). subst props. destruct ident as [i|]; [rewrite len_cons, len_enc_varint by by apply Hr|]; repeat (rewrite len_nil || change (len (@nil Z)) with 0); lia.
  - rewrite Hu. pose proof (VarintSize_range props ltac:(unfold MaxVarintValue; lia)). pose proof (filtersLen_nonneg fs). lia.
  - rewrite Hx. discriminate.
Qed.

Lemma WriteUnsubscribe_safe id ts : no_panic (WriteUnsubscribe (mkUnsubscribeOpts id ts [])).
Proof.
  unfold WriteUnsubscribe. apply no_panic_bind; [unfold validateUnsubscribeOpts; validator_no_panic|]. intros [] _.
  destruct (_ =? 0); [discriminate|]. cbn [uo_Topics uo_UserProperties userPropertiesLen].
  apply no_panic_bind; [apply fixedHdr_no_panic|]. intros hdr _. destruct (writes_topics_any ts) as (bs & Hbs & Hl).
  destruct (writes_whole_ok (unsubscribeBody (mkUnsubscribeOpts id ts []) 0) (be16 id ++ enc_varint 0 ++ [] ++ bs) (2 + VarintSize (u32 0) + 0 + topicsLen ts)) as [[b o] Hx].
  - unfold unsubscribeBody. cbn [uo_PacketID uo_UserProperties uo_Topics]. wseq; [auto with writes|]. wseq; [by apply writes_prefix|]. wseq; [apply writes_nil|exact Hbs].
  - rewrite len_app, len_app, len_be16, len_enc_varint by done. cbn [app]. rewrite Hl. change (VarintSize (u32 0)) with 1. change (VarintSize 0) with 1. lia.
  - change (VarintSize (u32 0)) with 1. pose proof (topicsLen_nonneg ts). lia.
  - rewrite Hx. discriminate.
Qed.

Lemma sized_no_panic cs w : no_panic w -> no_panic (sized cs w).
Proof. intros Hw. destruct w as [b|e|]; [|discriminate|done]. cbn. destruct (checkPacketSize cs (len b)); discriminate. Qed.

Lemma encode_no_panic cs id o : 0 <= o_ident o -> no_panic (encode_op cs id o).
Proof.
  intros Hi. unfold encode_op. destruct (o_kind o); apply sized_no_panic; [|apply WriteUnsubscribe_safe]. apply WriteSubscribe_safe.
  intros i. destruct (SubscriptionIdentifiersAvailable cs); [by intros [= <-]|done].
Qed.

Lemma subscribe_check_no_panic c filters : no_panic (subscribe_check c filters).
Proof.
  unfold subscribe_check. destruct (_ =? 0); [discriminate|]. destruct (cur c) as [cs|].
  - destruct (checkFilterCapabilities cs filters); [discriminate|]. apply no_panic_bind; [|discriminate]. apply sized_no_panic, WriteSubscribe_safe.
    intros i. destruct (SubscriptionIdentifiersAvailable cs); [by intros [= <-]|done].
  - pose proof (WriteSubscribe_safe 1 filters None ltac:(done)) as Hw. unfold wireFilters. destruct (WriteSubscribe _); [discriminate|discriminate|done].
Qed.

(** What passed the check is not empty. *)
Lemma subscribe_check_filters c filters : subscribe_check c filters = Ok tt -> filters <> [].
Proof. intros Hc ->. done. Qed.
End packets.

(** ** What the sender changes of the subscriptions: nothing *)

Lemma mark_part c op : core_part (fst (markSent c op)) = core_part c.
Proof.
  unfold markSent. destruct (h_ops c !! op) as [o|]; [|done]. set (c1 := upd_op _ _ c). assert (H : core_part c1 = core_part c) by by apply upd_op_core. clearbody c1.
  destruct (_ && _); cbn [fst]; [|done]. rewrite <- H. apply (foldl_frame core_part (count_pending op)). intros d f. unfold count_pending.
  destruct (broker_sub d (f_Topic f)) as [[b bs]|]; [|done]. rewrite upd_op_core by done. by apply upd_bs_quiet.
Qed.

Lemma register_part c cs op id : core_part (fst (send_register c cs op id)) = core_part c.
Proof.
  unfold send_register. destruct (h_ops c !! op) as [o|]; [|done]. destruct (negb _); [done|]. pose proof (unregister_part c op) as H.
  destruct (unregisterLocked c op) as [c1 stale]. cbn [fst] in *. rewrite release_for_part, <- H.
  transitivity (core_part (upd_op op (fun o => o <| o_id := id |> <| o_conn := Some (cs_name cs) |>) c1)); [done|]. by apply upd_op_core.
Qed.

Lemma send_failed_part c cs op first : core_part (send_failed c cs op first) = core_part c.
Proof.
  unfold send_failed. set (c1 := if first then _ else _). assert (H : core_part c1 = core_part c).
  { subst c1. destruct first; [|done]. unfold unmarkSent. destruct (uncount_part (upd_op op (fun o => o <| o_sent := false |>) c) op) as [-> _]. by apply upd_op_core. }
  destruct (h_ops c1 !! op) as [o|]; [|done]. destruct (bool_decide _); [|done]. pose proof (unregister_part c1 op) as H1. destruct (unregisterLocked c1 op) as [c2 id].
  cbn [fst] in *. rewrite release_for_part. congruence.
Qed.

Lemma sub_quiet_part sub f c : (forall a, sub_core (f a) = sub_core a) -> (forall a, s_route (f a) = s_route a) -> core_part (upd_sub sub f c) = core_part c.
Proof. intros H1 H2. unfold core_part. by rewrite upd_sub_rest, upd_sub_links. Qed.

(** [Unsubscribe] *)
Lemma unsubscribe_core R U W ord c sub : queue_ok R U W c -> core_ok ∅ c -> core_ok ∅ (fst (Unsubscribe ord c sub)).
Proof.
  intros Q I. unfold Unsubscribe. destruct (h_subs c !! sub) as [a|]; [|done]. destruct (decide _); [done|].
  assert (Hfr : fresh_name (closeSubLocked c sub None)).
  { apply (fresh_frame c); [|by apply (queue_fresh _ _ _ _ _ _ Q)]. apply name_all; [apply close_sub_kinds|apply close_sub_frame]. }
  pose proof (settle_core ord _ Hfr (close_sub_core _ _ sub None I)) as I1. destruct (settle ord _) as [c1 op]. cbn [fst] in *.
  apply (core_ok_frame _ c1); [by apply sub_quiet_part|done].
Qed.

Lemma unsubscribe_inv R U W ord c sub : queue_ok R U W c -> queue_ok R U W (fst (Unsubscribe ord c sub)).
Proof.
  intros Q. unfold Unsubscribe. destruct (h_subs c !! sub) as [a|]; [|done]. destruct (decide _); [done|].
  pose proof (settle_inv R U W ord _ (queue_ok_frame _ _ _ _ _ (close_sub_frame c sub None) Q)) as Q1. destruct (settle ord _) as [c1 op]. cbn [fst] in *.
  apply (queue_ok_frame _ _ _ c1); [apply upd_sub_frame|done].
Qed.

(** ** Bounds *)

(** What [n] subscriptions and filters can amount to. *)
Record bounded (n : Z) (c : client) : Prop := {
  b_routed : routed c;
  b_idented : idented c;
  b_load : Z.of_nat (size (identRefs c)) <= nextSubID c;
  b_next : 0 <= nextSubID c <= n;
  b_trie : nextID (router c) <= n;
}.

Lemma bounded_evolves n c c' : evolves c c' -> bounded n c -> bounded n c'.
Proof.
  intros E [H1 H2 H3 H4 H5]. pose proof (idented_evolves _ _ E H2). destruct E as [E1 E2 E3 E4 _]. split; [auto|done| |by rewrite E1|by rewrite E2].
  rewrite E1. apply subseteq_size in E3. rewrite !size_dom in E3. lia.
Qed.

Lemma bounded_mono n n' c : n <= n' -> bounded n c -> bounded n' c.
Proof. intros Hn []. split; [done..|lia|lia]. Qed.

Lemma active_size P n c : core_ok P c -> bounded n c -> Z.of_nat (size (activeSubs c)) <= nextSubID c.
Proof.
  intros I B. assert (Hsub : activeSubs c ⊆ list_to_set (seqZ 1 (nextSubID c))).
  { intros s (a & Ha & _)%(k_active _ _ (i_linked _ _ _ _ I)). destruct (b_routed _ _ B s a Ha) as (Hs & _). apply elem_of_list_to_set, elem_of_seqZ. lia. }
  apply subseteq_size in Hsub. rewrite size_list_to_set in Hsub by apply NoDup_seqZ. rewrite length_seqZ in Hsub. destruct (b_next _ _ B). lia.
Qed.

Lemma load_grown (m m' : gmap Z Z) ident : dom m' ⊆ {[ident]} ∪ dom m -> Z.of_nat (size m') <= Z.of_nat (size m) + 1.
Proof.
  intros Hd. apply subseteq_size in Hd. rewrite size_dom in Hd. pose proof (size_union_alt ({[ident]} : gset Z) (dom m)) as Hu. rewrite size_singleton in Hu.
  pose proof (subseteq_size (dom m ∖ {[ident]}) (dom m) ltac:(intros x [? _]%elem_of_difference; done)) as Hle. rewrite size_dom in Hle. lia.
Qed.

(** [subscribe] up to its [flushCtrl] *)
Lemma subscribe_ok `{BufferPool} R U W n c filters zc ended :
  queue_ok R U W c -> core_ok ∅ c -> bounded n c -> n + 1 + len filters < MaxVarintValue ->
  exists c', subscribe_begin c filters zc ended = Some c' /\ queue_ok R U W c' /\ core_ok ∅ c' /\ bounded (n + (1 + len filters)) c'.
Proof.
  intros Q I B Hn. pose proof (len_nonneg filters). assert (Bn : bounded (n + (1 + len filters)) c) by (apply (bounded_mono n); [lia|done]).
  unfold subscribe_begin. pose proof (subscribe_check_no_panic c filters) as Hp. destruct (subscribe_check c filters) as [[]|e|] eqn:Ec; [|by exists c|done].
  destruct ended; [by exists c|]. pose proof (subscribe_check_filters _ _ Ec) as Hne. destruct B as [B1 B2 B3 B4 B5]. unfold MaxVarintValue in Hn. rewrite u64_id by lia.
  set (sub := nextSubID c + 1). set (c0 := c <| h_routes ::= _ |>). assert (Q0 : queue_ok R U W c0) by by apply (queue_ok_frame _ _ _ c).
  assert (I0 : core_ok ∅ c0) by by apply (core_ok_frame _ c).
  destruct (add_sub_core c0 filters sub) as (c' & E & I' & Hs' & Hn' & Ht' & Hr' & (ident & _ & Hd)).
  - done.
  - destruct (h_subs c0 !! (nextSubID c0 + 1)) as [a|] eqn:Ea; [|done]. destruct (B1 _ a Ea) as [Hlt _]. change (nextSubID c0) with (nextSubID c) in Hlt. lia.
  - change (0 <= nextSubID c). lia.
  - change (nextSubID c + 1 < 2 ^ 64). lia.
  - apply fresh_none. by apply (queue_fresh _ _ _ _ _ _ Q0).
  - change (nextID (router c) + len filters < 2 ^ 64). lia.
  - change (Z.of_nat (size (identRefs c)) < MaxVarintValue). unfold MaxVarintValue. lia.
  - done.
  - exists c'. rewrite E. split; [done|]. split; [by apply (add_sub_inv _ _ _ _ _ _ _ _ _ E)|]. split; [done|].
    pose proof (add_sub_idented _ _ _ _ _ E B2) as Hi. apply load_grown in Hd. change (identRefs c0) with (identRefs c) in Hd. change (nextSubID c0 + 1) with sub in *.
    change (router c0) with (router c) in Ht'. change (h_subs c0) with (h_subs c) in Hs'. split; [|done|lia|lia|lia].
    intros s a Ha. rewrite Hs' in Ha. rewrite Hn', Hr'. change (h_routes c0) with (<[sub := mkRoute zc false 0]> (h_routes c)). apply lookup_insert_Some in Ha as [[<- <-]|[Hne' Ha]].
    + split; [unfold sub; lia|]. split; [done|]. rewrite lookup_insert_eq. by eexists.
    + destruct (B1 s a Ha) as (H1 & H2 & r & H3 & H4). split; [unfold sub; lia|]. split; [done|]. exists r. by rewrite lookup_insert_ne.
Qed.

(** [flushCtrl] up to its loop *)
Lemma flush_ok R U W n ord c :
  queue_ok R U W c -> core_ok ∅ c -> bounded n c -> n < MaxVarintValue ->
  exists c' p, flush_begin ord c = Some (c', p) /\ queue_ok R U W c' /\ core_ok ∅ c' /\ bounded n c' /\ (p = Idle \/ exists cs, p = Flushing cs).
Proof.
  intros Q I B Hn. unfold flush_begin. destruct (cur c) as [cs|]; [|exists c, Idle; by split_and!; [..|left]]. set (c0 := c <| sessionLost := false |>).
  assert (Q0 : queue_ok R U W c0) by by apply (queue_ok_frame _ _ _ c). assert (I0 : core_ok ∅ c0) by by apply (core_ok_frame _ c).
  assert (B0 : bounded n c0) by (apply (bounded_evolves n c); [by apply evolves_same|done]). destruct (sessionLost c); [|exists c0, (Flushing cs); split_and!; eauto].
  pose proof (active_size _ _ _ I0 B0) as Ha. destruct (b_next _ _ B0) as [Hb1 Hb2].
  destruct (reset_core R U W ord c0 Q0 I0 ltac:(lia)) as (c' & E & I' & T1 & T2 & T3 & T4 & T5). rewrite E. exists c', (Flushing cs). split; [done|].
  split; [apply (reset_inv R U W ord c0); [done|apply linked_links, I0|done]|]. split; [done|]. split; [|eauto]. destruct B0 as [K1 K2 K3 K4 K5].
  split; [|by apply (reset_idented _ _ _ E)|lia|lia|lia]. apply (routed_frame c0); [|done]. rewrite T1, T3. do 2 f_equal. 
  exact (fmap_weaken (fun a => (s_route a, s_state a)) (fun p => (fst p, bool_decide (snd p = subClosed))) _ _ T4).
Qed.

(** ** The machine *)

(** The packet identifier in the sender's hands, the operation it has not
    marked yet and the connection it is sending on. *)
Definition hand (p : point) : gmap Z Z := match p with Holding _ op id _ => {[id := op]} | _ => ∅ end.
Definition unmarked (p : point) : gset Z := match p with Registered _ op _ _ => {[op]} | _ => ∅ end.
Definition watched (p : point) : gmap Z Z :=
  match p with Registered cs op _ _ | Writing cs op _ _ _ => {[op := cs_name cs]} | _ => ∅ end.

Record machine_ok (n : Z) (m : machine) : Prop := {
  q_queue : queue_ok (hand (pc m)) (unmarked (pc m)) (watched (pc m)) (cl m);
  q_core : core_ok ∅ (cl m);
  q_bounded : bounded n (cl m);
  q_sending : match pc m with Sending _ op => is_Some (h_ops (cl m) !! op) | _ => True end;
}.

(** The other goroutines leave the sender where it is. *)
Lemma beside_ok n m c' :
  machine_ok n m -> (forall R U W, queue_ok R U W (cl m) -> queue_ok R U W c') -> core_ok ∅ c' -> evolves (cl m) c' -> forall k,
  machine_ok n (mkMachine c' (pc m) k).
Proof.
  intros [Q I B S] Q' I' E k. split; [by apply Q'|done|by apply (bounded_evolves _ (cl m))|]. cbn [pc cl]. destruct (pc m); try done. by apply (e_ops _ _ E).
Qed.

Lemma publish_alloc_ok t : IDs.table_ok t ->
  let t' := match IDs.AllocateID t IDs.OwnerPublish with IDs.Allocated _ t' => t' | _ => t end in
  IDs.table_ok t' /\ forall id w, w <> IDs.OwnerNone -> w <> IDs.OwnerPublish -> IDs.owner t' !! id = Some w <-> IDs.owner t !! id = Some w.
Proof.
  intros Ht. pose proof (IDs.AllocateID_spec t IDs.OwnerPublish Ht ltac:(done)) as H. destruct (IDs.AllocateID t IDs.OwnerPublish) as [|id t'|]; cbn zeta; [done| |done].
  destruct H as (_ & Hf & -> & _ & Hok). split; [done|]. intros i w Hw1 Hw2. apply IDs.owner_of_None in Hf; [|done]. destruct (decide (i = id)) as [->|Hne].
  - rewrite lookup_insert_eq, Hf. split; [intros [= <-]; done|done].
  - by rewrite lookup_insert_ne by congruence.
Qed.

Lemma publish_release_ok t id : IDs.table_ok t ->
  let t' := snd (IDs.releaseLocked t id IDs.OwnerPublish) in
  IDs.table_ok t' /\ forall i w, w <> IDs.OwnerNone -> w <> IDs.OwnerPublish -> IDs.owner t' !! i = Some w <-> IDs.owner t !! i = Some w.
Proof.
  intros Ht. cbn zeta. split; [by apply IDs.releaseLocked_ok|]. intros i w Hw1 Hw2. rewrite IDs.releaseLocked_spec by done. destruct (decide _) as [E|E]; [|done]. cbn [snd IDs.owner].
  destruct (decide (i = id)) as [->|Hne]; [|by rewrite lookup_delete_ne by congruence]. rewrite lookup_delete_eq, E. split; [done|]. intros [= <-]. done.
Qed.

Lemma publish_claim_ok t id : IDs.table_ok t ->
  let t' := snd (IDs.claim t (u16 id) IDs.OwnerPublish) in
  IDs.table_ok t' /\ forall i w, w <> IDs.OwnerNone -> w <> IDs.OwnerPublish -> IDs.owner t' !! i = Some w <-> IDs.owner t !! i = Some w.
Proof.
  intros Ht. cbn zeta. assert (Hid : is_u16 (u16 id)) by (unfold is_u16, u16; pose proof (Z.mod_pos_bound id (2 ^ 16) ltac:(done)); pow2; lia).
  split; [by apply IDs.claim_ok|]. intros i w Hw1 Hw2. unfold IDs.claim. destruct (_ || _) eqn:Ed; [done|].
  apply orb_false_iff in Ed as [_ E]. apply negb_false_iff, bool_decide_eq_true in E. destruct (_ <? _); [|done]. cbn [snd IDs.owner]. rewrite IDs.set_owner_insert by done. apply IDs.owner_of_None in E; [|done].
  destruct (decide (i = u16 id)) as [->|Hne]; [|by rewrite lookup_insert_ne by congruence]. rewrite lookup_insert_eq, E. split; [intros [= <-]; done|done].
Qed.

Lemma publish_ok n m f :
  machine_ok n m ->
  (forall t, IDs.table_ok t -> let t' := f t in
    IDs.table_ok t' /\ forall i w, w <> IDs.OwnerNone -> w <> IDs.OwnerPublish -> IDs.owner t' !! i = Some w <-> IDs.owner t !! i = Some w) ->
  machine_ok n (mkMachine (publish_ids f (cl m)) (pc m) (conns m)).
Proof.
  intros M Hf. apply (beside_ok n m); [done| | |by apply evolves_same].
  - intros R U W Q. destruct (Hf _ (a_table _ _ _ _ _ _ _ Q)) as [H1 H2]. by apply publish_table_inv.
  - apply (core_ok_frame _ (cl m)); [done|apply M].
Qed.

Lemma send_begin_ok `{BufferPool} n m ord cs op :
  machine_ok n m -> pc m = Sending cs op -> exists c' p, send_begin ord (cl m) cs op = Some (c', p) /\ machine_ok n (mkMachine c' p (conns m)).
Proof.
  intros [Q I B S] Hpc. rewrite Hpc in *. cbn [hand unmarked watched] in Q. unfold send_begin. destruct S as [o Ho]. rewrite Ho.
  assert (Hfail : forall c e, queue_ok ∅ ∅ ∅ c -> core_ok ∅ c -> bounded n c -> machine_ok n (mkMachine (failCtrl ord c op e) (Flushing cs) (conns m))).
  { intros c e Qc Ic Bc. split; cbn [pc cl hand unmarked watched]; [by apply fail_inv|by apply (fail_core ∅ ∅ ∅)|apply (bounded_evolves _ c); [apply fail_evolves|done]|done]. }
  destruct (if bool_decide _ then _ else _) as [e|]; [eexists _, _; split; [done|by apply Hfail]|].
  pose proof (IDs.AllocateID_spec (engine_ids (cl m)) (owner o) (a_table _ _ _ _ _ _ _ Q) ltac:(rewrite owner_acore; apply kind_owner_none)) as Ha.
  destruct (IDs.AllocateID (engine_ids (cl m)) (owner o)) as [|id t|] eqn:Ea; [| |done].
  1: { eexists _, _. split; [done|]. split; cbn [pc cl]; [exact Q|done|done|by eexists]. }
  destruct (allocate_inv _ _ _ _ _ _ _ Q op o id t Ho Ea) as (Q1 & Hid & _). set (c1 := (cl m) <| engine_ids := t |>) in *.
  assert (I1 : core_ok ∅ c1) by by apply (core_ok_frame _ (cl m)). assert (B1 : bounded n c1) by (apply (bounded_evolves _ (cl m)); [by apply evolves_same|done]).
  pose proof (encode_no_panic cs id o (b_idented _ _ B _ _ Ho)) as Hp. destruct (encode_op cs id o) as [bs|e|]; [| |done].
  - eexists _, _. split; [done|]. split; cbn [pc cl hand unmarked watched]; [|done|done|done]. unfold queue_ok. by rewrite <- insert_empty.
  - eexists _, _. split; [done|]. apply Hfail; [|by apply (core_ok_frame _ c1)|apply (bounded_evolves _ c1); [by apply evolves_same|done]].
    pose proof (hand_release _ _ _ _ _ _ _ id op o Q1 (lookup_insert_eq _ _ _) Ho) as Q2. by rewrite delete_insert_id in Q2.
Qed.

Lemma dom_kinds_op c op : op ∈ ctrlQueue c -> (exists R U W, queue_ok R U W c) -> is_Some (h_ops c !! op).
Proof.
  intros Hq (R & U & W & Q). apply (a_queued _ _ _ _ _ _ _ Q) in Hq as (o & Ho & _). rewrite ops_lookup in Ho. destruct (h_ops c !! op); [by eexists|done].
Qed.

(** The sender's own steps. *)
Lemma sender_ok `{BufferPool} n m e :
  machine_ok n m -> n < MaxVarintValue ->
  match e with
  | EFlush _ | ENext | EAllocate _ _ | ERegister | EMark | EWrite _ => True
  | _ => False
  end -> exists m', step m e = Some m' /\ machine_ok n m'.
Proof.
  intros M Hn He. pose proof M as [Q I B S]. destruct m as [c p k]. cbn [cl pc conns] in *. destruct e as [| | | |ord| |give ord| | |ok| | | | | | |]; try done; destruct p as [|cs|cs op|cs op id bs|cs op id bs|cs op id bs first];
    try (by eexists); cbn [step cl pc conns].
  - destruct (flush_ok _ _ _ n ord c Q I B Hn) as (c' & p & -> & Q' & I' & B' & Hp). eexists. split; [done|].
    destruct Hp as [->|[cs ->]]; by split.
  - pose proof (next_inv _ _ c cs Q) as Q1. destruct (next_core _ _ c cs Q I) as [I1 _]. pose proof (next_evolves c cs) as E1. destruct (nextToSend c cs) as [c1 next]. cbn [fst] in *.
    destruct Q1 as [Q1 Hnext]. eexists. split; [done|]. destruct next as [op|]; (split; cbn [pc cl hand unmarked watched]; [exact Q1|done|by apply (bounded_evolves _ c)|]); [|done].
    apply dom_kinds_op; [by apply Hnext|by exists ∅, ∅, ∅].
  - destruct give; [eexists; split; [done|]; by split|]. destruct (send_begin_ok n (mkMachine c (Sending cs op) k) ord cs op M eq_refl) as (c' & p & E & M'). cbn [cl] in E. rewrite E. eexists. split; [done|exact M'].
  - pose proof (send_register_inv ∅ c cs op id Q) as Q1. pose proof (register_part c cs op id) as Ep. pose proof (register_evolves c cs op id) as Ee.
    destruct (send_register c cs op id) as [c1 ok]. cbn [fst] in *. eexists. split; [done|].
    destruct ok; (split; cbn [pc cl hand unmarked watched]; [|by apply (core_ok_frame _ c)|by apply (bounded_evolves _ c)|done]); [exact Q1|done].
  - pose proof (mark_inv _ _ c op Q) as Q1. pose proof (mark_part c op) as Ep. pose proof (mark_evolves c op) as Ee. destruct (markSent c op) as [c1 first]. cbn [fst] in *.
    eexists. split; [done|]. split; cbn [pc cl hand unmarked watched]; [exact Q1|by apply (core_ok_frame _ c)|by apply (bounded_evolves _ c)|done].
  - destruct ok; (eexists; split; [done|]; split; cbn [pc cl hand unmarked watched]).
    + apply (queue_ok_frame _ _ _ c); [done|]. by apply (unwatched_inv _ _ _ _ _ {[op := cs_name cs]}).
    + by apply (core_ok_frame _ c).
    + apply (bounded_evolves _ c); [by apply evolves_same|done].
    + done.
    + by apply send_failed_inv.
    + apply (core_ok_frame _ c); [apply send_failed_part|done].
    + apply (bounded_evolves _ c); [apply send_failed_evolves|done].
    + done.
Qed.

Lemma machine_mono n n' m : n <= n' -> machine_ok n m -> machine_ok n' m.
Proof. intros Hn []. split; try done. by apply (bounded_mono n). Qed.

(** Steps keep the invariant, and none panics or loops. *)
Lemma step_ok `{BufferPool} n m e : machine_ok n m -> n + weight e < MaxVarintValue -> exists m', step m e = Some m' /\ machine_ok (n + weight e) m'.
Proof.
  intros M Hn. assert (Hw : 0 <= weight e) by (destruct e; cbn; try lia; pose proof (len_nonneg filters); lia).
  assert (Hsame : forall m', machine_ok n m' -> machine_ok (n + weight e) m') by (intros m'; apply machine_mono; lia).
  destruct (match e with EFlush _ | ENext | EAllocate _ _ | ERegister | EMark | EWrite _ => true | _ => false end) eqn:Es.
  { destruct (sender_ok n m e M ltac:(lia)) as (m' & E & M'); [by destruct e|]. exists m'. auto. }
  pose proof M as [Q I B S].
  assert (Hb : forall c' k, (forall R U W, queue_ok R U W (cl m) -> queue_ok R U W c') -> core_ok ∅ c' -> evolves (cl m) c' ->
    exists m', Some (mkMachine c' (pc m) k) = Some m' /\ machine_ok (n + weight e) m').
  { intros c' k H1 H2 H3. eexists. split; [done|]. apply Hsame. by apply (beside_ok n m). }
  assert (Hcur : forall x c', (forall R U W, queue_ok R U W (cl m) -> queue_ok R U W c') -> core_ok ∅ c' -> evolves (cl m) c' ->
    (forall R U W, queue_ok R U W (cl m) -> queue_ok R U W (c' <| cur := x |>)) /\ core_ok ∅ (c' <| cur := x |>) /\ evolves (cl m) (c' <| cur := x |>)).
  { intros x c' H1 H2 H3. split_and!; [intros R U W Hq; by apply (queue_ok_frame _ _ _ c'), H1|by apply (core_ok_frame _ c')|etrans; [exact H3|by apply evolves_same]]. }
  destruct e as [filters zc ended|sub|ord sub|ord| | | | | | |want id codes|sh wi si mx lost|ord sd| | |id|id]; try done; cbn [step].
  - destruct (pc m) eqn:Hpc; try (exists m; by auto). destruct (subscribe_ok _ _ _ n (cl m) filters zc ended Q I B) as (c' & E & Q' & I' & B'); [cbn in Hn; lia|]. rewrite E.
    eexists. split; [done|]. by split.
  - apply Hb; [intros R U W; apply queue_ok_frame, close_sub_frame|by apply close_sub_core|apply close_sub_evolves].
  - destruct (pc m) eqn:Hpc; try (exists m; by auto). apply Hb; [intros; by apply unsubscribe_inv|by apply (unsubscribe_core _ _ _ _ _ _ Q)|apply unsubscribe_evolves].
  - destruct (pc m) eqn:Hpc; try (exists m; by auto). apply Hb; [intros; by apply settle_inv|apply settle_core; [by apply (queue_fresh _ _ _ _ _ _ Q)|done]|apply settle_evolves].
  - destruct (cur (cl m)) as [cs|]; [|exists m; by auto]. apply Hb; [intros; by apply ack_inv|by apply (ack_core _ _ _ _ _ _ _ _ Q)|apply ack_evolves].
  - destruct (cur (cl m)) as [cs|]; [exists m; by auto|]. set (c0 := if lost then _ else _). destruct (Hcur (Some (mkConn (conns m) sh wi si mx)) c0) as (H1 & H2 & H3).
    + intros R U W. subst c0. destruct lost; [by apply queue_ok_frame|done].
    + subst c0. destruct lost; [by apply (core_ok_frame _ (cl m))|done].
    + subst c0. destruct lost; [by apply evolves_same|done].
    + by apply Hb.
  - destruct (cur (cl m)) as [cs|]; [|exists m; by auto]. destruct (Hcur None (connectionLost ord (cl m) sd)) as (H1 & H2 & H3); [intros; by apply lost_inv|by apply (lost_core _ _ _ _ _ _ Q)|apply lost_evolves|].
    by apply Hb.
  - destruct (Hcur None (closeAllSubs (cl m))) as (H1 & H2 & H3); [intros; by apply close_all_inv|by apply (close_all_core _ _ _ _ Q)|apply close_all_evolves|]. by apply Hb.
  - eexists. split; [done|]. apply Hsame. apply publish_ok; [done|]. apply publish_alloc_ok.
  - eexists. split; [done|]. apply Hsame. apply publish_ok; [done|]. intros t. apply publish_release_ok.
  - eexists. split; [done|]. apply Hsame. apply publish_ok; [done|]. intros t. apply publish_claim_ok.
Qed.

Lemma start_ok : machine_ok 0 start.
Proof.
  split; cbn [start pc cl hand unmarked watched]; [| | |done].
  - split; cbn; try done; try (intros; by rewrite ?lookup_empty in * ).
    + constructor.
    + intros op. split; [by intros ?%elem_of_nil|]. intros (o & Ho & _). by rewrite fmap_empty, lookup_empty in Ho.
    + intros id w Hw1 Hw2. rewrite lookup_empty. split; [done|]. intros (op & o & [Ho|Ho] & _); by rewrite lookup_empty in Ho.
    + intros op [o Ho]. by rewrite fmap_empty, lookup_empty in Ho.
  - split.
    + split; cbn; try done; try (intros; by rewrite ?lookup_empty in * ). intros s. split; [by intros ?%not_elem_of_empty|]. intros (a & Ha & _). by rewrite lookup_empty in Ha.
    + split; cbn; try (intros; by rewrite ?lookup_empty in * ). exact holds_new.
    + split; cbn; [intros; by rewrite ?lookup_empty in * |]. intros s f Hh. unfold held in Hh. cbn in Hh. by rewrite lookup_empty in Hh.
    + intros f b bs Hf. cbn in Hf. by rewrite lookup_empty in Hf.
    + split; cbn; [done|intros id k Hk; cbn in Hk; by rewrite lookup_empty in Hk|intros; by rewrite ?lookup_empty in * ].
  - split; cbn; try lia; intros; by rewrite ?lookup_empty in *.
Qed.

Lemma reachable_ok `{BufferPool} n m : reachable n m -> n < MaxVarintValue -> machine_ok n m.
Proof.
  induction 1 as [|n m e m' _ IH Hs]; intros Hn; [apply start_ok|].
  assert (Hw : 0 <= weight e) by (destruct e; cbn; try lia; pose proof (len_nonneg filters); lia).
  destruct (step_ok n m e (IH ltac:(lia)) Hn) as (m2 & E & M2). congruence.
Qed.

End SubsMachine.
