(* ===== verification/SubsTheorems.v ===== *)
(** * SubsTheorems: what the client's subscriptions guarantee

    Over any run of [Subscriptions.step]: subscribers, the sender of SUBSCRIBEs
    and UNSUBSCRIBEs, acknowledgements, connections coming and going, lost
    sessions and the end, in any order. *)

From S2P Require Import Prelude GoLib Errors ClientErrors Buffers Varint Topics Subscribe IdTable Trie Subscriptions SubsLists SubsQueue SubsState SubsOps SubsMachine.

Module SubsTheorems.
Import Subscriptions SubsLists SubsQueue SubsState SubsOps SubsMachine.

(** ** Runs *)

Fixpoint run `{BufferPool} (m : machine) (es : list event) : option machine :=
  match es with
  | [] => Some m
  | e :: es => match step m e with Some m => run m es | None => None end
  end.

Fixpoint total (es : list event) : Z := match es with [] => 0 | e :: es => weight e + total es end.

Lemma weight_nonneg e : 0 <= weight e.
Proof. destruct e; cbn; try lia. pose proof (len_nonneg filters). lia. Qed.

Lemma total_nonneg es : 0 <= total es.
Proof. induction es as [|e es IH]; cbn; [lia|]. pose proof (weight_nonneg e). lia. Qed.

Lemma run_ok `{BufferPool} es : forall n m, machine_ok n m -> n + total es < MaxVarintValue -> exists m', run m es = Some m' /\ machine_ok (n + total es) m'.
Proof.
  induction es as [|e es IH]; intros n m M Hn; cbn [run total] in *; [exists m; by rewrite Z.add_0_r|].
  pose proof (total_nonneg es). destruct (step_ok n m e M ltac:(lia)) as (m1 & -> & M1). rewrite Z.add_assoc. apply IH; [done|lia].
Qed.

Section theorems.
Context `{BufferPool} (es : list event) (m : machine).
Hypothesis Hrun : run start es = Some m.
Hypothesis Hn : total es < MaxVarintValue.

Lemma final_ok : machine_ok (total es) m.
Proof. destruct (run_ok es 0 start start_ok ltac:(lia)) as (m' & E & M). rewrite Hrun in E. by injection E as <-. Qed.
End theorems.

(** ** Theorems *)

(** C22: nothing panics and nothing loops. Whatever the subscribers, the
    sender, the broker and the connection do, as long as fewer than 268435455
    subscriptions and filters were asked for, every step of the client's
    subscription machinery completes: no broker subscription a SUBSCRIBE names
    is missing, the search for a free Subscription Identifier ends, a packet
    identifier is found or waited for, and every packet is encoded or
    refused. *)
Theorem subscriptions_never_stuck `{BufferPool} es : total es < MaxVarintValue -> exists m, run start es = Some m.
Proof. intros Hn. destruct (run_ok es 0 start start_ok ltac:(lia)) as (m & E & _). eauto. Qed.

(** C9: every SUBSCRIBE and UNSUBSCRIBE is answered exactly once. One that is
    queued stands in the queue once and has no result yet; one that is not has
    left it and has exactly one result, so that whoever waits for it is woken
    and its channel is never closed twice. *)
Theorem operations_answered_once `{BufferPool} es m :
  run start es = Some m -> total es < MaxVarintValue ->
  let c := cl m in
  NoDup (ctrlQueue c) /\ forall op o, h_ops c !! op = Some o ->
    if o_queued o then op ∈ ctrlQueue c /\ o_results o = []
    else (op ∉ ctrlQueue c) /\ exists r, o_results o = [r].
Proof.
  intros Hr Hn c. destruct (final_ok es m Hr Hn) as [Q _ _ _]. fold c in Q. clearbody c. split; [apply Q|]. intros op o Ho.
  assert (Hk : ops c !! op = Some (acore o)) by by rewrite ops_lookup, Ho. pose proof (a_done _ _ _ _ _ _ _ Q op (acore o) Hk ltac:(apply not_elem_of_empty)) as Hd. cbn in Hd.
  destruct (o_queued o) eqn:Hq.
  - split; [apply (a_queued _ _ _ _ _ _ _ Q); by exists (acore o)|]. by apply len_0_nil.
  - split; [intros (k & Hk' & Hqk)%(a_queued _ _ _ _ _ _ _ Q); rewrite Hk in Hk'; injection Hk' as <-; cbn in Hqk; congruence|].
    destruct (o_results o) as [|r [|r' l]]; [done|by exists r|]. rewrite !len_cons in Hd. pose proof (len_nonneg l). lia.
Qed.

(** C19: the packet identifiers of SUBSCRIBEs and UNSUBSCRIBEs are neither
    leaked nor shared. The engine's table gives such an identifier to exactly
    the operation registered under it, or the one the sender is about to
    register; a registered operation is queued and carries that identifier,
    one it carries is registered, and the sender's is registered to nobody. *)
Theorem control_ids_exact `{BufferPool} es m :
  run start es = Some m -> total es < MaxVarintValue ->
  let c := cl m in
  (forall id w, w = IDs.OwnerSubscribe \/ w = IDs.OwnerUnsubscribe ->
     IDs.owner (engine_ids c) !! id = Some w <->
     exists op o, (ctrlOps c !! id = Some op \/ hand (pc m) !! id = Some op) /\ h_ops c !! op = Some o /\ owner o = w)
  /\ (forall id op, ctrlOps c !! id = Some op ->
        id <> 0 /\ hand (pc m) !! id = None /\ exists o, h_ops c !! op = Some o /\ o_id o = id /\ o_queued o = true)
  /\ (forall op o, h_ops c !! op = Some o -> o_id o <> 0 -> ctrlOps c !! o_id o = Some op).
Proof.
  intros Hr Hn c. destruct (final_ok es m Hr Hn) as [Q _ _ _]. fold c in Q. clearbody c. split; [|split].
  - intros id w Hw. rewrite (a_owner _ _ _ _ _ _ _ Q id w) by (destruct Hw; by subst). split; intros (op & o & H1 & H2 & H3).
    + rewrite ops_lookup in H2. destruct (h_ops c !! op) as [o'|] eqn:Ho; [|done]. injection H2 as <-. exists op, o'. split; [done|]. split; [done|]. by rewrite owner_acore.
    + exists op, (acore o). split; [done|]. split; [by rewrite ops_lookup, H2|]. by rewrite <- owner_acore.
  - intros id op Ho. destruct (a_reg _ _ _ _ _ _ _ Q id op Ho) as (H0 & k & Hk & Hid & Hq). split; [done|]. split.
    + eapply map_disjoint_Some_l; [apply (a_disj _ _ _ _ _ _ _ Q)|done].
    + rewrite ops_lookup in Hk. destruct (h_ops c !! op) as [o|]; [|done]. injection Hk as <-. exists o. split; [done|]. split; [done|]. destruct Hq as [?|[]%not_elem_of_empty]. done.
  - intros op o Ho H0. exact (a_id _ _ _ _ _ _ _ Q op (acore o) ltac:(by rewrite ops_lookup, Ho) ltac:(apply not_elem_of_empty) H0).
Qed.

(** C20: subscription identifiers are never reused while anything may carry
    them. [identRefs] counts, for each identifier, the broker subscriptions
    tagged with it and the queued UNSUBSCRIBEs that retire it, and the next one
    [allocIdentLocked] finds, between 1 and 268435455, is on no broker
    subscription and retired by no queued UNSUBSCRIBE. *)
Theorem subscription_identifiers_exact `{BufferPool} es m :
  run start es = Some m -> total es < MaxVarintValue ->
  let c := cl m in
  (forall id, refs (identRefs c) id = occ id (tags c) + occ id (reserved ∅ c))
  /\ exists c' id, allocIdentLocked c = Some (c', id) /\ 1 <= id <= MaxVarintValue
     /\ (forall f b bs, brokerSubs c !! f = Some b -> h_bsubs c !! b = Some bs -> id ∉ b_ids bs)
     /\ (forall op o, op ∈ ctrlQueue c -> h_ops c !! op = Some o -> id ∉ o_retired o).
Proof.
  intros Hr Hn c. destruct (final_ok es m Hr Hn) as [_ I B _]. fold c in I, B. clearbody c. pose proof (n_refs _ _ (i_counts _ _ _ _ I)) as Hrefs. split; [exact Hrefs|].
  destruct (b_next _ _ B) as [_ Hb]. destruct (alloc_found (identRefs c) (nextIdent c)) as [id E]; [pose proof (b_load _ _ B); lia|].
  destruct (alloc_free _ _ _ _ E) as [Hfree Hid]. unfold allocIdentLocked. rewrite E. exists (c <| nextIdent := id |>), id. split; [done|]. split; [done|].
  specialize (Hrefs id). rewrite Hfree in Hrefs. pose proof (occ_nonneg id (tags c)). pose proof (occ_nonneg id (reserved ∅ c)). split.
  - intros f b bs Hf Hb' Hin. assert (Hz : occ id (tags c) = 0) by lia. apply occ_zero in Hz. apply Hz. rewrite (tags_split c f b bs Hf Hb'). apply elem_of_app. by left.
  - intros op o Hq Ho Hin. assert (Hz : occ id (reserved ∅ c) = 0) by lia. apply occ_zero in Hz. apply Hz. unfold reserved. apply list_elem_of_bind. exists op. split; [unfold retired_of; by rewrite Ho|].
    apply elem_of_app. by left.
Qed.

(** C21: what is live is consistent. A live subscription is active, its
    channel or queue is open, it is among the holders of the broker
    subscription of each of its filters as often as it names it, and the
    SUBSCRIBE it waits for, as it does while pending, is queued for exactly
    those filters; a subscription that has ended is in no list, holds nothing
    and was closed exactly once. *)
Theorem subscriptions_consistent `{BufferPool} es m :
  run start es = Some m -> total es < MaxVarintValue ->
  let c := cl m in
  forall s a, h_subs c !! s = Some a ->
    (s ∈ activeSubs c <-> live a)
    /\ (exists r, h_routes c !! s_route a = Some r /\ closed r = bool_decide (s_state a = subClosed) /\ closes r = Z.b2z (closed r))
    /\ (forall f b bs, brokerSubs c !! f = Some b -> h_bsubs c !! b = Some bs -> occ s (b_holders bs) = if decide (live a) then occ f (topics a) else 0)
    /\ (live a -> s_filters a <> [] /\ forall f, f ∈ topics a -> is_Some (brokerSubs c !! f))
    /\ (s_state a = subPending -> is_Some (s_op a))
    /\ (forall op, live a -> s_op a = Some op -> exists o, h_ops c !! op = Some o /\ o_kind o = KSubscribe /\ o_sub o = s /\ o_filters o = s_filters a /\ op ∈ ctrlQueue c).
Proof.
  intros Hr Hn c s a Ha. destruct (final_ok es m Hr Hn) as [Q I B _]. fold c in Q, I, B. clearbody c. pose proof (i_linked _ _ _ _ I) as L. destruct (b_routed _ _ B s a Ha) as (_ & Hroute & r & Hr1 & Hr2 & Hr3).
  assert (Hheld : forall f, held c s f = if decide (live a) then occ f (topics a) else 0) by (intros f; unfold held; by rewrite Ha).
  split; [|split; [|split; [|split; [|split]]]].
  - rewrite (k_active _ _ L). split; [intros (a' & Ha' & ?); congruence|]. intros Hl. by exists a.
  - exists r. by rewrite Hroute.
  - intros f b bs Hf Hb. rewrite (h_count _ _ (i_held _ _ _ _ I) f b bs Hf Hb). apply Hheld.
  - intros Hl. split; [exact (k_filters _ _ L s a Ha Hl)|]. intros f Hf. apply (h_covered _ _ (i_held _ _ _ _ I) s). rewrite Hheld, decide_True by done. apply occ_pos in Hf. lia.
  - exact (k_pending _ _ L s a Ha).
  - intros op Hl Hop. destruct (k_op _ _ L s a op Ha Hl Hop) as (o & Ho & Hk & Hs & Hf & [Hq|[]%not_elem_of_empty]). exists o. split_and!; try done.
    apply (a_queued _ _ _ _ _ _ _ Q). exists (acore o). by rewrite ops_lookup, Ho.
Qed.

(** ** Witnesses

    A connection, two subscriptions that share a filter, one of them granted in
    part, the other given up before its SUBACK, its UNSUBSCRIBE about to be
    sent. *)

Definition wfilter (topic : string) (qos : Z) : TopicFilter := mkFilter (str topic) qos false false 0.
Definition send_one : list event := [ENext; EAllocate false []; ERegister; EMark; EWrite true].
Definition day : list event :=
  [EUp true true true 0 false; ESubscribe [wfilter "a/+" 1; wfilter "$share/g/a/b" 2] false false;
   ESubscribe [wfilter "a/b" 0; wfilter "a/+" 0] true false; EFlush []] ++ send_one ++ send_one
  ++ [ENext; EAck KSubscribe 1 [1; 0x87]; EUnsubscribe [] 2; EFlush []; ENext; EAllocate false []].
Definition day_end : machine := default start (@run stale_pool start day).

Lemma day_runs : @run stale_pool start day = Some day_end.
Proof. vm_compute. reflexivity. Qed.

Lemma subscriptions_never_stuck_witness : total day < MaxVarintValue /\ exists m, @run stale_pool start day = Some m.
Proof. assert (Hn : total day < MaxVarintValue) by reflexivity. split; [exact Hn|]. exact (@subscriptions_never_stuck stale_pool day Hn). Defined.

Lemma operations_answered_once_witness :
  @run stale_pool start day = Some day_end /\ total day < MaxVarintValue
  /\ ctrlQueue (cl day_end) = [2; 3] /\ (1 ∉ ctrlQueue (cl day_end)) /\ exists r, o_results <$> h_ops (cl day_end) !! 1 = Some [r].
Proof.
  assert (Hn : total day < MaxVarintValue) by reflexivity. split; [exact day_runs|]. split; [exact Hn|]. split; [vm_compute; reflexivity|].
  destruct (@operations_answered_once stale_pool day day_end day_runs Hn) as [_ H].
  destruct (h_ops (cl day_end) !! 1) as [o|] eqn:E; [|vm_compute in E; discriminate E]. specialize (H 1 o E). vm_compute in E. injection E as <-. cbn [o_queued] in H.
  destruct H as [H1 [r H2]]. split; [exact H1|]. exists r. cbn. f_equal. exact H2.
Defined.

Lemma control_ids_exact_witness :
  @run stale_pool start day = Some day_end /\ total day < MaxVarintValue
  /\ ctrlOps (cl day_end) !! 2 = Some 2 /\ hand (pc day_end) !! 3 = Some 3 /\ hand (pc day_end) !! 2 = None.
Proof.
  assert (Hn : total day < MaxVarintValue) by reflexivity. assert (E : ctrlOps (cl day_end) !! 2 = Some 2) by (vm_compute; reflexivity).
  split; [exact day_runs|]. split; [exact Hn|]. split; [exact E|]. split; [vm_compute; reflexivity|].
  destruct (@control_ids_exact stale_pool day day_end day_runs Hn) as (_ & H & _). exact (proj1 (proj2 (H 2 2 E))).
Defined.

Lemma subscription_identifiers_exact_witness :
  @run stale_pool start day = Some day_end /\ total day < MaxVarintValue
  /\ refs (identRefs (cl day_end)) 2 = 2 /\ occ 2 (tags (cl day_end)) + occ 2 (reserved ∅ (cl day_end)) = 2.
Proof.
  assert (Hn : total day < MaxVarintValue) by reflexivity. assert (E : refs (identRefs (cl day_end)) 2 = 2) by (vm_compute; reflexivity).
  split; [exact day_runs|]. split; [exact Hn|]. split; [exact E|].
  destruct (@subscription_identifiers_exact stale_pool day day_end day_runs Hn) as [H _]. rewrite <- (H 2). exact E.
Defined.

Lemma subscriptions_consistent_witness :
  @run stale_pool start day = Some day_end /\ total day < MaxVarintValue
  /\ exists a, h_subs (cl day_end) !! 2 = Some a /\ s_state a = subClosed /\ (2 ∈ activeSubs (cl day_end) <-> live a).
Proof.
  assert (Hn : total day < MaxVarintValue) by reflexivity. split; [exact day_runs|]. split; [exact Hn|].
  destruct (h_subs (cl day_end) !! 2) as [a|] eqn:E; [|vm_compute in E; discriminate E]. exists a. split; [reflexivity|].
  pose proof (@subscriptions_consistent stale_pool day day_end day_runs Hn 2 a E) as (H & _). split; [|exact H]. clear H. vm_compute in E. injection E as <-. reflexivity.
Defined.

End SubsTheorems.
