(* ===== verification/SubsRecovery.v ===== *)
(** * SubsRecovery: subscriptions after a lost session

    What [resetSession] queues for a broker that kept nothing: one SUBSCRIBE
    per live subscription, oldest first, none of them sent. *)

From S2P Require Import Prelude GoLib Errors ClientErrors Buffers Varint Topics Subscribe IdTable Trie Subscriptions SubsLists SubsQueue SubsState SubsOps SubsMachine SubsTheorems.

Module SubsRecovery.
Import Subscriptions SubsLists SubsQueue SubsState SubsOps SubsMachine SubsTheorems.

(** What an operation is for, and whether and where it went out. *)
Definition opkey (o : ctrlOp) : ctrlKind * Z * list TopicFilter * bool * option Z := (o_kind o, o_sub o, o_filters o, o_sent o, o_conn o).
Definition keys (c : client) : gmap Z (ctrlKind * Z * list TopicFilter * bool * option Z) := opkey <$> h_ops c.

Lemma keys_upd op f c : (forall o, opkey (f o) = opkey o) -> keys (upd_op op f c) = keys c.
Proof. intros H. by apply fmap_alter_same. Qed.

Lemma keys_lookup c op : keys c !! op = opkey <$> h_ops c !! op.
Proof. apply lookup_fmap. Qed.

(** [op] is the SUBSCRIBE of [s], as yet unsent. *)
Definition unsent_for (c : client) (s op : Z) : Prop :=
  exists a, h_subs c !! s = Some a /\ s_op a = Some op /\ keys c !! op = Some (KSubscribe, s, s_filters a, false, None).

Lemma queue_subscribe_keys c op o c' :
  h_ops c !! op = Some o -> queueSubscribeLocked c op = Some c' ->
  keys c' = keys c /\ ctrlQueue c' = ctrlQueue c ++ [op] /\ next_op c' = next_op c /\ h_subs c' = alter (fun s => s <| s_op := Some op |>) (o_sub o) (h_subs c).
Proof.
  intros Ho H. destruct (queue_subscribe_subs c op o c' Ho H) as [Hs _]. revert H. unfold queueSubscribeLocked, allocIdentLocked. destruct (alloc_loop _ _ _) as [ident|]; [|done].
  rewrite Ho. set (c2 := upd_sub _ _ _). destruct (foldl _ _ _) as [c3|] eqn:E; [|done]. intros [= Heq]. pose proof (tags_ops _ _ _ _ E) as Hops.
  assert (Hq : queue_all c3 = queue_all c) by (rewrite (tags_frame _ _ _ _ E); subst c2; by rewrite upd_sub_frame, ops_same).
  assert (Hqq : ctrlQueue c3 = ctrlQueue c /\ next_op c3 = next_op c) by (unfold queue_all, queue_part in Hq; split; congruence). destruct Hqq as [Hq1 Hq2].
  split; [|split; [|split; [|exact Hs]]]; rewrite <- Heq.
  - unfold enqueue. transitivity (keys (upd_op op (fun o => o <| o_queued := true |>) c3)); [done|]. rewrite keys_upd by done. unfold keys. rewrite Hops. by apply keys_upd.
  - change (ctrlQueue (enqueue c3 op)) with (ctrlQueue c3 ++ [op]). by rewrite Hq1.
  - exact Hq2.
Qed.

(** The operation a live subscription still has, taken off its connection. *)
Definition ready (c : client) (s : Z) : Prop :=
  exists a, h_subs c !! s = Some a /\ forall op, s_op a = Some op -> exists sent, keys c !! op = Some (KSubscribe, s, s_filters a, sent, None).

Definition below (c : client) : Prop := forall x, is_Some (keys c !! x) -> x < next_op c.

Lemma resubscribe_round c s c' :
  ready c s -> below c -> resubscribe_one (Some c) s = Some c' ->
  exists op, ctrlQueue c' = ctrlQueue c ++ [op] /\ unsent_for c' s op /\ below c'
  /\ (forall s', s' <> s -> h_subs c' !! s' = h_subs c !! s')
  /\ (forall x k, keys c !! x = Some k -> k.1.1.1.2 <> s -> keys c' !! x = Some k).
Proof.
  intros (a & Ha & Hop) Hb. unfold resubscribe_one. rewrite Ha.
  assert (Hgo : forall c1 op o, h_ops c1 !! op = Some o -> opkey o = (KSubscribe, s, s_filters a, false, None) -> h_subs c1 = h_subs c -> ctrlQueue c1 = ctrlQueue c -> below c1 ->
    (forall x k, keys c !! x = Some k -> k.1.1.1.2 <> s -> keys c1 !! x = Some k) -> queueSubscribeLocked c1 op = Some c' ->
    ctrlQueue c' = ctrlQueue c ++ [op] /\ unsent_for c' s op /\ below c' /\ (forall s', s' <> s -> h_subs c' !! s' = h_subs c !! s')
    /\ (forall x k, keys c !! x = Some k -> k.1.1.1.2 <> s -> keys c' !! x = Some k)).
  { intros c1 op o Ho Hk Hs1 Hq1 Hb1 Hkeep E. destruct (queue_subscribe_keys c1 op o c' Ho E) as (E1 & E2 & E3 & E4). assert (Hos : o_sub o = s) by (unfold opkey in Hk; congruence).
    rewrite Hos, Hs1 in E4. split_and!.
    - by rewrite E2, Hq1.
    - exists (a <| s_op := Some op |>). rewrite E4, lookup_alter_eq, Ha. split; [done|]. split; [done|]. rewrite E1, keys_lookup, Ho. cbn. by rewrite Hk.
    - intros x. rewrite E1, E3. apply Hb1.
    - intros s' Hne. rewrite E4. by apply lookup_alter_ne.
    - intros x k Hx Hne. rewrite E1. by apply Hkeep. }
  destruct (s_op a) as [op|] eqn:Eop; intros E.
  - destruct (Hop op eq_refl) as [sent Hk]. rewrite keys_lookup in Hk. destruct (h_ops c !! op) as [o|] eqn:Ho; [|done]. injection Hk as K1 K2 K3 K4 K5. exists op.
    set (f := fun o : ctrlOp => o <| o_sent := false |> <| o_counted := [] |>) in *. apply (Hgo (upd_op op f c) op (f o)); try done.
    + by rewrite upd_op_lookup, decide_True, Ho.
    + unfold opkey, f. cbn. congruence.
    + intros x. rewrite keys_lookup, upd_op_lookup. destruct (decide (x = op)) as [->|]; [|rewrite <- keys_lookup; apply Hb]. intros _. apply Hb. rewrite keys_lookup, Ho. by eexists.
    + intros x k Hx Hne. rewrite keys_lookup, upd_op_lookup. destruct (decide (x = op)) as [->|]; [|by rewrite <- keys_lookup]. rewrite keys_lookup, Ho in Hx. injection Hx as <-. cbn in Hne. congruence.
  - set (o := subscribe_op s (s_filters a) true) in *. set (op := next_op c) in *. assert (En : new_op c o = (fst (new_op c o), op)) by done. rewrite En in E. exists op.
    set (f := fun o : ctrlOp => o <| o_sent := false |> <| o_counted := [] |>) in *. set (c1 := fst (new_op c o)) in *.
    assert (Hc1 : h_ops c1 = <[op := o]> (h_ops c)) by done. apply (Hgo (upd_op op f c1) op (f o)); try done.
    + by rewrite upd_op_lookup, decide_True, Hc1, lookup_insert_eq.
    + intros x. change (next_op (upd_op op f c1)) with (Z.succ op). rewrite keys_lookup, upd_op_lookup. destruct (decide (x = op)) as [->|]; [lia|]. rewrite Hc1, lookup_insert_ne by congruence. rewrite <- keys_lookup.
      intros Hx%Hb. unfold op. lia.
    + intros x k Hx Hne. assert (x <> op) by (assert (x < op) by (apply Hb; by eexists); lia). rewrite keys_lookup, upd_op_lookup, decide_False, Hc1, lookup_insert_ne by congruence. by rewrite <- keys_lookup.
Qed.

Lemma resubscribe_rounds (l : list Z) : forall c c',
  NoDup l -> (forall s, s ∈ l -> ready c s) -> below c -> foldl resubscribe_one (Some c) l = Some c' ->
  exists ops, ctrlQueue c' = ctrlQueue c ++ ops /\ Forall2 (unsent_for c') l ops
  /\ (forall s, s ∉ l -> h_subs c' !! s = h_subs c !! s) /\ (forall x k, keys c !! x = Some k -> k.1.1.1.2 ∉ l -> keys c' !! x = Some k).
Proof.
  induction l as [|s l IH]; intros c c' Hnd Hr Hb; cbn [foldl].
  - intros [= <-]. exists []. split; [by rewrite app_nil_r|]. split; [constructor|]. done.
  - apply NoDup_cons in Hnd as [Hs Hnd]. destruct (resubscribe_one (Some c) s) as [c1|] eqn:E; [|by rewrite resubscribe_none]. intros H.
    destruct (resubscribe_round c s c1 (Hr s ltac:(by left)) Hb E) as (op & Q1 & U1 & B1 & S1 & K1).
    destruct (IH c1 c' Hnd) as (ops & Q2 & U2 & S2 & K2); [|done|done|].
    { intros s' Hs'. assert (Hne : s' <> s) by (intros ->; done). destruct (Hr s' ltac:(by right)) as (a & Ha & Hop). exists a. rewrite S1 by done. split; [done|].
      intros op' Eop. destruct (Hop op' Eop) as [sent Hk]. exists sent. by apply K1. }
    exists (op :: ops). split; [by rewrite Q2, Q1, <- app_assoc|]. split; [|split].
    + constructor; [|done]. destruct U1 as (a & Ha & Eop & Hk). exists a. rewrite S2 by done. split_and!; [done..|]. by apply K2.
    + intros s' [Hne Hl]%not_elem_of_cons. by rewrite S2, S1.
    + intros x k Hx [Hne Hl]%not_elem_of_cons. by apply K2, Hl; apply K1.
Qed.

(** ** The rest of [resetSession] *)

Lemma unregister_keys c op o : h_ops c !! op = Some o -> h_subs (fst (unregisterLocked c op)) = h_subs c /\ next_op (fst (unregisterLocked c op)) = next_op c
  /\ h_ops (fst (unregisterLocked c op)) = <[op := o <| o_id := 0 |> <| o_conn := None |>]> (h_ops c).
Proof.
  intros Ho. unfold unregisterLocked. rewrite Ho. set (f := fun o : ctrlOp => o <| o_id := 0 |> <| o_conn := None |>).
  assert (E : h_ops (upd_op op f c) = <[op := f o]> (h_ops c)).
  { apply map_eq. intros x. rewrite upd_op_lookup. destruct (decide (x = op)) as [->|]; [by rewrite Ho, lookup_insert_eq|by rewrite lookup_insert_ne by congruence]. }
  destruct (_ || _); (split; [done|]; split; [done|exact E]).
Qed.

(** Every operation in the queue is taken off its connection. *)
Lemma unqueue_keys (l : list Z) : forall c r,
  (forall op, op ∈ l -> is_Some (h_ops c !! op)) ->
  let c' := fst (foldl unqueue_one (c, r) l) in
  h_subs c' = h_subs c /\ next_op c' = next_op c /\ activeSubs c' = activeSubs c /\ dom (keys c') = dom (keys c)
  /\ forall x k, keys c !! x = Some k -> keys c' !! x = Some (if decide (x ∈ l) then (k.1, None) else k).
Proof.
  induction l as [|op l IH]; intros c r Hl; cbn [foldl].
  { by split_and!. }
  destruct (Hl op ltac:(by left)) as [o Ho]. cbn [unqueue_one]. set (f := fun o : ctrlOp => o <| o_queued := false |>).
  assert (Ho1 : h_ops (upd_op op f c) !! op = Some (f o)) by by rewrite upd_op_lookup, decide_True, Ho.
  destruct (unregister_keys (upd_op op f c) op (f o) Ho1) as (E1 & E2 & E3). assert (E4 : activeSubs (fst (unregisterLocked (upd_op op f c) op)) = activeSubs c).
  { unfold unregisterLocked. rewrite Ho1. by destruct (_ || _). }
  destruct (unregisterLocked (upd_op op f c) op) as [c1 id]. cbn [fst] in *. change (h_subs (upd_op op f c)) with (h_subs c) in E1. change (next_op (upd_op op f c)) with (next_op c) in E2.
  assert (Ek : keys c1 = <[op := (o_kind o, o_sub o, o_filters o, o_sent o, None)]> (keys c)).
  { unfold keys at 1. rewrite E3, fmap_insert. fold (keys (upd_op op f c)). by rewrite keys_upd. }
  assert (Ho' : keys c !! op = Some (opkey o)) by by rewrite keys_lookup, Ho.
  destruct (IH c1 (if id =? 0 then r else r ++ [(op, id)])) as (A1 & A2 & A3 & A4 & A5).
  { intros x Hx. destruct (Hl x ltac:(by right)) as [ox Hox]. assert (Hk : is_Some (keys c1 !! x)).
    { rewrite Ek. destruct (decide (x = op)) as [->|]; [rewrite lookup_insert_eq; by eexists|]. rewrite lookup_insert_ne, keys_lookup, Hox by congruence. by eexists. }
    rewrite keys_lookup in Hk. destruct (h_ops c1 !! x); [by eexists|]. by destruct Hk. }
  split_and!; [congruence|congruence|congruence| |].
  - rewrite A4, Ek, dom_insert_L. apply subseteq_union_1_L, singleton_subseteq_l, elem_of_dom. by eexists.
  - intros x k Hx. destruct (decide (x = op)) as [->|Hne].
    + rewrite Ho' in Hx. injection Hx as <-. rewrite (decide_True (P := op ∈ op :: l)) by by left. rewrite (A5 op (o_kind o, o_sub o, o_filters o, o_sent o, None)) by (rewrite Ek; apply lookup_insert_eq). by destruct (decide _).
    + rewrite (A5 x k) by (rewrite Ek, lookup_insert_ne by congruence; done). destruct (decide (x ∈ l)) as [Hin|Hin]; [by rewrite decide_True by by right|]. rewrite decide_False; [done|]. by intros [?|?]%elem_of_cons.
Qed.

(** What the middle of [resetSession] leaves alone, and its end. *)
Definition key_part (c : client) := (keys c, h_subs c, next_op c, activeSubs c, ctrlQueue c).

Lemma finish_keys s op : key_part (fst (finish_one s op)) = key_part (fst s).
Proof.
  destruct s as [c fin]. unfold finish_one. cbn [fst]. destruct (h_ops c !! op) as [o|] eqn:Ho; [|done]. destruct (o_kind o); [by destruct (bool_decide _)|]. cbn [fst]. unfold unretireLocked. rewrite Ho.
  change (retiring (releaseIdentsLocked c _)) with (retiring c). destruct (retiring c); [|done]. by destruct (_ =? 0).
Qed.

Lemma forget_keys c p : key_part (forget_one c p) = key_part c.
Proof. destruct p as [f b]. unfold forget_one. destruct (h_bsubs c !! b) as [bs|]; [|done]. by destruct (_ =? 0). Qed.

Lemma release_keys c p : key_part (release_for c p.1 p.2) = key_part c.
Proof. unfold release_for. destruct (h_ops c !! p.1); [|done]. by destruct (_ =? 0). Qed.

Lemma complete_keys c p : key_part (complete c p.1 p.2) = key_part c.
Proof. unfold key_part, complete. by rewrite keys_upd. Qed.

Lemma reset_unsent R U W ord c c' :
  queue_ok R U W c -> core_ok ∅ c -> resetSession ord c = Some c' ->
  Forall2 (unsent_for c') (merge_sort Z.le (elements (activeSubs c))) (ctrlQueue c').
Proof.
  intros Q I. unfold resetSession. set (old := ctrlQueue c). set (c0 := c <| ctrlQueue := [] |>).
  assert (Hold : forall op, op ∈ old -> is_Some (h_ops c0 !! op)).
  { intros op Hop. apply (a_queued _ _ _ _ _ _ _ Q) in Hop as (k & Hk & _). rewrite ops_lookup in Hk. change (h_ops c0) with (h_ops c). destruct (h_ops c !! op); [by eexists|done]. }
  destruct (unqueue_keys old c0 [] Hold) as (A1 & A2 & A3 & A4 & A5).
  pose proof (foldl_frame (fun s => ctrlQueue (fst s)) unqueue_one (fun s op => proj2 (proj2 (unqueue_one_part s op))) old (c0, [])) as A6.
  destruct (foldl unqueue_one (c0, []) old) as [c1 released]. cbn [fst] in *. change (ctrlQueue c0) with (@nil Z) in A6. change (h_subs c0) with (h_subs c) in A1. change (keys c0) with (keys c) in *.
  pose proof (foldl_frame (fun s => key_part (fst s)) finish_one finish_keys old (c1, [])) as B1. destruct (foldl finish_one (c1, []) old) as [c2 finished]. cbn [fst] in B1.
  pose proof (foldl_frame key_part forget_one forget_keys (range ord (brokerSubs c2)) c2) as B2. set (c3 := foldl forget_one c2 _) in *. clearbody c3. rewrite B1 in B2. unfold key_part in B2. injection B2 as K1 K2 K3 K4 K5.
  rewrite K4, A3. change (activeSubs c0) with (activeSubs c). set (l := merge_sort Z.le (elements (activeSubs c))). pose proof (merge_sort_Permutation Z.le (elements (activeSubs c))) as Hperm. fold l in Hperm.
  destruct (foldl resubscribe_one (Some c3) l) as [c4|] eqn:E4; [|done]. intros [= <-].
  set (c5 := foldl (fun c p => release_for c p.1 p.2) c4 released). assert (F5 : key_part c5 = key_part c4) by (apply foldl_frame; intros; apply release_keys). clearbody c5.
  set (c6 := foldl (fun c p => complete c p.1 p.2) c5 finished). assert (F6 : key_part c6 = key_part c4) by (rewrite <- F5; apply foldl_frame; intros; apply complete_keys). clearbody c6.
  unfold key_part in F6. injection F6 as M1 M2 M3 M4 M5. destruct (resubscribe_rounds l c3 c4) as (ops & Q4 & U4 & _).
  - rewrite Hperm. apply NoDup_elements.
  - intros s Hs. rewrite Hperm, elem_of_elements in Hs. apply (k_active _ _ (i_linked _ _ _ _ I)) in Hs as (a & Ha & Hl). exists a. rewrite K2, A1. split; [done|]. intros op Eop.
    destruct (k_op _ _ (i_linked _ _ _ _ I) s a op Ha Hl Eop) as (o & Ho & Hk & Hsub & Hf & [Hq|[]%not_elem_of_empty]). exists (o_sent o). rewrite K1.
    rewrite (A5 op (opkey o)) by (by rewrite keys_lookup, Ho). rewrite decide_True by (apply (a_queued _ _ _ _ _ _ _ Q); exists (acore o); by rewrite ops_lookup, Ho). unfold opkey. cbn. by rewrite Hk, Hsub, Hf.
  - intros x. rewrite K1, K3, A2. change (next_op c0) with (next_op c). rewrite <- elem_of_dom, A4, elem_of_dom. destruct (queue_named _ _ _ _ _ _ Q) as [N1 _]. intros [k Hk]. apply N1. unfold kinds. rewrite lookup_fmap. rewrite keys_lookup in Hk. destruct (h_ops c !! x); [by eexists|done].
  - done.
  - rewrite K5, A6 in Q4. cbn in Q4. rewrite M5, Q4. eapply Forall2_impl; [exact U4|]. intros s op (a & Ha & Eop & Hk). exists a. by rewrite M2, M1.
Qed.

(** ** Theorem *)

(** C12: after a lost session everything is subscribed again. When the client
    has reconnected to a broker that kept no session, the next [flushCtrl]
    leaves in the queue exactly one SUBSCRIBE for each live subscription, in
    the order they were made, each for all filters of its subscription and
    neither sent nor tied to a connection; nothing else is queued. *)
Theorem session_loss_resubscribes `{BufferPool} es m ord cs :
  run start es = Some m -> total es < MaxVarintValue -> pc m = Idle -> cur (cl m) = Some cs -> sessionLost (cl m) = true ->
  exists m', step m (EFlush ord) = Some m' /\ pc m' = Flushing cs /\
  Forall2 (fun s op => exists a o, h_subs (cl m') !! s = Some a /\ s_op a = Some op /\ h_ops (cl m') !! op = Some o
             /\ o_kind o = KSubscribe /\ o_sub o = s /\ o_filters o = s_filters a /\ o_sent o = false /\ o_conn o = None)
    (merge_sort Z.le (elements (activeSubs (cl m)))) (ctrlQueue (cl m')).
Proof.
  intros Hr Hn Hpc Hcur Hlost. pose proof (final_ok es m Hr Hn) as M. pose proof M as [Q I _ _].
  destruct (step_ok (total es) m (EFlush ord) M ltac:(cbn; lia)) as (m' & E & _). exists m'. split; [done|].
  unfold step in E. rewrite Hpc in E. unfold flush_begin in E. rewrite Hcur, Hlost in E. set (c0 := (cl m) <| sessionLost := false |>) in E.
  destruct (resetSession ord c0) as [c'|] eqn:Er; [|done]. injection E as <-. split; [done|]. cbn [cl].
  assert (Q0 : queue_ok (hand (pc m)) (unmarked (pc m)) (watched (pc m)) c0) by by apply (queue_ok_frame _ _ _ (cl m)). assert (I0 : core_ok ∅ c0) by by apply (core_ok_frame _ (cl m)).
  eapply Forall2_impl; [exact (reset_unsent _ _ _ ord c0 c' Q0 I0 Er)|]. intros s op (a & Ha & Eop & Hk). rewrite keys_lookup in Hk. destruct (h_ops c' !! op) as [o|] eqn:Ho; [|done].
  injection Hk as K1 K2 K3 K4 K5. exists a, o. by split_and!.
Qed.

(** ** Witness *)

(** The connection of [day] breaks, with one subscription granted and one
    UNSUBSCRIBE on its way, and the broker of the next one knows nothing. *)
Definition night : list event := day ++ [ERegister; EMark; EWrite false; EDown [] None; EUp true true true 0 true].
Definition night_end : machine := default start (@run stale_pool start night).

Lemma night_runs : @run stale_pool start night = Some night_end.
Proof. vm_compute. reflexivity. Qed.

Lemma session_loss_resubscribes_witness :
  @run stale_pool start night = Some night_end /\ total night < MaxVarintValue /\ pc night_end = Idle /\ sessionLost (cl night_end) = true
  /\ exists cs m', cur (cl night_end) = Some cs /\ @step stale_pool night_end (EFlush []) = Some m' /\ length (ctrlQueue (cl m')) = 1%nat.
Proof.
  assert (Hn : total night < MaxVarintValue) by reflexivity. assert (Hp : pc night_end = Idle) by (vm_compute; reflexivity). assert (Hl : sessionLost (cl night_end) = true) by (vm_compute; reflexivity).
  split; [exact night_runs|]. split; [exact Hn|]. split; [exact Hp|]. split; [exact Hl|]. destruct (cur (cl night_end)) as [cs|] eqn:Hc; [|vm_compute in Hc; discriminate Hc].
  destruct (@session_loss_resubscribes stale_pool night night_end [] cs night_runs Hn Hp Hc Hl) as (m' & E & _ & F). exists cs, m'. split; [reflexivity|]. split; [exact E|].
  rewrite <- (Forall2_length _ _ _ F). vm_compute. reflexivity.
Defined.

End SubsRecovery.
