(* ===== verification/SubsSettle.v ===== *)
(** * SubsSettle: what an UNSUBSCRIBE names

    [settle] takes leave of the broker subscriptions nobody holds any more:
    which stay, which are forgotten quietly and which the UNSUBSCRIBE names. *)

From S2P Require Import Prelude GoLib Errors ClientErrors Buffers Varint Topics Subscribe IdTable Trie Subscriptions SubsLists SubsQueue SubsState SubsOps SubsMachine SubsTheorems.

Module SubsSettle.
Import Subscriptions SubsLists SubsQueue SubsState SubsOps SubsMachine SubsTheorems.

(** A broker subscription, by its filter. *)
Definition known_sub (c : client) (f : list Z) (bs : brokerSub) : Prop := exists b, brokerSubs c !! f = Some b /\ h_bsubs c !! b = Some bs.

(** The broker may have it, or get it from a SUBSCRIBE under way. *)
Definition at_broker (bs : brokerSub) : Prop := b_granted bs = true \/ b_pending bs <> 0.

(** The topics of the operation [settle] builds. *)
Definition topics_of (op : option ctrlOp) : list (list Z) := match op with Some o => o_topics o | None => [] end.

(** After the pairs [done], in the order of the range. *)
Record settling (c0 : client) (done : list (list Z * Z)) (s : client * option ctrlOp) : Prop := {
  y_heap : h_bsubs (fst s) = h_bsubs c0;
  y_same f : f ∉ done.*1 -> brokerSubs (fst s) !! f = brokerSubs c0 !! f;
  y_kept f b bs : (f, b) ∈ done -> h_bsubs c0 !! b = Some bs -> brokerSubs (fst s) !! f = if decide (b_holders bs = []) then None else Some b;
  y_topics f : f ∈ topics_of (snd s) <-> exists b bs, (f, b) ∈ done /\ h_bsubs c0 !! b = Some bs /\ b_holders bs = [] /\ at_broker bs;
  y_some : is_Some (snd s) -> topics_of (snd s) <> [];
  y_kind o : snd s = Some o -> o_kind o = KUnsubscribe /\ o_sent o = false /\ o_conn o = None;
  y_nodup : NoDup (topics_of (snd s));
  y_ops : (h_ops (fst s), next_op (fst s), ctrlQueue (fst s)) = (h_ops c0, next_op c0, ctrlQueue c0);
}.

Lemma settling_one c0 done s f b :
  settling c0 done s -> f ∉ done.*1 -> brokerSubs c0 !! f = Some b -> (exists bs, h_bsubs c0 !! b = Some bs) -> settling c0 (done ++ [(f, b)]) (settle_one s (f, b)).
Proof.
  intros Y Hf Hb [bs Hbs]. destruct s as [c op]. destruct Y as [Y1 Y2 Y3 Y4 Y5 Y6 Y7 Y8]. cbn [fst snd] in *.
  assert (Hold : forall g, g ∈ (done ++ [(f, b)]).*1 <-> g ∈ done.*1 \/ g = f) by (intros g; rewrite fmap_app, elem_of_app; change ([(f, b)].*1) with [f]; by rewrite list_elem_of_singleton).
  assert (Hpair : forall g x, (g, x) ∈ done ++ [(f, b)] <-> (g, x) ∈ done \/ g = f /\ x = b) by (intros g x; rewrite elem_of_app, list_elem_of_singleton; split; (intros [?|E]; [by left|right]); [by injection E|by destruct E as [-> ->]]).
  assert (Hin : forall g x, (g, x) ∈ done -> g <> f) by (intros g x Hgx ->; apply Hf, list_elem_of_fmap; by exists (f, x)).
  assert (Hnew : f ∉ topics_of op) by (intros (b' & bs' & Hd & _)%Y4; by apply Hin in Hd).
  unfold settle_one. rewrite Y1, Hbs. destruct (Z.ltb_spec 0 (len (b_holders bs))) as [Hh|Hh].
  - assert (Hne : b_holders bs <> []) by (intros E; rewrite E in Hh; done). split; try done; cbn [fst snd].
    + intros g. rewrite Hold. intros Hg. apply Y2. tauto.
    + intros g x xs. rewrite Hpair. intros [Hgx|[-> ->]] Hx; [by eapply Y3|]. rewrite Hbs in Hx. injection Hx as <-. by rewrite decide_False, Y2.
    + intros g. rewrite Y4. split; intros (x & xs & Hgx & Hx & Hz & Ha).
      * exists x, xs. rewrite Hpair. auto.
      * apply Hpair in Hgx as [Hgx|[-> ->]]; [by exists x, xs|]. congruence.
  - assert (He : b_holders bs = []) by (apply len_0_nil; pose proof (len_nonneg (b_holders bs)); lia).
    set (c1 := c <| router := _ |> <| brokerSubs ::= delete f |>).
    assert (Hgen : forall op', (forall g, g ∈ topics_of op' <-> g ∈ topics_of op \/ (g = f /\ at_broker bs)) -> (is_Some op' -> topics_of op' <> []) ->
      (forall o, op' = Some o -> o_kind o = KUnsubscribe /\ o_sent o = false /\ o_conn o = None) -> NoDup (topics_of op') ->
      forall c2, h_bsubs c2 = h_bsubs c1 -> brokerSubs c2 = brokerSubs c1 -> (h_ops c2, next_op c2, ctrlQueue c2) = (h_ops c1, next_op c1, ctrlQueue c1) -> settling c0 (done ++ [(f, b)]) (c2, op')).
    { intros op' T1 T2 T3 T4 c2 E1 E2 E3. split; cbn [fst snd]; try done.
      - by rewrite E1.
      - intros g Hg. rewrite Hold in Hg. rewrite E2. change (brokerSubs c1) with (delete f (brokerSubs c)). rewrite lookup_delete_ne by (intros ->; tauto). apply Y2. tauto.
      - intros g x xs Hgx Hx. rewrite E2. change (brokerSubs c1) with (delete f (brokerSubs c)). apply Hpair in Hgx as [Hgx|[-> ->]].
        + rewrite lookup_delete_ne by (intros <-; by apply Hin in Hgx). by eapply Y3.
        + rewrite Hbs in Hx. injection Hx as <-. rewrite decide_True by done. apply lookup_delete_eq.
      - intros g. rewrite T1, Y4. split.
        + intros [(x & xs & Hgx & Hx)|[-> Ha]]; [exists x, xs; rewrite Hpair; auto|exists b, bs; rewrite Hpair; auto].
        + intros (x & xs & Hgx & Hx & Hz & Ha). apply Hpair in Hgx as [Hgx|[-> ->]]; [left; by exists x, xs|right]. split; [done|]. congruence.
      - rewrite E3. exact Y8. }
    destruct (negb (b_granted bs) && (b_pending bs =? 0)) eqn:Eg.
    + apply andb_true_iff in Eg as [Eg Ep]. apply negb_true_iff in Eg. apply Z.eqb_eq in Ep. apply Hgen; try done. intros g. split; [by left|]. intros [?|[_ [?|?]]]; [done|congruence|lia].
    + assert (Ha : at_broker bs) by (apply andb_false_iff in Eg as [Eg|Eg]; [left; by apply negb_false_iff in Eg|right; by apply Z.eqb_neq in Eg]).
      set (o := default unsubscribe_op op). assert (Hto : o_topics o = topics_of op) by (unfold o; by destruct op).
      assert (Hko : o_kind o = KUnsubscribe /\ o_sent o = false /\ o_conn o = None) by (unfold o; destruct op; [by apply Y6|done]). clearbody o.
      apply Hgen; try done; cbn [topics_of]; change (o_topics (_ <| o_retiredIssued ::= _ |>)) with (o_topics o ++ [f]); rewrite ?Hto.
      * intros g. rewrite elem_of_app, list_elem_of_singleton. tauto.
      * intros _. by destruct (topics_of op).
      * by intros o' [= <-].
      * apply NoDup_app. split; [done|]. split; [|apply NoDup_singleton]. by intros g Hg ->%list_elem_of_singleton.
Qed.

Lemma settling_all c0 l : forall done s,
  settling c0 done s -> NoDup (done ++ l).*1 -> (forall f b, (f, b) ∈ l -> brokerSubs c0 !! f = Some b /\ exists bs, h_bsubs c0 !! b = Some bs) ->
  settling c0 (done ++ l) (foldl settle_one s l).
Proof.
  induction l as [|[f b] l IH]; intros done s Y Hnd Hl; cbn [foldl]; [by rewrite app_nil_r|]. assert (E : done ++ (f, b) :: l = (done ++ [(f, b)]) ++ l) by by rewrite <- app_assoc. rewrite E in *.
  destruct (Hl f b ltac:(by left)) as [Hf Hb]. apply IH; [|done|intros g x Hgx; apply Hl; by right]. apply settling_one; try done.
  intros Hin. rewrite !fmap_app in Hnd. apply NoDup_app in Hnd as (Hnd & _). apply NoDup_app in Hnd as (_ & Hd & _). apply (Hd f Hin). by left.
Qed.

#[export] Instance string_le_total : Total string_le.
Proof. intros a. induction a as [|x a IH]; intros [|y b]; cbn; auto. destruct (Z.lt_trichotomy x y) as [?|[->|?]]; [auto| |auto]. destruct (IH b); auto. Qed.

(** ** Theorem *)

(** C13: an UNSUBSCRIBE names exactly what nobody wants any more. In every
    reachable state, whatever the order in which the map is visited, [settle]
    keeps the broker subscriptions that have a holder and forgets the others;
    if the broker may have some of those, it queues, last, one UNSUBSCRIBE that
    names each of these once, in order, and no other; if not, it queues
    nothing. *)
Theorem settle_exact `{BufferPool} es m ord :
  run start es = Some m -> total es < MaxVarintValue ->
  let c := cl m in
  let (c', op) := settle ord c in
  (forall f, is_Some (brokerSubs c' !! f) <-> exists bs, known_sub c f bs /\ b_holders bs <> [])
  /\ match op with
     | None => ctrlQueue c' = ctrlQueue c /\ forall f bs, known_sub c f bs -> b_holders bs = [] -> ~ at_broker bs
     | Some op => ctrlQueue c' = ctrlQueue c ++ [op] /\ exists o, h_ops c' !! op = Some o /\ o_kind o = KUnsubscribe /\ o_sent o = false
         /\ o_topics o <> [] /\ NoDup (o_topics o) /\ Sorted string_le (o_topics o)
         /\ forall f, f ∈ o_topics o <-> exists bs, known_sub c f bs /\ b_holders bs = [] /\ at_broker bs
     end.
Proof.
  intros Hr Hn c. destruct (final_ok es m Hr Hn) as [_ I _ _]. fold c in I. clearbody c. pose proof (i_shaped _ _ _ _ I) as Hsh. set (l := range ord (brokerSubs c)).
  assert (Hl : forall f b, (f, b) ∈ l <-> brokerSubs c !! f = Some b) by (intros f b; apply elem_of_range).
  assert (Y : settling c l (foldl settle_one (c, None) l)).
  { apply (settling_all c l [] (c, None)).
    - split; cbn; try done; try constructor; try (by intros f b bs ?%elem_of_nil); try (by intros [? ?]). all: [> by intros ?%elem_of_nil|by intros (b & bs & ?%elem_of_nil & _)].
    - apply NoDup_range.
    - intros f b Hfb%Hl. split; [done|]. destruct (m_bs _ Hsh _ _ Hfb) as (bs & Hb & _). eauto. }
  unfold settle. fold l. destruct (foldl settle_one (c, None) l) as [c1 op1]. destruct Y as [Y1 Y2 Y3 Y4 Y5 Y6 Y7 Y8]. cbn [fst snd] in *. injection Y8 as E1 E2 E3.
  assert (Hkeep : forall f, is_Some (brokerSubs c1 !! f) <-> exists bs, known_sub c f bs /\ b_holders bs <> []).
  { intros f. destruct (brokerSubs c !! f) as [b|] eqn:Ef.
    - destruct (m_bs _ Hsh _ _ Ef) as (bs & Hb & _). rewrite (Y3 f b bs (proj2 (Hl f b) Ef) Hb). split.
      + destruct (decide _); [by intros [? ?]|]. intros _. exists bs. split; [by exists b|done].
      + intros (bs' & (b' & Hf' & Hb') & Hne). replace b' with b in * by congruence. replace bs' with bs in * by congruence. rewrite decide_False by done. by eexists.
    - rewrite Y2, Ef; [split; [by intros [? ?]|intros (bs & (b & ? & _) & _); congruence]|]. intros ([f' b] & -> & Hin%Hl)%list_elem_of_fmap. cbn in Ef. congruence. }
  assert (Htop : forall f, f ∈ topics_of op1 <-> exists bs, known_sub c f bs /\ b_holders bs = [] /\ at_broker bs).
  { intros f. rewrite Y4. split; [intros (b & bs & Hin%Hl & Hb & He & Ha); exists bs; split; [by exists b|done]|]. intros (bs & (b & Hf & Hb) & He & Ha). exists b, bs. rewrite Hl. done. }
  destruct op1 as [o|]; cbn [topics_of] in *.
  - set (o' := o <| o_topics ::= merge_sort string_le |>). assert (En : new_op c1 o' = (fst (new_op c1 o'), next_op c1)) by done. rewrite En. set (c2 := fst (new_op c1 o')).
    set (c3 := retireLocked c2 (o_retiredIssued o)). assert (H3 : brokerSubs c3 = brokerSubs c1 /\ h_ops c3 = <[next_op c1 := o']> (h_ops c1) /\ ctrlQueue c3 = ctrlQueue c1) by (unfold c3, retireLocked; by destruct (_ =? 0)).
    clearbody c3. destruct H3 as (G1 & G2 & G3). pose proof (merge_sort_Permutation string_le (o_topics o)) as Hperm. destruct (Y6 o eq_refl) as (P1 & P2 & _).
    split; [intros f; change (brokerSubs (enqueue c3 (next_op c1))) with (brokerSubs c3); rewrite G1; apply Hkeep|]. split; [change (ctrlQueue (enqueue c3 (next_op c1))) with (ctrlQueue c3 ++ [next_op c1]); congruence|].
    exists (o' <| o_queued := true |>). change (o_topics (o' <| o_queued := true |>)) with (merge_sort string_le (o_topics o)). split_and!; try done.
    + change (h_ops (upd_op (next_op c1) (fun o => o <| o_queued := true |>) c3) !! next_op c1 = Some (o' <| o_queued := true |>)). by rewrite upd_op_lookup, decide_True, G2, lookup_insert_eq.
    + intros E. rewrite E in Hperm. apply Permutation_nil_l in Hperm. by apply Y5; [by eexists|].
    + by rewrite Hperm.
    + apply (Sorted_merge_sort _).
    + intros f. rewrite Hperm. apply Htop.
  - split; [done|]. split; [congruence|]. intros f bs Hk He Ha. assert (Hin : f ∈ @nil (list Z)) by (apply Htop; eauto). by apply elem_of_nil in Hin.
Qed.

(** ** Witness *)

(** The second subscription of [day] gave up: its own filter is to be
    unsubscribed, the one it shared is not. *)
Definition leaving : list event :=
  [EUp true true true 0 false; ESubscribe [wfilter "a/+" 1] false false; ESubscribe [wfilter "a/b" 0; wfilter "a/+" 0] true false; EFlush []] ++ send_one ++ send_one ++ [ENext; EAbandon 2].
Definition leaving_end : machine := default start (@run stale_pool start leaving).

Lemma leaving_runs : @run stale_pool start leaving = Some leaving_end.
Proof. vm_compute. reflexivity. Qed.

Lemma settle_exact_witness :
  @run stale_pool start leaving = Some leaving_end /\ total leaving < MaxVarintValue
  /\ (o_topics <$> h_ops (fst (settle [] (cl leaving_end))) !! 3) = Some [str "a/b"]
  /\ is_Some (brokerSubs (fst (settle [] (cl leaving_end))) !! str "a/+").
Proof.
  assert (Hn : total leaving < MaxVarintValue) by reflexivity. split; [exact leaving_runs|]. split; [exact Hn|]. split; [vm_compute; reflexivity|].
  pose proof (@settle_exact stale_pool leaving leaving_end [] leaving_runs Hn) as H. cbv zeta in H. destruct (settle [] (cl leaving_end)) as [c' op] eqn:E. destruct H as [H _].
  cbn [fst]. apply H. assert (Hk : exists b bs, brokerSubs (cl leaving_end) !! str "a/+" = Some b /\ h_bsubs (cl leaving_end) !! b = Some bs /\ b_holders bs = [1]).
  { eexists _, _. split; [vm_compute; reflexivity|]. split; [vm_compute; reflexivity|reflexivity]. }
  destruct Hk as (b & bs & H1 & H2 & H3). exists bs. split; [exists b; split; [exact H1|exact H2]|]. rewrite H3. discriminate.
Defined.

End SubsSettle.
