(* ===== verification/Dispatch.v ===== *)
(** * Dispatch: inbound messages to subscriptions (conn.go, subscribe.go)

    Which subscriptions a PUBLISH reaches ([handlePublish]), the topic aliases
    of a connection, the handles that share one delivery and the bounded
    channels and queues of subscribers. *)

From S2P Require Import Prelude GoLib Errors ClientErrors Buffers Varint Topics Subscribe IdTable Trie Subscriptions SubsLists SubsQueue SubsState SubsOps SubsMachine SubsTheorems.

Module Dispatch.
Import Subscriptions SubsLists SubsQueue SubsState SubsOps SubsMachine SubsTheorems.

(** ** Routing *)

(** The closure [add] of [handlePublish]; [first] and [rest] as one list. *)
Definition add (routes : list Z) (r : Z) : list Z := if Contains routes r then routes else routes ++ [r].

(** What the first [Match] does with a broker subscription: the routes so far
    and [foreign]. *)
Definition visit (c : client) (ids : list Z) (s : list Z * bool) (b : Z) : list Z * bool :=
  let (routes, foreign) := s in
  match h_bsubs c !! b with
  | None => s
  | Some bs =>
      let v := b_view bs in
      if 0 <? len ids then
        let foreign := foreign && negb (issuedAny v ids) in
        if negb (accepts v ids) then (routes, foreign) else (foldl add routes (v_routes v), foreign)
      else (foldl add routes (v_routes v), foreign)
  end.

(** ... and the second one. *)
Definition visit_any (c : client) (routes : list Z) (b : Z) : list Z :=
  match h_bsubs c !! b with None => routes | Some bs => foldl add routes (v_routes (b_view bs)) end.

(** The routes [handlePublish] dispatches a PUBLISH to, given its Subscription
    Identifiers. *)
Definition select_routes (c : client) (topic : list Z) (ids : list Z) : list Z :=
  let matched := Match (router c) topic in
  let (routes, foreign) := foldl (visit c ids) ([], 0 <? len ids) matched in
  match routes with
  | [] => if foreign && negb (retired c ids) then foldl (visit_any c) routes matched else routes
  | _ :: _ => routes
  end.

(** Whether the message may alias the network frame. *)
Definition all_zero_copy (c : client) (routes : list Z) : bool :=
  forallb (fun r => default true (zeroCopy <$> h_routes c !! r)) routes.

(** *** The routes of a view *)

Lemma elem_of_add routes r x : x ∈ add routes r <-> x ∈ routes \/ x = r.
Proof.
  unfold add. destruct (Contains routes r) eqn:E; [apply Contains_true in E; split; [auto|]; by intros [?| ->]|]. by rewrite elem_of_app, list_elem_of_singleton.
Qed.

Lemma NoDup_add routes r : NoDup routes -> NoDup (add routes r).
Proof.
  intros H. unfold add. destruct (Contains routes r) eqn:E; [done|]. apply Contains_false in E. apply NoDup_app. split; [done|]. split; [|apply NoDup_singleton].
  intros x Hx ->%list_elem_of_singleton. done.
Qed.

Lemma elem_of_adds l : forall routes x, x ∈ foldl add routes l <-> x ∈ routes \/ x ∈ l.
Proof. induction l as [|r l IH]; intros routes x; cbn [foldl]; [rewrite elem_of_nil; tauto|]. rewrite IH, elem_of_add, elem_of_cons. tauto. Qed.

Lemma NoDup_adds l : forall routes, NoDup routes -> NoDup (foldl add routes l).
Proof. induction l as [|r l IH]; intros routes Hr; [done|]. apply IH. by apply NoDup_add. Qed.

Lemma view_routes c bs x : x ∈ v_routes (view_of c bs) <-> exists h a, h ∈ b_holders bs /\ h_subs c !! h = Some a /\ s_route a = x.
Proof.
  unfold view_of. cbn [v_routes]. assert (H : forall l acc, x ∈ foldl (add_route c) acc l <-> x ∈ acc \/ exists h a, h ∈ l /\ h_subs c !! h = Some a /\ s_route a = x).
  { induction l as [|h l IH]; intros acc; cbn [foldl].
    - split; [by left|]. intros [?|(h & a & []%elem_of_nil & _)]. done.
    - rewrite IH. unfold add_route. destruct (h_subs c !! h) as [a|] eqn:E.
      + fold (add acc (s_route a)). rewrite elem_of_add. split.
        * intros [[?| ->]|(h' & a' & ? & ?)]; [by left|right; exists h, a; split; [by left|done]|right; exists h', a'; split; [by right|done]].
        * intros [?|(h' & a' & [->|?]%elem_of_cons & ? & ?)]; [by left; left|left; right; congruence|right; eauto].
      + split; intros [?|(h' & a' & Hin & Ha & ?)]; [by left|right; exists h', a'; split; [by right|done]|by left|]. apply elem_of_cons in Hin as [->|?]; [congruence|right; eauto]. }
  rewrite H. rewrite elem_of_nil. tauto.
Qed.

(** *** What is matched *)

(** The broker subscriptions for the topic. *)
Definition matches (c : client) (topic : list Z) (f : list Z) (b : Z) (bs : brokerSub) : Prop :=
  brokerSubs c !! f = Some b /\ h_bsubs c !! b = Some bs /\ topic_matches (address (underlying f)) topic = true.

Lemma matched_iff c topic b : shaped c -> b ∈ Match (router c) topic <-> exists f bs, matches c topic f b bs.
Proof.
  intros H. destruct (m_router _ H) as (Hw & Hf & _). cbn [fst] in Hf. rewrite Match_spec by done. rewrite (selected_perm _ _ _ Hf). unfold selected.
  rewrite !list_elem_of_In, in_map_iff. split.
  - intros ([k e] & <- & Hin). apply filter_In in Hin as [(r & E & Hr)%in_map_iff Hm]. unfold located in E. injection E as <- <-. apply list_elem_of_In in Hr. unfold registrations in Hr.
    apply list_elem_of_fmap in Hr as ([f b'] & -> & Hfb%elem_of_map_to_list). cbn in *. destruct (m_bs _ H _ _ Hfb) as (bs & Hb & _). exists f, bs. by repeat split.
  - intros (f & bs & Hfb & Hb & Hm). exists (located (registration c (f, b))). split; [done|]. apply filter_In. split; [|done]. apply in_map, list_elem_of_In.
    unfold registrations. apply list_elem_of_fmap. exists (f, b). split; [done|]. by apply elem_of_map_to_list.
Qed.

(** A copy with these identifiers is meant for the broker subscription: the
    PUBLISH has none, the subscription has none left, or they share one. *)
Definition accepted (ids : list Z) (bs : brokerSub) : Prop := ids = [] \/ b_ids bs = [] \/ exists id, id ∈ ids /\ id ∈ b_ids bs.

(** A live subscription with a filter that matches the topic and a broker
    subscription [ok] allows, and its route. *)
Definition entitled (c : client) (topic : list Z) (ok : brokerSub -> Prop) (r : Z) : Prop :=
  exists s a f b bs, h_subs c !! s = Some a /\ live a /\ f ∈ topics a /\ matches c topic f b bs /\ ok bs /\ s_route a = r.

Lemma existsb_Contains (l ids : list Z) : existsb (Contains l) ids = true <-> exists id, id ∈ ids /\ id ∈ l.
Proof. rewrite existsb_exists. split; intros (id & H1 & H2); exists id; [apply list_elem_of_In in H1; by apply Contains_true in H2|split; [by apply list_elem_of_In|by apply Contains_true]]. Qed.

Lemma accepts_iff v ids : accepts v ids = true <-> v_ids v = [] \/ exists id, id ∈ ids /\ id ∈ v_ids v.
Proof.
  unfold accepts. destruct (Z.eqb_spec (len (v_ids v)) 0) as [E|E].
  - apply len_0_nil in E. split; [by left|done].
  - rewrite existsb_Contains. split; [by right|]. intros [E0|?]; [rewrite E0 in E; done|done].
Qed.

Section routing.
Context (c : client) (topic : list Z).
Hypothesis I : core_ok ∅ c.

Lemma view_current f b bs : brokerSubs c !! f = Some b -> h_bsubs c !! b = Some bs -> b_view bs = view_of c bs.
Proof. intros Hf Hb. exact (i_viewed _ _ _ _ I f b bs Hf Hb (not_elem_of_empty _)). Qed.

(** The routes of the views of broker subscriptions [ok] allows. *)
Lemma entitled_views (ok : brokerSub -> Prop) r :
  entitled c topic ok r <-> exists b bs, b ∈ Match (router c) topic /\ h_bsubs c !! b = Some bs /\ ok bs /\ r ∈ v_routes (b_view bs).
Proof.
  pose proof (i_held _ _ _ _ I) as Hh. split.
  - intros (s & a & f & b & bs & Ha & Hl & Hf & Hm & Hok & Hr). exists b, bs. destruct Hm as (Hfb & Hb & Ht). split; [apply matched_iff; [apply I|]; by exists f, bs|]. split; [done|]. split; [done|].
    rewrite (view_current f b bs Hfb Hb). apply view_routes. exists s, a. split; [|done]. apply occ_pos. rewrite (h_count _ _ Hh f b bs Hfb Hb). unfold held. rewrite Ha, decide_True by done. by apply occ_pos.
  - intros (b & bs & Hin & Hb & Hok & Hr). apply matched_iff in Hin as (f & bs' & Hfb & Hb' & Ht); [|apply I]. replace bs' with bs in * by congruence.
    rewrite (view_current f b bs Hfb Hb) in Hr. apply view_routes in Hr as (s & a & Hs & Ha & Hr). apply occ_pos in Hs. rewrite (h_count _ _ Hh f b bs Hfb Hb) in Hs.
    unfold held in Hs. rewrite Ha in Hs. destruct (decide (live a)) as [Hl|]; [|lia]. apply occ_pos in Hs. exists s, a, f, b, bs. by repeat split.
Qed.

Definition welcome (ids : list Z) (bs : brokerSub) : Prop := ids = [] \/ accepts (b_view bs) ids = true.

Lemma visit_spec ids b routes foreign :
  let (routes', foreign') := visit c ids (routes, foreign) b in
  (forall x, x ∈ routes' <-> x ∈ routes \/ exists bs, h_bsubs c !! b = Some bs /\ welcome ids bs /\ x ∈ v_routes (b_view bs))
  /\ (NoDup routes -> NoDup routes')
  /\ foreign' = foreign && match h_bsubs c !! b with Some bs => negb ((0 <? len ids) && issuedAny (b_view bs) ids) | None => true end.
Proof.
  unfold visit. destruct (h_bsubs c !! b) as [bs|].
  2: { split; [|by rewrite andb_true_r]. intros x. split; [by left|]. by intros [?|(bs & ? & _)]. }
  assert (Hadd : forall x, x ∈ foldl add routes (v_routes (b_view bs)) <-> x ∈ routes \/ x ∈ v_routes (b_view bs)) by apply elem_of_adds.
  assert (Hw : forall x P, (welcome ids bs <-> P) -> (x ∈ routes \/ (exists bs', Some bs = Some bs' /\ welcome ids bs' /\ x ∈ v_routes (b_view bs'))) <-> x ∈ routes \/ (P /\ x ∈ v_routes (b_view bs))).
  { intros x P HP. split; (intros [?|Hx]; [by left|right]); [destruct Hx as (bs' & [= <-] & ? & ?); tauto|exists bs; tauto]. }
  destruct ids as [|id ids'].
  - cbn [len]. change (0 <? len (@nil Z)) with false. cbn [andb negb]. split; [|split; [apply NoDup_adds|by rewrite andb_true_r]]. intros x. rewrite Hadd, (Hw x True); [tauto|]. split; [done|by left].
  - destruct (Z.ltb_spec 0 (len (id :: ids'))) as [_|Hl]; [|rewrite len_cons in Hl; pose proof (len_nonneg ids'); lia]. cbn [andb]. destruct (accepts (b_view bs) (id :: ids')) eqn:Ea; cbn [negb].
    + split; [|split; [apply NoDup_adds|done]]. intros x. rewrite Hadd, (Hw x True); [tauto|]. split; [done|by right].
    + split; [|by split]. intros x. rewrite (Hw x False); [tauto|]. split; [|done]. intros [?|?]; congruence.
Qed.

Lemma visits_spec ids l : forall routes foreign,
  let (routes', foreign') := foldl (visit c ids) (routes, foreign) l in
  (forall x, x ∈ routes' <-> x ∈ routes \/ exists b bs, b ∈ l /\ h_bsubs c !! b = Some bs /\ welcome ids bs /\ x ∈ v_routes (b_view bs))
  /\ (NoDup routes -> NoDup routes')
  /\ (foreign' = true <-> foreign = true /\ forall b bs, b ∈ l -> h_bsubs c !! b = Some bs -> ids = [] \/ issuedAny (b_view bs) ids = false).
Proof.
  induction l as [|b l IH]; intros routes foreign; cbn [foldl].
  - split; [|split; [done|]].
    + intros x. split; [by left|]. intros [?|(b & bs & []%elem_of_nil & _)]. done.
    + split; [|by intros [? _]]. intros ->. split; [done|]. by intros b bs []%elem_of_nil.
  - pose proof (visit_spec ids b routes foreign) as Hv. destruct (visit c ids (routes, foreign) b) as [r1 f1]. destruct Hv as (V1 & V2 & V3).
    specialize (IH r1 f1). destruct (foldl (visit c ids) (r1, f1) l) as [r2 f2]. destruct IH as (W1 & W2 & W3). split; [|split; [auto|]].
    + intros x. rewrite W1, V1. split.
      * intros [[?|(bs & ? & ? & ?)]|(b' & bs & ? & ?)]; [by left|right; exists b, bs; by split; [left|]|right; exists b', bs; by split; [right|]].
      * intros [?|(b' & bs & [->|?]%elem_of_cons & ? & ? & ?)]; [by left; left|left; right; by exists bs|right; by exists b', bs].
    + rewrite W3, V3, andb_true_iff. split.
      * intros [[Hf Hb] Hl]. split; [done|]. intros b' bs [->|?]%elem_of_cons Hbs; [|eauto]. rewrite Hbs in Hb. apply negb_true_iff, andb_false_iff in Hb as [Hz|?]; [|by right].
        left. apply len_0_nil. pose proof (len_nonneg ids). apply Z.ltb_ge in Hz. lia.
      * intros [Hf Hl]. split; [split; [done|]|intros b' bs ? ?; apply (Hl b'); [by right|done]]. destruct (h_bsubs c !! b) as [bs|] eqn:Hbs; [|done]. apply negb_true_iff, andb_false_iff.
        destruct (Hl b bs ltac:(by left) Hbs) as [->|?]; [by left|by right].
Qed.

Lemma visits_any_spec l : forall routes,
  (forall x, x ∈ foldl (visit_any c) routes l <-> x ∈ routes \/ exists b bs, b ∈ l /\ h_bsubs c !! b = Some bs /\ x ∈ v_routes (b_view bs))
  /\ (NoDup routes -> NoDup (foldl (visit_any c) routes l)).
Proof.
  induction l as [|b l IH]; intros routes; cbn [foldl].
  - split; [|done]. intros x. split; [by left|]. intros [?|(b & bs & []%elem_of_nil & _)]. done.
  - destruct (IH (visit_any c routes b)) as [W1 W2]. assert (Ev : visit_any c routes b = match h_bsubs c !! b with None => routes | Some bs => foldl add routes (v_routes (b_view bs)) end) by done.
    rewrite Ev in *. clear Ev. destruct (h_bsubs c !! b) as [bs|] eqn:Hb.
    + split; [|intros Hnd; by apply W2, NoDup_adds]. intros x. rewrite W1, elem_of_adds. split.
      * intros [[?|?]|(b' & bs' & ? & ?)]; [by left|right; exists b, bs; by split; [left|]|right; exists b', bs'; by split; [right|]].
      * intros [?|(b' & bs' & [->|?]%elem_of_cons & ? & ?)]; [by left; left|left; right; congruence|right; by exists b', bs'].
    + split; [|done]. intros x. rewrite W1. split.
      * intros [?|(b' & bs' & ? & ?)]; [by left|right; exists b', bs'; by split; [right|]].
      * intros [?|(b' & bs' & [->|?]%elem_of_cons & ? & ?)]; [by left|congruence|right; by exists b', bs'].
Qed.
End routing.

(** C10: a PUBLISH reaches exactly the subscriptions it was sent for, each
    once. In every reachable state of the client and for any topic and
    Subscription Identifiers, the routes [handlePublish] dispatches to are open
    and all different, and they are those of the live subscriptions one of whose
    filters (without its share group) matches the topic and whose broker
    subscription the identifiers, if there are any, name or do not concern; if
    there are none of these, the client never issued any of the identifiers to
    a subscription to the topic and none is being retired, they are those of
    all live subscriptions with a filter that matches. *)
Theorem routing_exact `{BufferPool} es m topic ids :
  run start es = Some m -> total es < MaxVarintValue ->
  let c := cl m in
  let routes := select_routes c topic ids in
  NoDup routes
  /\ (forall r, r ∈ routes -> exists x, h_routes c !! r = Some x /\ closed x = false)
  /\ (forall r, r ∈ routes <->
        entitled c topic (accepted ids) r
        \/ (ids <> [] /\ (forall r', ~ entitled c topic (accepted ids) r')
            /\ (forall f b bs, matches c topic f b bs -> forall id, id ∈ ids -> id ∉ b_issued bs)
            /\ retired c ids = false /\ entitled c topic (fun _ => True) r)).
Proof.
  intros Hr Hn c routes. destruct (final_ok es m Hr Hn) as [Q I B _]. fold c in Q, I, B. clearbody c. pose proof (i_shaped _ _ _ _ I) as Hsh.
  assert (Hacc : forall r, entitled c topic (accepted ids) r <-> entitled c topic (welcome ids) r).
  { intros r. unfold entitled. split; intros (s & a & f & b & bs & H1 & H2 & H3 & H4 & H5 & H6); exists s, a, f, b, bs; repeat (split; [done|]); (split; [|done]); pose proof H4 as (Hf & Hb & _);
      pose proof (view_current c I f b bs Hf Hb) as Hv; unfold accepted, welcome in *; rewrite accepts_iff, Hv in *; cbn [v_ids view_of] in *; tauto. }
  assert (Hiss : forall f b bs, matches c topic f b bs -> issuedAny (b_view bs) ids = existsb (Contains (b_issued bs)) ids).
  { intros f b bs (Hf & Hb & _). by rewrite (view_current c I f b bs Hf Hb). }
  assert (Hspec : NoDup routes /\ forall r, r ∈ routes <-> entitled c topic (accepted ids) r
        \/ (ids <> [] /\ (forall r', ~ entitled c topic (accepted ids) r') /\ (forall f b bs, matches c topic f b bs -> forall id, id ∈ ids -> id ∉ b_issued bs)
            /\ retired c ids = false /\ entitled c topic (fun _ => True) r)).
  { unfold routes, select_routes. pose proof (visits_spec c ids (Match (router c) topic) [] (0 <? len ids)) as Hvis.
    destruct (foldl (visit c ids) ([], 0 <? len ids) (Match (router c) topic)) as [l foreign]. destruct Hvis as (V1 & V2 & V3). specialize (V2 ltac:(constructor)).
    assert (E1 : forall r, r ∈ l <-> entitled c topic (accepted ids) r).
    { intros r. rewrite V1, Hacc, (entitled_views c topic I), elem_of_nil. split; [|auto]. by intros [[]|?]. }
    assert (E2 : foreign = true <-> ids <> [] /\ forall f b bs, matches c topic f b bs -> forall id, id ∈ ids -> id ∉ b_issued bs).
    { rewrite V3. split.
      - intros [Hl Hall]. assert (Hne : ids <> []) by (intros ->; done). split; [done|]. intros f b bs Hm id Hid Hin. destruct (Hall b bs) as [?|Hi]; [apply matched_iff; [done|]; by exists f, bs|apply Hm|done|].
        rewrite (Hiss f b bs Hm) in Hi. apply not_true_iff_false in Hi. apply Hi, existsb_Contains. by exists id.
      - intros [Hne Hall]. split; [apply Z.ltb_lt; destruct ids as [|x k]; [done|]; rewrite len_cons; pose proof (len_nonneg k); lia|]. intros b bs Hb Hbs. right.
        apply matched_iff in Hb as (f & bs' & Hm); [|done]. pose proof Hm as (_ & Hb' & _). replace bs' with bs in * by congruence. rewrite (Hiss f b bs Hm). apply not_true_iff_false.
        intros (id & Hid & Hin)%existsb_Contains. exact (Hall f b bs Hm id Hid Hin). }
    destruct l as [|r0 l'].
    - assert (Hnone : forall r', ~ entitled c topic (accepted ids) r') by (intros r' Hr'%E1; by apply elem_of_nil in Hr').
      destruct (foreign && negb (retired c ids)) eqn:Ef.
      + apply andb_true_iff in Ef as [Ef Hret]. apply negb_true_iff in Hret. apply E2 in Ef as [Hne Hall]. destruct (visits_any_spec c (Match (router c) topic) []) as [W1 W2].
        split; [apply W2; constructor|]. intros r. rewrite W1, elem_of_nil. split.
        * intros [[]|(b & bs & Hb & Hbs & Hx)]. right. split_and!; try done. apply (entitled_views c topic I). by exists b, bs.
        * intros [Hx|(_ & _ & _ & _ & Hx)]; [by destruct (Hnone r)|]. apply (entitled_views c topic I) in Hx as (b & bs & ? & ? & _ & ?). right. by exists b, bs.
      + split; [constructor|]. intros r. rewrite elem_of_nil. split; [done|]. intros [Hx|(Hne & _ & Hall & Hret & _)]; [by destruct (Hnone r)|].
        rewrite (proj2 E2), Hret in Ef by done. done.
    - split; [done|]. intros r. rewrite E1. split; [by left|]. intros [?|(_ & Hnone & _)]; [done|]. destruct (Hnone r0). apply E1. by left. }
  destruct Hspec as [Hnd Hspec]. split; [done|]. split; [|done]. intros r Hin.
  assert (Hlive : exists s a, h_subs c !! s = Some a /\ live a /\ s_route a = r).
  { apply Hspec in Hin as [(s & a & _ & _ & _ & ? & ? & _ & _ & _ & ?)|(_ & _ & _ & _ & (s & a & _ & _ & _ & ? & ? & _ & _ & _ & ?))]; by exists s, a. }
  destruct Hlive as (s & a & Ha & Hl & <-). destruct (b_routed _ _ B s a Ha) as (_ & Hrt & x & Hx & Hc & _). exists x. rewrite Hrt. split; [done|]. rewrite Hc. by apply bool_decide_eq_false.
Qed.

(** ** Deliveries

    One inbound PUBLISH shared by the handles of the subscriptions it reached.
    [acked.CompareAndSwap] and [refs.Add] are atomic; what the goroutine that
    acks does between them and after is a step of its own. *)

(** [delivery]; a PUBLISH that reached nobody has none, but its number. *)
Record delivery : Type := mkDelivery { d_refs : Z; d_in : option nat; d_frame : bool }.

(** [Message], as far as acknowledging goes. *)
Record handle : Type := mkHandle { m_d : nat; m_acked : bool }.

(** [releasing]: calls of [delivery.release] between the two atomics, each with
    [onReader]. [engine_acks]: the PUBLISHes acknowledged, with [AckDeferred]
    when true. [frees]: the PUBLISHes whose frame was released. *)
Record deliveries : Type := mkDeliveries {
  ds : list delivery;
  ms : list handle;
  releasing : list (nat * bool);
  engine_acks : list (nat * bool);
  frees : list nat;
}.
#[export] Instance deliveries_rebuild : Rebuild deliveries := fun w => mkDeliveries (ds w) (ms w) (releasing w) (engine_acks w) (frees w).

(** [handlePublish] once the routes are known, up to the dispatches: the
    handles built, one per route. [inn] is the QoS 1/2 flow. Unless the routes
    are all [zeroCopy] the message is a copy, or keeps a frame that is not
    pooled and which [Release] leaves alone; either way the frame is released
    at once. *)
Definition deliver (w : deliveries) (inn : option nat) (routes : list Z) (zeroCopy : bool) : deliveries * list (Z * nat) :=
  let d := length (ds w) in
  match routes with
  | [] =>
      (w <| ds ::= fun l => l ++ [mkDelivery 0 inn false] |>
         <| engine_acks ::= fun l => match inn with Some _ => l ++ [(d, true)] | None => l end |>
         <| frees ::= fun l => l ++ [d] |>, [])
  | _ :: _ =>
      (w <| ds ::= fun l => l ++ [mkDelivery (len routes) inn zeroCopy] |>
         <| frees ::= fun l => if zeroCopy then l else l ++ [d] |>
         <| ms ::= fun l => l ++ repeat (mkHandle d false) (length routes) |>,
       zip routes (seq (length (ms w)) (length routes)))
  end.

(** [Message.Ack] and [Message.ackOnReader] up to [release]. *)
Definition ack (w : deliveries) (m : nat) (onReader : bool) : deliveries :=
  match ms w !! m with
  | None => w
  | Some h =>
      if m_acked h then w
      else w <| ms ::= <[m := mkHandle (m_d h) true]> |> <| releasing ::= fun l => l ++ [(m_d h, onReader)] |>
  end.

(** [route.dispatch]: a closed route acks, an open one hands the message to
    the application. *)
Definition dispatch (w : deliveries) (closed : bool) (m : nat) : deliveries := if closed then ack w m true else w.

(** [delivery.release], the [i]-th that is under way. *)
Definition release (w : deliveries) (i : nat) : deliveries :=
  match releasing w !! i with
  | None => w
  | Some (d, onReader) =>
      let w := w <| releasing ::= fun l => Delete l i (S i) |> in
      match ds w !! d with
      | None => w
      | Some x =>
          let n := d_refs x - 1 in
          let w := w <| ds ::= <[d := mkDelivery n (d_in x) (if n =? 0 then false else d_frame x)]> |> in
          if n =? 0 then
            let w := match d_in x with Some _ => w <| engine_acks ::= fun l => l ++ [(d, onReader)] |> | None => w end in
            if d_frame x then w <| frees ::= fun l => l ++ [d] |> else w
          else w
      end
  end.

(** Anything may happen in between: messages arrive, the read loop dispatches,
    handlers and consumers ack as often as they like, releases run. *)
Inductive devent : Type :=
| DPublish (inn : option nat) (routes : list Z) (zeroCopy : bool)
| DDispatch (closed : bool) (m : nat)
| DAck (m : nat)
| DRelease (i : nat).

Definition dstep (w : deliveries) (e : devent) : deliveries :=
  match e with
  | DPublish inn routes zc => fst (deliver w inn routes zc)
  | DDispatch closed m => dispatch w closed m
  | DAck m => ack w m false
  | DRelease i => release w i
  end.

Definition no_deliveries : deliveries := mkDeliveries [] [] [] [] [].

(** *** Counting *)

Definition pending_of (d : nat) (h : handle) : Z := if decide (m_d h = d /\ m_acked h = false) then 1 else 0.
Definition pending (d : nat) (l : list handle) : Z := foldr (fun h n => pending_of d h + n) 0 l.
Definition running (d : nat) (w : deliveries) : Z := occ d (releasing w).*1.

Lemma pending_app d l k : pending d (l ++ k) = pending d l + pending d k.
Proof. induction l as [|h l IH]; cbn; [done|]. fold (pending d (l ++ k)) (pending d l). lia. Qed.

Lemma pending_nonneg d l : 0 <= pending d l.
Proof. induction l as [|h l IH]; cbn; [done|]. fold (pending d l). unfold pending_of. destruct (decide _); lia. Qed.

Lemma pending_insert d l m h h' : l !! m = Some h -> pending d (<[m := h']> l) = pending d l - pending_of d h + pending_of d h'.
Proof.
  intros Hm. rewrite <- (take_drop_middle l m h Hm) at 2. rewrite insert_take_drop by (by apply lookup_lt_Some in Hm). rewrite !pending_app. cbn.
  fold (pending d (drop (S m) l)). lia.
Qed.

Lemma pending_repeat d d' n : pending d (repeat (mkHandle d' false) n) = if decide (d' = d) then Z.of_nat n else 0.
Proof. induction n as [|n IH]; cbn [repeat pending foldr]; [by destruct (decide _)|]. fold (pending d (repeat (mkHandle d' false) n)). rewrite IH. unfold pending_of. cbn. destruct (decide (d' = d)), (decide _); try lia; tauto. Qed.

Lemma pending_zero d l : pending d l = 0 <-> forall m h, l !! m = Some h -> m_d h = d -> m_acked h = true.
Proof.
  induction l as [|h l IH]; cbn; [split; [by intros _ [|m] x|done]|]. fold (pending d l). pose proof (pending_nonneg d l). unfold pending_of. split.
  - intros Hz [|m] x Hx Hd; cbn in Hx.
    + injection Hx as <-. destruct (decide _) as [|Hn]; [lia|]. destruct (m_acked h); [done|]. by destruct Hn.
    + assert (Hz' : pending d l = 0) by (destruct (decide _); lia). exact (proj1 IH Hz' m x Hx Hd).
  - intros Hall. rewrite (proj2 IH); [|intros m x Hx; apply (Hall (S m)); done]. destruct (decide _) as [[H1 H2]|]; [|done]. rewrite (Hall 0%nat h eq_refl H1) in H2. done.
Qed.

Record dinv (w : deliveries) : Prop := {
  v_handles : forall m h, ms w !! m = Some h -> is_Some (ds w !! m_d h);
  v_running : forall d b, (d, b) ∈ releasing w -> is_Some (ds w !! d);
  v_refs : forall d x, ds w !! d = Some x -> d_refs x = pending d (ms w) + running d w;
  v_acks : forall d x, ds w !! d = Some x -> occ d (engine_acks w).*1 = if decide (is_Some (d_in x) /\ d_refs x = 0) then 1 else 0;
  v_frees : forall d x, ds w !! d = Some x -> occ d (frees w) = (if d_frame x then 0 else 1) /\ (d_frame x = true -> 0 < d_refs x);
  v_known : forall d, d ∈ (engine_acks w).*1 ++ frees w -> is_Some (ds w !! d);
}.

Lemma lookup_snoc_cases {A} (l : list A) x d y : (l ++ [x]) !! d = Some y -> (d < length l)%nat /\ l !! d = Some y \/ d = length l /\ y = x.
Proof.
  intros H. destruct (decide (d < length l)%nat) as [Hlt|Hge]; [left; by rewrite lookup_app_l in H|]. right. rewrite lookup_app_r in H by lia.
  destruct (d - length l)%nat as [|k] eqn:E; [|done]. cbn in H. injection H as <-. split; [lia|done].
Qed.

Lemma fresh_delivery w : dinv w -> let d := length (ds w) in pending d (ms w) = 0 /\ running d w = 0 /\ occ d (engine_acks w).*1 = 0 /\ occ d (frees w) = 0.
Proof.
  intros [H1 H2 _ _ _ H6] d. assert (Hnone : ~ is_Some (ds w !! d)) by (rewrite lookup_lt_is_Some; lia). split_and!.
  - apply pending_zero. intros m h Hm <-. by destruct Hnone; eapply H1.
  - apply occ_zero. intros ([d' b] & -> & Hin)%list_elem_of_fmap. by destruct Hnone; eapply H2.
  - apply occ_zero. intros Hin. destruct Hnone. apply H6, elem_of_app. by left.
  - apply occ_zero. intros Hin. destruct Hnone. apply H6, elem_of_app. by right.
Qed.

Lemma snoc_some {A} (l : list A) x d : is_Some (l !! d) -> is_Some ((l ++ [x]) !! d).
Proof. rewrite !lookup_lt_is_Some, length_app. lia. Qed.

Lemma snoc_new {A} (l : list A) x : is_Some ((l ++ [x]) !! length l).
Proof. rewrite lookup_lt_is_Some, length_app. cbn. lia. Qed.

Lemma occ_snoc_other (d d' : nat) l : d <> d' -> occ d (l ++ [d']) = occ d l.
Proof. intros Hne. rewrite occ_app, occ_singleton, decide_False by done. lia. Qed.

Lemma deliver_inv w inn routes zc : dinv w -> dinv (fst (deliver w inn routes zc)).
Proof.
  intros V. pose proof (fresh_delivery w V) as (F1 & F2 & F3 & F4). destruct V as [H1 H2 H3 H4 H5 H6]. set (d0 := length (ds w)) in *. unfold deliver. fold d0. destruct routes as [|r routes]; cbn [fst].
  - set (w' := _ <| frees ::= _ |>). assert (Hacks : (engine_acks w').*1 = (engine_acks w).*1 ++ (match inn with Some _ => [d0] | None => [] end)).
    { unfold w'. cbn [engine_acks update]. destruct inn; [by rewrite fmap_app|by rewrite app_nil_r]. }
    split.
    + intros m h Hm. apply snoc_some. exact (H1 m h Hm).
    + intros d b Hd. apply snoc_some. exact (H2 d b Hd).
    + intros d x [[_ Hx]|[-> ->]]%lookup_snoc_cases; [exact (H3 d x Hx)|]. change (0 = pending d0 (ms w) + running d0 w). lia.
    + intros d x [[Hlt Hx]|[-> ->]]%lookup_snoc_cases; rewrite Hacks, occ_app.
      * rewrite (H4 d x Hx). destruct inn; rewrite ?occ_singleton, ?occ_nil; [rewrite (decide_False (P := d = d0)) by (unfold d0; lia)|]; lia.
      * fold d0. rewrite F3. destruct inn; cbn [d_in d_refs].
        -- rewrite occ_singleton, decide_True, decide_True by (done || (split; [by eexists|done])). done.
        -- rewrite occ_nil, decide_False; [done|]. intros [[? ?] _]. done.
    + intros d x [[Hlt Hx]|[-> ->]]%lookup_snoc_cases; change (frees w') with (frees w ++ [d0]).
      * rewrite occ_snoc_other by (unfold d0; lia). exact (H5 d x Hx).
      * fold d0. cbn [d_frame]. rewrite occ_app, F4, occ_singleton, decide_True by done. done.
    + intros d Hin. change (frees w') with (frees w ++ [d0]) in Hin. rewrite Hacks, !elem_of_app, list_elem_of_singleton in Hin. change (ds w') with (ds w ++ [mkDelivery 0 inn false]).
      assert (Hcase : d ∈ (engine_acks w).*1 ++ frees w \/ d = d0) by (rewrite elem_of_app; destruct inn; [rewrite list_elem_of_singleton in Hin|rewrite elem_of_nil in Hin]; tauto).
      destruct Hcase as [Hd| ->]; [by apply snoc_some, H6|apply snoc_new].
  - set (n := length (r :: routes)). set (w' := _ <| ms ::= _ |>).
    assert (Hms : ms w' = ms w ++ repeat (mkHandle d0 false) n) by done. assert (Hds : ds w' = ds w ++ [mkDelivery (len (r :: routes)) inn zc]) by done.
    assert (Hacks : engine_acks w' = engine_acks w) by done. assert (Hrel : releasing w' = releasing w) by done.
    assert (Hfr : frees w' = if zc then frees w else frees w ++ [d0]) by done. clearbody w'.
    assert (Hpos : 0 < len (r :: routes)) by (rewrite len_cons; pose proof (len_nonneg routes); lia). split.
    + intros m h Hm. rewrite Hds. rewrite Hms in Hm. apply lookup_app_Some in Hm as [Hm|[_ Hm]]; [by apply snoc_some, (H1 m)|].
      apply list_elem_of_lookup_2, list_elem_of_In, repeat_spec in Hm as ->. apply snoc_new.
    + intros d b Hd. rewrite Hds. rewrite Hrel in Hd. apply snoc_some. exact (H2 d b Hd).
    + intros d x Hx. rewrite Hds in Hx. unfold running. rewrite Hms, Hrel, pending_app, pending_repeat. apply lookup_snoc_cases in Hx as [[Hlt Hx]|[-> ->]].
      * rewrite decide_False by (unfold d0; lia). rewrite (H3 d x Hx). unfold running. lia.
      * fold d0. rewrite decide_True by done. unfold running in F2. rewrite F1, F2. cbn [d_refs]. unfold len, n. lia.
    + intros d x Hx. rewrite Hds in Hx. rewrite Hacks. apply lookup_snoc_cases in Hx as [[Hlt Hx]|[-> ->]]; [exact (H4 d x Hx)|]. fold d0. rewrite F3, decide_False; [done|]. cbn [d_refs]. lia.
    + intros d x Hx. rewrite Hds in Hx. rewrite Hfr. apply lookup_snoc_cases in Hx as [[Hlt Hx]|[-> ->]].
      * destruct zc; [exact (H5 d x Hx)|]. rewrite occ_snoc_other by (unfold d0; lia). exact (H5 d x Hx).
      * fold d0. cbn [d_frame d_refs]. destruct zc; [done|]. rewrite occ_app, F4, occ_singleton, decide_True by done. done.
    + intros d Hin. rewrite Hds. rewrite Hacks, Hfr, elem_of_app in Hin.
      assert (Hcase : d ∈ (engine_acks w).*1 ++ frees w \/ d = d0) by (rewrite elem_of_app; destruct zc; [tauto|rewrite elem_of_app, list_elem_of_singleton in Hin; tauto]).
      destruct Hcase as [Hd| ->]; [by apply snoc_some, H6|apply snoc_new].
Qed.

Lemma ack_step_inv w m b : dinv w -> dinv (ack w m b).
Proof.
  intros [H1 H2 H3 H4 H5 H6]. unfold ack. destruct (ms w !! m) as [h|] eqn:Hm; [|done]. destruct (m_acked h) eqn:Ha; [done|]. set (w' := _ <| releasing ::= _ |>).
  assert (Hms : ms w' = <[m := mkHandle (m_d h) true]> (ms w)) by done. assert (Hrel : releasing w' = releasing w ++ [(m_d h, b)]) by done.
  assert (Hrest : ds w' = ds w /\ engine_acks w' = engine_acks w /\ frees w' = frees w) by done. clearbody w'. destruct Hrest as (Hds & Hacks & Hfr). split; rewrite ?Hds, ?Hacks, ?Hfr; [| | |done|done|done].
  - intros m' h' Hm'. rewrite Hms in Hm'. apply list_lookup_insert_Some in Hm' as [(_ & <- & _)|[_ Hm']]; [exact (H1 m h Hm)|exact (H1 m' h' Hm')].
  - intros d b' Hd. rewrite Hrel in Hd. apply elem_of_app in Hd as [Hd|Hd]; [exact (H2 d b' Hd)|]. apply list_elem_of_singleton in Hd. injection Hd as -> ->. exact (H1 m h Hm).
  - intros d x Hx. rewrite (H3 d x Hx). unfold running. rewrite Hms, Hrel, (pending_insert d _ m h _ Hm), fmap_app, occ_app. change ([(m_d h, b)].*1) with [m_d h]. rewrite occ_singleton. unfold pending_of. cbn [m_d m_acked].
    rewrite (decide_False (P := m_d h = d /\ true = false)) by (by intros [_ ?]). destruct (decide (d = m_d h)) as [->|Hne].
    + rewrite decide_True by done. lia.
    + rewrite decide_False by (intros [? _]; congruence). lia.
Qed.

Lemma Delete_split {A} (l : list A) i x : l !! i = Some x -> l ≡ₚ x :: Delete l i (S i).
Proof. intros H. unfold Delete. rewrite <- (take_drop_middle l i x H) at 1. by rewrite Permutation_middle. Qed.

Lemma release_step_inv w i : dinv w -> dinv (release w i).
Proof.
  intros [H1 H2 H3 H4 H5 H6]. unfold release. destruct (releasing w !! i) as [[d0 b]|] eqn:Hi; [|done]. pose proof (Delete_split _ _ _ Hi) as Hp.
  set (w1 := w <| releasing ::= _ |>). change (ds w1) with (ds w). destruct (H2 d0 b) as [x0 Hx0]; [rewrite Hp; by left|]. rewrite Hx0.
  set (n := d_refs x0 - 1). set (x1 := mkDelivery n (d_in x0) (if n =? 0 then false else d_frame x0)).
  assert (Hrun : forall d, occ d (releasing w).*1 = (if decide (d = d0) then 1 else 0) + occ d (Delete (releasing w) i (S i)).*1).
  { intros d. rewrite Hp at 1. cbn [fmap list_fmap fst]. by rewrite occ_cons. }
  set (A := if n =? 0 then match d_in x0 with Some _ => [(d0, b)] | None => [] end else []). set (F := if (n =? 0) && d_frame x0 then [d0] else []).
  match goal with |- dinv ?W => set (w' := W) end.
  assert (E : ds w' = <[d0 := x1]> (ds w) /\ ms w' = ms w /\ releasing w' = Delete (releasing w) i (S i) /\ engine_acks w' = engine_acks w ++ A /\ frees w' = frees w ++ F).
  { subst w' A F. destruct (n =? 0); cbn [andb]; [|by rewrite !app_nil_r]. destruct (d_in x0), (d_frame x0); by rewrite ?app_nil_r. }
  clearbody w'. destruct E as (Hds & Hms & Hrel & Hacks & Hfr). clear w1. assert (Hn : n = d_refs x0 - 1) by done. clearbody n.
  assert (Hlt : (d0 < length (ds w))%nat) by by apply lookup_lt_Some in Hx0. assert (Hrefs : 1 <= d_refs x0).
  { rewrite (H3 d0 x0 Hx0). unfold running. rewrite Hrun, decide_True by done. pose proof (pending_nonneg d0 (ms w)). pose proof (occ_nonneg d0 (Delete (releasing w) i (S i)).*1). lia. }
  assert (Hsome : forall d, is_Some (ds w !! d) -> is_Some (ds w' !! d)) by (intros d; rewrite Hds, !lookup_lt_is_Some, length_insert; done).
  assert (Hcase : forall d x, ds w' !! d = Some x -> d = d0 /\ x = x1 \/ d <> d0 /\ ds w !! d = Some x).
  { intros d x Hx. rewrite Hds in Hx. apply list_lookup_insert_Some in Hx as [(<- & <- & _)|[Hne Hx]]; [by left|right; split; [congruence|done]]. }
  assert (HA : forall d, occ d A.*1 = if decide (d = d0 /\ is_Some (d_in x0) /\ n = 0) then 1 else 0).
  { intros d. unfold A. destruct (Z.eqb_spec n 0) as [Hz|Hz]; [|rewrite decide_False by tauto; done]. destruct (d_in x0).
    - cbn. rewrite occ_singleton. destruct (decide (d = d0)); [rewrite decide_True; [done|split; [done|split; [by eexists|done]]]|rewrite decide_False by tauto; done].
    - rewrite decide_False; [done|]. by intros (_ & [? ?] & _). }
  assert (HF : forall d, occ d F = if decide (d = d0 /\ n = 0 /\ d_frame x0 = true) then 1 else 0).
  { intros d. unfold F. destruct (Z.eqb_spec n 0) as [Hz|Hz]; cbn [andb]; [|rewrite decide_False by tauto; done]. destruct (d_frame x0).
    - rewrite occ_singleton. destruct (decide (d = d0)); [rewrite decide_True by done; done|rewrite decide_False by tauto; done].
    - rewrite decide_False; [done|]. by intros (_ & _ & ?). }
  clearbody A F. split.
  - intros m h Hm. rewrite Hms in Hm. apply Hsome. exact (H1 m h Hm).
  - intros d b' Hd. apply Hsome, (H2 d b'). rewrite Hrel in Hd. rewrite Hp. by right.
  - intros d x [[-> ->]|[Hne Hx]]%Hcase; unfold running; rewrite Hms, Hrel.
    + change (d_refs x1) with n. rewrite Hn, (H3 d0 x0 Hx0). unfold running. rewrite Hrun, decide_True by done. lia.
    + rewrite (H3 d x Hx). unfold running. rewrite Hrun, decide_False by done. lia.
  - intros d x [[-> ->]|[Hne Hx]]%Hcase; rewrite Hacks, fmap_app, occ_app, HA.
    + rewrite (H4 d0 x0 Hx0), (decide_False (P := is_Some (d_in x0) /\ d_refs x0 = 0)) by lia. cbn [x1 d_in d_refs]. destruct (decide (d0 = d0 /\ _)), (decide (_ /\ n = 0)); tauto || lia.
    + rewrite (H4 d x Hx), (decide_False (P := d = d0 /\ _)) by tauto. lia.
  - intros d x [[-> ->]|[Hne Hx]]%Hcase; rewrite Hfr, occ_app, HF.
    + destruct (H5 d0 x0 Hx0) as [K1 K2]. rewrite K1. cbn [x1 d_frame d_refs]. destruct (Z.eqb_spec n 0) as [Hz|Hz].
      * split; [|done]. destruct (d_frame x0) eqn:Ef; [rewrite decide_True by done; done|rewrite decide_False by (by intros (_ & _ & ?)); done].
      * rewrite decide_False by tauto. split; [lia|]. intros _. lia.
    + rewrite decide_False by tauto. destruct (H5 d x Hx) as [K1 K2]. split; [lia|done].
  - intros d Hin. rewrite Hacks, Hfr, fmap_app in Hin. apply Hsome. rewrite !elem_of_app in Hin.
    assert (Hd : d ∈ (engine_acks w).*1 ++ frees w \/ d = d0).
    { rewrite elem_of_app. destruct Hin as [[?|Hin]|[?|Hin]]; [by left; left| |by left; right|].
      - apply occ_pos in Hin. rewrite HA in Hin. destruct (decide _) as [[-> _]|]; [by right|lia].
      - apply occ_pos in Hin. rewrite HF in Hin. destruct (decide _) as [[-> _]|]; [by right|lia]. }
    destruct Hd as [Hd| ->]; [by apply H6|by rewrite lookup_lt_is_Some].
Qed.

Lemma dstep_inv w e : dinv w -> dinv (dstep w e).
Proof.
  intros V. destruct e as [inn routes zc|closed m|m|i]; cbn [dstep]; [by apply deliver_inv| |by apply ack_step_inv|by apply release_step_inv].
  unfold dispatch. destruct closed; [by apply ack_step_inv|done].
Qed.

Lemma no_deliveries_inv : dinv no_deliveries.
Proof. split; cbn; try done; [by intros d b []%elem_of_nil|by intros d []%elem_of_nil]. Qed.

(** *** The PUBLISHes and their deliveries *)

(** The PUBLISHes that arrived, in order: the flow, the routes and whether the
    messages alias a frame that goes back to the pool. *)
Record arrival : Type := mkArrival { a_in : option nat; a_routes : list Z; a_zeroCopy : bool }.

Definition arrives (e : devent) : option arrival := match e with DPublish inn routes zc => Some (mkArrival inn routes zc) | _ => None end.
Definition arrivals (es : list devent) : list arrival := omap arrives es.

(** Whether a subscriber may be reading the frame. *)
Definition lends (a : arrival) : bool := a_zeroCopy a && negb (len (a_routes a) =? 0).

Record tied (ps : list arrival) (w : deliveries) : Prop := {
  y_length : length ps = length (ds w);
  y_data d p x : ps !! d = Some p -> ds w !! d = Some x -> d_in x = a_in p /\ d_frame x = lends p && (0 <? d_refs x);
  y_handles d p : ps !! d = Some p -> occ d (m_d <$> ms w) = len (a_routes p);
}.

Lemma handles_repeat d d' n : occ d (m_d <$> repeat (mkHandle d' false) n) = if decide (d = d') then Z.of_nat n else 0.
Proof. induction n as [|n IH]; cbn [repeat fmap list_fmap]; [by destruct (decide _)|]. rewrite occ_cons. cbn [m_d]. rewrite IH. destruct (decide _); lia. Qed.

Lemma no_handles w d : dinv w -> (length (ds w) <= d)%nat -> occ d (m_d <$> ms w) = 0.
Proof.
  intros V Hd. apply occ_zero. intros (h & -> & [m Hm]%list_elem_of_lookup)%list_elem_of_fmap. destruct (v_handles _ V m h Hm) as [x Hx%lookup_lt_Some]. lia.
Qed.

Lemma deliver_tied ps w inn routes zc : dinv w -> tied ps w -> tied (ps ++ [mkArrival inn routes zc]) (fst (deliver w inn routes zc)).
Proof.
  intros V [Y1 Y2 Y3]. pose proof (no_handles w (length (ds w)) V ltac:(lia)) as Hnone. unfold deliver. set (d0 := length (ds w)) in *. destruct routes as [|r routes]; cbn [fst].
  - split.
    + cbn. rewrite !length_app, Y1. done.
    + intros d p x [[Hlp Hp]|[Ep ->]]%lookup_snoc_cases [[Hlt Hx]|[Ed ->]]%lookup_snoc_cases; [by apply (Y2 d)|unfold d0 in *; lia..|]. unfold lends. cbn. by rewrite andb_false_r.
    + intros d p [[Hlp Hp]|[-> ->]]%lookup_snoc_cases; [by apply Y3|]. rewrite Y1. exact Hnone.
  - split.
    + cbn. rewrite !length_app, Y1. done.
    + intros d p x [[Hlp Hp]|[Ep ->]]%lookup_snoc_cases [[Hlt Hx]|[Ed ->]]%lookup_snoc_cases; [by apply (Y2 d)|unfold d0 in *; lia..|]. unfold lends. cbn [d_in d_frame d_refs a_in a_routes a_zeroCopy].
      assert (Hpos : 0 < len (r :: routes)) by (rewrite len_cons; pose proof (len_nonneg routes); lia). split; [done|]. rewrite (proj2 (Z.eqb_neq _ 0)), (proj2 (Z.ltb_lt _ _)) by lia. by destruct zc.
    + intros d p Hp. match goal with |- context [ms ?W] => change (ms W) with (ms w ++ repeat (mkHandle d0 false) (length (r :: routes))) end. rewrite fmap_app, occ_app, handles_repeat.
      apply lookup_snoc_cases in Hp as [[Hlp Hp]|[-> ->]]; [rewrite decide_False by (unfold d0; lia); rewrite (Y3 d p Hp); lia|]. rewrite Y1. fold d0. rewrite decide_True by done. cbn [a_routes]. unfold len. lia.
Qed.

Lemma ack_tied ps w m b : tied ps w -> tied ps (ack w m b).
Proof.
  intros [Y1 Y2 Y3]. unfold ack. destruct (ms w !! m) as [h|] eqn:Hm; [|done]. destruct (m_acked h); [done|]. split; [done|done|].
  intros d p Hp. match goal with |- context [ms ?W] => change (ms W) with (<[m := mkHandle (m_d h) true]> (ms w)) end.
  rewrite list_fmap_insert, list_insert_id; [by apply Y3|]. cbn [m_d]. by rewrite list_lookup_fmap, Hm.
Qed.

Lemma release_tied ps w i : dinv w -> tied ps w -> tied ps (release w i).
Proof.
  intros V [Y1 Y2 Y3]. unfold release. destruct (releasing w !! i) as [[d0 b]|] eqn:Hi; [|done]. pose proof (Delete_split _ _ _ Hi) as Hp.
  set (w1 := w <| releasing ::= _ |>). change (ds w1) with (ds w). destruct (v_running _ V d0 b) as [x0 Hx0]; [rewrite Hp; by left|]. rewrite Hx0.
  set (n := d_refs x0 - 1). match goal with |- tied _ ?W => set (w' := W) end.
  assert (E : ds w' = <[d0 := mkDelivery n (d_in x0) (if n =? 0 then false else d_frame x0)]> (ds w) /\ ms w' = ms w) by (unfold w'; destruct (n =? 0); [destruct (d_in x0), (d_frame x0)|]; done).
  clearbody w'. destruct E as [Hds Hms]. assert (Hrefs : 1 <= d_refs x0).
  { rewrite (v_refs _ V d0 x0 Hx0). unfold running. rewrite Hp. cbn [fmap list_fmap fst]. rewrite occ_cons, decide_True by done.
    pose proof (pending_nonneg d0 (ms w)). pose proof (occ_nonneg d0 (Delete (releasing w) i (S i)).*1). lia. }
  split; rewrite ?Hms, ?Hds; [by rewrite length_insert| |done].
  intros d p x Hpd [(<- & <- & _)|[Hne Hx]]%list_lookup_insert_Some; [|by apply (Y2 d)]. destruct (Y2 d0 p x0 Hpd Hx0) as [-> Hf]. split; [done|]. cbn [d_frame d_refs].
  rewrite Hf, (proj2 (Z.ltb_lt 0 (d_refs x0))), andb_true_r by lia. destruct (Z.eqb_spec n 0) as [->|Hz]; [by rewrite andb_false_r|]. rewrite (proj2 (Z.ltb_lt 0 n)) by (unfold n in *; lia). by rewrite andb_true_r.
Qed.

Lemma deliveries_ok es : forall ps w, dinv w -> tied ps w -> dinv (foldl dstep w es) /\ tied (ps ++ arrivals es) (foldl dstep w es).
Proof.
  induction es as [|e es IH]; intros ps w V Y; cbn [foldl]; [unfold arrivals; cbn; by rewrite app_nil_r|].
  assert (Y' : tied (ps ++ option_list (arrives e)) (dstep w e)).
  { destruct e as [inn routes zc|closed m|m|i]; cbn; rewrite ?app_nil_r; [by apply deliver_tied| |by apply ack_tied|by apply release_tied]. unfold dispatch. destruct closed; [by apply ack_tied|done]. }
  destruct (IH _ _ (dstep_inv w e V) Y') as [H1 H2]. split; [done|]. rewrite <- app_assoc in H2. unfold arrivals in *. cbn. by destruct (arrives e).
Qed.

(** C23: a PUBLISH is acknowledged once, when everyone it reached is done with
    it, and its frame is kept as long. However dispatches, repeated Acks from
    any goroutine and the releases they start interleave, a PUBLISH has one
    handle per subscription it reached, and it is finished when every one of
    them is acked and no release of it is under way. One of QoS 1 or 2 has been
    acknowledged to the engine exactly when it is finished, never twice. Its
    frame is released once; if it reached a subscription and those it reached
    take the frame itself ([zeroCopy]), the frame has been released exactly when
    the PUBLISH is finished, and otherwise at once. *)
Theorem delivery_acked_once es d p :
  let w := foldl dstep no_deliveries es in
  arrivals es !! d = Some p ->
  let finished := (forall m h, ms w !! m = Some h -> m_d h = d -> m_acked h = true) /\ (forall b, (d, b) ∉ releasing w) in
  occ d (m_d <$> ms w) = len (a_routes p)
  /\ occ d (engine_acks w).*1 <= 1
  /\ (occ d (engine_acks w).*1 = 1 <-> is_Some (a_in p) /\ finished)
  /\ occ d (frees w) <= 1
  /\ (occ d (frees w) = 1 <-> finished \/ a_zeroCopy p = false \/ a_routes p = []).
Proof.
  intros w Hp finished. destruct (deliveries_ok es [] no_deliveries no_deliveries_inv) as [V Y]; [split; done|]. fold w in V, Y. cbn [app] in Y. clearbody w.
  destruct (lookup_lt_is_Some_2 (ds w) d) as [x Hx]; [rewrite <- (y_length _ _ Y); by apply lookup_lt_Some in Hp|].
  destruct (y_data _ _ Y d p x Hp Hx) as [Ei Ef]. pose proof (y_handles _ _ Y d p Hp) as Hh. destruct V as [_ _ H3 H4 H5 _].
  specialize (H3 d x Hx). specialize (H4 d x Hx). destruct (H5 d x Hx) as [H51 _]. pose proof (pending_nonneg d (ms w)) as Hpn. pose proof (occ_nonneg d (releasing w).*1) as Hr. fold (running d w) in Hr.
  assert (Hfin : finished <-> d_refs x = 0).
  { unfold finished. rewrite <- (pending_zero d (ms w)), H3. assert (Hrun : (forall b, (d, b) ∉ releasing w) <-> running d w = 0).
    { unfold running. rewrite occ_zero. split.
      - intros Hn ([d' b] & -> & Hin)%list_elem_of_fmap. exact (Hn b Hin).
      - intros Hn b Hin. apply Hn, list_elem_of_fmap. by exists (d, b). }
    rewrite Hrun. lia. }
  clearbody finished. rewrite <- Ei. split_and!.
  - done.
  - rewrite H4. destruct (decide _); lia.
  - rewrite H4, Hfin. destruct (decide (is_Some (d_in x) /\ d_refs x = 0)); split; done || lia.
  - rewrite H51. destruct (d_frame x); lia.
  - rewrite H51, Hfin, Ef. unfold lends. destruct (a_zeroCopy p); cbn [andb]; [|by split; auto].
    destruct (Z.eqb_spec (len (a_routes p)) 0) as [E0%len_0_nil|E0]; cbn [negb andb]; [by split; auto|].
    destruct (Z.ltb_spec 0 (d_refs x)); split; try done; [|left; lia]. intros [?|[?|E]]; [lia|done|]. by rewrite E in E0.
Qed.

(** ** Topic aliases of a connection *)

Inductive alias_verdict : Type := AliasOk (topic : list Z) | AliasViolation (reason : Z).

(** [resolveTopicAlias]: the alias the PUBLISH carries, if any, and its
    topic. *)
Definition resolveTopicAlias (maximum : Z) (aliasMap : gmap Z (list Z)) (alias : option Z) (topic : list Z) : gmap Z (list Z) * alias_verdict :=
  match alias with
  | None => (aliasMap, AliasOk topic)
  | Some a =>
      if (a =? 0) || (maximum <? a) then (aliasMap, AliasViolation 0x94)
      else match topic with
      | _ :: _ => (<[a := topic]> aliasMap, AliasOk topic)
      | [] => match aliasMap !! a with
              | Some t => (aliasMap, AliasOk t)
              | None => (aliasMap, AliasViolation 0x82)
              end
      end
  end.

(** The PUBLISHes of a connection so far. *)
Definition aliases (maximum : Z) (ps : list (option Z * list Z)) : gmap Z (list Z) :=
  foldl (fun m p => fst (resolveTopicAlias maximum m p.1 p.2)) ∅ ps.

(** The last topic a connection named with an alias. *)
Definition last_named (a : Z) (ps : list (option Z * list Z)) : option (list Z) :=
  foldl (fun r p => if decide (p.1 = Some a /\ p.2 <> []) then Some p.2 else r) None ps.

Lemma aliases_last maximum a : 1 <= a <= maximum -> forall ps, aliases maximum ps !! a = last_named a ps.
Proof.
  intros Ha ps. unfold aliases, last_named. assert (H : forall (m : gmap Z (list Z)) r, m !! a = r ->
    foldl (fun m p => fst (resolveTopicAlias maximum m p.1 p.2)) m ps !! a = foldl (fun r p => if decide (p.1 = Some a /\ p.2 <> []) then Some p.2 else r) r ps).
  { induction ps as [|[al t] ps IH]; intros m r Hm; cbn [foldl]; [done|]. apply IH. unfold resolveTopicAlias. cbn [fst snd]. destruct al as [b|]; [|by rewrite decide_False by (by intros [? _])].
    destruct (Z.eqb_spec b 0), (Z.ltb_spec maximum b); cbn [orb fst]; try (rewrite decide_False by (intros [[= ->] _]; lia); done).
    destruct t as [|z t]; [rewrite decide_False by tauto; by destruct (m !! b)|]. cbn [fst]. destruct (decide (b = a)) as [->|Hne].
    - rewrite decide_True by done. apply lookup_insert_eq.
    - rewrite decide_False by (intros [[= ->] _]; done). by rewrite lookup_insert_ne. }
  apply H. apply lookup_empty.
Qed.

(** Topic aliases resolve to what the connection last named with them.
    Whatever PUBLISHes came before on the connection, one with a topic is taken
    as it is and one without resolves to the topic last sent with its alias;
    an alias that is 0 or beyond the advertised maximum is refused with 0x94
    and one never named with 0x82, and neither changes the map. *)
Theorem alias_resolution_exact maximum ps a topic :
  0 <= a ->
  let aliasMap := aliases maximum ps in
  resolveTopicAlias maximum aliasMap None topic = (aliasMap, AliasOk topic)
  /\ resolveTopicAlias maximum aliasMap (Some a) topic =
     if decide (1 <= a <= maximum) then
       match topic, last_named a ps with
       | _ :: _, _ => (<[a := topic]> aliasMap, AliasOk topic)
       | [], Some t => (aliasMap, AliasOk t)
       | [], None => (aliasMap, AliasViolation 0x82)
       end
     else (aliasMap, AliasViolation 0x94).
Proof.
  intros H0. cbn zeta. split; [done|]. unfold resolveTopicAlias. destruct (decide (1 <= a <= maximum)) as [Ha|Ha].
  - rewrite <- (aliases_last maximum a Ha ps), (proj2 (Z.eqb_neq a 0)), (proj2 (Z.ltb_ge maximum a)) by lia. done.
  - destruct (Z.eqb_spec a 0), (Z.ltb_spec maximum a); try done. lia.
Qed.

(** ** Witnesses *)

(** Two live subscriptions with a filter that matches, one by a wildcard:
    without identifiers both get a message, one tagged with the identifier of
    one only that one, and one tagged as only an earlier process could have,
    both again. *)
Definition morning : list event :=
  [EUp true true true 0 false; ESubscribe [wfilter "a/+" 1] false false; ESubscribe [wfilter "$share/g/a/b" 2] true false].
Definition morning_end : machine := default start (@run stale_pool start morning).

Lemma morning_runs : @run stale_pool start morning = Some morning_end.
Proof. vm_compute. reflexivity. Qed.

Lemma routing_exact_witness :
  @run stale_pool start morning = Some morning_end /\ total morning < MaxVarintValue
  /\ select_routes (cl morning_end) (str "a/b") [] = [1; 2] /\ select_routes (cl morning_end) (str "a/b") [9] = [1; 2]
  /\ select_routes (cl morning_end) (str "a/b") [2] = [2]
  /\ NoDup (select_routes (cl morning_end) (str "a/b") [2]).
Proof.
  assert (Hn : total morning < MaxVarintValue) by reflexivity. split; [exact morning_runs|]. split; [exact Hn|].
  split; [vm_compute; reflexivity|]. split; [vm_compute; reflexivity|]. split; [vm_compute; reflexivity|].
  exact (proj1 (@routing_exact stale_pool morning morning_end (str "a/b") [2] morning_runs Hn)).
Defined.

(** A QoS 1 message for two subscriptions, one of which is closed by now; the
    other consumer acks twice. *)
Definition shared_delivery : list devent := [DPublish (Some 7%nat) [1; 2] true; DDispatch true 1; DDispatch false 0; DAck 0; DRelease 1; DAck 0; DRelease 0].

Lemma delivery_acked_once_witness :
  arrivals shared_delivery !! 0%nat = Some (mkArrival (Some 7%nat) [1; 2] true)
  /\ (let w := foldl dstep no_deliveries shared_delivery in
      engine_acks w = [(0%nat, true)] /\ frees w = [0%nat] /\ occ 0%nat (engine_acks w).*1 <= 1)
  /\ (let w := foldl dstep no_deliveries (take 5 shared_delivery) in
      engine_acks w = [] /\ frees w = [] /\ occ 0%nat (frees w) <= 1).
Proof.
  assert (E : arrivals shared_delivery !! 0%nat = Some (mkArrival (Some 7%nat) [1; 2] true)) by reflexivity.
  assert (E5 : arrivals (take 5 shared_delivery) !! 0%nat = Some (mkArrival (Some 7%nat) [1; 2] true)) by reflexivity.
  split; [exact E|]. split; (split; [reflexivity|split; [reflexivity|]]).
  - exact (proj1 (proj2 (delivery_acked_once shared_delivery 0%nat _ E))).
  - exact (proj1 (proj2 (proj2 (proj2 (delivery_acked_once (take 5 shared_delivery) 0%nat _ E5))))).
Defined.

Lemma alias_resolution_exact_witness :
  0 <= 3
  /\ snd (resolveTopicAlias 10 (aliases 10 [(Some 3, str "a"); (Some 4, str "b"); (Some 3, str "c")]) (Some 3) []) = AliasOk (str "c").
Proof.
  split; [lia|]. destruct (alias_resolution_exact 10 [(Some 3, str "a"); (Some 4, str "b"); (Some 3, str "c")] 3 [] ltac:(lia)) as [_ H]. rewrite H. reflexivity.
Defined.

End Dispatch.
