(* ===== verification/SubQueue.v ===== *)
(** * SubQueue: the queue of a queue subscription (subscribe.go)

    [Queue[T]]: a linked list with its tail and count, bounded pushes and a
    [Dequeue] that waits for one token of [notify]. Nodes are names in a heap.
    The queue is a first-in first-out list, and its one consumer never sleeps
    over an item. *)

From stdpp Require Import gmap.
From S2P Require Import Prelude GoLib.

Module SubQueue.

Section queue.
Context {A : Type}.

(** [queueNode] *)
Record node : Type := mkNode { value : A; next : option Z }.

(** [Queue]; [notify] says whether the channel of that name holds its token,
    [done] whether the one of that name is closed. *)
Record Queue : Type := mkQueue {
  nodes : gmap Z node;
  next_node : Z;
  head : option Z;
  tail : option Z;
  count : Z;
  notify : bool;
  done : bool;
  closed : bool;
}.
#[export] Instance Queue_rebuild : Rebuild Queue := fun q =>
  mkQueue (nodes q) (next_node q) (head q) (tail q) (count q) (notify q) (done q) (closed q).

(** [NewQueue] *)
Definition NewQueue : Queue := mkQueue ∅ 0 None None 0 false false false.

(** The lines [Enqueue] and [push] share: a node at the tail. *)
Definition append_node (q : Queue) (item : A) : Queue :=
  let n := next_node q in
  let q := q <| nodes ::= <[n := mkNode item None]> |> <| next_node := n + 1 |> in
  let q := match tail q with
           | None => q <| head := Some n |>
           | Some t => q <| nodes ::= alter (fun x => mkNode (value x) (Some n)) t |>
           end in
  q <| tail := Some n |> <| count ::= Z.succ |>.

(** The send on [notify] that does not block. *)
Definition signal (q : Queue) : Queue := q <| notify := true |>.

(** [popLocked] *)
Definition popLocked (q : Queue) : Queue * option A :=
  match head q with
  | None => (q, None)
  | Some n =>
      match nodes q !! n with
      | None => (q, None)
      | Some x =>
          let q := q <| head := next x |> in
          let q := match head q with None => q <| tail := None |> | Some _ => q end in
          let q := q <| count ::= Z.pred |> in
          (q <| nodes ::= alter (fun x => mkNode (value x) None) n |>, Some (value x))
      end
  end.

(** The critical section of [Enqueue], and whether it signals. *)
Definition enqueue_locked (q : Queue) (item : A) : Queue * bool := if closed q then (q, false) else (append_node q item, true).

(** The critical section of [push]: what was evicted, and whether the item
    was accepted and is signalled. *)
Definition push_locked (q : Queue) (item : A) (max : Z) (dropOldest : bool) : Queue * (option A * bool) :=
  if closed q then (q, (None, false))
  else if (0 <? max) && (max <=? count q) then
    if negb dropOldest then (q, (None, false))
    else let (q, evicted) := popLocked q in (append_node q item, (evicted, true))
  else (append_node q item, (None, true)).

(** [Enqueue], [push], [TryDequeue], [Len] and [Close] *)
Definition Enqueue (q : Queue) (item : A) : Queue * bool :=
  let (q, ok) := enqueue_locked q item in ((if ok then signal q else q), ok).

Definition push (q : Queue) (item : A) (max : Z) (dropOldest : bool) : Queue * (option A * bool) :=
  let '(q, (evicted, accepted)) := push_locked q item max dropOldest in ((if accepted then signal q else q), (evicted, accepted)).

Definition TryDequeue (q : Queue) : Queue * option A := popLocked q.

Definition Len (q : Queue) : Z := count q.

Definition Close (q : Queue) : Queue := if closed q then q else q <| closed := true |> <| done := true |>.

(** ** The list it stands for *)

Fixpoint chain (m : gmap Z node) (h : option Z) (l : list (Z * A)) : Prop :=
  match l with
  | [] => h = None
  | (n, v) :: l => h = Some n /\ exists nx, m !! n = Some (mkNode v nx) /\ chain m nx l
  end.

Record represents (q : Queue) (ns : list (Z * A)) : Prop := {
  r_chain : chain (nodes q) (head q) ns;
  r_nodup : NoDup ns.*1;
  r_tail : tail q = last ns.*1;
  r_count : count q = len ns;
  r_fresh : forall n, n ∈ ns.*1 -> n < next_node q;
}.

(** The items, first to last. *)
Definition holds (q : Queue) (l : list A) : Prop := exists ns, represents q ns /\ l = ns.*2.

Lemma chain_frame m m' l : forall h, (forall n, n ∈ l.*1 -> m' !! n = m !! n) -> chain m h l -> chain m' h l.
Proof.
  induction l as [|[n v] l IH]; intros h Hm; cbn; [done|]. intros [-> (nx & Hn & Hc)]. split; [done|]. exists nx. split; [rewrite Hm; [done|by left]|].
  apply IH; [|done]. intros k Hk. apply Hm. by right.
Qed.

Lemma last_fst_cons (p : Z * A) (L : list (Z * A)) : L <> [] -> last (p :: L).*1 = last L.*1.
Proof. by destruct L. Qed.

Lemma chain_snoc m n v l : forall h,
  chain m h l -> NoDup l.*1 -> n ∉ l.*1 -> m !! n = Some (mkNode v None) ->
  chain (match last l.*1 with Some t => alter (fun x => mkNode (value x) (Some n)) t m | None => m end)
    (match last l.*1 with Some _ => h | None => Some n end) (l ++ [(n, v)]).
Proof.
  induction l as [|[k w] l IH]; intros h Hc Hnd Hn Hm; [cbn; split; [done|]; by exists None|]. destruct Hc as [-> (nx & Hk & Hc)]. change (NoDup (k :: l.*1)) in Hnd. change (n ∉ k :: l.*1) in Hn. apply NoDup_cons in Hnd as [Hkl Hnd].
  apply not_elem_of_cons in Hn as [Hnk Hn]. specialize (IH nx Hc Hnd Hn Hm). destruct l as [|[k' w'] l'].
  - cbn in *. split; [done|]. subst nx. exists (Some n). rewrite lookup_alter_eq, Hk. split; [done|]. split; [done|]. exists None. by rewrite lookup_alter_ne.
  - remember ((k', w') :: l') as L eqn:EL. rewrite last_fst_cons by (by subst L). destruct (last L.*1) as [t|] eqn:Et; [|apply last_None in Et; by subst L].
    cbn [app chain]. split; [done|]. exists nx. split; [|exact IH]. rewrite lookup_alter_ne; [done|]. intros Hkt. apply Hkl. rewrite <- Hkt. apply last_Some in Et as [l1 Et]. rewrite Et. apply elem_of_app. right. by left.
Qed.

Lemma append_holds q l x : holds q l -> holds (append_node q x) (l ++ [x]).
Proof.
  intros (ns & [H1 H2 H3 H4 H5] & ->). exists (ns ++ [(next_node q, x)]). split; [|by rewrite fmap_app].
  assert (Hn : next_node q ∉ ns.*1) by (intros Hin; specialize (H5 _ Hin); lia).
  pose proof (chain_snoc (<[next_node q := mkNode x None]> (nodes q)) (next_node q) x ns (head q)) as Hs.
  specialize (Hs ltac:(apply (chain_frame (nodes q)); [intros n Hin; rewrite lookup_insert_ne; [done|]; intros E; apply Hn; by rewrite E|done]) H2 Hn (lookup_insert_eq _ _ _)).
  set (n := next_node q) in *.
  assert (E : nodes (append_node q x) = match tail q with Some t => alter (fun y => mkNode (value y) (Some n)) t (<[n := mkNode x None]> (nodes q)) | None => <[n := mkNode x None]> (nodes q) end
    /\ head (append_node q x) = match tail q with Some _ => head q | None => Some n end
    /\ tail (append_node q x) = Some n /\ count (append_node q x) = count q + 1 /\ next_node (append_node q x) = n + 1).
  { unfold append_node. fold n. change (tail (_ <| next_node := _ |>)) with (tail q). by destruct (tail q). }
  destruct E as (E1 & E2 & E3 & E4 & E5). split.
  - rewrite E1, E2, H3. exact Hs.
  - rewrite fmap_app. apply NoDup_app. split; [done|]. split; [|apply NoDup_singleton]. intros k Hk E%list_elem_of_singleton. by rewrite E in Hk.
  - rewrite E3, fmap_app. symmetry. apply last_snoc.
  - rewrite E4, H4, len_app. done.
  - intros k. rewrite E5, fmap_app, elem_of_app. intros [Hin|Hin]; [specialize (H5 k Hin); lia|]. apply list_elem_of_singleton in Hin as ->. cbn. lia.
Qed.

Lemma pop_holds q l : holds q l ->
  match l with
  | [] => popLocked q = (q, None)
  | x :: l => exists q', popLocked q = (q', Some x) /\ holds q' l /\ notify q' = notify q /\ done q' = done q /\ closed q' = closed q
  end.
Proof.
  intros (ns & [H1 H2 H3 H4 H5] & ->). destruct ns as [|[n v] ns]; cbn [fmap list_fmap fst snd]; [cbn in H1; unfold popLocked; by rewrite H1|].
  destruct H1 as [Hh (nx & Hn & Hc)]. unfold popLocked. rewrite Hh, Hn. cbn [next value]. eexists. split; [done|].
  apply NoDup_cons in H2 as [Hnn Hnd]. split.
  - exists ns. split; [|done]. assert (Ht : last ns.*1 = match nx with None => None | Some _ => tail q end).
    { destruct ns as [|[k w] ns']; cbn in Hc; [by subst nx|]. destruct Hc as [-> _]. rewrite H3. remember ((k, w) :: ns') as L eqn:EL.
      rewrite last_fst_cons; by subst L. }
    destruct nx as [k|]; (split; [|done|by rewrite Ht|rewrite len_cons in H4; cbn; lia|intros k' Hk'; apply H5; by right]);
      cbn; (apply (chain_frame (nodes q)); [intros k' Hk'; rewrite lookup_alter_ne; [done|]; intros ->; done|done]).
  - destruct nx; done.
Qed.
End queue.
Arguments Queue : clear implicits.

(** ** First in, first out *)

Inductive op {A : Type} : Type :=
| OEnqueue (item : A)
| OPush (item : A) (max : Z) (dropOldest : bool)
| OTryDequeue
| OLen
| OClose.
Arguments op : clear implicits.

Inductive result {A : Type} : Type :=
| RBool (b : bool)
| RPush (evicted : option A) (accepted : bool)
| RItem (x : option A)
| RLen (n : Z)
| RUnit.
Arguments result : clear implicits.

Section fifo.
Context {A : Type}.
Implicit Types (q : Queue A) (l : list A).

Definition apply_op q (o : op A) : Queue A * result A :=
  match o with
  | OEnqueue x => let (q, ok) := Enqueue q x in (q, RBool ok)
  | OPush x max dropOldest => let '(q, (evicted, accepted)) := push q x max dropOldest in (q, RPush evicted accepted)
  | OTryDequeue => let (q, x) := TryDequeue q in (q, RItem x)
  | OLen => (q, RLen (Len q))
  | OClose => (Close q, RUnit)
  end.

(** What the documentation promises: a list, bounded at each push, that takes
    nothing more once closed and is still read to its end. *)
Definition fifo_op (s : list A * bool) (o : op A) : list A * bool * result A :=
  let (l, closed) := s in
  match o with
  | OEnqueue x => if closed then (s, RBool false) else ((l ++ [x], closed), RBool true)
  | OPush x max dropOldest =>
      if closed then (s, RPush None false)
      else if decide (0 < max <= len l) then
        if dropOldest then ((drop 1 l ++ [x], closed), RPush (hd_error l) true) else (s, RPush None false)
      else ((l ++ [x], closed), RPush None true)
  | OTryDequeue => ((drop 1 l, closed), RItem (hd_error l))
  | OLen => (s, RLen (len l))
  | OClose => ((l, true), RUnit)
  end.

Fixpoint run_queue q (ops : list (op A)) : list (result A) :=
  match ops with [] => [] | o :: ops => let (q, r) := apply_op q o in r :: run_queue q ops end.

Fixpoint run_fifo (s : list A * bool) (ops : list (op A)) : list (result A) :=
  match ops with [] => [] | o :: ops => let (s, r) := fifo_op s o in r :: run_fifo s ops end.

Definition simulates q (s : list A * bool) : Prop := holds q s.1 /\ closed q = s.2.

Lemma holds_count q l : holds q l -> count q = len l.
Proof. intros (ns & H & ->). rewrite (r_count _ _ H). unfold len. by rewrite length_fmap. Qed.

Lemma holds_signal q l : holds q l -> holds (signal q) l.
Proof. intros (ns & [] & ->). exists ns. by split. Qed.

Lemma append_closed q x : closed (append_node q x) = closed q /\ notify (append_node q x) = notify q /\ done (append_node q x) = done q.
Proof. unfold append_node. change (tail (_ <| next_node := _ |>)) with (tail q). by destruct (tail q). Qed.

Lemma pop_spec q l : holds q l -> exists q', popLocked q = (q', hd_error l) /\ holds q' (drop 1 l) /\ notify q' = notify q /\ done q' = done q /\ closed q' = closed q.
Proof.
  intros H. pose proof (pop_holds q l H) as Hp. destruct l as [|x l]; [exists q; done|]. exact Hp.
Qed.

(** [push] on the list. *)
Lemma push_spec q l x max (dropOldest : bool) : holds q l -> closed q = false ->
  exists q', closed q' = false /\
  if decide (0 < max <= len l) then
    if dropOldest then push q x max dropOldest = (q', (hd_error l, true)) /\ holds q' (drop 1 l ++ [x])
    else push q x max dropOldest = (q, (None, false)) /\ q' = q
  else push q x max dropOldest = (q', (None, true)) /\ holds q' (l ++ [x]).
Proof.
  intros H Hc. unfold push, push_locked. rewrite Hc, (holds_count q l H). assert (Hb : (0 <? max) && (max <=? len l) = bool_decide (0 < max <= len l)).
  { apply eq_true_iff_eq. rewrite andb_true_iff, Z.ltb_lt, Z.leb_le. symmetry. apply bool_decide_eq_true. }
  rewrite Hb. destruct (decide (0 < max <= len l)) as [Hm|Hm].
  - rewrite bool_decide_eq_true_2 by done. destruct dropOldest; cbn [negb]; [|by exists q]. destruct (pop_spec q l H) as (q1 & -> & H1 & _ & _ & Hc1).
    exists (signal (append_node q1 x)). split; [change (closed (append_node q1 x) = false); destruct (append_closed q1 x) as (-> & _); congruence|]. split; [done|]. by apply holds_signal, append_holds.
  - rewrite bool_decide_eq_false_2 by done. exists (signal (append_node q x)). split; [change (closed (append_node q x) = false); destruct (append_closed q x) as (-> & _); congruence|].
    split; [done|]. by apply holds_signal, append_holds.
Qed.

Lemma op_simulates q s o : simulates q s -> simulates (fst (apply_op q o)) (fst (fifo_op s o)) /\ snd (apply_op q o) = snd (fifo_op s o).
Proof.
  destruct s as [l cl]. intros [H Hc]. cbn [fst snd] in *. destruct o as [x|x max dropOldest| | |]; cbn [apply_op fifo_op].
  - unfold Enqueue, enqueue_locked. rewrite Hc. destruct cl; [done|]. split; [|done]. split; [by apply holds_signal, append_holds|]. change (closed (append_node q x) = false). destruct (append_closed q x) as (-> & _). done.
  - destruct cl; [unfold push, push_locked; by rewrite Hc|]. destruct (push_spec q l x max dropOldest H Hc) as (q' & Hc' & Hp).
    destruct (decide (0 < max <= len l)); [destruct dropOldest|]; destruct Hp as [-> Hp]; [done| |done]. subst q'. done.
  - destruct (pop_spec q l H) as (q' & E & H' & _ & _ & Hc'). unfold TryDequeue. rewrite E. cbn. split; [|done]. split; [done|cbn; congruence].
  - split; [done|]. cbn. unfold Len. by rewrite (holds_count q l H).
  - split; [|done]. unfold Close. destruct (closed q) eqn:E; [by split|]. split; [|done]. destruct H as (ns & [] & ->). exists ns. by split.
Qed.

Lemma empty_simulates : simulates NewQueue ([], false).
Proof. split; [|done]. exists []. split; [|done]. split; cbn; try done; [constructor|by intros n ?%elem_of_nil]. Qed.

Lemma run_simulates ops : forall q s, simulates q s -> run_queue q ops = run_fifo s ops.
Proof.
  induction ops as [|o ops IH]; intros q s H; [done|]. cbn [run_queue run_fifo]. destruct (op_simulates q s o H) as [Hs Hr].
  destruct (apply_op q o) as [q' r], (fifo_op s o) as [s' r']. cbn [fst snd] in *. subst r'. f_equal. by apply IH.
Qed.
End fifo.

(** C38: a subscription's queue is a bounded first-in first-out list. Whatever
    calls of [Enqueue], [push] with any bound and policy, [TryDequeue], [Len]
    and [Close] follow one another on a new queue, the linked list answers as
    the list of its items would: in order, refusing or evicting the oldest at
    the bound, taking nothing once closed and giving what it held. *)
Theorem subscriber_queue_refines {A} (ops : list (op A)) : run_queue NewQueue ops = run_fifo ([], false) ops.
Proof. apply run_simulates, empty_simulates. Qed.

(** ** Waiting *)

(** The queue, how many producers are between their critical section and the
    signal, whether the one consumer sleeps in the select of [Dequeue], and
    what its calls returned. *)
Record waitroom {A : Type} : Type := mkRoom { room_q : Queue A; signalling : nat; asleep : bool; returned : list (option A) }.
Arguments waitroom : clear implicits.
Arguments mkRoom {A} _ _ _ _.

Inductive qevent {A : Type} : Type :=
| WEnqueue (x : A)                               (* the critical section of Enqueue *)
| WPush (x : A) (max : Z) (dropOldest : bool)    (* ... and of push *)
| WSignal                                        (* their select *)
| WClose
| WDequeue                                       (* the consumer calls Dequeue *)
| WToken | WDone | WCancel                       (* its select wakes: notify, done, ctx *)
| WTry.                                          (* it calls TryDequeue *)
Arguments qevent : clear implicits.

Section waiting.
Context {A : Type}.
Implicit Types (w : waitroom A).

(** One round of [Dequeue]'s loop, up to its select. *)
Definition dequeue_round w : waitroom A :=
  let (q, x) := popLocked (room_q w) in
  match x with
  | Some x => mkRoom q (signalling w) false (returned w ++ [Some x])
  | None => if closed q then mkRoom q (signalling w) false (returned w ++ [None]) else mkRoom q (signalling w) true (returned w)
  end.

Definition qstep w (e : qevent A) : waitroom A :=
  let q := room_q w in
  match e with
  | WEnqueue x => let (q, ok) := enqueue_locked q x in mkRoom q (if ok then S (signalling w) else signalling w) (asleep w) (returned w)
  | WPush x max dropOldest =>
      let '(q, (_, accepted)) := push_locked q x max dropOldest in mkRoom q (if accepted then S (signalling w) else signalling w) (asleep w) (returned w)
  | WSignal => match signalling w with O => w | S n => mkRoom (signal q) n (asleep w) (returned w) end
  | WClose => mkRoom (Close q) (signalling w) (asleep w) (returned w)
  | WDequeue => if asleep w then w else dequeue_round w
  | WToken => if asleep w && notify q then dequeue_round (mkRoom (q <| notify := false |>) (signalling w) (asleep w) (returned w)) else w
  | WDone => if asleep w && done q then dequeue_round w else w
  | WCancel => if asleep w then mkRoom q (signalling w) false (returned w ++ [None]) else w
  | WTry => if asleep w then w else let (q, x) := TryDequeue q in mkRoom q (signalling w) false (returned w ++ [x])
  end.

Definition empty_room : waitroom A := mkRoom NewQueue 0 false [].

(** The items, and that a sleeping consumer will be woken for them. *)
Record awake w : Prop := {
  k_items : exists l, holds (room_q w) l /\ (asleep w = true -> l <> [] -> notify (room_q w) = true \/ (0 < signalling w)%nat);
  k_done : done (room_q w) = closed (room_q w);
}.

Lemma append_some q (x : A) l : holds q l -> exists l', holds (append_node q x) l'.
Proof. intros H. eexists. by apply append_holds. Qed.

Lemma round_awake w : awake w -> awake (dequeue_round w).
Proof.
  intros [(l & Hl & Hw) Hd]. unfold dequeue_round. destruct (pop_spec _ l Hl) as (q' & -> & Hl' & Hn & Hd' & Hc). destruct l as [|x l]; cbn [hd_error].
  - destruct (closed q') eqn:E; (split; cbn [room_q asleep]; [exists []; split; [exact Hl'|]; intros; done|congruence]).
  - split; cbn [room_q asleep]; [exists l; split; [exact Hl'|]; intros; done|congruence].
Qed.

Lemma added_awake w q x : awake w -> (exists l, holds q l) -> notify q = notify (room_q w) -> done q = done (room_q w) -> closed q = closed (room_q w) ->
  awake (mkRoom (append_node q x) (S (signalling w)) (asleep w) (returned w)).
Proof.
  intros [_ Hd] [l Hl] Hn Hdn Hc. destruct (append_closed q x) as (E1 & E2 & E3). split; cbn [room_q asleep signalling]; [|congruence].
  eexists. split; [by apply append_holds|]. intros _ _. right. lia.
Qed.

Lemma qstep_awake w e : awake w -> awake (qstep w e).
Proof.
  intros K. pose proof K as [(l & Hl & Hw) Hd]. destruct e as [x|x max dropOldest| | | | | | |]; cbn [qstep].
  - unfold enqueue_locked. destruct (closed (room_q w)) eqn:E; [destruct w; exact K|]. apply added_awake; eauto.
  - unfold push_locked. destruct (closed (room_q w)) eqn:E; [destruct w; exact K|]. destruct (_ && _); [|apply added_awake; eauto]. destruct dropOldest; cbn [negb]; [|destruct w; exact K].
    destruct (pop_spec _ l Hl) as (q' & -> & Hl' & Hn & Hd' & Hc). apply added_awake; eauto.
  - destruct (signalling w) as [|n] eqn:E; [done|]. split; [|exact Hd]. cbn [room_q asleep]. exists l. split; [by apply holds_signal|]. intros _ _. by left.
  - split; cbn [room_q asleep signalling]; unfold Close; destruct (closed (room_q w)) eqn:E; [eauto| |congruence|done]. exists l. split; [|exact Hw]. destruct Hl as (ns & [] & ->). exists ns. by split.
  - destruct (asleep w); [done|by apply round_awake].
  - destruct (asleep w && notify (room_q w)) eqn:E; [|done]. apply andb_true_iff in E as [E1 E2].
    unfold dequeue_round. cbn [room_q signalling returned]. assert (Hl0 : holds ((room_q w) <| notify := false |>) l) by (destruct Hl as (ns & [] & ->); exists ns; by split).
    destruct (pop_spec _ l Hl0) as (q' & -> & Hl' & Hn & Hd' & Hc). cbn in Hd', Hc. destruct l as [|x l]; cbn [hd_error].
    + destruct (closed q') eqn:Eq; (split; cbn [room_q asleep]; [exists []; split; [exact Hl'|]; intros; done|congruence]).
    + split; cbn [room_q asleep]; [exists l; split; [exact Hl'|]; intros; done|congruence].
  - destruct (_ && _); [by apply round_awake|done].
  - destruct (asleep w); [|done]. split; [|exact Hd]. cbn [room_q asleep]. exists l. split; [done|]. by intros.
  - destruct (asleep w); [done|]. unfold TryDequeue. destruct (pop_spec _ l Hl) as (q' & -> & Hl' & Hn & Hd' & Hc). split; cbn [room_q asleep]; [|congruence].
    exists (drop 1 l). split; [done|]. by intros.
Qed.

Lemma empty_awake : awake empty_room.
Proof. split; [|done]. exists []. split; [apply empty_simulates|]. by intros. Qed.
End waiting.

(** C39: no lost wake-up. However pushes, their signals, [Close] and the calls
    of one consumer interleave, a consumer asleep in [Dequeue] while the queue
    holds an item has a token waiting for it or a producer about to leave one,
    and the token makes its call return the oldest item; asleep on a closed
    queue, it is woken by [done] and returns. *)
Theorem dequeue_no_lost_wakeup {A} (es : list (qevent A)) :
  let w := foldl qstep empty_room es in
  exists l, holds (room_q w) l /\
  (asleep w = true ->
     (l <> [] -> notify (room_q w) = true \/ (0 < signalling w)%nat)
     /\ (notify (room_q w) = true -> forall x l', l = x :: l' -> returned (qstep w WToken) = returned w ++ [Some x] /\ asleep (qstep w WToken) = false)
     /\ (closed (room_q w) = true -> returned (qstep w WDone) = returned w ++ [hd_error l] /\ asleep (qstep w WDone) = false)).
Proof.
  intros w. assert (K : awake w) by (apply foldl_inv; [apply qstep_awake|apply empty_awake]). clearbody w. destruct K as [(l & Hl & Hw) Hd].
  exists l. split; [done|]. intros Ha. split; [auto|]. split.
  - intros Hn x l' ->. cbn [qstep]. rewrite Ha, Hn. cbn [andb]. unfold dequeue_round. cbn [room_q].
    assert (Hl0 : holds ((room_q w) <| notify := false |>) (x :: l')) by (destruct Hl as (ns & [] & E); exists ns; by split).
    destruct (pop_spec _ _ Hl0) as (q' & -> & _). done.
  - intros Hc. cbn [qstep]. rewrite Ha, Hd, Hc. cbn [andb]. unfold dequeue_round. destruct (pop_spec _ _ Hl) as (q' & -> & _ & _ & _ & Hc'). destruct l as [|x l]; cbn [hd_error]; [|done]. by rewrite Hc', Hc.
Qed.

End SubQueue.
