(* ===== verification/InboundWindow.v ===== *)
(** * InboundWindow: the flow control of inbound messages

    What the engine promises whoever hands its messages out: a message of
    QoS 1 or 2 stays open until it is acknowledged, and fewer than Receive
    Maximum are open when another one is delivered. The promise is the class
    [Window]; the engine of [Machine] is its instance. *)

From stdpp Require Import gmap sorting list_tactics.
From S2P Require Import Prelude GoLib Errors Batch IdTable Session Inflight Machine EngineInv Footprint EngineConn Restart Durable EngineSafety Inbound.

Module InboundWindow.

(** ** The interface *)

(** [win_receive] is [Engine.Receive], with the flow of a message to deliver;
    [win_ack] is [Engine.Ack] and [AckDeferred]; [win_step] is anything else
    the engine does while the session lasts. *)
Class Window : Type := {
  win : Type;
  win_ok : win -> Prop;
  win_limit : Z;
  win_open : win -> nat -> Prop;
  win_receive : Z -> Z -> win -> win * option nat;
  win_ack : nat -> win -> win;
  win_event : Type;
  win_step : win_event -> win -> win;
  receive_ok id q w : win_ok w -> win_ok (fst (win_receive id q w));
  ack_ok f w : win_ok w -> win_ok (win_ack f w);
  step_ok ev w : win_ok w -> win_ok (win_step ev w);
  receive_keeps id q w f : win_ok w -> win_open w f -> win_open (fst (win_receive id q w)) f;
  ack_keeps g w f : win_ok w -> f <> g -> win_open w f -> win_open (win_ack g w) f;
  step_keeps ev w f : win_ok w -> win_open w f -> win_open (win_step ev w) f;
  receive_new id q w w' f : win_ok w -> win_receive id q w = (w', Some f) ->
    ~ win_open w f /\ win_open w' f /\ forall l, NoDup l -> Forall (win_open w) l -> len l < win_limit;
}.

Import Inflight Machine EngineInv Footprint EngineConn Restart Durable EngineSafety Inbound.

(** ** Open messages of the engine *)

Section ops.
Context {cfg : Config}.
Implicit Types (e : Engine) (i : inflow) (a : contents).

(** Handed out and not acknowledged, unless the session failed. *)
Definition unsettled e i : Prop := failure e = None -> exists id x, inbound e id i x /\ state x = inDelivered.

Lemma unsettled_step i e e' :
  (failure e' = None -> failure e = None) ->
  (forall id x, failure e' = None -> inbound e id i x -> state x = inDelivered -> inbound e' id i x) -> unsettled e i -> unsettled e' i.
Proof. intros Hf Hb U Hn. destruct (U (Hf Hn)) as (id & x & Hi & Hx). exists id, x. auto. Qed.

Lemma unsettled_same i e e' : same_in e e' -> unsettled e i -> unsettled e' i.
Proof. intros []. apply unsettled_step; [congruence|]. unfold inbound. intros id x _. by rewrite si_inb0, si_ins0. Qed.

Lemma unsettled_Receive i a id0 q e : IInv (cfg := cfg) a e -> unsettled e i -> unsettled (fst (Receive cfg id0 q e)) i.
Proof.
  intros I U. unfold Receive. destruct (failure e) eqn:Hnf; [done|]. destruct (inb e !! id0) as [j|] eqn:Hj.
  - destruct (_ && _); [|done]. by apply (unsettled_step i e).
  - destruct (_ && _); [done|]. unfold new_in. cbn [fst]. apply (unsettled_step i e); try done. intros id x _ [H1 H2] _.
    destruct (ii_inb _ _ I id i H1) as [Hlt _]. match goal with |- inbound ?e' _ _ _ => split;
      [change (<[id0 := nextIn e]> (inb e) !! id = Some i)|change (<[nextIn e := mkIn id0 q inDelivered false]> (ins e) !! i = Some x)] end.
    + rewrite lookup_insert_ne; [done|]. congruence.
    + rewrite lookup_insert_ne; [done|]. lia.
Qed.

Lemma ack_loop_unsettled a id i x l : forall e,
  failure e = None -> IInv (cfg := cfg) a (e <| fifo := l |>) -> inbound e id i x -> state x = inDelivered -> inbound (ack_loop cfg l e) id i x.
Proof.
  induction l as [|j l IH]; intros e Hnf I Hb Hx; cbn [ack_loop]; [done|]. case_decide as Hs; [|done].
  pose proof (IInv_ack_next a j l e I Hnf Hs) as I1. cbn zeta in I1. assert (Hne : i <> j) by (intros ->; unfold get_in in Hs; rewrite (proj2 Hb) in Hs; cbn in Hs; congruence).
  destruct (_ =? 1); [exact (IH (pushCtrlLocked PUBACK _ ReasonSuccess false (Some j) e) Hnf I1 Hb Hx)|].
  match goal with |- inbound (ack_loop cfg l ?e2) id i x => apply (IH e2); [| exact I1| |done] end.
  - by destruct (hasStore cfg).
  - assert (Hb1 : inbound (modify_in j (fun f => f <| state := inAwaitPubrel |>) e) id i x) by by apply inbound_modify_ne. by destruct (hasStore cfg).
Qed.

Lemma unsettled_ack i a j e : IInv (cfg := cfg) a e -> is_Some (ins e !! j) -> i <> j -> unsettled e i -> unsettled (ack cfg j e) i.
Proof.
  intros I [y Hy] Hne U. unfold ack. destruct (_ || _) eqn:Hc; [done|]. apply orb_false_iff in Hc as [_ Hc]. apply negb_false_iff, bool_decide_eq_true in Hc.
  unfold get_in in Hc. rewrite Hy in Hc. change (state y = inDelivered) in Hc. set (e1 := modify_in j (fun f => f <| state := inAcked |>) e).
  assert (I1 : IInv (cfg := cfg) a (e1 <| fifo := fifo e |>)) by (apply (IInv_move a e j y inAcked [] (fifo e)); auto; done).
  change (fifo e1) with (fifo e). destruct (failure e) as [err|] eqn:Hnf.
  - destruct (ii_failed _ _ I) as (_ & Hf & _); [congruence|]. rewrite Hf. intros Hn. change (failure e = None) in Hn. congruence.
  - destruct (U Hnf) as (id & x & Hi & Hx). assert (Hb1 : inbound e1 id i x) by by apply inbound_modify_ne.
    intros _. exists id, x. split; [|done]. by apply (ack_loop_unsettled a).
Qed.

Lemma unsettled_Pubrel i a id0 e : IInv (cfg := cfg) a e -> unsettled e i -> unsettled (HandlePubrel cfg id0 e) i.
Proof.
  intros I U. unfold HandlePubrel. destruct (failure e) eqn:Hnf; [done|]. assert (Hp : forall rc, unsettled (pushCtrlLocked PUBCOMP id0 rc false None e) i).
  { intros rc. by apply (unsettled_step i e). }
  destruct (inb e !! id0) as [j|] eqn:Hj; [|done]. destruct (state (get_in e j)) eqn:Hs; try done. set (g := fun f : In => f <| state := inReleased |>).
  assert (T1 : unsettled (pushCtrlLocked PUBCOMP id0 ReasonSuccess true (Some j) (modify_in j g e)) i).
  { apply (unsettled_step i e); try done. intros id x _ Hb Hx. apply (inbound_modify_ne e j g); [|done]. intros ->. unfold get_in in Hs. rewrite (proj2 Hb) in Hs. cbn in Hs. congruence. }
  destruct (hasStore cfg); [|done]. revert T1. by apply unsettled_step.
Qed.

Lemma unsettled_control a id i x l : forall e,
  IInv (cfg := cfg) a (e <| ctrl := l |>) -> failure e = None -> inbound e id i x -> state x = inDelivered -> inbound (fst (control_loop l e)) id i x.
Proof.
  induction l as [|c l IH]; intros e I Hnf Hb Hx; [done|]. rewrite control_loop_cons. destruct (readyLocked e c); [|done].
  destruct (sent_frame_same c e) as (E1 & _ & E3). specialize (IH (sent_frame c e) (IInv_sent a c l e I Hnf) ltac:(congruence)).
  destruct (control_loop l (sent_frame c e)) as [e' its]. cbn [fst] in *. apply IH; [|done]. unfold sent_frame. destruct (_ && _) eqn:Hc; [|done].
  apply inbound_delete. split; [|done]. intros ->. apply andb_true_iff in Hc as [Hc Hin]. apply andb_true_iff in Hc as [Ht Hsm].
  apply bool_decide_eq_true in Hin, Hsm. destruct Hsm as [j Hj]. assert (Hc : frame_ok (e <| ctrl := c :: l |>) c).
  { apply (proj1 (Forall_forall _ _) (proj1 (ii_ctrl _ _ I))). change (c ∈ in_ctrl (c :: l)). rewrite in_ctrl_cons, decide_True; [by left|].
    intros E. by rewrite E in Ht. }
  destruct (final_frame _ c j Hc Hj) as (y & Hy & Hs). change (inbound e (c_id c) j y) in Hy. destruct (inbound_eq _ _ _ _ _ _ Hb Hy) as [-> ->].
  destruct Hs as [[? _]|?]; congruence.
Qed.

Lemma unsettled_sent_all i a e : IInv (cfg := cfg) a e -> failure e = None -> unsettled e i -> unsettled (fst (collectControlLocked e)) i.
Proof.
  intros I Hnf U. unfold collectControlLocked. pose proof (IInv_own_ctrl a e I) as I'. destruct (U Hnf) as (id & x & Hb & Hx).
  intros _. exists id, x. split; [|done]. by apply (unsettled_control a).
Qed.

Lemma unsettled_fail i err e : unsettled e i -> unsettled (fst (failLocked err e)) i.
Proof.
  intros U. destruct (failure e) eqn:Hnf; [unfold failLocked; by rewrite Hnf|]. destruct (fail_eq err e Hnf) as [m ->]. intros Hn. done.
Qed.
End ops.

(** ** Steps of the engine *)

(** Events of a session that lasts, apart from messages arriving and being
    acknowledged. *)
Definition lasting (ev : event) : bool :=
  match ev with
  | EvReceive _ _ | EvAck _ | EvDiscard _ | EvRestore | EvRestart => false
  | EvConnected ci _ => SessionPresent ci
  | _ => true
  end.

Section steps.
Context {cfg : Config}.
Implicit Types (e : Engine) (i : inflow) (a : contents) (w : World).

Lemma unsettled_pop i k e : unsettled e i -> unsettled (pop_head k e) i.
Proof. rewrite pop_eq. by apply unsettled_step. Qed.

Lemma unsettled_finish h i k e e' told :
  Inv cfg [] h e -> (forall k, Dir k <> Outbound -> Forall in_job (queue e k)) -> unsettled e i -> finish_head cfg k e = Some (e', told) -> unsettled e' i.
Proof.
  intros I Hin U. unfold finish_head. destruct (queue e k) as [|[w ow ep [r|]] q] eqn:Eq; try done.
  assert (Ha : unsettled (fst (if ep =? epoch e then after cfg (mkJob w ow ep (Some r)) r e else (e, None))) i).
  { destruct (ep =? epoch e); [|done]. destruct (decide (Dir k = Outbound)) as [Hd|Hd].
    - assert (k = outKey (PacketID k)) as Ek by (destruct k; cbn in *; by subst). rewrite Ek in Eq.
      destruct (inv_jobs _ _ _ _ I (PacketID k) (mkJob w ow ep (Some r))) as (o & f & Ho & _); [rewrite Eq; by left|]. cbn in Ho. subst ow.
      apply (unsettled_same i e); [apply si_after|done].
    - specialize (Hin k Hd). rewrite Eq in Hin. apply Forall_cons in Hin as [(i0 & Ho & Hw) _]. cbn in Ho, Hw. subst ow.
      destruct Hw as [-> | ->]; unfold after; cbn [j_work j_owner]; by destruct r. }
  destruct (if ep =? epoch e then _ else _) as [e1 fail]. cbn [fst] in Ha. pose proof (unsettled_pop i k e1 Ha) as U1.
  destruct fail as [err|]; [|by intros [= <- _]]. pose proof (unsettled_fail i err _ U1) as U2. intros [= E]. by rewrite E in U2.
Qed.

Lemma step_unsettled i w ev w' outs :
  reachable cfg w -> lasting ev = true -> unsettled (eng w) i -> step cfg ev w = Some (w', outs) -> unsettled (eng w') i.
Proof.
  intros Hr Hk U. pose proof (reachable_IW w Hr) as II. destruct (reachable_WInv cfg w Hr) as [I Dv]. clear Hr. destruct w as [e a h]. unfold IW in *. cbn [eng disk held] in *.
  assert (HS : forall e', same_in e e' -> unsettled e' i) by (intros e' S; by apply (unsettled_same i e)).
  unfold step. cbn [eng disk held].
  destruct ev as [ow|id0 ow|m now|o|r s|id0 rc0 rf|id0 rc0 rf|id0|id0 q|j|id0|ci now|l|g upTo now|g|k ans|k|m ans|ans| |]; intros E; try done.
  - destruct (IDs.AllocateID _ _); try done. case_decide; [done|]. injection E as <- _. apply HS. by split.
  - case_decide; [done|]. injection E as <- _. apply HS. by split.
  - case_decide; [|done]. injection E as <- _. apply HS, si_Register.
  - case_decide; [|done]. injection E as <- _. apply HS, si_Withdraw.
  - injection E as <- _. apply HS, si_Adopt.
  - injection E as <- _. apply HS, si_Puback.
  - injection E as <- _. apply HS, si_Pubrec.
  - injection E as <- _. apply HS, si_Pubcomp.
  - injection E as <- _. by apply (unsettled_Pubrel i a).
  - case_decide as Hc; [|done]. injection E as <- _. apply HS. by apply (si_Connected h).
  - injection E as <- _. apply HS. unfold Disconnected. case_decide; [by split|done].
  - injection E as <- _. destruct (servesLocked g e) eqn:Sv; [|unfold Collect; by rewrite Sv]. apply (unsettled_same i _ _ (collect_inbound h g upTo now e I Sv)).
    set (e0 := if released e <? upTo then _ else e). assert (S : same_in e e0) by (unfold e0; case_match; by split).
    apply (unsettled_sent_all (cfg := cfg) i a); [by apply (IInv_same a e)| |by apply (unsettled_same i e)]. rewrite (si_failure _ _ S). by apply (serves_ok g).
  - injection E as <- _. unfold CollectControl. destruct (servesLocked g e) eqn:Sv; [|done]. apply (unsettled_sent_all (cfg := cfg) i a); try done. by apply (serves_ok g).
  - destruct (perform_head cfg k ans e a) as [[[e' a'] told]|] eqn:Ep; [|done]. injection E as <- _. cbn [eng].
    unfold perform_head in Ep. destruct (queue e k) as [|[w ow ep [r|]] q] eqn:Eq; try done.
    destruct (do_work cfg w k ans a) as [[a1 res] told1] eqn:Ew. injection Ep as <- <- _. revert U. by apply unsettled_step.
  - destruct (finish_head cfg k e) as [[e' told]|] eqn:Ef; [|done]. injection E as <- _. apply (unsettled_finish h i k e e' told); try done. apply Dv.
  - assert (T' : unsettled (fst (fst (SetMeta cfg m ans e a))) i).
    { unfold SetMeta. destruct (failure e); [done|]. destruct (_ && _); [done|]. destruct (negb _); [by apply HS|].
      destruct (store_do _ _ _) as [a1 [|]]; [by apply HS|]. pose proof (unsettled_fail i (StoreError "set meta") e U) as H. by destruct (failLocked _ e). }
    destruct (SetMeta cfg m ans e a) as [[e' a'] told]. by injection E as <- _.
Qed.

(** ** The engine is a window *)

Definition go (ev : event) (w : World) : World := match step cfg ev w with Some (w, _) => w | None => w end.

Definition engine_receive (id q : Z) (w : World) : World * option nat :=
  match step cfg (EvReceive id q) w with
  | Some (w, [Delivered i]) => (w, Some i)
  | Some (w, _) => (w, None)
  | None => (w, None)
  end.

Definition engine_step (ev : event) (w : World) : World := if lasting ev then go ev w else w.

Lemma go_reachable ev w : reachable cfg w -> reachable cfg (go ev w).
Proof. intros H. unfold go. destruct (step cfg ev w) as [[w' outs]|] eqn:E; [|done]. by eapply reach_step. Qed.

Lemma engine_receive_go id q w : fst (engine_receive id q w) = go (EvReceive id q) w.
Proof. unfold engine_receive, go. destruct (step _ _ _) as [[w' [|[] []]]|]; done. Qed.

(** A list of flows that are all open is no longer than the map of flows. *)
Lemma unsettled_count a e l : IInv (cfg := cfg) a e -> failure e = None -> NoDup l -> Forall (unsettled e) l -> len l <= Z.of_nat (size (inb e)).
Proof.
  intros I Hnf Hnd Hall. assert (Hl : l ⊆ map snd (map_to_list (inb e))).
  { intros i Hi. rewrite Forall_forall in Hall. destruct (Hall i Hi Hnf) as (id & x & [Hb _] & _). apply list_elem_of_In, in_map_iff. exists (id, i). split; [done|].
    apply list_elem_of_In. by apply elem_of_map_to_list. }
  pose proof (submseteq_length _ _ (NoDup_submseteq _ _ Hnd Hl)) as Hlen. rewrite length_map, length_map_to_list in Hlen. unfold len. lia.
Qed.

Lemma engine_receive_new id q w w' f :
  0 < ReceiveMaximum cfg -> reachable cfg w -> engine_receive id q w = (w', Some f) ->
  ~ unsettled (eng w) f /\ unsettled (eng w') f /\ forall l, NoDup l -> Forall (unsettled (eng w)) l -> len l < ReceiveMaximum cfg.
Proof.
  intros Hpos Hr. pose proof (reachable_IW w Hr) as I. unfold IW in I. unfold engine_receive, step, Receive. set (e := eng w) in *. case_decide; [|done].
  destruct (failure e) eqn:Hnf; [done|]. destruct (inb e !! id) as [j|] eqn:Hj; [by destruct (_ && _)|].
  destruct (Z.ltb_spec 0 (ReceiveMaximum cfg)); [|lia]. cbn [andb]. destruct (Z.leb_spec (ReceiveMaximum cfg) (Z.of_nat (size (inb e)))) as [|Hlt]; [done|].
  unfold new_in. intros [= <- <-]. split_and!.
  - intros U. destruct (U Hnf) as (id' & x & Hb & _). destruct (ii_inb _ _ I id' (nextIn e) (proj1 Hb)) as [? _]. lia.
  - intros _. exists id, (mkIn id q inDelivered false). split; [|done]. split.
    + match goal with |- ?m !! _ = _ => change (<[id := nextIn e]> (inb e) !! id = Some (nextIn e)) end. apply lookup_insert_eq.
    + match goal with |- ?m !! _ = _ => change (<[nextIn e := mkIn id q inDelivered false]> (ins e) !! nextIn e = Some (mkIn id q inDelivered false)) end. apply lookup_insert_eq.
  - intros l Hnd Hall. pose proof (unsettled_count _ e l I Hnf Hnd Hall). lia.
Qed.
End steps.

Lemma engine_receive_keeps cfg id q w f : reachable cfg w -> unsettled (eng w) f -> unsettled (eng (fst (engine_receive (cfg := cfg) id q w))) f.
Proof.
  intros Hr U. pose proof (reachable_IW w Hr) as I. rewrite engine_receive_go. unfold go, step. case_decide; [|done].
  pose proof (unsettled_Receive f _ id q (eng w) I U) as U'. by destruct (Receive cfg id q (eng w)) as [e r].
Qed.

Lemma engine_ack_keeps cfg g w f : reachable cfg w -> f <> g -> unsettled (eng w) f -> unsettled (eng (go (cfg := cfg) (EvAck g) w)) f.
Proof.
  intros Hr Hne U. pose proof (reachable_IW w Hr) as I. unfold go, step. case_decide as Hs; [|done]. exact (unsettled_ack f _ g (eng w) I Hs Hne U).
Qed.

Lemma engine_step_keeps cfg ev w f : reachable cfg w -> unsettled (eng w) f -> unsettled (eng (engine_step (cfg := cfg) ev w)) f.
Proof.
  intros Hr U. unfold engine_step, go. destruct (lasting ev) eqn:Hl; [|done]. destruct (step cfg ev w) as [[w' outs]|] eqn:E; [|done]. by apply (step_unsettled (cfg := cfg) f w ev w' outs).
Qed.

Lemma engine_step_reachable cfg ev w : reachable cfg w -> reachable cfg (engine_step (cfg := cfg) ev w).
Proof. intros Hr. unfold engine_step. destruct (lasting ev); [by apply go_reachable|done]. Qed.

Lemma engine_receive_reachable cfg id q w : reachable cfg w -> reachable cfg (fst (engine_receive (cfg := cfg) id q w)).
Proof. intros Hr. rewrite engine_receive_go. by apply go_reachable. Qed.

#[export] Instance engine_window (cfg : Config) (Hpos : 0 < ReceiveMaximum cfg) : Window := {|
  win := World;
  win_ok := reachable cfg;
  win_limit := ReceiveMaximum cfg;
  win_open w := unsettled (eng w);
  win_receive := engine_receive (cfg := cfg);
  win_ack f := go (cfg := cfg) (EvAck f);
  win_event := event;
  win_step := engine_step (cfg := cfg);
  receive_ok := engine_receive_reachable cfg;
  ack_ok f := go_reachable (EvAck f);
  step_ok := engine_step_reachable cfg;
  receive_keeps := engine_receive_keeps cfg;
  ack_keeps := engine_ack_keeps cfg;
  step_keeps := engine_step_keeps cfg;
  receive_new id q w w' f := engine_receive_new id q w w' f Hpos;
|}.

End InboundWindow.
