(* ===== verification/Delivering.v ===== *)
(** * Delivering: messages to bounded subscribers (subscribe.go, conn.go)

    The options of a subscription, the delivery functions of channel, queue
    and callback subscriptions, and the client around them: the read loop that
    receives PUBLISHes and dispatches them, consumers that read and ack, the
    engine's flow control behind the interface [InboundWindow.Window]. *)

From stdpp Require Import gmap.
From S2P Require Import Prelude GoLib Errors ClientErrors Subscribe Queue IdTable Session Inflight Machine Subscriptions SubsLists Dispatch SubQueue InboundWindow.

Module Delivering.
Import Queue.
Import SubsLists Dispatch SubQueue InboundWindow.

(** ** Options *)

(** [subscribeConfig], without the callbacks and the payload encoding. *)
Record subscribeConfig : Type := mkConfig {
  bufferSize : Z;
  maxQueueSize : Z;
  room : Z;
  dropPolicy : DropPolicy;
  dropPolicyExplicit : bool;
  autoAck : bool;
  zeroCopy : bool;
}.
#[export] Instance subscribeConfig_rebuild : Rebuild subscribeConfig := fun c =>
  mkConfig (bufferSize c) (maxQueueSize c) (room c) (dropPolicy c) (dropPolicyExplicit c) (autoAck c) (zeroCopy c).

(** What a subscription takes from the client's options. *)
Record Config : Type := mkClientConfig { MaxSubscribeQueueSize : Z; cfg_DropPolicy : DropPolicy; cfg_ReceiveMaximum : Z }.

Definition DefaultSubscribeBuffer : Z := 64.

Definition newSubscribeConfig (c : Config) : subscribeConfig :=
  mkConfig DefaultSubscribeBuffer (MaxSubscribeQueueSize c) 0 (cfg_DropPolicy c) false false false.

(** The [SubscribeOption]s that bear on delivery. *)
Inductive SubscribeOption : Type :=
| SubBuffer (n : Z) | SubMaxQueueSize (n : Z) | SubDropPolicy (p : DropPolicy) | SubZeroCopy | SubAutoAck.

Definition apply_option (cfg : subscribeConfig) (o : SubscribeOption) : subscribeConfig :=
  match o with
  | SubBuffer n => if 0 <? n then cfg <| bufferSize := n |> else cfg
  | SubMaxQueueSize n => if n =? 0 then cfg else cfg <| maxQueueSize := n |>
  | SubDropPolicy p => cfg <| dropPolicy := p |> <| dropPolicyExplicit := true |>
  | SubZeroCopy => cfg <| zeroCopy := true |>
  | SubAutoAck => cfg <| autoAck := true |>
  end.

(** [subscribeConfigFrom] *)
Definition subscribeConfigFrom (c : Config) (opts : list SubscribeOption) : subscribeConfig := foldl apply_option (newSubscribeConfig c) opts.

(** [chanSubscribeConfig]: [None] is [ErrChanDropOldestUnsupported]. *)
Definition chanSubscribeConfig (c : Config) (opts : list SubscribeOption) : option subscribeConfig :=
  let cfg := subscribeConfigFrom c opts in
  if decide (dropPolicy cfg = DropOldest) then
    if dropPolicyExplicit cfg then None else Some (cfg <| dropPolicy := DropNewest |>)
  else Some cfg.

(** [zeroCopyDelivery] *)
Definition zeroCopyDelivery (cfg : subscribeConfig) : bool := zeroCopy cfg && negb (autoAck cfg).

(** [qosRoom] *)
Definition qosRoom (c : Config) (cfg : subscribeConfig) (filters : list SubscribeFilter) : Z :=
  if autoAck cfg then 0 else if existsb (fun f => 0 <? f_QoS f) filters then cfg_ReceiveMaximum c else 0.

(** ** Subscribers *)

(** Where a route delivers: a channel of capacity [bufferSize + room], a
    [Queue], or a callback. Messages are the names of their handles. *)
Inductive sink : Type := Chan (ch : list nat) | Que (q : Queue nat) | Callback.

(** A subscription's route and what became of its messages: the ones
    [dropInbound] dropped and the ones the consumer received. *)
Record subscriber : Type := mkSubscriber { s_cfg : subscribeConfig; s_sink : sink; s_closed : bool; s_dropped : list nat; s_read : list nat }.
#[export] Instance subscriber_rebuild : Rebuild subscriber := fun s => mkSubscriber (s_cfg s) (s_sink s) (s_closed s) (s_dropped s) (s_read s).

Inductive flavour : Type := FChan | FQueue | FCallback.

(** [subscribeChan], [subscribeQueue] and [subscribeCallback] up to their call
    of [subscribe]. *)
Definition new_subscriber (c : Config) (fl : flavour) (opts : list SubscribeOption) (filters : list SubscribeFilter) : option subscriber :=
  match fl with
  | FChan =>
      match chanSubscribeConfig c opts with
      | None => None
      | Some cfg => Some (mkSubscriber (cfg <| room := qosRoom c cfg filters |>) (Chan []) false [] [])
      end
  | FQueue =>
      let cfg := subscribeConfigFrom c opts in
      Some (mkSubscriber (cfg <| room := qosRoom c cfg filters |>) (Que NewQueue) false [] [])
  | FCallback => Some (mkSubscriber ((subscribeConfigFrom c opts) <| autoAck := false |>) Callback false [] [])
  end.

(** The flow of a message; its QoS is not 0 exactly when it has one, since
    [handlePublish] calls [Receive] for those. *)
Definition flow_of (w : deliveries) (m : nat) : option nat := ms w !! m ≫= fun h => ds w !! m_d h ≫= d_in.

(** [usesRoom] *)
Definition usesRoom (cfg : subscribeConfig) (w : deliveries) (m : nat) : bool := (0 <? room cfg) && bool_decide (is_Some (flow_of w m)).

(** [dropInbound] *)
Definition dropInbound (s : subscriber) (w : deliveries) (m : nat) : subscriber * deliveries := (s <| s_dropped ::= fun l => l ++ [m] |>, ack w m true).

(** [chanDeliver]; [ok] says whether [wrap] converted the message. *)
Definition chanDeliver (s : subscriber) (ch : list nat) (ok : bool) (w : deliveries) (m : nat) : subscriber * deliveries :=
  let cfg := s_cfg s in
  if negb ok then (s, ack w m true)
  else
    let w := if autoAck cfg then ack w m true else w in
    if negb (usesRoom cfg w m) && (bufferSize cfg <=? len ch) then dropInbound s w m
    else if len ch <? bufferSize cfg + room cfg then (s <| s_sink := Chan (ch ++ [m]) |>, w)
    else dropInbound s w m.

(** [queueDeliver] *)
Definition queueDeliver (s : subscriber) (q : Queue nat) (ok : bool) (w : deliveries) (m : nat) : subscriber * deliveries :=
  let cfg := s_cfg s in
  if negb ok then (s, ack w m true)
  else
    let w := if autoAck cfg then ack w m true else w in
    let limit := maxQueueSize cfg in
    let limit := if (0 <? limit) && bool_decide (dropPolicy cfg = DropNewest) && usesRoom cfg w m then limit + room cfg else limit in
    let '(q, (evicted, accepted)) := push q m limit (bool_decide (dropPolicy cfg = DropOldest)) in
    let s := s <| s_sink := Que q |> in
    let (s, w) := match evicted with Some e => dropInbound s w e | None => (s, w) end in
    if negb accepted then dropInbound s w m else (s, w).

(** [route.dispatch] with the route's delivery function. *)
Definition dispatch_to (s : subscriber) (ok : bool) (w : deliveries) (m : nat) : subscriber * deliveries :=
  if s_closed s then (s, ack w m true)
  else match s_sink s with
  | Chan ch => chanDeliver s ch ok w m
  | Que q => queueDeliver s q ok w m
  | Callback => (s, ack w m true)
  end.

(** ** The client around them *)

Section client.
Context `{Window} (cc : Config).

(** The engine, the deliveries, the subscribers, the dispatches the read loop
    has yet to make for the PUBLISH at hand; [whom] remembers the route each
    handle was made for. *)
Record state : Type := mkState { engine : win; dels : deliveries; subs : gmap Z subscriber; todo : list (Z * nat); whom : list Z }.
#[export] Instance state_rebuild : Rebuild state := fun s => mkState (engine s) (dels s) (subs s) (todo s) (whom s).

(** What [release] told the engine between two states of the deliveries. *)
Definition acked_flows (w w' : deliveries) : list nat :=
  omap (fun p => ds w' !! p.1 ≫= d_in) (drop (length (engine_acks w)) (engine_acks w')).

Definition tell (e : win) (w w' : deliveries) : win := foldl (fun e f => win_ack f e) e (acked_flows w w').

Definition set_dels (st : state) (w : deliveries) : state := st <| engine := tell (engine st) (dels st) w |> <| dels := w |>.

Inductive sevent : Type :=
| SSubscribe (r : Z) (fl : flavour) (opts : list SubscribeOption) (filters : list SubscribeFilter)
| SPublish (id qos : Z) (routes : list Z)   (* handlePublish up to the dispatches *)
| SDispatch (ok : bool)                     (* the next dispatch *)
| SRead (r : Z)                             (* a consumer receives or dequeues *)
| SAck (r : Z) (m : nat)                    (* it acks a message it received *)
| SRelease (i : nat)                        (* a delivery.release under way *)
| SClose (r : Z)                            (* the route is closed *)
| SEngine (ev : win_event).

(** [handlePublish] once the flow is known. *)
Definition publish (st : state) (inn : option nat) (routes : list Z) : state :=
  let zc := forallb (fun r => default true ((fun s => zeroCopyDelivery (s_cfg s)) <$> subs st !! r)) routes in
  let (w, handles) := deliver (dels st) inn routes zc in
  (set_dels st w) <| todo := handles |> <| whom ::= fun l => l ++ routes |>.

(** An event that cannot happen changes nothing: the read loop takes one
    PUBLISH at a time, whose routes are all different, and consumers ack what
    they received. *)
Definition sstep (st : state) (e : sevent) : state :=
  match e with
  | SSubscribe r fl opts filters =>
      match subs st !! r, new_subscriber cc fl opts filters with
      | None, Some s => if decide (r ∈ whom st) then st else st <| subs ::= <[r := s]> |>
      | _, _ => st
      end
  | SPublish id qos routes =>
      if decide (todo st = [] /\ NoDup routes) then
        if 0 <? qos then
          match win_receive id qos (engine st) with
          | (e, Some f) => publish (st <| engine := e |>) (Some f) routes
          | (e, None) => st <| engine := e |>
          end
        else publish st None routes
      else st
  | SDispatch ok =>
      match todo st with
      | [] => st
      | (r, m) :: rest =>
          let st := st <| todo := rest |> in
          match subs st !! r with
          | None => st
          | Some s => let (s, w) := dispatch_to s ok (dels st) m in (set_dels st w) <| subs ::= <[r := s]> |>
          end
      end
  | SRead r =>
      match subs st !! r with
      | Some s =>
          match s_sink s with
          | Chan (m :: ch) => st <| subs ::= <[r := s <| s_sink := Chan ch |> <| s_read ::= fun l => l ++ [m] |>]> |>
          | Que q =>
              match TryDequeue q with
              | (q, Some m) => st <| subs ::= <[r := s <| s_sink := Que q |> <| s_read ::= fun l => l ++ [m] |>]> |>
              | (_, None) => st
              end
          | _ => st
          end
      | None => st
      end
  | SAck r m =>
      match subs st !! r with
      | Some s => if decide (m ∈ s_read s) then set_dels st (ack (dels st) m false) else st
      | None => st
      end
  | SRelease i => set_dels st (release (dels st) i)
  | SClose r =>
      match subs st !! r with
      | Some s => st <| subs ::= <[r := s <| s_closed := true |> <| s_sink := match s_sink s with Que q => Que (Close q) | k => k end |>]> |>
      | None => st
      end
  | SEngine ev => st <| engine ::= win_step ev |>
  end.

Definition idle (e : win) : state := mkState e no_deliveries ∅ [] [].
End client.

(** ** Deliveries *)

Definition unacked (w : deliveries) (m : nat) : Prop := exists h, ms w !! m = Some h /\ m_acked h = false.

Lemma ack_same w m b : ds (ack w m b) = ds w /\ engine_acks (ack w m b) = engine_acks w /\ length (ms (ack w m b)) = length (ms w).
Proof. unfold ack. destruct (ms w !! m) as [h|]; [|done]. destruct (m_acked h); [done|]. split; [done|]. split; [done|]. apply length_insert. Qed.

Lemma ack_handle w m b k : (fun h => m_d h) <$> ms (ack w m b) !! k = (fun h => m_d h) <$> ms w !! k.
Proof.
  unfold ack. destruct (ms w !! m) as [h|] eqn:E; [|done]. destruct (m_acked h); [done|]. change (ms (_ <| releasing ::= _ |>)) with (<[m := mkHandle (m_d h) true]> (ms w)).
  destruct (decide (m = k)) as [->|Hne]; [|by rewrite list_lookup_insert_ne]. rewrite list_lookup_insert_eq by (by apply lookup_lt_Some in E). by rewrite E.
Qed.

Lemma flow_handles w m : flow_of w m = ((fun h => m_d h) <$> ms w !! m) ≫= fun d => ds w !! d ≫= d_in.
Proof. unfold flow_of. by destruct (ms w !! m). Qed.

Lemma ack_flow w m b k : flow_of (ack w m b) k = flow_of w k.
Proof. rewrite !flow_handles, ack_handle. by destruct (ack_same w m b) as (-> & _). Qed.

Lemma ack_unacked w m b k : k <> m -> unacked w k -> unacked (ack w m b) k.
Proof.
  intros Hne (h & Hh & Ha). exists h. split; [|done]. unfold ack. destruct (ms w !! m) as [g|]; [|done]. destruct (m_acked g); [done|].
  change (ms (_ <| releasing ::= _ |>)) with (<[m := mkHandle (m_d g) true]> (ms w)). by rewrite list_lookup_insert_ne.
Qed.

Lemma release_cases w i :
  ms (release w i) = ms w /\
  (ds (release w i) = ds w /\ engine_acks (release w i) = engine_acks w
   \/ exists d b x, (d, b) ∈ releasing w /\ ds w !! d = Some x /\ ds (release w i) = <[d := mkDelivery (d_refs x - 1) (d_in x) (if d_refs x - 1 =? 0 then false else d_frame x)]> (ds w)
      /\ engine_acks (release w i) = engine_acks w ++ (if d_refs x - 1 =? 0 then match d_in x with Some _ => [(d, b)] | None => [] end else [])).
Proof.
  unfold release. destruct (releasing w !! i) as [[d b]|] eqn:Hi; [|by split; [|left]]. set (w1 := w <| releasing ::= _ |>). change (ds w1) with (ds w).
  destruct (ds w !! d) as [x|] eqn:Hx; [|by split; [|left]]. split; [destruct (_ =? 0), (d_in x), (d_frame x); done|]. right. exists d, b, x. split; [by eapply list_elem_of_lookup_2|]. split; [done|].
  destruct (_ =? 0), (d_in x), (d_frame x); by rewrite ?app_nil_r.
Qed.

Lemma release_flow w i k : flow_of (release w i) k = flow_of w k.
Proof.
  destruct (release_cases w i) as [Hm Hc]. unfold flow_of. rewrite Hm. destruct (ms w !! k) as [h|]; [|done]. cbn. destruct Hc as [[-> _]|(d & b & x & _ & Hx & -> & _)]; [done|].
  destruct (decide (d = m_d h)) as [->|Hne]; [|by rewrite list_lookup_insert_ne]. rewrite list_lookup_insert_eq by (by apply lookup_lt_Some in Hx). by rewrite Hx.
Qed.

(** A message that is not acked keeps its delivery alive. *)
Lemma unacked_live w m : dinv w -> unacked w m -> exists h x, ms w !! m = Some h /\ ds w !! m_d h = Some x /\ 0 < d_refs x.
Proof.
  intros V (h & Hh & Ha). destruct (v_handles _ V m h Hh) as [x Hx]. exists h, x. split; [done|]. split; [done|]. rewrite (v_refs _ V _ _ Hx).
  assert (Hp : 0 < pending (m_d h) (ms w)).
  { pose proof (pending_nonneg (m_d h) (ms w)). destruct (decide (pending (m_d h) (ms w) = 0)) as [E|]; [|lia]. rewrite pending_zero in E. rewrite (E m h Hh eq_refl) in Ha. done. }
  pose proof (occ_nonneg (m_d h) (releasing w).*1). unfold running. lia.
Qed.

Lemma deliver_spec w inn routes zc :
  exists w' fr, deliver w inn routes zc = (w', zip routes (seq (length (ms w)) (length routes)))
  /\ ms w' = ms w ++ repeat (mkHandle (length (ds w)) false) (length routes)
  /\ ds w' = ds w ++ [mkDelivery (len routes) inn fr]
  /\ engine_acks w' = engine_acks w ++ (match routes, inn with [], Some _ => [(length (ds w), true)] | _, _ => [] end).
Proof.
  unfold deliver. destruct routes as [|r routes]; [|eexists _, zc; split; [done|]; split; [done|]; split; [done|]; symmetry; apply app_nil_r].
  eexists _, false. split; [done|]. split; [symmetry; apply app_nil_r|]. split; [done|]. cbn. destruct inn; [done|]. symmetry. apply app_nil_r.
Qed.

Lemma repeat_lookup {A} (x : A) n k : repeat x n !! k = if decide (k < n)%nat then Some x else None.
Proof. revert k. induction n as [|n IH]; intros [|k]; cbn; try done. rewrite IH. destruct (decide _), (decide _); done || lia. Qed.

Lemma NoDup_omap_inj {A B} (f : A -> option B) l :
  (forall x y z, x ∈ l -> y ∈ l -> f x = Some z -> f y = Some z -> x = y) -> NoDup l -> NoDup (omap f l).
Proof.
  induction l as [|x l IH]; intros Hi Hn; cbn; [constructor|]. apply NoDup_cons in Hn as [Hx Hn]. assert (Hr : NoDup (omap f l)) by (apply IH; [|done]; intros a b z Ha Hb; apply Hi; by right).
  destruct (f x) as [z|] eqn:E; [|done]. apply NoDup_cons. split; [|done]. intros (y & Hy & Hz)%list_elem_of_omap. assert (y = x) as -> by (apply (Hi y x z); [by right|by left|done|done]). done.
Qed.

(** ** Open flows *)

Section invariant.
Context `{Window} (cc : Config).

Record linked (whom : list Z) (w : deliveries) (e : win) : Prop := {
  l_dinv : dinv w;
  l_ok : win_ok e;
  l_open d x f : ds w !! d = Some x -> d_in x = Some f -> 0 < d_refs x -> win_open e f;
  l_inj d1 d2 x1 x2 f : ds w !! d1 = Some x1 -> ds w !! d2 = Some x2 -> d_in x1 = Some f -> d_in x2 = Some f -> 0 < d_refs x1 -> 0 < d_refs x2 -> d1 = d2;
  l_whom : length whom = length (ms w);
  l_one m1 m2 r d : whom !! m1 = Some r -> whom !! m2 = Some r -> (fun h => m_d h) <$> ms w !! m1 = Some d -> (fun h => m_d h) <$> ms w !! m2 = Some d -> m1 = m2;
}.

Lemma tell_same e w w' : engine_acks w' = engine_acks w -> tell e w w' = e.
Proof. intros E. unfold tell, acked_flows. by rewrite E, drop_all. Qed.

Lemma linked_ack whom w e m b : linked whom w e -> linked whom (ack w m b) (tell e w (ack w m b)).
Proof.
  intros [L1 L2 L3 L4 L5 L6]. destruct (ack_same w m b) as (E1 & E2 & E3). rewrite (tell_same e w _ E2). split; rewrite ?E1, ?E3; try done.
  - by apply ack_step_inv.
  - intros m1 m2 r d. rewrite !ack_handle. apply L6.
Qed.

Lemma linked_window whom w e e' : linked whom w e -> win_ok e' -> (forall f, win_open e f -> win_open e' f) -> linked whom w e'.
Proof. intros [L1 L2 L3 L4 L5 L6] Hk Ho. split; try done. intros d x f Hd Hi Hr. apply Ho. by eapply L3. Qed.

Lemma linked_release whom w e i : linked whom w e -> linked whom (release w i) (tell e w (release w i)).
Proof.
  intros [L1 L2 L3 L4 L5 L6]. destruct (release_cases w i) as [Hm Hc]. pose proof (release_step_inv w i L1) as V. destruct Hc as [[E1 E2]|(d0 & b & x0 & _ & Hx0 & E1 & E2)].
  { rewrite (tell_same e w _ E2). split; rewrite ?E1, ?Hm; done. }
  assert (Hlt : (d0 < length (ds w))%nat) by by apply lookup_lt_Some in Hx0.
  assert (Hcase : forall d x, ds (release w i) !! d = Some x -> d <> d0 /\ ds w !! d = Some x \/ d = d0 /\ d_in x = d_in x0 /\ d_refs x = d_refs x0 - 1).
  { intros d x. rewrite E1. intros [(<- & <- & _)|[Hne ?]]%list_lookup_insert_Some; [by right|left; split; [congruence|done]]. }
  assert (Hflows : acked_flows w (release w i) = if d_refs x0 - 1 =? 0 then match d_in x0 with Some f => [f] | None => [] end else []).
  { unfold acked_flows. rewrite E2, drop_app_length. destruct (_ =? 0); [|done]. destruct (d_in x0) as [f|] eqn:Ef; [|done]. cbn. rewrite E1, list_lookup_insert_eq by done. cbn. done. }
  unfold tell. rewrite Hflows. set (e' := foldl _ e _).
  assert (He : win_ok e' /\ forall f, win_open e f -> (d_refs x0 - 1 = 0 -> d_in x0 <> Some f) -> win_open e' f).
  { unfold e'. destruct (Z.eqb_spec (d_refs x0 - 1) 0) as [Hz|Hz]; [|by split; auto]. destruct (d_in x0) as [g|]; [|by split; auto]. cbn. split; [by apply ack_ok|].
    intros f Hf Hne. apply ack_keeps; [done| |done]. intros ->. by apply Hne. }
  destruct He as [He1 He2]. split; rewrite ?Hm; try done.
  - intros d x f Hd Hi Hr. destruct (Hcase d x Hd) as [[Hne Hd']|(-> & Ei & Er)].
    + apply He2; [by eapply L3|]. intros Hz Hi0. apply Hne. eapply (L4 d d0 x x0 f); try done; lia.
    + rewrite Ei in Hi. apply He2; [eapply (L3 d0 x0); try done; lia|]. intros. lia.
  - intros d1 d2 x1 x2 f Hd1 Hd2 Hi1 Hi2 Hr1 Hr2. destruct (Hcase d1 x1 Hd1) as [[Hne1 Hd1']|(-> & Ei1 & Er1)], (Hcase d2 x2 Hd2) as [[Hne2 Hd2']|(-> & Ei2 & Er2)]; try done.
    + by eapply (L4 d1 d2 x1 x2 f).
    + eapply (L4 d1 d0 x1 x0 f); try done; [congruence|lia].
    + eapply (L4 d0 d2 x0 x2 f); try done; [congruence|lia].
Qed.

(** Flows of messages that are not acked are open, and different when the
    messages are for the same route. *)
Lemma linked_flows whom w e r l :
  linked whom w e -> NoDup l -> (forall m, m ∈ l -> whom !! m = Some r /\ unacked w m) -> NoDup (omap (flow_of w) l) /\ Forall (win_open e) (omap (flow_of w) l).
Proof.
  intros L Hn Hl. assert (Hlive : forall m f, m ∈ l -> flow_of w m = Some f -> exists h x, ms w !! m = Some h /\ ds w !! m_d h = Some x /\ d_in x = Some f /\ 0 < d_refs x).
  { intros m f Hm Hf. destruct (unacked_live w m (l_dinv _ _ _ L) (proj2 (Hl m Hm))) as (h & x & Hh & Hx & Hr). exists h, x. split_and!; try done. unfold flow_of in Hf. rewrite Hh in Hf. cbn in Hf. by rewrite Hx in Hf. }
  split.
  - apply NoDup_omap_inj; [|done]. intros m1 m2 f H1 H2 Hf1 Hf2. destruct (Hlive m1 f H1 Hf1) as (h1 & x1 & Hh1 & Hx1 & Hi1 & Hr1), (Hlive m2 f H2 Hf2) as (h2 & x2 & Hh2 & Hx2 & Hi2 & Hr2).
    apply (l_one _ _ _ L m1 m2 r (m_d h1)); [apply Hl, H1|apply Hl, H2|by rewrite Hh1|]. rewrite Hh2. cbn. f_equal. symmetry. by eapply (l_inj _ _ _ L _ _ x1 x2 f).
  - apply Forall_forall. intros f (m & Hm & Hf)%list_elem_of_omap. destruct (Hlive m f Hm Hf) as (h & x & _ & Hx & Hi & Hr). by eapply (l_open _ _ _ L).
Qed.

Lemma linked_deliver whom w e inn routes zc e' :
  linked whom w e -> NoDup routes -> win_ok e' -> (forall f, win_open e f -> win_open e' f) ->
  match inn with Some f => (~ win_open e f) /\ win_open e' f | None => True end ->
  linked (whom ++ routes) (fst (deliver w inn routes zc)) (tell e' w (fst (deliver w inn routes zc))).
Proof.
  intros [L1 L2 L3 L4 L5 L6] Hnd Hok Hkeep Hinn. destruct (deliver_spec w inn routes zc) as (w' & fr & Ed & Em & Eds & Ea). pose proof (deliver_inv w inn routes zc L1) as V. rewrite Ed in *. cbn [fst] in *. clear Ed.
  assert (Hlt : forall d x, ds w !! d = Some x -> d <> length (ds w)) by (intros d x Hd%lookup_lt_Some; lia).
  assert (Hcase : forall d x, ds w' !! d = Some x -> ds w !! d = Some x \/ d = length (ds w) /\ x = mkDelivery (len routes) inn fr).
  { intros d x. rewrite Eds. intros [[_ ?]|?]%lookup_snoc_cases; [by left|by right]. }
  assert (Hfl : acked_flows w w' = match routes, inn with [], Some f => [f] | _, _ => [] end).
  { unfold acked_flows. rewrite Ea, drop_app_length. destruct routes; [|done]. destruct inn; [|done]. cbn. by rewrite Eds, lookup_app_r, Nat.sub_diag by lia. }
  set (e2 := tell e' w w'). assert (He : win_ok e2 /\ forall f, win_open e' f -> (routes = [] -> inn <> Some f) -> win_open e2 f).
  { unfold e2, tell. rewrite Hfl. destruct routes; [|by split; auto]. destruct inn as [g|]; [|by split; auto]. cbn. split; [by apply ack_ok|]. intros f Hf Hne. apply ack_keeps; [done| |done].
    intros ->. by apply Hne. }
  destruct He as [He1 He2]. split; try done.
  - intros d x f Hd Hi Hr. destruct (Hcase d x Hd) as [Hd'|[-> ->]].
    + apply He2; [apply Hkeep; by eapply L3|]. intros _ ->. apply (proj1 Hinn). by eapply L3.
    + cbn in Hi, Hr. subst inn. apply He2; [apply Hinn|]. intros ->. done.
  - intros d1 d2 x1 x2 f Hd1 Hd2 Hi1 Hi2 Hr1 Hr2. destruct (Hcase d1 x1 Hd1) as [Hd1'|[-> ->]], (Hcase d2 x2 Hd2) as [Hd2'|[-> ->]]; try done.
    + by eapply (L4 d1 d2 x1 x2 f).
    + cbn in Hi2. subst inn. destruct (proj1 Hinn). by eapply (L3 d1 x1).
    + cbn in Hi1. subst inn. destruct (proj1 Hinn). by eapply (L3 d2 x2).
  - rewrite Em, !length_app, repeat_length. lia.
  - assert (Hnew : forall m d, (fun h => m_d h) <$> ms w' !! m = Some d -> (m < length (ms w))%nat /\ (fun h => m_d h) <$> ms w !! m = Some d /\ d <> length (ds w) \/ (length (ms w) <= m)%nat /\ d = length (ds w)).
    { intros m d. rewrite Em. destruct (decide (m < length (ms w))%nat) as [Hl|Hl].
      - rewrite lookup_app_l by done. intros Hd. left. split; [done|]. split; [done|]. destruct (ms w !! m) as [h|] eqn:Hh; [|done]. injection Hd as <-. destruct (v_handles _ L1 m h Hh) as [x Hx]. by apply Hlt in Hx.
      - rewrite lookup_app_r by lia. rewrite repeat_lookup. destruct (decide _); [|done]. intros [= <-]. right. split; [lia|done]. }
    intros m1 m2 r d H1 H2 H3 H4. destruct (Hnew m1 d H3) as [(A1 & A2 & A3)|(A1 & A2)], (Hnew m2 d H4) as [(B1 & B2 & B3)|(B1 & B2)]; try done.
    + rewrite lookup_app_l in H1, H2 by lia. by apply (L6 m1 m2 r d).
    + rewrite lookup_app_r in H1, H2 by lia. apply (NoDup_lookup _ _ _ _ Hnd H1) in H2. lia.
Qed.
End invariant.

(** ** Room for QoS 1 and 2 *)

(** The messages a subscriber has yet to read. *)
Definition content (s : subscriber) (l : list nat) : Prop :=
  match s_sink s with Chan ch => l = ch | Que q => holds q l /\ closed q = s_closed s | Callback => l = [] end.

(** A subscription that keeps room: it asks for QoS 1 or 2, acks itself, and
    as a queue does not drop its oldest message. *)
Definition guarded (s : subscriber) : Prop :=
  0 < room (s_cfg s) /\ match s_sink s with Que _ => dropPolicy (s_cfg s) = DropNewest | _ => True end.

(** The bound on QoS 0 messages, if there is one. *)
Definition plain_bound (s : subscriber) : option Z :=
  match s_sink s with Que _ => if 0 <? maxQueueSize (s_cfg s) then Some (maxQueueSize (s_cfg s)) else None | _ => Some (bufferSize (s_cfg s)) end.

(** How many of [l] have QoS 1 or 2. *)
Definition qos_count (w : deliveries) (l : list nat) : Z := len (omap (flow_of w) l).

Section subscribers.
Context `{Window} (whom : list Z).

Record sub_ok (w : deliveries) (todo : list (Z * nat)) (r : Z) (s : subscriber) (l : list nat) : Prop := {
  u_content : content s l;
  u_nodup : NoDup (s_read s ++ l);
  u_whom m : m ∈ s_read s ++ l -> whom !! m = Some r;
  u_todo m : (r, m) ∈ todo -> m ∉ s_read s ++ l;
  u_unacked m : autoAck (s_cfg s) = false -> m ∈ l -> unacked w m;
  u_room : 0 < room (s_cfg s) -> autoAck (s_cfg s) = false /\ room (s_cfg s) = win_limit;
  u_buffer : 0 <= bufferSize (s_cfg s);
  u_plain b : guarded s -> plain_bound s = Some b -> len l <= b + qos_count w l;
  u_window m : guarded s -> (r, m) ∈ todo -> is_Some (flow_of w m) -> qos_count w l < win_limit;
  u_dropped m : m ∈ s_dropped s -> (m < length (ms w))%nat /\ (guarded s -> flow_of w m = None);
}.

Lemma qos_count_ext w w' l : (forall m, m ∈ l -> flow_of w' m = flow_of w m) -> qos_count w' l = qos_count w l.
Proof. intros Hf. unfold qos_count. f_equal. induction l as [|m l IH]; [done|]. cbn. rewrite (Hf m) by by left. rewrite IH; [done|]. intros k Hk. apply Hf. by right. Qed.

Lemma qos_count_snoc w l m : qos_count w (l ++ [m]) = qos_count w l + (match flow_of w m with Some _ => 1 | None => 0 end).
Proof. unfold qos_count. rewrite omap_app, len_app. cbn. by destruct (flow_of w m). Qed.

(** What acks of messages for the route [r] change. *)
Record touched (r : Z) (w w' : deliveries) : Prop := {
  t_flow m : flow_of w' m = flow_of w m;
  t_len : length (ms w') = length (ms w);
  t_acks : engine_acks w' = engine_acks w;
  t_unacked m : whom !! m <> Some r -> unacked w m -> unacked w' m;
  t_linked e : linked whom w e -> linked whom w' e;
}.

Lemma touched_refl r w : touched r w w.
Proof. by split. Qed.

Lemma touched_trans r w1 w2 w3 : touched r w1 w2 -> touched r w2 w3 -> touched r w1 w3.
Proof. intros [] []. split; [congruence|congruence|congruence|auto|auto]. Qed.

Lemma touched_ack r w m b : whom !! m = Some r -> touched r w (ack w m b).
Proof.
  intros Hm. destruct (ack_same w m b) as (E1 & E2 & E3). split; try done.
  - intros k. apply ack_flow.
  - intros k Hk. apply ack_unacked. congruence.
  - intros e L. pose proof (linked_ack whom w e m b L) as L'. by rewrite (tell_same e w _ E2) in L'.
Qed.

Lemma sub_ok_dels w w' todo todo' r s l :
  sub_ok w todo r s l -> (forall m, m ∈ s_dropped s ++ l ++ todo'.*2 -> flow_of w' m = flow_of w m) -> (length (ms w) <= length (ms w'))%nat ->
  (forall m, m ∈ l -> unacked w m -> unacked w' m) -> (forall p, p ∈ todo' -> p ∈ todo) -> sub_ok w' todo' r s l.
Proof.
  intros [] Hf Hl Hu Ht. assert (Hq : qos_count w' l = qos_count w l) by (apply qos_count_ext; intros m Hm; apply Hf; rewrite !elem_of_app; tauto).
  split; rewrite ?Hq; try done; try (by eauto).
  - intros m Hg Hm Hs. eapply u_window0; [done|by apply Ht|]. rewrite <- (Hf m); [done|]. rewrite !elem_of_app. right. right. apply list_elem_of_fmap. by exists (r, m).
  - intros m Hm. destruct (u_dropped0 m Hm) as [A B]. split; [lia|]. intros Hg. rewrite (Hf m); [auto|]. rewrite !elem_of_app. tauto.
Qed.

Lemma sub_ok_todo w r m rest s l : sub_ok w ((r, m) :: rest) r s l -> sub_ok w rest r s l.
Proof. intros U. apply (sub_ok_dels w w ((r, m) :: rest)); try done. intros p Hp. by right. Qed.

(** Dropped: the message is acked, the rest stands. *)
Lemma sub_ok_drop w r rest s l m :
  sub_ok w rest r s l -> whom !! m = Some r -> (m < length (ms w))%nat -> m ∉ l -> (guarded s -> flow_of w m = None) ->
  sub_ok (ack w m true) rest r (s <| s_dropped ::= fun d => d ++ [m] |>) l.
Proof.
  intros U Hm Hlt Hl Hg. apply (sub_ok_dels w _ rest).
  - destruct U. split; try done. change (s_dropped (s <| s_dropped ::= _ |>)) with (s_dropped s ++ [m]). intros k [Hk| ->%list_elem_of_singleton]%elem_of_app; [by apply u_dropped0|done].
  - intros k _. apply ack_flow.
  - by destruct (ack_same w m true) as (_ & _ & ->).
  - intros k Hk. apply ack_unacked. by intros ->.
  - done.
Qed.

Lemma sub_ok_ack w r rest s l m : sub_ok w rest r s l -> m ∉ l -> sub_ok (ack w m true) rest r s l.
Proof.
  intros U Hl. apply (sub_ok_dels w _ rest); try done.
  - intros k _. apply ack_flow.
  - by destruct (ack_same w m true) as (_ & _ & ->).
  - intros k Hk. apply ack_unacked. by intros ->.
Qed.

(** Accepted: one more to read. *)
Lemma sub_ok_accept w r rest s k' l m :
  let s' := s <| s_sink := k' |> in
  sub_ok w ((r, m) :: rest) r s l -> content s' (l ++ [m]) -> (guarded s' <-> guarded s) -> plain_bound s' = plain_bound s ->
  whom !! m = Some r -> (autoAck (s_cfg s) = false -> unacked w m) -> r ∉ rest.*1 ->
  (forall b, guarded s -> plain_bound s = Some b -> flow_of w m = None -> len l < b) -> sub_ok w rest r s' (l ++ [m]).
Proof.
  intros s' U Hc Hg Hb Hm Hu Hr Hp. assert (Hno : forall k, (r, k) ∉ rest) by (intros k Hin; apply Hr, list_elem_of_fmap; by exists (r, k)).
  pose proof (u_todo _ _ _ _ _ U m ltac:(by left)) as Hnew. destruct U. split; try done.
  - change (s_read s') with (s_read s). rewrite app_assoc. apply NoDup_app. split; [done|]. split; [|apply NoDup_singleton]. intros k Hk ->%list_elem_of_singleton. done.
  - change (s_read s') with (s_read s). intros k. rewrite app_assoc. intros [Hk| ->%list_elem_of_singleton]%elem_of_app; [by apply u_whom0|done].
  - intros k Hk. by apply Hno in Hk.
  - change (s_cfg s') with (s_cfg s). intros k Ha [Hk| ->%list_elem_of_singleton]%elem_of_app; auto.
  - intros b Hg' Hb'. rewrite Hb in Hb'. apply Hg in Hg'. specialize (u_plain0 b Hg' Hb'). rewrite len_app, qos_count_snoc. change (len [m]) with 1. destruct (flow_of w m) as [f|] eqn:Ef; [lia|].
    specialize (Hp b Hg' Hb' eq_refl). unfold qos_count. pose proof (len_nonneg (omap (flow_of w) l)). lia.
  - intros k _ Hk. by apply Hno in Hk.
  - intros k Hk. destruct (u_dropped0 k Hk) as [A B]. split; [done|]. intros Hg'. by apply B, Hg.
Qed.
End subscribers.

Section dispatching.
Context `{Window} (whom : list Z).

(** What a dispatch leaves: the subscriber as it should be, others untouched. *)
Definition delivered (r : Z) (rest : list (Z * nat)) (w : deliveries) (x : subscriber * deliveries) : Prop :=
  touched whom r w (snd x) /\ exists l, sub_ok whom (snd x) rest r (fst x) l.

Section one.
Context (w : deliveries) (r : Z) (m : nat) (rest : list (Z * nat)) (s : subscriber) (l : list nat).
Hypothesis U : sub_ok whom w ((r, m) :: rest) r s l.
Hypothesis Hm : whom !! m = Some r.
Hypothesis Hu : unacked w m.
Hypothesis Hr : r ∉ rest.*1.
Hypothesis Hall : length whom = length (ms w).

Lemma fresh_m : m ∉ l.
Proof. intros Hin. apply (u_todo _ _ _ _ _ _ U m ltac:(by left)). apply elem_of_app. by right. Qed.

Lemma known_m : (m < length (ms w))%nat.
Proof. destruct Hu as (h & Hh & _). by apply lookup_lt_Some in Hh. Qed.

Lemma delivered_ack : delivered r rest w (s, ack w m true).
Proof. split; [by apply touched_ack|]. exists l. apply sub_ok_ack; [by eapply sub_ok_todo|apply fresh_m]. Qed.

(** A message QoS 1 or 2 is never more than fits. *)
Lemma window_room b : guarded s -> plain_bound s = Some b -> is_Some (flow_of w m) -> len l < b + room (s_cfg s).
Proof.
  intros Hg Hb Hf. pose proof (u_plain _ _ _ _ _ _ U b Hg Hb) as Hp. pose proof (u_window _ _ _ _ _ _ U m Hg ltac:(by left) Hf) as Hw.
  destruct (u_room _ _ _ _ _ _ U (proj1 Hg)) as [_ ->]. lia.
Qed.

Let w1 : deliveries := if autoAck (s_cfg s) then ack w m true else w.

Lemma after_auto : touched whom r w w1 /\ sub_ok whom w1 ((r, m) :: rest) r s l /\ (autoAck (s_cfg s) = false -> unacked w1 m).
Proof.
  unfold w1. destruct (autoAck (s_cfg s)); [|by split; [apply touched_refl|]]. split; [by apply touched_ack|]. split; [|done]. apply sub_ok_ack; [done|apply fresh_m].
Qed.

Lemma uses_flow : usesRoom (s_cfg s) w1 m = (0 <? room (s_cfg s)) && bool_decide (is_Some (flow_of w m)).
Proof. unfold usesRoom. by rewrite (t_flow _ _ _ _ (proj1 after_auto)). Qed.

Lemma delivered_drop k : content (s <| s_sink := k |>) l -> (guarded (s <| s_sink := k |>) <-> guarded s) -> plain_bound (s <| s_sink := k |>) = plain_bound s ->
  (guarded s -> flow_of w m = None) -> delivered r rest w (dropInbound (s <| s_sink := k |>) w1 m).
Proof.
  intros Hc Hg Hb Hd. destruct after_auto as (T & U1 & _). pose proof (t_flow _ _ _ _ T) as Hfl. pose proof (t_len _ _ _ _ T) as Hlen. clearbody w1. split.
  - eapply touched_trans; [exact T|]. by apply touched_ack.
  - exists l. apply sub_ok_drop; [|done|rewrite Hlen; apply known_m|apply fresh_m|intros ?%Hg; rewrite Hfl; auto].
    apply sub_ok_todo in U1. destruct U1. split; try done.
    + intros b Hg'. rewrite Hb. by apply u_plain0, Hg.
    + intros k' Hg'. by apply u_window0, Hg.
    + intros k' Hk'. destruct (u_dropped0 k' Hk') as [A B]. split; [done|]. intros Hg'. by apply B, Hg.
Qed.

Lemma delivered_accept k : content (s <| s_sink := k |>) (l ++ [m]) -> (guarded (s <| s_sink := k |>) <-> guarded s) -> plain_bound (s <| s_sink := k |>) = plain_bound s ->
  (forall b, guarded s -> plain_bound s = Some b -> flow_of w m = None -> len l < b) -> delivered r rest w (s <| s_sink := k |>, w1).
Proof.
  intros Hc Hg Hb Hp. destruct after_auto as (T & U1 & Hu1). pose proof (t_flow _ _ _ _ T) as Hfl. split; [exact T|]. exists (l ++ [m]). apply sub_ok_accept; try done.
  intros b Hg' Hb'. rewrite Hfl. by apply Hp.
Qed.

Lemma chan_delivered ch ok : s_sink s = Chan ch -> delivered r rest w (chanDeliver s ch ok w m).
Proof.
  intros Hs. assert (Hl : l = ch) by (pose proof (u_content _ _ _ _ _ _ U) as Hc; unfold content in Hc; by rewrite Hs in Hc).
  assert (Hb : plain_bound s = Some (bufferSize (s_cfg s))) by (unfold plain_bound; by rewrite Hs). assert (Hself : s <| s_sink := Chan ch |> = s) by (destruct s; cbn in *; by subst).
  unfold chanDeliver. destruct ok; cbn [negb]; [|apply delivered_ack]. fold w1. rewrite uses_flow.
  assert (Hdrop : (guarded s -> flow_of w m = None) -> delivered r rest w (dropInbound s w1 m)).
  { intros Hg. pose proof (delivered_drop (Chan ch)) as D. rewrite Hself in D. apply D; try done. apply (u_content _ _ _ _ _ _ U). }
  destruct (negb _ && _) eqn:E1.
  - apply Hdrop. intros [Hg _]. apply andb_true_iff in E1 as [E1 _]. destruct (Z.ltb_spec 0 (room (s_cfg s))); [|lia]. cbn in E1. apply negb_true_iff, bool_decide_eq_false in E1. by destruct (flow_of w m); [destruct E1|].
  - destruct (Z.ltb_spec (len ch) (bufferSize (s_cfg s) + room (s_cfg s))) as [Hlt|Hge].
    + apply delivered_accept; unfold content, guarded, plain_bound; cbn [s_sink]; rewrite ?Hs; try done; [by rewrite Hl|]. intros b _ [= <-] Hf. rewrite Hf in E1. rewrite bool_decide_eq_false_2 in E1 by (by intros [? ?]).
      rewrite andb_false_r in E1. cbn in E1. apply Z.leb_gt in E1. by rewrite Hl.
    + apply Hdrop. intros Hg. destruct (flow_of w m) as [f|] eqn:Ef; [|done]. pose proof (window_room _ Hg Hb ltac:(by rewrite Ef)) as Hw. rewrite Hl in Hw. lia.
Qed.
(** The queue that drops its oldest message. *)
Lemma evict_delivered q' e l0 : l = e :: l0 -> (match s_sink s with Que _ => True | _ => False end) -> dropPolicy (s_cfg s) = DropOldest -> holds q' (l0 ++ [m]) -> closed q' = s_closed s ->
  delivered r rest w (dropInbound (s <| s_sink := Que q' |>) w1 e).
Proof.
  intros Hl Hk Hp Hq Hc. destruct after_auto as (T & U1 & Hu1). pose proof (t_len _ _ _ _ T) as Hlen. clearbody w1.
  pose proof (u_nodup _ _ _ _ _ _ U1) as Hn. pose proof (u_whom _ _ _ _ _ _ U1) as Hwh. pose proof (u_todo _ _ _ _ _ _ U1 m ltac:(by left)) as Hnew.
  assert (Hnd : NoDup (s_read s ++ l0 ++ [m]) /\ e ∉ l0 ++ [m]).
  { subst l. rewrite <- Permutation_middle in Hn. apply NoDup_cons in Hn as [He Hn]. rewrite elem_of_app in He. rewrite elem_of_app, elem_of_cons in Hnew. split.
    - rewrite app_assoc. apply NoDup_app. split; [done|]. split; [|apply NoDup_singleton]. intros k Hk' ->%list_elem_of_singleton. apply elem_of_app in Hk'. tauto.
    - rewrite elem_of_app, list_elem_of_singleton. intros [?| ->]; tauto. }
  destruct Hnd as [Hnd He]. assert (Hew : whom !! e = Some r) by (apply Hwh; subst l; apply elem_of_app; right; by left).
  assert (Hng : ~ guarded (s <| s_sink := Que q' |>)) by (intros [_ Hg]; cbn in Hg; congruence). assert (Hng' : ~ guarded s) by (intros [_ Hg]; destruct (s_sink s); done || congruence).
  split; [eapply touched_trans; [exact T|by apply touched_ack]|]. exists (l0 ++ [m]). apply sub_ok_drop; try done.
  - split; cbn [s_read s_cfg s_dropped]; try done.
    + intros k. rewrite app_assoc. intros [Hk'| ->%list_elem_of_singleton]%elem_of_app; [|done]. apply Hwh. subst l. rewrite elem_of_app, elem_of_cons. apply elem_of_app in Hk'. tauto.
    + intros k Hk'. destruct Hr. apply list_elem_of_fmap. by exists (r, k).
    + intros k Ha [Hk'| ->%list_elem_of_singleton]%elem_of_app; [|auto]. apply (u_unacked _ _ _ _ _ _ U1 k Ha). subst l. by right.
    + apply U1.
    + apply U1.
    + intros k Hk'. split; [apply (u_dropped _ _ _ _ _ _ U1 k Hk')|done].
  - apply lookup_lt_Some in Hew. lia.
Qed.

Lemma queue_delivered q ok : s_sink s = Que q -> s_closed s = false -> delivered r rest w (queueDeliver s q ok w m).
Proof.
  intros Hs Hcl. pose proof (u_content _ _ _ _ _ _ U) as Hc. unfold content in Hc. rewrite Hs in Hc. destruct Hc as [Hq Hqc]. rewrite Hcl in Hqc.
  unfold queueDeliver. destruct ok; cbn [negb]; [|apply delivered_ack]. fold w1. rewrite uses_flow. set (limit := if _ && _ && _ then _ else _).
  assert (Hsame : forall q', (guarded (s <| s_sink := Que q' |>) <-> guarded s) /\ plain_bound (s <| s_sink := Que q' |>) = plain_bound s).
  { intros q'. unfold guarded, plain_bound. cbn [s_sink s_cfg]. by rewrite Hs. }
  destruct (push_spec q l m limit (bool_decide (dropPolicy (s_cfg s) = DropOldest)) Hq Hqc) as (q' & Hcq & Hp).
  assert (Hb : forall b, plain_bound s = Some b -> b = maxQueueSize (s_cfg s) /\ 0 < b).
  { unfold plain_bound. rewrite Hs. intros b. destruct (Z.ltb_spec 0 (maxQueueSize (s_cfg s))); [|done]. intros [= <-]. done. }
  destruct (decide (0 < limit <= len l)) as [Hlim|Hlim].
  - case_bool_decide as Hpol; destruct Hp as [-> Hp].
    + assert (Hne : exists e l0, l = e :: l0) by (clear - Hlim; destruct l as [|e l0]; [change (len (@nil nat)) with 0 in Hlim; lia|eauto]). destruct Hne as (e & l0 & El).
      rewrite El in Hp |- *. cbn [hd_error]. apply (evict_delivered q' e l0); try done; [by rewrite Hs|congruence].
    + apply delivered_drop; try apply Hsame; [split; [done|cbn; congruence]|]. intros Hg. destruct (flow_of w m) as [f|] eqn:Ef; [|done]. exfalso. pose proof Hg as [Hroom Hnew]. rewrite Hs in Hnew.
      unfold limit in Hlim. destruct (Z.ltb_spec 0 (maxQueueSize (s_cfg s))) as [Hmx|Hmx]; cbn [andb] in Hlim; [|lia]. rewrite bool_decide_eq_true_2 in Hlim by done.
      destruct (Z.ltb_spec 0 (room (s_cfg s))); [|lia]. cbn [andb] in Hlim. rewrite bool_decide_eq_true_2 in Hlim by (by eexists).
      pose proof (window_room (maxQueueSize (s_cfg s)) Hg) as Hw. unfold plain_bound in Hw. rewrite Hs in Hw. destruct (Z.ltb_spec 0 (maxQueueSize (s_cfg s))); [|lia]. specialize (Hw eq_refl ltac:(by rewrite Ef)). lia.
  - destruct Hp as [-> Hp]. cbn [negb]. apply delivered_accept; try apply Hsame; [split; [done|cbn; congruence]|]. intros b Hg Hpb Hf. destruct (Hb b Hpb) as [-> Hpos]. unfold limit in Hlim.
    rewrite Hf, (bool_decide_eq_false_2 (is_Some None)), !andb_false_r in Hlim by (by intros [? ?]). lia.
Qed.
End one.
End dispatching.

(** ** The invariant of a run *)

Section runs.
Context `{Window} (cc : Config).
Hypothesis Hlimit : cfg_ReceiveMaximum cc = win_limit.
Implicit Types (st : state).

Record sinv st : Prop := {
  j_linked : linked (whom st) (dels st) (engine st);
  j_todo : NoDup (todo st).*1;
  j_known r m : (r, m) ∈ todo st -> whom st !! m = Some r /\ unacked (dels st) m;
  j_subs r s : subs st !! r = Some s -> exists l, sub_ok (whom st) (dels st) (todo st) r s l;
}.

Lemma sinv_window st e : sinv st -> win_ok e -> (forall f, win_open (engine st) f -> win_open e f) -> sinv (st <| engine := e |>).
Proof. intros [] Hk Ho. split; try done. by apply (linked_window _ _ (engine st)). Qed.

(** A change of one subscriber. *)
Lemma sinv_sub st r s' l : sinv st -> sub_ok (whom st) (dels st) (todo st) r s' l -> sinv (st <| subs ::= <[r := s']> |>).
Proof. intros [] U. split; try done. intros r0 s0. cbn. intros [[<- <-]|[_ Hs]]%lookup_insert_Some; [by exists l|by apply j_subs0]. Qed.

(** Acks and releases outside the read loop. *)
Lemma sinv_dels st w' :
  sinv st -> linked (whom st) w' (tell (engine st) (dels st) w') -> (forall m, flow_of w' m = flow_of (dels st) m) -> length (ms w') = length (ms (dels st)) ->
  (forall m, (exists r s, subs st !! r = Some s /\ exists l, sub_ok (whom st) (dels st) (todo st) r s l /\ m ∈ l) \/ m ∈ (todo st).*2 -> unacked (dels st) m -> unacked w' m) ->
  sinv (set_dels st w').
Proof.
  intros [] L Hf Hlen Hu. split; [exact L|exact j_todo0| |].
  - intros r m Hin. destruct (j_known0 r m Hin) as [A B]. split; [exact A|]. apply Hu; [|done]. right. apply list_elem_of_fmap. by exists (r, m).
  - intros r s Hs. destruct (j_subs0 r s Hs) as [l U]. exists l. apply (sub_ok_dels _ (dels st) w' (todo st)); try done.
    + lia.
    + intros m Hm. apply Hu. left. exists r, s. split; [done|]. by exists l.
Qed.

(** [sub_ok] for a subscriber just made. *)
Lemma new_subscriber_ok st r fl opts filters s :
  0 <= win_limit -> new_subscriber cc fl opts filters = Some s -> (forall m, (r, m) ∉ todo st) -> sub_ok (whom st) (dels st) (todo st) r s [].
Proof.
  intros Hpos Hn Ht. assert (Hbuf : forall o cfg, 0 <= bufferSize cfg -> 0 <= bufferSize (foldl apply_option cfg o)).
  { induction o as [|x o IH]; intros cfg Hc; [done|]. cbn [foldl]. apply IH. destruct x as [n|n|p| |]; cbn; [destruct (Z.ltb_spec 0 n); cbn; lia|by destruct (n =? 0)|done..]. }
  assert (Hb0 : 0 <= bufferSize (subscribeConfigFrom cc opts)) by by apply Hbuf.
  assert (Hroom : forall cfg, 0 < qosRoom cc cfg filters -> autoAck cfg = false /\ qosRoom cc cfg filters = win_limit).
  { intros cfg. unfold qosRoom. destruct (autoAck cfg); [lia|]. destruct (existsb _ _); [done|lia]. }
  assert (Hset : forall cfg, let c := cfg <| room := qosRoom cc cfg filters |> in 0 < room c -> autoAck c = false /\ room c = win_limit) by (intros cfg; exact (Hroom cfg)).
  assert (Hshape : s_read s = [] /\ s_dropped s = [] /\ s_closed s = false /\ content s [] /\ 0 <= bufferSize (s_cfg s) /\ (0 < room (s_cfg s) -> autoAck (s_cfg s) = false /\ room (s_cfg s) = win_limit)).
  { unfold new_subscriber, chanSubscribeConfig in Hn. assert (Hempty : holds (A := nat) NewQueue []) by apply empty_simulates. destruct fl.
    - destruct (decide _); [destruct (dropPolicyExplicit _); [done|]|]; injection Hn as <-; split_and!; try done; cbn [s_cfg]; apply Hset.
    - injection Hn as <-. split_and!; try done. cbn [s_cfg]. apply Hset.
    - injection Hn as <-. split_and!; try done. cbn. intros Hr. exfalso. revert Hr. assert (E : room (subscribeConfigFrom cc opts) = 0); [|change (0 < room (subscribeConfigFrom cc opts) -> False); lia].
      assert (Hz : forall o cfg, room cfg = 0 -> room (foldl apply_option cfg o) = 0); [|by apply Hz].
      induction o as [|x o IH]; intros cfg Hc; [done|]. cbn [foldl]. apply IH. destruct x as [n|n|p| |]; cbn; [by destruct (0 <? n)|by destruct (n =? 0)|done..]. }
  destruct Hshape as (E1 & E2 & E3 & E4 & E5 & E6). split; rewrite ?E1, ?E2; cbn [app]; try done.
  - constructor.
  - by intros m ?%elem_of_nil.
  - intros m Hm. by apply Ht in Hm.
  - by intros m _ ?%elem_of_nil.
  - intros b _ Hb. change (0 <= b + 0). unfold plain_bound in Hb. destruct (s_sink s); try (injection Hb as <-; lia). destruct (Z.ltb_spec 0 (maxQueueSize (s_cfg s))); [|done]. injection Hb as <-. lia.
  - intros m _ Hm. by apply Ht in Hm.
  - by intros m ?%elem_of_nil.
Qed.
(** *** Receiving *)

Lemma zip_seq_elem {A} (l : list A) n r m : (r, m) ∈ zip l (seq n (length l)) -> exists i, l !! i = Some r /\ m = (n + i)%nat.
Proof.
  intros (i & Hi)%list_elem_of_lookup. rewrite lookup_zip_with_Some in Hi. destruct Hi as (a & b & [= -> ->] & Ha & Hb). exists i. split; [done|]. apply lookup_seq in Hb. lia.
Qed.

Lemma publish_inv st inn e' routes :
  sinv st -> todo st = [] -> NoDup routes -> win_ok e' -> (forall f, win_open (engine st) f -> win_open e' f) ->
  match inn with
  | Some f => ~ win_open (engine st) f /\ win_open e' f /\ forall l, NoDup l -> Forall (win_open (engine st)) l -> len l < win_limit
  | None => True
  end -> sinv (publish (st <| engine := e' |>) inn routes).
Proof.
  intros [L _ _ Hsubs] Ht Hnd Hok Hkeep Hinn. unfold publish. change (subs (st <| engine := e' |>)) with (subs st). change (dels (st <| engine := e' |>)) with (dels st). set (zc := forallb _ routes).
  assert (Hinn' : match inn with Some f => (~ win_open (engine st) f) /\ win_open e' f | None => True end) by (destruct inn; tauto).
  pose proof (linked_deliver (whom st) (dels st) (engine st) inn routes zc e' L Hnd Hok Hkeep Hinn') as L'.
  destruct (deliver_spec (dels st) inn routes zc) as (w' & fr & Ed & Em & Eds & _). rewrite Ed in *. cbn [fst] in L'. set (w := dels st) in *. set (n := length (ms w)) in *.
  assert (Hn : length (whom st) = n) by apply L.
  assert (Hold : forall m, (m < n)%nat -> ms w' !! m = ms w !! m) by (intros m Hm; rewrite Em; by apply lookup_app_l).
  assert (Hflow : forall m, (m < n)%nat -> flow_of w' m = flow_of w m).
  { intros m Hm. unfold flow_of. rewrite Hold by done. destruct (ms w !! m) as [h|] eqn:Eh; [|done]. cbn. destruct (v_handles _ (l_dinv _ _ _ L) m h Eh) as [x Hx]. rewrite Hx, Eds, lookup_app_l by (by apply lookup_lt_Some in Hx). by rewrite Hx. }
  assert (Hnew : forall i, (i < length routes)%nat -> ms w' !! (n + i)%nat = Some (mkHandle (length (ds w)) false) /\ flow_of w' (n + i) = inn).
  { intros i Hi. assert (E : ms w' !! (n + i)%nat = Some (mkHandle (length (ds w)) false)) by (rewrite Em, lookup_app_r by (unfold n; lia); fold n; replace (n + i - n)%nat with i by lia; by rewrite repeat_lookup, decide_True).
    split; [done|]. unfold flow_of. rewrite E. cbn. by rewrite Eds, lookup_app_r, Nat.sub_diag by lia. }
  assert (Hin : forall r m, (r, m) ∈ zip routes (seq n (length routes)) -> exists i, (i < length routes)%nat /\ routes !! i = Some r /\ m = (n + i)%nat).
  { intros r m (i & Hi & Hm)%zip_seq_elem. exists i. split; [by apply lookup_lt_Some in Hi|done]. }
  split.
  - exact L'.
  - change (NoDup (zip routes (seq n (length routes))).*1). rewrite fst_zip by (rewrite length_seq; lia). done.
  - intros r m Hi. apply Hin in Hi as (i & Hlt & Hri & ->). split.
    + change ((whom st ++ routes) !! (n + i)%nat = Some r). rewrite lookup_app_r by lia. rewrite Hn. by replace (n + i - n)%nat with i by lia.
    + eexists. split; [apply Hnew, Hlt|done].
  - intros r s Hs. destruct (Hsubs r s Hs) as [l U]. exists l. rewrite Ht in U.
    assert (Hk : forall m, m ∈ s_read s ++ l -> (m < n)%nat) by (intros m Hm; rewrite <- Hn; by apply (u_whom _ _ _ _ _ _ U), lookup_lt_Some in Hm).
    assert (Hq : qos_count w' l = qos_count w l) by (apply qos_count_ext; intros m Hm; apply Hflow, Hk, elem_of_app; by right).
    split.
    + apply U.
    + apply U.
    + intros m Hm. change ((whom st ++ routes) !! m = Some r). rewrite lookup_app_l by (rewrite Hn; by apply Hk). by apply (u_whom _ _ _ _ _ _ U).
    + intros m (i & _ & _ & ->)%Hin Hm%Hk. lia.
    + intros m Ha Hm. destruct (u_unacked _ _ _ _ _ _ U m Ha Hm) as (h & Hh & Hh'). exists h. split; [|done]. change (ms w' !! m = Some h). rewrite Hold; [done|]. by apply lookup_lt_Some in Hh.
    + apply U.
    + apply U.
    + intros b Hg Hb. change (len l <= b + qos_count w' l). rewrite Hq. by apply (u_plain _ _ _ _ _ _ U).
    + intros m Hg (i & Hlt & _ & ->)%Hin. change (is_Some (flow_of w' (n + i)) -> qos_count w' l < win_limit). rewrite (proj2 (Hnew i Hlt)), Hq. intros [f ->]. destruct Hinn as (_ & _ & Hcount).
      destruct (u_room _ _ _ _ _ _ U (proj1 Hg)) as [Ha _]. destruct (linked_flows (whom st) w (engine st) r l L) as [F1 F2].
      * pose proof (u_nodup _ _ _ _ _ _ U) as Hnl. by apply NoDup_app in Hnl as (_ & _ & Hnl).
      * intros m Hm. split; [apply (u_whom _ _ _ _ _ _ U), elem_of_app; by right|by apply (u_unacked _ _ _ _ _ _ U)].
      * by apply Hcount.
    + intros m Hm. destruct (u_dropped _ _ _ _ _ _ U m Hm) as [A B]. change ((m < length (ms w'))%nat /\ (guarded s -> flow_of w' m = None)). split; [rewrite Em, length_app; lia|]. rewrite Hflow by done. done.
Qed.
(** *** Dispatching *)

Lemma dispatch_inv st ok r m rest s :
  sinv st -> todo st = (r, m) :: rest -> subs st !! r = Some s ->
  let (s', w') := dispatch_to s ok (dels st) m in sinv ((set_dels (st <| todo := rest |>) w') <| subs ::= <[r := s']> |>).
Proof.
  intros [L Hnd Hkn Hsubs] Et Hs. rewrite Et in *. apply NoDup_cons in Hnd as [Hr Hnd]. fold (rest.*1) in *. destruct (Hkn r m ltac:(by left)) as [Hm Hu]. destruct (Hsubs r s Hs) as [l U].
  assert (D : delivered (whom st) r rest (dels st) (dispatch_to s ok (dels st) m)).
  { unfold dispatch_to. destruct (s_closed s) eqn:Hc; [by eapply delivered_ack|]. pose proof (l_whom _ _ _ L) as Hw. destruct (s_sink s) as [ch|q|] eqn:Hk; [by eapply chan_delivered|by eapply queue_delivered|by eapply delivered_ack]. }
  destruct (dispatch_to s ok (dels st) m) as [s' w']. destruct D as [T [l' U']]. cbn [fst snd] in *. split.
  - change (linked (whom st) w' (tell (engine st) (dels st) w')). rewrite tell_same by apply T. by apply T.
  - exact Hnd.
  - intros r0 m0 Hin. destruct (Hkn r0 m0 ltac:(by right)) as [A B]. split; [exact A|]. apply T; [|done]. intros E. change (whom st !! m0 = Some r0) in A. rewrite A in E. injection E as ->.
    apply Hr, list_elem_of_fmap. by exists (r, m0).
  - intros r0 s0 Hs0. change (<[r := s']> (subs st) !! r0 = Some s0) in Hs0. apply lookup_insert_Some in Hs0 as [[<- <-]|[Hne Hs0]]; [by exists l'|]. destruct (Hsubs r0 s0 Hs0) as [l0 U0]. exists l0.
    apply (sub_ok_dels _ (dels st) w' ((r, m) :: rest)); try done.
    + intros k _. apply T.
    + by rewrite (t_len _ _ _ _ T).
    + intros k Hk. apply T. rewrite (u_whom _ _ _ _ _ _ U0 k) by (apply elem_of_app; by right). congruence.
    + intros p Hp. by right.
Qed.

(** *** Reading and acking *)

(** A consumer takes the first message. *)
Lemma read_ok st r s k' m l : sub_ok (whom st) (dels st) (todo st) r s (m :: l) ->
  content (s <| s_sink := k' |>) l -> (guarded (s <| s_sink := k' |>) <-> guarded s) -> plain_bound (s <| s_sink := k' |>) = plain_bound s ->
  sub_ok (whom st) (dels st) (todo st) r (s <| s_sink := k' |> <| s_read ::= fun d => d ++ [m] |>) l.
Proof.
  intros U Hc Hg Hb. destruct U. set (s' := s <| s_sink := k' |>) in *. change (s_read (s' <| s_read ::= _ |>)) with (s_read s ++ [m]) in *.
  assert (Happ : (s_read s ++ [m]) ++ l = s_read s ++ m :: l) by by rewrite <- app_assoc.
  split; change (s_read (s' <| s_read ::= _ |>)) with (s_read s ++ [m]); rewrite ?Happ; try done.
  - intros k Ha Hk. apply u_unacked0; [done|by right].
  - intros b Hg' Hb'. change (plain_bound s' = Some b) in Hb'. rewrite Hb in Hb'. specialize (u_plain0 b (proj1 Hg Hg') Hb'). rewrite len_cons in u_plain0. unfold qos_count in *. cbn in u_plain0.
    destruct (flow_of (dels st) m); [rewrite len_cons in u_plain0|]; lia.
  - intros k Hg' Hk Hf. specialize (u_window0 k (proj1 Hg Hg') Hk Hf). unfold qos_count in *. cbn in u_window0. destruct (flow_of (dels st) m); [rewrite len_cons in u_window0|]; lia.
  - intros k Hk. destruct (u_dropped0 k Hk) as [A B]. split; [done|]. intros Hg'. by apply B, Hg.
Qed.

Lemma close_ok st r s : subs st !! r = Some s -> (exists l, sub_ok (whom st) (dels st) (todo st) r s l) ->
  exists l, sub_ok (whom st) (dels st) (todo st) r (s <| s_closed := true |> <| s_sink := match s_sink s with Que q => Que (Close q) | k => k end |>) l.
Proof.
  intros _ [l U]. exists l. destruct U. set (s' := s <| s_closed := true |> <| s_sink := _ |>). assert (Hg : guarded s' <-> guarded s) by (unfold guarded, s'; cbn; by destruct (s_sink s)).
  assert (Hb : plain_bound s' = plain_bound s) by (unfold plain_bound, s'; cbn; by destruct (s_sink s)). split; try done.
  - unfold content, s' in *. cbn. destruct (s_sink s) as [ch|q|]; try done. destruct u_content0 as [A B]. destruct (op_simulates q (l, s_closed s) OClose (conj A B)) as [[C D] _]. split; [exact C|exact D].
  - intros b Hg' Hb'. rewrite Hb in Hb'. apply u_plain0; [by apply Hg|done].
  - intros k Hg'. by apply u_window0, Hg.
  - intros k Hk. destruct (u_dropped0 k Hk) as [A B]. split; [done|]. intros Hg'. by apply B, Hg.
Qed.

Lemma sstep_inv st e : 0 <= win_limit -> sinv st -> sinv (sstep cc st e).
Proof.
  intros Hpos J. pose proof J as [L Hnd Hkn Hsubs]. destruct e as [r fl opts filters|id qos routes|ok|r|r m|i|r|ev]; cbn [sstep].
  - destruct (subs st !! r) eqn:E; [done|]. destruct (new_subscriber cc fl opts filters) as [s|] eqn:Hn; [|done]. destruct (decide (r ∈ whom st)) as [|Hr]; [done|].
    apply (sinv_sub st r s []); [done|]. apply (new_subscriber_ok st r fl opts filters s Hpos Hn). intros m Hin. apply Hr. destruct (Hkn r m Hin) as [Hw _]. by eapply list_elem_of_lookup_2.
  - destruct (decide _) as [[Ht Hr]|]; [|done]. assert (Hself : publish st None routes = publish (st <| engine := engine st |>) None routes) by by destruct st.
    destruct (0 <? qos); [|rewrite Hself; apply publish_inv; try done; apply L]. pose proof (l_ok _ _ _ L) as Hok.
    pose proof (receive_ok id qos (engine st) Hok) as K1. pose proof (fun f => receive_keeps id qos (engine st) f Hok) as K2. destruct (win_receive id qos (engine st)) as [e [f|]] eqn:Er; cbn [fst] in *; [|by apply sinv_window].
    apply publish_inv; try done. exact (receive_new id qos (engine st) e f Hok Er).
  - destruct (todo st) as [|[r m] rest] eqn:Et; [done|]. change (subs (st <| todo := rest |>)) with (subs st). change (dels (st <| todo := rest |>)) with (dels st). destruct (subs st !! r) as [s|] eqn:Hs.
    + pose proof (dispatch_inv st ok r m rest s J Et Hs) as D. by destruct (dispatch_to s ok (dels st) m).
    + apply NoDup_cons in Hnd as [_ Hnd]. split; try done.
      * intros r0 m0 Hin. apply Hkn. by right.
      * intros r0 s0 Hs0. destruct (Hsubs r0 s0 Hs0) as [l U]. exists l. apply (sub_ok_dels _ (dels st) _ ((r, m) :: rest)); try done. intros p Hp. by right.
  - destruct (subs st !! r) as [s|] eqn:Hs; [|done]. destruct (Hsubs r s Hs) as [l U]. destruct (s_sink s) as [[|m ch]|q|] eqn:Hk; try done.
    + pose proof (u_content _ _ _ _ _ _ U) as Hc. unfold content in Hc. rewrite Hk in Hc. subst l. eapply sinv_sub; [done|]. apply read_ok; try done; unfold guarded, plain_bound; cbn; by rewrite Hk.
    + pose proof (u_content _ _ _ _ _ _ U) as Hc. unfold content in Hc. rewrite Hk in Hc. destruct Hc as [Hq Hcl]. destruct (pop_spec q l Hq) as (q' & E & Hq' & _ & _ & Hc'). unfold TryDequeue. rewrite E.
      destruct l as [|m l]; cbn [hd_error]; [done|]. eapply sinv_sub; [done|]. apply (read_ok st r s (Que q') m l); try done; [split; [done|cbn; congruence]| |]; unfold guarded, plain_bound; cbn; by rewrite Hk.
  - destruct (subs st !! r) as [s|] eqn:Hs; [|done]. destruct (decide (m ∈ s_read s)) as [Hm|]; [|done]. destruct (Hsubs r s Hs) as [l U]. pose proof (u_whom _ _ _ _ _ _ U m ltac:(apply elem_of_app; by left)) as Hw.
    apply sinv_dels; [done|by apply linked_ack|intros k; apply ack_flow|apply ack_same|]. intros k Hk. apply ack_unacked. intros ->. destruct Hk as [(r0 & s0 & Hs0 & l0 & U0 & Hk)|Hk].
    + pose proof (u_whom _ _ _ _ _ _ U0 m ltac:(apply elem_of_app; by right)) as Hw0. assert (r0 = r) as -> by congruence. assert (s0 = s) as -> by congruence.
      pose proof (u_nodup _ _ _ _ _ _ U0) as Hn0. apply NoDup_app in Hn0 as (_ & Hd & _). by apply (Hd m).
    + apply list_elem_of_fmap in Hk as ([r0 m0] & -> & Hin). cbn in *. destruct (Hkn r0 m0 Hin) as [A _]. assert (r0 = r) as -> by congruence. apply (u_todo _ _ _ _ _ _ U m0 Hin). apply elem_of_app. by left.
  - apply sinv_dels; [done|by apply linked_release|intros k; apply release_flow|by destruct (release_cases (dels st) i) as [-> _]|]. intros k _. unfold unacked. by destruct (release_cases (dels st) i) as [-> _].
  - destruct (subs st !! r) as [s|] eqn:Hs; [|done]. destruct (close_ok st r s Hs (Hsubs r s Hs)) as [l U]. by apply (sinv_sub st r _ l).
  - apply (sinv_window st); [done|apply step_ok, L|]. intros f. apply step_keeps, L.
Qed.

Lemma idle_inv e : win_ok e -> sinv (idle e).
Proof.
  intros He. split; [|constructor|by intros r m ?%elem_of_nil|]; [|intros r s; unfold idle; cbn [subs]; by rewrite lookup_empty].
  split; try done; [apply no_deliveries_inv].
Qed.
End runs.

(** ** Theorem *)

(** C11: a consumer that falls behind loses QoS 0 messages, never QoS 1 or 2.
    Whatever the broker publishes to whatever subscriptions, however slowly
    consumers read and ack, with connections coming and going in a session that
    lasts: a subscription that asked for QoS 1 or 2, acks its messages itself
    and, as a queue, drops its newest messages, has dropped only messages of
    QoS 0; the Receive Maximum the engine enforces leaves room for the
    others. *)
Theorem qos_messages_never_dropped `{Window} cc e es r s m :
  cfg_ReceiveMaximum cc = win_limit -> 0 < win_limit -> win_ok e ->
  let st := foldl (sstep cc) (idle e) es in
  subs st !! r = Some s -> guarded s -> m ∈ s_dropped s -> flow_of (dels st) m = None.
Proof.
  intros Hlim Hpos He st Hs Hg Hm. assert (J : sinv st).
  { apply foldl_inv; [|by apply idle_inv]. intros st' ev. apply sstep_inv; [done|lia]. }
  destruct (j_subs _ J r s Hs) as [l U]. by apply (u_dropped _ _ _ _ _ _ U).
Qed.

(** ** Witness

    A channel of one message plus room for two: the second QoS 0 message is
    dropped, the two QoS 1 messages are not. *)

Definition small_cfg : Inflight.Inflight.Config := Inflight.Inflight.mkConfig false 2 Inflight.Inflight.Fail.
Lemma small_pos : 0 < Inflight.Inflight.ReceiveMaximum small_cfg.
Proof. done. Qed.

#[local] Instance small_window : Window := engine_window small_cfg small_pos.

Definition small_client : Config := mkClientConfig 10 DropNewest 2.
Definition slow_day : list sevent :=
  [SEngine (Machine.Machine.EvConnected (Inflight.Inflight.mkConnInfo true 5 None 7 false) 0 : @win_event small_window);
   SSubscribe 1 FChan [SubBuffer 1] [mkFilter (str "a") 1 false false 0];
   SPublish 0 0 [1]; SDispatch true; SPublish 0 0 [1]; SDispatch true; SPublish 7 1 [1]; SDispatch true; SPublish 8 1 [1]; SDispatch true; SRead 1; SAck 1 0%nat; SRelease 0].
Abbreviation slow_end := (foldl (@sstep small_window small_client) (@idle small_window Machine.Machine.start) slow_day).

Lemma qos_messages_never_dropped_witness :
  cfg_ReceiveMaximum small_client = @win_limit small_window /\ 0 < @win_limit small_window /\ @win_ok small_window Machine.Machine.start
  /\ exists s, subs slow_end !! 1 = Some s /\ guarded s /\ s_sink s = Chan [2%nat; 3%nat] /\ s_dropped s = [1%nat] /\ flow_of (dels slow_end) 1 = None.
Proof.
  assert (He : @win_ok small_window Machine.Machine.start) by exact (Machine.Machine.reach_start small_cfg).
  split; [reflexivity|]. split; [reflexivity|]. split; [exact He|].
  destruct (subs slow_end !! 1) as [s|] eqn:Hs; [|vm_compute in Hs; discriminate Hs]. exists s. split; [reflexivity|].
  assert (Hs' : Some s = subs slow_end !! 1) by (symmetry; exact Hs). vm_compute in Hs'. injection Hs' as Hs'.
  assert (Hg : guarded s) by (rewrite Hs'; split; [reflexivity|exact I]). split; [exact Hg|]. split; [rewrite Hs'; reflexivity|]. split; [rewrite Hs'; reflexivity|].
  assert (Hd : 1%nat ∈ s_dropped s) by (rewrite Hs'; apply list_elem_of_singleton; reflexivity).
  pose proof (@qos_messages_never_dropped small_window small_client Machine.Machine.start slow_day 1 s 1%nat eq_refl eq_refl He) as T. cbv zeta in T.
  exact (T Hs Hg Hd).
Defined.

End Delivering.
