(* ===== verification/ConnWriter.v ===== *)
(** * ConnWriter: the write side of a connection (conn.go, publish.go)

    Everything a connection writes goes through its writer goroutine or, when
    nothing is queued, straight from the caller: [acquireIdle], [writeDirect]
    and [handOff] beside [queue], [writeLoop], [processWrite] and
    [drainWriteQueue]. The parties share the lock [wmu], the counter [queued],
    the queue and its fence [admit]; each step of the machine below is one
    operation on what they share, or one write. The bytes stay whole, every
    request is answered, and what was accepted first is written first.

    What the session engine hands out ([Collect], [CollectControl]) and what the
    socket does with a write are arguments of the steps. *)

From stdpp Require Import gmap.
From S2P Require Import Prelude GoLib.

Module ConnWriter.

(** ** Requests *)

(** What a [writeReq] asks for; exactly one of [pkt], [fn] and [mark] is set. A
    [writeFn] writes one packet, or fails to encode it; the one of
    [sendDisconnectWith] flushes the engine first. *)
Inductive kind : Type :=
| Pkt (b : list Z)
| Fn (flush : bool) (b : option (list Z))
| Mark (seq : Z).

(** [writeReq], named by the call that made it; [r_done] says whether its
    channel is set. *)
Record writeReq : Type := mkReq { r_id : Z; r_kind : kind; r_done : bool }.

(** What is sent on [done]: [ErrNotConnected], a write error, an encoding
    error. *)
Inductive werror : Type := ENotConnected | EWrite | EEncode.

(** ** The socket *)

(** The error of a write: none, [os.ErrDeadlineExceeded], another. *)
Inductive wstatus : Type := WOk | WDeadline | WErr.
Record written : Type := mkWritten { w_n : nat; w_status : wstatus }.

(** [net.Buffers.consume] *)
Fixpoint consume (n : nat) (bufs : list (list Z)) : list (list Z) :=
  match bufs with
  | [] => []
  | b :: bufs => if (n <? length b)%nat then drop n b :: bufs else consume (n - length b) bufs
  end.

Lemma concat_consume bufs : forall n, concat (consume n bufs) = drop n (concat bufs).
Proof.
  induction bufs as [|b bufs IH]; intros n; cbn [consume concat]; [by rewrite drop_nil|].
  destruct (Nat.ltb_spec n (length b)); cbn [concat]; [by rewrite drop_app_le by lia|]. by rewrite IH, drop_app_ge by lia.
Qed.

(** ** Calls *)

(** The calls that write: [admitQoS0] with [PublishWaitForFlush] or not,
    [WriteBlock] or not, with a ctx that can end or not, and the packet as header
    and payload (none if it cannot be encoded or is too large); [sendOrdered], which knows the engine's
    generation or not; [flushControl] under [sendReady]; the others through
    [queue]. *)
Inductive call : Type :=
| CPublish (wait block can_end : bool) (pkt : option (list Z * list Z))
| COrdered (seq : Z) (known : bool)
| CControl
| CRequest (flush : bool) (b : option (list Z)) (done block : bool).

(** Where a call is: [acquireIdle] after its load of [queued] and after its
    [TryLock]; [writeDirect] of a PUBLISH; [flushEngine] or [flushControl]
    before a [Collect] and in a write; [queue] before and after it takes
    [admit]. *)
Inductive cpc : Type :=
| PStart (c : call)
| PLoaded (c : call)
| PLocked (c : call)
| PWrite (can_end : bool) (left : list (list Z)) (done : nat) (b : list Z)
| PCollect (ordered first : bool)
| PEngine (ordered : bool) (left : list (list Z))
| PQueue (r : writeReq) (block : bool)
| PSend (r : writeReq) (block : bool).

(** What an engine flush of the writer was for. *)
Inductive after : Type := AWake | AMark (r : writeReq) | AFn (r : writeReq).

(** Where the writer is: [writeLoop], [writeRest], [processWrite],
    [writeBatch.flush], [writeOne], [flushEngine], [drainWriteQueue]. *)
Inductive wpc : Type :=
| WSelect
| WTook (r : writeReq)
| WWoken
| WRest (o : option writeReq)
| WProcess (batch : list writeReq) (r : writeReq)
| WMore (batch : list writeReq)
| WFlush (batch : list writeReq) (next : option writeReq)
| WOne (r : writeReq)
| WCollect (k : after)
| WEngine (left : list (list Z)) (k : after)
| WFnWrite (r : writeReq)
| WUnlock (err : bool)
| WFailed
| WDying
| WClosing
| WDropping
| WDraining
| WExit.

(** The history: a mark passed to [Collect], a packet written for a call, a
    packet of the engine. *)
Inductive entry : Type := LMark (id : Z) | LPacket (id : Z) (b : list Z) | LEngine (b : list Z).

Definition entry_bytes (x : entry) : list Z := match x with LMark _ => [] | LPacket _ b | LEngine b => b end.
Definition entry_id (x : entry) : option Z := match x with LMark id | LPacket id _ => Some id | LEngine _ => None end.

(** [connState], as far as writing goes. [dying] and [shutdown] say whether the
    channels are closed, [wake] whether the channel holds its token. The rest is
    the socket (the bytes it took) and history: [broken] is set once a write
    has failed or a tail was dropped; [began] has what was admitted when a call
    began, [admitted] the calls that got their place in the write order,
    [accepted] the requests [queue] took, [finished] those the writer has
    answered, [refused] those [queue] did not take. *)
Record world : Type := mkWorld {
  direct : bool;
  queue_cap : nat;
  batch_cap : Z;
  writeQueue : list writeReq;
  queued : Z;
  closed : bool;
  dying : bool;
  shutdown : bool;
  rest : option (list Z);
  wake : bool;
  wmu : bool;
  writer : wpc;
  calls : gmap Z cpc;
  next_id : Z;
  sock_closed : bool;
  out : list Z;
  broken : bool;
  log : list entry;
  began : gmap Z (list Z);
  admitted : list Z;
  accepted : list writeReq;
  finished : list (writeReq * option werror);
  refused : list writeReq;
}.
#[export] Instance world_rebuild : Rebuild world := fun s =>
  mkWorld (direct s) (queue_cap s) (batch_cap s) (writeQueue s) (queued s) (closed s) (dying s) (shutdown s) (rest s) (wake s) (wmu s) (writer s) (calls s)
    (next_id s) (sock_closed s) (out s) (broken s) (log s) (began s) (admitted s) (accepted s) (finished s) (refused s).

(** [newWriteBatch]'s clamp. *)
Definition writeBatchHardCap : Z := 64.
Definition clamp_batch (cap : Z) : Z := if cap <? 1 then 1 else if writeBatchHardCap <? cap then writeBatchHardCap else cap.

(** A connection as [runConnection] makes it. *)
Definition new_conn (direct : bool) (queue_cap : nat) (batchMax : Z) : world :=
  mkWorld direct queue_cap (clamp_batch batchMax) [] 0 false false false None false false WSelect ∅ 0 false [] false [] ∅ [] [] [] [].

(** ** Steps of a call *)

Definition goto (id : Z) (p : cpc) (s : world) : world := s <| calls ::= <[id := p]> |>.
Definition leave (id : Z) (s : world) : world := s <| calls ::= delete id |>.

(** [signalDown], without the close of the socket *)
Definition signalDown (s : world) : world := s <| dying := true |>.

(** [Wake] *)
Definition Wake (s : world) : world := s <| wake := true |>.

(** A call that cannot write itself hands its write to the writer. *)
Definition slow_path (id : Z) (c : call) (s : world) : world :=
  match c with
  | CPublish wait block _ None => leave id s
  | CPublish wait block _ (Some (hdr, payload)) => goto id (PQueue (mkReq id (Pkt (hdr ++ payload)) wait) block) s
  | COrdered seq _ => goto id (PQueue (mkReq id (Mark seq) false) true) s
  | CControl => leave id (Wake s)
  | CRequest flush b done block => goto id (PQueue (mkReq id (Fn flush b) done) block) s
  end.

(** Whether the call tries [acquireIdle]. *)
Definition tries_direct (c : call) : bool :=
  match c with CPublish wait _ _ _ => wait | COrdered _ known => known | CControl => true | CRequest _ _ _ _ => false end.

(** [acquireIdle], its three parts *)
Definition acquire_load (id : Z) (c : call) (s : world) : world :=
  if tries_direct c && direct s && (queued s =? 0) then goto id (PLoaded c) s else slow_path id c s.

Definition acquire_lock (id : Z) (c : call) (s : world) : world :=
  if wmu s then slow_path id c s else goto id (PLocked c) (s <| wmu := true |>).

(** The checks under the lock, then the start of the write: [writePublish]
    encodes and returns if a [ctx] that can end has [ended]. *)
Definition acquire_check (id : Z) (c : call) (ended : bool) (s : world) : world :=
  let unlocked := s <| wmu := false |> in
  if bool_decide (is_Some (rest s)) || dying s then slow_path id c unlocked
  else match c with
       | CPublish _ _ _ None => leave id unlocked
       | CPublish _ _ can_end (Some (hdr, payload)) =>
           if can_end && ended then leave id unlocked else goto id (PWrite can_end [hdr; payload] 0 (hdr ++ payload)) s
       | COrdered _ _ => goto id (PCollect true true) s
       | CControl => goto id (PCollect false false) s
       | CRequest _ _ _ _ => leave id unlocked
       end.

(** The socket takes the first bytes of [bufs]: all of them if there is no
    error, none once it is closed. *)
Definition takes (s : world) (bufs : list (list Z)) (w : written) : bool :=
  (w_n w <=? length (concat bufs))%nat
  && match w_status w with WOk => (w_n w =? length (concat bufs))%nat | _ => true end
  && (negb (sock_closed s) || match w_status w with WErr => (w_n w =? 0)%nat | _ => false end).

Definition put (bufs : list (list Z)) (w : written) (s : world) : world := s <| out ::= fun o => o ++ take (w_n w) (concat bufs) |>.

(** [handOff]: a dying connection drops the tail. *)
Definition handOff (left : list (list Z)) (s : world) : world :=
  if dying s then s <| broken := true |>
  else Wake (s <| rest := Some (concat left) |> <| queued ::= Z.succ |>).

(** A direct write ends; [admitted] tells the caller it is in the order. *)
Definition release (id : Z) (ok : bool) (s : world) : world :=
  let s := leave id (s <| wmu := false |>) in
  if ok then s <| admitted ::= fun l => l ++ [id] |> else s.

(** [wrote] with an error *)
Definition write_failed (s : world) : world := signalDown (s <| broken := true |>).

(** One round of [writeDirect] for a PUBLISH: the only one, which an error ends
    with the connection, when ctx cannot end. *)
Definition publish_slice (id : Z) (can_end : bool) (left : list (list Z)) (done : nat) (b : list Z) (w : written) (ended : bool) (s : world) : world :=
  let s := put left w s in
  let left := consume (w_n w) left in
  let now := (done + w_n w)%nat in
  let started := (0 <? now)%nat || match w_status w with WOk => true | _ => false end in
  let s := if (done =? 0)%nat && started then s <| log ::= fun l => l ++ [LPacket id b] |> else s in
  match w_status w with
  | WOk => release id true s
  | WErr => release id (can_end && (0 <? now)%nat) (write_failed s)
  | WDeadline =>
      if negb can_end then release id false (write_failed s)
      else if ended then if (now =? 0)%nat then release id false s else release id true (handOff left s)
      else goto id (PWrite can_end left now b) s
  end.

(** [flushEngine]: what [Collect] returned, and one round of its
    [writeDirect]; [flushControl] hands a short write off at once. *)
Definition call_collect (id : Z) (ordered first : bool) (fs : list (list Z)) (s : world) : world :=
  let s := if ordered && first then s <| log ::= fun l => l ++ [LMark id] |> else s in
  match fs with
  | [] => release id ordered s
  | _ :: _ => goto id (PEngine ordered fs) (s <| log ::= fun l => l ++ map LEngine fs |>)
  end.

Definition engine_slice (id : Z) (ordered : bool) (left : list (list Z)) (w : written) (ended : bool) (s : world) : world :=
  let s := put left w s in
  let left := consume (w_n w) left in
  match w_status w with
  | WOk => goto id (PCollect ordered false) s
  | WErr => release id ordered (write_failed s)
  | WDeadline => if ended || negb ordered then release id ordered (handOff left s) else goto id (PEngine ordered left) s
  end.

(** [queue]: a request the caller keeps is given back to the pool. *)
Definition refuse (id : Z) (r : writeReq) (s : world) : world := leave id (s <| refused ::= fun l => l ++ [r] |>).

Definition queue_admit (id : Z) (r : writeReq) (block : bool) (s : world) : world :=
  if closed s then refuse id r s else goto id (PSend r block) (s <| queued ::= Z.succ |>).

(** [send], its cases *)
Definition send_put (id : Z) (r : writeReq) (s : world) : option world :=
  if (length (writeQueue s) <? queue_cap s)%nat
  then Some (leave id (s <| writeQueue ::= fun q => q ++ [r] |> <| accepted ::= fun l => l ++ [r] |> <| admitted ::= fun l => l ++ [id] |>))
  else None.

Inductive reason : Type := GFull | GCtx | GDying | GShutdown.

Definition send_fails (block : bool) (why : reason) (s : world) : bool :=
  match why with
  | GFull => negb block && (queue_cap s <=? length (writeQueue s))%nat
  | GCtx => block
  | GDying => dying s
  | GShutdown => shutdown s
  end.

Definition send_give_up (id : Z) (r : writeReq) (block : bool) (why : reason) (s : world) : option world :=
  if send_fails block why s then Some (refuse id r (s <| queued ::= Z.pred |>)) else None.

(** ** Steps of the writer *)

Definition set_writer (p : wpc) (s : world) : world := s <| writer := p |>.

(** A request the writer took leaves its hands: [writeOne]'s end and
    [failRequest]. *)
Definition finish (r : writeReq) (e : option werror) (s : world) : world :=
  s <| queued ::= Z.pred |> <| finished ::= fun l => l ++ [(r, e)] |>.

Definition finish_opt (o : option writeReq) (e : option werror) (s : world) : world :=
  match o with Some r => finish r e s | None => s end.

Definition write_ok (w : written) : bool := match w_status w with WOk => true | _ => false end.

(** [conn.Write] by the writer. *)
Definition writer_put (bufs : list (list Z)) (w : written) (s : world) : world :=
  let s := put bufs w s in if write_ok w then s else s <| broken := true |>.

(** [writeRest], then on to the request or the engine *)
Definition after_rest (o : option writeReq) : wpc := match o with Some r => WProcess [] r | None => WCollect AWake end.

Definition write_rest (o : option writeReq) (w : written) (s : world) : option world :=
  match rest s with
  | None => Some (set_writer (after_rest o) s)
  | Some b =>
      if takes s [b] w then
        let s := (writer_put [b] w s) <| rest := None |> <| queued ::= Z.pred |> in
        Some (if write_ok w then set_writer (after_rest o) s else set_writer (WUnlock true) (finish_opt o (Some EWrite) s))
      else None
  end.

(** The head of [processWrite]'s loop. *)
Definition process_write (batch : list writeReq) (r : writeReq) (s : world) : world :=
  match r_kind r with
  | Pkt _ =>
      let batch := batch ++ [r] in
      set_writer (if len batch =? batch_cap s then WFlush batch None else WMore batch) s
  | _ => set_writer (WFlush batch (Some r)) s
  end.

Definition process_more (batch : list writeReq) (s : world) : world :=
  match writeQueue s with
  | r :: q => set_writer (WProcess batch r) (s <| writeQueue := q |>)
  | [] => set_writer (WFlush batch None) s
  end.

(** [writeBatch.flush], then the request behind the batch *)
Definition pkt_bytes (r : writeReq) : list Z := match r_kind r with Pkt b => b | _ => [] end.

Definition after_flush (next : option writeReq) : wpc := match next with Some r => WOne r | None => WUnlock false end.

Definition flush_batch (batch : list writeReq) (next : option writeReq) (w : written) (s : world) : option world :=
  match batch with
  | [] => Some (set_writer (after_flush next) s)
  | _ :: _ =>
      let bufs := map pkt_bytes batch in
      if takes s bufs w then
        let s := writer_put bufs w (s <| log ::= fun l => l ++ map (fun r => LPacket (r_id r) (pkt_bytes r)) batch |>) in
        let err := if write_ok w then None else Some EWrite in
        let s := s <| queued ::= fun n => n - len batch |> <| finished ::= fun l => l ++ map (fun r => (r, err)) batch |> in
        Some (if write_ok w then set_writer (after_flush next) s else set_writer (WUnlock true) (finish_opt next err s))
      else None
  end.

(** [writeOne] *)
Definition write_one (r : writeReq) (s : world) : option world :=
  match r_kind r with
  | Mark _ => Some (set_writer (WCollect (AMark r)) (s <| log ::= fun l => l ++ [LMark (r_id r)] |>))
  | Fn true _ => Some (set_writer (WCollect (AFn r)) s)
  | Fn false _ => Some (set_writer (WFnWrite r) s)
  | Pkt _ => None
  end.

Definition write_fn (r : writeReq) (w : written) (s : world) : option world :=
  match r_kind r with
  | Fn _ None => Some (set_writer (WUnlock true) (finish r (Some EEncode) s))
  | Fn _ (Some b) =>
      if takes s [b] w then
        let s := writer_put [b] w (s <| log ::= fun l => l ++ [LPacket (r_id r) b] |>) in
        Some (set_writer (WUnlock (negb (write_ok w))) (finish r (if write_ok w then None else Some EWrite) s))
      else None
  | _ => None
  end.

(** [flushEngine] on the writer *)
Definition writer_collect (k : after) (fs : list (list Z)) (s : world) : world :=
  match fs with
  | [] =>
      match k with
      | AWake => set_writer (WUnlock false) s
      | AMark r => set_writer (WUnlock false) (finish r None s)
      | AFn r => set_writer (WFnWrite r) s
      end
  | _ :: _ => set_writer (WEngine fs k) (s <| log ::= fun l => l ++ map LEngine fs |>)
  end.

Definition after_req (k : after) : option writeReq := match k with AWake => None | AMark r | AFn r => Some r end.

Definition writer_engine (left : list (list Z)) (k : after) (w : written) (s : world) : option world :=
  if takes s left w then
    Some (if write_ok w then set_writer (WCollect k) (put left w s)
          else set_writer (WUnlock true) (finish_opt (after_req k) (Some EWrite) (write_failed (put left w s))))
  else None.

(** [drainWriteQueue]; [closeQueue] waits for the calls that are sending. *)
Definition sending (p : cpc) : bool := match p with PSend _ _ => true | _ => false end.

Definition close_queue (s : world) : option world :=
  if forallb (fun p => negb (sending p.2)) (map_to_list (calls s)) then Some (set_writer WDropping (s <| closed := true |>)) else None.

Definition drop_rest (s : world) : option world :=
  if wmu s then None
  else Some (set_writer WDraining match rest s with Some _ => s <| rest := None |> <| queued ::= Z.pred |> <| broken := true |> | None => s end).

Definition drain_one (s : world) : world :=
  match writeQueue s with
  | r :: q => finish r (Some ENotConnected) (s <| writeQueue := q |>)
  | [] => set_writer WExit s
  end.

(** The writer moves, once it has what it waits for in its select. *)
Definition writer_step (w : written) (fs : list (list Z)) (s : world) : option world :=
  match writer s with
  | WSelect | WExit => None
  | WTook r => if wmu s then None else Some (set_writer (WRest (Some r)) (s <| wmu := true |>))
  | WWoken => if wmu s then None else Some (set_writer (WRest None) (s <| wmu := true |>))
  | WRest o => write_rest o w s
  | WProcess batch r => Some (process_write batch r s)
  | WMore batch => Some (process_more batch s)
  | WFlush batch next => flush_batch batch next w s
  | WOne r => write_one r s
  | WCollect k => Some (writer_collect k fs s)
  | WEngine bufs k => writer_engine bufs k w s
  | WFnWrite r => write_fn r w s
  | WUnlock err => Some (set_writer (if err then WFailed else WSelect) (s <| wmu := false |>))
  | WFailed => Some (set_writer WDying (signalDown s))
  | WDying => Some (set_writer WClosing (signalDown s))
  | WClosing => close_queue s
  | WDropping => drop_rest s
  | WDraining => Some (drain_one s)
  end.

(** ** The machine *)

Inductive event : Type :=
| EBegin (c : call)                                 (* a call begins *)
| ELoad (id : Z)                                    (* acquireIdle: direct, queued *)
| ETryLock (id : Z)                                 (* ... wmu.TryLock *)
| ECheck (id : Z) (ended : bool)                    (* ... rest, dying; the write starts *)
| ECollect (id : Z) (fs : list (list Z))            (* engine.Collect, by a call *)
| ESlice (id : Z) (w : written) (ended : bool)      (* one write of a call *)
| EAdmit (id : Z)                                   (* queue: admit.RLock, closed, queued *)
| ESend (id : Z)                                    (* send: the queue takes it *)
| EGiveUp (id : Z) (why : reason)                   (* send: another case *)
| ETake | EWoken | EQuit                            (* writeLoop's select *)
| EWriter (w : written) (fs : list (list Z))        (* the writer's next step *)
| EDown                                             (* signalDown, by the others *)
| EClosed                                           (* ... its close of the socket *)
| EShutdown                                         (* the client's span ends *)
| EWake.                                            (* the engine wakes the writer *)

Definition step (s : world) (e : event) : option world :=
  match e with
  | EBegin c =>
      let id := next_id s in
      Some (goto id (PStart c) (s <| next_id := id + 1 |> <| began ::= <[id := admitted s]> |>))
  | ELoad id => match calls s !! id with Some (PStart c) => Some (acquire_load id c s) | _ => None end
  | ETryLock id => match calls s !! id with Some (PLoaded c) => Some (acquire_lock id c s) | _ => None end
  | ECheck id ended => match calls s !! id with Some (PLocked c) => Some (acquire_check id c ended s) | _ => None end
  | ECollect id fs => match calls s !! id with Some (PCollect ordered first) => Some (call_collect id ordered first fs s) | _ => None end
  | ESlice id w ended =>
      match calls s !! id with
      | Some (PWrite can_end bufs done b) => if takes s bufs w then Some (publish_slice id can_end bufs done b w ended s) else None
      | Some (PEngine ordered bufs) => if takes s bufs w then Some (engine_slice id ordered bufs w ended s) else None
      | _ => None
      end
  | EAdmit id => match calls s !! id with Some (PQueue r block) => Some (queue_admit id r block s) | _ => None end
  | ESend id => match calls s !! id with Some (PSend r _) => send_put id r s | _ => None end
  | EGiveUp id why => match calls s !! id with Some (PSend r block) => send_give_up id r block why s | _ => None end
  | ETake =>
      match writer s, writeQueue s with
      | WSelect, r :: q => Some (set_writer (WTook r) (s <| writeQueue := q |>))
      | _, _ => None
      end
  | EWoken => match writer s, wake s with WSelect, true => Some (set_writer WWoken (s <| wake := false |>)) | _, _ => None end
  | EQuit => match writer s with WSelect => if dying s || shutdown s then Some (set_writer WDying s) else None | _ => None end
  | EWriter w fs => writer_step w fs s
  | EDown => Some (signalDown s)
  | EClosed => if dying s then Some (s <| sock_closed := true |>) else None
  | EShutdown => Some (s <| shutdown := true |>)
  | EWake => Some (Wake s)
  end.

Fixpoint run (s : world) (es : list event) : option world :=
  match es with [] => Some s | e :: es => match step s e with Some s => run s es | None => None end end.

End ConnWriter.
