(* ===== verification/ConnOrder.v ===== *)
(** * ConnOrder: what a connection promises its writers

    The invariants of the machine of [ConnWriter] and the theorems: the bytes
    on the wire are whole packets, every accepted request is answered once, and
    what was admitted before a call began is written before it. *)

From stdpp Require Import gmap.
From S2P Require Import Prelude GoLib ConnWriter.

Module ConnOrder.
Import ConnWriter.

(** ** Sums over the calls *)

Definition total (f : cpc -> Z) (m : gmap Z cpc) : Z := map_fold (fun _ p n => f p + n) 0 m.

Definition opt_sum (f : cpc -> Z) (o : option cpc) : Z := match o with Some p => f p | None => 0 end.

Lemma total_insert_new f i p m : m !! i = None -> total f (<[i := p]> m) = f p + total f m.
Proof. intros H. unfold total. apply (map_fold_insert_L (fun _ p n => f p + n)); [intros; lia|done]. Qed.

Lemma total_delete f i m : total f (delete i m) = total f m - opt_sum f (m !! i).
Proof.
  destruct (m !! i) as [p|] eqn:E; cbn [opt_sum]; [|rewrite delete_id by done; lia].
  rewrite <- (insert_delete_id m i p E) at 2. rewrite total_insert_new by apply lookup_delete_eq. lia.
Qed.

Lemma total_insert f i p m : total f (<[i := p]> m) = total f m - opt_sum f (m !! i) + f p.
Proof. rewrite <- insert_delete_eq, total_insert_new, total_delete by apply lookup_delete_eq. lia. Qed.

Lemma call_total_nonneg f m : (forall p, 0 <= f p) -> 0 <= total f m.
Proof. intros Hf. induction m as [|i p m Hi IH] using map_ind; [done|]. rewrite total_insert_new by done. specialize (Hf p). lia. Qed.

Lemma total_one f m i p : (forall p, 0 <= f p) -> m !! i = Some p -> f p <= total f m.
Proof. intros Hf E. pose proof (call_total_nonneg f (delete i m) Hf) as H. rewrite total_delete, E in H. cbn in H. lia. Qed.

Lemma total_two f m i j p q : (forall p, 0 <= f p) -> i <> j -> m !! i = Some p -> m !! j = Some q -> f p + f q <= total f m.
Proof.
  intros Hf Hij Ei Ej. pose proof (total_one f (delete i m) j q Hf) as H. rewrite lookup_delete_ne, total_delete, Ei in H by done. specialize (H Ej). cbn in H. lia.
Qed.

(** ** Who holds what *)

Definition holding (p : cpc) : Z := match p with PLocked _ | PWrite _ _ _ _ | PCollect _ _ | PEngine _ _ => 1 | _ => 0 end.
Definition sends (p : cpc) : Z := if sending p then 1 else 0.
Definition past_check (p : cpc) : bool := match p with PWrite _ _ _ _ | PCollect _ _ | PEngine _ _ => true | _ => false end.

Definition writer_holds (p : wpc) : bool :=
  match p with
  | WRest _ | WProcess _ _ | WMore _ | WFlush _ _ | WOne _ | WCollect _ | WEngine _ _ | WFnWrite _ | WUnlock _ => true
  | _ => false
  end.

(** The writer is past [writeRest], or has dropped the tail. *)
Definition past_rest (p : wpc) : bool :=
  match p with
  | WProcess _ _ | WMore _ | WFlush _ _ | WOne _ | WCollect _ | WEngine _ _ | WFnWrite _ | WUnlock _ | WDraining | WExit => true
  | _ => false
  end.

Definition fenced (p : wpc) : bool := match p with WDropping | WDraining | WExit => true | _ => false end.
Definition winding (p : wpc) : bool := match p with WClosing | WDropping | WDraining | WExit => true | _ => false end.

(** The requests in the writer's hands, in the order it took them. *)
Definition opt_list {A} (o : option A) : list A := match o with Some x => [x] | None => [] end.

Definition hand (p : wpc) : list writeReq :=
  match p with
  | WTook r | WOne r | WFnWrite r => [r]
  | WRest o => opt_list o
  | WProcess batch r => batch ++ [r]
  | WMore batch => batch
  | WFlush batch next => batch ++ opt_list next
  | WCollect k | WEngine _ k => opt_list (after_req k)
  | _ => []
  end.

Definition pending (s : world) : list writeReq := hand (writer s) ++ writeQueue s.

Definition b2z (b : bool) : Z := if b then 1 else 0.
Definition some_n {A} (o : option A) : Z := match o with Some _ => 1 | None => 0 end.

Record ctl_ok (s : world) : Prop := {
  k_fresh id : is_Some (calls s !! id) -> id < next_id s;
  k_lock : total holding (calls s) + b2z (writer_holds (writer s)) = b2z (wmu s);
  k_count : queued s = len (pending s) + total sends (calls s) + some_n (rest s);
  k_rest id p : calls s !! id = Some p -> past_check p = true -> rest s = None;
  k_wrest : past_rest (writer s) = true -> rest s = None;
  k_dying : winding (writer s) = true -> dying s = true;
  k_closed : closed s = fenced (writer s);
  k_senders : closed s = true -> total sends (calls s) = 0;
  k_wake : rest s <> None -> wake s = true \/ writer s = WWoken \/ writer s = WRest None;
  k_exit : writer s = WExit -> writeQueue s = [];
  k_broken : broken s = true -> dying s = true \/ writer s = WUnlock true \/ writer s = WFailed;
}.

Lemma holding_nonneg p : 0 <= holding p.
Proof. by destruct p. Qed.
Lemma sends_nonneg p : 0 <= sends p.
Proof. unfold sends. by destruct p. Qed.

Lemma new_ctl direct cap batchMax : ctl_ok (new_conn direct cap batchMax).
Proof. split; try done. by intros id [? ?]. Qed.

(** The slow path asks the writer, or ends. *)
Lemma slow_path_cases id c s :
  (exists r block, slow_path id c s = goto id (PQueue r block) s /\ r_id r = id) \/ slow_path id c s = leave id s \/ slow_path id c s = leave id (Wake s).
Proof.
  destruct c as [wait block ce [[hdr payload]|]|seq known| |flush b done block]; cbn [slow_path]; eauto.
  all: left; eexists _, _; split; reflexivity.
Qed.

(** Unfold a step into its outcomes. *)
Ltac open_step H :=
  repeat first
    [ progress cbn [step] in H
    | discriminate H
    | match type of H with context [match ?x with _ => _ end] => destruct x eqn:? end ].

Lemma sends_zero s : forallb (fun p => negb (sending p.2)) (map_to_list (calls s)) = true -> total sends (calls s) = 0.
Proof.
  intros H. assert (Hall : map_Forall (fun _ p => sending p = false) (calls s)).
  { intros i p Hp. apply elem_of_map_to_list in Hp. rewrite forallb_forall in H. specialize (H (i, p) (proj1 (list_elem_of_In _ _) Hp)). by apply negb_true_iff in H. }
  clear H. induction (calls s) as [|i p m Hi IH] using map_ind; [done|]. rewrite total_insert_new by done. apply map_Forall_insert in Hall as [Hp Hm]; [|done].
  unfold sends at 1. by rewrite Hp, IH.
Qed.

(** What the lock excludes. *)
Lemma one_holder s i j p q : ctl_ok s -> calls s !! i = Some p -> calls s !! j = Some q -> holding p = 1 -> holding q = 1 -> i = j.
Proof.
  intros K Hi Hj Hp Hq. destruct (decide (i = j)) as [|Hij]; [done|]. pose proof (total_two holding (calls s) i j p q holding_nonneg Hij Hi Hj) as H. pose proof (k_lock _ K) as Hl.
  unfold b2z in Hl. destruct (writer_holds _), (wmu s); lia.
Qed.

Lemma call_holder s i p : ctl_ok s -> calls s !! i = Some p -> holding p = 1 -> wmu s = true /\ writer_holds (writer s) = false.
Proof.
  intros K Hi Hp. pose proof (total_one holding (calls s) i p holding_nonneg Hi) as H. pose proof (k_lock _ K) as Hl. unfold b2z in Hl. destruct (writer_holds _), (wmu s); by try lia.
Qed.

Lemma writer_holder s i p : ctl_ok s -> writer_holds (writer s) = true -> calls s !! i = Some p -> holding p = 0.
Proof.
  intros K Hw Hi. pose proof (total_one holding (calls s) i p holding_nonneg Hi) as H. pose proof (k_lock _ K) as Hl. rewrite Hw in Hl. cbn in Hl.
  assert (holding p = 0 \/ holding p = 1) as [?|?] by (destruct p; auto); [done|]. unfold b2z in Hl. destruct (wmu s); lia.
Qed.

Lemma past_holding p : past_check p = true -> holding p = 1.
Proof. by destruct p. Qed.

(** A call moves on or ends. *)
Lemma ctl_call s s' id p o :
  ctl_ok s -> calls s !! id = Some p -> calls s' = partial_alter (fun _ => o) id (calls s) -> next_id s' = next_id s -> writer s' = writer s ->
  opt_sum holding o + b2z (wmu s) = holding p + b2z (wmu s') ->
  queued s' + len (writeQueue s) + sends p + some_n (rest s) = queued s + len (writeQueue s') + opt_sum sends o + some_n (rest s') ->
  rest s' = rest s \/ holding p = 1 /\ o = None /\ dying s = false /\ wake s' = true ->
  (forall q, o = Some q -> past_check q = true -> rest s' = None) ->
  (dying s = true -> dying s' = true) -> closed s' = closed s -> (opt_sum sends o = 0 \/ closed s = false) -> (wake s = true -> wake s' = true) ->
  (writeQueue s' = writeQueue s \/ sends p = 1) -> (broken s' = true -> broken s = true \/ dying s' = true) ->
  ctl_ok s'.
Proof.
  intros K Hp Ec En Ew Hlock Hcount Hrest Hpast Hdy Ecl Hsend Hwake Hq Hbr. pose proof K as [K0 K1 K2 K3 K4 K5 K6 K7 K8 K9 K10].
  assert (Ht : forall f, total f (calls s') = total f (calls s) - f p + opt_sum f o).
  { intros f. rewrite Ec. destruct o as [q|]; [change (partial_alter _ _ _) with (<[id := q]> (calls s))|change (partial_alter _ _ _) with (delete id (calls s))]; rewrite ?total_insert, ?total_delete, Hp; cbn; lia. }
  assert (Hl : forall j q, calls s' !! j = Some q -> j = id /\ o = Some q \/ j <> id /\ calls s !! j = Some q).
  { intros j q. rewrite Ec. destruct (decide (id = j)) as [<-|Hj]; [rewrite lookup_partial_alter_eq; by left|rewrite lookup_partial_alter_ne by done; by right]. }
  pose proof (sends_nonneg p) as Hsp. split.
  - intros j [q Hj]. rewrite En. destruct (Hl j q Hj) as [[-> _]|[_ Hj']]; apply K0; by eexists.
  - rewrite Ht, Ew. lia.
  - rewrite Ht. unfold pending in *. rewrite Ew, len_app in *. lia.
  - intros j q Hj Hc. destruct (Hl j q Hj) as [[-> Ho]|[Hne Hj']]; [by eapply Hpast|]. destruct Hrest as [->|(Hh & _)]; [by eapply K3|].
    destruct Hne. eapply (one_holder s); [exact K|exact Hj'|exact Hp|by apply past_holding|done].
  - rewrite Ew. intros Hr. destruct Hrest as [->|(Hh & _ & Hd & _)]; [by apply K4|]. destruct (call_holder s id p K Hp Hh) as [_ Hw]. rewrite K5 in Hd; [done|]. by destruct (writer s).
  - rewrite Ew. auto.
  - by rewrite Ecl, Ew.
  - rewrite Ecl, Ht. intros Hc. specialize (K7 Hc). pose proof (total_one sends (calls s) id p sends_nonneg Hp). destruct Hsend as [->|?]; [lia|congruence].
  - rewrite Ew. destruct Hrest as [->|(_ & _ & _ & ->)]; [|by left]. intros Hr. destruct (K8 Hr) as [?|?]; auto.
  - rewrite Ew. intros Hx. destruct Hq as [->|Hs]; [by apply K9|]. rewrite Hx in K6. specialize (K7 K6). pose proof (total_one sends (calls s) id p sends_nonneg Hp). lia.
  - rewrite Ew. intros Hb. destruct (Hbr Hb) as [Hb'|?]; [|by left]. destruct (K10 Hb') as [?|?]; auto.
Qed.

(** The writer moves. *)
Lemma ctl_writer s s' :
  ctl_ok s -> calls s' = calls s -> next_id s' = next_id s ->
  b2z (writer_holds (writer s')) + b2z (wmu s) = b2z (writer_holds (writer s)) + b2z (wmu s') ->
  queued s' + len (pending s) + some_n (rest s) = queued s + len (pending s') + some_n (rest s') ->
  rest s' = None \/ rest s' = rest s /\ (past_rest (writer s') = true -> past_rest (writer s) = true) ->
  (dying s = true -> dying s' = true) -> (winding (writer s') = true -> dying s' = true) ->
  closed s' = fenced (writer s') -> (closed s' = true -> total sends (calls s) = 0) ->
  (rest s' <> None -> wake s = true \/ writer s = WWoken \/ writer s = WRest None -> wake s' = true \/ writer s' = WWoken \/ writer s' = WRest None) ->
  (writer s' = WExit -> writeQueue s' = []) ->
  (broken s' = true -> broken s = true /\ writer s <> WUnlock true /\ writer s <> WFailed \/ dying s' = true \/ writer s' = WUnlock true \/ writer s' = WFailed) ->
  ctl_ok s'.
Proof.
  intros [K0 K1 K2 K3 K4 K5 K6 K7 K8 K9 K10] Ec En Hlock Hcount Hrest Hdy Hwind Hcl Hsend Hwake Hx Hbr. split; rewrite ?Ec, ?En; try done.
  - lia.
  - lia.
  - intros j q Hj Hq. destruct Hrest as [->|[-> _]]; [done|by eapply K3].
  - intros Hp. destruct Hrest as [->|[-> Hr]]; [done|auto].
  - intros Hr. apply Hwake; [done|]. apply K8. destruct Hrest as [?|[<- _]]; done.
  - intros Hb. destruct (Hbr Hb) as [(Hb' & N1 & N2)|?]; [|done]. destruct (K10 Hb') as [?|[?|?]]; [auto|done..].
Qed.

Ltac ctl_side := cbn; rewrite ?len_app; unfold len, sends, some_n in *; cbn in *; first [done | lia | by auto | by left | by right | by intros ? [= <-] | idtac].
Ltac ctl_move o := eapply (ctl_call _ _ _ _ o); [eassumption|eassumption|reflexivity|ctl_side..].

Ltac split_ifs := repeat match goal with |- context [if ?b then _ else _] => destruct b eqn:? end.
Ltac ctl_goto := match goal with |- ctl_ok (goto _ ?q _) => ctl_move (Some q) | |- _ => ctl_move (@None cpc) end.

Lemma ctl_slow s s0 id p c :
  ctl_ok s -> calls s !! id = Some p -> calls s0 = calls s -> sends p = 0 ->
  (exists b, s0 = s <| wmu := b |> /\ b2z (wmu s) = holding p + b2z b) -> ctl_ok (slow_path id c s0).
Proof.
  intros K Hp Ec Hs (b & -> & Hb). destruct (slow_path_cases id c (s <| wmu := b |>)) as [(r & block & -> & _)|[-> | ->]];
    [ctl_move (Some (PQueue r block))|ctl_move (@None cpc)|ctl_move (@None cpc)].
Qed.

Lemma ctl_same s : ctl_ok s -> exists b, s = s <| wmu := b |> /\ b2z (wmu s) = b2z b.
Proof. intros _. exists (wmu s). split; [by destruct s|done]. Qed.

(** [acquireIdle] *)
Lemma ctl_acquire s id c :
  ctl_ok s ->
  (calls s !! id = Some (PStart c) -> ctl_ok (acquire_load id c s))
  /\ (calls s !! id = Some (PLoaded c) -> ctl_ok (acquire_lock id c s))
  /\ (forall ended, calls s !! id = Some (PLocked c) -> ctl_ok (acquire_check id c ended s)).
Proof.
  intros K. split; [|split].
  - intros Hp. unfold acquire_load. destruct (_ && _) eqn:E; [ctl_move (Some (PLoaded c))|]. eapply (ctl_slow s s id (PStart c)); [done..|by apply ctl_same].
  - intros Hp. unfold acquire_lock. destruct (wmu s) eqn:E; [eapply (ctl_slow s s id (PLoaded c)); [done..|by apply ctl_same]|]. ctl_move (Some (PLocked c)). by rewrite E.
  - intros ended Hp. unfold acquire_check. destruct (call_holder s id _ K Hp eq_refl) as [Hw _]. destruct (_ || _) eqn:E; [eapply (ctl_slow s); [done|done|done|done|]; exists false; by rewrite Hw|].
    apply orb_false_iff in E as [E _]. apply bool_decide_eq_false in E. assert (Hr : rest s = None) by (destruct (rest s); [by destruct E|done]).
    destruct c as [wait block [] [[hdr payload]|]|seq known| |flush b done block]; try destruct ended; cbn [andb].
    all: ctl_goto; by rewrite ?Hw.
Qed.

(** A direct write. *)
Lemma ctl_direct s id :
  ctl_ok s ->
  (forall ce bufs done b w ended, calls s !! id = Some (PWrite ce bufs done b) -> ctl_ok (publish_slice id ce bufs done b w ended s))
  /\ (forall ordered first fs, calls s !! id = Some (PCollect ordered first) -> ctl_ok (call_collect id ordered first fs s))
  /\ (forall ordered bufs w ended, calls s !! id = Some (PEngine ordered bufs) -> ctl_ok (engine_slice id ordered bufs w ended s)).
Proof.
  intros K. split; [|split].
  - intros ce bufs done b w ended Hp. destruct (call_holder s id _ K Hp eq_refl) as [Hw _]. pose proof (k_rest _ K id _ Hp eq_refl) as Hr. unfold publish_slice, handOff, release.
    destruct (w_status w), ce; cbn [andb negb]; split_ifs. all: ctl_goto; rewrite ?Hw, ?Hr; first [done|lia].
  - intros ordered first fs Hp. destruct (call_holder s id _ K Hp eq_refl) as [Hw _]. pose proof (k_rest _ K id _ Hp eq_refl) as Hr. unfold call_collect, release. destruct fs; split_ifs.
    all: ctl_goto; by rewrite ?Hw.
  - intros ordered bufs w ended Hp. destruct (call_holder s id _ K Hp eq_refl) as [Hw _]. pose proof (k_rest _ K id _ Hp eq_refl) as Hr. unfold engine_slice, handOff, release.
    destruct (w_status w); split_ifs. all: ctl_goto; rewrite ?Hw, ?Hr; first [done|lia].
Qed.

(** [queue] *)
Lemma ctl_queue s id r block :
  ctl_ok s ->
  (calls s !! id = Some (PQueue r block) -> ctl_ok (queue_admit id r block s))
  /\ (forall s', calls s !! id = Some (PSend r block) -> send_put id r s = Some s' -> ctl_ok s')
  /\ (forall why s', calls s !! id = Some (PSend r block) -> send_give_up id r block why s = Some s' -> ctl_ok s').
Proof.
  intros K. split; [|split].
  - intros Hp. unfold queue_admit, refuse. destruct (closed s) eqn:E; ctl_goto.
  - intros s' Hp. unfold send_put. destruct (_ <? _)%nat; [|done]. intros [= <-]. ctl_goto.
  - intros why s' Hp. unfold send_give_up, refuse. destruct (send_fails _ _ _); [|done]. intros [= <-]. ctl_goto.
Qed.

Ltac ctl_work E := eapply ctl_writer; [eassumption|reflexivity|reflexivity|unfold pending; rewrite ?E; ctl_side..]; repeat match goal with H : wmu _ = _ |- _ => rewrite H | H : rest _ = _ |- _ => rewrite H | H : writeQueue _ = _ |- _ => rewrite H end; cbn; rewrite ?E, ?length_app; cbn; rewrite ?length_app; cbn; first [lia|solve [intuition congruence]|idtac].

Lemma writer_locked s : ctl_ok s -> writer_holds (writer s) = true -> wmu s = true.
Proof. intros K Hw. pose proof (k_lock _ K) as H. rewrite Hw in H. pose proof (call_total_nonneg holding (calls s) holding_nonneg). unfold b2z in H. destruct (wmu s); [done|lia]. Qed.

Lemma step_ctl_writer s w fs s' : ctl_ok s -> writer_step w fs s = Some s' -> ctl_ok s'.
Proof.
  intros K. pose proof (k_wrest _ K) as Hr. pose proof (k_dying _ K) as Hd. pose proof (k_closed _ K) as Hc. pose proof (k_broken _ K) as Hb. pose proof (k_senders _ K) as Hs.
  pose proof (writer_locked s K) as Hl. unfold writer_step. destruct (writer s) as [|r| |o|batch r|batch|batch next|r|k|bufs k|r|err| | | | | |] eqn:E; cbn in Hr, Hd, Hc, Hb, Hl; try (specialize (Hr eq_refl)); try (specialize (Hl eq_refl)); try (specialize (Hd eq_refl)); try done.
  - destruct (wmu s) eqn:Ew; [done|]. intros [= <-]. ctl_work E.
  - destruct (wmu s) eqn:Ew; [done|]. intros [= <-]. ctl_work E.
  - unfold write_rest, writer_put, finish_opt. destruct (rest s) eqn:Er; [|intros [= <-]; destruct o; ctl_work E]. destruct (takes _ _ _); [|done]. intros [= <-]. destruct (write_ok w), o; ctl_work E.
  - intros [= <-]. unfold process_write. destruct (r_kind r); split_ifs; ctl_work E.
  - intros [= <-]. unfold process_more. destruct (writeQueue s) eqn:Eq; ctl_work E.
  - unfold flush_batch, writer_put, finish_opt. destruct batch as [|r batch]; [intros [= <-]; destruct next; ctl_work E|]. destruct (takes _ _ _); [|done]. intros [= <-]. destruct (write_ok w), next; ctl_work E.
  - unfold write_one. destruct (r_kind r) as [|[] |]; try done; intros [= <-]; ctl_work E.
  - intros [= <-]. unfold writer_collect. destruct fs, k; ctl_work E.
  - unfold writer_engine, finish_opt. destruct (takes _ _ _); [|done]. intros [= <-]. destruct (write_ok w), k; ctl_work E.
  - unfold write_fn, writer_put. destruct (r_kind r) as [|? [b|]|]; try done; [destruct (takes _ _ _); [|done]; intros [= <-]; destruct (write_ok w); ctl_work E|]. intros [= <-]. ctl_work E.
  - intros [= <-]. destruct err; ctl_work E.
  - intros [= <-]. ctl_work E.
  - intros [= <-]. ctl_work E.
  - unfold close_queue. destruct (forallb _ _) eqn:Ef; [|done]. intros [= <-]. apply sends_zero in Ef. ctl_work E.
  - unfold drop_rest. destruct (wmu s) eqn:Ew; [done|]. intros [= <-]. destruct (rest s) eqn:Er; ctl_work E.
  - intros [= <-]. unfold drain_one. destruct (writeQueue s) eqn:Eq; ctl_work E.
Qed.

Lemma step_ctl s e s' : ctl_ok s -> step s e = Some s' -> ctl_ok s'.
Proof.
  intros K. destruct e; cbn [step]; try (destruct (calls s !! id) as [[]|] eqn:Hp; try done).
  - intros [= <-]. pose proof K as [K0 K1 K2 K3 K4 K5 K6 K7 K8 K9 K10]. assert (Hn : calls s !! next_id s = None) by (destruct (calls s !! next_id s) as [p|] eqn:E; [|done]; specialize (K0 _ (ex_intro _ p E)); lia).
    split; try done; cbn.
    + intros id [p Hp]. apply lookup_insert_Some in Hp as [[<- _]|[_ Hp]]; [lia|]. specialize (K0 id (ex_intro _ p Hp)). lia.
    + rewrite total_insert, Hn. cbn. lia.
    + rewrite total_insert, Hn. unfold pending in *. cbn in *. lia.
    + intros id p Hp Hc. apply lookup_insert_Some in Hp as [[_ <-]|[_ Hp]]; [done|]. by eapply K3.
    + rewrite total_insert, Hn. cbn. intros Hc. specialize (K7 Hc). lia.
  - intros [= <-]. by apply ctl_acquire.
  - intros [= <-]. by apply ctl_acquire.
  - intros [= <-]. by apply ctl_acquire.
  - intros [= <-]. by apply ctl_direct.
  - destruct (takes _ _ _); [|done]. intros [= <-]. by apply ctl_direct.
  - destruct (takes _ _ _); [|done]. intros [= <-]. by apply ctl_direct.
  - intros [= <-]. by apply ctl_queue.
  - by apply (ctl_queue s id r block K).
  - by apply (ctl_queue s id r block K).
  - destruct (writer s) eqn:E, (writeQueue s) eqn:Eq; try done. intros [= <-]. pose proof (k_closed _ K) as Hc. pose proof (k_broken _ K) as Hb. rewrite E in Hc, Hb. ctl_work E.
  - destruct (writer s) eqn:E, (wake s) eqn:Eq; try done. intros [= <-]. pose proof (k_closed _ K) as Hc. pose proof (k_broken _ K) as Hb. rewrite E in Hc, Hb. ctl_work E.
  - destruct (writer s) eqn:E, (dying s || shutdown s) eqn:Eq; try done. intros [= <-]. pose proof (k_closed _ K) as Hc. pose proof (k_broken _ K) as Hb. rewrite E in Hc, Hb. ctl_work E.
  - apply step_ctl_writer, K.
  - intros [= <-]. destruct K as [K0 K1 K2 K3 K4 K5 K6 K7 K8 K9 K10]. split; try done. by left.
  - destruct (dying s) eqn:E; [|done]. intros [= <-]. destruct K as [K0 K1 K2 K3 K4 K5 K6 K7 K8 K9 K10]. split; try done.
  - intros [= <-]. destruct K as [K0 K1 K2 K3 K4 K5 K6 K7 K8 K9 K10]. split; try done.
  - intros [= <-]. destruct K as [K0 K1 K2 K3 K4 K5 K6 K7 K8 K9 K10]. split; try done. by left.
Qed.

(** ** Requests and their turns *)

Definition ids (l : list writeReq) : list Z := map r_id l.
Definition log_ids (l : list entry) : list Z := omap entry_id l.

(** The requests whose turn is to come. *)
Definition hand_waits (p : wpc) : list writeReq :=
  match p with WCollect (AMark _) | WEngine _ (AMark _) => [] | _ => hand p end.
Definition waiting (s : world) : list writeReq := hand_waits (writer s) ++ writeQueue s.

(** A call that had its turn. *)
Definition turned (p : cpc) : bool :=
  match p with PWrite _ _ done _ => (0 <? done)%nat | PCollect ordered first => ordered && negb first | PEngine ordered _ => ordered | _ => false end.

Definition in_turn (p : wpc) (ids : list Z) : Prop :=
  match p with WCollect (AMark r) | WEngine _ (AMark r) => r_id r ∈ ids | _ => True end.

Record req_ok (s : world) : Prop := {
  q_accepted : map fst (finished s) ++ pending s = accepted s;
  q_nodup : NoDup (ids (accepted s));
  q_fresh id : id ∈ ids (accepted s) \/ id ∈ log_ids (log s) -> id < next_id s;
  q_calls id p : calls s !! id = Some p -> id ∉ ids (accepted s);
  q_named id r block : calls s !! id = Some (PQueue r block) \/ calls s !! id = Some (PSend r block) -> r_id r = id;
  q_untouched id p : calls s !! id = Some p -> turned p = false -> id ∉ log_ids (log s);
  q_logged id p : calls s !! id = Some p -> turned p = true -> id ∈ log_ids (log s);
  q_waits r : r ∈ waiting s -> r_id r ∉ log_ids (log s);
  q_log : NoDup (log_ids (log s));
  q_turn : in_turn (writer s) (log_ids (log s));
  q_done r : (r, None) ∈ finished s -> r_id r ∈ log_ids (log s);
  q_never r : (r, Some ENotConnected) ∈ finished s -> r_id r ∉ log_ids (log s);
}.

Lemma log_ids_app l l' : log_ids (l ++ l') = log_ids l ++ log_ids l'.
Proof. apply omap_app. Qed.

Lemma req_ids_app l l' : ids (l ++ l') = ids l ++ ids l'.
Proof. apply map_app. Qed.

Lemma elem_of_ids r l : r ∈ l -> r_id r ∈ ids l.
Proof. intros H. apply list_elem_of_fmap. by exists r. Qed.

Lemma hand_split p : exists l, hand p = l ++ hand_waits p /\ (forall r, r ∈ l -> forall L, in_turn p L -> r_id r ∈ L).
Proof.
  assert (Hn : forall p, hand p = [] ++ hand p /\ (forall r, r ∈ @nil writeReq -> forall L, in_turn p L -> r_id r ∈ L)) by (intros q; split; [done|]; by intros r ?%elem_of_nil).
  destruct p as [| | | | | | | |[|r|r]|bufs [|r|r]| | | | | | | |]; try (exists []; apply Hn).
  all: exists [r]; split; [done|]; by intros r' ->%list_elem_of_singleton.
Qed.

Lemma waiting_accepted s r : req_ok s -> r ∈ waiting s -> r_id r ∈ ids (accepted s).
Proof.
  intros Q Hr. rewrite <- (q_accepted _ Q). unfold waiting in Hr. destruct (hand_split (writer s)) as (l & E & _). unfold pending. rewrite E, !req_ids_app.
  rewrite !elem_of_app. apply elem_of_app in Hr as [Hr|Hr]; apply elem_of_ids in Hr; auto.
Qed.

Lemma new_req direct cap batchMax : req_ok (new_conn direct cap batchMax).
Proof. split; try done; try apply NoDup_nil_2; cbn; intros r; rewrite ?elem_of_nil; first [tauto|by intros ? ? [?|?]]. Qed.

(** A call moves on, takes its turn, or hands its request to the queue. *)
Lemma req_call s s' id p o dl da :
  ctl_ok s -> req_ok s -> calls s !! id = Some p -> calls s' = partial_alter (fun _ => o) id (calls s) ->
  next_id s' = next_id s -> writer s' = writer s -> finished s' = finished s ->
  log s' = log s ++ dl -> (log_ids dl = [] /\ (opt_sum (fun q => b2z (negb (turned q))) o = 0 \/ turned p = false) \/ log_ids dl = [id] /\ turned p = false /\ opt_sum (fun q => b2z (negb (turned q))) o = 0 /\ da = []) ->
  accepted s' = accepted s ++ da -> writeQueue s' = writeQueue s ++ da -> (da = [] \/ exists r block, da = [r] /\ p = PSend r block /\ o = None) ->
  (forall r block, o = Some (PQueue r block) \/ o = Some (PSend r block) -> r_id r = id) ->
  (forall q, o = Some q -> turned q = true -> turned p = true \/ log_ids dl = [id]) ->
  req_ok s'.
Proof.
  intros K Q Hp Ec En Ew Ef El Hl Ea Eq Hda Hnm Htq. pose proof Q as [Q1 Q2 Q3 Q4 Q5 Q6 QL Q7 Q8 Q9 Q10 Q11].
  assert (Hid : id < next_id s) by (apply (k_fresh _ K); by eexists).
  assert (Hdl : forall x, x ∈ log_ids dl -> x = id /\ turned p = false) by (intros x Hx; destruct Hl as [[E _]|(E & ? & _)]; rewrite E in Hx; [by apply elem_of_nil in Hx|by apply list_elem_of_singleton in Hx]).
  assert (Hdai : forall x, x ∈ ids da -> x = id /\ o = None) by (intros x Hx; destruct Hda as [-> |(r & block & -> & -> & ->)]; [by apply elem_of_nil in Hx|]; apply list_elem_of_singleton in Hx as ->; split; [|done]; eapply Q5; by right).
  assert (Hlk : forall j q, calls s' !! j = Some q -> j = id /\ o = Some q \/ j <> id /\ calls s !! j = Some q).
  { intros j q. rewrite Ec. destruct (decide (id = j)) as [<-|Hj]; [rewrite lookup_partial_alter_eq; by left|rewrite lookup_partial_alter_ne by done; by right]. }
  assert (Hin : forall x, x ∈ log_ids (log s') <-> x ∈ log_ids (log s) \/ x ∈ log_ids dl) by (intros x; by rewrite El, log_ids_app, elem_of_app).
  assert (Hac : forall x, x ∈ ids (accepted s') <-> x ∈ ids (accepted s) \/ x ∈ ids da) by (intros x; by rewrite Ea, req_ids_app, elem_of_app).
  split.
  - unfold pending. rewrite Ew, Ef, Ea, Eq, <- Q1. unfold pending. by rewrite !app_assoc.
  - rewrite Ea, req_ids_app. apply NoDup_app. split; [done|]. split; [|destruct Hda as [-> |(r & block & -> & _)]; [constructor|apply NoDup_singleton]].
    intros x Hx [-> _]%Hdai. by eapply Q4.
  - intros x. rewrite En, Hac, Hin. intros [[?|[-> _]%Hdai]|[?|[-> _]%Hdl]]; auto.
  - intros j q Hj. rewrite Hac. destruct (Hlk j q Hj) as [[-> Ho]|[Hne Hj']]; (intros [?|[E Eo]%Hdai]; [by eapply Q4|]); [congruence|done].
  - intros j r block Hj. destruct Hj as [Hj|Hj]; destruct (Hlk j _ Hj) as [[-> Ho]|[Hne Hj']]; try (eapply Hnm; by eauto); eapply Q5; by eauto.
  - intros j q Hj Ht. rewrite Hin. destruct (Hlk j q Hj) as [[-> Ho]|[Hne Hj']].
    + rewrite Ho in Hl. cbn in Hl. rewrite Ht in Hl. destruct Hl as [[E [?|Hp']]|(_ & _ & ? & _)]; [done| |done]. rewrite E. intros [?|?%elem_of_nil]; [|done]. by eapply Q6.
    + intros [?|[-> _]%Hdl]; [by eapply Q6|done].
  - intros j q Hj Ht. rewrite Hin. destruct (Hlk j q Hj) as [[-> Ho]|[Hne Hj']]; [|left; by eapply QL]. destruct (Htq q Ho Ht) as [?|E]; [left; by eapply QL|right; rewrite E; by left].
  - intros r. unfold waiting. rewrite Ew, Eq, app_assoc, elem_of_app. intros Hr [Hx|Hx]%Hin.
    + destruct Hr as [Hr|Hr]; [by eapply Q7|]. destruct Hda as [-> |(r' & block & -> & -> & ->)]; [by apply elem_of_nil in Hr|]. apply list_elem_of_singleton in Hr as ->.
      rewrite (Q5 id r' block) in Hx by (by right). by eapply (Q6 id).
    + assert (Hda' : da = []) by (destruct Hl as [[E _]|(_ & _ & _ & ?)]; [rewrite E in Hx; by apply elem_of_nil in Hx|done]). rewrite Hda' in Hr. apply Hdl in Hx as [Hx Ht].
      destruct Hr as [Hr|Hr]; [|by apply elem_of_nil in Hr]. eapply (Q4 id p Hp). rewrite <- Hx. by apply waiting_accepted.
  - rewrite El, log_ids_app. apply NoDup_app. split; [done|]. split; [intros x Hx [-> Ht]%Hdl; by eapply Q6|]. destruct Hl as [[-> _]|(-> & _)]; [apply NoDup_nil_2|apply NoDup_singleton].
  - rewrite Ew. destruct (writer s) as [| | | | | | | |[|r|r]|bufs [|r|r]| | | | | | | |]; cbn in *; try done; apply Hin; by left.
  - intros r. rewrite Ef. intros Hr%Q10. apply Hin. by left.
  - intros r. rewrite Ef. intros Hr [Hx|[Hx Ht]%Hdl]%Hin; [by eapply Q11|]. eapply (Q4 id p Hp). rewrite <- Hx, <- Q1, req_ids_app. apply elem_of_app. left. apply elem_of_ids, list_elem_of_fmap. by exists (r, Some ENotConnected).
Qed.

(** The writer moves: [T] have their turn, [D] never will, [df] are
    answered. *)
Lemma req_writer s s' T D dl df :
  req_ok s -> calls s' = calls s -> next_id s' = next_id s -> accepted s' = accepted s ->
  log s' = log s ++ dl -> log_ids dl = ids T -> waiting s = T ++ D ++ waiting s' ->
  finished s' = finished s ++ df -> map fst df ++ pending s' = pending s ->
  in_turn (writer s') (log_ids (log s ++ dl)) ->
  (forall r, (r, None) ∈ df -> r_id r ∈ log_ids (log s ++ dl)) -> (forall r, (r, Some ENotConnected) ∈ df -> r ∈ D) ->
  req_ok s'.
Proof.
  intros Q Ec En Ea El Edl Ew Ef Edf Htu Hok Hnc. pose proof Q as [Q1 Q2 Q3 Q4 Q5 Q6 QL Q7 Q8 Q9 Q10 Q11].
  assert (HT : forall r, r ∈ T -> r ∈ waiting s) by (intros r Hr; rewrite Ew; apply elem_of_app; by left).
  assert (HTi : forall x, x ∈ ids T -> x ∈ ids (accepted s) /\ x ∉ log_ids (log s)) by (intros x (r & -> & Hr)%list_elem_of_fmap; split; [apply waiting_accepted; auto|auto]).
  assert (Hin : forall x, x ∈ log_ids (log s') <-> x ∈ log_ids (log s) \/ x ∈ ids T) by (intros x; by rewrite El, log_ids_app, elem_of_app, Edl).
  assert (Hnd : NoDup (ids (waiting s))).
  { rewrite <- Q1, req_ids_app in Q2. apply NoDup_app in Q2 as (_ & _ & Q2). unfold pending in Q2. destruct (hand_split (writer s)) as (l & E & _). rewrite E, <- app_assoc, req_ids_app in Q2. by apply NoDup_app in Q2 as (_ & _ & Q2). }
  assert (Hsep : forall r, r ∈ D ++ waiting s' -> r_id r ∉ log_ids (log s')).
  { intros r Hr. rewrite Hin. intros [Hx|Hx]; [apply (Q7 r); [rewrite Ew; apply elem_of_app; by right|done]|]. rewrite Ew, req_ids_app in Hnd. apply NoDup_app in Hnd as (_ & Hd & _). apply (Hd _ Hx). by apply elem_of_ids. }
  split; rewrite ?Ec, ?En, ?Ea; try done.
  - rewrite Ef, map_app, <- app_assoc, Edf. exact Q1.
  - intros x. rewrite Hin. intros [?|[?|Hx]]; [auto..|]. apply Q3. left. by apply HTi.
  - intros id p Hp Ht. rewrite Hin. intros [?|Hx]; [by eapply Q6|]. apply HTi in Hx as [Hx _]. by eapply Q4.
  - intros id p Hp Ht. rewrite Hin. left. by eapply QL.
  - intros r Hr. apply Hsep, elem_of_app. by right.
  - rewrite El, log_ids_app, Edl. apply NoDup_app. split; [done|]. split; [intros x Hx [_ Hn]%HTi; done|]. rewrite Ew, req_ids_app in Hnd. by apply NoDup_app in Hnd as (? & _).
  - by rewrite El.
  - intros r. rewrite Ef, El, elem_of_app. intros [Hr|Hr]; [|auto]. rewrite log_ids_app. apply elem_of_app. left. auto.
  - intros r. rewrite Ef, elem_of_app. intros [Hr|Hr]; [|apply Hsep, elem_of_app; left; auto]. rewrite Hin. intros [Hx|Hx]; [by eapply Q11|].
    rewrite <- Q1, req_ids_app in Q2. apply NoDup_app in Q2 as (_ & Hd & _). apply (Hd (r_id r)); [apply elem_of_ids, list_elem_of_fmap; by exists (r, Some ENotConnected)|].
    unfold pending. destruct (hand_split (writer s)) as (l & E & _). rewrite E, <- app_assoc, req_ids_app, elem_of_app. right. fold (waiting s). rewrite Ew, req_ids_app. apply elem_of_app. by left.
Qed.

Lemma log_ids_engine fs : log_ids (map LEngine fs) = [].
Proof. induction fs; done. Qed.

Lemma log_ids_packets (l : list writeReq) : log_ids (map (fun r => LPacket (r_id r) (pkt_bytes r)) l) = ids l.
Proof. induction l as [|r l IH]; [done|]. cbn. by f_equal. Qed.

Lemma not_answered (l : list writeReq) (e : option werror) r x : e <> x -> (r, x) ∈ map (fun r => (r, e)) l -> False.
Proof. intros He (r' & [= _ E] & _)%list_elem_of_fmap. congruence. Qed.

Lemma map_fst_answers (l : list writeReq) (e : option werror) : map fst (map (fun r => (r, e)) l) = l.
Proof. rewrite map_map. cbn. apply map_id. Qed.

(** ** The order of turns *)

(** What was admitted when the call began. *)
Definition snap (s : world) (id : Z) : list Z := default [] (began s !! id).

(** The request of this call ended with an error. *)
Definition failed (s : world) (a : Z) : Prop := exists r e, (r, Some e) ∈ finished s /\ r_id r = a.
Definition settled (s : world) (a : Z) : Prop := a ∈ log_ids (log s) \/ failed s a.

Definition past_load (p : cpc) : bool := match p with PStart _ | PQueue _ _ | PSend _ _ => false | _ => true end.

Record order_ok (s : world) : Prop := {
  o_adm a : a ∈ admitted s -> a ∈ log_ids (log s) \/ a ∈ ids (accepted s);
  o_snap id a : a ∈ snap s id -> a ∈ admitted s;
  o_direct id p a : calls s !! id = Some p -> past_load p = true -> a ∈ snap s id -> settled s a;
  o_req a1 r a2 a : accepted s = a1 ++ r :: a2 -> a ∈ snap s (r_id r) -> a ∈ log_ids (log s) \/ a ∈ ids a1;
  o_log l1 x l2 b a : log s = l1 ++ x :: l2 -> entry_id x = Some b -> a ∈ snap s b -> a ∈ log_ids l1 \/ failed s a;
}.

Lemma finished_settled s r e : req_ok s -> (r, e) ∈ finished s -> settled s (r_id r).
Proof. intros Q Hr. destruct e as [e|]; [right; by exists r, e|left; by apply (q_done _ Q)]. Qed.

(** Nothing queued: all that was admitted had its turn or failed. *)
Lemma idle_settled s a : ctl_ok s -> req_ok s -> order_ok s -> queued s = 0 -> a ∈ admitted s -> settled s a.
Proof.
  intros K Q O Hq Ha. destruct (o_adm _ O a Ha) as [?|Hx]; [by left|]. rewrite <- (q_accepted _ Q) in Hx. pose proof (k_count _ K) as Hc.
  pose proof (call_total_nonneg sends (calls s) sends_nonneg). pose proof (len_nonneg (pending s)). assert (Hp : pending s = []) by (apply len_0_nil; unfold some_n in Hc; destruct (rest s); lia).
  rewrite Hp, app_nil_r in Hx. apply list_elem_of_fmap in Hx as (r & -> & ([r' e] & -> & Hr)%list_elem_of_fmap). by eapply finished_settled.
Qed.

(** A split of [l ++ k]. *)
Lemma app_split {A} (l k l1 l2 : list A) x : l ++ k = l1 ++ x :: l2 -> (exists m, l = l1 ++ x :: m /\ l2 = m ++ k) \/ exists m, l1 = l ++ m /\ k = m ++ x :: l2.
Proof.
  revert l1. induction l as [|y l IH]; intros l1 E; [right; by exists l1|]. destruct l1 as [|z l1]; cbn in E; injection E as -> E; [left; by exists l|].
  destruct (IH l1 E) as [(m & -> & ->)|(m & -> & ->)]; [left; by exists m|right; by exists m].
Qed.

Lemma new_order direct cap batchMax : order_ok (new_conn direct cap batchMax).
Proof. split; try done; cbn. - intros a ?%elem_of_nil. done. - intros [] r a2 a; done. - intros [] x l2 b a; done. Qed.

Lemma order_call s s' id p o dl da (adm : list Z) :
  ctl_ok s -> req_ok s -> order_ok s -> calls s !! id = Some p -> calls s' = partial_alter (fun _ => o) id (calls s) -> began s' = began s -> finished s' = finished s ->
  log s' = log s ++ dl -> (log_ids dl = [] \/ log_ids dl = [id] /\ past_load p = true) ->
  accepted s' = accepted s ++ da -> (da = [] \/ exists r block, da = [r] /\ p = PSend r block) ->
  admitted s' = admitted s ++ adm -> (adm = [] \/ adm = [id] /\ (id ∈ log_ids (log s') \/ id ∈ ids da)) ->
  (forall q, o = Some q -> past_load q = true -> past_load p = true \/ queued s = 0) ->
  order_ok s'.
Proof.
  intros K Q O Hp Ec Eb Ef El Hdl Ea Hda Ead Hadm Hld. pose proof O as [O1 O2 O3 O4 O5].
  assert (Es : forall i, snap s' i = snap s i) by (intros i; unfold snap; by rewrite Eb).
  assert (Hf : forall a, failed s' a <-> failed s a) by (intros a; unfold failed; by rewrite Ef).
  assert (Hin : forall x, x ∈ log_ids (log s) -> x ∈ log_ids (log s')) by (intros x Hx; rewrite El, log_ids_app; apply elem_of_app; by left).
  assert (Hst : forall a, settled s a -> settled s' a) by (intros a [?|?]; [left; auto|right; by apply Hf]).
  split.
  - intros a. rewrite Ead, Ea, req_ids_app, !elem_of_app. intros [Ha|Ha]; [destruct (O1 a Ha); auto|]. destruct Hadm as [-> |[-> Hx]]; [by apply elem_of_nil in Ha|]. apply list_elem_of_singleton in Ha as ->. tauto.
  - intros i a. rewrite Es, Ead, elem_of_app. intros Ha. left. by eapply O2.
  - intros j q a. rewrite Es, Ec. intros Hj Hq Ha. apply Hst. destruct (decide (id = j)) as [<-|Hne]; [rewrite lookup_partial_alter_eq in Hj|rewrite lookup_partial_alter_ne in Hj by done; by eapply O3].
    destruct (Hld q Hj Hq) as [?|Hz]; [by eapply O3|]. eapply idle_settled; eauto.
  - intros a1 r a2 a. rewrite Es, Ea. intros [(m & E & _)|(m & -> & E)]%app_split Ha; [destruct (O4 _ _ _ _ E Ha); auto|]. rewrite req_ids_app, elem_of_app.
    destruct (O1 a (O2 _ _ Ha)); auto.
  - intros l1 x l2 b a. rewrite Es, Hf, El. intros [(m & E & _)|(m & -> & E)]%app_split Hx Ha; [by eapply O5|]. rewrite log_ids_app, elem_of_app.
    assert (Hb : b ∈ log_ids dl) by (rewrite E, log_ids_app; apply elem_of_app; right; cbn; rewrite Hx; by left). destruct Hdl as [Hd|[Hd Hpl]]; rewrite Hd in Hb; [by apply elem_of_nil in Hb|].
    apply list_elem_of_singleton in Hb as ->. destruct (O3 _ _ _ Hp Hpl Ha); auto.
Qed.

Lemma order_writer s s' T D dl df :
  req_ok s -> order_ok s -> calls s' = calls s -> began s' = began s -> accepted s' = accepted s -> admitted s' = admitted s ->
  log s' = log s ++ dl -> log_ids dl = ids T -> waiting s = T ++ D -> finished s' = finished s ++ df -> order_ok s'.
Proof.
  intros Q O Ec Eb Ea Ead El Hdl Ew Ef. pose proof O as [O1 O2 O3 O4 O5].
  assert (Es : forall i, snap s' i = snap s i) by (intros i; unfold snap; by rewrite Eb).
  assert (Hf : forall a, failed s a -> failed s' a) by (intros a (r & e & Hr & Ha); exists r, e; rewrite Ef; split; [apply elem_of_app; by left|done]).
  assert (Hin : forall x, x ∈ log_ids (log s) -> x ∈ log_ids (log s')) by (intros x Hx; rewrite El, log_ids_app; apply elem_of_app; by left).
  split; rewrite ?Ec, ?Ea, ?Ead.
  - intros a Ha. destruct (O1 a Ha); auto.
  - intros i a. rewrite Es. apply O2.
  - intros j q a. rewrite Es. intros Hj Hq Ha. destruct (O3 _ _ _ Hj Hq Ha); [left|right]; auto.
  - intros a1 r a2 a. rewrite Es. intros E Ha. destruct (O4 _ _ _ _ E Ha); auto.
  - intros l1 x l2 b a. rewrite Es, El. intros [(m & E & _)|(m & -> & E)]%app_split Hx Ha; [destruct (O5 _ _ _ _ _ E Hx Ha); auto|].
    rewrite E, log_ids_app in Hdl. cbn in Hdl. rewrite Hx in Hdl. symmetry in Hdl. apply fmap_app_inv in Hdl as (T1 & T2 & E1 & E2 & ->). destruct T2 as [|r T2]; [done|]. injection E2 as -> E2.
    destruct (hand_split (writer s)) as (h & Eh & Hh). pose proof (q_accepted _ Q) as Hacc. unfold pending in Hacc. rewrite Eh, <- app_assoc in Hacc. fold (waiting s) in Hacc. rewrite Ew, <- app_assoc in Hacc.
    assert (Hspl : accepted s = (map fst (finished s) ++ h ++ T1) ++ r :: T2 ++ D) by (rewrite <- Hacc, <- !app_assoc; done).
    rewrite log_ids_app, elem_of_app. destruct (O4 _ _ _ _ Hspl Ha) as [?|Hx2]; [auto|]. rewrite !req_ids_app, !elem_of_app in Hx2. destruct Hx2 as [Hx2|[Hx2|Hx2]].
    + apply list_elem_of_fmap in Hx2 as (r' & -> & ([r2 e] & -> & Hr)%list_elem_of_fmap). destruct (finished_settled _ _ _ Q Hr); auto.
    + apply list_elem_of_fmap in Hx2 as (r' & -> & Hr). left. left. apply (Hh r' Hr), (q_turn _ Q).
    + left. right. by rewrite E1.
Qed.

(** ** Steps *)

Record hist_ok (s : world) : Prop := { h_req : req_ok s; h_order : order_ok s }.

(** What a step of a call does to the history ... *)
Lemma hist_call s s' id p o dl da adm :
  ctl_ok s -> hist_ok s -> calls s !! id = Some p -> calls s' = partial_alter (fun _ => o) id (calls s) ->
  next_id s' = next_id s -> writer s' = writer s -> finished s' = finished s -> began s' = began s ->
  log s' = log s ++ dl -> (log_ids dl = [] /\ (opt_sum (fun q => b2z (negb (turned q))) o = 0 \/ turned p = false) \/ log_ids dl = [id] /\ turned p = false /\ opt_sum (fun q => b2z (negb (turned q))) o = 0 /\ da = []) ->
  (log_ids dl = [] \/ past_load p = true) ->
  accepted s' = accepted s ++ da -> writeQueue s' = writeQueue s ++ da -> (da = [] \/ exists r block, da = [r] /\ p = PSend r block /\ o = None) ->
  (forall r block, o = Some (PQueue r block) \/ o = Some (PSend r block) -> r_id r = id) ->
  (forall q, o = Some q -> turned q = true -> turned p = true \/ log_ids dl = [id]) ->
  admitted s' = admitted s ++ adm -> (adm = [] \/ adm = [id] /\ (id ∈ log_ids (log s ++ dl) \/ id ∈ ids da)) ->
  (forall q, o = Some q -> past_load q = true -> past_load p = true \/ queued s = 0) ->
  hist_ok s'.
Proof.
  intros K [Q O] Hp Ec En Ew Ef Eb El Hl Hpl Ea Eq Hda Hnm Htq Ead Hadm Hld. split; [by eapply req_call|]. rewrite <- El in Hadm. eapply (order_call s s' id p o dl da adm); try done.
  - destruct Hl as [[? _]|(? & _)]; [auto|]. destruct Hpl; auto.
  - destruct Hda as [?|(r & block & ? & ? & _)]; [auto|right; eauto].
Qed.

(** ... and one of the writer. *)
Record effect (s s' : world) (T D : list writeReq) (dl : list entry) (df : list (writeReq * option werror)) : Prop := {
  e_calls : calls s' = calls s;
  e_next : next_id s' = next_id s;
  e_began : began s' = began s;
  e_acc : accepted s' = accepted s;
  e_adm : admitted s' = admitted s;
  e_log : log s' = log s ++ dl;
  e_ids : log_ids dl = ids T;
  e_waits : waiting s = T ++ D ++ waiting s';
  e_fin : finished s' = finished s ++ df;
  e_pending : map fst df ++ pending s' = pending s;
  e_turn : in_turn (writer s) (log_ids (log s)) -> in_turn (writer s') (log_ids (log s ++ dl));
  e_ok r : in_turn (writer s) (log_ids (log s)) -> (r, None) ∈ df -> r_id r ∈ log_ids (log s ++ dl);
  e_never r : (r, Some ENotConnected) ∈ df -> r ∈ D;
}.

Lemma hist_writer s s' T D dl df : hist_ok s -> effect s s' T D dl df -> hist_ok s'.
Proof.
  intros [Q O] [E1 E2 E3 E4 E5 E6 E7 E8 E9 E10 E11 E12 E13]. pose proof (q_turn _ Q) as Ht. split; [|by eapply order_writer].
  eapply (req_writer s s' T D dl df); auto.
Qed.

Ltac no_elem := intros; match goal with H : _ ∈ _ |- _ => first [by apply elem_of_nil in H | by apply list_elem_of_singleton in H] end.
Ltac req_side E :=
  unfold waiting, pending in *; cbn; rewrite ?E; cbn;
  first [ done | by rewrite ?app_nil_r | by rewrite ?app_nil_r, <- ?app_assoc | no_elem | by rewrite log_ids_engine | idtac ].
Ltac req_work E T D dl df := exists T, D, dl, df; split; req_side E.
Ltac req_idle E := req_work E (@nil writeReq) (@nil writeReq) (@nil entry) (@nil (writeReq * option werror)).

Lemma flush_some batch next w s : batch <> [] ->
  flush_batch batch next w s =
    let bufs := map pkt_bytes batch in
    if takes s bufs w then
      let s := writer_put bufs w (s <| log ::= fun l => l ++ map (fun r => LPacket (r_id r) (pkt_bytes r)) batch |>) in
      let err := if write_ok w then None else Some EWrite in
      let s := s <| queued ::= fun n => n - len batch |> <| finished ::= fun l => l ++ map (fun r => (r, err)) batch |> in
      Some (if write_ok w then set_writer (after_flush next) s else set_writer (WUnlock true) (finish_opt next err s))
    else None.
Proof. by destruct batch. Qed.

Lemma writer_effect s w fs s' : writer_step w fs s = Some s' -> exists T D dl df, effect s s' T D dl df.
Proof.
  unfold writer_step. destruct (writer s) as [|r| |o|batch r|batch|batch next|r|k|bufs k|r|err| | | | | |] eqn:E; try done.
  - destruct (wmu s) eqn:Ew; [done|]. intros [= <-]. req_idle E.
  - destruct (wmu s) eqn:Ew; [done|]. intros [= <-]. req_idle E.
  - unfold write_rest, writer_put, finish_opt. destruct (rest s) eqn:Er.
    + destruct (takes _ _ _); [|done]. intros [= <-].
      destruct (write_ok w), o as [r|]; [req_idle E..|req_work E (@nil writeReq) [r] (@nil entry) [(r, Some EWrite)]|req_idle E].
    + intros [= <-]. destruct o; req_idle E.
  - intros [= <-]. unfold process_write. destruct (r_kind r); split_ifs; req_idle E.
  - intros [= <-]. unfold process_more. destruct (writeQueue s) eqn:Eq; req_idle E; rewrite ?Eq, <- ?app_assoc; done.
  - destruct (decide (batch = [])) as [->|Hb]; [intros [= <-]; destruct next; req_idle E|]. rewrite flush_some by done. cbn zeta. destruct (takes _ _ _); [|done]. intros [= <-]. rename batch into B.
    assert (HB : forall e : option werror, map fst (map (fun r => (r, e)) B) = B) by (intros e; apply map_fst_answers). assert (HL : log_ids (map (fun r => LPacket (r_id r) (pkt_bytes r)) B) = ids B) by apply log_ids_packets.
    assert (Hne : forall (e x : option werror) r, (r, x) ∈ map (fun r => (r, e)) B -> e = x /\ r_id r ∈ ids B) by (intros e x r' (r'' & [= -> ->] & Hr)%list_elem_of_fmap; split; [done|by apply elem_of_ids]).
    unfold writer_put, finish_opt.
    destruct (write_ok w), next as [n|].
    + req_work E B (@nil writeReq) (map (fun r => LPacket (r_id r) (pkt_bytes r)) B) (map (fun r => (r, @None werror)) B); rewrite ?HB, ?log_ids_app, ?HL, <- ?app_assoc; try done; [intros x _ [Hx Hi]%Hne; apply elem_of_app; by right|by intros x [Hx Hi]%Hne].
    + req_work E B (@nil writeReq) (map (fun r => LPacket (r_id r) (pkt_bytes r)) B) (map (fun r => (r, @None werror)) B); rewrite ?HB, ?log_ids_app, ?HL, ?app_nil_r; try done; [intros x _ [Hx Hi]%Hne; apply elem_of_app; by right|by intros x [Hx Hi]%Hne].
    + req_work E B [n] (map (fun r => LPacket (r_id r) (pkt_bytes r)) B) (map (fun r => (r, Some EWrite)) B ++ [(n, Some EWrite)]); rewrite ?map_app, ?HB, ?log_ids_app, ?HL, <- ?app_assoc; try done.
      all: [> intros x _|intros x]; by intros [[Hx Hi]%Hne|Hx%list_elem_of_singleton]%elem_of_app.
    + req_work E B (@nil writeReq) (map (fun r => LPacket (r_id r) (pkt_bytes r)) B) (map (fun r => (r, Some EWrite)) B); rewrite ?HB, ?log_ids_app, ?HL, ?app_nil_r; try done; [intros x _|intros x]; by intros [Hx Hi]%Hne.
  - unfold write_one. destruct (r_kind r) as [|[] |]; try done; intros [= <-]; [req_idle E..|]. req_work E [r] (@nil writeReq) [LMark (r_id r)] (@nil (writeReq * option werror)).
    intros _. rewrite log_ids_app. apply elem_of_app. right. by left.
  - intros [= <-]. unfold writer_collect. destruct fs as [|f fs]; [destruct k as [|r|r]; [req_idle E| |req_idle E]|destruct k as [|r|r]].
    + req_work E (@nil writeReq) (@nil writeReq) (@nil entry) [(r, @None werror)]. rewrite app_nil_r. by intros r' Ht [= ->]%list_elem_of_singleton.
    + req_work E (@nil writeReq) (@nil writeReq) (map LEngine (f :: fs)) (@nil (writeReq * option werror)); by rewrite ?log_ids_engine.
    + req_work E (@nil writeReq) (@nil writeReq) (map LEngine (f :: fs)) (@nil (writeReq * option werror)); rewrite ?log_ids_engine; try done. intros Ht. rewrite log_ids_app. apply elem_of_app. by left.
    + req_work E (@nil writeReq) (@nil writeReq) (map LEngine (f :: fs)) (@nil (writeReq * option werror)); by rewrite ?log_ids_engine.
  - unfold writer_engine, finish_opt. destruct (takes _ _ _); [|done]. intros [= <-]. destruct (write_ok w), k as [|r|r]; [req_idle E|req_idle E; by rewrite app_nil_r|req_idle E|req_idle E|..].
    + req_work E (@nil writeReq) (@nil writeReq) (@nil entry) [(r, Some EWrite)].
    + req_work E (@nil writeReq) [r] (@nil entry) [(r, Some EWrite)].
  - unfold write_fn, writer_put. destruct (r_kind r) as [|? [b|]|]; try done; [destruct (takes _ _ _); [|done]; intros [= <-]; destruct (write_ok w)|].
    + req_work E [r] (@nil writeReq) [LPacket (r_id r) b] [(r, @None werror)]. intros r' _ [= ->]%list_elem_of_singleton. rewrite log_ids_app. apply elem_of_app. right. by left.
    + req_work E [r] (@nil writeReq) [LPacket (r_id r) b] [(r, Some EWrite)].
    + intros [= <-]. req_work E (@nil writeReq) [r] (@nil entry) [(r, Some EEncode)].
  - intros [= <-]. destruct err; req_idle E.
  - intros [= <-]. req_idle E.
  - intros [= <-]. req_idle E.
  - unfold close_queue. destruct (forallb _ _) eqn:Ef; [|done]. intros [= <-]. req_idle E.
  - unfold drop_rest. destruct (wmu s) eqn:Ew; [done|]. intros [= <-]. destruct (rest s) eqn:Er; req_idle E.
  - intros [= <-]. unfold drain_one. destruct (writeQueue s) as [|r q] eqn:Eq; [req_idle E|].
    req_work E (@nil writeReq) [r] (@nil entry) [(r, Some ENotConnected)]. intros r' [= ->]%list_elem_of_singleton. by left.
Qed.

Ltac hist_side := cbn; rewrite ?app_nil_r; first [done | by auto | by left | by right | by intros ? ? [?|?] | by intros ? [= <-]; auto | idtac].
Ltac hist_move o dl da adm := eapply (hist_call _ _ _ _ o dl da adm); [eassumption|eassumption|eassumption|reflexivity|hist_side..].
Ltac hist_goto dl adm := match goal with |- hist_ok (goto _ ?q _) => hist_move (Some q) dl (@nil writeReq) adm | |- _ => hist_move (@None cpc) dl (@nil writeReq) adm end.

Lemma hist_slow s b id p c : ctl_ok s -> hist_ok s -> calls s !! id = Some p -> turned p = false -> hist_ok (slow_path id c (s <| wmu := b |>)).
Proof.
  intros K Q Hp Ht. destruct (slow_path_cases id c (s <| wmu := b |>)) as [(r & block & -> & Hr)|[-> | ->]]; hist_goto (@nil entry) (@nil Z).
  intros r' block' [[= <- <-]|[=]]. done.
Qed.

Lemma same_wmu s : s = s <| wmu := wmu s |>.
Proof. by destruct s. Qed.

Lemma hist_acquire s id c :
  ctl_ok s -> hist_ok s ->
  (calls s !! id = Some (PStart c) -> hist_ok (acquire_load id c s))
  /\ (calls s !! id = Some (PLoaded c) -> hist_ok (acquire_lock id c s))
  /\ (forall ended, calls s !! id = Some (PLocked c) -> hist_ok (acquire_check id c ended s)).
Proof.
  intros K Q. split; [|split].
  - intros Hp. unfold acquire_load. destruct (_ && _) eqn:E; [|rewrite (same_wmu s) at 1; by eapply hist_slow]. apply andb_true_iff in E as [_ E%Z.eqb_eq]. hist_goto (@nil entry) (@nil Z).
  - intros Hp. unfold acquire_lock. destruct (wmu s) eqn:E; [rewrite (same_wmu s) at 1; by eapply hist_slow|]. hist_goto (@nil entry) (@nil Z).
  - intros ended Hp. unfold acquire_check. destruct (_ || _) eqn:E; [by eapply hist_slow|].
    destruct c as [wait block [] [[hdr payload]|]|seq known| |flush b done block]; try destruct ended; cbn [andb]; hist_goto (@nil entry) (@nil Z).
Qed.

Lemma in_log_ids l id : id ∈ log_ids (l ++ [LMark id]) /\ (forall b, id ∈ log_ids (l ++ [LPacket id b])) /\ forall l', id ∈ log_ids (l ++ LMark id :: l').
Proof. split; [|split; intros ?]; rewrite log_ids_app; apply elem_of_app; right; by left. Qed.

Lemma hist_direct s id :
  ctl_ok s -> hist_ok s ->
  (forall ce bufs done b w ended, calls s !! id = Some (PWrite ce bufs done b) -> hist_ok (publish_slice id ce bufs done b w ended s))
  /\ (forall ordered first fs, calls s !! id = Some (PCollect ordered first) -> hist_ok (call_collect id ordered first fs s))
  /\ (forall ordered bufs w ended, calls s !! id = Some (PEngine ordered bufs) -> hist_ok (engine_slice id ordered bufs w ended s)).
Proof.
  intros K Q. split; [|split].
  - intros ce bufs done b w ended Hp. unfold publish_slice, handOff, release. destruct (Nat.eqb_spec done 0) as [->|Hd]; cbn [andb].
    + destruct (in_log_ids (log s) id) as (_ & Hi & _). specialize (Hi b). destruct (w_status w), ce; cbn [andb negb]; split_ifs; try (rewrite orb_true_r in *; discriminate).
      all: match goal with
           | |- context [LPacket] => match goal with |- hist_ok (_ <| admitted ::= _ |>) => hist_goto [LPacket id b] [id] | |- _ => hist_goto [LPacket id b] (@nil Z) end
           | |- _ => match goal with |- hist_ok (_ <| admitted ::= _ |>) => hist_goto (@nil entry) [id] | |- _ => hist_goto (@nil entry) (@nil Z) end
           end.
      all: destruct (w_n w); cbn in *; try done; try (by intros ? [= <-]); auto.
    + assert (Ht : turned (PWrite ce bufs done b) = true) by (by destruct done). pose proof (q_logged _ (h_req _ Q) id _ Hp Ht) as Hi. destruct (w_status w), ce; cbn [andb negb]; split_ifs.
      all: match goal with |- hist_ok (_ <| admitted ::= _ |>) => hist_goto (@nil entry) [id] | |- _ => hist_goto (@nil entry) (@nil Z) end; destruct done; cbn in *; try done; auto.
  - intros ordered first fs Hp. unfold call_collect, release. destruct (in_log_ids (log s) id) as (Hi & _ & Hi'). pose proof (q_logged _ (h_req _ Q) id _ Hp) as Hg. destruct ordered, first, fs as [|f fs]; cbn [andb].
    + hist_goto [LMark id] [id].
    + hist_goto (LMark id :: map LEngine (f :: fs)) (@nil Z); rewrite <- ?app_assoc, ?log_ids_engine; auto.
    + hist_goto (@nil entry) [id].
    + hist_goto (map LEngine (f :: fs)) (@nil Z); rewrite ?log_ids_engine; auto.
    + hist_goto (@nil entry) (@nil Z).
    + hist_goto (map LEngine (f :: fs)) (@nil Z); rewrite ?log_ids_engine; auto.
    + hist_goto (@nil entry) (@nil Z).
    + hist_goto (map LEngine (f :: fs)) (@nil Z); rewrite ?log_ids_engine; auto.
  - intros ordered bufs w ended Hp. pose proof (q_logged _ (h_req _ Q) id _ Hp) as Hg. unfold engine_slice, handOff, release. destruct (w_status w), ordered; cbn [orb negb]; split_ifs.
    all: match goal with |- hist_ok (_ <| admitted ::= _ |>) => hist_goto (@nil entry) [id] | |- _ => hist_goto (@nil entry) (@nil Z) end.
Qed.

Lemma hist_queue s id r block :
  ctl_ok s -> hist_ok s ->
  (calls s !! id = Some (PQueue r block) -> hist_ok (queue_admit id r block s))
  /\ (forall s', calls s !! id = Some (PSend r block) -> send_put id r s = Some s' -> hist_ok s')
  /\ (forall why s', calls s !! id = Some (PSend r block) -> send_give_up id r block why s = Some s' -> hist_ok s').
Proof.
  intros K Q. pose proof (q_named _ (h_req _ Q) id r block) as Hn. split; [|split].
  - intros Hp. unfold queue_admit, refuse. destruct (closed s) eqn:E; hist_goto (@nil entry) (@nil Z). intros r' block' [[=]|[= <- <-]]. apply Hn. by left.
  - intros s' Hp. unfold send_put. destruct (_ <? _)%nat; [|done]. intros [= <-]. hist_move (@None cpc) (@nil entry) [r] [id]; [right; by exists r, block|]. right. split; [done|]. right. apply list_elem_of_singleton. symmetry. apply Hn. by right.
  - intros why s' Hp. unfold send_give_up, refuse. destruct (send_fails _ _ _); [|done]. intros [= <-]. hist_goto (@nil entry) (@nil Z).
Qed.

Lemma hist_begin s c : ctl_ok s -> hist_ok s -> hist_ok (goto (next_id s) (PStart c) (s <| next_id := next_id s + 1 |> <| began ::= <[next_id s := admitted s]> |>)).
Proof.
  intros K [Q O]. pose proof Q as [Q1 Q2 Q3 Q4 Q5 Q6 QL Q7 Q8 Q9 Q10 Q11]. pose proof O as [O1 O2 O3 O4 O5].
  assert (Hold : forall i, i < next_id s -> default [] (<[next_id s := admitted s]> (began s) !! i) = snap s i) by (intros i Hi; by rewrite lookup_insert_ne by lia).
  split; (split; try done; cbn).
  - intros id Hi. specialize (Q3 id Hi). lia.
  - intros id p Hp Hi. apply lookup_insert_Some in Hp as [[<- _]|[_ Hp]]; [|by eapply Q4]. specialize (Q3 (next_id s) (or_introl Hi)). lia.
  - intros id r block Hp. rewrite !lookup_insert_Some in Hp. destruct Hp as [[[_ ?]|[_ Hp]]|[[_ ?]|[_ Hp]]]; try done; eapply Q5; eauto.
  - intros id p Hp Ht Hi. apply lookup_insert_Some in Hp as [[<- _]|[_ Hp]]; [|by eapply Q6]. specialize (Q3 (next_id s) (or_intror Hi)). lia.
  - intros id p Hp Ht. apply lookup_insert_Some in Hp as [[<- <-]|[_ Hp]]; [done|by eapply QL].
  - intros id a. unfold snap. cbn. destruct (decide (next_id s = id)) as [<-|Hne]; [by rewrite lookup_insert_eq|rewrite lookup_insert_ne by done; apply O2].
  - intros id p a Hp Hl. apply lookup_insert_Some in Hp as [[<- <-]|[Hne Hp]]; [done|]. unfold snap. cbn. rewrite lookup_insert_ne by done. by eapply O3.
  - intros a1 r a2 a E. unfold snap. cbn. rewrite Hold; [by eapply O4|]. apply Q3. left. rewrite E, req_ids_app. apply elem_of_app. right. by left.
  - intros l1 x l2 b a E Hx. unfold snap. cbn. rewrite Hold; [by eapply O5|]. apply Q3. right. rewrite E, log_ids_app. apply elem_of_app. right. cbn. rewrite Hx. by left.
Qed.

Lemma step_hist s e s' : ctl_ok s -> hist_ok s -> step s e = Some s' -> hist_ok s'.
Proof.
  intros K Q. destruct e; cbn [step]; try (destruct (calls s !! id) as [[]|] eqn:Hp; try done).
  - intros [= <-]. by apply hist_begin.
  - intros [= <-]. by apply hist_acquire.
  - intros [= <-]. by apply hist_acquire.
  - intros [= <-]. by apply hist_acquire.
  - intros [= <-]. by apply hist_direct.
  - destruct (takes _ _ _); [|done]. intros [= <-]. by apply hist_direct.
  - destruct (takes _ _ _); [|done]. intros [= <-]. by apply hist_direct.
  - intros [= <-]. by apply hist_queue.
  - by apply (hist_queue s id r block K Q).
  - by apply (hist_queue s id r block K Q).
  - destruct (writer s) eqn:E, (writeQueue s) eqn:Eq; try done. intros [= <-]. eapply (hist_writer s _ [] [] [] []); [done|]. split; req_side E; by rewrite Eq.
  - destruct (writer s) eqn:E, (wake s) eqn:Eq; try done. intros [= <-]. eapply (hist_writer s _ [] [] [] []); [done|]. split; req_side E.
  - destruct (writer s) eqn:E, (dying s || shutdown s) eqn:Eq; try done. intros [= <-]. eapply (hist_writer s _ [] [] [] []); [done|]. split; req_side E.
  - intros (T & D & dl & df & E)%writer_effect. by eapply hist_writer.
  - intros [= <-]. destruct Q as [[] []]. by split.
  - destruct (dying s) eqn:E; [|done]. intros [= <-]. destruct Q as [[] []]. by split.
  - intros [= <-]. destruct Q as [[] []]. by split.
  - intros [= <-]. destruct Q as [[] []]. by split.
Qed.

End ConnOrder.
