(* ===== verification/ConnStream.v ===== *)
(** * ConnStream: the bytes on the wire

    The rest of the invariant of the machine of [ConnWriter], about the bytes
    the socket took, and the theorems. *)

From stdpp Require Import gmap.
From S2P Require Import Prelude GoLib ConnWriter ConnOrder.

Module ConnStream.
Import ConnWriter ConnOrder.

(** What the packets of the history come to. *)
Definition bytes (l : list entry) : list Z := concat (map entry_bytes l).
Arguments bytes : simpl never.

(** What the holder of the lock has still to write of them. *)
Definition call_left (p : cpc) (rest : option (list Z)) : list Z :=
  match p with
  | PLocked _ => default [] rest
  | PWrite _ bufs done _ => if (done =? 0)%nat then [] else concat bufs
  | PEngine _ bufs => concat bufs
  | _ => []
  end.

Definition writer_left (p : wpc) (rest : option (list Z)) : list Z :=
  match p with WRest _ => default [] rest | WEngine bufs _ => concat bufs | _ => [] end.

(** The packet of a request, and the kinds of request each place takes. *)
Definition carries (r : writeReq) : option (list Z) := match r_kind r with Pkt b => Some b | Fn _ b => b | Mark _ => None end.

Definition is_pkt (r : writeReq) : Prop := match r_kind r with Pkt _ => True | _ => False end.
Definition is_fn (r : writeReq) : Prop := match r_kind r with Fn _ _ => True | _ => False end.
Definition is_mark (r : writeReq) : Prop := match r_kind r with Mark _ => True | _ => False end.

Definition kinds_ok (p : wpc) : Prop :=
  match p with
  | WProcess batch _ | WMore batch => Forall is_pkt batch
  | WFlush batch next => Forall is_pkt batch /\ match next with Some r => ~ is_pkt r | None => True end
  | WOne r => ~ is_pkt r
  | WCollect (AMark r) | WEngine _ (AMark r) => is_mark r
  | WCollect (AFn r) | WEngine _ (AFn r) | WFnWrite r => is_fn r
  | _ => True
  end.

Definition whole (s : world) (r : writeReq) (b : list Z) : Prop :=
  exists l1 l2, log s = l1 ++ LPacket (r_id r) b :: l2 /\ (length (bytes l1) + length b <= length (out s))%nat.

Record stream_ok (s : world) : Prop := {
  t_kinds : kinds_ok (writer s);
  t_bufs id ce bufs done b : calls s !! id = Some (PWrite ce bufs done b) -> concat bufs = drop done b;
  t_free : broken s = false -> wmu s = false -> out s ++ default [] (rest s) = bytes (log s);
  t_call id p : broken s = false -> calls s !! id = Some p -> holding p = 1 -> out s ++ call_left p (rest s) = bytes (log s);
  t_writer : broken s = false -> writer_holds (writer s) = true -> out s ++ writer_left (writer s) (rest s) = bytes (log s);
  t_whole r b : (r, None) ∈ finished s -> carries r = Some b -> broken s = false -> whole s r b;
}.

Lemma log_bytes_app l l' : bytes (l ++ l') = bytes l ++ bytes l'.
Proof. unfold bytes. by rewrite map_app, concat_app. Qed.

Lemma new_stream direct cap batchMax : stream_ok (new_conn direct cap batchMax).
Proof. split; try done. by intros r b ?%elem_of_nil. Qed.

Lemma whole_grows s s' dl x r b : log s' = log s ++ dl -> out s' = out s ++ x -> whole s r b -> whole s' r b.
Proof. intros El Eo (l1 & l2 & E & H). exists l1, (l2 ++ dl). rewrite El, E, Eo, <- app_assoc, length_app. split; [done|lia]. Qed.

(** A call that neither held nor holds the lock. *)
Lemma stream_idle s s' id p o :
  stream_ok s -> calls s !! id = Some p -> calls s' = partial_alter (fun _ => o) id (calls s) -> writer s' = writer s -> finished s' = finished s ->
  log s' = log s -> out s' = out s -> rest s' = rest s -> wmu s' = wmu s -> broken s' = broken s -> opt_sum holding o = 0 -> stream_ok s'.
Proof.
  intros [T1 T2 T3 T4 T5 T6] Hp Ec Ew Ef El Eo Er Em Eb Ho. split; rewrite ?Ew, ?Ef, ?El, ?Eo, ?Er, ?Em, ?Eb; try done.
  - intros j ce bufs done b. rewrite Ec. destruct (decide (id = j)) as [<-|Hj]; [rewrite lookup_partial_alter_eq; intros ->; discriminate Ho|rewrite lookup_partial_alter_ne by done; apply T2].
  - intros j q Hb. rewrite Ec. destruct (decide (id = j)) as [<-|Hj]; [rewrite lookup_partial_alter_eq; intros -> Hq; cbn in Ho; lia|rewrite lookup_partial_alter_ne by done; by apply T4].
  - intros r b Hr Hc Hb. destruct (T6 r b Hr Hc Hb) as (l1 & l2 & ?). exists l1, l2. by rewrite El, Eo.
Qed.

(** A call that took, used or gave back the lock. *)
Lemma stream_hold s s' id p o dl x :
  ctl_ok s -> stream_ok s -> calls s !! id = Some p -> calls s' = partial_alter (fun _ => o) id (calls s) -> writer s' = writer s -> finished s' = finished s ->
  log s' = log s ++ dl -> out s' = out s ++ x -> (broken s' = false -> broken s = false) ->
  holding p = 1 \/ wmu s = false -> wmu s' = bool_decide (opt_sum holding o = 1) ->
  (forall ce bufs done b, o = Some (PWrite ce bufs done b) -> concat bufs = drop done b) ->
  (broken s' = false -> out s' ++ match o with Some q => if decide (holding q = 1) then call_left q (rest s') else default [] (rest s') | None => default [] (rest s') end = bytes (log s')) ->
  stream_ok s'.
Proof.
  intros K [T1 T2 T3 T4 T5 T6] Hp Ec Ew Ef El Eo Hb Hh Em Hbufs Hmain.
  assert (Hw : writer_holds (writer s) = false).
  { destruct Hh as [Hh|Hf]; [by apply (call_holder s id p K Hp Hh)|]. destruct (writer_holds (writer s)) eqn:E; [|done]. by rewrite (writer_locked s K E) in Hf. }
  assert (Hno : forall j q, j <> id -> calls s !! j = Some q -> holding q <> 1).
  { intros j q Hj Hq H1. destruct Hh as [Hh|Hf]; [by apply Hj, (one_holder s j id q p)|]. destruct (call_holder s j q K Hq H1) as [? _]. congruence. }
  assert (Hlk : forall j q, calls s' !! j = Some q -> j = id /\ o = Some q \/ j <> id /\ calls s !! j = Some q).
  { intros j q. rewrite Ec. destruct (decide (id = j)) as [<-|Hj]; [rewrite lookup_partial_alter_eq; by left|rewrite lookup_partial_alter_ne by done; by right]. }
  split.
  - by rewrite Ew.
  - intros j ce bufs done b Hj. destruct (Hlk _ _ Hj) as [[-> ->]|[_ Hj']]; [by eapply Hbufs|by eapply T2].
  - intros Hbr Hm. specialize (Hmain Hbr). rewrite Em in Hm. apply bool_decide_eq_false in Hm. destruct o as [q|]; [|done]. cbn in Hm. by rewrite decide_False in Hmain.
  - intros j q Hbr Hj Hq. specialize (Hmain Hbr). destruct (Hlk _ _ Hj) as [[-> ->]|[Hne Hj']]; [by rewrite decide_True in Hmain|by destruct (Hno j q Hne Hj')].
  - rewrite Ew, Hw. done.
  - intros r b. rewrite Ef. intros Hr Hc Hbr. eapply whole_grows; [done|done|]. apply T6; auto.
Qed.

(** The writer moves. *)
Lemma stream_writer s s' dl x df :
  ctl_ok s -> stream_ok s -> calls s' = calls s -> kinds_ok (writer s') -> finished s' = finished s ++ df ->
  log s' = log s ++ dl -> out s' = out s ++ x -> (broken s' = false -> broken s = false) ->
  writer_holds (writer s) = true \/ wmu s = false -> wmu s' = writer_holds (writer s') ->
  (broken s' = false -> out s' ++ (if writer_holds (writer s') then writer_left (writer s') (rest s') else default [] (rest s')) = bytes (log s')) ->
  (forall r b, (r, None) ∈ df -> carries r = Some b -> broken s' = false -> whole s' r b) ->
  stream_ok s'.
Proof.
  intros K [T1 T2 T3 T4 T5 T6] Ec Hk Ef El Eo Hb Hh Em Hmain Hwh.
  assert (Hno : forall j q, calls s !! j = Some q -> holding q <> 1).
  { intros j q Hq H1. destruct Hh as [Hh|Hf]; [rewrite (writer_holder s j q K Hh Hq) in H1; done|]. destruct (call_holder s j q K Hq H1) as [? _]. congruence. }
  split; rewrite ?Ec; try done.
  - intros Hbr Hm. specialize (Hmain Hbr). by rewrite <- Em, Hm in Hmain.
  - intros j q Hbr Hj Hq. by destruct (Hno j q Hj).
  - intros Hbr Hw. specialize (Hmain Hbr). by rewrite Hw in Hmain.
  - intros r b. rewrite Ef, elem_of_app. intros [Hr|Hr] Hc Hbr; [|by apply Hwh]. eapply whole_grows; [done|done|]. apply T6; auto.
Qed.

(** The writer waits or winds up: nothing moves. *)
Lemma stream_still s s' df :
  stream_ok s -> calls s' = calls s -> kinds_ok (writer s') -> finished s' = finished s ++ df -> (forall r, (r, None) ∉ df) -> log s' = log s -> out s' = out s -> broken s' = broken s -> wmu s' = wmu s ->
  rest s' = rest s -> writer_holds (writer s') = false -> stream_ok s'.
Proof.
  intros [T1 T2 T3 T4 T5 T6] Ec Hk Ef Hdf El Eo Eb Em Er Hw. split; rewrite ?Ec, ?Ef, ?El, ?Eo, ?Eb, ?Em, ?Er; try done; [by rewrite Hw|].
  intros r b [Hr|Hr]%elem_of_app Hc Hb; [|by destruct (Hdf r)]. destruct (T6 r b Hr Hc Hb) as (l1 & l2 & ?). exists l1, l2. by rewrite El, Eo.
Qed.

Ltac idle_move o := eapply (stream_idle _ _ _ _ o); [eassumption|eassumption|reflexivity..|try done].
Ltac hold_move o dl x := eapply (stream_hold _ _ _ _ o dl x); [eassumption|eassumption|eassumption|reflexivity|reflexivity|reflexivity|cbn; rewrite ?app_nil_r; try done|cbn; rewrite ?app_nil_r; try done|cbn; try done|try (by left)|try (by cbn)|try done|].

Lemma stream_slow s id p c : stream_ok s -> calls s !! id = Some p -> stream_ok (slow_path id c s).
Proof.
  intros T Hp. destruct (slow_path_cases id c s) as [(r & block & -> & _)|[-> | ->]]; [idle_move (Some (PQueue r block))|idle_move (@None cpc)..].
Qed.

Lemma stream_slow_unlock s id p c : ctl_ok s -> stream_ok s -> calls s !! id = Some p -> holding p = 1 -> call_left p (rest s) = default [] (rest s) ->
  stream_ok (slow_path id c (s <| wmu := false |>)).
Proof.
  intros K T Hp Hh Hl. pose proof (t_call _ T id p) as Hc. destruct (slow_path_cases id c (s <| wmu := false |>)) as [(r & block & -> & _)|[-> | ->]];
    [hold_move (Some (PQueue r block)) (@nil entry) (@nil Z)|hold_move (@None cpc) (@nil entry) (@nil Z)..].
  all: intros Hb; cbn; rewrite <- Hl; by apply Hc.
Qed.

Lemma stream_acquire s id c :
  ctl_ok s -> stream_ok s ->
  (calls s !! id = Some (PStart c) -> stream_ok (acquire_load id c s))
  /\ (calls s !! id = Some (PLoaded c) -> stream_ok (acquire_lock id c s))
  /\ (forall ended, calls s !! id = Some (PLocked c) -> stream_ok (acquire_check id c ended s)).
Proof.
  intros K T. split; [|split].
  - intros Hp. unfold acquire_load. destruct (_ && _) eqn:E; [idle_move (Some (PLoaded c))|by eapply stream_slow].
  - intros Hp. unfold acquire_lock. destruct (wmu s) eqn:E; [by eapply stream_slow|]. pose proof (t_free _ T) as Hf. hold_move (Some (PLocked c)) (@nil entry) (@nil Z); [by right|].
    intros Hb. cbn. by apply Hf.
  - intros ended Hp. unfold acquire_check. pose proof (t_call _ T id) as Hc. destruct (_ || _) eqn:E; [by eapply stream_slow_unlock|].
    apply orb_false_iff in E as [E _]. apply bool_decide_eq_false in E. assert (Hr : rest s = None) by (destruct (rest s); [by destruct E|done]).
    destruct (call_holder s id _ K Hp eq_refl) as [Hw _].
    destruct c as [wait block [] [[hdr payload]|]|seq known| |flush b done block]; try destruct ended; cbn [andb].
    all: match goal with |- stream_ok (goto _ ?q _) => hold_move (Some q) (@nil entry) (@nil Z) | |- _ => hold_move (@None cpc) (@nil entry) (@nil Z) end.
    all: first [intros ce' bufs done' b' [= <- <- <- <-]; cbn; by rewrite app_nil_r | intros Hb; cbn; specialize (Hc _ Hb Hp eq_refl); rewrite Hr in *; cbn in Hc; try done].
Qed.

Lemma takes_all s bufs w : takes s bufs w = true -> (w_n w <= length (concat bufs))%nat /\ (w_status w = WOk -> w_n w = length (concat bufs)).
Proof.
  unfold takes. intros [[H1%Nat.leb_le H2]%andb_true_iff _]%andb_true_iff. split; [done|]. intros E. rewrite E in H2. by apply Nat.eqb_eq.
Qed.

Lemma bytes_engine fs : bytes (map LEngine fs) = concat fs.
Proof. unfold bytes. rewrite map_map. by rewrite map_id. Qed.

Lemma bytes_one id b : bytes [LPacket id b] = b.
Proof. unfold bytes. cbn. apply app_nil_r. Qed.

(** Some of the holder's bytes go out. *)
Lemma bytes_move (o b : list Z) l n : o ++ b = l -> (o ++ take n b) ++ drop n b = l.
Proof. intros <-. by rewrite <- app_assoc, take_drop. Qed.

Lemma bytes_done (o b : list Z) l n : o ++ b = l -> (length b <= n)%nat -> o ++ take n b = l.
Proof. intros <- H. by rewrite take_ge. Qed.

Ltac hold_goto dl x := match goal with |- stream_ok (goto _ ?q _) => hold_move (Some q) dl x | |- _ => hold_move (@None cpc) dl x end.

Lemma stream_publish s id ce bufs done b w ended :
  ctl_ok s -> stream_ok s -> calls s !! id = Some (PWrite ce bufs done b) -> takes s bufs w = true -> stream_ok (publish_slice id ce bufs done b w ended s).
Proof.
  intros K T Hp Hw. destruct (takes_all _ _ _ Hw) as [Hn Hall]. pose proof (t_call _ T id) as Hc. pose proof (t_bufs _ T _ _ _ _ _ Hp) as Hb. pose proof (k_rest _ K id _ Hp eq_refl) as Hr.
  destruct (call_holder s id _ K Hp eq_refl) as [Hm _]. unfold publish_slice, handOff, release. destruct (Nat.eqb_spec done 0) as [->|Hd]; cbn [andb].
  - rewrite drop_0 in Hb. destruct (w_status w) eqn:Es, ce; cbn [andb negb]; split_ifs; try (rewrite orb_true_r in *; discriminate).
    all: match goal with |- context [LPacket] => hold_goto [LPacket id b] (take (w_n w) (concat bufs)) | |- _ => hold_goto (@nil entry) (take (w_n w) (concat bufs)) end.
    all: try (intros ce' bufs' done' b' [= <- <- <- <-]; by rewrite concat_consume, Hb).
    all: intros Hbr; cbn in Hbr |- *; try discriminate; specialize (Hc _ Hbr Hp eq_refl); cbn in Hc; rewrite app_nil_r in Hc; rewrite ?Hr, ?concat_consume, ?log_bytes_app, ?bytes_one, ?Hb, Hc, <- ?app_assoc; cbn.
    all: rewrite ?log_bytes_app, ?bytes_one, ?decide_True by done.
    all: destruct (w_n w) as [|n] eqn:En; cbn in *; try done; rewrite ?take_0, ?take_drop, ?app_nil_r; try done.
    all: specialize (Hall eq_refl); rewrite Hb in Hall. all: first [by rewrite take_ge by lia|by rewrite (nil_length_inv b), app_nil_r].
  - assert (Hd' : (done =? 0)%nat = false) by (by apply Nat.eqb_neq). destruct (w_status w) eqn:Es, ce; cbn [andb negb]; split_ifs.
    all: hold_goto (@nil entry) (take (w_n w) (concat bufs)).
    all: try (intros ce' bufs' done' b' [= <- <- <- <-]; by rewrite concat_consume, Hb, drop_drop).
    all: intros Hbr; cbn in Hbr |- *; try discriminate; specialize (Hc _ Hbr Hp eq_refl); cbn in Hc; rewrite Hd' in Hc; rewrite ?Hr, ?concat_consume, <- ?app_assoc; cbn.
    all: rewrite ?decide_True, ?app_nil_r by done.
    all: destruct done as [|done']; [done|]; cbn in *; try done; rewrite ?take_drop; try done. all: by rewrite (Hall eq_refl), take_ge by lia.
Qed.

Lemma stream_collect s id ordered first fs :
  ctl_ok s -> stream_ok s -> calls s !! id = Some (PCollect ordered first) -> stream_ok (call_collect id ordered first fs s).
Proof.
  intros K T Hp. pose proof (t_call _ T id) as Hc. pose proof (k_rest _ K id _ Hp eq_refl) as Hr. destruct (call_holder s id _ K Hp eq_refl) as [Hm _]. unfold call_collect, release.
  destruct (ordered && first), fs as [|f fs]; split_ifs.
  all: match goal with
       | |- context [LMark] => match goal with |- context [LEngine] => hold_goto (LMark id :: map LEngine (f :: fs)) (@nil Z) | |- _ => hold_goto [LMark id] (@nil Z) end
       | |- context [LEngine] => hold_goto (map LEngine (f :: fs)) (@nil Z)
       | |- _ => hold_goto (@nil entry) (@nil Z)
       end; rewrite <- ?app_assoc; try done.
  all: intros Hbr; cbn in Hbr |- *; specialize (Hc _ Hbr Hp eq_refl); cbn in Hc; rewrite app_nil_r in Hc; rewrite ?decide_True, ?Hr by done; cbn; rewrite ?app_nil_r, ?log_bytes_app, Hc; try done.
  all: change (bytes [LMark id]) with (@nil Z); rewrite ?app_nil_r; try done; f_equal; change (LEngine f :: map LEngine fs) with (map LEngine (f :: fs)); by rewrite bytes_engine.
Qed.

Lemma stream_engine s id ordered bufs w ended :
  ctl_ok s -> stream_ok s -> calls s !! id = Some (PEngine ordered bufs) -> takes s bufs w = true -> stream_ok (engine_slice id ordered bufs w ended s).
Proof.
  intros K T Hp Hw. destruct (takes_all _ _ _ Hw) as [Hn Hall]. pose proof (t_call _ T id) as Hc. pose proof (k_rest _ K id _ Hp eq_refl) as Hr.
  destruct (call_holder s id _ K Hp eq_refl) as [Hm _]. unfold engine_slice, handOff, release. destruct (w_status w) eqn:Es; split_ifs.
  all: hold_goto (@nil entry) (take (w_n w) (concat bufs)).
  all: intros Hbr; cbn in Hbr |- *; try discriminate; specialize (Hc _ Hbr Hp eq_refl); cbn in Hc; rewrite ?decide_True, ?Hr by done; cbn; rewrite ?concat_consume, <- ?app_assoc, ?take_drop, ?app_nil_r; try done.
  all: by rewrite (Hall eq_refl), take_ge by lia.
Qed.

Lemma stream_queue s id r block :
  stream_ok s ->
  (calls s !! id = Some (PQueue r block) -> stream_ok (queue_admit id r block s))
  /\ (forall s', calls s !! id = Some (PSend r block) -> send_put id r s = Some s' -> stream_ok s')
  /\ (forall why s', calls s !! id = Some (PSend r block) -> send_give_up id r block why s = Some s' -> stream_ok s').
Proof.
  intros T. split; [|split].
  - intros Hp. unfold queue_admit, refuse. destruct (closed s) eqn:E; [idle_move (@None cpc)|idle_move (Some (PSend r block))].
  - intros s' Hp. unfold send_put. destruct (_ <? _)%nat; [|done]. intros [= <-]. idle_move (@None cpc).
  - intros why s' Hp. unfold send_give_up, refuse. destruct (send_fails _ _ _); [|done]. intros [= <-]. idle_move (@None cpc).
Qed.

Ltac still E df := eapply (stream_still _ _ df); [eassumption|cbn; rewrite ?E, ?app_nil_r; first [done|reflexivity|by intros ? ?%elem_of_nil|by intros ? [=]%list_elem_of_singleton|idtac]..].
Ltac work E dl x df := eapply (stream_writer _ _ dl x df); [eassumption|eassumption|cbn; rewrite ?E, ?app_nil_r; first [done|reflexivity|by left|by intros ? ? ?%elem_of_nil|by intros ? ? [=]%list_elem_of_singleton|idtac]..].

Lemma whole_last s s' r b : log s' = log s ++ [LPacket (r_id r) b] -> out s' = bytes (log s') -> whole s' r b.
Proof. intros El Eo. exists (log s), []. split; [done|]. rewrite Eo, El, log_bytes_app, bytes_one, length_app. done. Qed.

Lemma bytes_packets l : bytes (map (fun r => LPacket (r_id r) (pkt_bytes r)) l) = concat (map pkt_bytes l).
Proof. unfold bytes. by rewrite map_map. Qed.

Lemma whole_batch s s' batch r b :
  log s' = log s ++ map (fun r => LPacket (r_id r) (pkt_bytes r)) batch -> out s' = bytes (log s') -> Forall is_pkt batch -> r ∈ batch -> carries r = Some b -> whole s' r b.
Proof.
  intros El Eo Hb Hr Hc. assert (Ep : pkt_bytes r = b) by (rewrite Forall_forall in Hb; specialize (Hb r Hr); unfold is_pkt, carries, pkt_bytes in *; destruct (r_kind r); [congruence|done..]).
  apply list_elem_of_split in Hr as (B1 & B2 & ->). exists (log s ++ map (fun r => LPacket (r_id r) (pkt_bytes r)) B1), (map (fun r => LPacket (r_id r) (pkt_bytes r)) B2).
  assert (E : log s' = (log s ++ map (fun r => LPacket (r_id r) (pkt_bytes r)) B1) ++ LPacket (r_id r) b :: map (fun r => LPacket (r_id r) (pkt_bytes r)) B2) by (rewrite El, map_app, <- app_assoc; cbn; by rewrite Ep).
  split; [exact E|]. rewrite Eo, E. change (LPacket (r_id r) b :: ?l) with ([LPacket (r_id r) b] ++ l). rewrite (log_bytes_app (log s ++ _)), (log_bytes_app [_]), bytes_one, !length_app. lia.
Qed.

Lemma step_stream_writer s w fs s' : ctl_ok s -> stream_ok s -> writer_step w fs s = Some s' -> stream_ok s'.
Proof.
  intros K T. pose proof (k_wrest _ K) as Hr. pose proof (writer_locked s K) as Hl. pose proof (t_free _ T) as Hf. pose proof (t_writer _ T) as Hw. pose proof (t_kinds _ T) as Hk.
  unfold writer_step. destruct (writer s) as [|r| |o|batch r|batch|batch next|r|k|bufs k|r|err| | | | | |] eqn:E; cbn in Hr, Hl, Hw, Hk; try (specialize (Hr eq_refl)); try (specialize (Hl eq_refl)); try done.
  - destruct (wmu s) eqn:Ew; [done|]. intros [= <-]. work E (@nil entry) (@nil Z) (@nil (writeReq * option werror)); auto.
  - destruct (wmu s) eqn:Ew; [done|]. intros [= <-]. work E (@nil entry) (@nil Z) (@nil (writeReq * option werror)); auto.
  - unfold write_rest, writer_put, finish_opt. destruct (rest s) as [b|] eqn:Er.
    + destruct (takes s [b] w) eqn:Et; [|done]. destruct (takes_all _ _ _ Et) as [Hn Hall]. intros [= <-]. unfold write_ok in *. destruct (w_status w) eqn:Es.
      * specialize (Hall eq_refl). destruct o as [r|]; work E (@nil entry) (take (w_n w) (concat [b])) (@nil (writeReq * option werror)).
        all: intros Hb; specialize (Hw Hb eq_refl); cbn in Hw; rewrite <- Hw; cbn in Hall; rewrite app_nil_r in Hall; by rewrite take_ge by lia.
      * destruct o as [r|]; [work E (@nil entry) (take (w_n w) (concat [b])) [(r, Some EWrite)]|work E (@nil entry) (take (w_n w) (concat [b])) (@nil (writeReq * option werror))].
      * destruct o as [r|]; [work E (@nil entry) (take (w_n w) (concat [b])) [(r, Some EWrite)]|work E (@nil entry) (take (w_n w) (concat [b])) (@nil (writeReq * option werror))].
    + intros [= <-]. destruct o; work E (@nil entry) (@nil Z) (@nil (writeReq * option werror)); rewrite ?Er in *; cbn in *; intros Hb; specialize (Hw Hb eq_refl); by rewrite app_nil_r in Hw.
  - intros [= <-]. assert (Hout : broken s = false -> out s = bytes (log s)) by (intros Hb; rewrite <- (Hw Hb eq_refl); by rewrite app_nil_r). unfold process_write. destruct (r_kind r) eqn:Ek; split_ifs.
    all: work E (@nil entry) (@nil Z) (@nil (writeReq * option werror)); try (unfold is_pkt; rewrite Ek); try (split; try done); try (apply Forall_app; split; [done|]; constructor; [by unfold is_pkt; rewrite Ek|constructor]); auto.
  - intros [= <-]. assert (Hout : broken s = false -> out s = bytes (log s)) by (intros Hb; rewrite <- (Hw Hb eq_refl); by rewrite app_nil_r). unfold process_more. destruct (writeQueue s) eqn:Eq.
    all: work E (@nil entry) (@nil Z) (@nil (writeReq * option werror)); auto.
  - assert (Hout : broken s = false -> out s = bytes (log s)) by (intros Hb; rewrite <- (Hw Hb eq_refl); by rewrite app_nil_r). destruct Hk as [Hk Hk2]. destruct (decide (batch = [])) as [->|Hb].
    + intros [= <-]. destruct next; work E (@nil entry) (@nil Z) (@nil (writeReq * option werror)); rewrite ?Hr; cbn; rewrite ?app_nil_r; auto.
    + rewrite flush_some by done. cbn zeta. destruct (takes s (map pkt_bytes batch) w) eqn:Et; [|done]. destruct (takes_all _ _ _ Et) as [Hn Hall]. intros [= <-]. unfold writer_put, finish_opt, write_ok in *.
      set (B := map (fun r => LPacket (r_id r) (pkt_bytes r)) batch) in *. set (C := map pkt_bytes batch) in *.
      assert (HB : bytes B = concat C) by apply bytes_packets. destruct (w_status w) eqn:Es.
      * specialize (Hall eq_refl). assert (Hok : broken s = false -> out s ++ take (w_n w) (concat C) = bytes (log s ++ B)) by (intros Hbr; rewrite log_bytes_app, HB, (Hout Hbr), take_ge by lia; done).
        destruct next as [n|]; work E B (take (w_n w) (concat C)) (map (fun r => (r, @None werror)) batch).
        all: intros r b (r' & [= ->] & Hin)%list_elem_of_fmap Hc Hbr; eapply (whole_batch s); [reflexivity|by apply Hok|done..].
      * destruct next as [n|]; [work E B (take (w_n w) (concat C)) (map (fun r => (r, Some EWrite)) batch ++ [(n, Some EWrite)])|work E B (take (w_n w) (concat C)) (map (fun r => (r, Some EWrite)) batch)]; rewrite <- ?app_assoc; try done.
      * destruct next as [n|]; [work E B (take (w_n w) (concat C)) (map (fun r => (r, Some EWrite)) batch ++ [(n, Some EWrite)])|work E B (take (w_n w) (concat C)) (map (fun r => (r, Some EWrite)) batch)]; rewrite <- ?app_assoc; try done.
  - assert (Hout : broken s = false -> out s = bytes (log s)) by (intros Hb; rewrite <- (Hw Hb eq_refl); by rewrite app_nil_r). unfold write_one. destruct (r_kind r) as [|[] |] eqn:Ek; try done; intros [= <-].
    + work E (@nil entry) (@nil Z) (@nil (writeReq * option werror)). unfold is_fn. by rewrite Ek.
    + work E (@nil entry) (@nil Z) (@nil (writeReq * option werror)). unfold is_fn. by rewrite Ek.
    + work E [LMark (r_id r)] (@nil Z) (@nil (writeReq * option werror)); [unfold is_mark; by rewrite Ek|]. intros Hb. rewrite log_bytes_app. change (bytes [LMark (r_id r)]) with (@nil Z). rewrite app_nil_r. auto.
  - assert (Hout : broken s = false -> out s = bytes (log s)) by (intros Hb; rewrite <- (Hw Hb eq_refl); by rewrite app_nil_r). intros [= <-]. unfold writer_collect. destruct fs as [|f fs]; [destruct k as [|r|r]|].
    + work E (@nil entry) (@nil Z) (@nil (writeReq * option werror)); auto.
    + work E (@nil entry) (@nil Z) [(r, @None werror)]. intros r' b [= ->]%list_elem_of_singleton Hc. unfold carries, is_mark in *. by destruct (r_kind r).
    + work E (@nil entry) (@nil Z) (@nil (writeReq * option werror)); auto.
    + work E (map LEngine (f :: fs)) (@nil Z) (@nil (writeReq * option werror)). intros Hb. rewrite log_bytes_app. change (LEngine f :: map LEngine fs) with (map LEngine (f :: fs)). rewrite bytes_engine, (Hout Hb). done.
  - unfold writer_engine, finish_opt, write_ok. destruct (takes s bufs w) eqn:Et; [|done]. destruct (takes_all _ _ _ Et) as [Hn Hall]. intros [= <-]. destruct (w_status w) eqn:Es.
    + work E (@nil entry) (take (w_n w) (concat bufs)) (@nil (writeReq * option werror)). intros Hb. rewrite (Hall eq_refl), take_ge by lia. auto.
    + destruct k as [|r|r]; cbn [after_req]; [work E (@nil entry) (take (w_n w) (concat bufs)) (@nil (writeReq * option werror))|work E (@nil entry) (take (w_n w) (concat bufs)) [(r, Some EWrite)]..].
    + destruct k as [|r|r]; cbn [after_req]; [work E (@nil entry) (take (w_n w) (concat bufs)) (@nil (writeReq * option werror))|work E (@nil entry) (take (w_n w) (concat bufs)) [(r, Some EWrite)]..].
  - assert (Hout : broken s = false -> out s = bytes (log s)) by (intros Hb; rewrite <- (Hw Hb eq_refl); by rewrite app_nil_r). unfold write_fn, writer_put, write_ok. destruct (r_kind r) as [|flush [b|]|] eqn:Ek; try done.
    + destruct (takes s [b] w) eqn:Et; [|done]. destruct (takes_all _ _ _ Et) as [Hn Hall]. intros [= <-]. destruct (w_status w) eqn:Es; cbn [negb].
      * specialize (Hall eq_refl). assert (Hok : broken s = false -> out s ++ take (w_n w) (concat [b]) = bytes (log s ++ [LPacket (r_id r) b])) by (intros Hbr; rewrite log_bytes_app, bytes_one, (Hout Hbr), take_ge by lia; cbn; by rewrite app_nil_r).
        work E [LPacket (r_id r) b] (take (w_n w) (concat [b])) [(r, @None werror)].
        { intros Hbr. specialize (Hok Hbr). cbn in Hok. by rewrite app_nil_r in Hok. }
        intros r' b' [= ->]%list_elem_of_singleton Hc Hbr. unfold carries in Hc. rewrite Ek in Hc. injection Hc as <-. eapply (whole_last s); [done|by apply Hok].
      * work E [LPacket (r_id r) b] (take (w_n w) (concat [b])) [(r, Some EWrite)].
      * work E [LPacket (r_id r) b] (take (w_n w) (concat [b])) [(r, Some EWrite)].
    + intros [= <-]. work E (@nil entry) (@nil Z) [(r, Some EEncode)]; auto.
  - intros [= <-]. destruct err; work E (@nil entry) (@nil Z) (@nil (writeReq * option werror)); rewrite ?Hr; auto.
  - intros [= <-]. still E (@nil (writeReq * option werror)).
  - intros [= <-]. still E (@nil (writeReq * option werror)).
  - unfold close_queue. destruct (forallb _ _) eqn:Ef; [|done]. intros [= <-]. still E (@nil (writeReq * option werror)).
  - unfold drop_rest. destruct (wmu s) eqn:Ew; [done|]. intros [= <-]. destruct (rest s) eqn:Er; [work E (@nil entry) (@nil Z) (@nil (writeReq * option werror)); by right|]. still E (@nil (writeReq * option werror)).
  - intros [= <-]. unfold drain_one. destruct (writeQueue s) as [|r q] eqn:Eq; [still E (@nil (writeReq * option werror))|]. still E [(r, Some ENotConnected)].
Qed.

Lemma step_stream s e s' : ctl_ok s -> stream_ok s -> step s e = Some s' -> stream_ok s'.
Proof.
  intros K T. destruct e; cbn [step]; try (destruct (calls s !! id) as [[]|] eqn:Hp; try done).
  - intros [= <-]. destruct T as [T1 T2 T3 T4 T5 T6]. split; try done; cbn.
    + intros id ce bufs n b [[_ ?]|[_ Hp]]%lookup_insert_Some; [done|by eapply T2].
    + intros id p Hb [[_ <-]|[_ Hp]]%lookup_insert_Some Hh; [done|by eapply T4].
  - intros [= <-]. by apply stream_acquire.
  - intros [= <-]. by apply stream_acquire.
  - intros [= <-]. by apply stream_acquire.
  - intros [= <-]. by apply stream_collect.
  - destruct (takes _ _ _) eqn:E; [|done]. intros [= <-]. by apply stream_publish.
  - destruct (takes _ _ _) eqn:E; [|done]. intros [= <-]. by apply stream_engine.
  - intros [= <-]. by apply stream_queue.
  - by apply (stream_queue s id r block T).
  - by apply (stream_queue s id r block T).
  - destruct (writer s) eqn:E, (writeQueue s) eqn:Eq; try done. intros [= <-]. still E (@nil (writeReq * option werror)).
  - destruct (writer s) eqn:E, (wake s) eqn:Eq; try done. intros [= <-]. still E (@nil (writeReq * option werror)).
  - destruct (writer s) eqn:E, (dying s || shutdown s) eqn:Eq; try done. intros [= <-]. still E (@nil (writeReq * option werror)).
  - by apply step_stream_writer.
  - intros [= <-]. by destruct T.
  - destruct (dying s) eqn:E; [|done]. intros [= <-]. by destruct T.
  - intros [= <-]. by destruct T.
  - intros [= <-]. by destruct T.
Qed.

(** ** What was answered with nil *)

(** [l], each list in one piece and one after the other, with gaps, in [o]. *)
Fixpoint segments (l : list (list Z)) (o : list Z) : Prop :=
  match l with
  | [] => True
  | b :: l => exists gap o', o = gap ++ b ++ o' /\ segments l o'
  end.

Lemma segments_gap l g : forall o, segments l o -> segments l (g ++ o).
Proof. destruct l as [|b l]; intros o; [done|]. intros (gap & o' & -> & H). exists (g ++ gap), o'. by rewrite !app_assoc. Qed.

Lemma segments_app l l' o' : forall o, segments l o -> segments l' o' -> segments (l ++ l') (o ++ o').
Proof.
  induction l as [|b l IH]; intros o H H'; [by apply segments_gap|]. destruct H as (gap & o1 & -> & H). exists gap, (o1 ++ o').
  split; [by rewrite <- !app_assoc|]. by apply IH.
Qed.

Lemma segments_concat l : segments l (concat l).
Proof. induction l as [|b l IH]; [done|]. by exists [], (concat l). Qed.

(** The packets of the requests answered with nil. *)
Definition answered_nil (l : list (writeReq * option werror)) : list (list Z) :=
  omap (fun x => match x.2 with None => carries x.1 | Some _ => None end) l.

Lemma answered_nil_app l l' : answered_nil (l ++ l') = answered_nil l ++ answered_nil l'.
Proof. apply omap_app. Qed.

Lemma answered_nil_err l e : answered_nil (map (fun r => (r, Some e)) l) = [].
Proof. by induction l. Qed.

Lemma answered_nil_pkts l : Forall is_pkt l -> answered_nil (map (fun r => (r, None)) l) = map pkt_bytes l.
Proof. induction 1 as [|r l Hr _ IH]; [done|]. cbn. unfold is_pkt, carries, pkt_bytes in *. destruct (r_kind r); [by f_equal|done..]. Qed.

(** A step answers requests and has the socket take bytes, the packets of
    those it answers with nil among them. *)
Definition answers (s s' : world) : Prop :=
  exists df x, finished s' = finished s ++ df /\ out s' = out s ++ x /\ segments (answered_nil df) x.

Lemma answers_none s s' x : finished s' = finished s -> out s' = out s ++ x -> answers s s'.
Proof. intros Ef Eo. exists [], x. by rewrite Ef, app_nil_r. Qed.

Lemma answers_refl s s' : finished s' = finished s -> out s' = out s -> answers s s'.
Proof. intros Ef Eo. apply (answers_none s s' []); [done|]. by rewrite Eo, app_nil_r. Qed.

Lemma answers_error s s' l e x : finished s' = finished s ++ map (fun r => (r, Some e)) l -> out s' = out s ++ x -> answers s s'.
Proof. intros Ef Eo. exists (map (fun r => (r, Some e)) l), x. by rewrite answered_nil_err. Qed.

Lemma answers_slow s s1 id c : finished s1 = finished s -> out s1 = out s -> answers s (slow_path id c s1).
Proof. intros Ef Eo. destruct (slow_path_cases id c s1) as [(r & block & -> & _)|[-> | ->]]; by apply answers_refl. Qed.

Lemma writer_answers_nil s w fs s' : stream_ok s -> writer_step w fs s = Some s' -> answers s s'.
Proof.
  intros T. pose proof (t_kinds _ T) as Hk. unfold writer_step. destruct (writer s) as [|r| |o|batch r|batch|batch next|r|k|bufs k|r|err| | | | | |] eqn:E; try done; cbn in Hk.
  - destruct (wmu s); [done|]. intros [= <-]. by apply answers_refl.
  - destruct (wmu s); [done|]. intros [= <-]. by apply answers_refl.
  - unfold write_rest. destruct (rest s) as [b|]; [|intros [= <-]; by apply answers_refl]. destruct (takes s [b] w); [|done]. intros [= <-].
    unfold writer_put. destruct (write_ok w); [by eapply answers_none|]. destruct o as [r|]; [by apply (answers_error _ _ [r] EWrite (take (w_n w) (concat [b])))|by eapply answers_none].
  - intros [= <-]. unfold process_write. destruct (r_kind r); by apply answers_refl.
  - intros [= <-]. unfold process_more. destruct (writeQueue s); by apply answers_refl.
  - destruct (decide (batch = [])) as [->|Hb]; [intros [= <-]; by apply answers_refl|]. rewrite flush_some by done. cbn zeta.
    destruct (takes s (map pkt_bytes batch) w) eqn:Et; [|done]. destruct (takes_all _ _ _ Et) as [Hn Hall]. intros [= <-]. unfold writer_put, write_ok.
    destruct (w_status w) eqn:Es.
    1: { exists (map (fun r => (r, None)) batch), (concat (map pkt_bytes batch)). split; [done|]. split; [cbn; by rewrite (Hall eq_refl), take_ge by lia|].
         rewrite answered_nil_pkts by apply Hk. apply segments_concat. }
    all: apply (answers_error _ _ (batch ++ option_list next) EWrite (take (w_n w) (concat (map pkt_bytes batch)))); [|by destruct next]; destruct next; cbn; by rewrite map_app, ?app_nil_r, <- ?app_assoc.
  - unfold write_one. destruct (r_kind r) as [|[] |]; try done; intros [= <-]; by apply answers_refl.
  - intros [= <-]. unfold writer_collect. destruct fs; [|by apply answers_refl]. destruct k as [|r|r]; try by apply answers_refl.
    exists [(r, None)], []. split; [done|]. split; [cbn; by rewrite app_nil_r|]. unfold answered_nil, carries, is_mark in *. cbn. by destruct (r_kind r).
  - unfold writer_engine. destruct (takes s bufs w); [|done]. intros [= <-]. destruct (write_ok w); [by eapply answers_none|].
    destruct k as [|r|r]; cbn [after_req finish_opt]; [by eapply answers_none|by apply (answers_error _ _ [r] EWrite (take (w_n w) (concat bufs)))..].
  - unfold write_fn. destruct (r_kind r) as [|flush [b|]|] eqn:Ek; try done; [|intros [= <-]; apply (answers_error _ _ [r] EEncode []); [done|by rewrite app_nil_r]].
    destruct (takes s [b] w) eqn:Et; [|done]. destruct (takes_all _ _ _ Et) as [Hn Hall]. intros [= <-]. unfold writer_put, write_ok.
    destruct (w_status w) eqn:Es; cbn [negb]; [|by apply (answers_error _ _ [r] EWrite (take (w_n w) (concat [b])))..].
    exists [(r, None)], (concat [b]). split; [done|]. split; [specialize (Hall eq_refl); cbn in *; f_equal; apply take_ge; lia|].
    unfold answered_nil, carries. cbn. rewrite Ek. apply (segments_concat [b]).
  - intros [= <-]. by apply answers_refl.
  - intros [= <-]. by apply answers_refl.
  - intros [= <-]. by apply answers_refl.
  - unfold close_queue. destruct (forallb _ _); [|done]. intros [= <-]. by apply answers_refl.
  - unfold drop_rest. destruct (wmu s); [done|]. intros [= <-]. destruct (rest s); by apply answers_refl.
  - intros [= <-]. unfold drain_one. destruct (writeQueue s) as [|r q]; [by apply answers_refl|]. apply (answers_error _ _ [r] ENotConnected []); [done|cbn; by rewrite app_nil_r].
Qed.

Lemma step_answers_nil s e s' : stream_ok s -> step s e = Some s' -> answers s s'.
Proof.
  intros T. destruct e; cbn [step]; try (destruct (calls s !! id) as [[]|] eqn:Hp; try done).
  - intros [= <-]. by apply answers_refl.
  - intros [= <-]. unfold acquire_load. split_ifs; [by apply answers_refl|by apply answers_slow].
  - intros [= <-]. unfold acquire_lock. split_ifs; [by apply answers_slow|by apply answers_refl].
  - intros [= <-]. unfold acquire_check. split_ifs; [by apply answers_slow|]. destruct c as [wait block ce [[hdr payload]|]| | |]; split_ifs; by apply answers_refl.
  - intros [= <-]. unfold call_collect, release. destruct fs; split_ifs; by apply answers_refl.
  - destruct (takes _ _ _); [|done]. intros [= <-]. unfold publish_slice, handOff, release. destruct (w_status w); split_ifs; by eapply answers_none.
  - destruct (takes _ _ _); [|done]. intros [= <-]. unfold engine_slice, handOff, release. destruct (w_status w); split_ifs; by eapply answers_none.
  - intros [= <-]. unfold queue_admit. split_ifs; by apply answers_refl.
  - unfold send_put. split_ifs; [|done]. intros [= <-]. by apply answers_refl.
  - unfold send_give_up. destruct (send_fails _ _ _); [|done]. intros [= <-]. by apply answers_refl.
  - destruct (writer s), (writeQueue s); try done. intros [= <-]. by apply answers_refl.
  - destruct (writer s), (wake s); try done. intros [= <-]. by apply answers_refl.
  - destruct (writer s), (dying s || shutdown s); try done. intros [= <-]. by apply answers_refl.
  - by apply writer_answers_nil.
  - intros [= <-]. by apply answers_refl.
  - destruct (dying s); [|done]. intros [= <-]. by apply answers_refl.
  - intros [= <-]. by apply answers_refl.
  - intros [= <-]. by apply answers_refl.
Qed.

(** ** All runs *)

Record conn_ok (s : world) : Prop := { c_ctl : ctl_ok s; c_hist : hist_ok s; c_stream : stream_ok s; c_nil : segments (answered_nil (finished s)) (out s) }.

Lemma step_conn s e s' : conn_ok s -> step s e = Some s' -> conn_ok s'.
Proof.
  intros [K H T N] E. split; [by eapply step_ctl|by eapply step_hist|by eapply step_stream|].
  destruct (step_answers_nil s e s' T E) as (df & x & -> & -> & Hx). rewrite answered_nil_app. by apply segments_app.
Qed.

Lemma run_conn es : forall s s', conn_ok s -> run s es = Some s' -> conn_ok s'.
Proof.
  induction es as [|e es IH]; intros s s' C; cbn [run]; [by intros [= <-]|]. destruct (step s e) as [s1|] eqn:E; [|done]. apply IH. by eapply step_conn.
Qed.

Lemma reach_conn direct cap batchMax es s : run (new_conn direct cap batchMax) es = Some s -> conn_ok s.
Proof. apply run_conn. split; [apply new_ctl|split; [apply new_req|apply new_order]|apply new_stream|done]. Qed.

Lemma total_pos f m : 0 < total f m -> exists i p, m !! i = Some p /\ 0 < f p.
Proof.
  induction m as [|i p m Hi IH] using map_ind; [done|]. rewrite total_insert_new by done. intros H. destruct (Z.lt_ge_cases 0 (f p)) as [Hp|Hp]; [exists i, p; by rewrite lookup_insert_eq|].
  destruct IH as (j & q & Hj & Hq); [lia|]. exists j, q. split; [|done]. rewrite lookup_insert_ne; [done|]. intros ->. congruence.
Qed.

(** Somebody holds the lock, or the stream ends with the tail handed off. *)
Lemma unsent_tail s : conn_ok s -> broken s = false -> exists tail, out s ++ tail = bytes (log s) /\ (wmu s = false -> tail = default [] (rest s)).
Proof.
  intros [K _ T _] Hb. destruct (wmu s) eqn:Em; [|exists (default [] (rest s)); split; [by apply (t_free _ T)|done]]. pose proof (k_lock _ K) as Hl. rewrite Em in Hl. cbn in Hl.
  destruct (writer_holds (writer s)) eqn:Ew; [exists (writer_left (writer s) (rest s)); split; [by apply (t_writer _ T)|done]|]. cbn in Hl.
  destruct (total_pos holding (calls s) ltac:(lia)) as (i & p & Hp & Hh). exists (call_left p (rest s)). split; [|done]. apply (t_call _ T i p Hb Hp). by destruct p.
Qed.

(** ** Theorems *)

(** C15: packets go out whole and one after the other. However callers that
    write themselves, callers that queue, contexts that end mid-write, the
    writer and the engine interleave, and wherever the socket stops a write,
    the bytes it took are the packets begun so far, in order, but for a tail;
    when nobody holds the lock the tail is the one [handOff] left, and the
    writer is woken for it or there already. Only a failed write, or a dying
    connection that drops the tail, ends this, and then the connection is being
    taken down. *)
Theorem stream_whole direct cap batchMax es s :
  run (new_conn direct cap batchMax) es = Some s ->
  (broken s = false -> exists tail, out s ++ tail = bytes (log s) /\ (wmu s = false -> tail = default [] (rest s)))
  /\ (rest s <> None -> wake s = true \/ writer s = WWoken \/ writer s = WRest None)
  /\ (broken s = true -> dying s = true \/ writer s = WUnlock true \/ writer s = WFailed).
Proof.
  intros C%reach_conn. split; [by apply unsent_tail|]. destruct C as [K _ _ _]. split; [apply (k_wake _ K)|apply (k_broken _ K)].
Qed.

(** C16: every request the queue takes is answered once and truthfully. The
    requests accepted are, in order, those answered and those in the writer's
    hands or the queue. The packets of those answered with nil are on the wire,
    each in one piece of its own and in that order, whatever failed before or
    since: a write that fails or takes only part of a packet is never answered
    with nil. While the connection is not broken they are where the history has
    them. [ErrNotConnected] is answered only when none of the packet was ever
    written; the counter that lets callers write themselves counts exactly the
    requests not answered, those being sent and the tail; and when the writer
    has exited nothing is left unanswered. *)
Theorem requests_answered direct cap batchMax es s :
  run (new_conn direct cap batchMax) es = Some s ->
  map fst (finished s) ++ pending s = accepted s /\ NoDup (ids (accepted s))
  /\ segments (answered_nil (finished s)) (out s)
  /\ (forall r b, (r, None) ∈ finished s -> carries r = Some b -> broken s = false -> whole s r b)
  /\ (forall r, (r, Some ENotConnected) ∈ finished s -> r_id r ∉ log_ids (log s))
  /\ queued s = len (pending s) + total sends (calls s) + some_n (rest s)
  /\ (writer s = WExit -> pending s = [] /\ closed s = true).
Proof.
  intros C%reach_conn. destruct C as [K [Q _] T N]. split; [apply (q_accepted _ Q)|]. split; [apply (q_nodup _ Q)|]. split; [done|]. split; [apply (t_whole _ T)|]. split; [apply (q_never _ Q)|]. split; [apply (k_count _ K)|].
  intros E. unfold pending. rewrite (k_closed _ K), (k_exit _ K E), E. done.
Qed.

(** C14: writes keep the order in which they were admitted. If a call has been
    admitted, written by its caller or accepted by the queue, before another
    begins, its packet (or its mark, for the engine's PUBLISHes) comes first,
    whichever of the two ways each of them took; unless it fails. Each has
    its turn at most once. *)
Theorem write_order direct cap batchMax es s l1 x l2 a b :
  run (new_conn direct cap batchMax) es = Some s ->
  log s = l1 ++ x :: l2 -> entry_id x = Some b -> a ∈ snap s b ->
  (a ∈ log_ids l1 \/ failed s a) /\ NoDup (log_ids (log s)).
Proof. intros C%reach_conn El Hx Ha. destruct C as [_ [Q O] _ _]. split; [by eapply (o_log _ O)|apply (q_log _ Q)]. Qed.

(** ** Witness *)

(** A caller's PUBLISH is cut short by its context, the next one is queued
    behind the tail, then a mark; the writer sends all three and an engine
    packet. *)
Definition busy : list event :=
  [EBegin (CPublish true true true (Some ([48; 3], [97; 98; 99]))); ELoad 0; ETryLock 0; ECheck 0 false; ESlice 0 (mkWritten 3 WDeadline) true;
   EBegin (CPublish true true true (Some ([48; 1], [100]))); ELoad 1; EAdmit 1; ESend 1;
   EBegin (COrdered 7 true); ELoad 2; EAdmit 2; ESend 2;
   ETake] ++ replicate 1 (EWriter (mkWritten 0 WOk) []) ++ [EWriter (mkWritten 2 WOk) []]
   ++ replicate 3 (EWriter (mkWritten 0 WOk) []) ++ [EWriter (mkWritten 3 WOk) []; EWriter (mkWritten 0 WOk) []; EWriter (mkWritten 0 WOk) [[50; 1; 101]]; EWriter (mkWritten 3 WOk) []]
   ++ replicate 2 (EWriter (mkWritten 0 WOk) []).
Definition busy_end : world := default (new_conn true 2 8) (run (new_conn true 2 8) busy).

Lemma busy_runs : run (new_conn true 2 8) busy = Some busy_end.
Proof. vm_compute. reflexivity. Qed.

Lemma stream_whole_witness :
  run (new_conn true 2 8) busy = Some busy_end /\ out busy_end = bytes (log busy_end) /\ out busy_end = [48; 3; 97; 98; 99; 48; 1; 100; 50; 1; 101].
Proof.
  split; [exact busy_runs|]. destruct (stream_whole true 2 8 busy busy_end busy_runs) as (H & _). destruct (H eq_refl) as (tail & E & Ht). specialize (Ht eq_refl).
  change (default [] (rest busy_end)) with (@nil Z) in Ht. subst tail. rewrite app_nil_r in E. split; [exact E|]. vm_compute. reflexivity.
Defined.

Lemma requests_answered_witness : run (new_conn true 2 8) busy = Some busy_end /\ length (accepted busy_end) = 2%nat /\ map fst (finished busy_end) = accepted busy_end /\ queued busy_end = 0
  /\ answered_nil (finished busy_end) = [[48; 1; 100]] /\ segments (answered_nil (finished busy_end)) (out busy_end).
Proof.
  split; [exact busy_runs|]. destruct (requests_answered true 2 8 busy busy_end busy_runs) as (E & _ & N & _ & _ & Eq & _). split; [vm_compute; reflexivity|].
  split; [|split; [vm_compute; reflexivity|split; [vm_compute; reflexivity|exact N]]].
  assert (Hp : pending busy_end = []) by (vm_compute; reflexivity). rewrite Hp, app_nil_r in E. exact E.
Defined.

Lemma write_order_witness :
  log busy_end = [LPacket 0 [48; 3; 97; 98; 99]; LPacket 1 [48; 1; 100]] ++ LMark 2 :: [LEngine [50; 1; 101]] /\ 1 ∈ snap busy_end 2 /\ (1 ∈ [0; 1] \/ failed busy_end 1).
Proof.
  assert (El : log busy_end = [LPacket 0 [48; 3; 97; 98; 99]; LPacket 1 [48; 1; 100]] ++ LMark 2 :: [LEngine [50; 1; 101]]) by (vm_compute; reflexivity).
  assert (Hs : 1 ∈ snap busy_end 2) by (assert (E : snap busy_end 2 = [0; 1]) by (vm_compute; reflexivity); rewrite E; right; left). split; [exact El|]. split; [exact Hs|].
  destruct (write_order true 2 8 busy busy_end _ _ _ 1 2 busy_runs El eq_refl Hs) as [H _]. exact H.
Defined.

End ConnStream.
