(* ===== verification/ConnExit.v ===== *)
(** * ConnExit: the writer exits

    Once the socket of a dying connection is closed the writer and the calls
    are done within a number of steps, whatever the schedule, and nothing blocks
    them. Also here: the moment before the close in which a dropped tail can be
    followed by another packet. *)

From stdpp Require Import gmap.
From S2P Require Import Prelude GoLib ConnWriter ConnOrder ConnStream.

Module ConnExit.
Import ConnWriter ConnOrder ConnStream.

(** The steps of the calls and of the writer; the others are the environment's:
    new calls, the engine's wake-ups, the end. *)
Definition internal (e : event) : bool :=
  match e with EBegin _ | EDown | EClosed | EShutdown | EWake => false | _ => true end.

(** How much is left to do. *)
Definition call_weight (p : cpc) : Z :=
  match p with
  | PStart _ => 20 | PLoaded _ => 19 | PLocked _ => 18 | PQueue _ _ => 17 | PSend _ _ => 16
  | PCollect _ _ => 2 | PWrite _ _ _ _ | PEngine _ _ => 1
  end.

Definition writer_weight (p : wpc) : Z :=
  match p with
  | WTook _ | WWoken => 15 | WRest _ => 14 | WProcess _ _ => 13 | WMore _ => 12 | WFlush _ _ => 11 | WOne _ => 10
  | WCollect _ => 9 | WEngine _ _ | WFnWrite _ => 8 | WUnlock _ => 7 | WSelect => 6
  | WFailed => 5 | WDying => 4 | WClosing => 3 | WDropping => 2 | WDraining => 1 | WExit => 0
  end.

Definition weight (s : world) : Z := total call_weight (calls s) + 15 * len (writeQueue s) + 10 * b2z (wake s) + writer_weight (writer s).

Lemma call_weight_pos p : 0 < call_weight p.
Proof. by destruct p. Qed.

Lemma conn_weight_nonneg s : 0 <= weight s.
Proof.
  unfold weight. pose proof (call_total_nonneg call_weight (calls s) (fun p => Z.lt_le_incl _ _ (call_weight_pos p))). pose proof (len_nonneg (writeQueue s)).
  assert (0 <= b2z (wake s)) by (by destruct (wake s)). assert (0 <= writer_weight (writer s)) by (by destruct (writer s)). lia.
Qed.

(** A closed socket takes nothing. *)
Lemma closed_takes s bufs w : sock_closed s = true -> takes s bufs w = true -> w_status w = WErr.
Proof. unfold takes. intros ->. cbn [negb orb]. intros [_ H]%andb_true_iff. by destruct (w_status w). Qed.

Definition down (s : world) : Prop := dying s = true /\ sock_closed s = true.

(** A call changes its place, the queue and the token as told. *)
Lemma weight_call s s' id p o n : calls s !! id = Some p -> calls s' = partial_alter (fun _ => o) id (calls s) -> writer s' = writer s ->
  len (writeQueue s') = len (writeQueue s) + n -> 15 * n + 10 * b2z (wake s') + opt_sum call_weight o < call_weight p + 10 * b2z (wake s) -> weight s' < weight s.
Proof.
  intros Hp Ec Ew Eq H. unfold weight. rewrite Ew, Eq, Ec.
  assert (Ht : total call_weight (partial_alter (fun _ => o) id (calls s)) = total call_weight (calls s) - call_weight p + opt_sum call_weight o).
  { destruct o as [q|]; [change (partial_alter _ _ _) with (<[id := q]> (calls s))|change (partial_alter _ _ _) with (delete id (calls s))]; rewrite ?total_insert, ?total_delete, Hp; cbn; lia. }
  lia.
Qed.

Ltac weigh o n := eapply (weight_call _ _ _ _ o n); [eassumption|reflexivity|reflexivity|cbn; rewrite ?len_app; unfold len; cbn; try lia|cbn; repeat match goal with |- context [wake ?s] => destruct (wake s) end; cbn; try lia].
Ltac weigh_goto := match goal with |- weight (goto _ ?q _) < _ => weigh (Some q) 0 | |- _ => weigh (@None cpc) 0 end.

Lemma weight_slow s b id p c : calls s !! id = Some p -> 17 < call_weight p -> weight (slow_path id c (s <| wmu := b |>)) < weight s.
Proof.
  intros Hp Hw. destruct (slow_path_cases id c (s <| wmu := b |>)) as [(r & block & -> & _)|[-> | ->]]; weigh_goto.
Qed.

(** The calls ... *)
Lemma weight_acquire s id c ended :
  dying s = true ->
  (calls s !! id = Some (PStart c) -> weight (acquire_load id c s) < weight s)
  /\ (calls s !! id = Some (PLoaded c) -> weight (acquire_lock id c s) < weight s)
  /\ (calls s !! id = Some (PLocked c) -> weight (acquire_check id c ended s) < weight s).
Proof.
  intros Hd. split; [|split]; intros Hp.
  - unfold acquire_load. destruct (_ && _); [weigh_goto|]. rewrite (same_wmu s) at 1. by eapply weight_slow.
  - unfold acquire_lock. destruct (wmu s); [|weigh_goto]. rewrite (same_wmu s) at 1. by eapply weight_slow.
  - unfold acquire_check. rewrite Hd, orb_true_r. by eapply weight_slow.
Qed.

Lemma weight_direct s id w ended :
  sock_closed s = true ->
  (forall ce bufs n b, calls s !! id = Some (PWrite ce bufs n b) -> takes s bufs w = true -> weight (publish_slice id ce bufs n b w ended s) < weight s)
  /\ (forall ordered first fs, calls s !! id = Some (PCollect ordered first) -> weight (call_collect id ordered first fs s) < weight s)
  /\ (forall ordered bufs, calls s !! id = Some (PEngine ordered bufs) -> takes s bufs w = true -> weight (engine_slice id ordered bufs w ended s) < weight s).
Proof.
  intros Hc. split; [|split].
  - intros ce bufs n b Hp Ht. apply closed_takes in Ht; [|done]. unfold publish_slice, release. rewrite Ht. split_ifs; weigh_goto.
  - intros ordered first fs Hp. unfold call_collect, release. destruct fs; split_ifs; weigh_goto.
  - intros ordered bufs Hp Ht. apply closed_takes in Ht; [|done]. unfold engine_slice, release. rewrite Ht. split_ifs; weigh_goto.
Qed.

Lemma weight_queue s id r block :
  (calls s !! id = Some (PQueue r block) -> weight (queue_admit id r block s) < weight s)
  /\ (forall s', calls s !! id = Some (PSend r block) -> send_put id r s = Some s' -> weight s' < weight s)
  /\ (forall why s', calls s !! id = Some (PSend r block) -> send_give_up id r block why s = Some s' -> weight s' < weight s).
Proof.
  split; [|split].
  - intros Hp. unfold queue_admit, refuse. destruct (closed s); weigh_goto.
  - intros s' Hp. unfold send_put. destruct (_ <? _)%nat; [|done]. intros [= <-]. weigh (@None cpc) 1.
  - intros why s' Hp. unfold send_give_up, refuse. destruct (send_fails _ _ _); [|done]. intros [= <-]. weigh_goto.
Qed.

(** ... and the writer. *)
Ltac weigh_writer E := unfold weight; cbn; rewrite ?E; unfold len; cbn; try lia.

Lemma weight_writer s w fs s' : sock_closed s = true -> writer_step w fs s = Some s' -> weight s' < weight s.
Proof.
  intros Hc. unfold writer_step. destruct (writer s) as [|r| |o|batch r|batch|batch next|r|k|bufs k|r|err| | | | | |] eqn:E; try done.
  - destruct (wmu s); [done|]. intros [= <-]. weigh_writer E.
  - destruct (wmu s); [done|]. intros [= <-]. weigh_writer E.
  - unfold write_rest, finish_opt, writer_put. destruct (rest s); [destruct (takes _ _ _); [|done]|]; intros [= <-]; destruct o; try destruct (write_ok w); weigh_writer E.
  - intros [= <-]. unfold process_write. destruct (r_kind r); split_ifs; weigh_writer E.
  - intros [= <-]. unfold process_more. destruct (writeQueue s) eqn:Eq; weigh_writer E; rewrite ?Eq; cbn; lia.
  - unfold flush_batch, finish_opt, writer_put. destruct batch; [|destruct (takes _ _ _); [|done]]; intros [= <-]; destruct next; try destruct (write_ok w); weigh_writer E.
  - unfold write_one. destruct (r_kind r) as [|[] |]; try done; intros [= <-]; weigh_writer E.
  - intros [= <-]. unfold writer_collect. destruct fs, k; weigh_writer E.
  - unfold writer_engine, finish_opt, write_ok. destruct (takes s bufs w) eqn:Et; [|done]. rewrite (closed_takes s bufs w Hc Et). intros [= <-]. destruct k; weigh_writer E.
  - unfold write_fn, writer_put. destruct (r_kind r) as [|? [b|]|]; try done; [destruct (takes _ _ _); [|done]|]; intros [= <-]; try destruct (write_ok w); weigh_writer E.
  - intros [= <-]. destruct err; weigh_writer E.
  - intros [= <-]. weigh_writer E.
  - intros [= <-]. weigh_writer E.
  - unfold close_queue. destruct (forallb _ _); [|done]. intros [= <-]. weigh_writer E.
  - unfold drop_rest. destruct (wmu s); [done|]. intros [= <-]. destruct (rest s); weigh_writer E.
  - intros [= <-]. unfold drain_one. destruct (writeQueue s) eqn:Eq; weigh_writer E; rewrite ?Eq; cbn; lia.
Qed.

Lemma weight_step s e s' : down s -> internal e = true -> step s e = Some s' -> weight s' < weight s.
Proof.
  intros [Hd Hc] Hi. destruct e; try done; cbn [step]; try (destruct (calls s !! id) as [[]|] eqn:Hp; try done).
  - intros [= <-]. by apply (weight_acquire s id c true).
  - intros [= <-]. by apply (weight_acquire s id c true).
  - intros [= <-]. by apply (weight_acquire s id c ended).
  - intros [= <-]. by apply (weight_direct s id (mkWritten 0 WErr) true).
  - destruct (takes _ _ _) eqn:E; [|done]. intros [= <-]. by apply weight_direct.
  - destruct (takes _ _ _) eqn:E; [|done]. intros [= <-]. by apply weight_direct.
  - intros [= <-]. by apply weight_queue.
  - by apply (weight_queue s id r block).
  - by apply (weight_queue s id r block).
  - destruct (writer s) eqn:E, (writeQueue s) eqn:Eq; try done. intros [= <-]. weigh_writer E. rewrite ?Eq. cbn. lia.
  - destruct (writer s) eqn:E, (wake s) eqn:Eq; try done. intros [= <-]. weigh_writer E. rewrite ?Eq. cbn. lia.
  - destruct (writer s) eqn:E, (dying s || shutdown s) eqn:Eq; try done. intros [= <-]. weigh_writer E.
  - by apply weight_writer.
Qed.
(** Down is for good. *)
Lemma slow_down id c s : down s -> down (slow_path id c s).
Proof. intros H. by destruct (slow_path_cases id c s) as [(? & ? & -> & _)|[-> | ->]]. Qed.

Lemma release_down id ok s : down s -> down (release id ok s).
Proof. intros H. unfold release. by destruct ok. Qed.

Lemma handOff_down bufs s : down s -> down (handOff bufs s).
Proof. intros [Hd Hc]. unfold handOff. by rewrite Hd. Qed.

Lemma down_writer s w fs s' : down s -> writer_step w fs s = Some s' -> down s'.
Proof.
  intros H. unfold writer_step, write_rest, process_write, process_more, flush_batch, write_one, writer_collect, writer_engine, write_fn, close_queue, drop_rest, drain_one, finish_opt, writer_put.
  intros Hs. repeat match type of Hs with context [match ?x with _ => _ end] => destruct x; try discriminate Hs end; injection Hs as <-; by destruct H.
Qed.

Lemma down_step s e s' : down s -> internal e = true -> step s e = Some s' -> down s'.
Proof.
  intros H Hi. pose proof H as [Hd Hc]. destruct e; try done; cbn [step]; try (destruct (calls s !! id) as [[]|] eqn:Hp; try done).
  - intros [= <-]. unfold acquire_load. destruct (_ && _); [done|by apply slow_down].
  - intros [= <-]. unfold acquire_lock. destruct (wmu s); [by apply slow_down|done].
  - intros [= <-]. unfold acquire_check. rewrite Hd, orb_true_r. by apply slow_down.
  - intros [= <-]. unfold call_collect. destruct fs, (_ && _); first [by apply release_down|done].
  - destruct (takes _ _ _) eqn:E; [|done]. intros [= <-]. unfold publish_slice. rewrite (closed_takes _ _ _ Hc E). split_ifs; by apply release_down.
  - destruct (takes _ _ _) eqn:E; [|done]. intros [= <-]. unfold engine_slice. rewrite (closed_takes _ _ _ Hc E). by apply release_down.
  - intros [= <-]. unfold queue_admit. by destruct (closed s).
  - unfold send_put. destruct (_ <? _)%nat; [|done]. by intros [= <-].
  - unfold send_give_up. destruct (send_fails _ _ _); [|done]. by intros [= <-].
  - destruct (writer s), (writeQueue s); try done. by intros [= <-].
  - destruct (writer s), (wake s); try done. by intros [= <-].
  - destruct (writer s), (dying s || shutdown s); try done. by intros [= <-].
  - by apply down_writer.
Qed.

(** ** Nothing blocks *)

Definition moves (s : world) : Prop := exists e, internal e = true /\ is_Some (step s e).

Definition refused_write : written := mkWritten 0 WErr.

Lemma refused_takes s bufs : takes s bufs refused_write = true.
Proof. unfold takes. cbn. by destruct (sock_closed s). Qed.

(** The holder of the lock gives it back. *)
Lemma holder_moves s : conn_ok s -> wmu s = true -> writer_holds (writer s) = false -> moves s.
Proof.
  intros [K _ _] Hm Hw. pose proof (k_lock _ K) as Hl. rewrite Hm, Hw in Hl. cbn in Hl. destruct (total_pos holding (calls s) ltac:(lia)) as (i & p & Hp & Hh). destruct p; try (cbn in Hh; lia).
  - exists (ECheck i true). cbn. rewrite Hp. split; [done|by eexists].
  - exists (ESlice i refused_write true). cbn [step]. rewrite Hp, refused_takes. split; [done|by eexists].
  - exists (ECollect i []). cbn. rewrite Hp. split; [done|by eexists].
  - exists (ESlice i refused_write true). cbn [step]. rewrite Hp, refused_takes. split; [done|by eexists].
Qed.

Lemma sender_moves s : dying s = true -> forallb (fun p => negb (sending p.2)) (map_to_list (calls s)) = false -> moves s.
Proof.
  intros Hd Hf. assert (Hex : exists p, p ∈ map_to_list (calls s) /\ sending p.2 = true).
  { induction (map_to_list (calls s)) as [|p l IH]; [done|]. cbn in Hf. apply andb_false_iff in Hf as [Hf|Hf]; [exists p; split; [by left|by apply negb_false_iff in Hf]|].
    destruct (IH Hf) as (q & Hq & ?). exists q. split; [by right|done]. }
  destruct Hex as ([i p] & Hp%elem_of_map_to_list & Hs). cbn in Hs. destruct p; try done. exists (EGiveUp i GDying). cbn. rewrite Hp. unfold send_give_up. cbn. rewrite Hd. split; [done|by eexists].
Qed.

Lemma exit_moves s : conn_ok s -> down s -> writer s <> WExit -> moves s.
Proof.
  intros C [Hd Hc] Hx. pose proof (t_kinds _ (c_stream _ C)) as Hk.
  assert (Hgo : (exists s', writer_step refused_write [] s = Some s') -> moves s) by (intros [s' E]; exists (EWriter refused_write []); cbn; rewrite E; split; [done|by eexists]).
  assert (Hlock : (wmu s = false -> exists s', writer_step refused_write [] s = Some s') -> writer_holds (writer s) = false -> moves s) by (intros Hf Hw; destruct (wmu s) eqn:Em; [by apply holder_moves|by apply Hgo, Hf]).
  destruct (writer s) eqn:E; cbn in Hk; try done.
  - exists EQuit. cbn. rewrite E, Hd. split; [done|by eexists].
  - apply Hlock; [|done]. intros Em. unfold writer_step. rewrite E, Em. by eexists.
  - apply Hlock; [|done]. intros Em. unfold writer_step. rewrite E, Em. by eexists.
  - apply Hgo. unfold writer_step, write_rest. rewrite E. destruct (rest s); rewrite ?refused_takes; by eexists.
  - apply Hgo. unfold writer_step. rewrite E. by eexists.
  - apply Hgo. unfold writer_step. rewrite E. by eexists.
  - apply Hgo. unfold writer_step, flush_batch. rewrite E. destruct batch; rewrite ?refused_takes; by eexists.
  - apply Hgo. unfold writer_step, write_one. rewrite E. unfold is_pkt in Hk. destruct (r_kind r) as [|[] |]; [by destruct Hk|by eexists..].
  - apply Hgo. unfold writer_step. rewrite E. by eexists.
  - apply Hgo. unfold writer_step, writer_engine. rewrite E, refused_takes. by eexists.
  - apply Hgo. unfold writer_step, write_fn. rewrite E. unfold is_fn in Hk. destruct (r_kind r) as [|? [b|]|]; try done; rewrite ?refused_takes; by eexists.
  - apply Hgo. unfold writer_step. rewrite E. by eexists.
  - apply Hgo. unfold writer_step. rewrite E. by eexists.
  - apply Hgo. unfold writer_step. rewrite E. by eexists.
  - destruct (forallb (fun p => negb (sending p.2)) (map_to_list (calls s))) eqn:Ef; [|by apply sender_moves]. apply Hgo. unfold writer_step, close_queue. rewrite E, Ef. by eexists.
  - apply Hlock; [|done]. intros Em. unfold writer_step, drop_rest. rewrite E, Em. by eexists.
  - apply Hgo. unfold writer_step. rewrite E. by eexists.
Qed.

Lemma internal_runs es : forall s s', down s -> Forall (fun e => internal e = true) es -> run s es = Some s' -> down s' /\ weight s' + len es <= weight s.
Proof.
  induction es as [|e es IH]; intros s s' H Hf; cbn [run]; [intros [= <-]; split; [done|]; unfold len; cbn; lia|]. apply Forall_cons in Hf as [He Hf]. destruct (step s e) as [s1|] eqn:E; [|done]. intros Hr.
  destruct (IH s1 s' (down_step _ _ _ H He E) Hf Hr) as [H' Hw]. pose proof (weight_step _ _ _ H He E). split; [done|]. rewrite len_cons. lia.
Qed.

(** ** Theorems *)

(** C17: a connection that goes down is wound up. From any state in which it is
    dying and its socket is closed, however the calls and the writer are
    scheduled, they take at most [weight] more steps; where they stop the writer
    has exited and every request it or the queue had was answered: no lock, no
    full queue and no answer nobody reads holds them up. *)
Theorem writer_exits direct cap batchMax es s es' s' :
  run (new_conn direct cap batchMax) es = Some s -> dying s = true -> sock_closed s = true ->
  Forall (fun e => internal e = true) es' -> run s es' = Some s' ->
  len es' <= weight s /\ (~ moves s' -> writer s' = WExit /\ map fst (finished s') = accepted s').
Proof.
  intros C%reach_conn Hd Hc Hf Hr. destruct (internal_runs es' s s' (conj Hd Hc) Hf Hr) as [H' Hw]. pose proof (conn_weight_nonneg s'). split; [lia|]. intros Hm.
  assert (C' : conn_ok s') by (by eapply run_conn). assert (writer s' = WExit \/ writer s' <> WExit) as [Hx|Hx] by (destruct (writer s'); first [by left|by right]); [|by destruct Hm; apply exit_moves]. split; [done|].
  destruct C' as [K [Q _] _]. rewrite <- (q_accepted _ Q). unfold pending. rewrite (k_exit _ K Hx), Hx. by rewrite app_nil_r.
Qed.

(** ** A packet after a dropped tail *)

(** Between the close of [dying] and that of the socket, [signalDown] leaves a
    moment in which a caller's interrupted PUBLISH is dropped and the writer,
    which had taken a request, still writes it. *)
Definition torn : list event :=
  [EBegin (CPublish true true true (Some ([48; 5], [1; 2; 3; 4; 5]))); ELoad 0; ETryLock 0; ECheck 0 false;
   EBegin (CRequest false (Some [192; 0]) false true); ELoad 1; EAdmit 1; ESend 1; ETake; EDown;
   ESlice 0 (mkWritten 4 WDeadline) true]
  ++ replicate 5 (EWriter (mkWritten 0 WOk) []) ++ [EWriter (mkWritten 2 WOk) []].

(** The socket took four bytes of the PUBLISH and then, without an error, the
    PINGREQ: its bytes are not the packets begun. *)
Lemma packet_after_dropped_tail :
  match run (new_conn true 4 8) torn with
  | Some s => out s = [48; 5; 1; 2] ++ [192; 0] /\ map (fun p => p.2) (finished s) = [None] /\ ~ exists tail, out s ++ tail = bytes (log s)
  | None => False
  end.
Proof. vm_compute. split; [reflexivity|]. split; [reflexivity|]. intros [tail E]. discriminate E. Qed.

(** ** Witness *)

(** The queue is full and a second caller waits for room when the connection
    goes down. *)
Definition stuck : list event :=
  [EBegin (CRequest false (Some [192; 0]) true true); ELoad 0; EAdmit 0; ESend 0; EBegin (CRequest false (Some [192; 0]) true true); ELoad 1; EAdmit 1; EDown; EClosed].
Definition unwinding : list event := [EQuit; EWriter refused_write []; EGiveUp 1 GDying] ++ replicate 4 (EWriter refused_write []).
Definition stuck_end : world := default (new_conn true 1 8) (run (new_conn true 1 8) stuck).
Definition unwound : world := default stuck_end (run stuck_end unwinding).

Lemma stuck_runs : run (new_conn true 1 8) stuck = Some stuck_end.
Proof. vm_compute. reflexivity. Qed.
Lemma unwinding_runs : run stuck_end unwinding = Some unwound.
Proof. vm_compute. reflexivity. Qed.

Lemma idle_done s : calls s = ∅ -> writer s = WExit -> ~ moves s.
Proof.
  intros Ec Ew (e & Hi & s' & Hs). destruct e; try done; cbn in Hs; unfold writer_step in Hs; rewrite ?Ec, ?Ew in Hs; try done; by rewrite lookup_empty in Hs.
Qed.

Lemma writer_exits_witness :
  run (new_conn true 1 8) stuck = Some stuck_end /\ run stuck_end unwinding = Some unwound /\ len unwinding <= weight stuck_end /\ writer unwound = WExit /\ map fst (finished unwound) = accepted unwound.
Proof.
  split; [exact stuck_runs|]. split; [exact unwinding_runs|].
  destruct (writer_exits true 1 8 stuck stuck_end unwinding unwound stuck_runs ltac:(vm_compute; reflexivity) ltac:(vm_compute; reflexivity) ltac:(repeat constructor) unwinding_runs) as [Hw Hx].
  split; [exact Hw|]. apply Hx. apply idle_done; vm_compute; reflexivity.
Defined.

End ConnExit.
