(* ===== verification/OutAlias.v ===== *)
(** * OutAlias: outbound topic aliases (publish.go)

    [publishQoS0] and [assignOutboundAlias]: repeated topics of QoS 0 PUBLISHes
    are replaced by aliases the broker learned earlier on the connection. The
    calls that touch the table hold [aliasSlot] until their packet is admitted,
    and admission is the write order ([ConnStream.write_order]), so they are a
    sequence; [admitted] is what [admitQoS0] answered each. *)

From stdpp Require Import gmap.
From S2P Require Import Prelude GoLib Publish Dispatch.

Module OutAlias.

#[export] Instance PublishOpts_rebuild : Rebuild PublishOpts := fun o =>
  mkPublishOpts (Topic o) (Payload o) (QoS o) (Retain o) (Dup o) (PacketID o) (PayloadFormatIndicator o) (MessageExpiryInterval o) (ContentType o) (ResponseTopic o)
    (CorrelationData o) (TopicAlias o) (UserProps o).

(** The table of a [connState]: [outAliasMap] and the uint16 [outAliasNext]. *)
Record table : Type := mkTable { outAliasMap : gmap (list Z) Z; outAliasNext : Z }.

Definition new_table : table := mkTable ∅ 0.

(** [assignOutboundAlias]: the table, the options as changed, and the topic if
    an alias was registered. *)
Definition assignOutboundAlias (maximum : Z) (t : table) (opts : PublishOpts) : table * PublishOpts * option (list Z) :=
  match outAliasMap t !! Topic opts with
  | Some alias => (t, opts <| TopicAlias := alias |> <| Topic := [] |>, None)
  | None =>
      if maximum <=? outAliasNext t then (t, opts, None)
      else
        let next := (outAliasNext t + 1) mod 65536 in
        (mkTable (<[Topic opts := next]> (outAliasMap t)) next, opts <| TopicAlias := next |>, Some (Topic opts))
  end.

Inductive outcome : Type :=
| AliasInvalid                  (* ErrTopicAliasInvalid *)
| Sent (opts : PublishOpts)     (* the packet is in the write order *)
| NotSent.                      (* the error of [admitQoS0] *)

(** [publishQoS0], up to the wait for the write; [enabled] is
    [WithOutboundTopicAliases]. *)
Definition publishQoS0 (enabled : bool) (maximum : Z) (t : table) (opts : PublishOpts) (admitted : bool) : table * outcome :=
  if negb (TopicAlias opts =? 0) && (maximum <? TopicAlias opts) then (t, AliasInvalid)
  else if enabled && (TopicAlias opts =? 0) && negb (bool_decide (Topic opts = [])) && (0 <? maximum) then
    let '(t, opts, registered) := assignOutboundAlias maximum t opts in
    let t := match registered with
             | Some topic => if admitted then t else mkTable (delete topic (outAliasMap t)) ((outAliasNext t - 1) mod 65536)
             | None => t
             end in
    (t, if admitted then Sent opts else NotSent)
  else (t, if admitted then Sent opts else NotSent).

(** The packets of a sequence of calls, in the write order. *)
Fixpoint publish_all (enabled : bool) (maximum : Z) (t : table) (calls : list (PublishOpts * bool)) : list PublishOpts :=
  match calls with
  | [] => []
  | (opts, admitted) :: calls =>
      let (t, r) := publishQoS0 enabled maximum t opts admitted in
      match r with Sent o => o :: publish_all enabled maximum t calls | _ => publish_all enabled maximum t calls end
  end.

(** ** The broker *)

(** What a receiver that resolves aliases as section 3.3.2.3.4 says (and as
    this client does) takes the topics to be. *)
Definition wire_alias (o : PublishOpts) : option Z := if TopicAlias o =? 0 then None else Some (TopicAlias o).

Fixpoint received (maximum : Z) (m : gmap Z (list Z)) (ps : list PublishOpts) : list Dispatch.alias_verdict :=
  match ps with
  | [] => []
  | o :: ps => let (m, v) := Dispatch.resolveTopicAlias maximum m (wire_alias o) (Topic o) in v :: received maximum m ps
  end.

(** The table and the broker's agree. *)
Record agree (maximum : Z) (t : table) (m : gmap Z (list Z)) : Prop := {
  a_next : 0 <= outAliasNext t <= maximum;
  a_known topic a : outAliasMap t !! topic = Some a -> 1 <= a <= outAliasNext t /\ m !! a = Some topic;
}.

Lemma agree_resolve maximum t m topic a : agree maximum t m -> outAliasMap t !! topic = Some a -> Dispatch.resolveTopicAlias maximum m (Some a) [] = (m, Dispatch.AliasOk topic).
Proof.
  intros [Hn Hk] E. destruct (Hk _ _ E) as [Ha Hm]. unfold Dispatch.resolveTopicAlias. rewrite (proj2 (Z.eqb_neq a 0)), (proj2 (Z.ltb_ge maximum a)) by lia. cbn. by rewrite Hm.
Qed.

(** One call: the table still agrees with what the broker will know. *)
Lemma publish_agree enabled maximum t m opts admitted t' r :
  0 <= maximum <= 65535 -> agree maximum t m -> TopicAlias opts = 0 -> Topic opts <> [] -> publishQoS0 enabled maximum t opts admitted = (t', r) ->
  if admitted then exists o m', r = Sent o /\ o <| Topic := Topic opts |> <| TopicAlias := 0 |> = opts
      /\ Dispatch.resolveTopicAlias maximum m (wire_alias o) (Topic o) = (m', Dispatch.AliasOk (Topic opts)) /\ agree maximum t' m'
  else r = NotSent /\ agree maximum t' m.
Proof.
  intros Hmax A Ha Ht. unfold publishQoS0. rewrite Ha. cbn [Z.eqb negb andb]. rewrite andb_true_r, bool_decide_eq_false_2 by done. cbn [negb]. rewrite andb_true_r.
  assert (Hplain : Dispatch.resolveTopicAlias maximum m (wire_alias opts) (Topic opts) = (m, Dispatch.AliasOk (Topic opts))) by (unfold wire_alias; by rewrite Ha).
  assert (Hsame : opts <| Topic := Topic opts |> <| TopicAlias := 0 |> = opts) by (rewrite <- Ha; by destruct opts).
  destruct (enabled && (0 <? maximum)); [|intros [= <- <-]; destruct admitted; [by exists opts, m|done]].
  unfold assignOutboundAlias. destruct (outAliasMap t !! Topic opts) as [a|] eqn:E.
  - intros [= <- <-]. destruct admitted; [|done]. eexists _, m. split; [done|]. split; [exact Hsame|]. split; [|done]. unfold wire_alias. cbn. destruct (a_known _ _ _ A _ _ E) as [Hr _].
    rewrite (proj2 (Z.eqb_neq a 0)) by lia. by eapply agree_resolve.
  - destruct (Z.leb_spec maximum (outAliasNext t)) as [Hle|Hlt]; [intros [= <- <-]; destruct admitted; [by exists opts, m|done]|]. destruct A as [Hn Hk].
    rewrite (Z.mod_small (outAliasNext t + 1)) by lia. set (n := outAliasNext t + 1) in *. intros [= <- <-]. cbn [outAliasMap outAliasNext]. destruct admitted.
    + exists (opts <| TopicAlias := n |>), (<[n := Topic opts]> m). split; [done|]. split; [exact Hsame|]. unfold wire_alias. cbn [TopicAlias]. change (TopicAlias (opts <| TopicAlias := n |>)) with n.
      change (Topic (opts <| TopicAlias := n |>)) with (Topic opts). rewrite (proj2 (Z.eqb_neq n 0)) by lia. unfold Dispatch.resolveTopicAlias. rewrite (proj2 (Z.eqb_neq n 0)), (proj2 (Z.ltb_ge maximum n)) by lia. cbn [orb].
      destruct (Topic opts) as [|x l] eqn:Et; [done|]. split; [done|]. split; [cbn; lia|]. cbn. intros topic a [[<- <-]|[Hne Hin]]%lookup_insert_Some; [rewrite lookup_insert_eq; split; [lia|done]|].
      destruct (Hk _ _ Hin) as [? Hm]. rewrite lookup_insert_ne by lia. split; [lia|done].
    + split; [done|]. replace (n - 1) with (outAliasNext t) by lia. rewrite Z.mod_small by lia. split; [done|]. cbn. rewrite delete_insert_id by done. apply Hk.
Qed.

Lemma publish_all_exact enabled maximum calls : forall t m,
  0 <= maximum <= 65535 -> agree maximum t m -> Forall (fun c => TopicAlias c.1 = 0 /\ Topic c.1 <> []) calls ->
  received maximum m (publish_all enabled maximum t calls) = map (fun c => Dispatch.AliasOk (Topic c.1)) (filter (fun c => c.2 = true) calls)
  /\ Forall2 (fun o c => o <| Topic := Topic c.1 |> <| TopicAlias := 0 |> = c.1) (publish_all enabled maximum t calls) (filter (fun c => c.2 = true) calls).
Proof.
  induction calls as [|[opts admitted] calls IH]; intros t m Hmax A Hf; cbn [publish_all]; [split; [done|constructor]|]. apply Forall_cons in Hf as [[Ha Ht] Hf]. cbn [fst snd] in *.
  destruct (publishQoS0 enabled maximum t opts admitted) as [t' r] eqn:E. pose proof (publish_agree _ _ _ m _ _ _ _ Hmax A Ha Ht E) as H. destruct admitted.
  - destruct H as (o & m' & -> & Ho & Hr & A'). rewrite filter_cons_True by done. cbn [received map fst]. rewrite Hr. destruct (IH t' m' Hmax A' Hf) as [IH1 IH2]. rewrite IH1. split; [done|]. by constructor.
  - destruct H as [-> A']. rewrite filter_cons_False by done. by apply IH.
Qed.

(** ** Theorems *)

(** C18: a broker that resolves topic aliases gets every message under its topic.
    Whatever QoS 0 messages are published on a connection, admitted or not, and
    whatever Topic Alias Maximum the broker granted, the PUBLISHes in the write
    order are the admitted messages, unchanged but for topic and alias, and
    resolve without a violation to exactly their topics; as long as no caller
    chooses aliases of its own. *)
Theorem outbound_aliases_exact enabled maximum calls :
  0 <= maximum <= 65535 -> Forall (fun c => TopicAlias c.1 = 0 /\ Topic c.1 <> []) calls ->
  let sent := publish_all enabled maximum new_table calls in
  let admitted := filter (fun c => c.2 = true) calls in
  received maximum ∅ sent = map (fun c => Dispatch.AliasOk (Topic c.1)) admitted
  /\ Forall2 (fun o c => o <| Topic := Topic c.1 |> <| TopicAlias := 0 |> = c.1) sent admitted.
Proof. intros Hmax Hf. apply publish_all_exact; [done| |done]. split; [cbn; lia|]. by intros topic a. Qed.

(** ** Witness *)

Definition note (topic : list Z) (alias : Z) : PublishOpts := mkPublishOpts topic [1] 0 false false 0 None None [] [] None alias [].

(** The first registration is undone, its alias goes to the next topic. *)
Definition notes : list (PublishOpts * bool) :=
  [(note (str "a") 0, false); (note (str "b") 0, true); (note (str "b") 0, true); (note (str "a") 0, true); (note (str "c") 0, true)].

Lemma outbound_aliases_exact_witness :
  map (fun o => (Topic o, TopicAlias o)) (publish_all true 2 new_table notes) = [(str "b", 1); ([], 1); (str "a", 2); (str "c", 0)]
  /\ received 2 ∅ (publish_all true 2 new_table notes) = map (fun t => Dispatch.AliasOk (str t)) ["b"; "b"; "a"; "c"]%string.
Proof.
  split; [vm_compute; reflexivity|]. destruct (outbound_aliases_exact true 2 notes ltac:(lia) ltac:(repeat constructor; discriminate)) as [H _]. exact H.
Defined.

(** ** A caller's own alias *)

(** The table does not learn the aliases callers set themselves: a message to
    ["x"] that registers alias 1 makes the broker take the next message to ["b"]
    for one to ["x"]. *)
Lemma own_alias_misroutes :
  let calls := [(note (str "b") 0, true); (note (str "x") 1, true); (note (str "b") 0, true)] in
  received 2 ∅ (publish_all true 2 new_table calls) = map (fun t => Dispatch.AliasOk (str t)) ["b"; "x"; "x"]%string.
Proof. vm_compute. reflexivity. Qed.

End OutAlias.
